(* ===== verification/_CoqProject ===== *)
-Q . S2P
Prelude.v
Js.v
Policy.v
RunBudget.v
TerminalReason.v
SafetyLimits.v
Limiter.v
Fifo.v
Monitors.v
HostBudget.v
Governor.v
SafeJson.v
Coordinator.v
ActionResults.v
SessionTables.v
RunTables.v
Db.v
Confirmations.v
Discriminators.v
Plan.v
Journal.v
Store.v
JournalResults.v
JournalMachine.v
ConfirmStore.v
JsonText.v
Batches.v
BatchLife.v
RunEvents.v
RunStore.v
RunLife.v
RunReads.v
ConfirmLife.v
Idempotency.v
UndoStore.v
Recovery.v
RecoverLife.v
RecoverTruth.v
RecoverRuns.v
RunSettle.v
SettleLife.v
Effects.v
WriteAuthority.v
MutationScope.v
AuthorityTable.v
PlanScope.v
RestCore.v
RestResults.v
Receipts.v
Workflow.v
WorkflowResults.v
World.v
Commit.v
Undo.v
Execute.v
WriteAhead.v
ConfirmService.v
ConfirmBatch.v
ConfirmOrder.v
Suggest.v
Schema.v
Scenarios.v
ClickScenario.v
UndoService.v
WritePrepare.v
TargetSnapshots.v
ToolSets.v
RunModel.v
RunLoop.v
RunOutcome.v
IntentCapability.v
IntentAuthority.v
IntentLiteral.v
IntentSound.v
IntentStore.v
IntentLedger.v
IntentStored.v
Clarifications.v
ClarifyService.v
