(* ===== verification/Prelude.v ===== *)
(** * A Clockify assistant for workspace admins: verification library

    The program (all of it under [src/src/]) is an add-on server: an admin writes a request,
    a language model proposes operations on the Clockify workspace, reads are executed at
    once, writes are shown as previews, and only a button click of the admin turns a
    preview into host mutations, each of them journaled before it is sent.  This library
    models the decision making and the durable state of that server and proves what
    makes it safe.  A definition carries the name of the function it translates where Rocq allows
    it, so it can be read beside the TypeScript; PROJECT.json gives the lines.

    ** How the program fits together

    - A chat turn becomes an _assistant run_ ([assistant-v2/runner.ts]): model call, searches
      of the API catalog, reads, preparation of writes, until it answers, fails or waits
      for the admin.  Every change of a run is one transaction with its event.
    - A proposed write passes _execution_ ([harness/actions.ts]: policy, schema,
      discriminators, write authority) and is stored as a _preview_ with its _operation_ and its
      mutation plan; several previews of one run can be bound in a _batch_.
    - A click reaches the _confirmation service_ ([services/confirmation-service.ts]): role
      check, workspace lease, policy, one-use claim, then the _commit_ under the
      idempotency ledger, a _mutation plan scope_ and the _mutation workflow_, which
      journals each step around the _host adapter_ ([clockify/rest/core.ts]).
    - Receipts of creations can be _undone_; a restart _recovers_ whatever was executing.
    - Host calls are bounded by budgets and by a per-workspace request governor; deletions of
      a workspace are fenced by a coordinator of leases.

    ** Files

    Foundations: Prelude (results, notations, tactics, lists), Js (JavaScript values, JSON
    text, UTF-8), JsonText (string literals read back), Effects (thrown errors and the
    monad [E]: state survives an exception), Db (the SQLite tables as finite maps with
    their checks and triggers, and the transaction monad [M]: an exception discards the
    state), SessionTables and RunTables (the remaining tables), Store (inversion of
    transactions, class [Keeps]).

    Pure policy and bounds: Policy ([auth/roles.ts], [harness/permissions.ts], [harness/risk.ts]),
    RunBudget ([assistant-v2/state.ts], [budgets.ts]), TerminalReason, SafetyLimits, Suggest, Schema
    ([harness/arg-shapes.ts]), Discriminators, SafeJson ([harness/safe-json.ts]), ActionResults,
    Plan, Receipts, WriteAuthority and AuthorityTable ([harness/write-authority.ts]).

    Concurrency and rate control, as step relations or folds over events: Limiter
    ([routes/rate-limit.ts]), Fifo ([routes/fifo-lock.ts]), Monitors, HostBudget and Governor
    ([clockify/request-governor.ts]), Coordinator ([clockify/workspace-mutation-coordinator.ts]).

    The durable store: Journal, JournalMachine, JournalResults ([db/store/operation-runs.ts]),
    Confirmations ([harness/confirmations.ts]), ConfirmStore and ConfirmLife
    ([db/store/confirmations.ts]), Batches and BatchLife ([db/store/confirmation-batches.ts]),
    Idempotency, UndoStore, RunEvents, RunStore, RunLife, RunReads ([db/store/runs.ts],
    [run-events.ts], [turn-runs.ts]), RunSettle and SettleLife, Recovery, RecoverLife,
    RecoverTruth, RecoverRuns ([db/store.ts]), IntentStore and IntentLedger
    ([db/store/intent-capabilities.ts]), Clarifications ([db/store/pending-clarifications.ts]), WritePrepare
    ([db/store/assistant-write-preparation.ts]).

    Intent capabilities: IntentCapability ([harness/intent-capability.ts]: literals of the
    request text, spans, parser), IntentAuthority ([harness/intent-authority.ts]), IntentLiteral,
    IntentSound, IntentStored.

    The path of a mutation: MutationScope, PlanScope, RestCore, RestResults
    ([clockify/rest/core.ts]), Workflow and WorkflowResults ([harness/mutation-workflow.ts]),
    World (one state for all of them, the instances of the interfaces [MutationHost], [Wire] and
    [MutationStepJournal]), Commit, Execute ([harness/actions.ts]), WriteAhead, ConfirmService,
    ConfirmBatch, ConfirmOrder ([services/confirmation-service.ts]), TargetSnapshots
    ([harness/target-snapshots.ts], [verified-mutation-step.ts], [durable-risky-write.ts],
    [reconciliation.ts]), Undo ([harness/undo.ts]),
    UndoService.

    The assistant run: ToolSets ([assistant-v2/discovery/api-search-tool.ts]), RunModel
    ([services/run-service.ts]), RunLoop ([assistant-v2/runner.ts],
    [services/action-execution-service.ts]), RunOutcome, ClarifyService
    ([services/clarification-service.ts]: the answer to a question by one of its options).

    Concrete worlds on which the theorems are instantiated: Scenarios, ClickScenario,
    and the [demo_] definitions at the end of a file.

    ** What is shown

    - A confirmed write happens once and only behind its gates: [confirm_dispatches_once],
      [confirmation_used_once], [batch_dispatches_in_order], [commit_once],
      [idempotency_exclusive], [undo_reverses_once], [undo_used_once].
    - Nothing reaches the host unjournaled or unplanned: [one_request_per_row],
      [mutation_gate], [scoped_step_exact], [scoped_result_complete], [mutation_sent_once],
      [write_authority_exact].
    - A write carries only what the admin wrote, a user name beside a literal for the admin
      and keys that hold dots apart: [authorized_values_authored]; the grant
      behind it is stored faithfully and spent within its limit: [capability_stored],
      [capability_ledger], [consume_replays].
    - A target that changed since its preview is not touched: [stale_target_unsent]; an
      ambiguous mutation is settled only on proof: [reconciliation_exact].
    - A proposal only prepares: [execute_gated], [v2_only_prepares]; a group of previews is
      saved, bound and made clickable in one transaction: [preparation_atomic].
    - The workflow runs its steps in order and stops at the first that is not clean:
      [execute_step_exact], [workflow_exact], [undo_plan_exact], [compensation_paired].
    - The journal is a state machine with one result per operation: [step_life],
      [operation_settles_once], [settlement_agrees], [closing_denies], [batch_sealed],
      [settle_run_once], [settle_batch_once].
    - A restart tells the truth: [recovery_truthful], [recovery_closes_runs]; the one
      interrupted state in which it cannot start: [interrupted_batch_blocks_startup].
    - Runs: the store refines an append-only log ([run_store_refines]), payloads round-trip
      ([event_payload_roundtrip]), the host-call ledger is bounded ([host_ledger_bounded]), a
      run ends and answers what is durable ([run_terminates], [run_row_bounded],
      [run_outcome_durable], [refine_ends_iff]).
    - Concurrency: [governor_capacity], [governor_rate], [governor_fifo_progress],
      [deletion_fence].
    - A question of a run has one life, and an option answers it once with the stored
      identifier: [question_life], [option_answered_once].
    The other theorems of the files (they carry no claim id) are properties of the same
    kind of the smaller components.

    ** Conventions, bounds and fuel

    - An integer column or counter is [Z]; JavaScript integers stay far below 2^53, and where
      the code tests [Number.isSafeInteger] so does the model ([safe_integer]).  Strings
      are lists of UTF-16 code units; byte lengths are those of UTF-8.
    - Code that is not in the repository is an argument: [sha256], the provider of the model,
      the host, the schema library, [toLowerCase] and [localeCompare].  Ports of a service are a
      record; what a theorem needs of them is a named record of laws ([PortsKeep],
      [undo_ports_keep], [JournalLaws] and the like), satisfied by the concrete worlds.
    - Fuel: [drain] takes the length of the queue ([drain_fuel] shows that more changes
      nothing); [search] of SafeJson halves an interval; [run_loop] needs six rounds
      ([run_terminates]); [trim_loaded] needs none while at most twelve tools were used
      ([refine_ends_iff]); every other recursion is structural.
    - A transaction reads the clock once; fresh ids and random blobs are arguments; rows of a
      table are enumerated in map order where a query names no order.
    - [AsyncLocalStorage] is a component of the state, installed around a computation.

    ** Not modelled, or modelled in part

    - Text of log lines and metrics; headers and the derivation of host URLs; the heartbeat of
      the idempotency ledger; [String(value)] of thrown non-errors is an argument.
    - The size check of [result_summary] columns of pending rows; JSON columns hold the parsed
      value; timestamps are instants, not texts.
    - The provider of a run is its two attempts, and its pool of reads is a port that gives the outcome of each call.
    - The domain workflows, one file per Clockify entity, are payload building over the modelled
      workflow, receipts and adapter; the REST area modules are one thin method per endpoint.
    - The generated catalog, the prompts of the older assistant loop, HTTP routes, server
      start, browser client, encryption and file backup, add-on installation pages and the
      scripts: input and output, generated data, or glue over the modelled services.
      PROJECT.json lists each with its reason.

    ** What the modelling found

    The findings of PROJECT.json, most with a theorem that exhibits them: among others a
    batch interrupted between claim and first request blocks every later start, a second
    Confirm all cancels a batch that is running, an undo from another session can never be
    settled, a preparation that throws fails its run, the charges of a model call that
    throws are lost, and a scalar at the path of a declared list is admitted. *)
From stdpp Require Export base gmap sets list strings numbers sorting.
From Stdlib Require Export ZArith Lia.

(** ** Results of operations that may throw

    JavaScript operations of the program either return a value or throw an
    [Error] whose message the callers (and the tests) discriminate on. *)

Inductive result (A : Type) : Type :=
| Ok (a : A)
| Throw (message : string).
Arguments Ok {A} a.
Arguments Throw {A} message.

Definition rbind {A B} (r : result A) (k : A → result B) : result B :=
  match r with
  | Ok a => k a
  | Throw e => Throw e
  end.

Definition is_ok {A} (r : result A) : bool :=
  match r with Ok _ => true | Throw _ => false end.

Declare Scope s2p_scope.
Delimit Scope s2p_scope with s2p.
Notation "'let!' x := c 'in' k" := (rbind c (fun x => k))
  (at level 10, x pattern, c at level 100, k at level 200) : s2p_scope.
Notation "'guard!' b 'else' e 'in' k" := (if b then k else Throw e)
  (at level 10, b at level 100, e at level 100, k at level 200) : s2p_scope.
Open Scope s2p_scope.

Lemma rbind_ok {A B} (r : result A) (k : A → result B) b :
  rbind r k = Ok b ↔ ∃ a, r = Ok a ∧ k a = Ok b.
Proof.
  destruct r; simpl; split.
  - eauto.
  - by intros (? & [= <-] & ?).
  - done.
  - by intros (? & ? & ?).
Qed.

(** ** Reachability of a labelled step function

    The stateful components are given as [step : state → event → state]; a run is
    a list of events, and an invariant is proved once for all runs. *)

Section Runs.
Context {St Ev : Type} (step : St → Ev → St).

Definition run_events (s : St) (evs : list Ev) : St := foldl step s evs.

Lemma run_events_app s evs1 evs2 :
  run_events s (evs1 ++ evs2) = run_events (run_events s evs1) evs2.
Proof. apply foldl_app. Qed.

Lemma run_invariant (I : St → Prop) s evs :
  I s → (∀ s e, I s → I (step s e)) → I (run_events s evs).
Proof. intros HI Hstep. revert s HI. induction evs; simpl; auto. Qed.

Lemma run_preorder (R : St → St → Prop) s evs :
  PreOrder R → (∀ s e, R s (step s e)) → R s (run_events s evs).
Proof.
  intros ? Hstep. revert s. induction evs as [|e evs IH]; intros s; simpl; [done|].
  etrans; [apply Hstep|apply IH].
Qed.
End Runs.

(** ** Tactics *)

(** Split every [match]/[if] of the goal and close the easy branches. *)
Ltac split_cases := repeat (case_match || case_decide || case_bool_decide); simplify_eq/=.

(** Boolean hypotheses and goals as propositions over [Z]. *)
Ltac zbool :=
  repeat match goal with
  | H : (_ && _)%bool = true |- _ => apply andb_true_iff in H as [? ?]
  | H : (_ || _)%bool = false |- _ => apply orb_false_iff in H as [? ?]
  | H : negb _ = true |- _ => apply negb_true_iff in H
  | H : negb _ = false |- _ => apply negb_false_iff in H
  | H : (_ <? _)%Z = true |- _ => apply Z.ltb_lt in H
  | H : (_ <? _)%Z = false |- _ => apply Z.ltb_ge in H
  | H : (_ <=? _)%Z = true |- _ => apply Z.leb_le in H
  | H : (_ <=? _)%Z = false |- _ => apply Z.leb_gt in H
  | H : (_ =? _)%Z = true |- _ => apply Z.eqb_eq in H
  | H : (_ =? _)%Z = false |- _ => apply Z.eqb_neq in H
  end.

(** Linear arithmetic with division and remainder by constants. *)
Ltac zdiv := Z.to_euclidean_division_equations; lia.

(** ** Lists *)

(** Drop the longest prefix satisfying [p]: the [while (xs[0] ...) xs.shift()] loop. *)
Fixpoint drop_while {A} (p : A → bool) (l : list A) : list A :=
  match l with
  | [] => []
  | x :: l' => if p x then drop_while p l' else l
  end.

Lemma drop_while_suffix {A} (p : A → bool) l : drop_while p l `suffix_of` l.
Proof.
  induction l as [|x l IH]; simpl; [done|].
  destruct (p x); [by apply suffix_cons_r|done].
Qed.

Lemma drop_while_head {A} (p : A → bool) l x l' :
  drop_while p l = x :: l' → p x = false.
Proof.
  induction l as [|y l IH]; simpl; [done|].
  destruct (p y) eqn:E; [auto|naive_solver].
Qed.

Lemma drop_while_length {A} (p : A → bool) l :
  (length (drop_while p l) ≤ length l)%nat.
Proof. apply suffix_length, drop_while_suffix. Qed.

(** On an ascending list of times, dropping the stale prefix is filtering. *)
Lemma drop_while_filter (c : Z) (l : list Z) :
  StronglySorted Z.le l →
  drop_while (λ t, t <=? c)%Z l = filter (λ t, c < t)%Z l.
Proof.
  induction 1 as [|x l Hs IH Hx]; simpl; [done|].
  rewrite filter_cons. destruct (Z.leb_spec x c); case_decide; try lia; [done|].
  f_equal. clear IH Hs. induction Hx as [|y l Hy Hl IH]; [done|].
  rewrite filter_cons_True by lia. by f_equal.
Qed.

Lemma StronglySorted_snoc {A} (R : relation A) l x :
  StronglySorted R l → Forall (λ y, R y x) l → StronglySorted R (l ++ [x]).
Proof.
  induction 1 as [|y l Hs IH Hy]; simpl; intros Hall; [repeat constructor|].
  inversion Hall; subst. constructor; [by apply IH|].
  apply Forall_app; split; [done|by constructor].
Qed.

Lemma Forall_filter {A} (P Q : A → Prop) `{∀ x, Decision (Q x)} (l : list A) :
  Forall P l → Forall P (filter Q l).
Proof.
  induction 1 as [|x l Hx Hl IH]; [constructor|].
  rewrite filter_cons. case_decide; [by constructor|done].
Qed.

Lemma filter_id {A} (P : A → Prop) `{∀ x, Decision (P x)} (l : list A) :
  Forall P l → filter P l = l.
Proof. induction 1 as [|x l Hx Hl IH]; [done|]. rewrite filter_cons_True by done. by f_equal. Qed.

Lemma filter_none {A} (P : A → Prop) `{∀ x, Decision (P x)} (l : list A) :
  Forall (λ x, ¬ P x) l → filter P l = [].
Proof. induction 1 as [|x l Hx Hl IH]; [done|]. by rewrite filter_cons_False. Qed.

Lemma omap_length_le {A B} (f : A → option B) l : (length (omap f l) ≤ length l)%nat.
Proof. induction l as [|x l IH]; csimpl; [lia|]. destruct (f x); csimpl; lia. Qed.

(** ** Counting with a boolean predicate *)

Fixpoint countb {A} (p : A → bool) (l : list A) : Z :=
  match l with
  | [] => 0
  | x :: l' => (if p x then 1 else 0) + countb p l'
  end%Z.

Section Count.
Context {A : Type}.
Implicit Types (p q : A → bool) (l : list A).

Lemma countb_nonneg p l : (0 ≤ countb p l)%Z.
Proof. induction l as [|x l IH]; simpl; [lia|]. destruct (p x); lia. Qed.

Lemma countb_le_length p l : (countb p l ≤ Z.of_nat (length l))%Z.
Proof. induction l as [|x l IH]; simpl; [lia|]. destruct (p x); lia. Qed.

Lemma countb_filter (P : A → Prop) `{!∀ x, Decision (P x)} l :
  countb (λ x, bool_decide (P x)) l = Z.of_nat (length (filter P l)).
Proof. induction l as [|x l IH]; simpl; [done|]. rewrite filter_cons, IH. repeat case_decide; case_bool_decide; simpl; done || lia. Qed.
Lemma countb_app p l1 l2 : countb p (l1 ++ l2) = (countb p l1 + countb p l2)%Z.
Proof. induction l1 as [|x l IH]; simpl; [lia|]. destruct (p x); lia. Qed.

Lemma countb_snoc p l x : countb p (l ++ [x]) = (countb p l + if p x then 1 else 0)%Z.
Proof. rewrite countb_app. simpl. destruct (p x); lia. Qed.

Lemma countb_insert p l i x y :
  l !! i = Some x →
  countb p (<[i := y]> l) =
    (countb p l - (if p x then 1 else 0) + (if p y then 1 else 0))%Z.
Proof.
  revert i. induction l as [|z l IH]; intros [|i] Hi; simplify_eq/=; [destruct (p x), (p y); lia|].
  rewrite (IH i Hi). destruct (p z); lia.
Qed.

Lemma countb_mono p q l :
  (∀ x, x ∈ l → p x = true → q x = true) → (countb p l ≤ countb q l)%Z.
Proof.
  induction l as [|x l IH]; simpl; intros Hpq; [lia|].
  assert (countb p l ≤ countb q l)%Z by (apply IH; set_solver).
  destruct (p x) eqn:E; [rewrite (Hpq x) by set_solver|destruct (q x)]; lia.
Qed.

Lemma countb_pos p l x : x ∈ l → p x = true → (0 < countb p l)%Z.
Proof.
  intros Hx Hp. induction l as [|y l IH]; [by apply elem_of_nil in Hx|].
  apply elem_of_cons in Hx as [->|Hx]; simpl; [rewrite Hp|destruct (p y)];
    pose proof (countb_nonneg p l); try specialize (IH Hx); lia.
Qed.

Lemma countb_filter_length (P : A → Prop) `{∀ x, Decision (P x)} l :
  Z.of_nat (length (filter P l)) = countb (λ x, bool_decide (P x)) l.
Proof.
  induction l as [|x l IH]; [done|]. rewrite filter_cons. simpl.
  case_decide; [rewrite bool_decide_true by done|rewrite bool_decide_false by done]; simpl; lia.
Qed.

Lemma countb_zero p l : (∀ x, x ∈ l → p x = false) → countb p l = 0%Z.
Proof.
  induction l as [|x l IH]; simpl; intros Hp; [done|].
  rewrite (Hp x) by set_solver. rewrite IH by set_solver. lia.
Qed.
End Count.

(** ** Sliding windows over a log of times *)

(** How many of the times [l] lie in the half-open window [(a, b]]. *)
Definition in_window (a b : Z) (l : list Z) : Z :=
  countb (λ t, (a <? t) && (t <=? b))%Z l.

Lemma in_window_mono a a' b b' l :
  (a' ≤ a)%Z → (b ≤ b')%Z → (in_window a b l ≤ in_window a' b' l)%Z.
Proof.
  intros. apply countb_mono. intros x _ Hx. zbool.
  apply andb_true_iff; split; [apply Z.ltb_lt|apply Z.leb_le]; lia.
Qed.

(** Admitting a hit at [now] when the window ending at [now] still has room keeps
    every window of width [w] within [cap]. *)
Lemma window_admit (w cap now : Z) (l : list Z) :
  Forall (λ t, t ≤ now)%Z l →
  (∀ a, in_window a (a + w) l ≤ cap)%Z → (in_window (now - w) now l < cap)%Z →
  ∀ a, (in_window a (a + w) (l ++ [now]) ≤ cap)%Z.
Proof.
  intros Hl Hall Hroom a. unfold in_window at 1. rewrite countb_snoc. fold (in_window a (a + w) l).
  destruct ((a <? now) && (now <=? a + w))%Z eqn:E; [|specialize (Hall a); lia].
  zbool. enough (in_window a (a + w) l ≤ in_window (now - w) now l)%Z by lia.
  apply countb_mono. intros x Hx Hp. zbool. rewrite Forall_forall in Hl. specialize (Hl x Hx).
  simpl in Hl. apply andb_true_iff; split; [apply Z.ltb_lt|apply Z.leb_le]; lia.
Qed.

Lemma in_window_filter (a b : Z) (l : list Z) :
  Forall (λ t, t ≤ b)%Z l → in_window a b l = Z.of_nat (length (filter (λ t, a < t)%Z l)).
Proof.
  intros Hl. rewrite countb_filter_length. unfold in_window.
  induction Hl as [|x l Hx Hl IH]; simpl; [done|]. rewrite IH. f_equal.
  destruct (Z.ltb_spec a x); [rewrite bool_decide_true by done|rewrite bool_decide_false by lia];
    simpl; [|done].
  by rewrite (proj2 (Z.leb_le x b)).
Qed.

(** The timestamps of a list of events do not go back, starting from [t]. *)
Fixpoint monotone_from {A} (t : Z) (l : list (Z * A)) : Prop :=
  match l with
  | [] => True
  | (now, _) :: l' => (t ≤ now)%Z ∧ monotone_from now l'
  end.

(** Updating an existing position of a list. *)
Lemma lookup_insert_if {A} (l : list A) i x y j :
  l !! i = Some x → <[i := y]> l !! j = if decide (j = i) then Some y else l !! j.
Proof.
  intros Hi. case_decide; subst.
  - apply list_lookup_insert_eq. by eapply lookup_lt_Some.
  - by apply list_lookup_insert_ne.
Qed.

Lemma lookup_snoc_if {A} (l : list A) y j :
  (l ++ [y]) !! j = if decide (j = length l) then Some y else l !! j.
Proof.
  case_decide; subst; [by rewrite lookup_app_r, Nat.sub_diag by done|].
  destruct (decide (j < length l)%nat); [by apply lookup_app_l|].
  rewrite !lookup_ge_None_2; [done|lia|rewrite length_app; simpl; lia].
Qed.
