(* ===== verification/Js.v ===== *)
(** * The JavaScript values the program computes with

    Strings are sequences of UTF-16 code units, so [length], [slice] and the
    default [sort] order are the ones of the language; values are the JSON-like
    trees (plus [undefined], byte arrays and functions) that the program inspects
    when a parameter has type [unknown].  [stringify] is [JSON.stringify] and
    [utf8_length] is [Buffer.byteLength(s, "utf8")]. *)
From S2P Require Import Prelude.
From Stdlib Require Ascii.

Open Scope N_scope.

(** A JavaScript string: its code units. *)
Abbreviation jstr := (list N).

Fixpoint u (s : string) : jstr :=
  match s with
  | EmptyString => []
  | String a s' => Stdlib.Strings.Ascii.N_of_ascii a :: u s'
  end.

(** A number: an integer below 10^21 in magnitude (printed in decimal), another
    finite number (with the text [Number.prototype.toString] prints), or a
    non-finite one. *)
Inductive jsnum : Set :=
| NumInt (z : Z)
| NumDec (repr : jstr)
| NumNaN
| NumInf (negative : bool).

Inductive jsval : Set :=
| VUndef
| VNull
| VBool (b : bool)
| VNum (n : jsnum)
| VStr (s : jstr)
| VArr (l : list jsval)
| VObj (fields : list (jstr * jsval))
| VBytes (bytes : list N)   (** a [Uint8Array] (a [Buffer] is one) *)
| VBuffer                   (** an [ArrayBuffer] *)
| VFun.                     (** a function or a symbol *)

Section jsval_ind.
Variable P : jsval → Prop.
Hypothesis Hundef : P VUndef.
Hypothesis Hnull : P VNull.
Hypothesis Hbool : ∀ b, P (VBool b).
Hypothesis Hnum : ∀ n, P (VNum n).
Hypothesis Hstr : ∀ s, P (VStr s).
Hypothesis Harr : ∀ l, Forall P l → P (VArr l).
Hypothesis Hobj : ∀ fs, Forall (λ f, P f.2) fs → P (VObj fs).
Hypothesis Hbytes : ∀ l, P (VBytes l).
Hypothesis Hbuffer : P VBuffer.
Hypothesis Hfun : P VFun.

Fixpoint jsval_rect' (v : jsval) : P v :=
  match v with
  | VUndef => Hundef
  | VNull => Hnull
  | VBool b => Hbool b
  | VNum n => Hnum n
  | VStr s => Hstr s
  | VArr l => Harr l ((fix go l := match l return Forall P l with
                        | [] => Forall_nil_2 _
                        | x :: l' => Forall_cons_2 _ x l' (jsval_rect' x) (go l')
                        end) l)
  | VObj fs => Hobj fs ((fix go l := match l return Forall (λ f, P f.2) l with
                        | [] => Forall_nil_2 _
                        | x :: l' => Forall_cons_2 _ x l' (jsval_rect' x.2) (go l')
                        end) fs)
  | VBytes l => Hbytes l
  | VBuffer => Hbuffer
  | VFun => Hfun
  end.
End jsval_ind.

(** ** Type tests *)

Definition is_undef (v : jsval) : bool := match v with VUndef => true | _ => false end.
Definition is_string (v : jsval) : bool := match v with VStr _ => true | _ => false end.
Definition is_array (v : jsval) : bool := match v with VArr _ => true | _ => false end.

(** [value && typeof value === "object"] *)
Definition is_object (v : jsval) : bool :=
  match v with VArr _ | VObj _ | VBytes _ | VBuffer => true | _ => false end.

(** [value && typeof value === "object" && !Array.isArray(value)] *)
Definition is_record (v : jsval) : bool :=
  match v with VObj _ | VBytes _ | VBuffer => true | _ => false end.

(** [Number.isSafeInteger] *)
Definition max_safe_integer : Z := 2 ^ 53 - 1.
Definition safe_integer (v : jsval) : option Z :=
  match v with
  | VNum (NumInt z) => if (Z.abs z <=? max_safe_integer)%Z then Some z else None
  | _ => None
  end.

(** An optional string that JavaScript treats as present: it is not empty. *)
Definition truthy (v : option jstr) : bool :=
  match v with Some (_ :: _) => true | _ => false end.

(** ** Object properties *)

Fixpoint fields_get (k : jstr) (fs : list (jstr * jsval)) : option jsval :=
  match fs with
  | [] => None
  | (k', v) :: fs' => if decide (k = k') then Some v else fields_get k fs'
  end.

(** Assigning a property keeps the position of an existing key. *)
Fixpoint fields_set (k : jstr) (v : jsval) (fs : list (jstr * jsval)) : list (jstr * jsval) :=
  match fs with
  | [] => [(k, v)]
  | (k', v') :: fs' =>
      if decide (k = k') then (k, v) :: fs' else (k', v') :: fields_set k v fs'
  end.

(** [{ ...a, ...b }] *)
Definition fields_spread (a b : list (jstr * jsval)) : list (jstr * jsval) :=
  foldl (λ acc f, fields_set f.1 f.2 acc) a b.

(** The own enumerable fields a spread or a named access sees. *)
Definition fields_of (v : jsval) : list (jstr * jsval) :=
  match v with VObj fs => fs | _ => [] end.

(** [value.key] for a named (non-index) key; [undefined] when absent. *)
Definition prop (k : jstr) (v : jsval) : jsval :=
  default VUndef (fields_get k (fields_of v)).

Lemma fields_get_set_eq k v fs : fields_get k (fields_set k v fs) = Some v.
Proof. induction fs as [|[k' v'] fs IH]; simpl; repeat case_decide; simpl; repeat case_decide; naive_solver. Qed.

Lemma fields_get_set_ne k k' v fs :
  k ≠ k' → fields_get k (fields_set k' v fs) = fields_get k fs.
Proof.
  intros Hne. induction fs as [|[k2 v2] fs IH]; simpl; [by case_decide|].
  repeat case_decide; simpl; repeat case_decide; naive_solver.
Qed.

Lemma fields_get_spread k a b :
  NoDup b.*1 →
  fields_get k (fields_spread a b) =
    match fields_get k b with Some v => Some v | None => fields_get k a end.
Proof.
  unfold fields_spread. revert a. induction b as [|[k' v'] b IH]; intros a; simpl; [done|].
  rewrite NoDup_cons. intros [Hk Hnd]. rewrite IH by done.
  case_decide as E; [subst|].
  - rewrite fields_get_set_eq. destruct (fields_get k' b) eqn:E; [|done].
    exfalso. apply Hk. clear -E. induction b as [|[k2 v2] b IH]; simpl in *; [done|].
    case_decide; set_solver.
  - by rewrite fields_get_set_ne.
Qed.

(** ** Order of strings and of keys *)

Fixpoint jstr_leb (a b : jstr) : bool :=
  match a, b with
  | [], _ => true
  | _ :: _, [] => false
  | x :: a', y :: b' => if x <? y then true else if y <? x then false else jstr_leb a' b'
  end.

Definition jstr_le (a b : jstr) : Prop := jstr_leb a b = true.
#[export] Instance jstr_le_dec : RelDecision jstr_le.
Proof. intros a b. unfold jstr_le. apply _. Defined.

#[export] Instance jstr_le_total : Total jstr_le.
Proof.
  intros a. induction a as [|x a IH]; intros [|y b]; unfold jstr_le in *; simpl; auto.
  destruct (N.ltb_spec x y), (N.ltb_spec y x); auto.
Qed.

#[export] Instance jstr_le_trans : Transitive jstr_le.
Proof.
  intros a. induction a as [|x a IH]; intros [|y b] [|z c]; unfold jstr_le in *; simpl; auto; try done.
  destruct (N.ltb_spec x y), (N.ltb_spec y x), (N.ltb_spec y z), (N.ltb_spec z y),
    (N.ltb_spec x z), (N.ltb_spec z x); try done; try lia; eauto.
Qed.

#[export] Instance jstr_le_antisymm : AntiSymm (=) jstr_le.
Proof.
  intros a. induction a as [|x a IH]; intros [|y b]; unfold jstr_le in *; simpl; auto; try done.
  destruct (N.ltb_spec x y), (N.ltb_spec y x); try done; try lia.
  intros ??. assert (x = y) as -> by lia. f_equal. by apply IH.
Qed.

(** [keys.sort()] on the entries of an object. *)
Definition field_le (a b : jstr * jsval) : Prop := jstr_le a.1 b.1.
#[export] Instance field_le_dec : RelDecision field_le.
Proof. intros a b. unfold field_le. apply _. Defined.
#[export] Instance field_le_total : Total field_le.
Proof. intros a b. apply jstr_le_total. Qed.
#[export] Instance field_le_trans : Transitive field_le.
Proof. intros a b c. apply jstr_le_trans. Qed.

Definition sort_fields (fs : list (jstr * jsval)) : list (jstr * jsval) :=
  merge_sort field_le fs.

Lemma sort_fields_perm fs : sort_fields fs ≡ₚ fs.
Proof. apply merge_sort_Permutation. Qed.

Lemma sort_fields_sorted fs : Sorted field_le (sort_fields fs).
Proof. apply Sorted_merge_sort, _. Qed.

(** ** [JSON.stringify] *)

(** Decimal digits of a non-negative number, most significant first. *)
Fixpoint digits_aux (fuel : nat) (n : N) (acc : jstr) : jstr :=
  match fuel with
  | O => acc
  | S fuel' =>
      let acc' := (48 + n mod 10) :: acc in
      if n <? 10 then acc' else digits_aux fuel' (n / 10) acc'
  end.
Definition digits (n : N) : jstr := digits_aux (S (N.to_nat (N.log2 n))) n [].

Definition show_num (n : jsnum) : jstr :=
  match n with
  | NumInt z => if (z <? 0)%Z then 45 :: digits (Z.to_N (- z)) else digits (Z.to_N z)
  | NumDec repr => repr
  | NumNaN | NumInf _ => u "null"
  end.

Definition hex_digit (n : N) : N := if n <? 10 then 48 + n else 87 + n.
Definition unicode_escape (c : N) : jstr :=
  [92; 117; hex_digit (c / 4096 mod 16); hex_digit (c / 256 mod 16);
   hex_digit (c / 16 mod 16); hex_digit (c mod 16)].

Definition is_high (c : N) : bool := (55296 <=? c) && (c <=? 56319).
Definition is_low (c : N) : bool := (56320 <=? c) && (c <=? 57343).

(** One escaped code unit; surrogates are handled by [quote_units]. *)
Definition quote_unit (c : N) : jstr :=
  if c =? 34 then [92; 34] else if c =? 92 then [92; 92]
  else if c =? 8 then [92; 98] else if c =? 12 then [92; 102]
  else if c =? 10 then [92; 110] else if c =? 13 then [92; 114]
  else if c =? 9 then [92; 116] else if c <? 32 then unicode_escape c else [c].

(** A well-formed surrogate pair is copied, a lone surrogate is escaped. *)
Fixpoint quote_units (s : jstr) : jstr :=
  match s with
  | [] => []
  | c :: s' =>
      match s' with
      | d :: s'' =>
          if is_high c && is_low d then c :: d :: quote_units s''
          else (if is_high c || is_low c then unicode_escape c else quote_unit c) ++ quote_units s'
      | [] => if is_high c || is_low c then unicode_escape c else quote_unit c
      end
  end.

Definition quote (s : jstr) : jstr := 34 :: quote_units s ++ [34].

Fixpoint join (sep : jstr) (parts : list jstr) : jstr :=
  match parts with
  | [] => []
  | [p] => p
  | p :: ps => p ++ sep ++ join sep ps
  end.

(** An array index key ("0", "17", ...): enumerated first, in ascending order. *)
Definition index_key (k : jstr) : option N :=
  if forallb (λ c, (48 <=? c) && (c <=? 57)) k && negb (bool_decide (k = [])) then
    let n := foldl (λ acc c, 10 * acc + (c - 48)) 0 k in
    if bool_decide (digits n = k) && (n <? 4294967295) then Some n else None
  else None.

Definition index_le {A} (a b : N * A) : Prop := (a.1 <=? b.1) = true.
#[export] Instance index_le_dec {A} : RelDecision (@index_le A).
Proof. intros a b. unfold index_le. apply _. Defined.

(** The order in which own keys are enumerated. *)
Definition own_entries {A} (fs : list (jstr * A)) : list (jstr * A) :=
  (snd <$> merge_sort index_le (omap (λ f, n ← index_key f.1; Some (n, f)) fs)) ++
  filter (λ f, index_key f.1 = None) fs.

(** [None] is [undefined]: a member is then skipped, an element prints [null]. *)
Fixpoint stringify_opt (v : jsval) : option jstr :=
  match v with
  | VUndef | VFun => None
  | VNull => Some (u "null")
  | VBool b => Some (if b then u "true" else u "false")
  | VNum n => Some (show_num n)
  | VStr s => Some (quote s)
  | VArr l => Some ([91] ++ join [44] ((λ x, default (u "null") (stringify_opt x)) <$> l) ++ [93])
  | VObj fs =>
      Some ([123] ++ join [44]
        ((λ f, quote f.1 ++ [58] ++ f.2) <$>
          own_entries (omap (λ f, s ← stringify_opt f.2; Some (f.1, s)) fs)) ++ [125])
  | VBytes bs =>
      Some ([123] ++ join [44]
        (imap (λ i b, quote (digits (N.of_nat i)) ++ [58] ++ digits b) bs) ++ [125])
  | VBuffer => Some (u "{}")
  end.

Definition stringify (v : jsval) : jstr := default (u "undefined") (stringify_opt v).

(** ** UTF-8 *)

(** [Buffer.byteLength(s, "utf8")]; a lone surrogate is encoded as U+FFFD. *)
Fixpoint utf8_length (s : jstr) : N :=
  match s with
  | [] => 0
  | c :: s' =>
      if c <? 128 then 1 + utf8_length s'
      else if c <? 2048 then 2 + utf8_length s'
      else match s' with
           | d :: s'' => if is_high c && is_low d then 4 + utf8_length s'' else 3 + utf8_length s'
           | [] => 3
           end
  end.

(** ** White space and ASCII case *)

(** The white space and line terminators [String.prototype.trim] removes. *)
Definition is_space (c : N) : bool :=
  bool_decide (c ∈ ([9; 10; 11; 12; 13; 32; 160; 5760; 8192; 8193; 8194; 8195; 8196; 8197; 8198;
     8199; 8200; 8201; 8202; 8232; 8233; 8239; 8287; 12288; 65279] : list N)).

Fixpoint trim_start (s : jstr) : jstr :=
  match s with
  | c :: s' => if is_space c then trim_start s' else s
  | [] => []
  end.
Definition trim (s : jstr) : jstr := reverse (trim_start (reverse (trim_start s))).

(** Lower case of an ASCII unit.  No code unit above 127 lower-cases to a string
    over ASCII letters other than "k" (the Kelvin sign). *)
Definition ascii_lower (c : N) : N := if (65 <=? c) && (c <=? 90) then c + 32 else c.

Fixpoint starts_with (p s : jstr) : bool :=
  match p, s with
  | [], _ => true
  | x :: p', y :: s' => (x =? y) && starts_with p' s'
  | _ :: _, [] => false
  end.

Definition ends_with (p s : jstr) : bool := starts_with (reverse p) (reverse s).

Lemma starts_with_spec p s : starts_with p s = true ↔ ∃ s', s = p ++ s'.
Proof.
  revert s. induction p as [|x p IH]; intros s; simpl; [naive_solver|].
  destruct s as [|y s]; [split; [done|naive_solver]|].
  rewrite andb_true_iff, N.eqb_eq, IH. naive_solver.
Qed.

Lemma ends_with_app p s : ends_with p (s ++ p) = true.
Proof. unfold ends_with. rewrite reverse_app. apply starts_with_spec. eauto. Qed.

(** UTF-8 never takes fewer bytes than UTF-16 takes units. *)
Lemma utf8_length_ge s : N.of_nat (length s) <= utf8_length s.
Proof.
  enough (∀ n s, (length s ≤ n)%nat → N.of_nat (length s) <= utf8_length s) as H by eauto.
  clear s. induction n as [|n IH]; intros [|c s] Hn; simpl in *; try lia.
  destruct (c <? 128); [specialize (IH s ltac:(lia)); lia|].
  destruct (c <? 2048); [specialize (IH s ltac:(lia)); lia|].
  destruct s as [|d s]; [done|].
  destruct (is_high c && is_low d).
  - specialize (IH s ltac:(simpl in Hn; lia)). simpl length. lia.
  - specialize (IH (d :: s) ltac:(lia)). lia.
Qed.

(** ** Decimal digits are read back *)

Section Digits.

Definition undigits (s : jstr) : N := foldl (λ n c, 10 * n + (c - 48)) 0 s.

Lemma digits_aux_undo fuel n acc :
  n < 10 ^ N.of_nat fuel →
  foldl (λ n c, 10 * n + (c - 48)) 0 (digits_aux fuel n acc) = foldl (λ n c, 10 * n + (c - 48)) n acc.
Proof.
  revert n acc. induction fuel as [|fuel IH]; intros n acc Hn.
  { change (N.of_nat 0) with 0 in Hn. rewrite N.pow_0_r in Hn. by replace n with 0 by lia. }
  cbn [digits_aux]. rewrite Nat2N.inj_succ, N.pow_succ_r' in Hn.
  pose proof (N.mod_upper_bound n 10 ltac:(lia)). pose proof (N.div_mod n 10 ltac:(lia)).
  destruct (N.ltb_spec n 10).
  - cbn [foldl]. f_equal. rewrite N.mod_small, (N.add_comm 48), N.add_sub by lia. lia.
  - rewrite IH by (apply N.Div0.div_lt_upper_bound; lia). cbn [foldl]. f_equal. rewrite (N.add_comm 48), N.add_sub. done.
Qed.

Lemma digits_undo n : undigits (digits n) = n.
Proof.
  unfold undigits, digits. rewrite digits_aux_undo; [done|].
  destruct (decide (n = 0)) as [->|]; [done|].
  pose proof (N.log2_spec n ltac:(lia)) as [_ Hn]. rewrite Nat2N.inj_succ, N2Nat.id.
  eapply N.lt_le_trans; [exact Hn|]. apply N.pow_le_mono_l. lia.
Qed.
End Digits.

#[export] Instance digits_inj : Inj (=) (=) digits.
Proof. intros x y H. by rewrite <- (digits_undo x), H, digits_undo. Qed.
