(* ===== verification/Policy.v ===== *)
(** * Admin gate, permission policy and risk classes

    [auth/roles.ts], [harness/permissions.ts] and [harness/risk.ts]: who may use
    the assistant, what each admin lets it touch, and which actions must be
    previewed and confirmed by a button before they run. *)
From S2P Require Import Prelude Js.

(** ** Roles *)
Module Roles.
Definition lower (s : jstr) : jstr := ascii_lower <$> s.

Definition is_admin_role (role : jsval) : bool :=
  match role with
  | VStr s =>
      let normalized := lower (trim s) in
      bool_decide (normalized = u "owner") || bool_decide (normalized = u "admin")
  | _ => false
  end.
End Roles.

(** ** Permissions *)
Module Permissions.
Inductive FeatureGroup : Set :=
| time_tracking | work_structure | reports | invoices | expenses | users_groups
| time_off_approvals | scheduling | webhooks | workspace_settings | custom_fields
| approvals | audit_log.

Inductive PermissionLevel : Set := off | read | read_write.

#[export] Instance FeatureGroup_dec : EqDecision FeatureGroup.
Proof. solve_decision. Defined.
#[export] Instance PermissionLevel_dec : EqDecision PermissionLevel.
Proof. solve_decision. Defined.

Definition FEATURE_GROUPS : list FeatureGroup :=
  [time_tracking; work_structure; reports; invoices; expenses; users_groups;
   time_off_approvals; scheduling; webhooks; workspace_settings; custom_fields;
   approvals; audit_log].

Definition group_name (g : FeatureGroup) : string :=
  match g with
  | time_tracking => "time_tracking" | work_structure => "work_structure"
  | reports => "reports" | invoices => "invoices" | expenses => "expenses"
  | users_groups => "users_groups" | time_off_approvals => "time_off_approvals"
  | scheduling => "scheduling" | webhooks => "webhooks"
  | workspace_settings => "workspace_settings" | custom_fields => "custom_fields"
  | approvals => "approvals" | audit_log => "audit_log"
  end.

Definition level_name (l : PermissionLevel) : string :=
  match l with off => "off" | read => "read" | read_write => "read_write" end.

(** [permissionLevelSchema] *)
Definition parse_level (s : string) : option PermissionLevel :=
  if decide (s = "off") then Some off
  else if decide (s = "read") then Some read
  else if decide (s = "read_write") then Some read_write
  else None.

(** At run time a policy's [groups] is a plain object keyed by strings. *)
Record AdminPolicy := { version : Z; groups : gmap string string }.

(** A patch value may be an explicit [undefined]. *)
Abbreviation PolicyPatch := (gmap string (option string)).

(** [adminPolicySchema.parse]: a positive integer version, exactly the feature
    groups as keys, every value a permission level. *)
Definition group_ok (raw : gmap string (option string)) (g : FeatureGroup) : bool :=
  match raw !! group_name g with
  | Some (Some s) => bool_decide (is_Some (parse_level s))
  | _ => false
  end.

Definition parse_policy (v : Z) (raw : gmap string (option string)) : option AdminPolicy :=
  if ((0 <? v)%Z && forallb (group_ok raw) FEATURE_GROUPS
      && bool_decide (dom raw ⊆ list_to_set (group_name <$> FEATURE_GROUPS)))%bool
  then Some {| version := v; groups := omap id raw |}
  else None.

Definition CURRENT_POLICY_VERSION : Z := 2.

Definition defaultAdminPolicy : AdminPolicy :=
  {| version := CURRENT_POLICY_VERSION;
     groups := list_to_map ((λ g, (group_name g, "read_write")) <$> FEATURE_GROUPS) |}.

Definition canRead (policy : AdminPolicy) (g : FeatureGroup) : bool :=
  let level := policy.(groups) !! group_name g in
  bool_decide (level = Some "read") || bool_decide (level = Some "read_write").

Definition canWrite (policy : AdminPolicy) (g : FeatureGroup) : bool :=
  bool_decide (policy.(groups) !! group_name g = Some "read_write").

(** [{ ...policy.groups, ...patch.groups }], then strict validation. *)
Definition applyPolicyPatch (policy : AdminPolicy) (patch : PolicyPatch) : option AdminPolicy :=
  parse_policy policy.(version) (patch ∪ (Some <$> policy.(groups))).

(** A stored policy is one that [adminPolicySchema] accepts. *)
Definition policy_valid (p : AdminPolicy) : Prop :=
  parse_policy p.(version) (Some <$> p.(groups)) = Some p.

(** A patch names feature groups only and gives each a permission level. *)
Definition patch_valid (patch : PolicyPatch) : Prop :=
  ∀ k o, patch !! k = Some o →
    (∃ g, k = group_name g) ∧ ∃ s, o = Some s ∧ is_Some (parse_level s).

Lemma all_groups g : g ∈ FEATURE_GROUPS.
Proof. destruct g; unfold FEATURE_GROUPS; set_solver. Qed.

Lemma group_names_dom k :
  k ∈ (list_to_set (group_name <$> FEATURE_GROUPS) : gset string) ↔ ∃ g, k = group_name g.
Proof.
  rewrite elem_of_list_to_set, list_elem_of_fmap.
  split; [naive_solver|]. intros [g ->]. exists g. split; [done|apply all_groups].
Qed.

Lemma group_ok_spec raw g :
  group_ok raw g = true ↔ ∃ s, raw !! group_name g = Some (Some s) ∧ is_Some (parse_level s).
Proof.
  unfold group_ok. destruct (raw !! group_name g) as [[s|]|]; rewrite ?bool_decide_eq_true;
    naive_solver.
Qed.

Lemma parse_policy_spec v raw p :
  parse_policy v raw = Some p ↔
    (0 < v)%Z ∧
    (∀ g, ∃ s, raw !! group_name g = Some (Some s) ∧ is_Some (parse_level s)) ∧
    (∀ k, is_Some (raw !! k) → ∃ g, k = group_name g) ∧
    p = {| version := v; groups := omap id raw |}.
Proof.
  unfold parse_policy. split.
  - case_match eqn:E; [|done]. intros [= <-]. rewrite !andb_true_iff in E.
    destruct E as [[Hv Hall] Hdom]. rewrite forallb_forall in Hall.
    apply bool_decide_eq_true in Hdom. split_and!; [lia| |..|done].
    + intros g. apply group_ok_spec, Hall, list_elem_of_In, all_groups.
    + intros k Hk. apply group_names_dom. apply Hdom. by apply elem_of_dom.
  - intros (Hv & Hall & Hdom & ->). rewrite (proj2 (Z.ltb_lt _ _) Hv).
    assert (forallb (group_ok raw) FEATURE_GROUPS = true) as ->.
    { apply forallb_forall. intros g _. by apply group_ok_spec. }
    rewrite bool_decide_eq_true_2; [done|].
    intros k Hk. apply group_names_dom, Hdom. by apply elem_of_dom.
Qed.

Lemma policy_valid_inv p :
  policy_valid p →
  (0 < p.(version))%Z ∧
  (∀ g, ∃ s, p.(groups) !! group_name g = Some s ∧ is_Some (parse_level s)) ∧
  (∀ k, is_Some (p.(groups) !! k) → ∃ g, k = group_name g).
Proof.
  intros (Hv & Hall & Hdom & _)%parse_policy_spec. split_and!; [done| |].
  - intros g. destruct (Hall g) as (s & Hs & Hp). rewrite lookup_fmap in Hs.
    destruct (groups p !! group_name g) eqn:E; simplify_eq/=; eauto.
  - intros k [s Hs]. apply Hdom. rewrite lookup_fmap, Hs. eauto.
Qed.
End Permissions.

(** ** Risk classes *)
Module Risk.
Inductive RiskLabel : Set :=
| Read | SafeWrite | HighRiskWrite | Destructive | Billing | Payment
| PermissionChange | ExternalSideEffect | Bulk.

#[export] Instance RiskLabel_dec : EqDecision RiskLabel.
Proof. solve_decision. Defined.

Definition CONFIRMATION_REQUIRED : list RiskLabel :=
  [HighRiskWrite; Destructive; Billing; Payment; PermissionChange; ExternalSideEffect; Bulk].

Definition requiresConfirmation (risks : list RiskLabel) : bool :=
  existsb (λ r, bool_decide (r ∈ CONFIRMATION_REQUIRED)) risks.

Definition isSafeWrite (risks : list RiskLabel) : bool :=
  bool_decide (SafeWrite ∈ risks) && negb (requiresConfirmation risks).
End Risk.

Import Roles Permissions Risk.

(** ** Theorems *)

Lemma trim_start_split s : ∃ w, s = w ++ trim_start s ∧ Forall (λ c, is_space c = true) w.
Proof.
  induction s as [|c s (w & Hs & Hw)]; simpl; [by exists []|].
  destruct (is_space c) eqn:E; [|by exists []].
  exists (c :: w). split; [by rewrite Hs at 1|by constructor].
Qed.

Lemma trim_split s :
  ∃ l r, s = l ++ trim s ++ r ∧ Forall (λ c, is_space c = true) l ∧
         Forall (λ c, is_space c = true) r.
Proof.
  destruct (trim_start_split s) as (l & Hl & Hlw).
  destruct (trim_start_split (reverse (trim_start s))) as (r & Hr & Hrw).
  exists l, (reverse r). split_and!; [|done|by apply Forall_reverse].
  unfold trim. rewrite <- reverse_app, <- Hr, reverse_involutive. done.
Qed.

(** The admin gate fails closed.  A role is accepted only when it is a string that, between
    leading and trailing white space, reads "owner" or "admin" up to ASCII case;
    a missing, empty or non-string role is rejected. *)
Theorem admin_gate_sound role :
  is_admin_role role = true →
  ∃ l core r, role = VStr (l ++ core ++ r) ∧
    Forall (λ c, is_space c = true) l ∧ Forall (λ c, is_space c = true) r ∧
    (lower core = u "owner" ∨ lower core = u "admin").
Proof.
  destruct role as [| | | |s| | | | |]; simpl; try done.
  rewrite orb_true_iff, !bool_decide_eq_true. intros H.
  destruct (trim_split s) as (l & r & Hs & Hl & Hr).
  exists l, (trim s), r. split_and!; [by rewrite <- Hs|done|done|done].
Qed.

Lemma admin_gate_sound_witness :
  is_admin_role (VStr (u " Owner ")) = true ∧
  ∃ l core r, VStr (u " Owner ") = VStr (l ++ core ++ r) ∧
    Forall (λ c, is_space c = true) l ∧ Forall (λ c, is_space c = true) r ∧
    (lower core = u "owner" ∨ lower core = u "admin").
Proof. split; [reflexivity|]. apply admin_gate_sound. reflexivity. Defined.

(** Applying a patch to a stored policy succeeds exactly when the patch names
    known feature groups with known levels; the result is again a valid policy of
    the same version, takes the patched level where the patch has one and keeps
    every other group's level. *)
Theorem apply_policy_patch_correct p patch :
  policy_valid p →
  (is_Some (applyPolicyPatch p patch) ↔ patch_valid patch) ∧
  (∀ p', applyPolicyPatch p patch = Some p' →
     policy_valid p' ∧ version p' = version p ∧
     ∀ g, groups p' !! group_name g =
       match patch !! group_name g with Some o => o | None => groups p !! group_name g end).
Proof.
  intros Hp. destruct (policy_valid_inv p Hp) as (Hv & Hall & Hdom).
  unfold applyPolicyPatch. split.
  - split.
    + intros [p' (_ & Hg & Hk & _)%parse_policy_spec] k o Ho.
      assert ((patch ∪ (Some <$> groups p)) !! k = Some o) as Hu
        by (apply lookup_union_Some_raw; auto).
      destruct (Hk k) as [g ->]; [by rewrite Hu|]. split; [eauto|].
      destruct (Hg g) as (s & Hs & ?). rewrite Hu in Hs. naive_solver.
    + intros Hpatch. eexists. apply parse_policy_spec. split_and!; [done| | |done].
      * intros g. rewrite lookup_union, lookup_fmap.
        destruct (Hall g) as (s & -> & Hs). destruct (patch !! group_name g) eqn:E; simpl; [|eauto].
        destruct (Hpatch _ _ E) as (_ & s' & -> & ?). eauto.
      * intros k. rewrite lookup_union, lookup_fmap.
        destruct (patch !! k) eqn:E; simpl; [intros _; by destruct (Hpatch _ _ E)|].
        destruct (groups p !! k) eqn:E'; simpl; [|by intros []]. intros _. apply Hdom. eauto.
  - intros p' (_ & Hg & Hk & ->)%parse_policy_spec. split_and!; simpl; [|done|].
    + apply parse_policy_spec. simpl. split_and!; [done| | |].
      * intros g. rewrite lookup_fmap, lookup_omap. destruct (Hg g) as (s & -> & ?). eauto.
      * intros k. rewrite lookup_fmap, lookup_omap. intros Hs. apply Hk.
        destruct ((patch ∪ (Some <$> groups p)) !! k); [eauto|by destruct Hs].
      * f_equal. apply map_eq. intros k. rewrite !lookup_omap, lookup_fmap, lookup_omap.
        by destruct ((patch ∪ (Some <$> groups p)) !! k) as [[]|].
    + intros g. destruct (Hg g) as (s & Hs & _). rewrite lookup_omap, Hs. simpl.
      rewrite lookup_union, lookup_fmap in Hs.
      destruct (patch !! group_name g), (groups p !! group_name g); cbv in Hs.
      all: congruence.
Qed.

Lemma apply_policy_patch_correct_witness :
  policy_valid defaultAdminPolicy ∧
  ((is_Some (applyPolicyPatch defaultAdminPolicy {[ "invoices" := Some "off" ]}) ↔
     patch_valid {[ "invoices" := Some "off" ]}) ∧
   (∀ p', applyPolicyPatch defaultAdminPolicy {[ "invoices" := Some "off" ]} = Some p' →
     policy_valid p' ∧ version p' = version defaultAdminPolicy ∧
     ∀ g, groups p' !! group_name g =
       match ({[ "invoices" := Some "off" ]} : PolicyPatch) !! group_name g with
       | Some o => o | None => groups defaultAdminPolicy !! group_name g end)).
Proof.
  split; [vm_compute; reflexivity|].
  apply apply_policy_patch_correct. vm_compute. reflexivity.
Defined.

(** Risk classes.  Confirmation is required exactly when some label is one of
    the seven dangerous ones; adding labels never removes the requirement, and an
    action counts as an immediately executable safe write only when it needs no
    confirmation whatever other labels it carries. *)
Theorem risk_gate_monotone risks extra :
  (requiresConfirmation risks = true ↔ ∃ r, r ∈ risks ∧ r ≠ Read ∧ r ≠ SafeWrite) ∧
  requiresConfirmation (risks ++ extra) = requiresConfirmation risks || requiresConfirmation extra ∧
  (isSafeWrite (risks ++ extra) = true →
     requiresConfirmation risks = false ∧ requiresConfirmation extra = false).
Proof.
  unfold isSafeWrite, requiresConfirmation. rewrite existsb_app. split_and!; [|done|].
  - rewrite existsb_exists. split.
    + intros (r & Hr & Hd%bool_decide_eq_true). exists r. rewrite list_elem_of_In.
      split; [done|]. unfold CONFIRMATION_REQUIRED in Hd. set_solver.
    + intros (r & Hr & ? & ?). exists r. rewrite <- list_elem_of_In. split; [done|].
      apply bool_decide_eq_true. destruct r; unfold CONFIRMATION_REQUIRED; set_solver.
  - rewrite andb_true_iff, negb_true_iff, orb_false_iff. naive_solver.
Qed.

Lemma risk_gate_monotone_witness :
  isSafeWrite ([Read] ++ [SafeWrite]) = true ∧
  requiresConfirmation [Read] = false ∧ requiresConfirmation [SafeWrite] = false.
Proof.
  split; [reflexivity|]. apply (proj2 (proj2 (risk_gate_monotone [Read] [SafeWrite]))). reflexivity.
Defined.
