(* ===== verification/RunBudget.v ===== *)
(** * Run budgets of the v2 assistant

    [assistant-v2/state.ts] and [assistant-v2/budgets.ts]: the hard ceilings of one
    assistant run, the ledger it carries, and the functions that reserve, charge
    and release it.  Counters are JavaScript integers far below 2^53, so [Z]
    addition is exact. *)
From S2P Require Import Prelude Js.
Open Scope Z_scope.

(** ** [assistant-v2/state.ts] *)

Inductive RunPhase : Set :=
| phase_model | phase_discovering | phase_executing_reads | phase_preparing_writes
| phase_awaiting_confirmation | phase_awaiting_clarification
| phase_completed | phase_failed.

#[export] Instance RunPhase_dec : EqDecision RunPhase.
Proof. solve_decision. Defined.

Record RunBudget := {
  modelCallsUsed : Z;
  discoveryCallsUsed : Z;
  apiCallsUsed : Z;
  hostCallsUsed : Z;
  hostCallsReserved : Z;
  promptTokensUsed : Z;
  completionTokensUsed : Z;
  estimatedTokensUsed : Z;
  activeWallMsUsed : Z;
}.

Definition TERMINAL_RUN_PHASES : list RunPhase := [phase_completed; phase_failed].
Definition ACTIVE_RUN_PHASES : list RunPhase :=
  [phase_model; phase_discovering; phase_executing_reads; phase_preparing_writes].

Definition createEmptyRunBudget : RunBudget :=
  {| modelCallsUsed := 0; discoveryCallsUsed := 0; apiCallsUsed := 0;
     hostCallsUsed := 0; hostCallsReserved := 0; promptTokensUsed := 0;
     completionTokensUsed := 0; estimatedTokensUsed := 0; activeWallMsUsed := 0 |}.

Definition totalChargedTokens (b : RunBudget) : Z :=
  b.(promptTokensUsed) + b.(completionTokensUsed) + b.(estimatedTokensUsed).

Definition isTerminalPhase (p : RunPhase) : bool := bool_decide (p ∈ TERMINAL_RUN_PHASES).

(** ** [assistant-v2/budgets.ts] *)

Record Limits := {
  maxModelCalls : Z;
  maxDiscoveryCalls : Z;
  maxLoadedApiTools : Z;
  maxApiCalls : Z;
  maxConcurrentReads : Z;
  maxActiveWriteBatches : Z;
  maxHostCalls : Z;
  maxWallClockMs : Z;
  maxTotalTokens : Z;
  maxOutputTokensPerCall : Z;
}.

Definition V2_LIMITS : Limits :=
  {| maxModelCalls := 6; maxDiscoveryCalls := 4; maxLoadedApiTools := 12;
     maxApiCalls := 12; maxConcurrentReads := 4; maxActiveWriteBatches := 1;
     maxHostCalls := 60; maxWallClockMs := 300000; maxTotalTokens := 64000;
     maxOutputTokensPerCall := 8192 |}.

(** [RunBudgetOverrides | undefined]: the override's [maxHostCalls] value, a
    JavaScript value since it crosses the harness boundary unvalidated. *)
Definition resolveHostCallCeiling (overrides : option jsval) : result Z :=
  match overrides with
  | None | Some VUndef => Ok V2_LIMITS.(maxHostCalls)
  | Some ceiling =>
      match safe_integer ceiling with
      | Some n =>
          if (n <? 0) || (V2_LIMITS.(maxHostCalls) <? n)
          then Throw "invalid_budget_override:maxHostCalls"
          else Ok n
      | None => Throw "invalid_budget_override:maxHostCalls"
      end
  end.

(** [ModelPreflightResult]: [None] is the failure [token_budget_exhausted]. *)
Record ModelPreflightSuccess := {
  maxOutputTokens : Z;
  inputReserve : Z;
  perAttemptAllowance : Z;
}.

Definition preflightModelRequest (b : RunBudget) (serializedRequestUtf8Bytes : Z)
    : option ModelPreflightSuccess :=
  let remainingTokens := V2_LIMITS.(maxTotalTokens) - totalChargedTokens b in
  let inputReserve := serializedRequestUtf8Bytes in
  let perAttemptAllowance := remainingTokens / 2 in
  if perAttemptAllowance <=? inputReserve then None
  else Some {|
    maxOutputTokens := Z.min V2_LIMITS.(maxOutputTokensPerCall)
                         (perAttemptAllowance - inputReserve);
    inputReserve := inputReserve;
    perAttemptAllowance := perAttemptAllowance |}.

Record ProviderUsageCharge := { promptTokens : Z; completionTokens : Z }.

Definition charge_tokens (b : RunBudget) (prompt completion estimated : Z) : RunBudget :=
  {| modelCallsUsed := b.(modelCallsUsed); discoveryCallsUsed := b.(discoveryCallsUsed);
     apiCallsUsed := b.(apiCallsUsed); hostCallsUsed := b.(hostCallsUsed);
     hostCallsReserved := b.(hostCallsReserved);
     promptTokensUsed := b.(promptTokensUsed) + prompt;
     completionTokensUsed := b.(completionTokensUsed) + completion;
     estimatedTokensUsed := b.(estimatedTokensUsed) + estimated;
     activeWallMsUsed := b.(activeWallMsUsed) |}.

Definition chargeSuccessfulModelAttempt (b : RunBudget) (usage : option ProviderUsageCharge)
    (serializedRequestUtf8Bytes serializedResponseUtf8Bytes : Z) : RunBudget :=
  match usage with
  | Some us => charge_tokens b us.(promptTokens) us.(completionTokens) 0
  | None => charge_tokens b 0 0 (serializedRequestUtf8Bytes + serializedResponseUtf8Bytes)
  end.

Definition chargeFailedModelAttempt (b : RunBudget) (inputReserve maxOutputTokens : Z)
    : RunBudget :=
  charge_tokens b 0 0 (inputReserve + maxOutputTokens).

Definition canReserveModelCall (b : RunBudget) : bool :=
  b.(modelCallsUsed) <? V2_LIMITS.(maxModelCalls).

Definition canReserveDiscoveryCall (b : RunBudget) : bool :=
  b.(discoveryCallsUsed) <? V2_LIMITS.(maxDiscoveryCalls).

Definition canReserveHostCalls (b : RunBudget) (count : Z) : bool :=
  b.(hostCallsUsed) + b.(hostCallsReserved) + count <=? V2_LIMITS.(maxHostCalls).

Definition with_reserved (b : RunBudget) (reserved : Z) : RunBudget :=
  {| modelCallsUsed := b.(modelCallsUsed); discoveryCallsUsed := b.(discoveryCallsUsed);
     apiCallsUsed := b.(apiCallsUsed); hostCallsUsed := b.(hostCallsUsed);
     hostCallsReserved := reserved;
     promptTokensUsed := b.(promptTokensUsed);
     completionTokensUsed := b.(completionTokensUsed);
     estimatedTokensUsed := b.(estimatedTokensUsed);
     activeWallMsUsed := b.(activeWallMsUsed) |}.

Definition reserveHostCalls (b : RunBudget) (count : Z) : RunBudget :=
  with_reserved b (b.(hostCallsReserved) + count).

Definition releaseHostCallReservation (b : RunBudget) (count : Z) : RunBudget :=
  with_reserved b (Z.max 0 (b.(hostCallsReserved) - count)).

Definition isActiveWallBudgetExceeded (b : RunBudget) : bool :=
  V2_LIMITS.(maxWallClockMs) <=? b.(activeWallMsUsed).

Definition isTokenBudgetExceeded (b : RunBudget) : bool :=
  V2_LIMITS.(maxTotalTokens) <=? totalChargedTokens b.

Definition utf8ByteLength (value : jstr) : Z := Z.of_N (utf8_length value).

Definition serializeModelRequestForPreflight (messagesJson toolsJson : jstr) : Z :=
  utf8ByteLength messagesJson + utf8ByteLength toolsJson.

(** ** One logical model call

    A call is preflighted once and makes at most two provider attempts: each failed
    attempt is charged its reservation, the last one may succeed. *)
Inductive attempts : Set :=
| failed_then_failed
| failed_then_succeeded (usage : option ProviderUsageCharge) (response : Z)
| succeeded_first (usage : option ProviderUsageCharge) (response : Z).

Definition charge_call (b : RunBudget) (request : Z) (p : ModelPreflightSuccess)
    (a : attempts) : RunBudget :=
  let failed b := chargeFailedModelAttempt b p.(inputReserve) p.(maxOutputTokens) in
  match a with
  | failed_then_failed => failed (failed b)
  | failed_then_succeeded us resp => chargeSuccessfulModelAttempt (failed b) us request resp
  | succeeded_first us resp => chargeSuccessfulModelAttempt b us request resp
  end.

(** The provider kept to the request: its usage, or the response when no usage is
    reported, is no larger than what the preflight reserved for one attempt. *)
Definition attempt_within (request : Z) (p : ModelPreflightSuccess) (a : attempts) : Prop :=
  match a with
  | failed_then_failed => True
  | failed_then_succeeded (Some us) _ | succeeded_first (Some us) _ =>
      us.(promptTokens) + us.(completionTokens) ≤ p.(inputReserve) + p.(maxOutputTokens)
  | failed_then_succeeded None resp | succeeded_first None resp =>
      request + resp ≤ p.(inputReserve) + p.(maxOutputTokens)
  end.

(** ** Theorems *)

Lemma preflight_some b n p :
  preflightModelRequest b n = Some p →
  p.(inputReserve) = n ∧ 1 ≤ p.(maxOutputTokens) ≤ 8192 ∧
  2 * (p.(inputReserve) + p.(maxOutputTokens)) ≤ 64000 - totalChargedTokens b.
Proof.
  unfold preflightModelRequest. simpl. case_match eqn:E; [done|]. intros [= <-]. simpl.
  zbool. zdiv.
Qed.

(** A preflighted model call cannot overrun the token ceiling.  Whatever the
    outcome of its (at most two) provider attempts, as long as a successful attempt
    stays within what one attempt reserved, the ledger stays at or below 64,000
    tokens; and the preflight grants between 1 and 8,192 output tokens. *)
Theorem preflight_covers_two_attempts b n p a :
  0 ≤ n →
  preflightModelRequest b n = Some p →
  attempt_within n p a →
  totalChargedTokens (charge_call b n p a) ≤ V2_LIMITS.(maxTotalTokens) ∧
  1 ≤ p.(maxOutputTokens) ≤ V2_LIMITS.(maxOutputTokensPerCall).
Proof.
  intros Hn (Hin & Hout & Hsum)%preflight_some Ha. revert Hsum Ha.
  destruct a as [|[us|] resp|[us|] resp]; unfold totalChargedTokens; simpl; lia.
Qed.

Lemma preflight_covers_two_attempts_witness :
  let p := {| maxOutputTokens := 8192; inputReserve := 20000; perAttemptAllowance := 32000 |} in
  preflightModelRequest createEmptyRunBudget 20000 = Some p ∧
  totalChargedTokens (charge_call createEmptyRunBudget 20000 p failed_then_failed)
    ≤ V2_LIMITS.(maxTotalTokens) ∧
  1 ≤ p.(maxOutputTokens) ≤ V2_LIMITS.(maxOutputTokensPerCall).
Proof.
  split; [reflexivity|].
  apply preflight_covers_two_attempts; [lia|reflexivity|exact I].
Defined.

(** The preflight refuses exactly the requests it cannot cover twice: it fails
    iff no positive number of output tokens could be granted to both attempts
    within the remaining budget. *)
Theorem preflight_complete b n :
  preflightModelRequest b n = None ↔
  ¬ ∃ out, 1 ≤ out ∧ 2 * (n + out) ≤ V2_LIMITS.(maxTotalTokens) - totalChargedTokens b.
Proof.
  unfold preflightModelRequest. simpl. case_match eqn:E; zbool.
  - split; [|done]. intros _ (out & ? & ?). zdiv.
  - split; [done|]. intros H. exfalso. apply H. exists 1. zdiv.
Qed.

(** The host-call ledger.  A reservation made after [canReserveHostCalls] keeps
    used plus reserved within the ceiling, releasing never drives the reservation
    negative nor touches the used count, and releasing what was reserved restores
    the ledger. *)
Theorem host_call_reservation_safe b count :
  0 ≤ b.(hostCallsReserved) → 0 ≤ count →
  canReserveHostCalls b count = true →
  b.(hostCallsUsed) + (reserveHostCalls b count).(hostCallsReserved)
    ≤ V2_LIMITS.(maxHostCalls) ∧
  (∀ c, 0 ≤ (releaseHostCallReservation b c).(hostCallsReserved) ∧
        (releaseHostCallReservation b c).(hostCallsUsed) = b.(hostCallsUsed)) ∧
  releaseHostCallReservation (reserveHostCalls b count) count = b.
Proof.
  intros Hr Hc Hcan. unfold canReserveHostCalls in Hcan. zbool. simpl in *.
  split_and!; [lia|intros c; split; [lia|done]|].
  destruct b; unfold releaseHostCallReservation, reserveHostCalls, with_reserved; simpl in *.
  f_equal. lia.
Qed.

Lemma host_call_reservation_safe_witness :
  canReserveHostCalls createEmptyRunBudget 60 = true ∧
  createEmptyRunBudget.(hostCallsUsed) +
    (reserveHostCalls createEmptyRunBudget 60).(hostCallsReserved) ≤ V2_LIMITS.(maxHostCalls) ∧
  (∀ c, 0 ≤ (releaseHostCallReservation createEmptyRunBudget c).(hostCallsReserved) ∧
        (releaseHostCallReservation createEmptyRunBudget c).(hostCallsUsed)
          = createEmptyRunBudget.(hostCallsUsed)) ∧
  releaseHostCallReservation (reserveHostCalls createEmptyRunBudget 60) 60 = createEmptyRunBudget.
Proof.
  split; [reflexivity|].
  apply host_call_reservation_safe; [simpl; lia|lia|reflexivity].
Defined.

(** A budget override can only narrow: resolving succeeds exactly for an
    absent override or a safe integer between 0 and the production ceiling, and
    returns that integer. *)
Theorem host_call_ceiling_narrows overrides n :
  resolveHostCallCeiling overrides = Ok n ↔
  (((overrides = None ∨ overrides = Some VUndef) ∧ n = V2_LIMITS.(maxHostCalls)) ∨
   (overrides = Some (VNum (NumInt n)) ∧ 0 ≤ n ≤ V2_LIMITS.(maxHostCalls))).
Proof.
  unfold resolveHostCallCeiling, safe_integer, max_safe_integer. simpl.
  destruct overrides as [[| | |[z| | |]| | | | | |]|];
    try (split; [intros [= <-]; tauto|intros [[_ ->]|[[=] _]]; done]);
    try (split; [done|intros [[[[=]|[=]] _]|[[=] _]]]).
  destruct (Z.leb_spec (Z.abs z) (2 ^ 53 - 1)).
  - case_match eqn:E; [|zbool].
    + apply orb_true_iff in E. rewrite !Z.ltb_lt in E.
      split; [done|]. intros [[[[=]|[=]] _]|[[= ->] ?]]. lia.
    + split; [intros [= <-]; right; split; [done|lia]|].
      intros [[[[=]|[=]] _]|[[= ->] ?]]. done.
  - split; [done|]. intros [[[[=]|[=]] _]|[[= ->] ?]]. lia.
Qed.
