(* ===== verification/TerminalReason.v ===== *)
(** * Terminal reasons of a v2 run

    [assistant-v2/terminal-reason.ts]: the closed set of reasons a run can end
    without a reply, the boundary parser for raw codes, and the sentence shown to
    the admin for each. *)
From S2P Require Import Prelude Js.

Inductive TerminalReason : Set :=
| TR_cancelled
| TR_duplicate_write
| TR_installation_changed
| TR_internal_error
| TR_missing_original_request
| TR_model_failed
| TR_no_progress
| TR_budget_exhausted
| TR_unoffered_tool
| TR_malformed_tool
| TR_malformed_completion
| TR_tool_not_loaded
| TR_stale_catalog_hash
| TR_unknown_tool
| TR_unavailable_for_auth_class
| TR_duplicate_tool_call_id
| TR_mixed_discovery_batch
| TR_read_write_dependency
| TR_too_many_refinements
| TR_write_port_not_ready
| TR_invalid_args
| TR_unknown_action
| TR_policy_denied
| TR_host_call_budget_exceeded
| TR_clarification_required
| TR_presentation_limit_exceeded
| TR_read_dispatch_failed
| TR_invalid_request
| TR_cancelled_before_dispatch
| TR_not_admitted
| TR_read_failed
| TR_clarification_already_active
| TR_unexpected_action_result.

#[export] Instance TerminalReason_dec : EqDecision TerminalReason.
Proof. solve_decision. Defined.

Definition TERMINAL_REASONS : list TerminalReason :=
  [TR_cancelled;
   TR_duplicate_write;
   TR_installation_changed;
   TR_internal_error;
   TR_missing_original_request;
   TR_model_failed;
   TR_no_progress;
   TR_budget_exhausted;
   TR_unoffered_tool;
   TR_malformed_tool;
   TR_malformed_completion;
   TR_tool_not_loaded;
   TR_stale_catalog_hash;
   TR_unknown_tool;
   TR_unavailable_for_auth_class;
   TR_duplicate_tool_call_id;
   TR_mixed_discovery_batch;
   TR_read_write_dependency;
   TR_too_many_refinements;
   TR_write_port_not_ready;
   TR_invalid_args;
   TR_unknown_action;
   TR_policy_denied;
   TR_host_call_budget_exceeded;
   TR_clarification_required;
   TR_presentation_limit_exceeded;
   TR_read_dispatch_failed;
   TR_invalid_request;
   TR_cancelled_before_dispatch;
   TR_not_admitted;
   TR_read_failed;
   TR_clarification_already_active;
   TR_unexpected_action_result].

(** The string literal a reason is in the source. *)
Definition reason_code (r : TerminalReason) : jstr :=
  match r with
  | TR_cancelled => u "cancelled"
  | TR_duplicate_write => u "duplicate_write"
  | TR_installation_changed => u "installation_changed"
  | TR_internal_error => u "internal_error"
  | TR_missing_original_request => u "missing_original_request"
  | TR_model_failed => u "model_failed"
  | TR_no_progress => u "no_progress"
  | TR_budget_exhausted => u "budget_exhausted"
  | TR_unoffered_tool => u "unoffered_tool"
  | TR_malformed_tool => u "malformed_tool"
  | TR_malformed_completion => u "malformed_completion"
  | TR_tool_not_loaded => u "tool_not_loaded"
  | TR_stale_catalog_hash => u "stale_catalog_hash"
  | TR_unknown_tool => u "unknown_tool"
  | TR_unavailable_for_auth_class => u "unavailable_for_auth_class"
  | TR_duplicate_tool_call_id => u "duplicate_tool_call_id"
  | TR_mixed_discovery_batch => u "mixed_discovery_batch"
  | TR_read_write_dependency => u "read_write_dependency"
  | TR_too_many_refinements => u "too_many_refinements"
  | TR_write_port_not_ready => u "write_port_not_ready"
  | TR_invalid_args => u "invalid_args"
  | TR_unknown_action => u "unknown_action"
  | TR_policy_denied => u "policy_denied"
  | TR_host_call_budget_exceeded => u "host_call_budget_exceeded"
  | TR_clarification_required => u "clarification_required"
  | TR_presentation_limit_exceeded => u "presentation_limit_exceeded"
  | TR_read_dispatch_failed => u "read_dispatch_failed"
  | TR_invalid_request => u "invalid_request"
  | TR_cancelled_before_dispatch => u "cancelled_before_dispatch"
  | TR_not_admitted => u "not_admitted"
  | TR_read_failed => u "read_failed"
  | TR_clarification_already_active => u "clarification_already_active"
  | TR_unexpected_action_result => u "unexpected_action_result"
  end.

(** Parse at the boundary: a known code is itself, an unknown [invalid_*] code is an
    invalid request, and everything else is an internal error. *)
Definition asTerminalReason (raw : jstr) : TerminalReason :=
  match list_find (λ r, reason_code r = raw) TERMINAL_REASONS with
  | Some (_, r) => r
  | None => if starts_with (u "invalid_") raw then TR_invalid_request else TR_internal_error
  end.

Definition copyFor (reason : TerminalReason) : string :=
  match reason with
  | TR_cancelled =>
      "That request was cancelled before it finished. Nothing was changed."
  | TR_duplicate_write =>
      "That same change had already been requested in this conversation, so I stopped rather than repeat it. Nothing new was changed."
  | TR_installation_changed =>
      "This workspace's add-on installation changed while I was working, so I stopped. Nothing was changed. Reload the assistant and try again."
  | TR_internal_error =>
      "Something went wrong on my side, so I stopped. Nothing was changed. Please try again, and tell support if it keeps happening."
  | TR_missing_original_request =>
      "I could not find the original request to carry on from, so I stopped. Nothing was changed. Please ask again in a new message."
  | TR_model_failed =>
      "I could not reach the assistant model to finish that request. Nothing was changed. Please try again in a moment."
  | TR_no_progress =>
      "I stopped because I was repeating the same step without making progress. Nothing was changed."
  | TR_budget_exhausted =>
      "That request needed more steps than a single run allows, so I stopped. Nothing was changed. Try asking for one thing at a time."
  | TR_unoffered_tool =>
      "The assistant model tried to use an operation I had not offered it, so I stopped rather than run it. Nothing was changed."
  | TR_malformed_tool =>
      "The assistant model asked for an operation in a form I could not read, so I stopped rather than act on it. Nothing was changed. Please try again."
  | TR_malformed_completion =>
      "The assistant model returned a reply I could not read, so I stopped. Nothing was changed. Please try again."
  | TR_tool_not_loaded =>
      "I tried to use a Clockify operation I had not loaded yet, so I stopped instead of guessing. Nothing was changed. Please try again."
  | TR_stale_catalog_hash =>
      "The set of available Clockify operations changed while I was working, so I stopped. Nothing was changed. Please try again."
  | TR_unknown_tool =>
      "I tried to use a Clockify operation that does not exist, so I stopped. Nothing was changed. Please rephrase what you need."
  | TR_unavailable_for_auth_class =>
      "Clockify does not allow this add-on to perform that operation, so I stopped. Nothing was changed."
  | TR_duplicate_tool_call_id =>
      "The assistant model repeated a step in a way I could not act on safely, so I stopped. Nothing was changed. Please try again."
  | TR_mixed_discovery_batch =>
      "The assistant model tried to search and act in the same step, which I do not allow, so I stopped. Nothing was changed. Please try again."
  | TR_read_write_dependency =>
      "I was asked to make a change based on something I had not read yet, so I stopped. Nothing was changed. Please try again."
  | TR_too_many_refinements =>
      "I ran out of searches while looking for the right Clockify operation, so I stopped instead of guessing. Nothing was changed. Starting a new chat resets the search budget."
  | TR_write_port_not_ready =>
      "I could not prepare that change for your review, so I stopped. Nothing was changed. Please try again."
  | TR_invalid_args =>
      "I could not put together a valid request for that operation, so I stopped. Nothing was changed. Please add the missing details and ask again."
  | TR_unknown_action =>
      "I tried to use an operation that does not exist, so I stopped. Nothing was changed. Please rephrase what you need."
  | TR_policy_denied =>
      "Your assistant permissions do not cover that, so I stopped. Nothing was changed. An owner can adjust your assistant permissions in settings."
  | TR_host_call_budget_exceeded =>
      "That request needed more calls to Clockify than a single run allows, so I stopped. Nothing was changed. Try narrowing it to a smaller range."
  | TR_clarification_required =>
      "I needed you to choose between a few options before I could carry on, and the run ended first. Nothing was changed. Please ask again."
  | TR_presentation_limit_exceeded =>
      "That change was too large for me to show you for review, so I stopped. Nothing was changed. Try it in smaller pieces."
  | TR_read_dispatch_failed =>
      "I could not read from Clockify to finish that request. Nothing was changed. Please try again in a moment."
  | TR_invalid_request =>
      "I could not build a valid request for what you asked, so I stopped rather than send it. Nothing was changed. Try rephrasing with the specific details you want."
  | TR_cancelled_before_dispatch =>
      "That request was cancelled before this step started, so it never ran. Nothing was changed."
  | TR_not_admitted =>
      "I stopped partway through and did not start the remaining steps. Nothing was changed. Please try again."
  | TR_read_failed =>
      "A read from Clockify did not complete, so I stopped. Nothing was changed. Please try again in a moment."
  | TR_clarification_already_active =>
      "I already have an open question waiting on your answer, so I stopped rather than ask a second one. Nothing was changed. Answer the question above and I will carry on."
  | TR_unexpected_action_result =>
      "An operation returned something I could not interpret, so I stopped rather than act on it. Nothing was changed. Please try again."
  end.

(** ** Theorems *)

(** [text] contains the phrase [needle]. *)
Fixpoint contains (needle text : jstr) : bool :=
  starts_with needle text ||
  match text with
  | [] => false
  | _ :: text' => contains needle text'
  end.

Lemma reason_in_list r : r ∈ TERMINAL_REASONS.
Proof. apply (bool_decide_unpack _). destruct r; vm_compute; exact I. Qed.

Lemma reason_code_inj r1 r2 : reason_code r1 = reason_code r2 → r1 = r2.
Proof. destruct r1, r2; intros H; first [reflexivity | vm_compute in H; discriminate H]. Qed.

Lemma asTerminalReason_known r : asTerminalReason (reason_code r) = r.
Proof. destruct r; vm_compute; reflexivity. Qed.

Lemma asTerminalReason_unknown raw :
  (∀ r, reason_code r ≠ raw) →
  asTerminalReason raw =
    if starts_with (u "invalid_") raw then TR_invalid_request else TR_internal_error.
Proof.
  intros H. unfold asTerminalReason.
  destruct (list_find _ TERMINAL_REASONS) as [[i r]|] eqn:E; [|done].
  apply list_find_Some in E as (_ & E & _). by destruct (H r).
Qed.

(** The boundary parser is closed and faithful.  Every reason's own code
    parses to it, different reasons have different codes, and a code that is no
    reason's becomes the invalid-request reason exactly when it starts with
    [invalid_], and the internal-error reason otherwise. *)
Theorem terminal_reason_parse raw :
  (∀ r, asTerminalReason (reason_code r) = r) ∧
  (asTerminalReason raw = TR_invalid_request ↔
     raw = reason_code TR_invalid_request ∨
     (∃ rest, raw = u "invalid_" ++ rest ∧ raw ≠ reason_code TR_invalid_args)) ∧
  ((∀ r, raw ≠ reason_code r) → (∀ rest, raw ≠ u "invalid_" ++ rest) →
     asTerminalReason raw = TR_internal_error).
Proof.
  split_and!; [apply asTerminalReason_known| |].
  - destruct (decide (Exists (λ r, reason_code r = raw) TERMINAL_REASONS)) as [He|Hn].
    + apply Exists_exists in He as (r & _ & <-). rewrite asTerminalReason_known. split.
      * intros ->. by left.
      * intros [H%reason_code_inj|(rest & Hr & Hne)]; [done|].
        assert (starts_with (u "invalid_") (reason_code r) = true) as Hs
          by (apply starts_with_spec; eauto).
        clear Hr. destruct r; try (vm_compute in Hs; discriminate Hs); [|done]. by destruct Hne.
    + assert (∀ r, reason_code r ≠ raw) as Hne.
      { intros r Hr. apply Hn, Exists_exists. exists r. split; [apply reason_in_list|done]. }
      rewrite asTerminalReason_unknown by done. split.
      * case_match eqn:E; [|done]. intros _. right. apply starts_with_spec in E as [rest ->].
        exists rest. split; [done|]. intros H. by apply (Hne TR_invalid_args).
      * intros [->|(rest & -> & _)]; [by destruct (Hne TR_invalid_request)|].
        by rewrite (proj2 (starts_with_spec _ _)) by eauto.
  - intros Hne Hpre. rewrite asTerminalReason_unknown by (intros r Hr; by apply (Hne r)).
    case_match eqn:E; [|done]. apply starts_with_spec in E as [rest ->]. by destruct (Hpre rest).
Qed.

Lemma terminal_reason_parse_witness :
  let raw := u "SQLITE_BUSY: database is locked" in
  (∀ r, asTerminalReason (reason_code r) = r) ∧
  (asTerminalReason raw = TR_invalid_request ↔
     raw = reason_code TR_invalid_request ∨
     (∃ rest, raw = u "invalid_" ++ rest ∧ raw ≠ reason_code TR_invalid_args)) ∧
  ((∀ r, raw ≠ reason_code r) → (∀ rest, raw ≠ u "invalid_" ++ rest) →
     asTerminalReason raw = TR_internal_error).
Proof. exact (terminal_reason_parse (u "SQLITE_BUSY: database is locked")). Defined.

(** The admin-facing sentence never leaks an internal code and always states
    the outcome: for every reason it says that nothing (new) was changed, and it
    does not contain the code of any reason made of two or more words. *)
Theorem terminal_copy_honest r :
  (contains (u "Nothing was changed.") (u (copyFor r)) ||
   contains (u "Nothing new was changed.") (u (copyFor r))) = true ∧
  ∀ r', contains (u "_") (reason_code r') = true →
    contains (reason_code r') (u (copyFor r)) = false.
Proof.
  split; [by destruct r|].
  assert (forallb (λ r, forallb (λ r', implb (contains (u "_") (reason_code r'))
    (negb (contains (reason_code r') (u (copyFor r))))) TERMINAL_REASONS) TERMINAL_REASONS = true)
    as Hall by (vm_compute; reflexivity).
  intros r' Hr'. rewrite forallb_forall in Hall.
  specialize (Hall r (proj1 (list_elem_of_In _ _) (reason_in_list r))).
  rewrite forallb_forall in Hall.
  specialize (Hall r' (proj1 (list_elem_of_In _ _) (reason_in_list r'))).
  rewrite Hr' in Hall. by apply negb_true_iff in Hall.
Qed.

Lemma terminal_copy_honest_witness :
  contains (u "_") (reason_code TR_too_many_refinements) = true ∧
  contains (reason_code TR_too_many_refinements) (u (copyFor TR_too_many_refinements)) = false.
Proof.
  split; [reflexivity|].
  exact (proj2 (terminal_copy_honest TR_too_many_refinements) TR_too_many_refinements eq_refl).
Defined.
