(* ===== verification/SafetyLimits.v ===== *)
(** * Host-call safety limits

    [harness/safety-limits.ts]: the worst-case host-call estimators, the batch
    ceilings derived from them, and the bound persisted with every mutation plan. *)
From S2P Require Import Prelude Js.
Open Scope Z_scope.

Definition INTENT_LITERAL_CONSTRAINT_LIMIT : Z := 128.
Definition INTENT_LITERAL_MAX_DEPTH : Z := 8.
Definition INTENT_LITERAL_MAX_NODES : Z := 256.
Definition INTENT_LITERAL_MAX_BYTES : Z := 16 * 1024.

(** [HOST_CALL_BUDGET_MAXIMUM] of [clockify/request-governor.ts]. *)
Definition HOST_CALL_BUDGET_MAXIMUM : Z := 60.
Definition TURN_HOST_CALL_LIMIT : Z := HOST_CALL_BUDGET_MAXIMUM.
Definition HOST_CALL_ESTIMATOR_VERSION : Z := 1.
Definition CONFIRMED_REQUEST_PRE_RESERVATION_HOST_CALLS : Z := 3.
Definition INVOICE_CREATE_RECONCILIATION_CANDIDATE_MAX : Z := 8.
Definition STRUCTURE_CREATE_RECONCILIATION_CANDIDATE_MAX : Z := 4.

(** [for (count = 0; count < TURN_HOST_CALL_LIMIT; count += 1)]: [fuel] counts the
    iterations left. *)
Fixpoint derive_loop (estimate : Z → Z) (consumed : Z) (fuel : nat) (count : Z) : result Z :=
  match fuel with
  | O => Throw "host_call_estimator_did_not_reach_turn_limit"
  | S fuel' =>
      if TURN_HOST_CALL_LIMIT <? consumed + estimate (count + 1) then Ok count
      else derive_loop estimate consumed fuel' (count + 1)
  end.

Definition deriveMaximumBatchSize (estimateRemainingCalls : Z → Z) (callsAlreadyConsumed : Z)
    : result Z :=
  derive_loop estimateRemainingCalls callsAlreadyConsumed (Z.to_nat TURN_HOST_CALL_LIMIT) 0.

Definition estimateGroupMemberBatchHostCalls (memberCount : Z) : Z := 4 * memberCount + 1.
Definition estimateOnboardGroupBatchHostCalls (groupCount : Z) : Z := 4 * groupCount + 4.

Definition estimateInvoiceCreateHostCalls (itemCount : Z) (hasEnrichment : bool) : Z :=
  if (itemCount =? 0) && negb hasEnrichment
  then 4 + INVOICE_CREATE_RECONCILIATION_CANDIDATE_MAX
  else 3 + (if hasEnrichment then 3 else 0) + 2 * itemCount.

Definition estimateApprovePendingBatchHostCalls (approvalCount : Z) : Z := 3 * approvalCount + 1.

Definition estimateSetupProjectHostCalls (memberCount rateCount : Z) (hasClient : bool) : Z :=
  let snapshotCount := memberCount + (if hasClient then 1 else 0) in
  let createAndInitialEvidence := snapshotCount + 5 in
  let membership := if 0 <? memberCount then snapshotCount + 3 else 0 in
  let rates := rateCount * (snapshotCount + 3) in
  createAndInitialEvidence + membership + rates.

(** ** Derived ceilings *)

Definition derived (estimate : Z → Z) : Z :=
  match deriveMaximumBatchSize estimate CONFIRMED_REQUEST_PRE_RESERVATION_HOST_CALLS with
  | Ok n => n
  | Throw _ => -1
  end.

Definition GROUP_MEMBER_BATCH_MAX : Z := derived estimateGroupMemberBatchHostCalls.
Definition TIME_ENTRY_TAG_BATCH_MAX : Z := 14.
Definition CUSTOM_FIELD_ALLOWED_VALUES_MAX : Z := 17.
Definition CUSTOM_FIELD_VALUE_ARRAY_MAX : Z := 19.
Definition HOLIDAY_SCOPE_USER_BATCH_MAX : Z := 8.
Definition HOLIDAY_SCOPE_GROUP_BATCH_MAX : Z := 8.
Definition TIME_OFF_POLICY_SCOPE_USER_BATCH_MAX : Z := 8.
Definition TIME_OFF_POLICY_SCOPE_GROUP_BATCH_MAX : Z := 8.
Definition TIME_OFF_BALANCE_USER_MATERIAL_MAX : Z := 8.
Definition WEBHOOK_TRIGGER_SOURCE_BATCH_MAX : Z := 17.
Definition ONBOARD_GROUP_BATCH_MAX : Z := derived estimateOnboardGroupBatchHostCalls.
Definition INVOICE_ITEM_BATCH_MAX : Z :=
  derived (λ count, estimateInvoiceCreateHostCalls count true).
Definition SETUP_PROJECT_MEMBER_BATCH_MAX : Z :=
  derived (λ count, estimateSetupProjectHostCalls count 0 true).
Definition SETUP_PROJECT_RATE_BATCH_MAX : Z :=
  derived (λ count, estimateSetupProjectHostCalls count count true).
Definition MARK_INVOICED_ENTRY_BATCH_MAX : Z := Z.min 21 (derived (λ count, 2 * count + 2)).
Definition INVOICE_IMPORT_PROJECT_BATCH_MAX : Z := 19.
Definition SETUP_TASK_ASSIGNEE_BATCH_MAX : Z := derived (λ count, 3 * count + 11).
Definition TIME_OFF_BALANCE_USER_BATCH_MAX : Z :=
  Z.min TIME_OFF_BALANCE_USER_MATERIAL_MAX (derived (λ count, 2 * count + 3)).
Definition APPROVAL_PENDING_BATCH_MAX : Z := derived estimateApprovePendingBatchHostCalls.

Definition INVOICE_CREATE_MUTATION_STEP_MAX : Z := INVOICE_ITEM_BATCH_MAX + 2.
Definition ONBOARD_USER_MUTATION_STEP_MAX : Z := ONBOARD_GROUP_BATCH_MAX + 1.
Definition SETUP_PROJECT_MUTATION_STEP_MAX : Z := SETUP_PROJECT_RATE_BATCH_MAX + 2.

(** ** Mutation plans ([harness/mutation-contract.ts]) *)

Inductive step_kind : Set := Primary | Compensation.
Inductive plan_mode : Set := Single | Curated | Batch.
Inductive reconciliation_strategy : Set :=
| StrategyCreate | StrategyUpdate | StrategyDelete | StrategyStateCommand | StrategyComposed.

#[export] Instance step_kind_dec : EqDecision step_kind.
Proof. solve_decision. Defined.
#[export] Instance plan_mode_dec : EqDecision plan_mode.
Proof. solve_decision. Defined.
#[export] Instance reconciliation_strategy_dec : EqDecision reconciliation_strategy.
Proof. solve_decision. Defined.

Record ExternalMutationPlanStep := {
  plan_step_id : jstr;
  plan_step_kind : step_kind;
  plan_target_fingerprint : option jstr;
  plan_reconciliation : option reconciliation_strategy;
}.

Record ExternalMutationPlanDraft := {
  draft_mode : plan_mode;
  draft_maxHostCalls : option Z;
  draft_steps : list ExternalMutationPlanStep;
}.

Record ExternalMutationPlan := {
  mode : plan_mode;
  maxHostCalls : Z;
  steps : list ExternalMutationPlanStep;
}.

(** ** The plan estimator *)

Definition countSteps (steps : list ExternalMutationPlanStep) (prefix : jstr) : Z :=
  Z.of_nat (length (filter (λ s, starts_with prefix s.(plan_step_id) = true) steps)).

(** [Array.isArray(value) ? value.length : 0] *)
Definition array_length (v : jsval) : Z :=
  match v with VArr l => Z.of_nat (length l) | _ => 0 end.

(** The number of distinct strings of an array: [new Set(...).size]. *)
Definition distinct_strings (v : jsval) : Z :=
  match v with
  | VArr l => Z.of_nat (length (remove_dups (omap (λ x, match x with VStr s => Some s | _ => None end) l)))
  | _ => 0
  end.

Definition undo_step_cost (s : ExternalMutationPlanStep) : Z :=
  if ends_with (u "-transition") s.(plan_step_id) then 3
  else if ends_with (u "-delete") s.(plan_step_id) then 2
  else 8.

Definition sum_costs (costs : list Z) : Z := foldl Z.add 0 costs.

(** [payload] is [operation] when it is a plain object and [{}] otherwise. *)
Definition payload (operation : jsval) (k : string) : jsval :=
  if is_record operation then prop (u k) operation else VUndef.

Definition estimateMutationPlanHostCalls (actionName : string) (operation : jsval)
    (steps : list ExternalMutationPlanStep) : Z :=
  let n := Z.of_nat (length steps) in
  let payload := payload operation in
  if decide (actionName = "clockify_approvals_approve_pending") then
    estimateApprovePendingBatchHostCalls n
  else if decide (actionName = "clockify_groups_add_user") then
    estimateGroupMemberBatchHostCalls n
  else if decide (actionName = "clockify_onboard_user") then
    estimateOnboardGroupBatchHostCalls (countSteps steps (u "add-user-to-group-"))
  else if decide (actionName = "clockify_invoices_create") then
    estimateInvoiceCreateHostCalls (countSteps steps (u "add-invoice-item-"))
      (existsb (λ s, bool_decide (s.(plan_step_id) = u "enrich-invoice")) steps)
  else if decide (actionName = "clockify_setup_project") then
    estimateSetupProjectHostCalls (array_length (payload "addUserIds"))
      (array_length (payload "memberRates")) (is_string (payload "clientId"))
  else if decide (actionName = "clockify_projects_create") then
    let body := payload "body" in
    if is_string (payload "clientId") || (is_record body && is_string (prop (u "clientId") body))
    then 9 else 8
  else if decide (actionName = "clockify_invoices_import_time") then
    let range := payload "range" in
    (if is_record range then distinct_strings (prop (u "projectIds") range) else 0) + 3
  else if decide (actionName = "clockify_entries_mark_invoiced") then
    2 * array_length (payload "ids") + 2
  else if decide (actionName = "clockify_setup_task") then
    3 * array_length (payload "assigneeIds") + (if is_undef (payload "rate") then 7 else 11)
  else if decide (actionName = "clockify_time_off_balance_update") then
    2 * array_length (payload "userIds") + 3
  else if decide (actionName = "undo") then
    sum_costs (undo_step_cost <$> steps)
  else Z.max 1 (n * 8).

Definition bindMutationPlanHostCalls (actionName : string) (operation : jsval)
    (plan : ExternalMutationPlanDraft) : ExternalMutationPlan :=
  {| mode := plan.(draft_mode);
     maxHostCalls := estimateMutationPlanHostCalls actionName operation plan.(draft_steps);
     steps := plan.(draft_steps) |}.

(** ** Lemmas *)

Lemma derive_loop_ok estimate consumed fuel count n :
  derive_loop estimate consumed fuel count = Ok n →
  count ≤ n < count + Z.of_nat fuel ∧
  TURN_HOST_CALL_LIMIT < consumed + estimate (n + 1) ∧
  ∀ k, count < k ≤ n → consumed + estimate k ≤ TURN_HOST_CALL_LIMIT.
Proof.
  revert count. induction fuel as [|fuel IH]; intros count; cbn [derive_loop]; [done|].
  case_match eqn:E; zbool.
  - intros [= <-]. split_and!; lia.
  - intros (Hn & Hlim & Hk)%IH. split_and!; [lia|lia|done|].
    intros k Hk'. destruct (decide (k = count + 1)) as [->|]; [lia|]. apply Hk. lia.
Qed.

Lemma derive_loop_throw estimate consumed fuel count e :
  derive_loop estimate consumed fuel count = Throw e →
  ∀ k, count < k ≤ count + Z.of_nat fuel → consumed + estimate k ≤ TURN_HOST_CALL_LIMIT.
Proof.
  revert count. induction fuel as [|fuel IH]; intros count; cbn [derive_loop].
  { intros _ k. lia. }
  case_match eqn:E; [done|]. zbool. intros He k Hk.
  destruct (decide (k = count + 1)) as [->|]; [lia|]. apply (IH _ He). lia.
Qed.

Lemma undo_step_cost_pos s : 2 ≤ undo_step_cost s ≤ 8.
Proof. unfold undo_step_cost. repeat case_match; lia. Qed.

Lemma foldl_add_ge l acc : Forall (λ c, 0 ≤ c) l → acc ≤ foldl Z.add acc l.
Proof.
  intros Hl. revert acc. induction Hl as [|c l Hc Hl IH]; intros acc; simpl; [lia|].
  specialize (IH (acc + c)). lia.
Qed.

(** The ceiling of each batch argument of a plan, as the action schemas bound it. *)
Definition within_batch_maxima (actionName : string) (operation : jsval)
    (steps : list ExternalMutationPlanStep) : Prop :=
  let n := Z.of_nat (length steps) in
  let payload := payload operation in
  (actionName = "clockify_approvals_approve_pending" → n ≤ APPROVAL_PENDING_BATCH_MAX) ∧
  (actionName = "clockify_groups_add_user" → n ≤ GROUP_MEMBER_BATCH_MAX) ∧
  (actionName = "clockify_onboard_user" →
     countSteps steps (u "add-user-to-group-") ≤ ONBOARD_GROUP_BATCH_MAX) ∧
  (actionName = "clockify_invoices_create" →
     countSteps steps (u "add-invoice-item-") ≤ INVOICE_ITEM_BATCH_MAX) ∧
  (actionName = "clockify_setup_project" →
     array_length (payload "memberRates") ≤ array_length (payload "addUserIds") ∧
     (array_length (payload "addUserIds") ≤ SETUP_PROJECT_RATE_BATCH_MAX ∨
      array_length (payload "memberRates") = 0 ∧
      array_length (payload "addUserIds") ≤ SETUP_PROJECT_MEMBER_BATCH_MAX)) ∧
  (actionName = "clockify_invoices_import_time" →
     array_length (prop (u "projectIds") (payload "range")) ≤ INVOICE_IMPORT_PROJECT_BATCH_MAX) ∧
  (actionName = "clockify_entries_mark_invoiced" →
     array_length (payload "ids") ≤ MARK_INVOICED_ENTRY_BATCH_MAX) ∧
  (actionName = "clockify_setup_task" →
     array_length (payload "assigneeIds") ≤ SETUP_TASK_ASSIGNEE_BATCH_MAX) ∧
  (actionName = "clockify_time_off_balance_update" →
     array_length (payload "userIds") ≤ TIME_OFF_BALANCE_USER_BATCH_MAX).

Definition batch_actions : list string :=
  ["clockify_approvals_approve_pending"; "clockify_groups_add_user"; "clockify_onboard_user";
   "clockify_invoices_create"; "clockify_setup_project"; "clockify_projects_create";
   "clockify_invoices_import_time"; "clockify_entries_mark_invoiced"; "clockify_setup_task";
   "clockify_time_off_balance_update"].

Lemma remove_dups_length_le {A} `{EqDecision A} (l : list A) :
  (length (remove_dups l) ≤ length l)%nat.
Proof. induction l as [|x l IH]; simpl; [lia|]. case_decide; simpl; lia. Qed.

Lemma distinct_strings_le v : distinct_strings v ≤ array_length v.
Proof.
  destruct v as [| | | | |l| | | |]; simpl; try lia.
  pose proof (remove_dups_length_le
    (omap (λ x, match x with VStr s => Some s | _ => None end) l)).
  pose proof (omap_length_le (λ x, match x with VStr s => Some s | _ => None end) l).
  lia.
Qed.

Lemma array_length_nonneg v : 0 ≤ array_length v.
Proof. destruct v; simpl; lia. Qed.

Lemma countSteps_nonneg steps p : 0 ≤ countSteps steps p.
Proof. unfold countSteps. lia. Qed.

Lemma setup_project_fits m r c :
  0 ≤ r → r ≤ m → (m ≤ SETUP_PROJECT_RATE_BATCH_MAX ∨ r = 0 ∧ m ≤ SETUP_PROJECT_MEMBER_BATCH_MAX) →
  3 + estimateSetupProjectHostCalls m r c ≤ TURN_HOST_CALL_LIMIT.
Proof.
  change SETUP_PROJECT_RATE_BATCH_MAX with 4. change SETUP_PROJECT_MEMBER_BATCH_MAX with 23.
  change TURN_HOST_CALL_LIMIT with 60. intros Hr Hrm Hm.
  unfold estimateSetupProjectHostCalls.
  destruct Hm as [Hm|[-> Hm]]; [|destruct c, (Z.ltb_spec 0 m); cbv zeta iota; lia].
  assert (m = 0 ∨ m = 1 ∨ m = 2 ∨ m = 3 ∨ m = 4) as Hcases by lia.
  destruct c, (Z.ltb_spec 0 m); repeat destruct Hcases as [->|Hcases]; subst;
    cbv zeta iota; lia.
Qed.

(** ** Theorems *)

(** The derivation of a batch ceiling is exact.  When it returns [n], every
    batch up to [n] fits the turn limit together with the calls already consumed
    and a batch of [n + 1] does not; it throws exactly when all sixty candidate
    sizes fit. *)
Theorem derive_maximum_batch_exact estimate consumed :
  (∀ n, deriveMaximumBatchSize estimate consumed = Ok n →
     0 ≤ n < TURN_HOST_CALL_LIMIT ∧
     (∀ k, 1 ≤ k ≤ n → consumed + estimate k ≤ TURN_HOST_CALL_LIMIT) ∧
     TURN_HOST_CALL_LIMIT < consumed + estimate (n + 1)) ∧
  (is_ok (deriveMaximumBatchSize estimate consumed) = false ↔
     ∀ k, 1 ≤ k ≤ TURN_HOST_CALL_LIMIT → consumed + estimate k ≤ TURN_HOST_CALL_LIMIT).
Proof.
  unfold deriveMaximumBatchSize. split.
  - intros n (Hn & Hlim & Hk)%derive_loop_ok. change (Z.of_nat _) with 60 in Hn.
    change TURN_HOST_CALL_LIMIT with 60 in *. split_and!; [lia|lia| |done].
    intros k ?. apply Hk. lia.
  - destruct (derive_loop _ _ _ _) as [n|e] eqn:E; simpl.
    + split; [done|]. intros Hall. apply derive_loop_ok in E as (Hn & Hlim & _).
      change (Z.of_nat _) with 60 in Hn. specialize (Hall (n + 1)).
      change TURN_HOST_CALL_LIMIT with 60 in *. lia.
    + split; [|done]. intros _ k Hk. apply (derive_loop_throw _ _ _ _ _ E).
      change (Z.of_nat _) with 60. change TURN_HOST_CALL_LIMIT with 60 in Hk. lia.
Qed.

Lemma derive_maximum_batch_exact_witness :
  deriveMaximumBatchSize estimateGroupMemberBatchHostCalls 3 = Ok 14 ∧
  (0 ≤ 14 < TURN_HOST_CALL_LIMIT ∧
   (∀ k, 1 ≤ k ≤ 14 → 3 + estimateGroupMemberBatchHostCalls k ≤ TURN_HOST_CALL_LIMIT) ∧
   TURN_HOST_CALL_LIMIT < 3 + estimateGroupMemberBatchHostCalls (14 + 1)).
Proof.
  split; [reflexivity|].
  apply (proj1 (derive_maximum_batch_exact estimateGroupMemberBatchHostCalls 3)). reflexivity.
Defined.

(** A curated or batched plan whose arguments respect the published ceilings
    always fits one confirmed request: the host calls spent before the reservation
    plus the bound persisted with the plan never exceed the turn limit, and the
    bound is at least one call. *)
Theorem batch_plan_fits_turn actionName operation draft :
  actionName ∈ batch_actions →
  within_batch_maxima actionName operation draft.(draft_steps) →
  CONFIRMED_REQUEST_PRE_RESERVATION_HOST_CALLS +
    (bindMutationPlanHostCalls actionName operation draft).(maxHostCalls) ≤ TURN_HOST_CALL_LIMIT ∧
  1 ≤ (bindMutationPlanHostCalls actionName operation draft).(maxHostCalls).
Proof.
  destruct draft as [md mx ss]. cbn [bindMutationPlanHostCalls maxHostCalls draft_steps].
  intros Hin (H1 & H2 & H3 & H4 & H5 & H6 & H7 & H8 & H9).
  pose proof array_length_nonneg as Hnn. pose proof (countSteps_nonneg ss) as Hcn.
  change APPROVAL_PENDING_BATCH_MAX with 18 in H1. change GROUP_MEMBER_BATCH_MAX with 14 in H2.
  change ONBOARD_GROUP_BATCH_MAX with 13 in H3. change INVOICE_ITEM_BATCH_MAX with 25 in H4.
  change INVOICE_IMPORT_PROJECT_BATCH_MAX with 19 in H6.
  change MARK_INVOICED_ENTRY_BATCH_MAX with 21 in H7.
  change SETUP_TASK_ASSIGNEE_BATCH_MAX with 15 in H8.
  change TIME_OFF_BALANCE_USER_BATCH_MAX with 8 in H9.
  change CONFIRMED_REQUEST_PRE_RESERVATION_HOST_CALLS with 3. unfold batch_actions in Hin.
  repeat (apply elem_of_cons in Hin as [->|Hin]); [..|by apply elem_of_nil in Hin];
    change TURN_HOST_CALL_LIMIT with 60; unfold estimateMutationPlanHostCalls;
    repeat first [rewrite decide_True by done | rewrite decide_False by done].
  - specialize (H1 eq_refl). unfold estimateApprovePendingBatchHostCalls. lia.
  - specialize (H2 eq_refl). unfold estimateGroupMemberBatchHostCalls. lia.
  - specialize (H3 eq_refl). specialize (Hcn (u "add-user-to-group-")).
    unfold estimateOnboardGroupBatchHostCalls. lia.
  - specialize (H4 eq_refl). specialize (Hcn (u "add-invoice-item-")).
    revert H4 Hcn. unfold estimateInvoiceCreateHostCalls, INVOICE_CREATE_RECONCILIATION_CANDIDATE_MAX.
    generalize (countSteps ss (u "add-invoice-item-")). intros c Hc Hc'.
    destruct (Z.eqb_spec c 0), (existsb _ _); cbn [andb negb]; lia.
  - destruct (H5 eq_refl) as [Hrm Hm]. split.
    + change 60 with TURN_HOST_CALL_LIMIT. apply setup_project_fits; auto.
    + pose proof (Hnn (payload operation "addUserIds")). pose proof (Hnn (payload operation "memberRates")).
      unfold estimateSetupProjectHostCalls. destruct (is_string _), (0 <? _); nia.
  - repeat case_match; lia.
  - specialize (H6 eq_refl).
    pose proof (distinct_strings_le (prop (u "projectIds") (payload operation "range"))).
    assert (0 ≤ distinct_strings (prop (u "projectIds") (payload operation "range")))
      by (unfold distinct_strings; case_match; lia).
    case_match; lia.
  - specialize (H7 eq_refl). specialize (Hnn (payload operation "ids")). lia.
  - specialize (H8 eq_refl). specialize (Hnn (payload operation "assigneeIds")). case_match; lia.
  - specialize (H9 eq_refl). specialize (Hnn (payload operation "userIds")). lia.
Qed.

Definition onboard_draft (n : nat) : ExternalMutationPlanDraft :=
  {| draft_mode := Curated; draft_maxHostCalls := None;
     draft_steps := replicate n {| plan_step_id := u "add-user-to-group-1";
       plan_step_kind := Primary; plan_target_fingerprint := None;
       plan_reconciliation := Some StrategyUpdate |} |}.

Lemma batch_plan_fits_turn_witness :
  within_batch_maxima "clockify_onboard_user" VNull (draft_steps (onboard_draft 13)) ∧
  CONFIRMED_REQUEST_PRE_RESERVATION_HOST_CALLS +
    (bindMutationPlanHostCalls "clockify_onboard_user" VNull (onboard_draft 13)).(maxHostCalls)
      ≤ TURN_HOST_CALL_LIMIT ∧
  1 ≤ (bindMutationPlanHostCalls "clockify_onboard_user" VNull (onboard_draft 13)).(maxHostCalls).
Proof.
  assert (within_batch_maxima "clockify_onboard_user" VNull (draft_steps (onboard_draft 13))) as H.
  { unfold within_batch_maxima. split_and!; try (intros H; discriminate H).
    intros _. vm_compute. discriminate. }
  split; [exact H|]. apply batch_plan_fits_turn; [|exact H].
  unfold batch_actions. set_solver.
Defined.
