(* ===== verification/Limiter.v ===== *)
(** * Sliding-window rate limiter

    [routes/rate-limit.ts]: the per-key limiter of the paid model loops, with its
    periodic sweep of dead keys, and its refinement of a limiter that simply
    remembers every admitted hit. *)
From S2P Require Import Prelude.
Open Scope Z_scope.

Definition DEFAULT_CHAT_RATE_LIMIT_MAX : Z := 30.
Definition DEFAULT_CHAT_RATE_LIMIT_WINDOW_MS : Z := 5 * 60 * 1000.
Definition DEFAULT_NEW_CHAT_RATE_LIMIT_MAX : Z := 10.
Definition DEFAULT_NEW_CHAT_RATE_LIMIT_WINDOW_MS : Z := 5 * 60 * 1000.
Definition DEFAULT_API_RATE_LIMIT_MAX : Z := 600.
Definition DEFAULT_API_RATE_LIMIT_WINDOW_MS : Z := 5 * 60 * 1000.
Definition SWEEP_EVERY_CHECKS : Z := 512.

(** A denial carries [recent[0] + windowMs - nowMs], [None] when [recent] is empty
    (then the JavaScript value is NaN). *)
Inductive RateLimitDecision : Set :=
| Allowed
| Denied (retryAfterMs : option Z).

Record limiter_state := { hits : gmap string (list Z); checks : Z }.

Definition createSlidingWindowLimiter : limiter_state := {| hits := ∅; checks := 0 |}.

(** [stamps.length === 0 || stamps[stamps.length - 1] <= nowMs - windowMs] *)
Definition dead (cutoff : Z) (stamps : list Z) : bool :=
  match last stamps with
  | None => true
  | Some t => t <=? cutoff
  end.

Section Limiter.
Context (max windowMs : Z).

Definition sweep (cutoff : Z) (m : gmap string (list Z)) : gmap string (list Z) :=
  filter (λ kv, dead cutoff kv.2 = false) m.

Definition check (s : limiter_state) (key : string) (nowMs : Z)
    : limiter_state * RateLimitDecision :=
  let checks' := s.(checks) + 1 in
  let hits1 := if checks' mod SWEEP_EVERY_CHECKS =? 0
               then sweep (nowMs - windowMs) s.(hits) else s.(hits) in
  let recent := filter (λ t, nowMs - windowMs < t) (default [] (hits1 !! key)) in
  if max <=? Z.of_nat (length recent)
  then ({| hits := <[key := recent]> hits1; checks := checks' |},
        Denied ((λ t, t + windowMs - nowMs) <$> head recent))
  else ({| hits := <[key := recent ++ [nowMs]]> hits1; checks := checks' |}, Allowed).

(** A run of the limiter over a sequence of checks. *)
Fixpoint run_checks (s : limiter_state) (reqs : list (string * Z)) : list RateLimitDecision :=
  match reqs with
  | [] => []
  | (key, now) :: reqs' =>
      let (s', d) := check s key now in d :: run_checks s' reqs'
  end.

(** ** Specification: remember every admitted hit *)

Definition admitted_in (key : string) (cutoff : Z) (log : list (string * Z)) : list Z :=
  filter (λ t, cutoff < t) (omap (λ e, if decide (e.1 = key) then Some e.2 else None) log).

Definition spec_decision (log : list (string * Z)) (key : string) (now : Z) : RateLimitDecision :=
  let recent := admitted_in key (now - windowMs) log in
  if max <=? Z.of_nat (length recent)
  then Denied ((λ t, t + windowMs - now) <$> head recent)
  else Allowed.

Definition spec_log (log : list (string * Z)) (key : string) (now : Z) : list (string * Z) :=
  match spec_decision log key now with
  | Allowed => log ++ [(key, now)]
  | Denied _ => log
  end.

Fixpoint spec_checks (log : list (string * Z)) (reqs : list (string * Z)) : list RateLimitDecision :=
  match reqs with
  | [] => []
  | (key, now) :: reqs' =>
      spec_decision log key now :: spec_checks (spec_log log key now) reqs'
  end.

Definition final_log (log : list (string * Z)) (reqs : list (string * Z)) : list (string * Z) :=
  foldl (λ l r, spec_log l r.1 r.2) log reqs.

(** The clock never goes back, starting from [t]. *)
Fixpoint clock_from (t : Z) (reqs : list (string * Z)) : Prop :=
  match reqs with
  | [] => True
  | (_, now) :: reqs' => t ≤ now ∧ clock_from now reqs'
  end.

(** The state agrees with the log on every window that can still be asked for. *)
Definition refines (s : limiter_state) (log : list (string * Z)) (t : Z) : Prop :=
  (∀ key cutoff, t - windowMs ≤ cutoff →
     filter (λ x, cutoff < x) (default [] (s.(hits) !! key)) = admitted_in key cutoff log) ∧
  (∀ key stamps, s.(hits) !! key = Some stamps →
     StronglySorted Z.le stamps ∧ Forall (λ x, x ≤ t) stamps).

Lemma sorted_last_bound (l : list Z) x :
  StronglySorted Z.le l → last l = Some x → Forall (λ y, y ≤ x) l.
Proof.
  induction 1 as [|y l Hs IH Hy]; simpl; [done|].
  destruct l as [|z l]; [intros [= <-]; by repeat constructor|].
  intros Hx. specialize (IH Hx). constructor; [|done].
  inversion Hy; inversion IH; subst; lia.
Qed.

Lemma filter_lt_lt (a b : Z) (l : list Z) :
  a ≤ b → filter (λ t, b < t) (filter (λ t, a < t) l) = filter (λ t, b < t) l.
Proof.
  intros Hab. induction l as [|x l IH]; [done|].
  rewrite !filter_cons. repeat case_decide; try lia; rewrite ?filter_cons; repeat case_decide;
    try lia; congruence.
Qed.

Lemma dead_filter cutoff (stamps : list Z) :
  StronglySorted Z.le stamps → dead cutoff stamps = true →
  filter (λ t, cutoff < t) stamps = [].
Proof.
  unfold dead. intros Hs Hd. destruct (last stamps) as [x|] eqn:E.
  - zbool. pose proof (sorted_last_bound _ _ Hs E) as Hb. clear Hs E.
    induction Hb as [|y l Hy Hl IH]; [done|]. by rewrite filter_cons_False by lia.
  - by apply last_None in E as ->.
Qed.

Lemma sweep_lookup cutoff m key stamps :
  sweep cutoff m !! key = Some stamps → m !! key = Some stamps.
Proof. unfold sweep. rewrite map_lookup_filter_Some. tauto. Qed.

Lemma sweep_filter cutoff c (m : gmap string (list Z)) key :
  (∀ key stamps, m !! key = Some stamps → StronglySorted Z.le stamps) → cutoff ≤ c →
  filter (λ t, c < t) (default [] (sweep cutoff m !! key)) =
  filter (λ t, c < t) (default [] (m !! key)).
Proof.
  intros Hs Hc. unfold sweep. rewrite map_lookup_filter.
  destruct (m !! key) as [stamps|] eqn:E; simpl; [|done].
  destruct (dead cutoff stamps) eqn:D.
  - rewrite option_guard_False by done. simpl.
    rewrite <- (filter_lt_lt cutoff c stamps) by done. by rewrite (dead_filter _ _ (Hs _ _ E) D).
  - by rewrite option_guard_True.
Qed.

Lemma admitted_in_snoc key cutoff log key' now :
  admitted_in key cutoff (log ++ [(key', now)]) =
  admitted_in key cutoff log ++
    (if decide (key' = key) then filter (λ t : Z, cutoff < t) [now] else []).
Proof.
  unfold admitted_in. rewrite omap_app, filter_app. f_equal. csimpl. by case_decide.
Qed.

Lemma refines_init t : refines createSlidingWindowLimiter [] t.
Proof. split; [intros key cutoff _; simpl; by rewrite lookup_empty|intros ??; simpl; by rewrite lookup_empty]. Qed.

Lemma refines_sweep s log t now (b : bool) :
  refines s log t → t ≤ now →
  refines {| hits := if b then sweep (now - windowMs) s.(hits) else s.(hits); checks := s.(checks) |}
    log now.
Proof.
  intros [Hf Hs] Ht. split; simpl.
  - intros key cutoff Hc. rewrite <- (Hf key cutoff) by lia. destruct b; [|done].
    apply sweep_filter; [|lia]. intros k st Hk. by destruct (Hs k st Hk).
  - intros key stamps Hk. destruct (Hs key stamps) as [? Hb].
    { destruct b; [by eapply sweep_lookup|done]. }
    split; [done|]. eapply Forall_impl; [exact Hb|]. simpl; lia.
Qed.

Lemma filter_sorted (P : Z → Prop) `{∀ x, Decision (P x)} (l : list Z) :
  StronglySorted Z.le l → StronglySorted Z.le (filter P l).
Proof.
  induction 1 as [|x l Hs IH Hx]; [constructor|]. rewrite filter_cons. case_decide; [|done].
  constructor; [done|]. by apply Forall_filter.
Qed.

Lemma refines_set m n log now key l :
  refines {| hits := m; checks := n |} log now →
  l = filter (λ t : Z, now - windowMs < t) (default [] (m !! key)) →
  refines {| hits := <[key := l]> m; checks := n |} log now.
Proof.
  intros [Hf Hs] ->. simpl in *. split; simpl.
  - intros k cutoff Hc. rewrite lookup_insert. case_decide; subst; simpl; [|by apply Hf].
    rewrite filter_lt_lt by done. by apply Hf.
  - intros k st. rewrite lookup_insert. case_decide; subst; [|apply Hs]. intros [= <-].
    destruct (m !! k) as [st|] eqn:E; simpl; [|by repeat constructor].
    destruct (Hs _ _ E). split; [by apply filter_sorted|by apply Forall_filter].
Qed.

Lemma refines_push m n log now key l :
  refines {| hits := <[key := l]> m; checks := n |} log now →
  refines {| hits := <[key := l ++ [now]]> m; checks := n |} (log ++ [(key, now)]) now.
Proof.
  intros [Hf Hs]. simpl in *. split; simpl.
  - intros k cutoff Hc. rewrite admitted_in_snoc, <- Hf by done. rewrite !lookup_insert.
    repeat case_decide; subst; simpl; try done; rewrite ?app_nil_r; [by rewrite filter_app|done].
  - intros k st. rewrite lookup_insert. case_decide; subst.
    + intros [= <-]. destruct (Hs k l) as [Hl Hb]; [by rewrite lookup_insert_eq|].
      split; [by apply StronglySorted_snoc|]. apply Forall_app; split; [done|].
      repeat constructor. lia.
    + intros Hk. apply (Hs k st). by rewrite lookup_insert_ne.
Qed.

Lemma check_refines s log t key now :
  refines s log t → t ≤ now →
  (check s key now).2 = spec_decision log key now ∧
  refines (check s key now).1 (spec_log log key now) now.
Proof.
  intros Hr Ht. unfold check, spec_log.
  set (b := (checks s + 1) mod SWEEP_EVERY_CHECKS =? 0).
  set (m := if b then sweep (now - windowMs) (hits s) else hits s).
  assert (refines {| hits := m; checks := checks s + 1 |} log now) as Hm
    by (destruct (refines_sweep s log t now b Hr Ht); by split).
  set (recent := filter _ (default [] (m !! key))).
  assert (recent = admitted_in key (now - windowMs) log) as Hrec by (apply Hm; lia).
  assert (refines {| hits := <[key := recent]> m; checks := checks s + 1 |} log now) as Hset
    by (by apply refines_set).
  unfold spec_decision. rewrite <- Hrec.
  destruct (max <=? Z.of_nat (length recent)); simpl; split; try done.
  by apply refines_push.
Qed.

Lemma run_checks_refines s log t reqs :
  refines s log t → clock_from t reqs → run_checks s reqs = spec_checks log reqs.
Proof.
  revert s log t. induction reqs as [|[key now] reqs IH]; intros s log t Hr Hc; [done|].
  destruct Hc as [Ht Hc]. destruct (check_refines s log t key now Hr Ht) as [Hd Hr'].
  simpl. destruct (check s key now) as [s' d] eqn:E. simpl in *. subst d.
  f_equal. by eapply IH.
Qed.

(** ** The window bound of the specification *)

Definition window_count (key : string) (a b : Z) (log : list (string * Z)) : Z :=
  Z.of_nat (length (filter (λ t, t ≤ b) (admitted_in key a log))).

Definition log_bounded (log : list (string * Z)) (t : Z) : Prop :=
  Forall (λ e, e.2 ≤ t) log ∧ ∀ key a, window_count key a (a + windowMs) log ≤ max.

Lemma admitted_bound key a log t :
  Forall (λ e, e.2 ≤ t) log → Forall (λ x, x ≤ t) (admitted_in key a log).
Proof.
  intros Hl. unfold admitted_in. apply Forall_filter.
  induction Hl as [|[k x] log Hx Hl IH]; csimpl; [constructor|]. case_decide; [by constructor|done].
Qed.

Lemma filter_length_le (P Q : Z → Prop) `{∀ x, Decision (P x), ∀ x, Decision (Q x)} (l : list Z) :
  (∀ x, P x → Q x) → (length (filter P l) ≤ length (filter Q l))%nat.
Proof.
  intros HPQ. induction l as [|x l IH]; [done|].
  rewrite !filter_cons. repeat case_decide; simpl; try lia. exfalso. auto.
Qed.

Lemma window_count_le key a b log t :
  t ≤ b → Forall (λ e, e.2 ≤ t) log →
  window_count key a b log = Z.of_nat (length (admitted_in key a log)).
Proof.
  intros Hb Hl. unfold window_count. f_equal. f_equal.
  pose proof (admitted_bound key a log t Hl) as Hall. clear Hl.
  induction Hall as [|x l Hx Hl IH]; [done|]. rewrite filter_cons_True by lia. by f_equal.
Qed.

Lemma admitted_antitone key a a' log :
  a ≤ a' → (length (admitted_in key a' log) ≤ length (admitted_in key a log))%nat.
Proof.
  intros. unfold admitted_in. apply filter_length_le. intros x. lia.
Qed.

Lemma spec_log_bounded log t key now :
  0 ≤ windowMs → log_bounded log t → t ≤ now → log_bounded (spec_log log key now) now.
Proof.
  intros Hw [Hl Hb] Ht.
  assert (Forall (λ e, e.2 ≤ now) log) as Hl' by (eapply Forall_impl; [exact Hl|]; simpl; lia).
  unfold spec_log, spec_decision.
  destruct (max <=? Z.of_nat (length (admitted_in key (now - windowMs) log))) eqn:Em; [by split|].
  split; [by apply Forall_app; split; [|repeat constructor; simpl; lia]|].
  zbool. intros k a.
  unfold window_count. rewrite admitted_in_snoc, filter_app, length_app.
  fold (window_count k a (a + windowMs) log).
  destruct (decide (key = k)) as [->|]; [|simpl; specialize (Hb k a); unfold window_count in Hb; lia].
  destruct (decide (a < now ∧ now ≤ a + windowMs)) as [[Ha Hn]|Hout].
  - rewrite filter_cons_True, filter_nil, filter_cons_True, filter_nil by lia. simpl.
    pose proof (window_count_le k a (a + windowMs) log now Hn Hl') as Hc.
    unfold window_count in Hc.
    pose proof (admitted_antitone k (now - windowMs) a log ltac:(lia)). lia.
  - assert (filter (λ x, x ≤ a + windowMs) (filter (λ x : Z, a < x) [now]) = []) as ->.
    { rewrite filter_cons, filter_nil. case_decide; [|done].
      rewrite filter_cons_False by lia. done. }
    simpl. specialize (Hb k a). unfold window_count in Hb. lia.
Qed.

Lemma final_log_bounded log t reqs :
  0 ≤ windowMs → log_bounded log t → clock_from t reqs → ∃ t', log_bounded (final_log log reqs) t'.
Proof.
  intros Hw. revert log t. induction reqs as [|[key now] reqs IH]; intros log t Hl Hc; simpl; [eauto|].
  destruct Hc as [Ht Hc]. eapply IH; [|exact Hc]. by eapply spec_log_bounded.
Qed.
End Limiter.

(** ** Theorems *)

(** With a clock that does not go back, the limiter (sweeping included)
    decides every check as the limiter that remembers all admitted hits does; no
    key is ever admitted more than [max] times in any window of [windowMs]
    milliseconds; and a denial is answered with the time until the oldest counted
    hit leaves the window. *)
Theorem limiter_refines_and_bounds max windowMs t0 reqs :
  0 ≤ max → 0 ≤ windowMs → clock_from t0 reqs →
  run_checks max windowMs createSlidingWindowLimiter reqs = spec_checks max windowMs [] reqs ∧
  ∀ key a, window_count key a (a + windowMs) (final_log max windowMs [] reqs) ≤ max.
Proof.
  intros Hm Hw Hc. split.
  - eapply run_checks_refines; [apply refines_init|exact Hc].
  - destruct (final_log_bounded max windowMs [] t0 reqs Hw) as (t' & _ & Hb); [|done|done].
    split; [constructor|]. done.
Qed.

Lemma limiter_refines_and_bounds_witness :
  let reqs := [("s1", 0); ("s1", 10); ("s2", 11); ("s1", 20); ("s1", 105)] in
  clock_from 0 reqs ∧
  run_checks 2 100 createSlidingWindowLimiter reqs =
    [Allowed; Allowed; Allowed; Denied (Some 80); Allowed] ∧
  (run_checks 2 100 createSlidingWindowLimiter reqs = spec_checks 2 100 [] reqs ∧
   ∀ key a, window_count key a (a + 100) (final_log 2 100 [] reqs) ≤ 2).
Proof.
  split; [simpl; lia|]. split; [vm_compute; reflexivity|].
  apply (limiter_refines_and_bounds 2 100 0); [lia|lia|simpl; lia].
Defined.
