(* ===== verification/Fifo.v ===== *)
(** * Keyed FIFO

    [routes/fifo-lock.ts]: [KeyedFifo.run] chains the tasks of one key through
    promises.  A call creates a run whose [current] promise is
    [predecessor.catch().then(() => gate)]; the promise scheduler decides when an
    enabled continuation runs, so the behaviour is a step relation. *)
From S2P Require Import Prelude.

(** One call of [run]: [pred] is the run whose [current] was found in [tails]
    ([None] when the key had no tail), [finished] is the opened gate. *)
Record run := {
  rkey : string;
  pred : option nat;
  started : bool;
  finished : bool;
}.

Record fifo := { runs : list run; tails : gmap string nat }.

Definition fifo_new : fifo := {| runs := []; tails := ∅ |}.

(** The promise [current] of run [i] is settled: its gate is open and the promise
    it was chained on is settled.  [fuel] bounds the chain; [S i] is enough because
    a predecessor is an earlier call. *)
Fixpoint current_settled (fuel : nat) (rs : list run) (i : nat) : bool :=
  match fuel, rs !! i with
  | S fuel', Some r =>
      r.(finished) &&
      match r.(pred) with
      | None => true
      | Some j => current_settled fuel' rs j
      end
  | _, _ => false
  end.

Definition predecessor_settled (rs : list run) (r : run) : bool :=
  match r.(pred) with
  | None => true
  | Some j => current_settled (S j) rs j
  end.

Definition with_started (r : run) : run :=
  {| rkey := r.(rkey); pred := r.(pred); started := true; finished := r.(finished) |}.
Definition with_finished (r : run) : run :=
  {| rkey := r.(rkey); pred := r.(pred); started := r.(started); finished := true |}.

(** The synchronous part of [run]: find the predecessor, become the tail. *)
Definition fifo_call (s : fifo) (key : string) : fifo :=
  {| runs := s.(runs) ++ [{| rkey := key; pred := s.(tails) !! key;
                             started := false; finished := false |}];
     tails := <[key := length s.(runs)]> s.(tails) |}.

(** [await predecessor] continues: the task is started. *)
Definition fifo_start (s : fifo) (i : nat) (r : run) : fifo :=
  {| runs := <[i := with_started r]> s.(runs); tails := s.(tails) |}.

(** The [finally] block: open the gate, drop the tail if it is still this run's. *)
Definition fifo_finish (s : fifo) (i : nat) (r : run) : fifo :=
  {| runs := <[i := with_finished r]> s.(runs);
     tails := if decide (s.(tails) !! r.(rkey) = Some i)
              then delete r.(rkey) s.(tails) else s.(tails) |}.

Inductive fifo_step : fifo → fifo → Prop :=
| step_call s key : fifo_step s (fifo_call s key)
| step_start s i r :
    s.(runs) !! i = Some r → r.(started) = false →
    predecessor_settled s.(runs) r = true →
    fifo_step s (fifo_start s i r)
| step_finish s i r :
    s.(runs) !! i = Some r → r.(started) = true → r.(finished) = false →
    fifo_step s (fifo_finish s i r).

Inductive fifo_reachable : fifo → Prop :=
| reach_new : fifo_reachable fifo_new
| reach_step s s' : fifo_reachable s → fifo_step s s' → fifo_reachable s'.

(** ** Invariant *)

(** Every run of [key] before position [n] is finished. *)
Definition done_before (rs : list run) (key : string) (n : nat) : Prop :=
  ∀ j r, (j < n)%nat → rs !! j = Some r → r.(rkey) = key → r.(finished) = true.

(** [j] is the last run of [key] before position [n]. *)
Definition last_before (rs : list run) (key : string) (j n : nat) : Prop :=
  (j < n)%nat ∧ (∃ r, rs !! j = Some r ∧ r.(rkey) = key) ∧
  ∀ j' r, (j < j' < n)%nat → rs !! j' = Some r → r.(rkey) ≠ key.

Definition pred_ok (rs : list run) (key : string) (n : nat) (p : option nat) : Prop :=
  match p with
  | None => done_before rs key n
  | Some j => last_before rs key j n
  end.

Record fifo_inv (s : fifo) : Prop := {
  inv_pred : ∀ i r, s.(runs) !! i = Some r → pred_ok s.(runs) r.(rkey) i r.(pred);
  inv_tails : ∀ key, pred_ok s.(runs) key (length s.(runs)) (s.(tails) !! key);
  inv_started : ∀ i r, s.(runs) !! i = Some r → r.(started) = true → done_before s.(runs) r.(rkey) i;
  inv_finished : ∀ i r, s.(runs) !! i = Some r → r.(finished) = true → r.(started) = true;
}.

(** [rs'] extends [rs]: runs keep their key and predecessor, flags only rise. *)
Definition run_le (r r' : run) : Prop :=
  r'.(rkey) = r.(rkey) ∧ r'.(pred) = r.(pred) ∧
  (r.(finished) = true → r'.(finished) = true).

Definition same_shape (rs rs' : list run) : Prop :=
  ∀ i, match rs !! i, rs' !! i with
       | Some r, Some r' => run_le r r'
       | None, None => True
       | _, _ => False
       end.

Lemma same_shape_insert rs i r r' :
  rs !! i = Some r → run_le r r' → same_shape rs (<[i := r']> rs).
Proof.
  intros Hi Hle j. destruct (decide (i = j)) as [<-|Hne].
  - rewrite Hi, list_lookup_insert_eq by (by eapply lookup_lt_Some). done.
  - rewrite list_lookup_insert_ne by done. destruct (rs !! j); [|done]. by split_and!.
Qed.

Lemma done_before_mono rs rs' key n :
  same_shape rs rs' → done_before rs key n → done_before rs' key n.
Proof.
  intros Hs Hd j r' Hj Hr' Hk. specialize (Hs j). rewrite Hr' in Hs.
  destruct (rs !! j) as [r|] eqn:E; [|done]. destruct Hs as (Hk' & _ & Hf).
  apply Hf, (Hd j r Hj E). congruence.
Qed.

Lemma last_before_mono rs rs' key j n :
  same_shape rs rs' → last_before rs key j n → last_before rs' key j n.
Proof.
  intros Hs (Hj & (r & Hr & Hk) & Hl). split_and!; [done| |].
  - specialize (Hs j). rewrite Hr in Hs. destruct (rs' !! j) as [r'|]; [|done].
    destruct Hs as (? & _). exists r'. split; [done|congruence].
  - intros j' r' Hj' Hr'. specialize (Hs j'). rewrite Hr' in Hs.
    destruct (rs !! j') as [r0|] eqn:E; [|done]. destruct Hs as (-> & _). by eapply Hl.
Qed.

Lemma pred_ok_mono rs rs' key n p :
  same_shape rs rs' → pred_ok rs key n p → pred_ok rs' key n p.
Proof. destruct p; simpl; eauto using done_before_mono, last_before_mono. Qed.

(** Appending a run does not change what lies before the old length. *)
Lemma done_before_app rs rs2 key n :
  (n ≤ length rs)%nat → done_before (rs ++ rs2) key n ↔ done_before rs key n.
Proof.
  intros Hn. unfold done_before.
  split; intros H j r Hj Hr; apply (H j r Hj);
    [rewrite lookup_app_l by lia|rewrite lookup_app_l in Hr by lia]; done.
Qed.

Lemma last_before_app rs rs2 key j n :
  (n ≤ length rs)%nat → last_before rs key j n → last_before (rs ++ rs2) key j n.
Proof.
  intros Hn (Hj & (r & Hr & Hk) & Hl). split_and!; [done| |].
  - exists r. by rewrite lookup_app_l by lia.
  - intros j' r' Hj' Hr'. rewrite lookup_app_l in Hr' by lia. by eapply Hl.
Qed.

Lemma pred_ok_app rs rs2 key n p :
  (n ≤ length rs)%nat → pred_ok rs key n p → pred_ok (rs ++ rs2) key n p.
Proof.
  intros Hn. destruct p; simpl; [by apply last_before_app|by rewrite done_before_app].
Qed.

(** A settled promise certifies that its run and all earlier ones of the key are
    finished, and conversely. *)
Lemma current_settled_spec s fuel i r :
  fifo_inv s → s.(runs) !! i = Some r → (i < fuel)%nat →
  current_settled fuel s.(runs) i = true ↔ done_before s.(runs) r.(rkey) (S i).
Proof.
  intros HI. revert i r. induction fuel as [|fuel IH]; intros i r Hi Hlt; [lia|].
  simpl. rewrite Hi, andb_true_iff. pose proof (inv_pred s HI i r Hi) as Hp.
  assert (∀ n, done_before (runs s) (rkey r) n → n = i → r.(finished) = true →
            done_before (runs s) (rkey r) (S i)) as Hextend.
  { intros n Hd -> Hf j r' Hj Hr' Hk. destruct (decide (j = i)) as [->|]; [congruence|].
    apply (Hd j r'); [lia|done|done]. }
  destruct (pred r) as [p|]; simpl in Hp.
  - destruct Hp as (Hpi & (rp & Hrp & Hkp) & Hlast).
    rewrite (IH p rp) by (done || lia). rewrite Hkp. split.
    + intros [Hf Hd]. apply (Hextend i); [|done|done]. intros j r' Hj Hr' Hk.
      destruct (decide (j ≤ p)%nat); [apply (Hd j r'); [lia|done|done]|].
      exfalso. by apply (Hlast j r'); [lia|..].
    + intros Hd. split; [by apply (Hd i r); [lia|..]|].
      intros j r' Hj. apply Hd. lia.
  - split; [intros [Hf _]; by apply (Hextend i)|].
    intros Hd. split; [|done]. by apply (Hd i r); [lia|..].
Qed.

Lemma predecessor_settled_spec s i r :
  fifo_inv s → s.(runs) !! i = Some r →
  predecessor_settled s.(runs) r = true ↔ done_before s.(runs) r.(rkey) i.
Proof.
  intros HI Hi. pose proof (inv_pred s HI i r Hi) as Hp. unfold predecessor_settled.
  destruct (pred r) as [p|]; simpl in Hp; [|done].
  destruct Hp as (Hpi & (rp & Hrp & Hkp) & Hlast).
  rewrite (current_settled_spec s (S p) p rp) by (done || lia). rewrite Hkp. split.
  - intros Hd j r' Hj Hr' Hk. destruct (decide (j ≤ p)%nat); [apply (Hd j r'); [lia|done|done]|].
    exfalso. by apply (Hlast j r'); [lia|..].
  - intros Hd j r' Hj. apply Hd. lia.
Qed.

Lemma fifo_inv_new : fifo_inv fifo_new.
Proof. split; simpl; try (intros i r; by rewrite lookup_nil). intros key. rewrite lookup_empty. intros j r Hj. simpl in Hj. lia. Qed.

Lemma fifo_inv_call s key : fifo_inv s → fifo_inv (fifo_call s key).
Proof.
  intros HI. unfold fifo_call. split; simpl.
  - intros i r [Hi|[Hi Hr]]%lookup_app_Some.
    + apply pred_ok_app; [apply lookup_lt_Some in Hi; lia|by apply (inv_pred s HI)].
    + apply list_lookup_singleton_Some in Hr as [Hlen <-]. simpl.
      assert (i = length (runs s)) as -> by lia.
      apply pred_ok_app; [done|]. by apply inv_tails.
  - intros k. rewrite length_app, Nat.add_1_r, lookup_insert. case_decide as E; simpl; [subst|].
    + split_and!; [lia| |lia]. eexists. by rewrite lookup_app_r, Nat.sub_diag by done.
    + pose proof (inv_tails s HI k) as Hp. destruct (tails s !! k) as [j|]; simpl in *.
      * destruct Hp as (Hj & (r & Hr & Hk) & Hl). split_and!; [lia|exists r; by rewrite lookup_app_l by lia|].
        intros j' r' Hj' [Hr'|[? Hr']]%lookup_app_Some;
          [apply (Hl j' r'); [apply lookup_lt_Some in Hr'; lia|done]|].
        apply list_lookup_singleton_Some in Hr' as [_ <-]. simpl. congruence.
      * intros j r Hj [Hr|[? Hr]]%lookup_app_Some Hk;
          [apply (Hp j r); [by eapply lookup_lt_Some|done|done]|].
        apply list_lookup_singleton_Some in Hr as [_ <-]. simpl in Hk. congruence.
  - intros i r [Hi|[Hi Hr]]%lookup_app_Some Hs.
    + apply done_before_app; [apply lookup_lt_Some in Hi; lia|by apply (inv_started s HI i)].
    + by apply list_lookup_singleton_Some in Hr as [_ <-].
  - intros i r [Hi|[Hi Hr]]%lookup_app_Some Hf; [by eapply (inv_finished s HI)|].
    by apply list_lookup_singleton_Some in Hr as [_ <-].
Qed.

(** Raising flags of run [i] keeps the invariant, given the two facts the flags
    stand for and tails that are still right. *)
Lemma fifo_inv_update s i r r' t :
  fifo_inv s → s.(runs) !! i = Some r → run_le r r' →
  (r'.(started) = true → done_before s.(runs) r.(rkey) i) →
  (r'.(finished) = true → r'.(started) = true) →
  (∀ key, pred_ok (<[i := r']> s.(runs)) key (length s.(runs)) (t !! key)) →
  fifo_inv {| runs := <[i := r']> s.(runs); tails := t |}.
Proof.
  intros HI Hi Hle Hst Hfin Ht.
  pose proof (same_shape_insert (runs s) i r r' Hi Hle) as Hsh.
  destruct Hle as (Hk & Hp & Hf).
  assert (∀ j x, (<[i := r']> (runs s)) !! j = Some x →
            (j = i ∧ x = r') ∨ (j ≠ i ∧ runs s !! j = Some x)) as Hlook.
  { intros j x. destruct (decide (i = j)) as [<-|]; [|rewrite list_lookup_insert_ne by done; eauto].
    rewrite list_lookup_insert_eq by (by eapply lookup_lt_Some). intros [= <-]. by left. }
  split; simpl.
  - intros j x [[-> ->]|[_ Hj]]%Hlook; eapply pred_ok_mono; try done;
      [rewrite Hk, Hp|]; by apply (inv_pred s HI).
  - intros key. rewrite length_insert. apply Ht.
  - intros j x [[-> ->]|[_ Hj]]%Hlook Hx; eapply done_before_mono; try done;
      [rewrite Hk; by apply Hst|by apply (inv_started s HI j)].
  - intros j x [[-> ->]|[_ Hj]]%Hlook Hx; [by apply Hfin|by eapply (inv_finished s HI)].
Qed.

Lemma fifo_inv_step s s' : fifo_inv s → fifo_step s s' → fifo_inv s'.
Proof.
  intros HI Hstep. destruct Hstep as [s key|s i r Hi Hs Hpre|s i r Hi Hs Hf].
  - by apply fifo_inv_call.
  - apply (fifo_inv_update s i r); [done|done|done| | |].
    + intros _. by apply predecessor_settled_spec.
    + done.
    + intros key. eapply pred_ok_mono; [by eapply same_shape_insert|]. by apply (inv_tails s HI).
  - pose proof (same_shape_insert (runs s) i r (with_finished r) Hi) as Hsh.
    apply (fifo_inv_update s i r); [done|done|done| |by intros _|].
    + intros _. by apply (inv_started s HI i).
    + intros key. pose proof (inv_tails s HI key) as Ht.
      case_decide as E; [|by eapply pred_ok_mono; [apply Hsh|]].
      rewrite lookup_delete. case_decide as Ek; [subst key|by eapply pred_ok_mono; [apply Hsh|]].
      rewrite E in Ht. destruct Ht as (_ & _ & Hlast). simpl.
      intros j x Hj Hx Hkx. destruct (decide (i = j)) as [<-|Hne].
      { rewrite list_lookup_insert_eq in Hx by done. by simplify_eq/=. }
      rewrite list_lookup_insert_ne in Hx by done.
      destruct (decide (j < i)%nat); [by apply (inv_started s HI i r Hi Hs j x)|].
      exfalso. by apply (Hlast j x); [lia|..].
Qed.

Lemma fifo_reachable_inv s : fifo_reachable s → fifo_inv s.
Proof. induction 1; eauto using fifo_inv_new, fifo_inv_step. Qed.

(** ** Theorem *)

(** In every reachable state, a task has been started only after every earlier
    call with the same key has finished; hence at most one task per key is running;
    and the oldest unfinished call of a key is never stuck: it is running or its
    start is enabled. *)
Theorem keyed_fifo_serializes s :
  fifo_reachable s →
  (∀ i j ri rj, s.(runs) !! i = Some ri → s.(runs) !! j = Some rj → rkey ri = rkey rj →
     (i < j)%nat → started rj = true → finished ri = true) ∧
  (∀ i j ri rj, s.(runs) !! i = Some ri → s.(runs) !! j = Some rj → rkey ri = rkey rj →
     started ri = true → finished ri = false → started rj = true → finished rj = false → i = j) ∧
  (∀ i r, s.(runs) !! i = Some r → finished r = false →
     done_before s.(runs) (rkey r) i →
     ∃ s', fifo_step s s' ∧ ∃ r', s'.(runs) !! i = Some r' ∧
       (finished r' = true ∨ started r = false ∧ started r' = true)).
Proof.
  intros HI%fifo_reachable_inv.
  assert (∀ i j ri rj, s.(runs) !! i = Some ri → s.(runs) !! j = Some rj → rkey ri = rkey rj →
     (i < j)%nat → started rj = true → finished ri = true) as Horder.
  { intros i j ri rj Hi Hj Hk Hlt Hs. by apply (inv_started s HI j rj Hj Hs i ri). }
  split_and!; [done| |].
  - intros i j ri rj Hi Hj Hk Hsi Hfi Hsj Hfj.
    destruct (Nat.lt_trichotomy i j) as [Hlt|[->|Hlt]]; [|done|].
    + by rewrite (Horder i j ri rj Hi Hj Hk Hlt Hsj) in Hfi.
    + by rewrite (Horder j i rj ri Hj Hi (eq_sym Hk) Hlt Hsi) in Hfj.
  - intros i r Hi Hf Hd. pose proof (lookup_lt_Some _ _ _ Hi).
    destruct (started r) eqn:Hs.
    + eexists. split; [by apply (step_finish s i r)|]. eexists. simpl.
      rewrite list_lookup_insert_eq by done. by split; [|left].
    + eexists. split; [apply (step_start s i r Hi Hs), (predecessor_settled_spec s i r HI Hi), Hd|].
      eexists. simpl. rewrite list_lookup_insert_eq by done. by split; [|right].
Qed.

(** Two calls on one key, the first one started. *)
Definition fifo_demo : fifo :=
  fifo_start (fifo_call (fifo_call fifo_new "k") "k") 0
    {| rkey := "k"; pred := None; started := false; finished := false |}.

Lemma keyed_fifo_serializes_witness :
  fifo_reachable fifo_demo ∧
  ∀ i j ri rj, fifo_demo.(runs) !! i = Some ri → fifo_demo.(runs) !! j = Some rj →
    rkey ri = rkey rj → (i < j)%nat → started rj = true → finished ri = true.
Proof.
  assert (fifo_reachable fifo_demo) as Hr.
  { eapply reach_step; [|apply (step_start _ 0); reflexivity].
    eapply reach_step; [|apply step_call]. eapply reach_step; [|apply step_call]. apply reach_new. }
  split; [exact Hr|]. exact (proj1 (keyed_fifo_serializes fifo_demo Hr)).
Defined.
