(* ===== verification/Monitors.v ===== *)
(** * Operator alert monitors

    [clockify/token-rejection-monitor.ts] and [clockify/host-throttle-monitor.ts]:
    per-workspace monitors that watch the responses of the host and emit operator
    log lines.  The clock and the privacy alias are the functions the constructors
    are given; a call reads the clock once, so an event carries its timestamp. *)
From S2P Require Import Prelude.
Open Scope Z_scope.

(** ** Token rejections *)
Module TokenMonitor.

Definition TOKEN_REJECTION_SUSPECT_THRESHOLD : Z := 3.

Inductive event : Set :=
| Rejected (workspaceId : string)
| Accepted (workspaceId : string).

(** One log line: [workspace=] alias and [consecutive=] count. *)
Record line := { line_alias : string; line_consecutive : Z }.

Record monitor := { streaks : gmap string Z; log : list line }.
Definition createTokenRejectionMonitor : monitor := {| streaks := ∅; log := [] |}.

Section Token.
Context (aliasFor : string → string) (threshold : Z).

Definition rejected (m : monitor) (ws : string) : monitor :=
  let streak := default 0 (m.(streaks) !! ws) + 1 in
  {| streaks := <[ws := streak]> m.(streaks);
     log := if streak =? threshold
            then m.(log) ++ [{| line_alias := aliasFor ws; line_consecutive := streak |}]
            else m.(log) |}.

Definition accepted (m : monitor) (ws : string) : monitor :=
  {| streaks := delete ws m.(streaks); log := m.(log) |}.

Definition step (m : monitor) (e : event) : monitor :=
  match e with Rejected ws => rejected m ws | Accepted ws => accepted m ws end.

(** Rejections of [ws] since its last acceptance. *)
Fixpoint streak_rev (ws : string) (revs : list event) : Z :=
  match revs with
  | [] => 0
  | Rejected w :: revs' => if decide (w = ws) then 1 + streak_rev ws revs' else streak_rev ws revs'
  | Accepted w :: revs' => if decide (w = ws) then 0 else streak_rev ws revs'
  end.
Definition streak_of (ws : string) (evs : list event) : Z := streak_rev ws (reverse evs).

Lemma streak_of_snoc ws evs e :
  streak_of ws (evs ++ [e]) =
    match e with
    | Rejected w => if decide (w = ws) then 1 + streak_of ws evs else streak_of ws evs
    | Accepted w => if decide (w = ws) then 0 else streak_of ws evs
    end.
Proof. unfold streak_of. by rewrite reverse_snoc. Qed.

Lemma streaks_track evs ws :
  default 0 ((run_events step createTokenRejectionMonitor evs).(streaks) !! ws) = streak_of ws evs.
Proof.
  induction evs as [|e evs IH] using rev_ind; [done|].
  rewrite run_events_app, streak_of_snoc. simpl.
  set (m := run_events step createTokenRejectionMonitor evs) in *.
  destruct e as [w|w]; simpl.
  - rewrite lookup_insert. case_decide; subst; simpl; lia.
  - rewrite lookup_delete. by case_decide; subst.
Qed.
End Token.
End TokenMonitor.

(** ** Sustained host throttling *)
Module HostMonitor.

Definition MAX_GET_RETRIES : Z := 2.
Definition SUSTAINED_HOST_CONSECUTIVE_THRESHOLD : Z := 1 + MAX_GET_RETRIES + 1.
Definition SUSTAINED_HOST_WINDOW_MS : Z := 60000.
Definition SUSTAINED_HOST_WINDOW_THRESHOLD : nat := 12.

Inductive trigger : Set := Consecutive | Window.
#[export] Instance trigger_dec : EqDecision trigger.
Proof. solve_decision. Defined.

Record line := { line_alias : string; line_status : Z; line_trigger : trigger; line_count : Z }.

Record WorkspaceThrottleState := {
  streak : Z;
  failures : list Z;
  windowAlerted : bool;
  consecutiveAlerted : bool;
}.

Definition fresh : WorkspaceThrottleState :=
  {| streak := 0; failures := []; windowAlerted := false; consecutiveAlerted := false |}.

Inductive event : Set :=
| Throttled (workspaceId : string) (status timestamp : Z)
| Healthy (workspaceId : string) (timestamp : Z).

Record monitor := { states : gmap string WorkspaceThrottleState; log : list line }.
Definition createHostThrottleMonitor : monitor := {| states := ∅; log := [] |}.

Section Host.
Context (aliasFor : string → string) (consecutiveThreshold : Z) (windowThreshold : nat)
  (windowMs : Z).

(** [while (failures.length > 0 && failures[0] <= timestamp - windowMs) failures.shift()] *)
Definition pruneWindow (fs : list Z) (timestamp : Z) : list Z :=
  drop_while (λ t, t <=? timestamp - windowMs) fs.

Definition throttled (m : monitor) (ws : string) (status timestamp : Z) : monitor :=
  let st := default fresh (m.(states) !! ws) in
  let streak' := st.(streak) + 1 in
  let pushed := st.(failures) ++ [timestamp] in
  let capped := if (windowThreshold <? length pushed)%nat then tail pushed else pushed in
  let failures' := pruneWindow capped timestamp in
  let fire_consecutive := (streak' =? consecutiveThreshold) && negb st.(consecutiveAlerted) in
  let sustained := (windowThreshold <=? length failures')%nat in
  let fire_window := sustained && negb st.(windowAlerted) in
  let mk tr n := {| line_alias := aliasFor ws; line_status := status;
                    line_trigger := tr; line_count := n |} in
  {| states := <[ws := {| streak := streak'; failures := failures';
        windowAlerted := if sustained then true else false;
        consecutiveAlerted := if fire_consecutive then true else st.(consecutiveAlerted) |}]>
        m.(states);
     log := m.(log) ++ (if fire_consecutive then [mk Consecutive streak'] else [])
              ++ (if fire_window then [mk Window (Z.of_nat (length failures'))] else []) |}.

Definition healthy (m : monitor) (ws : string) (timestamp : Z) : monitor :=
  match m.(states) !! ws with
  | None => m
  | Some st =>
      let failures' := pruneWindow st.(failures) timestamp in
      let st' := {| streak := 0; failures := failures';
                    windowAlerted := if (length failures' <? windowThreshold)%nat
                                     then false else st.(windowAlerted);
                    consecutiveAlerted := st.(consecutiveAlerted) |} in
      {| states := match failures' with [] => delete ws m.(states) | _ => <[ws := st']> m.(states) end;
         log := m.(log) |}
  end.

Definition step (m : monitor) (e : event) : monitor :=
  match e with
  | Throttled ws status t => throttled m ws status t
  | Healthy ws t => healthy m ws t
  end.

(** ** The history the monitor summarises *)

Definition event_time (e : event) : Z :=
  match e with Throttled _ _ t => t | Healthy _ t => t end.
Definition event_ws (e : event) : string :=
  match e with Throttled ws _ _ => ws | Healthy ws _ => ws end.

(** The clock does not go back. *)
Definition clock_ok (evs : list event) : Prop := StronglySorted Z.le (event_time <$> evs).

Definition failure_times (ws : string) (evs : list event) : list Z :=
  omap (λ e, match e with
             | Throttled w _ t => if decide (w = ws) then Some t else None
             | Healthy _ _ => None
             end) evs.

(** Failures of [ws] in the window that ends at [t]. *)
Definition window_failures (ws : string) (t : Z) (evs : list event) : nat :=
  length (filter (λ x : Z, t - windowMs < x) (failure_times ws evs)).

(** The last event of [ws]. *)
Definition last_event (ws : string) (evs : list event) : option event :=
  last (filter (λ e, event_ws e = ws) evs).

(** Was the window at or above the threshold when [ws] was last observed? *)
Definition was_sustained (ws : string) (evs : list event) : bool :=
  match last_event ws evs with
  | None => false
  | Some e => (windowThreshold <=? window_failures ws (event_time e) evs)%nat
  end.

(** Lines of one trigger in a log. *)
Definition lines_of (tr : trigger) (l : list line) : list line :=
  filter (λ x, line_trigger x = tr) l.

(** Throttled responses of [ws] since its last healthy one. *)
Fixpoint run_length_rev (ws : string) (revs : list event) : Z :=
  match revs with
  | [] => 0
  | Throttled w _ _ :: r => if decide (w = ws) then 1 + run_length_rev ws r else run_length_rev ws r
  | Healthy w _ :: r => if decide (w = ws) then 0 else run_length_rev ws r
  end.
Definition run_length (ws : string) (evs : list event) : Z := run_length_rev ws (reverse evs).

(** ** What a row says about the history of its workspace *)

Record row_ok (hist : list Z) (T run : Z) (st : WorkspaceThrottleState) : Prop := {
  row_split : ∃ pre, hist = pre ++ st.(failures) ∧
    (Forall (λ x : Z, x ≤ T - windowMs) pre ∨ length st.(failures) = windowThreshold);
  row_cap : (length st.(failures) ≤ windowThreshold)%nat;
  row_recent : Forall (λ x : Z, T - windowMs < x) st.(failures);
  row_latch : st.(windowAlerted) = (windowThreshold <=? length st.(failures))%nat;
  row_streak : st.(streak) = run;
}.

Lemma sorted_app_r (l1 l2 : list Z) : StronglySorted Z.le (l1 ++ l2) → StronglySorted Z.le l2.
Proof. induction l1; simpl; [done|]. inversion 1; auto. Qed.

Lemma sorted_app_cross (l1 l2 : list Z) x y :
  StronglySorted Z.le (l1 ++ l2) → x ∈ l1 → y ∈ l2 → x ≤ y.
Proof.
  induction l1 as [|a l1 IH]; simpl; [set_solver|].
  inversion 1 as [|? ? Hs Hall]; subst. rewrite elem_of_cons. intros [->|Hx] Hy; [|by apply IH].
  rewrite Forall_forall in Hall. apply Hall. set_solver.
Qed.

Lemma drop_while_split (p : Z → bool) l :
  ∃ pre, l = pre ++ drop_while p l ∧ Forall (λ x, p x = true) pre.
Proof.
  induction l as [|x l (pre & Hl & Hp)]; simpl; [by exists []|].
  destruct (p x) eqn:E; [|by exists []]. exists (x :: pre). simpl.
  split; [by rewrite Hl at 1|by constructor].
Qed.

Lemma pruned_recent fs t :
  StronglySorted Z.le fs → Forall (λ x : Z, t - windowMs < x) (pruneWindow fs t).
Proof.
  intros Hs. unfold pruneWindow. rewrite drop_while_filter by done.
  apply Forall_forall. intros x [Hx _]%list_elem_of_filter. lia.
Qed.

(** Pruning at [t] re-establishes what a row says at time [t]. *)
Lemma row_prune hist fs T t :
  StronglySorted Z.le hist → T ≤ t →
  (∃ pre, hist = pre ++ fs ∧
     (Forall (λ x : Z, x ≤ T - windowMs) pre ∨ length fs = windowThreshold)) →
  ∃ pre, hist = pre ++ pruneWindow fs t ∧
     (Forall (λ x : Z, x ≤ t - windowMs) pre ∨ length (pruneWindow fs t) = windowThreshold).
Proof.
  intros Hs Ht (pre & -> & Hpre).
  destruct (drop_while_split (λ x, x <=? t - windowMs) fs) as (old & Hfs & Hold).
  exists (pre ++ old). unfold pruneWindow. split; [by rewrite <- app_assoc, <- Hfs|].
  assert (Forall (λ x : Z, x ≤ t - windowMs) old) as Hold'
    by (eapply Forall_impl; [exact Hold|]; simpl; lia).
  destruct Hpre as [Hpre|Hlen].
  - left. apply Forall_app. split; [|done]. eapply Forall_impl; [exact Hpre|]. simpl; lia.
  - destruct old as [|o old]; [right; simpl in Hfs; by rewrite <- Hfs|left].
    apply Forall_app. split; [|done]. apply Forall_forall. intros x Hx.
    assert (x ≤ o); [|inversion Hold'; lia].
    apply (sorted_app_cross pre fs x o Hs Hx). rewrite Hfs. set_solver.
Qed.

(** At its own time a row knows whether the window reached the threshold. *)
Lemma row_counts hist T st run :
  row_ok hist T run st →
  (windowThreshold <=? length st.(failures))%nat =
  (windowThreshold <=? length (filter (λ x : Z, (T - windowMs < x)%Z) hist))%nat.
Proof.
  intros [(pre & -> & Hpre) Hcap Hrec _ _].
  rewrite filter_app, length_app, (filter_id _ (failures st)) by done.
  destruct Hpre as [Hpre| ->]; [|by rewrite !(proj2 (Nat.leb_le _ _)) by lia].
  rewrite filter_none; [done|]. eapply Forall_impl; [exact Hpre|]. simpl; lia.
Qed.

Lemma row_fresh T : (0 < windowThreshold)%nat → row_ok [] T 0 fresh.
Proof.
  intros H. split; simpl; [exists []; split; [done|by left]|lia|done| |done].
  symmetry. apply Nat.leb_gt. lia.
Qed.

(** The row after a throttled response. *)
Lemma row_throttled m ws hist T run status t :
  (0 < windowThreshold)%nat → StronglySorted Z.le (hist ++ [t]) → T ≤ t →
  row_ok hist T run (default fresh (m.(states) !! ws)) →
  row_ok (hist ++ [t]) t (run + 1) (default fresh ((throttled m ws status t).(states) !! ws)).
Proof.
  intros Hthr Hs Ht [(pre & Hh & Hpre) Hcap _ _ Hrun].
  unfold throttled. cbn [states]. rewrite lookup_insert_eq. simpl.
  set (st := default fresh (states m !! ws)) in *.
  set (capped := if (windowThreshold <? length (failures st ++ [t]))%nat
                 then tail (failures st ++ [t]) else failures st ++ [t]).
  assert ((∃ pre, hist ++ [t] = pre ++ capped ∧
     (Forall (λ x : Z, x ≤ T - windowMs) pre ∨ length capped = windowThreshold)) ∧
     (length capped ≤ windowThreshold)%nat) as [Hsplit Hcl].
  { unfold capped. rewrite length_app. simpl. destruct (Nat.ltb_spec windowThreshold (length (failures st) + 1)).
    - destruct (failures st) as [|f fs] eqn:Ef; simpl in *; [lia|]. rewrite length_app; simpl.
      split; [|lia]. exists (pre ++ [f]). split; [|right; lia].
      rewrite Hh, <- !app_assoc. done.
    - rewrite length_app; simpl. split; [|lia]. exists pre. split; [by rewrite Hh, <- app_assoc|].
      destruct Hpre as [|Hl]; [by left|lia]. }
  assert (StronglySorted Z.le capped) as Hcs.
  { destruct Hsplit as (p & Hp & _). rewrite Hp in Hs. by eapply sorted_app_r. }
  split; simpl.
  - by apply (row_prune _ _ T).
  - etrans; [apply drop_while_length|done].
  - by apply pruned_recent.
  - by case_match.
  - by rewrite Hrun.
Qed.

(** The row after a healthy response; a dropped row reads as a fresh one. *)
Lemma row_healthy m ws hist T run t :
  (0 < windowThreshold)%nat → StronglySorted Z.le hist → T ≤ t →
  row_ok hist T run (default fresh (m.(states) !! ws)) →
  row_ok hist t 0 (default fresh ((healthy m ws t).(states) !! ws)).
Proof.
  intros Hthr Hs Ht [Hsplit Hcap Hrec Hlatch Hrun].
  unfold healthy. destruct (states m !! ws) as [st|] eqn:E; simpl in *.
  - pose proof (row_prune _ _ T t Hs Ht Hsplit) as Hp.
    assert (length (pruneWindow (failures st) t) ≤ length (failures st))%nat as Hle
      by apply drop_while_length.
    assert (Forall (λ x : Z, t - windowMs < x) (pruneWindow (failures st) t)) as Hr.
    { apply pruned_recent. destruct Hsplit as (p & Hh & _). rewrite Hh in Hs.
      by eapply sorted_app_r. }
    destruct (pruneWindow (failures st) t) as [|f fs] eqn:Ef; simpl.
    + rewrite lookup_delete_eq. simpl. split; simpl; [done|lia|done| |done].
      symmetry. apply Nat.leb_gt. lia.
    + rewrite lookup_insert_eq. simpl.
      split; simpl in *; [done|lia|done| |done].
      destruct (Nat.ltb_spec (S (length fs)) windowThreshold).
      * symmetry. by apply Nat.leb_gt.
      * rewrite Hlatch, !(proj2 (Nat.leb_le _ _)) by lia. done.
  - rewrite E. simpl. destruct Hsplit as (pre & Hh & Hpre). split; simpl.
    + exists pre. split; [done|]. destruct Hpre as [Hpre|Hl]; [left|simpl in Hl; lia].
      eapply Forall_impl; [exact Hpre|]. simpl; lia.
    + lia.
    + done.
    + symmetry. apply Nat.leb_gt. lia.
    + done.
Qed.

Lemma step_other m e ws :
  event_ws e ≠ ws → (step m e).(states) !! ws = m.(states) !! ws.
Proof.
  destruct e as [w st t|w t]; simpl; intros Hne; [by rewrite lookup_insert_ne|].
  unfold healthy. destruct (states m !! w); [|done]. simpl.
  case_match; [by rewrite lookup_delete_ne|by rewrite lookup_insert_ne].
Qed.

Lemma failure_times_snoc ws evs e :
  failure_times ws (evs ++ [e]) = failure_times ws evs ++ failure_times ws [e].
Proof. apply omap_app. Qed.

Lemma run_length_snoc ws evs e :
  run_length ws (evs ++ [e]) =
    match e with
    | Throttled w _ _ => if decide (w = ws) then 1 + run_length ws evs else run_length ws evs
    | Healthy w _ => if decide (w = ws) then 0 else run_length ws evs
    end.
Proof. unfold run_length. by rewrite reverse_snoc. Qed.

Lemma last_event_snoc ws evs e :
  last_event ws (evs ++ [e]) = if decide (event_ws e = ws) then Some e else last_event ws evs.
Proof.
  unfold last_event. rewrite filter_app, filter_cons, filter_nil.
  case_decide; [by rewrite last_snoc|by rewrite app_nil_r].
Qed.

Lemma failure_times_sorted ws evs :
  clock_ok evs →
  StronglySorted Z.le (failure_times ws evs) ∧
  ∀ x, x ∈ failure_times ws evs → x ∈ (event_time <$> evs).
Proof.
  unfold clock_ok. induction evs as [|e evs IH]; csimpl; [split; [constructor|done]|].
  inversion 1 as [|? ? Hs Hall]; subst. destruct (IH Hs) as [Hsort Hsub].
  destruct e as [w st t|w t]; simpl; [case_decide|]; try (split; [done|set_solver]).
  split; [|set_solver]. constructor; [done|]. rewrite Forall_forall in *.
  intros x Hx. by apply Hall, Hsub.
Qed.

Lemma clock_ok_snoc evs e :
  clock_ok (evs ++ [e]) → clock_ok evs ∧ Forall (λ e', event_time e' ≤ event_time e) evs.
Proof.
  unfold clock_ok. rewrite fmap_app. induction evs as [|e' evs IH]; csimpl; [by split; constructor|].
  inversion 1 as [|? ? Hs Hall]; subst. destruct (IH Hs) as [? Hf].
  rewrite Forall_app in Hall. destruct Hall as [Hall Hlast]. inversion Hlast; subst.
  split; constructor; done.
Qed.

(** The time up to which a workspace's row speaks: its last observation. *)
Definition row_time (ws : string) (evs : list event) (T0 : Z) : Z :=
  match last_event ws evs with Some e => event_time e | None => T0 end.

Lemma row_time_le ws evs T0 t :
  Forall (λ e, event_time e ≤ t) evs → T0 ≤ t → row_time ws evs T0 ≤ t.
Proof.
  intros Hall HT. unfold row_time, last_event.
  destruct (last _) as [e|] eqn:E; [|done].
  apply last_Some_elem_of, list_elem_of_filter in E as [_ E]. rewrite Forall_forall in Hall. auto.
Qed.

Lemma monitor_rows evs ws T0 :
  (0 < windowThreshold)%nat → clock_ok evs → Forall (λ e, T0 ≤ event_time e) evs →
  row_ok (failure_times ws evs) (row_time ws evs T0) (run_length ws evs)
    (default fresh ((run_events step createHostThrottleMonitor evs).(states) !! ws)).
Proof.
  intros Hthr. induction evs as [|e evs IH] using rev_ind; intros Hc HT0.
  { apply row_fresh. done. }
  destruct (failure_times_sorted ws _ Hc) as [Hsorted _].
  destruct (clock_ok_snoc _ _ Hc) as [Hc' Hle].
  apply Forall_app in HT0 as [HT0 HT0']. inversion HT0' as [|? ? HTe _]; subst.
  specialize (IH Hc' HT0). pose proof (row_time_le ws evs T0 _ Hle HTe) as Hrt.
  rewrite run_events_app. simpl. set (m := run_events step createHostThrottleMonitor evs) in *.
  rewrite failure_times_snoc in *. unfold row_time. rewrite last_event_snoc, run_length_snoc.
  destruct (decide (event_ws e = ws)) as [<-|Hne].
  - destruct e as [w st t|w t]; cbn [step event_ws event_time] in *;
      rewrite (decide_True (P := w = w)) by done.
    + rewrite Z.add_comm. unfold failure_times at 2. unfold failure_times at 2 in Hsorted.
      csimpl. csimpl in Hsorted. rewrite (decide_True (P := w = w)) in * by done.
      by apply (row_throttled _ _ _ (row_time w evs T0) _ st).
    + rewrite app_nil_r in *. by apply (row_healthy _ _ _ (row_time w evs T0) (run_length w evs)).
  - rewrite step_other by done.
    destruct e as [w st t|w t]; cbn [event_ws] in *; rewrite (decide_False (P := w = ws)) by done;
      unfold failure_times at 2; csimpl; rewrite ?(decide_False (P := w = ws)) by done;
      rewrite app_nil_r; apply IH.
Qed.

Lemma no_event_no_failures ws evs : last_event ws evs = None → failure_times ws evs = [].
Proof.
  induction evs as [|e evs IH] using rev_ind; [done|].
  rewrite last_event_snoc, failure_times_snoc. case_decide as Hw; [done|]. intros H.
  rewrite IH by done. destruct e; csimpl; simpl in Hw; by rewrite ?decide_False by done.
Qed.

(** The latch of a row is the state of the window at its last observation. *)
Lemma latch_was_sustained evs ws T0 st :
  (0 < windowThreshold)%nat →
  row_ok (failure_times ws evs) (row_time ws evs T0) (run_length ws evs) st →
  st.(windowAlerted) = was_sustained ws evs.
Proof.
  intros Hthr Hrow. rewrite (row_latch _ _ _ _ Hrow), (row_counts _ _ _ _ Hrow).
  unfold was_sustained, window_failures, row_time. destruct (last_event ws evs) eqn:E; [done|].
  rewrite no_event_no_failures by done. by apply Nat.leb_gt.
Qed.

Lemma lines_app tr l1 l2 : lines_of tr (l1 ++ l2) = lines_of tr l1 ++ lines_of tr l2.
Proof. apply filter_app. Qed.
End Host.
End HostMonitor.

Import TokenMonitor HostMonitor.

(** ** Theorems *)

(** The token-rejection monitor alerts exactly at the crossing.  After any
    history, the next event emits a line iff it is a rejection that makes the
    workspace's uninterrupted rejection streak equal to the threshold; the line
    carries the alias, never the workspace id. *)
Theorem token_alert_exact aliasFor threshold evs e :
  let run l := run_events (TokenMonitor.step aliasFor threshold) createTokenRejectionMonitor l in
  TokenMonitor.log (run (evs ++ [e])) = TokenMonitor.log (run evs) ++
    match e with
    | Rejected ws =>
        if streak_of ws (evs ++ [e]) =? threshold
        then [{| TokenMonitor.line_alias := aliasFor ws; line_consecutive := threshold |}] else []
    | Accepted _ => []
    end.
Proof.
  simpl. rewrite run_events_app. simpl.
  set (m := run_events _ _ evs). destruct e as [ws|ws]; simpl; [|by rewrite app_nil_r].
  rewrite streak_of_snoc, decide_True by done.
  rewrite <- (streaks_track aliasFor threshold evs ws). fold m.
  rewrite (Z.add_comm 1). case_match eqn:E; [|by rewrite app_nil_r]. zbool. by rewrite E.
Qed.

(** The sustained-rate alert fires on rising edges, and only on them.  With a
    clock that does not go back, an event emits a window line iff it is a throttled
    response after which at least [windowThreshold] failures of the workspace lie in
    the last [windowMs] milliseconds while at the workspace's previous observation
    fewer did; a consecutive line is emitted only when the workspace's uninterrupted
    run of throttled responses equals the consecutive threshold. *)
Theorem host_alert_rising_edge aliasFor cthr wthr windowMs evs e :
  (0 < wthr)%nat → clock_ok (evs ++ [e]) →
  let run l := run_events (HostMonitor.step aliasFor cthr wthr windowMs) createHostThrottleMonitor l in
  ∃ new, HostMonitor.log (run (evs ++ [e])) = HostMonitor.log (run evs) ++ new ∧
    length (lines_of Window new) =
      (match e with
       | Throttled ws _ t =>
           if ((wthr <=? window_failures windowMs ws t (evs ++ [e])) &&
               negb (was_sustained wthr windowMs ws evs))%nat then 1 else 0
       | Healthy _ _ => 0
       end)%nat ∧
    (lines_of Consecutive new ≠ [] → run_length (event_ws e) (evs ++ [e]) = cthr).
Proof.
  intros Hthr Hc run.
  assert (∃ T0, Forall (λ x, T0 ≤ event_time x) (evs ++ [e])) as (T0 & HT0).
  { clear. induction (evs ++ [e]) as [|x l (T & IH)]; [by exists 0|].
    exists (Z.min T (event_time x)). constructor; [lia|].
    eapply Forall_impl; [exact IH|]. simpl; lia. }
  pose proof (monitor_rows aliasFor cthr wthr windowMs _ (event_ws e) T0 Hthr Hc HT0) as Hrow.
  pose proof (proj1 (clock_ok_snoc _ _ Hc)) as Hc'. apply Forall_app in HT0 as [HT0 _].
  pose proof (monitor_rows aliasFor cthr wthr windowMs _ (event_ws e) T0 Hthr Hc' HT0) as Hrow'.
  unfold run. rewrite run_events_app in *.
  set (m := run_events _ _ evs) in *.
  destruct e as [w status t|w t]; cbn [event_ws run_events foldl HostMonitor.step] in *.
  2: { exists []. split; [|by split]. unfold healthy. rewrite app_nil_r. by repeat case_match. }
  pose proof (latch_was_sustained _ _ _ _ _ _ Hthr Hrow') as Hlatch.
  pose proof (row_counts _ _ _ _ _ _ Hrow) as Hcount.
  pose proof (row_streak _ _ _ _ _ _ Hrow) as Hstreak.
  unfold row_time in Hcount. rewrite last_event_snoc, decide_True in Hcount by done.
  unfold throttled in *. cbn [states HostMonitor.log] in *.
  rewrite lookup_insert_eq in Hcount, Hstreak. simpl in Hcount, Hstreak.
  eexists. split; [reflexivity|]. unfold window_failures.
  rewrite Hlatch, <- Hcount, lines_app, lines_app, length_app.
  split.
  - destruct ((wthr <=? _)%nat && _)%bool, (_ && _)%bool; reflexivity.
  - destruct ((streak _ + 1 =? cthr) && _)%bool eqn:E.
    + intros _. zbool. rewrite <- Hstreak. done.
    + intros H. exfalso. apply H. destruct ((wthr <=? _)%nat && _)%bool; reflexivity.
Qed.

(** A partial outage: twelve failures trip the window alert, one failure ages out,
    another arrives. *)
Definition partial_outage : list event :=
  (Throttled "w" 503 <$> [0; 5000; 10000; 15000; 20000; 25000; 30000; 35000; 40000; 45000; 50000; 55000])
  ++ [Healthy "w" 61000].

Lemma host_alert_rising_edge_witness :
  let mrun := run_events (HostMonitor.step id SUSTAINED_HOST_CONSECUTIVE_THRESHOLD
      SUSTAINED_HOST_WINDOW_THRESHOLD SUSTAINED_HOST_WINDOW_MS) createHostThrottleMonitor in
  ∃ new, HostMonitor.log (mrun (partial_outage ++ [Throttled "w" 503 61500]))
      = HostMonitor.log (mrun partial_outage) ++ new ∧
    length (lines_of Window new) =
      (if ((SUSTAINED_HOST_WINDOW_THRESHOLD <=?
            window_failures SUSTAINED_HOST_WINDOW_MS "w" 61500 (partial_outage ++ [Throttled "w" 503 61500]))
           && negb (was_sustained SUSTAINED_HOST_WINDOW_THRESHOLD SUSTAINED_HOST_WINDOW_MS "w" partial_outage))%nat
       then 1 else 0)%nat ∧
    (lines_of Consecutive new ≠ [] →
       run_length "w" (partial_outage ++ [Throttled "w" 503 61500]) = SUSTAINED_HOST_CONSECUTIVE_THRESHOLD).
Proof.
  apply (host_alert_rising_edge id SUSTAINED_HOST_CONSECUTIVE_THRESHOLD
    SUSTAINED_HOST_WINDOW_THRESHOLD SUSTAINED_HOST_WINDOW_MS partial_outage (Throttled "w" 503 61500)).
  - unfold SUSTAINED_HOST_WINDOW_THRESHOLD. lia.
  - unfold clock_ok, partial_outage. simpl. repeat constructor; lia.
Defined.

(** The window latch re-arms before the window drains.  In this run the
    window alert fires twice although the workspace never goes a full window without
    a failure: the row still holds failures when the second alert fires. *)
Theorem host_window_latch_rearms_early :
  let mrun := run_events (HostMonitor.step id SUSTAINED_HOST_CONSECUTIVE_THRESHOLD
      SUSTAINED_HOST_WINDOW_THRESHOLD SUSTAINED_HOST_WINDOW_MS) createHostThrottleMonitor in
  length (lines_of Window (HostMonitor.log (mrun partial_outage))) = 1%nat ∧
  (∃ st, states (mrun partial_outage) !! "w" = Some st ∧
     failures st = [5000; 10000; 15000; 20000; 25000; 30000; 35000; 40000; 45000; 50000; 55000]) ∧
  length (lines_of Window (HostMonitor.log
    (mrun (partial_outage ++ [Throttled "w" 503 61500])))) = 2%nat.
Proof.
  split_and!; [vm_compute; reflexivity| |vm_compute; reflexivity].
  eexists. split; vm_compute; reflexivity.
Qed.
