(* ===== verification/HostBudget.v ===== *)
(** * The host-call budget of a request

    [clockify/request-governor.ts], first half: the budget and reservation objects
    that [AsyncLocalStorage] makes visible to a call, and the closures that charge
    and refund one physical host call. *)
From S2P Require Import Prelude SafetyLimits.
Open Scope Z_scope.

(** [HostCallBudget]: [onCharge] is present on run-scoped budgets only. *)
Record HostCallBudget := { used : Z; maximum : Z; durable : bool }.

(** What a charge took: a reserved slot or a slot of the turn. *)
Inductive charge_kind : Set := FromReservation | FromTurn.

#[export] Instance charge_kind_dec : EqDecision charge_kind.
Proof. solve_decision. Defined.

(** The two objects visible in the current asynchronous context, and the refund
    closures handed out so far: [None] once a closure has been called. *)
Record budget_ctx := {
  budget : option HostCallBudget;
  reservation : option Z;
  tokens : list (option charge_kind);
}.

Definition no_budget : budget_ctx := {| budget := None; reservation := None; tokens := [] |}.

Definition with_used (b : HostCallBudget) (n : Z) : HostCallBudget :=
  {| used := n; maximum := b.(maximum); durable := b.(durable) |}.
Definition set_budget (c : budget_ctx) (b : HostCallBudget) : budget_ctx :=
  {| budget := Some b; reservation := c.(reservation); tokens := c.(tokens) |}.

(** ** Installing a budget *)

Definition withRunScopedHostCallBudget (c : budget_ctx) (maximum : Z) : budget_ctx :=
  set_budget c {| used := 0; maximum := maximum; durable := true |}.

(** A nested helper keeps the budget that is already installed. *)
Definition withHostCallBudgetFromUsed (c : budget_ctx) (alreadyUsed maximum : Z) : budget_ctx :=
  match c.(budget) with
  | Some _ => c
  | None => set_budget c {| used := Z.max 0 (Z.min maximum alreadyUsed);
                            maximum := maximum; durable := false |}
  end.

Definition withHostCallBudget (c : budget_ctx) (maximum : Z) : budget_ctx :=
  withHostCallBudgetFromUsed c 0 maximum.

(** ** Reserving and charging *)

Definition exceeded {A} : result A := Throw "host_call_budget_exceeded".

(** [count] is a safe integer in every call of the program; the guard on
    [Number.isSafeInteger] is the argument's type here. *)
Definition reserveHostCallBudget (c : budget_ctx) (count : Z) : result budget_ctx :=
  match c.(budget) with
  | None => Ok c
  | Some b =>
      if (count <? 0) || (b.(maximum) <? b.(used) + count) then exceeded
      else Ok (set_budget c (with_used b (b.(used) + count)))
  end.

Definition withReservedHostCallBudget (c : budget_ctx) (count : Z) : result budget_ctx :=
  let! c' := reserveHostCallBudget c count in
  Ok {| budget := c'.(budget); reservation := Some count; tokens := c'.(tokens) |}.

(** [chargeHostCallBudget]: the returned closure is the last token; [ledger_accepts]
    is the answer of the durable store to [onCharge]. *)
Definition chargeHostCallBudget (c : budget_ctx) (ledger_accepts : bool) : result budget_ctx :=
  match c.(reservation), c.(budget) with
  | Some remaining, _ =>
      if remaining <=? 0 then exceeded
      else Ok {| budget := c.(budget); reservation := Some (remaining - 1);
                 tokens := c.(tokens) ++ [Some FromReservation] |}
  | None, Some b =>
      if (if b.(durable) then negb ledger_accepts else b.(maximum) <? b.(used) + 1)
      then exceeded
      else Ok {| budget := Some (with_used b (b.(used) + 1)); reservation := None;
                 tokens := c.(tokens) ++ [Some FromTurn] |}
  | None, None =>
      Ok {| budget := None; reservation := None; tokens := c.(tokens) ++ [None] |}
  end.

(** The refund closure of token [k]; calling it again does nothing. *)
Definition refund (c : budget_ctx) (k : nat) : budget_ctx :=
  match c.(tokens) !! k with
  | Some (Some FromReservation) =>
      {| budget := c.(budget); reservation := Z.add 1 <$> c.(reservation);
         tokens := <[k := None]> c.(tokens) |}
  | Some (Some FromTurn) =>
      {| budget := (λ b, with_used b (b.(used) - 1)) <$> c.(budget);
         reservation := c.(reservation); tokens := <[k := None]> c.(tokens) |}
  | _ => c
  end.

Definition chargeInstalledHostCallBudgetForTest (c : budget_ctx) (ledger_accepts : bool)
    : result budget_ctx :=
  match c.(budget), c.(reservation) with
  | Some b, None => if b.(durable) then chargeHostCallBudget c ledger_accepts else Ok c
  | _, _ => Ok c
  end.

(** ** One operation under a reservation

    What an operation run by [withReservedHostCallBudget] does to its context. *)
Inductive budget_event : Set := Charge (ledger_accepts : bool) | Refund (k : nat).

Definition budget_step (c : budget_ctx) (e : budget_event) : budget_ctx :=
  match e with
  | Charge ok => match chargeHostCallBudget c ok with Ok c' => c' | Throw _ => c end
  | Refund k => refund c k
  end.

(** Charges that were not refunded, of one kind. *)
Definition live (k : charge_kind) (ts : list (option charge_kind)) : Z :=
  Z.of_nat (length (filter (λ t, t = Some k) ts)).

(** [base] calls were spent before, [count] slots were reserved. *)
Record reserved_inv (base count max : Z) (b0 : HostCallBudget) (c : budget_ctx) : Prop := {
  ri_budget : c.(budget) = Some b0;
  ri_reservation : ∃ r, c.(reservation) = Some r ∧ 0 ≤ r ∧ r + live FromReservation c.(tokens) = count;
  ri_turn : live FromTurn c.(tokens) = 0;
}.

Lemma snoc_lookup_length {A} (l : list A) x : (l ++ [x]) !! length l = Some x.
Proof. by rewrite lookup_app_r, Nat.sub_diag by done. Qed.

Lemma live_snoc k ts t :
  live k (ts ++ [t]) = live k ts + (if decide (t = Some k) then 1 else 0).
Proof.
  unfold live. rewrite filter_app, length_app, filter_cons, filter_nil.
  case_decide; simpl; lia.
Qed.

Lemma live_nonneg k ts : 0 ≤ live k ts.
Proof. unfold live. lia. Qed.

Lemma live_drop k ts i t :
  ts !! i = Some t → live k (<[i := None]> ts) = live k ts - (if decide (t = Some k) then 1 else 0).
Proof.
  unfold live. revert i. induction ts as [|x ts IH]; intros i; [done|].
  destruct i as [|i]; simpl.
  - intros [= ->]. rewrite !filter_cons. repeat case_decide; simpl; try done; lia.
  - intros Hi. specialize (IH i Hi). rewrite !filter_cons. repeat case_decide; simpl in *; try done; lia.
Qed.

Lemma reserved_step base count max b0 c e :
  reserved_inv base count max b0 c → reserved_inv base count max b0 (budget_step c e).
Proof.
  intros [Hb (r & Hr & Hr0 & Hsum) Ht]. destruct e as [ok|k]; simpl.
  - unfold chargeHostCallBudget. rewrite Hr. case_match eqn:E; simpl; zbool.
    + destruct (r <=? 0) eqn:E'; simplify_eq/=. zbool.
      split; simpl; [done| |].
      * exists (r - 1). split_and!; [done|lia|]. rewrite live_snoc, decide_True by done. lia.
      * rewrite live_snoc, decide_False by done. lia.
    + split; eauto.
  - unfold refund. destruct (tokens c !! k) as [[[]|]|] eqn:E; [| |by split; eauto|by split; eauto].
    + split; simpl; [done| |].
      * exists (1 + r). rewrite Hr. split_and!; [done|lia|].
        rewrite (live_drop _ _ _ _ E), decide_True by done. lia.
      * rewrite (live_drop _ _ _ _ E), decide_False by done. lia.
    + exfalso. pose proof (live_drop FromTurn _ _ _ E) as Hd. rewrite decide_True in Hd by done.
      pose proof (live_nonneg FromTurn (<[k:=None]> (tokens c))). lia.
Qed.

(** ** Theorems *)

(** A reservation is charged to the turn once and then caps the operation.
    Installing a reservation of [count] calls succeeds iff they fit the turn budget;
    afterwards, whatever calls the operation charges and refunds, the turn's used
    count does not move again, and the calls charged and not refunded never exceed
    [count], nor the turn maximum together with what was used before. *)
Theorem reservation_caps_operation b ts count :
  0 ≤ count →
  let c := {| budget := Some b; reservation := None; tokens := ts |} in
  live FromReservation ts = 0 → live FromTurn ts = 0 →
  (is_ok (withReservedHostCallBudget c count) = true ↔ b.(used) + count ≤ b.(maximum)) ∧
  ∀ c' evs, withReservedHostCallBudget c count = Ok c' →
    let final := run_events budget_step c' evs in
    final.(budget) = Some (with_used b (b.(used) + count)) ∧
    0 ≤ live FromReservation final.(tokens) ≤ count ∧
    b.(used) + live FromReservation final.(tokens) ≤ b.(maximum).
Proof.
  intros Hc c Hl1 Hl2. unfold withReservedHostCallBudget, reserveHostCallBudget. simpl.
  rewrite (proj2 (Z.ltb_ge count 0) Hc). simpl. split.
  - destruct (Z.ltb_spec (maximum b) (used b + count)); simpl; split; done || lia.
  - intros c' evs Hok. destruct (Z.ltb_spec (maximum b) (used b + count)) as [|Hfit]; [done|].
    injection Hok as <-.
    destruct (run_invariant budget_step
      (reserved_inv (used b) count (maximum b) (with_used b (used b + count)))
      {| budget := Some (with_used b (used b + count)); reservation := Some count; tokens := ts |} evs)
      as [Hb (r & _ & Hr0 & Hsum) _].
    + split; simpl; [done|exists count; split_and!; [done|done|lia]|done].
    + intros c0 e. apply reserved_step.
    + cbv zeta. pose proof (live_nonneg FromReservation (tokens (run_events budget_step
        {| budget := Some (with_used b (used b + count)); reservation := Some count; tokens := ts |} evs))).
      split_and!; [done|done|lia|lia].
Qed.

Definition demo_budget : HostCallBudget := {| used := 3; maximum := 60; durable := false |}.

Lemma reservation_caps_operation_witness :
  let c := {| budget := Some demo_budget; reservation := None; tokens := [] |} in
  (is_ok (withReservedHostCallBudget c 8) = true ↔ used demo_budget + 8 ≤ maximum demo_budget) ∧
  ∀ c' evs, withReservedHostCallBudget c 8 = Ok c' →
    let final := run_events budget_step c' evs in
    final.(budget) = Some (with_used demo_budget (used demo_budget + 8)) ∧
    0 ≤ live FromReservation final.(tokens) ≤ 8 ∧
    used demo_budget + live FromReservation final.(tokens) ≤ maximum demo_budget.
Proof. apply (reservation_caps_operation demo_budget [] 8); [lia|reflexivity|reflexivity]. Defined.

(** Charging one call without a reservation.  A plain budget is charged only
    below its maximum and a run-scoped one exactly when the durable ledger accepts;
    the refund closure restores the budget and is idempotent. *)
Theorem charge_then_refund c ok c' :
  chargeHostCallBudget c ok = Ok c' →
  let k := length c.(tokens) in
  (refund c' k).(budget) = c.(budget) ∧ (refund c' k).(reservation) = c.(reservation) ∧
  refund (refund c' k) k = refund c' k ∧
  (∀ b, c.(budget) = Some b → c.(reservation) = None →
     c'.(budget) = Some (with_used b (b.(used) + 1)) ∧
     if b.(durable) then ok = true else b.(used) + 1 ≤ b.(maximum)).
Proof.
  destruct c as [[b|] [r|] ts]; unfold chargeHostCallBudget, refund; simpl.
  all: try (match goal with |- context [if ?x then exceeded else _] => destruct x eqn:E end;
            [done|]).
  all: intros [= <-]; simpl; rewrite !snoc_lookup_length; simpl;
    rewrite ?list_lookup_insert_eq by (rewrite length_app; simpl; lia);
    rewrite ?snoc_lookup_length.
  all: split_and!; simpl; try done; try (do 2 f_equal; lia).
  - do 2 f_equal. destruct b. unfold with_used; simpl. f_equal; lia.
  - intros b' [= <-] _. split; [done|]. destruct (durable b); [by destruct ok|]. zbool. lia.
Qed.

Lemma charge_then_refund_witness :
  let c := {| budget := Some demo_budget; reservation := None; tokens := [] |} in
  ∃ c', chargeHostCallBudget c false = Ok c' ∧
  let k := length c.(tokens) in
  (refund c' k).(budget) = c.(budget) ∧ (refund c' k).(reservation) = c.(reservation) ∧
  refund (refund c' k) k = refund c' k ∧
  (∀ b, c.(budget) = Some b → c.(reservation) = None →
     c'.(budget) = Some (with_used b (b.(used) + 1)) ∧
     if b.(durable) then false = true else b.(used) + 1 ≤ b.(maximum)).
Proof. eexists. split; [reflexivity|]. apply (charge_then_refund _ false _). reflexivity. Defined.
