(* ===== verification/Governor.v ===== *)
(** * The per-workspace request governor

    [clockify/request-governor.ts], second half: [createWorkspaceRequestGovernor].
    The closure state is the record [governor]; the variables each call of [run]
    closes over are a [request]; a scheduling point of the event loop (a call, an
    abort, the resolution of a dispatch hook, the settlement of the external
    promise, its [finally], a timer, a host 429) is an [event].  The functions that
    call [drain] from inside a dispatch take it as the argument [dr]; [drain] is the
    fixpoint that ties the knot, with the length of the queue as its fuel, and
    [drain_fuel] shows that more fuel changes nothing.  One synchronous step reads the clock
    once, and dispatch hooks do not call the governor again. *)
From S2P Require Import Prelude.
Open Scope Z_scope.

(** ** Data *)

Inductive HostRequestKind : Set := read | mutation.

(** What [onDispatch] does: nothing or a synchronous return, a throw, a promise. *)
Inductive dispatch_hook : Set := HookReturns | HookThrows | HookPending.

Inductive request_state : Set := queued | pre_dispatch | cancelled | dispatched | settled.

(** How the promise returned by [run] settles. *)
Inductive outcome : Set := Cancelled | HookError | OperationError | OperationValue.

(** The continuation a promise of this request still has to run. *)
Inductive continuation : Set := NoCont | OnHook | OnSettle | OnFinally.

(** The locals of one [run] call.  [refunds], [calls], [admitted] count what was done
    to the outside: calls of the refund closure, calls of [operation], and whether
    the request was taken off the queue by [drain]. *)
Record request := {
  kind : HostRequestKind;
  onDispatch : dispatch_hook;
  operation_throws : bool;
  signal_aborted : bool;
  state : request_state;
  activeReleased : bool;
  budgetRefunded : bool;
  promise : option outcome;
  cont : continuation;
  admitted : bool;
  refunds : Z;
  calls : Z;
}.

Record limits := { requestsPerSecond : Z; burst : Z; concurrency : Z }.

Record governor := {
  requests : list request;
  queue : list nat;
  starts : list Z;
  active : Z;
  mutationActive : bool;
  cooldownUntil : Z;
  timer : bool;
  log : list (nat * Z);
}.

Definition default_limits : limits :=
  {| requestsPerSecond := 10; burst := 10; concurrency := 4 |}.

Definition createWorkspaceRequestGovernor (o : limits) : result governor :=
  if (o.(requestsPerSecond) <=? 0) || (o.(burst) <=? 0) || (o.(concurrency) <=? 0)
  then Throw "Request-governor limits must be positive."
  else Ok {| requests := []; queue := []; starts := []; active := 0; mutationActive := false;
             cooldownUntil := 0; timer := false; log := [] |}.

#[export] Instance kind_dec : EqDecision HostRequestKind.
Proof. solve_decision. Defined.
#[export] Instance state_dec : EqDecision request_state.
Proof. solve_decision. Defined.
#[export] Instance cont_dec : EqDecision continuation.
Proof. solve_decision. Defined.

(** ** Field updates *)

Definition with_state (s : request_state) (r : request) : request :=
  {| kind := r.(kind); onDispatch := r.(onDispatch); operation_throws := r.(operation_throws);
     signal_aborted := r.(signal_aborted); state := s; activeReleased := r.(activeReleased);
     budgetRefunded := r.(budgetRefunded); promise := r.(promise); cont := r.(cont);
     admitted := r.(admitted); refunds := r.(refunds); calls := r.(calls) |}.
Definition with_cont (k : continuation) (r : request) : request :=
  {| kind := r.(kind); onDispatch := r.(onDispatch); operation_throws := r.(operation_throws);
     signal_aborted := r.(signal_aborted); state := r.(state); activeReleased := r.(activeReleased);
     budgetRefunded := r.(budgetRefunded); promise := r.(promise); cont := k;
     admitted := r.(admitted); refunds := r.(refunds); calls := r.(calls) |}.
Definition with_abort (r : request) : request :=
  {| kind := r.(kind); onDispatch := r.(onDispatch); operation_throws := r.(operation_throws);
     signal_aborted := true; state := r.(state); activeReleased := r.(activeReleased);
     budgetRefunded := r.(budgetRefunded); promise := r.(promise); cont := r.(cont);
     admitted := r.(admitted); refunds := r.(refunds); calls := r.(calls) |}.
Definition with_released (r : request) : request :=
  {| kind := r.(kind); onDispatch := r.(onDispatch); operation_throws := r.(operation_throws);
     signal_aborted := r.(signal_aborted); state := r.(state); activeReleased := true;
     budgetRefunded := r.(budgetRefunded); promise := r.(promise); cont := r.(cont);
     admitted := r.(admitted); refunds := r.(refunds); calls := r.(calls) |}.
Definition with_admitted (r : request) : request :=
  {| kind := r.(kind); onDispatch := r.(onDispatch); operation_throws := r.(operation_throws);
     signal_aborted := r.(signal_aborted); state := r.(state); activeReleased := r.(activeReleased);
     budgetRefunded := r.(budgetRefunded); promise := r.(promise); cont := r.(cont);
     admitted := true; refunds := r.(refunds); calls := r.(calls) |}.
(** [operation()]. *)
Definition call_operation (r : request) : request :=
  {| kind := r.(kind); onDispatch := r.(onDispatch); operation_throws := r.(operation_throws);
     signal_aborted := r.(signal_aborted); state := r.(state); activeReleased := r.(activeReleased);
     budgetRefunded := r.(budgetRefunded); promise := r.(promise); cont := r.(cont);
     admitted := r.(admitted); refunds := r.(refunds); calls := r.(calls) + 1 |}.

Definition refundBeforeDispatch (r : request) : request :=
  if r.(budgetRefunded) then r else
  {| kind := r.(kind); onDispatch := r.(onDispatch); operation_throws := r.(operation_throws);
     signal_aborted := r.(signal_aborted); state := r.(state); activeReleased := r.(activeReleased);
     budgetRefunded := true; promise := r.(promise); cont := r.(cont);
     admitted := r.(admitted); refunds := r.(refunds) + 1; calls := r.(calls) |}.

(** [rejectOnce] and the guarded [resolve]. *)
Definition settleOnce (o : outcome) (r : request) : request :=
  match r.(promise) with
  | Some _ => r
  | None =>
  {| kind := r.(kind); onDispatch := r.(onDispatch); operation_throws := r.(operation_throws);
     signal_aborted := r.(signal_aborted); state := r.(state); activeReleased := r.(activeReleased);
     budgetRefunded := r.(budgetRefunded); promise := Some o; cont := r.(cont);
     admitted := r.(admitted); refunds := r.(refunds); calls := r.(calls) |}
  end.

Definition set_requests (rs : list request) (g : governor) : governor :=
  {| requests := rs; queue := g.(queue); starts := g.(starts); active := g.(active);
     mutationActive := g.(mutationActive); cooldownUntil := g.(cooldownUntil);
     timer := g.(timer); log := g.(log) |}.
Definition set_request (i : nat) (r : request) (g : governor) : governor :=
  set_requests (<[i := r]> g.(requests)) g.
Definition set_queue (q : list nat) (g : governor) : governor :=
  {| requests := g.(requests); queue := q; starts := g.(starts); active := g.(active);
     mutationActive := g.(mutationActive); cooldownUntil := g.(cooldownUntil);
     timer := g.(timer); log := g.(log) |}.
Definition set_timer (b : bool) (g : governor) : governor :=
  {| requests := g.(requests); queue := g.(queue); starts := g.(starts); active := g.(active);
     mutationActive := g.(mutationActive); cooldownUntil := g.(cooldownUntil);
     timer := b; log := g.(log) |}.

(** ** The closures of [run] *)

(** [timer !== undefined] returns early: either way a timer is armed afterwards. *)
Definition schedule (g : governor) : governor := set_timer true g.

Definition pruneStarts (timestamp : Z) (l : list Z) : list Z :=
  drop_while (λ t, t <=? timestamp - 1000) l.

(** [queue.splice(queue.indexOf(pending), 1)]. *)
Fixpoint splice_out (i : nat) (q : list nat) : list nat :=
  match q with
  | [] => []
  | j :: q' => if decide (j = i) then q' else j :: splice_out i q'
  end.

Definition free_slot (k : HostRequestKind) (g : governor) : governor :=
  {| requests := g.(requests); queue := g.(queue); starts := g.(starts); active := g.(active) - 1;
     mutationActive := match k with mutation => false | read => g.(mutationActive) end;
     cooldownUntil := g.(cooldownUntil); timer := g.(timer); log := g.(log) |}.

Definition releaseActive (dr : governor → governor) (i : nat) (g : governor) : governor :=
  match g.(requests) !! i with
  | Some r =>
      if r.(activeReleased) then g
      else dr (free_slot r.(kind) (set_request i (with_released r) g))
  | None => g
  end.

Definition cancelBeforeDispatch (dr : governor → governor) (i : nat) (g : governor) : governor :=
  match g.(requests) !! i with
  | Some r =>
      match r.(state) with
      | queued =>
          let r' := settleOnce Cancelled (refundBeforeDispatch (with_state cancelled r)) in
          dr (set_request i r' (set_queue (splice_out i g.(queue)) g))
      | pre_dispatch =>
          let r' := settleOnce Cancelled (refundBeforeDispatch (with_state cancelled r)) in
          releaseActive dr i (set_request i r' g)
      | _ => g
      end
  | None => g
  end.

Definition failBeforeDispatch (dr : governor → governor) (i : nat) (g : governor) : governor :=
  match g.(requests) !! i with
  | Some r =>
      if decide (r.(state) = cancelled) then releaseActive dr i g
      else
        let r' := settleOnce HookError (refundBeforeDispatch (with_state settled r)) in
        releaseActive dr i (set_request i r' g)
  | None => g
  end.

Definition startExternalOperation (dr : governor → governor) (i : nat) (g : governor) : governor :=
  match g.(requests) !! i with
  | Some r =>
      if decide (r.(state) = cancelled) then releaseActive dr i g
      else if r.(signal_aborted) then releaseActive dr i (cancelBeforeDispatch dr i g)
      else
        let r := call_operation (with_state dispatched r) in
        if r.(operation_throws)
        then releaseActive dr i (set_request i (settleOnce OperationError (with_state settled r)) g)
        else set_request i (with_cont OnSettle r) g
  | None => g
  end.

(** [pending.dispatch()]. *)
Definition dispatch (dr : governor → governor) (i : nat) (g : governor) : governor :=
  match g.(requests) !! i with
  | Some r =>
      let r := with_state pre_dispatch r in
      let g := set_request i r g in
      match r.(onDispatch) with
      | HookThrows => failBeforeDispatch dr i g
      | HookPending => set_request i (with_cont OnHook r) g
      | HookReturns => startExternalOperation dr i g
      end
  | None => g
  end.

(** What [drain] does to the closure state before it calls [next.dispatch()]. *)
Definition dequeue_head (now : Z) (i : nat) (r : request) (q : list nat) (g : governor) : governor :=
  {| requests := <[i := with_admitted r]> g.(requests); queue := q;
     starts := g.(starts) ++ [now]; active := g.(active) + 1;
     mutationActive := match r.(kind) with mutation => true | read => g.(mutationActive) end;
     cooldownUntil := g.(cooldownUntil); timer := g.(timer); log := g.(log) ++ [(i, now)] |}.

Definition prune (now : Z) (g : governor) : governor :=
  {| requests := g.(requests); queue := g.(queue); starts := pruneStarts now g.(starts);
     active := g.(active); mutationActive := g.(mutationActive);
     cooldownUntil := g.(cooldownUntil); timer := g.(timer); log := g.(log) |}.

Section Governor.
Context (o : limits).

Definition rateCap : Z := Z.min o.(requestsPerSecond) o.(burst).

Fixpoint drain (fuel : nat) (now : Z) (g : governor) : governor :=
  match fuel with
  | O => g
  | S fuel =>
      match g.(queue) with
      | [] => g
      | i :: q =>
          if o.(concurrency) <=? g.(active) then g
          else if now <? g.(cooldownUntil) then schedule g
          else
            let g := prune now g in
            if rateCap <=? Z.of_nat (length g.(starts)) then schedule g
            else
              match g.(requests) !! i with
              | None => g
              | Some r =>
                  if bool_decide (r.(kind) = mutation) && g.(mutationActive) then g
                  else drain fuel now (dispatch (drain fuel now) i (dequeue_head now i r q g))
              end
      end
  end.

(** [drain()] as the handlers call it: every admission shortens the queue. *)
Definition drain_all (now : Z) (g : governor) : governor := drain (length g.(queue)) now g.

(** ** Events *)

Inductive event : Set :=
| Run (k : HostRequestKind) (h : dispatch_hook) (throws : bool)
      (aborted charge_ok aborted_late : bool)
| Abort (i : nat)
| HookResolved (i : nat)
| HookRejected (i : nat)
| Settles (i : nat) (fulfilled : bool)
| Finally (i : nat)
| TimerFires
| RateLimited (delayMs : Z).

Definition new_request (k : HostRequestKind) (h : dispatch_hook) (throws aborted : bool) : request :=
  {| kind := k; onDispatch := h; operation_throws := throws; signal_aborted := aborted;
     state := queued; activeReleased := false; budgetRefunded := false; promise := None;
     cont := NoCont; admitted := false; refunds := 0; calls := 0 |}.

(** [run]: a rejection before the promise is created leaves no request. *)
Definition run (now : Z) (k : HostRequestKind) (h : dispatch_hook)
    (throws aborted charge_ok aborted_late : bool) (g : governor) : governor :=
  if aborted then g
  else if negb charge_ok then g
  else
    let i := length g.(requests) in
    let g := set_queue (g.(queue) ++ [i])
               (set_requests (g.(requests) ++ [new_request k h throws aborted_late]) g) in
    let g := if aborted_late then cancelBeforeDispatch (drain_all now) i g else g in
    drain_all now g.

Definition noteRateLimited (now delayMs : Z) (g : governor) : governor :=
  let g := {| requests := g.(requests); queue := g.(queue); starts := g.(starts);
              active := g.(active); mutationActive := g.(mutationActive);
              cooldownUntil := Z.max g.(cooldownUntil) (now + Z.max 0 delayMs);
              timer := g.(timer); log := g.(log) |} in
  match g.(queue) with [] => g | _ :: _ => schedule g end.

Definition on_cont (c : continuation) (i : nat) (g : governor)
    (k : request → governor) : governor :=
  match g.(requests) !! i with
  | Some r => if decide (r.(cont) = c) then k r else g
  | None => g
  end.

Definition step (g : governor) (e : Z * event) : governor :=
  let now := e.1 in
  let dr := drain_all now in
  match e.2 with
  | Run k h throws aborted charge_ok aborted_late =>
      run now k h throws aborted charge_ok aborted_late g
  | Abort i =>
      match g.(requests) !! i with
      | Some r => if r.(signal_aborted) then g
                  else cancelBeforeDispatch dr i (set_request i (with_abort r) g)
      | None => g
      end
  | HookResolved i =>
      on_cont OnHook i g (λ r, startExternalOperation dr i (set_request i (with_cont NoCont r) g))
  | HookRejected i =>
      on_cont OnHook i g (λ r, failBeforeDispatch dr i (set_request i (with_cont NoCont r) g))
  | Settles i fulfilled =>
      on_cont OnSettle i g (λ r,
        set_request i (with_cont OnFinally (settleOnce
          (if fulfilled then OperationValue else OperationError) (with_state settled r))) g)
  | Finally i =>
      on_cont OnFinally i g (λ r, releaseActive dr i (set_request i (with_cont NoCont r) g))
  | TimerFires => if g.(timer) then drain_all now (set_timer false g) else g
  | RateLimited d => noteRateLimited now d g
  end.

(** ** Invariant *)

Definition holds (r : request) : bool := r.(admitted) && negb r.(activeReleased).
Definition holds_mutation (r : request) : bool :=
  holds r && bool_decide (r.(kind) = mutation).

(** Nothing was done on behalf of this request yet. *)
Definition untouched (r : request) : Prop :=
  r.(activeReleased) = false ∧ r.(budgetRefunded) = false ∧ r.(promise) = None ∧
  r.(refunds) = 0 ∧ r.(calls) = 0.

Definition req_ok (r : request) : Prop :=
  match r.(state) with
  | queued => untouched r ∧ r.(admitted) = false ∧ r.(cont) = NoCont ∧ r.(signal_aborted) = false
  | pre_dispatch =>
      untouched r ∧ r.(admitted) = true ∧ r.(cont) = OnHook ∧ r.(signal_aborted) = false
  | cancelled =>
      r.(activeReleased) = r.(admitted) ∧ r.(promise) = Some Cancelled ∧
      r.(refunds) = 1 ∧ r.(calls) = 0 ∧
      (r.(cont) = NoCont ∨ r.(cont) = OnHook ∧ r.(admitted) = true)
  | dispatched =>
      r.(admitted) = true ∧ r.(activeReleased) = false ∧ r.(promise) = None ∧
      r.(refunds) = 0 ∧ r.(calls) = 1 ∧ r.(cont) = OnSettle
  | settled =>
      r.(admitted) = true ∧
      ((r.(cont) = OnFinally ∧ r.(activeReleased) = false ∧ r.(calls) = 1) ∨
       (r.(cont) = NoCont ∧ r.(activeReleased) = true)) ∧
      ((r.(promise) = Some HookError ∧ r.(refunds) = 1 ∧ r.(calls) = 0) ∨
       ((r.(promise) = Some OperationError ∨ r.(promise) = Some OperationValue) ∧
        r.(refunds) = 0 ∧ r.(calls) = 1))
  end.

Record slots_ok (g : governor) : Prop := {
  so_active : g.(active) = countb holds g.(requests);
  so_mutation : countb holds_mutation g.(requests) = if g.(mutationActive) then 1 else 0;
  so_capacity : g.(active) ≤ o.(concurrency);
  so_queue : ∀ i, i ∈ g.(queue) ↔ ∃ r, g.(requests) !! i = Some r ∧ r.(state) = queued;
  so_sorted : StronglySorted lt g.(queue);
  so_log : StronglySorted lt g.(log).*1;
  so_fifo : ∀ i j, i ∈ g.(log).*1 → j ∈ g.(queue) → (i < j)%nat;
  so_admitted : ∀ i, i ∈ g.(log).*1 ↔ ∃ r, g.(requests) !! i = Some r ∧ r.(admitted) = true;
}.

Definition others_ok (i : nat) (g : governor) : Prop :=
  ∀ j r, j ≠ i → g.(requests) !! j = Some r → req_ok r.
Definition all_ok (g : governor) : Prop := ∀ j r, g.(requests) !! j = Some r → req_ok r.
Definition Inv (g : governor) : Prop := slots_ok g ∧ all_ok g.

Lemma set_request_lookup i r r' (g : governor) j :
  g.(requests) !! i = Some r →
  (set_request i r' g).(requests) !! j = if decide (j = i) then Some r' else g.(requests) !! j.
Proof.
  intros Hi. simpl. case_decide; subst.
  - apply list_lookup_insert_eq. by eapply lookup_lt_Some.
  - by apply list_lookup_insert_ne.
Qed.

Lemma set_request_eq i r r' (g : governor) :
  g.(requests) !! i = Some r → (set_request i r' g).(requests) !! i = Some r'.
Proof. intros Hi. rewrite (set_request_lookup i r) by done. by case_decide. Qed.

Lemma all_ok_set i r r' g :
  g.(requests) !! i = Some r → others_ok i g → req_ok r' → all_ok (set_request i r' g).
Proof.
  intros Hi Ho Hr j x. rewrite (set_request_lookup i r) by done. case_decide; subst.
  - by intros [= <-].
  - by apply Ho.
Qed.

Lemma others_ok_set i r r' g :
  g.(requests) !! i = Some r → others_ok i g → others_ok i (set_request i r' g).
Proof.
  intros Hi Ho j x Hj. rewrite (set_request_lookup i r) by done.
  rewrite decide_False by done. by apply Ho.
Qed.

Lemma all_others i g : all_ok g → others_ok i g.
Proof. intros Ha j r _. apply Ha. Qed.

Lemma lookup_replace_iff (P : request → Prop) i r r' g j :
  g.(requests) !! i = Some r → (P r ↔ P r') →
  (∃ x, (set_request i r' g).(requests) !! j = Some x ∧ P x) ↔
  (∃ x, g.(requests) !! j = Some x ∧ P x).
Proof.
  intros Hi HP. setoid_rewrite (set_request_lookup i r r' g j Hi). case_decide as Hj; [|done].
  subst j. rewrite Hi. split; intros (x & Hx & HPx).
  - exists r. injection Hx as ->. tauto.
  - exists r'. injection Hx as ->. tauto.
Qed.

(** Replacing a request without touching what the counters depend on. *)
Lemma slots_replace i r r' g :
  slots_ok g → g.(requests) !! i = Some r →
  r'.(kind) = r.(kind) → r'.(admitted) = r.(admitted) → r'.(activeReleased) = r.(activeReleased) →
  (r.(state) = queued ↔ r'.(state) = queued) → slots_ok (set_request i r' g).
Proof.
  intros [Ha Hm Hc Hq Hs Hl Hf Had] Hi Hk Hadm Hrel Hst.
  assert (holds r' = holds r) as Hh by (unfold holds; congruence).
  assert (holds_mutation r' = holds_mutation r) as Hhm by (unfold holds_mutation; by rewrite Hh, Hk).
  split; try done.
  - simpl. rewrite (countb_insert _ _ _ _ _ Hi), Hh. lia.
  - simpl. rewrite (countb_insert _ _ _ _ _ Hi), Hhm. lia.
  - intros j. rewrite Hq. symmetry.
    by apply (lookup_replace_iff (λ x, x.(state) = queued) i r r' g j).
  - intros j. rewrite Had. symmetry.
    apply (lookup_replace_iff (λ x, x.(admitted) = true) i r r' g j Hi). by rewrite Hadm.
Qed.

Lemma slots_release i r g :
  slots_ok g → g.(requests) !! i = Some r → holds r = true →
  slots_ok (free_slot r.(kind) (set_request i (with_released r) g)).
Proof.
  intros [Ha Hm Hc Hq Hs Hl Hf Had] Hi Hh.
  assert (holds (with_released r) = false) as Hh'.
  { unfold holds; simpl. by rewrite andb_false_r. }
  split; try done; simpl.
  - rewrite (countb_insert _ _ _ _ _ Hi), Hh, Hh'. lia.
  - rewrite (countb_insert _ _ _ _ _ Hi), Hm. unfold holds_mutation. rewrite Hh, Hh'. simpl.
    destruct (kind r) eqn:K; simpl; [lia|].
    enough (mutationActive g = true) as -> by lia.
    pose proof (countb_pos holds_mutation (requests g) r (list_elem_of_lookup_2 _ _ _ Hi)) as Hp.
    unfold holds_mutation at 1 in Hp. rewrite Hh, K in Hp. specialize (Hp eq_refl).
    destruct (mutationActive g); [done|lia].
  - lia.
  - intros j. rewrite Hq. symmetry.
    by apply (lookup_replace_iff (λ x, x.(state) = queued) i r (with_released r) g j).
  - intros j. rewrite Had. symmetry.
    by apply (lookup_replace_iff (λ x, x.(admitted) = true) i r (with_released r) g j).
Qed.

Lemma splice_out_spec i q j :
  StronglySorted lt q → j ∈ splice_out i q ↔ j ∈ q ∧ j ≠ i.
Proof.
  induction 1 as [|x q Hs IH Hx]; simpl; [set_solver|].
  rewrite Forall_forall in Hx. case_decide; subst.
  - split; [|set_solver]. intros Hj. specialize (Hx j). split; [set_solver|].
    intros ->. assert (i < i)%nat by auto. lia.
  - set_solver.
Qed.

Lemma splice_out_sorted i q : StronglySorted lt q → StronglySorted lt (splice_out i q).
Proof.
  induction 1 as [|x q Hs IH Hx]; simpl; [constructor|]. case_decide; [done|].
  constructor; [done|]. rewrite Forall_forall in Hx |- *. intros j.
  rewrite splice_out_spec by done. intros [Hj _]. by apply Hx.
Qed.

Lemma splice_out_length i q : (length (splice_out i q) ≤ length q)%nat.
Proof. induction q as [|x q IH]; simpl; [done|]. case_decide; simpl; lia. Qed.

Lemma slots_dequeue i r r' g :
  slots_ok g → g.(requests) !! i = Some r → r.(state) = queued → r'.(state) ≠ queued →
  r'.(kind) = r.(kind) → r'.(admitted) = r.(admitted) → r'.(activeReleased) = r.(activeReleased) →
  slots_ok (set_request i r' (set_queue (splice_out i g.(queue)) g)).
Proof.
  intros [Ha Hm Hc Hq Hs Hl Hf Had] Hi Hst Hst' Hk Hadm Hrel.
  assert (holds r' = holds r) as Hh by (unfold holds; congruence).
  assert (holds_mutation r' = holds_mutation r) as Hhm by (unfold holds_mutation; by rewrite Hh, Hk).
  split; try done; simpl.
  - rewrite (countb_insert _ _ _ _ _ Hi), Hh. lia.
  - rewrite (countb_insert _ _ _ _ _ Hi), Hhm. lia.
  - intros j. rewrite splice_out_spec, Hq by done.
    setoid_rewrite (set_request_lookup i r r' g j Hi). case_decide as Hj; [|naive_solver].
    subst j. split; [tauto|]. intros (x & [= <-] & ?). done.
  - by apply splice_out_sorted.
  - intros a b Hin. rewrite splice_out_spec by done. intros [Hb _]. by apply Hf.
  - intros j. rewrite Had. symmetry.
    apply (lookup_replace_iff (λ x, x.(admitted) = true) i r r' g j Hi). by rewrite Hadm.
Qed.

Lemma slots_admit i q r now g :
  slots_ok g → g.(queue) = i :: q → g.(requests) !! i = Some r →
  r.(state) = queued → untouched r → r.(admitted) = false →
  g.(active) < o.(concurrency) → (r.(kind) = mutation → g.(mutationActive) = false) →
  slots_ok (set_request i (with_state pre_dispatch (with_admitted r)) (dequeue_head now i r q g)).
Proof.
  intros [Ha Hm Hc Hq Hs Hl Hf Had] Hqi Hi Hst (Hrel & _) Hadm Hroom Hmut.
  set (r' := with_state pre_dispatch (with_admitted r)).
  assert (holds r = false) as Hh by (unfold holds; by rewrite Hadm).
  assert (holds r' = true) as Hh' by (unfold holds; simpl; by rewrite Hrel).
  assert (<[i:=r']> (<[i:=with_admitted r]> (requests g)) = <[i:=r']> (requests g)) as Hins
    by apply list_insert_insert_eq.
  rewrite Hqi in Hs. apply StronglySorted_inv in Hs as [Hs Hiq].
  rewrite Forall_forall in Hiq.
  split; simpl; rewrite ?Hins; try done.
  - rewrite (countb_insert _ _ _ _ _ Hi), Hh, Hh'. lia.
  - rewrite (countb_insert _ _ _ _ _ Hi), Hm. unfold holds_mutation. rewrite Hh, Hh'. simpl.
    destruct (kind r) eqn:K; simpl; [lia|]. rewrite Hmut by done. done.
  - lia.
  - intros j. setoid_rewrite (set_request_lookup i r r' g j Hi).
    specialize (Hq j). rewrite Hqi, elem_of_cons in Hq. case_decide as Hj.
    + subst j. split; [intros Hin; specialize (Hiq _ Hin); lia|]. by intros (x & [= <-] & ?).
    + rewrite <- Hq. naive_solver.
  - rewrite fmap_app. simpl. apply StronglySorted_snoc; [done|]. apply Forall_forall.
    intros j Hj. apply Hf; [done|]. rewrite Hqi. set_solver.
  - intros a b. rewrite fmap_app, elem_of_app. simpl. intros [Hin|Hin] Hb.
    + apply Hf; [done|]. rewrite Hqi. set_solver.
    + apply list_elem_of_singleton in Hin as ->. by apply Hiq.
  - intros j. rewrite fmap_app, elem_of_app, Had. simpl. rewrite list_elem_of_singleton.
    setoid_rewrite (set_request_lookup i r r' g j Hi). case_decide as Hj; [|naive_solver].
    subst j. split; [|by right]. intros _. by exists r'.
Qed.

(** ** The closures preserve the invariant *)

Section Closures.
Context (dr : governor → governor) (Hdr : ∀ g, Inv g → Inv (dr g)).

Lemma set_inv i r r' g :
  slots_ok g → others_ok i g → g.(requests) !! i = Some r →
  r'.(kind) = r.(kind) → r'.(admitted) = r.(admitted) → r'.(activeReleased) = r.(activeReleased) →
  (r.(state) = queued ↔ r'.(state) = queued) → req_ok r' → Inv (set_request i r' g).
Proof. intros. split; [by eapply slots_replace|by eapply all_ok_set]. Qed.

Lemma release_noop i r g :
  g.(requests) !! i = Some r → r.(activeReleased) = true → releaseActive dr i g = g.
Proof. intros Hi Hr. unfold releaseActive. by rewrite Hi, Hr. Qed.

Lemma release_inv i r g :
  slots_ok g → others_ok i g → g.(requests) !! i = Some r →
  holds r = true → req_ok (with_released r) → Inv (releaseActive dr i g).
Proof.
  intros Hs Ho Hi Hh Hok. unfold releaseActive. rewrite Hi.
  assert (activeReleased r = false) as ->
    by (unfold holds in Hh; apply andb_true_iff in Hh as [_ ?]; by apply negb_true_iff).
  apply Hdr. split; [by apply slots_release|]. by eapply (all_ok_set i r (with_released r)).
Qed.

(** Replacing a request and giving its slot back in one go. *)
Lemma set_release_inv i r r' g :
  slots_ok g → others_ok i g → g.(requests) !! i = Some r →
  r'.(kind) = r.(kind) → r'.(admitted) = r.(admitted) → r'.(activeReleased) = r.(activeReleased) →
  (r.(state) = queued ↔ r'.(state) = queued) → holds r' = true → req_ok (with_released r') →
  Inv (releaseActive dr i (set_request i r' g)).
Proof.
  intros Hs Ho Hi Hk Ha Hr Hst Hh Hok. eapply release_inv.
  - by eapply slots_replace.
  - by eapply others_ok_set.
  - by eapply set_request_eq.
  - done.
  - done.
Qed.

Lemma cancel_queued_inv i r g :
  slots_ok g → others_ok i g → g.(requests) !! i = Some r →
  r.(state) = queued → untouched r → r.(admitted) = false → r.(cont) = NoCont →
  Inv (cancelBeforeDispatch dr i g).
Proof.
  intros Hs Ho Hi Hst (Hrel & Hbr & Hp & Hrf & Hc) Hadm Hk. unfold cancelBeforeDispatch.
  rewrite Hi, Hst. cbv zeta. unfold refundBeforeDispatch, settleOnce; simpl. rewrite Hbr; simpl.
  rewrite Hp. apply Hdr. split.
  - by eapply slots_dequeue.
  - eapply (all_ok_set i r); [done|done|]. unfold req_ok; simpl.
    rewrite Hrel, Hadm, Hrf, Hk, Hc. auto 10.
Qed.

Lemma cancel_pre_inv i r g :
  slots_ok g → others_ok i g → g.(requests) !! i = Some r →
  r.(state) = pre_dispatch → untouched r → r.(admitted) = true →
  r.(cont) = NoCont ∨ r.(cont) = OnHook → Inv (cancelBeforeDispatch dr i g).
Proof.
  intros Hs Ho Hi Hst (Hrel & Hbr & Hp & Hrf & Hc) Hadm Hk. unfold cancelBeforeDispatch.
  rewrite Hi, Hst. cbv zeta. unfold refundBeforeDispatch, settleOnce; simpl. rewrite Hbr; simpl.
  rewrite Hp. eapply set_release_inv; try done; simpl.
  - by rewrite Hst.
  - unfold holds; simpl. by rewrite Hadm, Hrel.
  - unfold req_ok; simpl. rewrite Hrf. destruct Hk; auto 10.
Qed.

Lemma fail_pre_inv i r g :
  slots_ok g → others_ok i g → g.(requests) !! i = Some r →
  r.(state) = pre_dispatch → untouched r → r.(admitted) = true → r.(cont) = NoCont →
  Inv (failBeforeDispatch dr i g).
Proof.
  intros Hs Ho Hi Hst (Hrel & Hbr & Hp & Hrf & Hc) Hadm Hk. unfold failBeforeDispatch.
  rewrite Hi, Hst. cbv zeta. unfold refundBeforeDispatch, settleOnce; simpl. rewrite Hbr; simpl.
  rewrite Hp. eapply set_release_inv; try done; simpl.
  - by rewrite Hst.
  - unfold holds; simpl. by rewrite Hadm, Hrel.
  - unfold req_ok; simpl. rewrite Hrf. auto 10.
Qed.

Lemma start_pre_inv i r g :
  slots_ok g → others_ok i g → g.(requests) !! i = Some r →
  r.(state) = pre_dispatch → untouched r → r.(admitted) = true → r.(cont) = NoCont →
  r.(signal_aborted) = false → Inv (startExternalOperation dr i g).
Proof.
  intros Hs Ho Hi Hst (Hrel & Hbr & Hp & Hrf & Hc) Hadm Hk Hab. unfold startExternalOperation.
  rewrite Hi, Hst, Hab. cbv zeta. simpl. destruct (operation_throws r).
  - unfold settleOnce; simpl. rewrite Hp. eapply set_release_inv; try done; simpl.
    + by rewrite Hst.
    + unfold holds; simpl. by rewrite Hadm, Hrel.
    + unfold req_ok; simpl. rewrite Hc. auto 10.
  - eapply set_inv; try done; simpl; [by rewrite Hst|]. unfold req_ok; simpl. rewrite Hc. auto 10.
Qed.

(** After a cancellation both continuations of a dispatch hook are inert. *)
Lemma start_cancelled i r g :
  g.(requests) !! i = Some r → r.(state) = cancelled → r.(activeReleased) = true →
  startExternalOperation dr i g = g ∧ failBeforeDispatch dr i g = g.
Proof.
  intros Hi Hst Hrel. unfold startExternalOperation, failBeforeDispatch. rewrite Hi, Hst. simpl.
  split; by eapply release_noop.
Qed.

Lemma dispatch_inv i r g :
  slots_ok (set_request i (with_state pre_dispatch r) g) → others_ok i g →
  g.(requests) !! i = Some r → untouched r → r.(admitted) = true → r.(cont) = NoCont →
  r.(signal_aborted) = false → Inv (dispatch dr i g).
Proof.
  intros Hs Ho Hi Hu Hadm Hk Hab. unfold dispatch. rewrite Hi. cbv zeta. simpl.
  set (r' := with_state pre_dispatch r).
  assert ((set_request i r' g).(requests) !! i = Some r') as Hi'
    by (by eapply set_request_eq).
  assert (others_ok i (set_request i r' g)) as Ho' by (by eapply others_ok_set).
  destruct (onDispatch r).
  - by eapply (start_pre_inv i r').
  - by eapply (fail_pre_inv i r').
  - by eapply (set_inv i r').
Qed.
End Closures.

Lemma slots_ext g g' :
  g.(requests) = g'.(requests) → g.(queue) = g'.(queue) → g.(active) = g'.(active) →
  g.(mutationActive) = g'.(mutationActive) → g.(log) = g'.(log) → slots_ok g → slots_ok g'.
Proof. destruct g, g'; simpl; intros -> -> -> -> -> []; by split. Qed.

Lemma slots_timer b g : slots_ok g → slots_ok (set_timer b g).
Proof. by apply slots_ext. Qed.
Lemma slots_prune now g : slots_ok g → slots_ok (prune now g).
Proof. by apply slots_ext. Qed.

Lemma drain_inv fuel now g : Inv g → Inv (drain fuel now g).
Proof.
  revert g. induction fuel as [|fuel IH]; intros g [Hs Ha]; simpl; [done|].
  destruct (queue g) as [|i q] eqn:Hq; [done|].
  destruct (Z.leb_spec (concurrency o) (active g)) as [|Hroom]; [done|].
  destruct (now <? cooldownUntil g); [split; [by apply slots_timer|done]|].
  destruct (rateCap <=? _); [split; [by apply slots_timer, slots_prune|done]|].
  destruct (requests g !! i) as [r|] eqn:Hi; [|split; [by apply slots_prune|done]].
  destruct (bool_decide (kind r = mutation) && mutationActive g) eqn:Hm;
    [split; [by apply slots_prune|done]|].
  assert (state r = queued) as Hst.
  { destruct (proj1 (so_queue g Hs i)) as (r0 & Hr0 & ?); [rewrite Hq; set_solver|]. congruence. }
  assert (untouched r ∧ r.(admitted) = false ∧ r.(cont) = NoCont ∧ r.(signal_aborted) = false)
    as (Hu & Hadm & Hk & Hab) by (specialize (Ha i r Hi); unfold req_ok in Ha; by rewrite Hst in Ha).
  apply IH. eapply (dispatch_inv _ IH i (with_admitted r)); try done.
  - apply slots_admit; try done; [by apply slots_prune|].
    intros Hk'. rewrite bool_decide_true in Hm by done. simpl in *. by destruct (mutationActive g).
  - intros j x Hj. simpl. rewrite list_lookup_insert_ne by done. apply Ha.
  - simpl. apply list_lookup_insert_eq. by eapply lookup_lt_Some.
Qed.

Lemma inv_init g : createWorkspaceRequestGovernor o = Ok g → Inv g.
Proof.
  unfold createWorkspaceRequestGovernor. case_match eqn:E; [done|]. intros [= <-]. zbool.
  split; [|intros j r; simpl; by rewrite lookup_nil].
  split; simpl; try done; try lia; try apply SSorted_nil.
  all: try (intros i; split; [intros Hi; by apply elem_of_nil in Hi|by intros (r & Hr & _)]).
  intros i j Hi. by apply elem_of_nil in Hi.
Qed.

Lemma drain_all_inv now g : Inv g → Inv (drain_all now g).
Proof. apply drain_inv. Qed.

Lemma slots_push r g :
  slots_ok g → r.(state) = queued → r.(admitted) = false →
  slots_ok (set_queue (g.(queue) ++ [length g.(requests)]) (set_requests (g.(requests) ++ [r]) g)).
Proof.
  intros [Ha Hm Hc Hq Hs Hl Hf Had] Hst Hadm.
  assert (∀ (P : request → Prop) j,
    (∃ x, (g.(requests) ++ [r]) !! j = Some x ∧ P x) ↔
    (∃ x, g.(requests) !! j = Some x ∧ P x) ∨ (j = length g.(requests) ∧ P r)) as Hlk.
  { intros P j. setoid_rewrite lookup_snoc_Some. split.
    - intros (x & [[? ?]|[? ->]] & ?); [left; eauto|right; done].
    - intros [(x & ? & ?)|[-> ?]]; [exists x; split; [left; split; [by eapply lookup_lt_Some|done]|done]|].
      exists r. auto. }
  assert (∀ j, j ∈ g.(queue) → (j < length g.(requests))%nat) as Hlt.
  { intros j Hj. apply Hq in Hj as (x & Hx & _). by eapply lookup_lt_Some. }
  split; simpl; try done.
  - rewrite countb_snoc. unfold holds at 2. rewrite Hadm. simpl. lia.
  - rewrite countb_snoc, Hm. unfold holds_mutation, holds. rewrite Hadm. simpl. lia.
  - intros j. rewrite (Hlk (λ x, state x = queued)), elem_of_app, Hq, list_elem_of_singleton. tauto.
  - apply StronglySorted_snoc; [done|]. by apply Forall_forall.
  - intros i j Hi. rewrite elem_of_app, list_elem_of_singleton. intros [Hj| ->]; [by apply Hf|].
    apply Had in Hi as (x & Hx & _). by eapply lookup_lt_Some.
  - intros j. rewrite (Hlk (λ x, admitted x = true)), Had. split; [by left|].
    intros [?|[_ ?]]; [done|congruence].
Qed.

Lemma run_inv now k h throws aborted charge_ok late g :
  Inv g → Inv (run now k h throws aborted charge_ok late g).
Proof.
  intros [Hs Ha]. unfold run. destruct aborted; [done|]. destruct charge_ok; [|done]. cbv zeta. simpl.
  set (r := new_request k h throws late).
  set (g' := set_queue _ _).
  assert (slots_ok g') as Hs' by (by apply slots_push).
  assert (g'.(requests) !! length g.(requests) = Some r) as Hi
    by (simpl; by rewrite lookup_app_r, Nat.sub_diag by done).
  assert (others_ok (length g.(requests)) g') as Ho.
  { intros j x Hj. simpl. rewrite lookup_snoc_Some. intros [[_ Hx]|[? _]]; [by eapply Ha|done]. }
  apply drain_all_inv. destruct late.
  - by eapply (cancel_queued_inv _ (drain_all_inv now) _ r).
  - split; [done|]. intros j x Hx. destruct (decide (j = length g.(requests))) as [->|];
      [|by eapply Ho]. assert (x = r) as -> by congruence. done.
Qed.

Lemma abort_inv now i r g :
  Inv g → g.(requests) !! i = Some r →
  Inv (cancelBeforeDispatch (drain_all now) i (set_request i (with_abort r) g)).
Proof.
  intros [Hs Ha] Hi. pose proof (drain_all_inv now) as Hdr.
  pose proof (Ha i r Hi) as Hr.
  assert (slots_ok (set_request i (with_abort r) g)) as Hs' by (by eapply slots_replace).
  assert (others_ok i (set_request i (with_abort r) g)) as Ho
    by (eapply others_ok_set; [done|by apply all_others]).
  pose proof (set_request_eq i r (with_abort r) g Hi) as Hi'.
  unfold req_ok in Hr. destruct (state r) eqn:Hst.
  - destruct Hr as (Hu & Hadm & Hk & _). by eapply (cancel_queued_inv _ Hdr i (with_abort r)).
  - destruct Hr as (Hu & Hadm & Hk & _).
    eapply (cancel_pre_inv _ Hdr i (with_abort r)); try done. by right.
  - unfold cancelBeforeDispatch. rewrite Hi'. simpl. rewrite Hst.
    eapply set_inv; try done; [by apply all_others|]. unfold req_ok; simpl. by rewrite Hst.
  - unfold cancelBeforeDispatch. rewrite Hi'. simpl. rewrite Hst.
    eapply set_inv; try done; [by apply all_others|]. unfold req_ok; simpl. by rewrite Hst.
  - unfold cancelBeforeDispatch. rewrite Hi'. simpl. rewrite Hst.
    eapply set_inv; try done; [by apply all_others|]. unfold req_ok; simpl. by rewrite Hst.
Qed.

(** The three continuations of a promise. *)
Lemma hook_inv now i r g :
  Inv g → g.(requests) !! i = Some r → r.(cont) = OnHook →
  let g' := set_request i (with_cont NoCont r) g in
  Inv (startExternalOperation (drain_all now) i g') ∧ Inv (failBeforeDispatch (drain_all now) i g').
Proof.
  intros [Hs Ha] Hi Hk g'. pose proof (drain_all_inv now) as Hdr.
  pose proof (Ha i r Hi) as Hr. set (r' := with_cont NoCont r).
  assert (slots_ok g') as Hs' by (by eapply slots_replace).
  assert (others_ok i g') as Ho by (eapply others_ok_set; [done|by apply all_others]).
  pose proof (set_request_eq i r r' g Hi) as Hi'.
  unfold req_ok in Hr. destruct (state r) eqn:Hst.
  - destruct Hr as (_ & _ & ? & _). congruence.
  - destruct Hr as (Hu & Hadm & _ & Hab).
    split; [by eapply (start_pre_inv _ Hdr i r')|by eapply (fail_pre_inv _ Hdr i r')].
  - destruct Hr as (Hrel & Hp & Hrf & Hc & [|[_ Hadm]]); [congruence|].
    assert (Inv g') as Hg'.
    { eapply set_inv; try done; [by apply all_others|]. unfold req_ok; simpl. rewrite Hst. auto 10. }
    rewrite Hadm in Hrel. by destruct (start_cancelled (drain_all now) i r' g') as [-> ->].
  - destruct Hr as (_ & _ & _ & _ & _ & ?). congruence.
  - destruct Hr as (_ & [(? & _)|(? & _)] & _); congruence.
Qed.

Lemma step_inv g e : Inv g → Inv (step g e).
Proof.
  destruct e as [now e]. intros HI. pose proof HI as [Hs Ha].
  destruct e as [k h th ab ok late|i|i|i|i f|i| |d]; unfold step, on_cont; simpl.
  - by apply run_inv.
  - destruct (requests g !! i) as [r|] eqn:Hi; [|done].
    destruct (signal_aborted r); [done|by apply abort_inv].
  - destruct (requests g !! i) as [r|] eqn:Hi; [|done]. case_decide as Hk; [|done].
    by destruct (hook_inv now i r g HI Hi Hk).
  - destruct (requests g !! i) as [r|] eqn:Hi; [|done]. case_decide as Hk; [|done].
    by destruct (hook_inv now i r g HI Hi Hk).
  - destruct (requests g !! i) as [r|] eqn:Hi; [|done]. case_decide as Hk; [|done].
    pose proof (Ha i r Hi) as Hr. unfold req_ok in Hr. rewrite Hk in Hr.
    destruct (state r) eqn:Hst; try (exfalso; naive_solver).
    destruct Hr as (Hadm & Hrel & Hp & Hrf & Hc & _).
    unfold settleOnce; simpl. rewrite Hp.
    eapply set_inv; try done; [by apply all_others|simpl; by rewrite Hst|].
    unfold req_ok; simpl. destruct f; auto 10.
  - destruct (requests g !! i) as [r|] eqn:Hi; [|done]. case_decide as Hk; [|done].
    pose proof (Ha i r Hi) as Hr. unfold req_ok in Hr. rewrite Hk in Hr.
    destruct (state r) eqn:Hst; try (exfalso; naive_solver).
    destruct Hr as (Hadm & [(_ & Hrel & Hc)|[? _]] & Hout); [|done].
    eapply set_release_inv; try done; [by apply drain_all_inv|by apply all_others| |].
    + unfold holds; simpl. by rewrite Hadm, Hrel.
    + unfold req_ok; simpl. rewrite Hst. auto.
  - destruct (timer g); [|done]. apply drain_all_inv. split; [by apply slots_timer|done].
  - unfold noteRateLimited. simpl. destruct (queue g) eqn:Hq.
    + split; [by apply (slots_ext g)|done].
    + split; [by apply (slots_ext g)|done].
Qed.

Definition reachable (evs : list (Z * event)) (g : governor) : Prop :=
  ∃ g0, createWorkspaceRequestGovernor o = Ok g0 ∧ g = run_events step g0 evs.

Lemma reachable_inv evs g : reachable evs g → Inv g.
Proof.
  intros (g0 & H0 & ->). apply run_invariant; [by apply inv_init|]. intros s e. apply step_inv.
Qed.

(** ** What the closures leave alone

    A predicate closed under the elementary updates is preserved by the closures
    as soon as it is by [drain]. *)

Record closed (P : governor → Prop) : Prop := {
  cl_set : ∀ i r g, P g → P (set_request i r g);
  cl_free : ∀ k g, P g → P (free_slot k g);
  cl_splice : ∀ i g, P g → P (set_queue (splice_out i g.(queue)) g);
}.

Section Closed.
Context (P : governor → Prop) (HP : closed P).
Context (dr : governor → governor) (Hdr : ∀ g, P g → P (dr g)).

Lemma release_closed i g : P g → P (releaseActive dr i g).
Proof.
  intros Hg. unfold releaseActive. destruct (requests g !! i); [|done].
  case_match; [done|]. by apply Hdr, HP, HP.
Qed.

Lemma cancel_closed i g : P g → P (cancelBeforeDispatch dr i g).
Proof.
  intros Hg. unfold cancelBeforeDispatch. destruct (requests g !! i); [|done].
  case_match; try done; [by apply Hdr, HP, HP|by apply release_closed, HP].
Qed.

Lemma fail_closed i g : P g → P (failBeforeDispatch dr i g).
Proof.
  intros Hg. unfold failBeforeDispatch. destruct (requests g !! i); [|done].
  case_decide; apply release_closed; [done|by apply HP].
Qed.

Lemma start_closed i g : P g → P (startExternalOperation dr i g).
Proof.
  intros Hg. unfold startExternalOperation. destruct (requests g !! i); [|done].
  case_decide; [by apply release_closed|].
  case_match; [by apply release_closed, cancel_closed|].
  cbv zeta. case_match; [by apply release_closed, HP|by apply HP].
Qed.

Lemma dispatch_closed i g : P g → P (dispatch dr i g).
Proof.
  intros Hg. unfold dispatch. destruct (requests g !! i); [|done]. cbv zeta.
  simpl. case_match; [by apply start_closed, HP|by apply fail_closed, HP|by do 2 apply HP].
Qed.
End Closed.

(** The queue never grows while draining. *)
Lemma queue_closed n : closed (λ g, (length g.(queue) ≤ n)%nat).
Proof.
  split; simpl; try done. intros i g Hg. pose proof (splice_out_length i (queue g)). lia.
Qed.

Lemma drain_queue n fuel now g :
  (length g.(queue) ≤ n → length (drain fuel now g).(queue) ≤ n)%nat.
Proof.
  revert g. induction fuel as [|fuel IH]; intros g Hg; simpl; [done|].
  destruct (queue g) as [|i q] eqn:Hq; [simpl; by rewrite Hq|]. simpl in *.
  repeat (case_match; [simpl; rewrite ?Hq; simpl; lia|]).
  case_match; [|simpl; rewrite ?Hq; simpl; lia].
  case_match; [simpl; rewrite ?Hq; simpl; lia|].
  apply IH. apply (dispatch_closed _ (queue_closed n)); [exact IH|]. simpl. lia.
Qed.

(** ** Fuel *)

Section Extensional.
Context (dr dr' : governor → governor) (n : nat).
Context (Hext : ∀ g, (length g.(queue) ≤ n)%nat → dr g = dr' g).
Context (Hle : ∀ g, (length g.(queue) ≤ n → length (dr g).(queue) ≤ n)%nat).

Lemma release_ext i g :
  (length g.(queue) ≤ n)%nat → releaseActive dr i g = releaseActive dr' i g.
Proof.
  intros Hg. unfold releaseActive. destruct (requests g !! i); [|done].
  case_match; [done|]. by apply Hext.
Qed.

Lemma cancel_ext i g :
  (length g.(queue) ≤ n)%nat → cancelBeforeDispatch dr i g = cancelBeforeDispatch dr' i g.
Proof.
  intros Hg. unfold cancelBeforeDispatch. destruct (requests g !! i); [|done].
  case_match; try done; [|by apply release_ext].
  apply Hext. simpl. pose proof (splice_out_length i (queue g)). lia.
Qed.

Lemma start_ext i g :
  (length g.(queue) ≤ n)%nat → startExternalOperation dr i g = startExternalOperation dr' i g.
Proof.
  intros Hg. unfold startExternalOperation. destruct (requests g !! i); [|done].
  case_decide; [by apply release_ext|].
  case_match.
  - rewrite <- cancel_ext by done. apply release_ext.
    by apply (cancel_closed _ (queue_closed n)).
  - cbv zeta. case_match; [by apply release_ext|done].
Qed.

Lemma dispatch_ext i g :
  (length g.(queue) ≤ n)%nat → dispatch dr i g = dispatch dr' i g.
Proof.
  intros Hg. unfold dispatch. destruct (requests g !! i); [|done]. cbv zeta. simpl.
  case_match; [by apply start_ext| |done].
  unfold failBeforeDispatch. case_match; [|done]. case_decide; by apply release_ext.
Qed.
End Extensional.

Lemma drain_fuel n m now g :
  (length g.(queue) ≤ n)%nat → (length g.(queue) ≤ m)%nat → drain n now g = drain m now g.
Proof.
  revert m g. induction n as [|n IH]; intros [|m] g Hn Hm; [done| | |].
  - apply Nat.le_0_r, nil_length_inv in Hn. simpl. by rewrite Hn.
  - apply Nat.le_0_r, nil_length_inv in Hm. simpl. by rewrite Hm.
  - simpl. destruct (queue g) as [|i q] eqn:Hq; [done|]. simpl in *.
    do 3 (case_match; [done|]). case_match; [|done]. case_match; [done|].
    rewrite (dispatch_ext (drain n now) (drain m now) (length q)); try done.
    + apply IH.
      all: etrans; [|by apply le_S_n].
      all: apply (dispatch_closed _ (queue_closed (length q))); try done; intros g' Hg';
        by apply drain_queue.
    + intros g' Hg'. apply IH; lia.
    + intros g' Hg'. by apply drain_queue.
Qed.

(** ** Progress *)

(** Why the request at the head of the queue is not admitted. *)
Inductive blocked (now : Z) (g : governor) : Prop :=
| blocked_empty : g.(queue) = [] → blocked now g
| blocked_capacity : o.(concurrency) ≤ g.(active) → blocked now g
| blocked_cooldown : now < g.(cooldownUntil) → g.(timer) = true → blocked now g
| blocked_rate : rateCap ≤ Z.of_nat (length g.(starts)) → pruneStarts now g.(starts) = g.(starts) →
    g.(timer) = true → blocked now g
| blocked_mutation i q r : g.(queue) = i :: q → g.(requests) !! i = Some r →
    r.(kind) = mutation → g.(mutationActive) = true → blocked now g
| blocked_dangling i q : g.(queue) = i :: q → g.(requests) !! i = None → blocked now g.

Lemma drop_while_idemp {A} (p : A → bool) l : drop_while p (drop_while p l) = drop_while p l.
Proof.
  induction l as [|x l IH]; simpl; [done|]. destruct (p x) eqn:E; [done|]. simpl. by rewrite E.
Qed.

Lemma drain_blocked fuel now g :
  (length g.(queue) ≤ fuel)%nat → blocked now (drain fuel now g).
Proof.
  revert g. induction fuel as [|fuel IH]; intros g Hg; simpl.
  - by apply blocked_empty, nil_length_inv, Nat.le_0_r.
  - destruct (queue g) as [|i q] eqn:Hq; [by apply blocked_empty|]. simpl in *.
    destruct (Z.leb_spec (concurrency o) (active g)); [by apply blocked_capacity|].
    destruct (Z.ltb_spec now (cooldownUntil g)); [by apply blocked_cooldown|].
    destruct (Z.leb_spec rateCap (Z.of_nat (length (pruneStarts now (starts g))))).
    { apply blocked_rate; [done|apply drop_while_idemp|done]. }
    destruct (requests g !! i) as [r|] eqn:Hi; [|by eapply blocked_dangling].
    destruct (bool_decide (kind r = mutation) && mutationActive g) eqn:Hm.
    + apply andb_true_iff in Hm as [Hk%bool_decide_eq_true Hm].
      by eapply (blocked_mutation _ _ i q r).
    + apply IH. etrans; [|by apply le_S_n].
      apply (dispatch_closed _ (queue_closed (length q))); [|done].
      intros g' Hg'. by apply drain_queue.
Qed.

(** Somebody will run [drain] again, or nobody is waiting. *)
Definition awake (g : governor) : Prop :=
  g.(queue) = [] ∨ g.(timer) = true ∨ o.(concurrency) ≤ g.(active) ∨
  g.(mutationActive) = true ∨ ∃ i, i ∈ g.(queue) ∧ g.(requests) !! i = None.

Lemma drain_awake now g : awake (drain_all now g).
Proof.
  unfold awake, drain_all.
  destruct (drain_blocked (length (queue g)) now g) as [| | | |i q r Hq|i q Hq]; auto.
  do 4 right. exists i. rewrite Hq. split; [by left|done].
Qed.

Lemma set_awake i r g : awake g → awake (set_request i r g).
Proof.
  intros [|[|[|[|(j & Hj & Hn)]]]]; [by left|by right; left|by do 2 right; left|by do 3 right; left|].
  do 4 right. exists j. split; [done|]. simpl. apply lookup_ge_None. rewrite length_insert.
  by apply lookup_ge_None.
Qed.

Section Awake.
Context (dr : governor → governor) (Hdr : ∀ g, awake (dr g)).

Lemma release_awake i g : awake g → awake (releaseActive dr i g).
Proof. intros Hg. unfold releaseActive. case_match; [|done]. by case_match. Qed.

Lemma cancel_awake i g : awake g → awake (cancelBeforeDispatch dr i g).
Proof.
  intros Hg. unfold cancelBeforeDispatch. case_match; [|done].
  case_match; try done. by apply release_awake, set_awake.
Qed.

Lemma fail_awake i g : awake g → awake (failBeforeDispatch dr i g).
Proof.
  intros Hg. unfold failBeforeDispatch. case_match; [|done].
  case_decide; apply release_awake; [done|by apply set_awake].
Qed.

Lemma start_awake i g : awake g → awake (startExternalOperation dr i g).
Proof.
  intros Hg. unfold startExternalOperation. case_match; [|done].
  case_decide; [by apply release_awake|]. case_match; [by apply release_awake, cancel_awake|].
  cbv zeta. case_match; [by apply release_awake, set_awake|by apply set_awake].
Qed.
End Awake.

Lemma step_awake g e : awake g → awake (step g e).
Proof.
  destruct e as [now e]. intros Hg. pose proof (drain_awake now) as Hdr.
  destruct e as [k h th ab ok late|i|i|i|i f|i| |d]; unfold step, on_cont; simpl.
  - unfold run. destruct ab; [done|]. destruct ok; [|done]. apply Hdr.
  - case_match; [|done]. case_match; [done|]. by apply cancel_awake, set_awake.
  - case_match; [|done]. case_decide; [|done]. by apply start_awake, set_awake.
  - case_match; [|done]. case_decide; [|done]. by apply fail_awake, set_awake.
  - case_match; [|done]. case_decide; [|done]. by apply set_awake.
  - case_match; [|done]. case_decide; [|done]. by apply release_awake, set_awake.
  - case_match; [apply Hdr|done].
  - unfold noteRateLimited. simpl. destruct (queue g) eqn:Hq; [left; by simpl|right; by left].
Qed.

Lemma holds_waits r : req_ok r → holds r = true →
  r.(cont) = OnHook ∨ r.(cont) = OnSettle ∨ r.(cont) = OnFinally.
Proof.
  unfold req_ok, holds. intros Hr Hh. apply andb_true_iff in Hh as [Ha Hrel%negb_true_iff].
  destruct (state r).
  - destruct Hr as (_ & ? & _). congruence.
  - destruct Hr as (_ & _ & ? & _). by left.
  - destruct Hr as (? & _). congruence.
  - destruct Hr as (_ & _ & _ & _ & _ & ?). by right; left.
  - destruct Hr as (_ & [(? & _)|(_ & ?)] & _); [by right; right|congruence].
Qed.

Lemma countb_witness {A} (p : A → bool) l : 0 < countb p l → ∃ i x, l !! i = Some x ∧ p x = true.
Proof.
  induction l as [|y l IH]; simpl; intros Hl; [lia|]. destruct (p y) eqn:E; [by exists 0%nat, y|].
  destruct IH as (i & x & ? & ?); [lia|]. by exists (S i), x.
Qed.

(** A waiting request is woken by the timer or by a promise that is still pending. *)
Lemma awake_waker g : 0 < o.(concurrency) → Inv g → awake g → g.(queue) ≠ [] →
  g.(timer) = true ∨ ∃ i r, g.(requests) !! i = Some r ∧ holds r = true ∧
    (r.(cont) = OnHook ∨ r.(cont) = OnSettle ∨ r.(cont) = OnFinally).
Proof.
  intros Hc [Hs Ha] Hw Hq.
  assert (g.(timer) = true ∨ 0 < g.(active)) as [?|Hact]; [|by left|right].
  - destruct Hw as [?|[?|[?|[Hm|(i & Hi & Hn)]]]]; [done|by left|right; lia| |].
    + right. rewrite (so_active g Hs). pose proof (so_mutation g Hs) as Hmc. rewrite Hm in Hmc.
      assert (countb holds_mutation g.(requests) ≤ countb holds g.(requests)); [|lia].
      apply countb_mono. intros x _ Hx. by apply andb_true_iff in Hx as [? _].
    + apply (so_queue g Hs) in Hi as (r & Hr & _). congruence.
  - rewrite (so_active g Hs) in Hact. apply countb_witness in Hact as (i & r & Hi & Hh).
    exists i, r. split; [done|]. split; [done|]. apply holds_waits; [by eapply Ha|done].
Qed.

(** ** The rate limit *)

(** [starts] agrees with the full log on every window that can still be asked for. *)
Record rate_ok (t : Z) (g : governor) : Prop := {
  ro_log : Forall (λ x, x ≤ t) g.(log).*2;
  ro_sorted : StronglySorted Z.le g.(starts);
  ro_starts : Forall (λ x, x ≤ t) g.(starts);
  ro_agree : ∀ c, t - 1000 ≤ c → in_window c t g.(log).*2 = in_window c t g.(starts);
  ro_bound : ∀ a, in_window a (a + 1000) g.(log).*2 ≤ rateCap;
}.

Lemma rate_closed t : closed (rate_ok t).
Proof. by split; intros ? ? *; destruct 1; split. Qed.

Lemma rate_ext t g g' : g.(starts) = g'.(starts) → g.(log) = g'.(log) → rate_ok t g → rate_ok t g'.
Proof. destruct g, g'; simpl; intros -> -> []; by split. Qed.

Lemma in_window_bounded (c t t' : Z) (l : list Z) :
  Forall (λ x, x ≤ t) l → t ≤ t' → in_window c t' l = in_window c t l.
Proof.
  intros Hl Ht. unfold in_window. induction Hl as [|x l Hx Hl IH]; simpl; [done|].
  rewrite IH. by rewrite (proj2 (Z.leb_le x t)), (proj2 (Z.leb_le x t')) by lia.
Qed.

Lemma rate_later t now g : t ≤ now → rate_ok t g → rate_ok now g.
Proof.
  intros Ht [Hl Hs Hb Ha Hc]. split; try done.
  - eapply Forall_impl; [exact Hl|]. simpl. lia.
  - eapply Forall_impl; [exact Hb|]. simpl. lia.
  - intros c Hcc. rewrite !(in_window_bounded c t now) by done. apply Ha. lia.
Qed.

Lemma rate_prune now g : rate_ok now g → rate_ok now (prune now g).
Proof.
  intros [Hl Hs Hb Ha Hc]. unfold prune, pruneStarts. split; simpl; try done.
  - rewrite drop_while_filter by done. clear -Hs.
    induction Hs as [|x l Hs IH Hx]; [constructor|]. rewrite filter_cons. case_decide; [|done].
    constructor; [done|]. by apply Forall_filter.
  - rewrite drop_while_filter by done. by apply Forall_filter.
  - intros c Hcc. rewrite Ha by done. rewrite drop_while_filter by done. clear -Hcc.
    unfold in_window. induction (starts g) as [|x l IH]; [done|]. rewrite filter_cons. simpl.
    case_decide as Hx; simpl; rewrite IH; [done|]. by rewrite (proj2 (Z.ltb_ge c x)) by lia.
Qed.

Lemma rate_admit now i r q g :
  rate_ok now g → Z.of_nat (length g.(starts)) < rateCap → rate_ok now (dequeue_head now i r q g).
Proof.
  intros [Hl Hs Hb Ha Hc] Hroom. unfold dequeue_head. split; simpl.
  - rewrite fmap_app. apply Forall_app; split; [done|]. repeat constructor; simpl; lia.
  - by apply StronglySorted_snoc.
  - apply Forall_app; split; [done|]. repeat constructor; lia.
  - intros c Hcc. rewrite fmap_app. unfold in_window. rewrite !countb_app.
    f_equal. by apply Ha.
  - rewrite fmap_app. simpl. apply window_admit; [done|done|]. rewrite (Ha (now - 1000)) by lia.
    unfold in_window. pose proof (countb_le_length (λ t, (now - 1000 <? t) && (t <=? now)) (starts g)).
    lia.
Qed.

Lemma drain_rate fuel now g : rate_ok now g → rate_ok now (drain fuel now g).
Proof.
  revert g. induction fuel as [|fuel IH]; intros g Hg; simpl; [done|].
  destruct (queue g) as [|i q]; [done|]. case_match; [done|].
  case_match; [by apply (rate_ext now g)|].
  pose proof (rate_prune now g Hg) as Hp.
  destruct (Z.leb_spec rateCap (Z.of_nat (length (pruneStarts now (starts g)))));
    [by apply (rate_ext now (prune now g))|].
  case_match; [|done]. case_match; [done|].
  apply IH. apply (dispatch_closed _ (rate_closed now)); [exact IH|]. by apply rate_admit.
Qed.

Lemma step_rate now e g : rate_ok now g → rate_ok now (step g (now, e)).
Proof.
  intros Hg. pose proof (drain_rate) as Hd.
  assert (∀ g, rate_ok now g → rate_ok now (drain_all now g)) as Hdr by (intros; by apply drain_rate).
  pose proof (rate_closed now) as HP.
  destruct e as [k h th ab ok late|i|i|i|i f|i| |d]; unfold step, on_cont; simpl.
  - unfold run. destruct ab; [done|]. destruct ok; [|done]. cbv zeta. simpl. apply Hdr.
    destruct late; [apply (cancel_closed _ HP); [done|]|]; by apply (rate_ext now g).
  - case_match; [|done]. case_match; [done|]. by apply (cancel_closed _ HP), HP.
  - case_match; [|done]. case_decide; [|done]. by apply (start_closed _ HP), HP.
  - case_match; [|done]. case_decide; [|done]. by apply (fail_closed _ HP), HP.
  - case_match; [|done]. case_decide; [|done]. by apply HP.
  - case_match; [|done]. case_decide; [|done]. by apply (release_closed _ HP), HP.
  - case_match; [|done]. apply Hdr. by apply (rate_ext now g).
  - unfold noteRateLimited. simpl. case_match; by apply (rate_ext now g).
Qed.

Lemma run_rate t evs g : monotone_from t evs → rate_ok t g → ∃ t', rate_ok t' (run_events step g evs).
Proof.
  revert t g. induction evs as [|[now e] evs IH]; intros t g Hm Hg; simpl; [by exists t|].
  destruct Hm as [Ht Hm]. eapply IH; [exact Hm|]. by apply step_rate, (rate_later t).
Qed.

Lemma rate_init t g : createWorkspaceRequestGovernor o = Ok g → rate_ok t g.
Proof.
  unfold createWorkspaceRequestGovernor. case_match eqn:E; [done|]. intros [= <-]. zbool.
  split; simpl; try constructor; try done. intros a. unfold in_window, rateCap. simpl. lia.
Qed.
End Governor.

(** ** Theorems *)

Definition in_flight (g : governor) (k : HostRequestKind) : Z :=
  countb (λ r, holds r && bool_decide (r.(kind) = k)) g.(requests).

(** A run with a mutation in flight, a cancelled waiting mutation, a rate-limited
    read and the timer that wakes it up. *)
Definition demo_limits : limits := {| requestsPerSecond := 2; burst := 2; concurrency := 2 |}.
Definition demo_events : list (Z * event) :=
  [(0, Run mutation HookReturns false false true false);
   (1, Run mutation HookPending false false true false);
   (2, Run read HookReturns false false true false);
   (3, Abort 1);
   (4, Run read HookReturns true false true false);
   (10, Settles 0 true); (11, Finally 0); (1001, TimerFires); (1002, RateLimited 50)].
Definition demo_governor : governor :=
  match createWorkspaceRequestGovernor demo_limits with
  | Ok g => run_events (step demo_limits) g demo_events
  | Throw _ => {| requests := []; queue := []; starts := []; active := 0; mutationActive := false;
                  cooldownUntil := 0; timer := false; log := [] |}
  end.

Example demo_run :
  demo_governor.(log) = [(0%nat, 0); (2%nat, 3); (3%nat, 1001)] ∧
  (promise <$> demo_governor.(requests)) =
    [Some OperationValue; Some Cancelled; None; Some OperationError] ∧
  demo_governor.(active) = 1.
Proof. vm_compute. auto. Qed.

Lemma demo_reachable : reachable demo_limits demo_events demo_governor.
Proof. eexists. split; reflexivity. Qed.

(** C33: capacity.  In every state the governor can reach, its [active] counter is the
    number of requests that hold a slot, that number is between 0 and
    [concurrency], at most one mutation holds a slot and [mutationActive] says
    whether one does; and a request that holds a slot has a promise pending (its
    dispatch hook, its external operation, or the final release), so no slot leaks. *)
Theorem governor_capacity o evs g :
  reachable o evs g →
  g.(active) = in_flight g read + in_flight g mutation ∧
  0 ≤ g.(active) ≤ o.(concurrency) ∧
  in_flight g mutation = (if g.(mutationActive) then 1 else 0) ∧
  ∀ i r, g.(requests) !! i = Some r → holds r = true →
    r.(cont) = OnHook ∨ r.(cont) = OnSettle ∨ r.(cont) = OnFinally.
Proof.
  intros [Hs Ha]%reachable_inv. pose proof Hs as [Hact Hm Hcap _ _ _ _ _]. split_and!.
  - rewrite Hact. unfold in_flight. clear. induction (requests g) as [|r l IH]; simpl; [done|].
    rewrite IH. destruct (holds r); simpl; [|lia]. destruct (kind r); simpl; lia.
  - rewrite Hact. apply countb_nonneg.
  - done.
  - exact Hm.
  - intros i r Hi. apply holds_waits. by eapply Ha.
Qed.

Lemma governor_capacity_witness :
  demo_governor.(active) = in_flight demo_governor read + in_flight demo_governor mutation ∧
  0 ≤ demo_governor.(active) ≤ demo_limits.(concurrency) ∧
  in_flight demo_governor mutation = (if demo_governor.(mutationActive) then 1 else 0) ∧
  ∀ i r, demo_governor.(requests) !! i = Some r → holds r = true →
    r.(cont) = OnHook ∨ r.(cont) = OnSettle ∨ r.(cont) = OnFinally.
Proof. apply (governor_capacity demo_limits demo_events), demo_reachable. Defined.

(** Rate.  When the clock does not go back, any window of one second contains at
    most [min(requestsPerSecond, burst)] admissions, for any interleaving of calls,
    aborts, hook results, settlements, timers and host 429s. *)
Theorem governor_rate o evs g t :
  reachable o evs g → monotone_from t evs →
  ∀ a, in_window a (a + 1000) g.(log).*2 ≤ Z.min o.(requestsPerSecond) o.(burst).
Proof.
  intros (g0 & H0 & ->) Hm a.
  destruct (run_rate o t evs g0 Hm (rate_init o t g0 H0)) as (t' & Hr). by apply Hr.
Qed.

Lemma governor_rate_witness :
  in_window 2 (2 + 1000) demo_governor.(log).*2 = 2 ∧
  in_window 2 (2 + 1000) demo_governor.(log).*2 ≤
    Z.min demo_limits.(requestsPerSecond) demo_limits.(burst).
Proof.
  split; [vm_compute; reflexivity|].
  apply (governor_rate demo_limits demo_events demo_governor 0); [apply demo_reachable|].
  simpl. lia.
Defined.

(** C34: order and progress.  Requests are admitted in call order, no waiting request
    was called before an admitted one, a waiting request is always woken by the armed
    timer or by the pending promise of a request that holds a slot, and [drain] needs
    no more recursion than there are requests waiting: it stops at an empty
    queue or for the exact reason the head of the queue cannot be admitted. *)
Theorem governor_fifo_progress o evs g :
  reachable o evs g →
  StronglySorted lt g.(log).*1 ∧
  (∀ i j, i ∈ g.(log).*1 → j ∈ g.(queue) → (i < j)%nat) ∧
  (g.(queue) ≠ [] → g.(timer) = true ∨ ∃ i r, g.(requests) !! i = Some r ∧ holds r = true ∧
     (r.(cont) = OnHook ∨ r.(cont) = OnSettle ∨ r.(cont) = OnFinally)) ∧
  ∀ now n, (length g.(queue) ≤ n)%nat →
    drain o n now g = drain_all o now g ∧ blocked o now (drain_all o now g).
Proof.
  intros Hr. pose proof (reachable_inv _ _ _ Hr) as [Hs Ha]. destruct Hr as (g0 & H0 & ->).
  split_and!; [apply Hs|apply Hs| |].
  - apply (awake_waker o); [|by split|].
    + unfold createWorkspaceRequestGovernor in H0. case_match eqn:E; [done|]. zbool. lia.
    + apply run_invariant; [|intros s e; apply step_awake]. left.
      unfold createWorkspaceRequestGovernor in H0. by case_match; simplify_eq/=.
  - intros now n Hn. split; [by apply drain_fuel|by apply drain_blocked].
Qed.

Lemma governor_fifo_progress_witness :
  StronglySorted lt demo_governor.(log).*1 ∧
  (∀ i j, i ∈ demo_governor.(log).*1 → j ∈ demo_governor.(queue) → (i < j)%nat) ∧
  (demo_governor.(queue) ≠ [] → demo_governor.(timer) = true ∨
     ∃ i r, demo_governor.(requests) !! i = Some r ∧ holds r = true ∧
       (r.(cont) = OnHook ∨ r.(cont) = OnSettle ∨ r.(cont) = OnFinally)) ∧
  ∀ now n, (length demo_governor.(queue) ≤ n)%nat →
    drain demo_limits n now demo_governor = drain_all demo_limits now demo_governor ∧
    blocked demo_limits now (drain_all demo_limits now demo_governor).
Proof. apply (governor_fifo_progress demo_limits demo_events), demo_reachable. Defined.

(** The external operation of a request starts at most once, its budget refund
    runs at most once, and never both; exactly the requests rejected before
    dispatch (cancelled, or refused by the hook) are refunded, and a rejection
    as cancelled means that no external call was ever started. *)
Theorem governor_refund_exactly_once o evs g i r :
  reachable o evs g → g.(requests) !! i = Some r →
  (0 ≤ r.(calls)) ∧ (0 ≤ r.(refunds)) ∧ r.(calls) + r.(refunds) ≤ 1 ∧
  (r.(refunds) = 1 ↔ r.(promise) = Some Cancelled ∨ r.(promise) = Some HookError) ∧
  (r.(calls) = 0 ∧ r.(refunds) = 0 ↔ r.(state) = queued ∨ r.(state) = pre_dispatch).
Proof.
  intros [_ Ha]%reachable_inv Hi. specialize (Ha i r Hi). unfold req_ok, untouched in Ha.
  destruct (state r).
  - destruct Ha as ((_ & _ & -> & -> & ->) & _). naive_solver lia.
  - destruct Ha as ((_ & _ & -> & -> & ->) & _). naive_solver lia.
  - destruct Ha as (_ & -> & -> & -> & _). naive_solver lia.
  - destruct Ha as (_ & _ & -> & -> & -> & _). naive_solver lia.
  - destruct Ha as (_ & _ & [(-> & -> & ->)|([-> | ->] & -> & ->)]); naive_solver lia.
Qed.

Definition demo_request : request :=
  default (new_request read HookReturns false false) (demo_governor.(requests) !! 1%nat).

Lemma governor_refund_exactly_once_witness :
  let r := demo_request in
  (0 ≤ r.(calls)) ∧ (0 ≤ r.(refunds)) ∧ r.(calls) + r.(refunds) ≤ 1 ∧
  (r.(refunds) = 1 ↔ r.(promise) = Some Cancelled ∨ r.(promise) = Some HookError) ∧
  (r.(calls) = 0 ∧ r.(refunds) = 0 ↔ r.(state) = queued ∨ r.(state) = pre_dispatch).
Proof.
  apply (governor_refund_exactly_once demo_limits demo_events demo_governor 1%nat demo_request);
    [apply demo_reachable|vm_compute; reflexivity].
Defined.
