(* ===== verification/SafeJson.v ===== *)
(** * Redaction and bounding of durable JSON evidence

    [harness/safe-json.ts].  A value is a finite tree here, so the cycle checks of the
    source ([seen]) never fire.  An object is normalised field by field and the
    surviving fields are then sorted by key, which is the order in which the source
    visits them. *)
From S2P Require Import Prelude Js.
Open Scope Z_scope.

Definition MAX_STRING : Z := 4096.
Definition MAX_ARRAY : Z := 128.
Definition MAX_DEPTH : Z := 12.

(** ** The key pattern *)

Fixpoint contains_sub (p s : jstr) : bool :=
  starts_with p s || match s with [] => false | _ :: s' => contains_sub p s' end.

Definition SENSITIVE_WORDS : list jstr :=
  u <$> ["authorization"; "cookie"; "header"; "secret"; "token"; "password";
         "apikey"; "api_key"; "api-key"; "bytes"; "binary"].

(** [SENSITIVE_KEY.test(key)]: the flag [i] without [u] folds ASCII letters only. *)
Definition SENSITIVE_KEY (key : jstr) : bool :=
  let k := ascii_lower <$> key in existsb (λ w, contains_sub w k) SENSITIVE_WORDS.

(** [/^\d+$/.test(key)] *)
Definition digits_only (key : jstr) : bool :=
  negb (bool_decide (key = [])) && forallb (λ c, (48 <=? c)%N && (c <=? 57)%N) key.

Definition byte_number (v : jsval) : bool :=
  match v with VNum (NumInt z) => (0 <=? z) && (z <=? 255) | _ => false end.

(** [record.type === "Buffer" && Array.isArray(record.data)] *)
Definition buffer_json (fs : list (jstr * jsval)) : bool :=
  match fields_get (u "type") fs, fields_get (u "data") fs with
  | Some (VStr t), Some (VArr _) => bool_decide (t = u "Buffer")
  | _, _ => false
  end.

(** An object that is a byte array in disguise. *)
Definition indexed_bytes (fs : list (jstr * jsval)) : bool :=
  negb (bool_decide (fs = [])) && forallb (λ f, digits_only f.1) fs &&
  forallb (λ f, byte_number f.2) fs.

(** [for (const key of keys.sort()) setJsonProperty(result, key, child)]. *)
Definition setJsonProperty (fs : list (jstr * jsval)) : list (jstr * jsval) := sort_fields fs.

(** ** Normalisation *)

Definition num (z : Z) : jsval := VNum (NumInt z).

(** [value.slice(0, n)] on a string. *)
Definition slice (n : Z) (s : jstr) : jstr := take (Z.to_nat n) s.
Definition str_length (s : jstr) : Z := Z.of_nat (length s).

Definition truncated_depth : jsval :=
  VObj [(u "truncated", VBool true); (u "reason", VStr (u "max_depth"))].
Definition truncated_items (n : Z) : jsval :=
  VObj [(u "truncated", VBool true); (u "originalItemCount", num n)].

(** [None] is [undefined]. *)
Fixpoint normalized (value : jsval) (depth : Z) : option jsval :=
  match value with
  | VNull | VBool _ | VNum _ => Some value
  | VStr s => Some (if str_length s <=? MAX_STRING then value
                    else VStr (slice (MAX_STRING - 1) s ++ [8230%N]))
  | VBytes _ | VBuffer => None
  | VArr l =>
      if MAX_DEPTH <=? depth then Some truncated_depth
      else
        let rows := (λ item, normalized item (depth + 1)) <$> l in
        Some (VArr (omap id (take (Z.to_nat MAX_ARRAY) rows) ++
          if MAX_ARRAY <? Z.of_nat (length l)
          then [truncated_items (Z.of_nat (length l))] else []))
  | VObj fs =>
      if buffer_json fs then None
      else if indexed_bytes fs then None
      else if MAX_DEPTH <=? depth then Some truncated_depth
      else Some (VObj (setJsonProperty
        (omap (λ f, if SENSITIVE_KEY f.1 then None
                    else v ← normalized f.2 (depth + 1); Some (f.1, v)) fs)))
  | VUndef | VFun => None
  end.

Fixpoint completeNormalized (value : jsval) : option jsval :=
  match value with
  | VNull | VBool _ | VNum _ | VStr _ => Some value
  | VBytes _ | VBuffer => None
  | VArr l => Some (VArr (omap completeNormalized l))
  | VObj fs =>
      if buffer_json fs then None
      else if indexed_bytes fs then None
      else Some (VObj (setJsonProperty
        (omap (λ f, if SENSITIVE_KEY f.1 then None
                    else v ← completeNormalized f.2; Some (f.1, v)) fs)))
  | VUndef | VFun => None
  end.

Definition sanitizeJson (value : jsval) : jsval := default VNull (normalized value 0).
Definition sanitizeCompleteJson (value : jsval) : jsval := default VNull (completeNormalized value).

(** ** The lossless boundary *)

Fixpoint sequence {A} (l : list (result A)) : result (list A) :=
  match l with
  | [] => Ok []
  | r :: l' => let! x := r in let! xs := sequence l' in Ok (x :: xs)
  end.

(** The fields in the order of the sorted keys, whatever is attached to them. *)
Definition key_le {A} (a b : jstr * A) : Prop := jstr_le a.1 b.1.
#[export] Instance key_le_dec {A} : RelDecision (@key_le A).
Proof. intros a b. unfold key_le. apply _. Defined.

Fixpoint exactNonsecret (value : jsval) : result jsval :=
  match value with
  | VNull | VBool _ | VStr _ => Ok value
  | VNum n =>
      match n with
      | NumNaN | NumInf _ => Throw "durable_evidence_non_json"
      | _ => Ok value
      end
  | VBytes _ | VBuffer => Throw "durable_evidence_binary"
  | VArr l => let! rows := sequence (exactNonsecret <$> l) in Ok (VArr rows)
  | VObj fs =>
      if buffer_json fs then Throw "durable_evidence_binary"
      else
        let! rows := sequence (snd <$> merge_sort key_le
          ((λ f, (f.1, if SENSITIVE_KEY f.1 then Throw "durable_evidence_sensitive"
                       else let! v := exactNonsecret f.2 in Ok (f.1, v))) <$> fs)) in
        Ok (VObj rows)
  | VUndef | VFun => Throw "durable_evidence_non_json"
  end.

Definition jsonByteLength (value : jsval) : Z := Z.of_N (utf8_length (stringify value)).

Definition exactNonsecretJson (value : jsval) (maxBytes : Z) : result jsval :=
  let! safe := exactNonsecret value in
  if maxBytes <? jsonByteLength safe then Throw "durable_evidence_too_large" else Ok safe.

(** ** Bounded previews *)

Definition candidate (value : jstr) (originalByteCount n : Z) : jsval :=
  VObj [(u "truncated", VBool true); (u "originalByteCount", num originalByteCount);
        (u "preview", VStr (slice n value))].

Section Preview.
Context (value : jstr) (originalByteCount maxBytes : Z).

(** The binary search; [high - low] bounds its iterations. *)
Fixpoint search (fuel : nat) (low high : Z) : Z :=
  match fuel with
  | O => low
  | S fuel =>
      if low <? high then
        let middle := (low + high + 1) / 2 in
        if jsonByteLength (candidate value originalByteCount middle) <=? maxBytes
        then search fuel middle high else search fuel low (middle - 1)
      else low
  end.

Definition boundedPreview : jsval :=
  let low := search (length value) 0 (str_length value) in
  let result := candidate value originalByteCount low in
  if jsonByteLength result <=? maxBytes then result
  else
    let minimal := VObj [(u "truncated", VBool true)] in
    if jsonByteLength minimal <=? maxBytes then minimal else VNull.
End Preview.

Definition bounded (safe : jsval) (maxBytes : Z) : jsval :=
  if jsonByteLength safe <=? maxBytes then safe
  else
    let encoded := stringify safe in
    boundedPreview encoded (Z.of_N (utf8_length encoded)) maxBytes.

Definition boundedSanitizedJson (value : jsval) (maxBytes : Z) : jsval :=
  bounded (sanitizeJson value) maxBytes.
Definition boundedCompleteSanitizedJson (value : jsval) (maxBytes : Z) : jsval :=
  bounded (sanitizeCompleteJson value) maxBytes.

(** [createHash("sha256")] is a parameter. *)
Definition sanitizedFingerprint (sha256 : jstr → jstr) (value : jsval) : jstr :=
  sha256 (stringify (sanitizeCompleteJson value)).

(** ** What the outputs promise *)

(** No sensitive key, no binary data and nothing [JSON.stringify] drops, anywhere. *)
Fixpoint redacted (v : jsval) : bool :=
  match v with
  | VNull | VBool _ | VNum _ | VStr _ => true
  | VArr l => forallb redacted l
  | VObj fs => forallb (λ f, negb (SENSITIVE_KEY f.1) && redacted f.2) fs
  | _ => false
  end.

(** Strings, arrays and nesting within the presentation limits, [fuel] levels left. *)
Fixpoint within_limits (fuel : nat) (v : jsval) {struct v} : bool :=
  match v with
  | VStr s => str_length s <=? MAX_STRING
  | VArr l =>
      match fuel with
      | O => false
      | S fuel => (Z.of_nat (length l) <=? MAX_ARRAY + 1) && forallb (within_limits fuel) l
      end
  | VObj fs =>
      match fuel with
      | O => false
      | S fuel => forallb (λ f, within_limits fuel f.2) fs
      end
  | _ => true
  end.

(** The same value with the fields of every object sorted by key. *)
Fixpoint canon (v : jsval) : jsval :=
  match v with
  | VArr l => VArr (canon <$> l)
  | VObj fs => VObj (sort_fields ((λ f, (f.1, canon f.2)) <$> fs))
  | _ => v
  end.

(** Nothing in it is taken for binary data. *)
Fixpoint undisguised (v : jsval) : bool :=
  match v with
  | VArr l => forallb undisguised l
  | VObj fs => negb (buffer_json fs) && negb (indexed_bytes fs) &&
               forallb (λ f, undisguised f.2) fs
  | _ => true
  end.

(** What the lossless boundary accepts. *)
Fixpoint clean (v : jsval) : bool :=
  match v with
  | VNull | VBool _ | VStr _ => true
  | VNum n => match n with NumNaN | NumInf _ => false | _ => true end
  | VArr l => forallb clean l
  | VObj fs => negb (buffer_json fs) && forallb (λ f, negb (SENSITIVE_KEY f.1) && clean f.2) fs
  | _ => false
  end.

Lemma forallb_elem {A} (p : A → bool) l : forallb p l = true ↔ ∀ x, x ∈ l → p x = true.
Proof. rewrite forallb_forall. by setoid_rewrite list_elem_of_In. Qed.

Lemma elem_of_sort_fields f fs : f ∈ sort_fields fs ↔ f ∈ fs.
Proof. by rewrite sort_fields_perm. Qed.

Lemma elem_take {A} (x : A) n l : x ∈ take n l → x ∈ l.
Proof. intros Hx. rewrite <- (take_drop n l). apply elem_of_app. by left. Qed.

Lemma normalized_redacted v : ∀ d w, normalized v d = Some w → redacted w = true.
Proof.
  induction v as [| | | |s|l IH|fs IH| | |] using jsval_rect'; simpl; intros d w; try done;
    try (intros [= <-]; done).
  - case_match; by intros [= <-].
  - rewrite Forall_forall in IH. case_match; [by intros [= <-]|].
    intros [= <-]. simpl. apply forallb_elem. intros x. rewrite elem_of_app. intros [Hx|Hx].
    + apply list_elem_of_omap in Hx as (o & Ho & [= ->]). apply elem_take in Ho.
      apply list_elem_of_fmap in Ho as (y & Hy & Hin). by eapply IH.
    + case_match; [|by apply elem_of_nil in Hx]. by apply list_elem_of_singleton in Hx as ->.
  - rewrite Forall_forall in IH. do 2 (case_match; [done|]).
    case_match; intros [= <-]; [done|]. simpl. apply forallb_elem.
    intros [k x]. unfold setJsonProperty. rewrite elem_of_sort_fields, list_elem_of_omap.
    intros ([k' y] & Hin & Hy). simpl in *. destruct (SENSITIVE_KEY k') eqn:Hk; [done|].
    destruct (normalized y (d + 1)) as [y'|] eqn:Hy'; simplify_eq/=. rewrite Hk. simpl.
    by eapply (IH (k, y)).
Qed.

Lemma complete_redacted v : ∀ w, completeNormalized v = Some w → redacted w = true.
Proof.
  induction v as [| | | |s|l IH|fs IH| | |] using jsval_rect'; simpl; intros w; try done;
    try (intros [= <-]; done); rewrite Forall_forall in IH.
  - intros [= <-]. simpl. apply forallb_elem. intros x Hx.
    apply list_elem_of_omap in Hx as (y & Hy & Hin). by eapply IH.
  - do 2 (case_match; [done|]). intros [= <-]. simpl. apply forallb_elem.
    intros [k x]. unfold setJsonProperty. rewrite elem_of_sort_fields, list_elem_of_omap.
    intros ([k' y] & Hin & Hy). simpl in *. destruct (SENSITIVE_KEY k') eqn:Hk; [done|].
    destruct (completeNormalized y) as [y'|] eqn:Hy'; simplify_eq/=. rewrite Hk. simpl.
    by eapply (IH (k, y)).
Qed.

Lemma normalized_within v : ∀ d w (n : nat),
  0 ≤ d ≤ MAX_DEPTH → Z.of_nat n = MAX_DEPTH + 1 - d →
  normalized v d = Some w → within_limits n w = true.
Proof.
  assert (∀ d (n : nat), 0 ≤ d ≤ MAX_DEPTH → Z.of_nat n = MAX_DEPTH + 1 - d →
    ∃ m, n = S m ∧ Z.of_nat m = MAX_DEPTH + 1 - (d + 1)) as Hn.
  { intros d [|m] Hd Hn; [unfold MAX_DEPTH in *; lia|]. exists m. split; [done|lia]. }
  induction v as [| | | |s|l IH|fs IH| | |] using jsval_rect'; simpl; intros d w lvl Hd Hdn; try done;
    try (intros [= <-]; by destruct lvl).
  - case_match eqn:E; intros [= <-]; destruct lvl; simpl; try done.
    all: unfold str_length, slice; rewrite length_app, length_take; unfold MAX_STRING;
      cbn [length]; apply Z.leb_le; lia.
  - rewrite Forall_forall in IH. destruct (Hn d lvl Hd Hdn) as (m & -> & Hm).
    destruct (Z.leb_spec MAX_DEPTH d); intros [= <-]; [by destruct m|].
    simpl. apply andb_true_iff; split.
    + apply Z.leb_le. rewrite length_app.
      assert (length (omap id (take (Z.to_nat MAX_ARRAY)
        ((λ item, normalized item (d + 1)) <$> l))) ≤ Z.to_nat MAX_ARRAY)%nat.
      { etrans; [apply omap_length_le|]. rewrite length_take. lia. }
      unfold MAX_ARRAY in *. case_match; simpl; lia.
    + apply forallb_elem. intros x. rewrite elem_of_app. intros [Hx|Hx].
      * apply list_elem_of_omap in Hx as (o & Ho & [= ->]). apply elem_take in Ho.
        apply list_elem_of_fmap in Ho as (y & Hy & Hin). eapply (IH y Hin (d + 1)); [lia|done|done].
      * case_match; [|by apply elem_of_nil in Hx].
        apply list_elem_of_singleton in Hx as ->. destruct m; [|done].
        unfold MAX_DEPTH in *. lia.
  - rewrite Forall_forall in IH. destruct (Hn d lvl Hd Hdn) as (m & -> & Hm).
    do 2 (case_match; [done|]).
    destruct (Z.leb_spec MAX_DEPTH d); intros [= <-]; [by destruct m|]. simpl. apply forallb_elem.
    intros [k x]. unfold setJsonProperty. rewrite elem_of_sort_fields, list_elem_of_omap.
    intros ([k' y] & Hin & Hy). simpl in *. destruct (SENSITIVE_KEY k'); [done|].
    destruct (normalized y (d + 1)) as [y'|] eqn:Hy'; simplify_eq/=.
    eapply (IH (k, y) Hin (d + 1)); [lia|done|done].
Qed.

Lemma omap_total {A B} (f : A → option B) (g : A → B) (l : list A) :
  (∀ x, x ∈ l → f x = Some (g x)) → omap f l = g <$> l.
Proof.
  induction l as [|x l IH]; intros Hf; csimpl; [done|].
  rewrite (Hf x) by set_solver. f_equal. apply IH. set_solver.
Qed.

Lemma complete_canon v :
  redacted v = true → undisguised v = true → completeNormalized v = Some (canon v).
Proof.
  induction v as [| | | |s|l IH|fs IH| | |] using jsval_rect'; simpl; try done;
    rewrite Forall_forall in IH.
  - rewrite !forallb_elem. intros Hr Hu. do 2 f_equal. apply omap_total. auto.
  - rewrite !andb_true_iff, !negb_true_iff, !forallb_elem. intros Hr [[-> ->] Hu].
    do 2 f_equal. unfold setJsonProperty. f_equal. apply omap_total.
    intros [k x] Hin. specialize (Hr _ Hin). apply andb_true_iff in Hr as [Hk%negb_true_iff Hr].
    pose proof (IH (k, x) Hin Hr (Hu _ Hin)) as Hx. simpl in *. by rewrite Hk, Hx.
Qed.

(** *** Sorting commutes with maps that keep the keys *)

Section SortMap.
Context {A B : Type} (RA : relation A) (RB : relation B) (f : A → B).
Context `{∀ x y, Decision (RA x y)} `{∀ x y, Decision (RB x y)}.
Context (Hf : ∀ x y, RB (f x) (f y) ↔ RA x y).

Lemma list_merge_fmap l1 l2 :
  list_merge RB (f <$> l1) (f <$> l2) = f <$> list_merge RA l1 l2.
Proof.
  revert l2. induction l1 as [|x l1 IH1]; intros l2; [by destruct l2|].
  induction l2 as [|y l2 IH2]; [done|]. simpl.
  destruct (decide (RA x y)) as [HR|HR]; [rewrite decide_True by (by apply Hf)|
    rewrite decide_False by (by rewrite Hf)]; csimpl; f_equal.
  - apply (IH1 (y :: l2)).
  - apply IH2.
Qed.

Lemma merge_sort_fmap l : merge_sort RB (f <$> l) = f <$> merge_sort RA l.
Proof.
  assert (∀ (st : list (option (list A))) (x : list A), merge_list_to_stack RB (fmap (M:=option) (fmap (M:=list) f) <$> st) (f <$> x) =
    fmap (M:=option) (fmap (M:=list) f) <$> merge_list_to_stack RA st x) as Hstack.
  { intros st. induction st as [|[l'|] st IH]; intros x; simpl; [done| |done].
    f_equal. etrans; [|apply IH]. f_equal. apply list_merge_fmap. }
  assert (∀ st : list (option (list A)), merge_stack RB (fmap (M:=option) (fmap (M:=list) f) <$> st) = f <$> merge_stack RA st) as Hms.
  { intros st. induction st as [|[l'|] st IH]; simpl; [done| |done].
    etrans; [|apply list_merge_fmap]. f_equal. apply IH. }
  assert (∀ (l : list A) (st : list (option (list A))), merge_sort_aux RB (fmap (M:=option) (fmap (M:=list) f) <$> st) (f <$> l) =
    f <$> merge_sort_aux RA st l) as Haux.
  { intros l'. induction l' as [|x l' IH]; intros st; simpl; [apply Hms|].
    etrans; [|apply IH]. f_equal. apply (Hstack st [x]). }
  apply (Haux l []).
Qed.
End SortMap.

Lemma sort_fields_fmap {B} (h : jstr * jsval → B) fs :
  merge_sort key_le ((λ f, (f.1, h f)) <$> fs) = (λ f, (f.1, h f)) <$> sort_fields fs.
Proof. by apply merge_sort_fmap. Qed.

(** *** The lossless boundary accepts exactly the clean values *)

Lemma sequence_ok {A} (l : list (result A)) rows : sequence l = Ok rows ↔ l = Ok <$> rows.
Proof.
  revert rows. induction l as [|[x|e] l IH]; intros rows; simpl.
  - split; [by intros [= <-]|]. by destruct rows.
  - rewrite rbind_ok. setoid_rewrite IH. split.
    + intros (xs & -> & [= <-]). done.
    + destruct rows as [|y rows]; [done|]. intros [= -> ->]. by exists rows.
  - split; [done|]. by destruct rows.
Qed.

Lemma map_ok {A B} (f : A → result B) (g : A → B) (P : A → bool) (l : list A) rows :
  (∀ x, x ∈ l → ∀ y, f x = Ok y ↔ P x = true ∧ y = g x) →
  f <$> l = Ok <$> rows ↔ forallb P l = true ∧ rows = g <$> l.
Proof.
  revert rows. induction l as [|x l IH]; intros rows Hf; csimpl.
  - destruct rows; naive_solver.
  - rewrite andb_true_iff. split.
    + destruct rows as [|y rows]; [done|]. csimpl. intros [= Hx Hl].
      apply Hf in Hx as [? ->]; [|by left]. apply IH in Hl as [? ->]; [done|]. set_solver.
    + intros [[HP Hl] ->]. csimpl. f_equal; [by apply Hf; [left|]|].
      apply IH; [set_solver|done].
Qed.

Lemma forallb_sort (P : jstr * jsval → bool) fs :
  forallb P (sort_fields fs) = true ↔ forallb P fs = true.
Proof. rewrite !forallb_elem. by setoid_rewrite elem_of_sort_fields. Qed.

Lemma canon_fields fs :
  sort_fields ((λ f, (f.1, canon f.2)) <$> fs) = (λ f, (f.1, canon f.2)) <$> sort_fields fs.
Proof. by apply merge_sort_fmap. Qed.

Lemma exact_ok v w : exactNonsecret v = Ok w ↔ clean v = true ∧ w = canon v.
Proof.
  revert w. induction v as [| | |n|s|l IH|fs IH| | |] using jsval_rect'; simpl; intros w;
    try naive_solver.
  - destruct n; naive_solver.
  - rewrite Forall_forall in IH. rewrite rbind_ok. setoid_rewrite sequence_ok.
    setoid_rewrite (map_ok exactNonsecret canon clean); [|by intros x Hx y; apply IH].
    naive_solver.
  - rewrite Forall_forall in IH. destruct (buffer_json fs); simpl; [naive_solver|].
    rewrite rbind_ok. setoid_rewrite sequence_ok. rewrite sort_fields_fmap.
    rewrite <- list_fmap_compose, canon_fields.
    setoid_rewrite (map_ok _ (λ f, (f.1, canon f.2)) (λ f, negb (SENSITIVE_KEY f.1) && clean f.2)).
    + setoid_rewrite forallb_sort. naive_solver.
    + intros [k x] Hx y. rewrite elem_of_sort_fields in Hx. simpl.
      destruct (SENSITIVE_KEY k); simpl; [naive_solver|].
      rewrite rbind_ok. setoid_rewrite (IH (k, x) Hx). naive_solver.
Qed.

(** *** The binary search of the preview *)

Section Search.
Context (value : jstr) (count maxBytes : Z).

Definition fits (n : Z) : Prop := jsonByteLength (candidate value count n) ≤ maxBytes.

Lemma search_spec fuel low high :
  low ≤ high → high - low ≤ Z.of_nat fuel →
  let r := search value count maxBytes fuel low high in
  low ≤ r ≤ high ∧ (r = low ∨ fits r) ∧ (r = high ∨ ¬ fits (r + 1)).
Proof.
  revert low high. induction fuel as [|fuel IH]; intros low high Hle Hf; cbn [search]; cbv zeta.
  - assert (low = high) as -> by lia. auto with lia.
  - destruct (Z.ltb_spec low high); [|assert (low = high) as -> by lia; auto with lia].
    set (m := (low + high + 1) / 2). assert (low < m ≤ high) as Hm by (unfold m; zdiv).
    destruct (Z.leb_spec (jsonByteLength (candidate value count m)) maxBytes) as [Hfit|Hbig].
    + destruct (IH m high ltac:(lia) ltac:(lia)) as (? & [->|?] & ?); cbv zeta in *.
      * split_and!; [lia|lia|by right|done].
      * split_and!; [lia|lia|by right|done].
    + destruct (IH low (m - 1) ltac:(lia) ltac:(lia)) as (? & ? & [Hr|?]); cbv zeta in *.
      * split_and!; [lia|lia|done|]. right. rewrite Hr, Z.sub_add. unfold fits. lia.
      * split_and!; [lia|lia|done|by right].
Qed.
End Search.

(** The three shapes of a cut value. *)
Definition preview_of (encoded : jstr) (count maxBytes : Z) (w : jsval) : Prop :=
  w = VNull ∨ w = VObj [(u "truncated", VBool true)] ∨
  ∃ n, w = candidate encoded count n ∧ 0 ≤ n ≤ str_length encoded ∧
       (n = str_length encoded ∨ ¬ fits encoded count maxBytes (n + 1)).

Lemma preview_redacted encoded count maxBytes w :
  preview_of encoded count maxBytes w → redacted w = true.
Proof. intros [->|[->|(n & -> & _)]]; vm_compute; reflexivity. Qed.

Lemma boundedPreview_spec encoded count maxBytes :
  4 ≤ maxBytes →
  let w := boundedPreview encoded count maxBytes in
  jsonByteLength w ≤ maxBytes ∧ preview_of encoded count maxBytes w.
Proof.
  intros Hmax. unfold boundedPreview. cbv zeta.
  destruct (search_spec encoded count maxBytes (length encoded) 0 (str_length encoded)) as (Hr & _ & Hhi);
    [unfold str_length; lia|unfold str_length; lia|]. cbv zeta in *.
  set (r := search _ _ _ _ _ _) in *.
  destruct (Z.leb_spec (jsonByteLength (candidate encoded count r)) maxBytes) as [Hfit|_].
  { split; [done|]. right; right. by exists r. }
  destruct (Z.leb_spec (jsonByteLength (VObj [(u "truncated", VBool true)])) maxBytes).
  - split; [done|]. by right; left.
  - split; [|by left]. etrans; [|exact Hmax]. vm_compute. done.
Qed.

Lemma bounded_spec safe maxBytes :
  4 ≤ maxBytes → redacted safe = true →
  let w := bounded safe maxBytes in
  jsonByteLength w ≤ maxBytes ∧ redacted w = true ∧
  (jsonByteLength safe ≤ maxBytes → w = safe) ∧
  (maxBytes < jsonByteLength safe →
     preview_of (stringify safe) (jsonByteLength safe) maxBytes w).
Proof.
  intros Hmax Hred. unfold bounded. cbv zeta. fold (jsonByteLength safe).
  destruct (Z.leb_spec (jsonByteLength safe) maxBytes) as [Hfit|Hbig].
  - split_and!; auto with lia.
  - destruct (boundedPreview_spec (stringify safe) (jsonByteLength safe) maxBytes Hmax) as [Hle Hp].
    cbv zeta in *. fold (jsonByteLength safe). split_and!; [done| |lia|done].
    by eapply preview_redacted.
Qed.

Lemma sanitized_redacted v : redacted (sanitizeJson v) = true ∧ redacted (sanitizeCompleteJson v) = true.
Proof.
  unfold sanitizeJson, sanitizeCompleteJson. split.
  - destruct (normalized v 0) eqn:E; [by eapply normalized_redacted|done].
  - destruct (completeNormalized v) eqn:E; [by eapply complete_redacted|done].
Qed.

(** ** Theorems *)

(** Redaction.  Whatever the input, neither sanitiser leaves a sensitive key or
    binary data at any depth; the presentation sanitiser also bounds strings, arrays
    and nesting (one level below [MAX_DEPTH] for the marker objects); and the complete
    sanitiser loses nothing else: a value without sensitive keys or binary data
    is returned whole, with its keys sorted. *)
Theorem sanitizers_redact v :
  redacted (sanitizeJson v) = true ∧ redacted (sanitizeCompleteJson v) = true ∧
  within_limits (Z.to_nat (MAX_DEPTH + 1)) (sanitizeJson v) = true ∧
  (redacted v = true → undisguised v = true → sanitizeCompleteJson v = canon v).
Proof.
  destruct (sanitized_redacted v). split_and!; [done|done| |].
  - unfold sanitizeJson. destruct (normalized v 0) eqn:E; [|done]. simpl.
    eapply (normalized_within v 0); [unfold MAX_DEPTH; lia|done|done].
  - intros Hr Hu. unfold sanitizeCompleteJson. by rewrite complete_canon.
Qed.

Definition demo_evidence : jsval :=
  VObj [(u "name", VStr (u "Acme")); (u "ids", VArr [num 7; num 8]);
        (u "client", VObj [(u "b", VNull); (u "a", VBool true)])].

Lemma sanitizers_redact_witness :
  redacted (sanitizeJson demo_evidence) = true ∧
  redacted (sanitizeCompleteJson demo_evidence) = true ∧
  within_limits (Z.to_nat (MAX_DEPTH + 1)) (sanitizeJson demo_evidence) = true ∧
  sanitizeCompleteJson demo_evidence = canon demo_evidence.
Proof.
  destruct (sanitizers_redact demo_evidence) as (H1 & H2 & H3 & H4).
  split_and!; [exact H1|exact H2|exact H3|apply H4; vm_compute; reflexivity].
Defined.

(** The byte cap.  For a cap of at least the four bytes of [null], both bounded
    sanitisers return a redacted value that encodes within the cap; it is the sanitised
    value itself when that fits, and otherwise [null], a bare marker, or a
    preview that could not be one unit longer. *)
Theorem bounded_output v maxBytes :
  4 ≤ maxBytes →
  ∀ safe w, (safe = sanitizeJson v ∧ w = boundedSanitizedJson v maxBytes) ∨
            (safe = sanitizeCompleteJson v ∧ w = boundedCompleteSanitizedJson v maxBytes) →
  jsonByteLength w ≤ maxBytes ∧ redacted w = true ∧
  (jsonByteLength safe ≤ maxBytes → w = safe) ∧
  (maxBytes < jsonByteLength safe →
     preview_of (stringify safe) (jsonByteLength safe) maxBytes w).
Proof.
  intros Hmax safe w [[-> ->]|[-> ->]]; apply bounded_spec; try done; apply sanitized_redacted.
Qed.

Lemma bounded_output_witness :
  let w := boundedSanitizedJson demo_evidence 50 in
  50 < jsonByteLength (sanitizeJson demo_evidence) ∧
  jsonByteLength w ≤ 50 ∧ redacted w = true ∧
  (jsonByteLength (sanitizeJson demo_evidence) ≤ 50 → w = sanitizeJson demo_evidence) ∧
  (50 < jsonByteLength (sanitizeJson demo_evidence) →
     preview_of (stringify (sanitizeJson demo_evidence))
       (jsonByteLength (sanitizeJson demo_evidence)) 50 w).
Proof.
  split; [vm_compute; reflexivity|].
  apply (bounded_output demo_evidence 50); [lia|]. left. split; reflexivity.
Defined.

(** The lossless boundary.  [exactNonsecretJson] accepts exactly the JSON values
    that contain no sensitive key, no binary data and no non-finite number and whose
    encoding fits; what it returns is the value itself with sorted keys, and
    nothing is truncated. *)
Theorem exact_nonsecret_lossless v maxBytes w :
  exactNonsecretJson v maxBytes = Ok w ↔
  clean v = true ∧ w = canon v ∧ jsonByteLength (canon v) ≤ maxBytes.
Proof.
  unfold exactNonsecretJson. rewrite rbind_ok. setoid_rewrite exact_ok. split.
  - intros (s & [Hc ->] & Hw).
    destruct (Z.ltb_spec maxBytes (jsonByteLength (canon v))); [done|]. by injection Hw as <-.
  - intros (Hc & -> & Hle). exists (canon v). split; [done|].
    by rewrite (proj2 (Z.ltb_ge _ _) Hle).
Qed.
