(* ===== verification/Coordinator.v ===== *)
(** * The workspace mutation coordinator

    [clockify/workspace-mutation-coordinator.ts].  The [WorkspaceState] objects live in
    a heap ([epochs]) because a retired one is still mutated through the leases that
    captured it; leases, drain promises and deletions are tables of the closures
    handed out.  A drain promise is the set of epochs it still waits for, so the
    [drainWaiters] of an epoch are the promises whose set contains it. *)
From S2P Require Import Prelude.
Open Scope Z_scope.

(** ** Data *)

(** [WorkspaceState], with the workspace it was made for. *)
Record epoch := {
  workspace : string;
  generation : Z;
  blocked : bool;
  aborted : bool;
  leases : gset nat;
  nextLease : nat;
}.

(** The closure of [acquire]: the captured state, its lease id, the [released] flag. *)
Record lease := { lease_epoch : nat; leaseId : nat; released : bool }.

(** A promise of [workspaceDrain]; [taken_before] is the number of leases handed out
    when it was created (a history variable). *)
Record drain := { drain_ws : string; waits_for : gset nat; taken_before : nat }.

(** The closure of an owning [beginDeletion]. *)
Record deletion := { deletion_ws : string; drained : nat; finished : bool; completed : bool }.

Record coordinator := {
  epochs : list epoch;
  states : gmap string nat;
  retiredStates : gmap string (gset nat);
  deletions : gmap string nat;
  lease_table : list lease;
  drain_table : list drain;
  deletion_table : list deletion;
}.

Definition createWorkspaceMutationCoordinator : coordinator :=
  {| epochs := []; states := ∅; retiredStates := ∅; deletions := ∅;
     lease_table := []; drain_table := []; deletion_table := [] |}.

Definition activeState (ws : string) (g : Z) : epoch :=
  {| workspace := ws; generation := g; blocked := false; aborted := false;
     leases := ∅; nextLease := 1 |}.

Definition revoked {A} : result A := Throw "workspace_mutation_revoked".

(** ** Field updates *)

Definition abort_epoch (e : epoch) : epoch :=
  {| workspace := e.(workspace); generation := e.(generation); blocked := e.(blocked);
     aborted := true; leases := e.(leases); nextLease := e.(nextLease) |}.
Definition block_epoch (e : epoch) : epoch :=
  {| workspace := e.(workspace); generation := e.(generation); blocked := true;
     aborted := e.(aborted); leases := e.(leases); nextLease := e.(nextLease) |}.
Definition take_lease (e : epoch) : epoch :=
  {| workspace := e.(workspace); generation := e.(generation); blocked := e.(blocked);
     aborted := e.(aborted); leases := {[e.(nextLease)]} ∪ e.(leases);
     nextLease := S e.(nextLease) |}.
Definition drop_lease (i : nat) (e : epoch) : epoch :=
  {| workspace := e.(workspace); generation := e.(generation); blocked := e.(blocked);
     aborted := e.(aborted); leases := e.(leases) ∖ {[i]}; nextLease := e.(nextLease) |}.

Definition with_epochs (es : list epoch) (c : coordinator) : coordinator :=
  {| epochs := es; states := c.(states); retiredStates := c.(retiredStates);
     deletions := c.(deletions); lease_table := c.(lease_table);
     drain_table := c.(drain_table); deletion_table := c.(deletion_table) |}.
Definition with_states (m : gmap string nat) (c : coordinator) : coordinator :=
  {| epochs := c.(epochs); states := m; retiredStates := c.(retiredStates);
     deletions := c.(deletions); lease_table := c.(lease_table);
     drain_table := c.(drain_table); deletion_table := c.(deletion_table) |}.
Definition with_retired (m : gmap string (gset nat)) (c : coordinator) : coordinator :=
  {| epochs := c.(epochs); states := c.(states); retiredStates := m;
     deletions := c.(deletions); lease_table := c.(lease_table);
     drain_table := c.(drain_table); deletion_table := c.(deletion_table) |}.
Definition with_leases (l : list lease) (c : coordinator) : coordinator :=
  {| epochs := c.(epochs); states := c.(states); retiredStates := c.(retiredStates);
     deletions := c.(deletions); lease_table := l;
     drain_table := c.(drain_table); deletion_table := c.(deletion_table) |}.
Definition with_drains (l : list drain) (c : coordinator) : coordinator :=
  {| epochs := c.(epochs); states := c.(states); retiredStates := c.(retiredStates);
     deletions := c.(deletions); lease_table := c.(lease_table);
     drain_table := l; deletion_table := c.(deletion_table) |}.
Definition with_deletions (m : gmap string nat) (l : list deletion) (c : coordinator) : coordinator :=
  {| epochs := c.(epochs); states := c.(states); retiredStates := c.(retiredStates);
     deletions := m; lease_table := c.(lease_table);
     drain_table := c.(drain_table); deletion_table := l |}.

(** [states.set(workspaceId, activeState(generation))] with a fresh object. *)
Definition new_state (e : epoch) (c : coordinator) : coordinator :=
  with_states (<[e.(workspace) := length c.(epochs)]> c.(states)) (with_epochs (c.(epochs) ++ [e]) c).

Definition set_epoch (i : nat) (e : epoch) (c : coordinator) : coordinator :=
  with_epochs (<[i := e]> c.(epochs)) c.

(** ** Drains *)

Definition settle_drain (i : nat) (d : drain) : drain :=
  {| drain_ws := d.(drain_ws); waits_for := d.(waits_for) ∖ {[i]}; taken_before := d.(taken_before) |}.

Definition leases_of (c : coordinator) (i : nat) : gset nat :=
  match c.(epochs) !! i with Some e => e.(leases) | None => ∅ end.

Definition resolveDrain (i : nat) (c : coordinator) : coordinator :=
  if bool_decide (leases_of c i = ∅)
  then with_drains (settle_drain i <$> c.(drain_table)) c else c.

(** The epochs a drain of the workspace looks at: the current one and the retired. *)
Definition workspace_epochs (ws : string) (c : coordinator) : gset nat :=
  match c.(states) !! ws with Some i => {[i]} | None => ∅ end ∪
  default ∅ (c.(retiredStates) !! ws).

(** [stateDrain] of an epoch without leases is already resolved. *)
Definition workspaceDrain (ws : string) (c : coordinator) : coordinator :=
  with_drains (c.(drain_table) ++
    [{| drain_ws := ws;
        waits_for := filter (λ i, leases_of c i ≠ ∅) (workspace_epochs ws c);
        taken_before := length c.(lease_table) |}]) c.

(** ** Operations *)

Definition block (ws : string) (c : coordinator) : coordinator :=
  match c.(states) !! ws with
  | None => new_state (abort_epoch (block_epoch (activeState ws 0))) c
  | Some i =>
      match c.(epochs) !! i with
      | None => c
      | Some e => resolveDrain i (set_epoch i (abort_epoch (block_epoch e)) c)
      end
  end.

Definition max_safe : Z := 2 ^ 53 - 1.

Definition activate (ws : string) (g : Z) (c : coordinator) : result coordinator :=
  guard! (1 <=? g) && (g <=? max_safe)
    else "Installation generation must be a positive safe integer." in
  match c.(deletions) !! ws with
  | Some _ => revoked
  | None =>
      match c.(states) !! ws with
      | None => Ok (new_state (activeState ws g) c)
      | Some i =>
          match c.(epochs) !! i with
          | None => Ok c
          | Some e =>
              if g <? e.(generation) then Throw "Installation generation cannot move backwards."
              else if (g =? e.(generation)) && negb e.(blocked) then Ok c
              else if g =? e.(generation) then revoked
              else
                let c := set_epoch i (abort_epoch e) c in
                let c := if bool_decide (e.(leases) = ∅) then c
                         else with_retired (<[ws := {[i]} ∪ default ∅ (c.(retiredStates) !! ws)]>
                                              c.(retiredStates)) c in
                Ok (new_state (activeState ws g) c)
          end
      end
  end.

(** The lazy seeding shared by [observe] and [acquire]. *)
Definition seed (ws : string) (g : Z) (c : coordinator) : coordinator :=
  match c.(states) !! ws with
  | Some _ => c
  | None => new_state (activeState ws g) c
  end.

(** Returns the epoch whose revocation signal the caller gets. *)
Definition observe (ws : string) (g : Z) (c : coordinator) : coordinator * result nat :=
  let c := seed ws g c in
  match c.(states) !! ws with
  | None => (c, revoked)
  | Some i =>
      match c.(epochs) !! i with
      | None => (c, revoked)
      | Some e => if e.(blocked) || negb (e.(generation) =? g) then (c, revoked) else (c, Ok i)
      end
  end.

(** Returns the index of the new lease. *)
Definition acquire (ws : string) (g : Z) (c : coordinator) : coordinator * result nat :=
  match observe ws g c with
  | (c, Throw m) => (c, Throw m)
  | (c, Ok i) =>
      match c.(epochs) !! i with
      | None => (c, revoked)
      | Some e =>
          (with_leases (c.(lease_table) ++
              [{| lease_epoch := i; leaseId := e.(nextLease); released := false |}])
             (set_epoch i (take_lease e) c), Ok (length c.(lease_table)))
      end
  end.

(** The retired epoch leaves the books with its last lease. *)
Definition forget_retired (i : nat) (c : coordinator) : coordinator :=
  match c.(epochs) !! i with
  | None => c
  | Some e =>
      if bool_decide (e.(leases) = ∅) && bool_decide (c.(states) !! e.(workspace) ≠ Some i) then
        match c.(retiredStates) !! e.(workspace) with
        | None => c
        | Some r =>
            let r := r ∖ {[i]} in
            with_retired (if bool_decide (r = ∅) then delete e.(workspace) c.(retiredStates)
                          else <[e.(workspace) := r]> c.(retiredStates)) c
        end
      else c
  end.

Definition release (l : nat) (c : coordinator) : coordinator :=
  match c.(lease_table) !! l with
  | None => c
  | Some x =>
      if x.(released) then c
      else
        let c := with_leases (<[l := {| lease_epoch := x.(lease_epoch); leaseId := x.(leaseId);
                                        released := true |}]> c.(lease_table)) c in
        match c.(epochs) !! x.(lease_epoch) with
        | None => c
        | Some e =>
            let i := x.(lease_epoch) in
            forget_retired i (resolveDrain i (set_epoch i (drop_lease x.(leaseId) e) c))
        end
  end.

Definition blockAndDrain (ws : string) (c : coordinator) : coordinator :=
  workspaceDrain ws (block ws c).

(** Returns [owner] and the deletion joined. *)
Definition beginDeletion (ws : string) (c : coordinator) : coordinator * (bool * nat) :=
  match c.(deletions) !! ws with
  | Some d => (c, (false, d))
  | None =>
      let c := blockAndDrain ws c in
      let d := length c.(deletion_table) in
      (with_deletions (<[ws := d]> c.(deletions))
         (c.(deletion_table) ++ [{| deletion_ws := ws; drained := length c.(drain_table) - 1;
                                    finished := false; completed := false |}]) c, (true, d))
  end.

Definition finish (d : nat) (c : coordinator) : coordinator :=
  match c.(deletion_table) !! d with
  | None => c
  | Some x => with_deletions c.(deletions)
      (<[d := {| deletion_ws := x.(deletion_ws); drained := x.(drained);
                 finished := true; completed := x.(completed) |}]> c.(deletion_table)) c
  end.

Definition is_drained (k : nat) (c : coordinator) : bool :=
  match c.(drain_table) !! k with Some d => bool_decide (d.(waits_for) = ∅) | None => false end.

(** The continuation [drained.then(...)] of a finished deletion. *)
Definition complete (d : nat) (c : coordinator) : coordinator :=
  match c.(deletion_table) !! d with
  | None => c
  | Some x =>
      if x.(finished) && negb x.(completed) && is_drained x.(drained) c then
        with_deletions
          (if bool_decide (c.(deletions) !! x.(deletion_ws) = Some d)
           then delete x.(deletion_ws) c.(deletions) else c.(deletions))
          (<[d := {| deletion_ws := x.(deletion_ws); drained := x.(drained);
                     finished := true; completed := true |}]> c.(deletion_table)) c
      else c
  end.

(** Whether an install has to wait, as [waitForDeletion] answers. *)
Definition waitForDeletion (ws : string) (c : coordinator) : option nat := c.(deletions) !! ws.

(** ** Events *)

Inductive event : Set :=
| Activate (ws : string) (g : Z)
| Observe (ws : string) (g : Z)
| Acquire (ws : string) (g : Z)
| Release (l : nat)
| Block (ws : string)
| BlockAndDrain (ws : string)
| BeginDeletion (ws : string)
| Finish (d : nat)
| Complete (d : nat).

Definition step (c : coordinator) (e : event) : coordinator :=
  match e with
  | Activate ws g => match activate ws g c with Ok c' => c' | Throw _ => c end
  | Observe ws g => (observe ws g c).1
  | Acquire ws g => (acquire ws g c).1
  | Release l => release l c
  | Block ws => block ws c
  | BlockAndDrain ws => blockAndDrain ws c
  | BeginDeletion ws => (beginDeletion ws c).1
  | Finish d => finish d c
  | Complete d => complete d c
  end.

(** ** Lifecycle ordering

    [runLifecycle] runs the operations of a workspace one after the other; with an
    ordering, an operation older than the latest one that ran is answered stale. *)
Inductive lifecycle_result : Set := Invalid | Stale | Ran.

Definition lifecycle_turn (latest : Z) (ordering : option Z) : Z * lifecycle_result :=
  match ordering with
  | None => (latest, Ran)
  | Some s =>
      if negb ((1 <=? s) && (s <=? max_safe)) then (latest, Invalid)
      else if s <? latest then (latest, Stale)
      else (s, Ran)
  end.

Fixpoint lifecycle_turns (latest : Z) (orders : list (option Z)) : list (option Z * lifecycle_result) :=
  match orders with
  | [] => []
  | o :: orders' =>
      let '(latest', r) := lifecycle_turn latest o in (o, r) :: lifecycle_turns latest' orders'
  end.

(** ** Invariant *)

Definition lease_of (c : coordinator) (l i k : nat) (b : bool) : Prop :=
  c.(lease_table) !! l = Some {| lease_epoch := i; leaseId := k; released := b |}.

Record epochs_ok (c : coordinator) : Prop := {
  eo_current : ∀ ws i, c.(states) !! ws = Some i →
    ∃ e, c.(epochs) !! i = Some e ∧ e.(workspace) = ws;
  eo_retired : ∀ ws r i, c.(retiredStates) !! ws = Some r → i ∈ r →
    c.(states) !! ws ≠ Some i ∧ ∃ e, c.(epochs) !! i = Some e ∧ e.(workspace) = ws;
  eo_counted : ∀ i e, c.(epochs) !! i = Some e → e.(leases) ≠ ∅ →
    i ∈ workspace_epochs e.(workspace) c;
  eo_aborted : ∀ i e, c.(epochs) !! i = Some e →
    e.(blocked) = true ∨ c.(states) !! e.(workspace) ≠ Some i → e.(aborted) = true;
}.

Record leases_ok (c : coordinator) : Prop := {
  lo_known : ∀ l i k b, lease_of c l i k b →
    ∃ e, c.(epochs) !! i = Some e ∧ (k < e.(nextLease))%nat;
  lo_live : ∀ i e k, c.(epochs) !! i = Some e →
    k ∈ e.(leases) ↔ ∃ l, lease_of c l i k false;
  lo_unique : ∀ l l' i k b b', lease_of c l i k b → lease_of c l' i k b' → l = l';
}.

(** An epoch whose leases can only disappear. *)
Definition closed_epoch (c : coordinator) (i : nat) : Prop :=
  ∃ e, c.(epochs) !! i = Some e ∧ (e.(blocked) = true ∨ c.(states) !! e.(workspace) ≠ Some i).

Definition drain_ok (c : coordinator) (d : drain) : Prop :=
  (d.(taken_before) ≤ length c.(lease_table))%nat ∧
  (∀ i, i ∈ d.(waits_for) → closed_epoch c i ∧ leases_of c i ≠ ∅ ∧
     (∃ e, c.(epochs) !! i = Some e ∧ e.(workspace) = d.(drain_ws)) ∧
     ∀ l k b, lease_of c l i k b → (l < d.(taken_before))%nat) ∧
  (∀ l i k e, lease_of c l i k false → (l < d.(taken_before))%nat →
     c.(epochs) !! i = Some e → e.(workspace) = d.(drain_ws) → i ∈ d.(waits_for)).

Record deletions_ok (c : coordinator) : Prop := {
  do_pending : ∀ ws n, c.(deletions) !! ws = Some n →
    ∃ x d, c.(deletion_table) !! n = Some x ∧ x.(deletion_ws) = ws ∧
      c.(drain_table) !! x.(drained) = Some d ∧ d.(drain_ws) = ws ∧
      (∀ l i k b e, lease_of c l i k b → c.(epochs) !! i = Some e → e.(workspace) = ws →
         (l < d.(taken_before))%nat);
  do_blocked : ∀ ws n, c.(deletions) !! ws = Some n →
    ∃ i e, c.(states) !! ws = Some i ∧ c.(epochs) !! i = Some e ∧ e.(blocked) = true;
}.

Record Inv (c : coordinator) : Prop := {
  inv_epochs : epochs_ok c;
  inv_leases : leases_ok c;
  inv_drains : ∀ n d, c.(drain_table) !! n = Some d → drain_ok c d;
  inv_deletions : deletions_ok c;
}.

Lemma coordinator_init : Inv createWorkspaceMutationCoordinator.
Proof.
  unfold createWorkspaceMutationCoordinator. split; [split|split| |split]; simpl;
    unfold lease_of; simpl; intros *; rewrite ?lookup_empty, ?lookup_nil; try done.
Qed.

(** *** Changing only the flags of an epoch, monotonically *)

Definition same_books (e e' : epoch) : Prop :=
  e'.(workspace) = e.(workspace) ∧ e'.(generation) = e.(generation) ∧
  e'.(leases) = e.(leases) ∧ e'.(nextLease) = e.(nextLease).

Lemma leases_of_flags i e e' c j :
  c.(epochs) !! i = Some e → e'.(leases) = e.(leases) →
  leases_of (set_epoch i e' c) j = leases_of c j.
Proof.
  intros Hi Hl. unfold leases_of; simpl. rewrite (lookup_insert_if _ _ e) by done.
  case_decide; subst; [by rewrite Hi|done].
Qed.

Lemma epochs_flags i e e' c :
  c.(epochs) !! i = Some e → same_books e e' →
  (e.(blocked) = true → e'.(blocked) = true) →
  ∀ j x, (set_epoch i e' c).(epochs) !! j = Some x →
    ∃ y, c.(epochs) !! j = Some y ∧ same_books y x ∧ (y.(blocked) = true → x.(blocked) = true) ∧
      (x = y ∨ (j = i ∧ x = e')).
Proof.
  intros Hi Hs Hb j x. simpl. rewrite (lookup_insert_if _ _ e) by done.
  case_decide; subst; [intros [= <-]; by exists e; auto 10|intros Hx; exists x].
  unfold same_books. auto 10.
Qed.

Lemma epochs_flags_inv i e e' c :
  c.(epochs) !! i = Some e → same_books e e' →
  (e.(blocked) = true → e'.(blocked) = true) →
  ∀ j y, c.(epochs) !! j = Some y →
    ∃ x, (set_epoch i e' c).(epochs) !! j = Some x ∧ same_books y x ∧
      (y.(blocked) = true → x.(blocked) = true).
Proof.
  intros Hi Hs Hb j y Hy. simpl. rewrite (lookup_insert_if _ _ e) by done.
  case_decide; subst.
  - exists e'. split; [done|]. by simplify_eq.
  - exists y. unfold same_books. auto 10.
Qed.

Lemma inv_flags i e e' c :
  Inv c → c.(epochs) !! i = Some e → same_books e e' →
  (e.(blocked) = true → e'.(blocked) = true) →
  (e'.(aborted) = true ∨ (e.(aborted) = e'.(aborted) ∧ e.(blocked) = e'.(blocked))) →
  Inv (set_epoch i e' c).
Proof.
  intros [[Hc Hr Hn Ha] [Hk Hl Hu] Hd [Hp Hb']] Hi Hs Hb Hab.
  pose proof (epochs_flags i e e' c Hi Hs Hb) as Hto.
  pose proof (epochs_flags_inv i e e' c Hi Hs Hb) as Hfrom.
  assert (∀ j x y, (set_epoch i e' c).(epochs) !! j = Some x → c.(epochs) !! j = Some y →
    same_books y x) as Hsame.
  { intros j x y Hx Hy. destruct (Hto j x Hx) as (y' & Hy' & ? & _). by simplify_eq. }
  split; [split|split| |split].
  - intros ws j Hj. destruct (Hc ws j Hj) as (y & Hy & Hw).
    destruct (Hfrom j y Hy) as (x & Hx & (Hw' & _) & _). exists x. split; [done|congruence].
  - intros ws r j Hrr Hj. destruct (Hr ws r j Hrr Hj) as (Hne & y & Hy & Hw). split; [done|].
    destruct (Hfrom j y Hy) as (x & Hx & (Hw' & _) & _). exists x. split; [done|congruence].
  - intros j x Hx. destruct (Hto j x Hx) as (y & Hy & (Hw & _ & Hll & _) & _).
    rewrite Hll, Hw. by apply Hn.
  - intros j x Hx. destruct (Hto j x Hx) as (y & Hy & (Hw & _) & Hbb & [->|[-> ->]]).
    + by apply Ha.
    + simplify_eq. destruct Hab as [?|[<- <-]]; [done|]. rewrite Hw. by apply Ha.
  - intros l j k b Hlk. destruct (Hk l j k b Hlk) as (y & Hy & Hlt).
    destruct (Hfrom j y Hy) as (x & Hx & (_ & _ & _ & Hnx) & _). exists x. by rewrite Hnx.
  - intros j x k Hx. destruct (Hto j x Hx) as (y & Hy & (_ & _ & -> & _) & _). by apply Hl.
  - exact Hu.
  - intros n d Hnd. destruct (Hd n d Hnd) as (Ht & Hw & Hall). split_and!; [done| |].
    + intros j Hj. destruct (Hw j Hj) as ((y & Hy & Hcl) & Hne & (y' & Hy' & Hws) & Hlt).
      destruct (Hfrom j y Hy) as (x & Hx & (Hwx & _) & Hbx). simplify_eq.
      split_and!; [|rewrite (leases_of_flags i e) by (done || by destruct Hs as (_ & _ & ? & _)); done| |done].
      * exists x. split; [done|]. rewrite Hwx. destruct Hcl; auto.
      * exists x. split; [done|congruence].
    + intros l j k x Hlk Hlt Hx Hws. destruct (Hto j x Hx) as (y & Hy & (Hwx & _) & _).
      eapply (Hall l j k y); try done. congruence.
  - intros ws n Hws. destruct (Hp ws n Hws) as (x & d & ? & ? & ? & ? & Hlt).
    exists x, d. split_and!; try done. intros l j k b z Hlk Hz Hwz.
    destruct (Hto j z Hz) as (y & Hy & (Hwx & _) & _). eapply (Hlt l j k b y); try done. congruence.
  - intros ws n Hws. destruct (Hb' ws n Hws) as (j & y & Hst & Hy & Hbl).
    destruct (Hfrom j y Hy) as (x & Hx & _ & Hbx). exists j, x. auto.
Qed.

(** Under the invariant an epoch without leases is in no drain. *)
Lemma inv_resolve i c : Inv c → Inv (resolveDrain i c).
Proof.
  intros [He Hl Hd Hp]. unfold resolveDrain. case_bool_decide as Hempty; [|done].
  assert (settle_drain i <$> c.(drain_table) = c.(drain_table)) as Heq.
  { apply list_eq. intros n. rewrite list_lookup_fmap.
    destruct (drain_table c !! n) as [d|] eqn:Hn; simpl; [|done]. f_equal.
    destruct (Hd n d Hn) as (_ & Hw & _). destruct d as [w ws tb]. unfold settle_drain; simpl in *.
    f_equal. assert (i ∉ ws) by (intros Hi; by destruct (Hw i Hi) as (_ & ? & _)). set_solver. }
  rewrite Heq. by destruct c.
Qed.

(** *** A fresh current epoch *)

Lemma elem_workspace_epochs ws j c :
  j ∈ workspace_epochs ws c ↔
  c.(states) !! ws = Some j ∨ ∃ r, c.(retiredStates) !! ws = Some r ∧ j ∈ r.
Proof.
  unfold workspace_epochs. rewrite elem_of_union.
  destruct (states c !! ws) as [i|]; destruct (retiredStates c !! ws) as [r|]; simpl; set_solver.
Qed.

Lemma leases_of_elem c j k :
  k ∈ leases_of c j ↔ ∃ x, c.(epochs) !! j = Some x ∧ k ∈ x.(leases).
Proof. unfold leases_of. destruct (epochs c !! j); set_solver. Qed.

Lemma inv_new e0 R c :
  Inv c →
  e0.(leases) = ∅ → (e0.(blocked) = true → e0.(aborted) = true) →
  (∀ n, c.(deletions) !! e0.(workspace) = Some n → e0.(blocked) = true) →
  (∀ ws r j, R !! ws = Some r → j ∈ r →
     (∃ r', c.(retiredStates) !! ws = Some r' ∧ j ∈ r') ∨
     (ws = e0.(workspace) ∧ c.(states) !! ws = Some j)) →
  (∀ ws r j, c.(retiredStates) !! ws = Some r → j ∈ r → ∃ r', R !! ws = Some r' ∧ j ∈ r') →
  (∀ i e, c.(states) !! e0.(workspace) = Some i → c.(epochs) !! i = Some e →
     e.(aborted) = true ∧
     (e.(leases) ≠ ∅ → ∃ r, R !! e0.(workspace) = Some r ∧ i ∈ r)) →
  Inv (new_state e0 (with_retired R c)).
Proof.
  intros [[Hc Hr Hn Ha] [Hk Hl Hu] Hd [Hp Hb]] Hfresh Hab Hdel HR1 HR2 Hcur.
  set (ws0 := e0.(workspace)) in *. set (m := length c.(epochs)).
  assert (∀ j x, c.(epochs) !! j = Some x → j ≠ m) as Hlt.
  { intros j x Hj ->. apply lookup_lt_Some in Hj. unfold m in Hj. lia. }
  assert (∀ j x, (new_state e0 (with_retired R c)).(epochs) !! j = Some x →
    (j = m ∧ x = e0) ∨ (j ≠ m ∧ c.(epochs) !! j = Some x)) as Hto.
  { intros j x. simpl. rewrite lookup_snoc_if. case_decide; subst; naive_solver. }
  assert (∀ j x, c.(epochs) !! j = Some x →
    (new_state e0 (with_retired R c)).(epochs) !! j = Some x) as Hfrom.
  { intros j x Hj. simpl. rewrite lookup_snoc_if, decide_False by eauto. done. }
  assert (∀ ws j, <[ws0:=m]> (states c) !! ws = Some j →
    (ws = ws0 ∧ j = m) ∨ (ws ≠ ws0 ∧ c.(states) !! ws = Some j)) as Hst.
  { intros ws j. rewrite lookup_insert. case_decide; naive_solver. }
  assert (∀ ws j x, c.(epochs) !! j = Some x → <[ws0:=m]> (states c) !! ws = Some j →
    c.(states) !! ws = Some j) as Hback.
  { intros ws j x Hj Hs. destruct (Hst ws j Hs) as [[-> ->]|[_ ?]]; [by apply Hlt in Hj|done]. }
  split; [split|split| |split].
  - intros ws j Hs. destruct (Hst ws j Hs) as [[-> ->]|[_ Hj]].
    + exists e0. simpl. rewrite lookup_snoc_if, decide_True by done. done.
    + destruct (Hc ws j Hj) as (x & Hx & ?). exists x. split; [by apply Hfrom|done].
  - intros ws r j Hrr Hj. simpl in *.
    assert (∃ e, epochs c !! j = Some e ∧ workspace e = ws) as (e & Hx & Hw).
    { destruct (HR1 ws r j Hrr Hj) as [(r' & Hr' & Hj')|[-> Hs]]; [|by apply Hc].
      by destruct (Hr ws r' j Hr' Hj') as (_ & ?). }
    split; [|exists e; split; [by apply Hfrom|done]].
    intros Hs. pose proof (Hback ws j e Hx Hs) as Hcs.
    destruct (HR1 ws r j Hrr Hj) as [(r' & Hr' & Hj')|[-> _]].
    + by destruct (Hr ws r' j Hr' Hj') as (? & _).
    + rewrite lookup_insert_eq in Hs. injection Hs as <-. by apply Hlt in Hx.
  - intros j x Hx Hne. destruct (Hto j x Hx) as [[-> ->]|[Hjm Hj]]; [done|].
    apply elem_workspace_epochs. specialize (Hn j x Hj Hne).
    apply elem_workspace_epochs in Hn as [Hs|(r & Hrr & Hin)].
    + destruct (decide (workspace x = ws0)) as [Hw|Hw].
      * rewrite Hw in Hs. destruct (Hcur j x Hs Hj) as [_ Hret]. right. rewrite Hw. by apply Hret.
      * left. simpl. by rewrite lookup_insert_ne.
    + right. by eapply HR2.
  - intros j x Hx Hcl. destruct (Hto j x Hx) as [[-> ->]|[Hjm Hj]].
    + destruct Hcl as [?|Hcl]; [auto|]. simpl in Hcl. by rewrite lookup_insert_eq in Hcl.
    + destruct (decide (c.(states) !! x.(workspace) = Some j)) as [Hs|Hs].
      * destruct Hcl as [Hbl|Hcl]; [apply (Ha j x Hj); by left|].
        simpl in Hcl. rewrite lookup_insert in Hcl. case_decide as Hw; [|done].
        rewrite <- Hw in Hs. by destruct (Hcur j x Hs Hj).
      * apply (Ha j x Hj). by right.
  - intros l i k b Hlk. destruct (Hk l i k b Hlk) as (x & Hx & ?). exists x. auto.
  - intros j x k Hx. destruct (Hto j x Hx) as [[-> ->]|[Hjm Hj]]; [|by apply Hl].
    rewrite Hfresh. split; [set_solver|]. intros (l & Hlk).
    destruct (Hk l m k false Hlk) as (y & Hy & _). by apply Hlt in Hy.
  - exact Hu.
  - intros n d Hnd. destruct (Hd n d Hnd) as (Ht & Hw & Hall). split_and!; [done| |].
    + intros j Hj. destruct (Hw j Hj) as ((y & Hy & Hcl) & Hne & (y' & Hy' & Hws) & Hlt').
      simplify_eq. split_and!; [exists y|unfold leases_of|exists y|done]; auto.
      * split; [auto|]. destruct Hcl as [|Hcl]; [by left|right]. simpl. intros Hs.
        apply Hcl. by eapply Hback.
      * rewrite (Hfrom j y Hy). unfold leases_of in Hne. by rewrite Hy in Hne.
    + intros l i k x Hlk Hlt' Hx Hws. destruct (Hto i x Hx) as [[-> ->]|[_ Hi]].
      * destruct (Hk l m k false Hlk) as (y & Hy & _). by apply Hlt in Hy.
      * by eapply (Hall l i k x).
  - intros ws n Hws. destruct (Hp ws n Hws) as (x & d & ? & ? & ? & ? & Hlt').
    exists x, d. split_and!; try done. intros l i k b z Hlk Hz Hwz.
    destruct (Hto i z Hz) as [[-> ->]|[_ Hi]]; [|by eapply (Hlt' l i k b z)].
    destruct (Hk l m k b Hlk) as (y & Hy & _). by apply Hlt in Hy.
  - intros ws n Hws. simpl in *. destruct (decide (ws = ws0)) as [->|Hw].
    + exists m, e0. rewrite lookup_insert_eq, lookup_snoc_if, decide_True by done. eauto.
    + destruct (Hb ws n Hws) as (j & y & Hs & Hy & Hbl). exists j, y.
      rewrite lookup_insert_ne by done. auto.
Qed.

Lemma with_retired_same c : with_retired c.(retiredStates) c = c.
Proof. by destruct c. Qed.

Lemma inv_first e0 c :
  Inv c → c.(states) !! e0.(workspace) = None →
  e0.(leases) = ∅ → (e0.(blocked) = true → e0.(aborted) = true) → Inv (new_state e0 c).
Proof.
  intros HI Hs Hl Hb. rewrite <- (with_retired_same c). apply inv_new; try done; eauto.
  - intros n Hn. destruct (do_blocked c (inv_deletions c HI) _ n Hn) as (i & _ & Hi & _). congruence.
  - intros i e Hi. congruence.
Qed.

Lemma inv_block ws c : Inv c → Inv (block ws c).
Proof.
  intros HI. unfold block. destruct (states c !! ws) as [i|] eqn:Hs.
  - destruct (epochs c !! i) as [e|] eqn:Hi; [|done]. apply inv_resolve.
    eapply inv_flags; try done. by left.
  - by apply inv_first.
Qed.

Lemma inv_seed ws g c : Inv c → Inv (seed ws g c).
Proof.
  intros HI. unfold seed. destruct (states c !! ws) eqn:Hs; [done|]. by apply inv_first.
Qed.

Lemma inv_observe ws g c : Inv c → Inv (observe ws g c).1.
Proof.
  intros HI. unfold observe. pose proof (inv_seed ws g c HI).
  by repeat (case_match; simpl).
Qed.

Lemma inv_activate ws g c c' : Inv c → activate ws g c = Ok c' → Inv c'.
Proof.
  intros HI. unfold activate. destruct (_ && _)%bool; [|done].
  destruct (deletions c !! ws) eqn:Hdel; [done|].
  destruct (states c !! ws) as [i|] eqn:Hs; [|intros [= <-]; by apply inv_first].
  destruct (epochs c !! i) as [e|] eqn:Hi; [|by intros [= <-]].
  do 3 (case_match; [try done; by intros [= <-]|]). cbv zeta. intros [= <-].
  assert (workspace e = ws) as Hw.
  { destruct (eo_current c (inv_epochs c HI) ws i Hs) as (e' & ? & ?). congruence. }
  assert (Inv (set_epoch i (abort_epoch e) c)) as HI1 by (eapply inv_flags; try done; by left).
  assert ((set_epoch i (abort_epoch e) c).(epochs) !! i = Some (abort_epoch e)) as Hi1
    by (simpl; apply list_lookup_insert_eq; by eapply lookup_lt_Some).
  assert (∀ j x, states (set_epoch i (abort_epoch e) c) !! ws = Some j →
    epochs (set_epoch i (abort_epoch e) c) !! j = Some x → x = abort_epoch e ∧ j = i) as Hx.
  { intros j x Hj Hxx. simpl in Hj. rewrite Hs in Hj. injection Hj as <-. split; [congruence|done]. }
  case_bool_decide as He.
  - rewrite <- (with_retired_same (set_epoch i (abort_epoch e) c)). apply inv_new; try done; eauto.
    + intros n Hn. simpl in Hn. congruence.
    + intros j x Hj Hxx. destruct (Hx j x Hj Hxx) as [-> ->]. done.
  - apply inv_new; try done; simpl.
    + intros n Hn. congruence.
    + intros ws' r j. rewrite lookup_insert. case_decide; subst.
      * intros [= <-]. rewrite elem_of_union, elem_of_singleton. intros [->|Hj]; [by right|left].
        destruct (retiredStates c !! workspace e) as [r|]; simpl in Hj; [eauto|set_solver].
      * intros Hr Hj. left. eauto.
    + intros ws' r j Hr Hj. rewrite lookup_insert. case_decide; subst; [|eauto].
      eexists. split; [done|]. rewrite Hr. simpl. set_solver.
    + intros j x Hj Hxx. destruct (Hx j x Hj Hxx) as [-> ->]. split; [done|]. intros _.
      rewrite lookup_insert_eq. eexists. split; [done|]. set_solver.
Qed.

(** *** Leases *)

Lemma observe_ok ws g c c' i :
  Inv c → observe ws g c = (c', Ok i) →
  Inv c' ∧ c'.(states) !! ws = Some i ∧
  ∃ e, c'.(epochs) !! i = Some e ∧ e.(workspace) = ws ∧ e.(blocked) = false ∧ e.(generation) = g.
Proof.
  intros HI Ho. pose proof (inv_observe ws g c HI) as HI'. rewrite Ho in HI'. simpl in HI'.
  unfold observe in Ho. destruct (states (seed ws g c) !! ws) as [j|] eqn:Hs; [|done].
  destruct (epochs (seed ws g c) !! j) as [e|] eqn:He; [|done].
  destruct (blocked e || negb (generation e =? g)) eqn:Hb; [done|]. injection Ho as <- <-.
  apply orb_false_iff in Hb as [Hb Hg%negb_false_iff]. zbool.
  split_and!; [done|done|]. exists e. split_and!; try done.
  destruct (eo_current _ (inv_epochs _ HI') ws j Hs) as (e' & ? & ?). congruence.
Qed.

Lemma inv_take i e c :
  Inv c → c.(epochs) !! i = Some e → e.(blocked) = false →
  c.(states) !! e.(workspace) = Some i →
  Inv (with_leases (c.(lease_table) ++
         [{| lease_epoch := i; leaseId := e.(nextLease); released := false |}])
       (set_epoch i (take_lease e) c)).
Proof.
  intros [[Hc Hr Hn Ha] [Hk Hl Hu] Hd [Hp Hb]] Hi Hbl Hcur.
  set (c' := with_leases _ _). set (e' := take_lease e).
  assert (∀ j x, c'.(epochs) !! j = Some x → (j = i ∧ x = e') ∨ (j ≠ i ∧ c.(epochs) !! j = Some x)) as Hto.
  { intros j x. simpl. rewrite (lookup_insert_if _ _ e) by done. case_decide; naive_solver. }
  assert (∀ j y, c.(epochs) !! j = Some y → ∃ x, c'.(epochs) !! j = Some x ∧
    x.(workspace) = y.(workspace) ∧ x.(blocked) = y.(blocked) ∧ (nextLease y ≤ nextLease x)%nat) as Hfrom.
  { intros j y Hy. simpl. rewrite (lookup_insert_if _ _ e) by done. case_decide; subst; [|by eauto].
    exists e'. simplify_eq. simpl. auto. }
  assert (∀ l j k b, lease_of c' l j k b ↔
    lease_of c l j k b ∨ (l = length c.(lease_table) ∧ j = i ∧ k = nextLease e ∧ b = false)) as Hlo.
  { intros l j k b. unfold lease_of. simpl. rewrite lookup_snoc_if. case_decide; subst; split.
    - intros [= <- <- <-]. by right.
    - intros [Hlk|(_ & -> & -> & ->)]; [|done]. apply lookup_lt_Some in Hlk. lia.
    - by left.
    - by intros [?|[? _]]. }
  assert (∀ j, leases_of c' j ≠ ∅ ↔ j = i ∨ leases_of c j ≠ ∅) as Hle.
  { intros j. unfold leases_of; simpl. rewrite (lookup_insert_if _ _ e) by done.
    case_decide; subst; simpl; set_solver. }
  split; [split|split| |split].
  - intros ws j Hj. destruct (Hc ws j Hj) as (y & Hy & Hw).
    destruct (Hfrom j y Hy) as (x & Hx & Hw' & _). exists x. split; [done|congruence].
  - intros ws r j Hrr Hj. destruct (Hr ws r j Hrr Hj) as (Hne & y & Hy & Hw). split; [done|].
    destruct (Hfrom j y Hy) as (x & Hx & Hw' & _). exists x. split; [done|congruence].
  - intros j x Hx Hne. destruct (Hto j x Hx) as [[-> ->]|[_ Hj]]; [|by apply Hn].
    apply elem_workspace_epochs. by left.
  - intros j x Hx Hcl. destruct (Hto j x Hx) as [[-> ->]|[_ Hj]]; [|by eapply (Ha j x)].
    exfalso. simpl in Hcl. destruct Hcl; congruence.
  - intros l j k b [Hlk|(-> & -> & -> & ->)]%Hlo.
    + destruct (Hk l j k b Hlk) as (y & Hy & ?). destruct (Hfrom j y Hy) as (x & Hx & _ & _ & ?).
      exists x. split; [done|lia].
    + exists e'. simpl. rewrite (lookup_insert_if _ _ e), decide_True by done. split; [done|lia].
  - intros j x k Hx. setoid_rewrite Hlo. destruct (Hto j x Hx) as [[-> ->]|[Hne Hj]].
    + simpl. rewrite elem_of_union, elem_of_singleton, (Hl i e k Hi). split.
      * intros [->|(l & Hlk)]; [|by eauto]. exists (length (lease_table c)). auto.
      * intros (l & [Hlk|(_ & _ & -> & _)]); eauto.
    + rewrite (Hl j x k Hj). split; intros (l & Hlk); exists l; [by left|].
      by destruct Hlk as [?|(_ & -> & _)].
  - intros l l' j k b b' [H1|(-> & -> & -> & ->)]%Hlo [H2|(-> & Hj & Hkk & ->)]%Hlo.
    + by eapply Hu.
    + subst. destruct (Hk _ _ _ _ H1) as (y & Hy & ?). simplify_eq. lia.
    + destruct (Hk _ _ _ _ H2) as (y & Hy & ?). simplify_eq. lia.
    + done.
  - intros n d Hnd. destruct (Hd n d Hnd) as (Ht & Hw & Hall).
    assert (i ∉ waits_for d) as Hnot.
    { intros Hin. destruct (Hw i Hin) as ((y & Hy & Hcl) & _). simplify_eq. destruct Hcl; congruence. }
    split_and!.
    + simpl. rewrite length_app. lia.
    + intros j Hj. destruct (Hw j Hj) as ((y & Hy & Hcl) & Hne & (y' & Hy' & Hws) & Hlt'). simplify_eq.
      destruct (Hfrom j y Hy) as (x & Hx & Hwx & Hbx & _). split_and!.
      * exists x. split; [done|]. rewrite Hbx, Hwx. done.
      * apply Hle. by right.
      * exists x. split; [done|congruence].
      * intros l k b [Hlk|(_ & -> & _)]%Hlo; [by eapply Hlt'|done].
    + intros l j k x [Hlk|(-> & _)]%Hlo Hlt' Hx Hws; [|lia].
      destruct (Hto j x Hx) as [[-> ->]|[_ Hj]]; [by eapply (Hall l i k e)|by eapply (Hall l j k x)].
  - intros ws n Hws. destruct (Hp ws n Hws) as (x & d & ? & ? & ? & ? & Hlt').
    exists x, d. split_and!; try done. intros l j k b z Hlo' Hz Hwz.
    apply Hlo in Hlo' as [Hlk|(-> & -> & -> & ->)].
    + destruct (Hto j z Hz) as [[-> ->]|[_ Hj]]; [by eapply (Hlt' l i k b e)|by eapply (Hlt' l j k b z)].
    + exfalso. destruct (Hb ws n Hws) as (j & y & Hsj & Hy & Hby).
      destruct (Hto i z Hz) as [[_ ->]|[? _]]; [|done]. change (workspace e = ws) in Hwz.
      rewrite <- Hwz, Hcur in Hsj. injection Hsj as <-. congruence.
  - intros ws n Hws. destruct (Hb ws n Hws) as (j & y & Hs & Hy & Hby).
    destruct (Hfrom j y Hy) as (x & Hx & _ & Hbx & _). exists j, x. split_and!; [done|done|congruence].
Qed.

Lemma inv_acquire ws g c : Inv c → Inv (acquire ws g c).1.
Proof.
  intros HI. unfold acquire. destruct (observe ws g c) as [c' [i|m]] eqn:Ho.
  - destruct (observe_ok _ _ _ _ _ HI Ho) as (HI' & Hs & e & He & Hw & Hb & _).
    rewrite He. simpl. apply inv_take; try done. by rewrite Hw.
  - simpl. pose proof (inv_observe ws g c HI) as HI'. by rewrite Ho in HI'.
Qed.

Definition in_retired (c : coordinator) (ws : string) (j : nat) : Prop :=
  ∃ r, c.(retiredStates) !! ws = Some r ∧ j ∈ r.

Lemma diff_empty (r : gset nat) i j : r ∖ {[i]} = ∅ → j ∈ r → j = i.
Proof.
  intros Hr Hj. destruct (decide (j = i)) as [|Hne]; [done|exfalso].
  apply (not_elem_of_empty (C := gset nat) j). rewrite <- Hr.
  by apply elem_of_difference; rewrite elem_of_singleton.
Qed.

(** [forget_retired] only removes [i] from the retired epochs of its workspace, and only
    when it has no lease left and is not current. *)
Lemma forget_retired_spec i e c :
  c.(epochs) !! i = Some e →
  let c' := forget_retired i c in
  c' = with_retired c'.(retiredStates) c ∧
  (∀ ws j, in_retired c' ws j → in_retired c ws j) ∧
  (∀ ws j, in_retired c ws j → in_retired c' ws j ∨ (j = i ∧ e.(leases) = ∅)).
Proof.
  intros Hi. cbv zeta. unfold forget_retired, in_retired. rewrite Hi.
  destruct (bool_decide (leases e = ∅)) eqn:He; simpl;
    [apply bool_decide_eq_true in He|split_and!; [by destruct c|eauto|intros ws j (r & ? & ?); left; eauto]].
  destruct (bool_decide (states c !! workspace e ≠ Some i)); [|split_and!; [by destruct c|eauto|intros ws j (r & ? & ?); left; eauto]].
  destruct (retiredStates c !! workspace e) as [r|] eqn:Hr; [|split_and!; [by destruct c|eauto|intros ws j (r & ? & ?); left; eauto]].
  split; [done|]. simpl. case_bool_decide as Hemp; split; intros ws j (r' & Hr' & Hj).
  - exists r'. apply lookup_delete_Some in Hr' as [_ ?]. done.
  - destruct (decide (ws = workspace e)) as [->|].
    + right. rewrite Hr in Hr'. injection Hr' as ->. split; [|done]. clear -Hemp Hj. by eapply diff_empty.
    + left. exists r'. by rewrite lookup_delete_ne.
  - rewrite lookup_insert in Hr'. case_decide; subst; [|eauto]. injection Hr' as <-.
    exists r. split; [done|clear -Hj; set_solver].
  - destruct (decide (ws = workspace e)) as [->|].
    + rewrite Hr in Hr'. injection Hr' as ->. destruct (decide (j = i)) as [->|]; [by right|left].
      exists (r' ∖ {[i]}). rewrite lookup_insert_eq. split; [done|by apply elem_of_difference; rewrite elem_of_singleton].
    + left. exists r'. by rewrite lookup_insert_ne.
Qed.

Lemma inv_drop l i k e R c :
  Inv c → lease_of c l i k false → c.(epochs) !! i = Some e →
  let e' := drop_lease k e in
  let c1 := set_epoch i e' (with_leases
    (<[l := {| lease_epoch := i; leaseId := k; released := true |}]> c.(lease_table)) c) in
  let c' := with_retired R (resolveDrain i c1) in
  (∀ ws j, in_retired c' ws j → in_retired c ws j) →
  (∀ ws j, in_retired c ws j → in_retired c' ws j ∨ (j = i ∧ e'.(leases) = ∅)) →
  Inv c'.
Proof.
  intros [[Hc Hr Hn Ha] [Hk Hl Hu] Hd [Hp Hb]] Hlease Hi e' c1 c' HR1 HR2.
  assert (c'.(epochs) = <[i := e']> c.(epochs)) as Eep
    by (unfold c', resolveDrain; by case_bool_decide).
  assert (c'.(states) = c.(states)) as Est by (unfold c', resolveDrain; by case_bool_decide).
  assert (c'.(lease_table) = <[l := {| lease_epoch := i; leaseId := k; released := true |}]>
    c.(lease_table)) as Elt by (unfold c', resolveDrain; by case_bool_decide).
  assert (c'.(deletions) = c.(deletions)) as Ede by (unfold c', resolveDrain; by case_bool_decide).
  assert (c'.(deletion_table) = c.(deletion_table)) as Edt
    by (unfold c', resolveDrain; by case_bool_decide).
  assert (∀ n d', c'.(drain_table) !! n = Some d' → ∃ d, c.(drain_table) !! n = Some d ∧
    d'.(drain_ws) = d.(drain_ws) ∧ d'.(taken_before) = d.(taken_before) ∧
    ∀ j, j ∈ d'.(waits_for) ↔ j ∈ d.(waits_for) ∧ ¬ (j = i ∧ e'.(leases) = ∅)) as Hdr.
  { intros n d'. unfold c', resolveDrain, leases_of. simpl.
    rewrite (lookup_insert_if _ _ e), decide_True by done. case_bool_decide as He; simpl.
    - rewrite list_lookup_fmap. destruct (drain_table c !! n) as [d|]; simpl; [|done].
      intros [= <-]. exists d. simpl. split_and!; try done. intros j. set_solver.
    - intros Hd'. exists d'. split_and!; try done. intros j. tauto. }
  assert (∀ n d, c.(drain_table) !! n = Some d → ∃ d', c'.(drain_table) !! n = Some d' ∧
    d'.(drain_ws) = d.(drain_ws) ∧ d'.(taken_before) = d.(taken_before)) as Hdr'.
  { intros n d Hnd. unfold c', resolveDrain. case_bool_decide; simpl; [|by eauto].
    rewrite list_lookup_fmap, Hnd. simpl. by eexists. }
  clearbody c'.
  assert (∀ j x, c'.(epochs) !! j = Some x → (j = i ∧ x = e') ∨ (j ≠ i ∧ c.(epochs) !! j = Some x)) as Hto.
  { intros j x. rewrite Eep, (lookup_insert_if _ _ e) by done. case_decide; naive_solver. }
  assert (∀ j y, c.(epochs) !! j = Some y → ∃ x, c'.(epochs) !! j = Some x ∧
    x.(workspace) = y.(workspace) ∧ x.(blocked) = y.(blocked) ∧ nextLease x = nextLease y) as Hfrom.
  { intros j y Hy. rewrite Eep, (lookup_insert_if _ _ e) by done. case_decide; subst; [|by eauto].
    exists e'. by simplify_eq. }
  assert (∀ l' j k' b, lease_of c' l' j k' b ↔
    if decide (l' = l) then j = i ∧ k' = k ∧ b = true else lease_of c l' j k' b) as Hlo.
  { intros l' j k' b. unfold lease_of in *. rewrite Elt, (lookup_insert_if _ _ _ _ _ Hlease).
    case_decide; subst; [|done]. naive_solver. }
  assert (∀ l' j k', lease_of c' l' j k' false → lease_of c l' j k' false) as Hlo1.
  { intros l' j k'. rewrite Hlo. case_decide; naive_solver. }
  assert (∀ l' j k' b, lease_of c' l' j k' b → ∃ b', lease_of c l' j k' b') as Hlo2.
  { intros l' j k' b. rewrite Hlo. case_decide; [|by eauto]. intros (-> & -> & ->). subst. eauto. }
  assert (∀ j, leases_of c' j ≠ ∅ ↔ leases_of c j ≠ ∅ ∧ ¬ (j = i ∧ e'.(leases) = ∅)) as Hle.
  { intros j. unfold leases_of. rewrite Eep, (lookup_insert_if _ _ e) by done.
    case_decide; subst; [rewrite Hi|]; simpl; [|tauto]. set_solver. }
  split; [split|split| |split]; rewrite ?Est, ?Ede, ?Edt.
  - intros ws j Hj. destruct (Hc ws j Hj) as (y & Hy & Hw).
    destruct (Hfrom j y Hy) as (x & Hx & Hw' & _). exists x. split; [done|congruence].
  - intros ws r j Hrr Hj. destruct (HR1 ws j ltac:(by exists r)) as (r' & Hr' & Hj').
    destruct (Hr ws r' j Hr' Hj') as (Hne & y & Hy & Hw). split; [done|].
    destruct (Hfrom j y Hy) as (x & Hx & Hw' & _). exists x. split; [done|congruence].
  - intros j x Hx Hne. assert (leases_of c' j ≠ ∅) as Hne' by (unfold leases_of; by rewrite Hx).
    apply Hle in Hne' as [Hne' Hnot].
    assert (∃ y, epochs c !! j = Some y ∧ workspace y = workspace x ∧ leases y ≠ ∅)
      as (y & Hy & Hw & Hny).
    { destruct (Hto j x Hx) as [[-> ->]|[_ Hj]]; [exists e|exists x]; split_and!; try done.
      unfold leases_of in Hne'. by rewrite Hi in Hne'. }
    apply elem_workspace_epochs. rewrite Est, <- Hw.
    specialize (Hn j y Hy Hny). apply elem_workspace_epochs in Hn as [?|Hret]; [by left|].
    destruct (HR2 _ _ Hret) as [?|?]; [by right|done].
  - intros j x Hx Hcl. destruct (Hto j x Hx) as [[-> ->]|[_ Hj]]; [by apply (Ha i e)|by apply (Ha j x)].
  - intros l' j k' b Hlk. destruct (Hlo2 l' j k' b Hlk) as (b' & Hlk').
    destruct (Hk l' j k' b' Hlk') as (y & Hy & ?). destruct (Hfrom j y Hy) as (x & Hx & _ & _ & Hnx).
    exists x. split; [done|lia].
  - intros j x k' Hx. destruct (Hto j x Hx) as [[-> ->]|[Hne Hj]].
    + simpl. rewrite elem_of_difference, elem_of_singleton, (Hl i e k' Hi). split.
      * intros [(l' & Hlk) Hkk]. exists l'. apply Hlo. case_decide; [|done]. subst.
        unfold lease_of in *. congruence.
      * intros (l' & Hlk). split; [exists l'; by apply Hlo1|]. intros ->.
        assert (l' = l) as -> by (eapply Hu; [by apply Hlo1|done]).
        apply Hlo in Hlk. rewrite decide_True in Hlk by done. naive_solver.
    + rewrite (Hl j x k' Hj). split; intros (l' & Hlk); exists l'; [|by apply Hlo1].
      apply Hlo. case_decide; [|done]. subst. unfold lease_of in *. congruence.
  - intros l1 l2 j k' b b' (b1 & H1)%Hlo2 (b2 & H2)%Hlo2. by eapply Hu.
  - intros n d' Hnd'. destruct (Hdr n d' Hnd') as (d & Hnd & Hws & Htb & Hwf).
    destruct (Hd n d Hnd) as (Ht & Hw & Hall). split_and!.
    + rewrite Elt, length_insert. lia.
    + intros j Hj. apply Hwf in Hj as [Hj Hnot].
      destruct (Hw j Hj) as ((y & Hy & Hcl) & Hne & (y' & Hy' & Hwy) & Hlt'). simplify_eq.
      destruct (Hfrom j y Hy) as (x & Hx & Hwx & Hbx & _). split_and!.
      * exists x. rewrite Hbx, Hwx, Est. done.
      * by apply Hle.
      * exists x. split; [done|congruence].
      * rewrite Htb. intros l' k' b (b' & Hlk)%Hlo2. by eapply Hlt'.
    + rewrite Htb, Hws. intros l' j k' x Hlk Hlt' Hx Hwx. apply Hwf.
      pose proof (Hlo1 _ _ _ Hlk) as Hlk'. split.
      * destruct (Hto j x Hx) as [[-> ->]|[_ Hj]]; [by eapply (Hall l' i k' e)|by eapply (Hall l' j k' x)].
      * intros [-> Hemp].
        assert (k' ∈ leases e) as Hin by (apply (Hl i e k' Hi); eauto).
        assert (k' = k) as -> by (by eapply (diff_empty (leases e))).
        assert (l' = l) as -> by (by eapply Hu).
        apply Hlo in Hlk. rewrite decide_True in Hlk by done. naive_solver.
  - intros ws n Hws. destruct (Hp ws n Hws) as (x & d & Hx & Hxw & Hxd & Hdw & Hlt').
    destruct (Hdr' _ _ Hxd) as (d' & Hd' & Hdw' & Htb'). exists x, d'.
    split_and!; try done; [congruence|]. rewrite Htb'.
    intros l' j k' b z (b' & Hlk)%Hlo2 Hz Hwz.
    destruct (Hto j z Hz) as [[-> ->]|[_ Hj]]; [by eapply (Hlt' l' i k' b' e)|by eapply (Hlt' l' j k' b' z)].
  - intros ws n Hws. destruct (Hb ws n Hws) as (j & y & Hs & Hy & Hby).
    destruct (Hfrom j y Hy) as (x & Hx & _ & Hbx & _). exists j, x. split_and!; [done|done|congruence].
Qed.

Lemma inv_release l c : Inv c → Inv (release l c).
Proof.
  intros HI. unfold release. destruct (lease_table c !! l) as [[i k b]|] eqn:Hl; [|done]. simpl.
  destruct b; [done|]. destruct (epochs c !! i) as [e|] eqn:Hi.
  2: { destruct (lo_known c (inv_leases c HI) l i k false Hl) as (e & He & _). congruence. }
  set (c2 := resolveDrain _ _).
  assert (c2.(epochs) !! i = Some (drop_lease k e)) as Hi2.
  { unfold c2, resolveDrain. case_bool_decide; simpl; apply list_lookup_insert_eq;
      by eapply lookup_lt_Some. }
  assert (c2.(retiredStates) = c.(retiredStates)) as Hret
    by (unfold c2, resolveDrain; by case_bool_decide).
  destruct (forget_retired_spec i (drop_lease k e) c2 Hi2) as (Heq & HR1 & HR2). cbv zeta in *.
  rewrite Heq. unfold c2. apply (inv_drop l i k e (retiredStates (forget_retired i c2)) c); try done.
  - intros ws j Hj. destruct (HR1 ws j) as (r & Hr & Hin); [by destruct Hj as (r & ? & ?); exists r|].
    exists r. by rewrite <- Hret.
  - intros ws j (r & Hr & Hin). destruct (HR2 ws j) as [(r' & ? & ?)|?]; [|by left; exists r'|by right].
    exists r. by rewrite Hret.
Qed.

(** *** Drains and deletions *)

Lemma inv_drain ws c :
  Inv c → (∀ i e, c.(states) !! ws = Some i → c.(epochs) !! i = Some e → e.(blocked) = true) →
  Inv (workspaceDrain ws c).
Proof.
  intros [He Hl Hd [Hp Hb]] Hbl. split; [by destruct He|by destruct Hl| |split; [|done]].
  - intros n d. simpl. rewrite lookup_snoc_if. case_decide; [|apply Hd].
    intros [= <-]. split_and!; simpl; [done| |].
    + intros i. rewrite elem_of_filter. intros [Hne Hi].
      assert (∃ e, c.(epochs) !! i = Some e ∧ e.(workspace) = ws ∧
        (e.(blocked) = true ∨ c.(states) !! ws ≠ Some i)) as (e & Hie & Hw & Hcl).
      { apply elem_workspace_epochs in Hi as [Hs|(r & Hr & Hin)].
        - destruct (eo_current c He ws i Hs) as (e & ? & ?). exists e.
          split_and!; [done|done|left; by eapply Hbl].
        - destruct (eo_retired c He ws r i Hr Hin) as (? & e & ? & ?). exists e. auto. }
      split_and!; [exists e; split; [done|by rewrite Hw]|done|by exists e|].
      intros l k b Hlk. by eapply lookup_lt_Some.
    + intros l i k e Hlk Hlt Hi Hw. rewrite elem_of_filter.
      assert (e.(leases) ≠ ∅) as Hne.
      { intros Hemp. assert (k ∈ e.(leases)) as Hk by (apply (lo_live c Hl i e k Hi); eauto).
        rewrite Hemp in Hk. by apply elem_of_empty in Hk. }
      split; [unfold leases_of; by rewrite Hi|]. rewrite <- Hw. by apply (eo_counted c He i e).
  - intros ws' n Hn. destruct (Hp ws' n Hn) as (x & d & Hx & Hxw & Hxd & Hrest).
    exists x, d. split_and!; try done; [|apply Hrest|apply Hrest].
    simpl. apply lookup_app_l_Some. done.
Qed.

Lemma block_blocked ws c i e :
  Inv c → (block ws c).(states) !! ws = Some i → (block ws c).(epochs) !! i = Some e →
  e.(blocked) = true.
Proof.
  intros HI. unfold block. destruct (states c !! ws) as [j|] eqn:Hs.
  - destruct (eo_current c (inv_epochs c HI) ws j Hs) as (x & Hx & _). rewrite Hx.
    unfold resolveDrain. case_bool_decide; simpl; rewrite Hs, (lookup_insert_if _ _ x) by done;
      intros [= <-]; rewrite decide_True by done; by intros [= <-].
  - simpl. rewrite lookup_insert_eq. intros [= <-].
    rewrite lookup_snoc_if, decide_True by done. by intros [= <-].
Qed.

Lemma block_current ws c :
  Inv c → ∃ i e, (block ws c).(states) !! ws = Some i ∧ (block ws c).(epochs) !! i = Some e.
Proof.
  intros HI. unfold block. destruct (states c !! ws) as [j|] eqn:Hs.
  - destruct (eo_current c (inv_epochs c HI) ws j Hs) as (x & Hx & _). rewrite Hx.
    exists j, (abort_epoch (block_epoch x)). unfold resolveDrain.
    case_bool_decide; simpl; rewrite (lookup_insert_if _ _ x), decide_True by done; done.
  - eexists _, _. simpl. by rewrite lookup_insert_eq, lookup_snoc_if, decide_True by done.
Qed.

Lemma inv_blockAndDrain ws c : Inv c → Inv (blockAndDrain ws c).
Proof.
  intros HI. apply inv_drain; [by apply inv_block|]. intros i e. by apply block_blocked.
Qed.

Lemma inv_beginDeletion ws c : Inv c → Inv (beginDeletion ws c).1.
Proof.
  intros HI. unfold beginDeletion. destruct (deletions c !! ws) eqn:Hdel; [done|]. cbv zeta. cbn [fst].
  pose proof (inv_blockAndDrain ws c HI) as HI'.
  assert (∃ i e, (blockAndDrain ws c).(states) !! ws = Some i ∧
    (blockAndDrain ws c).(epochs) !! i = Some e ∧ e.(blocked) = true) as (bi & be & Hbs & Hbe & Hbb).
  { destruct (block_current ws c HI) as (i & e & Hs & He). exists i, e.
    split_and!; [done|done|exact (block_blocked ws c i e HI Hs He)]. }
  set (c' := blockAndDrain ws c) in *.
  assert (∃ d, c'.(drain_table) !! (length c'.(drain_table) - 1)%nat = Some d ∧
    d.(drain_ws) = ws ∧ d.(taken_before) = length c'.(lease_table)) as (d & Hd & Hdw & Hdt).
  { eexists. unfold c', blockAndDrain, workspaceDrain. simpl. rewrite length_app. simpl.
    rewrite lookup_snoc_if, decide_True by lia. done. }
  clearbody c'. destruct HI' as [He Hl Hdr [Hp Hb]].
  split; [by destruct He|by destruct Hl|exact Hdr|split]; simpl.
  - intros ws' n. rewrite lookup_insert. case_decide; subst.
    + intros [= <-]. eexists _, d. rewrite lookup_snoc_if, decide_True by done.
      split_and!; [done|done|exact Hd|done|]. intros l i k b e Hlk _ _. rewrite Hdt.
      by eapply lookup_lt_Some.
    + intros Hn. destruct (Hp ws' n Hn) as (x & d' & Hx & ?). exists x, d'. split; [|done].
      by apply lookup_app_l_Some.
  - intros ws' n. rewrite lookup_insert. case_decide; subst; [|apply Hb]. intros _. eauto.
Qed.

Lemma inv_finish n c : Inv c → Inv (finish n c).
Proof.
  intros HI. unfold finish. destruct (deletion_table c !! n) as [x|] eqn:Hx; [|done].
  destruct HI as [He Hl Hdr [Hp Hb]]. split; [by destruct He|by destruct Hl|exact Hdr|split; [|exact Hb]].
  simpl. intros ws' m Hm. destruct (Hp ws' m Hm) as (y & d & Hy & Hrest).
  rewrite (lookup_insert_if _ _ x) by done. case_decide; subst; [|by exists y, d].
  eexists _, d. split; [done|]. simplify_eq. exact Hrest.
Qed.

Lemma inv_complete n c : Inv c → Inv (complete n c).
Proof.
  intros HI. unfold complete. destruct (deletion_table c !! n) as [x|] eqn:Hx; [|done].
  case_match; [|done]. destruct HI as [He Hl Hdr [Hp Hb]].
  assert (∀ ws' m, (if bool_decide (deletions c !! deletion_ws x = Some n)
      then delete (deletion_ws x) (deletions c) else deletions c) !! ws' = Some m →
    deletions c !! ws' = Some m) as Hsub.
  { intros ws' m. case_bool_decide; [|done]. by intros [_ ?]%lookup_delete_Some. }
  split; [by destruct He|by destruct Hl|exact Hdr|split]; simpl.
  - intros ws' m Hm%Hsub. destruct (Hp ws' m Hm) as (y & d & Hy & Hrest).
    rewrite (lookup_insert_if _ _ x) by done. destruct (decide (m = n)) as [->|]; [|exists y, d; split; [done|exact Hrest]].
    eexists _, d. split; [done|]. simplify_eq. exact Hrest.
  - intros ws' m Hm. by apply (Hb ws' m), Hsub.
Qed.

Lemma inv_step c e : Inv c → Inv (step c e).
Proof.
  intros HI. destruct e; simpl.
  - destruct (activate ws g c) eqn:E; [by eapply inv_activate|done].
  - by apply inv_observe.
  - by apply inv_acquire.
  - by apply inv_release.
  - by apply inv_block.
  - by apply inv_blockAndDrain.
  - by apply inv_beginDeletion.
  - by apply inv_finish.
  - by apply inv_complete.
Qed.

Definition reachable (evs : list event) : coordinator :=
  run_events step createWorkspaceMutationCoordinator evs.

Lemma coordinator_reachable evs : Inv (reachable evs).
Proof. unfold reachable. apply run_invariant; [apply coordinator_init|]. intros s e. apply inv_step. Qed.

(** *** Revocation is permanent *)

(** Generations up to [g] can no longer be used in [ws]. *)
Definition revoked_upto (ws : string) (g : Z) (c : coordinator) : Prop :=
  ∃ i e, c.(states) !! ws = Some i ∧ c.(epochs) !! i = Some e ∧
    (g < e.(generation) ∨ (g ≤ e.(generation) ∧ e.(blocked) = true)).

(** The current epoch of [ws] survives a step, up to flags and leases, or is
    replaced by one of a later generation. *)
Definition advances (ws : string) (c c' : coordinator) : Prop :=
  ∀ i e, c.(states) !! ws = Some i → c.(epochs) !! i = Some e →
    ∃ i' e', c'.(states) !! ws = Some i' ∧ c'.(epochs) !! i' = Some e' ∧
      (e.(generation) < e'.(generation) ∨
       (e'.(generation) = e.(generation) ∧ (e.(blocked) = true → e'.(blocked) = true))).

Lemma advances_set ws j x y c c' :
  c.(epochs) !! j = Some x → y.(generation) = x.(generation) →
  (x.(blocked) = true → y.(blocked) = true) →
  c'.(states) = c.(states) → c'.(epochs) = <[j := y]> c.(epochs) → advances ws c c'.
Proof.
  intros Hj Hg Hb Hs He i e Hi Hie. rewrite Hs, He.
  destruct (decide (i = j)) as [->|Hne].
  - rewrite Hj in Hie. injection Hie as <-. exists j, y.
    rewrite (lookup_insert_if _ _ x), decide_True by done. auto.
  - exists i, e. rewrite list_lookup_insert_ne by done. auto.
Qed.

Lemma advances_refl ws c : advances ws c c.
Proof. intros i e ? ?. exists i, e. auto. Qed.

Lemma advances_same ws c c' :
  c'.(states) = c.(states) → c'.(epochs) = c.(epochs) → advances ws c c'.
Proof. intros Hs He i e Hi Hie. exists i, e. rewrite Hs, He. auto. Qed.

Lemma advances_trans ws c1 c2 c3 : advances ws c1 c2 → advances ws c2 c3 → advances ws c1 c3.
Proof.
  intros H1 H2 i e Hi He. destruct (H1 i e Hi He) as (i2 & e2 & Hi2 & He2 & Hg2).
  destruct (H2 i2 e2 Hi2 He2) as (i3 & e3 & Hi3 & He3 & Hg3). exists i3, e3.
  split_and!; [done|done|]. destruct Hg2 as [?|[? ?]], Hg3 as [?|[? ?]]; [left; lia..|].
  right. split; [congruence|auto].
Qed.

Lemma advances_new ws e0 c :
  (∀ i e, c.(states) !! e0.(workspace) = Some i → c.(epochs) !! i = Some e →
     e.(generation) < e0.(generation)) →
  advances ws c (new_state e0 c).
Proof.
  intros Hg i e Hi He. simpl. destruct (decide (workspace e0 = ws)) as [<-|Hw].
  - exists (length (epochs c)), e0. rewrite lookup_insert_eq, lookup_snoc_if, decide_True by done.
    eauto 10.
  - exists i, e. rewrite lookup_insert_ne by done. split_and!; [done| |by right].
    rewrite lookup_snoc_if, decide_False; [done|]. apply lookup_lt_Some in He. lia.
Qed.

Lemma advances_resolve ws i c : advances ws c (resolveDrain i c).
Proof. unfold resolveDrain. case_bool_decide; by apply advances_same. Qed.

Lemma advances_block ws ws' c : advances ws c (block ws' c).
Proof.
  unfold block. destruct (states c !! ws') as [i|] eqn:Hs.
  - destruct (epochs c !! i) as [e|] eqn:Hi; [|by apply advances_refl].
    eapply advances_trans; [|apply advances_resolve]. by eapply (advances_set _ i e (abort_epoch (block_epoch e))).
  - apply advances_new. simpl. congruence.
Qed.

Lemma advances_seed ws ws' g c : advances ws c (seed ws' g c).
Proof.
  unfold seed. destruct (states c !! ws') eqn:Hs; [apply advances_refl|].
  apply advances_new. simpl. congruence.
Qed.

Lemma observe_fst ws g c : (observe ws g c).1 = seed ws g c.
Proof. unfold observe. by repeat case_match. Qed.

Lemma advances_activate ws ws' g c c' : activate ws' g c = Ok c' → advances ws c c'.
Proof.
  unfold activate. destruct (_ && _)%bool; [|done]. destruct (deletions c !! ws'); [done|].
  destruct (states c !! ws') as [i|] eqn:Hs.
  - destruct (epochs c !! i) as [e|] eqn:Hi; [|intros [= <-]; apply advances_refl].
    destruct (Z.ltb_spec g (generation e)); [done|].
    destruct (Z.eqb_spec g (generation e)); simpl.
    { destruct (blocked e); simpl; [done|]. intros [= <-]. apply advances_refl. }
    intros [= <-]. case_bool_decide.
    + apply (advances_trans _ _ (set_epoch i (abort_epoch e) c)); [by eapply (advances_set _ i e (abort_epoch e))|].
      apply advances_new. simpl. intros j x Hj. rewrite (lookup_insert_if _ _ e) by done.
      rewrite decide_True by congruence. intros [= <-]. simpl. lia.
    + apply (advances_trans _ _ (set_epoch i (abort_epoch e) c)); [by eapply (advances_set _ i e (abort_epoch e))|].
      match goal with |- advances _ _ (new_state _ ?d) =>
        apply (advances_trans _ _ d); [by apply advances_same|] end.
      apply advances_new. simpl. intros j x Hj. rewrite (lookup_insert_if _ _ e) by done.
      rewrite decide_True by congruence. intros [= <-]. simpl. lia.
  - intros [= <-]. apply advances_new. simpl. congruence.
Qed.

Lemma advances_step ws e c : Inv c → advances ws c (step c e).
Proof.
  intros HI. destruct e as [ws' g|ws' g|ws' g|l|ws'|ws'|ws'|n|n]; simpl.
  - destruct (activate ws' g c) eqn:E; [by eapply advances_activate|apply advances_refl].
  - rewrite observe_fst. apply advances_seed.
  - unfold acquire. pose proof (advances_seed ws ws' g c) as Hs. rewrite <- observe_fst in Hs.
    destruct (observe ws' g c) as [c1 [i|m]]; simpl in *; [|done].
    destruct (epochs c1 !! i) as [e|] eqn:Hi; [|done]. eapply advances_trans; [exact Hs|].
    by eapply (advances_set _ i e (take_lease e)).
  - unfold release. destruct (lease_table c !! l) as [x|]; [|apply advances_refl].
    destruct (released x); [apply advances_refl|]. cbv zeta.
    destruct (epochs _ !! _) as [e|] eqn:He; [|by apply advances_same]. simpl in He.
    set (c1 := with_leases _ c). set (c2 := set_epoch (lease_epoch x) _ c1).
    apply (advances_trans _ _ c2);
      [by eapply (advances_set _ (lease_epoch x) e (drop_lease (leaseId x) e))|].
    apply (advances_trans _ _ (resolveDrain (lease_epoch x) c2)); [apply advances_resolve|].
    unfold forget_retired. repeat case_match; by apply advances_same.
  - apply advances_block.
  - eapply advances_trans; [apply (advances_block ws ws')|]. by apply advances_same.
  - unfold beginDeletion. destruct (deletions c !! ws'); simpl; [apply advances_refl|].
    eapply advances_trans; [apply (advances_block ws ws')|]. by apply advances_same.
  - unfold finish. destruct (deletion_table c !! n); by apply advances_same.
  - unfold complete. destruct (deletion_table c !! n) as [x|]; [|by apply advances_same].
    case_match; by apply advances_same.
Qed.

Lemma revoked_advances ws g c c' : revoked_upto ws g c → advances ws c c' → revoked_upto ws g c'.
Proof.
  intros (i & e & Hi & He & Hg) Ha. destruct (Ha i e Hi He) as (i' & e' & Hi' & He' & Hg').
  exists i', e'. split_and!; [done|done|]. destruct Hg as [?|[? ?]], Hg' as [?|[-> ?]]; [left; lia..|].
  right. auto.
Qed.

Lemma revoked_run ws g c evs : Inv c → revoked_upto ws g c → revoked_upto ws g (run_events step c evs).
Proof.
  intros HI Hr. revert c HI Hr. induction evs as [|e evs IH]; intros c HI Hr; simpl; [done|].
  apply IH; [by apply inv_step|]. eapply revoked_advances; [done|by apply advances_step].
Qed.

Lemma revoked_rejects ws g c :
  revoked_upto ws g c → (observe ws g c).2 = revoked ∧ (acquire ws g c).2 = revoked.
Proof.
  intros (i & e & Hi & He & Hg).
  assert (observe ws g c = (c, revoked)) as Ho.
  { unfold observe, seed. rewrite Hi, Hi, He. destruct Hg as [Hlt|[_ ->]]; [|done].
    rewrite (proj2 (Z.eqb_neq (generation e) g)) by lia. by rewrite orb_true_r. }
  unfold acquire. by rewrite Ho.
Qed.

Lemma revoked_upto_le ws g g' c : g' ≤ g → revoked_upto ws g c → revoked_upto ws g' c.
Proof.
  intros Hle (i & e & Hi & He & Hg). exists i, e. split_and!; [done|done|].
  destruct Hg as [?|[? ?]]; [left; lia|right; split; [lia|done]].
Qed.

(** *** Who touches the deletions *)

Lemma block_deletions ws c : (block ws c).(deletions) = c.(deletions).
Proof. unfold block, resolveDrain. by repeat (case_match; simpl). Qed.

Lemma seed_deletions ws g c : (seed ws g c).(deletions) = c.(deletions).
Proof. unfold seed. by case_match. Qed.

Lemma step_deletions c ev ws :
  (step c ev).(deletions) !! ws ≠ c.(deletions) !! ws →
  (c.(deletions) !! ws = None ∧ ev = BeginDeletion ws) ∨
  ∃ n x, ev = Complete n ∧ c.(deletion_table) !! n = Some x ∧ x.(finished) = true ∧
    is_drained x.(drained) c = true ∧ c.(deletions) !! ws = Some n.
Proof.
  destruct ev as [ws' g|ws' g|ws' g|l|ws'|ws'|ws'|n|n]; simpl.
  - destruct (activate ws' g c) as [c'|] eqn:E; [|done]. unfold activate in E.
    repeat (case_match; try done); simplify_eq/=; done.
  - by rewrite observe_fst, seed_deletions.
  - unfold acquire. pose proof (seed_deletions ws' g c) as Hs. rewrite <- observe_fst in Hs.
    destruct (observe ws' g c) as [c1 [i|m]]; simpl in *; [|by rewrite Hs].
    case_match; simpl; by rewrite Hs.
  - unfold release, forget_retired, resolveDrain. by repeat (case_match; simpl).
  - by rewrite block_deletions.
  - by rewrite block_deletions.
  - unfold beginDeletion. destruct (deletions c !! ws') eqn:Hd; [done|]. simpl.
    rewrite block_deletions, lookup_insert. case_decide; subst; [|done]. by left.
  - unfold finish. by case_match.
  - unfold complete. destruct (deletion_table c !! n) as [x|] eqn:Hx; [|done].
    destruct (finished x) eqn:Hf; [|done]. destruct (completed x); [done|]. simpl.
    destruct (is_drained (drained x) c) eqn:Hdr; [|done]. simpl.
    case_bool_decide as Hd; [|done]. rewrite lookup_delete. case_decide; subst; [|done].
    intros _. right. by exists n, x.
Qed.

(** ** Theorems *)

(** A drain promise is exact.  In every reachable state, a promise handed out by
    [blockAndDrain] or [beginDeletion] is resolved exactly when every lease of the
    workspace handed out before it has been released, whichever
    generation it belongs to. *)
Theorem drain_exact evs n d :
  let c := reachable evs in
  c.(drain_table) !! n = Some d →
  (d.(waits_for) = ∅ ↔
   ∀ l i k b e, (l < d.(taken_before))%nat → lease_of c l i k b →
     c.(epochs) !! i = Some e → e.(workspace) = d.(drain_ws) → b = true).
Proof.
  intros c Hn. destruct (coordinator_reachable evs) as [He Hl Hd _]. fold c in He, Hl, Hd.
  destruct (Hd n d Hn) as (_ & Hw & Hall). split.
  - intros Hemp l i k [] e Hlt Hlk Hi Hws; [done|].
    pose proof (Hall l i k e Hlk Hlt Hi Hws) as Hin. rewrite Hemp in Hin.
    by apply elem_of_empty in Hin.
  - intros Hrel. apply elem_of_equiv_empty_L. intros i Hi.
    destruct (Hw i Hi) as (_ & Hne & (e & Hie & Hws) & Hlt).
    unfold leases_of in Hne. rewrite Hie in Hne. apply set_choose_L in Hne as [k Hk].
    apply (lo_live c Hl i e k Hie) in Hk as (l & Hlk).
    pose proof (Hrel l i k false e (Hlt _ _ _ Hlk) Hlk Hie Hws). done.
Qed.

(** Two leases taken, a reinstall, an uninstall that waits for both generations. *)
Definition demo_events : list event :=
  [Activate "w" 1; Acquire "w" 1; Activate "w" 2; Acquire "w" 2; BeginDeletion "w";
   Release 1; Release 0; Finish 0].

Lemma drain_exact_witness :
  let c := reachable demo_events in
  ∃ d, c.(drain_table) !! 0%nat = Some d ∧
  (d.(waits_for) = ∅ ↔
   ∀ l i k b e, (l < d.(taken_before))%nat → lease_of c l i k b →
     c.(epochs) !! i = Some e → e.(workspace) = d.(drain_ws) → b = true).
Proof.
  cbv zeta. eexists. split; [vm_compute; reflexivity|].
  apply (drain_exact demo_events 0%nat). vm_compute. reflexivity.
Defined.

(** Revocation is immediate and permanent.  After [block], the signal of every
    lease and observation of the workspace is aborted, and neither [acquire] nor
    [observe] ever succeeds again for the generation that was current or an older one,
    whatever happens later (only a later generation can be used). *)
Theorem revocation_permanent evs ws evs' :
  let c := block ws (reachable evs) in
  (∀ i e, c.(epochs) !! i = Some e → e.(workspace) = ws → e.(aborted) = true) ∧
  ∃ i e, c.(states) !! ws = Some i ∧ c.(epochs) !! i = Some e ∧
    ∀ g, g ≤ e.(generation) →
      let c' := run_events step c evs' in
      (observe ws g c').2 = revoked ∧ (acquire ws g c').2 = revoked.
Proof.
  cbv zeta. pose proof (coordinator_reachable evs) as HI. pose proof (inv_block ws _ HI) as HI'.
  destruct (block_current ws _ HI) as (i & e & Hi & He).
  pose proof (block_blocked ws _ i e HI Hi He) as Hb. split.
  - intros j x Hx Hw. apply (eo_aborted _ (inv_epochs _ HI') j x Hx). rewrite Hw, Hi.
    destruct (decide (i = j)) as [->|]; [left; congruence|right; congruence].
  - exists i, e. split_and!; [done|done|]. intros g Hg. apply revoked_rejects, revoked_run; [done|].
    exists i, e. auto.
Qed.

(** C35: an uninstall fences the workspace.  While a deletion is pending nothing can be
    activated, observed or acquired in the workspace, and the fence is lifted
    only by the completion of that deletion, after its owner finished and after every
    lease ever handed out in the workspace has been released. *)
Theorem deletion_fence evs ws n :
  let c := reachable evs in
  c.(deletions) !! ws = Some n →
  (∀ g, is_ok (activate ws g c) = false ∧ is_ok (observe ws g c).2 = false ∧
        is_ok (acquire ws g c).2 = false) ∧
  ∀ ev, (step c ev).(deletions) !! ws ≠ Some n →
    ev = Complete n ∧ (∃ x, c.(deletion_table) !! n = Some x ∧ x.(finished) = true) ∧
    ∀ l i k b e, lease_of c l i k b → c.(epochs) !! i = Some e → e.(workspace) = ws → b = true.
Proof.
  intros c Hn. pose proof (coordinator_reachable evs) as HI. fold c in HI.
  destruct (do_blocked c (inv_deletions c HI) ws n Hn) as (j & y & Hj & Hy & Hyb). split.
  - intros g. unfold acquire. assert (observe ws g c = (c, revoked)) as ->.
    { unfold observe, seed. by rewrite Hj, Hj, Hy, Hyb. }
    unfold activate. rewrite Hn. by destruct (_ && _)%bool.
  - intros ev Hne. rewrite <- Hn in Hne. apply step_deletions in Hne as [[? _]|
      (m & x & -> & Hx & Hf & Hdr & Hm)]; [congruence|].
    assert (m = n) as -> by congruence. split_and!; [done|by exists x|].
    destruct (do_pending c (inv_deletions c HI) ws n Hn) as (x' & d & Hx' & _ & Hd & Hdw & Hlt).
    assert (x' = x) as -> by congruence.
    unfold is_drained in Hdr. rewrite Hd in Hdr. apply bool_decide_eq_true in Hdr.
    intros l i k [] e Hlk Hi Hw; [done|].
    destruct (inv_drains c HI _ d Hd) as (_ & _ & Hall).
    assert (i ∈ waits_for d) as Hin by (eapply Hall; [done|by eapply Hlt|done|congruence]).
    rewrite Hdr in Hin. by apply elem_of_empty in Hin.
Qed.

Lemma deletion_fence_witness :
  let c := reachable demo_events in
  (∀ g, is_ok (activate "w" g c) = false ∧ is_ok (observe "w" g c).2 = false ∧
        is_ok (acquire "w" g c).2 = false) ∧
  (∀ ev, (step c ev).(deletions) !! "w" ≠ Some 0%nat →
    ev = Complete 0 ∧ (∃ x, c.(deletion_table) !! 0%nat = Some x ∧ x.(finished) = true) ∧
    ∀ l i k b e, lease_of c l i k b → c.(epochs) !! i = Some e → e.(workspace) = "w" → b = true) ∧
  (step c (Complete 0)).(deletions) !! "w" = None.
Proof.
  cbv zeta. destruct (deletion_fence demo_events "w" 0%nat) as [H1 H2]; [vm_compute; reflexivity|].
  split; [exact H1|split; [exact H2|vm_compute; reflexivity]].
Defined.
