(* ===== verification/ActionResults.v ===== *)
(** * Canonical results and their durable summaries

    [db/action-results.ts]: the JSON form in which a result is stored and the
    bounded summary kept beside it.  Property assignments are plain: a key named
    [__proto__], which [result[key] = ...] would hand to the legacy setter, is data here. *)
From S2P Require Import Prelude Js SafeJson.
Open Scope Z_scope.

Definition ACTION_RESULT_SUMMARY_MAX_BYTES : Z := 65536.

Inductive ActionResultKind : Set := succeeded | partial | definitive_failed | outcome_unknown.

#[export] Instance result_kind_dec : EqDecision ActionResultKind.
Proof. solve_decision. Defined.

Record ActionResultRef := { ref_id : jstr; ref_kind : ActionResultKind; ref_summary : jsval }.

(** ** [JSON.parse(JSON.stringify(value))] *)

Fixpoint json_value (v : jsval) : option jsval :=
  match v with
  | VUndef | VFun => None
  | VNull | VBool _ | VStr _ => Some v
  | VNum n => Some (match n with NumNaN | NumInf _ => VNull | _ => v end)
  | VArr l => Some (VArr ((λ x, default VNull (json_value x)) <$> l))
  | VObj fs => Some (VObj (own_entries (omap (λ f, x ← json_value f.2; Some (f.1, x)) fs)))
  | VBytes bs => Some (VObj (imap (λ i b, (digits (N.of_nat i), num (Z.of_N b))) bs))
  | VBuffer => Some (VObj [])
  end.

(** [jsonClone] and [actionResultJson]: what a JSON column gives back. *)
Definition jsonClone (v : jsval) : result jsval :=
  match json_value v with
  | Some x => Ok x
  | None => Throw "action_result_not_json"
  end.
Definition actionResultJson (v : jsval) : result jsval := jsonClone v.

Definition jsonBytes (v : jsval) : Z := jsonByteLength v.

(** ** Replacing data by pointers *)

(** [ends_with] on a key, as the alternatives [Id$], [Ids$], [_id$], [_ids$]. *)
Definition id_key (key : jstr) : bool :=
  bool_decide (key = u "id") || ends_with (u "Id") key || ends_with (u "Ids") key ||
  ends_with (u "_id") key || ends_with (u "_ids") key.

Definition data_pointer (actionResultId : jstr) (child : jsval) : jsval :=
  VObj [(u "actionResultId", VStr actionResultId); (u "originalByteCount", num (jsonBytes child))].

Fixpoint replaceData (actionResultId : jstr) (v : jsval) : jsval :=
  match v with
  | VArr l => VArr (replaceData actionResultId <$> l)
  | VObj fs =>
      VObj (own_entries ((λ f, (f.1, if decide (f.1 = u "data") then data_pointer actionResultId f.2
                                     else replaceData actionResultId f.2)) <$> fs))
  | _ => v
  end.

Definition CRITICAL_KEYS : list jstr :=
  u <$> ["kind"; "receipt"; "ok"; "action"; "status"; "changed"; "warnings"; "error";
         "recovery"; "message"; "code"; "outcome"; "data"; "ids"].

Definition criticalKey (key : jstr) : bool := bool_decide (key ∈ CRITICAL_KEYS) || id_key key.

(** ** Compaction *)

Section Compact.
Context (stringLimit arrayLimit : Z).

Definition compact_source (fs : list (jstr * jsval)) : list (jstr * jsval) :=
  let selected := filter (λ f, criticalKey f.1 = true) fs in
  if bool_decide (selected = []) then fs else selected.

Fixpoint compactCritical (v : jsval) : jsval :=
  match v with
  | VStr s =>
      if str_length s <=? stringLimit then v
      else VStr (slice (Z.max 0 (stringLimit - 1)) s ++ [8230%N])
  | VArr l =>
      VArr (take (Z.to_nat arrayLimit) (compactCritical <$> l) ++
            (if arrayLimit <? Z.of_nat (length l)
             then [truncated_items (Z.of_nat (length l))] else []))
  | VObj fs => VObj (compact_source (own_entries ((λ f, (f.1, compactCritical f.2)) <$> fs)))
  | _ => v
  end.
End Compact.

(** The first of the candidates that fits the byte cap. *)
Definition first_fitting (cap : Z) (candidates : list jsval) : option jsval :=
  list_find (λ v, jsonBytes v ≤ cap) candidates ≫= λ p, Some p.2.

Definition boundedRequiredField (v : jsval) : jsval :=
  if jsonBytes v <=? 4096 then v
  else
    match first_fitting 4096
            ((λ p, compactCritical p.1 p.2 v) <$> [(512, 8); (256, 4); (128, 2)]) with
    | Some c => c
    | None =>
        let encoded := stringify v in
        VObj [(u "truncated", VBool true);
              (u "originalByteCount", num (Z.of_N (utf8_length encoded)));
              (u "preview", VStr (slice 512 encoded))]
    end.

Definition REQUIRED_FIELDS : list jstr :=
  u <$> ["ok"; "action"; "status"; "id"; "ids"; "changed"; "changes"; "warnings"; "error";
         "recovery"; "message"; "code"; "outcome"; "data"].

Definition requiredFieldFallback (actionResultId : jstr) (full withoutData : jsval) : jsval :=
  let root := match withoutData with VObj fs => fs | _ => [] end in
  let receipt := match fields_get (u "receipt") root with Some (VObj fs) => fs | _ => root end in
  let required := omap (λ field,
    let source := match fields_get field receipt with Some _ => receipt | None => root end in
    v ← fields_get field source; Some (field, boundedRequiredField v)) REQUIRED_FIELDS in
  let dynamicIds := filter (λ f, id_key f.1 = true ∧ f.1 ∉ REQUIRED_FIELDS) (own_entries receipt) in
  let required := if bool_decide (dynamicIds = []) then required
                  else fields_set (u "identifiers") (boundedRequiredField (VObj dynamicIds)) required in
  let summary :=
    match fields_get (u "receipt") root with
    | Some _ =>
        (match fields_get (u "kind") root with
         | None | Some VUndef => []
         | Some k => [(u "kind", k)]
         end) ++ [(u "receipt", VObj required)]
    | None => required
    end in
  VObj (fields_spread summary
    [(u "actionResultId", VStr actionResultId); (u "originalByteCount", num (jsonBytes full));
     (u "truncated", VBool true)]).

Definition buildActionResultSummary (actionResultId : jstr) (value : jsval) : result jsval :=
  let! full := jsonClone value in
  if jsonBytes full <=? ACTION_RESULT_SUMMARY_MAX_BYTES then Ok full
  else
    let withoutData := replaceData actionResultId full in
    if jsonBytes withoutData <=? ACTION_RESULT_SUMMARY_MAX_BYTES then Ok withoutData
    else
      match first_fitting ACTION_RESULT_SUMMARY_MAX_BYTES
              ((λ p, compactCritical p.1 p.2 withoutData) <$>
                 [(4096, 64); (2048, 32); (1024, 16); (512, 8); (256, 4)]) with
      | Some c => Ok c
      | None => Ok (requiredFieldFallback actionResultId full withoutData)
      end.

Lemma first_fitting_fits cap l v : first_fitting cap l = Some v → jsonBytes v ≤ cap ∧ v ∈ l.
Proof.
  unfold first_fitting. destruct (list_find _ l) as [[i x]|] eqn:E; [|done]. intros [= <-].
  apply list_find_Some in E as (Hi & Hx & _). split; [done|]. by eapply list_elem_of_lookup_2.
Qed.

(** What the tables rely on: a stored summary is never over the cap of its column,
    except when even the required-field fallback is. *)
Lemma summary_shape actionResultId value summary :
  buildActionResultSummary actionResultId value = Ok summary →
  ∃ full, jsonClone value = Ok full ∧
  (jsonBytes full ≤ ACTION_RESULT_SUMMARY_MAX_BYTES → summary = full) ∧
  (jsonBytes summary ≤ ACTION_RESULT_SUMMARY_MAX_BYTES ∨
   summary = requiredFieldFallback actionResultId full (replaceData actionResultId full)).
Proof.
  unfold buildActionResultSummary. rewrite rbind_ok. intros (full & Hf & Hs).
  exists full. split; [done|].
  destruct (Z.leb_spec (jsonBytes full) ACTION_RESULT_SUMMARY_MAX_BYTES); simplify_eq; [auto|].
  split; [lia|]. cbv zeta in Hs.
  destruct (Z.leb_spec (jsonBytes (replaceData actionResultId full)) ACTION_RESULT_SUMMARY_MAX_BYTES);
    simplify_eq; [by left|].
  destruct (first_fitting _ _) as [c|] eqn:E; simplify_eq; [|by right].
  left. by apply first_fitting_fits in E as [? _].
Qed.
