(* ===== verification/SessionTables.v ===== *)
(** * The tables of a chat session

    [chat_sessions], [chat_messages] with their result links, [turn_message_links],
    [audit_events], [pending_clarifications], [entity_references], [intent_capabilities] and
    [intent_capability_usage] of [db/schema.ts], part of the database of file Db. *)
From S2P Require Import Prelude Js.
Open Scope Z_scope.
#[local] Arguments u : simpl never.

(** ** Sessions and messages *)

Record ChatSessionRow := {
  chat_workspace : jstr;
  chat_admin : jstr;
  chat_created_at : Z;
  chat_last_seen_at : Z;
  chat_expires_at : Z;
}.

Inductive ChatRole : Set := role_user | role_assistant | role_system.
#[export] Instance chat_role_dec : EqDecision ChatRole.
Proof. solve_decision. Defined.

(** The columns of [chat_message_result_links] and [turn_run_result_links]: a canonical
    result, a pointer to a confirmation, or the JSON of an inline or preview descriptor. *)
Inductive DurableLink : Type :=
| link_action_result (actionResultId : jstr)
| link_confirmation (confirmationId : jstr)
| link_descriptor (is_preview : bool) (descriptor : option jsval).

Record MessageRow := {
  message_id : jstr;
  message_session : jstr;
  message_workspace : jstr;
  message_admin : jstr;
  message_role : ChatRole;
  message_content : jstr;
  message_payload : option jsval;
  message_created_at : Z;
  message_links : list DurableLink;
}.

(** A message belongs to one claimed turn, in one role. *)
Record TurnMessageLink := {
  turn_link_session : jstr;
  turn_link_request : jstr;
  turn_link_role : ChatRole;
  turn_link_message : jstr;
}.

Record AuditRow := {
  audit_workspace : jstr;
  audit_admin : jstr;
  audit_session : option jstr;
  audit_action : jstr;
  audit_risk : jsval;
  audit_result : jstr;
  audit_summary : jsval;
  audit_created_at : Z;
}.

(** ** Clarifications and references *)

Inductive ClarificationStatus : Set := CPending | CResolving | CResolved | CContinued | CExpired | CCancelled.
#[export] Instance clarification_status_dec : EqDecision ClarificationStatus.
Proof. solve_decision. Defined.
Inductive TerminalReason : Set :=
| selected_option | free_text_continuation | reason_expired | superseded | stale_replaced | user_cancelled.
#[export] Instance clarification_reason_dec : EqDecision TerminalReason.
Proof. solve_decision. Defined.

Record ClarificationScope := {
  clar_session : jstr;
  clar_run : jstr;
  clar_workspace : jstr;
  clar_admin : jstr;
}.
#[export] Instance clarification_scope_dec : EqDecision ClarificationScope.
Proof. solve_decision. Defined.

Record ClarificationRow := {
  clar_scope : ClarificationScope;
  original_tool_name : jstr;
  partial_arguments : jsval;
  missing_field : jstr;
  candidates_json : jsval;
  clar_status : ClarificationStatus;
  selected_option_id : option jstr;
  terminal_reason : option TerminalReason;
  clar_result_id : option jstr;
  clar_operation_id : option jstr;
  clar_expires_at : Z;
  clar_created_at : Z;
  clar_updated_at : Z;
  resolved_at : option Z;
}.

Inductive ReferenceStatus : Set := RefActive | RefStale | RefDeleted.
#[export] Instance reference_status_dec : EqDecision ReferenceStatus.
Proof. solve_decision. Defined.

Record ReferenceScope := { ref_session : jstr; ref_workspace : jstr; ref_admin : jstr }.
#[export] Instance reference_scope_dec : EqDecision ReferenceScope.
Proof. solve_decision. Defined.

Record EntityReferenceRow := {
  ref_scope : ReferenceScope;
  entity_type : jstr;
  external_ref : jstr;
  display_name : jstr;
  bindings_json : jsval;
  binding_fingerprint : jstr;
  source_run : jstr;
  ref_status : ReferenceStatus;
  verified_at : Z;
  ref_created_at : Z;
  ref_updated_at : Z;
}.

(** ** Intent capabilities *)

Record CapabilityRow := {
  cap_workspace : jstr;
  cap_admin : jstr;
  cap_session : jstr;
  cap_request : jstr;
  cap_request_hash : jstr;
  cap_catalog_hash : jstr;
  cap_hash : jstr;
  capability_json : jsval;
  cap_created_at : Z;
}.

Record UsageRow := {
  usage_capability : jstr;
  usage_operation : jstr;
  usage_action : jstr;
  execution_index : Z;
}.

(** ** The tables *)

Record SessionTables := {
  chat_sessions : gmap jstr ChatSessionRow;
  chat_messages : list MessageRow;                 (** in the order of their [rowid] *)
  turn_message_links : list TurnMessageLink;
  audit_events : list AuditRow;
  pending_clarifications : gmap jstr ClarificationRow;
  entity_references : gmap jstr EntityReferenceRow;
  intent_capabilities : gmap jstr CapabilityRow;
  capability_usage : list UsageRow;
}.
Definition empty_session_tables : SessionTables :=
  {| chat_sessions := ∅; chat_messages := []; turn_message_links := []; audit_events := [];
     pending_clarifications := ∅; entity_references := ∅; intent_capabilities := ∅; capability_usage := [] |}.

Definition set_chat_sessions (t : gmap jstr ChatSessionRow) (x : SessionTables) : SessionTables :=
  {| chat_sessions := t; chat_messages := x.(chat_messages); turn_message_links := x.(turn_message_links);
     audit_events := x.(audit_events); pending_clarifications := x.(pending_clarifications);
     entity_references := x.(entity_references); intent_capabilities := x.(intent_capabilities);
     capability_usage := x.(capability_usage) |}.
Definition set_messages (l : list MessageRow) (x : SessionTables) : SessionTables :=
  {| chat_sessions := x.(chat_sessions); chat_messages := l; turn_message_links := x.(turn_message_links);
     audit_events := x.(audit_events); pending_clarifications := x.(pending_clarifications);
     entity_references := x.(entity_references); intent_capabilities := x.(intent_capabilities);
     capability_usage := x.(capability_usage) |}.
Definition set_message_links (l : list TurnMessageLink) (x : SessionTables) : SessionTables :=
  {| chat_sessions := x.(chat_sessions); chat_messages := x.(chat_messages); turn_message_links := l;
     audit_events := x.(audit_events); pending_clarifications := x.(pending_clarifications);
     entity_references := x.(entity_references); intent_capabilities := x.(intent_capabilities);
     capability_usage := x.(capability_usage) |}.
Definition set_audit (l : list AuditRow) (x : SessionTables) : SessionTables :=
  {| chat_sessions := x.(chat_sessions); chat_messages := x.(chat_messages);
     turn_message_links := x.(turn_message_links); audit_events := l;
     pending_clarifications := x.(pending_clarifications); entity_references := x.(entity_references);
     intent_capabilities := x.(intent_capabilities); capability_usage := x.(capability_usage) |}.
Definition set_clarifications (t : gmap jstr ClarificationRow) (x : SessionTables) : SessionTables :=
  {| chat_sessions := x.(chat_sessions); chat_messages := x.(chat_messages);
     turn_message_links := x.(turn_message_links); audit_events := x.(audit_events);
     pending_clarifications := t; entity_references := x.(entity_references);
     intent_capabilities := x.(intent_capabilities); capability_usage := x.(capability_usage) |}.
Definition set_references (t : gmap jstr EntityReferenceRow) (x : SessionTables) : SessionTables :=
  {| chat_sessions := x.(chat_sessions); chat_messages := x.(chat_messages);
     turn_message_links := x.(turn_message_links); audit_events := x.(audit_events);
     pending_clarifications := x.(pending_clarifications); entity_references := t;
     intent_capabilities := x.(intent_capabilities); capability_usage := x.(capability_usage) |}.
Definition set_capabilities (t : gmap jstr CapabilityRow) (x : SessionTables) : SessionTables :=
  {| chat_sessions := x.(chat_sessions); chat_messages := x.(chat_messages);
     turn_message_links := x.(turn_message_links); audit_events := x.(audit_events);
     pending_clarifications := x.(pending_clarifications); entity_references := x.(entity_references);
     intent_capabilities := t; capability_usage := x.(capability_usage) |}.
Definition set_usage (l : list UsageRow) (x : SessionTables) : SessionTables :=
  {| chat_sessions := x.(chat_sessions); chat_messages := x.(chat_messages);
     turn_message_links := x.(turn_message_links); audit_events := x.(audit_events);
     pending_clarifications := x.(pending_clarifications); entity_references := x.(entity_references);
     intent_capabilities := x.(intent_capabilities); capability_usage := l |}.
