(* ===== verification/RunTables.v ===== *)
(** * The tables of the assistant's runs

    [turn_runs], [assistant_runs], [run_events], [assistant_run_result_links],
    [assistant_run_request_links], [confirmation_batches] and
    [confirmation_batch_items] of [db/schema.ts], part of the database of file Db.  A
    table whose rows are only appended is a list. *)
From S2P Require Import Prelude Js SessionTables.
From S2P Require RunBudget.
Open Scope Z_scope.
#[local] Arguments u : simpl never.

(** ** Turns *)

Inductive TurnStatus : Set := TurnPrepared | TurnExecuting | TurnSucceeded | TurnFailed | TurnOutcomeUnknown.
#[export] Instance turn_status_dec : EqDecision TurnStatus.
Proof. solve_decision. Defined.

(** Keyed by (session, request); with its rows of [turn_run_result_links], in order. *)
Record TurnRow := {
  turn_workspace : jstr;
  turn_admin : jstr;
  intent_hash : jstr;
  turn_status : TurnStatus;
  response_envelope : option jsval;
  turn_links : list DurableLink;
  turn_created_at : Z;
  turn_updated_at : Z;
}.

(** ** Runs *)

Inductive AuthClass : Set := addon | api_key.
#[export] Instance auth_class_dec : EqDecision AuthClass.
Proof. solve_decision. Defined.

Inductive RunContinuation : Type :=
| continue_none
| awaiting_operations (operationIds : list jstr) (batchId : option jstr)
| awaiting_clarification (clarificationId : jstr).

(** Keyed by (session, run).  A JSON column holds its decoded value. *)
Record AssistantRunRow := {
  arun_workspace : jstr;
  arun_admin : jstr;
  arun_generation : Z;
  arun_auth : AuthClass;
  original_request : jstr;
  arun_request_hash : jstr;
  phase : RunBudget.RunPhase;
  arun_catalog_hash : jstr;
  loaded_tool_names : list jstr;
  used_tool_names : list jstr;
  continuation : RunContinuation;
  budget_json : RunBudget.RunBudget;
  unfinished_operations : jsval;
  arun_created_at : Z;
  arun_updated_at : Z;
}.

Record RunEventRow := {
  event_session : jstr;
  event_run : jstr;
  event_sequence : Z;
  event_workspace : jstr;
  event_admin : jstr;
  event_type : string;
  payload_json : jsval;
  event_created_at : Z;
}.

Record ResultLinkRow := {
  link_session : jstr;
  link_run : jstr;
  link_sequence : Z;
  link_tool_call : jstr;
  link_action : jstr;
  link_result : jstr;
}.

Record RequestLinkRow := {
  request_session : jstr;
  request_request : jstr;
  request_run : jstr;
  request_initial : bool;       (** [kind = 'initial'] *)
}.

(** ** Confirm-all batches *)

Inductive BatchStatus : Set :=
| BPending | BExecuting | BSucceeded | BPartial | BDefinitiveFailed | BOutcomeUnknown | BCancelled | BExpired.
#[export] Instance batch_status_dec : EqDecision BatchStatus.
Proof. solve_decision. Defined.
Inductive ItemStatus : Set :=
| IPending | IExecuting | ISucceeded | IDefinitiveFailed | IOutcomeUnknown | ICancelled.
#[export] Instance item_status_dec : EqDecision ItemStatus.
Proof. solve_decision. Defined.

Record BatchRow := {
  batch_session : jstr;
  batch_run : jstr;
  batch_workspace : jstr;
  batch_admin : jstr;
  ordered_tuple_hash : jstr;
  batch_status : BatchStatus;
  current_index : Z;
  batch_result_id : option jstr;
  batch_expires_at : option Z;          (** [None]: a text that is not a date *)
  batch_created_at : Z;
  batch_started_at : option Z;
  batch_completed_at : option Z;
}.

(** An item of a batch; its scope is the batch's, its [item_index] its position. *)
Record BatchItemRow := {
  item_confirmation : jstr;
  item_operation : jstr;
  item_status : ItemStatus;
  item_result_id : option jstr;
  item_started_at : option Z;
  item_completed_at : option Z;
}.

(** ** The tables *)

Record RunTables := {
  turn_runs : gmap (jstr * jstr) TurnRow;
  assistant_runs : gmap (jstr * jstr) AssistantRunRow;
  run_events : list RunEventRow;
  result_links : list ResultLinkRow;
  request_links : list RequestLinkRow;
  confirmation_batches : gmap jstr BatchRow;
  batch_items : gmap jstr (list BatchItemRow);
}.
Definition empty_tables : RunTables :=
  {| turn_runs := ∅; assistant_runs := ∅; run_events := []; result_links := []; request_links := [];
     confirmation_batches := ∅; batch_items := ∅ |}.

Definition set_turns (t : gmap (jstr * jstr) TurnRow) (x : RunTables) : RunTables :=
  {| turn_runs := t; assistant_runs := x.(assistant_runs); run_events := x.(run_events);
     result_links := x.(result_links); request_links := x.(request_links);
     confirmation_batches := x.(confirmation_batches); batch_items := x.(batch_items) |}.
Definition set_aruns (t : gmap (jstr * jstr) AssistantRunRow) (x : RunTables) : RunTables :=
  {| turn_runs := x.(turn_runs); assistant_runs := t; run_events := x.(run_events);
     result_links := x.(result_links); request_links := x.(request_links);
     confirmation_batches := x.(confirmation_batches); batch_items := x.(batch_items) |}.
Definition set_events (l : list RunEventRow) (x : RunTables) : RunTables :=
  {| turn_runs := x.(turn_runs); assistant_runs := x.(assistant_runs); run_events := l;
     result_links := x.(result_links); request_links := x.(request_links);
     confirmation_batches := x.(confirmation_batches); batch_items := x.(batch_items) |}.
Definition set_result_links (l : list ResultLinkRow) (x : RunTables) : RunTables :=
  {| turn_runs := x.(turn_runs); assistant_runs := x.(assistant_runs); run_events := x.(run_events);
     result_links := l; request_links := x.(request_links);
     confirmation_batches := x.(confirmation_batches); batch_items := x.(batch_items) |}.
Definition set_request_links (l : list RequestLinkRow) (x : RunTables) : RunTables :=
  {| turn_runs := x.(turn_runs); assistant_runs := x.(assistant_runs); run_events := x.(run_events);
     result_links := x.(result_links); request_links := l;
     confirmation_batches := x.(confirmation_batches); batch_items := x.(batch_items) |}.
Definition set_batches (t : gmap jstr BatchRow) (x : RunTables) : RunTables :=
  {| turn_runs := x.(turn_runs); assistant_runs := x.(assistant_runs); run_events := x.(run_events);
     result_links := x.(result_links); request_links := x.(request_links);
     confirmation_batches := t; batch_items := x.(batch_items) |}.
Definition set_items (t : gmap jstr (list BatchItemRow)) (x : RunTables) : RunTables :=
  {| turn_runs := x.(turn_runs); assistant_runs := x.(assistant_runs); run_events := x.(run_events);
     result_links := x.(result_links); request_links := x.(request_links);
     confirmation_batches := x.(confirmation_batches); batch_items := t |}.

(** A reference to [assistant_runs] with its scope. *)
Definition run_in_scope (x : RunTables) (session run workspace admin : jstr) : bool :=
  match x.(assistant_runs) !! (session, run) with
  | Some r => bool_decide (r.(arun_workspace) = workspace) && bool_decide (r.(arun_admin) = admin)
  | None => false
  end.
