(* ===== verification/Db.v ===== *)
(** * The durable tables

    The SQLite tables the operation journal, the confirmations, the undo ledger and the
    idempotency ledger share ([db/schema.ts]), as finite maps from primary keys to rows; the
    constraints and triggers that guard them; and the error monad in which the store
    modules are written.  A transaction is a computation whose exception discards its
    state.  A JSON column holds the value [JSON.parse] gives back (the schema checks
    [json_valid]); a timestamp is an instant in milliseconds; [randomUUID] values and the clock are
    arguments. *)
From S2P Require Import Prelude Js SafeJson ActionResults SessionTables RunTables.
Open Scope Z_scope.

(** ** Row types *)

Inductive OperationRunStatus : Set :=
| RunPrepared | RunExecuting | RunSucceeded | RunPartial | RunDefinitiveFailed | RunOutcomeUnknown.

Inductive StepKind : Set := primary | compensation.

Inductive StepStatus : Set :=
| StepPrepared | StepExecuting | StepSucceeded | StepDefinitiveFailed | StepOutcomeUnknown
| StepCompensating | StepCompensated | StepCompensationFailed | StepSkipped.

Inductive PendingStatus : Set :=
| PPending | PExecuting | PSucceeded | PPartial | PDefinitiveFailed | POutcomeUnknown
| PCancelled | PExpired.

#[export] Instance run_status_dec : EqDecision OperationRunStatus.
Proof. solve_decision. Defined.
#[export] Instance step_kind_dec : EqDecision StepKind.
Proof. solve_decision. Defined.
#[export] Instance step_status_dec : EqDecision StepStatus.
Proof. solve_decision. Defined.
#[export] Instance pending_status_dec : EqDecision PendingStatus.
Proof. solve_decision. Defined.

(** The terminal statuses a run is settled with. *)
Definition run_status_of (k : ActionResultKind) : OperationRunStatus :=
  match k with
  | succeeded => RunSucceeded | partial => RunPartial
  | definitive_failed => RunDefinitiveFailed | outcome_unknown => RunOutcomeUnknown
  end.
Definition pending_status_of (k : ActionResultKind) : PendingStatus :=
  match k with
  | succeeded => PSucceeded | partial => PPartial
  | definitive_failed => PDefinitiveFailed | outcome_unknown => POutcomeUnknown
  end.

(** The discriminator columns shared by previews and operations. *)
Record Discriminator := {
  origin : option jstr;
  registry_id : option jstr;
  authority_model : option jstr;
  executor_kind : option jstr;
  run_id : option jstr;
  field_provenance_json : option jsval;  (** [VUndef]: a text that is not JSON *)
  field_provenance_hash : option jstr;
  source_undo_id : option jstr;
  source_undo_hash : option jstr;
}.

(** [operation_runs]: what is written once, and what is updated. *)
Record OperationBinding := {
  request_id : option jstr;
  confirmation_id : option jstr;
  session_id : jstr;
  workspace_id : jstr;
  admin_user_id : jstr;
  action_name : jstr;
  action_fingerprint : jstr;
  catalog_hash : jstr;
  operation_hash : jstr;
  capability_id : option jstr;
  capability_hash : option jstr;
  discriminator : Discriminator;
  run_created_at : Z;
}.

Record OperationRunRow := {
  binding : OperationBinding;
  run_status : OperationRunStatus;
  run_result_id : option jstr;
  operation_json : jsval;
  reconciled_at : option Z;
  reconciliation_json : option jsval;
  run_batch_id : option jstr;
  run_updated_at : Z;
}.

(** [operation_steps] *)
Record StepIdentity := {
  operation_id : jstr;
  step_index : Z;
  plan_step_id : jstr;
  step_name : jstr;
  step_kind : StepKind;
  target_fingerprint : option jstr;
  compensates_step_id : option jstr;
  step_created_at : Z;
}.

Record OperationStepRow := {
  identity : StepIdentity;
  step_status : StepStatus;
  external_id : option jstr;
  effect_json : option jsval;
  detail_json : option jsval;
  queued_at : option Z;
  dispatched_at : option Z;
  settled_at : option Z;
  step_updated_at : Z;
}.

(** [action_results] *)
Record ActionResultRow := {
  result_operation_id : option jstr;
  result_workspace_id : jstr;
  result_admin_user_id : jstr;
  result_session_id : option jstr;
  result_action_name : jstr;
  result_kind : ActionResultKind;
  result_json : jsval;
  summary_json : jsval;
  result_created_at : Z;
}.

(** [pending_confirmations].  [expires_at] is [None] when the stored text is not a
    date. *)
Record PreviewBinding := {
  preview_operation_id : jstr;
  preview_session_id : jstr;
  preview_workspace_id : jstr;
  preview_admin_user_id : jstr;
  installation_generation : option Z;
  preview_operation_hash : jstr;
  preview_action_fingerprint : jstr;
  preview_catalog_hash : jstr;
  preview_capability_id : option jstr;
  preview_capability_hash : option jstr;
  preview_discriminator : Discriminator;
  expires_at : option Z;
  created_at : Z;
}.

Record PendingRow := {
  preview : PreviewBinding;
  status : PendingStatus;
  risk_json : jsval;
  preview_json : jsval;
  preview_operation_json : option jsval;
  target_fingerprints_json : jsval;
  nonce_hash : jstr;
  used_at : option Z;
  result_summary_json : option jsval;
  agent_state_json : option jsval;
  action_result_id : option jstr;
  idempotency_key : option jstr;
  batch_id : option jstr;
}.

(** [idempotency_keys], keyed by (key, workspace, admin). *)
Record IdempotencyRow := {
  idem_result_id : option jstr;
  idem_summary : option jsval;
  committed_at : option Z;
  claimed_at : Z;
}.

(** [undo_records]: what is written once, and what is updated. *)
Inductive UndoStatus : Set :=
| UAvailable | UExecuting | UPartiallyUndone | UUndone | UFailed | UOutcomeUnknown | UExpired.
#[export] Instance undo_status_dec : EqDecision UndoStatus.
Proof. solve_decision. Defined.

Record UndoBinding := {
  undo_session_id : jstr;
  undo_workspace_id : jstr;
  undo_admin_user_id : jstr;
  undo_action_name : jstr;
  undo_generation : option Z;
  undo_created_at : Z;
  undo_expires_at : Z;
}.
Record UndoRow := {
  undo_binding : UndoBinding;
  undo_status : UndoStatus;
  reversal_json : jsval;
  remaining_json : jsval;
  undone_at : option Z;
  undo_result_id : option jstr;
  undo_summary_json : option jsval;
}.

Abbreviation idem_key := (jstr * jstr * jstr)%type.

Record db := {
  operation_runs : gmap jstr OperationRunRow;
  operation_steps : gmap jstr OperationStepRow;
  action_results : gmap jstr ActionResultRow;
  pending_confirmations : gmap jstr PendingRow;
  idempotency_keys : gmap idem_key IdempotencyRow;
  undo_records : gmap jstr UndoRow;
  run_tables : RunTables;
  session_tables : SessionTables;
}.

Definition empty_db : db :=
  {| operation_runs := ∅; operation_steps := ∅; action_results := ∅;
     pending_confirmations := ∅; idempotency_keys := ∅;
     undo_records := ∅; run_tables := empty_tables; session_tables := empty_session_tables |}.

Definition set_runs (t : gmap jstr OperationRunRow) (d : db) : db :=
  {| operation_runs := t; operation_steps := d.(operation_steps);
     action_results := d.(action_results); pending_confirmations := d.(pending_confirmations);
     idempotency_keys := d.(idempotency_keys);
     undo_records := d.(undo_records); run_tables := d.(run_tables);
     session_tables := d.(session_tables) |}.
Definition set_steps (t : gmap jstr OperationStepRow) (d : db) : db :=
  {| operation_runs := d.(operation_runs); operation_steps := t;
     action_results := d.(action_results); pending_confirmations := d.(pending_confirmations);
     idempotency_keys := d.(idempotency_keys);
     undo_records := d.(undo_records); run_tables := d.(run_tables);
     session_tables := d.(session_tables) |}.
Definition set_results (t : gmap jstr ActionResultRow) (d : db) : db :=
  {| operation_runs := d.(operation_runs); operation_steps := d.(operation_steps);
     action_results := t; pending_confirmations := d.(pending_confirmations);
     idempotency_keys := d.(idempotency_keys);
     undo_records := d.(undo_records); run_tables := d.(run_tables);
     session_tables := d.(session_tables) |}.
Definition set_confirmations (t : gmap jstr PendingRow) (d : db) : db :=
  {| operation_runs := d.(operation_runs); operation_steps := d.(operation_steps);
     action_results := d.(action_results); pending_confirmations := t;
     idempotency_keys := d.(idempotency_keys);
     undo_records := d.(undo_records); run_tables := d.(run_tables);
     session_tables := d.(session_tables) |}.
Definition set_idempotency (t : gmap idem_key IdempotencyRow) (d : db) : db :=
  {| operation_runs := d.(operation_runs); operation_steps := d.(operation_steps);
     action_results := d.(action_results); pending_confirmations := d.(pending_confirmations);
     idempotency_keys := t;
     undo_records := d.(undo_records); run_tables := d.(run_tables);
     session_tables := d.(session_tables) |}.
Definition set_undos (t : gmap jstr UndoRow) (d : db) : db :=
  {| operation_runs := d.(operation_runs); operation_steps := d.(operation_steps);
     action_results := d.(action_results); pending_confirmations := d.(pending_confirmations);
     idempotency_keys := d.(idempotency_keys);
     undo_records := t; run_tables := d.(run_tables);
     session_tables := d.(session_tables) |}.

Definition set_run_tables (x : RunTables) (d : db) : db :=
  {| operation_runs := d.(operation_runs); operation_steps := d.(operation_steps);
     action_results := d.(action_results); pending_confirmations := d.(pending_confirmations);
     idempotency_keys := d.(idempotency_keys);
     undo_records := d.(undo_records); run_tables := x; session_tables := d.(session_tables) |}.

Definition set_session_tables (x : SessionTables) (d : db) : db :=
  {| operation_runs := d.(operation_runs); operation_steps := d.(operation_steps);
     action_results := d.(action_results); pending_confirmations := d.(pending_confirmations);
     idempotency_keys := d.(idempotency_keys);
     undo_records := d.(undo_records); run_tables := d.(run_tables); session_tables := x |}.

(** ** Statements that may fail *)

Definition M (A : Type) : Type := db → result (A * db).

Definition mreturn {A} (a : A) : M A := λ d, Ok (a, d).
Definition mthrow {A} (e : string) : M A := λ _, Throw e.
Definition mthen {A B} (m : M A) (k : A → M B) : M B :=
  λ d, match m d with Ok (a, d') => k a d' | Throw e => Throw e end.
Definition lift {A} (r : result A) : M A :=
  λ d, match r with Ok a => Ok (a, d) | Throw e => Throw e end.
Definition getdb : M db := λ d, Ok (d, d).
Definition putdb (d : db) : M unit := λ _, Ok (tt, d).

Notation "'do!' x := c 'in' k" := (mthen c (fun x => k))
  (at level 10, x pattern, c at level 100, k at level 200) : s2p_scope.
Notation "'require!' b 'else' e 'in' k" := (if b then k else mthrow e)
  (at level 10, b at level 100, e at level 100, k at level 200) : s2p_scope.

Definition constraint_failed : string := "SQLITE_CONSTRAINT".

(** [UPDATE t SET ... WHERE id = ? AND p]: the table and [changes = 1]. *)
Definition update_row {K A} `{Countable K} (id : K) (p : A → bool) (f : A → A) (t : gmap K A)
    : gmap K A * bool :=
  match t !! id with
  | Some r => if p r then (<[id := f r]> t, true) else (t, false)
  | None => (t, false)
  end.

(** ** Updates of one row's columns *)

Definition with_run_status (s : OperationRunStatus) (result_id : option jstr) (now : Z)
    (r : OperationRunRow) : OperationRunRow :=
  {| binding := r.(binding); run_status := s; run_result_id := result_id;
     operation_json := r.(operation_json); reconciled_at := r.(reconciled_at);
     reconciliation_json := r.(reconciliation_json); run_batch_id := r.(run_batch_id);
     run_updated_at := now |}.
Definition with_operation_json (v : jsval) (r : OperationRunRow) : OperationRunRow :=
  {| binding := r.(binding); run_status := r.(run_status); run_result_id := r.(run_result_id);
     operation_json := v; reconciled_at := r.(reconciled_at);
     reconciliation_json := r.(reconciliation_json); run_batch_id := r.(run_batch_id);
     run_updated_at := r.(run_updated_at) |}.
Definition with_reconciliation (at_ : Z) (v : jsval) (r : OperationRunRow) : OperationRunRow :=
  {| binding := r.(binding); run_status := r.(run_status); run_result_id := r.(run_result_id);
     operation_json := r.(operation_json); reconciled_at := Some at_;
     reconciliation_json := Some v; run_batch_id := r.(run_batch_id);
     run_updated_at := at_ |}.

(** ** Triggers and constraints *)

Definition empty_object : jsval := VObj [].

Definition settled_run (s : OperationRunStatus) : bool :=
  match s with RunSucceeded | RunPartial | RunDefinitiveFailed => true | _ => false end.

(** Trigger [confirmed_operation_terminal_scrub], after an update of [status]. *)
Definition confirmed_operation_terminal_scrub (r : OperationRunRow) : OperationRunRow :=
  match r.(binding).(confirmation_id) with
  | Some _ => if settled_run r.(run_status) then with_operation_json empty_object r else r
  | None => r
  end.

(** [UPDATE operation_runs SET status = ?, ... WHERE id = ? AND p] with that trigger. *)
Definition update_run_status (id : jstr) (p : OperationRunRow → bool)
    (f : OperationRunRow → OperationRunRow) : M bool := λ d,
  let '(t, changed) :=
    update_row id p (λ r, confirmed_operation_terminal_scrub (f r)) d.(operation_runs) in
  Ok (changed, set_runs t d).

(** The unique index [idx_action_results_operation]. *)
Definition result_of_operation (op : jstr) (t : gmap jstr ActionResultRow)
    : option (jstr * ActionResultRow) :=
  list_find (λ kv, kv.2.(result_operation_id) = Some op) (map_to_list t) ≫= λ p, Some p.2.

Definition insert_result (id : jstr) (r : ActionResultRow) : M unit := λ d,
  match d.(action_results) !! id with
  | Some _ => Throw constraint_failed
  | None =>
      if (match r.(result_operation_id) with
          | Some op => bool_decide (is_Some (result_of_operation op d.(action_results)))
          | None => false
          end) || (ACTION_RESULT_SUMMARY_MAX_BYTES <? jsonByteLength r.(summary_json))
      then Throw constraint_failed
      else Ok (tt, set_results (<[id := r]> d.(action_results)) d)
  end.

(** [UPDATE action_results SET ... WHERE id = ? AND p]; the summary stays within its cap. *)
Definition update_result (id : jstr) (p : ActionResultRow → bool)
    (f : ActionResultRow → ActionResultRow) : M bool := λ d,
  match d.(action_results) !! id with
  | Some r =>
      if p r then
        if ACTION_RESULT_SUMMARY_MAX_BYTES <? jsonByteLength (f r).(summary_json)
        then Throw constraint_failed
        else Ok (true, set_results (<[id := f r]> d.(action_results)) d)
      else Ok (false, d)
  | None => Ok (false, d)
  end.

(** [UPDATE operation_steps SET ... WHERE id = ? AND p] *)
Definition update_step (id : jstr) (p : OperationStepRow → bool)
    (f : OperationStepRow → OperationStepRow) : M bool := λ d,
  let '(t, changed) := update_row id p f d.(operation_steps) in Ok (changed, set_steps t d).

(** The closed matrix of [operation_runs_discriminator_insert]. *)
Definition is_in (v : option jstr) (l : list string) : bool :=
  match v with Some s => existsb (λ x, bool_decide (u x = s)) l | None => false end.

Definition hash_sized (v : option jstr) : bool :=
  match v with Some s => bool_decide (length s = 64%nat) | None => false end.

Definition v1_tuple (x : Discriminator) : bool :=
  is_in x.(registry_id) ["v1-internal"] &&
  is_in x.(authority_model) ["legacy_v1"; "intent_capability_v1"] &&
  is_in x.(executor_kind) ["legacy_v1"].
Definition v2_preview_tuple (x : Discriminator) : bool :=
  is_in x.(origin) ["assistant"] && is_in x.(registry_id) ["v2-api"] &&
  is_in x.(authority_model) ["preview_confirmation_v2"] &&
  is_in x.(executor_kind) ["prepared_safe_write"; "risky_commit"] &&
  bool_decide (is_Some x.(run_id)).

Definition operation_matrix (d : db) (b : OperationBinding) : bool :=
  let x := b.(discriminator) in
  bool_decide (is_Some x.(origin)) &&
  (v1_tuple x ||
   (v2_preview_tuple x &&
    (match x.(field_provenance_json) with
     | Some VUndef | None => false
     | Some v => jsonByteLength v <=? 65536
     end) &&
    hash_sized x.(field_provenance_hash) &&
    match x.(run_id) with
    | Some r => run_in_scope d.(run_tables) b.(session_id) r b.(workspace_id) b.(admin_user_id)
    | None => false
    end) ||
   (is_in x.(origin) ["direct_ui"; "system"; "live_test"] &&
    is_in x.(registry_id) ["v2-api"; "v2-local"] &&
    is_in x.(authority_model) ["trusted_direct_v2"] && is_in x.(executor_kind) ["direct_safe_write"]) ||
   (is_in x.(origin) ["direct_ui"; "system"; "live_test"] && is_in x.(registry_id) ["v2-local"] &&
    is_in x.(authority_model) ["undo_v2"] && is_in x.(executor_kind) ["undo_commit"] &&
    bool_decide (is_Some x.(source_undo_id)) && hash_sized x.(source_undo_hash))).

(** [pending_confirmations_discriminator_insert]. *)
Definition confirmation_matrix (x : Discriminator) : bool :=
  bool_decide (is_Some x.(origin)) && (v1_tuple x || v2_preview_tuple x).

Definition insert_run (id : jstr) (r : OperationRunRow) : M unit := λ d,
  match d.(operation_runs) !! id with
  | Some _ => Throw constraint_failed
  | None => if operation_matrix d r.(binding)
            then Ok (tt, set_runs (<[id := r]> d.(operation_runs)) d)
            else Throw "discriminator_matrix_invalid"
  end.

(** The keys and references of [operation_steps]. *)
Definition step_conflict (x y : StepIdentity) : bool :=
  bool_decide (x.(operation_id) = y.(operation_id)) &&
  (bool_decide (x.(step_index) = y.(step_index)) ||
   bool_decide (x.(plan_step_id) = y.(plan_step_id))).

Definition insert_step (id : jstr) (r : OperationStepRow) : M unit := λ d,
  let x := r.(identity) in
  if bool_decide (is_Some (d.(operation_steps) !! id)) || (x.(step_index) <? 0) ||
     existsb (λ kv, step_conflict x kv.2.(identity)) (map_to_list d.(operation_steps)) ||
     bool_decide (d.(operation_runs) !! x.(operation_id) = None) ||
     match x.(compensates_step_id) with
     | Some s => bool_decide (d.(operation_steps) !! s = None)
     | None => false
     end
  then Throw constraint_failed
  else Ok (tt, set_steps (<[id := r]> d.(operation_steps)) d).

(** *** Updating [pending_confirmations] *)

(** A row without executable or secret payload. *)
Definition scrubbed (r : PendingRow) : bool :=
  bool_decide (r.(nonce_hash) = []) && bool_decide (r.(preview_operation_json) = None) &&
  bool_decide (r.(agent_state_json) = None).

Definition is_empty_array (v : jsval) : bool := match v with VArr [] => true | _ => false end.
Definition is_empty_object (v : jsval) : bool := match v with VObj [] => true | _ => false end.

(** The payload triggers: a row that is no longer pending carries no secret, and an
    expired one no preview either. *)
Definition payload_guard (r : PendingRow) : bool :=
  match r.(status) with
  | PPending => true
  | PExpired => scrubbed r && is_empty_array r.(risk_json) && is_empty_object r.(preview_json) &&
                is_empty_array r.(target_fingerprints_json)
  | _ => scrubbed r
  end.

Definition pre_dispatch_terminal (old new : PendingRow) : bool :=
  bool_decide (old.(status) = PPending) &&
  (bool_decide (new.(status) = PCancelled) || bool_decide (new.(status) = PExpired)).

(** Trigger [pending_confirmation_pre_dispatch_operation_guard]. *)
Definition operation_still_prepared (op : jstr) (d : db) : bool :=
  match d.(operation_runs) !! op with
  | Some r => bool_decide (r.(run_status) = RunPrepared) && bool_decide (r.(run_result_id) = None)
  | None => true
  end.

(** The canonical evidence written by [pending_confirmation_pre_dispatch_terminal]. *)
Definition denial_receipt (cancelled : bool) (action : jstr) : jsval :=
  VObj [(u "kind", VStr (u "receipt"));
        (u "receipt", VObj
          [(u "ok", VBool false); (u "action", VStr action);
           (u "code", VStr (u (if cancelled then "confirmation_cancelled" else "confirmation_expired")));
           (u "message", VStr (u (if cancelled
              then "This preview was cancelled before dispatch. No change was made."
              else "This preview expired before dispatch. No change was made.")))])].

Definition with_result (result_id : option jstr) (summary : option jsval) (r : PendingRow) : PendingRow :=
  {| preview := r.(preview); status := r.(status); risk_json := r.(risk_json);
     preview_json := r.(preview_json); preview_operation_json := r.(preview_operation_json);
     target_fingerprints_json := r.(target_fingerprints_json); nonce_hash := r.(nonce_hash);
     used_at := r.(used_at); result_summary_json := summary; agent_state_json := r.(agent_state_json);
     action_result_id := result_id; idempotency_key := r.(idempotency_key); batch_id := r.(batch_id) |}.

(** The body of that trigger; [blob] is [lower(hex(randomblob(16)))]. *)
Definition terminate_prepared_operation (pid blob : jstr) (r : PendingRow) : M unit := λ d,
  let op := r.(preview).(preview_operation_id) in
  let at_ := default r.(preview).(created_at) r.(used_at) in
  let prepared := match d.(operation_runs) !! op with
                  | Some o => if bool_decide (o.(run_status) = RunPrepared) &&
                                 bool_decide (o.(run_result_id) = None) then Some o else None
                  | None => None
                  end in
  match prepared with
  | None => Ok (tt, d)
  | Some o =>
      let receipt := denial_receipt (bool_decide (r.(status) = PCancelled)) o.(binding).(action_name) in
      (do! _ := insert_result blob
        {| result_operation_id := Some op; result_workspace_id := o.(binding).(workspace_id);
           result_admin_user_id := o.(binding).(admin_user_id);
           result_session_id := Some o.(binding).(session_id);
           result_action_name := o.(binding).(action_name); result_kind := definitive_failed;
           result_json := receipt; summary_json := receipt; result_created_at := at_ |} in
       λ d, Ok (tt, set_runs (<[op := with_operation_json empty_object
                 (with_run_status RunDefinitiveFailed (Some blob) at_ o)]> d.(operation_runs)) d)) d
  end.

(** The last statement of that trigger: the row adopts the operation's result. *)
Definition adopt_result (pid : jstr) (r : PendingRow) : M unit := λ d,
  match r.(action_result_id), result_of_operation r.(preview).(preview_operation_id) d.(action_results) with
  | None, Some (a, row) =>
      Ok (tt, set_confirmations (<[pid := with_result (Some a) (Some row.(summary_json)) r]>
                                   d.(pending_confirmations)) d)
  | None, None =>
      Ok (tt, set_confirmations (<[pid := with_result None None r]> d.(pending_confirmations)) d)
  | Some _, _ => Ok (tt, d)
  end.

(** Trigger [pending_confirmation_settlement_scrubs_operation]. *)
Definition settlement_scrubs (old new : PendingRow) : bool :=
  (bool_decide (old.(status) = PExecuting) || bool_decide (old.(status) = POutcomeUnknown)) &&
  match new.(status) with PSucceeded | PPartial | PDefinitiveFailed => true | _ => false end.

Definition scrub_operation (op : jstr) (d : db) : db :=
  set_runs (alter (with_operation_json empty_object) op d.(operation_runs)) d.

(** [UPDATE pending_confirmations SET status = ?, ... WHERE id = ? AND p] with every
    trigger on it; the result is [changes = 1]. *)
Definition update_confirmation (pid blob : jstr) (p : PendingRow → bool) (f : PendingRow → PendingRow)
    : M bool := λ d,
  match d.(pending_confirmations) !! pid with
  | None => Ok (false, d)
  | Some old =>
      if p old then
        let new := f old in
        let op := new.(preview).(preview_operation_id) in
        if negb (payload_guard new)
        then Throw (if bool_decide (new.(status) = PExpired) then "expired_confirmation_not_scrubbed"
                    else "terminal_confirmation_not_scrubbed")
        else if pre_dispatch_terminal old new && negb (operation_still_prepared op d)
        then Throw "confirmation_operation_not_prepared"
        else
          let d := set_confirmations (<[pid := new]> d.(pending_confirmations)) d in
          (do! _ := (if pre_dispatch_terminal old new
                     then do! _ := terminate_prepared_operation pid blob new in adopt_result pid new
                     else mreturn tt) in
           λ d, Ok (true, if settlement_scrubs old new then scrub_operation op d else d)) d
      else Ok (false, d)
  end.
