(* ===== verification/Confirmations.v ===== *)
(** * The one-use confirmation lifecycle

    [harness/confirmations.ts]: pure functions over a preview record; the store
    persists them.  [sha256] is a parameter.  Dates are instants in milliseconds, and
    [expiresAt] is [None] when the stored text is not a date. *)
From S2P Require Import Prelude Js SafeJson ActionResults Db.
Open Scope Z_scope.

(** ** Canonical hashing *)

(** [canonicalJson] sorts the keys and drops undefined members. *)
Fixpoint sortValue (v : jsval) : jsval :=
  match v with
  | VArr l => VArr (sortValue <$> l)
  | VObj fs => VObj (sort_fields (omap (λ f, if is_undef f.2 then None
                                             else Some (f.1, sortValue f.2)) fs))
  | _ => v
  end.
Definition canonicalJson (v : jsval) : jstr := stringify (sortValue v).

Definition timingSafeStringEqual (a b : jstr) : bool :=
  if bool_decide (length a = length b)
  then (foldl (λ mismatch p, N.lor mismatch (N.lxor p.1 p.2)) 0 (zip a b) =? 0)%N
  else false.

(** [PendingConfirmationRecord] *)
Record PendingConfirmationRecord := {
  id : jstr;
  operationId : jstr;
  sessionId : jstr;
  workspaceId : jstr;
  adminUserId : jstr;
  status : PendingStatus;
  risk : jsval;
  preview : jsval;
  operation : jsval;
  installationGeneration : option Z;
  operationHash : jstr;
  targetFingerprints : list jstr;
  actionFingerprint : jstr;
  catalogHash : jstr;
  capabilityId : option jstr;
  capabilityHash : option jstr;
  nonceHash : jstr;
  expiresAt : option Z;
  createdAt : Z;
  usedAt : option Z;
  agentState : option jsval;
  actionResultId : option jstr;
  discriminators : Discriminator;
  batchId : option jstr;
}.

(** [Number.isSafeInteger] of an optional member. *)
Definition safe_generation (g : option Z) : bool :=
  match g with Some n => Z.abs n <=? max_safe_integer | None => false end.

(** [{ ...record, status, usedAt }] and [{ ...record, nonceHash }]. *)
Definition with_status (s : PendingStatus) (used : Z) (r : PendingConfirmationRecord)
    : PendingConfirmationRecord :=
  {| id := r.(id); operationId := r.(operationId); sessionId := r.(sessionId);
     workspaceId := r.(workspaceId); adminUserId := r.(adminUserId); status := s;
     risk := r.(risk); preview := r.(preview); operation := r.(operation);
     installationGeneration := r.(installationGeneration); operationHash := r.(operationHash);
     targetFingerprints := r.(targetFingerprints); actionFingerprint := r.(actionFingerprint);
     catalogHash := r.(catalogHash); capabilityId := r.(capabilityId);
     capabilityHash := r.(capabilityHash); nonceHash := r.(nonceHash);
     expiresAt := r.(expiresAt); createdAt := r.(createdAt); usedAt := Some used;
     agentState := r.(agentState); actionResultId := r.(actionResultId);
     discriminators := r.(discriminators); batchId := r.(batchId) |}.
Definition with_nonceHash (h : jstr) (r : PendingConfirmationRecord) : PendingConfirmationRecord :=
  {| id := r.(id); operationId := r.(operationId); sessionId := r.(sessionId);
     workspaceId := r.(workspaceId); adminUserId := r.(adminUserId); status := r.(status);
     risk := r.(risk); preview := r.(preview); operation := r.(operation);
     installationGeneration := r.(installationGeneration); operationHash := r.(operationHash);
     targetFingerprints := r.(targetFingerprints); actionFingerprint := r.(actionFingerprint);
     catalogHash := r.(catalogHash); capabilityId := r.(capabilityId);
     capabilityHash := r.(capabilityHash); nonceHash := h;
     expiresAt := r.(expiresAt); createdAt := r.(createdAt); usedAt := r.(usedAt);
     agentState := r.(agentState); actionResultId := r.(actionResultId);
     discriminators := r.(discriminators); batchId := r.(batchId) |}.

(** ** Preview authority *)

Definition isV2PreviewAuthority (r : PendingConfirmationRecord) : bool :=
  is_in r.(discriminators).(origin) ["assistant"] &&
  is_in r.(discriminators).(registry_id) ["v2-api"] &&
  is_in r.(discriminators).(authority_model) ["preview_confirmation_v2"] &&
  is_in r.(discriminators).(executor_kind) ["prepared_safe_write"; "risky_commit"] &&
  truthy r.(discriminators).(run_id) && negb (truthy r.(capabilityId)).

Definition isBatchOwnedConfirmation (r : PendingConfirmationRecord) : bool := truthy r.(batchId).
Definition isV2AssistantPreviewConfirmation (r : PendingConfirmationRecord) : bool :=
  isV2PreviewAuthority r && negb (truthy r.(batchId)).
Definition isV2AssistantBatchConfirmation (r : PendingConfirmationRecord) : bool :=
  isV2PreviewAuthority r && isBatchOwnedConfirmation r.
Definition isTrustedDirectOrigin (o : option jstr) : bool :=
  is_in o ["direct_ui"; "system"; "live_test"].

(** A refusal carries its code and message. *)
Inductive gate : Set := Pass | Refuse (code message : string).

Section Hashing.
Context (sha256 : jstr → jstr).

(** The hash of a value that has a JSON text; [Hash.update] throws without one. *)
Definition hash_json (v : jsval) : jstr := sha256 (canonicalJson v).
Definition hashOperation (operation : jsval) : result jstr :=
  match operation with
  | VUndef | VFun => Throw "ERR_INVALID_ARG_TYPE"
  | _ => Ok (hash_json operation)
  end.

Definition dot : jstr := u ".".
Definition hashNonce (nonce pid opHash sessionSecret : jstr) : jstr :=
  sha256 (nonce ++ dot ++ pid ++ dot ++ opHash ++ dot ++ sessionSecret).

(** [payload ?? {}] *)
Definition payload_of (fs : list (jstr * jsval)) : jsval :=
  match fields_get (u "payload") fs with
  | None | Some VUndef | Some VNull => VObj []
  | Some v => v
  end.

Definition confirmationOperationBindingHash (r : PendingConfirmationRecord) : result jstr :=
  if isV2PreviewAuthority r then
    match r.(operation) with
    | VObj fs =>
        match json_value (payload_of fs) with
        | None => Throw "SyntaxError"
        | Some parsed => let! safe := exactNonsecretJson parsed 65536 in hashOperation safe
        end
    | VBytes _ | VBuffer => let! safe := exactNonsecretJson (VObj []) 65536 in hashOperation safe
    | _ => hashOperation r.(operation)
    end
  else hashOperation r.(operation).

(** ** The four shared guards *)

Definition same_owner (r : PendingConfirmationRecord) (sid wid aid : jstr) : bool :=
  bool_decide (r.(sessionId) = sid) && bool_decide (r.(workspaceId) = wid) &&
  bool_decide (r.(adminUserId) = aid).

Definition forbidden : gate := Refuse "forbidden" "This preview belongs to a different session.".
Definition expired : gate :=
  Refuse "expired" "This preview has expired. Ask me to run a fresh preview.".
Definition not_pending : gate := Refuse "not_pending" "This preview is no longer pending.".
Definition operation_mismatch : gate := Refuse "operation_mismatch" "Preview integrity check failed.".
Definition incompatible_code : gate :=
  Refuse "incompatible_confirmation"
    "This preview was created by incompatible action code. Run a fresh preview.".
Definition incompatible_catalog : gate :=
  Refuse "incompatible_confirmation"
    "The action catalog changed after this preview. Run a fresh preview.".
Definition invalid_confirmation : gate :=
  Refuse "invalid_confirmation" "Confirmation does not match this preview.".

(** An optional expectation that is present and differs. *)
Definition violates (actual : jstr) (expected : option jstr) : bool :=
  match expected with
  | Some e => truthy expected && negb (timingSafeStringEqual actual e)
  | None => false
  end.

Definition checkConfirmationGate (r : PendingConfirmationRecord) (sid wid aid : jstr) (now : Z)
    (expectedActionFingerprint expectedCatalogHash : option jstr) : result gate :=
  if negb (same_owner r sid wid aid) then Ok forbidden
  else if bool_decide (r.(status) = PExpired) then Ok expired
  else if negb (bool_decide (r.(status) = PPending)) then Ok not_pending
  else if match r.(expiresAt) with None => true | Some e => e <=? now end then Ok expired
  else
    let! h := confirmationOperationBindingHash r in
    if negb (timingSafeStringEqual h r.(operationHash)) then Ok operation_mismatch
    else if violates r.(actionFingerprint) expectedActionFingerprint then Ok incompatible_code
    else if violates r.(catalogHash) expectedCatalogHash then Ok incompatible_catalog
    else Ok Pass.

Definition confirmPending (r : PendingConfirmationRecord) (sid wid aid nonce sessionSecret : jstr)
    (now : Z) (expectedActionFingerprint expectedCatalogHash : option jstr)
    : result (gate + PendingConfirmationRecord) :=
  let! g := checkConfirmationGate r sid wid aid now expectedActionFingerprint expectedCatalogHash in
  match g with
  | Refuse c m => Ok (inl (Refuse c m))
  | Pass =>
      if timingSafeStringEqual (hashNonce nonce r.(id) r.(operationHash) sessionSecret) r.(nonceHash)
      then Ok (inr (with_status PExecuting now r))
      else Ok (inl invalid_confirmation)
  end.

Definition rotatePendingNonce (r : PendingConfirmationRecord) (sid wid aid sessionSecret : jstr)
    (now : Z) (nonce : jstr) : result (gate + PendingConfirmationRecord) :=
  let! g := checkConfirmationGate r sid wid aid now None None in
  match g with
  | Refuse c m => Ok (inl (Refuse c m))
  | Pass => Ok (inr (with_nonceHash (hashNonce nonce r.(id) r.(operationHash) sessionSecret) r))
  end.

Definition cancelPending (r : PendingConfirmationRecord) (sid wid aid : jstr) (now : Z)
    : gate + PendingConfirmationRecord :=
  if negb (same_owner r sid wid aid) then inl forbidden
  else if negb (bool_decide (r.(status) = PPending)) then inl not_pending
  else inr (with_status PCancelled now r).

(** ** Creation *)

Record CreateConfirmationInput := {
  in_sessionId : jstr;
  in_workspaceId : jstr;
  in_adminUserId : jstr;
  in_risk : jsval;
  in_preview : jsval;
  in_operation : jsval;
  in_installationGeneration : option Z;
  in_sessionSecret : jstr;
  in_ttlMs : option Z;
  in_agentState : option jsval;
  in_actionFingerprint : option jstr;
  in_catalogHash : option jstr;
  in_capabilityId : option jstr;
  in_capabilityHash : option jstr;
  in_discriminators : Discriminator;
  in_batchId : option jstr;
  operationBindingHash : option jstr;
}.

Definition DEFAULT_TTL_MS : Z := 5 * 60 * 1000.

(** [{ ...operation, installationGeneration }] when both are there. *)
Definition bound_operation (i : CreateConfirmationInput) : jsval :=
  match i.(in_installationGeneration), i.(in_operation) with
  | Some g, VObj fs => VObj (fields_set (u "installationGeneration") (num g) fs)
  | _, v => v
  end.

Definition truthy_only (v : option jstr) : option jstr := if truthy v then v else None.

(** The record; [recordForHash] is the same one without the capability columns and
    with blank hashes. *)
Definition draft_record (i : CreateConfirmationInput) (now : Z) (pid opId : jstr)
    (opHash nHash : jstr) (cap : bool) (exp : option Z) : PendingConfirmationRecord :=
  let operation := bound_operation i in
  {| id := pid; operationId := opId; sessionId := i.(in_sessionId);
     workspaceId := i.(in_workspaceId); adminUserId := i.(in_adminUserId);
     status := PPending; risk := i.(in_risk); preview := i.(in_preview);
     operation := operation; installationGeneration := i.(in_installationGeneration);
     operationHash := opHash;
     targetFingerprints :=
       match prop (u "targets") i.(in_preview) with
       | VArr l => if cap then hash_json <$> l else []
       | _ => []
       end;
     actionFingerprint := default
       (hash_json (VObj [(u "operation", operation); (u "version", num 1)]))
       i.(in_actionFingerprint);
     catalogHash := default (u "unbound") i.(in_catalogHash);
     capabilityId := if cap then truthy_only i.(in_capabilityId) else None;
     capabilityHash := if cap then truthy_only i.(in_capabilityHash) else None;
     nonceHash := nHash; expiresAt := exp; createdAt := now; usedAt := None;
     agentState := if cap then i.(in_agentState) else None; actionResultId := None;
     discriminators := i.(in_discriminators); batchId := truthy_only i.(in_batchId) |}.

(** [createPendingConfirmation]: [pid], [nonce] and [uuid] are the random values; the
    optional discriminators of the input are the [None]s of its columns. *)
Definition createPendingConfirmation (i : CreateConfirmationInput) (now : Z)
    (pid nonce uuid : jstr) : result PendingConfirmationRecord :=
  let ttlMs := default DEFAULT_TTL_MS i.(in_ttlMs) in
  let! opHash := match i.(operationBindingHash) with
                 | Some h => Ok h
                 | None => confirmationOperationBindingHash (draft_record i now pid uuid [] [] false None)
                 end in
  guard! match prop (u "targets") i.(in_preview) with
         | VUndef | VNull => true
         | VArr l => forallb (λ v, is_ok (hashOperation v)) l
         | _ => false
         end else "TypeError" in
  let opId := match prop (u "operationId") (bound_operation i) with VStr s => s | _ => uuid end in
  Ok (draft_record i now pid opId opHash (hashNonce nonce pid opHash i.(in_sessionSecret)) true
        (Some (now + ttlMs))).
End Hashing.

(** ** Lemmas *)

Lemma lor_zero (x y : N) : N.lor x y = 0%N ↔ x = 0%N ∧ y = 0%N.
Proof. by rewrite N.lor_eq_0_iff. Qed.

Lemma mismatch_zero l acc :
  foldl (λ mismatch (p : N * N), N.lor mismatch (N.lxor p.1 p.2)) acc l = 0%N ↔
  acc = 0%N ∧ Forall (λ p, p.1 = p.2) l.
Proof.
  revert acc. induction l as [|[x y] l IH]; intros acc; simpl.
  - split; [auto|]. by intros [? _].
  - rewrite IH, lor_zero, Forall_cons, N.lxor_eq_0_iff. simpl. tauto.
Qed.

Lemma timingSafeStringEqual_spec a b : timingSafeStringEqual a b = true ↔ a = b.
Proof.
  unfold timingSafeStringEqual. case_bool_decide as Hl.
  - rewrite N.eqb_eq, mismatch_zero. split.
    + intros [_ Hf]. revert b Hl Hf. induction a as [|x a IH]; intros [|y b] Hl; simplify_eq/=; [done|].
      intros [Hx Hf]%Forall_cons. simpl in Hx. f_equal; [done|]. apply IH; [lia|done].
    + intros ->. split; [done|]. clear Hl. induction b; simpl; constructor; auto.
  - split; [done|]. by intros ->.
Qed.

Lemma same_owner_spec r sid wid aid :
  same_owner r sid wid aid = true ↔
  r.(sessionId) = sid ∧ r.(workspaceId) = wid ∧ r.(adminUserId) = aid.
Proof. unfold same_owner. rewrite !andb_true_iff, !bool_decide_eq_true. tauto. Qed.

(** An optional expectation holds: it is absent or empty, or it is met. *)
Definition expects (actual : jstr) (expected : option jstr) : Prop :=
  truthy expected = true → expected = Some actual.

Lemma violates_spec actual expected : violates actual expected = false ↔ expects actual expected.
Proof.
  unfold violates, expects. destruct expected as [e|]; [|naive_solver].
  destruct (truthy (Some e)) eqn:Ht; simpl; [|naive_solver].
  rewrite negb_false_iff, timingSafeStringEqual_spec. naive_solver.
Qed.

Section Gate.
Context (sha256 : jstr → jstr).

(** What the gate lets through. *)
Definition gate_open (r : PendingConfirmationRecord) (sid wid aid : jstr) (now : Z)
    (fp cat : option jstr) : Prop :=
  (r.(sessionId) = sid ∧ r.(workspaceId) = wid ∧ r.(adminUserId) = aid) ∧
  r.(status) = PPending ∧ (∃ e, r.(expiresAt) = Some e ∧ now < e) ∧
  confirmationOperationBindingHash sha256 r = Ok r.(operationHash) ∧
  expects r.(actionFingerprint) fp ∧ expects r.(catalogHash) cat.

Lemma gate_pass r sid wid aid now fp cat :
  checkConfirmationGate sha256 r sid wid aid now fp cat = Ok Pass ↔
  gate_open r sid wid aid now fp cat.
Proof.
  unfold checkConfirmationGate, gate_open. rewrite <- same_owner_spec.
  destruct (same_owner r sid wid aid); simpl; [|naive_solver].
  case_bool_decide as He; [rewrite He; naive_solver|].
  case_bool_decide as Hp; simpl; [|naive_solver].
  destruct (expiresAt r) as [e|]; [|naive_solver].
  destruct (Z.leb_spec e now); [split; [done|]; intros (_ & _ & (e' & [= <-] & ?) & _); lia|].
  rewrite rbind_ok. rewrite <- !violates_spec. split.
  - intros (h & Hh & Hrest).
    destruct (timingSafeStringEqual h (operationHash r)) eqn:Ht; simpl in Hrest; [|done].
    apply timingSafeStringEqual_spec in Ht as ->.
    destruct (violates (actionFingerprint r) fp); [done|].
    destruct (violates (catalogHash r) cat); [done|]. eauto 10.
  - intros (_ & _ & _ & Hh & Hv1 & Hv2). eexists. split; [exact Hh|].
    rewrite (proj2 (timingSafeStringEqual_spec _ _) eq_refl), Hv1, Hv2. done.
Qed.

Lemma confirm_ok r sid wid aid nonce secret now fp cat r' :
  confirmPending sha256 r sid wid aid nonce secret now fp cat = Ok (inr r') ↔
  gate_open r sid wid aid now fp cat ∧
  r.(nonceHash) = hashNonce sha256 nonce r.(id) r.(operationHash) secret ∧
  r' = with_status PExecuting now r.
Proof.
  unfold confirmPending. rewrite rbind_ok, <- gate_pass. split.
  - intros ([|c m] & Hg & Hr); [|done].
    destruct (timingSafeStringEqual _ _) eqn:Ht; [|done]. injection Hr as <-.
    apply timingSafeStringEqual_spec in Ht. done.
  - intros (Hg & Hn & ->). exists Pass. split; [done|].
    by rewrite (proj2 (timingSafeStringEqual_spec _ _) (eq_sym Hn)).
Qed.
End Gate.

(** *** What a nonce hash binds *)

Definition dot_free (s : jstr) : Prop := 46%N ∉ s.

Lemma dot_split (a b c d : jstr) :
  dot_free a → dot_free b → a ++ dot ++ c = b ++ dot ++ d → a = b ∧ c = d.
Proof.
  unfold dot, dot_free. simpl. revert b. induction a as [|x a IH]; intros [|y b] Ha Hb; simpl.
  - by intros [= ->].
  - intros [= <- _]. set_solver.
  - intros [= -> _]. set_solver.
  - intros [= -> Heq]. destruct (IH b) as [-> ->]; [set_solver|set_solver|done|done].
Qed.

(** With a collision-free hash, equal nonce hashes were made from the same nonce, for
    the same preview, operation and session secret. *)
Lemma hashNonce_inj sha256 n1 n2 p1 p2 o1 o2 s1 s2 :
  (∀ a b, sha256 a = sha256 b → a = b) →
  dot_free n1 → dot_free n2 → dot_free p1 → dot_free p2 → dot_free o1 → dot_free o2 →
  hashNonce sha256 n1 p1 o1 s1 = hashNonce sha256 n2 p2 o2 s2 →
  n1 = n2 ∧ p1 = p2 ∧ o1 = o2 ∧ s1 = s2.
Proof.
  intros Hinj Hn1 Hn2 Hp1 Hp2 Ho1 Ho2 Heq%Hinj.
  destruct (dot_split n1 n2 _ _ Hn1 Hn2 Heq) as [-> Heq2].
  destruct (dot_split p1 p2 _ _ Hp1 Hp2 Heq2) as [-> Heq3].
  by destruct (dot_split o1 o2 _ _ Ho1 Ho2 Heq3) as [-> ->].
Qed.

(** The same preview and secret need no side condition. *)
Lemma hashNonce_same_preview sha256 n1 n2 p o s :
  (∀ a b, sha256 a = sha256 b → a = b) →
  hashNonce sha256 n1 p o s = hashNonce sha256 n2 p o s → n1 = n2.
Proof. intros Hinj Heq%Hinj. by apply app_inv_tail in Heq. Qed.

Lemma binding_hash_ext sha256 r1 r2 :
  r1.(operation) = r2.(operation) → isV2PreviewAuthority r1 = isV2PreviewAuthority r2 →
  confirmationOperationBindingHash sha256 r1 = confirmationOperationBindingHash sha256 r2.
Proof. intros Ho Hv. unfold confirmationOperationBindingHash. by rewrite Ho, Hv. Qed.

(** ** Theorems *)

(** Exactly which confirmations succeed.  A confirm succeeds iff the caller owns the
    preview, it is pending and not due, its operation still hashes to the stored
    hash, every expected fingerprint is met and the nonce is the current one; the
    result is the same record, executing.  A cancel succeeds iff the caller owns a
    pending preview.  Whoever does not own it learns nothing but "forbidden". *)
Theorem confirmation_exact sha256 r sid wid aid nonce secret now fp cat :
  (∀ r', confirmPending sha256 r sid wid aid nonce secret now fp cat = Ok (inr r') ↔
     gate_open sha256 r sid wid aid now fp cat ∧
     r.(nonceHash) = hashNonce sha256 nonce r.(id) r.(operationHash) secret ∧
     r' = with_status PExecuting now r) ∧
  (∀ r', cancelPending r sid wid aid now = inr r' ↔
     (r.(sessionId) = sid ∧ r.(workspaceId) = wid ∧ r.(adminUserId) = aid) ∧
     r.(status) = PPending ∧ r' = with_status PCancelled now r) ∧
  (same_owner r sid wid aid = false →
     confirmPending sha256 r sid wid aid nonce secret now fp cat = Ok (inl forbidden) ∧
     rotatePendingNonce sha256 r sid wid aid secret now nonce = Ok (inl forbidden) ∧
     cancelPending r sid wid aid now = inl forbidden).
Proof.
  split_and!.
  - intros r'. apply confirm_ok.
  - intros r'. unfold cancelPending. rewrite <- same_owner_spec.
    destruct (same_owner r sid wid aid); simpl; [|naive_solver].
    case_bool_decide; simpl; naive_solver.
  - intros Ho. unfold confirmPending, rotatePendingNonce, checkConfirmationGate, cancelPending.
    by rewrite Ho.
Qed.

(** Rotation.  A successful rotation changes nothing but the nonce hash (the expiry
    is not extended); afterwards, with a collision-free hash, the fresh nonce is the only
    one that confirms, and it does as long as the preview is not due. *)
Theorem rotation_one_nonce sha256 r sid wid aid secret now nonce r' :
  (∀ a b, sha256 a = sha256 b → a = b) →
  rotatePendingNonce sha256 r sid wid aid secret now nonce = Ok (inr r') →
  r' = with_nonceHash r'.(nonceHash) r ∧
  ∀ nonce' later,
    (∃ done, confirmPending sha256 r' sid wid aid nonce' secret later None None = Ok (inr done)) ↔
    nonce' = nonce ∧ ∃ e, r.(expiresAt) = Some e ∧ later < e.
Proof.
  intros Hinj. unfold rotatePendingNonce. rewrite rbind_ok. intros ([|c m] & Hg & Hr); [|done].
  injection Hr as <-. split; [done|]. apply gate_pass in Hg as (Ho & Hp & _ & Hh & _ & _).
  intros nonce' later. setoid_rewrite confirm_ok. unfold gate_open. simpl. split.
  - intros (done & (_ & _ & He & _) & Hn & _). split; [|done].
    by apply hashNonce_same_preview in Hn.
  - intros [-> He]. eexists. split; [|split; [done|reflexivity]].
    split; [exact Ho|]. split; [exact Hp|]. split; [exact He|]. split; [|done].
    etrans; [|exact Hh]. by apply binding_hash_ext.
Qed.

Definition demo_hash (s : jstr) : jstr := s.
Definition no_discriminators : Discriminator :=
  {| origin := None; registry_id := None; authority_model := None; executor_kind := None;
     run_id := None; field_provenance_json := None; field_provenance_hash := None;
     source_undo_id := None; source_undo_hash := None |}.
Definition demo_input : CreateConfirmationInput :=
  {| in_sessionId := u "s"; in_workspaceId := u "w"; in_adminUserId := u "a";
     in_risk := VArr []; in_preview := VObj [(u "targets", VArr [VStr (u "t1")])];
     in_operation := VObj [(u "operationId", VStr (u "op1")); (u "actionName", VStr (u "delete_tag"))];
     in_installationGeneration := Some 3; in_sessionSecret := u "k"; in_ttlMs := None;
     in_agentState := None; in_actionFingerprint := None; in_catalogHash := None;
     in_capabilityId := None; in_capabilityHash := None;
     in_discriminators := no_discriminators; in_batchId := None; operationBindingHash := None |}.
Definition demo_record : PendingConfirmationRecord :=
  match createPendingConfirmation demo_hash demo_input 1000 (u "p1") (u "n1") (u "uuid") with
  | Ok r => r
  | Throw _ => draft_record demo_hash demo_input 0 [] [] [] [] false None
  end.

Lemma rotation_one_nonce_witness :
  let r' := with_nonceHash (hashNonce demo_hash (u "n2") (u "p1") demo_record.(operationHash) (u "k")) demo_record in
  r' = with_nonceHash r'.(nonceHash) demo_record ∧
  ∀ nonce' later,
    (∃ done, confirmPending demo_hash r' (u "s") (u "w") (u "a") nonce' (u "k") later None None = Ok (inr done)) ↔
    nonce' = u "n2" ∧ ∃ e, demo_record.(expiresAt) = Some e ∧ later < e.
Proof.
  cbv zeta. apply (rotation_one_nonce demo_hash demo_record (u "s") (u "w") (u "a") (u "k") 2000 (u "n2")).
  - intros a b H. exact H.
  - vm_compute. reflexivity.
Defined.

(** Round trip and binding.  A freshly created preview (without an overriding hash
    or a capability on a v2 row) is confirmed by its owner with its nonce until its time to live
    has passed; with a collision-free hash, that nonce confirms no other preview,
    operation or session secret. *)
Theorem create_confirm_roundtrip sha256 i now pid nonce uuid r later :
  createPendingConfirmation sha256 i now pid nonce uuid = Ok r →
  i.(operationBindingHash) = None → truthy i.(in_capabilityId) = false →
  later < now + default DEFAULT_TTL_MS i.(in_ttlMs) →
  confirmPending sha256 r i.(in_sessionId) i.(in_workspaceId) i.(in_adminUserId) nonce
    i.(in_sessionSecret) later None None = Ok (inr (with_status PExecuting later r)) ∧
  ∀ r2 secret2 later2 fp cat done,
    (∀ a b, sha256 a = sha256 b → a = b) →
    r2.(nonceHash) = r.(nonceHash) →
    dot_free nonce → dot_free pid → dot_free r.(operationHash) →
    dot_free r2.(id) → dot_free r2.(operationHash) →
    confirmPending sha256 r2 i.(in_sessionId) i.(in_workspaceId) i.(in_adminUserId) nonce
      secret2 later2 fp cat = Ok (inr done) →
    r2.(id) = pid ∧ r2.(operationHash) = r.(operationHash) ∧ secret2 = i.(in_sessionSecret).
Proof.
  unfold createPendingConfirmation. intros Hc Hnone Hcap Hlater. rewrite Hnone in Hc.
  apply rbind_ok in Hc as (h & Hh & Hc). case_match; [|done].
  injection Hc as <-. split.
  - apply confirm_ok. split_and!; try done. unfold gate_open. split_and!; try done.
    + eexists. split; [reflexivity|lia].
    + etrans; [|exact Hh]. apply binding_hash_ext; [done|].
      unfold isV2PreviewAuthority. simpl. unfold truthy_only. by rewrite Hcap.
  - intros r2 secret2 later2 fp cat done Hinj Hn ????? Hok.
    apply confirm_ok in Hok as (_ & Hn2 & _). rewrite Hn in Hn2. simpl in Hn2.
    apply hashNonce_inj in Hn2 as (_ & -> & -> & ->); done.
Qed.

Lemma create_confirm_roundtrip_witness :
  confirmPending demo_hash demo_record (u "s") (u "w") (u "a") (u "n1") (u "k") 2000 None None =
    Ok (inr (with_status PExecuting 2000 demo_record)).
Proof.
  apply (create_confirm_roundtrip demo_hash demo_input 1000 (u "p1") (u "n1") (u "uuid") demo_record 2000);
    try reflexivity; vm_compute; reflexivity.
Defined.
