(* ===== verification/Discriminators.v ===== *)
(** * The closed discriminator matrix

    [harness/action-discriminators.ts]: which (origin, registry, authority model,
    executor) tuples a preview or an operation may carry, checked before the same
    rule is enforced by the triggers of [db/schema.ts] (file Db).  The type of a
    column is [option jstr]: [None] is [undefined] or NULL. *)
From S2P Require Import Prelude Js SafeJson ActionResults RunTables Db.
From S2P Require RunBudget.
Open Scope Z_scope.

Inductive DiscriminatorSurface : Set := pending_confirmation | operation_run.

(** The regular expression [^[a-f0-9]{64}$]. *)
Definition hex_unit (c : N) : bool := ((97 <=? c) && (c <=? 102) || (48 <=? c) && (c <=? 57))%N.
Definition isSha256 (v : option jstr) : bool :=
  match v with Some s => bool_decide (length s = 64%nat) && forallb hex_unit s | None => false end.

(** The text of the column is the one [JSON.stringify] gives; [VUndef] is a text that
    does not parse. *)
Definition isBoundedProvenanceJson (v : option jsval) : bool :=
  match v with
  | None | Some VUndef => false
  | Some x => str_length (stringify x) <=? 65536
  end.

Definition TRUSTED_ORIGINS : list string := ["direct_ui"; "system"; "live_test"].
Definition PREVIEW_EXECUTORS : list string := ["prepared_safe_write"; "risky_commit"].
Definition V1_AUTHORITIES : list string := ["legacy_v1"; "intent_capability_v1"].

(** [None] is [{ ok: true }]; otherwise the code. *)
Definition validateDiscriminatorMatrix (surface : DiscriminatorSurface) (x : Discriminator)
    : option string :=
  if negb (truthy x.(origin) && truthy x.(registry_id) && truthy x.(authority_model) &&
           truthy x.(executor_kind))
  then Some "discriminator_incomplete"
  else
    let v1 := is_in x.(registry_id) ["v1-internal"] && is_in x.(authority_model) V1_AUTHORITIES &&
              is_in x.(executor_kind) ["legacy_v1"] in
    let v2 := is_in x.(origin) ["assistant"] && is_in x.(registry_id) ["v2-api"] &&
              is_in x.(authority_model) ["preview_confirmation_v2"] &&
              is_in x.(executor_kind) PREVIEW_EXECUTORS && truthy x.(run_id) in
    match surface with
    | pending_confirmation =>
        if is_in x.(authority_model) ["trusted_direct_v2"; "undo_v2"]
        then Some "confirmation_authority_invalid"
        else if v1 then None else if v2 then None
        else Some "discriminator_matrix_invalid"
    | operation_run =>
        if v1 then None
        else if v2 && isBoundedProvenanceJson x.(field_provenance_json) &&
                isSha256 x.(field_provenance_hash) then None
        else if is_in x.(origin) TRUSTED_ORIGINS && is_in x.(registry_id) ["v2-api"; "v2-local"] &&
                is_in x.(authority_model) ["trusted_direct_v2"] &&
                is_in x.(executor_kind) ["direct_safe_write"] then None
        else if is_in x.(origin) TRUSTED_ORIGINS && is_in x.(registry_id) ["v2-local"] &&
                is_in x.(authority_model) ["undo_v2"] && is_in x.(executor_kind) ["undo_commit"] &&
                truthy x.(source_undo_id) && isSha256 x.(source_undo_hash) then None
        else Some "discriminator_matrix_invalid"
    end.

(** [v1DiscriminatorFromCapability]; an empty id is no capability. *)
Definition v1DiscriminatorFromCapability (capabilityId : option jstr) : Discriminator :=
  {| origin := Some (u "assistant"); registry_id := Some (u "v1-internal");
     authority_model := Some (u (if truthy capabilityId then "intent_capability_v1" else "legacy_v1"));
     executor_kind := Some (u "legacy_v1"); run_id := None; field_provenance_json := None;
     field_provenance_hash := None; source_undo_id := None; source_undo_hash := None |}.

(** ** Lemmas *)

Lemma is_in_spec v l : is_in v l = true ↔ ∃ s, s ∈ l ∧ v = Some (u s).
Proof.
  unfold is_in. destruct v as [v|]; [|naive_solver].
  rewrite existsb_exists. split.
  - intros (s & Hs & He%bool_decide_eq_true). exists s.
    split; [by apply list_elem_of_In|by subst].
  - intros (s & Hs & [= ->]). exists s. split; [by apply list_elem_of_In|by apply bool_decide_eq_true].
Qed.

(** The tuples name a non-empty value. *)
Lemma is_in_truthy v l : Forall (λ s, s ≠ EmptyString) l → is_in v l = true → truthy v = true.
Proof.
  intros Hl (s & Hs & ->)%is_in_spec. rewrite Forall_forall in Hl. specialize (Hl s Hs).
  by destruct s.
Qed.

Lemma hash_sized_of_sha v : isSha256 v = true → hash_sized v = true.
Proof. destruct v; simpl; [|done]. by intros [? _]%andb_true_iff. Qed.

Lemma truthy_some v : truthy v = true → bool_decide (is_Some v) = true.
Proof. destruct v; [|done]. by intros _; apply bool_decide_eq_true. Qed.

(** What the program requires of a tuple and the triggers do not. *)
Definition stricter (x : Discriminator) : bool :=
  truthy x.(origin) &&
  (negb (is_in x.(authority_model) ["preview_confirmation_v2"]) || truthy x.(run_id)).

Definition hashes_hex (x : Discriminator) : bool :=
  (negb (is_in x.(authority_model) ["preview_confirmation_v2"]) || isSha256 x.(field_provenance_hash)) &&
  (negb (is_in x.(authority_model) ["undo_v2"]) ||
   (truthy x.(source_undo_id) && isSha256 x.(source_undo_hash))).

(** What the triggers require and the program's check does not. *)
Definition row_facts (d : db) (b : OperationBinding) : bool :=
  let x := b.(discriminator) in
  negb (is_in x.(authority_model) ["preview_confirmation_v2"]) ||
  (match x.(field_provenance_json) with
   | Some VUndef | None => false
   | Some v => jsonByteLength v <=? 65536
   end &&
   match x.(run_id) with
   | Some r => run_in_scope d.(run_tables) b.(session_id) r b.(workspace_id) b.(admin_user_id)
   | None => false
   end).

(** The two provenance measures: a text within the byte limit is within the unit limit. *)
Lemma units_within_bytes v : jsonByteLength v ≤ 65536 → str_length (stringify v) ≤ 65536.
Proof.
  unfold jsonByteLength, str_length. pose proof (utf8_length_ge (stringify v)). lia.
Qed.

Lemma provenance_mono v :
  match v with Some VUndef | None => false | Some x => jsonByteLength x <=? 65536 end = true →
  isBoundedProvenanceJson v = true.
Proof.
  unfold isBoundedProvenanceJson. intros H. repeat case_match; try done.
  all: apply Z.leb_le in H; by apply Z.leb_le, units_within_bytes.
Qed.

Lemma is_in_single v s : is_in v [s] = true → v = Some (u s).
Proof. intros (t & Ht & ->)%is_in_spec. apply list_elem_of_singleton in Ht. by subst. Qed.

(** An authority model is one of the five, or none of them. *)
Lemma authority_cases (v : option jstr) :
  v = Some (u "legacy_v1") ∨ v = Some (u "intent_capability_v1") ∨
  v = Some (u "preview_confirmation_v2") ∨ v = Some (u "trusted_direct_v2") ∨
  v = Some (u "undo_v2") ∨
  (is_in v V1_AUTHORITIES = false ∧ is_in v ["preview_confirmation_v2"] = false ∧
   is_in v ["trusted_direct_v2"] = false ∧ is_in v ["undo_v2"] = false ∧
   is_in v ["trusted_direct_v2"; "undo_v2"] = false).
Proof.
  destruct v as [v|]; [|naive_solver].
  destruct (decide (v = u "legacy_v1")) as [->|]; [tauto|].
  destruct (decide (v = u "intent_capability_v1")) as [->|]; [tauto|].
  destruct (decide (v = u "preview_confirmation_v2")) as [->|]; [tauto|].
  destruct (decide (v = u "trusted_direct_v2")) as [->|]; [tauto|].
  destruct (decide (v = u "undo_v2")) as [->|]; [tauto|].
  do 5 right. unfold is_in, V1_AUTHORITIES. cbn [existsb].
  rewrite !bool_decide_eq_false_2 by congruence. done.
Qed.

(** Each listed name is not empty, so membership implies presence. *)
Lemma is_in_implies v l : forallb (λ s, negb (String.eqb s EmptyString)) l = true →
  is_in v l = true → truthy v = true.
Proof.
  intros Hl. apply is_in_truthy. apply Forall_forall. intros s Hs ->.
  apply list_elem_of_In in Hs. rewrite forallb_forall in Hl. by specialize (Hl _ Hs).
Qed.

Lemma named_columns (x : Discriminator) l1 l2 l3 :
  forallb (λ s, negb (String.eqb s EmptyString)) (l1 ++ l2 ++ l3) = true →
  is_in x.(registry_id) l1 && is_in x.(authority_model) l2 && is_in x.(executor_kind) l3 = true →
  truthy x.(registry_id) && truthy x.(authority_model) && truthy x.(executor_kind) = true.
Proof.
  rewrite !forallb_app, !andb_true_iff. intros (H1 & H2 & H3) ((? & ?) & ?).
  by rewrite (is_in_implies _ _ H1), (is_in_implies _ _ H2), (is_in_implies _ _ H3).
Qed.

Definition v1_branch (x : Discriminator) : bool :=
  is_in x.(registry_id) ["v1-internal"] && is_in x.(authority_model) V1_AUTHORITIES &&
  is_in x.(executor_kind) ["legacy_v1"].
Definition v2_branch (x : Discriminator) : bool :=
  is_in x.(origin) ["assistant"] && is_in x.(registry_id) ["v2-api"] &&
  is_in x.(authority_model) ["preview_confirmation_v2"] &&
  is_in x.(executor_kind) PREVIEW_EXECUTORS && truthy x.(run_id).
Definition direct_branch (x : Discriminator) : bool :=
  is_in x.(origin) TRUSTED_ORIGINS && is_in x.(registry_id) ["v2-api"; "v2-local"] &&
  is_in x.(authority_model) ["trusted_direct_v2"] && is_in x.(executor_kind) ["direct_safe_write"].
Definition undo_branch (x : Discriminator) : bool :=
  is_in x.(origin) TRUSTED_ORIGINS && is_in x.(registry_id) ["v2-local"] &&
  is_in x.(authority_model) ["undo_v2"] && is_in x.(executor_kind) ["undo_commit"] &&
  truthy x.(source_undo_id) && isSha256 x.(source_undo_hash).

(** The completeness test only adds the origin to what the branches ask for. *)
Lemma branches_complete x :
  v1_branch x || v2_branch x || direct_branch x || undo_branch x = true →
  truthy x.(registry_id) && truthy x.(authority_model) && truthy x.(executor_kind) = true.
Proof.
  unfold v1_branch, v2_branch, direct_branch, undo_branch.
  rewrite !orb_true_iff. intros [[[H|H]|H]|H]; rewrite !andb_true_iff in H; destruct_and? H.
  - apply (named_columns x ["v1-internal"] V1_AUTHORITIES ["legacy_v1"]); [done|].
    rewrite !andb_true_iff; tauto.
  - apply (named_columns x ["v2-api"] ["preview_confirmation_v2"] PREVIEW_EXECUTORS); [done|].
    rewrite !andb_true_iff; tauto.
  - apply (named_columns x ["v2-api"; "v2-local"] ["trusted_direct_v2"] ["direct_safe_write"]); [done|].
    rewrite !andb_true_iff; tauto.
  - apply (named_columns x ["v2-local"] ["undo_v2"] ["undo_commit"]); [done|].
    rewrite !andb_true_iff; tauto.
Qed.

Lemma complete_check x (branches : bool) :
  (branches = true →
   truthy x.(registry_id) && truthy x.(authority_model) && truthy x.(executor_kind) = true) →
  negb (truthy x.(origin) && truthy x.(registry_id) && truthy x.(authority_model) &&
        truthy x.(executor_kind)) = false ∧ branches = true ↔
  truthy x.(origin) = true ∧ branches = true.
Proof.
  intros H. rewrite negb_false_iff, !andb_true_iff. split; [tauto|]. intros [Ho Hb].
  specialize (H Hb). rewrite !andb_true_iff in H. tauto.
Qed.

(** What the check accepts, as one formula per surface. *)
Lemma validate_operation x :
  validateDiscriminatorMatrix operation_run x = None ↔
  truthy x.(origin) = true ∧
  v1_branch x || (v2_branch x && isBoundedProvenanceJson x.(field_provenance_json) &&
                  isSha256 x.(field_provenance_hash)) || direct_branch x || undo_branch x = true.
Proof.
  rewrite <- complete_check; [|intros H; apply branches_complete;
    rewrite !orb_true_iff, ?andb_true_iff in *; tauto].
  unfold validateDiscriminatorMatrix. fold (v1_branch x) (v2_branch x) (direct_branch x) (undo_branch x).
  destruct (negb _); [naive_solver|].
  destruct (v1_branch x), (v2_branch x && _ && _), (direct_branch x), (undo_branch x); naive_solver.
Qed.

Lemma validate_pending x :
  validateDiscriminatorMatrix pending_confirmation x = None ↔
  truthy x.(origin) = true ∧ v1_branch x || v2_branch x = true.
Proof.
  rewrite <- complete_check; [|intros H; apply branches_complete;
    rewrite !orb_true_iff in *; tauto].
  unfold validateDiscriminatorMatrix. fold (v1_branch x) (v2_branch x).
  destruct (negb _); [naive_solver|].
  destruct (is_in _ ["trusted_direct_v2"; "undo_v2"]) eqn:Hc.
  - apply is_in_spec in Hc as (s & Hs & Hm). unfold v1_branch, v2_branch. rewrite Hm.
    apply list_elem_of_In in Hs as [<-|[<-|[]]]; cbn; rewrite ?andb_false_r; naive_solver.
  - destruct (v1_branch x), (v2_branch x); naive_solver.
Qed.

(** Evaluate the memberships of a known authority. *)
Ltac known := repeat match goal with
  | |- context [is_in (Some ?s) ?l] =>
      let b := eval vm_compute in (is_in (Some s) l) in change (is_in (Some s) l) with b
  end.
Ltac by_authority x :=
  destruct (authority_cases x.(authority_model)) as [E|[E|[E|[E|[E|(E1 & E2 & E3 & E4 & E5)]]]]];
    [rewrite E|rewrite E|rewrite E|rewrite E|rewrite E|rewrite ?E1, ?E2, ?E3, ?E4, ?E5];
    known; rewrite ?andb_false_r, ?andb_false_l, ?andb_true_r, ?andb_true_l, ?orb_false_r, ?orb_false_l.
Ltac by_props :=
  simpl; rewrite ?orb_true_iff, ?andb_true_iff, ?bool_decide_eq_true; simpl;
  try (intuition (try discriminate; auto using truthy_some, hash_sized_of_sha, provenance_mono); fail).

Lemma truthy_is_some v : truthy v = true → is_Some v.
Proof. destruct v; [eauto|done]. Qed.
#[local] Hint Resolve truthy_is_some : core.

Lemma pending_mirror x :
  validateDiscriminatorMatrix pending_confirmation x = None ↔
  confirmation_matrix x = true ∧ stricter x = true.
Proof.
  rewrite validate_pending.
  unfold confirmation_matrix, stricter, v1_tuple, v2_preview_tuple, v1_branch, v2_branch.
  fold V1_AUTHORITIES. fold PREVIEW_EXECUTORS.
  by_authority x; by_props.
Qed.

Lemma operation_mirror d b :
  validateDiscriminatorMatrix operation_run b.(discriminator) = None ∧ row_facts d b = true ↔
  operation_matrix d b = true ∧ stricter b.(discriminator) = true ∧
  hashes_hex b.(discriminator) = true.
Proof.
  rewrite validate_operation. unfold row_facts, operation_matrix, hashes_hex, stricter,
    v1_tuple, v2_preview_tuple, v1_branch, v2_branch, direct_branch, undo_branch.
  generalize (discriminator b) as x. intros x.
  fold V1_AUTHORITIES. fold PREVIEW_EXECUTORS. fold TRUSTED_ORIGINS.
  pose proof (provenance_mono (field_provenance_json x)) as Hp.
  pose proof (hash_sized_of_sha (field_provenance_hash x)) as Hh.
  pose proof (hash_sized_of_sha (source_undo_hash x)) as Hu.
  set (bytes := match field_provenance_json x with Some VUndef | None => false | Some v => _ end) in *.
  set (run := match run_id x with Some r => _ | None => false end) in *.
  clearbody bytes run.
  by_authority x; by_props.
Qed.

Definition v2_demo (provenance : jsval) (hash : jstr) : OperationBinding :=
  {| request_id := None; confirmation_id := None; session_id := u "s"; workspace_id := u "w";
     admin_user_id := u "a"; action_name := u "delete_tag"; action_fingerprint := u "f";
     catalog_hash := u "c"; operation_hash := u "h"; capability_id := None; capability_hash := None;
     discriminator :=
       {| origin := Some (u "assistant"); registry_id := Some (u "v2-api");
          authority_model := Some (u "preview_confirmation_v2");
          executor_kind := Some (u "risky_commit"); run_id := Some (u "r");
          field_provenance_json := Some provenance; field_provenance_hash := Some hash;
          source_undo_id := None; source_undo_hash := None |};
     run_created_at := 0 |}.
Definition demo_assistant_run : AssistantRunRow :=
  {| arun_workspace := u "w"; arun_admin := u "a"; arun_generation := 1; arun_auth := addon;
     original_request := u "delete the tag"; arun_request_hash := replicate 64 97%N;
     phase := RunBudget.phase_preparing_writes; arun_catalog_hash := replicate 64 97%N; loaded_tool_names := [];
     used_tool_names := []; continuation := continue_none; budget_json := RunBudget.createEmptyRunBudget;
     unfinished_operations := VArr []; arun_created_at := 0; arun_updated_at := 0 |}.
Definition demo_runs_db : db :=
  set_run_tables (set_aruns {[ (u "s", u "r") := demo_assistant_run ]} empty_tables) empty_db.
Definition wide_row : OperationBinding :=
  v2_demo (VStr (replicate 30000 20013%N)) (replicate 64 97%N).
Definition odd_hash_row : OperationBinding := v2_demo (VObj []) (replicate 64 122%N).

(** The check and the triggers.  For previews, what the check accepts is what the
    trigger accepts, with a non-empty origin and (for a v2 preview) run id.  For
    operations, the check together with what only the trigger can see (the provenance
    bytes, the existing run) is the trigger together with what only the check asks for
    (non-empty ids, lower-case hexadecimal hashes).  So neither rule contains the
    other: a provenance of few units and many bytes passes the check and is refused by
    the table, and a 64-character hash that is not hexadecimal the other way round. *)
Theorem discriminator_mirror :
  (∀ x, validateDiscriminatorMatrix pending_confirmation x = None ↔
        confirmation_matrix x = true ∧ stricter x = true) ∧
  (∀ d b, validateDiscriminatorMatrix operation_run b.(discriminator) = None ∧ row_facts d b = true ↔
          operation_matrix d b = true ∧ stricter b.(discriminator) = true ∧
          hashes_hex b.(discriminator) = true) ∧
  (validateDiscriminatorMatrix operation_run wide_row.(discriminator) = None ∧
   operation_matrix demo_runs_db wide_row = false) ∧
  (validateDiscriminatorMatrix operation_run odd_hash_row.(discriminator) ≠ None ∧
   operation_matrix demo_runs_db odd_hash_row = true) ∧
  (∀ cap, validateDiscriminatorMatrix operation_run (v1DiscriminatorFromCapability cap) = None ∧
          validateDiscriminatorMatrix pending_confirmation (v1DiscriminatorFromCapability cap) = None).
Proof.
  split; [apply pending_mirror|]. split; [apply operation_mirror|].
  split; [split; vm_compute; reflexivity|]. split; [split; [by vm_compute|vm_compute; reflexivity]|].
  intros cap. unfold v1DiscriminatorFromCapability. by destruct (truthy cap).
Qed.
