(* ===== verification/Plan.v ===== *)
(** * Persisted mutation plans

    The part of [db/store/operation-runs.ts] that reads the plan and the operation
    back from a row: only what is persisted can authorise later host work. *)
From S2P Require Import Prelude Js SafeJson ActionResults Db Confirmations.
From S2P Require SafetyLimits.
Open Scope Z_scope.
#[local] Arguments u : simpl never.

Record PersistedPlanDescriptor := {
  descriptor_id : jstr;
  descriptor_kind : StepKind;
  descriptor_target : option jstr;
}.

Definition plan_modes : list string := ["single"; "curated"; "batch"].
Definition strategies : list string := ["create"; "update"; "delete"; "state-command"; "composed"].

Definition string_of (v : jsval) : option jstr := match v with VStr s => Some s | _ => None end.

Definition is_text (s : jstr) (v : jsval) : bool := bool_decide (string_of v = Some s).

Definition parse_kind (v : jsval) : option StepKind :=
  match v with
  | VStr s => if bool_decide (s = u "primary") then Some primary
              else if bool_decide (s = u "compensation") then Some compensation else None
  | _ => None
  end.

(** An optional member: absent, or of the type asked for. *)
Definition optional_string (v : jsval) : bool := is_undef v || is_string v.
Definition optional_strategy (v : jsval) : bool := is_undef v || is_in (string_of v) strategies.

(** One step of a plan; [ids] are those already seen. *)
Definition plan_step (ids : list jstr) (value : jsval) : option PersistedPlanDescriptor :=
  if is_record value then
    match prop (u "id") value, parse_kind (prop (u "kind") value) with
    | VStr id, Some kind =>
        if bool_decide (id = []) || bool_decide (id ∈ ids) ||
           negb (optional_string (prop (u "targetFingerprint") value)) ||
           negb (optional_strategy (prop (u "reconciliationStrategy") value))
        then None
        else Some {| descriptor_id := id; descriptor_kind := kind;
                     descriptor_target := string_of (prop (u "targetFingerprint") value) |}
    | _, _ => None
    end
  else None.

Fixpoint plan_steps (ids : list jstr) (steps : list jsval) : option (list PersistedPlanDescriptor) :=
  match steps with
  | [] => Some []
  | value :: rest =>
      d ← plan_step ids value;
      ds ← plan_steps (d.(descriptor_id) :: ids) rest;
      Some (d :: ds)
  end.

(** [mutationPlanDescriptors] *)
Definition mutationPlanDescriptors (plan : jsval) : option (list PersistedPlanDescriptor) :=
  if negb (is_record plan) then None
  else
    match safe_integer (prop (u "maxHostCalls") plan), prop (u "steps") plan with
    | Some maxHostCalls, VArr steps =>
        let n := Z.of_nat (length steps) in
        if negb (is_in (string_of (prop (u "mode") plan)) plan_modes) || (maxHostCalls <? 1) ||
           (SafetyLimits.HOST_CALL_BUDGET_MAXIMUM <? maxHostCalls) || (n =? 0) || (maxHostCalls <? n)
        then None
        else if is_in (string_of (prop (u "mode") plan)) ["single"] && negb (n =? 1) then None
        else plan_steps [] steps
    | _, _ => None
    end.

(** [persistedPlanDescriptors]: of the value of the JSON column. *)
Definition persistedPlanDescriptors (decoded : jsval) : option (list PersistedPlanDescriptor) :=
  if is_record decoded then mutationPlanDescriptors (prop (u "mutationPlan") decoded) else None.

Definition matchesPersistedDescriptor (descriptors : list PersistedPlanDescriptor)
    (row : StepIdentity) (expectedKind : StepKind) : bool :=
  match descriptors !! Z.to_nat row.(step_index) with
  | None => false
  | Some d =>
      (0 <=? row.(step_index)) &&
      bool_decide (d.(descriptor_id) = row.(plan_step_id)) &&
      bool_decide (d.(descriptor_kind) = expectedKind) &&
      bool_decide (row.(step_kind) = expectedKind) &&
      (bool_decide (d.(descriptor_target) = None) ||
       bool_decide (d.(descriptor_target) = row.(target_fingerprint)))
  end.

(** ** What [toRun] reads from the row *)

(** The decoded [operation_json] when it is an object ([{}] otherwise). *)
Definition persisted (r : OperationRunRow) : jsval :=
  if is_object r.(operation_json) then r.(operation_json) else VObj [].

(** [run.operation] and [run.mutationPlan]. *)
Definition run_operation (r : OperationRunRow) : jsval := prop (u "operation") (persisted r).

(** A value JavaScript counts as true. *)
Definition truthy_value (v : jsval) : bool :=
  match v with
  | VUndef | VNull | VBool false | VNum NumNaN | VNum (NumInt 0) | VStr [] => false
  | _ => true
  end.
Definition run_mutationPlan (r : OperationRunRow) : jsval :=
  let v := prop (u "mutationPlan") (persisted r) in if truthy_value v then v else VUndef.

(** A column of the run that [toRun] leaves out when it is empty. *)
Definition column (v : option jstr) : option jstr := if truthy v then v else None.

(** [completeStartupEvidence] *)
Definition completeStartupEvidence (value : jsval) : result jsval :=
  let safe := sanitizeCompleteJson value in
  if 65536 <? jsonByteLength safe then Throw "startup_evidence_too_large" else Ok safe.

Section Hashes.
Context (sha256 : jstr → jstr).

(** The members a hashed object keeps. *)
Definition member (k : string) (v : jsval) : list (jstr * jsval) := [(u k, v)].

Definition hasValidPersistedOperationHash (id : jstr) (r : OperationRunRow) : result bool :=
  let b := r.(binding) in
  let operation := run_operation r in
  let confirmed := bool_decide (is_Some (column b.(confirmation_id))) in
  if is_in b.(discriminator).(authority_model) ["preview_confirmation_v2"] &&
     is_in b.(discriminator).(registry_id) ["v2-api"]
  then let! h := hashOperation sha256 operation in Ok (bool_decide (h = b.(operation_hash)))
  else if confirmed &&
    (negb (is_object operation) ||
     negb (is_text id (prop (u "operationId") operation)) ||
     negb (is_text b.(action_name) (prop (u "actionName") operation)))
  then Ok false
  else
    let! own := hashOperation sha256 (VObj (member "mutationPlan" (prop (u "mutationPlan") operation))) in
    let! stored := hashOperation sha256 (VObj (member "mutationPlan" (run_mutationPlan r))) in
    if confirmed && negb (bool_decide (own = stored)) then Ok false
    else
      let! expected :=
        if confirmed then hashOperation sha256 operation
        else hashOperation sha256
          (VObj (member "actionName" (VStr b.(action_name)) ++ member "operation" operation ++
                 member "mutationPlan" (run_mutationPlan r))) in
      Ok (bool_decide (expected = b.(operation_hash))).

End Hashes.

(** [preparedAssistantPreviewMatchesConfirmation] *)
Definition preparedAssistantPreviewMatchesConfirmation (r : OperationRunRow)
    (record : PendingConfirmationRecord) : bool :=
  let b := r.(binding) in
  let x := b.(discriminator) in
  let y := record.(discriminators) in
  bool_decide (r.(run_status) = RunPrepared) &&
  is_in y.(authority_model) ["preview_confirmation_v2"] && is_in y.(registry_id) ["v2-api"] &&
  bool_decide (column x.(run_id) = y.(run_id)) &&
  bool_decide (column x.(registry_id) = y.(registry_id)) &&
  bool_decide (column x.(authority_model) = y.(authority_model)) &&
  bool_decide (column x.(executor_kind) = y.(executor_kind)) &&
  bool_decide (b.(action_fingerprint) = record.(actionFingerprint)) &&
  bool_decide (b.(catalog_hash) = record.(catalogHash)) &&
  bool_decide (b.(operation_hash) = record.(operationHash)).

(** ** Lemmas *)

Lemma plan_steps_sound ids steps ds :
  plan_steps ids steps = Some ds →
  length ds = length steps ∧ NoDup (descriptor_id <$> ds) ∧
  (∀ d, d ∈ ds → d.(descriptor_id) ∉ ids) ∧
  Forall2 (λ d v, ∃ seen, plan_step seen v = Some d) ds steps.
Proof.
  revert ids ds. induction steps as [|v steps IH]; intros ids ds H; simpl in H.
  - injection H as <-. split_and!; [done|constructor|set_solver|constructor].
  - destruct (plan_step ids v) as [d|] eqn:Hd; simpl in H; [|done].
    destruct (plan_steps (descriptor_id d :: ids) steps) as [ds'|] eqn:Hds; simpl in H; [|done].
    injection H as <-. destruct (IH _ _ Hds) as (Hl & Hnd & Hnew & Hall).
    split_and!; [simpl; lia| |..].
    + csimpl. constructor; [|done]. intros (d' & He & Hd')%list_elem_of_fmap.
      apply (Hnew d' Hd'). rewrite <- He. set_solver.
    + intros d' [->|Hd']%elem_of_cons; [|pose proof (Hnew d' Hd'); set_solver].
      unfold plan_step in Hd. repeat (case_match; try done). simplify_eq/=.
      match goal with H : _ = false |- _ => rewrite !orb_false_iff, !bool_decide_eq_false in H end.
      tauto.
    + constructor; [eauto|done].
Qed.

(** What the persisted value of one step says. *)
Lemma plan_step_fields seen v d :
  plan_step seen v = Some d →
  prop (u "id") v = VStr d.(descriptor_id) ∧ d.(descriptor_id) ≠ [] ∧
  parse_kind (prop (u "kind") v) = Some d.(descriptor_kind) ∧
  d.(descriptor_target) = string_of (prop (u "targetFingerprint") v).
Proof.
  unfold plan_step. intros H. repeat (case_match; try done). simplify_eq/=.
  match goal with H : _ = false |- _ => rewrite !orb_false_iff, !bool_decide_eq_false in H end.
  tauto.
Qed.

(** The order in which the ids were seen does not matter to a later duplicate. *)
Lemma plan_steps_reject ids steps i j v w a :
  (i < j)%nat → steps !! i = Some v → steps !! j = Some w →
  prop (u "id") v = VStr a → prop (u "id") w = VStr a → plan_steps ids steps = None.
Proof.
  intros Hij Hi Hj Hv Hw. destruct (plan_steps ids steps) as [ds|] eqn:H; [|done].
  apply plan_steps_sound in H as (_ & Hnd & _ & Hall).
  destruct (Forall2_lookup_r _ _ _ _ _ Hall Hi) as (d & Hd & s1 & H1).
  destruct (Forall2_lookup_r _ _ _ _ _ Hall Hj) as (e & He & s2 & H2).
  apply plan_step_fields in H1 as (H1 & _), H2 as (H2 & _).
  assert (descriptor_id d = descriptor_id e) as Heq by congruence.
  exfalso. apply (NoDup_lookup _ i j (descriptor_id d)) in Hnd; [lia|..];
    rewrite list_lookup_fmap; [by rewrite Hd|rewrite He; simpl; congruence].
Qed.

(** A step that parses on its own parses in a plan where its id is new. *)
Lemma plan_step_fresh ids v d :
  plan_step ids v = Some d ↔ plan_step [] v = Some d ∧ d.(descriptor_id) ∉ ids.
Proof.
  unfold plan_step. destruct (is_record v); [|naive_solver].
  destruct (prop (u "id") v); try naive_solver.
  destruct (parse_kind _); [|naive_solver].
  case_bool_decide; simpl; [naive_solver|].
  case_bool_decide; simpl.
  - split; [done|]. intros [H1 H2]. repeat (case_match; try done). by simplify_eq/=.
  - split; [|by intros [? _]]. intros H1. split; [done|].
    repeat (case_match; try done). by simplify_eq/=.
Qed.

Lemma plan_steps_exact ids steps ds :
  plan_steps ids steps = Some ds ↔
  Forall2 (λ d v, plan_step [] v = Some d) ds steps ∧ NoDup (descriptor_id <$> ds) ∧
  Forall (λ d, d.(descriptor_id) ∉ ids) ds.
Proof.
  revert ids ds. induction steps as [|v steps IH]; intros ids ds; simpl.
  - split; [intros [= <-]; repeat constructor|]. by intros (->%Forall2_nil_inv_r & _).
  - split.
    + destruct (plan_step ids v) as [d|] eqn:Hd; simpl; [|done].
      destruct (plan_steps _ _) as [ds'|] eqn:Hds; simpl; [|done]. intros [= <-].
      apply IH in Hds as (Hall & Hnd & Hnew). apply plan_step_fresh in Hd as [Hd Hids].
      rewrite Forall_forall in Hnew. csimpl. split_and!.
      * by constructor.
      * constructor; [|done]. intros (e & He & Hin)%list_elem_of_fmap. specialize (Hnew e Hin). set_solver.
      * constructor; [done|]. apply Forall_forall. intros e He. specialize (Hnew e He). set_solver.
    + intros (Hall & Hnd & Hnew). inversion Hall as [|d ? ds' ? Hd Hall']; subst. csimpl in *.
      apply NoDup_cons in Hnd as [Hd1 Hnd]. apply Forall_cons in Hnew as [Hd2 Hnew].
      rewrite (proj2 (plan_step_fresh ids v d) (conj Hd Hd2)). simpl.
      rewrite (proj2 (IH (descriptor_id d :: ids) ds')); [done|]. split_and!; [done..|].
      rewrite Forall_forall in *. intros e He. specialize (Hnew e He).
      rewrite elem_of_cons. intros [Heq|]; [|done]. apply Hd1. rewrite <- Heq.
      by apply list_elem_of_fmap_2.
Qed.

(** A well-formed plan and what it says of each step. *)
Definition well_formed_plan (plan : jsval) (ds : list PersistedPlanDescriptor) : Prop :=
  is_record plan = true ∧
  ∃ mode maxHostCalls steps,
    prop (u "mode") plan = VStr mode ∧ is_in (Some mode) plan_modes = true ∧
    safe_integer (prop (u "maxHostCalls") plan) = Some maxHostCalls ∧
    prop (u "steps") plan = VArr steps ∧
    1 ≤ Z.of_nat (length ds) ≤ maxHostCalls ∧ maxHostCalls ≤ SafetyLimits.HOST_CALL_BUDGET_MAXIMUM ∧
    (mode = u "single" → length ds = 1%nat) ∧
    NoDup (descriptor_id <$> ds) ∧ Forall2 (λ d v, plan_step [] v = Some d) ds steps.

Lemma string_of_in v l : is_in (string_of v) l = true → ∃ s, v = VStr s ∧ is_in (Some s) l = true.
Proof. destruct v; simpl; try done. eauto. Qed.

Lemma is_in_one s (name : string) : is_in (Some s) [name] = bool_decide (u name = s).
Proof. unfold is_in. cbn [existsb]. by rewrite orb_false_r. Qed.

Lemma descriptors_exact plan ds :
  mutationPlanDescriptors plan = Some ds ↔ well_formed_plan plan ds.
Proof.
  unfold mutationPlanDescriptors, well_formed_plan. destruct (is_record plan); cbn [negb]; [|naive_solver].
  split.
  - destruct (safe_integer _) as [m|] eqn:Hm; [|done].
    destruct (prop (u "steps") plan) as [| | | | |steps| | | |] eqn:Hs; try done.
    destruct (negb _ || _ || _ || _ || _) eqn:Hc; [done|]. rewrite !orb_false_iff in Hc.
    destruct Hc as ((((Hmode & Hm1) & Hm2) & Hn0) & Hn). zbool.
    destruct (_ && negb _) eqn:Hs1; [done|].
    intros (Hall & Hnd & _)%plan_steps_exact. pose proof (Forall2_length _ _ _ Hall) as Hlen.
    apply string_of_in in Hmode as (mode & Hmode & Hin). rewrite Hmode in Hs1.
    cbn [string_of] in Hs1. rewrite is_in_one in Hs1.
    split; [done|]. exists mode, m, steps. split_and!; try done; try lia.
    intros Hone. rewrite (bool_decide_eq_true_2 _ (eq_sym Hone)) in Hs1. simpl in Hs1. zbool. lia.
  - intros (_ & mode & m & steps & Hmode & Hin & Hm & Hs & Hn & Hm2 & Hs1 & Hnd & Hall).
    pose proof (Forall2_length _ _ _ Hall) as Hlen. rewrite Hm, Hs, Hmode. cbn [string_of].
    rewrite Hin. rewrite is_in_one.
    rewrite (proj2 (Z.ltb_ge m 1)), (proj2 (Z.ltb_ge _ m)), (proj2 (Z.eqb_neq _ 0)),
      (proj2 (Z.ltb_ge m _)) by lia. simpl.
    replace (bool_decide (u "single" = mode) && negb (Z.of_nat (length steps) =? 1)) with false.
    + apply plan_steps_exact. split_and!; [done..|]. apply Forall_forall. set_solver.
    + case_bool_decide as Hone; [|done]. rewrite (proj2 (Z.eqb_eq _ 1)); [done|]. 
      specialize (Hs1 (eq_sym Hone)). lia.
Qed.

Lemma matches_descriptor ds row k :
  matchesPersistedDescriptor ds row k = true ↔
  ∃ d, 0 ≤ row.(step_index) ∧ ds !! Z.to_nat row.(step_index) = Some d ∧
    d.(descriptor_id) = row.(plan_step_id) ∧ d.(descriptor_kind) = k ∧ row.(step_kind) = k ∧
    (d.(descriptor_target) = None ∨ d.(descriptor_target) = row.(target_fingerprint)).
Proof.
  unfold matchesPersistedDescriptor. destruct (ds !! _) as [d|]; [|naive_solver].
  rewrite !andb_true_iff, orb_true_iff, !bool_decide_eq_true, Z.leb_le. naive_solver.
Qed.

(** What a persisted plan authorises.  The descriptors are computed exactly for the
    well-formed plans (a known mode, between one and [maxHostCalls] steps, at most 60
    calls, one step in single mode, distinct non-empty ids, known kinds and strategies), so that
    one malformed or repeated step authorises nothing; and a journal row that matches
    is the step persisted at its index, of the expected kind and target. *)
Theorem persisted_plan_exact decoded ds row k :
  (persistedPlanDescriptors decoded = Some ds ↔
   is_record decoded = true ∧ well_formed_plan (prop (u "mutationPlan") decoded) ds) ∧
  (persistedPlanDescriptors decoded = Some ds → matchesPersistedDescriptor ds row k = true →
   ∃ steps value, prop (u "steps") (prop (u "mutationPlan") decoded) = VArr steps ∧
     steps !! Z.to_nat row.(step_index) = Some value ∧
     prop (u "id") value = VStr row.(plan_step_id) ∧ row.(step_kind) = k ∧
     parse_kind (prop (u "kind") value) = Some k ∧
     (∀ target, prop (u "targetFingerprint") value = VStr target →
        row.(target_fingerprint) = Some target)).
Proof.
  assert (persistedPlanDescriptors decoded = Some ds ↔
   is_record decoded = true ∧ well_formed_plan (prop (u "mutationPlan") decoded) ds) as Hiff.
  { unfold persistedPlanDescriptors. rewrite <- descriptors_exact.
    destruct (is_record decoded); naive_solver. }
  split; [done|]. intros Hp (d & H0 & Hd & Hid & Hk & Hrk & Ht)%matches_descriptor.
  apply Hiff in Hp as (_ & _ & mode & m & steps & _ & _ & _ & Hs & _ & _ & _ & _ & Hall).
  destruct (Forall2_lookup_l _ _ _ _ _ Hall Hd) as (value & Hv & Hstep).
  apply plan_step_fields in Hstep as (Hvid & _ & Hvk & Hvt).
  exists steps, value. split_and!; try done; try congruence.
  intros target Htarget. rewrite Htarget in Hvt. simpl in Hvt. destruct Ht; congruence.
Qed.

Definition demo_plan : jsval :=
  VObj [(u "mode", VStr (u "curated")); (u "maxHostCalls", num 2);
        (u "steps", VArr [VObj [(u "id", VStr (u "a")); (u "kind", VStr (u "primary"))];
                          VObj [(u "id", VStr (u "b")); (u "kind", VStr (u "compensation"));
                                (u "targetFingerprint", VStr (u "t"))]])].
Definition demo_step : StepIdentity :=
  {| operation_id := u "op"; step_index := 1; plan_step_id := u "b"; step_name := u "undo";
     step_kind := compensation; target_fingerprint := Some (u "t"); compensates_step_id := None;
     step_created_at := 0 |}.
Definition demo_descriptors : list PersistedPlanDescriptor :=
  default [] (mutationPlanDescriptors demo_plan).

Lemma persisted_plan_exact_witness :
  ∃ steps value, prop (u "steps") (prop (u "mutationPlan") (VObj [(u "mutationPlan", demo_plan)])) = VArr steps ∧
    steps !! 1%nat = Some value ∧ prop (u "id") value = VStr (u "b") ∧ compensation = compensation ∧
    parse_kind (prop (u "kind") value) = Some compensation ∧
    (∀ target, prop (u "targetFingerprint") value = VStr target → Some (u "t") = Some target).
Proof.
  apply (persisted_plan_exact (VObj [(u "mutationPlan", demo_plan)]) demo_descriptors demo_step compensation);
    vm_compute; reflexivity.
Defined.
