(* ===== verification/Journal.v ===== *)
(** * The operation journal

    [db/store/operation-runs.ts]: the durable record of an operation and its steps, one
    transaction per operation of the store.  [now] is the clock, [uuid] the fresh id of
    a transaction. *)
From S2P Require Import Prelude Js SafeJson ActionResults Confirmations Db Discriminators Plan.
Open Scope Z_scope.
#[local] Arguments u : simpl never.

(** ** Operation runs *)

Record PrepareOperationRunInput := {
  run_in_id : option jstr;
  run_in_requestId : option jstr;
  run_in_confirmationId : option jstr;
  run_in_sessionId : jstr;
  run_in_workspaceId : jstr;
  run_in_adminUserId : jstr;
  run_in_actionName : jstr;
  run_in_actionFingerprint : jstr;
  run_in_catalogHash : jstr;
  run_in_operationHash : jstr;
  run_in_operation : jsval;      (** [VUndef]: absent *)
  run_in_mutationPlan : jsval;
  run_in_capabilityId : option jstr;
  run_in_capabilityHash : option jstr;
  run_in_discriminator : option (Discriminator * option jstr);  (** with its batch id *)
}.

Definition operation_envelope (i : PrepareOperationRunInput) : jsval :=
  VObj ((if is_undef i.(run_in_operation) then [] else [(u "operation", i.(run_in_operation))]) ++
        (if truthy_value i.(run_in_mutationPlan)
         then [(u "mutationPlan", i.(run_in_mutationPlan))] else [])).

Definition prepareOperationRun (i : PrepareOperationRunInput) (now : Z) (uuid : jstr) : M jstr :=
  require! negb (truthy_value i.(run_in_mutationPlan) &&
                 bool_decide (mutationPlanDescriptors i.(run_in_mutationPlan) = None))
    else "invalid_mutation_plan" in
  let id := default uuid i.(run_in_id) in
  do! envelope := lift (exactNonsecretJson (operation_envelope i) 1000000) in
  let '(x, batch) := default (v1DiscriminatorFromCapability i.(run_in_capabilityId), None)
                       i.(run_in_discriminator) in
  do! stored := lift (actionResultJson envelope) in
  do! _ := insert_run id
    {| binding :=
         {| request_id := i.(run_in_requestId); confirmation_id := i.(run_in_confirmationId);
            session_id := i.(run_in_sessionId); workspace_id := i.(run_in_workspaceId);
            admin_user_id := i.(run_in_adminUserId); action_name := i.(run_in_actionName);
            action_fingerprint := i.(run_in_actionFingerprint);
            catalog_hash := i.(run_in_catalogHash); operation_hash := i.(run_in_operationHash);
            capability_id := i.(run_in_capabilityId); capability_hash := i.(run_in_capabilityHash);
            discriminator := x; run_created_at := now |};
       run_status := RunPrepared; run_result_id := None; operation_json := stored;
       reconciled_at := None; reconciliation_json := None; run_batch_id := batch;
       run_updated_at := now |} in
  mreturn id.

Definition has_run_status (s : OperationRunStatus) (r : OperationRunRow) : bool :=
  bool_decide (r.(run_status) = s).

Definition markOperationExecuting (id : jstr) (now : Z) : M bool :=
  update_run_status id (has_run_status RunPrepared)
    (λ r, with_run_status RunExecuting r.(run_result_id) now r).

(** [settleOperationRun]: unconditional. *)
Definition settleOperationRun (id : jstr) (k : ActionResultKind) (actionResultId : option jstr)
    (now : Z) : M unit :=
  do! _ := update_run_status id (λ _, true) (with_run_status (run_status_of k) actionResultId now) in
  mreturn tt.

(** A new row of [action_results] from a result and its summary. *)
Definition result_row (op : option jstr) (wid aid : jstr) (sid : option jstr) (action : jstr)
    (k : ActionResultKind) (stored summary : jsval) (now : Z) : ActionResultRow :=
  {| result_operation_id := op; result_workspace_id := wid; result_admin_user_id := aid;
     result_session_id := sid; result_action_name := action; result_kind := k;
     result_json := stored; summary_json := summary; result_created_at := now |}.

Definition settles_prepared_denial (s : OperationRunStatus) (k : ActionResultKind) : bool :=
  bool_decide (s = RunPrepared) && bool_decide (k = definitive_failed).

Definition settleOperationResult (id : jstr) (k : ActionResultKind) (value : jsval) (now : Z)
    (uuid : jstr) : M ActionResultRef :=
  do! d := getdb in
  match d.(operation_runs) !! id with
  | None => mthrow "operation_not_found"
  | Some op =>
      match column op.(run_result_id) with
      | Some a =>
          match d.(action_results) !! a with
          | None => mthrow "operation_result_not_found"
          | Some r => mreturn {| ref_id := a; ref_kind := r.(result_kind); ref_summary := r.(summary_json) |}
          end
      | None =>
          require! bool_decide (op.(run_status) = RunExecuting) ||
                   settles_prepared_denial op.(run_status) k
            else "operation_not_executing" in
          do! summary := lift (buildActionResultSummary uuid value) in
          do! stored := lift (actionResultJson value) in
          do! stored_summary := lift (actionResultJson summary) in
          let b := op.(binding) in
          do! _ := insert_result uuid (result_row (Some id) b.(workspace_id) b.(admin_user_id)
                     (Some b.(session_id)) b.(action_name) k stored stored_summary now) in
          do! changed := update_run_status id
            (λ r, bool_decide (r.(run_status) = op.(run_status)) && bool_decide (r.(run_result_id) = None))
            (with_run_status (run_status_of k) (Some uuid) now) in
          require! changed else "operation_not_executing" in
          mreturn {| ref_id := uuid; ref_kind := k; ref_summary := summary |}
      end
  end.

Definition recordActionResult (op : option jstr) (wid aid : jstr) (sid : option jstr) (action : jstr)
    (k : ActionResultKind) (value : jsval) (now : Z) (uuid : jstr) : M ActionResultRef :=
  do! stored := lift (actionResultJson value) in
  do! summary := lift (buildActionResultSummary uuid value) in
  do! stored_summary := lift (actionResultJson summary) in
  do! _ := insert_result uuid (result_row op wid aid sid action k stored stored_summary now) in
  mreturn {| ref_id := uuid; ref_kind := k; ref_summary := summary |}.

(** ** Primary steps *)

(** [s.operation_id = ?] when an operation id is given. *)
Definition in_scope (operationId : option jstr) (r : OperationStepRow) : bool :=
  match operationId with
  | None => true
  | Some o => bool_decide (r.(identity).(operation_id) = o)
  end.

Definition step_is (s : StepStatus) (k : StepKind) (r : OperationStepRow) : bool :=
  bool_decide (r.(step_status) = s) && bool_decide (r.(identity).(step_kind) = k).

Record PrepareOperationStepInput := {
  step_in_id : option jstr;
  step_in_operationId : jstr;
  step_in_planStepId : jstr;
  step_in_index : Z;
  step_in_name : jstr;
  step_in_kind : StepKind;
  step_in_targetFingerprint : option jstr;
  step_in_preparedDetail : jsval;
  step_in_compensatesStepId : option jstr;
}.

Definition prepared_step (x : StepIdentity) (detail : option jsval) (now : Z) : OperationStepRow :=
  {| identity := x; step_status := StepPrepared; external_id := None; effect_json := None;
     detail_json := detail; queued_at := None; dispatched_at := None; settled_at := None;
     step_updated_at := now |}.

Definition prepareOperationStep (i : PrepareOperationStepInput) (now : Z) (uuid : jstr) : M jstr :=
  require! bool_decide (i.(step_in_kind) = primary) else "compensation_requires_eligibility" in
  let id := default uuid i.(step_in_id) in
  do! detail :=
    (if is_undef i.(step_in_preparedDetail) then mreturn None
     else do! exact := lift (exactNonsecretJson i.(step_in_preparedDetail) 65536) in
          do! stored := lift (actionResultJson exact) in mreturn (Some stored)) in
  do! _ := insert_step id (prepared_step
    {| operation_id := i.(step_in_operationId); step_index := i.(step_in_index);
       plan_step_id := i.(step_in_planStepId); step_name := i.(step_in_name);
       step_kind := i.(step_in_kind); target_fingerprint := i.(step_in_targetFingerprint);
       compensates_step_id := i.(step_in_compensatesStepId); step_created_at := now |} detail now) in
  mreturn id.

(** The columns the updates of a step touch. *)
Definition executing_step (now : Z) (r : OperationStepRow) : OperationStepRow :=
  {| identity := r.(identity); step_status := StepExecuting; external_id := r.(external_id);
     effect_json := r.(effect_json); detail_json := r.(detail_json); queued_at := Some now;
     dispatched_at := r.(dispatched_at); settled_at := r.(settled_at); step_updated_at := now |}.
Definition dispatched_step (now : Z) (r : OperationStepRow) : OperationStepRow :=
  {| identity := r.(identity); step_status := r.(step_status); external_id := r.(external_id);
     effect_json := r.(effect_json); detail_json := r.(detail_json); queued_at := r.(queued_at);
     dispatched_at := Some now; settled_at := r.(settled_at); step_updated_at := now |}.
Definition settled_step (s : StepStatus) (ext : option jstr) (effect detail : option jsval) (now : Z)
    (r : OperationStepRow) : OperationStepRow :=
  {| identity := r.(identity); step_status := s; external_id := ext;
     effect_json := effect; detail_json := detail; queued_at := r.(queued_at);
     dispatched_at := r.(dispatched_at); settled_at := Some now; step_updated_at := now |}.
(** Only the status and the stamps ([settled_at] when the step is over). *)
Definition with_step_status (s : StepStatus) (settles : bool) (now : Z) (r : OperationStepRow)
    : OperationStepRow :=
  {| identity := r.(identity); step_status := s; external_id := r.(external_id);
     effect_json := r.(effect_json); detail_json := r.(detail_json); queued_at := r.(queued_at);
     dispatched_at := r.(dispatched_at);
     settled_at := if settles then Some now else r.(settled_at); step_updated_at := now |}.

Definition operation_executing (d : db) (r : OperationStepRow) : bool :=
  match d.(operation_runs) !! r.(identity).(operation_id) with
  | Some o => has_run_status RunExecuting o
  | None => false
  end.

Definition markOperationStepExecuting (id : jstr) (operationId : option jstr) (now : Z) : M bool :=
  do! d := getdb in
  update_step id (λ r, in_scope operationId r && step_is StepPrepared primary r &&
                       operation_executing d r) (executing_step now).

(** Executing and not dispatched, of either kind. *)
Definition undispatched (operationId : option jstr) (r : OperationStepRow) : bool :=
  in_scope operationId r && bool_decide (r.(step_status) = StepExecuting) &&
  bool_decide (r.(dispatched_at) = None).

Definition markOperationStepDispatched (id : jstr) (operationId : option jstr) (now : Z) : M bool :=
  update_step id (undispatched operationId) (dispatched_step now).

Definition cancelOperationStepBeforeDispatch (id : jstr) (detail : jsval) (operationId : option jstr)
    (now : Z) : M bool :=
  do! safe := lift (actionResultJson (boundedCompleteSanitizedJson detail 8000)) in
  update_step id (undispatched operationId)
    (λ r, settled_step StepDefinitiveFailed r.(external_id) r.(effect_json) (Some safe) now r).

(** *** Settling *)

Record StepDetail := {
  detail_externalId : option jstr;
  detail_effect : jsval;
  detail_detail : jsval;
}.

(** [value === undefined ? null : actionResultJson(...)] *)
Definition stored_effect (v : jsval) : result (option jsval) :=
  if is_undef v then Ok None
  else let! x := actionResultJson (boundedSanitizedJson v 65536) in Ok (Some x).
Definition stored_detail (v : jsval) : result (option jsval) :=
  if is_undef v then Ok None
  else let! x := actionResultJson (boundedCompleteSanitizedJson v 65536) in Ok (Some x).

(** The own enumerable fields a spread copies. *)
Definition spread_fields (v : jsval) : list (jstr * jsval) :=
  match v with
  | VObj fs => fs
  | VBytes bs => imap (λ i b, (digits (N.of_nat i), num (Z.of_N b))) bs
  | _ => []
  end.

(** The detail of a settlement: merged into the prior one when both are objects. *)
Definition merge_detail (prior : option jsval) (next : jsval) : jsval :=
  if is_undef next then default VUndef prior
  else match prior with
       | Some p => if is_record p && is_record next
                   then VObj (fields_spread (spread_fields p) (spread_fields next)) else next
       | None => next
       end.

(** The statuses a dispatched primary step is settled with. *)
Inductive PrimaryOutcome : Set := did_succeed | did_fail | unknown_outcome.
Definition primary_status (o : PrimaryOutcome) : StepStatus :=
  match o with
  | did_succeed => StepSucceeded | did_fail => StepDefinitiveFailed | unknown_outcome => StepOutcomeUnknown
  end.

Definition settleOperationStep (id : jstr) (o : PrimaryOutcome) (x : StepDetail)
    (operationId : option jstr) (now : Z) : M unit :=
  do! d := getdb in
  match d.(operation_steps) !! id with
  | Some r =>
      require! in_scope operationId r && step_is StepExecuting primary r
        else "operation_step_not_executing" in
      let next := merge_detail r.(detail_json) x.(detail_detail) in
      do! effect := lift (stored_effect x.(detail_effect)) in
      do! detail := lift (stored_detail next) in
      do! changed := update_step id (λ r, in_scope operationId r && step_is StepExecuting primary r)
        (settled_step (primary_status o) x.(detail_externalId) effect detail now) in
      require! changed else "operation_step_not_executing" in mreturn tt
  | None => mthrow "operation_step_not_executing"
  end.

(** The degraded marker that replaces an effect which could not be stored. *)
Definition degradation (detail : jsval) : list (jstr * jsval) :=
  [(u "journalDegraded", VBool true); (u "fullEffectPersisted", VBool false)] ++
  (match prop (u "dispatchStatus") detail with
   | VStr s => [(u "dispatchStatus", VStr (slice 64 s))]
   | _ => []
   end) ++
  (let e := prop (u "settlementError") detail in
   if is_undef e then [] else [(u "settlementError", boundedCompleteSanitizedJson e 4096)]).

Definition degraded_detail (prior : option jsval) (detail : jsval) : jsval :=
  match prior with
  | Some p => if is_record p then VObj (fields_spread (spread_fields p) (degradation detail))
              else VObj ((u "preDispatch", p) :: degradation detail)
  | None => VObj (degradation detail)
  end.

Definition settleOperationStepDegraded (id : jstr) (o : PrimaryOutcome) (ext : option jstr)
    (detail : jsval) (operationId : option jstr) (now : Z) : M unit :=
  do! d := getdb in
  match d.(operation_steps) !! id with
  | Some r =>
      require! in_scope operationId r && step_is StepExecuting primary r
        else "operation_step_not_executing" in
      do! stored := lift (actionResultJson (boundedCompleteSanitizedJson
                            (degraded_detail r.(detail_json) detail) 65536)) in
      do! changed := update_step id (λ r, in_scope operationId r && step_is StepExecuting primary r)
        (settled_step (primary_status o) ext None (Some stored) now) in
      require! changed else "operation_step_not_executing" in mreturn tt
  | None => mthrow "operation_step_not_executing"
  end.

(** ** Reconciliation of unknown outcomes *)

(** The decoded [reconciliation_json] names this step and is authoritative. *)
Definition authoritative_for (step : jstr) (reconciliation : option jsval) : bool :=
  match reconciliation with
  | Some v => is_text step (prop (u "stepId") v) &&
              match prop (u "authoritative") v with VBool true => true | _ => false end
  | None => false
  end.

Definition settleReconciledStep (id : jstr) (succeeded_ : bool) (x : StepDetail)
    (operationId : option jstr) (now : Z) : M unit :=
  do! d := getdb in
  match d.(operation_steps) !! id with
  | Some r =>
      match d.(operation_runs) !! r.(identity).(operation_id) with
      | Some o =>
          require! in_scope operationId r && bool_decide (r.(step_status) = StepOutcomeUnknown) &&
                   authoritative_for id o.(reconciliation_json)
            else "authoritative_reconciliation_required" in
          do! effect := lift (stored_effect x.(detail_effect)) in
          do! detail := lift (stored_detail (merge_detail r.(detail_json) x.(detail_detail))) in
          do! changed := update_step id (step_is StepOutcomeUnknown primary)
            (settled_step (if succeeded_ then StepSucceeded else StepDefinitiveFailed)
               x.(detail_externalId) effect detail now) in
          require! changed else "operation_step_not_unknown" in mreturn tt
      | None => mthrow "authoritative_reconciliation_required"
      end
  | None => mthrow "authoritative_reconciliation_required"
  end.

Definition stable_reasons : list string :=
  ["authoritative_match"; "non_unique_or_missing"; "invalid_evidence"; "binding_mismatch";
   "action_fingerprint_drift"; "catalog_hash_drift"; "read_failed"; "incomplete_evidence";
   "evaluation_failed"; "not_found"; "non_unique"; "truncated"; "post_list_truncated";
   "reconciliation_settlement_failed"; "handler_missing"; "installation_unavailable";
   "candidate_scan_limit"].

Definition withheld_words : list jstr :=
  u <$> ["token"; "secret"; "header"; "authorization"; "cookie"; "bytes"; "binary"].
Definition withheld_key (key : jstr) : bool :=
  is_in (Some key) ["binding"; "evidence"] ||
  existsb (λ w, contains_sub w (ascii_lower <$> key)) withheld_words.

Definition scalar (v : jsval) : bool :=
  match v with VNum _ | VBool _ | VNull => true | _ => false end.

(** One round of the reduction to stable scalar members. *)
Definition keep_scalar (safe : list (jstr * jsval)) (f : jstr * jsval) : list (jstr * jsval) :=
  let '(key, value) := f in
  if withheld_key key then safe
  else if is_in (Some key) ["reason"] && is_string value
  then fields_set (u "reason")
         (if is_in (string_of value) stable_reasons then value
          else VStr (u "invalid_reconciliation_reason")) safe
  else if is_in (Some key) ["matches"; "matchCount"; "candidateCount"; "rowCount"; "complete"; "compatible"]
          && scalar value
  then fields_set key value safe
  else safe.

Definition binding_keys : list string :=
  ["operationId"; "stepId"; "planStepId"; "strategy"; "actionName"; "actionFingerprint"; "catalogHash"].
Definition safe_binding (binding : jsval) : jsval :=
  VObj (omap (λ key, match prop (u key) binding with
                     | VStr s => Some (u key, VStr (slice 256 s))
                     | _ => None
                     end) binding_keys).

(** The bounded evidence record of [recordOperationReconciliation]. *)
Definition reconciliation_result (value : jsval) : jsval :=
  let entries := own_entries (spread_fields value) in
  let binding := prop (u "binding") value in
  let evidence := prop (u "evidence") value in
  VObj (foldl keep_scalar [] (take 50 entries) ++
        (if is_object binding then [(u "binding", safe_binding binding)] else []) ++
        (if is_undef evidence then [] else [(u "evidence", boundedSanitizedJson evidence 50000)])).

Definition reconciliation_record (stepId : jstr) (authoritative : bool) (value : jsval) : jsval :=
  boundedSanitizedJson
    (VObj [(u "stepId", VStr (slice 256 stepId)); (u "authoritative", VBool authoritative);
           (u "result", value)]) 65536.

(** An unknown primary step of the operation. *)
Definition unknown_step (d : db) (op stepId : jstr) : option OperationStepRow :=
  match d.(operation_steps) !! stepId with
  | Some r => if bool_decide (r.(identity).(operation_id) = op) && step_is StepOutcomeUnknown primary r
              then Some r else None
  | None => None
  end.

Definition recordOperationReconciliation (id stepId : jstr) (value : jsval) (authoritative : bool)
    (now : Z) : M unit :=
  do! d := getdb in
  match unknown_step d id stepId with
  | None => mthrow "reconciliation_step_not_unknown"
  | Some _ =>
      do! stored := lift (actionResultJson
        (reconciliation_record stepId authoritative (reconciliation_result value))) in
      let '(t, changed) := update_row id (λ _, true) (with_reconciliation now stored) d.(operation_runs) in
      require! changed else "operation_not_found" in
      putdb (set_runs t d)
  end.

(** ** Compensation *)

Record PrepareCompensationStepInput := {
  comp_in_id : option jstr;
  comp_in_operationId : jstr;
  comp_in_planStepId : jstr;
  comp_in_index : Z;
  comp_in_name : jstr;
  comp_in_targetFingerprint : option jstr;
  comp_in_compensatesStepId : jstr;
}.

(** The descriptor at an index of the persisted plan. *)
Definition descriptor_at (ds : list PersistedPlanDescriptor) (i : Z) : option PersistedPlanDescriptor :=
  if 0 <=? i then ds !! Z.to_nat i else None.

Definition compensation_bound (ds : list PersistedPlanDescriptor) (i : PrepareCompensationStepInput) : bool :=
  match descriptor_at ds i.(comp_in_index) with
  | Some x =>
      bool_decide (x.(descriptor_id) = i.(comp_in_planStepId)) &&
      bool_decide (x.(descriptor_kind) = compensation) &&
      (bool_decide (x.(descriptor_target) = None) ||
       bool_decide (x.(descriptor_target) = i.(comp_in_targetFingerprint)))
  | None => false
  end.

(** The index, the plan step or the source is already taken in this operation. *)
Definition compensation_used (i : PrepareCompensationStepInput) (op : jstr) (r : OperationStepRow) : bool :=
  let x := r.(identity) in
  bool_decide (x.(operation_id) = op) &&
  (bool_decide (x.(step_index) = i.(comp_in_index)) ||
   bool_decide (x.(plan_step_id) = i.(comp_in_planStepId)) ||
   (bool_decide (x.(step_kind) = compensation) &&
    bool_decide (x.(compensates_step_id) = Some i.(comp_in_compensatesStepId)))).

(** A later primary step of the same operation that definitively failed. *)
Definition later_failure (ds : list PersistedPlanDescriptor) (source r : OperationStepRow) : bool :=
  bool_decide (r.(identity).(operation_id) = source.(identity).(operation_id)) &&
  (source.(identity).(step_index) <? r.(identity).(step_index)) &&
  bool_decide (r.(step_status) = StepDefinitiveFailed) &&
  matchesPersistedDescriptor ds r.(identity) primary.

Definition some_step (p : OperationStepRow → bool) (d : db) : bool :=
  existsb (λ kv, p kv.2) (map_to_list d.(operation_steps)).

Definition compensation_eligible (d : db) (i : PrepareCompensationStepInput)
    (source : OperationStepRow) (o : OperationRunRow) : bool :=
  match persistedPlanDescriptors o.(operation_json) with
  | None => false
  | Some ds =>
      matchesPersistedDescriptor ds source.(identity) primary && compensation_bound ds i &&
      negb (some_step (compensation_used i source.(identity).(operation_id)) d) &&
      bool_decide (source.(step_status) = StepSucceeded) &&
      (has_run_status RunDefinitiveFailed o ||
       match o.(reconciliation_json) with
       | Some v => is_record v && authoritative_for i.(comp_in_compensatesStepId) (Some v)
       | None => false
       end ||
       (has_run_status RunExecuting o && some_step (later_failure ds source) d))
  end.

Definition prepareCompensationStep (i : PrepareCompensationStepInput) (now : Z) (uuid : jstr) : M jstr :=
  do! d := getdb in
  let eligible :=
    match d.(operation_steps) !! i.(comp_in_compensatesStepId) with
    | Some source =>
        bool_decide (source.(identity).(operation_id) = i.(comp_in_operationId)) &&
        bool_decide (source.(identity).(step_kind) = primary) &&
        match d.(operation_runs) !! source.(identity).(operation_id) with
        | Some o => compensation_eligible d i source o
        | None => false
        end
    | None => false
    end in
  require! eligible else "compensation_not_eligible" in
  let id := default uuid i.(comp_in_id) in
  do! _ := insert_step id (prepared_step
    {| operation_id := i.(comp_in_operationId); step_index := i.(comp_in_index);
       plan_step_id := i.(comp_in_planStepId); step_name := i.(comp_in_name);
       step_kind := compensation; target_fingerprint := i.(comp_in_targetFingerprint);
       compensates_step_id := Some i.(comp_in_compensatesStepId); step_created_at := now |} None now) in
  mreturn id.

Definition markOperationStepCompensating (id : jstr) (operationId : option jstr) (now : Z) : M bool :=
  do! d := getdb in
  match d.(operation_steps) !! id with
  | Some r =>
      match (if in_scope operationId r && step_is StepPrepared compensation r
             then column r.(identity).(compensates_step_id) else None) with
      | None => mreturn false
      | Some source =>
          do! comp := update_step id (step_is StepPrepared compensation) (executing_step now) in
          do! src := update_step source (step_is StepSucceeded primary)
                       (with_step_status StepCompensating false now) in
          require! comp && src else "compensation_step_not_prepared" in mreturn true
      end
  | None => mreturn false
  end.

Inductive CompensationOutcome : Set := was_compensated | compensation_did_fail | compensation_unknown.
Definition compensation_status (o : CompensationOutcome) : StepStatus :=
  match o with
  | was_compensated => StepCompensated | compensation_did_fail => StepCompensationFailed
  | compensation_unknown => StepOutcomeUnknown
  end.
Definition source_status (o : CompensationOutcome) : StepStatus :=
  match o with was_compensated => StepCompensated | _ => StepSucceeded end.

(** The two updates with which either settlement of a compensation ends. *)
Definition settle_compensation_rows (id source : jstr) (o : CompensationOutcome) (ext : option jstr)
    (effect detail : option jsval) (now : Z) : M unit :=
  do! changed := update_step id (step_is StepExecuting compensation)
    (settled_step (compensation_status o) ext effect detail now) in
  require! changed else "compensation_step_not_executing" in
  do! changed := update_step source (λ r, bool_decide (r.(step_status) = StepCompensating))
    (with_step_status (source_status o) (bool_decide (source_status o = StepCompensated)) now) in
  require! changed else "compensation_source_not_executing" in mreturn tt.

(** The source of an executing compensation in scope. *)
Definition compensation_source (d : db) (id : jstr) (operationId : option jstr) : option jstr :=
  match d.(operation_steps) !! id with
  | Some r => if in_scope operationId r && step_is StepExecuting compensation r
              then column r.(identity).(compensates_step_id) else None
  | None => None
  end.

Definition settleCompensationStep (id : jstr) (o : CompensationOutcome) (x : StepDetail)
    (operationId : option jstr) (now : Z) : M unit :=
  do! d := getdb in
  match compensation_source d id operationId with
  | None => mthrow "compensation_step_not_executing"
  | Some source =>
      do! effect := lift (stored_effect x.(detail_effect)) in
      do! detail := lift (stored_detail x.(detail_detail)) in
      settle_compensation_rows id source o x.(detail_externalId) effect detail now
  end.

Definition settleCompensationStepDegraded (id : jstr) (o : CompensationOutcome) (ext : option jstr)
    (detail : jsval) (operationId : option jstr) (now : Z) : M unit :=
  do! d := getdb in
  match compensation_source d id operationId with
  | None => mthrow "compensation_step_not_executing"
  | Some source =>
      do! stored := lift (actionResultJson (boundedCompleteSanitizedJson detail 65536)) in
      settle_compensation_rows id source o ext None (Some stored) now
  end.

(** [listOperationSteps]: the rows of an operation by index. *)
Definition step_le (a b : jstr * OperationStepRow) : Prop :=
  (a.2.(identity).(step_index) ≤ b.2.(identity).(step_index))%Z.
#[export] Instance step_le_dec a b : Decision (step_le a b).
Proof. unfold step_le. apply _. Defined.

Definition listOperationSteps (operationId : jstr) (d : db) : list (jstr * OperationStepRow) :=
  merge_sort step_le
    (filter (λ kv, kv.2.(identity).(operation_id) = operationId) (map_to_list d.(operation_steps))).

(** ** Startup reconciliation *)

(** The exact member a plan step and a result's binding must share; both may lack it. *)
Definition same_member (expected actual : jsval) : bool :=
  match expected with
  | VUndef => is_undef actual
  | VStr s => is_text s actual
  | _ => false
  end.

Definition plan_step_at (plan : jsval) (i : Z) : option jsval :=
  match prop (u "steps") plan with
  | VArr l => if 0 <=? i then l !! Z.to_nat i else None
  | _ => None
  end.

Definition is_kind (k : string) (v : jsval) : bool := is_text (u k) (prop (u "kind") v).

(** The plan still describes the step, with the strategy the result was computed for. *)
Definition plan_binds (plan : jsval) (step : StepIdentity) (value : jsval) : bool :=
  truthy_value plan && bool_decide (is_Some (mutationPlanDescriptors plan)) &&
  match plan_step_at plan step.(step_index) with
  | Some x =>
      is_text step.(plan_step_id) (prop (u "id") x) && is_kind "primary" x &&
      same_member (prop (u "reconciliationStrategy") x)
                  (prop (u "strategy") (prop (u "binding") value))
  | None => false
  end.

(** The result is an authoritative match bound to this very step. *)
Definition evidence_binds (id stepId : jstr) (b : OperationBinding) (step : StepIdentity)
    (value : jsval) : bool :=
  let x := prop (u "binding") value in
  is_record value && match prop (u "authoritative") value with VBool true => true | _ => false end &&
  is_text (u "authoritative_match") (prop (u "reason") value) &&
  is_record x && is_text id (prop (u "operationId") x) && is_text stepId (prop (u "stepId") x) &&
  is_text step.(plan_step_id) (prop (u "planStepId") x) &&
  is_text b.(action_name) (prop (u "actionName") x) &&
  is_text b.(action_fingerprint) (prop (u "actionFingerprint") x) &&
  is_text b.(catalog_hash) (prop (u "catalogHash") x).

Definition primary_steps_of (plan : jsval) : nat :=
  match prop (u "steps") plan with
  | VArr l => length (filter (λ v, is_kind "primary" v = true) l)
  | _ => 0%nat
  end.

Definition primary_rows (id : jstr) (d : db) : list (jstr * OperationStepRow) :=
  filter (λ kv, kv.2.(identity).(operation_id) = id ∧ kv.2.(identity).(step_kind) = primary)
         (map_to_list d.(operation_steps)).

Definition fully_applied (d : db) (id stepId : jstr) (plan : jsval) : bool :=
  let rows := primary_rows id d in
  bool_decide (primary_steps_of plan = length rows) &&
  forallb (λ kv, bool_decide (kv.2.(step_status) =
             if decide (kv.1 = stepId) then StepOutcomeUnknown else StepSucceeded)) rows.

(** The id of the single candidate of the evidence. *)
Definition exact_reference (value : jsval) : option jstr :=
  let evidence := prop (u "evidence") value in
  match (if is_record evidence then prop (u "candidates") evidence else VUndef) with
  | VArr [candidate] =>
      let ref := prop (u "ref") candidate in
      match (if is_object candidate && is_record ref then prop (u "id") ref else VUndef) with
      | VStr s => Some (slice 256 s)
      | _ => None
      end
  | _ => None
  end.

(** [successReceipt] of [harness/receipts.ts] for an input without changes and follow-ups. *)
Definition cleanIds (ids : list (jstr * option jstr)) : list (jstr * jsval) :=
  omap (λ f, match f.2 with
             | Some v => if negb (bool_decide (trim v = [])) then Some (f.1, VStr v) else None
             | None => None
             end) ids.

Definition successReceipt (action entity : jstr) (data : jsval) (ids : list (jstr * option jstr))
    (warnings : list jsval) : jsval :=
  VObj ([(u "ok", VBool true); (u "action", VStr action)] ++
        (if bool_decide (entity = []) then [] else [(u "entity", VStr entity)]) ++
        (if is_undef data then [] else [(u "data", data)]) ++
        (if bool_decide (cleanIds ids = []) then [] else [(u "ids", VObj (cleanIds ids))]) ++
        (if bool_decide (length warnings = 0%nat) then [] else [(u "warnings", VArr warnings)])).

Definition warning (code message : string) : jsval :=
  VObj [(u "code", VStr (u code)); (u "message", VStr (u message))].

(** The canonical result of a reconciled operation. *)
Definition reconciled_result (applied : bool) (b : OperationBinding) (id : jstr)
    (step : StepIdentity) (externalId : option jstr) : jsval :=
  let receipt := successReceipt b.(action_name) (u "operation")
    (VObj [(u "reconciled", VBool true); (u "stepId", VStr step.(plan_step_id))])
    [(u "workspaceId", Some b.(workspace_id)); (u "operationId", Some id); (u "externalId", externalId)]
    [if applied
     then warning "startup_reconciled" "The prior unknown mutation was verified from complete Clockify evidence."
     else warning "partial" "The dispatched step was reconciled, but later planned mutations were not dispatched."] in
  if applied then VObj [(u "kind", VStr (u "receipt")); (u "receipt", receipt)]
  else VObj [(u "kind", VStr (u "partial")); (u "receipt", receipt);
             (u "message", VStr (u "A prior mutation was verified, but the complete mutation plan did not finish."));
             (u "recovery", VObj [(u "hint", VStr (u "Refresh Clockify and create a fresh preview for any remaining changes."));
                                  (u "retryable", VBool false)])].

Definition with_kind (k : ActionResultKind) (stored summary : jsval) (r : ActionResultRow) : ActionResultRow :=
  {| result_operation_id := r.(result_operation_id); result_workspace_id := r.(result_workspace_id);
     result_admin_user_id := r.(result_admin_user_id); result_session_id := r.(result_session_id);
     result_action_name := r.(result_action_name); result_kind := k; result_json := stored;
     summary_json := summary; result_created_at := r.(result_created_at) |}.

(** The pending row and the idempotency rows that carry the result's summary. *)
Definition reconciled_pending (k : ActionResultKind) (summary : jsval) (r : PendingRow) : PendingRow :=
  {| preview := r.(preview); status := pending_status_of k; risk_json := r.(risk_json);
     preview_json := r.(preview_json); preview_operation_json := None;
     target_fingerprints_json := r.(target_fingerprints_json); nonce_hash := [];
     used_at := r.(used_at); result_summary_json := Some summary; agent_state_json := None;
     action_result_id := r.(action_result_id); idempotency_key := None; batch_id := r.(batch_id) |}.

Definition refresh_summaries (wid aid actionResultId : jstr) (summary : jsval) (d : db) : db :=
  set_idempotency (map_imap (λ k r,
    Some (if bool_decide (k.1.2 = wid) && bool_decide (k.2 = aid) &&
             bool_decide (r.(idem_result_id) = Some actionResultId)
          then {| idem_result_id := r.(idem_result_id); idem_summary := Some summary;
                  committed_at := r.(committed_at); claimed_at := r.(claimed_at) |}
          else r)) d.(idempotency_keys)) d.

Definition reconciled_run (k : ActionResultKind) (a : jstr) (record : jsval) (now : Z)
    (r : OperationRunRow) : OperationRunRow :=
  {| binding := r.(binding); run_status := run_status_of k; run_result_id := Some a;
     operation_json := r.(operation_json); reconciled_at := Some now;
     reconciliation_json := Some record; run_batch_id := r.(run_batch_id); run_updated_at := now |}.

(** The result of the operation is replaced, or written when it has none. *)
Definition write_reconciled (o : OperationRunRow) (id : jstr) (k : ActionResultKind)
    (a : jstr) (stored summary : jsval) (now : Z) : M unit :=
  let b := o.(binding) in
  match column o.(run_result_id) with
  | Some _ =>
      do! changed := update_result a
        (λ r, bool_decide (r.(result_operation_id) = Some id) &&
              bool_decide (r.(result_workspace_id) = b.(workspace_id)) &&
              bool_decide (r.(result_admin_user_id) = b.(admin_user_id)) &&
              bool_decide (r.(result_session_id) = Some b.(session_id)))
        (with_kind k stored summary) in
      require! changed else "reconciliation_result_not_found" in mreturn tt
  | None => insert_result a (result_row (Some id) b.(workspace_id) b.(admin_user_id)
              (Some b.(session_id)) b.(action_name) k stored summary now)
  end.

(** The confirmation that waits for this result, if any. *)
Definition settle_waiting_confirmation (o : OperationRunRow) (id a : jstr) (k : ActionResultKind)
    (summary : jsval) : M unit :=
  match column o.(binding).(confirmation_id) with
  | None => mreturn tt
  | Some pid =>
      do! _ := update_confirmation pid []
        (λ r, bool_decide (r.(preview).(preview_operation_id) = id) &&
              bool_decide (r.(status) = POutcomeUnknown) &&
              bool_decide (r.(action_result_id) = Some a))
        (reconciled_pending k summary) in
      mreturn tt
  end.

Section Startup.
Context (sha256 : jstr → jstr).

Definition settleStartupReconciliation (id stepId : jstr) (value : jsval) (now : Z) (uuid : jstr)
    : M ActionResultRef :=
  do! d := getdb in
  match d.(operation_runs) !! id with
  | None => mthrow "reconciliation_operation_not_found"
  | Some o =>
      let b := o.(binding) in
      do! valid := (if has_run_status RunOutcomeUnknown o
                    then lift (hasValidPersistedOperationHash sha256 id o) else mreturn false) in
      require! valid else "reconciliation_operation_not_unknown" in
      match unknown_step d id stepId with
      | None => mthrow "reconciliation_step_not_unknown"
      | Some step =>
          let plan := run_mutationPlan o in
          require! plan_binds plan step.(identity) value else "reconciliation_plan_drift" in
          require! evidence_binds id stepId b step.(identity) value
            else "authoritative_reconciliation_required" in
          let k := if fully_applied d id stepId plan then succeeded else partial in
          let record := reconciliation_record stepId true value in
          let externalId := exact_reference value in
          do! detail := lift (actionResultJson (boundedCompleteSanitizedJson
            (VObj ((match step.(detail_json) with
                    | Some p => [(u "preDispatch", p)] | None => [] end) ++
                   [(u "startupReconciliation", record)])) 65536)) in
          do! changed := update_step stepId
            (λ r, bool_decide (r.(identity).(operation_id) = id) && step_is StepOutcomeUnknown primary r)
            (λ r, settled_step StepSucceeded (match externalId with Some e => Some e | None => r.(external_id) end)
                    r.(effect_json) (Some detail) now r) in
          require! changed else "reconciliation_step_not_unknown" in
          let canonical := reconciled_result (bool_decide (k = succeeded)) b id step.(identity) externalId in
          let a := default uuid (column o.(run_result_id)) in
          do! summary := lift (buildActionResultSummary a canonical) in
          do! stored := lift (actionResultJson canonical) in
          do! stored_summary := lift (actionResultJson summary) in
          do! _ := write_reconciled o id k a stored stored_summary now in
          do! _ := settle_waiting_confirmation o id a k stored_summary in
          do! d := getdb in
          do! _ := putdb (refresh_summaries b.(workspace_id) b.(admin_user_id) a stored_summary d) in
          do! stored_record := lift (actionResultJson record) in
          do! changed := update_run_status id (has_run_status RunOutcomeUnknown)
            (reconciled_run k a stored_record now) in
          require! changed else "reconciliation_operation_not_unknown" in
          mreturn {| ref_id := a; ref_kind := k; ref_summary := summary |}
      end
  end.

(** ** The candidates of a restart *)

Record StartupStep := {
  candidate_step : jstr;
  candidate_plan_step : jstr;
  candidate_strategy : jstr;
  candidate_target : option jstr;
  candidate_evidence : jsval;
}.

Record StartupReconciliationOperation := {
  candidate_id : jstr;
  candidate_binding : OperationBinding;
  candidate_operation : jsval;
  candidate_plan : jsval;
  targetSnapshots : jsval;
  candidate_steps : list StartupStep;
}.

(** One unknown primary row as a candidate, when the plan names its strategy. *)
Definition startup_step (plan : jsval) (kv : jstr * OperationStepRow) : result (list StartupStep) :=
  let '(id, r) := kv in
  let x := r.(identity) in
  match plan_step_at plan x.(step_index) with
  | Some exact =>
      match prop (u "reconciliationStrategy") exact with
      | VStr s =>
          if is_record exact && is_text x.(plan_step_id) (prop (u "id") exact) &&
             is_kind "primary" exact && is_in (Some s) strategies
          then
            let! evidence := completeStartupEvidence (default (VObj []) r.(detail_json)) in
            Ok [{| candidate_step := id; candidate_plan_step := x.(plan_step_id);
                   candidate_strategy := s;
                   candidate_target := slice 256 <$> column x.(target_fingerprint);
                   candidate_evidence := evidence |}]
          else Ok []
      | _ => Ok []
      end
  | None => Ok []
  end.

(** The sanitised intent; [None] when it is too large. *)
Definition startup_intent (o : OperationRunRow) : option (jsval * jsval * jsval) :=
  match completeStartupEvidence (run_operation o), completeStartupEvidence (run_mutationPlan o) with
  | Ok safeOperation, Ok safePlan =>
      match (if is_record safeOperation then prop (u "targetSnapshots") safeOperation else VUndef) with
      | VArr l => match completeStartupEvidence (VArr l) with
                  | Ok snapshots => Some (safeOperation, safePlan, snapshots)
                  | Throw _ => None
                  end
      | _ => Some (safeOperation, safePlan, VArr [])
      end
  | _, _ => None
  end.

Definition unknown_rows (id : jstr) (d : db) : list (jstr * OperationStepRow) :=
  filter (λ kv, step_is StepOutcomeUnknown primary kv.2 = true) (listOperationSteps id d).

Definition startup_candidate (d : db) (kv : jstr * OperationRunRow)
    : result (list StartupReconciliationOperation) :=
  let '(id, o) := kv in
  let! valid := hasValidPersistedOperationHash sha256 id o in
  let plan := run_mutationPlan o in
  if negb (valid && bool_decide (is_Some (mutationPlanDescriptors plan))) then Ok []
  else
    match startup_intent o with
    | None => Ok []
    | Some (safeOperation, safePlan, snapshots) =>
        let! steps := sequence (startup_step plan <$> unknown_rows id d) in
        Ok (if bool_decide (concat steps = []) then [] else
          [{| candidate_id := id; candidate_binding := o.(binding);
              candidate_operation := safeOperation; candidate_plan := safePlan;
              targetSnapshots := snapshots; candidate_steps := concat steps |}])
    end.

Definition run_le (a b : jstr * OperationRunRow) : Prop :=
  (a.2.(binding).(run_created_at) < b.2.(binding).(run_created_at) ∨
   a.2.(binding).(run_created_at) = b.2.(binding).(run_created_at) ∧ jstr_le a.1 b.1)%Z.
#[export] Instance run_le_dec a b : Decision (run_le a b).
Proof. unfold run_le, jstr_le. apply _. Defined.

Definition listStartupReconciliationCandidates (d : db)
    : result (list StartupReconciliationOperation) :=
  let operations := merge_sort run_le
    (filter (λ kv, kv.2.(run_status) = RunOutcomeUnknown ∧ kv.2.(reconciled_at) = None)
            (map_to_list d.(operation_runs))) in
  let! found := sequence (startup_candidate d <$> operations) in Ok (concat found).
End Startup.
