(* ===== verification/Store.v ===== *)
(** * Reasoning about transactions

    Inversion of a successful run of the error monad of file Db, the tables a
    statement leaves alone (class [Keeps]) and what each statement did. *)
From S2P Require Import Prelude Js SafeJson ActionResults Db.
Open Scope Z_scope.

(** ** Inversion *)

Lemma mthen_ok {A B} (m : M A) (k : A → M B) d b d2 :
  mthen m k d = Ok (b, d2) ↔ ∃ a d1, m d = Ok (a, d1) ∧ k a d1 = Ok (b, d2).
Proof. unfold mthen. destruct (m d) as [[a d1]|]; naive_solver. Qed.

Lemma lift_ok {A} (r : result A) d a d' : lift r d = Ok (a, d') ↔ r = Ok a ∧ d' = d.
Proof. unfold lift. destruct r; naive_solver. Qed.

(** Split a successful run into the runs of its statements. *)
Ltac minv := repeat match goal with
  | H : mthen _ _ _ = Ok (_, _) |- _ =>
      let a := fresh "a" in let d := fresh "d" in let Ha := fresh "Hm" in
      apply mthen_ok in H as (a & d & Ha & H)
  | H : lift _ _ = Ok (_, _) |- _ => apply lift_ok in H as [H ?]
  | H : mreturn _ _ = Ok (_, _) |- _ => unfold mreturn in H; injection H as ? ?
  | H : getdb _ = Ok (_, _) |- _ => unfold getdb in H; injection H as ? ?
  | H : putdb _ _ = Ok (_, _) |- _ => unfold putdb in H; injection H as ? ?
  | H : mthrow _ _ = Ok (_, _) |- _ => discriminate H
  | H : (if ?b then _ else _) _ = Ok (_, _) |- _ => destruct b eqn:?
  | H : (match ?x with _ => _ end) _ = Ok (_, _) |- _ => destruct x eqn:?
  | H : Throw _ = Ok _ |- _ => discriminate H
  | H : false = true |- _ => discriminate H
  | H : true = false |- _ => discriminate H
  | H : Ok (_, _) = Ok (_, _) |- _ => injection H as ? ?
  | H : (λ _, _) _ = Ok (_, _) |- _ => cbn beta in H
  end; subst.

(** ** The tables a statement keeps *)

Class Keeps {A T : Type} (f : db → T) (m : M A) : Prop :=
  keeps : ∀ d a d', m d = Ok (a, d') → f d' = f d.

(** Use a run whose statement keeps the projection of the goal. *)
Ltac kept := match goal with
  | H : ?m ?d = Ok (_, ?d') |- ?f ?d' = ?f ?d => exact (@keeps _ _ f m ltac:(apply _) _ _ _ H)
  | H : ?m ?d = Ok (_, ?d') |- _ ?d' = _ => etrans; [exact (@keeps _ _ _ m ltac:(apply _) _ _ _ H)|]
  end.

#[export] Instance keeps_then {A B T} (f : db → T) (m : M A) (k : A → M B) :
  Keeps f m → (∀ a, Keeps f (k a)) → Keeps f (mthen m k).
Proof. intros Hm Hk d b d' (a & d1 & H1 & H2)%mthen_ok. rewrite (Hk _ _ _ _ H2). by eapply Hm. Qed.
#[export] Instance keeps_return {A T} (f : db → T) (a : A) : Keeps f (mreturn a).
Proof. intros d b d' [= <- <-]. done. Qed.
#[export] Instance keeps_throw {A T} (f : db → T) e : Keeps f (mthrow (A:=A) e).
Proof. by intros d b d' H. Qed.
#[export] Instance keeps_lift {A T} (f : db → T) (r : result A) : Keeps f (lift r).
Proof. by intros d b d' [_ ->]%lift_ok. Qed.
#[export] Instance keeps_getdb {T} (f : db → T) : Keeps f getdb.
Proof. by intros d b d' [= <- <-]. Qed.
#[export] Instance keeps_if {A T} (f : db → T) (b : bool) (m1 m2 : M A) :
  Keeps f m1 → Keeps f m2 → Keeps f (if b then m1 else m2).
Proof. by destruct b. Qed.

(** Prove [Keeps] for a composed statement. *)
Ltac solve_keeps :=
  repeat first [ apply _ | apply keeps_then; [|intros ?] | apply keeps_if | case_match ].

(** A projection that does not look at a table is kept by its statements. *)
Class Ignores {T U : Type} (set : U → db → db) (f : db → T) : Prop :=
  ignores : ∀ t d, f (set t d) = f d.
#[export] Hint Extern 0 (Ignores _ _) => (intros ? ?; reflexivity) : typeclass_instances.

Section Keeping.
Context {T : Type} (f : db → T).

#[export] Instance keeps_update_run `{!Ignores set_runs f} id p g : Keeps f (update_run_status id p g).
Proof.
  intros d b d'. unfold update_run_status. destruct (update_row _ _ _ _) as [t c]. intros [= <- <-].
  apply ignores.
Qed.
#[export] Instance keeps_insert_run `{!Ignores set_runs f} id r : Keeps f (insert_run id r).
Proof. intros d b d' H. unfold insert_run in H. repeat case_match; simplify_eq/=. apply ignores. Qed.
#[export] Instance keeps_insert_result `{!Ignores set_results f} id r : Keeps f (insert_result id r).
Proof. intros d b d' H. unfold insert_result in H. repeat case_match; simplify_eq/=; apply ignores. Qed.
#[export] Instance keeps_update_result `{!Ignores set_results f} id p g : Keeps f (update_result id p g).
Proof.
  intros d b d' H. unfold update_result in H. repeat case_match; simplify_eq/=; [apply ignores|done..].
Qed.
#[export] Instance keeps_insert_step `{!Ignores set_steps f} id r : Keeps f (insert_step id r).
Proof. intros d b d' H. unfold insert_step in H. repeat case_match; simplify_eq/=; apply ignores. Qed.
#[export] Instance keeps_update_step `{!Ignores set_steps f} id p g : Keeps f (update_step id p g).
Proof.
  intros d b d'. unfold update_step. destruct (update_row _ _ _ _) as [t c]. intros [= <- <-].
  apply ignores.
Qed.
#[export] Instance keeps_terminate `{!Ignores set_runs f, !Ignores set_results f} pid blob r :
  Keeps f (terminate_prepared_operation pid blob r).
Proof.
  intros d a d' H. unfold terminate_prepared_operation in H. cbv zeta in H.
  destruct (match operation_runs d !! _ with Some _ => _ | None => _ end).
  - minv. rewrite ignores. by kept.
  - by simplify_eq.
Qed.
#[export] Instance keeps_adopt `{!Ignores set_confirmations f} pid r : Keeps f (adopt_result pid r).
Proof. intros d a d' H. unfold adopt_result in H. repeat case_match; simplify_eq/=; rewrite ?ignores; done. Qed.
#[export] Instance keeps_update_confirmation
    `{!Ignores set_confirmations f, !Ignores set_runs f, !Ignores set_results f} pid blob p g :
  Keeps f (update_confirmation pid blob p g).
Proof.
  intros d a d' H. unfold update_confirmation in H. cbv zeta in H.
  destruct (_ !! pid) as [old|]; [|by simplify_eq]. destruct (p old); [|by simplify_eq].
  destruct (negb _); [done|]. destruct (_ && negb _); [done|]. minv.
  all: transitivity (f (set_confirmations (<[pid:=g old]> (pending_confirmations d)) d));
    [|apply ignores].
  all: assert (∀ (b : bool) op d, f (if b then scrub_operation op d else d) = f d) as ->
    by (intros [] ? ?; [apply (ignores (set := set_runs))|done]).
  all: repeat kept; done.
Qed.
End Keeping.

(** An invariant a statement preserves, whether or not it keeps a table. *)
Class Preserves {A : Type} (I : db → Prop) (m : M A) : Prop :=
  preserves : ∀ d a d', m d = Ok (a, d') → I d → I d'.

#[export] Instance preserves_then {A B} (I : db → Prop) (m : M A) (k : A → M B) :
  Preserves I m → (∀ a, Preserves I (k a)) → Preserves I (mthen m k).
Proof. intros Hm Hk d b d' (a & d1 & H1 & H2)%mthen_ok HI. eapply Hk; [done|]. by eapply Hm. Qed.
#[export] Instance preserves_return {A} (I : db → Prop) (a : A) : Preserves I (mreturn a).
Proof. by intros d b d' [= <- <-]. Qed.
#[export] Instance preserves_throw {A} (I : db → Prop) e : Preserves I (mthrow (A:=A) e).
Proof. by intros d b d' H. Qed.
#[export] Instance preserves_lift {A} (I : db → Prop) (r : result A) : Preserves I (lift r).
Proof. by intros d b d' [_ ->]%lift_ok. Qed.
#[export] Instance preserves_getdb (I : db → Prop) : Preserves I getdb.
Proof. by intros d b d' [= <- <-]. Qed.
#[export] Instance preserves_if {A} (I : db → Prop) (b : bool) (m1 m2 : M A) :
  Preserves I m1 → Preserves I m2 → Preserves I (if b then m1 else m2).
Proof. by destruct b. Qed.

(** Prove [Preserves] for a composed statement. *)
Ltac solve_preserves :=
  repeat first [ apply _ | apply preserves_then; [|intros ?] | apply preserves_if | case_match ].

(** ** What a statement did *)

Lemma update_row_spec {K A} `{Countable K} (id : K) (p : A → bool) (f : A → A) t t' c :
  update_row id p f t = (t', c) →
  (c = false ∧ t' = t) ∨ (c = true ∧ ∃ r, t !! id = Some r ∧ p r = true ∧ t' = <[id := f r]> t).
Proof.
  unfold update_row. destruct (t !! id) as [r|] eqn:E; [destruct (p r) eqn:Hp|]; intros [= <- <-].
  - right. split; [done|]. by exists r.
  - by left.
  - by left.
Qed.

(** A step statement: no row, or one row that satisfied the guard. *)
Lemma update_step_ok id p f d b d' :
  update_step id p f d = Ok (b, d') →
  (b = false ∧ d'.(operation_steps) = d.(operation_steps)) ∨
  (b = true ∧ ∃ r, d.(operation_steps) !! id = Some r ∧ p r = true ∧
     d'.(operation_steps) = <[id := f r]> d.(operation_steps)).
Proof.
  unfold update_step. destruct (update_row _ _ _ _) as [t c] eqn:E. intros [= <- <-].
  by apply update_row_spec in E.
Qed.

Lemma update_step_some id p f d r :
  d.(operation_steps) !! id = Some r → p r = true →
  update_step id p f d = Ok (true, set_steps (<[id := f r]> d.(operation_steps)) d).
Proof. intros Hr Hp. unfold update_step, update_row. by rewrite Hr, Hp. Qed.

Lemma update_run_ok id p f d b d' :
  update_run_status id p f d = Ok (b, d') →
  (b = false ∧ d'.(operation_runs) = d.(operation_runs)) ∨
  (b = true ∧ ∃ r, d.(operation_runs) !! id = Some r ∧ p r = true ∧
     d'.(operation_runs) = <[id := confirmed_operation_terminal_scrub (f r)]> d.(operation_runs)).
Proof.
  unfold update_run_status. destruct (update_row _ _ _ _) as [t c] eqn:E. intros [= <- <-].
  by apply update_row_spec in E.
Qed.

Lemma insert_step_ok id r d a d' :
  insert_step id r d = Ok (a, d') →
  d.(operation_steps) !! id = None ∧
  (∀ id2 r2, d.(operation_steps) !! id2 = Some r2 → step_conflict r.(identity) r2.(identity) = false) ∧
  is_Some (d.(operation_runs) !! r.(identity).(operation_id)) ∧ 0 ≤ r.(identity).(step_index) ∧
  d'.(operation_steps) = <[id := r]> d.(operation_steps).
Proof.
  unfold insert_step. destruct (_ || _) eqn:E; [done|]. intros [= _ <-].
  rewrite !orb_false_iff in E. destruct E as ((((E1 & E2) & E3) & E4) & E5). zbool. split_and!; try done.
  - apply bool_decide_eq_false in E1. by apply eq_None_not_Some.
  - intros id2 r2 H2. apply not_true_iff_false. intros Hc.
    apply not_true_iff_false in E3. apply E3, existsb_exists. exists (id2, r2).
    split; [by apply list_elem_of_In, elem_of_map_to_list|done].
  - apply bool_decide_eq_false in E4. by destruct (operation_runs d !! _).
Qed.

Lemma update_result_ok id p f d b d' :
  update_result id p f d = Ok (b, d') →
  (b = false ∧ d' = d) ∨
  (b = true ∧ ∃ r, d.(action_results) !! id = Some r ∧ p r = true ∧
     jsonByteLength (f r).(summary_json) ≤ ACTION_RESULT_SUMMARY_MAX_BYTES ∧
     d' = set_results (<[id := f r]> d.(action_results)) d).
Proof.
  unfold update_result. destruct (_ !! id) as [r|] eqn:E; [|intros [= <- <-]; by left].
  destruct (p r) eqn:Hp; [|intros [= <- <-]; by left].
  destruct (Z.ltb_spec ACTION_RESULT_SUMMARY_MAX_BYTES (jsonByteLength (f r).(summary_json))); [done|].
  intros [= <- <-]. right. split; [done|]. by exists r.
Qed.

Lemma result_of_operation_none op t :
  result_of_operation op t = None → ∀ id r, t !! id = Some r → r.(result_operation_id) ≠ Some op.
Proof.
  unfold result_of_operation. intros Hn id r Hr Hop.
  destruct (list_find _ (map_to_list t)) as [[i kv]|] eqn:E; [done|].
  apply list_find_None in E. rewrite Forall_forall in E.
  apply (E (id, r)); [by apply elem_of_map_to_list|done].
Qed.

Lemma result_of_operation_some op t a r :
  result_of_operation op t = Some (a, r) → t !! a = Some r ∧ r.(result_operation_id) = Some op.
Proof.
  unfold result_of_operation. destruct (list_find _ _) as [[i kv]|] eqn:E; [|done]. intros [= ->].
  apply list_find_Some in E as (Hi & Hop & _). split; [|done].
  by apply elem_of_map_to_list, (list_elem_of_lookup_2 _ i).
Qed.

Lemma insert_result_ok id r d a d' :
  insert_result id r d = Ok (a, d') →
  d.(action_results) !! id = None ∧
  (∀ op, r.(result_operation_id) = Some op →
     ∀ id2 r2, d.(action_results) !! id2 = Some r2 → r2.(result_operation_id) ≠ Some op) ∧
  jsonByteLength r.(summary_json) ≤ ACTION_RESULT_SUMMARY_MAX_BYTES ∧
  d' = set_results (<[id := r]> d.(action_results)) d.
Proof.
  unfold insert_result. destruct (_ !! id) eqn:E; [done|]. destruct (_ || _) eqn:Hb; [done|].
  intros [= _ <-]. apply orb_false_iff in Hb as [Hb Hs]. zbool. split_and!; try done.
  intros op Hop. rewrite Hop in Hb. apply bool_decide_eq_false in Hb.
  apply result_of_operation_none. by apply eq_None_not_Some.
Qed.

(** The update of a confirmation that is no longer pending: no result is written. *)
Lemma update_confirmation_after pid blob p f d b d' :
  (∀ r, p r = true → r.(status) ≠ PPending) →
  update_confirmation pid blob p f d = Ok (b, d') →
  (b = false ∧ d' = d) ∨
  (b = true ∧ ∃ old, d.(pending_confirmations) !! pid = Some old ∧ p old = true ∧
     payload_guard (f old) = true ∧
     let d1 := set_confirmations (<[pid := f old]> d.(pending_confirmations)) d in
     d' = if settlement_scrubs old (f old)
          then scrub_operation (f old).(preview).(preview_operation_id) d1 else d1).
Proof.
  intros Hp H. unfold update_confirmation in H. cbv zeta in H.
  destruct (_ !! pid) as [old|] eqn:E; [|simplify_eq; by left].
  destruct (p old) eqn:Hold; [|simplify_eq; by left].
  destruct (payload_guard (f old)) eqn:Hg; simpl in H; [|done].
  assert (pre_dispatch_terminal old (f old) = false) as Hpre.
  { unfold pre_dispatch_terminal. by rewrite bool_decide_eq_false_2 by auto. }
  rewrite Hpre in H. simpl in H. unfold mthen, mreturn in H. injection H as <- <-.
  right. split; [done|]. by exists old.
Qed.

Lemma scrub_lookup op d id :
  (scrub_operation op d).(operation_runs) !! id =
  if decide (id = op) then with_operation_json empty_object <$> d.(operation_runs) !! id
  else d.(operation_runs) !! id.
Proof.
  unfold scrub_operation. simpl. case_decide; [subst; by rewrite lookup_alter_eq|by rewrite lookup_alter_ne].
Qed.

(** The row an update of a confirmation leaves: the new one, perhaps with the result its
    operation has. *)
Lemma update_confirmation_row pid blob p f d b d' :
  update_confirmation pid blob p f d = Ok (b, d') →
  (b = false ∧ d' = d) ∨
  (b = true ∧ ∃ old new, d.(pending_confirmations) !! pid = Some old ∧ p old = true ∧
     payload_guard (f old) = true ∧
     (new = f old ∨ ∃ a s, new = with_result a s (f old)) ∧
     d'.(pending_confirmations) = <[pid := new]> d.(pending_confirmations)).
Proof.
  intros H. unfold update_confirmation in H. cbv zeta in H.
  destruct (_ !! pid) as [old|] eqn:E; [|simplify_eq; by left].
  destruct (p old) eqn:Hold; [|simplify_eq; by left].
  destruct (payload_guard (f old)) eqn:Hg; simpl in H; [|done].
  destruct (_ && negb _); [done|]. right. apply mthen_ok in H as (x & d2 & H & [= <- <-]).
  split; [done|]. exists old.
  assert (∀ c : bool, (if c then scrub_operation (f old).(preview).(preview_operation_id) d2 else d2)
    .(pending_confirmations) = d2.(pending_confirmations)) as -> by (by intros []).
  destruct (pre_dispatch_terminal _ _).
  - apply mthen_ok in H as (y & d1 & H1 & H2).
    assert (d1.(pending_confirmations) = <[pid := f old]> d.(pending_confirmations)) as E1
      by (etrans; [exact (keeps (f := pending_confirmations) _ _ _ H1)|done]).
    unfold adopt_result in H2.
    destruct (action_result_id (f old)); [|destruct (result_of_operation _ _) as [[a r]|]];
      injection H2 as _ <-; simpl; rewrite E1, ?insert_insert_eq.
    + exists (f old). split_and!; auto.
    + eexists. split_and!; eauto.
    + eexists. split_and!; eauto.
  - unfold mreturn in H. injection H as _ <-. exists (f old). split_and!; auto.
Qed.

Lemma result_of_operation_unique op t a r :
  t !! a = Some r → r.(result_operation_id) = Some op →
  (∀ a2 r2, t !! a2 = Some r2 → r2.(result_operation_id) = Some op → a2 = a) →
  result_of_operation op t = Some (a, r).
Proof.
  intros Hr Hop Hu. destruct (result_of_operation op t) as [[a2 r2]|] eqn:E.
  - apply result_of_operation_some in E as [H2 Hop2]. assert (a2 = a) as -> by eauto. congruence.
  - exfalso. by eapply result_of_operation_none.
Qed.

(** The row a denial trigger writes. *)
Definition denial_row (cancelled : bool) (op : jstr) (o : OperationRunRow) (at_ : Z) : ActionResultRow :=
  let receipt := denial_receipt cancelled o.(binding).(action_name) in
  {| result_operation_id := Some op; result_workspace_id := o.(binding).(workspace_id);
     result_admin_user_id := o.(binding).(admin_user_id);
     result_session_id := Some o.(binding).(session_id);
     result_action_name := o.(binding).(action_name); result_kind := definitive_failed;
     result_json := receipt; summary_json := receipt; result_created_at := at_ |}.

(** Cancelling or expiring a preview settles its prepared operation with it. *)
Lemma update_confirmation_denial pid blob p f d d' old :
  update_confirmation pid blob p f d = Ok (true, d') →
  d.(pending_confirmations) !! pid = Some old → pre_dispatch_terminal old (f old) = true →
  let op := (f old).(preview).(preview_operation_id) in
  let cancelled := bool_decide ((f old).(status) = PCancelled) in
  let at_ := default (f old).(preview).(created_at) (f old).(used_at) in
  (d.(operation_runs) !! op = None ∧ d'.(operation_runs) = d.(operation_runs) ∧
   d'.(action_results) = d.(action_results)) ∨
  ∃ o, d.(operation_runs) !! op = Some o ∧ o.(run_status) = RunPrepared ∧ o.(run_result_id) = None ∧
    (∀ a r, d.(action_results) !! a = Some r → r.(result_operation_id) ≠ Some op) ∧
    d'.(operation_runs) = <[op := with_operation_json empty_object
      (with_run_status RunDefinitiveFailed (Some blob) at_ o)]> d.(operation_runs) ∧
    d'.(action_results) = <[blob := denial_row cancelled op o at_]> d.(action_results) ∧
    ((f old).(action_result_id) = None →
     d'.(pending_confirmations) !! pid = Some (with_result (Some blob)
       (Some (denial_receipt cancelled o.(binding).(action_name))) (f old))).
Proof.
  intros H Hold Hpre op cancelled at_. unfold update_confirmation in H. cbv zeta in H.
  rewrite Hold in H. destruct (p old); [|done]. destruct (negb (payload_guard _)); [done|].
  rewrite Hpre in H. simpl in H. fold op in H.
  destruct (operation_still_prepared op d) eqn:Hprep; simpl in H; [|done].
  assert (settlement_scrubs old (f old) = false) as Hs.
  { unfold pre_dispatch_terminal in Hpre. unfold settlement_scrubs.
    apply andb_true_iff in Hpre as [Hpre _]. apply bool_decide_eq_true in Hpre. by rewrite Hpre. }
  rewrite Hs in H. apply mthen_ok in H as (x & d2 & H & [= <-]).
  apply mthen_ok in H as (y & d1 & H1 & H2).
  pose proof (keeps_adopt operation_runs _ _ _ _ _ H2) as Er.
  pose proof (keeps_adopt action_results _ _ _ _ _ H2) as Ea.
  unfold operation_still_prepared in Hprep. unfold terminate_prepared_operation in H1.
  cbv zeta in H1. simpl in H1. fold op at_ cancelled in H1.
  destruct (operation_runs d !! op) as [o|] eqn:Ho.
  - right. exists o. rewrite Hprep in H1. apply andb_true_iff in Hprep as [Hp1 Hp2].
    apply bool_decide_eq_true in Hp1, Hp2.
    apply mthen_ok in H1 as (z & d0 & Hi & [= _ <-]).
    apply insert_result_ok in Hi as (Hb & Hu & _ & ->). simpl in *.
    split_and!; try done; [by apply Hu|]. intros Hnone.
    unfold adopt_result in H2. rewrite Hnone in H2. simpl in H2. fold op in H2.
    erewrite (result_of_operation_unique op _ blob) in H2; [|by rewrite lookup_insert_eq|done|].
    + injection H2 as _ <-. simpl. by rewrite lookup_insert_eq.
    + intros a2 r2 H2' Hop2. apply lookup_insert_Some in H2' as [[<- _]|[_ H2']]; [done|].
      exfalso. by apply (Hu op eq_refl a2 r2).
  - left. injection H1 as _ <-. done.
Qed.

(** An update that neither closes nor settles a preview only writes its row. *)
Lemma update_confirmation_plain pid blob p f d d' :
  (∀ r, p r = true → pre_dispatch_terminal r (f r) = false ∧ settlement_scrubs r (f r) = false) →
  update_confirmation pid blob p f d = Ok (true, d') →
  ∃ old, d.(pending_confirmations) !! pid = Some old ∧ p old = true ∧ payload_guard (f old) = true ∧
    d' = set_confirmations (<[pid := f old]> d.(pending_confirmations)) d.
Proof.
  intros Hf H. unfold update_confirmation in H. cbv zeta in H.
  destruct (_ !! pid) as [old|] eqn:E; [|done]. destruct (p old) eqn:Hold; [|done].
  destruct (Hf old Hold) as [H1 H2]. rewrite H1, H2 in H.
  destruct (payload_guard (f old)) eqn:Hg; simpl in H; [|done].
  unfold mthen, mreturn in H. injection H as <-. by exists old.
Qed.

Lemma update_run_idle id p f d :
  (∀ r, d.(operation_runs) !! id = Some r → p r = false) → update_run_status id p f d = Ok (false, d).
Proof.
  intros Hp. unfold update_run_status, update_row. destruct (_ !! id) as [r|] eqn:E; [rewrite (Hp r eq_refl)|];
    by destruct d.
Qed.

(** ** Results only grow *)

(** A stored result is never changed. *)
Definition has_result (a : jstr) (r : ActionResultRow) (d : db) : Prop := d.(action_results) !! a = Some r.

Lemma preserves_keeps {A T} (f : db → T) (I : db → Prop) (m : M A) :
  (∀ d d', f d' = f d → I d → I d') → Keeps f m → Preserves I m.
Proof. intros HI Hk d a d' H. eapply HI. by eapply Hk. Qed.

#[export] Instance result_elsewhere {A} a r (m : M A) : Keeps action_results m → Preserves (has_result a r) m | 10.
Proof. apply preserves_keeps. intros d d' E. unfold has_result. by rewrite E. Qed.
#[export] Instance result_inserted a r id row : Preserves (has_result a r) (insert_result id row).
Proof.
  intros d x d' (Hn & _ & _ & ->)%insert_result_ok Hr. unfold has_result in *. simpl.
  rewrite lookup_insert_ne; [done|]. congruence.
Qed.
#[export] Instance result_confirmation a r pid blob p f : Preserves (has_result a r) (update_confirmation pid blob p f).
Proof.
  intros d b d' H Hr. unfold update_confirmation in H. cbv zeta in H.
  destruct (_ !! pid) as [old|]; [|by injection H as <- <-]. destruct (p old); [|by injection H as <- <-].
  destruct (negb _); [done|]. destruct (_ && negb _); [done|]. apply mthen_ok in H as (y & d1 & H1 & [= <- <-]).
  assert (has_result a r d1) as Hr1.
  { destruct (pre_dispatch_terminal _ _); [|injection H1 as _ <-; exact Hr].
    apply mthen_ok in H1 as (z & d2 & H1 & H2). pose proof (keeps (f := action_results) _ _ _ H2) as E.
    unfold has_result. rewrite E. unfold terminate_prepared_operation in H1. cbv zeta in H1.
    destruct (match operation_runs _ !! _ with Some _ => _ | None => _ end); [|injection H1 as _ <-; exact Hr].
    apply mthen_ok in H1 as (w & d3 & H1 & [= _ <-]). simpl. by eapply (result_inserted a r _ _ _ _ _ H1). }
  by destruct (settlement_scrubs _ _).
Qed.
