(* ===== verification/JournalResults.v ===== *)
(** * Results of operations

    What the settling operations of file Journal do to [operation_runs] and
    [action_results]: one result per operation, kept for good, and a startup
    reconciliation that only authoritative evidence can settle. *)
From S2P Require Import Prelude Js SafeJson ActionResults Confirmations Db Discriminators Plan Journal Store.
Open Scope Z_scope.
#[local] Arguments u : simpl never.

Section Keeping.
Context {T : Type} (f : db → T).

#[export] Instance keeps_write_reconciled `{!Ignores set_results f} o id k a x y now :
  Keeps f (write_reconciled o id k a x y now).
Proof. unfold write_reconciled. solve_keeps. Qed.
#[export] Instance keeps_waiting
    `{!Ignores set_confirmations f, !Ignores set_runs f, !Ignores set_results f} o id a k x :
  Keeps f (settle_waiting_confirmation o id a k x).
Proof. unfold settle_waiting_confirmation. solve_keeps. Qed.
End Keeping.

(** ** Settling an operation *)

Definition ref_of (a : jstr) (r : ActionResultRow) : ActionResultRef :=
  {| ref_id := a; ref_kind := r.(result_kind); ref_summary := r.(summary_json) |}.

(** An operation with its stored result. *)
Definition has_result (d : db) (id a : jstr) (o : OperationRunRow) (r : ActionResultRow) : Prop :=
  d.(operation_runs) !! id = Some o ∧ column o.(run_result_id) = Some a ∧
  d.(action_results) !! a = Some r.

(** A settled operation answers with its result and changes nothing. *)
Lemma settle_again id k v now uuid d a o r :
  has_result d id a o r → settleOperationResult id k v now uuid d = Ok (ref_of a r, d).
Proof.
  intros (Ho & Hc & Hr). unfold settleOperationResult, mthen, getdb. rewrite Ho, Hc, Hr. done.
Qed.

Lemma column_full (a : jstr) : a ≠ [] → column (Some a) = Some a.
Proof. by destruct a. Qed.

Lemma scrub_fields r :
  (confirmed_operation_terminal_scrub r).(run_status) = r.(run_status) ∧
  (confirmed_operation_terminal_scrub r).(run_result_id) = r.(run_result_id) ∧
  (confirmed_operation_terminal_scrub r).(binding) = r.(binding) ∧
  (confirmed_operation_terminal_scrub r).(reconciled_at) = r.(reconciled_at) ∧
  (is_Some r.(binding).(confirmation_id) → settled_run r.(run_status) = true →
   (confirmed_operation_terminal_scrub r).(operation_json) = empty_object).
Proof.
  unfold confirmed_operation_terminal_scrub. destruct (confirmation_id (binding r)) eqn:E;
    [destruct (settled_run _) eqn:E2|]; simpl; split_and!; try done; rewrite ?E2; try done.
Qed.

(** The first settlement. *)
Lemma settle_first id k v now uuid d ref d' :
  settleOperationResult id k v now uuid d = Ok (ref, d') →
  (∃ a o r, has_result d id a o r ∧ ref = ref_of a r ∧ d' = d) ∨
  (∃ o, d.(operation_runs) !! id = Some o ∧ column o.(run_result_id) = None ∧
     (o.(run_status) = RunExecuting ∨ o.(run_status) = RunPrepared ∧ k = definitive_failed) ∧
     d.(action_results) !! uuid = None ∧
     (∀ a r, d.(action_results) !! a = Some r → r.(result_operation_id) ≠ Some id) ∧
     ref.(ref_id) = uuid ∧ ref.(ref_kind) = k ∧ buildActionResultSummary uuid v = Ok ref.(ref_summary) ∧
     ∃ stored summary,
       actionResultJson v = Ok stored ∧ actionResultJson ref.(ref_summary) = Ok summary ∧
       jsonByteLength summary ≤ ACTION_RESULT_SUMMARY_MAX_BYTES ∧
       d'.(action_results) = <[uuid := result_row (Some id) o.(binding).(workspace_id)
         o.(binding).(admin_user_id) (Some o.(binding).(session_id)) o.(binding).(action_name) k
         stored summary now]> d.(action_results) ∧
       d'.(operation_runs) = <[id := confirmed_operation_terminal_scrub
         (with_run_status (run_status_of k) (Some uuid) now o)]> d.(operation_runs)).
Proof.
  unfold settleOperationResult. intros H. minv.
  - left. by eexists _, _, _.
  - right. eexists. split; [done|]. split; [done|]. split.
    { rewrite orb_true_iff, bool_decide_eq_true in *. unfold settles_prepared_denial in *.
      rewrite andb_true_iff, !bool_decide_eq_true in *. tauto. }
    match goal with H : insert_result _ _ _ = _ |- _ => apply insert_result_ok in H as (Hn & Hu & Hb & ->) end.
    match goal with H : update_run_status _ _ _ _ = _ |- _ =>
      pose proof (keeps_update_run action_results _ _ _ _ _ _ H) as Hk;
      apply update_run_ok in H as [[? _]|(_ & r & Hr & _ & Hruns)]; [done|] end.
    simpl in *. split_and!; try done; [by apply Hu|]. do 2 eexists. split_and!; try done.
    rewrite Hruns. by simplify_eq.
Qed.

(** ** Startup reconciliation *)

(** What the waiting confirmation may change: its own row, and the payload of the run. *)
Lemma waiting_ok o id a k summary d b d' :
  settle_waiting_confirmation o id a k summary d = Ok (b, d') →
  d'.(action_results) = d.(action_results) ∧
  ∀ id2, ∃ clear : bool, d'.(operation_runs) !! id2 =
    (if clear then with_operation_json empty_object else λ r, r) <$> d.(operation_runs) !! id2.
Proof.
  unfold settle_waiting_confirmation. intros H. minv.
  - apply update_confirmation_after in Hm as [[_ ->]|(_ & old & _ & _ & _ & ->)].
    + split; [done|]. intros id2. exists false. by destruct (_ !! id2).
    + destruct (settlement_scrubs _ _); split; try done; intros id2.
      * rewrite scrub_lookup. simpl. case_decide; [by exists true|exists false]. by destruct (_ !! id2).
      * exists false. simpl. by destruct (_ !! id2).
    + intros r Hr. rewrite !andb_true_iff, !bool_decide_eq_true in Hr. destruct Hr as [[_ Hr] _].
      congruence.
  - split; [done|]. intros id2. exists false. by destruct (_ !! id2).
Qed.

Lemma write_reconciled_ok o id k a stored summary now d b d' :
  a = default a (column o.(run_result_id)) →
  write_reconciled o id k a stored summary now d = Ok (b, d') →
  ∃ r, d'.(action_results) !! a = Some r ∧ r.(result_operation_id) = Some id ∧
    r.(result_kind) = k ∧ r.(result_json) = stored ∧ r.(summary_json) = summary.
Proof.
  unfold write_reconciled. intros Ha H. minv.
  - apply update_result_ok in Hm as [[? _]|(_ & r & Hr & Hp & _ & ->)]; [done|].
    simpl. rewrite lookup_insert_eq. eexists. split; [done|].
    rewrite !andb_true_iff, !bool_decide_eq_true in Hp. simpl. tauto.
  - apply insert_result_ok in H as (_ & _ & _ & ->). simpl. rewrite lookup_insert_eq. by eexists.
Qed.

Section Startup.
Context (sha256 : jstr → jstr).

Lemma startup_ok id sid v now uuid d ref d' :
  settleStartupReconciliation sha256 id sid v now uuid d = Ok (ref, d') →
  ∃ o step,
    d.(operation_runs) !! id = Some o ∧ o.(run_status) = RunOutcomeUnknown ∧
    hasValidPersistedOperationHash sha256 id o = Ok true ∧
    unknown_step d id sid = Some step ∧
    plan_binds (run_mutationPlan o) step.(identity) v = true ∧
    evidence_binds id sid o.(binding) step.(identity) v = true ∧
    ref.(ref_id) = default uuid (column o.(run_result_id)) ∧
    ref.(ref_kind) = (if fully_applied d id sid (run_mutationPlan o) then succeeded else partial) ∧
    (∃ step', d'.(operation_steps) !! sid = Some step' ∧ step'.(step_status) = StepSucceeded ∧
       step'.(dispatched_at) = step.(dispatched_at)) ∧
    (∃ r, d'.(action_results) !! ref.(ref_id) = Some r ∧ r.(result_operation_id) = Some id ∧
       r.(result_kind) = ref.(ref_kind)) ∧
    ∃ o', d'.(operation_runs) !! id = Some o' ∧ o'.(binding) = o.(binding) ∧
      o'.(run_status) = run_status_of ref.(ref_kind) ∧ o'.(run_result_id) = Some ref.(ref_id) ∧
      o'.(reconciled_at) = Some now ∧
      (is_Some o.(binding).(confirmation_id) → o'.(operation_json) = empty_object).
Proof.
  unfold settleStartupReconciliation. intros H. minv.
  match goal with H : has_run_status _ _ = true |- _ => apply bool_decide_eq_true in H end.
  do 2 eexists. do 8 (split; [done|]).
  match goal with H : update_step _ _ _ _ = _ |- _ =>
    pose proof (keeps (f := operation_runs) _ _ _ H) as Eruns0;
    apply update_step_ok in H as [[? _]|(_ & step' & Hst & _ & Esteps)]; [done|] end.
  match goal with H : write_reconciled _ _ _ _ _ _ _ _ = _ |- _ => 
    pose proof (keeps (f := operation_runs) _ _ _ H) as Eruns1;
    pose proof (keeps (f := operation_steps) _ _ _ H) as Esteps1;
    apply write_reconciled_ok in H as (r & Hr & Hop & Hk & _); [|by destruct (column _)] end.
  match goal with H : settle_waiting_confirmation _ _ _ _ _ _ = _ |- _ =>
    pose proof (keeps (f := operation_steps) _ _ _ H) as Esteps2;
    apply waiting_ok in H as [Eres Hruns] end.
  match goal with H : update_run_status _ _ _ _ = _ |- _ =>
    pose proof (keeps (f := operation_steps) _ _ _ H) as Esteps3;
    pose proof (keeps (f := action_results) _ _ _ H) as Eres3;
    apply update_run_ok in H as [[? _]|(_ & o2 & Ho2 & _ & Eruns3)]; [done|] end.
  simpl in *. split; [|split].
  - rewrite Esteps3, Esteps2, Esteps1, Esteps, lookup_insert_eq. eexists. split; [done|].
    split; [done|]. simpl. unfold unknown_step in *. rewrite Hst in *.
    by repeat (case_match; simplify_eq).
  - exists r. by rewrite Eres3, Eres.
  - rewrite Eruns3, lookup_insert_eq. eexists. split; [done|].
    destruct (Hruns id) as (clear & Hclear). rewrite Ho2, Eruns1 in Hclear.
    rewrite Eruns0 in Hclear.
    match goal with H : operation_runs d0 !! id = Some _ |- _ => rewrite H in Hclear end.
    simpl in Hclear. injection Hclear as ->.
    match goal with |- context [confirmed_operation_terminal_scrub ?x] =>
      destruct (scrub_fields x) as (F1 & F2 & F3 & F4 & F5) end.
    rewrite F1, F2, F3, F4. simpl in *. split_and!; try done; [by destruct clear|].
    intros Hc. apply F5; [by destruct clear|]. by destruct (fully_applied _ _ _ _).
Qed.
End Startup.

(** A candidate is an operation of unknown outcome that was never reconciled. *)
Lemma candidates_unknown sha256 d l x :
  listStartupReconciliationCandidates sha256 d = Ok l → x ∈ l →
  ∃ o, d.(operation_runs) !! x.(candidate_id) = Some o ∧ o.(run_status) = RunOutcomeUnknown ∧
    o.(reconciled_at) = None.
Proof.
  unfold listStartupReconciliationCandidates. intros Hl Hx.
  apply rbind_ok in Hl as (found & Hf%sequence_ok & [= <-]).
  apply list_elem_of_In, in_concat in Hx as (rows & Hrows%list_elem_of_In & Hx%list_elem_of_In).
  apply list_elem_of_lookup_1 in Hrows as (i & Hi).
  apply (f_equal (.!! i)) in Hf. rewrite !list_lookup_fmap, Hi in Hf. simpl in Hf.
  destruct (merge_sort _ _ !! i) as [[id o]|] eqn:Hkv; [|done]. simpl in Hf.
  assert (candidate_id x = id) as ->.
  { injection Hf as Hc. apply rbind_ok in Hc as (valid & _ & Hc).
    destruct (negb _); [simplify_eq; by apply elem_of_nil in Hx|].
    destruct (startup_intent o) as [[[? ?] ?]|]; [|simplify_eq; by apply elem_of_nil in Hx].
    apply rbind_ok in Hc as (steps & _ & [= <-]).
    case_bool_decide; [by apply elem_of_nil in Hx|]. by apply list_elem_of_singleton in Hx as ->. }
  apply list_elem_of_lookup_2 in Hkv. rewrite merge_sort_Permutation in Hkv.
  apply list_elem_of_filter in Hkv as ([Hs Hn] & Hin). apply elem_of_map_to_list in Hin.
  by exists o.
Qed.

(** ** Theorems *)

(** Any settlement of any operation; one that throws leaves the tables as they were. *)
Definition settle_any (d : db) (c : jstr * ActionResultKind * jsval * Z * jstr) : db :=
  let '(id, k, v, now, uuid) := c in
  match settleOperationResult id k v now uuid d with Ok (_, d') => d' | Throw _ => d end.

(** A result that is there stays, through every settlement. *)
Lemma settled_for_good d c id a o r : has_result d id a o r → has_result (settle_any d c) id a o r.
Proof.
  intros (Ho & Hc & Hr). destruct c as [[[[id2 k] v] now] uuid]. unfold settle_any.
  destruct (settleOperationResult id2 k v now uuid d) as [[ref d']|] eqn:H; [|done].
  apply settle_first in H as [(a2 & o2 & r2 & _ & _ & ->)|(o2 & Ho2 & Hc2 & _ & Hn & _ & _ & _ & _ & stored & summary & _ & _ & _ & Ea & Er)];
    [done|].
  unfold has_result. rewrite Ea, Er. assert (id2 ≠ id) by (intros ->; congruence). assert (uuid ≠ a) by congruence.
  by rewrite !lookup_insert_ne.
Qed.

(** What a first settlement stores: the JSON of the value in full, and a bounded summary of
    it, which is the value itself when that fits. *)
Definition stored_result (o : OperationRunRow) (id : jstr) (k : ActionResultKind) (v summary : jsval) (now : Z)
    (r : ActionResultRow) : Prop :=
  let b := o.(binding) in
  r.(result_operation_id) = Some id ∧ r.(result_workspace_id) = b.(workspace_id) ∧
  r.(result_admin_user_id) = b.(admin_user_id) ∧ r.(result_session_id) = Some b.(session_id) ∧
  r.(result_action_name) = b.(action_name) ∧ r.(result_kind) = k ∧ r.(result_created_at) = now ∧
  json_value v = Some r.(result_json) ∧ json_value summary = Some r.(summary_json) ∧
  jsonByteLength r.(summary_json) ≤ ACTION_RESULT_SUMMARY_MAX_BYTES ∧
  (jsonByteLength r.(result_json) ≤ ACTION_RESULT_SUMMARY_MAX_BYTES → summary = r.(result_json)).

(** C28: an operation has one result.  A settlement needs an executing operation, or
    denies a prepared one; it writes the only result row of the operation (the JSON of the
    value in full, and a bounded summary of it that is the value itself when that fits) and
    the status of that kind together.  From then on every settlement of the operation, with
    whatever outcome and after whatever settlements of this and of other operations, answers
    with that row and changes nothing. *)
Theorem operation_settles_once id k v now uuid d ref d' :
  settleOperationResult id k v now uuid d = Ok (ref, d') → uuid ≠ [] →
  (∃ o r, has_result d' id ref.(ref_id) o r ∧ r.(result_kind) = ref.(ref_kind) ∧
     ∀ later, let d2 := run_events settle_any d' later in
       has_result d2 id ref.(ref_id) o r ∧
       ∀ k2 v2 now2 uuid2,
         settleOperationResult id k2 v2 now2 uuid2 d2 = Ok (ref_of ref.(ref_id) r, d2)) ∧
  (∀ o, d.(operation_runs) !! id = Some o → column o.(run_result_id) = None →
     (o.(run_status) = RunExecuting ∨ o.(run_status) = RunPrepared ∧ k = definitive_failed) ∧
     ref.(ref_id) = uuid ∧ ref.(ref_kind) = k ∧
     (∀ a r, d.(action_results) !! a = Some r → r.(result_operation_id) ≠ Some id) ∧
     (∃ r, d'.(action_results) = <[uuid := r]> d.(action_results) ∧ stored_result o id k v ref.(ref_summary) now r) ∧
     ∃ o', d'.(operation_runs) = <[id := o']> d.(operation_runs) ∧ o'.(run_status) = run_status_of k ∧
       o'.(run_result_id) = Some uuid ∧ o'.(binding) = o.(binding) ∧
       (is_Some o.(binding).(confirmation_id) → k ≠ outcome_unknown → o'.(operation_json) = empty_object)) ∧
  (∀ o a, d.(operation_runs) !! id = Some o → column o.(run_result_id) = Some a → d' = d ∧ ref.(ref_id) = a).
Proof.
  intros H Huuid.
  assert (∀ a o r, has_result d' id a o r → ∀ later, let d2 := run_events settle_any d' later in
    has_result d2 id a o r ∧ ∀ k2 v2 now2 uuid2, settleOperationResult id k2 v2 now2 uuid2 d2 = Ok (ref_of a r, d2)) as Hlater.
  { intros a o r Hres later d2. assert (has_result d2 id a o r) as H2; [|split; [done|]; intros; by eapply settle_again].
    apply (run_invariant settle_any (λ d, has_result d id a o r)); [done|]. intros d3 c. apply settled_for_good. }
  apply settle_first in H as [(a & o & r & Hres & -> & ->)|(o & Ho & Hc & Hst & Hn & Hu & Hid & Hk & Hsum & stored & summary & Hs1 & Hs2
    & Hb & Hres & Hruns)].
  - split; [|split; [intros o2 Ho2 Hc2; destruct Hres as (Ho & Hc & _); congruence|]].
    + exists o, r. split; [exact Hres|split; [done|by apply Hlater]].
    + intros o2 a2 Ho2 Hc2. destruct Hres as (Ho & Hc & _). split; [done|]. simpl. congruence.
  - destruct (scrub_fields (with_run_status (run_status_of k) (Some uuid) now o)) as (F1 & F2 & F3 & _ & F5).
    split; [|split; [|intros o2 a Ho2 Hc2; congruence]].
    + set (o' := confirmed_operation_terminal_scrub (with_run_status (run_status_of k) (Some uuid) now o)) in *.
      set (r := result_row _ _ _ _ _ _ _ _ _) in Hres.
      assert (has_result d' id uuid o' r) as Hh.
      { split; [by rewrite Hruns, lookup_insert_eq|]. rewrite F2. split; [by apply column_full|].
        by rewrite Hres, lookup_insert_eq. }
      rewrite Hid, Hk. exists o', r. split; [exact Hh|]. split; [done|]. by apply Hlater.
    + intros o2 Ho2 _. assert (o2 = o) as -> by congruence. do 4 (split; [done|]). split.
      * eexists. split; [exact Hres|]. apply summary_shape in Hsum as (full & Hf & Hfit & _).
        unfold actionResultJson in *. assert (full = stored) as -> by congruence. unfold jsonClone in Hs1, Hs2.
        destruct (json_value v) as [w|] eqn:Ev; [|done]. destruct (json_value ref.(ref_summary)) as [w2|] eqn:Ew; [|done].
        injection Hs1 as ->. injection Hs2 as ->. unfold stored_result. simpl. by split_and!.
      * eexists. split; [exact Hruns|]. rewrite F1, F2, F3. split_and!; try done. intros Hcf Hk2. apply F5; [done|]. by destruct k.
Qed.

Definition unsettled_run (status : OperationRunStatus) (json : jsval) (hash : jstr) : OperationRunRow :=
  {| binding :=
       {| request_id := None; confirmation_id := None; session_id := u "s"; workspace_id := u "w";
          admin_user_id := u "a"; action_name := u "create_tag"; action_fingerprint := u "f";
          catalog_hash := u "c"; operation_hash := hash; capability_id := None;
          capability_hash := None; discriminator := v1DiscriminatorFromCapability None;
          run_created_at := 0 |};
     run_status := status; run_result_id := None; operation_json := json; reconciled_at := None;
     reconciliation_json := None; run_batch_id := None; run_updated_at := 0 |}.
Definition executing_db : db :=
  set_runs {[ u "op" := unsettled_run RunExecuting (VObj []) (u "h") ]} empty_db.
Definition settled_ref : ActionResultRef :=
  {| ref_id := u "res"; ref_kind := succeeded; ref_summary := VObj [(u "ok", VBool true)] |}.
Definition settled_db : db :=
  match settleOperationResult (u "op") succeeded (VObj [(u "ok", VBool true)]) 5 (u "res") executing_db with
  | Ok (_, d) => d
  | Throw _ => empty_db
  end.

Lemma operation_settles_once_witness :
  ∃ o r, has_result settled_db (u "op") (u "res") o r ∧ r.(result_kind) = succeeded ∧
    ∀ later, let d2 := run_events settle_any settled_db later in
      has_result d2 (u "op") (u "res") o r ∧
      ∀ k2 v2 now2 uuid2, settleOperationResult (u "op") k2 v2 now2 uuid2 d2 = Ok (ref_of (u "res") r, d2).
Proof.
  apply (operation_settles_once (u "op") succeeded (VObj [(u "ok", VBool true)]) 5 (u "res")
           executing_db settled_ref settled_db); [|done].
  vm_compute. reflexivity.
Defined.

(** A startup reconciliation.  It settles an operation only if its outcome is
    unknown, its persisted intent still hashes to the stored hash, and the evidence is an
    authoritative match bound to this step, action and catalog under the strategy of the plan; it
    reports success exactly when every planned primary step is then known to be applied,
    settles step, result and operation together (emptying the payload of a confirmed
    one), and the operation is neither settled again nor a candidate any more. *)
Theorem startup_settles_once sha256 id sid v now uuid d ref d' :
  settleStartupReconciliation sha256 id sid v now uuid d = Ok (ref, d') →
  (∃ o step,
    d.(operation_runs) !! id = Some o ∧ o.(run_status) = RunOutcomeUnknown ∧
    hasValidPersistedOperationHash sha256 id o = Ok true ∧ unknown_step d id sid = Some step ∧
    plan_binds (run_mutationPlan o) step.(identity) v = true ∧
    evidence_binds id sid o.(binding) step.(identity) v = true ∧
    ref.(ref_kind) = (if fully_applied d id sid (run_mutationPlan o) then succeeded else partial) ∧
    (∃ step', d'.(operation_steps) !! sid = Some step' ∧ step'.(step_status) = StepSucceeded ∧
       step'.(dispatched_at) = step.(dispatched_at)) ∧
    (∃ r, d'.(action_results) !! ref.(ref_id) = Some r ∧ r.(result_operation_id) = Some id ∧
       r.(result_kind) = ref.(ref_kind)) ∧
    ∃ o', d'.(operation_runs) !! id = Some o' ∧ o'.(run_status) = run_status_of ref.(ref_kind) ∧
      o'.(run_result_id) = Some ref.(ref_id) ∧
      (is_Some o.(binding).(confirmation_id) → o'.(operation_json) = empty_object)) ∧
  (∀ sid2 v2 now2 uuid2, settleStartupReconciliation sha256 id sid2 v2 now2 uuid2 d' =
     Throw "reconciliation_operation_not_unknown") ∧
  (∀ l x, listStartupReconciliationCandidates sha256 d' = Ok l → x ∈ l → x.(candidate_id) ≠ id).
Proof.
  intros (o & step & Ho & Hst & Hh & Hun & Hp & He & Hid & Hk & Hstep & Hres & o' & Ho' & Hb & Hst'
    & Hr' & Hrec & Hj)%startup_ok.
  split; [|split].
  - exists o, step. split_and!; try done. by exists o'.
  - intros. unfold settleStartupReconciliation, mthen, getdb. rewrite Ho'.
    unfold has_run_status. rewrite Hst', Hk. by destruct (fully_applied _ _ _ _).
  - intros l x Hl Hx <-. destruct (candidates_unknown _ _ _ _ Hl Hx) as (o2 & Ho2 & Hs2 & Hn2).
    congruence.
Qed.

(** A concrete reconciliation: one created tag, found again by its only candidate. *)
Definition restart_plan : jsval :=
  VObj [(u "mode", VStr (u "single")); (u "maxHostCalls", num 1);
        (u "steps", VArr [VObj [(u "id", VStr (u "p0")); (u "kind", VStr (u "primary"));
                                (u "reconciliationStrategy", VStr (u "create"))]])].
Definition restart_json : jsval :=
  VObj [(u "operation", VObj [(u "name", VStr (u "urgent"))]); (u "mutationPlan", restart_plan)].
Definition restart_hash : jstr :=
  hash_json demo_hash (VObj [(u "actionName", VStr (u "create_tag"));
    (u "operation", VObj [(u "name", VStr (u "urgent"))]); (u "mutationPlan", restart_plan)]).
Definition restart_step : OperationStepRow :=
  {| identity :=
       {| operation_id := u "op"; step_index := 0; plan_step_id := u "p0"; step_name := u "create";
          step_kind := primary; target_fingerprint := None; compensates_step_id := None;
          step_created_at := 0 |};
     step_status := StepOutcomeUnknown; external_id := None; effect_json := None; detail_json := None;
     queued_at := Some 1; dispatched_at := Some 2; settled_at := Some 3; step_updated_at := 3 |}.
Definition restart_db : db :=
  set_steps {[ u "st" := restart_step ]}
    (set_runs {[ u "op" := unsettled_run RunOutcomeUnknown restart_json restart_hash ]} empty_db).
Definition restart_evidence : jsval :=
  VObj [(u "authoritative", VBool true); (u "reason", VStr (u "authoritative_match"));
        (u "binding", VObj [(u "operationId", VStr (u "op")); (u "stepId", VStr (u "st"));
           (u "planStepId", VStr (u "p0")); (u "strategy", VStr (u "create"));
           (u "actionName", VStr (u "create_tag")); (u "actionFingerprint", VStr (u "f"));
           (u "catalogHash", VStr (u "c"))]);
        (u "evidence", VObj [(u "candidates", VArr [VObj [(u "ref", VObj [(u "id", VStr (u "x1"))])]])])].
Definition restart_outcome : ActionResultRef * db :=
  match settleStartupReconciliation demo_hash (u "op") (u "st") restart_evidence 9 (u "res") restart_db with
  | Ok x => x
  | Throw _ => (settled_ref, empty_db)
  end.

Example restart_kind : restart_outcome.1.(ref_kind) = succeeded.
Proof. vm_compute. reflexivity. Qed.

Lemma startup_settles_once_witness :
  (∀ sid2 v2 now2 uuid2, settleStartupReconciliation demo_hash (u "op") sid2 v2 now2 uuid2 restart_outcome.2 =
     Throw "reconciliation_operation_not_unknown") ∧
  (∀ l x, listStartupReconciliationCandidates demo_hash restart_outcome.2 = Ok l → x ∈ l →
     x.(candidate_id) ≠ u "op").
Proof.
  apply (startup_settles_once demo_hash (u "op") (u "st") restart_evidence 9 (u "res") restart_db
           restart_outcome.1 restart_outcome.2).
  vm_compute. reflexivity.
Defined.
