(* ===== verification/JournalMachine.v ===== *)
(** * The step machine the journal implements

    What each operation of file Journal may do to [operation_steps], as an inductive
    relation, and what follows for every run of the journal: the life of a step, the
    write-once dispatch evidence, and the pairing of a compensation with its source. *)
From S2P Require Import Prelude Js SafeJson ActionResults Confirmations Db Discriminators Plan Journal Store JournalResults.
Open Scope Z_scope.
#[local] Arguments u : simpl never.

(** ** The abstract machine *)

(** The update of one row. *)
Inductive row_step (r : OperationStepRow) : OperationStepRow → Prop :=
| row_execute now :
    step_is StepPrepared primary r = true → row_step r (executing_step now r)
| row_dispatch now :
    r.(step_status) = StepExecuting → r.(dispatched_at) = None → row_step r (dispatched_step now r)
| row_cancel detail now :
    r.(step_status) = StepExecuting → r.(dispatched_at) = None →
    row_step r (settled_step StepDefinitiveFailed r.(external_id) r.(effect_json) (Some detail) now r)
| row_settle o ext effect detail now :
    step_is StepExecuting primary r = true →
    row_step r (settled_step (primary_status o) ext effect detail now r)
| row_reconcile (ok : bool) ext effect detail now :
    step_is StepOutcomeUnknown primary r = true →
    row_step r (settled_step (if ok then StepSucceeded else StepDefinitiveFailed) ext effect detail now r).

(** A step identity that no row conflicts with. *)
Definition fresh_identity (t : gmap jstr OperationStepRow) (id : jstr) (x : StepIdentity) : Prop :=
  t !! id = None ∧ ∀ id2 r2, t !! id2 = Some r2 → step_conflict x r2.(identity) = false.

(** A step without a compensation in its operation. *)
Definition uncompensated (t : gmap jstr OperationStepRow) (op source : jstr) : Prop :=
  ∀ id r, t !! id = Some r → r.(identity).(operation_id) = op →
    r.(identity).(step_kind) = compensation → r.(identity).(compensates_step_id) ≠ Some source.

Inductive table_step (t : gmap jstr OperationStepRow) : gmap jstr OperationStepRow → Prop :=
| table_idle : table_step t t
| table_prepare id x detail now :
    fresh_identity t id x → x.(step_kind) = primary →
    table_step t (<[id := prepared_step x detail now]> t)
| table_prepare_compensation id x source s detail now :
    fresh_identity t id x → x.(step_kind) = compensation →
    x.(compensates_step_id) = Some source → t !! source = Some s →
    s.(identity).(operation_id) = x.(operation_id) → step_is StepSucceeded primary s = true →
    uncompensated t x.(operation_id) source →
    table_step t (<[id := prepared_step x detail now]> t)
| table_row id r r' :
    t !! id = Some r → row_step r r' → table_step t (<[id := r']> t)
| table_start id r source s now :
    t !! id = Some r → step_is StepPrepared compensation r = true →
    r.(identity).(compensates_step_id) = Some source → t !! source = Some s →
    step_is StepSucceeded primary s = true →
    table_step t (<[source := with_step_status StepCompensating false now s]>
                    (<[id := executing_step now r]> t))
| table_finish id r source s o ext effect detail now :
    t !! id = Some r → step_is StepExecuting compensation r = true →
    r.(identity).(compensates_step_id) = Some source →
    (<[id := settled_step (compensation_status o) ext effect detail now r]> t) !! source = Some s →
    s.(step_status) = StepCompensating →
    table_step t (<[source := with_step_status (source_status o)
                        (bool_decide (source_status o = StepCompensated)) now s]>
                    (<[id := settled_step (compensation_status o) ext effect detail now r]> t)).

(** ** The operations of the journal *)

Inductive journal_op : Type :=
| OpPrepareRun (i : PrepareOperationRunInput)
| OpExecuteRun (id : jstr)
| OpSettleRun (id : jstr) (k : ActionResultKind) (a : option jstr)
| OpSettleResult (id : jstr) (k : ActionResultKind) (v : jsval)
| OpRecordResult (op : option jstr) (wid aid : jstr) (sid : option jstr) (action : jstr)
    (k : ActionResultKind) (v : jsval)
| OpPrepareStep (i : PrepareOperationStepInput)
| OpExecuteStep (id : jstr) (op : option jstr)
| OpDispatchStep (id : jstr) (op : option jstr)
| OpCancelStep (id : jstr) (detail : jsval) (op : option jstr)
| OpSettleStep (id : jstr) (o : PrimaryOutcome) (x : StepDetail) (op : option jstr)
| OpSettleStepDegraded (id : jstr) (o : PrimaryOutcome) (ext : option jstr) (detail : jsval)
    (op : option jstr)
| OpSettleReconciled (id : jstr) (ok : bool) (x : StepDetail) (op : option jstr)
| OpRecordReconciliation (id stepId : jstr) (v : jsval) (authoritative : bool)
| OpPrepareCompensation (i : PrepareCompensationStepInput)
| OpStartCompensation (id : jstr) (op : option jstr)
| OpSettleCompensation (id : jstr) (o : CompensationOutcome) (x : StepDetail) (op : option jstr)
| OpSettleCompensationDegraded (id : jstr) (o : CompensationOutcome) (ext : option jstr)
    (detail : jsval) (op : option jstr)
| OpSettleStartup (id stepId : jstr) (v : jsval).

Section Machine.
Context (sha256 : jstr → jstr).

(** The transaction of one call, at a time and with a fresh id. *)
Definition journal_run (c : journal_op) (now : Z) (uuid : jstr) : M unit :=
  match c with
  | OpPrepareRun i => do! _ := prepareOperationRun i now uuid in mreturn tt
  | OpExecuteRun id => do! _ := markOperationExecuting id now in mreturn tt
  | OpSettleRun id k a => settleOperationRun id k a now
  | OpSettleResult id k v => do! _ := settleOperationResult id k v now uuid in mreturn tt
  | OpRecordResult op wid aid sid action k v =>
      do! _ := recordActionResult op wid aid sid action k v now uuid in mreturn tt
  | OpPrepareStep i => do! _ := prepareOperationStep i now uuid in mreturn tt
  | OpExecuteStep id op => do! _ := markOperationStepExecuting id op now in mreturn tt
  | OpDispatchStep id op => do! _ := markOperationStepDispatched id op now in mreturn tt
  | OpCancelStep id detail op => do! _ := cancelOperationStepBeforeDispatch id detail op now in mreturn tt
  | OpSettleStep id o x op => settleOperationStep id o x op now
  | OpSettleStepDegraded id o ext detail op => settleOperationStepDegraded id o ext detail op now
  | OpSettleReconciled id ok x op => settleReconciledStep id ok x op now
  | OpRecordReconciliation id sid v a => recordOperationReconciliation id sid v a now
  | OpPrepareCompensation i => do! _ := prepareCompensationStep i now uuid in mreturn tt
  | OpStartCompensation id op => do! _ := markOperationStepCompensating id op now in mreturn tt
  | OpSettleCompensation id o x op => settleCompensationStep id o x op now
  | OpSettleCompensationDegraded id o ext detail op => settleCompensationStepDegraded id o ext detail op now
  | OpSettleStartup id sid v => do! _ := settleStartupReconciliation sha256 id sid v now uuid in mreturn tt
  end.

(** A call that throws leaves the tables as they were. *)
Definition journal_step (d : db) (call : journal_op * Z * jstr) : db :=
  match journal_run call.1.1 call.1.2 call.2 d with
  | Ok (_, d') => d'
  | Throw _ => d
  end.
End Machine.

(** ** Refinement *)

Lemma column_some v s : column v = Some s → v = Some s.
Proof. unfold column. by destruct (truthy v). Qed.

Lemma step_is_spec s k r :
  step_is s k r = true ↔ r.(step_status) = s ∧ r.(identity).(step_kind) = k.
Proof. unfold step_is. by rewrite andb_true_iff, !bool_decide_eq_true. Qed.

(** An update of at most one row by [row_step]. *)
Lemma update_refines id p f d b d' :
  (∀ r, p r = true → row_step r (f r)) →
  update_step id p f d = Ok (b, d') → table_step d.(operation_steps) d'.(operation_steps).
Proof.
  intros Hf [[_ ->]|(_ & r & Hr & Hp & ->)]%update_step_ok; [constructor|].
  econstructor; [done|auto].
Qed.

Ltac rows := simpl; intros; rewrite ?andb_true_iff, ?bool_decide_eq_true in *; destruct_and?.

Lemma undispatched_spec op r :
  undispatched op r = true → r.(step_status) = StepExecuting ∧ r.(dispatched_at) = None.
Proof. unfold undispatched. rows. done. Qed.

Lemma execute_refines id op now d b d' :
  markOperationStepExecuting id op now d = Ok (b, d') →
  table_step d.(operation_steps) d'.(operation_steps).
Proof.
  unfold markOperationStepExecuting. intros H. minv. eapply update_refines; [|done].
  rows. by constructor.
Qed.

Lemma dispatch_refines id op now d b d' :
  markOperationStepDispatched id op now d = Ok (b, d') →
  table_step d.(operation_steps) d'.(operation_steps).
Proof. apply update_refines. intros r []%undispatched_spec. by constructor. Qed.

Lemma cancel_refines id detail op now d b d' :
  cancelOperationStepBeforeDispatch id detail op now d = Ok (b, d') →
  table_step d.(operation_steps) d'.(operation_steps).
Proof.
  unfold cancelOperationStepBeforeDispatch. intros H. minv. eapply update_refines; [|done].
  intros r []%undispatched_spec. by constructor.
Qed.

Lemma settle_refines id o x op now d b d' :
  settleOperationStep id o x op now d = Ok (b, d') →
  table_step d.(operation_steps) d'.(operation_steps).
Proof.
  unfold settleOperationStep. intros H. minv. eapply update_refines; [|done].
  rows. by constructor.
Qed.

Lemma settle_degraded_refines id o ext detail op now d b d' :
  settleOperationStepDegraded id o ext detail op now d = Ok (b, d') →
  table_step d.(operation_steps) d'.(operation_steps).
Proof.
  unfold settleOperationStepDegraded. intros H. minv. eapply update_refines; [|done].
  rows. by constructor.
Qed.

Lemma reconciled_refines id ok x op now d b d' :
  settleReconciledStep id ok x op now d = Ok (b, d') →
  table_step d.(operation_steps) d'.(operation_steps).
Proof.
  unfold settleReconciledStep. intros H. minv. eapply update_refines; [|done].
  intros r Hr. by constructor.
Qed.

Lemma prepare_refines i now uuid d b d' :
  prepareOperationStep i now uuid d = Ok (b, d') →
  table_step d.(operation_steps) d'.(operation_steps).
Proof.
  unfold prepareOperationStep. intros H. minv.
  all: match goal with H : insert_step _ _ _ = _ |- _ => apply insert_step_ok in H as (? & ? & _ & _ & ->) end.
  all: apply table_prepare; [by split|by eapply bool_decide_eq_true].
Qed.

Lemma some_step_false p d :
  some_step p d = false → ∀ id r, d.(operation_steps) !! id = Some r → p r = false.
Proof.
  intros Hs id r Hr. apply not_true_iff_false. intros Hp. apply not_true_iff_false in Hs.
  apply Hs, existsb_exists. exists (id, r). split; [by apply list_elem_of_In, elem_of_map_to_list|done].
Qed.

Lemma some_step_true p d :
  some_step p d = true → ∃ id r, d.(operation_steps) !! id = Some r ∧ p r = true.
Proof.
  intros ([id r] & Hin & Hp)%existsb_exists. exists id, r. split; [|done].
  by apply list_elem_of_In, elem_of_map_to_list in Hin.
Qed.

(** What eligibility establishes. *)
Lemma eligible_facts d i s o :
  compensation_eligible d i s o = true →
  s.(step_status) = StepSucceeded ∧
  uncompensated d.(operation_steps) s.(identity).(operation_id) i.(comp_in_compensatesStepId).
Proof.
  unfold compensation_eligible. destruct (persistedPlanDescriptors _) as [ds|]; [|done].
  rewrite !andb_true_iff, negb_true_iff, bool_decide_eq_true. intros ((((_ & _) & Hu) & Hs) & _).
  split; [done|]. intros id r Hr Hop Hk Hc. pose proof (some_step_false _ _ Hu id r Hr) as Hf.
  unfold compensation_used in Hf. rewrite Hop, Hk, Hc in Hf.
  rewrite !andb_false_iff, !orb_false_iff, !andb_false_iff, !bool_decide_eq_false in Hf. naive_solver.
Qed.

Lemma prepare_compensation_refines i now uuid d b d' :
  prepareCompensationStep i now uuid d = Ok (b, d') →
  table_step d.(operation_steps) d'.(operation_steps).
Proof.
  unfold prepareCompensationStep. intros H. minv.
  destruct (_ !! comp_in_compensatesStepId i) as [s|] eqn:Hs; [|done].
  rewrite !andb_true_iff, !bool_decide_eq_true in Heqb0. destruct Heqb0 as [[Hop Hk] He].
  destruct (_ !! operation_id _) as [o|]; [|done]. apply eligible_facts in He as [Hst Hu].
  match goal with H : insert_step _ _ _ = _ |- _ => apply insert_step_ok in H as (? & ? & _ & _ & ->) end.
  eapply table_prepare_compensation; try done; try (by split).
  - by apply step_is_spec.
  - by rewrite <- Hop.
Qed.

Lemma start_compensation_refines id op now d b d' :
  markOperationStepCompensating id op now d = Ok (b, d') →
  table_step d.(operation_steps) d'.(operation_steps).
Proof.
  unfold markOperationStepCompensating. intros H. minv; try constructor.
  destruct (in_scope _ _ && _) eqn:Hp; [|done]. apply andb_true_iff in Hp as [_ Hp].
  match goal with H : column _ = _ |- _ => apply column_some in H end.
  match goal with H : _ && _ = true |- _ => apply andb_true_iff in H as [-> ->] end.
  apply update_step_ok in Hm as [[? _]|(_ & r & Hr & _ & E1)]; [done|].
  apply update_step_ok in Hm0 as [[? _]|(_ & s & Hs & Hps & ->)]; [done|].
  assert (o = r) as -> by congruence. rewrite E1 in *.
  destruct (decide (l = id)) as [->|Hne].
  { rewrite lookup_insert_eq in Hs. injection Hs as <-.
    apply step_is_spec in Hp, Hps. simpl in *. naive_solver. }
  rewrite lookup_insert_ne in Hs by done. by eapply table_start.
Qed.

Lemma finish_refines id source o ext effect detail now d op b d' :
  compensation_source d id op = Some source →
  settle_compensation_rows id source o ext effect detail now d = Ok (b, d') →
  table_step d.(operation_steps) d'.(operation_steps).
Proof.
  unfold compensation_source, settle_compensation_rows. intros Hsrc H. minv.
  apply update_step_ok in Hm as [[? _]|(_ & r & Hr & Hpr & E1)]; [done|].
  apply update_step_ok in Hm0 as [[? _]|(_ & s & Hs & Hps & ->)]; [done|].
  rewrite Hr in Hsrc. destruct (in_scope _ _ && _); [|done]. apply column_some in Hsrc.
  rewrite E1 in *. eapply table_finish; try done. by apply bool_decide_eq_true in Hps.
Qed.

Lemma settle_compensation_refines id o x op now d b d' :
  settleCompensationStep id o x op now d = Ok (b, d') →
  table_step d.(operation_steps) d'.(operation_steps).
Proof. unfold settleCompensationStep. intros H. minv. by eapply finish_refines. Qed.

Lemma settle_compensation_degraded_refines id o ext detail op now d b d' :
  settleCompensationStepDegraded id o ext detail op now d = Ok (b, d') →
  table_step d.(operation_steps) d'.(operation_steps).
Proof. unfold settleCompensationStepDegraded. intros H. minv. by eapply finish_refines. Qed.

(** The other operations do not touch the steps. *)
Lemma keeps_refines {A} (m : M A) `{HK : !Keeps operation_steps m} d a d' :
  m d = Ok (a, d') → table_step d.(operation_steps) d'.(operation_steps).
Proof. intros H. rewrite (HK _ _ _ H). constructor. Qed.

#[export] Instance keeps_prepare_run i now uuid : Keeps operation_steps (prepareOperationRun i now uuid).
Proof. unfold prepareOperationRun. solve_keeps. Qed.
#[export] Instance keeps_settle_result id k v now uuid :
  Keeps operation_steps (settleOperationResult id k v now uuid).
Proof. unfold settleOperationResult. solve_keeps. Qed.
Lemma record_refines id sid v au now d b d' :
  recordOperationReconciliation id sid v au now d = Ok (b, d') →
  table_step d.(operation_steps) d'.(operation_steps).
Proof.
  unfold recordOperationReconciliation. intros H. minv.
  destruct (update_row _ _ _ _) as [t c]. minv. constructor.
Qed.

Lemma startup_refines sha256 id sid v now uuid d b d' :
  settleStartupReconciliation sha256 id sid v now uuid d = Ok (b, d') →
  table_step d.(operation_steps) d'.(operation_steps).
Proof.
  unfold settleStartupReconciliation. intros H. minv.
  assert (d'.(operation_steps) = d3.(operation_steps)) as ->.
  { etrans; [exact (keeps_update_run operation_steps _ _ _ _ _ _ Hm10)|]. simpl.
    etrans; [exact (keeps_waiting operation_steps _ _ _ _ _ _ _ _ Hm6)|].
    exact (keeps_write_reconciled operation_steps _ _ _ _ _ _ _ _ _ _ Hm5). }
  eapply update_refines; [|exact Hm1]. rows.
  apply (row_reconcile r true). done.
Qed.

(** The journal implements the machine: every call moves the step table by one step of
    it, or leaves it alone. *)
Lemma journal_refines sha256 d call :
  table_step d.(operation_steps) (journal_step sha256 d call).(operation_steps).
Proof.
  unfold journal_step. destruct call as [[c now] uuid]. cbn [fst snd].
  destruct (journal_run sha256 c now uuid d) as [[[] d']|] eqn:H; [|constructor].
  destruct c; cbn [journal_run] in H; try (apply mthen_ok in H as (b & d1 & H & [= <-]));
    eauto using prepare_refines, execute_refines, dispatch_refines, cancel_refines, settle_refines,
      settle_degraded_refines, reconciled_refines, record_refines, prepare_compensation_refines,
      start_compensation_refines, settle_compensation_refines, settle_compensation_degraded_refines,
      startup_refines; eapply keeps_refines; eauto; unfold markOperationExecuting, settleOperationRun,
      recordActionResult; solve_keeps.
Qed.

(** ** The life of a step *)

Inductive edge : StepKind → StepStatus → StepStatus → Prop :=
| edge_execute k : edge k StepPrepared StepExecuting
| edge_cancel k : edge k StepExecuting StepDefinitiveFailed
| edge_settle o : edge primary StepExecuting (primary_status o)
| edge_reconcile (ok : bool) :
    edge primary StepOutcomeUnknown (if ok then StepSucceeded else StepDefinitiveFailed)
| edge_compensate : edge primary StepSucceeded StepCompensating
| edge_source k o : edge k StepCompensating (source_status o)
| edge_compensation o : edge compensation StepExecuting (compensation_status o).

(** Dispatch evidence can still be written. *)
Definition open_step (s : StepStatus) : bool :=
  match s with StepPrepared | StepExecuting => true | _ => false end.

Record row_life (r r' : OperationStepRow) : Prop := {
  life_identity : r'.(identity) = r.(identity);
  life_status : rtc (edge r.(identity).(step_kind)) r.(step_status) r'.(step_status);
  life_dispatch : ∀ t, r.(dispatched_at) = Some t → r'.(dispatched_at) = Some t;
  life_frozen : open_step r.(step_status) = false → r'.(dispatched_at) = r.(dispatched_at);
}.

Lemma edge_closed k s s' : edge k s s' → open_step s = false → open_step s' = false.
Proof. destruct 1; try done. all: match goal with o : _ |- _ => by destruct o end. Qed.

Lemma edges_closed k s s' : rtc (edge k) s s' → open_step s = false → open_step s' = false.
Proof. induction 1; eauto using edge_closed. Qed.

#[export] Instance row_life_preorder : PreOrder row_life.
Proof.
  split.
  - intros r. by constructor.
  - intros r1 r2 r3 [I1 S1 D1 F1] [I2 S2 D2 F2]. rewrite I1 in S2. constructor.
    + congruence.
    + by etrans.
    + auto.
    + intros Hc. rewrite F2; [auto|by eapply edges_closed].
Qed.

(** A single edge with the dispatch evidence kept. *)
Lemma life_edge r r' :
  r'.(identity) = r.(identity) → r'.(dispatched_at) = r.(dispatched_at) →
  edge r.(identity).(step_kind) r.(step_status) r'.(step_status) → row_life r r'.
Proof. intros Hi Hd He. constructor; [done|by apply rtc_once|congruence|done]. Qed.

Ltac use_edge :=
  apply life_edge; [done|done|simpl];
  repeat match goal with H : step_is _ _ _ = true |- _ => apply step_is_spec in H as [-> ->] end.

Lemma row_step_life r r' : row_step r r' → row_life r r'.
Proof.
  destruct 1 as [now H|now H1 H2|detail now H1 H2|o ext e dt now H|ok ext e dt now H];
    try (use_edge; constructor).
  - constructor; simpl; [done|done|congruence|by rewrite H1].
  - use_edge. rewrite H1. constructor.
Qed.

(** What happened to a table: every row lives on, and new rows started prepared. *)
Record table_life (t t' : gmap jstr OperationStepRow) : Prop := {
  life_old : ∀ id r, t !! id = Some r → ∃ r', t' !! id = Some r' ∧ row_life r r';
  life_new : ∀ id r', t !! id = None → t' !! id = Some r' →
    ∃ x detail now, row_life (prepared_step x detail now) r';
}.

#[export] Instance table_life_preorder : PreOrder table_life.
Proof.
  split.
  - intros t. constructor; [intros id r Hr; by exists r|by intros id r' ->].
  - intros t1 t2 t3 [O1 N1] [O2 N2]. constructor.
    + intros id r1 H1. destruct (O1 id r1 H1) as (r2 & H2 & L1).
      destruct (O2 id r2 H2) as (r3 & H3 & L2). exists r3. split; [done|by etrans].
    + intros id r3 Hn H3. destruct (t2 !! id) as [r2|] eqn:H2; [|by eapply N2].
      destruct (N1 id r2 Hn H2) as (x & dt & now & L1). destruct (O2 id r2 H2) as (r3' & H3' & L2).
      exists x, dt, now. etrans; [done|]. by simplify_eq.
Qed.

Lemma insert_life t id r r' :
  t !! id = Some r → row_life r r' → table_life t (<[id := r']> t).
Proof.
  intros Hr Hl. constructor; intros id2 r2.
  - intros H2. destruct (decide (id2 = id)) as [->|Hne].
    + exists r'. rewrite lookup_insert_eq. split; [done|congruence].
    + exists r2. by rewrite lookup_insert_ne by done.
  - intros Hn H2. rewrite lookup_insert_ne in H2 by congruence. congruence.
Qed.

Lemma prepare_life t id x detail now :
  t !! id = None → table_life t (<[id := prepared_step x detail now]> t).
Proof.
  intros Hn. constructor; intros id2 r2.
  - intros H2. exists r2. by rewrite lookup_insert_ne by congruence.
  - intros Hn2 H2. destruct (decide (id2 = id)) as [->|Hne].
    + rewrite lookup_insert_eq in H2. injection H2 as <-. by eexists _, _, _.
    + rewrite lookup_insert_ne in H2 by done. congruence.
Qed.

Lemma table_step_life t t' : table_step t t' → table_life t t'.
Proof.
  destruct 1 as [|id x dt now [Hn _] _|id x src s dt now [Hn _]|id r r' Hr Hs
    |id r src s now Hr Hp Hc Hs Hps|id r src s o ext e dt now Hr Hp Hc Hs Hps].
  - done.
  - by apply prepare_life.
  - by apply prepare_life.
  - eapply insert_life; [done|by apply row_step_life].
  - assert (src ≠ id) as Hne.
    { intros ->. apply step_is_spec in Hp as [_ Hp], Hps as [_ Hps]. congruence. }
    transitivity (<[id := executing_step now r]> t);
      [eapply insert_life; [exact Hr|use_edge; constructor]|].
    eapply insert_life; [by rewrite lookup_insert_ne|use_edge; constructor].
  - transitivity (<[id := settled_step (compensation_status o) ext e dt now r]> t);
      [eapply insert_life; [exact Hr|use_edge; constructor]|].
    eapply insert_life; [done|]. apply life_edge; [done|done|]. simpl. rewrite Hps.
    constructor.
Qed.

Lemma journal_life sha256 d calls :
  table_life d.(operation_steps) (run_events (journal_step sha256) d calls).(operation_steps).
Proof.
  apply (run_preorder (journal_step sha256) (λ d d', table_life d.(operation_steps) d'.(operation_steps))).
  - split; [by intros ?|]. intros d1 d2 d3 H1 H2. by etrans.
  - intros d1 c. apply table_step_life, journal_refines.
Qed.

(** A status that no journal operation leaves. *)
Definition final_status (k : StepKind) (s : StepStatus) : bool :=
  match s, k with
  | StepDefinitiveFailed, _ | StepCompensated, _ | StepCompensationFailed, _
  | StepSkipped, _ => true
  | StepOutcomeUnknown, compensation | StepSucceeded, compensation => true
  | _, _ => false
  end.

Lemma final_stuck k s s' : final_status k s = true → rtc (edge k) s s' → s' = s.
Proof. intros Hf. destruct 1 as [|s1 s2 s3 He _]; [done|].
  exfalso. destruct He; simpl in Hf; try discriminate; by destruct k. Qed.

(** ** Compensations and their sources *)

(** The status of a source, given that of its compensation.  A cancelled compensation
    ([StepDefinitiveFailed]) leaves its source compensating. *)
Definition paired (s : StepStatus) : option StepStatus :=
  match s with
  | StepPrepared | StepCompensationFailed | StepOutcomeUnknown => Some StepSucceeded
  | StepExecuting | StepDefinitiveFailed => Some StepCompensating
  | StepCompensated => Some StepCompensated
  | _ => None
  end.

(** The compensation [r] has the source [src], as [paired] says. *)
Definition has_source (t : gmap jstr OperationStepRow) (r : OperationStepRow) (src : jstr) : Prop :=
  r.(identity).(compensates_step_id) = Some src ∧
  ∃ s, t !! src = Some s ∧ s.(identity).(step_kind) = primary ∧
    s.(identity).(operation_id) = r.(identity).(operation_id) ∧
    paired r.(step_status) = Some s.(step_status).

Record steps_inv (t : gmap jstr OperationStepRow) : Prop := {
  inv_pair : ∀ id r, t !! id = Some r → r.(identity).(step_kind) = compensation →
    ∃ src, has_source t r src;
  inv_unique : ∀ id1 r1 id2 r2 src, t !! id1 = Some r1 → t !! id2 = Some r2 →
    r1.(identity).(step_kind) = compensation → r2.(identity).(step_kind) = compensation →
    r1.(identity).(compensates_step_id) = Some src →
    r2.(identity).(compensates_step_id) = Some src → id1 = id2;
  inv_compensating : ∀ id s, t !! id = Some s →
    s.(step_status) = StepCompensating ∨ s.(step_status) = StepCompensated →
    s.(identity).(step_kind) = primary →
    ∃ cid r, t !! cid = Some r ∧ r.(identity).(step_kind) = compensation ∧
      r.(identity).(compensates_step_id) = Some id;
  inv_prepared : ∀ id r, t !! id = Some r → r.(step_status) = StepPrepared → r.(dispatched_at) = None;
  inv_distinct : ∀ id1 r1 id2 r2, t !! id1 = Some r1 → t !! id2 = Some r2 →
    step_conflict r1.(identity) r2.(identity) = true → id1 = id2;
}.

Lemma step_conflict_sym x y : step_conflict x y = step_conflict y x.
Proof.
  unfold step_conflict. f_equal; [|f_equal]; apply bool_decide_ext; split; congruence.
Qed.

(** Replacing rows without touching their identity keeps the identity clauses. *)
Definition same_identities (t t' : gmap jstr OperationStepRow) : Prop :=
  (∀ id r', t' !! id = Some r' → ∃ r, t !! id = Some r ∧ r'.(identity) = r.(identity)) ∧
  (∀ id r, t !! id = Some r → ∃ r', t' !! id = Some r' ∧ r'.(identity) = r.(identity)).

Lemma insert_same_identities t id r r' :
  t !! id = Some r → r'.(identity) = r.(identity) → same_identities t (<[id := r']> t).
Proof.
  intros Hr Hi. split; intros id2 r2 H2; destruct (decide (id2 = id)) as [->|Hne];
    rewrite ?lookup_insert_eq, ?lookup_insert_ne in * by done; naive_solver.
Qed.

Lemma same_identities_trans t1 t2 t3 :
  same_identities t1 t2 → same_identities t2 t3 → same_identities t1 t3.
Proof.
  intros [A1 B1] [A2 B2]. split; intros id r Hr.
  - destruct (A2 _ _ Hr) as (r2 & H2 & E2). destruct (A1 _ _ H2) as (r1 & H1 & E1). exists r1.
    split; [done|congruence].
  - destruct (B1 _ _ Hr) as (r2 & H2 & E2). destruct (B2 _ _ H2) as (r3 & H3 & E3). exists r3.
    split; [done|congruence].
Qed.

Lemma identities_inv t t' :
  steps_inv t → same_identities t t' →
  (∀ id r, t' !! id = Some r → r.(identity).(step_kind) = compensation → ∃ src, has_source t' r src) →
  (∀ id s, t' !! id = Some s →
     s.(step_status) = StepCompensating ∨ s.(step_status) = StepCompensated →
     s.(identity).(step_kind) = primary →
     ∃ cid r, t !! cid = Some r ∧ r.(identity).(step_kind) = compensation ∧
       r.(identity).(compensates_step_id) = Some id) →
  (∀ id r, t' !! id = Some r → r.(step_status) = StepPrepared → r.(dispatched_at) = None) →
  steps_inv t'.
Proof.
  intros I [A B] Hp Hc Hd. constructor; [done| | |done|].
  - intros id1 r1 id2 r2 src H1 H2 K1 K2 C1 C2.
    destruct (A _ _ H1) as (s1 & S1 & E1), (A _ _ H2) as (s2 & S2 & E2).
    eapply (inv_unique t I id1 s1 id2 s2 src); congruence.
  - intros id s Hs Hst Hk. destruct (Hc id s Hs Hst Hk) as (cid & r & Hr & Hrk & Hrc).
    destruct (B _ _ Hr) as (r' & Hr' & E). exists cid, r'. by rewrite E.
  - intros id1 r1 id2 r2 H1 H2 C.
    destruct (A _ _ H1) as (s1 & S1 & E1), (A _ _ H2) as (s2 & S2 & E2).
    eapply (inv_distinct t I id1 s1 id2 s2); congruence.
Qed.

Lemma has_source_mono t id r' r src :
  has_source t r src → (t !! id = None ∨ src ≠ id) → has_source (<[id := r']> t) r src.
Proof.
  intros [Hc (s & Hs & Hrest)] Hor. split; [done|]. exists s. split; [|done].
  rewrite lookup_insert_ne; [done|]. destruct Hor; congruence.
Qed.

Lemma prepare_inv t id x dt now :
  steps_inv t → fresh_identity t id x →
  (x.(step_kind) = compensation → ∃ src,
     has_source t (prepared_step x dt now) src ∧
     ∀ id2 r2, t !! id2 = Some r2 → r2.(identity).(step_kind) = compensation →
       r2.(identity).(compensates_step_id) ≠ Some src) →
  steps_inv (<[id := prepared_step x dt now]> t).
Proof.
  intros I [Hn Hf] Hsrc. constructor.
  - intros id2 r2 H2 K2. apply lookup_insert_Some in H2 as [[<- <-]|[Hne H2]].
    + destruct (Hsrc K2) as (src & Hs & _). exists src. apply has_source_mono; [done|by left].
    + destruct (inv_pair t I id2 r2 H2 K2) as (src & Hs). exists src. apply has_source_mono; [done|by left].
  - intros id1 r1 id2 r2 src H1 H2 K1 K2 C1 C2.
    apply lookup_insert_Some in H1 as [[<- <-]|[Hne1 H1]], H2 as [[<- <-]|[Hne2 H2]]; try done.
    + destruct (Hsrc K1) as (src' & [Hs _] & Hno). simpl in Hs, C1. exfalso.
      apply (Hno id2 r2 H2 K2). congruence.
    + destruct (Hsrc K2) as (src' & [Hs _] & Hno). simpl in Hs, C2. exfalso.
      apply (Hno id1 r1 H1 K1). congruence.
    + eauto using inv_unique.
  - intros id2 s H2 Hst Hk. apply lookup_insert_Some in H2 as [[<- <-]|[Hne H2]]; [naive_solver|].
    destruct (inv_compensating t I id2 s H2 Hst Hk) as (cid & r & Hr & Hrest). exists cid, r.
    by rewrite lookup_insert_ne by congruence.
  - intros id2 r2 H2 Hst. apply lookup_insert_Some in H2 as [[<- <-]|[Hne H2]]; [done|].
    by eapply inv_prepared.
  - intros id1 r1 id2 r2 H1 H2 C.
    apply lookup_insert_Some in H1 as [[<- <-]|[Hne1 H1]], H2 as [[<- <-]|[Hne2 H2]]; try done.
    + simpl in C. by rewrite (Hf id2 r2 H2) in C.
    + simpl in C. rewrite step_conflict_sym in C. by rewrite (Hf id1 r1 H1) in C.
    + eauto using inv_distinct.
Qed.

(** What the update of one row does and does not reach. *)
Lemma row_step_facts r r' :
  row_step r r' →
  r'.(identity) = r.(identity) ∧ r'.(step_status) ≠ StepPrepared ∧
  r'.(step_status) ≠ StepCompensating ∧ r'.(step_status) ≠ StepCompensated ∧
  r.(step_status) ≠ StepSucceeded ∧ r.(step_status) ≠ StepCompensating ∧
  r.(step_status) ≠ StepCompensated ∧
  (r.(identity).(step_kind) = compensation → paired r'.(step_status) = paired r.(step_status)).
Proof.
  destruct 1 as [now [H K]%step_is_spec|now H1 H2|detail now H1 H2|o ext e dt now [H K]%step_is_spec
    |ok ext e dt now [H K]%step_is_spec]; simpl; try rewrite H; try rewrite H1; try rewrite K;
    split_and!; try done; try (by destruct o); by destruct ok.
Qed.

Lemma row_inv t id r r' :
  steps_inv t → t !! id = Some r → row_step r r' → steps_inv (<[id := r']> t).
Proof.
  intros I Hr (Hi & N1 & N2 & N3 & M1 & M2 & M3 & Hpair)%row_step_facts.
  apply (identities_inv t); [done|by eapply insert_same_identities| | |].
  - intros id2 r2 H2 K2. apply lookup_insert_Some in H2 as [[<- <-]|[Hne H2]].
    + rewrite Hi in K2. destruct (inv_pair t I id r Hr K2) as (src & Hc & s & Hs & Hk & Hop & Hp).
      exists src. assert (src ≠ id) by congruence.
      split; [by rewrite Hi|]. exists s. rewrite lookup_insert_ne, Hi, Hpair by done. done.
    + destruct (inv_pair t I id2 r2 H2 K2) as (src & Hc & s & Hs & Hk & Hop & Hp).
      exists src. apply has_source_mono; [by split; [|exists s]|]. right. intros ->.
      assert (s = r) as -> by congruence. destruct (step_status r2); simpl in Hp; congruence.
  - intros id2 s H2 Hst Hk. apply lookup_insert_Some in H2 as [[<- <-]|[Hne H2]]; [naive_solver|].
    by eapply inv_compensating.
  - intros id2 r2 H2 Hst. apply lookup_insert_Some in H2 as [[<- <-]|[Hne H2]]; [done|].
    by eapply inv_prepared.
Qed.

(** The paired update of a compensation and its source. *)
Lemma pair_inv t id r src s r' s' :
  steps_inv t → t !! id = Some r → r.(identity).(step_kind) = compensation →
  r.(identity).(compensates_step_id) = Some src → src ≠ id → t !! src = Some s →
  r'.(identity) = r.(identity) → s'.(identity) = s.(identity) →
  paired r'.(step_status) = Some s'.(step_status) →
  r'.(step_status) ≠ StepPrepared → s'.(step_status) ≠ StepPrepared →
  steps_inv (<[src := s']> (<[id := r']> t)).
Proof.
  intros I Hr K C Hne Hs Ir Is Hp Nr Ns.
  destruct (inv_pair t I id r Hr K) as (src' & C' & s0 & Hs0 & Ks & Hop & _).
  assert (src' = src) as -> by congruence. assert (s0 = s) as -> by congruence.
  apply (identities_inv t); [done| | | |].
  - apply (same_identities_trans _ (<[id := r']> t)); [by eapply insert_same_identities|].
    eapply insert_same_identities; [by rewrite lookup_insert_ne|done].
  - intros id2 r2 H2 K2. apply lookup_insert_Some in H2 as [[<- <-]|[Hne2 H2]]; [congruence|].
    apply lookup_insert_Some in H2 as [[<- <-]|[Hne3 H2]].
    + exists src. split; [congruence|]. exists s'. rewrite lookup_insert_eq, Is, Ir. done.
    + destruct (inv_pair t I id2 r2 H2 K2) as (src2 & Hsrc2). exists src2.
      assert (src2 ≠ id) by (destruct Hsrc2 as [_ (s2 & ? & ? & _)]; congruence).
      assert (src2 ≠ src).
      { intros ->. apply Hne3. eapply (inv_unique t I id r id2 r2 src); try done. apply Hsrc2. }
      apply has_source_mono; [|by right]. apply has_source_mono; [done|by right].
  - intros id2 s2 H2 Hst Hk. apply lookup_insert_Some in H2 as [[<- <-]|[Hne2 H2]]; [by exists id, r|].
    apply lookup_insert_Some in H2 as [[<- <-]|[Hne3 H2]]; [congruence|]. by eapply inv_compensating.
  - intros id2 r2 H2 Hst. apply lookup_insert_Some in H2 as [[<- <-]|[Hne2 H2]]; [done|].
    apply lookup_insert_Some in H2 as [[<- <-]|[Hne3 H2]]; [done|]. by eapply inv_prepared.
Qed.

Lemma table_step_inv t t' : steps_inv t → table_step t t' → steps_inv t'.
Proof.
  intros I. destruct 1 as [|id x dt now Hf Hk|id x src s dt now Hf Hk Hc Hs Hop Hss Hun|id r r' Hr Hst
    |id r src s now Hr Hp Hc Hs Hps|id r src s o ext e dt now Hr Hp Hc Hs Hps].
  - done.
  - apply prepare_inv; [done..|congruence].
  - apply step_is_spec in Hss as [Hss Hks]. apply prepare_inv; [done..|]. intros _. exists src. split.
    + split; [done|]. exists s. simpl. by rewrite Hss.
    + intros id2 r2 H2 K2 C2. destruct (inv_pair t I id2 r2 H2 K2) as (src2 & C2' & s2 & Hs2 & _ & Hop2 & _).
      assert (src2 = src) as -> by congruence. assert (s2 = s) as -> by congruence.
      by apply (Hun id2 r2 H2); congruence.
  - by eapply row_inv.
  - apply step_is_spec in Hp as [Hp Kp], Hps as [Hps Ks].
    eapply (pair_inv t id r src s); try done. congruence.
  - apply step_is_spec in Hp as [Hp Kp].
    destruct (inv_pair t I id r Hr Kp) as (src' & C' & s0 & Hs0 & Ks & _ & _).
    assert (src' = src) as -> by congruence. assert (src ≠ id) by congruence.
    rewrite lookup_insert_ne in Hs by done. eapply (pair_inv t id r src s); try done; by destruct o.
Qed.

Lemma empty_inv : steps_inv ∅.
Proof. constructor; intros *; rewrite ?lookup_empty; done. Qed.

Lemma journal_inv sha256 calls :
  steps_inv (run_events (journal_step sha256) empty_db calls).(operation_steps).
Proof.
  apply (run_invariant (journal_step sha256) (λ d, steps_inv d.(operation_steps))); [apply empty_inv|].
  intros d c I. eapply table_step_inv; [done|apply journal_refines].
Qed.

(** ** Who moves a waiting step *)

Section Waiting.
Context (sha256 : jstr → jstr) (id : jstr) (r : OperationStepRow).

(** A primary step that is prepared, or of unknown outcome. *)
Definition waiting : bool := step_is StepPrepared primary r || step_is StepOutcomeUnknown primary r.
Hypothesis waits : waiting = true.

Definition still_there (d : db) : Prop := d.(operation_steps) !! id = Some r.

Lemma still_update id2 p f : p r = false → Preserves still_there (update_step id2 p f).
Proof.
  intros Hp d b d' H Hd. apply update_step_ok in H as [[_ E]|(_ & r2 & Hr & Hp2 & E)]; unfold still_there; rewrite E; [done|].
  rewrite lookup_insert_ne; [done|]. unfold still_there in Hd. congruence.
Qed.
Lemma not_waiting s k : (s, k) ≠ (StepPrepared, primary) → (s, k) ≠ (StepOutcomeUnknown, primary) → step_is s k r = false.
Proof.
  intros H1 H2. apply not_true_iff_false. intros [Hs Hk]%step_is_spec. unfold waiting in waits.
  apply orb_true_iff in waits as [[Hs2 Hk2]%step_is_spec|[Hs2 Hk2]%step_is_spec]; congruence.
Qed.
Lemma not_in_status s : s ≠ StepPrepared → s ≠ StepOutcomeUnknown → bool_decide (r.(step_status) = s) = false.
Proof.
  intros H1 H2. apply bool_decide_eq_false. intros Hs. unfold waiting in waits.
  apply orb_true_iff in waits as [[Hs2 _]%step_is_spec|[Hs2 _]%step_is_spec]; congruence.
Qed.
#[local] Hint Extern 1 (Preserves still_there (update_step _ _ _)) =>
  (apply still_update; unfold undispatched; rewrite ?not_waiting, ?not_in_status by done; by rewrite ?andb_false_r)
  : typeclass_instances.
#[local] Instance still_insert id2 x : Preserves still_there (insert_step id2 x).
Proof.
  intros d b d' (Hn & _ & _ & _ & E)%insert_step_ok Hd. unfold still_there in *. rewrite E, lookup_insert_ne; congruence.
Qed.
#[local] Instance still_elsewhere {A} (m : M A) : Keeps operation_steps m → Preserves still_there m | 10.
Proof. intros K d a d' H. unfold still_there. by rewrite (K _ _ _ H). Qed.
#[local] Instance still_record id2 sid v au now : Preserves still_there (recordOperationReconciliation id2 sid v au now).
Proof.
  intros d1 a1 d' H Hd. unfold recordOperationReconciliation in H. minv. destruct (update_row _ _ _ _) as [t c]. by minv.
Qed.

Lemma really_true v : match v with VBool true => true | _ => false end = true → v = VBool true.
Proof. destruct v as [| |[]| | | | | | |]; done. Qed.

(** A step of unknown outcome leaves it with authoritative evidence of its own only: the
    one recorded for it on its operation, or the one a restart has bound to it. *)
Definition reconciled_by (c : journal_op) (d : db) (s : StepStatus) : Prop :=
  (∃ ok x op o v, c = OpSettleReconciled id ok x op ∧ in_scope op r = true ∧
     d.(operation_runs) !! r.(identity).(operation_id) = Some o ∧ o.(reconciliation_json) = Some v ∧
     string_of (prop (u "stepId") v) = Some id ∧ prop (u "authoritative") v = VBool true ∧
     s = if ok then StepSucceeded else StepDefinitiveFailed) ∨
  (∃ v o, c = OpSettleStartup r.(identity).(operation_id) id v ∧
     d.(operation_runs) !! r.(identity).(operation_id) = Some o ∧ o.(run_status) = RunOutcomeUnknown ∧
     hasValidPersistedOperationHash sha256 r.(identity).(operation_id) o = Ok true ∧
     plan_binds (run_mutationPlan o) r.(identity) v = true ∧ prop (u "authoritative") v = VBool true ∧
     evidence_binds r.(identity).(operation_id) id o.(binding) r.(identity) v = true ∧ s = StepSucceeded).
(** A prepared primary step leaves it for executing, while its operation is executing. *)
Definition started_by (c : journal_op) (d : db) (s : StepStatus) : Prop :=
  ∃ op o, c = OpExecuteStep id op ∧ in_scope op r = true ∧
    d.(operation_runs) !! r.(identity).(operation_id) = Some o ∧ o.(run_status) = RunExecuting ∧ s = StepExecuting.

Lemma moved_execute id2 op now d b d' :
  markOperationStepExecuting id2 op now d = Ok (b, d') → still_there d →
  still_there d' ∨ ∃ r', d'.(operation_steps) !! id = Some r' ∧ r.(step_status) = StepPrepared ∧
    started_by (OpExecuteStep id2 op) d r'.(step_status).
Proof.
  unfold markOperationStepExecuting. intros H Hd. minv.
  apply update_step_ok in H as [[_ E]|(_ & r2 & Hr & Hp & E)]; [left; unfold still_there; by rewrite E|].
  destruct (decide (id2 = id)) as [->|Hne]; [right|left; unfold still_there; by rewrite E, lookup_insert_ne].
  unfold still_there in Hd. assert (r2 = r) as -> by congruence. eexists. rewrite E, lookup_insert_eq. split; [done|].
  rewrite !andb_true_iff in Hp. destruct Hp as [[Hi [Hs _]%step_is_spec] Ho]. split; [done|].
  unfold operation_executing in Ho. destruct (operation_runs _ !! _) as [o|] eqn:Er; [|done].
  apply bool_decide_eq_true in Ho. by exists op, o.
Qed.
Lemma moved_reconciled id2 ok x op now d b d' :
  settleReconciledStep id2 ok x op now d = Ok (b, d') → still_there d →
  still_there d' ∨ ∃ r', d'.(operation_steps) !! id = Some r' ∧ r.(step_status) = StepOutcomeUnknown ∧
    reconciled_by (OpSettleReconciled id2 ok x op) d r'.(step_status).
Proof.
  unfold settleReconciledStep. intros H Hd. minv.
  match goal with H : update_step _ _ _ _ = _ |- _ =>
    apply update_step_ok in H as [[? _]|(_ & r2 & Hr & Hp & E)]; [done|] end.
  destruct (decide (id2 = id)) as [->|Hne]; [right|left; unfold still_there; by rewrite E, lookup_insert_ne].
  unfold still_there in Hd. simplify_eq. apply step_is_spec in Hp as [Hp _]. eexists. rewrite E, lookup_insert_eq.
  split; [done|]. split; [done|left].
  match goal with H : _ && _ = true |- _ => apply andb_true_iff in H as [[Hop _]%andb_true_iff Ha] end.
  unfold authoritative_for in Ha. destruct (reconciliation_json _) as [v|] eqn:Ev; [|done].
  apply andb_true_iff in Ha as [Ht%bool_decide_eq_true Ha]. do 4 eexists. exists v. split; [done|]. split; [done|].
  split; [done|]. split; [done|]. split; [done|]. split; [|done].
  by apply really_true.
Qed.
Lemma moved_startup id2 sid v now uuid d b d' :
  settleStartupReconciliation sha256 id2 sid v now uuid d = Ok (b, d') → still_there d →
  still_there d' ∨ ∃ r', d'.(operation_steps) !! id = Some r' ∧ r.(step_status) = StepOutcomeUnknown ∧
    reconciled_by (OpSettleStartup id2 sid v) d r'.(step_status).
Proof.
  intros H Hd. pose proof (startup_ok _ _ _ _ _ _ _ _ _ H)
    as (o & step & Ho & Hst & Hh & Hun & Hp & He & _ & _ & (step' & Hs' & Est' & _) & _).
  destruct (decide (sid = id)) as [->|Hne].
  - right. unfold unknown_step in Hun. unfold still_there in Hd. rewrite Hd in Hun. destruct (_ && _) eqn:Hu; [|done].
    injection Hun as <-. apply andb_true_iff in Hu as [<-%bool_decide_eq_true [Hs _]%step_is_spec].
    exists step'. split; [done|]. split; [done|right]. exists v, o. split_and!; try done.
    unfold evidence_binds in He. rewrite !andb_true_iff in He. destruct He as [[[[[[[[[_ He] _] _] _] _] _] _] _] _].
    by apply really_true.
  - left. unfold settleStartupReconciliation in H. minv. unfold still_there.
    rewrite (keeps_update_run operation_steps _ _ _ _ _ _ Hm10). simpl.
    rewrite (keeps_waiting operation_steps _ _ _ _ _ _ _ _ Hm6), (keeps_write_reconciled operation_steps _ _ _ _ _ _ _ _ _ _ Hm5).
    apply update_step_ok in Hm1 as [[? _]|(_ & r2 & _ & _ & ->)]; [done|]. by rewrite lookup_insert_ne.
Qed.

Lemma waiting_moves c now uuid d :
  still_there d → let d' := journal_step sha256 d (c, now, uuid) in
  still_there d' ∨ ∃ r', d'.(operation_steps) !! id = Some r' ∧
    (r.(step_status) = StepPrepared ∧ started_by c d r'.(step_status) ∨
     r.(step_status) = StepOutcomeUnknown ∧ reconciled_by c d r'.(step_status)).
Proof.
  intros Hd. cbv zeta. unfold journal_step. cbn [fst snd].
  destruct (journal_run sha256 c now uuid d) as [[[] d']|] eqn:H; [|by left].
  assert (Preserves still_there (journal_run sha256 c now uuid) → still_there d') as Keep by (intros P; by eapply P).
  destruct c; cbn [journal_run] in H, Keep;
    try (left; apply Keep; unfold prepareOperationRun, markOperationExecuting, settleOperationRun, settleOperationResult,
      recordActionResult, prepareOperationStep, markOperationStepDispatched, cancelOperationStepBeforeDispatch,
      settleOperationStep, settleOperationStepDegraded, prepareCompensationStep, markOperationStepCompensating,
      settleCompensationStep, settleCompensationStepDegraded, settle_compensation_rows; solve_preserves; fail).
  - apply mthen_ok in H as (b & d1 & H & [= <-]). destruct (moved_execute _ _ _ _ _ _ H Hd) as [|(r' & ? & ? & ?)]; eauto 6.
  - destruct (moved_reconciled _ _ _ _ _ _ _ _ H Hd) as [|(r' & ? & ? & ?)]; eauto 6.
  - apply mthen_ok in H as (b & d1 & H & [= <-]). destruct (moved_startup _ _ _ _ _ _ _ _ H Hd) as [|(r' & ? & ? & ?)]; eauto 6.
Qed.
End Waiting.

(** One call and one primary step. *)
Lemma moved_primary sha256 id r c now uuid d :
  d.(operation_steps) !! id = Some r → r.(identity).(step_kind) = primary →
  ∃ r', (journal_step sha256 d (c, now, uuid)).(operation_steps) !! id = Some r' ∧
    (r.(step_status) = StepPrepared → r' = r ∨ started_by id r c d r'.(step_status)) ∧
    (r.(step_status) = StepOutcomeUnknown → r' = r ∨ reconciled_by sha256 id r c d r'.(step_status)).
Proof.
  intros Hr Hk. destruct (waiting r) eqn:Hw.
  - destruct (waiting_moves sha256 id r Hw c now uuid d Hr) as [Hs|(r' & Hr' & Hm)];
      [exists r; split_and!; auto|]. exists r'. split; [done|].
    destruct Hm as [[E Hm]|[E Hm]]; split; intros E2; [by right|congruence|congruence|by right].
  - destruct (life_old _ _ (table_step_life _ _ (journal_refines sha256 d (c, now, uuid))) id r Hr) as (r' & Hr' & _).
    exists r'. split; [done|]. unfold waiting, step_is in Hw. rewrite Hk in Hw.
    split; intros E; rewrite E in Hw; done.
Qed.

(** ** Theorems *)

(** C4: the life of a step.  Every call of the journal moves the step table by one step
    of the abstract machine.  So over any run of calls a row never disappears or changes
    identity, its status only follows the edges of its kind (a final status is never
    left), [dispatched_at] is written at most once and never after the step is settled,
    and a new row starts prepared and undispatched.  A step cancelled before dispatch
    stays failed and is never dispatched.  A prepared primary step is moved by no call but
    the one that starts it, while its operation is executing.  A primary step of unknown
    outcome is moved by no call but a reconciliation with authoritative evidence that names
    this step: the one recorded on its operation, or the one a restart has bound to it. *)
Theorem step_life sha256 d calls :
  let d' := run_events (journal_step sha256) d calls in
  (∀ c, table_step d.(operation_steps) (journal_step sha256 d c).(operation_steps)) ∧
  (∀ id r, d.(operation_steps) !! id = Some r →
     ∃ r', d'.(operation_steps) !! id = Some r' ∧ r'.(identity) = r.(identity) ∧
       rtc (edge r.(identity).(step_kind)) r.(step_status) r'.(step_status) ∧
       (final_status r.(identity).(step_kind) r.(step_status) = true →
          r'.(step_status) = r.(step_status)) ∧
       (∀ t, r.(dispatched_at) = Some t → r'.(dispatched_at) = Some t) ∧
       (open_step r.(step_status) = false → r'.(dispatched_at) = r.(dispatched_at))) ∧
  (∀ id r', d.(operation_steps) !! id = None → d'.(operation_steps) !! id = Some r' →
     rtc (edge r'.(identity).(step_kind)) StepPrepared r'.(step_status)) ∧
  (∀ id detail op now d1, cancelOperationStepBeforeDispatch id detail op now d = Ok (true, d1) →
     ∃ r', (run_events (journal_step sha256) d1 calls).(operation_steps) !! id = Some r' ∧
       r'.(step_status) = StepDefinitiveFailed ∧ r'.(dispatched_at) = None) ∧
  (∀ id r c now uuid, d'.(operation_steps) !! id = Some r → r.(identity).(step_kind) = primary →
     let d2 := journal_step sha256 d' (c, now, uuid) in
     ∃ r', d2.(operation_steps) !! id = Some r' ∧
       (r.(step_status) = StepPrepared → r' = r ∨ started_by id r c d' r'.(step_status)) ∧
       (r.(step_status) = StepOutcomeUnknown → r' = r ∨ reconciled_by sha256 id r c d' r'.(step_status))).
Proof.
  cbv zeta. split; [intros c; apply journal_refines|].
  pose proof (journal_life sha256 d calls) as [Hold Hnew]. split; [|split; [|split]].
  - intros id r Hr. destruct (Hold id r Hr) as (r' & Hr' & [Hi Hs Hd Hf]). exists r'.
    split_and!; try done. intros Hfin. by eapply final_stuck.
  - intros id r' Hn Hr'. destruct (Hnew id r' Hn Hr') as (x & dt & now & [Hi Hs _ _]).
    rewrite Hi. exact Hs.
  - intros id detail op now d1 H. unfold cancelOperationStepBeforeDispatch in H. minv.
    apply update_step_ok in H as [[? _]|(_ & r & Hr & [Hst Hd]%undispatched_spec & E)]; [done|].
    destruct (life_old _ _ (journal_life sha256 d1 calls) id _ ltac:(by rewrite E, lookup_insert_eq))
      as (r' & Hr' & [_ Hs _ Hf]).
    exists r'. split_and!; [done| |by rewrite Hf].
    eapply final_stuck; [|exact Hs]. simpl. by destruct (step_kind _).
  - intros id r c now uuid Hr Hk. by apply moved_primary.
Qed.

Definition sample_run : OperationRunRow :=
  {| binding :=
       {| request_id := None; confirmation_id := None; session_id := u "s"; workspace_id := u "w";
          admin_user_id := u "a"; action_name := u "create_tag"; action_fingerprint := u "f";
          catalog_hash := u "c"; operation_hash := u "h"; capability_id := None;
          capability_hash := None; discriminator := v1DiscriminatorFromCapability None;
          run_created_at := 0 |};
     run_status := RunExecuting; run_result_id := None; operation_json := VObj []; reconciled_at := None;
     reconciliation_json := None; run_batch_id := None; run_updated_at := 0 |}.
Definition sample_db : db := set_runs {[ u "op" := sample_run ]} empty_db.
Definition sample_step : PrepareOperationStepInput :=
  {| step_in_id := Some (u "st"); step_in_operationId := u "op"; step_in_planStepId := u "p0";
     step_in_index := 0; step_in_name := u "create"; step_in_kind := primary;
     step_in_targetFingerprint := None; step_in_preparedDetail := VUndef;
     step_in_compensatesStepId := None |}.

(** A run of the journal: prepared, executed, dispatched once, settled, and not again. *)
Example sample_life :
  step_status <$> (run_events (journal_step (λ s, s)) sample_db
    [(OpPrepareStep sample_step, 1, []); (OpExecuteStep (u "st") None, 2, []);
     (OpDispatchStep (u "st") None, 3, []); (OpDispatchStep (u "st") None, 4, []);
     (OpCancelStep (u "st") VNull None, 5, []);
     (OpSettleStep (u "st") did_succeed {| detail_externalId := None; detail_effect := VUndef;
        detail_detail := VUndef |} (Some (u "op")), 6, []);
     (OpSettleStep (u "st") did_fail {| detail_externalId := None; detail_effect := VUndef;
        detail_detail := VUndef |} None, 7, [])]).(operation_steps) !! u "st" = Some StepSucceeded.
Proof. vm_compute. reflexivity. Qed.

Lemma settle_rows_total d id r src s o ext effect detail now :
  d.(operation_steps) !! id = Some r → step_is StepExecuting compensation r = true →
  d.(operation_steps) !! src = Some s → s.(step_status) = StepCompensating → src ≠ id →
  ∃ d', settle_compensation_rows id src o ext effect detail now d = Ok (tt, d') ∧
    step_status <$> d'.(operation_steps) !! id = Some (compensation_status o) ∧
    step_status <$> d'.(operation_steps) !! src = Some (source_status o).
Proof.
  intros Hr Hp Hs Hst Hne. eexists. split.
  - unfold settle_compensation_rows, mthen. rewrite (update_step_some _ _ _ _ _ Hr Hp).
    erewrite (update_step_some src); [reflexivity| |by apply bool_decide_eq_true]. simpl.
    by rewrite lookup_insert_ne.
  - simpl. rewrite lookup_insert_eq, lookup_insert_ne, lookup_insert_eq by done. done.
Qed.

Lemma start_rows_total d id r src s op now :
  d.(operation_steps) !! id = Some r → in_scope op r = true →
  step_is StepPrepared compensation r = true → column r.(identity).(compensates_step_id) = Some src →
  d.(operation_steps) !! src = Some s → step_is StepSucceeded primary s = true → src ≠ id →
  ∃ d', markOperationStepCompensating id op now d = Ok (true, d') ∧
    step_status <$> d'.(operation_steps) !! id = Some StepExecuting ∧
    step_status <$> d'.(operation_steps) !! src = Some StepCompensating.
Proof.
  intros Hr Ho Hp Hc Hs Hps Hne. eexists. split.
  - unfold markOperationStepCompensating, mthen, getdb. rewrite Hr, Ho, Hp. simpl. rewrite Hc.
    rewrite (update_step_some _ _ _ _ _ Hr Hp).
    erewrite (update_step_some src); [reflexivity| |exact Hps]. simpl. by rewrite lookup_insert_ne.
  - simpl. rewrite lookup_insert_eq, lookup_insert_ne, lookup_insert_eq by done. done.
Qed.

(** The evidence that allows a compensation of [source]. *)
Definition compensation_evidence (d : db) (source_id : jstr) (s : OperationStepRow) (o : OperationRunRow)
    (ds : list PersistedPlanDescriptor) : Prop :=
  o.(run_status) = RunDefinitiveFailed ∨
  authoritative_for source_id o.(reconciliation_json) = true ∨
  (o.(run_status) = RunExecuting ∧ ∃ id r,
     d.(operation_steps) !! id = Some r ∧
     r.(identity).(operation_id) = s.(identity).(operation_id) ∧
     s.(identity).(step_index) < r.(identity).(step_index) ∧
     r.(step_status) = StepDefinitiveFailed ∧ matchesPersistedDescriptor ds r.(identity) primary = true).

Lemma eligible_evidence d i s o :
  compensation_eligible d i s o = true →
  ∃ ds, persistedPlanDescriptors o.(operation_json) = Some ds ∧
    matchesPersistedDescriptor ds s.(identity) primary = true ∧ compensation_bound ds i = true ∧
    s.(step_status) = StepSucceeded ∧
    compensation_evidence d i.(comp_in_compensatesStepId) s o ds.
Proof.
  unfold compensation_eligible, compensation_evidence, has_run_status.
  destruct (persistedPlanDescriptors _) as [ds|]; [|done].
  rewrite !andb_true_iff, !orb_true_iff, !bool_decide_eq_true. intros ((((Hm & Hb) & _) & Hs) & He).
  exists ds. split_and!; try done. destruct He as [[He|He]|He].
  - by left.
  - right; left. destruct (reconciliation_json o); [|done]. by apply andb_true_iff in He as [_ He].
  - right; right. apply andb_true_iff in He as [Ho%bool_decide_eq_true (id & r & Hr & Hl)%some_step_true].
    split; [done|]. exists id, r. unfold later_failure in Hl.
    rewrite !andb_true_iff, !bool_decide_eq_true, Z.ltb_lt in Hl. naive_solver.
Qed.

(** C30: compensations.  In every reachable state each compensation has one source, a
    primary step of its operation, and no source has two compensations.  The source is
    succeeded while its compensation is prepared, and again when it failed or is of unknown
    outcome; compensating while it is executing, and also when it was cancelled before its
    dispatch; compensated when it is.  Conversely a compensating or compensated primary step
    has a compensation, in the paired status.  Starting a prepared compensation and settling
    an executing one therefore always find their source in the status they need and move both
    rows.  A compensation is prepared only for a step of the persisted plan that is known to
    have succeeded, with evidence that the rest of the operation failed. *)
Theorem compensation_paired sha256 calls :
  let d := run_events (journal_step sha256) empty_db calls in
  (∀ id r, d.(operation_steps) !! id = Some r → r.(identity).(step_kind) = compensation →
     ∃ src s, r.(identity).(compensates_step_id) = Some src ∧
       d.(operation_steps) !! src = Some s ∧ s.(identity).(step_kind) = primary ∧
       s.(identity).(operation_id) = r.(identity).(operation_id) ∧
       paired r.(step_status) = Some s.(step_status) ∧
       ∀ id2 r2, d.(operation_steps) !! id2 = Some r2 → r2.(identity).(step_kind) = compensation →
         r2.(identity).(compensates_step_id) = Some src → id2 = id) ∧
  (∀ id s, d.(operation_steps) !! id = Some s → s.(identity).(step_kind) = primary →
     s.(step_status) = StepCompensating ∨ s.(step_status) = StepCompensated →
     ∃ cid r, d.(operation_steps) !! cid = Some r ∧ r.(identity).(step_kind) = compensation ∧
       r.(identity).(compensates_step_id) = Some id ∧ paired r.(step_status) = Some s.(step_status)) ∧
  (∀ id r src op now, d.(operation_steps) !! id = Some r → in_scope op r = true →
     step_is StepPrepared compensation r = true → column r.(identity).(compensates_step_id) = Some src →
     ∃ d', markOperationStepCompensating id op now d = Ok (true, d') ∧
       step_status <$> d'.(operation_steps) !! id = Some StepExecuting ∧
       step_status <$> d'.(operation_steps) !! src = Some StepCompensating) ∧
  (∀ id src op o ext effect detail now, compensation_source d id op = Some src →
     ∃ d', settle_compensation_rows id src o ext effect detail now d = Ok (tt, d') ∧
       step_status <$> d'.(operation_steps) !! id = Some (compensation_status o) ∧
       step_status <$> d'.(operation_steps) !! src = Some (source_status o)) ∧
  (∀ i now uuid id d', prepareCompensationStep i now uuid d = Ok (id, d') →
     ∃ s o ds, d.(operation_steps) !! i.(comp_in_compensatesStepId) = Some s ∧
       s.(step_status) = StepSucceeded ∧
       d.(operation_runs) !! i.(comp_in_operationId) = Some o ∧
       persistedPlanDescriptors o.(operation_json) = Some ds ∧
       matchesPersistedDescriptor ds s.(identity) primary = true ∧ compensation_bound ds i = true ∧
       compensation_evidence d i.(comp_in_compensatesStepId) s o ds).
Proof.
  cbv zeta. pose proof (journal_inv sha256 calls) as I.
  set (d := run_events (journal_step sha256) empty_db calls) in *. split_and!.
  - intros id r Hr K. destruct (inv_pair _ I id r Hr K) as (src & Hc & s & Hs & Ks & Hop & Hp).
    exists src, s. split_and!; try done. intros id2 r2 H2 K2 C2. by eapply (inv_unique _ I id2 r2 id r).
  - intros id s Hs Ks Hst. destruct (inv_compensating _ I id s Hs Hst Ks) as (cid & r & Hr & K & Hc).
    exists cid, r. split_and!; [done..|]. destruct (inv_pair _ I cid r Hr K) as (src & Hc2 & s2 & Hs2 & _ & _ & Hp).
    congruence.
  - intros id r src op now Hr Ho Hp Hc. pose proof (proj1 (step_is_spec _ _ _) Hp) as [Hst K].
    destruct (inv_pair _ I id r Hr K) as (src' & Hc' & s & Hs & Ks & Hop & Hpair).
    assert (src' = src) as -> by (apply column_some in Hc; congruence).
    apply (start_rows_total d id r src s); try done; [|congruence].
    apply step_is_spec. split; [|done]. rewrite Hst in Hpair. simpl in Hpair. congruence.
  - intros id src op o ext effect detail now Hc. unfold compensation_source in Hc.
    destruct (_ !! id) as [r|] eqn:Hr; [|done]. destruct (in_scope _ _ && _) eqn:Hp; [|done].
    apply andb_true_iff in Hp as [_ Hp]. pose proof (proj1 (step_is_spec _ _ _) Hp) as [Hst K].
    destruct (inv_pair _ I id r Hr K) as (src' & Hc' & s & Hs & Ks & Hop & Hpair).
    assert (src' = src) as -> by (apply column_some in Hc; congruence).
    eapply settle_rows_total; try done; [|congruence]. rewrite Hst in Hpair. simpl in Hpair. congruence.
  - intros i now uuid id d' H. unfold prepareCompensationStep in H. minv.
    destruct (_ !! comp_in_compensatesStepId i) as [s|] eqn:Hs; [|done].
    rewrite !andb_true_iff, !bool_decide_eq_true in Heqb. destruct Heqb as [[Hop Hk] He].
    destruct (_ !! operation_id _) as [o|] eqn:Ho; [|done]. rewrite Hop in Ho.
    destruct (eligible_evidence _ _ _ _ He) as (ds & ? & ? & ? & ? & ?). by exists s, o, ds.
Qed.

(** A plan of two creations with the removal of the first; the second creation failed. *)
Definition pair_plan : jsval :=
  let st id kind := VObj [(u "id", VStr (u id)); (u "kind", VStr (u kind))] in
  VObj [(u "mode", VStr (u "curated")); (u "maxHostCalls", num 3);
        (u "steps", VArr [st "p0" "primary"; st "p1" "primary"; st "c0" "compensation"])]%string.
Definition pair_run : PrepareOperationRunInput :=
  {| run_in_id := Some (u "op"); run_in_requestId := None; run_in_confirmationId := None; run_in_sessionId := u "s";
     run_in_workspaceId := u "w"; run_in_adminUserId := u "a"; run_in_actionName := u "create_tag";
     run_in_actionFingerprint := u "f"; run_in_catalogHash := u "c"; run_in_operationHash := u "h";
     run_in_operation := VUndef; run_in_mutationPlan := pair_plan; run_in_capabilityId := None;
     run_in_capabilityHash := None; run_in_discriminator := None |}.
Definition pair_step (id plan : string) (i : Z) : PrepareOperationStepInput :=
  {| step_in_id := Some (u id); step_in_operationId := u "op"; step_in_planStepId := u plan;
     step_in_index := i; step_in_name := u "create"; step_in_kind := primary;
     step_in_targetFingerprint := None; step_in_preparedDetail := VUndef; step_in_compensatesStepId := None |}.
Definition pair_compensation : PrepareCompensationStepInput :=
  {| comp_in_id := Some (u "undo"); comp_in_operationId := u "op"; comp_in_planStepId := u "c0"; comp_in_index := 2;
     comp_in_name := u "remove"; comp_in_targetFingerprint := None; comp_in_compensatesStepId := u "st0" |}.
Definition no_step_detail : StepDetail :=
  {| detail_externalId := None; detail_effect := VUndef; detail_detail := VUndef |}.
Definition pair_calls : list (journal_op * Z * jstr) :=
  [(OpPrepareRun pair_run, 1, []); (OpExecuteRun (u "op"), 2, []);
   (OpPrepareStep (pair_step "st0" "p0" 0), 3, []); (OpExecuteStep (u "st0") None, 4, []);
   (OpSettleStep (u "st0") did_succeed no_step_detail None, 5, []);
   (OpPrepareStep (pair_step "st1" "p1" 1), 6, []); (OpExecuteStep (u "st1") None, 7, []);
   (OpSettleStep (u "st1") did_fail no_step_detail None, 8, []);
   (OpPrepareCompensation pair_compensation, 9, []); (OpStartCompensation (u "undo") None, 10, [])].
#[local] Notation pair_db := (run_events (journal_step demo_hash) empty_db pair_calls).

Lemma pair_source : (λ s, (s.(identity).(step_kind), s.(step_status))) <$> pair_db.(operation_steps) !! u "st0" =
  Some (primary, StepCompensating).
Proof. vm_compute. reflexivity. Qed.

Lemma compensation_paired_witness :
  (step_status <$> pair_db.(operation_steps) !! u "undo") = Some StepExecuting ∧
  ∃ cid r, pair_db.(operation_steps) !! cid = Some r ∧ r.(identity).(step_kind) = compensation ∧
    r.(identity).(compensates_step_id) = Some (u "st0") ∧ paired r.(step_status) = Some StepCompensating.
Proof.
  split; [vm_compute; reflexivity|].
  destruct (proj1 (fmap_Some _ _ _) pair_source) as (s & E & Es). 
  pose proof (f_equal fst Es : primary = s.(identity).(step_kind)) as Hk.
  pose proof (f_equal snd Es : StepCompensating = s.(step_status)) as Hs. clear Es.
  pose proof (compensation_paired demo_hash pair_calls) as H. cbv zeta in H.
  destruct H as (_ & H & _).
  destruct (H _ _ E (eq_sym Hk) (or_introl (eq_sym Hs))) as (cid & r & H1 & H2 & H3 & H4). rewrite <-Hs in H4.
  exact (ex_intro _ cid (ex_intro _ r (conj H1 (conj H2 (conj H3 H4))))).
Defined.
