(* ===== verification/ConfirmStore.v ===== *)
(** * The confirmation store

    [db/store/confirmations.ts]: persisting a preview, its atomic one-use transitions,
    and the binding of its result to the operation and the idempotency ledger.  [blob]
    is the random id a trigger gives to the result it writes. *)
From S2P Require Import Prelude Js SafeJson ActionResults Confirmations Db Discriminators Plan Journal Store.
Open Scope Z_scope.
#[local] Arguments u : simpl never.

(** ** Rows and records *)

(** [JSON.stringify] into a column that may not be NULL. *)
Definition json_column (v : jsval) : result jsval :=
  match json_value v with Some x => Ok x | None => Throw constraint_failed end.

Definition stored_discriminator (r : PendingConfirmationRecord) : Discriminator :=
  let x := r.(discriminators) in
  let y := if truthy x.(origin) then x else v1DiscriminatorFromCapability r.(capabilityId) in
  {| origin := y.(origin); registry_id := y.(registry_id); authority_model := y.(authority_model);
     executor_kind := y.(executor_kind); run_id := x.(run_id); field_provenance_json := None;
     field_provenance_hash := None; source_undo_id := None; source_undo_hash := None |}.

Definition preview_binding (r : PendingConfirmationRecord) : PreviewBinding :=
  {| preview_operation_id := r.(operationId); preview_session_id := r.(sessionId);
     preview_workspace_id := r.(workspaceId); preview_admin_user_id := r.(adminUserId);
     installation_generation := r.(installationGeneration);
     preview_operation_hash := r.(operationHash);
     preview_action_fingerprint := r.(actionFingerprint); preview_catalog_hash := r.(catalogHash);
     preview_capability_id := r.(capabilityId); preview_capability_hash := r.(capabilityHash);
     preview_discriminator := stored_discriminator r; expires_at := r.(expiresAt);
     created_at := r.(createdAt) |}.

Definition insert_confirmation (pid : jstr) (r : PendingRow) : M unit := λ d,
  match d.(pending_confirmations) !! pid with
  | Some _ => Throw constraint_failed
  | None =>
      if negb (confirmation_matrix r.(preview).(preview_discriminator))
      then Throw "discriminator_matrix_invalid"
      else if negb (payload_guard r)
      then Throw (if bool_decide (r.(status) = PExpired) then "expired_confirmation_not_scrubbed"
                  else "terminal_confirmation_not_scrubbed")
      else Ok (tt, set_confirmations (<[pid := r]> d.(pending_confirmations)) d)
  end.

Section Saving.
Context (sha256 : jstr → jstr).

Definition savePendingConfirmation (r : PendingConfirmationRecord) : M unit :=
  do! _ := (if is_in r.(discriminators).(authority_model) ["preview_confirmation_v2"] &&
               is_in r.(discriminators).(registry_id) ["v2-api"]
            then do! h := lift (confirmationOperationBindingHash sha256 r) in
                 require! bool_decide (h = r.(operationHash))
                   else "v2_confirmation_operation_hash_mismatch" in mreturn tt
            else mreturn tt) in
  let executable := bool_decide (r.(Confirmations.status) = PPending) in
  let scrubPreview := bool_decide (r.(Confirmations.status) = PCancelled) ||
                      bool_decide (r.(Confirmations.status) = PExpired) in
  do! risk := lift (json_column (if scrubPreview then VArr [] else r.(risk))) in
  do! shown := lift (json_column (if scrubPreview then VObj [] else r.(Confirmations.preview))) in
  insert_confirmation r.(Confirmations.id)
    {| preview := preview_binding r; status := r.(Confirmations.status); risk_json := risk;
       preview_json := shown;
       preview_operation_json := if executable then json_value r.(operation) else None;
       target_fingerprints_json :=
         VArr (if scrubPreview then [] else VStr <$> r.(targetFingerprints));
       nonce_hash := if executable then r.(nonceHash) else [];
       used_at := r.(usedAt); result_summary_json := None;
       agent_state_json := if executable then s ← r.(agentState); json_value s else None;
       action_result_id := r.(actionResultId); idempotency_key := None; batch_id := r.(batchId) |}.
End Saving.

Definition strings_of (v : jsval) : list jstr :=
  match v with VArr l => omap string_of l | _ => [] end.

(** [pendingRowToRecord]: an absent operation reads as [{}]. *)
Definition pendingRowToRecord (pid : jstr) (r : PendingRow) : PendingConfirmationRecord :=
  let b := r.(preview) in
  let x := b.(preview_discriminator) in
  {| Confirmations.id := pid; operationId := b.(preview_operation_id);
     sessionId := b.(preview_session_id); workspaceId := b.(preview_workspace_id);
     adminUserId := b.(preview_admin_user_id); Confirmations.status := r.(status);
     risk := r.(risk_json); Confirmations.preview := r.(preview_json);
     operation := default (VObj []) r.(preview_operation_json);
     installationGeneration := b.(installation_generation);
     operationHash := b.(preview_operation_hash);
     targetFingerprints := strings_of r.(target_fingerprints_json);
     actionFingerprint := b.(preview_action_fingerprint); catalogHash := b.(preview_catalog_hash);
     capabilityId := column b.(preview_capability_id);
     capabilityHash := column b.(preview_capability_hash); nonceHash := r.(nonce_hash);
     expiresAt := b.(expires_at); createdAt := b.(created_at); usedAt := r.(used_at);
     agentState := r.(agent_state_json); actionResultId := r.(action_result_id);
     discriminators :=
       {| origin := column x.(origin); registry_id := column x.(registry_id);
          authority_model := column x.(authority_model); executor_kind := column x.(executor_kind);
          run_id := column x.(run_id); field_provenance_json := None; field_provenance_hash := None;
          source_undo_id := None; source_undo_hash := None |};
     batchId := column r.(batch_id) |}.

(** ** Transitions of one row *)

Definition is_pending (r : PendingRow) : bool := bool_decide (r.(status) = PPending).
Definition is_executing (r : PendingRow) : bool := bool_decide (r.(status) = PExecuting).

(** [cancelConfirmation], and every expiry: nothing executable or secret is kept. *)
Definition closed_preview (s : PendingStatus) (now : Z) (r : PendingRow) : PendingRow :=
  {| preview := r.(preview); status := s; risk_json := VArr []; preview_json := VObj [];
     preview_operation_json := None; target_fingerprints_json := VArr []; nonce_hash := [];
     used_at := Some now; result_summary_json := r.(result_summary_json); agent_state_json := None;
     action_result_id := r.(action_result_id); idempotency_key := None; batch_id := r.(batch_id) |}.

Definition claimed_preview (now : Z) (a : jstr) (summary : jsval) (r : PendingRow) : PendingRow :=
  {| preview := r.(preview); status := PExecuting; risk_json := r.(risk_json);
     preview_json := r.(preview_json); preview_operation_json := None;
     target_fingerprints_json := r.(target_fingerprints_json); nonce_hash := [];
     used_at := Some now; result_summary_json := Some summary; agent_state_json := None;
     action_result_id := Some a; idempotency_key := r.(idempotency_key); batch_id := r.(batch_id) |}.

Definition settled_preview (k : ActionResultKind) (a : jstr) (summary : jsval) (r : PendingRow) : PendingRow :=
  {| preview := r.(preview); status := pending_status_of k; risk_json := r.(risk_json);
     preview_json := r.(preview_json); preview_operation_json := None;
     target_fingerprints_json := r.(target_fingerprints_json); nonce_hash := [];
     used_at := r.(used_at); result_summary_json := Some summary; agent_state_json := None;
     action_result_id := Some a; idempotency_key := None; batch_id := r.(batch_id) |}.

Definition with_nonce (h : jstr) (r : PendingRow) : PendingRow :=
  {| preview := r.(preview); status := r.(status); risk_json := r.(risk_json);
     preview_json := r.(preview_json); preview_operation_json := r.(preview_operation_json);
     target_fingerprints_json := r.(target_fingerprints_json); nonce_hash := h;
     used_at := r.(used_at); result_summary_json := r.(result_summary_json);
     agent_state_json := r.(agent_state_json); action_result_id := r.(action_result_id);
     idempotency_key := r.(idempotency_key); batch_id := r.(batch_id) |}.
Definition with_key (k : option jstr) (r : PendingRow) : PendingRow :=
  {| preview := r.(preview); status := r.(status); risk_json := r.(risk_json);
     preview_json := r.(preview_json); preview_operation_json := r.(preview_operation_json);
     target_fingerprints_json := r.(target_fingerprints_json); nonce_hash := r.(nonce_hash);
     used_at := r.(used_at); result_summary_json := r.(result_summary_json);
     agent_state_json := r.(agent_state_json); action_result_id := r.(action_result_id);
     idempotency_key := k; batch_id := r.(batch_id) |}.

(** A due preview: past its expiry, or with an expiry that is no date. *)
Definition due (now : Z) (r : PendingRow) : bool :=
  match r.(preview).(expires_at) with None => true | Some e => e <=? now end.

Definition updateConfirmationNonceHash (pid h : jstr) : M bool :=
  update_confirmation pid [] is_pending (with_nonce h).
Definition cancelConfirmation (pid : jstr) (now : Z) (blob : jstr) : M bool :=
  update_confirmation pid blob is_pending (closed_preview PCancelled now).
Definition expireConfirmation (pid : jstr) (now : Z) (blob : jstr) : M bool :=
  update_confirmation pid blob (λ r, is_pending r && due now r) (closed_preview PExpired now).

(** A read first expires the row when it is due. *)
Definition getPendingConfirmation (pid : jstr) (now : Z) (blob : jstr)
    : M (option PendingConfirmationRecord) :=
  do! d := getdb in
  match d.(pending_confirmations) !! pid with
  | None => mreturn None
  | Some r =>
      if is_pending r && due now r
      then
        do! _ := update_confirmation pid blob is_pending (closed_preview PExpired now) in
        do! d := getdb in
        mreturn (pendingRowToRecord pid <$> d.(pending_confirmations) !! pid)
      else mreturn (Some (pendingRowToRecord pid r))
  end.

(** One UPDATE over several rows: the rows one after another. *)
Fixpoint for_each {A} (l : list A) (f : A → M unit) : M unit :=
  match l with
  | [] => mreturn tt
  | x :: l' => do! _ := f x in for_each l' f
  end.

Definition due_rows (sid : jstr) (now : Z) (d : db) : list (jstr * PendingRow) :=
  filter (λ kv, kv.2.(preview).(preview_session_id) = sid ∧ (is_pending kv.2 && due now kv.2) = true)
         (map_to_list d.(pending_confirmations)).

Definition expire_due (sid : jstr) (now : Z) (blob : jstr → jstr) : M unit :=
  do! d := getdb in
  for_each (due_rows sid now d) (λ kv,
    do! _ := update_confirmation kv.1 (blob kv.1) (λ r, is_pending r && due now r)
               (closed_preview PExpired now) in mreturn tt).

(** The live rows of a session, oldest first. *)
Definition live_rows (sid : jstr) (now : Z) (d : db) : list (jstr * PendingRow) :=
  filter (λ kv, kv.2.(preview).(preview_session_id) = sid ∧ (is_pending kv.2 && negb (due now kv.2)) = true)
         (map_to_list d.(pending_confirmations)).
Definition created_le (a b : jstr * PendingRow) : Prop :=
  a.2.(preview).(created_at) ≤ b.2.(preview).(created_at).
#[export] Instance created_le_dec a b : Decision (created_le a b).
Proof. unfold created_le. apply _. Defined.

Definition listPendingConfirmations (sid : jstr) (now : Z) (blob : jstr → jstr)
    : M (list PendingConfirmationRecord) :=
  do! _ := expire_due sid now blob in
  do! d := getdb in
  mreturn ((λ kv, pendingRowToRecord kv.1 kv.2) <$> merge_sort created_le (live_rows sid now d)).

Definition countPendingConfirmations (sid : jstr) (now : Z) (blob : jstr → jstr) : M Z :=
  do! _ := expire_due sid now blob in
  do! d := getdb in mreturn (Z.of_nat (length (live_rows sid now d))).

(** ** The claim *)

Definition dispatchUnknownResult (actionName : jstr) : jsval :=
  VObj [(u "kind", VStr (u "receipt"));
        (u "receipt", VObj
          [(u "ok", VBool false); (u "action", VStr actionName);
           (u "code", VStr (u "commit_outcome_unknown"));
           (u "message", VStr (u "This confirmation entered the dispatch window without a durable final receipt, so its outcome is unknown."));
           (u "recovery", VStr (u "Verify the result in Clockify before trying the action again."))])].

(** The name of the operation, else of the stored operation, else a placeholder. *)
Definition claim_action_name (d : db) (r : PendingRow) : jstr :=
  let of_run := match d.(operation_runs) !! r.(preview).(preview_operation_id) with
                | Some o => o.(binding).(action_name) | None => [] end in
  if bool_decide (of_run = []) then
    match prop (u "actionName") (default VUndef r.(preview_operation_json)) with
    | VStr (c :: s) => c :: s
    | _ => u "unknown_action"
    end
  else of_run.

Definition markConfirmationExecuting (pid : jstr) (now : Z) (uuid : jstr) : M bool :=
  do! d := getdb in
  match d.(pending_confirmations) !! pid with
  | Some r =>
      if is_pending r then
        let actionName := claim_action_name d r in
        let b := r.(preview) in
        do! summary := lift (buildActionResultSummary uuid (dispatchUnknownResult actionName)) in
        do! stored_summary := lift (actionResultJson summary) in
        do! changed := update_confirmation pid [] is_pending (claimed_preview now uuid stored_summary) in
        if changed then
          do! stored := lift (actionResultJson (dispatchUnknownResult actionName)) in
          do! _ := insert_result uuid (result_row (Some b.(preview_operation_id)) b.(preview_workspace_id)
            b.(preview_admin_user_id) (Some b.(preview_session_id)) actionName outcome_unknown
            stored stored_summary now) in
          do! claimed := update_run_status b.(preview_operation_id) (has_run_status RunPrepared)
            (with_run_status RunExecuting (Some uuid) now) in
          require! claimed else "operation_not_prepared" in mreturn true
        else mreturn false
      else mreturn false
  | None => mreturn false
  end.

(** ** The idempotency key of an executing confirmation *)

Definition key_of (key : jstr) (b : PreviewBinding) : idem_key :=
  (key, b.(preview_workspace_id), b.(preview_admin_user_id)).

(** An unfinished claim of the ledger. *)
Definition open_claim (k : idem_key) (d : db) : bool :=
  match d.(idempotency_keys) !! k with
  | Some r => bool_decide (r.(idem_result_id) = None)
  | None => false
  end.

Definition unkeyed (r : PendingRow) : bool := is_executing r && bool_decide (r.(idempotency_key) = None).

Definition bindConfirmationIdempotencyKey (pid key : jstr) : M unit :=
  do! d := getdb in
  match d.(pending_confirmations) !! pid with
  | Some r =>
      require! unkeyed r else "confirmation_not_executing" in
      require! open_claim (key_of key r.(preview)) d else "idempotency_claim_not_owned" in
      do! changed := update_confirmation pid [] unkeyed (with_key (Some key)) in
      require! changed else "confirmation_not_executing" in mreturn tt
  | None => mthrow "confirmation_not_executing"
  end.

(** [DELETE ... AND action_result_id IS NULL] *)
Definition drop_claim (k : idem_key) (d : db) : db :=
  if open_claim k d then set_idempotency (delete k d.(idempotency_keys)) d else d.

Definition releaseConfirmationIdempotencyKey (pid key : jstr) : M unit :=
  do! d := getdb in
  match d.(pending_confirmations) !! pid with
  | Some r =>
      if bool_decide (r.(idempotency_key) = Some key) then
        do! _ := putdb (drop_claim (key_of key r.(preview)) d) in
        do! _ := update_confirmation pid [] (λ r, bool_decide (r.(idempotency_key) = Some key))
                   (with_key None) in mreturn tt
      else mreturn tt
  | None => mreturn tt
  end.

(** ** Settlement *)

Definition canonical_result (value : jsval) : jsval :=
  if is_text (u "partial") (prop (u "kind") value) then value
  else VObj [(u "kind", VStr (u "receipt")); (u "receipt", value)].

Definition named_result (actionName : jstr) (k : ActionResultKind) (stored summary : jsval) (now : Z)
    (r : ActionResultRow) : ActionResultRow :=
  {| result_operation_id := r.(result_operation_id); result_workspace_id := r.(result_workspace_id);
     result_admin_user_id := r.(result_admin_user_id); result_session_id := r.(result_session_id);
     result_action_name := actionName; result_kind := k; result_json := stored;
     summary_json := summary; result_created_at := now |}.

Definition committed_claim (a : jstr) (summary : jsval) (now : Z) (r : IdempotencyRow) : IdempotencyRow :=
  {| idem_result_id := Some a; idem_summary := Some summary; committed_at := Some now; claimed_at := now |}.

(** The ledger follows the outcome: a definitive failure frees the key. *)
Definition settle_claim (k : ActionResultKind) (key : idem_key) (a : jstr) (summary : jsval) (now : Z)
    : M unit :=
  do! d := getdb in
  if bool_decide (k = definitive_failed) then putdb (drop_claim key d)
  else
    require! open_claim key d else "idempotency_claim_not_owned" in
    putdb (set_idempotency (alter (committed_claim a summary now) key d.(idempotency_keys)) d).

(** The result, the preview and the operation. *)
Definition settle_rows (pid : jstr) (k : ActionResultKind) (actionName a op : jstr)
    (stored summary : jsval) (now : Z) : M unit :=
  do! changed := update_result a (λ x, bool_decide (x.(result_operation_id) = Some op))
    (named_result actionName k stored summary now) in
  require! changed else "confirmation_result_not_found" in
  do! changed := update_confirmation pid [] is_executing (settled_preview k a summary) in
  require! changed else "confirmation_not_executing" in
  do! changed := update_run_status op
    (λ o, has_run_status RunExecuting o && bool_decide (o.(run_result_id) = Some a))
    (with_run_status (run_status_of k) (Some a) now) in
  require! changed else "operation_not_found" in mreturn tt.

Definition settleConfirmation (pid : jstr) (k : ActionResultKind) (actionName : jstr) (value : jsval)
    (now : Z) : M ActionResultRef :=
  do! d := getdb in
  match d.(pending_confirmations) !! pid with
  | Some r =>
      require! is_executing r else "confirmation_not_executing" in
      match column r.(action_result_id) with
      | None => mthrow "confirmation_result_not_found"
      | Some a =>
          let op := r.(preview).(preview_operation_id) in
          let canonical := canonical_result value in
          do! summary := lift (buildActionResultSummary a canonical) in
          do! stored := lift (actionResultJson canonical) in
          do! stored_summary := lift (actionResultJson summary) in
          do! _ := settle_rows pid k actionName a op stored stored_summary now in
          do! _ := (match column r.(idempotency_key) with
                    | Some key => settle_claim k (key_of key r.(preview)) a stored_summary now
                    | None => mreturn tt
                    end) in
          mreturn {| ref_id := a; ref_kind := k; ref_summary := summary |}
      end
  | None => mthrow "confirmation_not_executing"
  end.

Definition getActionResult (a : jstr) (d : db) : option jsval := result_json <$> d.(action_results) !! a.
