(* ===== verification/JsonText.v ===== *)
(** * Reading JSON string literals back

    The text [quote] of file Js gives a string, read unit by unit: a literal is
    unambiguous, even in front of other text. *)
From S2P Require Import Prelude Js.
Open Scope N_scope.
#[local] Arguments u : simpl never.

Definition hex_value (c : N) : N := if c <? 58 then c - 48 else c - 87.

(** One unit, behind the escape character or not; [None] at the closing quote. *)
Definition read_unit (s : jstr) : option (N * jstr) :=
  match s with
  | 34 :: _ | [] => None
  | 92 :: 117 :: a :: b :: c :: d :: r =>
      Some (hex_value a * 4096 + hex_value b * 256 + hex_value c * 16 + hex_value d, r)
  | 92 :: c :: r =>
      Some (if c =? 98 then 8 else if c =? 102 then 12 else if c =? 110 then 10
            else if c =? 114 then 13 else if c =? 116 then 9 else c, r)
  | c :: r => Some (c, r)
  end.

(** The units up to the closing quote, and the text behind it. *)
Fixpoint read_units (fuel : nat) (s : jstr) : option (jstr * jstr) :=
  match s with
  | 34 :: r => Some ([], r)
  | _ =>
      match fuel with
      | O => None
      | S n => p ← read_unit s; q ← read_units n p.2; Some (p.1 :: q.1, q.2)
      end
  end.
Definition read_string (s : jstr) : option (jstr * jstr) :=
  match s with 34 :: r => read_units (length r) r | _ => None end.

Lemma hex_value_digit n : n < 16 → hex_value (hex_digit n) = n.
Proof. intros Hn. unfold hex_value, hex_digit. destruct (N.ltb_spec n 10); [destruct (N.ltb_spec (48 + n) 58)|destruct (N.ltb_spec (87 + n) 58)]; lia. Qed.

Lemma read_escape c r : c < 65536 → read_unit (unicode_escape c ++ r) = Some (c, r).
Proof.
  intros Hc. unfold unicode_escape. simpl. rewrite !hex_value_digit by (apply N.mod_lt; done). do 2 f_equal.
  rewrite (N.mod_small (c / 4096) 16) by (apply N.Div0.div_lt_upper_bound; lia).
  assert (H1 : c / 256 = c / 16 / 16) by by rewrite N.Div0.div_div.
  assert (H2 : c / 4096 = c / 16 / 16 / 16) by by rewrite !N.Div0.div_div.
  rewrite H1, H2. pose proof (N.div_mod c 16). pose proof (N.div_mod (c / 16) 16). pose proof (N.div_mod (c / 16 / 16) 16). lia.
Qed.

Lemma read_literal c r : c ≠ 34 → c ≠ 92 → read_unit (c :: r) = Some (c, r).
Proof. intros H1 H2. simpl. destruct c as [|p]; [done|]. repeat (destruct p as [p|p|]; try done). Qed.

Lemma read_quoted c r : is_high c || is_low c = false → read_unit (quote_unit c ++ r) = Some (c, r).
Proof.
  intros Hs. unfold quote_unit.
  repeat (case_match; [match goal with H : (_ =? _) = true |- _ => apply N.eqb_eq in H as -> end; reflexivity|]).
  destruct (N.ltb_spec c 32); [apply read_escape; lia|].
  repeat match goal with H : (_ =? _) = false |- _ => apply N.eqb_neq in H end.
  by apply read_literal.
Qed.

Lemma read_step n t c r :
  read_unit t = Some (c, r) → read_units (S n) t = q ← read_units n r; Some (c :: q.1, q.2).
Proof.
  intros H. transitivity (p ← read_unit t; q ← read_units n p.2; Some (p.1 :: q.1, q.2)); [|by rewrite H].
  destruct t as [|x t]; [done|]. simpl. destruct x as [|x]; [done|].
  do 6 (destruct x as [x|x|]; try done).
Qed.

(** The text of one unit in front of more text, and the rest of the string. *)
Definition unit_text (c : N) : jstr := if is_high c || is_low c then unicode_escape c else quote_unit c.

Lemma read_unit_text c r : read_unit (unit_text c ++ r) = Some (c, r).
Proof.
  unfold unit_text. destruct (is_high c || is_low c) eqn:E; [|by apply read_quoted].
  apply read_escape. unfold is_high, is_low in E. apply orb_true_iff in E as [E|E];
    apply andb_true_iff in E as [_ E]; apply N.leb_le in E; lia.
Qed.

Lemma surrogate_literal c r : is_high c || is_low c = true → read_unit (c :: r) = Some (c, r).
Proof.
  intros E. unfold is_high, is_low in E. apply orb_true_iff in E as [E|E];
    apply andb_true_iff in E as [E _]; apply N.leb_le in E; apply read_literal; lia.
Qed.

Lemma unit_text_long c : (1 ≤ length (unit_text c))%nat.
Proof. unfold unit_text, quote_unit, unicode_escape. repeat case_match; simpl; lia. Qed.

Lemma quote_units_cons c s :
  (∃ d s', s = d :: s' ∧ is_high c = true ∧ is_low d = true ∧ quote_units (c :: s) = c :: d :: quote_units s') ∨
  quote_units (c :: s) = unit_text c ++ quote_units s.
Proof.
  destruct s as [|d s]; [right; simpl; by rewrite app_nil_r|].
  simpl. destruct (is_high c) eqn:Hc, (is_low d) eqn:Hd; simpl; [left; by exists d, s|right..];
    unfold unit_text; by rewrite Hc.
Qed.

Lemma read_units_quoted s r n :
  (length (quote_units s) ≤ n)%nat → read_units n (quote_units s ++ 34 :: r) = Some (s, r).
Proof.
  revert n. induction s as [s IH] using (induction_ltof1 jstr length). intros n Hn. unfold ltof in IH. destruct s as [|c s]; [by destruct n|].
  destruct (quote_units_cons c s) as [(d & s' & -> & Hc & Hd & Eq)|Eq]; rewrite Eq in *.
  - simpl in Hn. destruct n as [|[|n]]; [lia|lia|]. rewrite <-!app_comm_cons.
    rewrite (read_step _ _ c (d :: quote_units s' ++ 34 :: r)) by (apply surrogate_literal; by rewrite Hc).
    rewrite (read_step _ _ d (quote_units s' ++ 34 :: r)) by (apply surrogate_literal; by rewrite Hd, orb_true_r).
    rewrite (IH s') by (simpl; lia). done.
  - pose proof (unit_text_long c). rewrite length_app in Hn. destruct n as [|n]; [lia|]. rewrite <-app_assoc.
    rewrite (read_step _ _ c (quote_units s ++ 34 :: r)) by apply read_unit_text.
    rewrite (IH s) by (simpl; lia). done.
Qed.

(** A string literal is read back, and the text behind it with it. *)
Lemma read_quote s r : read_string (quote s ++ r) = Some (s, r).
Proof.
  unfold quote, read_string. rewrite <-app_comm_cons, <-app_assoc. simpl.
  apply read_units_quoted. rewrite length_app. simpl. lia.
Qed.

Lemma quote_inj s1 s2 r1 r2 : quote s1 ++ r1 = quote s2 ++ r2 → s1 = s2 ∧ r1 = r2.
Proof. intros H. pose proof (read_quote s1 r1) as E. rewrite H, read_quote in E. by injection E as -> ->. Qed.
