(* ===== verification/Batches.v ===== *)
(** * The confirm-all batches

    [db/store/confirmation-batches.ts]: a batch binds the previews of one assistant run,
    in order, to one hash; its items are executed in that order, the rest is cancelled
    before dispatch, and an interrupted batch is recovered.  [blob] gives the random ids of
    the results the cancellation trigger writes. *)
From S2P Require Import Prelude Js SafeJson ActionResults RunTables Confirmations Db Discriminators Plan Journal Store JournalResults ConfirmStore.
Open Scope Z_scope.
#[local] Arguments u : simpl never.

(** ** The hash of the ordered members *)

(** The [canonicalJson] of this file: sorted keys, and [undefined] as a text. *)
Fixpoint canonical_text (v : jsval) : jstr :=
  match v with
  | VArr l => [91] ++ join [44] (canonical_text <$> l) ++ [93]
  | VObj fs =>
      let text := (λ f, (f.1, VStr (quote f.1 ++ [58] ++ canonical_text f.2))) <$> fs in
      [123] ++ join [44] (omap (λ f, string_of f.2) (sort_fields text)) ++ [125]
  | VBytes bs =>
      let text := imap (λ i b, (digits (N.of_nat i),
                                VStr (quote (digits (N.of_nat i)) ++ [58] ++ digits b))) bs in
      [123] ++ join [44] (omap (λ f, string_of f.2) (sort_fields text)) ++ [125]
  | VBuffer => u "{}"
  | _ => stringify v
  end%N.

Record BatchMember := { member_confirmation : jstr; member_operation : jstr }.

Definition member_json (m : BatchMember) : jsval :=
  VObj [(u "confirmationId", VStr m.(member_confirmation)); (u "operationId", VStr m.(member_operation))].

Definition members_text (items : list BatchMember) : jstr := canonical_text (VArr (member_json <$> items)).

Definition computeOrderedTupleHash (sha256 : jstr → jstr) (items : list BatchMember) : jstr :=
  sha256 (members_text items).

(** ** Rows *)

Record BatchPatch := {
  patch_index : option Z;
  patch_result : option jstr;
  patch_started : option Z;
  patch_completed : option Z;
}.
Definition no_patch : BatchPatch :=
  {| patch_index := None; patch_result := None; patch_started := None; patch_completed := None |}.

(** [COALESCE(?, column)] *)
Definition coalesce {A} (x y : option A) : option A := match x with Some _ => x | None => y end.

Definition patched_batch (s : BatchStatus) (p : BatchPatch) (r : BatchRow) : BatchRow :=
  {| batch_session := r.(batch_session); batch_run := r.(batch_run); batch_workspace := r.(batch_workspace);
     batch_admin := r.(batch_admin); ordered_tuple_hash := r.(ordered_tuple_hash); batch_status := s;
     current_index := default r.(current_index) p.(patch_index);
     batch_result_id := coalesce p.(patch_result) r.(batch_result_id);
     batch_expires_at := r.(batch_expires_at); batch_created_at := r.(batch_created_at);
     batch_started_at := coalesce p.(patch_started) r.(batch_started_at);
     batch_completed_at := coalesce p.(patch_completed) r.(batch_completed_at) |}.

(** [started_at = COALESCE(started_at, ?)], and the reset of a batch that never began. *)
Definition started_batch (now : Z) (r : BatchRow) : BatchRow :=
  patched_batch BExecuting {| patch_index := None; patch_result := None;
    patch_started := coalesce r.(batch_started_at) (Some now); patch_completed := None |} r.
Definition unknown_batch (now : Z) (r : BatchRow) : BatchRow :=
  patched_batch BOutcomeUnknown {| patch_index := None; patch_result := None; patch_started := None;
    patch_completed := coalesce r.(batch_completed_at) (Some now) |} r.
Definition reopened_batch (r : BatchRow) : BatchRow :=
  {| batch_session := r.(batch_session); batch_run := r.(batch_run); batch_workspace := r.(batch_workspace);
     batch_admin := r.(batch_admin); ordered_tuple_hash := r.(ordered_tuple_hash); batch_status := BPending;
     current_index := r.(current_index); batch_result_id := r.(batch_result_id);
     batch_expires_at := r.(batch_expires_at); batch_created_at := r.(batch_created_at);
     batch_started_at := None; batch_completed_at := r.(batch_completed_at) |}.
Definition advanced_batch (index : Z) (r : BatchRow) : BatchRow :=
  patched_batch r.(batch_status) {| patch_index := Some index; patch_result := None;
    patch_started := None; patch_completed := None |} r.

Definition patched_item (s : ItemStatus) (p : BatchPatch) (r : BatchItemRow) : BatchItemRow :=
  {| item_confirmation := r.(item_confirmation); item_operation := r.(item_operation); item_status := s;
     item_result_id := coalesce p.(patch_result) r.(item_result_id);
     item_started_at := coalesce p.(patch_started) r.(item_started_at);
     item_completed_at := coalesce p.(patch_completed) r.(item_completed_at) |}.
(** [completed_at = ?], with a canonical result or without one. *)
Definition closed_item (s : ItemStatus) (a : option jstr) (now : Z) (r : BatchItemRow) : BatchItemRow :=
  patched_item s {| patch_index := None; patch_result := a; patch_started := None;
    patch_completed := Some now |} r.

Definition batch_is (s : BatchStatus) (r : BatchRow) : bool := bool_decide (r.(batch_status) = s).
Definition item_is (s : ItemStatus) (r : BatchItemRow) : bool := bool_decide (r.(item_status) = s).
Definition active_batch (s : BatchStatus) : bool :=
  match s with BPending | BExecuting => true | _ => false end.

(** ** Statements *)

(** The reference to [action_results] with the batch's scope. *)
Definition result_in_scope (d : db) (b : BatchRow) (a : option jstr) : bool :=
  match a with
  | None => true
  | Some a =>
      match d.(action_results) !! a with
      | Some r => bool_decide (r.(result_session_id) = Some b.(batch_session)) &&
                  bool_decide (r.(result_workspace_id) = b.(batch_workspace)) &&
                  bool_decide (r.(result_admin_user_id) = b.(batch_admin))
      | None => false
      end
  end.

(** The unique index [idx_confirmation_batches_one_active_per_run], seen from a row. *)
Definition rival_batch (id : jstr) (b : BatchRow) (d : db) : bool :=
  active_batch b.(batch_status) &&
  existsb (λ kv, negb (bool_decide (kv.1 = id)) && active_batch kv.2.(batch_status) &&
                 bool_decide (kv.2.(batch_session) = b.(batch_session)) &&
                 bool_decide (kv.2.(batch_run) = b.(batch_run)))
          (map_to_list d.(run_tables).(confirmation_batches)).

(** The constraints a written batch row meets. *)
Definition batch_ok (id : jstr) (b : BatchRow) (d : db) : bool :=
  bool_decide (length b.(ordered_tuple_hash) = 64%nat) && (0 <=? b.(current_index)) &&
  run_in_scope d.(run_tables) b.(batch_session) b.(batch_run) b.(batch_workspace) b.(batch_admin) &&
  result_in_scope d b b.(batch_result_id) && negb (rival_batch id b d).

Definition put_batch (id : jstr) (b : BatchRow) (d : db) : db :=
  set_run_tables (set_batches (<[id := b]> d.(run_tables).(confirmation_batches)) d.(run_tables)) d.

Definition insert_batch (id : jstr) (b : BatchRow) : M unit := λ d,
  match d.(run_tables).(confirmation_batches) !! id with
  | Some _ => Throw constraint_failed
  | None => if batch_ok id b d then Ok (tt, put_batch id b d) else Throw constraint_failed
  end.

(** [UPDATE confirmation_batches SET ... WHERE id = ? AND p]: is it one row? *)
Definition update_batch (id : jstr) (p : BatchRow → bool) (f : BatchRow → BatchRow) : M bool := λ d,
  match d.(run_tables).(confirmation_batches) !! id with
  | Some b =>
      if p b then
        if batch_ok id (f b) d then Ok (true, put_batch id (f b) d) else Throw constraint_failed
      else Ok (false, d)
  | None => Ok (false, d)
  end.

(** The references of an item to its preview and its operation. *)
Definition preview_in_scope (d : db) (b : BatchRow) (m : BatchMember) : bool :=
  match d.(pending_confirmations) !! m.(member_confirmation) with
  | Some r =>
      let x := r.(preview) in
      bool_decide (x.(preview_operation_id) = m.(member_operation)) &&
      bool_decide (x.(preview_session_id) = b.(batch_session)) &&
      bool_decide (x.(preview_discriminator).(run_id) = Some b.(batch_run)) &&
      bool_decide (x.(preview_workspace_id) = b.(batch_workspace)) &&
      bool_decide (x.(preview_admin_user_id) = b.(batch_admin))
  | None => false
  end.
Definition operation_in_scope (d : db) (b : BatchRow) (m : BatchMember) : bool :=
  match d.(operation_runs) !! m.(member_operation) with
  | Some o =>
      let x := o.(binding) in
      bool_decide (x.(session_id) = b.(batch_session)) &&
      bool_decide (x.(discriminator).(run_id) = Some b.(batch_run)) &&
      bool_decide (x.(workspace_id) = b.(batch_workspace)) &&
      bool_decide (x.(admin_user_id) = b.(batch_admin))
  | None => false
  end.

(** [UNIQUE (confirmation_id)] and [UNIQUE (operation_id)] over every batch. *)
Definition member_used (d : db) (m : BatchMember) : bool :=
  existsb (λ kv, existsb (λ i, bool_decide (i.(item_confirmation) = m.(member_confirmation)) ||
                               bool_decide (i.(item_operation) = m.(member_operation))) kv.2)
          (map_to_list d.(run_tables).(batch_items)).

Definition items_of (id : jstr) (d : db) : list BatchItemRow :=
  default [] (d.(run_tables).(batch_items) !! id).
Definition put_items (id : jstr) (l : list BatchItemRow) (d : db) : db :=
  set_run_tables (set_items (<[id := l]> d.(run_tables).(batch_items)) d.(run_tables)) d.

Definition pending_item (m : BatchMember) : BatchItemRow :=
  {| item_confirmation := m.(member_confirmation); item_operation := m.(member_operation);
     item_status := IPending; item_result_id := None; item_started_at := None; item_completed_at := None |}.

(** An item is inserted behind the ones its batch has. *)
Definition insert_item (id : jstr) (m : BatchMember) : M unit := λ d,
  match d.(run_tables).(confirmation_batches) !! id with
  | Some b =>
      if negb (member_used d m) && preview_in_scope d b m && operation_in_scope d b m
      then Ok (tt, put_items id (items_of id d ++ [pending_item m]) d)
      else Throw constraint_failed
  | None => Throw constraint_failed
  end.

(** [UPDATE confirmation_batch_items SET ... WHERE batch_id = ? AND item_index = ? AND p] *)
Definition update_item (id : jstr) (index : nat) (p : BatchItemRow → bool) (f : BatchItemRow → BatchItemRow)
    : M bool := λ d,
  match items_of id d !! index, d.(run_tables).(confirmation_batches) !! id with
  | Some i, Some b =>
      if p i then
        if result_in_scope d b (f i).(item_result_id)
        then Ok (true, put_items id (<[index := f i]> (items_of id d)) d)
        else Throw constraint_failed
      else Ok (false, d)
  | _, _ => Ok (false, d)
  end.

(** [UPDATE ... SET batch_id = ?], which fires the discriminator triggers. *)
Definition with_preview_batch (id : jstr) (r : PendingRow) : PendingRow :=
  {| preview := r.(preview); status := r.(status); risk_json := r.(risk_json);
     preview_json := r.(preview_json); preview_operation_json := r.(preview_operation_json);
     target_fingerprints_json := r.(target_fingerprints_json); nonce_hash := r.(nonce_hash);
     used_at := r.(used_at); result_summary_json := r.(result_summary_json);
     agent_state_json := r.(agent_state_json); action_result_id := r.(action_result_id);
     idempotency_key := r.(idempotency_key); batch_id := Some id |}.
Definition with_run_batch (id : jstr) (r : OperationRunRow) : OperationRunRow :=
  {| binding := r.(binding); run_status := r.(run_status); run_result_id := r.(run_result_id);
     operation_json := r.(operation_json); reconciled_at := r.(reconciled_at);
     reconciliation_json := r.(reconciliation_json); run_batch_id := Some id;
     run_updated_at := r.(run_updated_at) |}.

Definition set_preview_batch (id pid : jstr) : M unit := λ d,
  match d.(pending_confirmations) !! pid with
  | Some r => if confirmation_matrix r.(preview).(preview_discriminator)
              then Ok (tt, set_confirmations (<[pid := with_preview_batch id r]> d.(pending_confirmations)) d)
              else Throw "discriminator_matrix_invalid"
  | None => Ok (tt, d)
  end.
Definition set_operation_batch (id op : jstr) : M unit := λ d,
  match d.(operation_runs) !! op with
  | Some r => if operation_matrix d r.(binding)
              then Ok (tt, set_runs (<[op := with_run_batch id r]> d.(operation_runs)) d)
              else Throw "discriminator_matrix_invalid"
  | None => Ok (tt, d)
  end.

(** ** Operations *)

Record CreateConfirmationBatchInput := {
  new_batch_session : jstr;
  new_batch_run : jstr;
  new_batch_workspace : jstr;
  new_batch_admin : jstr;
  new_batch_hash : jstr;
  new_batch_expires : option Z;
  new_batch_items : list BatchMember;
}.

Section Creating.
Context (sha256 : jstr → jstr).

Definition new_batch (i : CreateConfirmationBatchInput) (now : Z) : BatchRow :=
  {| batch_session := i.(new_batch_session); batch_run := i.(new_batch_run);
     batch_workspace := i.(new_batch_workspace); batch_admin := i.(new_batch_admin);
     ordered_tuple_hash := i.(new_batch_hash); batch_status := BPending; current_index := 0;
     batch_result_id := None; batch_expires_at := i.(new_batch_expires); batch_created_at := now;
     batch_started_at := None; batch_completed_at := None |}.

Definition bind_member (id : jstr) (m : BatchMember) : M unit :=
  do! _ := insert_item id m in
  do! _ := set_preview_batch id m.(member_confirmation) in
  set_operation_batch id m.(member_operation).

Definition insertConfirmationBatchRows (i : CreateConfirmationBatchInput) (id : jstr) (now : Z) : M BatchRow :=
  require! bool_decide (computeOrderedTupleHash sha256 i.(new_batch_items) = i.(new_batch_hash))
    else "ordered_tuple_hash_mismatch" in
  do! _ := insert_batch id (new_batch i now) in
  do! _ := for_each i.(new_batch_items) (bind_member id) in
  mreturn (new_batch i now).

Definition createConfirmationBatch := insertConfirmationBatchRows.
End Creating.

Definition getConfirmationBatch (id : jstr) (d : db) : option BatchRow :=
  d.(run_tables).(confirmation_batches) !! id.
Definition getScopedConfirmationBatch (id wid aid sid : jstr) (d : db) : option BatchRow :=
  b ← getConfirmationBatch id d;
  if bool_decide (b.(batch_workspace) = wid) && bool_decide (b.(batch_admin) = aid) &&
     bool_decide (b.(batch_session) = sid) then Some b else None.
Definition listConfirmationBatchItems (id : jstr) (d : db) : list BatchItemRow := items_of id d.

Definition updateConfirmationBatchStatus (id : jstr) (s : BatchStatus) (p : BatchPatch) : M bool :=
  update_batch id (λ _, true) (patched_batch s p).
Definition updateConfirmationBatchItemStatus (id : jstr) (index : nat) (s : ItemStatus) (p : BatchPatch) : M bool :=
  update_item id index (λ _, true) (patched_item s p).
Definition markConfirmationBatchExecuting (id : jstr) (now : Z) : M bool :=
  update_batch id (batch_is BPending) (started_batch now).
Definition advanceConfirmationBatchProgress (id : jstr) (index : Z) : M bool :=
  update_batch id (batch_is BExecuting) (advanced_batch index).

(** The items of a status from an index on, in order. *)
Definition items_from (from : nat) (s : ItemStatus) (l : list BatchItemRow) : list (nat * BatchItemRow) :=
  filter (λ x, (from ≤ x.1)%nat ∧ x.2.(item_status) = s) (imap pair l).

Definition cancel_preview (now : Z) (blob : jstr → jstr) (pid : jstr) : M unit :=
  do! _ := cancelConfirmation pid now (blob pid) in mreturn tt.
Definition close_item (id : jstr) (now : Z) (x : nat * BatchItemRow) : M unit :=
  do! _ := update_item id x.1 (item_is IPending) (closed_item ICancelled None now) in mreturn tt.

Definition cancelUndispatchedBatchItems (id : jstr) (from : nat) (now : Z) (blob : jstr → jstr) : M Z :=
  do! d := getdb in
  let items := items_from from IPending (items_of id d) in
  do! _ := for_each items (λ x,
    do! _ := close_item id now x in
    do! _ := cancel_preview now blob x.2.(item_confirmation) in
    do! _ := update_run_status x.2.(item_operation) (has_run_status RunPrepared)
      (λ o, with_run_status RunDefinitiveFailed o.(run_result_id) now o) in mreturn tt) in
  mreturn (Z.of_nat (length items)).

(** ** Recovery *)

Definition operationWasDispatched (op : jstr) (d : db) : bool :=
  existsb (λ kv, bool_decide (kv.2.(identity).(operation_id) = op) && bool_decide (is_Some kv.2.(dispatched_at)))
          (map_to_list d.(operation_steps)).

Definition queued_receipt : jsval :=
  VObj [(u "kind", VStr (u "receipt"));
        (u "receipt", VObj
          [(u "ok", VBool false); (u "action", VStr (u "unknown_action"));
           (u "code", VStr (u "operation_cancelled_before_dispatch"));
           (u "message", VStr (u "The server restarted before this queued action reached Clockify. No change was made."));
           (u "recovery", VObj
             [(u "hint", VStr (u "Create a fresh request when the service is available."));
              (u "retryable", VBool false)])])].

Definition failed_preview (a : jstr) (summary : jsval) (now : Z) (r : PendingRow) : PendingRow :=
  {| preview := r.(preview); status := PDefinitiveFailed; risk_json := r.(risk_json);
     preview_json := r.(preview_json); preview_operation_json := None;
     target_fingerprints_json := r.(target_fingerprints_json); nonce_hash := [];
     used_at := Some now; result_summary_json := Some summary; agent_state_json := None;
     action_result_id := Some a; idempotency_key := None; batch_id := r.(batch_id) |}.

(** An executing item whose operation never reached the host. *)
Definition fail_item (id : jstr) (b : BatchRow) (now : Z) (uuid : jstr) (x : nat * BatchItemRow) : M unit :=
  do! summary := lift (buildActionResultSummary uuid queued_receipt) in
  do! stored := lift (actionResultJson queued_receipt) in
  do! stored_summary := lift (actionResultJson summary) in
  do! _ := insert_result uuid (result_row (Some x.2.(item_operation)) b.(batch_workspace) b.(batch_admin)
    (Some b.(batch_session)) (u "unknown_action") definitive_failed stored stored_summary now) in
  do! _ := update_item id x.1 (item_is IExecuting) (closed_item IDefinitiveFailed (Some uuid) now) in
  do! _ := update_confirmation x.2.(item_confirmation) [] is_executing
    (failed_preview uuid stored_summary now) in
  do! _ := update_run_status x.2.(item_operation) (has_run_status RunExecuting)
    (with_run_status RunDefinitiveFailed (Some uuid) now) in
  mreturn tt.

(** One that did: the batch stops there. *)
Definition stop_batch (id : jstr) (items : list BatchItemRow) (now : Z) (blob : jstr → jstr)
    (from : nat) : M unit :=
  do! _ := update_batch id (λ _, true) (unknown_batch now) in
  for_each (items_from from IPending items) (λ x,
    do! _ := close_item id now x in cancel_preview now blob x.2.(item_confirmation)).

Fixpoint recover_items (id : jstr) (b : BatchRow) (items : list BatchItemRow) (now : Z)
    (blob : jstr → jstr) (uuid : nat → jstr) (l : list (nat * BatchItemRow)) : M unit :=
  match l with
  | [] => mreturn tt
  | x :: l' =>
      do! d := getdb in
      if operationWasDispatched x.2.(item_operation) d then stop_batch id items now blob x.1
      else
        do! _ := fail_item id b now (uuid x.1) x in recover_items id b items now blob uuid l'
  end.

Definition recoverConfirmationBatch (id : jstr) (now : Z) (blob : jstr → jstr) (uuid : nat → jstr) : M unit :=
  do! d := getdb in
  match d.(run_tables).(confirmation_batches) !! id with
  | Some b =>
      if batch_is BExecuting b then
        let items := items_of id d in
        if (b.(current_index) =? 0) && forallb (item_is IPending) items then
          if match b.(batch_expires_at) with Some e => now <? e | None => false end
          then do! _ := update_batch id (batch_is BExecuting) reopened_batch in mreturn tt
          else mreturn tt
        else recover_items id b items now blob uuid (items_from 0 IExecuting items)
      else mreturn tt
  | None => mreturn tt
  end.
