(* ===== verification/BatchLife.v ===== *)
(** * The life of a batch

    What the operations of file Batches keep: the members and the hash of a batch never
    change, and a run has one open batch. *)
From S2P Require Import Prelude Js JsonText SafeJson ActionResults RunTables Confirmations Db Discriminators Plan Journal Store JournalResults ConfirmStore Batches.
Open Scope Z_scope.
#[local] Arguments u : simpl never.

(** ** What is written once *)

Record BatchBinding := {
  bound_session : jstr;
  bound_run : jstr;
  bound_workspace : jstr;
  bound_admin : jstr;
  bound_hash : jstr;
  bound_expires : option Z;
  bound_created : Z;
}.
Definition batch_binding (b : BatchRow) : BatchBinding :=
  {| bound_session := b.(batch_session); bound_run := b.(batch_run); bound_workspace := b.(batch_workspace);
     bound_admin := b.(batch_admin); bound_hash := b.(ordered_tuple_hash);
     bound_expires := b.(batch_expires_at); bound_created := b.(batch_created_at) |}.
Definition item_member (i : BatchItemRow) : BatchMember :=
  {| member_confirmation := i.(item_confirmation); member_operation := i.(item_operation) |}.

Definition bindings (d : db) : gmap jstr BatchBinding := batch_binding <$> d.(run_tables).(confirmation_batches).
Definition members_of (id : jstr) (d : db) : list BatchMember := item_member <$> items_of id d.

(** The batches, without the statements of the other tables. *)
Definition batch_tables (d : db) : gmap jstr BatchRow * gmap jstr (list BatchItemRow) :=
  (d.(run_tables).(confirmation_batches), d.(run_tables).(batch_items)).

(** ** What the statements keep *)

Section Statements.
Context {T : Type} (f : db → T).

#[export] Instance keeps_for_each {A} (l : list A) (k : A → M unit) : (∀ x, Keeps f (k x)) → Keeps f (for_each l k).
Proof. intros Hk. induction l as [|x l IH]; simpl; apply _. Qed.

#[export] Instance keeps_update_item `{!Ignores set_run_tables f} id index p g : Keeps f (update_item id index p g).
Proof.
  intros d b d' H. unfold update_item, put_items in H. repeat case_match; simplify_eq; rewrite ?ignores; done.
Qed.
#[export] Instance keeps_update_batch `{!Ignores set_run_tables f} id p g : Keeps f (update_batch id p g).
Proof.
  intros d b d' H. unfold update_batch, put_batch in H. repeat case_match; simplify_eq; rewrite ?ignores; done.
Qed.
#[export] Instance keeps_insert_batch `{!Ignores set_run_tables f} id r : Keeps f (insert_batch id r).
Proof. intros d b d' H. unfold insert_batch, put_batch in H. repeat case_match; simplify_eq; rewrite ?ignores; done. Qed.
#[export] Instance keeps_insert_item `{!Ignores set_run_tables f} id r : Keeps f (insert_item id r).
Proof. intros d b d' H. unfold insert_item, put_items in H. repeat case_match; simplify_eq; rewrite ?ignores; done. Qed.
#[export] Instance keeps_preview_batch `{!Ignores set_confirmations f} id pid : Keeps f (set_preview_batch id pid).
Proof. intros d b d' H. unfold set_preview_batch in H. repeat case_match; simplify_eq; rewrite ?ignores; done. Qed.
#[export] Instance keeps_operation_batch `{!Ignores set_runs f} id op : Keeps f (set_operation_batch id op).
Proof. intros d b d' H. unfold set_operation_batch in H. repeat case_match; simplify_eq; rewrite ?ignores; done. Qed.
End Statements.

(** An update of a batch that keeps what is written once; of an item, its member. *)
Lemma keeps_bindings_batch id p g :
  (∀ r, batch_binding (g r) = batch_binding r) → Keeps bindings (update_batch id p g).
Proof.
  intros Hg d b d' H. unfold update_batch in H. destruct (_ !! id) as [r|] eqn:Hr; [|by simplify_eq].
  destruct (p r); [|by simplify_eq]. destruct (batch_ok _ _ _); [|done]. injection H as _ <-.
  unfold bindings. simpl. rewrite fmap_insert, Hg. apply insert_id. by rewrite lookup_fmap, Hr.
Qed.
#[export] Instance keeps_bindings_item id index p g : Keeps bindings (update_item id index p g).
Proof. intros d b d' H. unfold update_item in H. by repeat case_match; simplify_eq. Qed.

#[export] Instance keeps_members_batch id id' p g : Keeps (members_of id) (update_batch id' p g).
Proof. intros d b d' H. unfold update_batch in H. by repeat case_match; simplify_eq. Qed.
Lemma members_put id id' l d :
  members_of id (put_items id' l d) = if decide (id = id') then item_member <$> l else members_of id d.
Proof.
  unfold members_of, items_of, put_items. simpl. case_decide; subst; by rewrite ?lookup_insert_eq, ?lookup_insert_ne.
Qed.
Lemma keeps_members_item id id' index p g :
  (∀ i, item_member (g i) = item_member i) → Keeps (members_of id) (update_item id' index p g).
Proof.
  intros Hg d b d' H. unfold update_item in H.
  destruct (items_of id' d !! index) as [i|] eqn:Hi; [|by simplify_eq].
  destruct (_ !! id'); [|by simplify_eq]. destruct (p i); [|by simplify_eq].
  destruct (result_in_scope _ _ _); [|done]. injection H as _ <-. rewrite members_put. case_decide; [subst|done].
  rewrite list_fmap_insert, Hg. apply list_insert_id. unfold members_of. by rewrite list_lookup_fmap, Hi.
Qed.

#[export] Hint Extern 1 (Keeps bindings (update_batch _ _ _)) =>
  (apply keeps_bindings_batch; reflexivity) : typeclass_instances.
#[export] Hint Extern 1 (Keeps (members_of _) (update_item _ _ _ _)) =>
  (apply keeps_members_item; reflexivity) : typeclass_instances.

(** ** The invariant *)

(** Every member is in one place; an index is not negative; a run has one open batch. *)
Record tables_ok (d : db) : Prop := {
  ok_owner id : is_Some (d.(run_tables).(batch_items) !! id) →
    is_Some (d.(run_tables).(confirmation_batches) !! id);
  ok_members id1 id2 i j m1 m2 : members_of id1 d !! i = Some m1 → members_of id2 d !! j = Some m2 →
    m1.(member_confirmation) = m2.(member_confirmation) ∨ m1.(member_operation) = m2.(member_operation) →
    id1 = id2 ∧ i = j;
  ok_index id b : d.(run_tables).(confirmation_batches) !! id = Some b → 0 ≤ b.(current_index);
  ok_open id1 id2 b1 b2 : d.(run_tables).(confirmation_batches) !! id1 = Some b1 →
    d.(run_tables).(confirmation_batches) !! id2 = Some b2 →
    active_batch b1.(batch_status) = true → active_batch b2.(batch_status) = true →
    b1.(batch_session) = b2.(batch_session) → b1.(batch_run) = b2.(batch_run) → id1 = id2;
}.

Lemma tables_ok_ext d d' : batch_tables d' = batch_tables d → tables_ok d → tables_ok d'.
Proof.
  intros [= Eb Ei] [H1 H2 H3 H4].
  assert (∀ id, members_of id d' = members_of id d) as Em by (intros id; unfold members_of, items_of; by rewrite Ei).
  split; intros until 0; rewrite ?Eb, ?Ei, ?Em; eauto.
Qed.
#[export] Instance preserves_elsewhere {A} (m : M A) : Keeps batch_tables m → Preserves tables_ok m.
Proof. intros Hk d a d' H. by apply tables_ok_ext, (Hk _ _ _ H). Qed.

Lemma rival_batch_false id b d id2 b2 :
  rival_batch id b d = false → active_batch b.(batch_status) = true →
  d.(run_tables).(confirmation_batches) !! id2 = Some b2 → active_batch b2.(batch_status) = true →
  b2.(batch_session) = b.(batch_session) → b2.(batch_run) = b.(batch_run) → id2 = id.
Proof.
  intros Hr Ha H2 Ha2 Hs Hrun. unfold rival_batch in Hr. rewrite Ha in Hr. simpl in Hr.
  destruct (decide (id2 = id)) as [|Hne]; [done|]. exfalso. apply not_true_iff_false in Hr. apply Hr, existsb_exists.
  exists (id2, b2). split; [by apply list_elem_of_In, elem_of_map_to_list|]. cbn [fst snd].
  rewrite Ha2, Hs, Hrun, (bool_decide_eq_false_2 (id2 = id)) by done. by rewrite !bool_decide_eq_true_2.
Qed.

(** Writing a batch row that meets the constraints. *)
Lemma put_batch_ok id b d : batch_ok id b d = true → tables_ok d → tables_ok (put_batch id b d).
Proof.
  intros Hb [H1 H2 H3 H4]. unfold batch_ok in Hb. zbool. split.
  - intros id2 Hs. simpl in *. destruct (decide (id2 = id)) as [->|]; [by rewrite lookup_insert_eq|].
    rewrite lookup_insert_ne by done. by apply H1.
  - exact H2.
  - intros id2 b2. simpl. destruct (decide (id2 = id)) as [->|]; [rewrite lookup_insert_eq; by intros [= <-]|].
    rewrite lookup_insert_ne by done. apply H3.
  - intros id1 id2 b1 b2. simpl.
    destruct (decide (id1 = id)) as [->|], (decide (id2 = id)) as [->|]; rewrite ?lookup_insert_eq, ?lookup_insert_ne by done;
      [done| | |by apply H4]; intros; simplify_eq; [symmetry|]; by eapply rival_batch_false.
Qed.
#[export] Instance preserves_insert_batch id b : Preserves tables_ok (insert_batch id b).
Proof.
  intros d a d' H. unfold insert_batch in H. destruct (_ !! id); [done|]. destruct (batch_ok _ _ _) eqn:E; [|done].
  injection H as _ <-. by apply put_batch_ok.
Qed.
#[export] Instance preserves_update_batch id p g : Preserves tables_ok (update_batch id p g).
Proof.
  intros d a d' H. unfold update_batch in H. destruct (_ !! id); [|by simplify_eq]. destruct (p b); [|by simplify_eq].
  destruct (batch_ok _ _ _) eqn:E; [|done]. injection H as _ <-. by apply put_batch_ok.
Qed.

(** Writing items that keep their batch's members, or add one that is in no batch. *)
Lemma put_items_ok id l d :
  is_Some (d.(run_tables).(confirmation_batches) !! id) → item_member <$> l = members_of id d →
  tables_ok d → tables_ok (put_items id l d).
Proof.
  intros Hid Hl [H1 H2 H3 H4].
  assert (∀ id2, members_of id2 (put_items id l d) = members_of id2 d) as Em.
  { intros id2. rewrite members_put. case_decide; by subst. }
  split; [| |exact H3|exact H4].
  - intros id2 Hs. simpl in *. destruct (decide (id2 = id)) as [->|]; [done|]. rewrite lookup_insert_ne in Hs by done. by apply H1.
  - intros id1 id2. rewrite !Em. apply H2.
Qed.
#[export] Instance preserves_update_item id index p g :
  (∀ i, item_member (g i) = item_member i) → Preserves tables_ok (update_item id index p g).
Proof.
  intros Hg d b d' H Hok. pose proof (keeps_members_item id id index p g Hg _ _ _ H) as Em. unfold update_item in H.
  destruct (items_of id d !! index) as [i|] eqn:Hi; [|by simplify_eq].
  destruct (_ !! id) eqn:Hb; [|by simplify_eq]. destruct (p i); [|by simplify_eq].
  destruct (result_in_scope _ _ _); [|done]. injection H as _ <-. apply put_items_ok; [by rewrite Hb| |done].
  revert Em. rewrite members_put. by rewrite decide_True.
Qed.

Lemma member_used_false d m :
  member_used d m = false → ∀ id j m2, members_of id d !! j = Some m2 →
  m.(member_confirmation) ≠ m2.(member_confirmation) ∧ m.(member_operation) ≠ m2.(member_operation).
Proof.
  intros Hu id j m2 Hj. unfold members_of in Hj. rewrite list_lookup_fmap in Hj.
  destruct (items_of id d !! j) as [i|] eqn:Hi; [|done]. injection Hj as <-.
  apply not_true_iff_false in Hu. unfold items_of in Hi.
  destruct (d.(run_tables).(batch_items) !! id) as [l|] eqn:Hl; [|done]. simpl in Hi.
  split; intros Heq; apply Hu, existsb_exists; exists (id, l);
    (split; [by apply list_elem_of_In, elem_of_map_to_list|]); apply existsb_exists; exists i;
    (split; [by apply list_elem_of_In, (list_elem_of_lookup_2 _ j)|]); simpl in Heq;
    rewrite Heq, (bool_decide_eq_true_2 _ (eq_refl _)); by rewrite ?orb_true_r.
Qed.

#[export] Instance preserves_insert_item id m : Preserves tables_ok (insert_item id m).
Proof.
  intros d b d' H [H1 H2 H3 H4]. unfold insert_item in H. destruct (_ !! id) eqn:Hb; [|done].
  destruct (_ && _) eqn:E; [|done]. injection H as _ <-. zbool.
  assert (∀ id2, members_of id2 (put_items id (items_of id d ++ [pending_item m]) d) =
                 if decide (id2 = id) then members_of id d ++ [m] else members_of id2 d) as Em.
  { intros id2. rewrite members_put. case_decide; [|done]. rewrite fmap_app. by destruct m. }
  assert (∀ id2 i m2, members_of id2 (put_items id (items_of id d ++ [pending_item m]) d) !! i = Some m2 →
    members_of id2 d !! i = Some m2 ∨ (id2 = id ∧ i = length (members_of id d) ∧ m2 = m)) as Hin.
  { intros id2 i m2. rewrite Em. case_decide; [subst|by left]. rewrite lookup_snoc_if. case_decide; naive_solver. }
  pose proof (member_used_false d m ltac:(done)) as Hu.
  split; [| |exact H3|exact H4].
  - intros id2 Hs. simpl in *. destruct (decide (id2 = id)) as [->|]; [done|]. rewrite lookup_insert_ne in Hs by done. by apply H1.
  - intros id1 id2 i j m1 m2 Hi Hj Hor.
    destruct (Hin _ _ _ Hi) as [Hi'|(-> & -> & ->)], (Hin _ _ _ Hj) as [Hj'|(-> & -> & ->)].
    + by eapply H2.
    + destruct (Hu _ _ _ Hi'). naive_solver.
    + destruct (Hu _ _ _ Hj'). naive_solver.
    + done.
Qed.

(** ** The operations *)

#[export] Instance preserves_for_each {A} (I : db → Prop) (l : list A) (k : A → M unit) :
  (∀ x, Preserves I (k x)) → Preserves I (for_each l k).
Proof. intros Hk. induction l as [|x l IH]; simpl; apply _. Qed.

#[export] Hint Extern 1 (Preserves tables_ok (update_item _ _ _ _)) =>
  (apply preserves_update_item; reflexivity) : typeclass_instances.

Section Recovering.
Context {T : Type} (f : db → T) (id : jstr) (b : BatchRow) (now : Z) (blob : jstr → jstr) (uuid : nat → jstr).

#[export] Instance keeps_recover_items items l :
  (∀ n x, Keeps f (fail_item id b now (uuid n) x)) → (∀ n, Keeps f (stop_batch id items now blob n)) →
  Keeps f (recover_items id b items now blob uuid l).
Proof. intros Hf Hs. induction l as [|x l IH]; simpl; solve_keeps. Qed.
End Recovering.
#[export] Instance preserves_recover_items (I : db → Prop) id b items now blob uuid l :
  (∀ n x, Preserves I (fail_item id b now (uuid n) x)) → (∀ n, Preserves I (stop_batch id items now blob n)) →
  Preserves I (recover_items id b items now blob uuid l).
Proof. intros Hf Hs. induction l as [|x l IH]; simpl; solve_preserves. Qed.

Lemma keeps_recover {T} (f : db → T) id now blob uuid :
  Keeps f (update_batch id (batch_is BExecuting) reopened_batch) →
  (∀ b n x, Keeps f (fail_item id b now (uuid n) x)) → (∀ items n, Keeps f (stop_batch id items now blob n)) →
  Keeps f (recoverConfirmationBatch id now blob uuid).
Proof. intros H1 H2 H3. unfold recoverConfirmationBatch. solve_keeps. Qed.
#[export] Instance keeps_recover_bindings id now blob uuid : Keeps bindings (recoverConfirmationBatch id now blob uuid).
Proof.
  apply keeps_recover; unfold fail_item, stop_batch, close_item, cancel_preview, cancelConfirmation; intros; solve_keeps.
Qed.
#[export] Instance keeps_recover_members id2 id now blob uuid :
  Keeps (members_of id2) (recoverConfirmationBatch id now blob uuid).
Proof.
  apply keeps_recover; unfold fail_item, stop_batch, close_item, cancel_preview, cancelConfirmation; intros; solve_keeps.
Qed.
#[export] Instance preserves_recover id now blob uuid : Preserves tables_ok (recoverConfirmationBatch id now blob uuid).
Proof.
  unfold recoverConfirmationBatch, fail_item, stop_batch, close_item, cancel_preview, cancelConfirmation. solve_preserves.
Qed.

#[export] Instance keeps_cancel_rest {T} (f : db → T) id from now blob :
  (∀ x, Keeps f (close_item id now x)) → (∀ pid, Keeps f (cancel_preview now blob pid)) →
  (∀ op g, Keeps f (update_run_status op (has_run_status RunPrepared) g)) →
  Keeps f (cancelUndispatchedBatchItems id from now blob).
Proof. intros H1 H2 H3. unfold cancelUndispatchedBatchItems. solve_keeps. Qed.
#[export] Instance preserves_cancel_rest id from now blob :
  Preserves tables_ok (cancelUndispatchedBatchItems id from now blob).
Proof. unfold cancelUndispatchedBatchItems, close_item, cancel_preview, cancelConfirmation. solve_preserves. Qed.

#[export] Instance keeps_bind_member {T} (f : db → T) id m :
  Keeps f (insert_item id m) → Keeps f (set_preview_batch id m.(member_confirmation)) →
  Keeps f (set_operation_batch id m.(member_operation)) → Keeps f (bind_member id m).
Proof. intros H1 H2 H3. unfold bind_member. solve_keeps. Qed.

(** ** Creation *)

Lemma bind_member_ok id m d a d' :
  bind_member id m d = Ok (a, d') →
  batch_tables d' = batch_tables (put_items id (items_of id d ++ [pending_item m]) d) ∧
  bindings d' = bindings d ∧
  (∀ id2, members_of id2 d' = if decide (id2 = id) then members_of id d ++ [m] else members_of id2 d).
Proof.
  intros H. unfold bind_member in H. apply mthen_ok in H as (x & d1 & Hi & H). apply mthen_ok in H as (y & d2 & Hp & Ho).
  assert (∀ {T} (f : db → T), Ignores set_confirmations f → Ignores set_runs f → f d' = f d1) as Hk.
  { intros T f ??. etrans; [by eapply keeps_operation_batch|by eapply keeps_preview_batch]. }
  rewrite (Hk _ batch_tables), (Hk _ bindings) by apply _.
  assert (∀ id2, members_of id2 d' = members_of id2 d1) as Hm by (intros id2; by apply Hk).
  unfold insert_item in Hi. destruct (_ !! id) eqn:Hb; [|done]. destruct (_ && _); [|done]. injection Hi as _ <-.
  split; [done|]. split; [done|]. intros id2. rewrite Hm, members_put. case_decide; [|done].
  rewrite fmap_app. by destruct m.
Qed.

Lemma bind_members_ok id l d a d' :
  for_each l (bind_member id) d = Ok (a, d') →
  bindings d' = bindings d ∧
  (∀ id2, members_of id2 d' = if decide (id2 = id) then members_of id d ++ l else members_of id2 d).
Proof.
  revert d. induction l as [|m l IH]; intros d H; simpl in H.
  - injection H as <- <-. split; [done|]. intros id2. case_decide; subst; by rewrite ?app_nil_r.
  - apply mthen_ok in H as (x & d1 & H1 & H2). destruct (IH _ H2) as [Eb Em].
    destruct (bind_member_ok _ _ _ _ _ H1) as (_ & Eb1 & Em1). rewrite Eb, Eb1. split; [done|].
  intros id2. rewrite Em. case_decide; rewrite Em1; [rewrite decide_True by done; by rewrite <-app_assoc|by rewrite decide_False].
Qed.

Section Sealed.
Context (sha256 : jstr → jstr).

Lemma create_ok i id now d b d' :
  insertConfirmationBatchRows sha256 i id now d = Ok (b, d') →
  computeOrderedTupleHash sha256 i.(new_batch_items) = i.(new_batch_hash) ∧
  d.(run_tables).(confirmation_batches) !! id = None ∧ b = new_batch i now ∧
  bindings d' = <[id := batch_binding (new_batch i now)]> (bindings d) ∧
  (∀ id2, members_of id2 d' = if decide (id2 = id) then members_of id d ++ i.(new_batch_items) else members_of id2 d).
Proof.
  intros H. unfold insertConfirmationBatchRows in H. destruct (bool_decide _) eqn:Hh; [|done].
  apply bool_decide_eq_true in Hh. apply mthen_ok in H as (x & d1 & Hi & H). apply mthen_ok in H as (y & d2 & Hf & [= <- <-]).
  destruct (bind_members_ok _ _ _ _ _ Hf) as [Eb Em]. unfold insert_batch in Hi. destruct (_ !! id) eqn:Hb; [done|].
  destruct (batch_ok _ _ _); [|done]. injection Hi as _ <-. split_and!; try done.
  rewrite Eb. unfold bindings. simpl. by rewrite fmap_insert.
Qed.

#[local] Instance preserves_create i id now : Preserves tables_ok (insertConfirmationBatchRows sha256 i id now).
Proof. unfold insertConfirmationBatchRows, bind_member. solve_preserves. Qed.

(** One operation of the batch store, or a change of the database elsewhere. *)
Inductive batch_step (d : db) : db → Prop :=
| step_create i id now b d' : insertConfirmationBatchRows sha256 i id now d = Ok (b, d') → batch_step d d'
| step_status id s p b d' : updateConfirmationBatchStatus id s p d = Ok (b, d') → batch_step d d'
| step_item id index s p b d' : updateConfirmationBatchItemStatus id index s p d = Ok (b, d') → batch_step d d'
| step_mark id now b d' : markConfirmationBatchExecuting id now d = Ok (b, d') → batch_step d d'
| step_advance id index b d' : advanceConfirmationBatchProgress id index d = Ok (b, d') → batch_step d d'
| step_cancel id from now blob n d' : cancelUndispatchedBatchItems id from now blob d = Ok (n, d') → batch_step d d'
| step_recover id now blob uuid x d' : recoverConfirmationBatch id now blob uuid d = Ok (x, d') → batch_step d d'
| step_elsewhere d' : batch_tables d' = batch_tables d → batch_step d d'.

(** The stored hash is the hash of the stored members. *)
Definition hashes_ok (d : db) : Prop :=
  ∀ id x, bindings d !! id = Some x → x.(bound_hash) = computeOrderedTupleHash sha256 (members_of id d).
Definition batches_ok (d : db) : Prop := tables_ok d ∧ hashes_ok d.

(** A batch keeps its binding and its members. *)
Definition sealed (d d' : db) : Prop :=
  ∀ id x, bindings d !! id = Some x → bindings d' !! id = Some x ∧ members_of id d' = members_of id d.
#[local] Instance sealed_preorder : PreOrder sealed.
Proof.
  split; [by intros d id x|]. intros d1 d2 d3 H1 H2 id x Hx. destruct (H1 _ _ Hx) as [Hx2 E2].
  destruct (H2 _ _ Hx2) as [Hx3 E3]. by rewrite E3.
Qed.

(** An operation on existing batches. *)
Lemma fixed_ok {A} (m : M A) d a d' :
  Preserves tables_ok m → Keeps bindings m → (∀ id, Keeps (members_of id) m) →
  m d = Ok (a, d') → batches_ok d → batches_ok d' ∧ sealed d d'.
Proof.
  intros Hp Hb Hm H [Ht Hh]. pose proof (Hb _ _ _ H) as Eb. assert (∀ id, members_of id d' = members_of id d) as Em
    by (intros id; by eapply Hm).
  split; [split|].
  - by eapply Hp.
  - intros id x. rewrite Eb, Em. apply Hh.
  - intros id x Hx. by rewrite Eb, Em.
Qed.

Lemma batch_step_ok d d' : batch_step d d' → batches_ok d → batches_ok d' ∧ sealed d d'.
Proof.
  intros [i id now b d1 H|id s p b d1 H|id index s p b d1 H|id now b d1 H|id index b d1 H|id from now blob n d1 H
         |id now blob uuid x d1 H|d1 H];
    [|eapply fixed_ok; [..|exact H]; intros; try apply _;
      unfold updateConfirmationBatchStatus, updateConfirmationBatchItemStatus, markConfirmationBatchExecuting,
        advanceConfirmationBatchProgress, cancelUndispatchedBatchItems, close_item, cancel_preview, cancelConfirmation; solve_keeps..|].
  - intros [Ht Hh]. destruct (create_ok _ _ _ _ _ _ H) as (Hash & Hn & _ & Eb & Em).
    assert (members_of id d = []) as Hnil.
    { unfold members_of, items_of. destruct (d.(run_tables).(batch_items) !! id) eqn:Hl; [|done].
      destruct (ok_owner d Ht id ltac:(by rewrite Hl)) as [? ?]. congruence. }
    assert (bindings d !! id = None) as Hb by (unfold bindings; by rewrite lookup_fmap, Hn).
    split; [split; [by eapply preserves_create|]|].
    + intros id2 x. rewrite Eb, Em. case_decide; subst; [rewrite lookup_insert_eq|rewrite lookup_insert_ne by done; apply Hh].
      intros [= <-]. rewrite Hnil. simpl. by rewrite Hash.
    + intros id2 x Hx. assert (id2 ≠ id) by congruence. rewrite Eb, Em, lookup_insert_ne, decide_False by done. done.
  - intros [Ht Hh]. assert (bindings d1 = bindings d ∧ ∀ id, members_of id d1 = members_of id d) as [Eb Em].
    { unfold batch_tables in H. injection H as E1 E2. unfold bindings, members_of, items_of. by rewrite E1, E2. }
    split; [split; [by eapply tables_ok_ext|]|]; intros id x; rewrite Eb, Em; [apply Hh|done].
Qed.

Lemma batch_steps_ok d d' : rtc batch_step d d' → batches_ok d → batches_ok d' ∧ sealed d d'.
Proof.
  induction 1 as [d|d d1 d2 H1 H2 IH]; intros Hd; [by split|]. destruct (batch_step_ok _ _ H1 Hd) as [Hd1 Hs].
  destruct (IH Hd1) as [Hd2 Hs2]. split; [done|by etrans].
Qed.
End Sealed.

Lemma empty_batches_ok sha256 : batches_ok sha256 empty_db.
Proof. split; [split|]; [by intros id [? ?]|done..]. Qed.

(** ** The hashed text *)

Definition member_text (m : BatchMember) : jstr :=
  (123 :: quote (u "confirmationId") ++ 58 :: quote m.(member_confirmation) ++ 44 ::
   quote (u "operationId") ++ 58 :: quote m.(member_operation) ++ [125])%N.

Lemma member_canonical m : canonical_text (member_json m) = member_text m.
Proof.
  unfold member_json, member_text. cbn [canonical_text fmap list_fmap fst snd].
  assert (∀ x y, sort_fields [(u "confirmationId", x); (u "operationId", y)] =
                 [(u "confirmationId", x); (u "operationId", y)]) as -> by done.
  cbn [omap list_omap string_of snd join]. unfold stringify. cbn [stringify_opt default].
  by rewrite <-!app_assoc, <-!app_comm_cons.
Qed.

Lemma cons_tail {A} (x : A) l1 l2 : x :: l1 = x :: l2 → l1 = l2.
Proof. congruence. Qed.

(** A fixed text and a string literal in front of more text. *)
Lemma literal_inj t s1 s2 r1 r2 : t ++ quote s1 ++ r1 = t ++ quote s2 ++ r2 → s1 = s2 ∧ r1 = r2.
Proof. intros H%app_inv_head. by apply quote_inj. Qed.

Lemma member_text_inj m1 m2 r1 r2 : member_text m1 ++ r1 = member_text m2 ++ r2 → m1 = m2 ∧ r1 = r2.
Proof.
  assert (∀ m r, member_text m ++ r = (([123] ++ quote (u "confirmationId") ++ [58]) ++ quote m.(member_confirmation) ++
    ([44] ++ quote (u "operationId") ++ [58]) ++ quote m.(member_operation) ++ [125] ++ r)%N) as E.
  { intros m r. unfold member_text. generalize (quote (u "confirmationId")), (quote (u "operationId")).
    intros q1 q2. repeat (rewrite <-app_assoc || cbn [app]). done. }
  rewrite !E. intros H. apply literal_inj in H as [H1 H]. apply literal_inj in H as [H2 H].
  apply cons_tail in H as ->. destruct m1, m2. simpl in *. by subst.
Qed.

Lemma join_members_inj l1 l2 :
  join [44]%N (member_text <$> l1) ++ [93]%N = join [44]%N (member_text <$> l2) ++ [93]%N → l1 = l2.
Proof.
  assert (∀ m l, ∃ r, join [44]%N (member_text <$> (m :: l)) ++ [93]%N = member_text m ++ r ∧
    r = match l with [] => [93] | _ => 44 :: join [44] (member_text <$> l) ++ [93] end%N) as Hj.
  { intros m [|m2 l]; eexists; (split; [|done]); [done|]. cbn [fmap list_fmap join]. by rewrite <-!app_assoc. }
  revert l2. induction l1 as [|m1 l1 IH]; intros [|m2 l2] H; [done| | |].
  - destruct (Hj m2 l2) as (r & E & _). rewrite E in H. discriminate.
  - destruct (Hj m1 l1) as (r & E & _). rewrite E in H. discriminate.
  - destruct (Hj m1 l1) as (ra & Ea & Era), (Hj m2 l2) as (rb & Eb & Erb). rewrite Ea, Eb in H.
    apply member_text_inj in H as [-> H]. f_equal. rewrite Era, Erb in H.
    destruct l1 as [|x1 l1], l2 as [|x2 l2]; [done|discriminate H..|]. apply IH. exact (cons_tail _ _ _ H).
Qed.

Lemma members_text_inj l1 l2 : members_text l1 = members_text l2 → l1 = l2.
Proof.
  assert (∀ l, members_text l = 91%N :: join [44]%N (member_text <$> l) ++ [93]%N) as E.
  { intros l. unfold members_text. cbn [canonical_text app]. do 2 f_equal. f_equal.
    induction l as [|m l IH]; [done|]. cbn [fmap list_fmap]. by rewrite member_canonical, IH. }
  rewrite !E. intros H%cons_tail. by apply join_members_inj.
Qed.

(** ** The members of a new batch *)

(** A member whose preview and operation are of the batch's run and carry its id. *)
Definition bound (id : jstr) (b : BatchRow) (m : BatchMember) (d : db) : Prop :=
  preview_in_scope d b m = true ∧ operation_in_scope d b m = true ∧
  (∃ r, d.(pending_confirmations) !! m.(member_confirmation) = Some r ∧ r.(batch_id) = Some id) ∧
  (∃ o, d.(operation_runs) !! m.(member_operation) = Some o ∧ o.(run_batch_id) = Some id).

(** The tables up to the batch ids that a binding writes. *)
Definition tagged_preview (id : jstr) (r r' : PendingRow) : Prop := r' = r ∨ r' = with_preview_batch id r.
Definition tagged_run (id : jstr) (r r' : OperationRunRow) : Prop := r' = r ∨ r' = with_run_batch id r.
Definition tagged (id : jstr) (d d' : db) : Prop :=
  (∀ k r, d.(pending_confirmations) !! k = Some r →
     ∃ r', d'.(pending_confirmations) !! k = Some r' ∧ tagged_preview id r r') ∧
  (∀ k r, d.(operation_runs) !! k = Some r → ∃ r', d'.(operation_runs) !! k = Some r' ∧ tagged_run id r r').

Lemma tagged_bound id b m d d' : tagged id d d' → bound id b m d → bound id b m d'.
Proof.
  intros [Hp Ho] (H1 & H2 & (r & Hr & Er) & (o & Hor & Eo)). unfold bound, preview_in_scope, operation_in_scope in *.
  destruct (Hp _ _ Hr) as (r' & Hr' & Tr), (Ho _ _ Hor) as (o' & Ho' & To).
  rewrite Hr in H1. rewrite Hor in H2. rewrite Hr', Ho'.
  split_and!; [by destruct Tr as [->| ->]|by destruct To as [->| ->]| |].
  - exists r'. split; [done|]. by destruct Tr as [->| ->].
  - exists o'. split; [done|]. by destruct To as [->| ->].
Qed.

Lemma bind_member_binds id m d a d' b :
  d.(run_tables).(confirmation_batches) !! id = Some b → bind_member id m d = Ok (a, d') →
  tagged id d d' ∧ bound id b m d' ∧ d'.(run_tables).(confirmation_batches) = d.(run_tables).(confirmation_batches).
Proof.
  intros Hb H. unfold bind_member in H. apply mthen_ok in H as (x & d1 & Hi & H). apply mthen_ok in H as (y & d2 & Hp & Ho).
  unfold insert_item in Hi. rewrite Hb in Hi. destruct (_ && _) eqn:E; [|done]. injection Hi as _ <-. zbool.
  unfold preview_in_scope in *. unfold operation_in_scope in *.
  unfold set_preview_batch in Hp. simpl in Hp.
  destruct (d.(pending_confirmations) !! m.(member_confirmation)) as [r|] eqn:Hr; [|done].
  destruct (confirmation_matrix _); [|done]. injection Hp as _ <-.
  unfold set_operation_batch in Ho. simpl in Ho.
  destruct (d.(operation_runs) !! m.(member_operation)) as [o|] eqn:Hor; [|done].
  destruct (operation_matrix _ _); [|done]. injection Ho as _ <-.
  split_and!; [split| |done].
  - intros k r0 Hk. simpl. destruct (decide (k = m.(member_confirmation))) as [->|].
    + rewrite lookup_insert_eq. exists (with_preview_batch id r). split; [done|]. right. congruence.
    + rewrite lookup_insert_ne by done. exists r0. split; [done|]. by left.
  - intros k r0 Hk. simpl. destruct (decide (k = m.(member_operation))) as [->|].
    + rewrite lookup_insert_eq. exists (with_run_batch id o). split; [done|]. right. congruence.
    + rewrite lookup_insert_ne by done. exists r0. split; [done|]. by left.
  - unfold bound, preview_in_scope, operation_in_scope. simpl. rewrite !lookup_insert_eq. split_and!; try done.
    + by exists (with_preview_batch id r).
    + by exists (with_run_batch id o).
Qed.

#[export] Instance tagged_preorder id : PreOrder (tagged id).
Proof.
  split; [intros d; split; intros k r Hk; exists r; split; try done; by left|].
  intros d1 d2 d3 [P1 O1] [P2 O2]. split; intros k r Hk.
  - destruct (P1 _ _ Hk) as (r2 & H2 & T1), (P2 _ _ H2) as (r3 & H3 & T2). exists r3. split; [done|].
    destruct T1 as [->| ->], T2 as [->| ->]; [by left|by right..].
  - destruct (O1 _ _ Hk) as (r2 & H2 & T1), (O2 _ _ H2) as (r3 & H3 & T2). exists r3. split; [done|].
    destruct T1 as [->| ->], T2 as [->| ->]; [by left|by right..].
Qed.

Lemma bind_members_bind id l d a d' b :
  d.(run_tables).(confirmation_batches) !! id = Some b → for_each l (bind_member id) d = Ok (a, d') →
  tagged id d d' ∧ (∀ m, m ∈ l → bound id b m d') ∧
  d'.(run_tables).(confirmation_batches) = d.(run_tables).(confirmation_batches).
Proof.
  revert d. induction l as [|m l IH]; intros d Hb H; simpl in H.
  - injection H as _ <-. split_and!; [done| |done]. by intros m ?%elem_of_nil.
  - apply mthen_ok in H as (x & d1 & H1 & H2). destruct (bind_member_binds _ _ _ _ _ _ Hb H1) as (T1 & B1 & E1).
    rewrite <-E1 in Hb. destruct (IH _ Hb H2) as (T2 & B2 & E2). split_and!; [by etrans| |congruence].
    intros m' [->|Hm]%elem_of_cons; [by eapply tagged_bound|by apply B2].
Qed.

Lemma bind_members_items id l d a d' :
  for_each l (bind_member id) d = Ok (a, d') → items_of id d' = items_of id d ++ (pending_item <$> l).
Proof.
  revert d. induction l as [|m l IH]; intros d H; simpl in H.
  - injection H as _ <-. by rewrite app_nil_r.
  - apply mthen_ok in H as (x & d1 & H1 & H2). rewrite (IH _ H2).
    destruct (bind_member_ok _ _ _ _ _ H1) as (E & _). unfold batch_tables in E. injection E as _ E.
    unfold items_of at 1. rewrite E, lookup_insert_eq. simpl. by rewrite <-app_assoc.
Qed.

(** ** Properties *)

(** C38: The members of a Confirm-all batch are sealed: whatever operations of the batch
    store run, and whatever is written elsewhere, a stored batch keeps its scope, its
    hash and its ordered members; the hash stays the hash of those members; no preview
    and no operation is in two places; a run has one open batch; and the progress index is
    never negative. *)
Theorem batch_sealed sha256 d d' :
  batches_ok sha256 d → rtc (batch_step sha256) d d' → batches_ok sha256 d' ∧ sealed d d'.
Proof. intros Hd H. by eapply batch_steps_ok. Qed.

(** The text whose digest binds a batch determines its members and their order: two
    member lists have the same text only when they are the same list. *)
Theorem tuple_text_exact l1 l2 : members_text l1 = members_text l2 ↔ l1 = l2.
Proof. split; [apply members_text_inj|by intros ->]. Qed.

(** Creating a batch binds exactly the given members, in order: the presented hash is
    theirs, every member is a preview of this admin's run together with its own
    operation, both now carry the batch id, the batch is pending at its first member, and
    the run had no other open batch. *)
Theorem create_batch_binds sha256 i id now d b d' :
  batches_ok sha256 d → createConfirmationBatch sha256 i id now d = Ok (b, d') →
  batches_ok sha256 d' ∧ getConfirmationBatch id d' = Some b ∧ b = new_batch i now ∧
  i.(new_batch_hash) = computeOrderedTupleHash sha256 i.(new_batch_items) ∧
  listConfirmationBatchItems id d' = pending_item <$> i.(new_batch_items) ∧
  (∀ m, m ∈ i.(new_batch_items) → bound id b m d') ∧
  (∀ id2 b2, getConfirmationBatch id2 d = Some b2 → active_batch b2.(batch_status) = true →
     b2.(batch_session) = b.(batch_session) → b2.(batch_run) ≠ b.(batch_run)).
Proof.
  intros Hok H. destruct (batch_step_ok sha256 d d' (step_create _ _ _ _ _ _ _ H) Hok) as [Hok' _].
  destruct (create_ok _ _ _ _ _ _ _ H) as (Hh & Hn & -> & _). unfold createConfirmationBatch, insertConfirmationBatchRows in H.
  destruct (bool_decide _); [|done]. apply mthen_ok in H as (x & d1 & Hi & H).
  apply mthen_ok in H as (y & d2 & Hf & [= <-]). unfold insert_batch in Hi. rewrite Hn in Hi.
  destruct (batch_ok _ _ _) eqn:Hb; [|done]. injection Hi as _ <-.
  destruct (bind_members_bind id _ _ _ _ (new_batch i now) (lookup_insert_eq (d.(run_tables).(confirmation_batches)) id _) Hf) as (_ & HB & E).
  split_and!; try done.
  - unfold getConfirmationBatch. rewrite E. apply lookup_insert_eq.
  - assert (items_of id d = []) as Hnil.
    { unfold items_of. destruct (d.(run_tables).(batch_items) !! id) eqn:Hl; [|done].
      destruct (ok_owner d (proj1 Hok) id ltac:(by rewrite Hl)) as [? ?]. congruence. }
    unfold listConfirmationBatchItems. rewrite (bind_members_items _ _ _ _ _ Hf).
    change (items_of id (put_batch id (new_batch i now) d)) with (items_of id d). by rewrite Hnil.
  - intros id2 b2 H2 Ha Hs Hr. unfold batch_ok in Hb. zbool. pose proof (rival_batch_false id (new_batch i now) d id2 b2
      ltac:(done) eq_refl H2 Ha Hs Hr) as ->.
    unfold getConfirmationBatch in H2. congruence.
Qed.

(** ** A concrete batch *)

Definition demo_digest (s : jstr) : jstr := take 64 (s ++ replicate 64 97%N).
Definition batch_provenance : OperationBinding := v2_demo (VObj []) (replicate 64 97%N).
Definition batch_run_row : OperationRunRow :=
  {| binding := batch_provenance; run_status := RunPrepared; run_result_id := None; operation_json := VObj [];
     reconciled_at := None; reconciliation_json := None; run_batch_id := None; run_updated_at := 0 |}.
Definition batch_preview_row (op : jstr) : PendingRow :=
  {| preview :=
       {| preview_operation_id := op; preview_session_id := u "s"; preview_workspace_id := u "w";
          preview_admin_user_id := u "a"; installation_generation := Some 1; preview_operation_hash := u "h";
          preview_action_fingerprint := u "f"; preview_catalog_hash := u "c"; preview_capability_id := None;
          preview_capability_hash := None; preview_discriminator := batch_provenance.(discriminator);
          expires_at := Some 9000; created_at := 0 |};
     status := PPending; risk_json := VArr []; preview_json := VObj []; preview_operation_json := Some (VObj []);
     target_fingerprints_json := VArr []; nonce_hash := u "n"; used_at := None; result_summary_json := None;
     agent_state_json := None; action_result_id := None; idempotency_key := None; batch_id := None |}.
Definition unbatched_db : db :=
  set_confirmations {[ u "c1" := batch_preview_row (u "o1"); u "c2" := batch_preview_row (u "o2") ]}
    (set_runs {[ u "o1" := batch_run_row; u "o2" := batch_run_row ]} demo_runs_db).

Definition demo_members : list BatchMember :=
  [ {| member_confirmation := u "c1"; member_operation := u "o1" |};
    {| member_confirmation := u "c2"; member_operation := u "o2" |} ].
Definition demo_batch_input : CreateConfirmationBatchInput :=
  {| new_batch_session := u "s"; new_batch_run := u "r"; new_batch_workspace := u "w"; new_batch_admin := u "a";
     new_batch_hash := computeOrderedTupleHash demo_digest demo_members; new_batch_expires := Some 9000;
     new_batch_items := demo_members |}.
Definition batched_db : db :=
  match createConfirmationBatch demo_digest demo_batch_input (u "b") 100 unbatched_db with
  | Ok (_, d) => d
  | Throw _ => unbatched_db
  end.

Lemma unbatched_ok : batches_ok demo_digest unbatched_db.
Proof. split; [split|]; [by intros id [? ?]|done..]. Qed.

Lemma create_batch_binds_witness :
  getConfirmationBatch (u "b") unbatched_db = None ∧
  listConfirmationBatchItems (u "b") batched_db = pending_item <$> demo_members ∧
  (∀ m, m ∈ demo_members → bound (u "b") (new_batch demo_batch_input 100) m batched_db).
Proof.
  split; [reflexivity|].
  destruct (create_batch_binds demo_digest demo_batch_input (u "b") 100 unbatched_db (new_batch demo_batch_input 100)
              batched_db unbatched_ok ltac:(vm_compute; reflexivity)) as (_ & _ & _ & _ & Hi & Hb & _).
  exact (conj Hi Hb).
Defined.

Lemma batch_sealed_witness :
  let d2 := match updateConfirmationBatchItemStatus (u "b") 0 IExecuting no_patch batched_db with
            | Ok (_, d) => d | Throw _ => batched_db end in
  item_status <$> items_of (u "b") d2 = [IExecuting; IPending] ∧
  members_of (u "b") d2 = demo_members.
Proof.
  intros d2. split; [vm_compute; reflexivity|].
  assert (batch_step demo_digest unbatched_db batched_db) as H1
    by (eapply (step_create _ _ demo_batch_input (u "b") 100 (new_batch demo_batch_input 100)); vm_compute; reflexivity).
  assert (batch_step demo_digest batched_db d2) as H2
    by (eapply (step_item _ _ (u "b") 0 IExecuting no_patch true); vm_compute; reflexivity).
  destruct (batch_sealed demo_digest unbatched_db batched_db unbatched_ok (rtc_once _ _ H1)) as [Hok _].
  destruct (batch_sealed demo_digest batched_db d2 Hok (rtc_once _ _ H2)) as [_ Hs].
  exact (proj2 (Hs (u "b") (batch_binding (new_batch demo_batch_input 100)) ltac:(vm_compute; reflexivity))).
Defined.
