(* ===== verification/RunEvents.v ===== *)
(** * The run events

    [assistant-v2/events.ts]: the closed set of events of an assistant run, the bounds of
    their payloads, and the functions that encode a payload for the journal and read it
    back.  The schema literals are the functions [payload_ok] (what they refine) and
    [payload_of] (the shape they accept, unknown keys refused). *)
From S2P Require Import Prelude Js SafeJson.
From S2P Require Import Policy.
Import Permissions.
Open Scope Z_scope.
#[local] Arguments u : simpl never.

Definition MAX_UTF8_BYTES : Z := 256.
Definition MAX_ARRAY : nat := 12.
Definition MAX_PAYLOAD_BYTES : Z := 65536.

(** ** Payloads *)

Inductive SearchAccess : Set := search_read | search_write | search_any.
Inductive LoadSource : Set := from_cache | from_discovery.
Inductive SuspendReason : Set := awaiting_confirmation | awaiting_clarification.
#[export] Instance search_access_dec : EqDecision SearchAccess.
Proof. solve_decision. Defined.
#[export] Instance load_source_dec : EqDecision LoadSource.
Proof. solve_decision. Defined.
#[export] Instance suspend_reason_dec : EqDecision SuspendReason.
Proof. solve_decision. Defined.

Record EventUsage := {
  usage_prompt : option Z;
  usage_completion : option Z;
  usage_estimated : option Z;
}.

(** The attempts of a model call are 1 and 2. *)
Inductive RunEventPayload : Type :=
| run_started (requestHash : jstr)
| model_started (modelCall : Z) (second_attempt : bool) (loadedOperationIds : list jstr) (cacheSeeded : bool)
| model_completed (modelCall : Z) (second_attempt : bool) (chatMessageId : option jstr) (usage : EventUsage)
    (latencyMs : Z)
| api_search_started (searchIndex : Z) (access : SearchAccess) (groups : list FeatureGroup)
| api_operations_loaded (operationIds : list jstr) (source : LoadSource)
| tool_requested (toolCallId actionName argumentsHash : jstr)
| tool_denied (toolCallId actionName code : jstr) (actionResultId : option jstr)
| tool_started (toolCallId actionName : jstr)
| tool_completed (toolCallId actionName actionResultId : jstr)
| operation_prepared (operationId confirmationId : jstr) (batchId : option jstr)
| operation_confirmed (operationId confirmationId : jstr)
| operation_started (operationId : jstr)
| operation_completed (operationId actionResultId : jstr)
| clarification_required (clarificationId actionResultId : jstr)
| run_suspended (reason : SuspendReason)
| run_completed (chatMessageId : option jstr) (actionResultIds : list jstr)
| run_failed (code : jstr).

Definition eventType (p : RunEventPayload) : string :=
  match p with
  | run_started _ => "run.started" | model_started _ _ _ _ => "model.started"
  | model_completed _ _ _ _ _ => "model.completed" | api_search_started _ _ _ => "api.search_started"
  | api_operations_loaded _ _ => "api.operations_loaded" | tool_requested _ _ _ => "tool.requested"
  | tool_denied _ _ _ _ => "tool.denied" | tool_started _ _ => "tool.started"
  | tool_completed _ _ _ => "tool.completed" | operation_prepared _ _ _ => "operation.prepared"
  | operation_confirmed _ _ => "operation.confirmed" | operation_started _ => "operation.started"
  | operation_completed _ _ => "operation.completed" | clarification_required _ _ => "clarification.required"
  | run_suspended _ => "run.suspended" | run_completed _ _ => "run.completed" | run_failed _ => "run.failed"
  end.

Definition RUN_EVENT_TYPES : list string :=
  ["run.started"; "model.started"; "model.completed"; "api.search_started"; "api.operations_loaded";
   "tool.requested"; "tool.denied"; "tool.started"; "tool.completed"; "operation.prepared";
   "operation.confirmed"; "operation.started"; "operation.completed"; "clarification.required";
   "run.suspended"; "run.completed"; "run.failed"].

(** ** Bounds *)

Definition boundedString (maxBytes : Z) (s : jstr) : bool := Z.of_N (utf8_length s) <=? maxBytes.
Definition bounded (s : jstr) : bool := boundedString MAX_UTF8_BYTES s.
Definition bounded_opt (s : option jstr) : bool := match s with Some s => bounded s | None => true end.
Definition boundedStringArray (l : list jstr) : bool :=
  (length l <=? MAX_ARRAY)%nat && forallb bounded l.
(** [boundedString(64).refine((v) => v.length === 64)] *)
Definition hash_text (s : jstr) : bool := boundedString 64 s && bool_decide (length s = 64%nat).
Definition nonnegative_opt (n : option Z) : bool := match n with Some n => 0 <=? n | None => true end.

Definition payload_ok (p : RunEventPayload) : bool :=
  match p with
  | run_started h => hash_text h
  | model_started n _ ids _ => (0 <? n) && boundedStringArray ids
  | model_completed n _ m us ms =>
      (0 <? n) && bounded_opt m && nonnegative_opt us.(usage_prompt) && nonnegative_opt us.(usage_completion) &&
      nonnegative_opt us.(usage_estimated) && (0 <=? ms)
  | api_search_started n _ gs => (0 <? n) && (length gs <=? length FEATURE_GROUPS)%nat
  | api_operations_loaded ids _ => boundedStringArray ids
  | tool_requested t a h => bounded t && bounded a && hash_text h
  | tool_denied t a c r => bounded t && bounded a && bounded c && bounded_opt r
  | tool_started t a => bounded t && bounded a
  | tool_completed t a r => bounded t && bounded a && bounded r
  | operation_prepared o c b => bounded o && bounded c && bounded_opt b
  | operation_confirmed o c => bounded o && bounded c
  | operation_started o => bounded o
  | operation_completed o r => bounded o && bounded r
  | clarification_required c r => bounded c && bounded r
  | run_suspended _ => true
  | run_completed m rs => bounded_opt m && boundedStringArray rs
  | run_failed c => bounded c
  end.

(** ** The JSON of a payload *)

Definition text (k : string) (s : jstr) : jstr * jsval := (u k, VStr s).
Definition number (k : string) (n : Z) : jstr * jsval := (u k, num n).
Definition texts (k : string) (l : list jstr) : jstr * jsval := (u k, VArr (VStr <$> l)).
(** An optional member is left out when it is absent. *)
Definition text_opt (k : string) (s : option jstr) : list (jstr * jsval) :=
  match s with Some s => [text k s] | None => [] end.
Definition number_opt (k : string) (n : option Z) : list (jstr * jsval) :=
  match n with Some n => [number k n] | None => [] end.
Definition access_name (a : SearchAccess) : string :=
  match a with search_read => "read" | search_write => "write" | search_any => "any" end.
Definition source_name (s : LoadSource) : string :=
  match s with from_cache => "cache" | from_discovery => "discovery" end.
Definition reason_name (r : SuspendReason) : string :=
  match r with awaiting_confirmation => "awaiting_confirmation" | awaiting_clarification => "awaiting_clarification" end.
Definition usage_json (us : EventUsage) : jsval :=
  VObj (number_opt "promptTokens" us.(usage_prompt) ++ number_opt "completionTokens" us.(usage_completion) ++
        number_opt "estimatedTokens" us.(usage_estimated)).

Definition payload_value (p : RunEventPayload) : jsval := VObj
  match p with
  | run_started h => [text "requestHash" h]
  | model_started n second ids seeded =>
      [number "modelCall" n; number "providerAttempt" (if second then 2 else 1); texts "loadedOperationIds" ids;
       (u "cacheSeeded", VBool seeded)]
  | model_completed n second m us ms =>
      [number "modelCall" n; number "providerAttempts" (if second then 2 else 1)] ++ text_opt "chatMessageId" m ++
      [(u "usage", usage_json us); number "latencyMs" ms]
  | api_search_started n a gs =>
      [number "searchIndex" n; text "access" (u (access_name a)); texts "groups" ((λ g, u (group_name g)) <$> gs)]
  | api_operations_loaded ids s => [texts "operationIds" ids; text "source" (u (source_name s))]
  | tool_requested t a h => [text "toolCallId" t; text "actionName" a; text "argumentsHash" h]
  | tool_denied t a c r => [text "toolCallId" t; text "actionName" a; text "code" c] ++ text_opt "actionResultId" r
  | tool_started t a => [text "toolCallId" t; text "actionName" a]
  | tool_completed t a r => [text "toolCallId" t; text "actionName" a; text "actionResultId" r]
  | operation_prepared o c b => [text "operationId" o; text "confirmationId" c] ++ text_opt "batchId" b
  | operation_confirmed o c => [text "operationId" o; text "confirmationId" c]
  | operation_started o => [text "operationId" o]
  | operation_completed o r => [text "operationId" o; text "actionResultId" r]
  | clarification_required c r => [text "clarificationId" c; text "actionResultId" r]
  | run_suspended r => [text "reason" (u (reason_name r))]
  | run_completed m rs => text_opt "chatMessageId" m ++ [texts "actionResultIds" rs]
  | run_failed c => [text "code" c]
  end.

(** ** Reading a payload *)

Section Reading.
Context (fs : list (jstr * jsval)).

Definition get (k : string) : option jsval :=
  match fields_get (u k) fs with Some VUndef | None => None | Some v => Some v end.
Definition as_text (v : jsval) : option jstr := match v with VStr s => Some s | _ => None end.
Definition as_int (v : jsval) : option Z := match v with VNum (NumInt n) => Some n | _ => None end.
Definition as_texts (v : jsval) : option (list jstr) := match v with VArr l => mapM as_text l | _ => None end.
Definition as_bool (v : jsval) : option bool := match v with VBool b => Some b | _ => None end.

Definition required {A} (k : string) (f : jsval → option A) : option A := v ← get k; f v.
Definition optional {A} (k : string) (f : jsval → option A) : option (option A) :=
  match get k with None => Some None | Some v => Some <$> f v end.
(** [.strict()] *)
Definition strict (keys : list string) : bool := forallb (λ f, bool_decide (f.1 ∈ (u <$> keys))) fs.
End Reading.

Definition as_member {A} (l : list (string * A)) (v : jsval) : option A :=
  s ← as_text v; snd <$> (snd <$> list_find (λ p, u p.1 = s) l).
Definition as_attempt (v : jsval) : option bool :=
  n ← as_int v; if n =? 1 then Some false else if n =? 2 then Some true else None.
Definition as_groups (v : jsval) : option (list FeatureGroup) :=
  match v with VArr l => mapM (as_member ((λ g, (group_name g, g)) <$> FEATURE_GROUPS)) l | _ => None end.
Definition as_access : jsval → option SearchAccess :=
  as_member [("read", search_read); ("write", search_write); ("any", search_any)].
Definition as_source : jsval → option LoadSource := as_member [("cache", from_cache); ("discovery", from_discovery)].
Definition as_reason : jsval → option SuspendReason :=
  as_member [("awaiting_confirmation", awaiting_confirmation); ("awaiting_clarification", awaiting_clarification)].
Definition as_usage (v : jsval) : option EventUsage :=
  match v with
  | VObj fs =>
      if strict fs ["promptTokens"; "completionTokens"; "estimatedTokens"] then
        p ← optional fs "promptTokens" as_int; c ← optional fs "completionTokens" as_int;
        e ← optional fs "estimatedTokens" as_int;
        Some {| usage_prompt := p; usage_completion := c; usage_estimated := e |}
      else None
  | _ => None
  end.

(** The members and the shape of each event's payload. *)
Definition payload_keys (ty : string) : list string :=
  if String.eqb ty "run.started" then ["requestHash"]
  else if String.eqb ty "model.started" then ["modelCall"; "providerAttempt"; "loadedOperationIds"; "cacheSeeded"]
  else if String.eqb ty "model.completed" then ["modelCall"; "providerAttempts"; "chatMessageId"; "usage"; "latencyMs"]
  else if String.eqb ty "api.search_started" then ["searchIndex"; "access"; "groups"]
  else if String.eqb ty "api.operations_loaded" then ["operationIds"; "source"]
  else if String.eqb ty "tool.requested" then ["toolCallId"; "actionName"; "argumentsHash"]
  else if String.eqb ty "tool.denied" then ["toolCallId"; "actionName"; "code"; "actionResultId"]
  else if String.eqb ty "tool.started" then ["toolCallId"; "actionName"]
  else if String.eqb ty "tool.completed" then ["toolCallId"; "actionName"; "actionResultId"]
  else if String.eqb ty "operation.prepared" then ["operationId"; "confirmationId"; "batchId"]
  else if String.eqb ty "operation.confirmed" then ["operationId"; "confirmationId"]
  else if String.eqb ty "operation.started" then ["operationId"]
  else if String.eqb ty "operation.completed" then ["operationId"; "actionResultId"]
  else if String.eqb ty "clarification.required" then ["clarificationId"; "actionResultId"]
  else if String.eqb ty "run.suspended" then ["reason"]
  else if String.eqb ty "run.completed" then ["chatMessageId"; "actionResultIds"]
  else ["code"].

Section Shapes.
Context (fs : list (jstr * jsval)).
Abbreviation req := (required fs).
Abbreviation opt := (optional fs).

Definition payload_shape (ty : string) : option RunEventPayload :=
  if String.eqb ty "run.started" then run_started <$> req "requestHash" as_text
  else if String.eqb ty "model.started" then
    n ← req "modelCall" as_int; a ← req "providerAttempt" as_attempt; l ← req "loadedOperationIds" as_texts;
    s ← req "cacheSeeded" as_bool; Some (model_started n a l s)
  else if String.eqb ty "model.completed" then
    n ← req "modelCall" as_int; a ← req "providerAttempts" as_attempt; m ← opt "chatMessageId" as_text;
    us ← req "usage" as_usage; t ← req "latencyMs" as_int; Some (model_completed n a m us t)
  else if String.eqb ty "api.search_started" then
    n ← req "searchIndex" as_int; a ← req "access" as_access; g ← req "groups" as_groups;
    Some (api_search_started n a g)
  else if String.eqb ty "api.operations_loaded" then
    l ← req "operationIds" as_texts; s ← req "source" as_source; Some (api_operations_loaded l s)
  else if String.eqb ty "tool.requested" then
    t ← req "toolCallId" as_text; a ← req "actionName" as_text; h ← req "argumentsHash" as_text;
    Some (tool_requested t a h)
  else if String.eqb ty "tool.denied" then
    t ← req "toolCallId" as_text; a ← req "actionName" as_text; c ← req "code" as_text;
    r ← opt "actionResultId" as_text; Some (tool_denied t a c r)
  else if String.eqb ty "tool.started" then
    t ← req "toolCallId" as_text; a ← req "actionName" as_text; Some (tool_started t a)
  else if String.eqb ty "tool.completed" then
    t ← req "toolCallId" as_text; a ← req "actionName" as_text; r ← req "actionResultId" as_text;
    Some (tool_completed t a r)
  else if String.eqb ty "operation.prepared" then
    o ← req "operationId" as_text; c ← req "confirmationId" as_text; b ← opt "batchId" as_text;
    Some (operation_prepared o c b)
  else if String.eqb ty "operation.confirmed" then
    o ← req "operationId" as_text; c ← req "confirmationId" as_text; Some (operation_confirmed o c)
  else if String.eqb ty "operation.started" then operation_started <$> req "operationId" as_text
  else if String.eqb ty "operation.completed" then
    o ← req "operationId" as_text; r ← req "actionResultId" as_text; Some (operation_completed o r)
  else if String.eqb ty "clarification.required" then
    c ← req "clarificationId" as_text; r ← req "actionResultId" as_text; Some (clarification_required c r)
  else if String.eqb ty "run.suspended" then run_suspended <$> req "reason" as_reason
  else if String.eqb ty "run.completed" then
    m ← opt "chatMessageId" as_text; l ← req "actionResultIds" as_texts; Some (run_completed m l)
  else if String.eqb ty "run.failed" then run_failed <$> req "code" as_text
  else None.
End Shapes.

(** The schema's [parse]: the shape, then the refinements. *)
Definition payload_of (ty : string) (v : jsval) : option RunEventPayload :=
  match v with
  | VObj fs => if strict fs (payload_keys ty)
               then p ← payload_shape fs ty; if payload_ok p then Some p else None
               else None
  | _ => None
  end.

Definition parseRunEventPayload (ty : string) (v : jsval) : result RunEventPayload :=
  match payload_of ty v with
  | Some p => if MAX_PAYLOAD_BYTES <? jsonByteLength (payload_value p)
              then Throw "run_event_payload_too_large" else Ok p
  | None => Throw "ZodError"
  end.

(** The column holds the value the text parses to. *)
Definition encodeRunEventPayload (p : RunEventPayload) : result jsval :=
  let! q := parseRunEventPayload (eventType p) (payload_value p) in Ok (payload_value q).

(** ** Round trip *)

Lemma mapM_texts l : mapM as_text (VStr <$> l) = Some l.
Proof. induction l as [|s l IH]; [done|]. cbn [fmap list_fmap mapM as_text mbind option_bind]. by rewrite IH. Qed.
Lemma mapM_groups l :
  mapM (as_member ((λ g, (group_name g, g)) <$> FEATURE_GROUPS)) (VStr <$> ((λ g, u (group_name g)) <$> l)) = Some l.
Proof.
  assert (∀ g, as_member ((λ g, (group_name g, g)) <$> FEATURE_GROUPS) (VStr (u (group_name g))) = Some g) as Hg
    by (intros []; vm_compute; reflexivity).
  induction l as [|g l IH]; [done|]. rewrite !fmap_cons. cbn [mapM]. by rewrite Hg, IH.
Qed.

(** Compute a shape around a list that is read back. *)
Ltac shape_list E L := generalize E; generalize L; intros ? HE; vm_compute in HE; vm_compute; by rewrite HE.

Lemma shape_read p : payload_shape (fields_of (payload_value p)) (eventType p) = Some p.
Proof.
  destruct p as [h|n [] ids s|n [] m us ms|n [] gs|ids []|t a h|t a c r|t a|t a r|o c b|o c|o|o r|c r|[]|m rs|c];
    repeat match goal with x : option _ |- _ => destruct x end;
    first [ reflexivity
          | match goal with ids : list jstr |- _ => unfold payload_value, texts; shape_list (mapM_texts ids) (VStr <$> ids) end
          | match goal with gs : list FeatureGroup |- _ =>
              unfold payload_value, texts; shape_list (mapM_groups gs) (VStr <$> ((λ g, u (group_name g)) <$> gs)) end
          | destruct us as [[?|] [?|] [?|]]; reflexivity ].
Qed.

Lemma keys_read p : strict (fields_of (payload_value p)) (payload_keys (eventType p)) = true.
Proof. destruct p as [| |? ? []| | | |? ? ? []| | |? ? []| | | | | |[]|]; vm_compute; reflexivity. Qed.

Lemma payload_read p : payload_ok p = true → payload_of (eventType p) (payload_value p) = Some p.
Proof.
  intros Hp. pose proof (shape_read p) as Hs. pose proof (keys_read p) as Hk. unfold payload_of.
  unfold payload_value in *. cbn [fields_of] in *. rewrite Hk, Hs. simpl. by rewrite Hp.
Qed.

(** A payload has the event type it was read under, and meets its bounds. *)
Lemma shape_type fs ty p : payload_shape fs ty = Some p → eventType p = ty.
Proof.
  unfold payload_shape. intros H.
  repeat match type of H with
  | (if String.eqb ?a ?b then _ else _) = _ => destruct (String.eqb_spec a b) as [->|_]
  | _ ≫= _ = Some _ => apply bind_Some in H as (? & ? & H)
  | _ <$> _ = Some _ => apply fmap_Some in H as (? & ? & H)
  end; first [done | by injection H as <- | by subst].
Qed.

Lemma payload_of_facts ty v p : payload_of ty v = Some p → eventType p = ty ∧ payload_ok p = true.
Proof.
  unfold payload_of. destruct v; try done. destruct (strict _ _); [|done]. intros H.
  apply bind_Some in H as (q & Hq & H). destruct (payload_ok q) eqn:E; [|done]. injection H as <-.
  by split; [eapply shape_type|].
Qed.

Lemma parse_own p q : parseRunEventPayload (eventType p) (payload_value p) = Ok q → q = p.
Proof.
  intros Hq. unfold parseRunEventPayload in Hq. destruct (payload_of _ (payload_value p)) as [q'|] eqn:E; [|done].
  destruct (MAX_PAYLOAD_BYTES <? _); [done|]. injection Hq as ->.
  unfold payload_of in E. pose proof (shape_read p) as Hs. unfold payload_value in E, Hs. cbn [fields_of] in Hs.
  destruct (strict _ _); [|done]. rewrite Hs in E. simpl in E. destruct (payload_ok p); [|done]. by injection E.
Qed.

Lemma encode_ok p v :
  encodeRunEventPayload p = Ok v ↔ v = payload_value p ∧ parseRunEventPayload (eventType p) (payload_value p) = Ok p.
Proof.
  unfold encodeRunEventPayload. rewrite rbind_ok. split.
  - intros (q & Hq & [= <-]). pose proof (parse_own p q Hq) as ->. done.
  - intros [-> Hp]. by exists p.
Qed.

Lemma parse_facts ty v q :
  parseRunEventPayload ty v = Ok q →
  eventType q = ty ∧ payload_ok q = true ∧ jsonByteLength (payload_value q) ≤ MAX_PAYLOAD_BYTES ∧
  parseRunEventPayload ty (payload_value q) = Ok q.
Proof.
  intros H. unfold parseRunEventPayload in H |- *. destruct (payload_of ty v) as [q'|] eqn:E; [|done].
  destruct (MAX_PAYLOAD_BYTES <? _) eqn:Hs; [done|]. injection H as ->.
  destruct (payload_of_facts _ _ _ E) as [<- Hok]. rewrite payload_read, Hs by done. by zbool.
Qed.

(** C40: Run-event payloads survive the journal.  What is encoded is read back as the same
    payload; and whatever is read at all, from any stored value under any event type, is a
    payload of that type within its bounds, which encodes again. *)
Theorem event_payload_roundtrip p :
  (∀ v, encodeRunEventPayload p = Ok v → parseRunEventPayload (eventType p) v = Ok p) ∧
  (∀ ty v q, parseRunEventPayload ty v = Ok q →
     eventType q = ty ∧ payload_ok q = true ∧ jsonByteLength (payload_value q) ≤ MAX_PAYLOAD_BYTES ∧
     encodeRunEventPayload q = Ok (payload_value q)).
Proof.
  split.
  - by intros v [-> H]%encode_ok.
  - intros ty v q H. destruct (parse_facts _ _ _ H) as (<- & Hok & Hsz & Hr). split_and!; try done. by apply encode_ok.
Qed.

Lemma event_payload_roundtrip_witness :
  let p := tool_denied (u "t") (u "clockify_tags_delete") (u "policy_denied") None in
  encodeRunEventPayload p = Ok (payload_value p) ∧
  parseRunEventPayload "tool.denied" (payload_value p) = Ok p.
Proof.
  intros p. split; [vm_compute; reflexivity|]. apply (event_payload_roundtrip p). vm_compute. reflexivity.
Defined.
