(* ===== verification/RunStore.v ===== *)
(** * Turns, runs and the run journal

    [db/store/turn-runs.ts], [db/store/runs.ts], [db/store/run-events.ts] and the host-call
    ledger of [db/store.ts]: one claimed turn per HTTP request, one active assistant run per
    session, and a numbered journal of events in which every change of a run is committed
    together with its event. *)
From S2P Require Import Prelude Js SafeJson ActionResults SessionTables RunTables RunEvents Confirmations Db Discriminators Plan Journal Store ConfirmStore.
From S2P Require RunBudget.
Open Scope Z_scope.
#[local] Arguments u : simpl never.
#[local] Existing Instance RunBudget.RunPhase_dec.

(** ** Turns *)

Record TurnRunClaimInput := {
  claim_request : jstr;
  claim_session : jstr;
  claim_workspace : jstr;
  claim_admin : jstr;
  claim_intent : jstr;
}.
Inductive TurnRunClaimResult : Type :=
| turn_won | turn_in_flight | turn_conflict | turn_outcome_unknown | turn_replay (response : jsval).

Definition put_turn (session request : jstr) (r : TurnRow) (d : db) : db :=
  set_run_tables (set_turns (<[(session, request) := r]> d.(run_tables).(turn_runs)) d.(run_tables)) d.

Definition prepared_turn (workspace admin intent : jstr) (now : Z) : TurnRow :=
  {| turn_workspace := workspace; turn_admin := admin; intent_hash := intent; turn_status := TurnPrepared;
     response_envelope := None; turn_links := []; turn_created_at := now; turn_updated_at := now |}.

Definition insert_turn (session request : jstr) (r : TurnRow) : M unit := λ d,
  match d.(run_tables).(turn_runs) !! (session, request) with
  | Some _ => Throw constraint_failed
  | None => Ok (tt, put_turn session request r d)
  end.

(** The stored results of a settled turn; confirmations are served by the replay path. *)
Definition linked_result (d : db) (l : DurableLink) : list jsval :=
  match l with
  | link_action_result a => match d.(action_results) !! a with Some r => [r.(result_json)] | None => [] end
  | link_confirmation _ => []
  | link_descriptor _ v => match v with Some v => [v] | None => [] end
  end.

(** [{ ...response, body: { ...body, results } }] when there is a body. *)
Definition with_results (response : jsval) (results : list jsval) : jsval :=
  let body := prop (u "body") response in
  if is_object body
  then VObj (fields_set (u "body") (VObj (fields_set (u "results") (VArr results) (fields_of body)))
               (fields_of response))
  else response.

Definition claimTurnRun (i : TurnRunClaimInput) (now : Z) : M TurnRunClaimResult :=
  do! d := getdb in
  match d.(run_tables).(turn_runs) !! (i.(claim_session), i.(claim_request)) with
  | Some r =>
      if negb (bool_decide (r.(intent_hash) = i.(claim_intent))) then mreturn turn_conflict
      else
        match r.(turn_status), r.(response_envelope) with
        | (TurnPrepared | TurnExecuting), _ => mreturn turn_in_flight
        | _, Some response => mreturn (turn_replay (with_results response (r.(turn_links) ≫= linked_result d)))
        | _, None => mreturn turn_outcome_unknown
        end
  | None =>
      do! _ := insert_turn i.(claim_session) i.(claim_request)
        (prepared_turn i.(claim_workspace) i.(claim_admin) i.(claim_intent) now) in
      mreturn turn_won
  end.

Definition with_turn_status (s : TurnStatus) (now : Z) (r : TurnRow) : TurnRow :=
  {| turn_workspace := r.(turn_workspace); turn_admin := r.(turn_admin); intent_hash := r.(intent_hash);
     turn_status := s; response_envelope := r.(response_envelope); turn_links := r.(turn_links);
     turn_created_at := r.(turn_created_at); turn_updated_at := now |}.
Definition settled_turn (s : TurnStatus) (envelope : jsval) (links : list DurableLink) (now : Z) (r : TurnRow) : TurnRow :=
  {| turn_workspace := r.(turn_workspace); turn_admin := r.(turn_admin); intent_hash := r.(intent_hash);
     turn_status := s; response_envelope := Some envelope; turn_links := links;
     turn_created_at := r.(turn_created_at); turn_updated_at := now |}.

Definition markTurnRunExecuting (session request : jstr) (now : Z) : M unit := λ d,
  match d.(run_tables).(turn_runs) !! (session, request) with
  | Some r => Ok (tt, if bool_decide (r.(turn_status) = TurnPrepared)
                      then put_turn session request (with_turn_status TurnExecuting now r) d else d)
  | None => Ok (tt, d)
  end.

(** The response without its results and its hydrated events. *)
Definition turn_envelope (response : jsval) : jsval :=
  let value := if is_object response then response else VObj [] in
  let body := prop (u "body") value in
  if is_object body
  then VObj (fields_set (u "body")
         (VObj (filter (λ f, f.1 ≠ u "results" ∧ f.1 ≠ u "runEvents") (fields_of body))) (fields_of value))
  else value.

(** [turn_run_result_links] refers to its turn. *)
Definition finishTurnRun (session request : jstr) (s : TurnStatus) (response : jsval) (links : list DurableLink)
    (now : Z) : M unit :=
  do! envelope := lift (json_column (turn_envelope response)) in
  do! d := getdb in
  match d.(run_tables).(turn_runs) !! (session, request) with
  | Some r => putdb (put_turn session request (settled_turn s envelope links now r) d)
  | None => if bool_decide (length links = 0%nat) then mreturn tt else mthrow constraint_failed
  end.

Definition getTurnRun (session request : jstr) (d : db) : option TurnRow :=
  d.(run_tables).(turn_runs) !! (session, request).

(** ** Runs *)

Record AssistantRunScope := {
  scope_session : jstr;
  scope_run : jstr;
  scope_workspace : jstr;
  scope_admin : jstr;
  scope_generation : Z;
  scope_auth : AuthClass;
}.

Record CompletedToolResult := { completed_call : jstr; completed_action : jstr; completed_result : jstr }.

Record RunState := {
  state_scope : AssistantRunScope;
  state_request : jstr;
  state_request_hash : jstr;
  state_phase : RunBudget.RunPhase;
  state_catalog : jstr;
  state_loaded : list jstr;
  state_used : list jstr;
  state_completed : list CompletedToolResult;
  state_pending : list jstr;
  state_unfinished : jsval;
  state_continuation : RunContinuation;
  state_budget : RunBudget.RunBudget;
  state_created_at : Z;
  state_updated_at : Z;
}.

(** [scopeWhere] *)
Definition in_run_scope (x : AssistantRunScope) (r : AssistantRunRow) : bool :=
  bool_decide (r.(arun_workspace) = x.(scope_workspace)) && bool_decide (r.(arun_admin) = x.(scope_admin)) &&
  bool_decide (r.(arun_generation) = x.(scope_generation)) && bool_decide (r.(arun_auth) = x.(scope_auth)).
Definition scoped_run (x : AssistantRunScope) (d : db) : option AssistantRunRow :=
  r ← d.(run_tables).(assistant_runs) !! (x.(scope_session), x.(scope_run));
  if in_run_scope x r then Some r else None.

Definition active_phase (p : RunBudget.RunPhase) : bool := negb (RunBudget.isTerminalPhase p).

(** *** The constraints of [assistant_runs] *)

Definition names_json (l : list jstr) : jsval := VArr (VStr <$> l).
Definition continuation_json (c : RunContinuation) : jsval := VObj
  match c with
  | continue_none => [(u "kind", VStr (u "none"))]
  | awaiting_operations ids batch =>
      [(u "kind", VStr (u "awaiting_operations")); (u "operationIds", names_json ids)] ++
      match batch with Some b => [(u "batchId", VStr b)] | None => [] end
  | RunTables.awaiting_clarification c =>
      [(u "kind", VStr (u "awaiting_clarification")); (u "clarificationId", VStr c)]
  end.
Definition budget_value (b : RunBudget.RunBudget) : jsval := VObj
  [(u "modelCallsUsed", num (RunBudget.modelCallsUsed b));
   (u "discoveryCallsUsed", num (RunBudget.discoveryCallsUsed b));
   (u "apiCallsUsed", num (RunBudget.apiCallsUsed b)); (u "hostCallsUsed", num (RunBudget.hostCallsUsed b));
   (u "hostCallsReserved", num (RunBudget.hostCallsReserved b));
   (u "promptTokensUsed", num (RunBudget.promptTokensUsed b));
   (u "completionTokensUsed", num (RunBudget.completionTokensUsed b));
   (u "estimatedTokensUsed", num (RunBudget.estimatedTokensUsed b));
   (u "activeWallMsUsed", num (RunBudget.activeWallMsUsed b))].

Definition arun_ok (r : AssistantRunRow) : bool :=
  (0 <=? r.(arun_generation)) && (Z.of_N (utf8_length r.(original_request)) <=? 16000) &&
  bool_decide (length r.(arun_request_hash) = 64%nat) && bool_decide (length r.(arun_catalog_hash) = 64%nat) &&
  (jsonByteLength (names_json r.(loaded_tool_names)) <=? 8192) &&
  (jsonByteLength (names_json r.(used_tool_names)) <=? 8192) &&
  (jsonByteLength (continuation_json r.(continuation)) <=? 65536) &&
  (jsonByteLength (budget_value r.(budget_json)) <=? 4096) &&
  (jsonByteLength r.(unfinished_operations) <=? 16384).

(** [idx_assistant_runs_one_active_per_session], seen from a row. *)
Definition rival_run (session run : jstr) (r : AssistantRunRow) (d : db) : bool :=
  active_phase r.(phase) &&
  existsb (λ kv, bool_decide (kv.1.1 = session) && negb (bool_decide (kv.1.2 = run)) && active_phase kv.2.(phase))
          (map_to_list d.(run_tables).(assistant_runs)).

Definition put_arun (session run : jstr) (r : AssistantRunRow) (d : db) : db :=
  set_run_tables (set_aruns (<[(session, run) := r]> d.(run_tables).(assistant_runs)) d.(run_tables)) d.

Definition insert_arun (session run : jstr) (r : AssistantRunRow) : M unit := λ d,
  match d.(run_tables).(assistant_runs) !! (session, run), d.(run_tables).(turn_runs) !! (session, run) with
  | None, Some t =>
      if arun_ok r && bool_decide (t.(turn_workspace) = r.(arun_workspace)) &&
         bool_decide (t.(turn_admin) = r.(arun_admin)) && negb (rival_run session run r d)
      then Ok (tt, put_arun session run r d) else Throw constraint_failed
  | _, _ => Throw constraint_failed
  end.

(** [UPDATE assistant_runs SET ... WHERE scope AND p]: is it one row? *)
Definition update_arun (x : AssistantRunScope) (p : AssistantRunRow → bool) (f : AssistantRunRow → AssistantRunRow)
    : M bool := λ d,
  match scoped_run x d with
  | Some r =>
      if p r then
        if arun_ok (f r) && negb (rival_run x.(scope_session) x.(scope_run) (f r) d)
        then Ok (true, put_arun x.(scope_session) x.(scope_run) (f r) d) else Throw constraint_failed
      else Ok (false, d)
  | None => Ok (false, d)
  end.

(** *** Links *)

Definition put_request_link (l : RequestLinkRow) (d : db) : db :=
  set_run_tables (set_request_links (d.(run_tables).(request_links) ++ [l]) d.(run_tables)) d.

(** The keys and references of [assistant_run_request_links]; one initial link per run. *)
Definition insert_request_link (x : AssistantRunScope) (request : jstr) (initial : bool) : M unit := λ d,
  let links := d.(run_tables).(request_links) in
  let turn := d.(run_tables).(turn_runs) !! (x.(scope_session), request) in
  if existsb (λ l, bool_decide (l.(request_session) = x.(scope_session)) &&
                   (bool_decide (l.(request_request) = request) ||
                    (initial && l.(request_initial) && bool_decide (l.(request_run) = x.(scope_run))))) links ||
     negb (initial || negb (bool_decide (request = x.(scope_run)))) ||
     match turn with
     | Some t => negb (bool_decide (t.(turn_workspace) = x.(scope_workspace)) &&
                       bool_decide (t.(turn_admin) = x.(scope_admin)))
     | None => true
     end ||
     negb (run_in_scope d.(run_tables) x.(scope_session) x.(scope_run) x.(scope_workspace) x.(scope_admin))
  then Throw constraint_failed
  else Ok (tt, put_request_link {| request_session := x.(scope_session); request_request := request;
                                   request_run := x.(scope_run); request_initial := initial |} d).

Definition link_sized (s : jstr) : bool := (1 <=? Z.of_N (utf8_length s)) && (Z.of_N (utf8_length s) <=? 256).

(** [INSERT ... ON CONFLICT(session_id, run_id, tool_call_id) DO NOTHING] *)
Definition insert_result_link (x : AssistantRunScope) (sequence : Z) (c : CompletedToolResult) : M unit := λ d,
  let mine := filter (λ l, l.(link_session) = x.(scope_session) ∧ l.(link_run) = x.(scope_run))
                d.(run_tables).(result_links) in
  if existsb (λ l, bool_decide (l.(link_tool_call) = c.(completed_call))) mine then Ok (tt, d)
  else if existsb (λ l, l.(link_sequence) =? sequence) mine ||
          negb (link_sized c.(completed_call) && link_sized c.(completed_action)) ||
          negb (run_in_scope d.(run_tables) x.(scope_session) x.(scope_run) x.(scope_workspace) x.(scope_admin)) ||
          match d.(action_results) !! c.(completed_result) with
          | Some r => negb (bool_decide (r.(result_session_id) = Some x.(scope_session)) &&
                            bool_decide (r.(result_workspace_id) = x.(scope_workspace)) &&
                            bool_decide (r.(result_admin_user_id) = x.(scope_admin)))
          | None => true
          end
  then Throw constraint_failed
  else Ok (tt, set_run_tables (set_result_links (d.(run_tables).(result_links) ++
         [{| link_session := x.(scope_session); link_run := x.(scope_run); link_sequence := sequence;
             link_tool_call := c.(completed_call); link_action := c.(completed_action);
             link_result := c.(completed_result) |}]) d.(run_tables)) d).

Definition insert_result_links (x : AssistantRunScope) (l : list CompletedToolResult) : M unit :=
  for_each (imap pair l) (λ p, insert_result_link x (Z.of_nat p.1 + 1) p.2).

(** *** The journal *)

Definition event_of (session run : jstr) (e : RunEventRow) : bool :=
  bool_decide (e.(event_session) = session) && bool_decide (e.(event_run) = run).

(** [COALESCE(MAX(sequence), 0)] of the rows that match. *)
Definition last_sequence (p : RunEventRow → bool) (l : list RunEventRow) : Z :=
  foldr (λ e acc, if p e then Z.max e.(event_sequence) acc else acc) 0 l.
Definition next_sequence (session run : jstr) (d : db) : Z :=
  last_sequence (event_of session run) d.(run_tables).(run_events) + 1.

Definition insert_event (e : RunEventRow) : M unit := λ d,
  if existsb (λ e2, event_of e.(event_session) e.(event_run) e2 && (e2.(event_sequence) =? e.(event_sequence)))
       d.(run_tables).(run_events) ||
     (e.(event_sequence) <=? 0) || negb (existsb (String.eqb e.(event_type)) RUN_EVENT_TYPES) ||
     (MAX_PAYLOAD_BYTES <? jsonByteLength e.(payload_json)) ||
     negb (run_in_scope d.(run_tables) e.(event_session) e.(event_run) e.(event_workspace) e.(event_admin))
  then Throw constraint_failed
  else Ok (tt, set_run_tables (set_events (d.(run_tables).(run_events) ++ [e]) d.(run_tables)) d).

Record SequencedRunEvent := {
  sequenced_run : jstr;
  sequenced_number : Z;
  sequenced_payload : RunEventPayload;
  sequenced_at : Z;
}.

(** The number, the bounded payload and the row. *)
Definition allocateAndInsertEvent (x : AssistantRunScope) (p : RunEventPayload) (now : Z) : M SequencedRunEvent :=
  do! d := getdb in
  let n := next_sequence x.(scope_session) x.(scope_run) d in
  do! stored := lift (encodeRunEventPayload p) in
  do! _ := insert_event {| event_session := x.(scope_session); event_run := x.(scope_run); event_sequence := n;
    event_workspace := x.(scope_workspace); event_admin := x.(scope_admin); event_type := eventType p;
    payload_json := stored; event_created_at := now |} in
  mreturn {| sequenced_run := x.(scope_run); sequenced_number := n; sequenced_payload := p; sequenced_at := now |}.

(** *** Updating a run *)

Record RunPatch := {
  patch_phase : option RunBudget.RunPhase;
  patch_catalog : option jstr;
  patch_loaded : option (list jstr);
  patch_used : option (list jstr);
  patch_continuation : option RunContinuation;
  patch_budget : option RunBudget.RunBudget;
  patch_unfinished : option jsval;
  patch_completed : option (list CompletedToolResult);
}.

(** [{ ...budget, hostCallsUsed }] *)
Definition with_host_used (n : Z) (b : RunBudget.RunBudget) : RunBudget.RunBudget :=
  {| RunBudget.modelCallsUsed := RunBudget.modelCallsUsed b;
     RunBudget.discoveryCallsUsed := RunBudget.discoveryCallsUsed b;
     RunBudget.apiCallsUsed := RunBudget.apiCallsUsed b; RunBudget.hostCallsUsed := n;
     RunBudget.hostCallsReserved := RunBudget.hostCallsReserved b;
     RunBudget.promptTokensUsed := RunBudget.promptTokensUsed b;
     RunBudget.completionTokensUsed := RunBudget.completionTokensUsed b;
     RunBudget.estimatedTokensUsed := RunBudget.estimatedTokensUsed b;
     RunBudget.activeWallMsUsed := RunBudget.activeWallMsUsed b |}.
Definition with_reserved (n : Z) (b : RunBudget.RunBudget) : RunBudget.RunBudget :=
  {| RunBudget.modelCallsUsed := RunBudget.modelCallsUsed b;
     RunBudget.discoveryCallsUsed := RunBudget.discoveryCallsUsed b;
     RunBudget.apiCallsUsed := RunBudget.apiCallsUsed b; RunBudget.hostCallsUsed := RunBudget.hostCallsUsed b;
     RunBudget.hostCallsReserved := n; RunBudget.promptTokensUsed := RunBudget.promptTokensUsed b;
     RunBudget.completionTokensUsed := RunBudget.completionTokensUsed b;
     RunBudget.estimatedTokensUsed := RunBudget.estimatedTokensUsed b;
     RunBudget.activeWallMsUsed := RunBudget.activeWallMsUsed b |}.

Definition ledger_used (r : AssistantRunRow) : Z := RunBudget.hostCallsUsed r.(budget_json).

(** The ledger's counter is never the patch's. *)
Definition patched_run (p : RunPatch) (now : Z) (r : AssistantRunRow) : AssistantRunRow :=
  {| arun_workspace := r.(arun_workspace); arun_admin := r.(arun_admin); arun_generation := r.(arun_generation);
     arun_auth := r.(arun_auth); original_request := r.(original_request); arun_request_hash := r.(arun_request_hash);
     phase := default r.(phase) p.(patch_phase); arun_catalog_hash := default r.(arun_catalog_hash) p.(patch_catalog);
     loaded_tool_names := default r.(loaded_tool_names) p.(patch_loaded);
     used_tool_names := default r.(used_tool_names) p.(patch_used);
     continuation := default r.(continuation) p.(patch_continuation);
     budget_json := match p.(patch_budget) with
                    | Some b => with_host_used (ledger_used r) b | None => r.(budget_json) end;
     unfinished_operations := default r.(unfinished_operations) p.(patch_unfinished);
     arun_created_at := r.(arun_created_at); arun_updated_at := now |}.

Definition updateRunState (x : AssistantRunScope) (p : RunPatch) (now : Z) : M unit :=
  do! d := getdb in
  match scoped_run x d with
  | None => mthrow "assistant_run_not_found"
  | Some _ =>
      do! _ := update_arun x (λ _, true) (patched_run p now) in
      match p.(patch_completed) with
      | Some l => insert_result_links x l
      | None => mreturn tt
      end
  end.

(** Every command writes the whole state. *)
Definition patch_of (s : RunState) (ph : RunBudget.RunPhase) (c : RunContinuation) : RunPatch :=
  {| patch_phase := Some ph; patch_catalog := Some s.(state_catalog); patch_loaded := Some s.(state_loaded);
     patch_used := Some s.(state_used); patch_continuation := Some c; patch_budget := Some s.(state_budget);
     patch_unfinished := Some s.(state_unfinished); patch_completed := Some s.(state_completed) |}.

(** ** Commands *)

Definition state_with (s : RunState) (ph : RunBudget.RunPhase) (c : RunContinuation) (b : RunBudget.RunBudget)
    (l : list CompletedToolResult) : RunState :=
  {| state_scope := s.(state_scope); state_request := s.(state_request); state_request_hash := s.(state_request_hash);
     state_phase := ph; state_catalog := s.(state_catalog); state_loaded := s.(state_loaded);
     state_used := s.(state_used); state_completed := l; state_pending := s.(state_pending);
     state_unfinished := s.(state_unfinished); state_continuation := c; state_budget := b;
     state_created_at := s.(state_created_at); state_updated_at := s.(state_updated_at) |}.
Definition state_phased (s : RunState) (ph : RunBudget.RunPhase) : RunState :=
  state_with s ph s.(state_continuation) s.(state_budget) s.(state_completed).
Definition state_budgeted (s : RunState) (b : RunBudget.RunBudget) (ph : RunBudget.RunPhase) : RunState :=
  state_with s ph s.(state_continuation) b s.(state_completed).
Definition state_completing (s : RunState) (l : list CompletedToolResult) : RunState :=
  state_with s s.(state_phase) s.(state_continuation) s.(state_budget) l.

(** The state and its event, in one transaction. *)
Definition commitStateEvent (x : AssistantRunScope) (s : RunState) (ph : option RunBudget.RunPhase)
    (p : RunEventPayload) (now : Z) : M SequencedRunEvent :=
  do! _ := updateRunState x (patch_of s (default s.(state_phase) ph) s.(state_continuation)) now in
  allocateAndInsertEvent x p now.

Definition counted_model (b : RunBudget.RunBudget) : RunBudget.RunBudget :=
  {| RunBudget.modelCallsUsed := RunBudget.modelCallsUsed b + 1;
     RunBudget.discoveryCallsUsed := RunBudget.discoveryCallsUsed b;
     RunBudget.apiCallsUsed := RunBudget.apiCallsUsed b; RunBudget.hostCallsUsed := RunBudget.hostCallsUsed b;
     RunBudget.hostCallsReserved := RunBudget.hostCallsReserved b;
     RunBudget.promptTokensUsed := RunBudget.promptTokensUsed b;
     RunBudget.completionTokensUsed := RunBudget.completionTokensUsed b;
     RunBudget.estimatedTokensUsed := RunBudget.estimatedTokensUsed b;
     RunBudget.activeWallMsUsed := RunBudget.activeWallMsUsed b |}.
Definition counted_discovery (b : RunBudget.RunBudget) : RunBudget.RunBudget :=
  {| RunBudget.modelCallsUsed := RunBudget.modelCallsUsed b;
     RunBudget.discoveryCallsUsed := RunBudget.discoveryCallsUsed b + 1;
     RunBudget.apiCallsUsed := RunBudget.apiCallsUsed b; RunBudget.hostCallsUsed := RunBudget.hostCallsUsed b;
     RunBudget.hostCallsReserved := RunBudget.hostCallsReserved b;
     RunBudget.promptTokensUsed := RunBudget.promptTokensUsed b;
     RunBudget.completionTokensUsed := RunBudget.completionTokensUsed b;
     RunBudget.estimatedTokensUsed := RunBudget.estimatedTokensUsed b;
     RunBudget.activeWallMsUsed := RunBudget.activeWallMsUsed b |}.
Definition counted_api (b : RunBudget.RunBudget) : RunBudget.RunBudget :=
  {| RunBudget.modelCallsUsed := RunBudget.modelCallsUsed b;
     RunBudget.discoveryCallsUsed := RunBudget.discoveryCallsUsed b;
     RunBudget.apiCallsUsed := RunBudget.apiCallsUsed b + 1; RunBudget.hostCallsUsed := RunBudget.hostCallsUsed b;
     RunBudget.hostCallsReserved := RunBudget.hostCallsReserved b;
     RunBudget.promptTokensUsed := RunBudget.promptTokensUsed b;
     RunBudget.completionTokensUsed := RunBudget.completionTokensUsed b;
     RunBudget.estimatedTokensUsed := RunBudget.estimatedTokensUsed b;
     RunBudget.activeWallMsUsed := RunBudget.activeWallMsUsed b |}.

(** [model.started]: only the first attempt of a call is counted. *)
Definition reserveModelCallWithEvent (x : AssistantRunScope) (s : RunState) (call : Z) (second : bool)
    (loaded : list jstr) (seeded : bool) (now : Z) : M SequencedRunEvent :=
  let b := if second then s.(state_budget) else counted_model s.(state_budget) in
  commitStateEvent x (state_budgeted s b RunBudget.phase_model) (Some RunBudget.phase_model)
    (model_started call second loaded seeded) now.
Definition completeModelCallWithEvent (x : AssistantRunScope) (s : RunState) (call : Z) (second : bool)
    (message : option jstr) (us : EventUsage) (latency now : Z) : M SequencedRunEvent :=
  commitStateEvent x s None (model_completed call second message us latency) now.
Definition reserveDiscoveryCallWithEvent (x : AssistantRunScope) (s : RunState) (index : Z) (a : SearchAccess)
    (groups : list Policy.Permissions.FeatureGroup) (now : Z) : M SequencedRunEvent :=
  commitStateEvent x (state_budgeted s (counted_discovery s.(state_budget)) RunBudget.phase_discovering)
    (Some RunBudget.phase_discovering) (api_search_started index a groups) now.
Definition loadOperationsWithEvent (x : AssistantRunScope) (s : RunState) (ids : list jstr) (src : LoadSource)
    (now : Z) : M SequencedRunEvent :=
  commitStateEvent x s None (api_operations_loaded ids src) now.
Definition requestToolWithEvent (x : AssistantRunScope) (s : RunState) (call action hash : jstr) (now : Z)
    : M SequencedRunEvent := commitStateEvent x s None (tool_requested call action hash) now.
Definition denyToolWithEvent (x : AssistantRunScope) (s : RunState) (call action code : jstr)
    (result : option jstr) (now : Z) : M SequencedRunEvent :=
  commitStateEvent x s None (tool_denied call action code result) now.
Definition startToolWithEvent (x : AssistantRunScope) (s : RunState) (call action : jstr) (now : Z)
    : M SequencedRunEvent :=
  commitStateEvent x (state_budgeted s (counted_api s.(state_budget)) RunBudget.phase_executing_reads)
    (Some RunBudget.phase_executing_reads) (tool_started call action) now.

Definition completeToolWithEvent (x : AssistantRunScope) (s : RunState) (call action result : jstr) (now : Z)
    : M SequencedRunEvent :=
  let linked := existsb (λ r, bool_decide (r.(completed_call) = call)) s.(state_completed) in
  let l := if linked then s.(state_completed)
           else s.(state_completed) ++ [{| completed_call := call; completed_action := action; completed_result := result |}] in
  commitStateEvent x (state_completing s l) None (tool_completed call action result) now.

Definition requireClarificationWithEvent (x : AssistantRunScope) (s : RunState) (clarification result : jstr)
    (now : Z) : M SequencedRunEvent :=
  commitStateEvent x s None (clarification_required clarification result) now.
Definition suspended_phase (r : SuspendReason) : RunBudget.RunPhase :=
  match r with
  | awaiting_confirmation => RunBudget.phase_awaiting_confirmation
  | awaiting_clarification => RunBudget.phase_awaiting_clarification
  end.
Definition suspendRunWithEvent (x : AssistantRunScope) (s : RunState) (r : SuspendReason) (now : Z)
    : M SequencedRunEvent :=
  commitStateEvent x (state_phased s (suspended_phase r)) (Some (suspended_phase r)) (run_suspended r) now.

(** The question and the suspension on it, together. *)
Definition requireClarificationAndSuspendWithEvents (x : AssistantRunScope) (s : RunState)
    (clarification result : jstr) (now : Z) : M (SequencedRunEvent * SequencedRunEvent) :=
  do! _ := updateRunState x (patch_of s RunBudget.phase_awaiting_clarification s.(state_continuation)) now in
  do! a := allocateAndInsertEvent x (clarification_required clarification result) now in
  do! b := allocateAndInsertEvent x (run_suspended awaiting_clarification) now in
  mreturn (a, b).

Definition completeRunWithEvent (x : AssistantRunScope) (s : RunState) (message : option jstr) (results : list jstr)
    (now : Z) : M SequencedRunEvent :=
  commitStateEvent x (state_phased s RunBudget.phase_completed) (Some RunBudget.phase_completed)
    (run_completed message results) now.
Definition failRunWithEvent (x : AssistantRunScope) (s : RunState) (code : jstr) (now : Z) : M SequencedRunEvent :=
  commitStateEvent x (state_phased s RunBudget.phase_failed) (Some RunBudget.phase_failed) (run_failed code) now.

(** One [operation.completed] per settled member. *)
Fixpoint complete_members (x : AssistantRunScope) (l : list (jstr * option jstr)) (now : Z) : M unit :=
  match l with
  | [] => mreturn tt
  | (op, Some a) :: l' =>
      do! _ := allocateAndInsertEvent x (operation_completed op a) now in complete_members x l' now
  | (_, None) :: l' => complete_members x l' now
  end.
Definition completeRunAfterBatchWithEvents (x : AssistantRunScope) (s : RunState) (items : list (jstr * option jstr))
    (now : Z) : M SequencedRunEvent :=
  do! _ := complete_members x items now in
  do! _ := updateRunState x (patch_of s RunBudget.phase_completed continue_none) now in
  allocateAndInsertEvent x (run_completed None (omap snd items)) now.

Definition completeRunAfterConfirmationWithEvents (x : AssistantRunScope) (s : RunState)
    (operation confirmation : jstr) (withClaim : bool) (result : option jstr) (now : Z) : M SequencedRunEvent :=
  do! _ := (if withClaim then
              do! _ := allocateAndInsertEvent x (operation_confirmed operation confirmation) now in
              do! _ := allocateAndInsertEvent x (operation_started operation) now in mreturn tt
            else mreturn tt) in
  do! _ := (match result with
            | Some a => do! _ := allocateAndInsertEvent x (operation_completed operation a) now in mreturn tt
            | None => mreturn tt
            end) in
  do! _ := updateRunState x (patch_of s RunBudget.phase_completed continue_none) now in
  allocateAndInsertEvent x (run_completed None (match result with Some a => [a] | None => [] end)) now.

(** ** Starting a run *)

Record StartAssistantRunInput := {
  start_scope : AssistantRunScope;
  start_request : jstr;
  start_request_hash : jstr;
  start_catalog : jstr;
  start_loaded : list jstr;
  start_intent : jstr;
  start_request_id : option jstr;
}.

Definition started_run (i : StartAssistantRunInput) (now : Z) : AssistantRunRow :=
  {| arun_workspace := i.(start_scope).(scope_workspace); arun_admin := i.(start_scope).(scope_admin);
     arun_generation := i.(start_scope).(scope_generation); arun_auth := i.(start_scope).(scope_auth);
     original_request := i.(start_request); arun_request_hash := i.(start_request_hash);
     phase := RunBudget.phase_model; arun_catalog_hash := i.(start_catalog); loaded_tool_names := i.(start_loaded);
     used_tool_names := []; continuation := continue_none; budget_json := RunBudget.createEmptyRunBudget;
     unfinished_operations := VArr []; arun_created_at := now; arun_updated_at := now |}.

(** The turn and the run. *)
Definition insert_run_rows (i : StartAssistantRunInput) (now : Z) : M unit :=
  let x := i.(start_scope) in
  do! _ := insert_turn x.(scope_session) x.(scope_run)
    (prepared_turn x.(scope_workspace) x.(scope_admin) i.(start_intent) now) in
  insert_arun x.(scope_session) x.(scope_run) (started_run i now).

Definition startRunWithEvent (i : StartAssistantRunInput) (now : Z) : M SequencedRunEvent :=
  let x := i.(start_scope) in
  do! _ := insert_run_rows i now in
  do! d := getdb in
  let initial := match i.(start_request_id) with
                 | Some r => if bool_decide (is_Some (d.(run_tables).(turn_runs) !! (x.(scope_session), r)))
                             then r else x.(scope_run)
                 | None => x.(scope_run)
                 end in
  do! _ := insert_request_link x initial true in
  allocateAndInsertEvent x (run_started i.(start_request_hash)) now.

Definition startRunWithTurn (i : StartAssistantRunInput) (now : Z) : M unit :=
  do! _ := insert_run_rows i now in
  insert_request_link i.(start_scope) i.(start_scope).(scope_run) true.

(** ** Reading *)

Definition links_of (session run : jstr) (d : db) : list ResultLinkRow :=
  filter (λ l, l.(link_session) = session ∧ l.(link_run) = run) d.(run_tables).(result_links).
Definition sequence_le (a b : ResultLinkRow) : Prop := a.(link_sequence) ≤ b.(link_sequence).
#[export] Instance sequence_le_dec a b : Decision (sequence_le a b).
Proof. unfold sequence_le. apply _. Defined.
Definition loadCompletedResults (session run : jstr) (d : db) : list CompletedToolResult :=
  (λ l, {| completed_call := l.(link_tool_call); completed_action := l.(link_action);
           completed_result := l.(link_result) |}) <$> merge_sort sequence_le (links_of session run d).

Definition toRunState (x : AssistantRunScope) (r : AssistantRunRow) (completed : list CompletedToolResult) : RunState :=
  {| state_scope := x; state_request := r.(original_request); state_request_hash := r.(arun_request_hash);
     state_phase := r.(phase); state_catalog := r.(arun_catalog_hash); state_loaded := r.(loaded_tool_names);
     state_used := r.(used_tool_names); state_completed := completed;
     state_pending := match r.(continuation) with awaiting_operations ids _ => ids | _ => [] end;
     state_unfinished := r.(unfinished_operations); state_continuation := r.(continuation);
     state_budget := r.(budget_json); state_created_at := r.(arun_created_at);
     state_updated_at := r.(arun_updated_at) |}.

Definition getRun (x : AssistantRunScope) (d : db) : option RunState :=
  r ← scoped_run x d; Some (toRunState x r (loadCompletedResults x.(scope_session) x.(scope_run) d)).

Definition saveRun (s : RunState) (now : Z) : M unit :=
  do! _ := update_arun s.(state_scope) (λ _, true)
    (patched_run (patch_of s s.(state_phase) s.(state_continuation)) now) in
  insert_result_links s.(state_scope) s.(state_completed).

Definition RUN_SEED_RECENCY_WINDOW_MS : Z := 30 * 60 * 1000.

(** [ORDER BY updated_at DESC LIMIT 1]: one of the latest rows. *)
Definition latest_run (l : list (jstr * AssistantRunRow)) : option (jstr * AssistantRunRow) :=
  foldr (λ kv best, match best with
                    | Some b => if kv.2.(arun_updated_at) <? b.2.(arun_updated_at) then Some b else Some kv
                    | None => Some kv end) None l.
Definition findLatestEligibleRunForCache (session workspace admin : jstr) (generation : Z) (auth : AuthClass)
    (catalog : jstr) (now : Z) (d : db) : option RunState :=
  let scope run := {| scope_session := session; scope_run := run; scope_workspace := workspace;
                      scope_admin := admin; scope_generation := generation; scope_auth := auth |} in
  let rows := omap (λ kv, if bool_decide (kv.1.1 = session) && in_run_scope (scope kv.1.2) kv.2 &&
                             bool_decide (kv.2.(arun_catalog_hash) = catalog) &&
                             bool_decide (kv.2.(phase) = RunBudget.phase_completed) &&
                             (now - RUN_SEED_RECENCY_WINDOW_MS <=? kv.2.(arun_updated_at))
                          then Some (kv.1.2, kv.2) else None)
                (map_to_list d.(run_tables).(assistant_runs)) in
  kv ← latest_run rows; getRun (scope kv.1) d.

(** The active runs of a session. *)
Definition active_runs (session workspace admin : jstr) (d : db) : list (jstr * AssistantRunRow) :=
  omap (λ kv, if bool_decide (kv.1.1 = session) && bool_decide (kv.2.(arun_workspace) = workspace) &&
                 bool_decide (kv.2.(arun_admin) = admin) && active_phase kv.2.(phase)
              then Some (kv.1.2, kv.2) else None) (map_to_list d.(run_tables).(assistant_runs)).

Definition in_scope_event (x : AssistantRunScope) (e : RunEventRow) : bool :=
  event_of x.(scope_session) x.(scope_run) e && bool_decide (e.(event_workspace) = x.(scope_workspace)) &&
  bool_decide (e.(event_admin) = x.(scope_admin)).
Definition getLastSequence (x : AssistantRunScope) (d : db) : Z :=
  last_sequence (in_scope_event x) d.(run_tables).(run_events).

(** [None]: no active run; a second one is [active_run_integrity_violation]. *)
Definition getActiveRunForSession (session workspace admin : jstr) (d : db)
    : result (option (jstr * RunBudget.RunPhase * Z * Z)) :=
  match active_runs session workspace admin d with
  | [] => Ok None
  | [(run, r)] =>
      Ok (Some (run, r.(phase), getLastSequence {| scope_session := session; scope_run := run;
        scope_workspace := workspace; scope_admin := admin; scope_generation := r.(arun_generation);
        scope_auth := r.(arun_auth) |} d, r.(arun_updated_at)))
  | _ => Throw "active_run_integrity_violation"
  end.

Record RunEventPage := {
  page_events : list SequencedRunEvent;
  nextAfter : Z;
  hasMore : bool;
  lastSequence : Z;
}.

Definition event_le (a b : RunEventRow) : Prop := a.(event_sequence) ≤ b.(event_sequence).
#[export] Instance event_le_dec a b : Decision (event_le a b).
Proof. unfold event_le. apply _. Defined.

Definition rowToSequencedEvent (e : RunEventRow) : result SequencedRunEvent :=
  let! p := parseRunEventPayload e.(event_type) e.(payload_json) in
  Ok {| sequenced_run := e.(event_run); sequenced_number := e.(event_sequence); sequenced_payload := p;
        sequenced_at := e.(event_created_at) |}.
Fixpoint map_result {A B} (f : A → result B) (l : list A) : result (list B) :=
  match l with
  | [] => Ok []
  | x :: l' => let! y := f x in let! ys := map_result f l' in Ok (y :: ys)
  end.

Definition listEvents (x : AssistantRunScope) (after : Z) (limit : nat) (d : db) : result RunEventPage :=
  if bool_decide (scoped_run x d = None) then Throw "run_not_found"
  else
    let rows := take (S limit) (merge_sort event_le
      (filter (λ e, (in_scope_event x e && (after <? e.(event_sequence))) = true) d.(run_tables).(run_events))) in
    let more := (limit <? length rows)%nat in
    let! events := map_result rowToSequencedEvent (if more then take limit rows else rows) in
    Ok {| page_events := events;
          nextAfter := match last events with Some e => e.(sequenced_number) | None => after end;
          hasMore := more; lastSequence := getLastSequence x d |}.

(** ** The host-call ledger *)

Definition charged_run (used reserved now : Z) (r : AssistantRunRow) : AssistantRunRow :=
  {| arun_workspace := r.(arun_workspace); arun_admin := r.(arun_admin); arun_generation := r.(arun_generation);
     arun_auth := r.(arun_auth); original_request := r.(original_request); arun_request_hash := r.(arun_request_hash);
     phase := r.(phase); arun_catalog_hash := r.(arun_catalog_hash); loaded_tool_names := r.(loaded_tool_names);
     used_tool_names := r.(used_tool_names); continuation := r.(continuation);
     budget_json := with_reserved reserved (with_host_used used r.(budget_json));
     unfinished_operations := r.(unfinished_operations); arun_created_at := r.(arun_created_at);
     arun_updated_at := now |}.

Definition reserved_of (r : AssistantRunRow) : Z := RunBudget.hostCallsReserved r.(budget_json).

Definition chargeRunHostCall (x : AssistantRunScope) (now : Z) : M bool := λ d,
  match scoped_run x d with
  | Some r => update_arun x (λ r, ledger_used r + reserved_of r <? 60)
                (charged_run (ledger_used r + 1) (reserved_of r) now) d
  | None => Ok (false, d)
  end.
Definition refundRunHostCall (x : AssistantRunScope) (now : Z) : M unit := λ d,
  match scoped_run x d with
  | Some r => (do! _ := update_arun x (λ _, true)
                 (charged_run (Z.max 0 (ledger_used r - 1)) (reserved_of r) now) in mreturn tt) d
  | None => Ok (tt, d)
  end.
Definition convertReservedRunHostCall (x : AssistantRunScope) (now : Z) : M bool := λ d,
  match scoped_run x d with
  | Some r => update_arun x (λ r, (0 <? reserved_of r) || (ledger_used r + reserved_of r <? 60))
                (charged_run (ledger_used r + 1) (Z.max 0 (reserved_of r - 1)) now) d
  | None => Ok (false, d)
  end.

(** ** Failing the active runs of a session *)

(** The override of [db/store.ts].  A row always has a state, so the silent update of
    [runs.ts] is never reached. *)
Definition run_scope_of (session workspace admin : jstr) (kv : jstr * AssistantRunRow) : AssistantRunScope :=
  {| scope_session := session; scope_run := kv.1; scope_workspace := workspace; scope_admin := admin;
     scope_generation := kv.2.(arun_generation); scope_auth := kv.2.(arun_auth) |}.
Fixpoint fail_runs (session workspace admin code : jstr) (now : Z) (l : list (jstr * AssistantRunRow)) : M Z :=
  match l with
  | [] => mreturn 0
  | kv :: l' =>
      do! d := getdb in
      match getRun (run_scope_of session workspace admin kv) d with
      | Some s =>
          do! _ := failRunWithEvent (run_scope_of session workspace admin kv) s code now in
          do! n := fail_runs session workspace admin code now l' in mreturn (n + 1)
      | None => fail_runs session workspace admin code now l'
      end
  end.
Definition failActiveRunsForSession (session workspace admin code : jstr) (now : Z) : M Z :=
  do! d := getdb in fail_runs session workspace admin code now (active_runs session workspace admin d).
