(* ===== verification/RunLife.v ===== *)
(** * The run journal as a log

    An abstract run is a phase, the log of its events and the host calls charged to it.
    The commands of file RunStore refine appending to that log; a page read is a slice of
    it; and the host-call ledger stays within its ceiling. *)
From S2P Require Import Prelude Js SafeJson ActionResults SessionTables RunTables RunEvents Confirmations Db Discriminators Plan Journal Store ConfirmStore RunStore.
From S2P Require RunBudget.
Open Scope Z_scope.
#[local] Arguments u : simpl never.
#[local] Existing Instance RunBudget.RunPhase_dec.

(** ** The abstract runs *)

Record AbstractRun := {
  a_phase : RunBudget.RunPhase;
  a_log : list RunEventPayload;
  a_used : Z;
}.

Definition key_of_scope (x : AssistantRunScope) : jstr * jstr := (x.(scope_session), x.(scope_run)).
Definition events_for (k : jstr * jstr) (d : db) : list RunEventRow :=
  filter (λ e, event_of k.1 k.2 e = true) d.(run_tables).(run_events).
Definition log_of (k : jstr * jstr) (d : db) : list RunEventPayload :=
  omap (λ e, RunEvents.payload_of e.(event_type) e.(payload_json)) (events_for k d).
Definition abstract (d : db) (k : jstr * jstr) : option AbstractRun :=
  r ← d.(run_tables).(assistant_runs) !! k;
  Some {| a_phase := r.(phase); a_log := log_of k d; a_used := ledger_used r |}.

(** A row of the journal that holds a bounded payload. *)
Definition event_row (e : RunEventRow) (p : RunEventPayload) : Prop :=
  e.(event_type) = eventType p ∧ e.(payload_json) = payload_value p ∧
  parseRunEventPayload (eventType p) (payload_value p) = Ok p.

(** The events of a run are numbered from one, without a gap; a session has one active
    run. *)
Record journal_ok (d : db) : Prop := {
  journal_numbered k i e : events_for k d !! i = Some e → e.(event_sequence) = Z.of_nat i + 1;
  journal_rows e : e ∈ d.(run_tables).(run_events) → (∃ p, event_row e p) ∧
    run_in_scope d.(run_tables) e.(event_session) e.(event_run) e.(event_workspace) e.(event_admin) = true;
  journal_active session run1 run2 r1 r2 :
    d.(run_tables).(assistant_runs) !! (session, run1) = Some r1 →
    d.(run_tables).(assistant_runs) !! (session, run2) = Some r2 →
    active_phase r1.(phase) = true → active_phase r2.(phase) = true → run1 = run2;
}.

(** ** Numbers *)

Lemma last_sequence_filter p l :
  last_sequence p l = foldr (λ e acc, Z.max e.(event_sequence) acc) 0 (filter (λ e, p e = true) l).
Proof.
  induction l as [|e l IH]; [done|]. simpl. rewrite filter_cons, IH. destruct (p e); case_decide; done.
Qed.

Lemma numbered_max (l : list RunEventRow) :
  (∀ i e, l !! i = Some e → e.(event_sequence) = Z.of_nat i + 1) →
  foldr (λ e acc, Z.max e.(event_sequence) acc) 0 l = Z.of_nat (length l).
Proof.
  assert (∀ (l : list RunEventRow) a b, 0 ≤ a → (∀ e, e ∈ l → e.(event_sequence) ≤ b) → a ≤ b →
    foldr (λ e acc, Z.max e.(event_sequence) acc) a l ≤ b) as Hle.
  { clear. intros l a b Ha Hl Hab. induction l as [|e l IH]; simpl; [done|].
    apply Z.max_lub; [apply Hl; set_solver|]. apply IH. set_solver. }
  intros Hn. destruct l as [|e l] using rev_ind; [done|]. clear IHl.
  rewrite foldr_app, length_app. simpl. assert (event_sequence e = Z.of_nat (length l) + 1) as He.
  { apply Hn. rewrite lookup_app_r, Nat.sub_diag by done. done. }
  apply Z.le_antisymm.
  - apply Hle; [lia| |lia]. intros e2 [i Hi]%list_elem_of_lookup. assert (i < length l)%nat by by eapply lookup_lt_Some.
    rewrite (Hn i e2) by (by rewrite lookup_app_l by done). lia.
  - assert (∀ a, a ≤ foldr (λ e acc, Z.max e.(event_sequence) acc) a l) as Hge
      by (clear; intros a; induction l as [|x l IH]; simpl; [done|lia]).
    specialize (Hge (Z.max (event_sequence e) 0)). lia.
Qed.

Lemma next_sequence_exact k d :
  journal_ok d → next_sequence k.1 k.2 d = Z.of_nat (length (events_for k d)) + 1.
Proof.
  intros Hok. unfold next_sequence. rewrite last_sequence_filter. f_equal.
  apply numbered_max. intros i e He. by eapply (journal_numbered d Hok k).
Qed.

(** The log and the rows have the same length. *)
Lemma event_row_read e p : event_row e p → RunEvents.payload_of e.(event_type) e.(payload_json) = Some p.
Proof.
  intros (-> & -> & H). unfold parseRunEventPayload in H. destruct (RunEvents.payload_of _ _) as [q|]; [|done].
  destruct (_ <? _); [done|]. by injection H as ->.
Qed.

Lemma log_lookup k d i :
  journal_ok d → log_of k d !! i = (e ← events_for k d !! i; RunEvents.payload_of e.(event_type) e.(payload_json)).
Proof.
  intros Hok. unfold log_of.
  assert (∀ e, e ∈ events_for k d → is_Some (RunEvents.payload_of e.(event_type) e.(payload_json))) as Hs.
  { intros e [_ He]%list_elem_of_filter. destruct (journal_rows d Hok e He) as [[p Hp] _].
    rewrite (event_row_read _ _ Hp). by eexists. }
  revert i Hs. induction (events_for k d) as [|e l IH]; intros i Hs; [done|]. simpl.
  destruct (Hs e ltac:(set_solver)) as [p Hp]. rewrite Hp. destruct i as [|i]; simpl; [by rewrite Hp|].
  apply IH. set_solver.
Qed.

(** ** What the statements do *)

(** A run's row, whose owner and ledger do not change; nothing else of the run tables. *)
Definition same_journal (d d' : db) : Prop :=
  d'.(run_tables).(assistant_runs) = d.(run_tables).(assistant_runs) ∧
  d'.(run_tables).(run_events) = d.(run_tables).(run_events).

Lemma same_journal_ok d d' : same_journal d d' → journal_ok d → journal_ok d'.
Proof.
  intros [Ea Ee] [H1 H2 H3]. unfold events_for in *. split; unfold events_for, run_in_scope in *; rewrite ?Ea, ?Ee; done.
Qed.
Lemma same_journal_abstract d d' k : same_journal d d' → abstract d' k = abstract d k.
Proof. intros [Ea Ee]. unfold abstract, log_of, events_for. by rewrite Ea, Ee. Qed.

(** From a sound journal, the run of the scope moves to [f], and nothing else. *)
Definition moves (x : AssistantRunScope) (f : AbstractRun → AbstractRun) (d d' : db) : Prop :=
  journal_ok d → journal_ok d' ∧ ∃ r, abstract d (key_of_scope x) = Some r ∧
    ∀ k, abstract d' k = if decide (k = key_of_scope x) then Some (f r) else abstract d k.

Lemma moves_then x f g d d1 d2 : moves x f d d1 → moves x g d1 d2 → moves x (g ∘ f) d d2.
Proof.
  intros H1 H2 Hok. destruct (H1 Hok) as (Hok1 & r & Hr & Hk1). destruct (H2 Hok1) as (Hok2 & r1 & Hr1 & Hk2).
  rewrite Hk1, decide_True in Hr1 by done. injection Hr1 as <-. split; [done|]. exists r. split; [done|].
  intros k. rewrite Hk2. case_decide; [done|]. rewrite Hk1. by rewrite decide_False.
Qed.
Lemma moves_same x f d d1 d2 : moves x f d d1 → same_journal d1 d2 → moves x f d d2.
Proof.
  intros H1 Hs Hok. destruct (H1 Hok) as (Hok1 & r & Hr & Hk). split; [by eapply same_journal_ok|].
  exists r. split; [done|]. intros k. rewrite (same_journal_abstract _ _ _ Hs). apply Hk.
Qed.
Lemma moves_after x f d d1 d2 : same_journal d d1 → moves x f d1 d2 → moves x f d d2.
Proof.
  intros Hs H Hok. destruct (H (same_journal_ok _ _ Hs Hok)) as (Hok2 & r & Hr & Hk).
  split; [done|]. exists r. rewrite <-(same_journal_abstract _ _ _ Hs). split; [done|]. intros k.
  rewrite Hk. by rewrite (same_journal_abstract _ _ _ Hs).
Qed.

Definition append_log (ps : list RunEventPayload) (r : AbstractRun) : AbstractRun :=
  {| a_phase := r.(a_phase); a_log := r.(a_log) ++ ps; a_used := r.(a_used) |}.
Definition to_phase (ph : RunBudget.RunPhase) (r : AbstractRun) : AbstractRun :=
  {| a_phase := ph; a_log := r.(a_log); a_used := r.(a_used) |}.
Definition to_used (n : Z) (r : AbstractRun) : AbstractRun :=
  {| a_phase := r.(a_phase); a_log := r.(a_log); a_used := n |}.

Lemma run_in_scope_some x session run w a :
  run_in_scope x session run w a = true → ∃ r, x.(assistant_runs) !! (session, run) = Some r.
Proof. unfold run_in_scope. destruct (_ !! _); [eauto|done]. Qed.

Lemma events_for_snoc k d d' e :
  d'.(run_tables).(run_events) = d.(run_tables).(run_events) ++ [e] →
  events_for k d' = events_for k d ++ (if event_of k.1 k.2 e then [e] else []).
Proof.
  intros E. unfold events_for. rewrite E, filter_app. f_equal. rewrite filter_cons, filter_nil.
  destruct (event_of k.1 k.2 e); case_decide; done.
Qed.

Lemma allocate_ok x p now d e d' :
  allocateAndInsertEvent x p now d = Ok (e, d') →
  ∃ row, d' = set_run_tables (set_events (d.(run_tables).(run_events) ++ [row]) d.(run_tables)) d ∧
    event_row row p ∧ row.(event_session) = x.(scope_session) ∧ row.(event_run) = x.(scope_run) ∧
    row.(event_sequence) = next_sequence x.(scope_session) x.(scope_run) d ∧
    run_in_scope d.(run_tables) row.(event_session) row.(event_run) row.(event_workspace) row.(event_admin) = true ∧
    e = {| sequenced_run := x.(scope_run); sequenced_number := row.(event_sequence); sequenced_payload := p;
           sequenced_at := now |}.
Proof.
  intros H. unfold allocateAndInsertEvent in H. apply mthen_ok in H as (d0 & d1 & [= <- <-] & H).
  cbv zeta in H. apply mthen_ok in H as (v & d2 & Hl & H). apply lift_ok in Hl as [Hv ->].
  apply mthen_ok in H as (y & d3 & Hi & [= <- <-]). apply encode_ok in Hv as [-> Hp].
  unfold insert_event in Hi. destruct (_ || _) eqn:E; [done|]. injection Hi as _ <-. zbool.
  eexists. split; [reflexivity|]. by split_and!.
Qed.

Lemma allocate_moves x p now d e d' :
  allocateAndInsertEvent x p now d = Ok (e, d') → moves x (append_log [p]) d d'.
Proof.
  intros H Hok. destruct (allocate_ok _ _ _ _ _ _ H) as (row & -> & Hrow & Es & Er & En & Hs & _). clear H.
  set (d' := set_run_tables _ _). assert (∀ k, events_for k d' = events_for k d ++ (if decide (k = key_of_scope x) then [row] else [])) as Ee.
  { intros k. rewrite (events_for_snoc k d d' row) by done. f_equal. unfold event_of, key_of_scope. rewrite Es, Er.
    destruct k as [a b]. simpl. repeat case_bool_decide; case_decide; simplify_eq; done. }
  split.
  - destruct Hok as [H1 H2 H3]. split; [| |exact H3].
    + intros k i e'. rewrite Ee. case_decide as Hk; [|rewrite app_nil_r; apply H1].
      rewrite lookup_snoc_if. case_decide as Hi; [|apply H1]. intros [= <-]. subst. rewrite En.
      rewrite (next_sequence_exact (key_of_scope x)); [lia|by split].
    + intros e' He'. simpl in He'. apply elem_of_app in He' as [He'|He'%list_elem_of_singleton]; [by apply H2|subst].
      by split; [exists p|].
  - destruct (run_in_scope_some _ _ _ _ _ Hs) as [r Hr]. rewrite Es, Er in Hr.
    change (d.(run_tables).(assistant_runs) !! key_of_scope x = Some r) in Hr.
    exists {| a_phase := r.(phase); a_log := log_of (key_of_scope x) d; a_used := ledger_used r |}.
    split; [unfold abstract; by rewrite Hr|]. intros k. unfold abstract. simpl.
    assert (log_of k d' = log_of k d ++ (if decide (k = key_of_scope x) then [p] else [])) as ->.
    { unfold log_of. rewrite Ee, omap_app. f_equal. case_decide; [|done]. simpl. by rewrite (event_row_read _ _ Hrow). }
    case_decide; [subst; by rewrite Hr|]. by rewrite app_nil_r.
Qed.

(** *** Updates of a run *)

Lemma scoped_run_some x d r :
  scoped_run x d = Some r → d.(run_tables).(assistant_runs) !! key_of_scope x = Some r ∧ in_run_scope x r = true.
Proof.
  unfold scoped_run. intros H. apply bind_Some in H as (r' & Hr & H). destruct (in_run_scope x r') eqn:E; [|done].
  injection H as ->. done.
Qed.

Lemma update_arun_ok x p f d b d' :
  update_arun x p f d = Ok (b, d') →
  (b = false ∧ d' = d) ∨
  (b = true ∧ ∃ r, scoped_run x d = Some r ∧ p r = true ∧
     rival_run x.(scope_session) x.(scope_run) (f r) d = false ∧
     d' = put_arun x.(scope_session) x.(scope_run) (f r) d).
Proof.
  unfold update_arun. destruct (scoped_run x d) as [r|]; [|intros [= <- <-]; by left].
  destruct (p r) eqn:Hp; [|intros [= <- <-]; by left]. destruct (_ && _) eqn:E; [|done]. intros [= <- <-].
  zbool. right. split; [done|]. by exists r.
Qed.

Lemma rival_run_false session run r d run2 r2 :
  rival_run session run r d = false → active_phase r.(phase) = true →
  d.(run_tables).(assistant_runs) !! (session, run2) = Some r2 → active_phase r2.(phase) = true → run2 = run.
Proof.
  unfold rival_run. intros H Ha H2 Ha2. rewrite Ha in H. simpl in H.
  destruct (decide (run2 = run)) as [|Hne]; [done|]. exfalso. apply not_true_iff_false in H. apply H, existsb_exists.
  exists ((session, run2), r2). split; [by apply list_elem_of_In, elem_of_map_to_list|]. cbn [fst snd].
  rewrite Ha2, (bool_decide_eq_true_2 _ (eq_refl session)). by rewrite bool_decide_eq_false_2.
Qed.

Lemma put_arun_ok x r d :
  journal_ok d → rival_run x.(scope_session) x.(scope_run) r d = false →
  (∀ r0, d.(run_tables).(assistant_runs) !! key_of_scope x = Some r0 →
     r.(arun_workspace) = r0.(arun_workspace) ∧ r.(arun_admin) = r0.(arun_admin)) →
  journal_ok (put_arun x.(scope_session) x.(scope_run) r d).
Proof.
  intros [H1 H2 H3] Hr Ho. fold (key_of_scope x) in *. split; [exact H1| |].
  - intros e He. destruct (H2 e He) as [Hp Hs]. split; [done|]. unfold run_in_scope, put_arun in *. simpl.
    destruct (decide ((e.(event_session), e.(event_run)) = (x.(scope_session), x.(scope_run)))) as [E|E].
    + rewrite E in *. rewrite lookup_insert_eq. destruct (_ !! _) as [r0|] eqn:E0; [|done].
      by destruct (Ho _ eq_refl) as [-> ->].
    + by rewrite lookup_insert_ne.
  - intros session run1 run2 r1 r2. simpl.
    destruct (decide ((session, run1) = (x.(scope_session), x.(scope_run)))) as [E1|E1],
      (decide ((session, run2) = (x.(scope_session), x.(scope_run)))) as [E2|E2];
      rewrite ?E1, ?E2, ?lookup_insert_eq, ?lookup_insert_ne by done; [congruence| | |by apply H3].
    + injection E1 as -> ->. intros [= <-] Hr2 A1 A2. symmetry. by eapply rival_run_false.
    + injection E2 as -> ->. intros Hr1 [= <-] A1 A2. by eapply rival_run_false.
Qed.

Lemma put_arun_moves x f g d r :
  scoped_run x d = Some r → rival_run x.(scope_session) x.(scope_run) (f r) d = false →
  (f r).(arun_workspace) = r.(arun_workspace) → (f r).(arun_admin) = r.(arun_admin) →
  (∀ log, g {| a_phase := r.(phase); a_log := log; a_used := ledger_used r |} =
     {| a_phase := (f r).(phase); a_log := log; a_used := ledger_used (f r) |}) →
  moves x g d (put_arun x.(scope_session) x.(scope_run) (f r) d).
Proof.
  intros Hs Hr Hw Ha Hg Hok. destruct (scoped_run_some _ _ _ Hs) as [Hl _]. split.
  - apply put_arun_ok; [done|done|]. intros r0 Hr0. rewrite Hl in Hr0. injection Hr0 as <-. done.
  - eexists. split; [unfold abstract; rewrite Hl; reflexivity|]. intros k. rewrite Hg. unfold abstract, put_arun. simpl.
    fold (key_of_scope x). case_decide as E; [subst; by rewrite lookup_insert_eq|by rewrite lookup_insert_ne].
Qed.

#[export] Instance keeps_result_link {T} (f : db → T) x n c :
  Ignores set_run_tables f → Keeps f (insert_result_link x n c).
Proof. intros Hi d a d' H. unfold insert_result_link in H. repeat case_match; simplify_eq; rewrite ?ignores; done. Qed.

#[export] Instance keeps_insert_event {T} (f : db → T) `{!Ignores set_run_tables f} e : Keeps f (insert_event e).
Proof. intros d b d' H. unfold insert_event in H. destruct (_ || _); [done|]. injection H as _ <-. apply ignores. Qed.
#[export] Instance keeps_update_arun {T} (f : db → T) `{!Ignores set_run_tables f} x p g : Keeps f (update_arun x p g).
Proof. intros d b d' H. unfold update_arun, put_arun in H. repeat case_match; simplify_eq; rewrite ?ignores; done. Qed.
#[export] Instance keeps_result_links {T} (f : db → T) `{!Ignores set_run_tables f} x l : Keeps f (insert_result_links x l).
Proof. unfold insert_result_links. generalize (imap pair l). intros q. induction q as [|c q IH]; simpl; solve_keeps. Qed.
#[export] Instance keeps_allocate {T} (f : db → T) `{!Ignores set_run_tables f} x p now :
  Keeps f (allocateAndInsertEvent x p now).
Proof. unfold allocateAndInsertEvent. solve_keeps. Qed.
#[export] Instance keeps_run_state {T} (f : db → T) `{!Ignores set_run_tables f} x p now : Keeps f (updateRunState x p now).
Proof. unfold updateRunState. solve_keeps. Qed.

Lemma result_link_same x n c d a d' : insert_result_link x n c d = Ok (a, d') → same_journal d d'.
Proof. intros H. unfold insert_result_link in H. repeat case_match; simplify_eq; by split. Qed.
Lemma same_journal_trans d1 d2 d3 : same_journal d1 d2 → same_journal d2 d3 → same_journal d1 d3.
Proof. intros [E1 E2] [E3 E4]. split; congruence. Qed.
Lemma result_links_same x l d a d' : insert_result_links x l d = Ok (a, d') → same_journal d d'.
Proof.
  unfold insert_result_links. generalize (imap pair l). intros q. revert d.
  induction q as [|c q IH]; intros d H; simpl in H; [by injection H as _ <-|].
  apply mthen_ok in H as (y & d1 & H1 & H2). eapply same_journal_trans; [by eapply result_link_same|by eapply IH].
Qed.

Lemma update_state_moves x p now d a d' :
  updateRunState x p now d = Ok (a, d') →
  moves x (λ r, to_phase (default r.(a_phase) p.(patch_phase)) r) d d'.
Proof.
  intros H. unfold updateRunState in H. apply mthen_ok in H as (d0 & d1 & [= <- <-] & H).
  destruct (scoped_run x d) as [r|] eqn:Hs; [|done]. apply mthen_ok in H as (b & d2 & Hu & H).
  assert (same_journal d2 d') as Hsame.
  { destruct (patch_completed p); [by eapply result_links_same|by injection H as _ <-]. }
  eapply moves_same; [|exact Hsame]. clear H Hsame.
  unfold update_arun in Hu. rewrite Hs in Hu. destruct (_ && _) eqn:E; [|done]. injection Hu as _ <-. zbool.
  eapply put_arun_moves; try done. intros log. unfold to_phase. simpl. f_equal. unfold ledger_used, patched_run. simpl.
  destruct (patch_budget p); done.
Qed.

Lemma commit_moves x s ph p now d e d' :
  commitStateEvent x s ph p now d = Ok (e, d') →
  moves x (append_log [p] ∘ to_phase (default s.(state_phase) ph)) d d'.
Proof.
  intros H. unfold commitStateEvent in H. apply mthen_ok in H as (y & d1 & H1 & H2).
  eapply moves_then; [|by eapply allocate_moves]. by apply (update_state_moves _ _ _ _ _ _ H1).
Qed.

(** ** Commands and their effect on the log *)

Inductive RunCommand : Type :=
| CReserveModel (call : Z) (second : bool) (loaded : list jstr) (seeded : bool)
| CCompleteModel (call : Z) (second : bool) (message : option jstr) (us : EventUsage) (latency : Z)
| CReserveDiscovery (index : Z) (access : SearchAccess) (groups : list Policy.Permissions.FeatureGroup)
| CLoadOperations (ids : list jstr) (src : LoadSource)
| CRequestTool (call action hash : jstr)
| CDenyTool (call action code : jstr) (result : option jstr)
| CStartTool (call action : jstr)
| CCompleteTool (call action result : jstr)
| CRequireClarification (clarification result : jstr)
| CSuspend (r : SuspendReason)
| CRequireAndSuspend (clarification result : jstr)
| CComplete (message : option jstr) (results : list jstr)
| CFail (code : jstr)
| CCompleteBatch (items : list (jstr * option jstr))
| CCompleteConfirmation (operation confirmation : jstr) (withClaim : bool) (result : option jstr).

Definition ignore_result {A} (m : M A) : M unit := do! _ := m in mreturn tt.

Definition run_command (x : AssistantRunScope) (s : RunState) (c : RunCommand) (now : Z) : M unit :=
  match c with
  | CReserveModel n b l sd => ignore_result (reserveModelCallWithEvent x s n b l sd now)
  | CCompleteModel n b m us t => ignore_result (completeModelCallWithEvent x s n b m us t now)
  | CReserveDiscovery n a g => ignore_result (reserveDiscoveryCallWithEvent x s n a g now)
  | CLoadOperations l src => ignore_result (loadOperationsWithEvent x s l src now)
  | CRequestTool t a h => ignore_result (requestToolWithEvent x s t a h now)
  | CDenyTool t a k r => ignore_result (denyToolWithEvent x s t a k r now)
  | CStartTool t a => ignore_result (startToolWithEvent x s t a now)
  | CCompleteTool t a r => ignore_result (completeToolWithEvent x s t a r now)
  | CRequireClarification q r => ignore_result (requireClarificationWithEvent x s q r now)
  | CSuspend r => ignore_result (suspendRunWithEvent x s r now)
  | CRequireAndSuspend q r => ignore_result (requireClarificationAndSuspendWithEvents x s q r now)
  | CComplete m l => ignore_result (completeRunWithEvent x s m l now)
  | CFail k => ignore_result (failRunWithEvent x s k now)
  | CCompleteBatch l => ignore_result (completeRunAfterBatchWithEvents x s l now)
  | CCompleteConfirmation o c b r => ignore_result (completeRunAfterConfirmationWithEvents x s o c b r now)
  end.

Definition member_events (items : list (jstr * option jstr)) : list RunEventPayload :=
  omap (λ i, operation_completed i.1 <$> i.2) items.

(** The events a command appends, in order, and the phase it leaves. *)
Definition command_events (c : RunCommand) : list RunEventPayload :=
  match c with
  | CReserveModel n b l sd => [model_started n b l sd]
  | CCompleteModel n b m us t => [model_completed n b m us t]
  | CReserveDiscovery n a g => [api_search_started n a g]
  | CLoadOperations l src => [api_operations_loaded l src]
  | CRequestTool t a h => [tool_requested t a h]
  | CDenyTool t a k r => [tool_denied t a k r]
  | CStartTool t a => [tool_started t a]
  | CCompleteTool t a r => [tool_completed t a r]
  | CRequireClarification q r => [clarification_required q r]
  | CSuspend r => [run_suspended r]
  | CRequireAndSuspend q r => [clarification_required q r; run_suspended awaiting_clarification]
  | CComplete m l => [run_completed m l]
  | CFail k => [run_failed k]
  | CCompleteBatch l => member_events l ++ [run_completed None (omap snd l)]
  | CCompleteConfirmation o c b r =>
      (if b then [operation_confirmed o c; operation_started o] else []) ++
      match r with
      | Some a => [operation_completed o a; run_completed None [a]]
      | None => [run_completed None []]
      end
  end.
Definition command_phase (s : RunState) (c : RunCommand) : RunBudget.RunPhase :=
  match c with
  | CReserveModel _ _ _ _ => RunBudget.phase_model
  | CReserveDiscovery _ _ _ => RunBudget.phase_discovering
  | CStartTool _ _ => RunBudget.phase_executing_reads
  | CSuspend r => suspended_phase r
  | CRequireAndSuspend _ _ => RunBudget.phase_awaiting_clarification
  | CComplete _ _ | CCompleteBatch _ | CCompleteConfirmation _ _ _ _ => RunBudget.phase_completed
  | CFail _ => RunBudget.phase_failed
  | _ => s.(state_phase)
  end.

Definition abstract_command (ph : RunBudget.RunPhase) (ps : list RunEventPayload) (r : AbstractRun) : AbstractRun :=
  {| a_phase := ph; a_log := r.(a_log) ++ ps; a_used := r.(a_used) |}.

Lemma moves_ext x f g d d' : (∀ r, f r = g r) → moves x f d d' → moves x g d d'.
Proof. intros E H Hok. destruct (H Hok) as (Hok' & r & Hr & Hk). split; [done|]. exists r. split; [done|]. intros k. rewrite Hk. by rewrite E. Qed.

Lemma commit_command x s ph p now d e d' :
  commitStateEvent x s ph p now d = Ok (e, d') →
  moves x (abstract_command (default s.(state_phase) ph) [p]) d d'.
Proof. intros H%commit_moves. by eapply moves_ext; [|exact H]. Qed.

(** Events appended one after another, perhaps none. *)
Definition appends (x : AssistantRunScope) (ps : list RunEventPayload) (d d' : db) : Prop :=
  moves x (append_log ps) d d' ∨ (ps = [] ∧ d' = d).

Lemma appends_then x ps qs d d1 d2 : appends x ps d d1 → appends x qs d1 d2 → appends x (ps ++ qs) d d2.
Proof.
  intros [M1|[-> ->]]; [|done]. intros [M2|[-> ->]]; left; [|by rewrite app_nil_r].
  eapply moves_ext; [|exact (moves_then _ _ _ _ _ _ M1 M2)]. intros r. unfold append_log. simpl. by rewrite <-app_assoc.
Qed.
Lemma appends_command x ps qs ph d d1 d2 :
  appends x ps d d1 → moves x (abstract_command ph qs) d1 d2 → moves x (abstract_command ph (ps ++ qs)) d d2.
Proof.
  intros [M1|[-> ->]] M2; [|done]. eapply moves_ext; [|exact (moves_then _ _ _ _ _ _ M1 M2)].
  intros r. unfold append_log, abstract_command. simpl. by rewrite <-app_assoc.
Qed.
Lemma allocate_appends x p now d e d' : allocateAndInsertEvent x p now d = Ok (e, d') → appends x [p] d d'.
Proof. intros H. left. by eapply allocate_moves. Qed.

(** The state of a run and the event that closes it. *)
Lemma close_moves x p q now now2 d a d1 e d' :
  updateRunState x p now d = Ok (a, d1) → allocateAndInsertEvent x q now2 d1 = Ok (e, d') → is_Some p.(patch_phase) →
  moves x (abstract_command (default RunBudget.phase_model p.(patch_phase)) [q]) d d'.
Proof.
  intros H1%update_state_moves H2%allocate_moves [ph E]. rewrite E in *.
  eapply moves_ext; [|exact (moves_then _ _ _ _ _ _ H1 H2)]. done.
Qed.

Lemma members_appends x l now d a d' :
  complete_members x l now d = Ok (a, d') → appends x (member_events l) d d'.
Proof.
  revert d. induction l as [|[o [r|]] l IH]; intros d H; simpl in H.
  - injection H as _ <-. by right.
  - apply mthen_ok in H as (y & d1 & H1 & H2). exact (appends_then _ [_] _ _ _ _ (allocate_appends _ _ _ _ _ _ H1) (IH _ H2)).
  - exact (IH _ H).
Qed.

Lemma ignore_ok {A} (m : M A) d d' : ignore_result m d = Ok (tt, d') → ∃ a, m d = Ok (a, d').
Proof. intros H. apply mthen_ok in H as (a & d1 & H & [= <-]). eauto. Qed.

Lemma command_moves x s c now d d' :
  run_command x s c now d = Ok (tt, d') → moves x (abstract_command (command_phase s c) (command_events c)) d d'.
Proof.
  destruct c as [n b l sd|n b m us t|n a g|l src|t a h|t a k r|t a|t a r|q r|r|q r|m l|k|l|o c b r];
    simpl; intros [e H]%ignore_ok; try exact (commit_command _ _ _ _ _ _ _ _ H).
  - unfold requireClarificationAndSuspendWithEvents in H. apply mthen_ok in H as (y & d1 & H1 & H).
    apply mthen_ok in H as (e1 & d2 & H2 & H). apply mthen_ok in H as (e2 & d3 & H3 & [= _ <-]).
    pose proof (close_moves _ _ _ _ _ _ _ _ _ _ H1 H2 ltac:(by eexists)) as M1. apply allocate_moves in H3.
    eapply moves_ext; [|exact (moves_then _ _ _ _ _ _ M1 H3)].
    intros r0. unfold append_log, abstract_command. simpl. by rewrite <-app_assoc.
  - unfold completeRunAfterBatchWithEvents in H. apply mthen_ok in H as (y & d1 & H1 & H).
    apply mthen_ok in H as (z & d2 & H2 & H3).
    exact (appends_command _ _ _ _ _ _ _ (members_appends _ _ _ _ _ _ H1)
             (close_moves _ _ _ _ _ _ _ _ _ _ H2 H3 ltac:(by eexists))).
  - unfold completeRunAfterConfirmationWithEvents in H. apply mthen_ok in H as (y & d1 & H1 & H).
    apply mthen_ok in H as (z & d2 & H2 & H). apply mthen_ok in H as (w & d3 & H3 & H4).
    pose proof (close_moves _ _ _ _ _ _ _ _ _ _ H3 H4 ltac:(by eexists)) as M3.
    assert (appends x (match r with Some a => [operation_completed o a] | None => [] end) d1 d2) as M2.
    { destruct r as [a|]; [|injection H2 as _ <-; by right].
      apply mthen_ok in H2 as (e2 & d4 & H2 & [= _ <-]). by eapply allocate_appends. }
    assert (appends x (if b then [operation_confirmed o c; operation_started o] else []) d d1) as M1.
    { destruct b; [|injection H1 as _ <-; by right]. apply mthen_ok in H1 as (e1 & d4 & H1 & H5).
      apply mthen_ok in H5 as (e2 & d5 & H5 & [= _ <-]).
      exact (appends_then _ [_] [_] _ _ _ (allocate_appends _ _ _ _ _ _ H1) (allocate_appends _ _ _ _ _ _ H5)). }
    eapply moves_ext; [|exact (appends_command _ _ _ _ _ _ _ (appends_then _ _ _ _ _ _ M1 M2) M3)].
    intros r0. by destruct r, b.
Qed.

(** ** Calls of the store *)

Inductive RunCall : Type :=
| RCommand (x : AssistantRunScope) (s : RunState) (c : RunCommand)
| RStart (i : StartAssistantRunInput)
| RStartTurn (i : StartAssistantRunInput)
| RSave (s : RunState)
| RCharge (x : AssistantRunScope)
| RRefund (x : AssistantRunScope)
| RConvert (x : AssistantRunScope)
| RClaimTurn (i : TurnRunClaimInput)
| RMarkTurn (session request : jstr)
| RFinishTurn (session request : jstr) (st : TurnStatus) (response : jsval) (links : list DurableLink).

Definition run_call (c : RunCall) (now : Z) : M unit :=
  match c with
  | RCommand x s c => run_command x s c now
  | RStart i => ignore_result (startRunWithEvent i now)
  | RStartTurn i => startRunWithTurn i now
  | RSave s => saveRun s now
  | RCharge x => ignore_result (chargeRunHostCall x now)
  | RRefund x => refundRunHostCall x now
  | RConvert x => ignore_result (convertReservedRunHostCall x now)
  | RClaimTurn i => ignore_result (claimTurnRun i now)
  | RMarkTurn s r => markTurnRunExecuting s r now
  | RFinishTurn s r st v l => finishTurnRun s r st v l now
  end.

(** *** The abstract store *)

Definition AbstractRuns : Type := jstr * jstr → option AbstractRun.
Definition becomes (A A' : AbstractRuns) (k : jstr * jstr) (r : AbstractRun) : Prop :=
  ∀ k', A' k' = if decide (k' = k) then Some r else A k'.
Definition idle (A A' : AbstractRuns) : Prop := ∀ k, A' k = A k.
Definition updates (x : AssistantRunScope) (f : AbstractRun → AbstractRun) (A A' : AbstractRuns) : Prop :=
  ∃ r, A (key_of_scope x) = Some r ∧ becomes A A' (key_of_scope x) (f r).
Definition begins (x : AssistantRunScope) (log : list RunEventPayload) (A A' : AbstractRuns) : Prop :=
  A (key_of_scope x) = None ∧
  (∀ run r, A (x.(scope_session), run) = Some r → active_phase r.(a_phase) = false) ∧
  becomes A A' (key_of_scope x) {| a_phase := RunBudget.phase_model; a_log := log; a_used := 0 |}.

Definition abstract_call (c : RunCall) (A A' : AbstractRuns) : Prop :=
  match c with
  | RCommand x s c => updates x (abstract_command (command_phase s c) (command_events c)) A A'
  | RStart i => begins i.(start_scope) [run_started i.(start_request_hash)] A A'
  | RStartTurn i => begins i.(start_scope) [] A A'
  | RSave s => idle A A' ∨ updates s.(state_scope) (to_phase s.(state_phase)) A A'
  | RCharge x | RConvert x => idle A A' ∨ updates x (λ r, to_used (r.(a_used) + 1) r) A A'
  | RRefund x => idle A A' ∨ updates x (λ r, to_used (Z.max 0 (r.(a_used) - 1)) r) A A'
  | RClaimTurn _ | RMarkTurn _ _ | RFinishTurn _ _ _ _ _ => idle A A'
  end.

(** *** The refinement, call by call *)

Definition refines (P : AbstractRuns → AbstractRuns → Prop) (d d' : db) : Prop :=
  journal_ok d → journal_ok d' ∧ P (abstract d) (abstract d').

Lemma refines_moves x f d d' : moves x f d d' → refines (updates x f) d d'.
Proof. intros H Hok. destruct (H Hok) as (Hok' & r & Hr & Hk). split; [done|]. by exists r. Qed.
Lemma refines_same d d' : same_journal d d' → refines idle d d'.
Proof. intros H Hok. split; [by eapply same_journal_ok|]. intros k. by apply same_journal_abstract. Qed.
Lemma refines_or (P Q : AbstractRuns → AbstractRuns → Prop) d d' :
  refines P d d' ∨ refines Q d d' → refines (λ A A', P A A' ∨ Q A A') d d'.
Proof. intros [H|H] Hok; destruct (H Hok) as [? ?]; auto. Qed.

Lemma turn_same session request r d : same_journal d (put_turn session request r d).
Proof. done. Qed.

Lemma update_arun_moves x p f g d b d' :
  update_arun x p f d = Ok (b, d') →
  (∀ r, scoped_run x d = Some r → (f r).(arun_workspace) = r.(arun_workspace) ∧ (f r).(arun_admin) = r.(arun_admin) ∧
     ∀ log, g {| a_phase := r.(phase); a_log := log; a_used := ledger_used r |} =
       {| a_phase := (f r).(phase); a_log := log; a_used := ledger_used (f r) |}) →
  d' = d ∨ moves x g d d'.
Proof.
  intros H Hf. apply update_arun_ok in H as [[_ ->]|(_ & r & Hs & _ & Hr & ->)]; [by left|right].
  destruct (Hf r Hs) as (Hw & Ha & Hg). by eapply put_arun_moves.
Qed.

Lemma insert_rows_ok i now d a d' :
  insert_run_rows i now d = Ok (a, d') → refines (begins i.(start_scope) []) d d'.
Proof.
  intros H Hok. unfold insert_run_rows in H. apply mthen_ok in H as (y & d1 & Ht & H).
  unfold insert_turn in Ht. destruct (_ !! _); [done|]. injection Ht as _ <-.
  set (x := i.(start_scope)) in *. unfold insert_arun in H. simpl in H. rewrite lookup_insert_eq in H.
  destruct (d.(run_tables).(assistant_runs) !! _) eqn:Hn; [done|]. destruct (_ && _) eqn:E; [|done].
  injection H as _ <-. zbool. set (t := put_turn _ _ _ d) in *.
  assert (journal_ok t) as Hok1 by (eapply same_journal_ok; [|exact Hok]; done).
  fold (key_of_scope x) in Hn. unfold begins. split_and!.
  - apply (put_arun_ok x); [done|done|]. intros r0 Hr0. change (d.(run_tables).(assistant_runs) !! key_of_scope x = Some r0) in Hr0. congruence.
  - change (abstract d (key_of_scope x) = None). unfold abstract. by rewrite Hn.
  - intros run r Hr. unfold abstract in Hr. destruct (d.(run_tables).(assistant_runs) !! (x.(scope_session), run)) as [r2|] eqn:Hrow; [|done].
    injection Hr as <-. simpl. apply not_true_iff_false. intros Ha.
    pose proof (rival_run_false _ _ _ t run r2 ltac:(done) eq_refl Hrow Ha) as ->. unfold key_of_scope in Hn. congruence.
  - intros k. unfold abstract, put_arun. simpl. fold (key_of_scope x).
    destruct (decide (k = key_of_scope x)) as [->|Hk]; [rewrite lookup_insert_eq|by rewrite lookup_insert_ne].
    simpl. do 2 f_equal. change (log_of (key_of_scope x) d = []). unfold log_of.
    destruct (events_for (key_of_scope x) d) as [|e l] eqn:Ee; [done|]. exfalso.
    assert (e ∈ events_for (key_of_scope x) d) as [Hk He]%list_elem_of_filter by (rewrite Ee; set_solver).
    destruct (journal_rows d Hok e He) as [_ Hs]. destruct (run_in_scope_some _ _ _ _ _ Hs) as [r Hr].
    unfold event_of in Hk. zbool. simpl in *. repeat match goal with H : bool_decide _ = true |- _ => apply bool_decide_eq_true in H end.
    unfold key_of_scope in Hn. congruence.
Qed.

Lemma request_link_same x request b d a d' : insert_request_link x request b d = Ok (a, d') → same_journal d d'.
Proof. intros H. unfold insert_request_link in H. cbv zeta in H. destruct (_ || _); [done|]. by injection H as _ <-. Qed.

Lemma start_refines i now d d' :
  ignore_result (startRunWithEvent i now) d = Ok (tt, d') → refines (begins i.(start_scope) [run_started i.(start_request_hash)]) d d'.
Proof.
  intros [e H]%ignore_ok Hok. unfold startRunWithEvent in H. apply mthen_ok in H as (y & d1 & H1 & H).
  apply mthen_ok in H as (z & d2 & [= <- <-] & H). apply mthen_ok in H as (w & d3 & Hl & H4).
  destruct (insert_rows_ok _ _ _ _ _ H1 Hok) as [Hok1 (Hn & Ha & Hb)].
  pose proof (moves_after _ _ _ _ _ (request_link_same _ _ _ _ _ _ Hl) (allocate_moves _ _ _ _ _ _ H4)) as M.
  destruct (M Hok1) as (Hok2 & r & Hr & Hk). split; [done|]. split; [done|]. split; [done|].
  rewrite Hb, decide_True in Hr by done. injection Hr as <-. intros k. rewrite Hk. case_decide; [done|]. rewrite Hb.
  by rewrite decide_False.
Qed.

(** C5: The run store refines an append-only log.  Whatever call succeeds, on a sound
    journal: the journal is sound afterwards (events of a run numbered from one without a
    gap, every row a bounded payload of an existing run, one active run per session); a
    command moves exactly its own run, to the stated phase, and appends exactly its
    events; a start creates the run, only when its session has no active one; only the ledger
    calls change the host calls charged; and no event is ever changed or removed. *)
Theorem run_store_refines c now d d' :
  journal_ok d → run_call c now d = Ok (tt, d') →
  journal_ok d' ∧ abstract_call c (abstract d) (abstract d').
Proof.
  intros Hok H. revert Hok. change (refines (abstract_call c) d d').
  destruct c as [x s c|i|i|s|x|x|x|i|s r|s r st v l]; simpl in H |- *.
  - apply refines_moves. by eapply command_moves.
  - by eapply start_refines.
  - unfold startRunWithTurn in H. apply mthen_ok in H as (y & d1 & H1 & H2). intros Hok.
    destruct (insert_rows_ok _ _ _ _ _ H1 Hok) as [Hok1 (Hn & Ha & Hb)].
    pose proof (request_link_same _ _ _ _ _ _ H2) as Hs. split; [by eapply same_journal_ok|]. split; [done|]. split; [done|].
    intros k. rewrite (same_journal_abstract _ _ _ Hs). apply Hb.
  - unfold saveRun in H. apply mthen_ok in H as (b & d1 & H1 & H2). pose proof (result_links_same _ _ _ _ _ H2) as Hs.
    apply refines_or. eapply (update_arun_moves _ _ _ (to_phase s.(state_phase))) in H1 as [->|M];
      [left; by apply refines_same|right; apply refines_moves; by eapply moves_same|]. by intros r _.
  - apply ignore_ok in H as [b H]. apply refines_or. unfold chargeRunHostCall in H.
    destruct (scoped_run x d) as [r0|] eqn:Hr0; [|injection H as _ <-; left; by apply refines_same].
    eapply (update_arun_moves _ _ _ (λ r, to_used (r.(a_used) + 1) r)) in H as [->|M];
      [left; by apply refines_same|right; by apply refines_moves|]. intros r Hr. rewrite Hr0 in Hr. by injection Hr as <-.
  - apply refines_or. unfold refundRunHostCall in H. destruct (scoped_run x d) as [r0|] eqn:Hr0; [|injection H as <-; left; by apply refines_same].
    apply mthen_ok in H as (b & d1 & H & [= <-]).
    eapply (update_arun_moves _ _ _ (λ r, to_used (Z.max 0 (r.(a_used) - 1)) r)) in H as [->|M];
      [left; by apply refines_same|right; by apply refines_moves|]. intros r Hr. rewrite Hr0 in Hr. by injection Hr as <-.
  - apply ignore_ok in H as [b H]. apply refines_or. unfold convertReservedRunHostCall in H.
    destruct (scoped_run x d) as [r0|] eqn:Hr0; [|injection H as _ <-; left; by apply refines_same].
    eapply (update_arun_moves _ _ _ (λ r, to_used (r.(a_used) + 1) r)) in H as [->|M];
      [left; by apply refines_same|right; by apply refines_moves|]. intros r Hr. rewrite Hr0 in Hr. by injection Hr as <-.
  - apply ignore_ok in H as [b H]. apply refines_same. unfold claimTurnRun in H.
    apply mthen_ok in H as (y & d1 & [= <- <-] & H). destruct (_ !! _) as [r|] eqn:Hr.
    + destruct (negb _); [by injection H as _ <-|]. by destruct r.(turn_status), r.(response_envelope); injection H as _ <-.
    + apply mthen_ok in H as (z & d1 & H & [= _ <-]). unfold insert_turn in H. rewrite Hr in H. by injection H as _ <-.
  - apply refines_same. unfold markTurnRunExecuting in H. repeat case_match; simplify_eq; done.
  - apply refines_same. unfold finishTurnRun in H.
    apply mthen_ok in H as (y & d1 & [H1 <-]%lift_ok & H). apply mthen_ok in H as (z & d2 & [= <- <-] & H).
    destruct (_ !! _) as [r0|]; [by injection H as <-|]. destruct (bool_decide _); [by injection H as <-|done].
Qed.

(** ** A run *)

Lemma empty_journal_ok : journal_ok empty_db.
Proof.
  split; [by intros k i e|intros e He; by apply elem_of_nil in He|].
  intros session run1 run2 r1 r2 H1. simpl in H1. by rewrite lookup_empty in H1.
Qed.

Definition demo_scope : AssistantRunScope :=
  {| scope_session := u "s"; scope_run := u "r"; scope_workspace := u "w"; scope_admin := u "a";
     scope_generation := 1; scope_auth := addon |}.
Definition demo_start : StartAssistantRunInput :=
  {| start_scope := demo_scope; start_request := u "log an hour"; start_request_hash := replicate 64 97%N;
     start_catalog := replicate 64 98%N; start_loaded := []; start_intent := u "i"; start_request_id := None |}.
Definition started_db : db :=
  match run_call (RStart demo_start) 5 empty_db with Ok (_, d) => d | Throw _ => empty_db end.
Definition demo_state : RunState :=
  toRunState demo_scope (started_run demo_start 5) [].
Definition demo_command : RunCall :=
  RCommand demo_scope demo_state (CRequestTool (u "c1") (u "list_projects") (replicate 64 99%N)).
Definition commanded_db : db :=
  match run_call demo_command 6 started_db with Ok (_, d) => d | Throw _ => empty_db end.

Lemma started_journal_ok : journal_ok started_db.
Proof.
  exact (proj1 (start_refines demo_start 5 empty_db started_db ltac:(by vm_compute) empty_journal_ok)).
Qed.

(** A tool request on a run just started: its event is appended to the one of the start. *)
Lemma run_store_refines_witness :
  run_call demo_command 6 started_db = Ok (tt, commanded_db) ∧
  abstract_call demo_command (abstract started_db) (abstract commanded_db) ∧
  (a_log <$> abstract commanded_db (u "s", u "r")) =
    Some [run_started (replicate 64 97%N); tool_requested (u "c1") (u "list_projects") (replicate 64 99%N)].
Proof.
  split; [by vm_compute|]. split; [|by vm_compute].
  apply (run_store_refines demo_command 6 started_db commanded_db); [exact started_journal_ok|by vm_compute].
Defined.
