(* ===== verification/RunReads.v ===== *)
(** * Reading the run journal, and the host-call ledger

    A page of [listEvents] is a slice of the log of its run, and the ledger of host calls
    ([store.ts]) keeps to its ceiling whatever calls come. *)
From S2P Require Import Prelude Js SafeJson ActionResults SessionTables RunTables RunEvents Confirmations Db Discriminators Plan Journal Store ConfirmStore RunStore RunLife.
From S2P Require RunBudget.
Open Scope Z_scope.
#[local] Arguments u : simpl never.
#[local] Existing Instance RunBudget.RunPhase_dec.

(** ** A page is a slice of the log *)

(** Consecutive numbers from [b + 1]. *)
Definition numbered_from (b : Z) (l : list RunEventRow) : Prop :=
  ∀ i e, l !! i = Some e → e.(event_sequence) = b + Z.of_nat i + 1.

Lemma numbered_tail b e l : numbered_from b (e :: l) → e.(event_sequence) = b + 1 ∧ numbered_from (b + 1) l.
Proof.
  intros H. split; [rewrite (H 0%nat e eq_refl); lia|]. intros i e2 Hi. rewrite (H (S i) e2 Hi). lia.
Qed.

Lemma filter_after after b l :
  numbered_from b l → filter (λ e, (after <? e.(event_sequence)) = true) l = drop (Z.to_nat (after - b)) l.
Proof.
  revert b. induction l as [|e l IH]; intros b H; [by rewrite drop_nil|].
  apply numbered_tail in H as [He H]. rewrite filter_cons, He.
  destruct (decide (after ≤ b)) as [Hle|Hlt].
  - rewrite decide_True by lia. replace (Z.to_nat (after - b)) with 0%nat by lia. simpl.
    rewrite (IH _ H). replace (Z.to_nat (after - (b + 1))) with 0%nat by lia. done.
  - rewrite decide_False by lia. rewrite (IH _ H).
    replace (Z.to_nat (after - b)) with (S (Z.to_nat (after - (b + 1)))) by lia. done.
Qed.

Lemma numbered_drop b n l : numbered_from b l → numbered_from (b + Z.of_nat n) (drop n l).
Proof. intros H i e. rewrite lookup_drop. intros Hi. rewrite (H _ _ Hi). lia. Qed.
Lemma numbered_take b n l : numbered_from b l → numbered_from b (take n l).
Proof. intros H i e [Hi _]%lookup_take_Some. by apply H. Qed.

Lemma numbered_sorted b l : numbered_from b l → StronglySorted event_le l.
Proof.
  revert b. induction l as [|e l IH]; intros b H; [constructor|]. apply numbered_tail in H as [He H].
  constructor; [by eapply IH|]. apply Forall_lookup. intros i e2 Hi. unfold event_le. rewrite He, (H _ _ Hi). lia.
Qed.

#[local] Instance event_le_total : Total event_le.
Proof. intros a b. unfold event_le. lia. Qed.
#[local] Instance event_le_trans : Transitive event_le.
Proof. intros a b c. unfold event_le. lia. Qed.

Lemma numbered_merge_sort b l : numbered_from b l → merge_sort event_le l = l.
Proof.
  intros H. apply (StronglySorted_unique_strong event_le).
  - intros e1 e2 H1 H2 L1 L2. rewrite merge_sort_Permutation in H1.
    apply list_elem_of_lookup in H1 as [i Hi], H2 as [j Hj]. unfold event_le in *.
    rewrite (H _ _ Hi), (H _ _ Hj) in *. assert (i = j) as -> by lia. congruence.
  - apply StronglySorted_merge_sort; apply _.
  - by eapply numbered_sorted.
  - apply merge_sort_Permutation.
Qed.

(** The events of a run carry its owner. *)
Lemma in_scope_events x d r :
  journal_ok d → scoped_run x d = Some r →
  filter (λ e, in_scope_event x e = true) d.(run_tables).(run_events) = events_for (key_of_scope x) d.
Proof.
  intros Hok Hr. apply scoped_run_some in Hr as [Hr Hs].
  assert (∀ e, e ∈ d.(run_tables).(run_events) → in_scope_event x e = event_of x.(scope_session) x.(scope_run) e) as He.
  { intros e He. unfold in_scope_event. destruct (event_of _ _ e) eqn:Ee; [|done]. simpl.
    destruct (journal_rows d Hok e He) as [_ Hin]. unfold event_of in Ee. unfold run_in_scope in Hin. zbool.
    repeat match goal with H : bool_decide _ = true |- _ => apply bool_decide_eq_true in H end.
    rewrite H, H0 in Hin. change (scope_session x, scope_run x) with (key_of_scope x) in Hin. rewrite Hr in Hin.
    unfold in_run_scope in Hs. zbool. repeat match goal with H : bool_decide _ = true |- _ => apply bool_decide_eq_true in H end.
    rewrite !bool_decide_eq_true_2 by congruence. done. }
  unfold events_for. simpl. revert He. induction d.(run_tables).(run_events) as [|e l IH]; intros He; [done|].
  rewrite !filter_cons, (He e) by set_solver. rewrite IH by set_solver. done.
Qed.

(** The log that remains after a number, as pages read it. *)
Definition remaining (x : AssistantRunScope) (after : Z) (d : db) : list RunEventPayload :=
  drop (Z.to_nat after) (log_of (key_of_scope x) d).


(** The rows beside what the log holds for them. *)
Notation read_row := (λ e : RunEventRow, RunEvents.payload_of e.(event_type) e.(payload_json)).

Lemma rows_read (l : list RunEventRow) :
  (∀ e, e ∈ l → ∃ p, event_row e p) → Forall2 event_row l (omap read_row l).
Proof.
  induction l as [|e l IH]; intros H; [constructor|]. destruct (H e ltac:(set_solver)) as [p Hp].
  simpl. rewrite (event_row_read _ _ Hp). constructor; [done|]. apply IH. set_solver.
Qed.
Lemma log_rows k d : journal_ok d → Forall2 event_row (events_for k d) (log_of k d).
Proof. intros Hok. apply rows_read. intros e [_ He]%list_elem_of_filter. by apply (journal_rows d Hok). Qed.

Lemma read_rows l ps :
  Forall2 event_row l ps →
  ∃ es, map_result rowToSequencedEvent l = Ok es ∧ sequenced_payload <$> es = ps ∧
    sequenced_number <$> es = event_sequence <$> l.
Proof.
  induction 1 as [|e p l ps (Et & Ev & Hp) H (es & E & E1 & E2)]; [by exists []|]. simpl.
  unfold rowToSequencedEvent at 1. rewrite Et, Ev, Hp. simpl. rewrite E. simpl. eexists. split; [reflexivity|].
  rewrite !fmap_cons. by rewrite E1, E2.
Qed.

Lemma numbered_seqZ b l : numbered_from b l → event_sequence <$> l = seqZ (b + 1) (Z.of_nat (length l)).
Proof.
  intros H. apply list_eq. intros i. rewrite list_lookup_fmap.
  destruct (l !! i) as [e|] eqn:Hi; simpl; symmetry.
  - rewrite (H _ _ Hi). apply lookup_seqZ. apply lookup_lt_Some in Hi. lia.
  - apply lookup_seqZ_ge. apply lookup_ge_None in Hi. lia.
Qed.

Lemma numbered_last b l es :
  numbered_from b l → sequenced_number <$> es = event_sequence <$> l →
  match last es with Some e => e.(sequenced_number) | None => b end = b + Z.of_nat (length es).
Proof.
  intros H E. destruct es as [|e es _] using rev_ind; [simpl; lia|]. rewrite last_snoc, length_app. simpl.
  assert ((sequenced_number <$> es ++ [e]) !! length es = Some (sequenced_number e)) as Hl.
  { rewrite list_lookup_fmap, lookup_app_r, Nat.sub_diag by done. done. }
  rewrite E, list_lookup_fmap in Hl. destruct (l !! length es) as [e2|] eqn:He; [|done]. injection Hl as <-.
  rewrite (H _ _ He). lia.
Qed.

(** A page of the journal.  Reading a run of a sound journal after any number never
    fails; the page holds exactly the next [limit] events of the run's log, in order, with
    consecutive numbers; [hasMore] says exactly whether events are left; [nextAfter] is
    where the next page starts; and [lastSequence] is the length of the whole log. *)
Theorem list_events_exact x after limit d :
  journal_ok d → scoped_run x d ≠ None → 0 ≤ after →
  ∃ page, listEvents x after limit d = Ok page ∧
    sequenced_payload <$> page.(page_events) = take limit (remaining x after d) ∧
    sequenced_number <$> page.(page_events) = seqZ (after + 1) (Z.of_nat (length page.(page_events))) ∧
    page.(hasMore) = bool_decide (limit < length (remaining x after d))%nat ∧
    page.(nextAfter) = after + Z.of_nat (length page.(page_events)) ∧
    page.(lastSequence) = Z.of_nat (length (log_of (key_of_scope x) d)).
Proof.
  intros Hok Hs Ha. destruct (scoped_run x d) as [r|] eqn:Hr; [|done]. clear Hs. unfold listEvents.
  rewrite Hr, bool_decide_eq_false_2 by done.
  set (k := key_of_scope x). set (rest := drop (Z.to_nat after) (events_for k d)).
  assert (numbered_from 0 (events_for k d)) as Hn.
  { intros i e Hi. rewrite (journal_numbered d Hok k i e Hi). lia. }
  assert (filter (λ e, (in_scope_event x e && (after <? event_sequence e)) = true) d.(run_tables).(run_events) = rest) as ->.
  { rewrite (list_filter_iff _ (λ e, (after <? event_sequence e) = true ∧ in_scope_event x e = true))
      by (intros e; rewrite andb_true_iff; tauto).
    rewrite <-list_filter_filter, (in_scope_events x d r Hok Hr), (filter_after after 0) by done. by rewrite Z.sub_0_r. }
  assert (numbered_from after rest ∨ rest = []) as Hrest.
  { destruct (decide (length (events_for k d) < Z.to_nat after)%nat); [right; unfold rest; apply drop_ge; lia|left].
    unfold rest. pose proof (numbered_drop 0 (Z.to_nat after) _ Hn) as H. by rewrite Z.add_0_l, Z2Nat.id in H. }
  assert (numbered_from after rest) as Hnum by (destruct Hrest as [ | -> ]; [done|]; intros i e Hi; done).
  rewrite (numbered_merge_sort after) by done.
  pose proof (Forall2_drop _ _ _ (Z.to_nat after) (log_rows k d Hok)) as Hrows. change (Forall2 event_row rest (remaining x after d)) in Hrows.
  pose proof (Forall2_length _ _ _ Hrows) as Hlen.
  replace (if (limit <? length (take (S limit) rest))%nat then take limit (take (S limit) rest) else take (S limit) rest)
    with (take limit rest).
  2: { rewrite length_take. destruct (Nat.ltb_spec limit (S limit `min` length rest)); [by rewrite take_take, Nat.min_l by lia|].
       rewrite !take_ge by lia. done. }
  destruct (read_rows _ _ (Forall2_take _ _ _ limit Hrows)) as (es & -> & Ep & En). simpl.
  eexists. split; [reflexivity|]. simpl. split_and!; [done| | | |].
  - rewrite En, (numbered_seqZ after) by by apply numbered_take. do 2 f_equal.
    by rewrite <-(length_fmap event_sequence), <-En, length_fmap.
  - rewrite length_take. case_bool_decide; [apply Nat.ltb_lt|apply Nat.ltb_ge]; lia.
  - apply (numbered_last after (take limit rest)); [by apply numbered_take|done].
  - unfold getLastSequence. rewrite last_sequence_filter, (in_scope_events x d r Hok Hr), numbered_max.
    + f_equal. exact (Forall2_length _ _ _ (log_rows k d Hok)).
    + apply (journal_numbered d Hok).
Qed.

(** ** The ledger *)

(** The calls charged and reserved of a run. *)
Definition ledger (d : db) (x : AssistantRunScope) : option (Z * Z) :=
  r ← scoped_run x d; Some (ledger_used r, reserved_of r).
Definition ledger_ok (l : Z * Z) : Prop := 0 ≤ l.1 ∧ 0 ≤ l.2 ∧ l.1 + l.2 ≤ 60.

Inductive LedgerCall : Type := LCharge | LRefund | LConvert.
Definition ledger_call (x : AssistantRunScope) (c : LedgerCall) (now : Z) : M bool :=
  match c with
  | LCharge => chargeRunHostCall x now
  | LRefund => do! _ := refundRunHostCall x now in mreturn true
  | LConvert => convertReservedRunHostCall x now
  end.
(** What a call is to do with the ledger: is it granted, and what is left. *)
Definition ledger_spec (c : LedgerCall) (l : Z * Z) : bool * (Z * Z) :=
  match c with
  | LCharge => if l.1 + l.2 <? 60 then (true, (l.1 + 1, l.2)) else (false, l)
  | LRefund => (true, (Z.max 0 (l.1 - 1), l.2))
  | LConvert => if 0 <? l.2 then (true, (l.1 + 1, l.2 - 1))
                else if l.1 + l.2 <? 60 then (true, (l.1 + 1, l.2)) else (false, l)
  end.

Lemma charged_scope x used reserved now r : in_run_scope x (charged_run used reserved now r) = in_run_scope x r.
Proof. done. Qed.

(** One statement on the ledger of a run. *)
Lemma update_ledger x p used reserved now d r :
  scoped_run x d = Some r → (∀ b, b = p r → b = true → arun_ok (charged_run used reserved now r) = true) →
  rival_run x.(scope_session) x.(scope_run) r d = false →
  ∃ d', update_arun x p (charged_run used reserved now) d = Ok (p r, d') ∧
    (∀ y, ledger d' y = if p r && bool_decide (key_of_scope y = key_of_scope x) && in_run_scope y r
                        then Some (used, reserved) else ledger d y).
Proof.
  intros Hr Hok Hv. pose proof (scoped_run_some _ _ _ Hr) as [Hk Hs]. unfold update_arun. rewrite Hr.
  destruct (p r) eqn:Hp; [|by exists d]. rewrite (Hok true) by done.
  change (rival_run x.(scope_session) x.(scope_run) (charged_run used reserved now r) d)
    with (rival_run x.(scope_session) x.(scope_run) r d). rewrite Hv. simpl.
  eexists. split; [reflexivity|]. intros y. unfold ledger, scoped_run. simpl.
  change (scope_session x, scope_run x) with (key_of_scope x). change (scope_session y, scope_run y) with (key_of_scope y).
  case_bool_decide as E; simpl.
  - rewrite E, lookup_insert_eq, Hk. simpl. rewrite charged_scope. by destruct (in_run_scope y r).
  - by rewrite lookup_insert_ne.
Qed.

Lemma journal_rival x d r : journal_ok d → scoped_run x d = Some r → rival_run x.(scope_session) x.(scope_run) r d = false.
Proof.
  intros Hok Hr. apply scoped_run_some in Hr as [Hk _]. unfold rival_run. destruct (active_phase r.(phase)) eqn:Ha; [|done].
  simpl. apply not_true_iff_false. intros ([[s2 run2] r2] & Hin & H)%existsb_exists. simpl in H. zbool.
  apply bool_decide_eq_true in H. apply bool_decide_eq_false in H1. subst s2.
  apply H1. apply list_elem_of_In, elem_of_map_to_list in Hin.
  exact (journal_active d Hok _ _ _ _ _ Hin Hk H0 Ha).
Qed.

(** A call does what [ledger_spec] says, unless the row would be too large. *)
Lemma ledger_call_exact x c now d l :
  journal_ok d → ledger d x = Some l → ledger_ok l →
  match ledger_call x c now d with
  | Ok (b, d') => journal_ok d' ∧ b = (ledger_spec c l).1 ∧ ledger d' x = Some (ledger_spec c l).2 ∧
                  (∀ y, key_of_scope y ≠ key_of_scope x → ledger d' y = ledger d y)
  | Throw e => e = constraint_failed
  end.
Proof.
  intros Hok Hl (Hu & Hr0 & Hsum). unfold ledger in Hl. apply bind_Some in Hl as (r & Hr & [= <-]). simpl in *.
  pose proof (journal_rival _ _ _ Hok Hr) as Hv. pose proof (scoped_run_some _ _ _ Hr) as [_ Hs].
  assert (∀ p used reserved,
    match update_arun x p (charged_run used reserved now) d with
    | Ok (b, d') => journal_ok d' ∧ b = p r ∧
        ledger d' x = (if p r then Some (used, reserved) else Some (ledger_used r, reserved_of r)) ∧
        (∀ y, key_of_scope y ≠ key_of_scope x → ledger d' y = ledger d y)
    | Throw e => e = constraint_failed
    end) as Hstep.
  { intros p used reserved. destruct (p r && negb (arun_ok (charged_run used reserved now r))) eqn:E; zbool.
    - unfold update_arun. rewrite Hr, H, H0. done.
    - destruct (update_ledger x p used reserved now d r Hr) as (d' & E2 & Hy); [|done|].
      { intros b -> Hb. rewrite Hb in E. by apply negb_false_iff in E. }
      rewrite E2. split_and!; [|done| |].
      + apply (update_arun_moves _ _ _ (to_used used)) in E2 as [->|M]; [done|by apply M|]. intros r2 H2. by rewrite Hr in H2.
      + rewrite Hy. rewrite bool_decide_eq_true_2 by done. rewrite Hs, !andb_true_r. destruct (p r); [done|].
        unfold ledger. by rewrite Hr.
      + intros y Hne. rewrite Hy, bool_decide_eq_false_2 by done. by rewrite andb_false_r. }
  destruct c; simpl; unfold chargeRunHostCall, convertReservedRunHostCall, refundRunHostCall, mthen; rewrite Hr.
  - specialize (Hstep (λ r, ledger_used r + reserved_of r <? 60) (ledger_used r + 1) (reserved_of r)).
    destruct (update_arun _ _ _ _) as [[b d']|e]; [|done]. destruct (_ <? _); done.
  - specialize (Hstep (λ _, true) (Z.max 0 (ledger_used r - 1)) (reserved_of r)).
    destruct (update_arun _ _ _ _) as [[b d']|e]; [|done]. destruct Hstep as (? & _ & ? & ?). done.
  - specialize (Hstep (λ r, (0 <? reserved_of r) || (ledger_used r + reserved_of r <? 60))
      (ledger_used r + 1) (Z.max 0 (reserved_of r - 1))).
    destruct (update_arun _ _ _ _) as [[b d']|e]; [|done].
    destruct (Z.ltb_spec 0 (reserved_of r)); simpl in *; [by rewrite Z.max_r in Hstep by lia|].
    destruct (_ <? _); [|done]. by replace (Z.max 0 (reserved_of r - 1)) with (reserved_of r) in Hstep by lia.
Qed.

(** Calls one after another; a call that throws changes nothing. *)
Fixpoint ledger_calls (x : AssistantRunScope) (cs : list (LedgerCall * Z)) (d : db) : list bool * db :=
  match cs with
  | [] => ([], d)
  | (c, now) :: cs' =>
      match ledger_call x c now d with
      | Ok (b, d1) => let r := ledger_calls x cs' d1 in (b :: r.1, r.2)
      | Throw _ => let r := ledger_calls x cs' d in (false :: r.1, r.2)
      end
  end.
(** The calls granted, less the refunds. *)
Fixpoint net_granted (cs : list (LedgerCall * Z)) (bs : list bool) : Z :=
  match cs, bs with
  | (LRefund, _) :: cs', _ :: bs' => net_granted cs' bs' - 1
  | _ :: cs', b :: bs' => (if b then 1 else 0) + net_granted cs' bs'
  | _, _ => 0
  end.

Lemma ledger_spec_ok c l : ledger_ok l → ledger_ok (ledger_spec c l).2.
Proof.
  destruct l as [a b]. unfold ledger_ok. destruct c; simpl; intros H; [destruct (Z.ltb_spec (a + b) 60)| |
    destruct (Z.ltb_spec 0 b); [|destruct (Z.ltb_spec (a + b) 60)]]; simpl; lia.
Qed.

Lemma ledger_spec_net c l cs bs :
  ledger_ok l → net_granted ((c, 0) :: cs) ((ledger_spec c l).1 :: bs) ≤ (ledger_spec c l).2.1 - l.1 + net_granted cs bs.
Proof.
  destruct l as [a b]. unfold ledger_ok. destruct c; simpl; intros H; [destruct (Z.ltb_spec (a + b) 60)| |
    destruct (Z.ltb_spec 0 b); [|destruct (Z.ltb_spec (a + b) 60)]]; simpl; lia.
Qed.
Lemma net_granted_time c now cs bs : net_granted ((c, now) :: cs) bs = net_granted ((c, 0) :: cs) bs.
Proof. by destruct c, bs. Qed.

(** The host-call ledger of a run.  From a sound journal and a ledger within its
    ceiling, whatever charges, refunds and conversions of reserved calls follow, the ledger
    stays within it (nothing negative, used and reserved together at most sixty), and no
    more calls are granted, refunds deducted, than the sixty less those already used. *)
Theorem host_ledger_bounded x cs d l :
  journal_ok d → ledger d x = Some l → ledger_ok l →
  ∃ l', ledger (ledger_calls x cs d).2 x = Some l' ∧ ledger_ok l' ∧
    net_granted cs (ledger_calls x cs d).1 ≤ 60 - l.1.
Proof.
  revert d l. enough (∀ cs d l, journal_ok d → ledger d x = Some l → ledger_ok l →
    ∃ l', ledger (ledger_calls x cs d).2 x = Some l' ∧ ledger_ok l' ∧
      net_granted cs (ledger_calls x cs d).1 ≤ l'.1 - l.1) as H.
  { intros d l Hok Hl Hb. destruct (H cs d l Hok Hl Hb) as (l' & ? & Hb' & ?). exists l'.
    unfold ledger_ok in Hb'. split_and!; [done|done|lia]. }
  clear cs. intros cs. induction cs as [|[c now] cs IH]; intros d l Hok Hl Hb; simpl.
  { exists l. split_and!; [done|done|lia]. }
  pose proof (ledger_call_exact x c now d l Hok Hl Hb) as Hc.
  destruct (ledger_call x c now d) as [[b d1]|e]; simpl.
  - destruct Hc as (Hok1 & -> & Hl1 & _). pose proof (ledger_spec_ok c l Hb) as Hb1.
    destruct (IH _ _ Hok1 Hl1 Hb1) as (l' & E & Hb' & Hn). exists l'. split_and!; [done|done|].
    pose proof (ledger_spec_net c l cs (ledger_calls x cs d1).1 Hb) as Hnet. rewrite <-(net_granted_time c now) in Hnet.
    destruct c; simpl in *; lia.
  - destruct (IH _ _ Hok Hl Hb) as (l' & E & Hb' & Hn). exists l'. split_and!; [done|done|]. destruct c; lia.
Qed.

(** ** Witnesses *)

Lemma demo_unlisted : scoped_run demo_scope started_db ≠ None.
Proof. by vm_compute. Qed.

(** The whole journal of a run just started. *)
Lemma list_events_exact_witness :
  journal_ok started_db ∧
  ∃ page, listEvents demo_scope 0 10 started_db = Ok page ∧
    sequenced_payload <$> page.(page_events) = [run_started (replicate 64 97%N)] ∧ page.(hasMore) = false.
Proof.
  split; [exact started_journal_ok|].
  destruct (list_events_exact demo_scope 0 10 started_db started_journal_ok demo_unlisted ltac:(done))
    as (page & H & Hp & _ & Hm & _). exists page. split_and!; [done| |].
  - rewrite Hp. by vm_compute.
  - rewrite Hm. by vm_compute.
Defined.

(** Two charges, a refund and a conversion. *)
Lemma host_ledger_bounded_witness :
  ledger started_db demo_scope = Some (0, 0) ∧
  ∃ l', ledger (ledger_calls demo_scope [(LCharge, 6); (LCharge, 7); (LRefund, 8); (LConvert, 9)] started_db).2
          demo_scope = Some l' ∧ ledger_ok l' ∧ l' = (2, 0).
Proof.
  split; [by vm_compute|].
  destruct (host_ledger_bounded demo_scope [(LCharge, 6); (LCharge, 7); (LRefund, 8); (LConvert, 9)] started_db (0, 0)
    started_journal_ok ltac:(by vm_compute) ltac:(unfold ledger_ok; simpl; lia)) as (l' & H & Hok & _).
  exists l'. split_and!; [done|done|]. vm_compute in H. by injection H as <-.
Defined.
