(* ===== verification/ConfirmLife.v ===== *)
(** * The life of a confirmation

    What every operation of the stores may do to [pending_confirmations]: the one-use
    state machine, the payload a row may still hold, and how closing or settling a
    preview carries its operation, its result and its idempotency key along. *)
From S2P Require Import Prelude Js SafeJson ActionResults Confirmations Db Discriminators Plan Journal Store JournalResults JournalMachine ConfirmStore.
Open Scope Z_scope.
#[local] Arguments u : simpl never.

(** ** The state machine of a row *)

Inductive pending_edge : PendingStatus → PendingStatus → Prop :=
| pending_cancel : pending_edge PPending PCancelled
| pending_expire : pending_edge PPending PExpired
| pending_claim : pending_edge PPending PExecuting
| pending_settle k : pending_edge PExecuting (pending_status_of k)
| pending_reconcile k : pending_edge POutcomeUnknown (pending_status_of k).

Lemma edge_not_pending s s' : pending_edge s s' → s' ≠ PPending.
Proof. destruct 1 as [| | |[]|[]]; done. Qed.

Lemma used_stays_used s s' : rtc pending_edge s s' → s ≠ PPending → s' ≠ PPending.
Proof. induction 1; eauto using edge_not_pending. Qed.

(** A row keeps its binding and moves along the edges. *)
Definition row_moves (r r' : PendingRow) : Prop :=
  r'.(preview) = r.(preview) ∧ rtc pending_edge r.(status) r'.(status).

#[export] Instance row_moves_preorder : PreOrder row_moves.
Proof.
  split; [done|]. intros r1 r2 r3 [P1 E1] [P2 E2]. split; [congruence|by etrans].
Qed.

Abbreviation confirmations := (gmap jstr PendingRow).

Record conf_life (t t' : confirmations) : Prop := {
  conf_old : ∀ pid r, t !! pid = Some r → ∃ r', t' !! pid = Some r' ∧ row_moves r r';
  conf_guard : (∀ pid r, t !! pid = Some r → payload_guard r = true) →
    ∀ pid r, t' !! pid = Some r → payload_guard r = true;
}.

#[export] Instance conf_life_preorder : PreOrder conf_life.
Proof.
  split.
  - intros t. constructor; [|done]. intros pid r Hr. by exists r.
  - intros t1 t2 t3 [O1 G1] [O2 G2]. constructor; [|intros Hg; by apply G2, G1].
    intros pid r H1. destruct (O1 _ _ H1) as (r2 & H2 & M1). destruct (O2 _ _ H2) as (r3 & H3 & M2).
    exists r3. split; [done|by etrans].
Qed.

Definition life_of (d d' : db) : Prop := conf_life d.(pending_confirmations) d'.(pending_confirmations).

#[export] Instance life_of_preorder : PreOrder life_of.
Proof. split; unfold life_of; [by intros d|]. intros d1 d2 d3 H1 H2. by etrans. Qed.

Lemma with_result_guard a s r : payload_guard (with_result a s r) = payload_guard r.
Proof. done. Qed.

Lemma update_moves pid blob p f d b d' :
  (∀ r, p r = true → row_moves r (f r)) →
  update_confirmation pid blob p f d = Ok (b, d') → life_of d d'.
Proof.
  intros Hf [[_ ->]|(_ & old & new & Hold & Hp & Hg & Hnew & E)]%update_confirmation_row; [done|].
  unfold life_of. rewrite E. constructor.
  - intros pid2 r H2. destruct (decide (pid2 = pid)) as [->|Hne].
    + exists new. rewrite lookup_insert_eq. split; [done|]. assert (r = old) as -> by congruence.
      destruct Hnew as [->|(a & s & ->)]; by apply Hf.
    + exists r. rewrite lookup_insert_ne by done. done.
  - intros Hall pid2 r2 H3. apply lookup_insert_Some in H3 as [[_ <-]|[_ H3]]; [|eauto].
    destruct Hnew as [->|(a & s & ->)]; rewrite ?with_result_guard; done.
Qed.

(** A statement under which the rows only move. *)
Class Moves {A : Type} (m : M A) : Prop := moves : ∀ d a d', m d = Ok (a, d') → life_of d d'.

#[export] Instance moves_keeps {A} (m : M A) : Keeps pending_confirmations m → Moves m | 10.
Proof. intros Hk d a d' H. unfold life_of. by rewrite (Hk _ _ _ H). Qed.
#[export] Instance moves_then {A B} (m : M A) (k : A → M B) :
  Moves m → (∀ a, Moves (k a)) → Moves (mthen m k).
Proof. intros Hm Hk d b d' (a & d1 & H1 & H2)%mthen_ok. etrans; [by eapply Hm|by eapply Hk]. Qed.

Ltac solve_moves :=
  repeat first [ apply _ | apply moves_then; [|intros ?] | case_match ].

Lemma moves_update pid blob p f :
  (∀ r, p r = true → row_moves r (f r)) → Moves (update_confirmation pid blob p f).
Proof. intros Hf d b d'. by apply update_moves. Qed.

Lemma is_pending_spec r : is_pending r = true ↔ r.(status) = PPending.
Proof. apply bool_decide_eq_true. Qed.

(** One edge, from a guard that fixes the status. *)
Ltac one_edge := intros r Hr; split; [done|]; rewrite ?andb_true_iff, ?is_pending_spec in Hr;
  unfold is_executing in Hr; rewrite ?bool_decide_eq_true in Hr; destruct_and?;
  simpl; match goal with H : status r = _ |- _ => rewrite H end.

#[export] Instance moves_nonce pid h : Moves (updateConfirmationNonceHash pid h).
Proof. apply moves_update. intros r _. split; [done|simpl; reflexivity]. Qed.
#[export] Instance moves_cancel pid now blob : Moves (cancelConfirmation pid now blob).
Proof. apply moves_update. one_edge. apply rtc_once. constructor. Qed.
#[export] Instance moves_close_expired pid now blob :
  Moves (update_confirmation pid blob is_pending (closed_preview PExpired now)).
Proof. apply moves_update. one_edge. apply rtc_once. constructor. Qed.
#[export] Instance moves_expire pid now blob : Moves (expireConfirmation pid now blob).
Proof. apply moves_update. one_edge. apply rtc_once. constructor. Qed.
#[export] Instance moves_claimed pid now a s :
  Moves (update_confirmation pid [] is_pending (claimed_preview now a s)).
Proof. apply moves_update. one_edge. apply rtc_once. constructor. Qed.
#[export] Instance moves_settled pid k a s :
  Moves (update_confirmation pid [] is_executing (settled_preview k a s)).
Proof. apply moves_update. one_edge. apply rtc_once. constructor. Qed.
#[export] Instance moves_keyed pid p k : Moves (update_confirmation pid [] p (with_key k)).
Proof. apply moves_update. intros r _. split; [done|simpl; reflexivity]. Qed.

#[export] Instance moves_get pid now blob : Moves (getPendingConfirmation pid now blob).
Proof. unfold getPendingConfirmation. solve_moves. Qed.
#[export] Instance moves_claim pid now uuid : Moves (markConfirmationExecuting pid now uuid).
Proof. unfold markConfirmationExecuting. solve_moves. Qed.
#[export] Instance moves_bind pid key : Moves (bindConfirmationIdempotencyKey pid key).
Proof. unfold bindConfirmationIdempotencyKey. solve_moves. Qed.

Lemma open_drop_keeps k d : (drop_claim k d).(pending_confirmations) = d.(pending_confirmations).
Proof. unfold drop_claim. by destruct (open_claim k d). Qed.

#[export] Instance moves_release pid key : Moves (releaseConfirmationIdempotencyKey pid key).
Proof.
  intros d a d' H. unfold releaseConfirmationIdempotencyKey in H. minv; try done.
  match goal with H : update_confirmation _ _ _ _ _ = _ |- _ => apply (moves_keyed _ _ _ _ _ _) in H end.
  etrans; [|done]. unfold life_of. by rewrite open_drop_keeps.
Qed.

#[export] Instance keeps_settle_claim k key a s now :
  Keeps pending_confirmations (settle_claim k key a s now).
Proof. intros d x d' H. unfold settle_claim in H. minv; [by apply open_drop_keeps|done]. Qed.

#[export] Instance moves_settle_rows pid k name a op x y now :
  Moves (settle_rows pid k name a op x y now).
Proof. unfold settle_rows. solve_moves. Qed.
#[export] Instance moves_settle pid k name v now : Moves (settleConfirmation pid k name v now).
Proof. unfold settleConfirmation. solve_moves. Qed.

#[export] Instance moves_for_each {A} (l : list A) f : (∀ x, Moves (f x)) → Moves (for_each l f).
Proof. intros Hf. induction l; simpl; apply _. Qed.

#[export] Instance moves_expire_due sid now blob : Moves (expire_due sid now blob).
Proof.
  unfold expire_due. apply moves_then; [apply _|]. intros d. apply moves_for_each. intros kv.
  apply moves_then; [|apply _]. apply moves_update. one_edge. apply rtc_once. constructor.
Qed.
#[export] Instance moves_list sid now blob : Moves (listPendingConfirmations sid now blob).
Proof. unfold listPendingConfirmations. apply _. Qed.
#[export] Instance moves_count sid now blob : Moves (countPendingConfirmations sid now blob).
Proof. unfold countPendingConfirmations. apply _. Qed.

#[export] Instance moves_insert pid r : Moves (insert_confirmation pid r).
Proof.
  intros d a d' H. unfold insert_confirmation in H.
  destruct (_ !! pid) eqn:Hn; [done|]. destruct (negb (confirmation_matrix _)); [done|].
  destruct (negb (payload_guard r)) eqn:Hg; [done|]. injection H as _ <-.
  unfold life_of. simpl. constructor.
  - intros pid2 r2 H2. exists r2. by rewrite lookup_insert_ne by congruence.
  - intros Hall pid2 r2 H2. apply lookup_insert_Some in H2 as [[_ <-]|[_ H2]]; [|eauto].
    by apply negb_false_iff.
Qed.
#[export] Instance moves_save sha256 r : Moves (savePendingConfirmation sha256 r).
Proof. unfold savePendingConfirmation. solve_moves. Qed.

#[export] Instance moves_waiting o id a k s : Moves (settle_waiting_confirmation o id a k s).
Proof.
  unfold settle_waiting_confirmation. solve_moves. apply moves_update. intros r Hr.
  rewrite !andb_true_iff, !bool_decide_eq_true in Hr. destruct Hr as [[_ Hr] _].
  split; [done|]. rewrite Hr. apply rtc_once. constructor.
Qed.

(** The journal touches a confirmation only when a restart settles it. *)
Lemma moves_putdb g : (∀ d, (g d).(pending_confirmations) = d.(pending_confirmations)) →
  ∀ {B} (k : M B), Moves k → Moves (do! d := getdb in do! _ := putdb (g d) in k).
Proof.
  intros Hg B k Hk d b d' H. minv. apply Hk in H. etrans; [|done]. unfold life_of. by rewrite Hg.
Qed.

#[export] Instance moves_startup sha256 id sid v now uuid :
  Moves (settleStartupReconciliation sha256 id sid v now uuid).
Proof.
  unfold settleStartupReconciliation. apply moves_then; [apply _|]. intros d.
  destruct (_ !! id) as [o|]; [|apply _]. apply moves_then; [solve_moves|]. intros valid.
  destruct valid; [|apply _]. destruct (unknown_step _ _ _) as [step|]; [|apply _].
  destruct (plan_binds _ _ _); [|apply _]. destruct (evidence_binds _ _ _ _ _); [|apply _].
  apply moves_then; [apply _|]. intros detail. apply moves_then; [apply _|]. intros [|]; [|apply _].
  do 5 (apply moves_then; [apply _|]; intros ?). apply (moves_putdb (λ d, refresh_summaries _ _ _ _ d)); [done|].
  solve_moves.
Qed.

#[export] Instance keeps_record id sid v au now :
  Keeps pending_confirmations (recordOperationReconciliation id sid v au now).
Proof.
  intros d b d' H. unfold recordOperationReconciliation in H. minv.
  destruct (update_row _ _ _ _) as [t c]. by minv.
Qed.

#[export] Instance moves_journal sha256 c now uuid : Moves (journal_run sha256 c now uuid).
Proof.
  destruct c; cbn [journal_run];
    unfold prepareOperationRun, markOperationExecuting, settleOperationRun, settleOperationResult,
      recordActionResult, prepareOperationStep, markOperationStepExecuting, markOperationStepDispatched,
      cancelOperationStepBeforeDispatch, settleOperationStep, settleOperationStepDegraded,
      settleReconciledStep, prepareCompensationStep, markOperationStepCompensating,
      settleCompensationStep, settleCompensationStepDegraded, settle_compensation_rows;
    try (solve_moves; fail).
Qed.

(** ** Runs of the stores *)

Inductive store_op : Type :=
| SJournal (c : journal_op)
| SSave (r : PendingConfirmationRecord)
| SGet (pid : jstr)
| SList (sid : jstr)
| SCount (sid : jstr)
| SRotate (pid h : jstr)
| SCancel (pid : jstr)
| SExpire (pid : jstr)
| SClaim (pid : jstr)
| SBind (pid key : jstr)
| SRelease (pid key : jstr)
| SSettle (pid : jstr) (k : ActionResultKind) (actionName : jstr) (v : jsval).

Section Runs.
Context (sha256 : jstr → jstr).

Definition store_run (c : store_op) (now : Z) (uuid : jstr) : M unit :=
  match c with
  | SJournal c => journal_run sha256 c now uuid
  | SSave r => savePendingConfirmation sha256 r
  | SGet pid => do! _ := getPendingConfirmation pid now uuid in mreturn tt
  | SList sid => do! _ := listPendingConfirmations sid now (app uuid) in mreturn tt
  | SCount sid => do! _ := countPendingConfirmations sid now (app uuid) in mreturn tt
  | SRotate pid h => do! _ := updateConfirmationNonceHash pid h in mreturn tt
  | SCancel pid => do! _ := cancelConfirmation pid now uuid in mreturn tt
  | SExpire pid => do! _ := expireConfirmation pid now uuid in mreturn tt
  | SClaim pid => do! _ := markConfirmationExecuting pid now uuid in mreturn tt
  | SBind pid key => bindConfirmationIdempotencyKey pid key
  | SRelease pid key => releaseConfirmationIdempotencyKey pid key
  | SSettle pid k name v => do! _ := settleConfirmation pid k name v now in mreturn tt
  end.

Definition store_step (d : db) (call : store_op * Z * jstr) : db :=
  match store_run call.1.1 call.1.2 call.2 d with
  | Ok (_, d') => d'
  | Throw _ => d
  end.

#[export] Instance moves_run c now uuid : Moves (store_run c now uuid).
Proof.
  destruct c; cbn [store_run].
  - apply moves_journal.
  - apply moves_save.
  - apply moves_then; [apply moves_get|apply _].
  - apply moves_then; [apply moves_list|apply _].
  - apply moves_then; [apply moves_count|apply _].
  - apply moves_then; [apply moves_nonce|apply _].
  - apply moves_then; [apply moves_cancel|apply _].
  - apply moves_then; [apply moves_expire|apply _].
  - apply moves_then; [apply moves_claim|apply _].
  - apply moves_bind.
  - apply moves_release.
  - apply moves_then; [apply moves_settle|apply _].
Qed.

Lemma runs_life d calls : life_of d (run_events store_step d calls).
Proof.
  apply (run_preorder store_step life_of); [apply _|]. intros d1 c. unfold store_step.
  destruct (store_run _ _ _ d1) as [[[] d2]|] eqn:H; [|done]. by eapply moves_run.
Qed.
End Runs.

(** A row that is not pending is never touched by the pending-only operations. *)
Lemma not_pending_idle pid blob p f d :
  (∀ r, d.(pending_confirmations) !! pid = Some r → p r = false) →
  update_confirmation pid blob p f d = Ok (false, d).
Proof.
  intros Hp. unfold update_confirmation. destruct (_ !! pid) as [r|]; [|done]. by rewrite (Hp r).
Qed.

Lemma not_pending_stuck pid now uuid h d :
  (∀ r, d.(pending_confirmations) !! pid = Some r → is_pending r = false) →
  markConfirmationExecuting pid now uuid d = Ok (false, d) ∧
  cancelConfirmation pid now uuid d = Ok (false, d) ∧
  expireConfirmation pid now uuid d = Ok (false, d) ∧
  updateConfirmationNonceHash pid h d = Ok (false, d).
Proof.
  intros Hp. split_and!.
  - unfold markConfirmationExecuting, mthen, getdb. destruct (_ !! pid) as [r|] eqn:E; [|done].
    by rewrite (Hp r).
  - by apply not_pending_idle.
  - apply not_pending_idle. intros r Hr. by rewrite (Hp r).
  - by apply not_pending_idle.
Qed.

(** What a successful claim did. *)
Lemma claim_ok pid now uuid d d' :
  markConfirmationExecuting pid now uuid d = Ok (true, d') →
  ∃ r o summary stored,
    let op := r.(preview).(preview_operation_id) in
    d.(pending_confirmations) !! pid = Some r ∧ r.(status) = PPending ∧
    d.(operation_runs) !! op = Some o ∧ o.(run_status) = RunPrepared ∧
    (∀ a x, d.(action_results) !! a = Some x → x.(result_operation_id) ≠ Some op) ∧
    d'.(pending_confirmations) = <[pid := claimed_preview now uuid summary r]> d.(pending_confirmations) ∧
    d'.(operation_runs) = <[op := confirmed_operation_terminal_scrub
      (with_run_status RunExecuting (Some uuid) now o)]> d.(operation_runs) ∧
    d'.(action_results) = <[uuid := result_row (Some op) r.(preview).(preview_workspace_id)
      r.(preview).(preview_admin_user_id) (Some r.(preview).(preview_session_id))
      (claim_action_name d r) outcome_unknown stored summary now]> d.(action_results).
Proof.
  unfold markConfirmationExecuting. intros H. minv.
  match goal with H : is_pending ?r = true |- _ => apply is_pending_spec in H end.
  match goal with H : update_confirmation _ _ _ _ _ = Ok (true, _) |- _ =>
    apply update_confirmation_plain in H as (old & Hold & _ & _ & ->) end.
  2: { intros r Hr. apply is_pending_spec in Hr.
       unfold pre_dispatch_terminal, settlement_scrubs. by rewrite Hr. }
  match goal with H : insert_result _ _ _ = _ |- _ => apply insert_result_ok in H as (_ & Hu & _ & ->) end.
  match goal with H : update_run_status _ _ _ _ = Ok (true, _) |- _ =>
    pose proof (keeps_update_run pending_confirmations _ _ _ _ _ _ H) as Ec;
    pose proof (keeps_update_run action_results _ _ _ _ _ _ H) as Ea;
    apply update_run_ok in H as [[? _]|(_ & o & Ho & Hst & Er)]; [done|] end.
  unfold mreturn in *. match goal with H : Ok _ = Ok _ |- _ => injection H as -> end.
  simpl in *. assert (old = p) as -> by congruence.
  exists p, o, a1, a3. split_and!; try done; [by apply bool_decide_eq_true in Hst|by apply Hu].
Qed.

(** ** A closed preview *)

(** The operation is denied: failed with the denial as its only result, and empty, so that
    it can never be executed. *)
Definition denied_operation (s : PendingStatus) (op blob : jstr) (o : OperationRunRow) (d : db) : Prop :=
  ∃ o' x, d.(operation_runs) !! op = Some o' ∧ o'.(binding) = o.(binding) ∧
    o'.(run_status) = RunDefinitiveFailed ∧ o'.(run_result_id) = Some blob ∧ o'.(operation_json) = empty_object ∧
    d.(action_results) !! blob = Some x ∧ x.(result_operation_id) = Some op ∧
    x.(result_kind) = definitive_failed ∧
    x.(result_json) = denial_receipt (bool_decide (s = PCancelled)) o.(binding).(action_name) ∧
    (∀ a y, d.(action_results) !! a = Some y → y.(result_operation_id) = Some op → a = blob) ∧
    ∀ now, markOperationExecuting op now d = Ok (false, d).

(** The pending preview of [d] is closed in [d'], and its operation denied with it. *)
Definition closed_as (s : PendingStatus) (pid blob : jstr) (d d' : db) : Prop :=
  ∃ r r', let op := r.(preview).(preview_operation_id) in
    d.(pending_confirmations) !! pid = Some r ∧ r.(status) = PPending ∧
    d'.(pending_confirmations) !! pid = Some r' ∧ r'.(status) = s ∧ r'.(preview) = r.(preview) ∧
    r'.(nonce_hash) = [] ∧ r'.(preview_operation_json) = None ∧ r'.(agent_state_json) = None ∧
    r'.(risk_json) = VArr [] ∧ r'.(preview_json) = VObj [] ∧ r'.(target_fingerprints_json) = VArr [] ∧
    ∀ o, d.(operation_runs) !! op = Some o → o.(run_status) = RunPrepared ∧ denied_operation s op blob o d'.

Lemma update_hits pid blob p f d d' r :
  d.(pending_confirmations) !! pid = Some r → p r = true → update_confirmation pid blob p f d ≠ Ok (false, d').
Proof.
  intros Hr Hp H. unfold update_confirmation in H. rewrite Hr, Hp in H. cbv zeta in H. destruct (negb _); [done|].
  destruct (_ && negb _); [done|]. by apply mthen_ok in H as (? & ? & _ & [=]).
Qed.

Section Closing.
Context (pid blob : jstr) (p : PendingRow → bool) (s : PendingStatus) (now : Z).
Hypothesis closes : s = PCancelled ∨ s = PExpired.
Hypothesis of_pending : ∀ r, p r = true → r.(status) = PPending.

Lemma closing_terminal old : p old = true → pre_dispatch_terminal old (closed_preview s now old) = true.
Proof.
  intros Hp. unfold pre_dispatch_terminal. rewrite (bool_decide_eq_true_2 _ (of_pending old Hp)). simpl.
  by destruct closes as [->| ->].
Qed.

Lemma close_denies d d' :
  update_confirmation pid blob p (closed_preview s now) d = Ok (true, d') → closed_as s pid blob d d'.
Proof.
  intros H. pose proof H as Hrow.
  apply update_confirmation_row in Hrow as [[? _]|(_ & old & new & Hold & Hpo & Hg & Hnew & E)]; [done|].
  exists old, new. cbv zeta. split; [done|]. split; [auto|]. split; [by rewrite E, lookup_insert_eq|].
  do 8 (split; [by destruct Hnew as [->|(?&?&->)]|]). intros o Ho.
  destruct (update_confirmation_denial _ _ _ _ _ _ _ H Hold (closing_terminal old Hpo))
    as [(Hn & _)|(o2 & Ho2 & Hst & _ & Hu & Er & Ea & _)]; simpl in *; [congruence|].
  assert (o2 = o) as -> by congruence. split; [done|]. unfold denied_operation. rewrite Er, Ea, !lookup_insert_eq.
  do 2 eexists. do 9 (split; [done|]). split.
  - intros a y Hy Hop. destruct (decide (a = blob)) as [->|Hne]; [done|]. rewrite lookup_insert_ne in Hy by done.
    by destruct (Hu a y Hy).
  - intros now2. apply update_run_idle. rewrite Er, lookup_insert_eq. by intros r [= <-].
Qed.

(** A later closing leaves a denied operation, and a closed preview, as they are. *)
Lemma denied_stays s2 op blob2 o d b d' :
  update_confirmation pid blob p (closed_preview s now) d = Ok (b, d') → denied_operation s2 op blob2 o d → denied_operation s2 op blob2 o d'.
Proof.
  intros H Hd. destruct b; [|by apply update_confirmation_row in H as [[_ ->]|[? _]]].
  destruct Hd as (o' & x & Ho & Hb & Hst & Hid & Hj & Hx & Hop & Hk & Hres & Hu & _).
  pose proof (result_confirmation blob2 x _ _ _ _ _ _ _ H Hx) as Hx'.
  pose proof H as Hrow. apply update_confirmation_row in Hrow as [[? _]|(_ & old & _ & Hold & Hpo & _)]; [done|].
  assert (d'.(operation_runs) !! op = Some o' ∧
    (∀ a y, d'.(action_results) !! a = Some y → y.(result_operation_id) = Some op → a = blob2)) as [Ho' Hu'].
  { destruct (update_confirmation_denial _ _ _ _ _ _ _ H Hold (closing_terminal old Hpo))
      as [(_ & -> & ->)|(o2 & Ho2 & Hst2 & _ & _ & Er & Ea & _)]; [done|]. simpl in *.
    assert (op ≠ old.(preview).(preview_operation_id)) as Hne by (intros ->; congruence).
    rewrite Er, Ea, lookup_insert_ne by done. split; [done|]. intros a y Hy Hyop.
    destruct (decide (a = blob)) as [->|Hne2]; [rewrite lookup_insert_eq in Hy; injection Hy as <-; simpl in Hyop; congruence|].
    rewrite lookup_insert_ne in Hy by done. eauto. }
  exists o', x. do 10 (split; [done|]). intros now2. apply update_run_idle. intros r Hr.
  assert (r = o') as -> by congruence. unfold has_run_status. by rewrite Hst.
Qed.
Lemma closed_preview_stays s2 pid2 blob2 d0 d b d' :
  s2 ≠ PPending → update_confirmation pid blob p (closed_preview s now) d = Ok (b, d') →
  closed_as s2 pid2 blob2 d0 d → closed_as s2 pid2 blob2 d0 d'.
Proof.
  intros Hs2 H (r & r' & Hr & Hst & Hr' & Hst' & Hrest). exists r, r'. cbv zeta in *.
  assert (d'.(pending_confirmations) !! pid2 = Some r') as Hr2.
  { apply update_confirmation_row in H as [[_ ->]|(_ & old & new & Hold & Hp & _ & _ & E)]; [done|].
    rewrite E, lookup_insert_ne; [done|]. intros ->. apply of_pending in Hp. congruence. }
  destruct Hrest as (? & ? & ? & ? & ? & ? & ? & Hop). do 11 (split; [done|]). intros o Ho.
  destruct (Hop o Ho) as [? Hd]. split; [done|]. by eapply denied_stays.
Qed.
End Closing.

(** A due preview that a pass over its session has not reached yet. *)
Definition due_still (d0 : db) (pid : jstr) (r : PendingRow) (d : db) : Prop :=
  let op := r.(preview).(preview_operation_id) in
  d.(pending_confirmations) !! pid = Some r ∧
  (d.(operation_runs) !! op = d0.(operation_runs) !! op ∨
   ∃ o, d.(operation_runs) !! op = Some o ∧ o.(run_status) ≠ RunPrepared).

Lemma due_step now d0 pid r pid2 blob d b d' :
  d0.(pending_confirmations) !! pid = Some r → r.(status) = PPending → due now r = true → due_still d0 pid r d →
  update_confirmation pid2 blob (λ r, is_pending r && due now r) (closed_preview PExpired now) d = Ok (b, d') →
  if decide (pid2 = pid) then closed_as PExpired pid blob d0 d' else due_still d0 pid r d'.
Proof.
  intros Hr0 Hst Hdue [Hr Hop] H.
  assert (∀ r, is_pending r && due now r = true → r.(status) = PPending) as Hp
    by (by intros ? [?%is_pending_spec _]%andb_true_iff).
  case_decide as Heq; [subst pid2|].
  - destruct b; [|destruct (update_hits _ _ _ _ _ _ _ Hr (andb_true_intro (conj (proj2 (is_pending_spec r) Hst) Hdue)) H)].
    apply close_denies in H as (r2 & r' & Hr2 & _ & Hr' & Hrest); [|by right|done].
    assert (r2 = r) as -> by congruence. exists r, r'. cbv zeta in *. destruct Hrest as (? & ? & ? & ? & ? & ? & ? & ? & Ho).
    do 11 (split; [done|]). intros o Hoo. destruct Hop as [E|(o2 & Ho2 & Hn)]; [apply Ho; congruence|].
    by destruct (Ho o2 Ho2).
  - destruct b; [|by apply update_confirmation_row in H as [[_ ->]|[? _]]].
    pose proof H as Hrow. apply update_confirmation_row in Hrow as [[? _]|(_ & old & new & Hold & Hpo & _ & _ & E)]; [done|].
    split; [by rewrite E, lookup_insert_ne|].
    destruct (update_confirmation_denial _ _ _ _ _ _ _ H Hold (closing_terminal _ _ now ltac:(by right) Hp old Hpo))
      as [(_ & -> & _)|(o2 & Ho2 & Hst2 & _ & _ & Er & _ & _)]; [done|]. simpl in *. rewrite Er.
    destruct (decide (old.(preview).(preview_operation_id) = r.(preview).(preview_operation_id))) as [->|Hne];
      [right; rewrite lookup_insert_eq; by eexists|by rewrite lookup_insert_ne].
Qed.

Lemma expire_pass_closes now blob pid r l d0 d d' :
  let f kv := do! _ := update_confirmation kv.1 (blob kv.1) (λ r, is_pending r && due now r) (closed_preview PExpired now) in
              mreturn tt in
  d0.(pending_confirmations) !! pid = Some r → r.(status) = PPending → due now r = true →
  for_each l f d = Ok (tt, d') →
  (closed_as PExpired pid (blob pid) d0 d → closed_as PExpired pid (blob pid) d0 d') ∧
  (pid ∈ (fst : jstr * PendingRow → jstr) <$> l → due_still d0 pid r d → closed_as PExpired pid (blob pid) d0 d').
Proof.
  intros f Hr Hst Hdue. revert d. induction l as [|kv l IH]; intros d H; simpl in H.
  { injection H as <-. split; [done|]. by intros ?%elem_of_nil. }
  apply mthen_ok in H as ([] & d1 & H1 & H). apply mthen_ok in H1 as (b & d2 & H1 & [= <-]).
  destruct (IH _ H) as [IHc IHd]. assert (closed_as PExpired pid (blob pid) d0 d → closed_as PExpired pid (blob pid) d0 d') as Hc.
  { intros Hc. apply IHc. eapply closed_preview_stays; [by right| |done|exact H1|done].
    by intros ? [?%is_pending_spec _]%andb_true_iff. }
  split; [exact Hc|]. intros Hin Hd. pose proof (due_step _ _ _ _ _ _ _ _ _ Hr Hst Hdue Hd H1) as Hstep.
  case_decide as Heq; [subst; by apply IHc|]. apply IHd; [|done].
  rewrite fmap_cons in Hin. apply elem_of_cons in Hin as [->|Hin]; done.
Qed.

Lemma expire_due_closes sid now blob pid r d d' :
  expire_due sid now blob d = Ok (tt, d') → d.(pending_confirmations) !! pid = Some r →
  r.(preview).(preview_session_id) = sid → r.(status) = PPending → due now r = true →
  closed_as PExpired pid (blob pid) d d'.
Proof.
  intros H Hr Hs Hst Hdue. unfold expire_due in H. apply mthen_ok in H as (d0 & d1 & [= <- <-] & H).
  refine (proj2 (expire_pass_closes now blob pid r _ _ _ _ Hr Hst Hdue H) _ _); [|split; [done|by left]].
  apply list_elem_of_fmap. exists (pid, r). split; [done|]. apply list_elem_of_filter. split; [|by apply elem_of_map_to_list].
  split; [done|]. simpl. rewrite Hdue, andb_true_r. by apply is_pending_spec.
Qed.

Lemma get_closes pid now blob v r d d' :
  getPendingConfirmation pid now blob d = Ok (v, d') → d.(pending_confirmations) !! pid = Some r →
  r.(status) = PPending → due now r = true → closed_as PExpired pid blob d d'.
Proof.
  intros H Hr Hst Hdue. unfold getPendingConfirmation in H. apply mthen_ok in H as (d0 & d1 & [= <- <-] & H).
  rewrite Hr, Hdue, andb_true_r, (proj2 (is_pending_spec r) Hst) in H.
  apply mthen_ok in H as (b & d2 & H & H2). minv. destruct b; [eapply close_denies; [by right| |exact H];
    by intros ? ?%is_pending_spec|]. by destruct (update_hits _ _ _ _ _ _ _ Hr (proj2 (is_pending_spec r) Hst) H).
Qed.

Lemma pending_read_live pid now blob rec d d' :
  getPendingConfirmation pid now blob d = Ok (Some rec, d') → rec.(Confirmations.status) = PPending →
  d' = d ∧ ∃ e, rec.(expiresAt) = Some e ∧ now < e.
Proof.
  intros H Hst. unfold getPendingConfirmation in H. apply mthen_ok in H as (d0 & d1 & [= <- <-] & H).
  destruct (d.(pending_confirmations) !! pid) as [r|] eqn:Hr; [|done].
  destruct (is_pending r && due now r) eqn:Hp.
  - exfalso. apply andb_true_iff in Hp as [Hp Hdue]. apply is_pending_spec in Hp as Hps.
    assert (getPendingConfirmation pid now blob d = Ok (Some rec, d')) as Hg.
    { unfold getPendingConfirmation, mthen, getdb. rewrite Hr, Hp, Hdue. exact H. }
    destruct (get_closes _ _ _ _ _ _ _ Hg Hr Hps Hdue) as (r1 & r' & _ & _ & Hr' & Hst' & _).
    apply mthen_ok in H as (b & d2 & H & H2). minv. rewrite Hr' in H0. injection H0 as <-. simpl in Hst. congruence.
  - minv. split; [done|]. simpl in Hst. rewrite (proj2 (is_pending_spec r) Hst) in Hp. simpl in Hp.
    unfold due in Hp. simpl. destruct (expires_at _) as [e|]; [|done]. exists e. zbool. done.
Qed.

(** ** Theorems *)

(** C7: a preview is used once.  A successful claim finds the preview pending and its
    operation prepared and without a result; it consumes the nonce and every executable
    payload, makes the operation executing, and leaves "outcome unknown" as the durable
    result until a settlement replaces it.  Whatever the stores do afterwards, the row is
    there with the same binding (operation, session, workspace, admin, hashes, expiry), its
    status only moves on along the edges of the machine, and the preview never is pending
    again: it cannot be claimed a second time, cancelled, expired or given a fresh nonce. *)
Theorem confirmation_used_once sha256 pid now uuid d d1 calls :
  markConfirmationExecuting pid now uuid d = Ok (true, d1) →
  (∃ r o r' o' x,
     let op := r.(preview).(preview_operation_id) in
     d.(pending_confirmations) !! pid = Some r ∧ r.(status) = PPending ∧
     d.(operation_runs) !! op = Some o ∧ o.(run_status) = RunPrepared ∧
     (∀ a y, d.(action_results) !! a = Some y → y.(result_operation_id) ≠ Some op) ∧
     d1.(pending_confirmations) !! pid = Some r' ∧ r'.(status) = PExecuting ∧
     r'.(preview) = r.(preview) ∧ scrubbed r' = true ∧ r'.(action_result_id) = Some uuid ∧
     d1.(operation_runs) !! op = Some o' ∧ o'.(run_status) = RunExecuting ∧
     o'.(run_result_id) = Some uuid ∧ o'.(operation_json) = o.(operation_json) ∧
     d1.(action_results) !! uuid = Some x ∧ x.(result_kind) = outcome_unknown ∧
     x.(result_operation_id) = Some op) ∧
  let d2 := run_events (store_step sha256) d1 calls in
  (∃ r r2, d.(pending_confirmations) !! pid = Some r ∧ d2.(pending_confirmations) !! pid = Some r2 ∧
     r2.(preview) = r.(preview) ∧ rtc pending_edge PExecuting r2.(status) ∧ r2.(status) ≠ PPending) ∧
  ∀ now2 uuid2 h,
    markConfirmationExecuting pid now2 uuid2 d2 = Ok (false, d2) ∧
    cancelConfirmation pid now2 uuid2 d2 = Ok (false, d2) ∧
    expireConfirmation pid now2 uuid2 d2 = Ok (false, d2) ∧
    updateConfirmationNonceHash pid h d2 = Ok (false, d2).
Proof.
  intros (r & o & summary & stored & Hr & Hst & Ho & Hos & Hu & Ec & Er & Ea)%claim_ok. split.
  - assert (∀ b, confirmed_operation_terminal_scrub (with_run_status RunExecuting b now o) =
      with_run_status RunExecuting b now o) as Hscrub.
    { intros b. unfold confirmed_operation_terminal_scrub. by case_match. }
    do 5 eexists. cbv zeta. split; [exact Hr|]. split; [done|]. split; [exact Ho|]. split; [done|].
    split; [done|]. rewrite Ec, Er, Ea, !lookup_insert_eq, Hscrub. split_and!; done.
  - intros d2. destruct (conf_old _ _ (runs_life sha256 d1 calls) pid _ ltac:(by rewrite Ec, lookup_insert_eq))
      as (r3 & Hr3 & Hb & Hrtc). fold d2 in Hr3. simpl in Hb, Hrtc.
    assert (r3.(status) ≠ PPending) as Hn by by eapply used_stays_used.
    split; [by exists r, r3|]. intros now2 uuid2 h. apply not_pending_stuck. intros r2 Hr2.
    assert (r3 = r2) as -> by congruence. by apply bool_decide_eq_false.
Qed.


(** *** Settlement *)

Lemma settle_claim_ok k key a s now d b d' :
  settle_claim k key a s now d = Ok (b, d') →
  (if bool_decide (k = definitive_failed) then open_claim key d' = false
   else open_claim key d = true ∧ d'.(idempotency_keys) !! key = Some (committed_claim a s now
          {| idem_result_id := None; idem_summary := None; committed_at := None; claimed_at := now |})) ∧
  d'.(operation_runs) = d.(operation_runs) ∧ d'.(action_results) = d.(action_results) ∧
  d'.(pending_confirmations) = d.(pending_confirmations) ∧
  ∀ key2, key2 ≠ key → d'.(idempotency_keys) !! key2 = d.(idempotency_keys) !! key2.
Proof.
  unfold settle_claim. intros H. minv.
  - unfold drop_claim. destruct (open_claim key d0) eqn:Ho; split_and!; try done.
    + unfold open_claim. simpl. by rewrite lookup_delete_eq.
    + intros key2 Hne. simpl. by rewrite lookup_delete_ne by congruence.
  - simpl. split_and!; try done.
    + unfold open_claim in *. destruct (_ !! key) as [r|] eqn:E; [|done].
      by rewrite lookup_alter_eq, E.
    + intros key2 Hne. by rewrite lookup_alter_ne by congruence.
Qed.

Lemma settle_rows_ok pid k name a op stored summary now d b d' :
  settle_rows pid k name a op stored summary now d = Ok (b, d') →
  ∃ r x o',
    d.(pending_confirmations) !! pid = Some r ∧ r.(status) = PExecuting ∧
    x.(result_operation_id) = Some op ∧
    d'.(pending_confirmations) = <[pid := settled_preview k a summary r]> d.(pending_confirmations) ∧
    d'.(action_results) = <[a := named_result name k stored summary now x]> d.(action_results) ∧
    d'.(operation_runs) !! op = Some o' ∧ o'.(run_status) = run_status_of k ∧
    o'.(run_result_id) = Some a ∧
    (k ≠ outcome_unknown → r.(preview).(preview_operation_id) = op → o'.(operation_json) = empty_object).
Proof.
  unfold settle_rows. intros H. minv.
  match goal with H : update_result _ _ _ _ = _ |- _ =>
    apply update_result_ok in H as [[? _]|(_ & x & Hx & Hop & _ & ->)]; [done|] end.
  match goal with H : update_confirmation _ _ _ _ _ = _ |- _ =>
    apply update_confirmation_after in H as [[? _]|(_ & r & Hr & Hex & _ & Ed)];
    [done| |intros r Hr; unfold is_executing in Hr; apply bool_decide_eq_true in Hr; congruence] end.
  apply bool_decide_eq_true in Hex, Hop. cbv zeta in Ed. simpl in Hr, Ed.
  match goal with H : update_run_status _ _ _ ?d1 = _ |- _ =>
    pose proof (keeps_update_run pending_confirmations _ _ _ _ _ _ H) as Ec;
    pose proof (keeps_update_run action_results _ _ _ _ _ _ H) as Ea;
    apply update_run_ok in H as [[? _]|(_ & o & Ho & Hst & Er)]; [done|] end.
  exists r, x, (confirmed_operation_terminal_scrub (with_run_status (run_status_of k) (Some a) now o)).
  destruct (scrub_fields (with_run_status (run_status_of k) (Some a) now o)) as (F1 & F2 & _ & _ & F5).
  rewrite Ec, Ea, Er, lookup_insert_eq, F1, F2. split_and!; try done.
  - rewrite Ed. by destruct (settlement_scrubs _ _).
  - rewrite Ed. by destruct (settlement_scrubs _ _).
  - intros Hk Hpre. assert (settlement_scrubs r (settled_preview k a summary r) = true) as Hsc.
    { unfold settlement_scrubs. rewrite Hex. simpl. by destruct k. }
    rewrite Ed, Hsc in Ho. rewrite scrub_lookup in Ho. simpl in Ho. rewrite decide_True in Ho by done.
    destruct (operation_runs _ !! op) as [o0|]; [|done]. injection Ho as <-.
    unfold confirmed_operation_terminal_scrub. simpl. by repeat case_match.
Qed.

Definition ledger_follows (k : ActionResultKind) (key : option idem_key) (a : jstr) (d' : db) : Prop :=
  match key with
  | None => True
  | Some key =>
      if bool_decide (k = definitive_failed) then open_claim key d' = false
      else idem_result_id <$> d'.(idempotency_keys) !! key = Some (Some a)
  end.

(** C29: a settlement keeps its four records together.  It needs an executing preview
    whose result belongs to its operation; then the result row, the preview, the
    operation and the idempotency claim all carry the same outcome and result, the payload of a
    settled operation is emptied, a definitive failure frees the key, and a second
    settlement is refused. *)
Theorem settlement_agrees pid k name v now d ref d' :
  settleConfirmation pid k name v now d = Ok (ref, d') →
  (∃ r x r' o',
     let op := r.(preview).(preview_operation_id) in
     d.(pending_confirmations) !! pid = Some r ∧ r.(status) = PExecuting ∧
     r.(action_result_id) = Some ref.(ref_id) ∧ ref.(ref_kind) = k ∧
     d'.(action_results) !! ref.(ref_id) = Some x ∧ x.(result_kind) = k ∧
     x.(result_operation_id) = Some op ∧ json_value (canonical_result v) = Some x.(result_json) ∧
     d'.(pending_confirmations) !! pid = Some r' ∧ r'.(status) = pending_status_of k ∧
     r'.(preview) = r.(preview) ∧ scrubbed r' = true ∧ r'.(action_result_id) = Some ref.(ref_id) ∧
     r'.(result_summary_json) = Some x.(summary_json) ∧ r'.(idempotency_key) = None ∧
     d'.(operation_runs) !! op = Some o' ∧ o'.(run_status) = run_status_of k ∧
     o'.(run_result_id) = Some ref.(ref_id) ∧
     (k ≠ outcome_unknown → o'.(operation_json) = empty_object) ∧
     ledger_follows k ((λ key, key_of key r.(preview)) <$> column r.(idempotency_key)) ref.(ref_id) d') ∧
  (∀ k2 name2 v2 now2, settleConfirmation pid k2 name2 v2 now2 d' = Throw "confirmation_not_executing").
Proof.
  unfold settleConfirmation at 1. intros H. minv.
  all: match goal with H : column (action_result_id _) = Some _ |- _ => apply column_some in H end.
  all: match goal with H : settle_rows _ _ _ _ _ _ _ _ _ = _ |- _ =>
         apply settle_rows_ok in H as (r & x & o' & Hr & Hst & Hx & Ec & Ea & Ho' & Hs' & Hres' & Hj') end.
  all: match goal with H : pending_confirmations _ !! _ = Some ?p |- _ =>
         assert (p = r) as -> by (rewrite Hr in H; by injection H) end.
  all: match goal with H : actionResultJson (canonical_result ?v) = Ok ?s |- _ =>
         assert (json_value (canonical_result v) = Some s)
           by (unfold actionResultJson, jsonClone in H; case_match; by simplify_eq) end.
  all: split; [|intros; unfold settleConfirmation, mthen, getdb].
  - match goal with H : settle_claim _ _ _ _ _ _ = _ |- _ =>
      apply settle_claim_ok in H as (Hl & E1 & E2 & E3 & _) end.
    do 4 eexists. cbv zeta. rewrite E1, E2, E3, Ec, Ea, !lookup_insert_eq. cbn [ref_id ref_kind].
    split_and!; try done; [by intros Hk; apply Hj'|].
    unfold ledger_follows. match goal with H : column (idempotency_key r) = _ |- _ => rewrite H end.
    simpl. case_bool_decide; [done|]. by destruct Hl as [_ ->].
  - match goal with H : settle_claim _ _ _ _ _ _ = _ |- _ =>
      apply settle_claim_ok in H as (_ & _ & _ & E3 & _) end.
    rewrite E3, Ec, lookup_insert_eq. unfold is_executing. simpl. by destruct k.
  - do 4 eexists. cbv zeta. rewrite Ec, Ea, !lookup_insert_eq. cbn [ref_id ref_kind].
    split_and!; try done; [by intros Hk; apply Hj'|].
    match goal with H : column (idempotency_key r) = _ |- _ => by rewrite H end.
  - rewrite Ec, lookup_insert_eq. unfold is_executing. simpl. by destruct k.
Qed.

(** A preview and its prepared operation, claimed and settled. *)
Definition after {A} (m : M A) (d : db) : db := match m d with Ok (_, d') => d' | Throw _ => d end.

Definition previewed_db : db :=
  after (savePendingConfirmation demo_hash demo_record)
    (set_runs {[ u "op1" := unsettled_run RunPrepared (VObj [(u "operation", VNull)]) (u "h") ]} empty_db).
Definition claimed_db : db := after (markConfirmationExecuting (u "p1") 2000 (u "res")) previewed_db.
Definition confirmed_db : db :=
  after (settleConfirmation (u "p1") succeeded (u "delete_tag") (VObj [(u "ok", VBool true)]) 3000) claimed_db.
Definition confirmed_ref : ActionResultRef :=
  match settleConfirmation (u "p1") succeeded (u "delete_tag") (VObj [(u "ok", VBool true)]) 3000 claimed_db with
  | Ok (r, _) => r
  | Throw _ => settled_ref
  end.

Lemma confirmation_used_once_witness :
  status <$> claimed_db.(pending_confirmations) !! u "p1" = Some PExecuting ∧
  let d2 := run_events (store_step demo_hash) claimed_db
              [(SSettle (u "p1") succeeded (u "delete_tag") VNull, 3000, [])] in
  (∃ r r2, previewed_db.(pending_confirmations) !! u "p1" = Some r ∧ d2.(pending_confirmations) !! u "p1" = Some r2 ∧
     r2.(preview) = r.(preview) ∧ rtc pending_edge PExecuting r2.(status) ∧ r2.(status) ≠ PPending) ∧
  ∀ now2 uuid2 h,
    markConfirmationExecuting (u "p1") now2 uuid2 d2 = Ok (false, d2) ∧
    cancelConfirmation (u "p1") now2 uuid2 d2 = Ok (false, d2) ∧
    expireConfirmation (u "p1") now2 uuid2 d2 = Ok (false, d2) ∧
    updateConfirmationNonceHash (u "p1") h d2 = Ok (false, d2).
Proof.
  split; [vm_compute; reflexivity|].
  apply (confirmation_used_once demo_hash (u "p1") 2000 (u "res") previewed_db claimed_db
           [(SSettle (u "p1") succeeded (u "delete_tag") VNull, 3000, [])]).
  vm_compute. reflexivity.
Defined.

Lemma settlement_agrees_witness :
  confirmed_ref.(ref_kind) = succeeded ∧
  (∀ k2 name2 v2 now2, settleConfirmation (u "p1") k2 name2 v2 now2 confirmed_db =
     Throw "confirmation_not_executing").
Proof.
  split; [vm_compute; reflexivity|].
  apply (settlement_agrees (u "p1") succeeded (u "delete_tag") (VObj [(u "ok", VBool true)]) 3000
           claimed_db confirmed_ref confirmed_db).
  vm_compute. reflexivity.
Defined.

(** A prepared preview, and its expiry. *)
Definition expiring_run : PrepareOperationRunInput :=
  {| run_in_id := Some (u "op1"); run_in_requestId := None; run_in_confirmationId := None; run_in_sessionId := u "s";
     run_in_workspaceId := u "w"; run_in_adminUserId := u "a"; run_in_actionName := u "delete_tag";
     run_in_actionFingerprint := u "f"; run_in_catalogHash := u "c"; run_in_operationHash := u "h";
     run_in_operation := VNull; run_in_mutationPlan := VUndef; run_in_capabilityId := None;
     run_in_capabilityHash := None; run_in_discriminator := None |}.
Definition expiring_calls : list (store_op * Z * jstr) :=
  [(SJournal (OpPrepareRun expiring_run), 1, []); (SSave demo_record, 2, [])].
Definition expired_db : db :=
  after (expireConfirmation (u "p1") 99999999 (u "den")) (run_events (store_step demo_hash) empty_db expiring_calls).

