(* ===== verification/Idempotency.v ===== *)
(** * The idempotency ledger

    [db/store/idempotency.ts]: a key of one administrator is claimed by one commit, which
    fills it with its result or frees it. *)
From S2P Require Import Prelude Js SafeJson ActionResults Db Plan Store ConfirmStore.
Open Scope Z_scope.
#[local] Arguments u : simpl never.

Inductive ClaimState : Set := won | in_flight | replay | stale_unknown.
#[export] Instance claim_state_dec : EqDecision ClaimState.
Proof. solve_decision. Defined.

(** ** Results as the caller gets them back *)

Definition is_true (v : jsval) : bool := match v with VBool true => true | _ => false end.
Definition has_member (k : string) (v : jsval) : bool :=
  bool_decide (is_Some (fields_get (u k) (fields_of v))).

Definition commitResultFromCanonical (value : jsval) : option jsval :=
  if negb (is_object value) then None
  else if is_text (u "partial") (prop (u "kind") value) &&
          is_true (prop (u "ok") (prop (u "receipt") value))
  then Some value
  else
    let candidate := if has_member "receipt" value then prop (u "receipt") value else value in
    if is_object candidate && is_true (prop (u "ok") candidate) then Some candidate else None.

Definition loadCommitResult (key : idem_key) (notBefore : option Z) (d : db) : option jsval :=
  row ← d.(idempotency_keys) !! key;
  a ← row.(idem_result_id);
  r ← d.(action_results) !! a;
  if match notBefore with
     | None => true
     | Some t => match row.(committed_at) with Some c => t <=? c | None => false end
     end
  then commitResultFromCanonical r.(result_json) else None.

Definition lookupIdempotency (key : idem_key) (notBefore : Z) (d : db) : option jsval :=
  result ← loadCommitResult key (Some notBefore) d;
  if negb (has_member "kind" result) && truthy_value (prop (u "ok") result) then Some result else None.

Definition claimIdempotencyReceipt (key : idem_key) (d : db) : option jsval := loadCommitResult key None d.

(** ** The ledger's statements *)

(** The row the claim's DELETE removes: completed or claimed before the window. *)
Definition outdated (notBefore : Z) (r : IdempotencyRow) : bool :=
  match r.(idem_result_id) with
  | Some _ => match r.(committed_at) with Some c => c <? notBefore | None => false end
  | None => r.(claimed_at) <? notBefore
  end.

Definition fresh_claim (now : Z) : IdempotencyRow :=
  {| idem_result_id := None; idem_summary := None; committed_at := None; claimed_at := now |}.

(** The answer for an existing row. *)
Definition claim_answer (claimNotBefore : Z) (r : IdempotencyRow) (d : db) : ClaimState :=
  match r.(idem_result_id) with
  | Some a =>
      if bool_decide (result_kind <$> d.(action_results) !! a = Some outcome_unknown)
      then stale_unknown else replay
  | None => if r.(claimed_at) <? claimNotBefore then stale_unknown else in_flight
  end.

Definition claimIdempotency (key : idem_key) (claimedAt completedNotBefore claimNotBefore : Z) (d : db)
    : ClaimState * db :=
  let kept := match d.(idempotency_keys) !! key with
              | Some r => if outdated completedNotBefore r then None else Some r
              | None => None
              end in
  match kept with
  | None => (won, set_idempotency (<[key := fresh_claim claimedAt]> d.(idempotency_keys)) d)
  | Some r => (claim_answer claimNotBefore r d, d)
  end.

Definition completed (a : jstr) (summary : jsval) (at_ claimed : Z) : IdempotencyRow :=
  {| idem_result_id := Some a; idem_summary := Some summary; committed_at := Some at_; claimed_at := claimed |}.

Definition recordIdempotency (key : idem_key) (ref : ActionResultRef) (at_ : Z) (d : db) : db :=
  set_idempotency (<[key := completed ref.(ref_id) ref.(ref_summary) at_ at_]> d.(idempotency_keys)) d.

(** An update of an unfinished claim only. *)
Definition on_open_claim (key : idem_key) (f : IdempotencyRow → IdempotencyRow) (d : db) : db :=
  if open_claim key d then set_idempotency (alter f key d.(idempotency_keys)) d else d.

Definition fillIdempotency (key : idem_key) (ref : ActionResultRef) (at_ : Z) (d : db) : db :=
  on_open_claim key (λ r, completed ref.(ref_id) ref.(ref_summary) at_ r.(claimed_at)) d.
Definition releaseIdempotency (key : idem_key) (d : db) : db := drop_claim key d.
Definition touchIdempotencyClaim (key : idem_key) (claimedAt : Z) (d : db) : db :=
  on_open_claim key (λ r, {| idem_result_id := r.(idem_result_id); idem_summary := r.(idem_summary);
                             committed_at := r.(committed_at); claimed_at := claimedAt |}) d.

(** ** Runs of the ledger *)

Inductive ledger_op : Type :=
| LClaim (key : idem_key) (claimedAt completedNotBefore claimNotBefore : Z)
| LRecord (key : idem_key) (ref : ActionResultRef) (at_ : Z)
| LFill (key : idem_key) (ref : ActionResultRef) (at_ : Z)
| LRelease (key : idem_key)
| LTouch (key : idem_key) (claimedAt : Z).

Definition ledger_step (d : db) (c : ledger_op) : db :=
  match c with
  | LClaim key now c l => (claimIdempotency key now c l d).2
  | LRecord key ref at_ => recordIdempotency key ref at_ d
  | LFill key ref at_ => fillIdempotency key ref at_ d
  | LRelease key => releaseIdempotency key d
  | LTouch key now => touchIdempotencyClaim key now d
  end.

(** A call made no earlier than [t], whose window reaches back to [t], and that does not free [key]. *)
Definition within (key : idem_key) (t : Z) (c : ledger_op) : Prop :=
  match c with
  | LClaim _ now completedNotBefore _ => t ≤ now ∧ completedNotBefore ≤ t
  | LRecord _ _ at_ | LFill _ _ at_ | LTouch _ at_ => t ≤ at_
  | LRelease key2 => key2 ≠ key
  end.

(** The key is taken since [t]. *)
Definition taken (key : idem_key) (t : Z) (d : db) : Prop :=
  ∃ r, d.(idempotency_keys) !! key = Some r ∧
    match r.(idem_result_id) with
    | Some _ => ∃ c, r.(committed_at) = Some c ∧ t ≤ c
    | None => t ≤ r.(claimed_at)
    end.

Lemma taken_current key t c r d :
  taken key t d → c ≤ t → d.(idempotency_keys) !! key = Some r → outdated c r = false.
Proof.
  intros (r' & Hr & Ht) Hc Hr2. assert (r' = r) as -> by congruence. unfold outdated.
  destruct (idem_result_id r); [destruct Ht as (x & -> & Hx)|]; apply Z.ltb_ge; lia.
Qed.

Lemma taken_not_won key t now c l d :
  taken key t d → c ≤ t → (claimIdempotency key now c l d).1 ≠ won ∧ (claimIdempotency key now c l d).2 = d.
Proof.
  intros Ht Hc. pose proof Ht as (r & Hr & _). pose proof (taken_current _ _ _ _ _ Ht Hc Hr) as Ho.
  unfold claimIdempotency. rewrite Hr, Ho. split; [|done]. simpl. unfold claim_answer.
  by repeat case_match.
Qed.

Lemma claim_other key key2 now c l d :
  key2 ≠ key → (claimIdempotency key2 now c l d).2.(idempotency_keys) !! key = d.(idempotency_keys) !! key.
Proof.
  intros Hne. unfold claimIdempotency.
  destruct (match _ !! key2 with Some r => _ | None => _ end); [done|]. simpl. by rewrite lookup_insert_ne.
Qed.

Lemma on_open_other key key2 f d :
  key2 ≠ key → (on_open_claim key2 f d).(idempotency_keys) !! key = d.(idempotency_keys) !! key.
Proof. intros Hne. unfold on_open_claim. case_match; [simpl; by rewrite lookup_alter_ne|done]. Qed.

Lemma taken_step key t d c : taken key t d → within key t c → taken key t (ledger_step d c).
Proof.
  intros Ht Hw. pose proof Ht as (r & Hr & Hrt). destruct c as [key2 now c l|key2 ref at_|key2 ref at_|key2|key2 now];
    simpl in *; destruct (decide (key2 = key)) as [->|Hne].
  - destruct Hw as [_ Hc]. by rewrite (proj2 (taken_not_won key t now c l d Ht Hc)).
  - exists r. by rewrite claim_other.
  - exists (completed (ref_id ref) (ref_summary ref) at_ at_). simpl. rewrite lookup_insert_eq.
    split; [done|]. simpl. eauto.
  - exists r. simpl. by rewrite lookup_insert_ne.
  - unfold fillIdempotency, on_open_claim, open_claim. rewrite Hr.
    case_bool_decide; [|done]. eexists. simpl. rewrite lookup_alter_eq, Hr. simpl. split; [done|]. simpl. eauto.
  - exists r. unfold fillIdempotency. by rewrite on_open_other.
  - done.
  - exists r. split; [|done]. unfold releaseIdempotency, drop_claim.
    destruct (open_claim key2 d); [simpl; by rewrite lookup_delete_ne|exact Hr].
  - unfold touchIdempotencyClaim, on_open_claim, open_claim. rewrite Hr.
    case_bool_decide as Hn; [|done]. eexists. simpl. rewrite lookup_alter_eq, Hr. simpl.
    split; [done|]. simpl. by rewrite Hn.
  - exists r. unfold touchIdempotencyClaim. by rewrite on_open_other.
Qed.

Lemma taken_run key t d calls :
  taken key t d → Forall (within key t) calls → taken key t (run_events ledger_step d calls).
Proof.
  intros Ht Hall. revert d Ht. induction Hall as [|c calls Hc _ IH]; intros d Ht; [done|].
  simpl. by apply IH, taken_step.
Qed.

(** The row is of before the window: completed, or claimed and not completed. *)
Lemma outdated_spec c r :
  outdated c r = true ↔
  (∃ a t, r.(idem_result_id) = Some a ∧ r.(committed_at) = Some t ∧ t < c) ∨
  (r.(idem_result_id) = None ∧ r.(claimed_at) < c).
Proof.
  unfold outdated. destruct r.(idem_result_id) as [a|]; [destruct r.(committed_at) as [t|]|]; rewrite ?Z.ltb_lt; naive_solver.
Qed.

(** C31: a key has one winner.  A claim wins exactly when every row of the key is of before
    the window, and then owns an unfinished claim, touching no other key.  As long as nobody
    frees the key, no claim whose window reaches back to that moment wins it again.  A claim
    that does not win changes nothing and answers by the row: a result that is unknown, and
    an unfinished claim of before its own window, as stale; any other result as a replay; any
    other unfinished claim as in flight.  Neither fill, release nor touch changes a completed
    key ([recordIdempotency], the unconditional upsert, writes its own row over it). *)
Theorem idempotency_exclusive key now c l d :
  ((claimIdempotency key now c l d).1 = won ↔
     ∀ r, d.(idempotency_keys) !! key = Some r →
       (∃ a t, r.(idem_result_id) = Some a ∧ r.(committed_at) = Some t ∧ t < c) ∨
       (r.(idem_result_id) = None ∧ r.(claimed_at) < c)) ∧
  ((claimIdempotency key now c l d).1 = won →
     let d1 := (claimIdempotency key now c l d).2 in
     d1.(idempotency_keys) !! key = Some {| idem_result_id := None; idem_summary := None; committed_at := None; claimed_at := now |} ∧
     (∀ key2, key2 ≠ key → d1.(idempotency_keys) !! key2 = d.(idempotency_keys) !! key2) ∧
     ∀ calls now2 c2 l2, Forall (within key now) calls → c2 ≤ now →
       (claimIdempotency key now2 c2 l2 (run_events ledger_step d1 calls)).1 ≠ won) ∧
  (∀ r, d.(idempotency_keys) !! key = Some r → (claimIdempotency key now c l d).1 ≠ won →
     claimIdempotency key now c l d =
       (match r.(idem_result_id) with
        | Some a => if decide (result_kind <$> d.(action_results) !! a = Some outcome_unknown) then stale_unknown else replay
        | None => if decide (r.(claimed_at) < l) then stale_unknown else in_flight
        end, d)) ∧
  (∀ a, idem_result_id <$> d.(idempotency_keys) !! key = Some (Some a) →
     (∀ ref at_, fillIdempotency key ref at_ d = d) ∧ releaseIdempotency key d = d ∧
     (∀ at_, touchIdempotencyClaim key at_ d = d)) ∧
  (∀ ref at_, recordIdempotency key ref at_ d = set_idempotency (<[key :=
     {| idem_result_id := Some ref.(ref_id); idem_summary := Some ref.(ref_summary); committed_at := Some at_;
        claimed_at := at_ |}]> d.(idempotency_keys)) d).
Proof.
  split; [|split; [|split; [|split; [|done]]]].
  - setoid_rewrite <-outdated_spec. unfold claimIdempotency. destruct (_ !! key) as [r|]; [|naive_solver].
    destruct (outdated c r) eqn:Ho; simpl; [naive_solver|]. unfold claim_answer. split.
    + intros H. exfalso. by repeat case_match.
    + intros H. specialize (H r eq_refl). congruence.
  - intros Hw d1. assert (d1 = set_idempotency (<[key := fresh_claim now]> d.(idempotency_keys)) d) as E.
    { unfold d1. revert Hw. unfold claimIdempotency, claim_answer. by repeat case_match. }
    split_and!.
    + rewrite E. simpl. by rewrite lookup_insert_eq.
    + intros key2 Hne. rewrite E. simpl. by rewrite lookup_insert_ne.
    + intros calls now2 c2 l2 Hall Hc2. apply (taken_not_won _ now); [|done]. apply taken_run; [|done].
      exists (fresh_claim now). rewrite E. simpl. rewrite lookup_insert_eq. split; [done|]. simpl. lia.
  - intros r Hr Hw. revert Hw. unfold claimIdempotency. rewrite Hr. destruct (outdated c r); [done|]. intros _. f_equal.
    unfold claim_answer. destruct r.(idem_result_id); [by case_bool_decide; case_decide|].
    case_decide; destruct (Z.ltb_spec r.(claimed_at) l); done || lia.
  - intros a Ha. destruct (_ !! key) as [r|] eqn:Hr; [|done]. injection Ha as Ha.
    assert (open_claim key d = false) as Ho by (unfold open_claim; by rewrite Hr, Ha).
    unfold fillIdempotency, on_open_claim, releaseIdempotency, drop_claim, touchIdempotencyClaim, on_open_claim.
    by rewrite Ho.
Qed.

(** Two requests with one key: the second is told to wait, and no third one wins. *)
Definition demo_key : idem_key := (u "k", u "w", u "a").
Definition held_db : db := (claimIdempotency demo_key 100 0 0 empty_db).2.
Lemma idempotency_exclusive_witness :
  (claimIdempotency demo_key 100 0 0 empty_db).1 = won ∧
  claimIdempotency demo_key 150 50 60 held_db = (in_flight, held_db) ∧
  (claimIdempotency demo_key 300 90 0 (run_events ledger_step held_db [LTouch demo_key 200])).1 ≠ won.
Proof.
  assert ((claimIdempotency demo_key 100 0 0 empty_db).1 = won) as Hw by (vm_compute; reflexivity).
  split; [exact Hw|]. split; [vm_compute; reflexivity|].
  refine (proj2 (proj2 (proj1 (proj2 (idempotency_exclusive demo_key 100 0 0 empty_db)) Hw)) [LTouch demo_key 200] 300 90 0 _ _);
    [by repeat constructor|done].
Defined.
