(* ===== verification/UndoStore.v ===== *)
(** * The undo ledger

    [db/store/undo.ts] and [startUndoOperation] of [db/store.ts]: a reversible action is
    recorded for thirty minutes, claimed by one undo together with its durable operation,
    and settled with that operation and one canonical result. *)
From S2P Require Import Prelude Js SafeJson ActionResults Confirmations Db Discriminators Plan Journal Store JournalResults JournalMachine ConfirmStore ConfirmLife.
Open Scope Z_scope.
#[local] Arguments u : simpl never.

Definition UNDO_TTL_MS : Z := 30 * 60 * 1000.

(** ** Statements *)

(** The triggers [undo_records_expired_scrub] and [undo_records_expired_insert_scrub], and
    the cap on [result_summary_json]. *)
Definition undo_row_ok (r : UndoRow) : bool :=
  (negb (bool_decide (r.(undo_status) = UExpired)) ||
   (is_empty_array r.(reversal_json) && is_empty_array r.(remaining_json))) &&
  match r.(undo_summary_json) with Some s => jsonByteLength s <=? 65536 | None => true end.

Definition insert_undo (id : jstr) (r : UndoRow) : M unit := λ d,
  match d.(undo_records) !! id with
  | Some _ => Throw constraint_failed
  | None =>
      if undo_row_ok r && match r.(undo_binding).(undo_generation) with Some g => 1 <=? g | None => true end
      then Ok (tt, set_undos (<[id := r]> d.(undo_records)) d)
      else Throw constraint_failed
  end.

(** [UPDATE undo_records SET ... WHERE id = ? AND p] *)
Definition update_undo (id : jstr) (p : UndoRow → bool) (f : UndoRow → UndoRow) : M bool := λ d,
  match d.(undo_records) !! id with
  | Some r =>
      if p r then
        if undo_row_ok (f r) then Ok (true, set_undos (<[id := f r]> d.(undo_records)) d)
        else Throw constraint_failed
      else Ok (false, d)
  | None => Ok (false, d)
  end.

Definition undo_is (s : UndoStatus) (r : UndoRow) : bool := bool_decide (r.(undo_status) = s).

Definition with_undo_status (s : UndoStatus) (r : UndoRow) : UndoRow :=
  {| undo_binding := r.(undo_binding); undo_status := s; reversal_json := r.(reversal_json);
     remaining_json := r.(remaining_json); undone_at := r.(undone_at);
     undo_result_id := r.(undo_result_id); undo_summary_json := r.(undo_summary_json) |}.
Definition expired_undo (r : UndoRow) : UndoRow :=
  {| undo_binding := r.(undo_binding); undo_status := UExpired; reversal_json := VArr [];
     remaining_json := VArr []; undone_at := r.(undone_at);
     undo_result_id := r.(undo_result_id); undo_summary_json := r.(undo_summary_json) |}.
Definition settled_undo (s : UndoStatus) (remaining : jsval) (a : jstr) (summary : jsval) (now : Z)
    (r : UndoRow) : UndoRow :=
  {| undo_binding := r.(undo_binding); undo_status := s; reversal_json := r.(reversal_json);
     remaining_json := remaining; undone_at := Some now; undo_result_id := Some a;
     undo_summary_json := Some summary |}.

(** ** Operations *)

Record UndoRecordInput := {
  undo_in_sessionId : jstr;
  undo_in_workspaceId : jstr;
  undo_in_adminUserId : jstr;
  undo_in_actionName : jstr;
  undo_in_installationGeneration : option Z;
  undo_in_reversal : jsval;
}.

Definition recordUndoable (i : UndoRecordInput) (now : Z) (uuid : jstr) : M jstr :=
  do! reversal := lift (json_column i.(undo_in_reversal)) in
  do! _ := insert_undo uuid
    {| undo_binding :=
         {| undo_session_id := i.(undo_in_sessionId); undo_workspace_id := i.(undo_in_workspaceId);
            undo_admin_user_id := i.(undo_in_adminUserId); undo_action_name := i.(undo_in_actionName);
            undo_generation := i.(undo_in_installationGeneration); undo_created_at := now;
            undo_expires_at := now + UNDO_TTL_MS |};
       undo_status := UAvailable; reversal_json := reversal; remaining_json := reversal; undone_at := None; undo_result_id := None;
       undo_summary_json := None |} in
  mreturn uuid.

Definition getUndoRecord (id : jstr) (now : Z) : M (option UndoRow) :=
  do! d := getdb in
  match d.(undo_records) !! id with
  | None => mreturn None
  | Some r =>
      if undo_is UAvailable r && (r.(undo_binding).(undo_expires_at) <=? now) then
        do! _ := update_undo id (undo_is UAvailable) expired_undo in mreturn (Some (expired_undo r))
      else mreturn (Some r)
  end.

Definition markUndoExecuting (id : jstr) (now : Z) : M bool :=
  update_undo id (λ r, undo_is UAvailable r && (now <? r.(undo_binding).(undo_expires_at)))
    (with_undo_status UExecuting).

(** The statuses an undo is settled with, and their result kinds. *)
Inductive UndoOutcome : Set := partially_undone | undone | failed | undo_unknown.
Definition undo_status_of (o : UndoOutcome) : UndoStatus :=
  match o with
  | partially_undone => UPartiallyUndone | undone => UUndone | failed => UFailed | undo_unknown => UOutcomeUnknown
  end.
Definition undo_kind (o : UndoOutcome) : ActionResultKind :=
  match o with
  | partially_undone => partial | undone => succeeded | undo_unknown => outcome_unknown | failed => definitive_failed
  end.

Definition undo_result (receipt : jsval) : jsval :=
  VObj [(u "kind", VStr (u "receipt")); (u "receipt", receipt)].

Definition settleUndo (id : jstr) (o : UndoOutcome) (remaining receipt : jsval) (now : Z) (uuid : jstr)
    : M ActionResultRef :=
  do! d := getdb in
  match d.(undo_records) !! id with
  | Some r =>
      require! undo_is UExecuting r else "undo_not_executing" in
      let b := r.(undo_binding) in
      do! summary := lift (buildActionResultSummary uuid (undo_result receipt)) in
      do! stored := lift (actionResultJson (undo_result receipt)) in
      do! stored_summary := lift (actionResultJson summary) in
      do! _ := insert_result uuid (result_row None b.(undo_workspace_id) b.(undo_admin_user_id)
                 (Some b.(undo_session_id)) (u "undo") (undo_kind o) stored stored_summary now) in
      do! rest := lift (json_column remaining) in
      do! changed := update_undo id (undo_is UExecuting)
                       (settled_undo (undo_status_of o) rest uuid stored_summary now) in
      require! changed else "undo_not_executing" in
      mreturn {| ref_id := uuid; ref_kind := undo_kind o; ref_summary := summary |}
  | None => mthrow "undo_not_executing"
  end.

(** The join of [settleUndoOperation]: the executing operation of the same admin. *)
Definition undo_owner (d : db) (id operationId : jstr) : option (UndoRow * OperationRunRow) :=
  match d.(undo_records) !! id, d.(operation_runs) !! operationId with
  | Some r, Some o =>
      let b := r.(undo_binding) in
      let c := o.(binding) in
      if bool_decide (c.(session_id) = b.(undo_session_id)) &&
         bool_decide (c.(workspace_id) = b.(undo_workspace_id)) &&
         bool_decide (c.(admin_user_id) = b.(undo_admin_user_id)) &&
         undo_is UExecuting r && bool_decide (c.(action_name) = u "undo") &&
         has_run_status RunExecuting o && bool_decide (o.(run_result_id) = None)
      then Some (r, o) else None
  | _, _ => None
  end.

Definition settleUndoOperation (id operationId : jstr) (o : UndoOutcome) (remaining receipt : jsval)
    (now : Z) (uuid : jstr) : M ActionResultRef :=
  do! d := getdb in
  match undo_owner d id operationId with
  | None => mthrow "undo_operation_not_executing"
  | Some (r, run) =>
      let b := r.(undo_binding) in
      do! summary := lift (buildActionResultSummary uuid (undo_result receipt)) in
      do! stored := lift (actionResultJson (undo_result receipt)) in
      do! stored_summary := lift (actionResultJson summary) in
      do! _ := insert_result uuid (result_row (Some operationId) b.(undo_workspace_id)
                 b.(undo_admin_user_id) (Some b.(undo_session_id)) run.(binding).(action_name)
                 (undo_kind o) stored stored_summary now) in
      do! rest := lift (json_column remaining) in
      do! changed := update_undo id (undo_is UExecuting)
                       (settled_undo (undo_status_of o) rest uuid stored_summary now) in
      require! changed else "undo_not_executing" in
      do! settled := update_run_status operationId
                       (λ x, has_run_status RunExecuting x && bool_decide (x.(run_result_id) = None))
                       (with_run_status (run_status_of (undo_kind o)) (Some uuid) now) in
      require! settled else "operation_not_executing" in
      mreturn {| ref_id := uuid; ref_kind := undo_kind o; ref_summary := summary |}
  end.

(** [startUndoOperation]: the claim and its executing operation, or nothing. *)
Definition startUndoOperation (id : jstr) (i : PrepareOperationRunInput) (now : Z) (uuid : jstr)
    : M (option jstr) :=
  do! claimed := markUndoExecuting id now in
  if (claimed : bool) then
    do! operationId := prepareOperationRun i now uuid in
    do! executing := markOperationExecuting operationId now in
    require! executing else "operation_not_prepared" in mreturn (Some operationId)
  else mreturn None.

(** ** The life of an undo record *)

Inductive undo_edge : UndoStatus → UndoStatus → Prop :=
| undo_claim : undo_edge UAvailable UExecuting
| undo_expire : undo_edge UAvailable UExpired
| undo_settle o : undo_edge UExecuting (undo_status_of o).

Definition undo_final (s : UndoStatus) : bool :=
  match s with UAvailable | UExecuting => false | _ => true end.

Record undo_moves (r r' : UndoRow) : Prop := {
  undo_same : r'.(undo_binding) = r.(undo_binding);
  undo_path : rtc undo_edge r.(undo_status) r'.(undo_status);
  undo_fixed : undo_final r.(undo_status) = true → r' = r;
  undo_source : r'.(undo_status) ≠ UExpired → r'.(reversal_json) = r.(reversal_json);
}.

Lemma undo_stuck s s' : rtc undo_edge s s' → undo_final s = true → s' = s.
Proof. destruct 1 as [|s1 s2 s3 H]; [done|]. by destruct H. Qed.
Lemma not_expired s s' : rtc undo_edge s s' → s' ≠ UExpired → s ≠ UExpired.
Proof. intros H Hs ->. by apply undo_stuck in H. Qed.

#[export] Instance undo_moves_preorder : PreOrder undo_moves.
Proof.
  split; [done|]. intros r1 r2 r3 [S1 P1 F1 C1] [S2 P2 F2 C2]. constructor; [congruence|by etrans| |].
  - intros Hf. pose proof (F1 Hf) as ->. by apply F2.
  - intros Hne. rewrite C2 by done. apply C1. by eapply not_expired.
Qed.

Definition undo_life (d d' : db) : Prop :=
  ∀ id r, d.(undo_records) !! id = Some r → ∃ r', d'.(undo_records) !! id = Some r' ∧ undo_moves r r'.

#[export] Instance undo_life_preorder : PreOrder undo_life.
Proof.
  split; [intros d id r Hr; by exists r|]. intros d1 d2 d3 H1 H2 id r Hr.
  destruct (H1 _ _ Hr) as (r2 & Hr2 & M1). destruct (H2 _ _ Hr2) as (r3 & Hr3 & M2).
  exists r3. split; [done|by etrans].
Qed.

Lemma update_undo_ok id p f d b d' :
  update_undo id p f d = Ok (b, d') →
  (b = false ∧ d' = d) ∨
  (b = true ∧ ∃ r, d.(undo_records) !! id = Some r ∧ p r = true ∧
     d' = set_undos (<[id := f r]> d.(undo_records)) d).
Proof.
  unfold update_undo. intros H. destruct (_ !! id) as [r|]; [|by left; simplify_eq].
  destruct (p r) eqn:Hp; [|by left; simplify_eq]. destruct (undo_row_ok (f r)); [|done].
  right. injection H as <- <-. eauto.
Qed.

Lemma life_set id r r' d : d.(undo_records) !! id = Some r → undo_moves r r' →
  undo_life d (set_undos (<[id := r']> d.(undo_records)) d).
Proof.
  intros Hr Hm id2 r2 H2. simpl. destruct (decide (id2 = id)) as [->|Hne].
  - exists r'. rewrite lookup_insert_eq. split; [done|]. by assert (r2 = r) as -> by congruence.
  - exists r2. by rewrite lookup_insert_ne.
Qed.

(** A statement under which the undo rows only move. *)
Class UndoMoves {A} (m : M A) : Prop := undo_moved : ∀ d a d', m d = Ok (a, d') → undo_life d d'.

#[export] Instance undo_keeps {A} (m : M A) : Keeps undo_records m → UndoMoves m | 10.
Proof. intros Hk d a d' H id r Hr. exists r. by rewrite (Hk _ _ _ H). Qed.
#[export] Instance undo_then {A B} (m : M A) (k : A → M B) :
  UndoMoves m → (∀ a, UndoMoves (k a)) → UndoMoves (mthen m k).
Proof. intros Hm Hk d b d' (a & d1 & H1 & H2)%mthen_ok. etrans; [by eapply Hm|by eapply Hk]. Qed.

Lemma undo_moves_update id p f :
  (∀ r, p r = true → undo_moves r (f r)) → UndoMoves (update_undo id p f).
Proof.
  intros Hf d b d' [[_ ->]|(_ & r & Hr & Hp & ->)]%update_undo_ok; [done|]. apply (life_set _ r); auto.
Qed.

(** ** The other stores leave the ledger alone *)

Lemma undos_putdb g : (∀ d, (g d).(undo_records) = d.(undo_records)) →
  ∀ {B} (k : M B), Keeps undo_records k → Keeps undo_records (do! d := getdb in do! _ := putdb (g d) in k).
Proof. intros Hg B k Hk d b d' H. minv. apply Hk in H. by rewrite H, Hg. Qed.

#[export] Instance undos_startup sha256 id sid v now uuid :
  Keeps undo_records (settleStartupReconciliation sha256 id sid v now uuid).
Proof.
  unfold settleStartupReconciliation. apply keeps_then; [apply _|]. intros d.
  destruct (_ !! id) as [o|]; [|apply _]. apply keeps_then; [solve_keeps|]. intros valid.
  destruct valid; [|apply _]. destruct (unknown_step _ _ _) as [step|]; [|apply _].
  destruct (plan_binds _ _ _); [|apply _]. destruct (evidence_binds _ _ _ _ _); [|apply _].
  do 2 (apply keeps_then; [apply _|]; intros ?). apply keeps_if; [|apply _].
  do 5 (apply keeps_then; [apply _|]; intros ?). apply (undos_putdb (λ d, refresh_summaries _ _ _ _ d)); [done|].
  solve_keeps.
Qed.

#[export] Instance undos_record id sid v au now : Keeps undo_records (recordOperationReconciliation id sid v au now).
Proof.
  intros d b d' H. unfold recordOperationReconciliation in H. minv.
  destruct (update_row _ _ _ _) as [t c]. by minv.
Qed.

#[export] Instance undos_journal sha256 c now uuid : Keeps undo_records (journal_run sha256 c now uuid).
Proof.
  destruct c; cbn [journal_run];
    unfold prepareOperationRun, markOperationExecuting, settleOperationRun, settleOperationResult,
      recordActionResult, prepareOperationStep, markOperationStepExecuting, markOperationStepDispatched,
      cancelOperationStepBeforeDispatch, settleOperationStep, settleOperationStepDegraded,
      settleReconciledStep, prepareCompensationStep, markOperationStepCompensating,
      settleCompensationStep, settleCompensationStepDegraded, settle_compensation_rows;
    solve_keeps.
Qed.

#[export] Instance undos_claim k key a x now : Keeps undo_records (settle_claim k key a x now).
Proof.
  intros d y d' H. unfold settle_claim in H. minv; [|done]. unfold drop_claim. by destruct (open_claim _ _).
Qed.
#[export] Instance undos_release pid key : Keeps undo_records (releaseConfirmationIdempotencyKey pid key).
Proof.
  intros d a d' H. unfold releaseConfirmationIdempotencyKey in H. minv; try done.
  match goal with H : update_confirmation _ _ _ _ ?d0 = _ |- _ = _ => transitivity (undo_records d0);
    [by kept|unfold drop_claim; by destruct (open_claim _ _)] end.
Qed.
#[export] Instance undos_for_each {A} (l : list A) f :
  (∀ x, Keeps undo_records (f x)) → Keeps undo_records (for_each l f).
Proof. intros Hf. induction l; simpl; apply _. Qed.
#[export] Instance undos_insert pid r : Keeps undo_records (insert_confirmation pid r).
Proof. intros d a d' H. unfold insert_confirmation in H. repeat case_match; by simplify_eq/=. Qed.
#[export] Instance undos_save sha256 r : Keeps undo_records (savePendingConfirmation sha256 r).
Proof. unfold savePendingConfirmation. solve_keeps. Qed.
#[export] Instance undos_settle pid k name v now : Keeps undo_records (settleConfirmation pid k name v now).
Proof. unfold settleConfirmation, settle_rows. solve_keeps. Qed.

#[export] Instance undos_store sha256 c now uuid : Keeps undo_records (store_run sha256 c now uuid).
Proof.
  destruct c; cbn [store_run]; try apply _;
    unfold getPendingConfirmation, listPendingConfirmations, countPendingConfirmations, expire_due,
      updateConfirmationNonceHash, cancelConfirmation, expireConfirmation, markConfirmationExecuting,
      bindConfirmationIdempotencyKey; solve_keeps.
Qed.

(** ** Runs of the ledger beside the other stores *)

Inductive undo_op : Type :=
| UStore (c : store_op)
| URecord (i : UndoRecordInput)
| UGet (id : jstr)
| UMark (id : jstr)
| UStart (id : jstr) (i : PrepareOperationRunInput)
| USettle (id : jstr) (o : UndoOutcome) (remaining receipt : jsval)
| USettleOperation (id operationId : jstr) (o : UndoOutcome) (remaining receipt : jsval).

#[export] Instance moves_expired id : UndoMoves (update_undo id (undo_is UAvailable) expired_undo).
Proof.
  apply undo_moves_update. intros r Hr%bool_decide_eq_true. constructor; simpl; rewrite ?Hr; try done.
  apply rtc_once. constructor.
Qed.
#[export] Instance moves_mark id now : UndoMoves (markUndoExecuting id now).
Proof.
  apply undo_moves_update. intros r [Hr%bool_decide_eq_true _]%andb_true_iff. constructor; simpl; rewrite ?Hr; try done.
  apply rtc_once. constructor.
Qed.
#[export] Instance moves_settled_undo id o rest a x now :
  UndoMoves (update_undo id (undo_is UExecuting) (settled_undo (undo_status_of o) rest a x now)).
Proof.
  apply undo_moves_update. intros r Hr%bool_decide_eq_true. constructor; simpl; rewrite ?Hr; try done.
  apply rtc_once. constructor.
Qed.
#[export] Instance moves_insert_undo id r : UndoMoves (insert_undo id r).
Proof.
  intros d a d' H id2 r2 Hr2. unfold insert_undo in H. destruct (_ !! id) eqn:Hn; [done|].
  destruct (_ && _); [|done]. injection H as _ <-. exists r2. simpl. by rewrite lookup_insert_ne by congruence.
Qed.
#[export] Instance moves_if {A} (b : bool) (m1 m2 : M A) : UndoMoves m1 → UndoMoves m2 → UndoMoves (if b then m1 else m2).
Proof. by destruct b. Qed.

Ltac solve_undo_moves := repeat first [ apply _ | apply undo_then; [|intros ?] | apply moves_if | case_match ].

Section UndoRuns.
Context (sha256 : jstr → jstr).

Definition undo_run (c : undo_op) (now : Z) (uuid : jstr) : M unit :=
  match c with
  | UStore c => store_run sha256 c now uuid
  | URecord i => do! _ := recordUndoable i now uuid in mreturn tt
  | UGet id => do! _ := getUndoRecord id now in mreturn tt
  | UMark id => do! _ := markUndoExecuting id now in mreturn tt
  | UStart id i => do! _ := startUndoOperation id i now uuid in mreturn tt
  | USettle id o rest v => do! _ := settleUndo id o rest v now uuid in mreturn tt
  | USettleOperation id op o rest v => do! _ := settleUndoOperation id op o rest v now uuid in mreturn tt
  end.

Definition undo_step (d : db) (call : undo_op * Z * jstr) : db :=
  match undo_run call.1.1 call.1.2 call.2 d with Ok (_, d') => d' | Throw _ => d end.

#[export] Instance moves_undo_run c now uuid : UndoMoves (undo_run c now uuid).
Proof.
  destruct c; cbn [undo_run]; try (apply undo_then; [|apply _]);
    unfold recordUndoable, getUndoRecord, startUndoOperation, prepareOperationRun, markOperationExecuting,
      settleUndo, settleUndoOperation; solve_undo_moves.
Qed.

Lemma undo_runs_life d calls : undo_life d (run_events undo_step d calls).
Proof.
  apply (run_preorder undo_step undo_life); [apply _|]. intros d1 c. unfold undo_step.
  destruct (undo_run _ _ _ d1) as [[[] d2]|] eqn:H; [|done]. by eapply moves_undo_run.
Qed.
End UndoRuns.

(** ** What a claim and a settlement did *)

Lemma insert_run_ok id r d a d' :
  insert_run id r d = Ok (a, d') →
  d.(operation_runs) !! id = None ∧ d'.(operation_runs) = <[id := r]> d.(operation_runs) ∧
  d'.(undo_records) = d.(undo_records).
Proof. unfold insert_run. intros H. repeat case_match; by simplify_eq/=. Qed.

Lemma prepared_run i now uuid d id d' :
  prepareOperationRun i now uuid d = Ok (id, d') →
  d.(operation_runs) !! id = None ∧
  (∃ o, d'.(operation_runs) !! id = Some o ∧ o.(run_status) = RunPrepared ∧ o.(run_result_id) = None ∧
     o.(binding).(action_name) = i.(run_in_actionName) ∧ o.(binding).(session_id) = i.(run_in_sessionId)) ∧
  d'.(undo_records) = d.(undo_records).
Proof.
  unfold prepareOperationRun. intros H. minv.
  match goal with H : insert_run _ _ _ = _ |- _ => apply insert_run_ok in H as (Hn & -> & ->) end.
  split_and!; [done| |done]. eexists. by rewrite lookup_insert_eq.
Qed.

Lemma start_ok id i now uuid d op d1 :
  startUndoOperation id i now uuid d = Ok (Some op, d1) →
  ∃ r o, d.(undo_records) !! id = Some r ∧ r.(undo_status) = UAvailable ∧
    now < r.(undo_binding).(undo_expires_at) ∧
    d1.(undo_records) = <[id := with_undo_status UExecuting r]> d.(undo_records) ∧
    d.(operation_runs) !! op = None ∧ d1.(operation_runs) !! op = Some o ∧
    o.(run_status) = RunExecuting ∧ o.(run_result_id) = None ∧
    o.(binding).(action_name) = i.(run_in_actionName) ∧ o.(binding).(session_id) = i.(run_in_sessionId).
Proof.
  unfold startUndoOperation, markUndoExecuting. intros H. minv; [|done].
  match goal with H : update_undo _ _ _ _ = _ |- _ =>
    apply update_undo_ok in H as [[? _]|(_ & r & Hr & Hp & ->)]; [done|] end.
  apply andb_true_iff in Hp as [Hp Ht]. apply bool_decide_eq_true in Hp. zbool.
  match goal with H : prepareOperationRun _ _ _ _ = _ |- _ =>
    apply prepared_run in H as (Hn & (o & Ho & Hs & Hres & Hname & Hses) & Hu) end. simpl in *.
  unfold markOperationExecuting in *.
  match goal with H : update_run_status _ _ _ _ = Ok (true, _) |- _ =>
    pose proof (keeps_update_run undo_records _ _ _ _ _ _ H) as Hk;
    apply update_run_ok in H as [[? _]|(_ & o' & Ho' & _ & E)]; [done|] end.
  assert (o' = o) as -> by congruence. unfold mreturn in *. simplify_eq.
  match goal with E : operation_runs _ = <[op := ?x]> _ |- _ => exists r, x end.
  rewrite E, lookup_insert_eq. unfold confirmed_operation_terminal_scrub. rewrite Hk, Hu.
  split_and!; try done; by repeat case_match.
Qed.

Lemma undo_owner_ok d id op r run :
  undo_owner d id op = Some (r, run) →
  d.(undo_records) !! id = Some r ∧ d.(operation_runs) !! op = Some run ∧
  r.(undo_status) = UExecuting ∧ run.(run_status) = RunExecuting ∧ run.(run_result_id) = None ∧
  run.(binding).(action_name) = u "undo" ∧
  run.(binding).(session_id) = r.(undo_binding).(undo_session_id) ∧
  run.(binding).(workspace_id) = r.(undo_binding).(undo_workspace_id) ∧
  run.(binding).(admin_user_id) = r.(undo_binding).(undo_admin_user_id).
Proof.
  unfold undo_owner, undo_is, has_run_status. destruct (_ !! id) as [r'|]; [|done]. destruct (_ !! op) as [o|]; [|done].
  destruct (_ && _) eqn:E; [|done]. intros [= -> ->]. rewrite !andb_true_iff, !bool_decide_eq_true in E. naive_solver.
Qed.

Lemma settled_ok id op o rest v now uuid d ref d1 :
  settleUndoOperation id op o rest v now uuid d = Ok (ref, d1) →
  ∃ r run left x, undo_owner d id op = Some (r, run) ∧
    (∀ a y, d.(action_results) !! a = Some y → y.(result_operation_id) ≠ Some op) ∧
    json_column rest = Ok left ∧ ref.(ref_id) = uuid ∧ ref.(ref_kind) = undo_kind o ∧
    d1.(undo_records) = <[id := settled_undo (undo_status_of o) left uuid x.(summary_json) now r]> d.(undo_records) ∧
    d1.(operation_runs) = <[op := confirmed_operation_terminal_scrub
      (with_run_status (run_status_of (undo_kind o)) (Some uuid) now run)]> d.(operation_runs) ∧
    d1.(action_results) = <[uuid := x]> d.(action_results) ∧ x.(result_kind) = undo_kind o ∧
    x.(result_operation_id) = Some op.
Proof.
  unfold settleUndoOperation. intros H. minv.
  match goal with H : insert_result _ _ _ = _ |- _ => apply insert_result_ok in H as (_ & Hu & _ & ->) end.
  match goal with H : update_undo _ _ _ _ = _ |- _ =>
    apply update_undo_ok in H as [[? _]|(_ & r & Hr & Hp & ->)]; [done|] end.
  match goal with H : update_run_status _ _ _ _ = _ |- _ =>
    pose proof (keeps_update_run undo_records _ _ _ _ _ _ H) as Eu;
    pose proof (keeps_update_run action_results _ _ _ _ _ _ H) as Ea;
    apply update_run_ok in H as [[? _]|(_ & o2 & Ho2 & Hg & Er)]; [done|] end.
  simpl in *. match goal with H : undo_owner _ _ _ = Some _ |- _ =>
    destruct (undo_owner_ok _ _ _ _ _ H) as (Hr' & Hrun & _); rename H into Hown end.
  simplify_eq. match goal with E : action_results d1 = <[uuid := ?x]> _ |- _ => exists r, o2, a4, x end.
  rewrite Eu, Ea, Er. split_and!; try done. by apply Hu.
Qed.

Lemma used_path s s' : rtc undo_edge s s' → s ≠ UAvailable → s ≠ UExpired → s' ≠ UAvailable ∧ s' ≠ UExpired.
Proof. induction 1 as [|s1 s2 s3 H]; [done|]. intros Ha He. apply IHrtc; by destruct H as [| |[]]. Qed.

(** ** Theorems *)

(** An undo is used once.  A start succeeds only on an available record inside its
    thirty minutes, and in one transaction moves it to executing and creates its one
    executing operation.  Whatever the stores do afterwards, the record is never available
    again nor expired, what it reverses is what was recorded, and no other start succeeds. *)
Theorem undo_used_once sha256 id i now uuid d op d1 calls :
  startUndoOperation id i now uuid d = Ok (Some op, d1) →
  (∃ r o, d.(undo_records) !! id = Some r ∧ r.(undo_status) = UAvailable ∧
     now < r.(undo_binding).(undo_expires_at) ∧
     undo_status <$> d1.(undo_records) !! id = Some UExecuting ∧
     d.(operation_runs) !! op = None ∧ d1.(operation_runs) !! op = Some o ∧
     o.(run_status) = RunExecuting ∧ o.(run_result_id) = None ∧
     let d2 := run_events (undo_step sha256) d1 calls in
     (∃ r2, d2.(undo_records) !! id = Some r2 ∧ r2.(undo_binding) = r.(undo_binding) ∧
        r2.(reversal_json) = r.(reversal_json) ∧
        r2.(undo_status) ≠ UAvailable ∧ r2.(undo_status) ≠ UExpired) ∧
     ∀ i2 now2 uuid2, startUndoOperation id i2 now2 uuid2 d2 = Ok (None, d2)).
Proof.
  intros (r & o & Hr & Hst & Ht & Eu & Hn & Ho & Hs & Hres & _)%start_ok. exists r, o. rewrite Eu, lookup_insert_eq.
  split_and!; try done. cbv zeta.
  destruct (undo_runs_life sha256 d1 calls id (with_undo_status UExecuting r)) as (r2 & Hr2 & [Hb Hp _ Hc]);
    [by rewrite Eu, lookup_insert_eq|].
  destruct (used_path _ _ Hp) as [Ha He]; [done..|]. split; [exists r2; split_and!; try done; by apply Hc|].
  intros i2 now2 uuid2. unfold startUndoOperation, markUndoExecuting, mthen, update_undo. rewrite Hr2.
  unfold undo_is. by rewrite bool_decide_eq_false_2.
Qed.

(** The settlement of an undo agrees with its operation.  A successful settlement found
    the undo and its operation executing for the same session, workspace and admin, and no
    result of that operation; it leaves one result, and the undo, the operation and the
    result tell the same outcome.  Afterwards the undo row never changes again, and no
    second settlement of it succeeds. *)
Theorem undo_settlement_agrees sha256 id op o rest v now uuid d ref d1 calls :
  settleUndoOperation id op o rest v now uuid d = Ok (ref, d1) →
  (∃ r run r1 run1 x,
     d.(undo_records) !! id = Some r ∧ r.(undo_status) = UExecuting ∧
     d.(operation_runs) !! op = Some run ∧ run.(run_status) = RunExecuting ∧
     run.(binding).(action_name) = u "undo" ∧
     run.(binding).(session_id) = r.(undo_binding).(undo_session_id) ∧
     run.(binding).(workspace_id) = r.(undo_binding).(undo_workspace_id) ∧
     run.(binding).(admin_user_id) = r.(undo_binding).(undo_admin_user_id) ∧
     (∀ a y, d.(action_results) !! a = Some y → y.(result_operation_id) ≠ Some op) ∧
     d1.(undo_records) !! id = Some r1 ∧ r1.(undo_status) = undo_status_of o ∧
     json_column rest = Ok r1.(remaining_json) ∧ r1.(undo_result_id) = Some ref.(ref_id) ∧
     d1.(operation_runs) !! op = Some run1 ∧ run1.(run_status) = run_status_of ref.(ref_kind) ∧
     run1.(run_result_id) = Some ref.(ref_id) ∧
     d1.(action_results) !! ref.(ref_id) = Some x ∧ x.(result_kind) = ref.(ref_kind) ∧
     ref.(ref_kind) = undo_kind o ∧ x.(result_operation_id) = Some op) ∧
  let d2 := run_events (undo_step sha256) d1 calls in
  d2.(undo_records) !! id = d1.(undo_records) !! id ∧
  (∀ op2 o2 rest2 v2 now2 uuid2,
     settleUndoOperation id op2 o2 rest2 v2 now2 uuid2 d2 = Throw "undo_operation_not_executing") ∧
  (∀ o2 rest2 v2 now2 uuid2, settleUndo id o2 rest2 v2 now2 uuid2 d2 = Throw "undo_not_executing").
Proof.
  intros (r & run & left & x & Hown & Hu & Hj & Hid & Hk & Eu & Er & Ea & Hxk & Hxo)%settled_ok.
  apply undo_owner_ok in Hown as (Hr & Hrun & Hst & Hrs & _ & Hname & Hs & Hw & Had).
  set (r1 := settled_undo _ _ _ _ _ _) in Eu.
  assert (d1.(undo_records) !! id = Some r1) as H1 by (by rewrite Eu, lookup_insert_eq).
  destruct (undo_runs_life sha256 d1 calls id r1 H1) as (r2 & Hr2 & [_ _ Hfix _]).
  assert (r2 = r1) as -> by (apply Hfix; by destruct o).
  split.
  - do 5 eexists. split; [exact Hr|]. split; [done|]. split; [exact Hrun|]. rewrite Er, Ea, Hk, Hid, !lookup_insert_eq.
    do 6 (split; [done|]). split; [exact H1|]. split_and!; try done; [|];
      unfold confirmed_operation_terminal_scrub; by repeat case_match.
  - cbv zeta. rewrite Hr2, H1. split_and!; [done| |].
    + intros. unfold settleUndoOperation, mthen, getdb, undo_owner. rewrite Hr2.
      destruct (_ !! op2) as [run2|]; [|done]. unfold undo_is at 1.
      rewrite (bool_decide_eq_false_2 (undo_status r1 = UExecuting)) by (by destruct o).
      by rewrite !andb_false_r.
    + intros. unfold settleUndo, mthen, getdb. rewrite Hr2. unfold undo_is at 1.
      by rewrite (bool_decide_eq_false_2 (undo_status r1 = UExecuting)) by (by destruct o).
Qed.

(** An undo started from another session is never settled.  The claim does not look at
    the session of the record, but the settlement joins on it: an undo claimed with the
    operation of another session stays executing in every state that keeps the two rows'
    bindings, every settlement of the pair being refused. *)
Theorem foreign_undo_unsettled id i now uuid d op d1 :
  startUndoOperation id i now uuid d = Ok (Some op, d1) →
  (∀ r, d.(undo_records) !! id = Some r → r.(undo_binding).(undo_session_id) ≠ i.(run_in_sessionId)) →
  ∀ d2, undo_binding <$> d2.(undo_records) !! id = undo_binding <$> d1.(undo_records) !! id →
    binding <$> d2.(operation_runs) !! op = binding <$> d1.(operation_runs) !! op →
    undo_status <$> d1.(undo_records) !! id = Some UExecuting ∧
    ∀ o rest v now2 uuid2, settleUndoOperation id op o rest v now2 uuid2 d2 = Throw "undo_operation_not_executing".
Proof.
  intros (r & run & Hr & _ & _ & Eu & _ & Hrun & _ & _ & _ & Hses)%start_ok Hne d2 Hb Ho.
  rewrite Eu, lookup_insert_eq in *. split; [done|]. rewrite Hrun in Ho. intros.
  unfold settleUndoOperation, mthen, getdb, undo_owner.
  destruct (undo_records d2 !! id) as [r2|]; [|done]. destruct (operation_runs d2 !! op) as [run2|]; [|done].
  injection Hb as Hb. injection Ho as Ho.
  case_bool_decide as He; [|done]. exfalso. apply (Hne r Hr). congruence.
Qed.

(** ** A concrete undo *)

Definition demo_undo_input : PrepareOperationRunInput :=
  {| run_in_id := None; run_in_requestId := None; run_in_confirmationId := None;
     run_in_sessionId := u "s"; run_in_workspaceId := u "w"; run_in_adminUserId := u "a";
     run_in_actionName := u "undo"; run_in_actionFingerprint := u "f"; run_in_catalogHash := u "c";
     run_in_operationHash := u "h"; run_in_operation := VObj [(u "undoId", VStr (u "u1"))];
     run_in_mutationPlan := VUndef; run_in_capabilityId := None; run_in_capabilityHash := None;
     run_in_discriminator := Some (
       {| origin := Some (u "direct_ui"); registry_id := Some (u "v2-local");
          authority_model := Some (u "undo_v2"); executor_kind := Some (u "undo_commit"); run_id := None;
          field_provenance_json := None; field_provenance_hash := None; source_undo_id := Some (u "u1");
          source_undo_hash := Some (replicate 64 97%N) |}, None) |}.

Definition recorded_db : db :=
  after (recordUndoable {| undo_in_sessionId := u "s"; undo_in_workspaceId := u "w";
    undo_in_adminUserId := u "a"; undo_in_actionName := u "clockify_tags_create";
    undo_in_installationGeneration := Some 1;
    undo_in_reversal := VArr [VObj [(u "type", VStr (u "tag")); (u "id", VStr (u "t1"))]] |} 0 (u "u1")) empty_db.
Definition started_db : db := after (startUndoOperation (u "u1") demo_undo_input 1000 (u "op")) recorded_db.
Definition undone_ref : option ActionResultRef :=
  match settleUndoOperation (u "u1") (u "op") undone (VArr []) (VObj [(u "ok", VBool true)]) 2000 (u "res") started_db with
  | Ok (ref, _) => Some ref | Throw _ => None
  end.
Definition undone_db : db :=
  after (settleUndoOperation (u "u1") (u "op") undone (VArr []) (VObj [(u "ok", VBool true)]) 2000 (u "res")) started_db.

Lemma undo_used_once_witness :
  undo_status <$> started_db.(undo_records) !! u "u1" = Some UExecuting ∧
  (∃ r o, started_db.(operation_runs) !! u "op" = Some o ∧ recorded_db.(undo_records) !! u "u1" = Some r ∧
     ∀ i2 now2 uuid2, let d2 := run_events (undo_step demo_hash) started_db [(UMark (u "u1"), 1500, [])] in
       startUndoOperation (u "u1") i2 now2 uuid2 d2 = Ok (None, d2)).
Proof.
  split; [vm_compute; reflexivity|].
  destruct (undo_used_once demo_hash (u "u1") demo_undo_input 1000 (u "op") recorded_db (u "op") started_db
              [(UMark (u "u1"), 1500, [])]) as (r & o & Hr & _ & _ & _ & _ & Ho & _ & _ & _ & H).
  - vm_compute. reflexivity.
  - exists r, o. exact (conj Ho (conj Hr H)).
Defined.

Lemma undo_settlement_agrees_witness :
  undo_status <$> undone_db.(undo_records) !! u "u1" = Some UUndone ∧
  ∀ o2 rest2 v2 now2 uuid2, settleUndo (u "u1") o2 rest2 v2 now2 uuid2 undone_db = Throw "undo_not_executing".
Proof.
  split; [vm_compute; reflexivity|]. intros o2 rest2 v2 now2 uuid2.
  destruct undone_ref as [ref|] eqn:E; [|exfalso; revert E; vm_compute; discriminate].
  refine (proj2 (proj2 (proj2 (undo_settlement_agrees demo_hash (u "u1") (u "op") undone (VArr [])
    (VObj [(u "ok", VBool true)]) 2000 (u "res") started_db ref undone_db [] _))) o2 rest2 v2 now2 uuid2).
  revert E. vm_compute. intros [= <-]. reflexivity.
Defined.

(** The same undo claimed by another session of the admin. *)
Definition foreign_input : PrepareOperationRunInput :=
  {| run_in_id := None; run_in_requestId := None; run_in_confirmationId := None;
     run_in_sessionId := u "s2"; run_in_workspaceId := u "w"; run_in_adminUserId := u "a";
     run_in_actionName := u "undo"; run_in_actionFingerprint := u "f"; run_in_catalogHash := u "c";
     run_in_operationHash := u "h"; run_in_operation := VObj [(u "undoId", VStr (u "u1"))];
     run_in_mutationPlan := VUndef; run_in_capabilityId := None; run_in_capabilityHash := None;
     run_in_discriminator := demo_undo_input.(run_in_discriminator) |}.
Definition foreign_db : db := after (startUndoOperation (u "u1") foreign_input 1000 (u "op")) recorded_db.

Lemma foreign_undo_unsettled_witness :
  undo_status <$> foreign_db.(undo_records) !! u "u1" = Some UExecuting ∧
  ∀ o rest v now2 uuid2,
    settleUndoOperation (u "u1") (u "op") o rest v now2 uuid2 foreign_db = Throw "undo_operation_not_executing".
Proof.
  split; [vm_compute; reflexivity|].
  destruct (foreign_undo_unsettled (u "u1") foreign_input 1000 (u "op") recorded_db (u "op") foreign_db) with
    (d2 := foreign_db) as [_ H].
  - vm_compute. reflexivity.
  - intros r. vm_compute. intros [= <-]. discriminate.
  - reflexivity.
  - reflexivity.
  - exact H.
Defined.
