(* ===== verification/Recovery.v ===== *)
(** * Recovery at startup

    [recoverOrphanedRuns] of [db/store.ts]: one transaction, run when the store is opened,
    that settles everything a stopped process left executing.  What the journal says was
    dispatched has an unknown outcome; what never reached the host failed for certain; and
    every orphaned run gets the event that closes it. *)
From S2P Require Import Prelude Js SafeJson ActionResults SessionTables RunTables RunEvents Confirmations Db Discriminators Plan Journal Store ConfirmStore UndoStore Batches RunStore.
From S2P Require RunBudget.
Open Scope Z_scope.
#[local] Arguments u : simpl never.
#[local] Existing Instance RunBudget.RunPhase_dec.

(** ** Statements on every row *)

(** [UPDATE t SET ... WHERE p] and its number of changes. *)
Definition update_all {K A} `{Countable K} (p : A → bool) (f : A → A) (t : gmap K A) : gmap K A * Z :=
  ((λ r, if p r then f r else r) <$> t, Z.of_nat (length (filter (λ kv, p kv.2 = true) (map_to_list t)))).

(** The keys of the rows that meet [p], with the rows. *)
Definition rows_where {K A} `{Countable K} (p : A → bool) (t : gmap K A) : list (K * A) :=
  filter (λ kv, p kv.2 = true) (map_to_list t).

(** *** Turns and steps *)

Definition executing_turn (r : TurnRow) : bool := bool_decide (r.(turn_status) = TurnExecuting).
Definition recover_turns (now : Z) : M Z := λ d,
  let '(t, n) := update_all executing_turn (with_turn_status TurnOutcomeUnknown now) d.(run_tables).(turn_runs) in
  Ok (n, set_run_tables (set_turns t d.(run_tables)) d).

Definition step_in (s : StepStatus) (r : OperationStepRow) : bool := bool_decide (r.(step_status) = s).
Definition reached (r : OperationStepRow) : bool := bool_decide (is_Some r.(dispatched_at)).

Definition update_steps (p : OperationStepRow → bool) (f : OperationStepRow → OperationStepRow) : M Z := λ d,
  let '(t, n) := update_all p f d.(operation_steps) in Ok (n, set_steps t d).

(** Sources of a compensation succeeded; of the rest, only the dispatched are unknown. *)
Definition recover_steps (now : Z) : M Z :=
  do! _ := update_steps (step_in StepCompensating) (with_step_status StepSucceeded false now) in
  do! _ := update_steps (λ r, step_in StepExecuting r && negb (reached r))
             (with_step_status StepDefinitiveFailed true now) in
  update_steps (λ r, step_in StepExecuting r && reached r) (with_step_status StepOutcomeUnknown true now).

(** ** The result of an interrupted operation *)

Record OrphanScope := {
  orphan_session : jstr;
  orphan_workspace : jstr;
  orphan_admin : jstr;
  orphan_action : jstr;
}.

Definition recovery_result (action : jstr) (undispatched : bool) : jsval :=
  VObj [(u "kind", VStr (u "receipt"));
        (u "receipt", VObj
          [(u "ok", VBool false); (u "action", VStr action);
           (u "code", VStr (u (if undispatched then "operation_cancelled_before_dispatch" else "commit_outcome_unknown")));
           (u "message", VStr (u (if undispatched
              then "The server restarted before this queued action reached Clockify. No change was made."
              else "The server restarted while this action was executing, so its outcome is unknown.")));
           (u "recovery", VStr (u (if undispatched
              then "Create a fresh request when the service is available."
              else "Verify the result in Clockify before trying the action again.")))])].

Definition insertRecoveryResult (x : OrphanScope) (op : option jstr) (k : ActionResultKind) (now : Z) (uuid : jstr)
    : M ActionResultRef :=
  let result := recovery_result x.(orphan_action) (bool_decide (k = definitive_failed)) in
  do! summary := lift (buildActionResultSummary uuid result) in
  do! stored := lift (actionResultJson result) in
  do! stored_summary := lift (actionResultJson summary) in
  do! _ := insert_result uuid (result_row op x.(orphan_workspace) x.(orphan_admin) (Some x.(orphan_session))
    x.(orphan_action) k stored stored_summary now) in
  mreturn {| ref_id := uuid; ref_kind := k; ref_summary := summary |}.

Definition operationResult (op : jstr) (d : db) : option ActionResultRef :=
  r ← result_of_operation op d.(action_results);
  Some {| ref_id := r.1; ref_kind := r.2.(result_kind); ref_summary := r.2.(summary_json) |}.

Definition recovery_kind (op : jstr) (d : db) : ActionResultKind :=
  if operationWasDispatched op d then outcome_unknown else definitive_failed.

(** The result the operation has, else a new one. *)
Definition recovered_result (x : OrphanScope) (op : jstr) (now : Z) (uuid : jstr) : M ActionResultRef :=
  do! d := getdb in
  match operationResult op d with
  | Some ref => mreturn ref
  | None => insertRecoveryResult x (Some op) (recovery_kind op d) now uuid
  end.

(** [operation_runs], when still executing. *)
Definition settle_orphan (op : jstr) (ref : ActionResultRef) (now : Z) : M Z :=
  do! changed := update_run_status op (has_run_status RunExecuting)
    (with_run_status (run_status_of ref.(ref_kind)) (Some ref.(ref_id)) now) in
  mreturn (if changed then 1 else 0).

(** ** The passes *)

(** The counters the passes return: operations, undos and ambiguous operations. *)
Record Tally := { tally_operations : Z; tally_undos : Z; tally_ambiguous : Z }.
Definition no_tally : Tally := {| tally_operations := 0; tally_undos := 0; tally_ambiguous := 0 |}.
Definition add_tally (a b : Tally) : Tally :=
  {| tally_operations := a.(tally_operations) + b.(tally_operations);
     tally_undos := a.(tally_undos) + b.(tally_undos);
     tally_ambiguous := a.(tally_ambiguous) + b.(tally_ambiguous) |}.
Fixpoint tally_each {A} (l : list A) (f : A → M Tally) : M Tally :=
  match l with
  | [] => mreturn no_tally
  | x :: l' => do! a := f x in do! b := tally_each l' f in mreturn (add_tally a b)
  end.
Definition ambiguous_of (k : ActionResultKind) (n : Z) : Z := if bool_decide (k = outcome_unknown) then n else 0.

(** *** Confirmations *)

Definition orphan_action_name (op : jstr) (d : db) : jstr :=
  match d.(operation_runs) !! op with Some o => o.(binding).(action_name) | None => u "unknown_action" end.
Definition confirmation_scope (r : PendingRow) (d : db) : OrphanScope :=
  {| orphan_session := r.(preview).(preview_session_id); orphan_workspace := r.(preview).(preview_workspace_id);
     orphan_admin := r.(preview).(preview_admin_user_id);
     orphan_action := orphan_action_name r.(preview).(preview_operation_id) d |}.

Definition recovered_preview (k : ActionResultKind) (a : jstr) (summary : jsval) (r : PendingRow) : PendingRow :=
  {| preview := r.(preview); status := pending_status_of k; risk_json := r.(risk_json);
     preview_json := r.(preview_json); preview_operation_json := None;
     target_fingerprints_json := r.(target_fingerprints_json); nonce_hash := [];
     used_at := r.(used_at); result_summary_json := Some summary; agent_state_json := None;
     action_result_id := Some a; idempotency_key := None; batch_id := r.(batch_id) |}.

(** The open claim of the key, settled. *)
Definition settle_orphan_claim (r : PendingRow) (a : jstr) (summary : jsval) (now : Z) : M unit :=
  match column r.(idempotency_key) with
  | Some key =>
      do! d := getdb in
      if open_claim (key_of key r.(preview)) d
      then putdb (set_idempotency (alter (committed_claim a summary now) (key_of key r.(preview))
                    d.(idempotency_keys)) d)
      else mreturn tt
  | None => mreturn tt
  end.

Definition recover_confirmation (now : Z) (uuid : jstr → jstr) (scope : OrphanScope) (kv : jstr * PendingRow) : M Tally :=
  let op := kv.2.(preview).(preview_operation_id) in
  do! d := getdb in
  let k := recovery_kind op d in
  do! ref := recovered_result scope op now (uuid kv.1) in
  do! summary := lift (actionResultJson ref.(ref_summary)) in
  do! _ := update_confirmation kv.1 [] is_executing (recovered_preview ref.(ref_kind) ref.(ref_id) summary) in
  do! n := settle_orphan op ref now in
  do! _ := settle_orphan_claim kv.2 ref.(ref_id) summary now in
  mreturn {| tally_operations := n; tally_undos := 0; tally_ambiguous := ambiguous_of k n |}.
Definition recover_confirmations (now : Z) (uuid : jstr → jstr) : M (Z * Tally) :=
  do! d := getdb in
  let rows := rows_where is_executing d.(pending_confirmations) in
  do! t := tally_each rows (λ kv, recover_confirmation now uuid (confirmation_scope kv.2 d) kv) in
  mreturn (Z.of_nat (length rows), t).

(** *** Undos with their operation *)

(** [json_extract(o.operation_json, '$.operation.undoId')], which is stored as a text. *)
Definition undo_reference (o : OperationRunRow) : jsval := prop (u "undoId") (prop (u "operation") o.(operation_json)).
Definition reverses (id : jstr) (r : UndoRow) (o : OperationRunRow) : bool :=
  bool_decide (o.(binding).(session_id) = r.(undo_binding).(undo_session_id)) &&
  bool_decide (o.(binding).(workspace_id) = r.(undo_binding).(undo_workspace_id)) &&
  bool_decide (o.(binding).(admin_user_id) = r.(undo_binding).(undo_admin_user_id)) &&
  bool_decide (o.(binding).(action_name) = u "undo") && has_run_status RunExecuting o &&
  is_text id (undo_reference o).

Definition undo_scope_of (r : UndoRow) (action : jstr) : OrphanScope :=
  {| orphan_session := r.(undo_binding).(undo_session_id); orphan_workspace := r.(undo_binding).(undo_workspace_id);
     orphan_admin := r.(undo_binding).(undo_admin_user_id); orphan_action := action |}.

Definition recovered_undo (s : UndoStatus) (a : jstr) (summary : jsval) (now : Z) (r : UndoRow) : UndoRow :=
  {| undo_binding := r.(undo_binding); undo_status := s; reversal_json := r.(reversal_json);
     remaining_json := r.(remaining_json); undone_at := Some now; undo_result_id := Some a;
     undo_summary_json := Some summary |}.

(** The undo, the operation that reverses it and the action it is stored under. *)
Definition linked_undos (d : db) : list (jstr * UndoRow * jstr * jstr) :=
  rows_where (undo_is UExecuting) d.(undo_records) ≫= λ kv,
    omap (λ op, if reverses kv.1 kv.2 op.2 then Some (kv.1, kv.2, op.1, op.2.(binding).(action_name)) else None)
         (map_to_list d.(operation_runs)).

Definition recover_linked_undo (now : Z) (uuid : jstr → jstr) (x : jstr * UndoRow * jstr * jstr) : M Tally :=
  let '(id, r, op, action) := x in
  do! d := getdb in
  let k := recovery_kind op d in
  do! ref := recovered_result (undo_scope_of r action) op now (uuid op) in
  do! n := settle_orphan op ref now in
  do! summary := lift (actionResultJson ref.(ref_summary)) in
  do! changed := update_undo id (undo_is UExecuting)
    (recovered_undo (if bool_decide (k = outcome_unknown) then UOutcomeUnknown else UFailed)
       ref.(ref_id) summary now) in
  mreturn {| tally_operations := n; tally_undos := if changed then 1 else 0; tally_ambiguous := ambiguous_of k n |}.

(** *** The operations and the undos that are left *)

Definition run_orphan_scope (o : OperationRunRow) : OrphanScope :=
  {| orphan_session := o.(binding).(session_id); orphan_workspace := o.(binding).(workspace_id);
     orphan_admin := o.(binding).(admin_user_id); orphan_action := o.(binding).(action_name) |}.

Definition recover_operation (now : Z) (uuid : jstr → jstr) (kv : jstr * OperationRunRow) : M Tally :=
  do! d := getdb in
  let k := recovery_kind kv.1 d in
  do! ref := recovered_result (run_orphan_scope kv.2) kv.1 now (uuid kv.1) in
  do! n := settle_orphan kv.1 ref now in
  mreturn {| tally_operations := n; tally_undos := 0; tally_ambiguous := ambiguous_of k n |}.

Definition recover_undo (now : Z) (uuid : jstr → jstr) (kv : jstr * UndoRow) : M Tally :=
  do! ref := insertRecoveryResult (undo_scope_of kv.2 (u "undo")) None outcome_unknown now (uuid kv.1) in
  do! summary := lift (actionResultJson ref.(ref_summary)) in
  do! changed := update_undo kv.1 (undo_is UExecuting) (recovered_undo UOutcomeUnknown ref.(ref_id) summary now) in
  let n := if (changed : bool) then 1 else 0 in
  mreturn {| tally_operations := 0; tally_undos := n; tally_ambiguous := n |}.

(** *** Runs *)

(** The phases that only a live process leaves. *)
Definition orphaned_run (r : AssistantRunRow) : bool := existsb (λ p, bool_decide (r.(phase) = p)) RunBudget.ACTIVE_RUN_PHASES.

Definition interrupted : jstr := u "interrupted_before_durable_completion".

Definition fail_orphan (now : Z) (kv : (jstr * jstr) * AssistantRunRow) : M unit :=
  do! d := getdb in
  insert_event {| event_session := kv.1.1; event_run := kv.1.2;
    event_sequence := next_sequence kv.1.1 kv.1.2 d; event_workspace := kv.2.(arun_workspace);
    event_admin := kv.2.(arun_admin); event_type := eventType (run_failed interrupted);
    payload_json := payload_value (run_failed interrupted); event_created_at := now |}.

Definition failed_run (now : Z) (r : AssistantRunRow) : AssistantRunRow :=
  {| arun_workspace := r.(arun_workspace); arun_admin := r.(arun_admin); arun_generation := r.(arun_generation);
     arun_auth := r.(arun_auth); original_request := r.(original_request); arun_request_hash := r.(arun_request_hash);
     phase := RunBudget.phase_failed; arun_catalog_hash := r.(arun_catalog_hash);
     loaded_tool_names := r.(loaded_tool_names); used_tool_names := r.(used_tool_names);
     continuation := r.(continuation); budget_json := r.(budget_json);
     unfinished_operations := r.(unfinished_operations); arun_created_at := r.(arun_created_at);
     arun_updated_at := now |}.

(** The turns named like a run that failed just now. *)
Definition failed_just_now (now : Z) (request : jstr) (d : db) : bool :=
  existsb (λ kv, bool_decide (kv.1.2 = request) && bool_decide (kv.2.(phase) = RunBudget.phase_failed) &&
                 bool_decide (kv.2.(arun_updated_at) = now)) (map_to_list d.(run_tables).(assistant_runs)).
Definition open_turn (r : TurnRow) : bool :=
  bool_decide (r.(turn_status) = TurnPrepared) || bool_decide (r.(turn_status) = TurnExecuting).
Definition fail_turns (now : Z) (d : db) : db :=
  set_run_tables (set_turns
    (map_imap (λ k r, Some (if open_turn r && failed_just_now now k.2 d then with_turn_status TurnFailed now r else r))
       d.(run_tables).(turn_runs)) d.(run_tables)) d.

Definition recover_runs (now : Z) : M Z :=
  do! d := getdb in
  do! _ := for_each (rows_where orphaned_run d.(run_tables).(assistant_runs)) (fail_orphan now) in
  do! d := getdb in
  let '(t, n) := update_all orphaned_run (failed_run now) d.(run_tables).(assistant_runs) in
  do! _ := putdb (set_run_tables (set_aruns t d.(run_tables)) d) in
  do! d := getdb in
  do! _ := putdb (if 0 <? n then fail_turns now d else d) in mreturn n.

(** ** The whole recovery *)

Record RecoverySummary := {
  recovered_turns : Z;
  recovered_operations : Z;
  recovered_confirmations : Z;
  recovered_undos : Z;
  recovered_runs : Z;
  ambiguousSteps : Z;
  ambiguousOperations : Z;
}.

(** The identifiers the recovery draws: of results, by the row they are for, and of the
    triggers' denials. *)
Record Draws := {
  for_confirmation : jstr → jstr;
  for_undo_operation : jstr → jstr;
  for_operation : jstr → jstr;
  for_undo : jstr → jstr;
  for_item : jstr → nat → jstr;
  for_denial : jstr → jstr;
}.

Definition recoverOrphanedRuns (now : Z) (x : Draws) : M RecoverySummary :=
  do! turns := recover_turns now in
  do! unknown := recover_steps now in
  do! p := recover_confirmations now x.(for_confirmation) in
  do! d := getdb in
  do! b := tally_each (linked_undos d) (recover_linked_undo now x.(for_undo_operation)) in
  do! d := getdb in
  do! c := tally_each (rows_where (has_run_status RunExecuting) d.(operation_runs)) (recover_operation now x.(for_operation)) in
  do! d := getdb in
  do! e := tally_each (rows_where (undo_is UExecuting) d.(undo_records)) (recover_undo now x.(for_undo)) in
  do! d := getdb in
  do! _ := for_each (rows_where (batch_is BExecuting) d.(run_tables).(confirmation_batches))
    (λ kv, recoverConfirmationBatch kv.1 now x.(for_denial) (x.(for_item) kv.1)) in
  do! runs := recover_runs now in
  let t := add_tally p.2 (add_tally b (add_tally c e)) in
  mreturn {| recovered_turns := turns; recovered_operations := t.(tally_operations);
             recovered_confirmations := p.1; recovered_undos := t.(tally_undos);
             recovered_runs := runs; ambiguousSteps := unknown; ambiguousOperations := t.(tally_ambiguous) |}.
