(* ===== verification/RecoverLife.v ===== *)
(** * What recovery leaves

    The passes of file Recovery, taken one by one: what they keep, what they settle, and
    the one interrupted batch that makes the whole transaction fail. *)
From S2P Require Import Prelude Js SafeJson ActionResults SessionTables RunTables RunEvents Confirmations Db Discriminators Plan Journal Store ConfirmStore UndoStore Batches BatchLife RunStore RunLife Recovery.
From S2P Require RunBudget.
Open Scope Z_scope.
#[local] Arguments u : simpl never.

(** ** What the statements keep *)

#[export] Instance keeps_tally {A T} (f : db → T) (l : list A) k : (∀ x, Keeps f (k x)) → Keeps f (tally_each l k).
Proof. intros Hk. induction l as [|x l IH]; simpl; apply _. Qed.
#[export] Instance preserves_tally {A} (I : db → Prop) (l : list A) k :
  (∀ x, Preserves I (k x)) → Preserves I (tally_each l k).
Proof. intros Hk. induction l as [|x l IH]; simpl; apply _. Qed.

Section Statements.
Context {T : Type} (f : db → T).

#[export] Instance keeps_update_undo `{!Ignores set_undos f} id p g : Keeps f (update_undo id p g).
Proof. intros d b d' H. unfold update_undo in H. repeat case_match; simplify_eq; rewrite ?ignores; done. Qed.
#[export] Instance keeps_update_steps `{!Ignores set_steps f} p g : Keeps f (update_steps p g).
Proof. intros d b d' H. unfold update_steps in H. destruct (update_all _ _ _). injection H as _ <-. apply ignores. Qed.
#[export] Instance keeps_recover_turns `{!Ignores set_run_tables f} now : Keeps f (recover_turns now).
Proof. intros d b d' H. unfold recover_turns in H. destruct (update_all _ _ _). injection H as _ <-. apply ignores. Qed.
#[export] Instance keeps_claim `{!Ignores set_idempotency f} r a s now : Keeps f (settle_orphan_claim r a s now).
Proof.
  intros d b d' H. unfold settle_orphan_claim in H. destruct (column _); [|by injection H as _ <-].
  apply mthen_ok in H as (d1 & d2 & [= <- <-] & H). destruct (open_claim _ _); injection H as _ <-; [apply ignores|done].
Qed.


#[export] Instance keeps_recovery_result `{!Ignores set_results f} x op k now uuid :
  Keeps f (insertRecoveryResult x op k now uuid).
Proof. unfold insertRecoveryResult. solve_keeps. Qed.
#[export] Instance keeps_recovered_result `{!Ignores set_results f} x op now uuid :
  Keeps f (recovered_result x op now uuid).
Proof. unfold recovered_result. solve_keeps. Qed.
#[export] Instance keeps_settle_orphan `{!Ignores set_runs f} op ref now : Keeps f (settle_orphan op ref now).
Proof. unfold settle_orphan. solve_keeps. Qed.
End Statements.

#[export] Instance keeps_recover_runs {T} (f : db → T) `{!Ignores set_run_tables f} now : Keeps f (recover_runs now).
Proof.
  intros d n d' H. unfold recover_runs in H. apply mthen_ok in H as (y & d0 & [= <- <-] & H).
  apply mthen_ok in H as ([] & d1 & H1 & H). apply mthen_ok in H as (y & d1' & [= <- <-] & H).
  destruct (update_all _ _ _) as [t k]. apply mthen_ok in H as (z & d2 & [= _ <-] & H).
  apply mthen_ok in H as (y & d2' & [= <- <-] & H). apply mthen_ok in H as (w & d3 & [= _ <-] & [= _ <-]).
  assert (∀ l, Keeps f (for_each l (fail_orphan now))) as Hk
    by (intros l; apply keeps_for_each; intros kv; unfold fail_orphan; solve_keeps).
  apply Hk in H1 as E1.
  destruct (0 <? k); unfold fail_turns; by rewrite !ignores.
Qed.

(** The rows of the batches, which only their own pass writes. *)
#[export] Instance batches_turns now : Keeps batch_tables (recover_turns now).
Proof. intros d b d' H. unfold recover_turns in H. destruct (update_all _ _ _). by injection H as _ <-. Qed.

Definition first_passes (now : Z) (x : Draws) : M (Z * Z * (Z * Tally)) :=
  do! turns := recover_turns now in
  do! unknown := recover_steps now in
  do! p := recover_confirmations now x.(for_confirmation) in
  do! d := getdb in
  do! b := tally_each (linked_undos d) (recover_linked_undo now x.(for_undo_operation)) in
  do! d := getdb in
  do! c := tally_each (rows_where (has_run_status RunExecuting) d.(operation_runs)) (recover_operation now x.(for_operation)) in
  do! d := getdb in
  do! e := tally_each (rows_where (undo_is UExecuting) d.(undo_records)) (recover_undo now x.(for_undo)) in
  mreturn (turns, unknown, (p.1, add_tally p.2 (add_tally b (add_tally c e)))).
Definition batch_pass (now : Z) (x : Draws) : M unit :=
  do! d := getdb in
  for_each (rows_where (batch_is BExecuting) d.(run_tables).(confirmation_batches))
    (λ kv, recoverConfirmationBatch kv.1 now x.(for_denial) (x.(for_item) kv.1)).

(** The whole recovery: the first passes, the batches, the runs. *)
Lemma recovery_passes now x d s d' :
  recoverOrphanedRuns now x d = Ok (s, d') →
  ∃ n d1 d2 runs, first_passes now x d = Ok (n, d1) ∧ batch_pass now x d1 = Ok (tt, d2) ∧
    recover_runs now d2 = Ok (runs, d') ∧
    s = {| recovered_turns := n.1.1; recovered_operations := n.2.2.(tally_operations);
           recovered_confirmations := n.2.1; recovered_undos := n.2.2.(tally_undos);
           recovered_runs := runs; ambiguousSteps := n.1.2; ambiguousOperations := n.2.2.(tally_ambiguous) |}.
Proof.
  intros H. unfold recoverOrphanedRuns in H.
  apply mthen_ok in H as (turns & d1 & H1 & H). apply mthen_ok in H as (unk & d2 & H2 & H).
  apply mthen_ok in H as (p & d3 & H3 & H). apply mthen_ok in H as (y3 & d3' & [= <- <-] & H).
  apply mthen_ok in H as (b & d4 & H4 & H). apply mthen_ok in H as (y4 & d4' & [= <- <-] & H).
  apply mthen_ok in H as (c & d5 & H5 & H). apply mthen_ok in H as (y5 & d5' & [= <- <-] & H).
  apply mthen_ok in H as (e & d6 & H6 & H). apply mthen_ok in H as (y6 & d6' & [= <- <-] & H).
  apply mthen_ok in H as ([] & d7 & H7 & H). apply mthen_ok in H as (runs & d8 & H8 & [= <- <-]).
  eexists (turns, unk, (p.1, _)), d6, d7, runs. split_and!.
  - unfold first_passes, mthen, getdb. rewrite H1, H2, H3, H4, H5, H6. reflexivity.
  - unfold batch_pass, mthen, getdb. exact H7.
  - done.
  - done.
Qed.

(** ** What only grows or only stands *)

(** The steps of an operation were dispatched or not before the recovery began. *)
Definition dispatch_is (op : jstr) (b : bool) (d : db) : Prop := operationWasDispatched op d = b.

Lemma dispatched_iff op d :
  operationWasDispatched op d = true ↔
  ∃ id s, d.(operation_steps) !! id = Some s ∧ s.(identity).(operation_id) = op ∧ is_Some s.(dispatched_at).
Proof.
  unfold operationWasDispatched. rewrite existsb_exists. split.
  - intros ([id s] & Hin & H). simpl in H. zbool. apply bool_decide_eq_true in H, H0.
    exists id, s. split; [|done]. by apply elem_of_map_to_list, list_elem_of_In.
  - intros (id & s & Hs & Ho & Hd). exists (id, s). split; [by apply list_elem_of_In, elem_of_map_to_list|].
    simpl. by rewrite !bool_decide_eq_true_2.
Qed.
Lemma dispatched_ext op d d' :
  (∀ id, (λ s, (s.(identity), s.(dispatched_at))) <$> d'.(operation_steps) !! id =
         (λ s, (s.(identity), s.(dispatched_at))) <$> d.(operation_steps) !! id) →
  operationWasDispatched op d' = operationWasDispatched op d.
Proof.
  intros E. apply eq_true_iff_eq. rewrite !dispatched_iff. split; intros (id & s & Hs & Ho & Hd); specialize (E id);
    rewrite Hs in E; simpl in E; first [apply fmap_Some in E as (s2 & H2 & E2)|symmetry in E; apply fmap_Some in E as (s2 & H2 & E2)]; injection E2 as E3 E4;
    exists id, s2; rewrite <-E3, <-E4; done.
Qed.

#[export] Instance dispatch_elsewhere {A} op b (m : M A) : Keeps operation_steps m → Preserves (dispatch_is op b) m | 10.
Proof. apply preserves_keeps. intros d d' E. unfold dispatch_is, operationWasDispatched. by rewrite E. Qed.
Lemma dispatch_update_steps op b p g :
  (∀ s, (g s).(identity) = s.(identity) ∧ (g s).(dispatched_at) = s.(dispatched_at)) →
  Preserves (dispatch_is op b) (update_steps p g).
Proof.
  intros Hg d n d' H. unfold update_steps, update_all in H. injection H as _ <-. unfold dispatch_is.
  intros <-. apply dispatched_ext. intros id. simpl. rewrite lookup_fmap. destruct (_ !! id) as [s|]; [|done]. simpl.
  destruct (p s); [|done]. destruct (Hg s) as [-> ->]. done.
Qed.
#[export] Hint Extern 1 (Preserves (dispatch_is _ _) (update_steps _ _)) =>
  (apply dispatch_update_steps; done) : typeclass_instances.

(** Unfold the passes down to their statements. *)
Ltac solve_pass :=
  unfold first_passes, recover_steps, recover_confirmations, recover_confirmation, recover_linked_undo,
    recover_operation, recover_undo, recovered_result, insertRecoveryResult, settle_orphan;
  repeat first [ apply _ | apply preserves_tally; intros ? | apply preserves_for_each; intros ?
               | apply preserves_then; [|intros ?] | apply preserves_if | case_match ].

#[export] Instance passes_result a r now x : Preserves (has_result a r) (first_passes now x).
Proof. solve_pass. Qed.
#[export] Instance passes_dispatch op b now x : Preserves (dispatch_is op b) (first_passes now x).
Proof. solve_pass. Qed.
Lemma passes_batches now x : Keeps batch_tables (first_passes now x).
Proof.
  unfold first_passes, recover_steps, recover_confirmations, recover_confirmation, recover_linked_undo,
    recover_operation, recover_undo; repeat first [ apply _ | apply keeps_tally; intros ? | solve_keeps ].
Qed.

(** ** An interrupted batch *)

#[export] Instance recover_result a r id now blob uuid : Preserves (has_result a r) (recoverConfirmationBatch id now blob uuid).
Proof.
  unfold recoverConfirmationBatch, stop_batch, fail_item, close_item, cancel_preview, cancelConfirmation.
  repeat first [ apply _ | solve_preserves ].
Qed.
#[export] Instance recover_dispatch id now blob uuid : Keeps operation_steps (recoverConfirmationBatch id now blob uuid).
Proof.
  apply keeps_recover; unfold stop_batch, fail_item, close_item, cancel_preview, cancelConfirmation; intros; solve_keeps.
Qed.

(** The first executing member of a batch. *)
Definition first_executing (items : list BatchItemRow) (i : nat) (x : BatchItemRow) : Prop :=
  items !! i = Some x ∧ x.(item_status) = IExecuting ∧
  ∀ j y, (j < i)%nat → items !! j = Some y → y.(item_status) ≠ IExecuting.

Lemma items_from_first items i x :
  first_executing items i x → ∃ rest, items_from 0 IExecuting items = (i, x) :: rest.
Proof.
  intros (Hx & Hs & Hbefore). unfold items_from.
  rewrite <-(take_drop_middle items i x Hx), imap_app, filter_app, imap_cons, filter_cons.
  assert (i < length items)%nat by by eapply lookup_lt_Some. rewrite length_take, Nat.min_l by lia.
  rewrite Nat.add_0_r, decide_True by (simpl; split; [lia|done]). eexists.
  assert (filter (λ y : nat * BatchItemRow, (0 ≤ y.1)%nat ∧ y.2.(item_status) = IExecuting) (imap pair (take i items)) = []) as ->; [|done].
  apply elem_of_nil_inv. intros [j y] [[_ Hy] Hin]%list_elem_of_filter. simpl in Hy.
  apply elem_of_lookup_imap_1 in Hin as (j2 & y2 & [= <- <-] & Hl).
  apply lookup_take_Some in Hl as [Hl Hlt]. by eapply Hbefore.
Qed.

(** What the batches hold when [id] was interrupted between the claim of its member and
    the first request of its operation. *)
Record interrupted_batch (id : jstr) (b : BatchRow) (x : BatchItemRow) (a : jstr) (r : ActionResultRow) (d : db) : Prop := {
  interrupted_row : d.(run_tables).(confirmation_batches) !! id = Some b;
  interrupted_executing : b.(batch_status) = BExecuting;
  interrupted_item : ∃ i, first_executing (items_of id d) i x;
  interrupted_claimed : has_result a r d ∧ r.(result_operation_id) = Some x.(item_operation);
  interrupted_before : dispatch_is x.(item_operation) false d;
}.

Lemma interrupted_throws id b x a r now blob uuid d v d' :
  interrupted_batch id b x a r d → recoverConfirmationBatch id now blob uuid d ≠ Ok (v, d').
Proof.
  intros [Hb Hs [i Hi] [Ha Hop] Hd] H. unfold recoverConfirmationBatch in H.
  apply mthen_ok in H as (d1 & d2 & [= <- <-] & H). rewrite Hb in H.
  unfold batch_is in H. rewrite bool_decide_eq_true_2 in H by done. cbv zeta in H.
  assert (forallb (item_is IPending) (items_of id d) = false) as Hp.
  { apply not_true_iff_false. intros Hall. rewrite forallb_forall in Hall. destruct Hi as (Hx & Hst & _).
    specialize (Hall x ltac:(apply list_elem_of_In; by eapply list_elem_of_lookup_2)). unfold item_is in Hall.
    apply bool_decide_eq_true in Hall. congruence. }
  rewrite Hp, andb_false_r in H. destruct (items_from_first _ _ _ Hi) as [rest E]. rewrite E in H. simpl in H.
  apply mthen_ok in H as (d3 & d4 & [= <- <-] & H). simpl in H. unfold dispatch_is in Hd. rewrite Hd in H.
  apply mthen_ok in H as (y & d5 & H & _). unfold fail_item in H.
  apply mthen_ok in H as (summary & d6 & [_ ->]%lift_ok & H). apply mthen_ok in H as (st & d7 & [_ ->]%lift_ok & H).
  apply mthen_ok in H as (st2 & d8 & [_ ->]%lift_ok & H). apply mthen_ok in H as (z & d9 & H & _).
  apply insert_result_ok in H as (_ & Hu & _). eapply Hu; [reflexivity|exact Ha|exact Hop].
Qed.

(** Another batch's recovery leaves it as it is. *)
Definition batch_view (id : jstr) (d : db) : option BatchRow * list BatchItemRow :=
  (d.(run_tables).(confirmation_batches) !! id, items_of id d).
Lemma view_batch id id2 p g : id2 ≠ id → Keeps (batch_view id) (update_batch id2 p g).
Proof.
  intros Hne d v d' H. unfold update_batch in H. repeat case_match; simplify_eq; try done.
  unfold batch_view, items_of. simpl. by rewrite lookup_insert_ne.
Qed.
Lemma view_item id id2 n p g : id2 ≠ id → Keeps (batch_view id) (update_item id2 n p g).
Proof.
  intros Hne d v d' H. unfold update_item in H. repeat case_match; simplify_eq; try done.
  unfold batch_view, items_of, put_items. simpl. by rewrite lookup_insert_ne.
Qed.

Lemma interrupted_other id id2 b x a r now blob uuid d v d' :
  id2 ≠ id → recoverConfirmationBatch id2 now blob uuid d = Ok (v, d') →
  interrupted_batch id b x a r d → interrupted_batch id b x a r d'.
Proof.
  intros Hne H [Hb Hs Hi [Ha Hop] Hd].
  assert (Keeps (batch_view id) (recoverConfirmationBatch id2 now blob uuid)) as Hk.
  { pose proof (λ p g, view_batch id id2 p g Hne). pose proof (λ n p g, view_item id id2 n p g Hne).
    apply keeps_recover; unfold stop_batch, fail_item, close_item, cancel_preview, cancelConfirmation; intros; solve_keeps. }
  pose proof (Hk _ _ _ H) as E. injection E as E1 E2. split; [by rewrite E1|done|by rewrite E2| |].
  - split; [|done]. by eapply (recover_result a r _ _ _ _ _ _ _ H).
  - unfold dispatch_is, operationWasDispatched in *. by rewrite (keeps (f := operation_steps) _ _ _ H).
Qed.

Lemma for_each_throws {A} (I : db → Prop) (l : list A) (x : A) (k : A → M unit) d v d' :
  (∀ y d a d', k y d = Ok (a, d') → I d → I d') → (∀ d a d', I d → k x d ≠ Ok (a, d')) →
  x ∈ l → I d → for_each l k d ≠ Ok (v, d').
Proof.
  intros Hk Hx. revert d. induction l as [|y l IH]; intros d Hin HI H; [set_solver|]. simpl in H.
  apply mthen_ok in H as ([] & d1 & H1 & H2). apply elem_of_cons in Hin as [->|Hin].
  - by eapply Hx.
  - eapply IH; [done| |exact H2]. by eapply Hk.
Qed.

(** C3: An interrupted Confirm-all stops every later start.  When the process died after the
    claim of a member of an executing batch, which stores the member's result, and before
    the first request of its operation was dispatched, the startup recovery throws, whatever
    else the tables hold: the store that would serve the next request never opens. *)
Theorem interrupted_batch_blocks_startup now x d id b i a r :
  interrupted_batch id b i a r d → ∃ e, recoverOrphanedRuns now x d = Throw e.
Proof.
  intros Hi. destruct (recoverOrphanedRuns now x d) as [[s d']|e] eqn:E; [exfalso|by eexists].
  apply recovery_passes in E as (n & d1 & d2 & runs & H1 & H2 & _).
  assert (interrupted_batch id b i a r d1) as Hi1.
  { destruct Hi as [Hb Hs Hx [Ha Hop] Hd]. pose proof (passes_batches _ _ _ _ _ H1) as E. injection E as E1 E2.
    split; [by rewrite E1|done|unfold items_of in *; by rewrite E2| |].
    - split; [by eapply passes_result|done].
    - by eapply passes_dispatch. }
  unfold batch_pass in H2. apply mthen_ok in H2 as (y & d3 & [= <- <-] & H2).
  refine (for_each_throws (interrupted_batch id b i a r) _ (id, b) _ d1 _ _ _ _ _ Hi1 H2).
  - intros [id2 b2] d4 v d5 H4 H5. simpl in H4. destruct (decide (id2 = id)) as [->|Hne].
    + exfalso. by eapply interrupted_throws.
    + by eapply interrupted_other.
  - intros d4 v d5 H4. by eapply interrupted_throws.
  - unfold rows_where. apply list_elem_of_filter. split; [unfold batch_is; simpl; by rewrite bool_decide_eq_true_2 by apply Hi1|].
    apply elem_of_map_to_list. apply Hi1.
Qed.

(** ** An interrupted batch of two *)

Definition run_or {A} (m : M A) (d : db) : db := match m d with Ok (_, d') => d' | Throw _ => d end.

(** Confirm all: the batch, the claim of its first member and the member's row; and there
    the process stops. *)
Definition stopped_db : db :=
  run_or (updateConfirmationBatchItemStatus (u "b") 0 IExecuting
            {| patch_index := None; patch_result := None; patch_started := Some 200; Batches.patch_completed := None |})
    (run_or (markConfirmationExecuting (u "c1") 200 (u "a1"))
       (run_or (markConfirmationBatchExecuting (u "b") 200) batched_db)).
Definition demo_draws : Draws :=
  {| for_confirmation := app (u "rc"); for_undo_operation := app (u "ru"); for_operation := app (u "ro");
     for_undo := app (u "rv"); for_item := λ b i, u "ri" ++ b; for_denial := app (u "rd") |}.

Definition stopped_batch : BatchRow := started_batch 200 (new_batch demo_batch_input 100).
Definition stopped_item : BatchItemRow :=
  patched_item IExecuting {| patch_index := None; patch_result := None; patch_started := Some 200; Batches.patch_completed := None |}
    (pending_item {| member_confirmation := u "c1"; member_operation := u "o1" |}).
Definition stopped_result : ActionResultRow :=
  default (result_row None [] [] None [] outcome_unknown VNull VNull 0) (stopped_db.(action_results) !! u "a1").

Lemma interrupted_batch_blocks_startup_witness :
  interrupted_batch (u "b") stopped_batch stopped_item (u "a1") stopped_result stopped_db ∧
  ∃ e, recoverOrphanedRuns 300 demo_draws stopped_db = Throw e ∧ e = constraint_failed.
Proof.
  assert (interrupted_batch (u "b") stopped_batch stopped_item (u "a1") stopped_result stopped_db) as H.
  { split; [by vm_compute|done| |by vm_compute|by vm_compute].
    exists 0%nat. split; [by vm_compute|]. split; [done|]. intros j y Hj. lia. }
  split; [exact H|].
  destruct (interrupted_batch_blocks_startup 300 demo_draws stopped_db _ _ _ _ _ H) as [e He].
  exists e. split; [exact He|]. vm_compute in He. by injection He as <-.
Defined.
