(* ===== verification/RecoverTruth.v ===== *)
(** * The truth recovery tells

    After a recovery nothing is executing, and what every interrupted operation is said to
    have done is what the journal knows: unknown exactly when a step of it was dispatched. *)
From S2P Require Import Prelude Js SafeJson ActionResults SessionTables RunTables RunEvents Confirmations Db Discriminators Plan Journal Store ConfirmStore UndoStore Batches BatchLife RunStore RunLife Recovery RecoverLife.
From S2P Require RunBudget.
Open Scope Z_scope.
#[local] Arguments u : simpl never.

(** A property that one call of the list establishes and every call keeps. *)
Lemma tally_keeps {A} (I : db → Prop) (l : list A) (k : A → M Tally) d v d' :
  (∀ y d a d', y ∈ l → k y d = Ok (a, d') → I d → I d') → I d → tally_each l k d = Ok (v, d') → I d'.
Proof.
  revert d v. induction l as [|y l IH]; intros d v HI Hd H; simpl in H; [by injection H as _ <-|].
  apply mthen_ok in H as (a & d1 & H1 & H). apply mthen_ok in H as (b & d2 & H2 & [= _ <-]).
  refine (IH _ _ (λ z d a d' Hz, HI z d a d' (list_elem_of_further _ _ _ Hz)) _ H2).
  exact (HI _ _ _ _ (list_elem_of_here _ _) H1 Hd).
Qed.
Lemma tally_reaches {A} (I P : db → Prop) (l : list A) (x : A) (k : A → M Tally) d v d' :
  (∀ y d a d', y ∈ l → k y d = Ok (a, d') → I d → I d') →
  (∀ y d a d', y ∈ l → k y d = Ok (a, d') → P d → P d') →
  (∀ d a d', k x d = Ok (a, d') → I d → P d') →
  x ∈ l → I d → tally_each l k d = Ok (v, d') → P d'.
Proof.
  revert d v. induction l as [|y l IH]; intros d v HI HP Hx Hin Hd H; [by apply elem_of_nil in Hin|]. simpl in H.
  apply mthen_ok in H as (a & d1 & H1 & H). apply mthen_ok in H as (b & d2 & H2 & [= _ <-]).
  pose proof (λ z d a d' Hz, HI z d a d' (list_elem_of_further _ _ _ Hz)) as HI'.
  pose proof (λ z d a d' Hz, HP z d a d' (list_elem_of_further _ _ _ Hz)) as HP'.
  apply elem_of_cons in Hin as [->|Hin].
  - exact (tally_keeps P l k d1 b _ HP' (Hx _ _ _ H1 Hd) H2).
  - refine (IH _ _ HI' HP' Hx Hin _ H2). exact (HI _ _ _ _ (list_elem_of_here _ _) H1 Hd).
Qed.

(** ** One operation *)

Section Operation.
Context (op : jstr) (sent : bool) (o0 : OperationRunRow) (prior : option (jstr * ActionResultRow)).

(** A result of the operation is the one it had, or the one the journal gives it. *)
Definition true_result (a : jstr) (r : ActionResultRow) : Prop :=
  match prior with
  | Some p => p = (a, r)
  | None => r.(result_kind) = if sent then outcome_unknown else definitive_failed
  end.

Definition settled_with (o : OperationRunRow) (a : jstr) (r : ActionResultRow) : Prop :=
  o.(run_status) = run_status_of r.(result_kind) ∧ o.(run_result_id) = Some a.

Record truth (d : db) : Prop := {
  truth_sent : dispatch_is op sent d;
  truth_prior a r : prior = Some (a, r) → has_result a r d ∧ r.(result_operation_id) = Some op;
  truth_results a r : has_result a r d → r.(result_operation_id) = Some op → true_result a r;
  truth_run : ∃ o, d.(operation_runs) !! op = Some o ∧ o.(binding) = o0.(binding) ∧
    (o.(run_status) = RunExecuting ∨
     ∃ a r, has_result a r d ∧ r.(result_operation_id) = Some op ∧ settled_with o a r);
}.

(** What the reference of a recovered result points at. *)
Definition ref_stored (op : jstr) (ref : ActionResultRef) (d : db) : Prop :=
  ∃ r, has_result ref.(ref_id) r d ∧ r.(result_operation_id) = Some op ∧ r.(result_kind) = ref.(ref_kind).

Lemma inserted_ref x o k now uuid d ref d' :
  insertRecoveryResult x o k now uuid d = Ok (ref, d') →
  ∃ row, d' = set_results (<[uuid := row]> d.(action_results)) d ∧ row.(result_operation_id) = o ∧
    row.(result_kind) = k ∧ ref.(ref_id) = uuid ∧ ref.(ref_kind) = k ∧ d.(action_results) !! uuid = None ∧
    (∀ op, o = Some op → ∀ a r, has_result a r d → r.(result_operation_id) ≠ Some op).
Proof.
  intros H. unfold insertRecoveryResult in H. apply mthen_ok in H as (s & d1 & [_ ->]%lift_ok & H).
  apply mthen_ok in H as (st & d2 & [_ ->]%lift_ok & H). apply mthen_ok in H as (st2 & d3 & [_ ->]%lift_ok & H).
  apply mthen_ok in H as (y & d4 & Hi & [= <- <-]). apply insert_result_ok in Hi as (Hn & Hu & _ & ->).
  eexists. split_and!; try done; intros op2 -> a r; by eapply Hu.
Qed.

Lemma recovered_ref x op2 now uuid d ref d' :
  recovered_result x op2 now uuid d = Ok (ref, d') →
  ref_stored op2 ref d' ∧
  (d' = d ∨ ∃ row, d' = set_results (<[uuid := row]> d.(action_results)) d ∧ d.(action_results) !! uuid = None ∧
     row.(result_operation_id) = Some op2 ∧ row.(result_kind) = recovery_kind op2 d ∧
     ∀ a r, has_result a r d → r.(result_operation_id) ≠ Some op2).
Proof.
  intros H. unfold recovered_result in H. apply mthen_ok in H as (y & d1 & [= <- <-] & H).
  unfold operationResult in H. destruct (result_of_operation op2 _) as [[a r]|] eqn:E.
  - simpl in H. injection H as <- <-. apply result_of_operation_some in E as [E1 E2]. split; [by exists r|by left].
  - simpl in H. apply inserted_ref in H as (row & -> & Ho & Hk & Hid & Hrk & Hn & Hu). split.
    + exists row. rewrite Hid, Hrk. split_and!; [by apply lookup_insert_eq|done|done].
    + right. exists row. split_and!; try done; by apply Hu.
Qed.

Lemma truth_recovered x op2 now uuid d ref d' :
  recovered_result x op2 now uuid d = Ok (ref, d') → truth d → truth d'.
Proof.
  intros [_ [->|(row & -> & Hn & Ho & Hk & Hu)]]%recovered_ref Ht; [done|]. destruct Ht as [T1 T2 T3 (o & Hr & Hb & Hs)].
  assert (∀ a r, has_result a r d → has_result a r (set_results (<[uuid:=row]> d.(action_results)) d)) as Hgrow.
  { intros a r Ha. unfold has_result in *. simpl. rewrite lookup_insert_ne; [done|congruence]. }
  split; [exact T1|intros a r E; destruct (T2 a r E); auto| |].
  - intros a r Ha Hop. unfold has_result in Ha. simpl in Ha. destruct (decide (a = uuid)) as [->|Hne].
    + rewrite lookup_insert_eq in Ha. injection Ha as <-. rewrite Ho in Hop. injection Hop as ->.
      unfold true_result. destruct prior as [[a0 r0]|] eqn:Ep.
      * exfalso. destruct (T2 a0 r0 eq_refl) as [T2a T2b]. by eapply Hu.
      * rewrite Hk. unfold recovery_kind. unfold dispatch_is in T1. by rewrite T1.
    + rewrite lookup_insert_ne in Ha by done. by apply T3.
  - exists o. split_and!; [done|done|]. destruct Hs as [Hs|(a & r & Ha & Hs)]; [by left|right]. exists a, r. auto.
Qed.

Lemma truth_settle op2 ref now d n d' :
  settle_orphan op2 ref now d = Ok (n, d') → ref_stored op2 ref d → truth d → truth d'.
Proof.
  intros H (r & Ha & Hop & Hk) [T1 T2 T3 (o & Ho & Hb & Hs)]. unfold settle_orphan in H.
  apply mthen_ok in H as (c & d1 & H & [= _ <-]).
  pose proof (keeps (f := operation_steps) _ _ _ H) as Es. pose proof (keeps (f := action_results) _ _ _ H) as Ea.
  assert (∀ a r, has_result a r d1 ↔ has_result a r d) as Hres by (intros; unfold has_result; by rewrite Ea).
  split.
  - unfold dispatch_is, operationWasDispatched in *. by rewrite Es.
  - intros a2 r2 E. by rewrite Hres; auto.
  - intros a2 r2. rewrite Hres. auto.
  - apply update_run_ok in H as [[_ E]|(_ & o2 & Ho2 & Hp & E)]; rewrite E.
    + exists o. split_and!; [done|done|]. destruct Hs as [Hs|(a2 & r2 & Ha2 & Hs)]; [by left|right].
      exists a2, r2. by rewrite Hres.
    + destruct (decide (op2 = op)) as [->|Hne]; [rewrite lookup_insert_eq|rewrite lookup_insert_ne by done].
      * rewrite Ho in Ho2. injection Ho2 as <-. eexists. split; [reflexivity|].
        assert (∀ z, (confirmed_operation_terminal_scrub z).(binding) = z.(binding) ∧
          (confirmed_operation_terminal_scrub z).(run_status) = z.(run_status) ∧
          (confirmed_operation_terminal_scrub z).(run_result_id) = z.(run_result_id)) as Hsc.
        { intros z. unfold confirmed_operation_terminal_scrub. repeat case_match; done. }
        destruct (Hsc (with_run_status (run_status_of (ref_kind ref)) (Some (ref_id ref)) now o)) as (-> & E1 & E2).
        split; [done|right]. exists ref.(ref_id), r. rewrite Hres. split_and!; [done|done|].
        unfold settled_with. rewrite E1, E2, Hk. done.
      * exists o. split_and!; [done|done|]. destruct Hs as [Hs|(a2 & r2 & Ha2 & Hs)]; [by left|right].
        exists a2, r2. by rewrite Hres.
Qed.

(** Statements on other tables, and on a claimed preview. *)
Lemma truth_elsewhere {A} (m : M A) :
  Keeps operation_steps m → Keeps action_results m → Keeps operation_runs m → Preserves truth m.
Proof.
  intros K1 K2 K3 d v d' H [T1 T2 T3 T4]. pose proof (K1 _ _ _ H) as E1. pose proof (K2 _ _ _ H) as E2.
  pose proof (K3 _ _ _ H) as E3. unfold dispatch_is, operationWasDispatched, has_result in *.
  split; unfold dispatch_is, operationWasDispatched, has_result; rewrite ?E1, ?E2, ?E3; done.
Qed.

Lemma truth_preview pid g d b d' :
  update_confirmation pid [] is_executing g d = Ok (b, d') → truth d → truth d'.
Proof.
  intros H [T1 T2 T3 (o & Ho & Hb & Hs)]. apply update_confirmation_after in H;
    [|intros r; unfold is_executing; intros E%bool_decide_eq_true; by rewrite E].
  destruct H as [[_ ->]|(_ & old & _ & _ & _ & E)]; [by split; eauto|].
  assert (d'.(operation_steps) = d.(operation_steps) ∧ d'.(action_results) = d.(action_results)) as [E1 E2]
    by (rewrite E; by destruct (settlement_scrubs _ _)).
  unfold dispatch_is, operationWasDispatched, has_result in *.
  split; unfold dispatch_is, operationWasDispatched, has_result; rewrite ?E1, ?E2; [done..|].
  rewrite E. destruct (settlement_scrubs _ _); [|by exists o]. rewrite scrub_lookup. simpl. rewrite Ho.
  case_decide; [|by exists o]. simpl. eexists. split; [reflexivity|]. done.
Qed.

(** *** The passes *)

Definition idle_op (d : db) : Prop := ∀ o, d.(operation_runs) !! op = Some o → o.(run_status) ≠ RunExecuting.

Lemma ref_kept {A} op2 ref (m : M A) d v d' :
  (∀ a r, Preserves (has_result a r) m) → m d = Ok (v, d') → ref_stored op2 ref d → ref_stored op2 ref d'.
Proof. intros Hp H (r & Ha & Hs). exists r. split; [by eapply Hp|done]. Qed.

Lemma scrub_status z : (confirmed_operation_terminal_scrub z).(run_status) = z.(run_status).
Proof. unfold confirmed_operation_terminal_scrub. by repeat case_match. Qed.
Lemma run_status_of_idle k : run_status_of k ≠ RunExecuting.
Proof. by destruct k. Qed.

Lemma settle_idle ref now d n d' : settle_orphan op ref now d = Ok (n, d') → idle_op d'.
Proof.
  intros H. unfold settle_orphan in H. apply mthen_ok in H as (c & d1 & H & [= _ <-]).
  unfold update_run_status, update_row in H. intros o Ho.
  destruct (d.(operation_runs) !! op) as [r|] eqn:Hr; [|injection H as _ <-; simpl in Ho; congruence].
  destruct (has_run_status RunExecuting r) eqn:Hs; injection H as _ <-; simpl in Ho.
  - rewrite lookup_insert_eq in Ho. injection Ho as <-. rewrite scrub_status. apply run_status_of_idle.
  - rewrite Hr in Ho. injection Ho as <-. unfold has_run_status in Hs. by apply bool_decide_eq_false in Hs.
Qed.
#[local] Instance idle_settle op2 ref now : Preserves idle_op (settle_orphan op2 ref now).
Proof.
  intros d n d' H Hi. destruct (decide (op2 = op)) as [->|Hne]; [by eapply settle_idle|].
  unfold settle_orphan in H. apply mthen_ok in H as (c & d1 & H & [= _ <-]).
  apply update_run_ok in H as [[_ E]|(_ & r & _ & _ & E)]; intros o; rewrite E; [apply Hi|].
  rewrite lookup_insert_ne by done. apply Hi.
Qed.
#[local] Instance idle_elsewhere {A} (m : M A) : Keeps operation_runs m → Preserves idle_op m | 10.
Proof. apply preserves_keeps. intros d d' E. unfold idle_op. by rewrite E. Qed.
Lemma idle_update id p g : (∀ o, (g o).(run_status) ≠ RunExecuting) → Preserves idle_op (update_run_status id p g).
Proof.
  intros Hg d b d' H Hi. apply update_run_ok in H as [[_ E]|(_ & r & _ & _ & E)]; intros o; rewrite E; [apply Hi|].
  destruct (decide (id = op)) as [->|Hne]; [rewrite lookup_insert_eq|rewrite lookup_insert_ne by done; apply Hi].
  intros [= <-]. rewrite scrub_status. apply Hg.
Qed.
#[local] Hint Extern 1 (Preserves idle_op (update_run_status _ _ _)) => (apply idle_update; done) : typeclass_instances.
#[local] Instance idle_terminate pid blob r : Preserves idle_op (terminate_prepared_operation pid blob r).
Proof.
  intros d v d' H Hi. unfold terminate_prepared_operation in H. cbv zeta in H.
  destruct (match operation_runs d !! _ with Some _ => _ | None => _ end) as [o|]; [|injection H as _ <-; done].
  apply mthen_ok in H as (y & d1 & H & [= _ <-]). pose proof (keeps (f := operation_runs) _ _ _ H) as Er. intros o2. simpl.
  rewrite Er. destruct (decide (r.(preview).(preview_operation_id) = op)) as [->|Hne];
    [rewrite lookup_insert_eq; by intros [= <-]|rewrite lookup_insert_ne by done; apply Hi].
Qed.
#[local] Instance idle_confirmation pid blob p g : Preserves idle_op (update_confirmation pid blob p g).
Proof.
  intros d b d' H Hi. unfold update_confirmation in H. cbv zeta in H.
  destruct (_ !! pid) as [old|]; [|by injection H as <- <-]. destruct (p old); [|by injection H as <- <-].
  destruct (negb _); [done|]. destruct (_ && negb _); [done|]. apply mthen_ok in H as (y & d1 & H1 & [= <- <-]).
  assert (idle_op d1) as Hi1.
  { destruct (pre_dispatch_terminal _ _); [|injection H1 as _ <-; exact Hi].
    apply mthen_ok in H1 as (z & d2 & H1 & H2). eapply (idle_elsewhere _ _ _ _ _ H2). by eapply (idle_terminate _ _ _ _ _ _ H1). }
  destruct (settlement_scrubs _ _); [|done]. intros o. rewrite scrub_lookup. case_decide; [|apply Hi1].
  intros (o2 & Ho & ->)%fmap_Some. simpl. by apply Hi1.
Qed.

Lemma confirmation_pass now uuid x kv d t d' :
  recover_confirmation now uuid x kv d = Ok (t, d') → truth d → truth d'.
Proof.
  intros H Ht. unfold recover_confirmation in H. apply mthen_ok in H as (y & d0 & [= <- <-] & H). cbv zeta in H.
  apply mthen_ok in H as (ref & d1 & H1 & H). apply mthen_ok in H as (s & d2 & [_ ->]%lift_ok & H).
  apply mthen_ok in H as (c & d3 & H3 & H). apply mthen_ok in H as (n & d4 & H4 & H).
  apply mthen_ok in H as (z & d5 & H5 & [= _ <-]).
  pose proof (truth_recovered _ _ _ _ _ _ _ H1 Ht) as Ht1. apply recovered_ref in H1 as [Hr _].
  pose proof (truth_preview _ _ _ _ _ H3 Ht1) as Ht3.
  assert (ref_stored kv.2.(preview).(preview_operation_id) ref d3) as Hr3
    by (eapply ref_kept; [|exact H3|exact Hr]; intros a r; apply _).
  pose proof (truth_settle _ _ _ _ _ _ H4 Hr3 Ht3) as Ht4. eapply truth_elsewhere; [..|exact H5|exact Ht4]; apply _.
Qed.
Lemma linked_pass now uuid x d t d' : recover_linked_undo now uuid x d = Ok (t, d') → truth d → truth d'.
Proof.
  destruct x as [[[id r] op2] action]. intros H Ht. unfold recover_linked_undo in H.
  apply mthen_ok in H as (y & d0 & [= <- <-] & H). cbv zeta in H. apply mthen_ok in H as (ref & d1 & H1 & H).
  apply mthen_ok in H as (n & d2 & H2 & H). apply mthen_ok in H as (s & d3 & [_ ->]%lift_ok & H).
  apply mthen_ok in H as (c & d4 & H4 & [= _ <-]).
  pose proof (truth_recovered _ _ _ _ _ _ _ H1 Ht) as Ht1. apply recovered_ref in H1 as [Hr _].
  pose proof (truth_settle _ _ _ _ _ _ H2 Hr Ht1) as Ht2. eapply truth_elsewhere; [..|exact H4|exact Ht2]; apply _.
Qed.
Lemma operation_pass now uuid kv d t d' : recover_operation now uuid kv d = Ok (t, d') → truth d → truth d'.
Proof.
  intros H Ht. unfold recover_operation in H. apply mthen_ok in H as (y & d0 & [= <- <-] & H). cbv zeta in H.
  apply mthen_ok in H as (ref & d1 & H1 & H). apply mthen_ok in H as (n & d2 & H2 & [= _ <-]).
  pose proof (truth_recovered _ _ _ _ _ _ _ H1 Ht) as Ht1. apply recovered_ref in H1 as [Hr _].
  by eapply truth_settle.
Qed.
Lemma undo_pass now uuid kv d t d' : recover_undo now uuid kv d = Ok (t, d') → truth d → truth d'.
Proof.
  intros H Ht. unfold recover_undo in H. apply mthen_ok in H as (ref & d1 & H1 & H).
  apply mthen_ok in H as (s & d2 & [_ ->]%lift_ok & H). apply mthen_ok in H as (c & d3 & H3 & [= _ <-]).
  assert (truth d1) as Ht1.
  { apply inserted_ref in H1 as (row & -> & Ho & _ & _ & _ & Hn & _). destruct Ht as [T1 T2 T3 (o & T4 & T5 & T6)].
    assert (∀ a r, r.(result_operation_id) = Some op →
      has_result a r (set_results (<[uuid kv.1:=row]> d.(action_results)) d) ↔ has_result a r d) as Hres.
    { intros a r Hop. unfold has_result. simpl. destruct (decide (a = uuid kv.1)) as [->|Hne].
      - rewrite lookup_insert_eq, Hn. split; [intros [= <-]; congruence|done].
      - by rewrite lookup_insert_ne. }
    split; [exact T1| | |].
    - intros a r E. destruct (T2 a r E) as [E1 E2]. by rewrite Hres.
    - intros a r Ha Hop. rewrite Hres in Ha by done. auto.
    - exists o. split_and!; [done|done|]. destruct T6 as [T6|(a & r & Ha & Hop & Hs)]; [by left|right].
      exists a, r. by rewrite Hres. }
  eapply truth_elsewhere; [..|exact H3|exact Ht1]; apply _.
Qed.

Lemma first_passes_truth now x n d d' : first_passes now x d = Ok (n, d') → truth d → truth d' ∧ idle_op d'.
Proof.
  intros H Ht. unfold first_passes in H. apply mthen_ok in H as (turns & d1 & H1 & H).
  apply mthen_ok in H as (unk & d2 & H2 & H). apply mthen_ok in H as (p & d3 & H3 & H).
  apply mthen_ok in H as (y3 & d3' & [= <- <-] & H). apply mthen_ok in H as (b & d4 & H4 & H).
  apply mthen_ok in H as (y4 & d4' & [= <- <-] & H). apply mthen_ok in H as (c & d5 & H5 & H).
  apply mthen_ok in H as (y5 & d5' & [= <- <-] & H). apply mthen_ok in H as (e & d6 & H6 & [= _ <-]).
  assert (truth d1) as Ht1 by (eapply truth_elsewhere; [..|exact H1|exact Ht]; apply _).
  assert (truth d2) as Ht2.
  { assert (Keeps operation_runs (recover_steps now)) as K1 by (unfold recover_steps; solve_keeps).
    assert (Keeps action_results (recover_steps now)) as K2 by (unfold recover_steps; solve_keeps).
    assert (Preserves (dispatch_is op sent) (recover_steps now)) as K3 by (unfold recover_steps; solve_preserves).
    pose proof (K1 _ _ _ H2) as E1. pose proof (K2 _ _ _ H2) as E2. destruct Ht1 as [T1 T2 T3 T4].
    unfold has_result in *. split; unfold has_result; rewrite ?E1, ?E2; [by eapply K3|done..]. }
  unfold recover_confirmations in H3. apply mthen_ok in H3 as (y & d2' & [= <- <-] & H3). cbv zeta in H3.
  apply mthen_ok in H3 as (t & d3' & H3 & [= _ <-]).
  pose proof (tally_keeps truth _ _ _ _ _ (λ y d a d' _ Hk, confirmation_pass _ _ _ _ _ _ _ Hk) Ht2 H3) as Ht3.
  pose proof (tally_keeps truth _ _ _ _ _ (λ y d a d' _ Hk, linked_pass _ _ _ _ _ _ Hk) Ht3 H4) as Ht4.
  pose proof (tally_keeps truth _ _ _ _ _ (λ y d a d' _ Hk, operation_pass _ _ _ _ _ _ Hk) Ht4 H5) as Ht5.
  pose proof (tally_keeps truth _ _ _ _ _ (λ y d a d' _ Hk, undo_pass _ _ _ _ _ _ Hk) Ht5 H6) as Ht6.
  split; [exact Ht6|].
  assert (idle_op d5) as Hi5.
  { destruct (truth_run _ Ht4) as (o & Ho & _ & Hs). destruct (decide (o.(run_status) = RunExecuting)) as [He|He].
    - refine (tally_reaches truth idle_op _ (op, o) _ _ _ _ (λ y d a d' _ Hk, operation_pass _ _ _ _ _ _ Hk) _ _ _ Ht4 H5).
      + intros y d7 a d8 _ H7. revert H7. assert (Preserves idle_op (recover_operation now (for_operation x) y)) as Hp;
          [|intros H7; by eapply Hp]. unfold recover_operation. solve_preserves.
      + intros d7 a d8 H7 _. unfold recover_operation in H7. apply mthen_ok in H7 as (y & d9 & [= <- <-] & H7). cbv zeta in H7.
        apply mthen_ok in H7 as (ref & d10 & _ & H7). apply mthen_ok in H7 as (m & d11 & H7 & [= _ <-]). by eapply settle_idle.
      + apply list_elem_of_filter. split; [unfold has_run_status; simpl; by rewrite bool_decide_eq_true_2|by apply elem_of_map_to_list].
    - assert (idle_op d4) as Hi4 by (intros o2 Ho2; congruence).
      refine (tally_keeps idle_op _ _ _ _ _ _ Hi4 H5). intros y d7 a d8 _ H7.
      assert (Preserves idle_op (recover_operation now (for_operation x) y)) as Hp; [|by eapply Hp].
      unfold recover_operation. solve_preserves. }
  refine (tally_keeps idle_op _ _ _ _ _ _ Hi5 H6). intros y d7 a d8 _ H7.
  assert (Preserves idle_op (recover_undo now (for_undo x) y)) as Hp; [|by eapply Hp]. unfold recover_undo. solve_preserves.
Qed.

(** *** A settled operation stays *)

Definition settled_is (s : OperationRunStatus) (a : jstr) (d : db) : Prop :=
  ∃ o, d.(operation_runs) !! op = Some o ∧ o.(binding) = o0.(binding) ∧ o.(run_status) = s ∧ o.(run_result_id) = Some a.

Section Settled.
Context (s : OperationRunStatus) (a : jstr) (Hfinal : s ≠ RunPrepared ∧ s ≠ RunExecuting).

Lemma settled_update id w g : w = RunPrepared ∨ w = RunExecuting → Preserves (settled_is s a) (update_run_status id (has_run_status w) g).
Proof.
  intros Hw d b d' H (o & Ho & Hb & Hs & Ha). apply update_run_ok in H as [[_ E]|(_ & r & Hr & Hp & E)]; exists o; rewrite E.
  - done.
  - rewrite lookup_insert_ne; [done|]. intros ->. rewrite Ho in Hr. injection Hr as <-.
    unfold has_run_status in Hp. apply bool_decide_eq_true in Hp. destruct Hfinal, Hw; congruence.
Qed.
#[local] Instance settled_executing id g : Preserves (settled_is s a) (update_run_status id (has_run_status RunExecuting) g).
Proof. apply settled_update. by right. Qed.
#[local] Instance settled_prepared id g : Preserves (settled_is s a) (update_run_status id (has_run_status RunPrepared) g).
Proof. apply settled_update. by left. Qed.
#[local] Instance settled_elsewhere {A} (m : M A) : Keeps operation_runs m → Preserves (settled_is s a) m | 10.
Proof. apply preserves_keeps. intros d d' E. unfold settled_is. by rewrite E. Qed.
#[local] Instance settled_terminate pid blob r : Preserves (settled_is s a) (terminate_prepared_operation pid blob r).
Proof.
  intros d v d' H (o & Ho & Hb & Hs & Ha). unfold terminate_prepared_operation in H. cbv zeta in H.
  destruct (d.(operation_runs) !! r.(preview).(preview_operation_id)) as [o2|] eqn:E; [|injection H as _ <-; by exists o].
  destruct (_ && _) eqn:Hp; [|injection H as _ <-; by exists o]. zbool. apply bool_decide_eq_true in H0.
  apply mthen_ok in H as (y & d1 & H & [= _ <-]). exists o. pose proof (keeps (f := operation_runs) _ _ _ H) as Er. simpl.
  rewrite Er, lookup_insert_ne; [done|]. intros Heq. rewrite Heq in E. destruct Hfinal. congruence.
Qed.
#[local] Instance settled_preview pid blob p g : Preserves (settled_is s a) (update_confirmation pid blob p g).
Proof.
  intros d b d' H Hi. unfold update_confirmation in H. cbv zeta in H.
  destruct (_ !! pid) as [old|]; [|by injection H as <- <-]. destruct (p old); [|by injection H as <- <-].
  destruct (negb _); [done|]. destruct (_ && negb _); [done|]. apply mthen_ok in H as (y & d1 & H1 & [= <- <-]).
  assert (settled_is s a d1) as (o & Ho & Hb & Hs & Ha).
  { destruct (pre_dispatch_terminal _ _); [|injection H1 as _ <-; exact Hi].
    apply mthen_ok in H1 as (z & d2 & H1 & H2). eapply (settled_elsewhere _ _ _ _ _ H2). by eapply (settled_terminate _ _ _ _ _ _ H1). }
  destruct (settlement_scrubs _ _); [|by exists o]. unfold settled_is. rewrite scrub_lookup, Ho.
  case_decide; [|by exists o]. simpl. eexists. split; [reflexivity|]. done.
Qed.

Lemma settled_rest now x d v d1 n d' :
  batch_pass now x d = Ok (v, d1) → recover_runs now d1 = Ok (n, d') → settled_is s a d → settled_is s a d'.
Proof.
  intros H1 H2 Hs.
  assert (Preserves (settled_is s a) (batch_pass now x)) as P1.
  { unfold batch_pass. apply preserves_then; [apply _|intros d2]. apply preserves_for_each. intros kv.
    unfold recoverConfirmationBatch, stop_batch, fail_item, close_item, cancel_preview, cancelConfirmation. solve_preserves. }
  eapply (settled_elsewhere _ _ _ _ _ H2). by eapply P1.
Qed.
End Settled.

Lemma idle_anywhere now x d s d' : recoverOrphanedRuns now x d = Ok (s, d') → idle_op d → idle_op d'.
Proof.
  intros H Hi. apply recovery_passes in H as (n & d1 & d2 & runs & H1 & H2 & H3 & _).
  assert (Preserves idle_op (first_passes now x)) as P1 by solve_pass.
  assert (Preserves idle_op (batch_pass now x)) as P2.
  { unfold batch_pass. apply preserves_then; [apply _|intros d3]. apply preserves_for_each. intros kv.
    unfold recoverConfirmationBatch, stop_batch, fail_item, close_item, cancel_preview, cancelConfirmation. solve_preserves. }
  eapply (idle_elsewhere _ _ _ _ _ H3). eapply P2; [exact H2|]. by eapply P1.
Qed.
End Operation.

(** ** One preview *)

Section Preview.
Context (pid : jstr) (r0 : PendingRow).

Definition closed_with (r : PendingRow) (d : db) : Prop :=
  ∃ a row, r.(action_result_id) = Some a ∧ has_result a row d ∧
    row.(result_operation_id) = Some r0.(preview).(preview_operation_id) ∧ r.(status) = pending_status_of row.(result_kind).
Definition preview_known (d : db) : Prop := ∃ r, d.(pending_confirmations) !! pid = Some r ∧ (r = r0 ∨ closed_with r d).
Definition preview_closed (d : db) : Prop := ∃ r, d.(pending_confirmations) !! pid = Some r ∧ closed_with r d.

Lemma closed_grows r d d' : (∀ a row, has_result a row d → has_result a row d') → closed_with r d → closed_with r d'.
Proof. intros Hg (a & row & Ha & Hr & Hs). exists a, row. auto. Qed.
Lemma preview_elsewhere {A} (m : M A) :
  Keeps pending_confirmations m → (∀ a row, Preserves (has_result a row) m) →
  Preserves preview_known m ∧ Preserves preview_closed m.
Proof.
  intros Hk Hr. split; intros d v d' H (r & E & Hs); exists r; rewrite (Hk _ _ _ H); split; try done.
  - destruct Hs as [->|Hs]; [by left|right]. eapply closed_grows; [|exact Hs]. intros a row. by eapply Hr.
  - eapply closed_grows; [|exact Hs]. intros a row. by eapply Hr.
Qed.

Hypothesis executing0 : r0.(status) = PExecuting.

Lemma closed_not_executing r d : closed_with r d → r.(status) ≠ PExecuting.
Proof. intros (a & row & _ & _ & _ & ->). by destruct row.(result_kind). Qed.

Lemma not_claimed id g d d' :
  update_confirmation id [] is_executing g d = Ok (false, d') →
  ∀ r, d.(pending_confirmations) !! id = Some r → r.(status) ≠ PExecuting.
Proof.
  intros H r Hr He. unfold update_confirmation in H. rewrite Hr in H. unfold is_executing in H.
  rewrite bool_decide_eq_true_2 in H by done. cbv zeta in H. destruct (negb _); [done|]. destruct (_ && negb _); [done|].
  by apply mthen_ok in H as (y & d1 & _ & [=]).
Qed.

(** One preview of the pass. *)
Lemma confirmation_step now uuid x kv d t d' :
  (kv.1 = pid → kv.2 = r0) → recover_confirmation now uuid x kv d = Ok (t, d') →
  (preview_known d → preview_known d' ∧ (kv.1 = pid → preview_closed d')) ∧ (preview_closed d → preview_closed d').
Proof.
  intros Hkv H. unfold recover_confirmation in H. apply mthen_ok in H as (y & d0 & [= <- <-] & H). cbv zeta in H.
  apply mthen_ok in H as (ref & d1 & H1 & H). apply mthen_ok in H as (s & d2 & [_ ->]%lift_ok & H).
  apply mthen_ok in H as (c & d3 & H3 & H). apply mthen_ok in H as (n & d4 & H4 & H).
  apply mthen_ok in H as (z & d5 & H5 & [= _ <-]).
  assert (∀ a row, Preserves (has_result a row) (recovered_result x (preview_operation_id (preview kv.2)) now (uuid kv.1))) as Hp1
    by (intros; unfold recovered_result, insertRecoveryResult; solve_preserves).
  destruct (preview_elsewhere (recovered_result x (preview_operation_id (preview kv.2)) now (uuid kv.1)) ltac:(apply _) Hp1)
    as [K1 C1].
  destruct (preview_elsewhere (settle_orphan (preview_operation_id (preview kv.2)) ref now) ltac:(apply _)
    ltac:(intros; unfold settle_orphan; solve_preserves)) as [K4 C4].
  destruct (preview_elsewhere (settle_orphan_claim kv.2 (ref_id ref) s now) ltac:(apply _) ltac:(intros; apply _)) as [K5 C5].
  apply recovered_ref in H1 as H1'. destruct H1' as [(row & Hrow & Hop & Hk) _].
  assert (∀ a w, has_result a w d1 → has_result a w d3) as Hg by (intros a w; by eapply (result_confirmation a w _ _ _ _ _ _ _ H3)).
  apply update_confirmation_after in H3 as H3'; [|intros r; unfold is_executing; intros E%bool_decide_eq_true; by rewrite E].
  assert ((preview_known d1 → preview_known d3 ∧ (kv.1 = pid → preview_closed d3)) ∧ (preview_closed d1 → preview_closed d3)) as [Q1 Q2].
  { destruct H3' as [[-> ->]|(_ & old & Hold & He & _ & E)].
    - split; [|done]. intros Hd. split; [done|]. intros Hpid. destruct Hd as (r & Hr & [->|Hs]); [|by exists r].
      rewrite <-Hpid in Hr. by destruct (not_claimed _ _ _ _ H3 _ Hr).
    - assert (d3.(pending_confirmations) = <[kv.1 := recovered_preview ref.(ref_kind) ref.(ref_id) s old]> d1.(pending_confirmations)) as E3
        by (rewrite E; by destruct (settlement_scrubs _ _)).
      unfold is_executing in He. apply bool_decide_eq_true in He. destruct (decide (kv.1 = pid)) as [Hpid|Hne].
      + assert (preview_closed d3) as Hc; [|by split; [|done]; intros _; split; [|done]; destruct Hc as (r & ? & ?); exists r; auto].
        exists (recovered_preview ref.(ref_kind) ref.(ref_id) s old). rewrite E3, Hpid, lookup_insert_eq. split; [done|].
        exists ref.(ref_id), row. split_and!; [done|by apply Hg| |simpl; by rewrite Hk]. by rewrite Hop, (Hkv Hpid).
      + split; [intros (r & Hr & Hs); split; [|done]|intros (r & Hr & Hs)]; exists r; rewrite E3, lookup_insert_ne by done;
          (split; [done|]); [destruct Hs as [->|Hs]; [by left|right]|]; by eapply closed_grows. }
  split.
  - intros Hd. destruct (Q1 (K1 _ _ _ H1 Hd)) as [Hd3 Hc3]. split; [eapply K5; [exact H5|]; by eapply K4|].
    intros Hpid. eapply C5; [exact H5|]. eapply C4; [exact H4|]. auto.
  - intros Hd. eapply C5; [exact H5|]. eapply C4; [exact H4|]. apply Q2. by eapply C1.
Qed.

Lemma closed_update id blob p g :
  (∀ r, p r = true → r.(status) = PPending ∨ r.(status) = PExecuting) → Preserves preview_closed (update_confirmation id blob p g).
Proof.
  intros Hp d b d' H (r & Hr & Hs).
  assert (closed_with r d') as Hs' by (eapply closed_grows; [|exact Hs]; intros a row; by eapply (result_confirmation a row _ _ _ _ _ _ _ H)).
  apply update_confirmation_row in H as [[_ ->]|(_ & old & new & Hold & Hpo & _ & _ & E)]; [by exists r|].
  exists r. split; [|done]. rewrite E, lookup_insert_ne; [done|]. intros ->. rewrite Hr in Hold. injection Hold as <-.
  destruct Hs as (a & row & _ & _ & _ & Est). destruct (Hp _ Hpo) as [F|F]; rewrite F in Est; by destruct row.(result_kind).
Qed.
#[local] Instance closed_pending id blob g : Preserves preview_closed (update_confirmation id blob is_pending g).
Proof. apply closed_update. intros r. unfold is_pending. intros E%bool_decide_eq_true. by left. Qed.
#[local] Instance closed_executing id blob g : Preserves preview_closed (update_confirmation id blob is_executing g).
Proof. apply closed_update. intros r. unfold is_executing. intros E%bool_decide_eq_true. by right. Qed.
#[local] Instance closed_elsewhere {A} (m : M A) :
  Keeps pending_confirmations m → (∀ a row, Preserves (has_result a row) m) → Preserves preview_closed m | 10.
Proof. intros H1 H2. by apply preview_elsewhere. Qed.
#[local] Instance known_elsewhere {A} (m : M A) :
  Keeps pending_confirmations m → (∀ a row, Preserves (has_result a row) m) → Preserves preview_known m | 10.
Proof. intros H1 H2. by apply preview_elsewhere. Qed.

Lemma preview_settles now x d s d' :
  d.(pending_confirmations) !! pid = Some r0 → recoverOrphanedRuns now x d = Ok (s, d') → preview_closed d'.
Proof.
  intros Hr H. apply recovery_passes in H as (n & d1 & d2 & runs & H1 & H2 & H3 & _).
  assert (preview_closed d1) as Hc.
  { unfold first_passes in H1. apply mthen_ok in H1 as (turns & e1 & H1 & H). apply mthen_ok in H as (unk & e2 & H4 & H).
    apply mthen_ok in H as (p & e3 & H5 & H).
    assert (e2.(pending_confirmations) = d.(pending_confirmations)) as E.
    { assert (Keeps pending_confirmations (recover_steps now)) as K by (unfold recover_steps; solve_keeps).
      rewrite (K _ _ _ H4). exact (keeps (f := pending_confirmations) _ _ _ H1). }
    assert (preview_known e2) as Hk by (exists r0; rewrite E; auto).
    unfold recover_confirmations in H5. apply mthen_ok in H5 as (y & e2' & [= <- <-] & H5). cbv zeta in H5.
    apply mthen_ok in H5 as (t & e3' & H5 & [= _ <-]).
    assert (∀ y, y ∈ rows_where is_executing e2.(pending_confirmations) → y.1 = pid → y.2 = r0) as Hin.
    { intros [pid2 r2] [_ Hy]%list_elem_of_filter Hp. simpl in *. subst. apply elem_of_map_to_list in Hy. congruence. }
    assert (preview_closed e3') as Hc.
    { refine (tally_reaches preview_known preview_closed _ (pid, r0) _ _ _ _ _ _ _ _ Hk H5).
      - intros y e4 a e5 Hy H6. apply (confirmation_step _ _ _ _ _ _ _ (Hin y Hy) H6).
      - intros y e4 a e5 Hy H6. apply (confirmation_step _ _ _ _ _ _ _ (Hin y Hy) H6).
      - intros e4 a e5 H6 Hk4.
        destruct (confirmation_step _ _ (confirmation_scope r0 e2) (pid, r0) _ _ _ (λ _, eq_refl) H6) as [Q _]. by apply (Q Hk4).
      - apply list_elem_of_filter. split; [unfold is_executing; simpl; by rewrite bool_decide_eq_true_2|].
        apply elem_of_map_to_list. by rewrite E. }
    match type of H with ?m _ = _ => assert (Preserves preview_closed m) as Hp end; [|by eapply Hp].
    repeat first [ apply preserves_tally; intros ? | apply preserves_then; [|intros ?]
                 | progress unfold recover_linked_undo, recover_operation, recover_undo, recovered_result, insertRecoveryResult, settle_orphan
                 | apply _ | apply preserves_if | case_match ]. }
  assert (Preserves preview_closed (batch_pass now x)) as P2.
  { unfold batch_pass. apply preserves_then; [apply _|intros d3]. apply preserves_for_each. intros kv.
    unfold recoverConfirmationBatch, stop_batch, fail_item, close_item, cancel_preview, cancelConfirmation. solve_preserves. }
  eapply (closed_elsewhere _ _ _ _ _ _ H3). by eapply P2.
Qed.
End Preview.

(** ** One undo *)

Section Undo.
Context (d0 : db) (id : jstr) (r0 : UndoRow).

(** The operation is executing and is the one that reverses the record. *)
Definition links (op : jstr) (d : db) : Prop := ∃ o, d.(operation_runs) !! op = Some o ∧ reverses id r0 o = true.
(** An executing preview is of the operation. *)
Definition previewed (op : jstr) (d : db) : Prop :=
  ∃ pid p, d.(pending_confirmations) !! pid = Some p ∧ p.(status) = PExecuting ∧ p.(preview).(preview_operation_id) = op.

(** What the status of the closed record says, with the result it is closed with. *)
Definition undo_verdict (s : UndoStatus) (row : ActionResultRow) : Prop :=
  (∃ op, links op d0 ∧ row.(result_operation_id) = Some op ∧
     s = if operationWasDispatched op d0 then UOutcomeUnknown else UFailed) ∨
  ((∀ op, links op d0 → previewed op d0) ∧
     row.(result_operation_id) = None ∧ row.(result_kind) = outcome_unknown ∧ s = UOutcomeUnknown).

Definition undo_closed (d : db) : Prop :=
  ∃ r a row, d.(undo_records) !! id = Some r ∧ r.(undo_binding) = r0.(undo_binding) ∧
    r.(reversal_json) = r0.(reversal_json) ∧ r.(remaining_json) = r0.(remaining_json) ∧
    r.(undo_result_id) = Some a ∧ has_result a row d ∧ undo_verdict r.(undo_status) row.
Definition undo_known (d : db) : Prop := d.(undo_records) !! id = Some r0 ∨ undo_closed d.

Lemma verdict_ended s row : undo_verdict s row → s ≠ UExecuting.
Proof. intros [(op & _ & _ & ->)|(_ & _ & _ & ->)]; by try destruct operationWasDispatched. Qed.

Lemma undo_elsewhere {A} (m : M A) :
  Keeps undo_records m → (∀ a row, Preserves (has_result a row) m) → Preserves undo_known m ∧ Preserves undo_closed m.
Proof.
  intros Hk Hr. assert (Preserves undo_closed m) as Hc.
  { intros d v d' H (r & a & row & E & H1 & H2 & H3 & H4 & H5 & H6). exists r, a, row. rewrite (Hk _ _ _ H).
    repeat (split; [done|]). split; [by eapply Hr|done]. }
  split; [|exact Hc]. intros d v d' H [E|E]; [left; by rewrite (Hk _ _ _ H)|right; by eapply Hc].
Qed.
#[local] Instance undo_known_elsewhere {A} (m : M A) :
  Keeps undo_records m → (∀ a row, Preserves (has_result a row) m) → Preserves undo_known m | 10.
Proof. intros H1 H2. by apply undo_elsewhere. Qed.
#[local] Instance undo_closed_elsewhere {A} (m : M A) :
  Keeps undo_records m → (∀ a row, Preserves (has_result a row) m) → Preserves undo_closed m | 10.
Proof. intros H1 H2. by apply undo_elsewhere. Qed.

Hypothesis executing0 : r0.(undo_status) = UExecuting.

(** One record that recovery closes. *)
Lemma recover_undo_row id2 s a summary now d c d' :
  update_undo id2 (undo_is UExecuting) (recovered_undo s a summary now) d = Ok (c, d') →
  ((id2 = id → ∃ row, has_result a row d ∧ undo_verdict s row) → undo_known d → undo_known d' ∧ (id2 = id → undo_closed d')) ∧ (undo_closed d → undo_closed d').
Proof.
  intros H. apply update_undo_ok in H as H'.
  assert (∀ a row, has_result a row d → has_result a row d') as Hg
    by (intros b w; by eapply (result_elsewhere b w (update_undo id2 _ _) _ _ _ _ H)).
  assert (undo_closed d → undo_closed d') as Hc.
  { intros (r & b & w & E & H1 & H2 & H3 & H4 & H5 & H6). exists r, b, w.
    split; [|repeat (split; [done|]); split; [by apply Hg|done]].
    destruct H' as [[_ ->]|(_ & old & Hold & Hp & ->)]; [done|]. simpl. rewrite lookup_insert_ne; [done|]. intros ->.
    rewrite E in Hold. injection Hold as <-. unfold undo_is in Hp. apply bool_decide_eq_true in Hp.
    by destruct (verdict_ended _ _ H6). }
  split; [|exact Hc]. intros Hs Hd. destruct (decide (id2 = id)) as [->|Hne].
  - assert (undo_closed d') as Hc'; [|by split; [right|]]. destruct Hd as [E|E]; [|by apply Hc].
    destruct H' as [[-> ->]|(_ & old & Hold & Hp & ->)].
    + exfalso. unfold update_undo in H. rewrite E in H. unfold undo_is in H. rewrite bool_decide_eq_true_2 in H by done.
      by destruct (undo_row_ok _).
    + rewrite E in Hold. injection Hold as <-. destruct (Hs eq_refl) as (row & Ha & Hv).
      eexists _, a, row. simpl. rewrite lookup_insert_eq. repeat (split; [first [done|by apply Hg]|]). done.
  - split; [|done]. destruct Hd as [E|E]; [left|right; by apply Hc].
    destruct H' as [[-> ->]|(_ & old & Hold & Hp & ->)]; [done|]. simpl. by rewrite lookup_insert_ne.
Qed.

(** *** The operations that reverse it, while the previews are closed *)

Section Links.
Context (op : jstr).
Definition linked_before (d : db) : Prop := links op d → links op d0.
(** The operation reverses it still, and no executing preview is of it. *)
Definition standing (d : db) : Prop := links op d ∧ ¬ previewed op d.

Lemma links_runs d d' : d'.(operation_runs) = d.(operation_runs) → links op d' ↔ links op d.
Proof. intros E. unfold links. by rewrite E. Qed.
#[local] Instance linked_elsewhere {A} (m : M A) : Keeps operation_runs m → Preserves linked_before m | 10.
Proof. apply preserves_keeps. intros d d' E Hd Hl. apply Hd. by rewrite <-(links_runs _ _ E). Qed.

Lemma links_settled ref now op2 d n d' :
  settle_orphan op2 ref now d = Ok (n, d') → (links op d' → links op d) ∧ (op2 ≠ op → links op d → links op d').
Proof.
  intros H. unfold settle_orphan in H. apply mthen_ok in H as (c & d1 & H & [= _ <-]). unfold links.
  apply update_run_ok in H as [[_ ->]|(_ & r & _ & _ & ->)]; [done|]. destruct (decide (op2 = op)) as [->|Hne];
    [|by rewrite lookup_insert_ne]. split; [|done]. rewrite lookup_insert_eq. intros (o & [= <-] & Hr).
  unfold reverses, has_run_status in Hr. rewrite scrub_status in Hr. simpl in Hr.
  rewrite (bool_decide_eq_false_2 (_ = RunExecuting)) in Hr by apply run_status_of_idle.
  by rewrite andb_false_r in Hr.
Qed.
Lemma links_scrubbed op2 d :
  (links op (scrub_operation op2 d) → links op d) ∧ (op2 ≠ op → links op d → links op (scrub_operation op2 d)).
Proof.
  unfold links. split.
  - intros (o & Ho & Hr). rewrite scrub_lookup in Ho. case_decide; [|by exists o].
    apply fmap_Some in Ho as (o2 & Ho & ->). exfalso. unfold reverses in Hr. by rewrite !andb_false_r in Hr.
  - intros Hne (o & Ho & Hr). exists o. rewrite scrub_lookup. case_decide; [congruence|done].
Qed.

(** One preview of the pass. *)
Lemma links_confirmation now uuid x kv d t d' :
  recover_confirmation now uuid x kv d = Ok (t, d') →
  (linked_before d → linked_before d') ∧
  (kv.2.(preview).(preview_operation_id) ≠ op → standing d → standing d').
Proof.
  intros H. unfold recover_confirmation in H. apply mthen_ok in H as (y & e0 & [= <- <-] & H). cbv zeta in H.
  apply mthen_ok in H as (ref & d1 & H1 & H). apply mthen_ok in H as (s & d2 & [_ ->]%lift_ok & H).
  apply mthen_ok in H as (c & d3 & H3 & H). apply mthen_ok in H as (n & d4 & H4 & H).
  apply mthen_ok in H as (z & d5 & H5 & [= _ <-]).
  pose proof (keeps (f := operation_runs) _ _ _ H1) as R1. pose proof (keeps (f := pending_confirmations) _ _ _ H1) as P1.
  pose proof (keeps (f := operation_runs) _ _ _ H5) as R5. pose proof (keeps (f := pending_confirmations) _ _ _ H5) as P5.
  pose proof (keeps (f := pending_confirmations) _ _ _ H4) as P4.
  destruct (links_settled _ _ _ _ _ _ H4) as [L4 S4].
  apply update_confirmation_after in H3; [|intros r; unfold is_executing; intros E%bool_decide_eq_true; by rewrite E].
  assert ((links op d3 → links op d1) ∧ (standing d1 → standing d3)) as [L3 S3].
  { destruct H3 as [[_ ->]|(_ & old & Hold & He & _ & E)]; [done|]. apply bool_decide_eq_true in He.
    destruct (links_scrubbed (recovered_preview ref.(ref_kind) ref.(ref_id) s old).(preview).(preview_operation_id)
      (set_confirmations (<[kv.1 := recovered_preview ref.(ref_kind) ref.(ref_id) s old]> d1.(pending_confirmations)) d1)) as [L S].
    split; [rewrite E; by destruct (settlement_scrubs _ _)|]. intros [Hl Hp]. split.
    - rewrite E. destruct (settlement_scrubs _ _); [|done]. apply S; [|done]. intros Hop. apply Hp. by exists kv.1, old.
    - intros (pid & p & Hpid & Hst & Hop). apply Hp. rewrite E in Hpid.
      assert (<[kv.1 := recovered_preview ref.(ref_kind) ref.(ref_id) s old]> d1.(pending_confirmations) !! pid = Some p) as Hq
        by (by destruct (settlement_scrubs _ _)).
      destruct (decide (kv.1 = pid)) as [<-|Hne]; [|rewrite lookup_insert_ne in Hq by done; by exists pid, p].
      rewrite lookup_insert_eq in Hq. injection Hq as <-. simpl in Hst. by destruct ref.(ref_kind). }
  split.
  - intros Hd Hl. apply Hd. rewrite <-(links_runs _ _ R1). apply L3, L4. by rewrite <-(links_runs _ _ R5).
  - intros Hne [Hl Hp]. assert (standing d1) as [Hl3 Hp3]%S3
      by (split; [by rewrite (links_runs _ _ R1)|unfold previewed; by rewrite P1]).
    split; [rewrite (links_runs _ _ R5); auto|unfold previewed; by rewrite P5, P4].
Qed.
End Links.

(** Up to the closed previews the record is untouched, and what reverses it then is what
    reversed it, without the operations that a preview closed. *)
Lemma undo_until now uuid turns e1 n e2 p e3 :
  recover_turns now d0 = Ok (turns, e1) → recover_steps now e1 = Ok (n, e2) →
  recover_confirmations now uuid e2 = Ok (p, e3) →
  e3.(undo_records) = d0.(undo_records) ∧
  ∀ op, (links op e3 → links op d0) ∧ (links op d0 → ¬ previewed op d0 → links op e3) ∧
    dispatch_is op (operationWasDispatched op d0) e3.
Proof.
  intros H1 H2 H3.
  assert (Keeps undo_records (recover_steps now)) as U2 by (unfold recover_steps; solve_keeps).
  assert (Keeps operation_runs (recover_steps now)) as R2 by (unfold recover_steps; solve_keeps).
  assert (Keeps pending_confirmations (recover_steps now)) as P2 by (unfold recover_steps; solve_keeps).
  pose proof (keeps (f := operation_runs) _ _ _ H1) as R1. pose proof (keeps (f := pending_confirmations) _ _ _ H1) as P1.
  apply R2 in H2 as E2. apply P2 in H2 as F2. rewrite R1 in E2. rewrite P1 in F2. split.
  - assert (Keeps undo_records (recover_confirmations now uuid)) as U3.
    { unfold recover_confirmations. apply keeps_then; [apply _|intros d3]. apply keeps_then; [|apply _].
      apply keeps_tally. intros kv. unfold recover_confirmation. solve_keeps. }
    rewrite (U3 _ _ _ H3), (U2 _ _ _ H2). exact (keeps (f := undo_records) _ _ _ H1).
  - intros op. assert (dispatch_is op (operationWasDispatched op d0) e3) as Hd.
    { assert (Preserves (dispatch_is op (operationWasDispatched op d0)) (recover_steps now)) as D2
        by (unfold recover_steps; solve_preserves).
      assert (Preserves (dispatch_is op (operationWasDispatched op d0)) (recover_confirmations now uuid)) as D3 by solve_pass.
      eapply D3; [exact H3|]. eapply D2; [exact H2|]. unfold dispatch_is, operationWasDispatched.
      by rewrite (keeps (f := operation_steps) _ _ _ H1). }
    unfold recover_confirmations in H3. apply mthen_ok in H3 as (y & e2' & [= <- <-] & H3). cbv zeta in H3.
    apply mthen_ok in H3 as (t & e3' & H3 & [= _ <-]). split_and!; [| |exact Hd].
    + refine (tally_keeps (linked_before op) _ _ _ _ _ _ _ H3); [|intros Hl; by rewrite <-(links_runs op _ _ E2)].
      intros kv f1 a f2 _ Hf. by apply (links_confirmation op _ _ _ _ _ _ _ Hf).
    + intros Hl Hp. assert (standing op e2) as Hs
        by (split; [by rewrite (links_runs op _ _ E2)|unfold previewed; by rewrite F2]).
      refine (proj1 (tally_keeps (standing op) _ _ _ _ _ _ Hs H3)). intros kv f1 a f2 [Hx Hkv]%list_elem_of_filter Hf Hsf.
      refine (proj2 (links_confirmation op _ _ _ _ _ _ _ Hf) _ Hsf). intros E. apply (proj2 Hs). exists kv.1, kv.2.
      split_and!; [apply elem_of_map_to_list; by destruct kv|by apply bool_decide_eq_true in Hx|done].
Qed.

(** The reversal of one record by its operation. *)
Lemma linked_step now uuid id2 r2 op2 action d t d' :
  (id2 = id → links op2 d0) → dispatch_is op2 (operationWasDispatched op2 d0) d →
  recover_linked_undo now uuid (id2, r2, op2, action) d = Ok (t, d') →
  (undo_known d → undo_known d' ∧ (id2 = id → undo_closed d')) ∧ (undo_closed d → undo_closed d').
Proof.
  intros Hl Hd H. unfold recover_linked_undo in H. apply mthen_ok in H as (y & f3 & [= <- <-] & H). cbv zeta in H.
  apply mthen_ok in H as (ref & f4 & G1 & H). apply mthen_ok in H as (m & f5 & G2 & H).
  apply mthen_ok in H as (su & f6 & [_ ->]%lift_ok & H). apply mthen_ok in H as (ch & f7 & G3 & [= _ <-]).
  destruct (undo_elsewhere (recovered_result (undo_scope_of r2 action) op2 now (uuid op2)) ltac:(apply _)
    ltac:(intros; unfold recovered_result, insertRecoveryResult; solve_preserves)) as [K1 C1].
  destruct (undo_elsewhere (settle_orphan op2 ref now) ltac:(apply _)
    ltac:(intros; unfold settle_orphan; solve_preserves)) as [K2 C2].
  apply recovered_ref in G1 as G1'. destruct G1' as [(row & Hrow & Hop & _) _].
  destruct (recover_undo_row id2 _ _ _ _ _ _ _ G3) as [Q1 Q2].
  split; [|intros Hk; eapply Q2, C2, C1; eauto]. intros Hk. apply Q1; [|eapply K2, K1; eauto].
  - intros Hid. exists row. split; [unfold has_result; by rewrite (keeps (f := action_results) _ _ _ G2)|].
    left. exists op2. split_and!; [auto|done|]. unfold recovery_kind. unfold dispatch_is in Hd. rewrite Hd.
    by destruct (operationWasDispatched op2 d0).
Qed.

(** The records without one. *)
Lemma unlinked_step now uuid kv d t d' :
  recover_undo now uuid kv d = Ok (t, d') →
  ((∀ op, links op d0 → previewed op d0) → undo_known d → undo_known d' ∧ (kv.1 = id → undo_closed d')) ∧ (undo_closed d → undo_closed d').
Proof.
  intros H. unfold recover_undo in H. apply mthen_ok in H as (ref & f3 & G1 & H).
  apply mthen_ok in H as (su & f4 & [_ ->]%lift_ok & H). apply mthen_ok in H as (ch & f5 & G3 & [= _ <-]).
  destruct (undo_elsewhere (insertRecoveryResult (undo_scope_of kv.2 (u "undo")) None outcome_unknown now (uuid kv.1))
    ltac:(apply _) ltac:(intros; unfold insertRecoveryResult; solve_preserves)) as [K1 C1].
  destruct (recover_undo_row kv.1 _ _ _ _ _ _ _ G3) as [Q1 Q2].
  split; [|intros Hk; by eapply Q2, C1]. intros Hl Hd. apply Q1; [|by eapply K1]. intros _.
  apply inserted_ref in G1 as (row & -> & Ho & Hk & -> & _). exists row.
  split; [apply lookup_insert_eq|right]. by split_and!.
Qed.

Lemma linked_undo_elem id2 r2 op2 action d :
  (id2, r2, op2, action) ∈ linked_undos d →
  d.(undo_records) !! id2 = Some r2 ∧ ∃ o, d.(operation_runs) !! op2 = Some o ∧ reverses id2 r2 o = true.
Proof.
  unfold linked_undos. intros ([id3 r3] & Hin & [_ Hkv]%list_elem_of_filter)%list_elem_of_bind.
  apply list_elem_of_omap in Hin as ([op3 o] & Ho%elem_of_map_to_list & E). simpl in E.
  destruct (reverses id3 r3 o) eqn:Hrev; [|done]. injection E as <- <- <- <-.
  split; [by apply elem_of_map_to_list|by exists o].
Qed.
Lemma linked_undo_listed op2 d : d.(undo_records) !! id = Some r0 → links op2 d → ∃ action, (id, r0, op2, action) ∈ linked_undos d.
Proof.
  intros Hr (o & Ho & Hrev). exists o.(binding).(action_name). apply list_elem_of_bind. exists (id, r0). split.
  - apply list_elem_of_omap. exists (op2, o). rewrite elem_of_map_to_list. simpl. by rewrite Hrev.
  - apply list_elem_of_filter. split; [by apply bool_decide_eq_true_2|by apply elem_of_map_to_list].
Qed.

(** After the linked records: closed, or not linked at all. *)
Lemma linked_phase now uuid e3 b e4 :
  e3.(undo_records) !! id = Some r0 →
  (∀ op, (links op e3 → links op d0) ∧ (links op d0 → ¬ previewed op d0 → links op e3) ∧
    dispatch_is op (operationWasDispatched op d0) e3) →
  tally_each (linked_undos e3) (recover_linked_undo now uuid) e3 = Ok (b, e4) →
  undo_closed e4 ∨ undo_known e4 ∧ ∀ op, ¬ links op e3.
Proof.
  intros Hr Hl H. set (I d := undo_known d ∧ ∀ op, dispatch_is op (operationWasDispatched op d0) d).
  assert (∀ y d t d', y ∈ linked_undos e3 → recover_linked_undo now uuid y d = Ok (t, d') → I d →
    I d' ∧ (y.1.1.1 = id → undo_closed d') ∧ (undo_closed d → undo_closed d')) as Hstep.
  { intros [[[id2 r2] op2] action] d t d' Hy Hd [Hk Hi]. apply linked_undo_elem in Hy as [Hr2 Hlk].
    edestruct (linked_step now uuid id2) as [Q Qc]; [|apply Hi|exact Hd|].
    - intros ->. rewrite Hr in Hr2. injection Hr2 as <-. by apply Hl.
    - destruct (Q Hk) as [Hk' Hc]. split; [split; [done|]|by split]. intros op.
      assert (Preserves (dispatch_is op (operationWasDispatched op d0)) (recover_linked_undo now uuid (id2, r2, op2, action))) as P
        by solve_pass. eapply P; [exact Hd|apply Hi]. }
  assert (I e3) as HI by (split; [by left|apply Hl]).
  destruct (decide (Exists (λ y, y.1.1.1 = id) (linked_undos e3))) as [He|He].
  - left. apply Exists_exists in He as (y & Hy & Hid).
    refine (proj1 (tally_reaches I (λ d, undo_closed d ∧ I d) _ y _ _ _ _ _ _ _ Hy HI H)).
    + intros z d a d' Hz Hd Hk. by apply (Hstep _ _ _ _ Hz Hd Hk).
    + intros z d a d' Hz Hd [Hc Hk]. destruct (Hstep _ _ _ _ Hz Hd Hk) as (? & _ & ?). auto.
    + intros d a d' Hd Hk. destruct (Hstep _ _ _ _ Hy Hd Hk) as (? & ? & _). auto.
  - right. split.
    + refine (proj1 (tally_keeps I _ _ _ _ _ _ HI H)). intros z d a d' Hz Hd Hk. by apply (Hstep _ _ _ _ Hz Hd Hk).
    + intros op2 Hlk. apply He, Exists_exists. destruct (linked_undo_listed _ _ Hr Hlk) as [action Hin]. by eexists.
Qed.

(** The records that are left. *)
Lemma unlinked_phase now uuid e5 t e6 :
  (∀ op, links op d0 → previewed op d0) → undo_known e5 →
  tally_each (rows_where (undo_is UExecuting) e5.(undo_records)) (recover_undo now uuid) e5 = Ok (t, e6) → undo_closed e6.
Proof.
  intros Hl Hk H. destruct Hk as [E|Hc].
  - refine (tally_reaches undo_known undo_closed _ (id, r0) _ _ _ _ _ _ _ _ (or_introl E) H).
    + intros y f1 a f2 _ Hf Hk. apply (unlinked_step _ _ _ _ _ _ Hf); auto.
    + intros y f1 a f2 _ Hf Hk. apply (unlinked_step _ _ _ _ _ _ Hf); auto.
    + intros f1 a f2 Hf Hk. by apply (proj1 (unlinked_step _ _ _ _ _ _ Hf) Hl Hk).
    + apply list_elem_of_filter. split; [by apply bool_decide_eq_true_2|by apply elem_of_map_to_list].
  - refine (tally_keeps undo_closed _ _ _ _ _ _ Hc H). intros y f1 a f2 _ Hf.
    apply (unlinked_step _ _ _ _ _ _ Hf); auto.
Qed.

Lemma undo_settles now x s d' :
  d0.(undo_records) !! id = Some r0 → recoverOrphanedRuns now x d0 = Ok (s, d') → undo_closed d'.
Proof.
  intros Hr H. apply recovery_passes in H as (n & d1 & d2 & runs & H1 & H2 & H3 & _).
  assert (undo_closed d1) as Hc.
  { unfold first_passes in H1. apply mthen_ok in H1 as (turns & e1 & H1 & H). apply mthen_ok in H as (unk & e2 & H4 & H).
    apply mthen_ok in H as (p & e3 & H5 & H). apply mthen_ok in H as (y3 & e3' & [= <- <-] & H).
    apply mthen_ok in H as (b & e4 & H6 & H). apply mthen_ok in H as (y4 & e4' & [= <- <-] & H).
    apply mthen_ok in H as (c & e5 & H7 & H). apply mthen_ok in H as (y5 & e5' & [= <- <-] & H).
    apply mthen_ok in H as (t & e6 & H8 & [= _ <-]).
    destruct (undo_until _ _ _ _ _ _ _ _ H1 H4 H5) as [Hu Hlinks]. rewrite <-Hu in Hr.
    assert (∀ y, Preserves undo_known (recover_operation now (for_operation x) y) ∧
      Preserves undo_closed (recover_operation now (for_operation x) y)) as P7.
    { intros y. apply undo_elsewhere; [apply _|]. intros a row.
      unfold recover_operation, recovered_result, insertRecoveryResult, settle_orphan. solve_preserves. }
    destruct (linked_phase _ _ _ _ _ Hr Hlinks H6) as [Hc4|[Hk4 Hn]].
    - assert (undo_closed e5) as Hc5 by (refine (tally_keeps undo_closed _ _ _ _ _ _ Hc4 H7);
        intros y f1 a f2 _ Hf; by eapply (proj2 (P7 y))).
      refine (tally_keeps undo_closed _ _ _ _ _ _ Hc5 H8). intros y f1 a f2 _ Hf. by apply (unlinked_step _ _ _ _ _ _ Hf).
    - eapply unlinked_phase; [| |exact H8].
      + intros op Hl. destruct (decide (map_Exists (λ _ p, p.(status) = PExecuting ∧
          p.(preview).(preview_operation_id) = op) d0.(pending_confirmations))) as [Hp|Hp]; [exact Hp|].
        destruct (Hn op). by apply Hlinks.
      + refine (tally_keeps undo_known _ _ _ _ _ _ Hk4 H7). intros y f1 a f2 _ Hf. by eapply (proj1 (P7 y)). }
  assert (Preserves undo_closed (batch_pass now x)) as P2.
  { unfold batch_pass. apply preserves_then; [apply _|intros d3]. apply preserves_for_each. intros kv.
    unfold recoverConfirmationBatch, stop_batch, fail_item, close_item, cancel_preview, cancelConfirmation. solve_preserves. }
  eapply (undo_closed_elsewhere _ _ _ _ _ _ H3). by eapply P2.
Qed.
End Undo.

(** ** The steps *)

(** The status a step is left in. *)
Definition step_verdict (r : OperationStepRow) : StepStatus :=
  match r.(Db.step_status) with
  | StepCompensating => StepSucceeded
  | StepExecuting => if reached r then StepOutcomeUnknown else StepDefinitiveFailed
  | s => s
  end.
Definition recovered_step (now : Z) (r : OperationStepRow) : OperationStepRow :=
  match r.(Db.step_status) with
  | StepCompensating => with_step_status StepSucceeded false now r
  | StepExecuting => with_step_status (step_verdict r) true now r
  | _ => r
  end.
Definition ambiguous_step (r : OperationStepRow) : bool := step_in StepExecuting r && reached r.

Lemma update_steps_ok p f d n d' :
  update_steps p f d = Ok (n, d') →
  d' = set_steps ((λ r, if p r then f r else r) <$> d.(operation_steps)) d ∧
  n = Z.of_nat (length (rows_where p d.(operation_steps))).
Proof. intros [= <- <-]. done. Qed.

Lemma rows_where_fmap {K A} `{Countable K} (p q : A → bool) (g : A → A) (t : gmap K A) :
  (∀ r, p (g r) = q r) → length (rows_where p (g <$> t)) = length (rows_where q t).
Proof.
  intros Hpq. unfold rows_where. rewrite map_to_list_fmap.
  induction (map_to_list t) as [|[k r] l IH]; [done|]. rewrite fmap_cons, !filter_cons. simpl. rewrite Hpq.
  destruct (decide (q r = true)); simpl; by rewrite IH.
Qed.

Lemma steps_recovered now d n d' :
  recover_steps now d = Ok (n, d') →
  d' = set_steps (recovered_step now <$> d.(operation_steps)) d ∧
  n = Z.of_nat (length (rows_where ambiguous_step d.(operation_steps))).
Proof.
  intros H. unfold recover_steps in H. apply mthen_ok in H as (n1 & d1 & [-> _]%update_steps_ok & H).
  apply mthen_ok in H as (n2 & d2 & [-> _]%update_steps_ok & H). apply update_steps_ok in H as [-> ->].
  unfold set_steps; simpl. rewrite <-!map_fmap_compose. split.
  - f_equal. apply map_fmap_ext. intros k r _. unfold compose, recovered_step, step_verdict, step_in, reached.
    destruct r as [i s e ef de q di se upd]; simpl; destruct s, di; reflexivity.
  - f_equal. apply rows_where_fmap. intros r. unfold compose, ambiguous_step, step_in, reached.
    destruct r as [i s e ef de q di se upd]; simpl; destruct s, di; reflexivity.
Qed.

(** Only that pass writes steps. *)
Lemma recovery_steps now x d s d' :
  recoverOrphanedRuns now x d = Ok (s, d') →
  d'.(operation_steps) = recovered_step now <$> d.(operation_steps) ∧
  s.(ambiguousSteps) = Z.of_nat (length (rows_where ambiguous_step d.(operation_steps))).
Proof.
  intros H. apply recovery_passes in H as (n & d1 & d2 & runs & H1 & H2 & H3 & ->). simpl.
  unfold first_passes in H1. apply mthen_ok in H1 as (turns & e1 & H1 & H). apply mthen_ok in H as (unk & e2 & H4 & H).
  pose proof (keeps (f := operation_steps) _ _ _ H1) as E1. apply steps_recovered in H4 as [-> ->]. rewrite E1 in *.
  apply mthen_ok in H as (p & e3 & H5 & H).
  match type of H with ?m _ = _ => assert (Keeps operation_steps m) as K2 end.
  { unfold recover_linked_undo, recover_operation, recover_undo.
    repeat first [apply _ | apply keeps_tally; intros ? | apply keeps_then; [|intros ?] | apply keeps_if | case_match]. }
  assert (Keeps operation_steps (recover_confirmations now x.(for_confirmation))) as K1.
  { unfold recover_confirmations. apply keeps_then; [apply _|intros d3]. apply keeps_then; [|apply _].
    apply keeps_tally. intros kv. unfold recover_confirmation. solve_keeps. }
  assert (Keeps operation_steps (batch_pass now x)) as K3.
  { unfold batch_pass. apply keeps_then; [apply _|intros d3]. apply keeps_for_each. intros kv. apply _. }
  pose proof (keeps (f := operation_steps) _ _ _ H3) as E3. rewrite E3, (K3 _ _ _ H2), (K2 _ _ _ H), (K1 _ _ _ H5). split; [done|].
  apply mthen_ok in H as (y3 & e3' & _ & H). apply mthen_ok in H as (b & e4 & _ & H).
  apply mthen_ok in H as (y4 & e4' & _ & H). apply mthen_ok in H as (c & e5 & _ & H).
  apply mthen_ok in H as (y5 & e5' & _ & H). apply mthen_ok in H as (t & e6 & _ & [= <- _]). done.
Qed.

(** ** The truth *)

(** The unique index on the operation of a result. *)
Definition results_unique (d : db) : Prop :=
  ∀ op a1 r1 a2 r2, has_result a1 r1 d → has_result a2 r2 d →
    r1.(result_operation_id) = Some op → r2.(result_operation_id) = Some op → a1 = a2.

(** What is said of an operation that was executing: the result it had, else one the
    journal supports. *)
Definition verdict (d : db) (op : jstr) (d' : db) : Prop :=
  ∃ o' a r, d'.(operation_runs) !! op = Some o' ∧ d'.(action_results) !! a = Some r ∧
    r.(result_operation_id) = Some op ∧ settled_with o' a r ∧
    match result_of_operation op d.(action_results) with
    | Some p => p = (a, r)
    | None => r.(result_kind) = if operationWasDispatched op d then outcome_unknown else definitive_failed
    end.

Lemma operation_settles now x d s d' op o :
  results_unique d → recoverOrphanedRuns now x d = Ok (s, d') →
  d.(operation_runs) !! op = Some o → o.(run_status) = RunExecuting → verdict d op d'.
Proof.
  intros Hu H Ho He. apply recovery_passes in H as (n & d1 & d2 & runs & H1 & H2 & H3 & _).
  set (prior := result_of_operation op d.(action_results)).
  assert (truth op (operationWasDispatched op d) o prior d) as Ht.
  { split; [done| | |].
    - intros a r E. by apply result_of_operation_some.
    - intros a r Ha Hop. unfold true_result. destruct prior as [[a2 r2]|] eqn:E.
      + apply result_of_operation_some in E as [E1 E2]. assert (a2 = a) as -> by by eapply Hu. unfold has_result in Ha. congruence.
      + exfalso. by eapply result_of_operation_none.
    - exists o. auto. }
  destruct (first_passes_truth _ _ _ _ _ _ _ _ _ H1 Ht) as [[T1 T2 T3 (o1 & Ho1 & Hb & Hs)] Hi].
  destruct Hs as [Hs|(a & r & Ha & Hop & Hst & Hid)]; [by destruct (Hi o1 Ho1)|].
  destruct (settled_rest op o (run_status_of r.(result_kind)) a ltac:(by destruct r.(result_kind)) _ _ _ _ _ _ _ H2 H3)
    as (o2 & Ho2 & Hb2 & Hs2 & Ha2); [by exists o1|].
  exists o2, a, r. split_and!; [done| |done|done|by apply T3].
  assert (Keeps action_results (recover_runs now)) as K by apply _. rewrite (K _ _ _ H3).
  assert (Preserves (has_result a r) (batch_pass now x)) as P.
  { unfold batch_pass. apply preserves_then; [apply _|intros d3]. apply preserves_for_each. intros kv. apply _. }
  by eapply P.
Qed.

(** C2: What recovery says happened.  When the startup recovery returns, no operation is
    executing; every operation that was is settled with a stored result of its own, which is
    the one it already had, and otherwise says unknown exactly when a step of it had been
    dispatched and a certain failure exactly when none had; every executing step has the
    verdict its own dispatch mark gives; every executing preview is closed with the result of
    its operation; and every executing undo is closed, its record of what is to be reversed
    untouched: with the result of an operation that was reversing it, as unknown exactly when
    a step of that operation had been dispatched and as failed otherwise, and as unknown, with
    an unknown result of its own, when no operation was reversing it (or only one that an
    executing preview is of). *)
Theorem recovery_truthful now x d s d' :
  results_unique d → recoverOrphanedRuns now x d = Ok (s, d') →
  (∀ op o, d.(operation_runs) !! op = Some o → o.(run_status) = RunExecuting → verdict d op d') ∧
  (∀ op, idle_op op d → idle_op op d') ∧
  d'.(operation_steps) = recovered_step now <$> d.(operation_steps) ∧
  s.(ambiguousSteps) = Z.of_nat (length (rows_where ambiguous_step d.(operation_steps))) ∧
  (∀ pid r, d.(pending_confirmations) !! pid = Some r → r.(status) = PExecuting → preview_closed pid r d') ∧
  (∀ id r, d.(undo_records) !! id = Some r → r.(undo_status) = UExecuting → undo_closed d id r d').
Proof.
  intros Hu H. destruct (recovery_steps _ _ _ _ _ H) as [Hs Ha]. split_and!; [| |done|done| |].
  - intros op o. by eapply operation_settles.
  - intros op. by eapply idle_anywhere.
  - intros pid r Hr He. by eapply preview_settles.
  - intros id r Hr He. by eapply undo_settles.
Qed.

(** ** A stopped process *)

(** A confirmed preview without a request on the wire, and an operation with one. *)
Definition sent_step : OperationStepRow :=
  dispatched_step 250 (executing_step 240 (prepared_step
    {| operation_id := u "o2"; step_index := 0; plan_step_id := u "p"; step_name := u "create"; step_kind := primary;
       target_fingerprint := None; compensates_step_id := None; step_created_at := 230 |} None 230)).
Definition crashed_db : db :=
  set_steps {[ u "st" := sent_step ]}
    (run_or (markOperationExecuting (u "o2") 200)
       (run_or (markConfirmationExecuting (u "c1") 200 (u "a1")) unbatched_db)).
Definition restarted : RecoverySummary * db :=
  match recoverOrphanedRuns 300 demo_draws crashed_db with
  | Ok r => r
  | Throw _ => ({| recovered_turns := 0; recovered_operations := 0; recovered_confirmations := 0; recovered_undos := 0;
                   recovered_runs := 0; ambiguousSteps := 0; ambiguousOperations := 0 |}, crashed_db)
  end.

Lemma crashed_unique : results_unique crashed_db.
Proof.
  intros op a1 r1 a2 r2 H1 H2 _ _. assert (∀ a r, has_result a r crashed_db → a = u "a1") as Ha.
  { intros a r Hr. assert (a ∈ dom crashed_db.(action_results)) as Hd by by eapply elem_of_dom_2.
    assert (dom crashed_db.(action_results) = {[ u "a1" ]}) as E by (by vm_compute). rewrite E in Hd. set_solver. }
  etrans; [by eapply Ha|symmetry; by eapply Ha].
Qed.

Lemma recovery_truthful_witness :
  recoverOrphanedRuns 300 demo_draws crashed_db = Ok (restarted.1, restarted.2) ∧
  verdict crashed_db (u "o2") restarted.2 ∧
  (run_status <$> restarted.2.(operation_runs) !! u "o2") = Some RunOutcomeUnknown ∧
  (run_status <$> restarted.2.(operation_runs) !! u "o1") = Some RunOutcomeUnknown ∧
  restarted.1.(ambiguousOperations) = 1.
Proof.
  assert (recoverOrphanedRuns 300 demo_draws crashed_db = Ok (restarted.1, restarted.2)) as H by (by vm_compute).
  split; [exact H|]. split_and!; [|by vm_compute..].
  destruct (recovery_truthful 300 demo_draws crashed_db _ _ crashed_unique H) as [Hv _].
  apply (Hv (u "o2") (with_run_status RunExecuting None 200 batch_run_row)); by vm_compute.
Defined.
