(* ===== verification/RecoverRuns.v ===== *)
(** * The runs recovery closes

    Every run a stopped process left working is failed together with the event that says
    so, and the journal stays sound. *)
From S2P Require Import Prelude Js SafeJson ActionResults SessionTables RunTables RunEvents Confirmations Db Discriminators Plan Journal Store ConfirmStore UndoStore Batches BatchLife RunStore RunLife Recovery RecoverLife.
From S2P Require RunBudget.
Open Scope Z_scope.
#[local] Arguments u : simpl never.
#[local] Existing Instance RunBudget.RunPhase_dec.

(** ** The passes before *)

Definition journal_view (d : db) : gmap (jstr * jstr) AssistantRunRow * list RunEventRow :=
  (d.(run_tables).(assistant_runs), d.(run_tables).(run_events)).

#[local] Instance view_turns now : Keeps journal_view (recover_turns now).
Proof. intros d n d' H. unfold recover_turns in H. destruct (update_all _ _ _). by injection H as _ <-. Qed.
#[local] Instance view_update_batch id p g : Keeps journal_view (update_batch id p g).
Proof. intros d b d' H. unfold update_batch in H. repeat case_match; simplify_eq; done. Qed.
#[local] Instance view_update_item id n p g : Keeps journal_view (update_item id n p g).
Proof. intros d b d' H. unfold update_item in H. repeat case_match; simplify_eq; done. Qed.

Lemma view_before now x : Keeps journal_view (first_passes now x).
Proof.
  unfold first_passes, recover_steps, recover_confirmations, recover_confirmation, recover_linked_undo,
    recover_operation, recover_undo; repeat first [ apply _ | apply keeps_tally; intros ? | solve_keeps ].
Qed.
Lemma view_batches now x : Keeps journal_view (batch_pass now x).
Proof.
  unfold batch_pass. apply keeps_then; [apply _|intros d]. apply keeps_for_each. intros kv.
  apply keeps_recover; unfold stop_batch, fail_item, close_item, cancel_preview, cancelConfirmation; intros; solve_keeps.
Qed.

(** No turn is executing once the first pass has run. *)
Definition turns_closed (d : db) : Prop := ∀ k t, d.(run_tables).(turn_runs) !! k = Some t → t.(turn_status) ≠ TurnExecuting.
Definition turn_view (d : db) : gmap (jstr * jstr) TurnRow := d.(run_tables).(turn_runs).
#[local] Instance turns_update_batch id p g : Keeps turn_view (update_batch id p g).
Proof. intros d b d' H. unfold update_batch in H. repeat case_match; simplify_eq; done. Qed.
#[local] Instance turns_update_item id n p g : Keeps turn_view (update_item id n p g).
Proof. intros d b d' H. unfold update_item in H. repeat case_match; simplify_eq; done. Qed.
#[local] Instance turns_elsewhere {A} (m : M A) : Keeps turn_view m → Preserves turns_closed m | 10.
Proof. apply preserves_keeps. intros d d' E Hd k t. unfold turn_view in E. rewrite E. apply Hd. Qed.

Lemma turns_before now x n d d' : first_passes now x d = Ok (n, d') → turns_closed d'.
Proof.
  intros H. unfold first_passes in H. apply mthen_ok in H as (turns & d1 & H1 & H).
  assert (turns_closed d1) as Hc.
  { unfold recover_turns in H1. injection H1 as _ <-. intros k t. simpl. rewrite lookup_fmap.
    intros (t0 & _ & ->)%fmap_Some. unfold executing_turn. case_bool_decide; [done|]. done. }
  match type of H with ?m _ = _ => assert (Preserves turns_closed m) as P end; [|by eapply P].
  unfold recover_steps, recover_confirmations, recover_confirmation, recover_linked_undo, recover_operation, recover_undo.
  repeat first [ apply _ | apply preserves_tally; intros ? | apply preserves_then; [|intros ?] | apply preserves_if | case_match ].
Qed.
Lemma turns_batches now x : Keeps turn_view (batch_pass now x).
Proof.
  unfold batch_pass. apply keeps_then; [apply _|intros d]. apply keeps_for_each. intros kv.
  apply keeps_recover; unfold stop_batch, fail_item, close_item, cancel_preview, cancelConfirmation; intros; solve_keeps.
Qed.

(** ** The closing events *)

Definition orphan_run_scope (kv : (jstr * jstr) * AssistantRunRow) : AssistantRunScope :=
  {| scope_session := kv.1.1; scope_run := kv.1.2; scope_workspace := kv.2.(arun_workspace);
     scope_admin := kv.2.(arun_admin); scope_generation := kv.2.(arun_generation); scope_auth := kv.2.(arun_auth) |}.

Lemma interrupted_encodes : encodeRunEventPayload (run_failed interrupted) = Ok (payload_value (run_failed interrupted)).
Proof. by vm_compute. Qed.

(** The row is the one a command would have appended. *)
Lemma fail_orphan_appends now kv d a d' :
  fail_orphan now kv d = Ok (a, d') →
  moves (orphan_run_scope kv) (append_log [run_failed interrupted]) d d' ∧
  d'.(run_tables).(assistant_runs) = d.(run_tables).(assistant_runs) ∧
  d'.(run_tables).(turn_runs) = d.(run_tables).(turn_runs).
Proof.
  intros H. unfold fail_orphan in H. apply mthen_ok in H as (y & d1 & [= <- <-] & H). split.
  - eapply (allocate_moves _ _ now). unfold allocateAndInsertEvent, mthen, getdb, lift. rewrite interrupted_encodes.
    unfold orphan_run_scope. cbn [scope_session scope_run scope_workspace scope_admin]. rewrite H. reflexivity.
  - unfold insert_event in H. destruct (_ || _); [done|]. by injection H as _ <-.
Qed.

Lemma fail_orphans_append now l d a d' :
  NoDup l.*1 → for_each l (fail_orphan now) d = Ok (a, d') → journal_ok d →
  journal_ok d' ∧ d'.(run_tables).(assistant_runs) = d.(run_tables).(assistant_runs) ∧
  d'.(run_tables).(turn_runs) = d.(run_tables).(turn_runs) ∧
  ∀ k, abstract d' k = (if decide (k ∈ l.*1) then append_log [run_failed interrupted] <$> abstract d k else abstract d k).
Proof.
  revert d a. induction l as [|kv l IH]; intros d a Hnd H Hok; simpl in H.
  - injection H as _ <-. split_and!; [done..|]. intros k. by rewrite decide_False by (by intros ?%elem_of_nil).
  - apply mthen_ok in H as (y & d1 & H1 & H2). destruct (fail_orphan_appends _ _ _ _ _ H1) as (M & Ea & Et).
    destruct (M Hok) as (Hok1 & r & Hr & Hk). rewrite fmap_cons in Hnd. apply NoDup_cons in Hnd as [Hnot Hnd].
    destruct (IH _ _ Hnd H2 Hok1) as (Hok2 & Ea2 & Et2 & Hk2). split_and!; [done|congruence|congruence|].
    assert (key_of_scope (orphan_run_scope kv) = kv.1) as Ekey by (unfold key_of_scope; simpl; by destruct kv.1).
    rewrite Ekey in *. intros k. rewrite Hk2, Hk, fmap_cons. destruct (decide (k = kv.1)) as [->|Hne].
    + rewrite decide_False by done. rewrite decide_True by set_solver. by rewrite Hr.
    + destruct (decide (k ∈ l.*1)); [by rewrite decide_True by set_solver|by rewrite decide_False by set_solver].
Qed.

(** ** The whole recovery *)

Definition working_phase (p : RunBudget.RunPhase) : bool := existsb (λ q, bool_decide (p = q)) RunBudget.ACTIVE_RUN_PHASES.

(** What becomes of a run. *)
Definition closed_run (r : AbstractRun) : AbstractRun :=
  if working_phase r.(a_phase)
  then {| a_phase := RunBudget.phase_failed; a_log := r.(a_log) ++ [run_failed interrupted]; a_used := r.(a_used) |}
  else r.

Lemma rows_where_nodup {K A} `{Countable K} (p : A → bool) (t : gmap K A) : NoDup (rows_where p t).*1.
Proof.
  unfold rows_where. pose proof (NoDup_fst_map_to_list t) as Hnd. revert Hnd.
  induction (map_to_list t) as [|[k r] l IH]; [done|]. rewrite fmap_cons, NoDup_cons. intros [Hnot Hnd].
  rewrite filter_cons. simpl. case_decide; [|by apply IH]. rewrite fmap_cons, NoDup_cons. split; [|by apply IH].
  intros Hin. apply Hnot. apply list_elem_of_fmap in Hin as ([k2 r2] & -> & [_ Hin]%list_elem_of_filter).
  apply list_elem_of_fmap. by exists (k2, r2).
Qed.

Lemma rows_where_key {K A} `{Countable K} (p : A → bool) (t : gmap K A) k r :
  t !! k = Some r → (k ∈ (rows_where p t).*1 ↔ p r = true).
Proof.
  intros Hk. split.
  - intros ([k2 r2] & -> & [Hp Hin]%list_elem_of_filter)%list_elem_of_fmap. apply elem_of_map_to_list in Hin.
    simpl in *. congruence.
  - intros Hp. apply list_elem_of_fmap. exists (k, r). split; [done|]. apply list_elem_of_filter.
    split; [done|by apply elem_of_map_to_list].
Qed.

(** Failing every orphaned row keeps the journal and moves the phases. *)
Lemma phases_failed now d d' :
  d'.(run_tables).(assistant_runs) = (λ r, if orphaned_run r then failed_run now r else r) <$> d.(run_tables).(assistant_runs) →
  d'.(run_tables).(run_events) = d.(run_tables).(run_events) → journal_ok d →
  journal_ok d' ∧ ∀ k, abstract d' k =
    (λ r, if working_phase r.(a_phase) then to_phase RunBudget.phase_failed r else r) <$> abstract d k.
Proof.
  intros Ea Ee [H1 H2 H3]. set (f := λ r, if orphaned_run r then failed_run now r else r) in *. split; [split|].
  - unfold events_for in *. by rewrite Ee.
  - intros e. rewrite Ee. intros He. destruct (H2 e He) as [Hp Hs]. split; [done|]. unfold run_in_scope in *. rewrite Ea, lookup_fmap.
    destruct (_ !! _) as [r|]; [|done]. simpl. unfold f. by destruct (orphaned_run r).
  - intros session run1 run2 r1 r2. rewrite Ea, !lookup_fmap. intros (x1 & E1 & ->)%fmap_Some (x2 & E2 & ->)%fmap_Some A1 A2.
    assert (∀ r, active_phase (f r).(phase) = true → active_phase r.(phase) = true) as Hf
      by (intros r; unfold f; by destruct (orphaned_run r)).
    by eapply H3; [exact E1|exact E2|apply Hf..].
  - intros k. unfold abstract, log_of, events_for. rewrite Ea, Ee, lookup_fmap. destruct (_ !! k) as [r|]; [|done].
    simpl. f_equal. unfold f. change (working_phase r.(phase)) with (orphaned_run r). by destruct (orphaned_run r).
Qed.

Lemma run_pass_closes now d n d' :
  recover_runs now d = Ok (n, d') → journal_ok d →
  journal_ok d' ∧ (∀ k, abstract d' k = closed_run <$> abstract d k) ∧
  (∀ k t, d'.(run_tables).(turn_runs) !! k = Some t → t.(turn_status) = TurnExecuting →
     ∃ t0, d.(run_tables).(turn_runs) !! k = Some t0 ∧ t0.(turn_status) = TurnExecuting).
Proof.
  intros H Hok. unfold recover_runs in H. apply mthen_ok in H as (y & d0 & [= <- <-] & H).
  apply mthen_ok in H as ([] & d1 & H1 & H). apply mthen_ok in H as (y & d1' & [= <- <-] & H).
  destruct (update_all _ _ _) as [t k] eqn:Et. apply mthen_ok in H as (z & d2 & [= _ <-] & H).
  apply mthen_ok in H as (y & d2' & [= <- <-] & H). apply mthen_ok in H as (w & d3 & [= _ <-] & [= _ <-]).
  unfold update_all in Et. injection Et as <- _.
  destruct (fail_orphans_append _ _ _ _ _ (rows_where_nodup _ _) H1 Hok) as (Hok1 & Ea & Etu & Hk).
  set (d2 := set_run_tables _ d1) in *. set (d3 := if 0 <? k then fail_turns now d2 else d2).
  assert (d3.(run_tables).(assistant_runs) = (λ r, if orphaned_run r then failed_run now r else r) <$> d1.(run_tables).(assistant_runs)
    ∧ d3.(run_tables).(run_events) = d1.(run_tables).(run_events)) as [E1 E2] by (unfold d3; by destruct (0 <? k)).
  destruct (phases_failed now d1 d3 E1 E2 Hok1) as [Hok3 Hk3]. split_and!; [done| |].
  - intros q. rewrite Hk3, Hk. unfold abstract at 3.
    destruct (d.(run_tables).(assistant_runs) !! q) as [r|] eqn:Hr.
    + pose proof (rows_where_key orphaned_run _ _ _ Hr) as Hin. unfold closed_run.
      destruct (orphaned_run r) eqn:Ho; [rewrite decide_True by by apply Hin|rewrite decide_False by (intros F%Hin; done)];
        unfold abstract; rewrite Hr; simpl; change (working_phase r.(phase)) with (orphaned_run r); rewrite Ho; reflexivity.
    + destruct (decide _); unfold abstract; by rewrite Hr.
  - intros q t Ht Hst. exists t. rewrite <-Etu. split; [|done]. unfold d3 in Ht. destruct (0 <? k); [|exact Ht].
    unfold fail_turns in Ht. simpl in Ht. rewrite map_lookup_imap in Ht. apply bind_Some in Ht as (t0 & H0 & [= <-]).
    destruct (_ && _); [done|exact H0].
Qed.

(** C36: Every orphaned run is closed in the journal.  When the startup recovery returns
    from a sound journal, the journal is sound; every run in a working phase is failed with
    one more event, that it was interrupted; every other run, and every event written before,
    is as it was; and no turn is executing. *)
Theorem recovery_closes_runs now x d s d' :
  journal_ok d → recoverOrphanedRuns now x d = Ok (s, d') →
  journal_ok d' ∧ (∀ k, abstract d' k = closed_run <$> abstract d k) ∧
  (∀ k t, d'.(run_tables).(turn_runs) !! k = Some t → t.(turn_status) ≠ TurnExecuting).
Proof.
  intros Hok H. apply recovery_passes in H as (n & d1 & d2 & runs & H1 & H2 & H3 & _).
  pose proof (view_before _ _ _ _ _ H1) as V1. pose proof (view_batches _ _ _ _ _ H2) as V2.
  assert (same_journal d d2) as Hs by (unfold journal_view in *; split; congruence).
  destruct (run_pass_closes _ _ _ _ H3 (same_journal_ok _ _ Hs Hok)) as (Hok' & Hk & Ht).
  split_and!; [done| |].
  - intros k. rewrite Hk. by rewrite (same_journal_abstract _ _ _ Hs).
  - intros k t E Hst. destruct (Ht k t E Hst) as (t0 & E0 & Hst0).
    pose proof (turns_batches _ _ _ _ _ H2) as Et. unfold turn_view in Et. rewrite Et in E0.
    by eapply (turns_before _ _ _ _ _ H1).
Qed.

(** A run just started when the process stopped. *)
Definition reopened : RecoverySummary * db :=
  match recoverOrphanedRuns 300 demo_draws started_db with
  | Ok r => r
  | Throw _ => ({| recovered_turns := 0; recovered_operations := 0; recovered_confirmations := 0; recovered_undos := 0;
                   recovered_runs := 0; ambiguousSteps := 0; ambiguousOperations := 0 |}, started_db)
  end.

Lemma recovery_closes_runs_witness :
  recoverOrphanedRuns 300 demo_draws started_db = Ok (reopened.1, reopened.2) ∧
  abstract reopened.2 (u "s", u "r") =
    Some {| a_phase := RunBudget.phase_failed;
            a_log := [run_started (replicate 64 97%N); run_failed interrupted]; a_used := 0 |}.
Proof.
  assert (recoverOrphanedRuns 300 demo_draws started_db = Ok (reopened.1, reopened.2)) as H by (by vm_compute).
  split; [exact H|].
  destruct (recovery_closes_runs 300 demo_draws started_db _ _ started_journal_ok H) as (_ & Hk & _).
  rewrite Hk. by vm_compute.
Defined.
