(* ===== verification/RunSettle.v ===== *)
(** * Settling the run of a confirmation

    [db/store.ts]: [settleV2ConfirmationRun] and [settleV2ConfirmationBatchRun] end the run
    that waits for a preview or for a Confirm-all batch, in one transaction with its
    events, its host-call reservation and its audit row ([db/store/audit-metrics.ts]). *)
From S2P Require Import Prelude Js SafeJson ActionResults SessionTables RunTables RunEvents Confirmations Db Discriminators Plan Journal Store ConfirmStore Batches RunStore RunLife.
From S2P Require RunBudget.
Open Scope Z_scope.
#[local] Arguments u : simpl never.
#[local] Existing Instance RunBudget.RunPhase_dec.

(** ** Audit *)

Record AuditEventInput := {
  audited_workspace : jstr;
  audited_admin : jstr;
  audited_session : option jstr;
  audited_action : jstr;
  audited_risk : jsval;
}.

Definition insert_audit (r : AuditRow) : M unit := λ d,
  if ACTION_RESULT_SUMMARY_MAX_BYTES <? jsonByteLength r.(audit_summary) then Throw constraint_failed
  else Ok (tt, set_session_tables (set_audit (d.(session_tables).(audit_events) ++ [r]) d.(session_tables)) d).

(** [resultRef], or a receipt to be stored as a result of its own. *)
Inductive AuditResult : Type := audit_ref (ref : ActionResultRef) | audit_receipt (receipt : jsval) (uuid : jstr).

Definition receipt_result_kind (receipt : jsval) : ActionResultKind :=
  match prop (u "ok") receipt, prop (u "code") receipt with
  | VBool true, _ => succeeded
  | _, VStr code => if bool_decide (code = u "commit_outcome_unknown") then outcome_unknown else definitive_failed
  | _, _ => definitive_failed
  end.
Definition store_receipt (i : AuditEventInput) (receipt : jsval) (now : Z) (uuid : jstr) : M ActionResultRef :=
  let canonical := VObj [(u "kind", VStr (u "receipt")); (u "receipt", receipt)] in
  do! summary := lift (buildActionResultSummary uuid canonical) in
  do! stored := lift (actionResultJson canonical) in
  do! stored_summary := lift (actionResultJson summary) in
  do! _ := insert_result uuid (result_row None i.(audited_workspace) i.(audited_admin) i.(audited_session)
    i.(audited_action) (receipt_result_kind receipt) stored stored_summary now) in
  mreturn {| ref_id := uuid; ref_kind := receipt_result_kind receipt; ref_summary := summary |}.

Definition addAuditEvent (i : AuditEventInput) (o : AuditResult) (now : Z) : M unit :=
  do! ref := match o with audit_ref ref => mreturn ref | audit_receipt r uuid => store_receipt i r now uuid end in
  do! summary := lift (json_column ref.(ref_summary)) in
  insert_audit {| audit_workspace := i.(audited_workspace); audit_admin := i.(audited_admin);
    audit_session := i.(audited_session); audit_action := i.(audited_action); audit_risk := i.(audited_risk);
    audit_result := ref.(ref_id); audit_summary := summary; audit_created_at := now |}.

Definition auditRefFor (a : jstr) (d : db) : option ActionResultRef :=
  r ← d.(action_results) !! a;
  Some {| ref_id := a; ref_kind := r.(result_kind); ref_summary := r.(summary_json) |}.

(** The audit row of a result, when the result is there. *)
Definition audit_result_of (i : AuditEventInput) (a : option jstr) (now : Z) : M unit :=
  match a with
  | Some a =>
      do! d := getdb in
      match auditRefFor a d with
      | Some ref => addAuditEvent i (audit_ref ref) now
      | None => mreturn tt
      end
  | None => mreturn tt
  end.

(** ** What both settlements share *)

Inductive SettleKind : Set := settle_confirmed | settle_cancelled | settle_expired.
#[export] Instance settle_kind_dec : EqDecision SettleKind.
Proof. solve_decision. Defined.

Definition stored_action_name (operation : jsval) : jstr :=
  match prop (u "actionName") operation with VStr (c :: s) => c :: s | _ => u "confirmed_write" end.

(** [mutationPlan.maxHostCalls], which plans hold as an integer. *)
Definition reserved_for_plan (operation : jsval) : Z :=
  match prop (u "maxHostCalls") (prop (u "mutationPlan") operation) with VNum (NumInt n) => n | _ => 0 end.

Definition withdrawn_receipt (k : SettleKind) (action : jstr) : jsval :=
  let cancelled := bool_decide (k = settle_cancelled) in
  VObj [(u "kind", VStr (u "receipt"));
        (u "receipt", VObj
          [(u "ok", VBool false); (u "action", VStr action);
           (u "code", VStr (u (if cancelled then "preview_cancelled" else "preview_expired")));
           (u "message", VStr (u (if cancelled then "The preview was cancelled. No change was made."
                                  else "The preview expired. No change was made.")))])].

(** The bounded result of a preview that was withdrawn. *)
Definition record_withdrawn (k : SettleKind) (workspace admin session action op : jstr) (now : Z) (uuid : jstr) : M jstr :=
  do! ref := recordActionResult None workspace admin (Some session) action definitive_failed
    (withdrawn_receipt k action) now uuid in
  do! _ := settleOperationRun op definitive_failed (Some ref.(ref_id)) now in
  mreturn ref.(ref_id).

Definition waiting_run (x : AssistantRunScope) (d : db) : option RunState :=
  s ← getRun x d; if bool_decide (s.(state_phase) = RunBudget.phase_awaiting_confirmation) then Some s else None.

Definition settled_state (s : RunState) (reserved : Z) (l : list CompletedToolResult) : RunState :=
  state_with s s.(state_phase) s.(state_continuation) (with_reserved reserved s.(state_budget)) l.

Definition confirmation_call (pid : jstr) : jstr := u "confirmation-" ++ pid.

(** ** One preview *)

Definition record_scope (r : PendingConfirmationRecord) (run : jstr) (g : Z) : AssistantRunScope :=
  {| scope_session := r.(sessionId); scope_run := run; scope_workspace := r.(workspaceId);
     scope_admin := r.(adminUserId); scope_generation := g; scope_auth := addon |}.

(** The scope of the run a preview belongs to. *)
Definition preview_run (r : PendingConfirmationRecord) : option AssistantRunScope :=
  match column r.(discriminators).(Db.run_id), r.(installationGeneration) with
  | Some run, Some g => if safe_generation (Some g) then Some (record_scope r run g) else None
  | _, _ => None
  end.

Definition withdraw (r : PendingConfirmationRecord) (k : SettleKind) (now : Z) (blob : jstr) : M unit :=
  match k with
  | settle_confirmed => mreturn tt
  | settle_cancelled => do! _ := cancelConfirmation r.(Confirmations.id) now blob in mreturn tt
  | settle_expired =>
      if bool_decide (r.(Confirmations.status) = PPending)
      then do! _ := expireConfirmation r.(Confirmations.id) now blob in mreturn tt else mreturn tt
  end.

(** The result the run reports: the given one, or a new one of a withdrawn preview. *)
Definition settlement_result (r : PendingConfirmationRecord) (k : SettleKind) (a : option jstr) (now : Z)
    (blob uuid : jstr) : M (option jstr) :=
  if bool_decide (k = settle_confirmed) then mreturn a
  else
    do! _ := withdraw r k now blob in
    do! b := record_withdrawn k r.(workspaceId) r.(adminUserId) r.(sessionId) (stored_action_name r.(operation))
      r.(operationId) now uuid in
    mreturn (Some b).

Definition linked_results (s : RunState) (pid action : jstr) (a : option jstr) : list CompletedToolResult :=
  s.(state_completed) ++
  match a with
  | Some a => [{| completed_call := confirmation_call pid; completed_action := action; completed_result := a |}]
  | None => []
  end.

Definition settleV2ConfirmationRun (r : PendingConfirmationRecord) (k : SettleKind) (given : option jstr) (now : Z)
    (blob uuid : jstr) : M bool :=
  match preview_run r with
  | None => mreturn false
  | Some x =>
      do! d := getdb in
      match waiting_run x d with
      | None => mreturn false
      | Some s =>
          let action := stored_action_name r.(operation) in
          do! a := settlement_result r k given now blob uuid in
          let reserved := Z.max 0 (RunBudget.hostCallsReserved s.(state_budget) - reserved_for_plan r.(operation)) in
          do! _ := completeRunAfterConfirmationWithEvents x
            (settled_state s reserved (linked_results s r.(Confirmations.id) action a))
            r.(operationId) r.(Confirmations.id) (bool_decide (k = settle_confirmed)) a now in
          do! _ := audit_result_of {| audited_workspace := r.(workspaceId); audited_admin := r.(adminUserId);
            audited_session := Some r.(sessionId); audited_action := action; audited_risk := r.(risk) |} a now in
          mreturn true
      end
  end.

(** ** A batch *)

Definition batch_scope (b : BatchRow) (g : Z) : AssistantRunScope :=
  {| scope_session := b.(batch_session); scope_run := b.(batch_run); scope_workspace := b.(batch_workspace);
     scope_admin := b.(batch_admin); scope_generation := g; scope_auth := addon |}.

(** One member: the result of its operation, if it has one by now. *)
Definition settle_member (b : BatchRow) (k : SettleKind) (now : Z) (blob uuid : jstr → jstr) (i : BatchItemRow)
    : M (option jstr) :=
  do! record := getPendingConfirmation i.(item_confirmation) now (blob i.(item_confirmation)) in
  let known := match i.(item_result_id) with
               | Some a => Some a
               | None => r ← record; r.(actionResultId)
               end in
  match record with
  | Some r =>
      if negb (bool_decide (k = settle_confirmed)) && bool_decide (r.(Confirmations.status) = PPending) then
        do! _ := (if bool_decide (k = settle_cancelled)
                  then cancelConfirmation i.(item_confirmation) now (blob i.(item_confirmation))
                  else expireConfirmation i.(item_confirmation) now (blob i.(item_confirmation))) in
        do! a := record_withdrawn k b.(batch_workspace) b.(batch_admin) b.(batch_session)
          (stored_action_name r.(operation)) i.(item_operation) now (uuid i.(item_confirmation)) in
        mreturn (Some a)
      else mreturn known
  | None => mreturn known
  end.
Fixpoint settle_members (b : BatchRow) (k : SettleKind) (now : Z) (blob uuid : jstr → jstr) (l : list BatchItemRow)
    : M (list (BatchItemRow * option jstr)) :=
  match l with
  | [] => mreturn []
  | i :: l' =>
      do! a := settle_member b k now blob uuid i in
      do! rest := settle_members b k now blob uuid l' in mreturn ((i, a) :: rest)
  end.

Definition member_links (l : list (BatchItemRow * option jstr)) : list CompletedToolResult :=
  omap (λ m, a ← m.2; Some {| completed_call := confirmation_call m.1.(item_confirmation);
                              completed_action := u "confirmed_write"; completed_result := a |}) l.

(** [record?.operation?.actionName ?? "confirmed_write"], read after the settlement. *)
Definition audited_name (record : option PendingConfirmationRecord) : jstr :=
  match record with
  | Some r => match prop (u "actionName") r.(operation) with VStr s => s | _ => u "confirmed_write" end
  | None => u "confirmed_write"
  end.
Definition audit_member (b : BatchRow) (now : Z) (blob : jstr → jstr) (m : BatchItemRow * option jstr) : M unit :=
  match m.2 with
  | Some a =>
      do! d := getdb in
      match auditRefFor a d with
      | Some ref =>
          do! record := getPendingConfirmation m.1.(item_confirmation) now (blob m.1.(item_confirmation)) in
          addAuditEvent {| audited_workspace := b.(batch_workspace); audited_admin := b.(batch_admin);
            audited_session := Some b.(batch_session); audited_action := audited_name record;
            audited_risk := match record with Some r => r.(risk) | None => VArr [] end |} (audit_ref ref) now
      | None => mreturn tt
      end
  | None => mreturn tt
  end.

Definition closed_batch_status (k : SettleKind) : BatchStatus :=
  match k with settle_expired => BExpired | _ => BCancelled end.

Definition settle_batch_run (id : jstr) (b : BatchRow) (items : list BatchItemRow) (x : AssistantRunScope)
    (s : RunState) (k : SettleKind) (now : Z) (blob uuid : jstr → jstr) : M bool :=
  do! settled := settle_members b k now blob uuid items in
  do! _ := (if negb (bool_decide (k = settle_confirmed)) && batch_is BPending b
            then updateConfirmationBatchStatus id (closed_batch_status k)
                   {| patch_index := None; patch_result := None; patch_started := None; Batches.patch_completed := Some now |}
            else mreturn true) in
  do! _ := completeRunAfterBatchWithEvents x (settled_state s 0 (s.(state_completed) ++ member_links settled))
    ((λ m, (m.1.(item_operation), m.2)) <$> settled) now in
  do! _ := for_each settled (audit_member b now blob) in
  mreturn true.

Definition settleV2ConfirmationBatchRun (id : jstr) (k : SettleKind) (now : Z) (blob uuid : jstr → jstr) : M bool :=
  do! d := getdb in
  match getConfirmationBatch id d, listConfirmationBatchItems id d with
  | Some b, i :: items =>
      do! first := getPendingConfirmation i.(item_confirmation) now (blob i.(item_confirmation)) in
      match first ≫= λ r, r.(installationGeneration) with
      | Some g =>
          if safe_generation (Some g) then
            do! d := getdb in
            match waiting_run (batch_scope b g) d with
            | Some s => settle_batch_run id b (i :: items) (batch_scope b g) s k now blob uuid
            | None => mreturn false
            end
          else mreturn false
      | None => mreturn false
      end
  | _, _ => mreturn false
  end.
