(* ===== verification/SettleLife.v ===== *)
(** * A run waiting for a confirmation is settled once

    What [settleV2ConfirmationRun] and [settleV2ConfirmationBatchRun] write to the journal
    and to the audit log, and that a second call of either writes nothing to them. *)
From S2P Require Import Prelude Js SafeJson ActionResults SessionTables RunTables RunEvents Confirmations Db Discriminators Plan Journal Store ConfirmStore Batches BatchLife RunStore RunLife RunSettle.
From S2P Require RunBudget.
Open Scope Z_scope.
#[local] Arguments u : simpl never.
#[local] Existing Instance RunBudget.RunPhase_dec.

(** ** What the statements keep *)

Section Keeping.
Context {T : Type} (f : db → T).

#[export] Instance keeps_insert_audit `{!Ignores set_session_tables f} r : Keeps f (insert_audit r).
Proof. intros d b d' H. unfold insert_audit in H. destruct (_ <? _); [done|]. injection H as _ <-. apply ignores. Qed.
#[export] Instance keeps_get_pending
    `{!Ignores set_confirmations f, !Ignores set_runs f, !Ignores set_results f} pid now blob :
  Keeps f (getPendingConfirmation pid now blob).
Proof. unfold getPendingConfirmation. solve_keeps. Qed.
#[export] Instance keeps_withdrawn `{!Ignores set_runs f, !Ignores set_results f} k w a s n op now uuid :
  Keeps f (record_withdrawn k w a s n op now uuid).
Proof. unfold record_withdrawn, recordActionResult, settleOperationRun. solve_keeps. Qed.
#[export] Instance keeps_settlement
    `{!Ignores set_confirmations f, !Ignores set_runs f, !Ignores set_results f} r k a now blob uuid :
  Keeps f (settlement_result r k a now blob uuid).
Proof. unfold settlement_result, withdraw, cancelConfirmation, expireConfirmation. solve_keeps. Qed.
#[export] Instance keeps_settle_members
    `{!Ignores set_confirmations f, !Ignores set_runs f, !Ignores set_results f} b k now blob uuid l :
  Keeps f (settle_members b k now blob uuid l).
Proof.
  induction l as [|i l IH]; simpl; [apply _|]. apply keeps_then; [|intros a; solve_keeps].
  unfold settle_member, cancelConfirmation, expireConfirmation. solve_keeps.
Qed.
End Keeping.

Definition audits (d : db) : list AuditRow := d.(session_tables).(audit_events).

Lemma same_tables d d' : d'.(run_tables) = d.(run_tables) → same_journal d d'.
Proof. intros E. unfold same_journal. by rewrite E. Qed.

(** The commands of a run write nothing else. *)
#[export] Instance keeps_after_confirmation {T} (f : db → T) `{!Ignores set_run_tables f} x s o c b r now :
  Keeps f (completeRunAfterConfirmationWithEvents x s o c b r now).
Proof. unfold completeRunAfterConfirmationWithEvents. solve_keeps. Qed.
#[export] Instance keeps_after_batch {T} (f : db → T) `{!Ignores set_run_tables f} x s l now :
  Keeps f (completeRunAfterBatchWithEvents x s l now).
Proof.
  unfold completeRunAfterBatchWithEvents. apply keeps_then; [|solve_keeps].
  induction l as [|[o [a|]] l IH]; simpl; solve_keeps.
Qed.

(** ** One preview *)

(** A run the journal knows to be over waits for nothing. *)
Lemma completed_not_waiting x d r :
  abstract d (key_of_scope x) = Some r → r.(a_phase) = RunBudget.phase_completed → waiting_run x d = None.
Proof.
  intros Ha Hp. unfold waiting_run, getRun, scoped_run, abstract, key_of_scope in *.
  destruct (assistant_runs _ !! _) as [row|]; [|done]. injection Ha as <-. simpl in Hp. simpl.
  destruct (in_run_scope x row); [|done]. simpl. by rewrite Hp, bool_decide_eq_false_2.
Qed.

Lemma waiting_ext x d d' : d'.(run_tables) = d.(run_tables) → waiting_run x d = None → waiting_run x d' = None.
Proof.
  intros E. unfold waiting_run, getRun, scoped_run. rewrite E. destruct (assistant_runs _ !! _) as [row|]; [|done]. simpl.
  destruct (in_run_scope x row); [|done]. simpl. by case_bool_decide.
Qed.

(** The events of a settlement. *)
Definition settlement_events (r : PendingConfirmationRecord) (k : SettleKind) (a : option jstr) : list RunEventPayload :=
  command_events (CCompleteConfirmation r.(operationId) r.(Confirmations.id) (bool_decide (k = settle_confirmed)) a).

(** The audit log after a settlement: one more row when the settlement has a stored result,
    and none otherwise. *)
Definition audited (i : AuditEventInput) (a : option jstr) (now : Z) (before : list AuditRow) (d : db) : Prop :=
  match a ≫= λ a, d.(action_results) !! a with
  | Some x =>
      ∃ s, json_column x.(summary_json) = Ok s ∧ Some (audits d) = (λ a, before ++
        [{| audit_workspace := i.(audited_workspace); audit_admin := i.(audited_admin);
            audit_session := i.(audited_session); audit_action := i.(audited_action);
            audit_risk := i.(audited_risk); audit_result := a; audit_summary := s; audit_created_at := now |}]) <$> a
  | None => audits d = before
  end.

Lemma audited_ok i a now d v d' :
  audit_result_of i a now d = Ok (v, d') →
  audited i a now (audits d) d' ∧ d'.(run_tables) = d.(run_tables) ∧ d'.(action_results) = d.(action_results).
Proof.
  intros H. unfold audit_result_of, audited in *. destruct a as [a|]; simpl; [|by injection H as _ <-].
  apply mthen_ok in H as (y & d1 & [= <- <-] & H). unfold auditRefFor in H.
  destruct (d.(action_results) !! a) as [x|] eqn:Hx; simpl in H; [|injection H as _ <-; by rewrite Hx].
  unfold addAuditEvent in H. apply mthen_ok in H as (y & d1 & [= <- <-] & H). apply mthen_ok in H as (s & d2 & [Hs ->]%lift_ok & H).
  unfold insert_audit in H. destruct (_ <? _); [done|]. injection H as _ <-. simpl. rewrite Hx. split; [|done].
  exists s. by split.
Qed.

Definition audit_of (r : PendingConfirmationRecord) : AuditEventInput :=
  {| audited_workspace := r.(workspaceId); audited_admin := r.(adminUserId); audited_session := Some r.(sessionId);
     audited_action := stored_action_name r.(operation); audited_risk := r.(risk) |}.

(** The result of a withdrawn preview: a certain failure that says which. *)
Definition withdrawn_row (r : PendingConfirmationRecord) (k : SettleKind) (x : ActionResultRow) : Prop :=
  x.(result_workspace_id) = r.(workspaceId) ∧ x.(result_admin_user_id) = r.(adminUserId) ∧
  x.(result_session_id) = Some r.(sessionId) ∧ x.(result_kind) = definitive_failed ∧
  json_value (withdrawn_receipt k (stored_action_name r.(operation))) = Some x.(result_json).

Lemma withdrawn_result r k given now blob uuid d a d' :
  k ≠ settle_confirmed → settlement_result r k given now blob uuid d = Ok (a, d') →
  a = Some uuid ∧ ∃ x, d'.(action_results) !! uuid = Some x ∧ withdrawn_row r k x.
Proof.
  intros Hk H. unfold settlement_result in H. rewrite bool_decide_eq_false_2 in H by done.
  apply mthen_ok in H as (y1 & e1 & _ & H). apply mthen_ok in H as (a2 & e2 & H & [= <- <-]).
  unfold record_withdrawn in H. apply mthen_ok in H as (ref & e3 & H & H2). apply mthen_ok in H2 as (y & e4 & H2 & [= <- <-]).
  pose proof (keeps (f := action_results) _ _ _ H2) as R. unfold recordActionResult in H.
  apply mthen_ok in H as (st & f1 & [Hst ->]%lift_ok & H). apply mthen_ok in H as (su & f2 & [_ ->]%lift_ok & H).
  apply mthen_ok in H as (ss & f3 & [_ ->]%lift_ok & H). apply mthen_ok in H as (z & f4 & Hi & [= <- <-]).
  apply insert_result_ok in Hi as (_ & _ & _ & E). split; [done|]. eexists. rewrite R, E. simpl. rewrite lookup_insert_eq.
  split; [done|]. unfold actionResultJson, jsonClone in Hst.
  destruct (json_value (withdrawn_receipt _ _)) as [w|] eqn:Ew; [|done]. injection Hst as ->.
  exact (conj eq_refl (conj eq_refl (conj eq_refl (conj eq_refl Ew)))).
Qed.

Lemma settle_run_ok r k given now blob uuid d b d' :
  settleV2ConfirmationRun r k given now blob uuid d = Ok (b, d') →
  (b = false ∧ d' = d ∧ ∀ x, preview_run r = Some x → waiting_run x d = None) ∨
  (b = true ∧ ∃ x a d1, preview_run r = Some x ∧ waiting_run x d ≠ None ∧
     (if decide (k = settle_confirmed) then a = given else a ≠ None) ∧
     moves x (abstract_command RunBudget.phase_completed (settlement_events r k a)) d d1 ∧
     audits d1 = audits d ∧ d'.(run_tables) = d1.(run_tables) ∧
     audited (audit_of r) a now (audits d) d' ∧
     (k ≠ settle_confirmed → a = Some uuid ∧ ∃ x, d'.(action_results) !! uuid = Some x ∧ withdrawn_row r k x)).
Proof.
  intros H. unfold settleV2ConfirmationRun in H. destruct (preview_run r) as [x|] eqn:Hx;
    [|injection H as <- <-; left; split_and!; [done|done|done]].
  apply mthen_ok in H as (y & d0 & [= <- <-] & H). destruct (waiting_run x d) as [s|] eqn:Hw;
    [|injection H as <- <-; left; split_and!; [done|done|by intros y [= <-]]].
  right. cbv zeta in H. apply mthen_ok in H as (a & d1 & H1 & H). apply mthen_ok in H as (e & d2 & H2 & H).
  apply mthen_ok in H as (v & d3 & H3 & [= <- <-]). split; [done|]. exists x, a, d2.
  pose proof (keeps (f := run_tables) _ _ _ H1) as E1. pose proof (keeps (f := audits) _ _ _ H1) as A1.
  pose proof (keeps (f := audits) _ _ _ H2) as A2. pose proof (keeps (f := action_results) _ _ _ H2) as R2.
  apply audited_ok in H3 as (A3 & E3 & R3).
  split; [done|]. split; [by rewrite Hw|]. split; [|split; [|split; [by rewrite A2, A1|split; [done|split; [by rewrite <-A1, <-A2|]]]]].
  - unfold settlement_result in H1. destruct (decide (k = settle_confirmed)) as [->|Hk].
    + rewrite bool_decide_eq_true_2 in H1 by done. by injection H1 as <- _.
    + rewrite bool_decide_eq_false_2 in H1 by done. apply mthen_ok in H1 as (y1 & e1 & _ & H1).
      apply mthen_ok in H1 as (y2 & e2 & _ & [= <- _]). done.
  - eapply moves_after; [by apply same_tables|].
    eapply (command_moves x (settled_state s _ _) (CCompleteConfirmation r.(operationId) r.(Confirmations.id) _ a) now).
    unfold run_command, ignore_result, mthen. rewrite H2. reflexivity.
  - intros Hk. apply (withdrawn_result r k given now blob uuid) in H1 as [-> (y & Hy & Hrow)]; [|done].
    split; [done|]. exists y. by rewrite R3, R2.
Qed.

(** ** A batch *)

(** The members settled, in order, with the result each has. *)
Definition batch_events (l : list (BatchItemRow * option jstr)) : list RunEventPayload :=
  command_events (CCompleteBatch ((λ m, (m.1.(item_operation), m.2)) <$> l)).

Lemma settle_members_fst b k now blob uuid l d s d' : settle_members b k now blob uuid l d = Ok (s, d') → s.*1 = l.
Proof.
  revert d s d'. induction l as [|i l IH]; intros d s d' H; simpl in H; [by injection H as <- _|].
  apply mthen_ok in H as (a & d1 & _ & H). apply mthen_ok in H as (rest & d2 & H2 & [= <- _]).
  rewrite fmap_cons. simpl. f_equal. by eapply IH.
Qed.

#[local] Instance keeps_audit_member {T} (f : db → T)
    `{!Ignores set_confirmations f, !Ignores set_runs f, !Ignores set_results f, !Ignores set_session_tables f} b now blob m :
  Keeps f (audit_member b now blob m).
Proof. unfold audit_member, addAuditEvent. solve_keeps. Qed.

(** What an audit row of a batch always says. *)
Definition batch_audit (b : BatchRow) (a : jstr) (r : AuditRow) : Prop :=
  r.(audit_workspace) = b.(batch_workspace) ∧ r.(audit_admin) = b.(batch_admin) ∧
  r.(audit_session) = Some b.(batch_session) ∧ r.(audit_result) = a.

(** One row for every member with a stored result. *)
Lemma audit_members_ok b now blob l d v d' :
  for_each l (audit_member b now blob) d = Ok (v, d') →
  ∃ rows, audits d' = audits d ++ rows ∧
    (∀ row, row ∈ rows → ∃ m a, m ∈ l ∧ m.2 = Some a ∧ batch_audit b a row) ∧
    ((∀ m a, m ∈ l → m.2 = Some a → is_Some (d.(action_results) !! a)) → Forall2 (batch_audit b) (omap snd l) rows).
Proof.
  revert d. induction l as [|m l IH]; intros d H; simpl in H.
  { injection H as _ <-. exists []. rewrite app_nil_r. split_and!; [done|by intros row ?%elem_of_nil|constructor]. }
  apply mthen_ok in H as (y & d1 & H1 & H2). destruct (IH _ H2) as (rows & E & Hrows & Hall).
  assert (∃ new, audits d1 = audits d ++ new ∧ (∀ row, row ∈ new → ∃ a, m.2 = Some a ∧ batch_audit b a row) ∧
    (∀ a r, m.2 = Some a → d.(action_results) !! a = Some r → ∃ row, new = [row] ∧ batch_audit b a row) ∧
    (m.2 = None → new = []) ∧ ∀ a, is_Some (d.(action_results) !! a) → is_Some (d1.(action_results) !! a))
    as (new & En & Hnew & Hone & Hnone & Hgrow).
  { unfold audit_member in H1. destruct m as [i [a|]]; simpl in *.
    - apply mthen_ok in H1 as (y1 & e1 & [= <- <-] & H1). unfold auditRefFor in H1.
      destruct (d.(action_results) !! a) as [r|] eqn:Hr; simpl in H1.
      + apply mthen_ok in H1 as (record & e2 & G & H1). pose proof (keeps (f := audits) _ _ _ G) as A.
        unfold addAuditEvent in H1. apply mthen_ok in H1 as (y3 & e4 & [= <- <-] & H1).
        apply mthen_ok in H1 as (su & e3 & [_ ->]%lift_ok & H1).
        unfold insert_audit in H1. destruct (_ <? _); [done|]. injection H1 as _ <-.
        eexists [_]. unfold audits in *. simpl. rewrite A. split_and!; [done| | |done|].
        * intros row ->%list_elem_of_singleton. by exists a.
        * intros a2 r2 [= <-] _. by eexists.
        * intros a2 [r2 H2a]. exists r2.
          assert (Preserves (has_result a2 r2) (getPendingConfirmation i.(item_confirmation) now (blob i.(item_confirmation)))) as P
            by (unfold getPendingConfirmation; solve_preserves).
          by eapply (P _ _ _ G).
      + injection H1 as _ <-. exists []. rewrite app_nil_r. split_and!; [done|by intros row ?%elem_of_nil| |done|done].
        intros a2 r2 [= <-]. congruence.
    - injection H1 as _ <-. exists []. rewrite app_nil_r. split_and!; [done|by intros row ?%elem_of_nil|done|done|done]. }
  exists (new ++ rows). split_and!.
  - by rewrite E, En, <-app_assoc.
  - intros row [Hin|Hin]%elem_of_app.
    + destruct (Hnew row Hin) as (a & Ha & Hb). exists m, a. split_and!; [apply list_elem_of_here|done|done].
    + destruct (Hrows row Hin) as (m2 & a & Hm & Ha). exists m2, a. split; [by apply list_elem_of_further|done].
  - intros Hd. assert (Forall2 (batch_audit b) (omap snd l) rows) as Hrest.
    { apply Hall. intros m2 a Hm Ha. apply Hgrow. apply (Hd m2 a); [by apply list_elem_of_further|done]. }
    simpl. destruct m as [i [a|]]; simpl in *; [|by rewrite (Hnone eq_refl)].
    destruct (Hd _ a (list_elem_of_here _ _) eq_refl) as [r Hr]. destruct (Hone a r eq_refl Hr) as (row & -> & Hb). by constructor.
Qed.

Lemma settle_batch_ok id b items x s k now blob uuid d v d' :
  settle_batch_run id b items x s k now blob uuid d = Ok (v, d') →
  v = true ∧ ∃ settled d1 rows, settled.*1 = items ∧
    moves x (abstract_command RunBudget.phase_completed (batch_events settled)) d d1 ∧ same_journal d1 d' ∧
    audits d' = audits d ++ rows ∧ (∀ row, row ∈ rows → ∃ m a, m ∈ settled ∧ m.2 = Some a ∧ batch_audit b a row) ∧
    ((∀ m a, m ∈ settled → m.2 = Some a → is_Some (d1.(action_results) !! a)) →
     Forall2 (batch_audit b) (omap snd settled) rows).
Proof.
  intros H. unfold settle_batch_run in H. apply mthen_ok in H as (settled & d1 & H1 & H).
  apply mthen_ok in H as (c & d2 & H2 & H). apply mthen_ok in H as (e & d3 & H3 & H).
  apply mthen_ok in H as (w & d4 & H4 & [= <- <-]). split; [done|].
  destruct (audit_members_ok _ _ _ _ _ _ _ H4) as (rows & Er & Hrows & Hall).
  assert (d1.(run_tables) = d.(run_tables)) as E1 by exact (keeps (f := run_tables) _ _ _ H1).
  assert (audits d1 = audits d) as A1 by exact (keeps (f := audits) _ _ _ H1).
  set (upd := if negb (bool_decide (k = settle_confirmed)) && batch_is BPending b
              then updateConfirmationBatchStatus id (closed_batch_status k) _ else mreturn true) in *.
  assert (same_journal d1 d2 ∧ audits d2 = audits d1) as (S2 & A2).
  { unfold upd in H2. destruct (_ && _); [|by injection H2 as _ <-]. unfold updateConfirmationBatchStatus in H2.
    split_and!.
    - unfold update_batch in H2. repeat case_match; simplify_eq; done.
    - exact (keeps (f := audits) _ _ _ H2). }
  assert (audits d3 = audits d2) as A3 by exact (keeps (f := audits) _ _ _ H3).
  assert (Keeps run_tables (for_each settled (audit_member b now blob))) as K4 by apply _.
  pose proof (K4 _ _ _ H4) as E4.
  exists settled, d3, rows. split_and!.
  - by eapply settle_members_fst.
  - eapply moves_after; [by apply same_tables|]. eapply moves_after; [exact S2|].
    eapply (command_moves x (settled_state s _ _) (CCompleteBatch _) now).
    unfold run_command, ignore_result, mthen. rewrite H3. reflexivity.
  - by apply same_tables.
  - by rewrite Er, A3, A2, A1.
  - done.
  - done.
Qed.

Lemma settle_batch_call id k now blob uuid d v d' :
  settleV2ConfirmationBatchRun id k now blob uuid d = Ok (v, d') →
  (v = false ∧ d'.(run_tables) = d.(run_tables) ∧ audits d' = audits d) ∨
  (∃ b i items g d0 s, getConfirmationBatch id d = Some b ∧ listConfirmationBatchItems id d = i :: items ∧
     d0.(run_tables) = d.(run_tables) ∧ audits d0 = audits d ∧ waiting_run (batch_scope b g) d0 = Some s ∧
     settle_batch_run id b (i :: items) (batch_scope b g) s k now blob uuid d0 = Ok (v, d')).
Proof.
  intros H. unfold settleV2ConfirmationBatchRun in H. apply mthen_ok in H as (y & d0 & [= <- <-] & H).
  destruct (getConfirmationBatch id d) as [b|] eqn:Hb; [|injection H as <- <-; by left].
  destruct (listConfirmationBatchItems id d) as [|i items] eqn:Hi; [injection H as <- <-; by left|].
  apply mthen_ok in H as (first & d0 & H0 & H). pose proof (keeps (f := run_tables) _ _ _ H0) as E.
  pose proof (keeps (f := audits) _ _ _ H0) as A.
  destruct (first ≫= _) as [g|]; [|injection H as <- <-; by left].
  destruct (safe_generation (Some g)); [|injection H as <- <-; by left].
  apply mthen_ok in H as (y & d2 & [= <- <-] & H). destruct (waiting_run _ d0) as [s|] eqn:Hw; [|injection H as <- <-; by left].
  right. by exists b, i, items, g, d0, s.
Qed.

(** A batch whose run does not wait writes nothing to the journal or to the audit log. *)
Lemma batch_finds_nothing id b k now blob uuid d v d' :
  (∀ g, waiting_run (batch_scope b g) d = None) → getConfirmationBatch id d = Some b →
  settleV2ConfirmationBatchRun id k now blob uuid d = Ok (v, d') →
  v = false ∧ d'.(run_tables) = d.(run_tables) ∧ audits d' = audits d.
Proof.
  intros Hdone Hb [Hf|(b2 & i & items & g & d2 & s & Hb2 & _ & E & _ & Hw & _)]%settle_batch_call; [done|].
  exfalso. assert (b2 = b) as -> by congruence. by rewrite (waiting_ext _ d d2 E (Hdone g)) in Hw.
Qed.


(** A run waiting for a Confirm-all batch is settled exactly once.  A settlement either
    leaves the journal and the audit log as they were, or completes the run with one event
    per member in order, and writes audit rows only for the members that have a result, each
    under the batch's own binding, one for every member whose result is stored; no later
    settlement of a batch or of a preview of that run writes to the journal or to the
    audit log again. *)
Theorem settle_batch_once id k now blob uuid d v d' :
  journal_ok d → settleV2ConfirmationBatchRun id k now blob uuid d = Ok (v, d') →
  if v then
    ∃ b g settled d1 rows, getConfirmationBatch id d = Some b ∧ settled.*1 = listConfirmationBatchItems id d ∧
      journal_ok d' ∧
      updates (batch_scope b g) (abstract_command RunBudget.phase_completed (batch_events settled)) (abstract d) (abstract d') ∧
      audits d' = audits d ++ rows ∧ (∀ row, row ∈ rows → ∃ m a, m ∈ settled ∧ m.2 = Some a ∧ batch_audit b a row) ∧
      ((∀ m a, m ∈ settled → m.2 = Some a → is_Some (d1.(action_results) !! a)) →
       Forall2 (batch_audit b) (omap snd settled) rows) ∧
      (∀ r2 x2 k2 given2 now2 blob2 uuid2, preview_run r2 = Some x2 → key_of_scope x2 = key_of_scope (batch_scope b g) →
         settleV2ConfirmationRun r2 k2 given2 now2 blob2 uuid2 d' = Ok (false, d')) ∧
      (∀ id2 b2 k2 now2 blob2 uuid2 v2 d2, getConfirmationBatch id2 d' = Some b2 →
         (∀ g2, key_of_scope (batch_scope b2 g2) = key_of_scope (batch_scope b g)) →
         settleV2ConfirmationBatchRun id2 k2 now2 blob2 uuid2 d' = Ok (v2, d2) →
         v2 = false ∧ d2.(run_tables) = d'.(run_tables) ∧ audits d2 = audits d')
  else d'.(run_tables) = d.(run_tables) ∧ audits d' = audits d.
Proof.
  intros Hok [(-> & E & A)|(b & i & items & g & d0 & s & Hb & Hi & E0 & A0 & Hw & H)]%settle_batch_call; [done|].
  apply settle_batch_ok in H as (-> & settled & d1 & rows & Hf & M & S & A & Hrows & Hall).
  assert (moves (batch_scope b g) (abstract_command RunBudget.phase_completed (batch_events settled)) d d1) as M'
    by (eapply moves_after; [by apply same_tables|exact M]).
  destruct (M' Hok) as (Hok1 & run & Hrun & Hk).
  assert (∀ x2, key_of_scope x2 = key_of_scope (batch_scope b g) → waiting_run x2 d' = None) as Hdone.
  { intros x2 Hx2. eapply completed_not_waiting.
    - rewrite (same_journal_abstract _ _ _ S), Hk. by rewrite decide_True.
    - done. }
  exists b, g, settled, d1, rows. rewrite Hi. split_and!; [done|done|by eapply same_journal_ok| |by rewrite A, A0|done|done| |].
  - exists run. split; [done|]. intros k'. by rewrite (same_journal_abstract _ _ _ S).
  - intros r2 x2 k2 given2 now2 blob2 uuid2 Hx2 Hkey. unfold settleV2ConfirmationRun. rewrite Hx2. unfold mthen, getdb.
    by rewrite Hdone.
  - intros id2 b2 k2 now2 blob2 uuid2 v2 d2 Hb2 Hkey H2.
    exact (batch_finds_nothing _ _ _ _ _ _ _ _ _ (λ g, Hdone _ (Hkey g)) Hb2 H2).
Qed.

(** ** A waiting run *)

Definition waiting_demo : AssistantRunRow :=
  {| arun_workspace := u "w"; arun_admin := u "a"; arun_generation := 1; arun_auth := addon;
     original_request := u "delete the tags"; arun_request_hash := replicate 64 97%N;
     phase := RunBudget.phase_awaiting_confirmation; arun_catalog_hash := replicate 64 97%N; loaded_tool_names := [];
     used_tool_names := []; continuation := continue_none; budget_json := RunBudget.createEmptyRunBudget;
     unfinished_operations := VArr []; arun_created_at := 0; arun_updated_at := 0 |}.
Definition waiting_db : db :=
  set_run_tables (set_aruns {[ (u "s", u "r") := waiting_demo ]} batched_db.(run_tables)) batched_db.
Lemma waiting_journal_ok : journal_ok waiting_db.
Proof.
  split; [by intros k i e|by intros e ?%elem_of_nil|].
  intros session run1 run2 r1 r2 H1 H2 _ _.
  assert (∀ run r, waiting_db.(run_tables).(assistant_runs) !! (session, run) = Some r → run = u "r")
    as Hone.
  { intros run r H. change (({[ (u "s", u "r") := waiting_demo ]} : gmap (jstr * jstr) AssistantRunRow) !! (session, run) = Some r) in H.
    apply lookup_singleton_Some in H as [H _]. congruence. }
  by rewrite (Hone _ _ H1), (Hone _ _ H2).
Qed.

Definition waiting_preview : option PendingConfirmationRecord :=
  match getPendingConfirmation (u "c1") 200 (u "blob") waiting_db with Ok (r, _) => r | Throw _ => None end.
Definition cancel_preview (r : PendingConfirmationRecord) : result (bool * db) :=
  settleV2ConfirmationRun r settle_cancelled None 200 (u "blob") (u "result") waiting_db.
Definition cancelled_db : db :=
  match waiting_preview with
  | Some r => match cancel_preview r with Ok (_, d) => d | Throw _ => waiting_db end
  | None => waiting_db
  end.


Definition cancelled_batch_db : db :=
  match settleV2ConfirmationBatchRun (u "b") settle_cancelled 200 (λ c, c ++ u "blob") (λ c, c ++ u "result") waiting_db with
  | Ok (_, d) => d
  | Throw _ => waiting_db
  end.

Lemma settle_batch_once_witness :
  length (audits cancelled_batch_db) = 2%nat ∧
  (audit_result <$> audits cancelled_batch_db) = [u "c1result"; u "c2result"] ∧ journal_ok cancelled_batch_db.
Proof.
  split; [by vm_compute|]. split; [by vm_compute|].
  destruct (settle_batch_once (u "b") settle_cancelled 200 (λ c, c ++ u "blob") (λ c, c ++ u "result") waiting_db true
              cancelled_batch_db waiting_journal_ok ltac:(by vm_compute)) as (b & g & settled & d1 & rows & _ & _ & Hok & _).
  exact Hok.
Defined.

(** A preview cancelled with its run keeps the result its own cancellation recorded, while
    its operation is moved to the result the run reports. *)
Theorem cancelled_preview_disagrees :
  (run_result_id <$> cancelled_db.(operation_runs) !! u "o1") = Some (Some (u "result")) ∧
  (action_result_id <$> cancelled_db.(pending_confirmations) !! u "c1") = Some (Some (u "blob")).
Proof. by vm_compute. Qed.
