(* ===== verification/Effects.v ===== *)
(** * Failures of host calls and computations that may throw

    The error classes of [clockify/write-outcome.ts], [clockify/request-governor.ts]
    and [clockify/rest/core.ts] that the mutation workflow tells apart, and the monad in
    which its clients are written: state survives an exception, as the heap does
    across a JavaScript [throw]. *)
From S2P Require Import Prelude Js.
#[local] Arguments u : simpl never.

(** ** Error values *)

Inductive failure : Type :=
| DefinitiveWriteFailure (method path message : jstr) (status : option Z)
| AmbiguousWriteOutcome (method path message : jstr) (status : option Z)
| MutationPlanViolation (message : jstr)
| MutationDispatchDenied (denial : jsval)
| HostCallBudgetExceededError (maximum requested : Z)
| HostRequestCancelledError
| OtherError (name message : jstr)   (** any other [Error] *)
| NotAnError (text : jstr).          (** a thrown non-[Error]; [text] is [String(value)] *)

(** The text of an integer. *)
Definition show_int (z : Z) : jstr := show_num (NumInt z).

Definition error_name (e : failure) : jstr :=
  match e with
  | DefinitiveWriteFailure _ _ _ _ => u "DefinitiveWriteFailure"
  | AmbiguousWriteOutcome _ _ _ _ => u "AmbiguousWriteOutcome"
  | MutationPlanViolation _ => u "MutationPlanViolation"
  | MutationDispatchDenied _ => u "MutationDispatchDenied"
  | HostCallBudgetExceededError _ _ => u "HostCallBudgetExceededError"
  | HostRequestCancelledError => u "HostRequestCancelledError"
  | OtherError name _ => name
  | NotAnError _ => u "UnknownError"
  end.

Definition error_message (e : failure) : jstr :=
  match e with
  | DefinitiveWriteFailure _ _ m _ | AmbiguousWriteOutcome _ _ m _ => m
  | MutationPlanViolation m => m
  | MutationDispatchDenied _ => u "mutation_dispatch_denied"
  | HostCallBudgetExceededError maximum requested =>
      u "Clockify host-call budget exceeded (" ++ show_int maximum ++
      u " per turn; requested " ++ show_int requested ++ u ")."
  | HostRequestCancelledError => u "Clockify request was cancelled before dispatch."
  | OtherError _ m => m
  | NotAnError text => text
  end.

(** The failures that stand for a mutation the host did not apply. *)
Definition definitive (e : failure) : bool :=
  match e with
  | DefinitiveWriteFailure _ _ _ _ | MutationDispatchDenied _ | MutationPlanViolation _
  | HostCallBudgetExceededError _ _ | HostRequestCancelledError => true
  | _ => false
  end.

(** ** The monad *)

Definition E (S A : Type) : Type := S → (failure + A) * S.

Section Monad.
Context {S : Type}.

Definition eret {A} (a : A) : E S A := λ s, (inr a, s).
Definition ethrow {A} (e : failure) : E S A := λ s, (inl e, s).
Definition ebind {A B} (c : E S A) (k : A → E S B) : E S B := λ s,
  match c s with
  | (inr a, s') => k a s'
  | (inl e, s') => (inl e, s')
  end.
(** [try { c } catch (e) { h(e) }] *)
Definition etry {A} (c : E S A) (h : failure → E S A) : E S A := λ s,
  match c s with
  | (inl e, s') => h e s'
  | ok => ok
  end.
(** The outcome of [c] as a value. *)
Definition eattempt {A} (c : E S A) : E S (failure + A) := λ s, let '(r, s') := c s in (inr r, s').
Definition eget : E S S := λ s, (inr s, s).
Definition eput (s : S) : E S unit := λ _, (inr tt, s).
Definition eof {A} (r : failure + A) : E S A := λ s, (r, s).

(** ** Composition *)

#[local] Notation "'let*' x := c 'in' k" := (ebind c (fun x => k))
  (at level 10, x pattern, c at level 100, k at level 200) : s2p_scope.

Lemma ebind_at {A B} (c : E S A) (k : A → E S B) s :
  ebind c k s = match c s with (inr a, s') => k a s' | (inl e, s') => (inl e, s') end.
Proof. done. Qed.

Lemma ebind_ok {A B} (c : E S A) (k : A → E S B) s b s2 :
  ebind c k s = (inr b, s2) ↔ ∃ a s1, c s = (inr a, s1) ∧ k a s1 = (inr b, s2).
Proof.
  unfold ebind. destruct (c s) as [[e|a] s1]; split; try naive_solver.
Qed.

Lemma ebind_throw {A B} (c : E S A) (k : A → E S B) s e s2 :
  ebind c k s = (inl e, s2) ↔
  c s = (inl e, s2) ∨ ∃ a s1, c s = (inr a, s1) ∧ k a s1 = (inl e, s2).
Proof.
  unfold ebind. destruct (c s) as [[e'|a] s1]; split; try naive_solver.
Qed.

(** A computation leaves its state related by [R], whether it returns or throws. *)
Definition respects {A} (R : S → S → Prop) (c : E S A) : Prop := ∀ s, R s (c s).2.

Lemma respects_ret {A} (R : S → S → Prop) `{!Reflexive R} (a : A) : respects R (eret a).
Proof. intros s. simpl. reflexivity. Qed.
Lemma respects_throw {A} (R : S → S → Prop) `{!Reflexive R} e : respects R (@ethrow A e).
Proof. intros s. simpl. reflexivity. Qed.
Lemma respects_of {A} (R : S → S → Prop) `{!Reflexive R} (r : failure + A) : respects R (eof r).
Proof. intros s. simpl. reflexivity. Qed.
Lemma respects_get (R : S → S → Prop) `{!Reflexive R} : respects R eget.
Proof. intros s. simpl. reflexivity. Qed.

Lemma respects_bind {A B} (R : S → S → Prop) `{!Transitive R} (c : E S A) (k : A → E S B) :
  respects R c → (∀ a, respects R (k a)) → respects R (ebind c k).
Proof.
  intros Hc Hk s. unfold ebind. specialize (Hc s). destruct (c s) as [[e|a] s1]; [done|].
  simpl in Hc. etrans; [exact Hc|apply Hk].
Qed.

Lemma respects_try {A} (R : S → S → Prop) `{!Transitive R} (c : E S A) h :
  respects R c → (∀ e, respects R (h e)) → respects R (etry c h).
Proof.
  intros Hc Hh s. unfold etry. specialize (Hc s). destruct (c s) as [[e|a] s1]; [|done].
  simpl in Hc. etrans; [exact Hc|apply Hh].
Qed.

Lemma respects_attempt {A} (R : S → S → Prop) (c : E S A) : respects R c → respects R (eattempt c).
Proof. intros Hc s. unfold eattempt. specialize (Hc s). by destruct (c s). Qed.

(** [try { c } finally { fin }] *)
Definition efinally {A} (c : E S A) (fin : E S unit) : E S A :=
  let* out := eattempt c in
  let* _ := fin in
  eof out.

Lemma efinally_exact {A} (c : E S A) fin s :
  (∀ s, ∃ s', fin s = (inr tt, s')) →
  ∃ s', efinally c fin s = ((c s).1, s') ∧ fin (c s).2 = (inr tt, s').
Proof.
  intros Hfin. unfold efinally, ebind, eattempt. destruct (c s) as [out s1]. destruct (Hfin s1) as [s2 Hs].
  exists s2. cbn [fst snd]. by rewrite Hs.
Qed.

(** ** One decisive moment

    A computation that stays within [R] and ends [quiet], or reaches [P] from a state
    within [R]. *)

Section Ends.
Context (R : S → S → Prop) `{!Reflexive R, !Transitive R} {B : Type} (quiet : failure + B → Prop).
Context (P : S → failure + B → S → Prop).

Definition ends_at (c : E S B) (s : S) : Prop :=
  (R s (c s).2 ∧ quiet (c s).1) ∨ ∃ s1, R s s1 ∧ P s1 (c s).1 (c s).2.
Definition ends (c : E S B) : Prop := ∀ s, ends_at c s.

Lemma ends_eret b : quiet (inr b) → ends (eret b).
Proof. intros Hq s. by left. Qed.
Lemma ends_ethrow e : quiet (inl e) → ends (ethrow e).
Proof. intros Hq s. by left. Qed.

(** The rest has to end well only from where the first part leaves off. *)
Lemma ends_bind_at {A} (c : E S A) (k : A → E S B) :
  (∀ e, quiet (inl e)) → respects R c → (∀ a s s1, c s = (inr a, s1) → ends_at (k a) s1) → ends (ebind c k).
Proof.
  intros Hq Hc Hk s. unfold ends_at, ebind. specialize (Hc s).
  destruct (c s) as [[e|a] s1] eqn:E; simpl in Hc; [left; split; [done|apply Hq]|].
  destruct (Hk a s s1 E) as [[HR Hn]|(s2 & HR & HP)].
  - left. split; [by etrans|done].
  - right. exists s2. split; [by etrans|done].
Qed.

Lemma ends_bind {A} (c : E S A) (k : A → E S B) :
  (∀ e, quiet (inl e)) → respects R c → (∀ a s s1, c s = (inr a, s1) → ends (k a)) → ends (ebind c k).
Proof. intros Hq Hc Hk. apply ends_bind_at; [done..|]. intros a s s1 E. by eapply Hk. Qed.
End Ends.
End Monad.

Notation "'let*' x := c 'in' k" := (ebind c (fun x => k))
  (at level 10, x pattern, c at level 100, k at level 200) : s2p_scope.
Notation "'check*' b 'else' e 'in' k" := (if b then k else ethrow e)
  (at level 10, b at level 100, e at level 100, k at level 200) : s2p_scope.

(** Invariants of composed computations are found by their structure. *)
Create HintDb effects.
#[export] Hint Resolve respects_ret respects_throw respects_of respects_get respects_bind respects_try
  respects_attempt : effects.

(** Invert the bindings of a computation that returned. *)
Ltac einv :=
  repeat match goal with
  | H : ebind _ _ _ = (inr _, _) |- _ => apply ebind_ok in H as (? & ? & ? & ?)
  | H : eret _ _ = (inr _, _) |- _ => unfold eret in H; injection H as H; subst
  | H : ethrow _ _ = (inr _, _) |- _ => discriminate H
  end.

(** [respects R c] by the structure of [c], with [tac] for what is not composed. *)
Ltac respects_by tac :=
  repeat match goal with
  | |- respects _ (if ?b then _ else _) => destruct b
  | |- respects _ (ebind _ _) => refine (respects_bind _ _ _ _ (λ a, _))
  | |- respects _ (etry _ _) => refine (respects_try _ _ _ _ (λ e, _))
  | |- respects _ (eattempt _) => apply respects_attempt
  | |- respects _ (match ?x with _ => _ end) => destruct x
  | |- respects _ (eret _) => apply respects_ret, _
  | |- respects _ (ethrow _) => apply respects_throw, _
  | |- respects _ (eof _) => apply respects_of, _
  | |- respects _ eget => apply respects_get, _
  | |- _ => solve [tac]
  end.
