(* ===== verification/WriteAuthority.v ===== *)
(** * Write authority

    [harness/write-authority.ts], [validateWriteAuthorityOperation]: the last check of a
    normalized operation and its exact host plan against the reviewed metadata of its
    action, at proposal and again before the commit.  The plan must match one of the
    declared variants, and every server-derived identifier and default in the operation
    must be declared.  The matcher backtracks over repeated steps; [step_sequence] is what
    it decides. *)
From S2P Require Import Prelude Js SafeJson SafetyLimits.
Open Scope Z_scope.
#[local] Arguments u : simpl never.

(** ** The metadata of an action *)

Record StepRule := { rule_id : jstr; rule_kind : step_kind; rule_min : nat; rule_max : nat }.
Record PlanRule := {
  rule_mode : plan_mode;
  minSteps : Z;
  maxSteps : Z;
  rules : list StepRule;
}.

(** The members of [WriteAuthorityMetadata] the validator reads. *)
Record WriteAuthorityMetadata := {
  literalControlledPaths : list jstr;
  serverDerivedIdPaths : list jstr;
  permittedServerDefaultPaths : list jstr;
  preservedStatePaths : list jstr;
  maxExecutions : Z;
  mutationPlans : list PlanRule;
}.

(** ** Matching the steps of a plan *)

Definition ends_with_star (p : jstr) : bool := ends_with (u "*") p.
Definition butlast (p : jstr) : jstr := take (length p - 1) p.

Definition stepIdMatches (pattern id : jstr) (occurrence : nat) : bool :=
  if ends_with_star pattern then bool_decide (id = butlast pattern ++ digits (N.of_nat occurrence))
  else bool_decide (id = pattern).

Definition step_matches (r : StepRule) (s : ExternalMutationPlanStep) (occurrence : nat) : bool :=
  bool_decide (s.(plan_step_kind) = r.(rule_kind)) &&
  stepIdMatches r.(rule_id) s.(plan_step_id) occurrence.

(** The [while] loop: how many further steps match, at most [room]. *)
Fixpoint matching (r : StepRule) (actual : list ExternalMutationPlanStep) (occurrence room : nat) : nat :=
  match room, actual with
  | S room', s :: actual' =>
      if step_matches r s occurrence then S (matching r actual' (S occurrence) room') else O
  | _, _ => O
  end.

(** The [for] loop: the counts from [count] down to [least]. *)
Fixpoint try_counts (ok : nat → bool) (least count : nat) : bool :=
  if (count <? least)%nat then false
  else ok count || match count with O => false | S count' => try_counts ok least count' end.

Fixpoint stepsMatch (actual : list ExternalMutationPlanStep) (rs : list StepRule) : bool :=
  match rs with
  | [] => bool_decide (actual = [])
  | r :: rs' =>
      try_counts (λ count, stepsMatch (drop count actual) rs') r.(rule_min)
        (matching r actual 0 r.(rule_max))
  end.

(** The steps of a plan are the segments of its rules, in order. *)
Inductive step_sequence : list ExternalMutationPlanStep → list StepRule → Prop :=
| sequence_nil : step_sequence [] []
| sequence_cons segment rest r rs :
    (r.(rule_min) ≤ length segment ≤ r.(rule_max))%nat →
    (∀ k s, segment !! k = Some s → step_matches r s k = true) →
    step_sequence rest rs → step_sequence (segment ++ rest) (r :: rs).

Definition variant_matches (plan : ExternalMutationPlan) (v : PlanRule) : bool :=
  let n := Z.of_nat (length plan.(steps)) in
  bool_decide (v.(rule_mode) = plan.(mode)) && (v.(minSteps) <=? n) && (n <=? v.(maxSteps)) &&
  stepsMatch plan.(steps) v.(rules).

(** ** The leaves of an operation *)

Fixpoint collectOperationLeaves (v : jsval) (prefix : jstr) : list jstr :=
  match v with
  | VArr l => concat ((λ x, collectOperationLeaves x (prefix ++ u "[]")) <$> l)
  | VObj fs =>
      concat (snd <$> own_entries ((λ f, (f.1, collectOperationLeaves f.2 (prefix ++ u "." ++ f.1))) <$> fs))
  | VBytes bs => imap (λ i _, prefix ++ u "." ++ digits (N.of_nat i)) bs
  | VBuffer => []
  | _ => [prefix]
  end.

(** [path.split(".")] *)
Fixpoint segments_of (s acc : jstr) : list jstr :=
  match s with
  | [] => [acc]
  | c :: s' => if (c =? 46)%N then acc :: segments_of s' [] else segments_of s' (acc ++ [c])
  end.

(** [replace(/\[\]$/, "")] *)
Definition strip_brackets (s : jstr) : jstr := if ends_with (u "[]") s then take (length s - 2) s else s.

(** [path.slice(path.lastIndexOf(".") + 1)] is the last segment. *)
Definition leafName (path : jstr) : jstr := strip_brackets (default [] (last (segments_of path []))).

Definition EVIDENCE_SEGMENTS : list string :=
  ["baselineIds"; "beforeIds"; "invoiceBaseline"; "targetSnapshots"; "rawItems";
   "itemSnapshot"; "paymentSnapshot"; "expectedAfterFields"; "expectedAfterStatus"; "expectedProjection";
   "restoreBody"; "archiveBody"; "originalBody"].
Definition DEFAULTABLE_LEAVES : list string :=
  ["amountUnit"; "applyTaxes"; "archived"; "currency"; "description"; "dueDate";
   "issuedDate"; "kind"; "number"; "period"; "rateUnit"; "sendEmail";
   "start"; "state"; "unitPriceUnit"].

Definition member_of (l : list string) (s : jstr) : bool := bool_decide (s ∈ u <$> l).

Definition evidencePath (path : jstr) : bool :=
  existsb (λ segment, member_of EVIDENCE_SEGMENTS (strip_brackets segment)) (segments_of path []).

Definition path_matches (path candidate : jstr) : bool :=
  bool_decide (candidate = path) ||
  (ends_with_star candidate && starts_with (butlast candidate) path) ||
  bool_decide (candidate = path ++ u "[]").
Definition metadataPathMatches (declared : list jstr) (path : jstr) : bool := existsb (path_matches path) declared.

(** A name ending in [Id] or [Ids] that is not one of the request's own. *)
Definition derived_id (leaf : jstr) : bool :=
  (ends_with (u "Id") leaf || ends_with (u "Ids") leaf) &&
  negb (member_of ["operationId"; "workspaceId"; "adminUserId"] leaf).

(** What one leaf is refused with. *)
Definition leaf_error (a : WriteAuthorityMetadata) (path : jstr) : option jstr :=
  let leaf := leafName path in
  if evidencePath path then None
  else if derived_id leaf && negb (metadataPathMatches a.(serverDerivedIdPaths) path)
  then Some (u "undeclared_server_derived_path:" ++ path)
  else if member_of DEFAULTABLE_LEAVES leaf &&
          negb (bool_decide (leaf ∈ leafName <$> a.(literalControlledPaths))) &&
          negb (metadataPathMatches a.(permittedServerDefaultPaths) path) &&
          negb (metadataPathMatches a.(preservedStatePaths) path)
  then Some (u "undeclared_server_default_path:" ++ path)
  else None.

Fixpoint first_error (a : WriteAuthorityMetadata) (paths : list jstr) : option jstr :=
  match paths with
  | [] => None
  | p :: ps => match leaf_error a p with Some e => Some e | None => first_error a ps end
  end.

(** ** The validator *)

Definition validateWriteAuthorityOperation (authority : option WriteAuthorityMetadata) (operation : jsval)
    (plan : option ExternalMutationPlan) : option jstr :=
  match authority, plan with
  | None, _ => Some (u "missing_write_authority")
  | Some _, None => Some (u "missing_mutation_plan")
  | Some a, Some p =>
      let steps := p.(steps) in
      let calls := p.(maxHostCalls) in
      if bool_decide (steps = []) then Some (u "missing_mutation_plan")
      else if a.(maxExecutions) <? Z.of_nat (length steps) then Some (u "mutation_cardinality_exceeded")
      else if (max_safe_integer <? Z.abs calls) || (calls <? 1) || (TURN_HOST_CALL_LIMIT <? calls)
      then Some (u "invalid_mutation_host_call_budget")
      else if negb (existsb (variant_matches p) a.(mutationPlans)) then Some (u "undeclared_mutation_plan")
      else first_error a (collectOperationLeaves operation (u "operation"))
  end.

(** ** The matcher decides the declared sequences *)

Lemma matching_spec r actual occurrence room :
  let n := matching r actual occurrence room in
  (n ≤ room)%nat ∧ (n ≤ length actual)%nat ∧
  (∀ k s, (k < n)%nat → actual !! k = Some s → step_matches r s (occurrence + k) = true) ∧
  ((n < room)%nat → ∀ s, actual !! n = Some s → step_matches r s (occurrence + n) = false).
Proof.
  revert actual occurrence. induction room as [|room IH]; intros [|s actual] occurrence; simpl;
    try (split_and!; intros; simplify_eq/=; try done; lia).
  destruct (step_matches r s occurrence) eqn:Hs; simpl.
  - destruct (IH actual (S occurrence)) as (H1 & H2 & H3 & H4). split_and!; [lia|lia| |].
    + intros [|k] x Hk Hx; simplify_eq/=; [by rewrite Nat.add_0_r|].
      replace (occurrence + S k)%nat with (S occurrence + k)%nat by lia. apply H3; [lia|done].
    + intros Hlt x Hx. replace (occurrence + S _)%nat with (S occurrence + matching r actual (S occurrence) room)%nat by lia.
      apply H4; [lia|done].
  - split_and!; [lia|lia|intros; lia|]. intros _ x [= <-]. by rewrite Nat.add_0_r.
Qed.

Lemma try_counts_spec ok least count :
  try_counts ok least count = true ↔ ∃ n, (least ≤ n ≤ count)%nat ∧ ok n = true.
Proof.
  induction count as [|count IH]; cbn [try_counts]; case (Nat.ltb_spec _ least); intros Hl.
  - split; [done|]. intros (n & Hn & _). lia.
  - rewrite orb_false_r. split; [intros H; exists O; split; [lia|done]|].
    intros (n & Hn & H). by replace O with n by lia.
  - split; [done|]. intros (n & Hn & _). lia.
  - rewrite orb_true_iff, IH. split.
    + intros [H|(n & Hn & H)]; [exists (S count); split; [lia|done]|exists n; split; [lia|done]].
    + intros (n & Hn & H). destruct (decide (n = S count)) as [->|]; [by left|right].
      exists n. split; [lia|done].
Qed.

Lemma stepsMatch_exact actual rs : stepsMatch actual rs = true ↔ step_sequence actual rs.
Proof.
  revert actual. induction rs as [|r rs IH]; intros actual; simpl.
  - rewrite bool_decide_eq_true. split; [intros ->; constructor|by inversion 1].
  - rewrite try_counts_spec. destruct (matching_spec r actual 0 (rule_max r)) as (H1 & H2 & H3 & H4).
    set (m := matching r actual 0 (rule_max r)) in *. split.
    + intros (n & Hn & Hrest%IH). rewrite <- (take_drop n actual). constructor; [|..|done].
      * rewrite length_take. lia.
      * intros k s Hk. apply lookup_take_Some in Hk as [Hs Hk]. apply (H3 k); [lia|done].
    + inversion 1 as [|segment rest ? ? Hlen Hall Hrest]; subst. exists (length segment).
      split; [|rewrite drop_app_length; by apply IH]. split; [lia|].
      destruct (decide (m < length segment)%nat) as [Hlt|]; [|lia]. exfalso.
      destruct (lookup_lt_is_Some_2 segment m Hlt) as [s Hs].
      assert ((segment ++ rest) !! m = Some s) as Hs' by (by apply lookup_app_l_Some).
      specialize (H4 ltac:(lia) s Hs'). simpl in H4. by rewrite (Hall m s Hs) in H4.
Qed.

(** ** What the leaf rules mean

    The rules on the leaves, said of the path alone: a segment is what stands between two
    dots, a segment names itself without one trailing [[]], and the leaf is the last
    segment.  [leaf_admitted] is what [leaf_error] decides. *)

Definition ends_in (s tail : jstr) : Prop := ∃ stem, s = stem ++ tail.
Definition after_dot (before : jstr) : Prop := before = [] ∨ ends_in before (u ".").
Definition before_dot (after : jstr) : Prop := after = [] ∨ ∃ rest, after = u "." ++ rest.
Definition segment_of (path segment : jstr) : Prop :=
  46%N ∉ segment ∧ ∃ before after, path = before ++ segment ++ after ∧ after_dot before ∧ before_dot after.
Definition last_segment_of (path segment : jstr) : Prop :=
  46%N ∉ segment ∧ ∃ before, path = before ++ segment ∧ after_dot before.
Definition named (segment name : jstr) : Prop :=
  segment = name ++ u "[]" ∨ (segment = name ∧ ¬ ends_in segment (u "[]")).
Definition leaf_of (path name : jstr) : Prop := ∃ segment, last_segment_of path segment ∧ named segment name.
Definition among (l : list string) (name : jstr) : Prop := ∃ x, x ∈ l ∧ name = u x.

(** A declared path covers itself, what its star stands for, and the bare container of a
    declared element. *)
Definition covers (declared : list jstr) (path : jstr) : Prop :=
  ∃ candidate, candidate ∈ declared ∧
    (candidate = path ∨ (∃ stem rest, candidate = stem ++ u "*" ∧ path = stem ++ rest) ∨
     candidate = path ++ u "[]").

Definition under_evidence (path : jstr) : Prop :=
  ∃ segment name, segment_of path segment ∧ named segment name ∧ among EVIDENCE_SEGMENTS name.

Definition leaf_admitted (a : WriteAuthorityMetadata) (path : jstr) : Prop :=
  under_evidence path ∨
  ∃ name, leaf_of path name ∧
    (ends_in name (u "Id") ∨ ends_in name (u "Ids") →
     among ["operationId"; "workspaceId"; "adminUserId"] name ∨ covers a.(serverDerivedIdPaths) path) ∧
    (among DEFAULTABLE_LEAVES name →
     (∃ literal, literal ∈ a.(literalControlledPaths) ∧ leaf_of literal name) ∨
     covers a.(permittedServerDefaultPaths) path ∨ covers a.(preservedStatePaths) path).

Lemma ends_with_spec p s : ends_with p s = true ↔ ends_in s p.
Proof.
  split; [|intros [stem ->]; apply ends_with_app]. unfold ends_with. intros (s' & Hs)%starts_with_spec.
  exists (reverse s'). by rewrite <- (reverse_involutive s), Hs, reverse_app, !reverse_involutive.
Qed.

Lemma member_of_spec l s : member_of l s = true ↔ among l s.
Proof. unfold member_of, among. rewrite bool_decide_eq_true, list_elem_of_fmap. naive_solver. Qed.

Lemma strip_brackets_spec segment name : strip_brackets segment = name ↔ named segment name.
Proof.
  unfold strip_brackets, named. destruct (ends_with _ segment) eqn:He.
  - apply ends_with_spec in He. destruct He as [stem ->].
    replace (take _ _) with stem
      by (rewrite length_app, Nat.add_sub; by rewrite take_app_length).
    split; [intros ->; by left|]. intros [H|[_ []]]; [by apply app_inj_2 in H as [-> _]|by exists stem].
  - rewrite <- not_true_iff_false, ends_with_spec in He. split; [intros ->; by right|].
    intros [->|[-> _]]; [|done]. destruct He. by exists name.
Qed.

Lemma dotted_app_eq before x acc s' :
  46%N ∉ x → 46%N ∉ acc → x ++ before = acc ++ 46%N :: s' → before_dot before → x = acc ∧ before = 46%N :: s'.
Proof.
  intros Hx Hacc H Hb. apply app_eq_inv in H as [(k & -> & Hk)|(k & -> & ->)].
  - destruct k as [|c k]; simplify_eq/=; [by rewrite app_nil_r|]. destruct Hx. set_solver.
  - destruct Hb as [Hb|[rest Hb]]; [by destruct k|].
    destruct k as [|c k]; simplify_eq/=; [by rewrite app_nil_r|]. destruct Hacc. set_solver.
Qed.

Lemma segment_of_cons acc s' x :
  46%N ∉ acc → segment_of (acc ++ 46%N :: s') x ↔ x = acc ∨ segment_of s' x.
Proof.
  intros Hacc. split.
  - intros (Hx & before & after & Heq & Hb & Ha). destruct Hb as [->|[stem ->]].
    { left. by destruct (dotted_app_eq after x acc s' Hx Hacc (eq_sym Heq) Ha). }
    right. split; [done|]. rewrite <- app_assoc in Heq.
    apply app_eq_inv in Heq as [(k & -> & Hk)|(k & -> & Hk)].
    + destruct k as [|c k]; simplify_eq/=; [exists [], after; split_and!; [done|by left|done]|].
      destruct Hacc. set_solver.
    + destruct k as [|c k]; simplify_eq/=; [exists [], after; split_and!; [done|by left|done]|].
      exists (k ++ u "."), after. split_and!; [by rewrite <- app_assoc|right; by exists k|done].
  - intros [->|(Hx & before & after & -> & Hb & Ha)].
    + split; [done|]. exists [], (46%N :: s'). split_and!; [done|by left|right; by exists s'].
    + split; [done|]. exists (acc ++ 46%N :: before), after. split_and!; [by rewrite <- app_assoc| |done].
      right. destruct Hb as [->|[stem ->]]; [by exists acc|exists (acc ++ 46%N :: stem); by rewrite <- app_assoc].
Qed.

Lemma segment_of_whole acc x : 46%N ∉ acc → segment_of acc x ↔ x = acc.
Proof.
  intros Hacc. split.
  - intros (_ & before & after & -> & [->|[stem ->]] & [->|[rest ->]]); rewrite ?app_nil_r; try done;
      destruct Hacc; set_solver.
  - intros ->. split; [done|]. exists [], []. rewrite app_nil_r. split_and!; [done|by left|by left].
Qed.

Lemma segments_of_spec s acc :
  46%N ∉ acc →
  (∀ x, x ∈ segments_of s acc ↔ segment_of (acc ++ s) x) ∧
  (∃ x, last (segments_of s acc) = Some x ∧ last_segment_of (acc ++ s) x).
Proof.
  revert acc. induction s as [|c s IH]; intros acc Hacc; simpl.
  - rewrite app_nil_r. split.
    + intros x. by rewrite list_elem_of_singleton, segment_of_whole.
    + exists acc. split; [done|]. split; [done|]. exists []. split; [done|by left].
  - destruct (N.eqb_spec c 46) as [->|Hc].
    + destruct (IH [] ltac:(by intros ?%elem_of_nil)) as [Hin (x & Hx & Hdot & before & Hs & Hb)]. split.
      * intros y. rewrite elem_of_cons, Hin. by rewrite segment_of_cons.
      * exists x. rewrite last_cons, Hx. split; [done|]. split; [done|]. simpl in Hs.
        exists (acc ++ 46%N :: before). rewrite Hs, <- app_assoc. split; [done|right].
        destruct Hb as [->|[stem ->]]; [by exists acc|exists (acc ++ 46%N :: stem); by rewrite <- app_assoc].
    + replace (acc ++ c :: s) with ((acc ++ [c]) ++ s) by (by rewrite <- app_assoc).
      apply IH. rewrite elem_of_app, list_elem_of_singleton. naive_solver.
Qed.

Lemma last_segment_unique path x y : last_segment_of path x → last_segment_of path y → x = y.
Proof.
  assert (∀ before x before' y, 46%N ∉ y → before ++ x = before' ++ y → after_dot before →
    ∀ k, before = before' ++ k → y = k ++ x → x = y) as Haux.
  { intros before x' before' y' Hy _ [->|[stem ->]] k Hk ->.
    - symmetry in Hk. by apply app_eq_nil in Hk as [_ ->].
    - destruct k as [|c k _] using rev_ind; [done|]. rewrite app_assoc in Hk.
      apply app_inj_tail in Hk as [_ <-]. destruct Hy. set_solver. }
  intros (Hx & before & -> & Hb) (Hy & before' & Heq & Hb').
  pose proof Heq as [(k & H1 & H2)|(k & H1 & H2)]%app_eq_inv.
  - by apply (Haux before x before' y Hy Heq Hb k).
  - symmetry. by apply (Haux before' y before x Hx (eq_sym Heq) Hb' k).
Qed.

Lemma leafName_spec path name : leafName path = name ↔ leaf_of path name.
Proof.
  destruct (proj2 (segments_of_spec path [] ltac:(by intros ?%elem_of_nil))) as (x & Hx & Hlast).
  unfold leafName. rewrite Hx. simpl. rewrite strip_brackets_spec. split; [intros H; by exists x|].
  intros (y & Hy & Hn). by rewrite (last_segment_unique _ _ _ Hlast Hy).
Qed.

Lemma evidencePath_spec path : evidencePath path = true ↔ under_evidence path.
Proof.
  unfold evidencePath, under_evidence. rewrite existsb_exists. setoid_rewrite <- list_elem_of_In.
  setoid_rewrite (proj1 (segments_of_spec path [] ltac:(by intros ?%elem_of_nil))). simpl.
  setoid_rewrite member_of_spec. split.
  - intros (x & Hx & H). exists x, (strip_brackets x). split_and!; [done|by apply strip_brackets_spec|done].
  - intros (x & name & Hx & <-%strip_brackets_spec & H). by exists x.
Qed.

Lemma metadataPathMatches_spec declared path : metadataPathMatches declared path = true ↔ covers declared path.
Proof.
  unfold metadataPathMatches, covers. rewrite existsb_exists. setoid_rewrite <- list_elem_of_In.
  apply exist_proper. intros c. apply and_iff_compat_l. unfold path_matches.
  rewrite !orb_true_iff, andb_true_iff, !bool_decide_eq_true. unfold ends_with_star. rewrite ends_with_spec, starts_with_spec.
  assert (∀ stem, butlast (stem ++ u "*") = stem) as Hbut.
  { intros stem. unfold butlast. rewrite length_app, Nat.add_sub. by rewrite take_app_length. }
  split.
  - intros [[H|[[stem ->] [rest H]]]|H]; [by left|right; left|by right; right].
    rewrite Hbut in H. by exists stem, rest.
  - intros [H|[(stem & rest & -> & ->)|H]]; [by left; left|left; right|by right].
    rewrite Hbut. split; [by exists stem|by exists rest].
Qed.

Lemma derived_id_spec leaf :
  derived_id leaf = true ↔ (ends_in leaf (u "Id") ∨ ends_in leaf (u "Ids")) ∧
    member_of ["operationId"; "workspaceId"; "adminUserId"] leaf ≠ true.
Proof.
  unfold derived_id.
  by rewrite andb_true_iff, orb_true_iff, negb_true_iff, <- not_true_iff_false, !ends_with_spec.
Qed.

Lemma leaf_error_spec a path : leaf_error a path = None ↔ leaf_admitted a path.
Proof.
  unfold leaf_admitted. rewrite <- evidencePath_spec. setoid_rewrite <- leafName_spec.
  setoid_rewrite <- metadataPathMatches_spec. unfold leaf_error.
  destruct (evidencePath path); [by split; [left|]|].
  pose proof (derived_id_spec (leafName path)) as Hd.
  pose proof (member_of_spec ["operationId"; "workspaceId"; "adminUserId"] (leafName path)) as Hr.
  pose proof (member_of_spec DEFAULTABLE_LEAVES (leafName path)) as Hm.
  assert (bool_decide (leafName path ∈ leafName <$> literalControlledPaths a) = true ↔
    ∃ literal, literal ∈ literalControlledPaths a ∧ leafName literal = leafName path) as Hl.
  { rewrite bool_decide_eq_true, list_elem_of_fmap. naive_solver. }
  revert Hd Hr Hm Hl. generalize (derived_id (leafName path)) (member_of DEFAULTABLE_LEAVES (leafName path))
    (member_of ["operationId"; "workspaceId"; "adminUserId"] (leafName path))
    (bool_decide (leafName path ∈ leafName <$> literalControlledPaths a)).
  intros derived defaultable own literal Hd Hr Hm Hl.
  transitivity ((derived = true → metadataPathMatches (serverDerivedIdPaths a) path = true) ∧
    (defaultable = true → literal = true ∨ metadataPathMatches (permittedServerDefaultPaths a) path = true ∨
       metadataPathMatches (preservedStatePaths a) path = true)).
  { clear. destruct derived, (metadataPathMatches (serverDerivedIdPaths a) path), defaultable, literal,
      (metadataPathMatches (permittedServerDefaultPaths a) path),
      (metadataPathMatches (preservedStatePaths a) path); simpl; intuition congruence. }
  rewrite Hl, Hm, Hd. clear Hl Hm Hd. split.
  - intros [H1 H2]. right. exists (leafName path). split_and!; [done| |done].
    intros H. destruct own; [left; by apply Hr|]. right. apply H1. by split.
  - intros [?|(name & <- & H1 & H2)]; [done|]. split; [|done].
    intros [H Hown]. destruct (H1 H) as [Ha|Ha]; [by apply Hr in Ha|done].
Qed.

Definition declared_step (a : WriteAuthorityMetadata) (s : ExternalMutationPlanStep) : Prop :=
  ∃ v r k, v ∈ a.(mutationPlans) ∧ r ∈ v.(rules) ∧ step_matches r s k = true.

Lemma sequence_declared actual rs :
  step_sequence actual rs → ∀ s, s ∈ actual → ∃ r k, r ∈ rs ∧ step_matches r s k = true.
Proof.
  induction 1 as [|segment rest r rs Hlen Hall Hseq IH]; intros s Hs; [by apply elem_of_nil in Hs|].
  apply elem_of_app in Hs as [[k Hk]%list_elem_of_lookup|Hs].
  - exists r, k. split; [by left|by apply Hall].
  - destruct (IH s Hs) as (r' & k & Hr & Hk). exists r', k. split; [by right|done].
Qed.

Lemma first_error_none a paths : first_error a paths = None ↔ Forall (leaf_admitted a) paths.
Proof.
  induction paths as [|p ps IH]; simpl; [by split|]. rewrite Forall_cons, <- leaf_error_spec.
  destruct (leaf_error a p); [by split; [|intros []]|]. rewrite IH. naive_solver.
Qed.


(** An operation with a tag, and one with a scalar where the tags should be. *)
Definition tag_authority : WriteAuthorityMetadata :=
  {| literalControlledPaths := []; serverDerivedIdPaths := [u "operation.body.tagIds[]"];
     permittedServerDefaultPaths := []; preservedStatePaths := []; maxExecutions := 1;
     mutationPlans := [{| rule_mode := Single; minSteps := 1; maxSteps := 1;
       rules := [{| rule_id := u "update"; rule_kind := Primary; rule_min := 1; rule_max := 1 |}] |}] |}.
Definition tag_plan : ExternalMutationPlan :=
  {| mode := Single; maxHostCalls := 2; steps := [{| plan_step_id := u "update"; plan_step_kind := Primary;
       plan_target_fingerprint := None; plan_reconciliation := Some StrategyUpdate |}] |}.
Definition tag_operation (tags : jsval) : jsval := VObj [(u "body", VObj [(u "tagIds", tags)])].


(** The bare container of a declared element is admitted whatever scalar it holds, and an
    identifier under a segment of evidence is not looked at. *)
Example scalar_container_admitted :
  validateWriteAuthorityOperation (Some tag_authority) (tag_operation (VStr (u "foreign"))) (Some tag_plan) = None ∧
  validateWriteAuthorityOperation (Some tag_authority)
    (VObj [(u "rawItems", VArr [VObj [(u "projectId", VStr (u "foreign"))]])]) (Some tag_plan) = None ∧
  validateWriteAuthorityOperation (Some tag_authority)
    (VObj [(u "body", VObj [(u "projectId", VStr (u "foreign"))])]) (Some tag_plan) =
    Some (u "undeclared_server_derived_path:operation.body.projectId").
Proof. vm_compute. done. Qed.
