(* ===== verification/MutationScope.v ===== *)
(** * The mutation plan scope

    [clockify/rest/core.ts], first half: the gate every host mutation passes.  A scope
    holds one descriptor per planned step; a step is entered in plan order, its single
    dispatch is authorised and then committed immediately before the request, and any
    deviation poisons the primaries that are left.  The asynchronous parts interleave as
    events of [scope_step]; the functions of the second half compose them in sequence. *)
From S2P Require Import Prelude Js Db Effects.
From S2P Require SafetyLimits HostBudget.
Open Scope Z_scope.
#[local] Arguments u : simpl never.

(** ** Descriptors *)

Inductive MutationDescriptorStatus : Set := Pending | Dispatching | Completed | Failed.
#[export] Instance descriptor_status_dec : EqDecision MutationDescriptorStatus.
Proof. solve_decision. Defined.

Record MutationPlanScopeStep := { scope_step_id : jstr; scope_step_kind : StepKind }.

Record MutationDescriptorState := {
  plan_step_of : MutationPlanScopeStep;
  descriptor_status : MutationDescriptorStatus;
  authorized : bool;
  networkCalls : Z;
  descriptor_failure : option failure;
}.

(** [primaryPoison] is the message of the violation. *)
Record MutationPlanScopeState := {
  descriptors : list MutationDescriptorState;
  active : option nat;
  primaryPoison : option jstr;
}.

Definition id_of (x : MutationDescriptorState) : jstr := x.(plan_step_of).(scope_step_id).
Definition is_primary (x : MutationDescriptorState) : bool :=
  bool_decide (x.(plan_step_of).(scope_step_kind) = primary).

Definition fresh_descriptor (s : MutationPlanScopeStep) : MutationDescriptorState :=
  {| plan_step_of := s; descriptor_status := Pending; authorized := false; networkCalls := 0;
     descriptor_failure := None |}.
Definition new_scope (steps : list MutationPlanScopeStep) : MutationPlanScopeState :=
  {| descriptors := fresh_descriptor <$> steps; active := None; primaryPoison := None |}.

(** The checks of [withMutationPlanScope] on its plan. *)
Definition scope_plan_refusal (maxHostCalls : Z) (steps : list MutationPlanScopeStep) : option string :=
  if (max_safe_integer <? Z.abs maxHostCalls) || (maxHostCalls <? 1) ||
     (SafetyLimits.HOST_CALL_BUDGET_MAXIMUM <? maxHostCalls)
  then Some "mutation_plan_host_call_budget_required"
  else if bool_decide (steps = []) || bool_decide ([] ∈ scope_step_id <$> steps) ||
          negb (bool_decide (NoDup (scope_step_id <$> steps)))
  then Some "invalid_mutation_plan_scope"
  else None.

(** ** Updates of one descriptor *)

Definition set_descriptor (i : nat) (x : MutationDescriptorState) (sc : MutationPlanScopeState)
    : MutationPlanScopeState :=
  {| descriptors := <[i := x]> sc.(descriptors); active := sc.(active);
     primaryPoison := sc.(primaryPoison) |}.
Definition set_active (a : option nat) (sc : MutationPlanScopeState) : MutationPlanScopeState :=
  {| descriptors := sc.(descriptors); active := a; primaryPoison := sc.(primaryPoison) |}.
Definition poison (m : jstr) (sc : MutationPlanScopeState) : MutationPlanScopeState :=
  {| descriptors := sc.(descriptors); active := sc.(active); primaryPoison := Some m |}.
(** Only a primary poisons the scope. *)
Definition poison_if (b : bool) (m : jstr) (sc : MutationPlanScopeState) : MutationPlanScopeState :=
  if b then poison m sc else sc.

Definition failed_with (e : failure) (x : MutationDescriptorState) : MutationDescriptorState :=
  {| plan_step_of := x.(plan_step_of); descriptor_status := Failed; authorized := x.(authorized);
     networkCalls := x.(networkCalls); descriptor_failure := Some e |}.
(** [failure ??= error] *)
Definition failed_keeping (e : failure) (x : MutationDescriptorState) : MutationDescriptorState :=
  failed_with (default e x.(descriptor_failure)) x.
Definition completed (x : MutationDescriptorState) : MutationDescriptorState :=
  {| plan_step_of := x.(plan_step_of); descriptor_status := Completed; authorized := x.(authorized);
     networkCalls := x.(networkCalls); descriptor_failure := x.(descriptor_failure) |}.
Definition allowed (x : MutationDescriptorState) : MutationDescriptorState :=
  {| plan_step_of := x.(plan_step_of); descriptor_status := x.(descriptor_status); authorized := true;
     networkCalls := x.(networkCalls); descriptor_failure := x.(descriptor_failure) |}.
Definition dispatched (x : MutationDescriptorState) : MutationDescriptorState :=
  {| plan_step_of := x.(plan_step_of); descriptor_status := Dispatching; authorized := false;
     networkCalls := x.(networkCalls) + 1; descriptor_failure := x.(descriptor_failure) |}.

Definition message_of (prefix : string) (id : jstr) : jstr := u prefix ++ id.

(** ** Entering a step *)

(** The first refusal of [withMutationPlanStep] before the compensation hook, and
    whether it poisons the scope. *)
Definition earlier_invalid (sc : MutationPlanScopeState) (index : nat) (kind : StepKind) : bool :=
  existsb (λ x, is_primary x &&
    (if decide (kind = primary) then negb (bool_decide (x.(descriptor_status) = Completed))
     else bool_decide (x.(descriptor_status) = Pending) || bool_decide (x.(descriptor_status) = Dispatching)))
    (take index sc.(descriptors)).

Definition enter_refusal (sc : MutationPlanScopeState) (id : jstr) (index : nat) (kind : StepKind)
    : option (jstr * bool) :=
  match sc.(primaryPoison), kind with
  | Some m, primary => Some (message_of "mutation_scope_poisoned:" m, false)
  | _, _ =>
      match sc.(descriptors) !! index with
      | None => Some (message_of "mutation_step_out_of_order:" id, true)
      | Some x =>
          if negb (bool_decide (id_of x = id) && bool_decide (x.(plan_step_of).(scope_step_kind) = kind))
          then Some (message_of "mutation_step_out_of_order:" id, true)
          else if bool_decide (is_Some sc.(active)) || negb (bool_decide (x.(descriptor_status) = Pending))
          then Some (message_of "mutation_step_repeated:" id, true)
          else if earlier_invalid sc index kind
          then Some (message_of "mutation_step_out_of_order:" id, true)
          else None
      end
  end.

(** [eligible] is the answer of [compensationEligible]. *)
Definition enter_step (sc : MutationPlanScopeState) (id : jstr) (index : nat) (kind : StepKind)
    (eligible : bool) : (failure + nat) * MutationPlanScopeState :=
  match enter_refusal sc id index kind with
  | Some (m, poisons) =>
      (inl (MutationPlanViolation m), poison_if (poisons && bool_decide (kind = primary)) m sc)
  | None =>
      if bool_decide (kind = compensation) && negb eligible
      then (inl (MutationPlanViolation (message_of "compensation_not_eligible:" id)), sc)
      else (inr index, set_active (Some index) sc)
  end.

(** ** Leaving a step *)

Definition violation_text (e : failure) (id : jstr) : jstr :=
  match e with
  | MutationPlanViolation m => m
  | _ => message_of "mutation_primary_failed:" id
  end.

(** The [catch] and [finally] blocks. *)
Definition fail_step (sc : MutationPlanScopeState) (i : nat) (e : failure) : MutationPlanScopeState :=
  match sc.(descriptors) !! i with
  | None => set_active None sc
  | Some x =>
      set_active None (poison_if (is_primary x) (violation_text e (id_of x))
        (set_descriptor i (failed_keeping e x) sc))
  end.

(** [outcome] is what the dispatch returned or threw. *)
Definition finish_step {A} (sc : MutationPlanScopeState) (i : nat) (outcome : failure + A)
    : (failure + A) * MutationPlanScopeState :=
  match sc.(descriptors) !! i with
  | None => (outcome, set_active None sc)
  | Some x =>
      match outcome with
      | inl e => (inl e, fail_step sc i e)
      | inr a =>
          if bool_decide (x.(descriptor_status) = Failed) then
            let e := default (NotAnError (u "undefined")) x.(descriptor_failure) in
            (inl e, fail_step sc i e)
          else if negb (x.(networkCalls) =? 1) then
            let e := MutationPlanViolation (message_of "mutation_step_incomplete_dispatch:" (id_of x)) in
            (inl e, fail_step (set_descriptor i (failed_with e x) sc) i e)
          else (inr a, set_active None (set_descriptor i (completed x) sc))
      end
  end.

(** ** The dispatch boundary *)

(** A second dispatch of the step. *)
Definition excess (sc : MutationPlanScopeState) (i : nat) (x : MutationDescriptorState)
    : failure * MutationPlanScopeState :=
  let m := message_of "mutation_step_excess_dispatch:" (id_of x) in
  (MutationPlanViolation m,
   poison_if (is_primary x) m (set_descriptor i (failed_with (MutationPlanViolation m) x) sc)).

Definition denied (sc : MutationPlanScopeState) (i : nat) (x : MutationDescriptorState) (denial : jsval)
    : failure * MutationPlanScopeState :=
  let e := MutationDispatchDenied denial in
  (e, poison_if (is_primary x) (message_of "mutation_primary_denied:" (id_of x))
        (set_descriptor i (failed_with e x) sc)).

Definition active_descriptor (sc : MutationPlanScopeState) : option (nat * MutationDescriptorState) :=
  i ← sc.(active); x ← sc.(descriptors) !! i; Some (i, x).

(** [authorizeScopedMutationDispatch] up to its [await]. *)
Definition authorize_begin (sc : MutationPlanScopeState) : (failure + nat) * MutationPlanScopeState :=
  match active_descriptor sc with
  | None => (inl (MutationPlanViolation (u "mutation_scope_required")), sc)
  | Some (i, x) =>
      if negb (bool_decide (x.(descriptor_status) = Pending)) || x.(authorized) || (0 <? x.(networkCalls))
      then let '(e, sc') := excess sc i x in (inl e, sc')
      else (inr i, sc)
  end.

(** The rest of it: [answer] is what [authorizeDispatch] gave for descriptor [i]. *)
Definition authorize_end (sc : MutationPlanScopeState) (i : nat) (answer : failure + option jsval)
    (aborted : bool) : (failure + unit) * MutationPlanScopeState :=
  match sc.(descriptors) !! i with
  | None => (inl (MutationPlanViolation (u "mutation_scope_required")), sc)
  | Some x =>
      match answer with
      | inl e => (inl e, sc)
      | inr (Some denial) => let '(e, sc') := denied sc i x denial in (inl e, sc')
      | inr None =>
          if aborted then (inl HostRequestCancelledError, sc)
          else (inr tt, set_descriptor i (allowed x) sc)
      end
  end.

Definition journal_unavailable : jsval := VObj [(u "code", VStr (u "dispatch_journal_unavailable"))].

(** [commitScopedMutationDispatch]: the check, and the step with the answer of the hook. *)
Definition commit_check (sc : MutationPlanScopeState) (aborted : bool)
    : (failure + nat) * MutationPlanScopeState :=
  match active_descriptor sc with
  | None => (inl (MutationPlanViolation (u "mutation_scope_required")), sc)
  | Some (i, x) =>
      if negb (bool_decide (x.(descriptor_status) = Pending)) || negb x.(authorized) || (0 <? x.(networkCalls))
      then let '(e, sc') := excess sc i x in (inl e, sc')
      else if aborted then (inl HostRequestCancelledError, sc)
      else (inr i, sc)
  end.
Definition commit_dispatch (sc : MutationPlanScopeState) (i : nat) (recorded : bool)
    : (failure + unit) * MutationPlanScopeState :=
  match sc.(descriptors) !! i with
  | None => (inl (MutationPlanViolation (u "mutation_scope_required")), sc)
  | Some x =>
      if recorded then (inr tt, set_descriptor i (dispatched x) sc)
      else let '(e, sc') := denied sc i x journal_unavailable in (inl e, sc')
  end.

(** ** Interleavings

    [AuthEnd k] resolves the [k]-th authorisation that is still awaited; [granted] lists
    the descriptors an authorisation was granted for. *)

Inductive scope_event : Type :=
| Enter (id : jstr) (index : nat) (kind : StepKind) (eligible : bool)
| AuthBegin
| AuthEnd (k : nat) (answer : failure + option jsval) (aborted : bool)
| Commit (aborted recorded : bool)
| Finish (outcome : failure + unit).

Record machine := {
  scope : MutationPlanScopeState;
  waiting : list nat;
  granted : list nat;
}.

Definition new_machine (steps : list MutationPlanScopeStep) : machine :=
  {| scope := new_scope steps; waiting := []; granted := [] |}.

Definition with_scope (sc : MutationPlanScopeState) (m : machine) : machine :=
  {| scope := sc; waiting := m.(waiting); granted := m.(granted) |}.

Definition scope_step (m : machine) (e : scope_event) : machine :=
  let sc := m.(scope) in
  match e with
  | Enter id index kind eligible => with_scope (enter_step sc id index kind eligible).2 m
  | AuthBegin =>
      let '(r, sc') := authorize_begin sc in
      {| scope := sc'; granted := m.(granted);
         waiting := match r with inr i => m.(waiting) ++ [i] | inl _ => m.(waiting) end |}
  | AuthEnd k answer aborted =>
      match m.(waiting) !! k with
      | None => m
      | Some i =>
          let '(r, sc') := authorize_end sc i answer aborted in
          {| scope := sc'; waiting := delete k m.(waiting);
             granted := match r with inr _ => i :: m.(granted) | inl _ => m.(granted) end |}
      end
  | Commit aborted recorded =>
      match commit_check sc aborted with
      | (inr i, sc') => with_scope (commit_dispatch sc' i recorded).2 m
      | (inl _, sc') => with_scope sc' m
      end
  | Finish outcome =>
      match sc.(active) with
      | None => m
      | Some i => with_scope (finish_step sc i outcome).2 m
      end
  end.

(** ** The invariant *)

Definition settled (x : MutationDescriptorState) : bool :=
  bool_decide (x.(descriptor_status) = Completed) || bool_decide (x.(descriptor_status) = Failed).

(** The calls a status allows. *)
Definition row_ok (x : MutationDescriptorState) : Prop :=
  match x.(descriptor_status) with
  | Pending => x.(networkCalls) = 0
  | Dispatching | Completed => x.(networkCalls) = 1
  | Failed => 0 ≤ x.(networkCalls) ≤ 1
  end.

(** What must have happened to the primaries before index [i]. *)
Definition before (ds : list MutationDescriptorState) (i : nat) (kind : StepKind) : Prop :=
  ∀ j y, (j < i)%nat → ds !! j = Some y → is_primary y = true →
    match kind with
    | primary => y.(networkCalls) = 1
    | compensation => settled y = true
    end.

Definition kind_of (x : MutationDescriptorState) : StepKind := x.(plan_step_of).(scope_step_kind).

Record scope_ok (steps : list MutationPlanScopeStep) (m : machine) : Prop := {
  so_steps : plan_step_of <$> m.(scope).(descriptors) = steps;
  so_row : ∀ i x, m.(scope).(descriptors) !! i = Some x → row_ok x;
  so_active : ∀ i, m.(scope).(active) = Some i →
    ∃ x, m.(scope).(descriptors) !! i = Some x ∧ before m.(scope).(descriptors) i (kind_of x);
  so_order : ∀ i x, m.(scope).(descriptors) !! i = Some x → 0 < x.(networkCalls) →
    before m.(scope).(descriptors) i (kind_of x);
  so_flight : ∀ i x, m.(scope).(descriptors) !! i = Some x → x.(descriptor_status) = Dispatching →
    m.(scope).(active) = Some i;
  so_granted : ∀ i x, m.(scope).(descriptors) !! i = Some x →
    x.(authorized) = true ∨ 0 < x.(networkCalls) → i ∈ m.(granted);
}.

(** How a descriptor may change. *)
Record advance (x y : MutationDescriptorState) : Prop := {
  ad_step : y.(plan_step_of) = x.(plan_step_of);
  ad_calls : x.(networkCalls) ≤ y.(networkCalls);
  ad_settled : settled x = true → settled y = true;
  ad_failed : x.(descriptor_status) = Failed →
    y.(descriptor_status) = Failed ∧ y.(networkCalls) = x.(networkCalls);
}.

#[export] Instance advance_refl : Reflexive advance.
Proof. intros x. by constructor. Qed.
#[export] Instance advance_trans : Transitive advance.
Proof.
  intros x y z [] [ad ? ? adf]. constructor; [congruence|lia|auto|].
  intros Hf. destruct (ad_failed0 Hf) as [? ?]. destruct (adf ltac:(done)). split; [done|lia].
Qed.

Lemma before_set ds i k j x y :
  ds !! j = Some x → advance x y → row_ok y → before ds i k → before (<[j := y]> ds) i k.
Proof.
  intros Hx Ha Hy Hb l z Hl Hz Hp. rewrite (lookup_insert_if _ _ _ _ _ Hx) in Hz.
  case_decide; simplify_eq; [|by eapply Hb].
  unfold is_primary in Hp. rewrite (ad_step _ _ Ha) in Hp. specialize (Hb _ _ Hl Hx Hp).
  destruct k; [|by eapply ad_settled].
  pose proof (ad_calls _ _ Ha). unfold row_ok in Hy. destruct (descriptor_status z); lia.
Qed.

(** Updating descriptor [i] keeps the invariant. *)
Lemma ok_set steps m i x y a p w g :
  scope_ok steps m → m.(scope).(descriptors) !! i = Some x → advance x y → row_ok y →
  (∀ j, a = Some j → m.(scope).(active) = Some j) →
  (∀ j, m.(scope).(active) = Some j → j ≠ i → a = Some j) →
  (y.(descriptor_status) = Dispatching → a = Some i) →
  (x.(networkCalls) < y.(networkCalls) → m.(scope).(active) = Some i) →
  (∀ j, j ∈ m.(granted) → j ∈ g) →
  (y.(authorized) = true ∨ 0 < y.(networkCalls) →
     (x.(authorized) = true ∨ 0 < x.(networkCalls)) ∨ i ∈ g) →
  scope_ok steps {| scope := {| descriptors := <[i := y]> m.(scope).(descriptors); active := a;
                                primaryPoison := p |}; waiting := w; granted := g |}.
Proof.
  intros [Hs Hr Ha Ho Hf Hg] Hx Had Hy Ha1 Ha2 Hfl Hcall Hsub Hgr.
  assert (Hb : ∀ l k, before (descriptors (scope m)) l k → before (<[i := y]> (descriptors (scope m))) l k).
  { intros l k. by apply before_set with x. }
  constructor; simpl.
  - rewrite list_fmap_insert, (ad_step _ _ Had), list_insert_id; [done|]. by rewrite list_lookup_fmap, Hx.
  - intros j z Hz. rewrite (lookup_insert_if _ _ _ _ _ Hx) in Hz. case_decide; simplify_eq; eauto.
  - intros j Hj. destruct (Ha j (Ha1 j Hj)) as (z & Hz & Hbz).
    destruct (decide (j = i)) as [->|Hne].
    + exists y. rewrite (lookup_insert_if _ _ _ _ _ Hx), decide_True by done. split; [done|].
      assert (z = x) as -> by congruence. unfold kind_of. rewrite (ad_step _ _ Had). by apply Hb.
    + exists z. rewrite list_lookup_insert_ne by done. split; [done|]. by apply Hb.
  - intros j z Hz Hc. rewrite (lookup_insert_if _ _ _ _ _ Hx) in Hz. case_decide; simplify_eq.
    + apply Hb. unfold kind_of. rewrite (ad_step _ _ Had).
      destruct (decide (0 < networkCalls x)); [by eapply Ho|].
      destruct (Ha i) as (x' & Hx' & Hbx); [apply Hcall; lia|].
      assert (x' = x) as -> by congruence. done.
    + apply Hb. by eapply Ho.
  - intros j z Hz Hd. rewrite (lookup_insert_if _ _ _ _ _ Hx) in Hz. case_decide; simplify_eq; [auto|].
    apply Ha2; [|done]. by eapply Hf.
  - intros j z Hz Hau. rewrite (lookup_insert_if _ _ _ _ _ Hx) in Hz. case_decide; simplify_eq.
    + destruct (Hgr Hau) as [Hau'|]; [|done]. apply Hsub. by eapply Hg.
    + apply Hsub. by eapply Hg.
Qed.

(** ** Every event keeps it *)

Lemma row_ok_calls x : row_ok x → 0 ≤ x.(networkCalls) ≤ 1.
Proof. unfold row_ok. destruct (descriptor_status x); lia. Qed.

Lemma row_failed e x : row_ok x → row_ok (failed_with e x).
Proof. exact (row_ok_calls x). Qed.

Lemma settled_spec x : settled x = true ↔ x.(descriptor_status) = Completed ∨ x.(descriptor_status) = Failed.
Proof. unfold settled. by rewrite orb_true_iff, !bool_decide_eq_true. Qed.

Lemma advance_failed e x : advance x (failed_with e x).
Proof. constructor; simpl; [done|lia|intros _; by apply settled_spec; right|done]. Qed.

Lemma ok_poison steps m b t sc :
  scope_ok steps (with_scope sc m) → scope_ok steps (with_scope (poison_if b t sc) m).
Proof. by destruct b; [intros []; constructor|]. Qed.

(** Tickets and grants may be added. *)
Lemma ok_tickets steps sc w w' g g' :
  scope_ok steps {| scope := sc; waiting := w; granted := g |} → (∀ j, j ∈ g → j ∈ g') →
  scope_ok steps {| scope := sc; waiting := w'; granted := g' |}.
Proof. intros [Hs Hr Ha Ho Hf Hg] Hsub. constructor; simpl in *; eauto. Qed.

Lemma ok_fail steps m i x e :
  scope_ok steps m → m.(scope).(descriptors) !! i = Some x →
  scope_ok steps (with_scope (set_descriptor i (failed_with e x) m.(scope)) m).
Proof.
  intros Hok Hx. apply (ok_set _ _ _ x); simpl; auto using advance_failed; try done; try lia.
  apply row_failed, (so_row _ _ Hok _ _ Hx).
Qed.

Lemma fail_descriptor_lookup sc i x e :
  sc.(descriptors) !! i = Some x →
  (set_descriptor i (failed_with e x) sc).(descriptors) !! i = Some (failed_with e x).
Proof. intros Hx. simpl. by rewrite (lookup_insert_if _ _ _ _ _ Hx), decide_True. Qed.

Lemma ok_fail_step steps m i e :
  scope_ok steps m → m.(scope).(active) = Some i → scope_ok steps (with_scope (fail_step m.(scope) i e) m).
Proof.
  intros Hok Hi. destruct (so_active _ _ Hok i Hi) as (x & Hx & _).
  unfold fail_step. rewrite Hx. unfold failed_keeping, poison_if.
  replace (with_scope _ m) with {| scope := {|
    descriptors := <[i := failed_with (default e (descriptor_failure x)) x]> (descriptors (scope m));
    active := None; primaryPoison := (if is_primary x then Some (violation_text e (id_of x))
                                      else primaryPoison (scope m)) |};
    waiting := waiting m; granted := granted m |} by (by destruct (is_primary x)).
  set (y := failed_with _ x). apply (ok_set steps m i x y None); subst y; simpl;
    auto using advance_failed; try done; try lia; try congruence;
    apply row_failed, (so_row _ _ Hok _ _ Hx).
Qed.

Lemma ok_finish steps m i (outcome : failure + unit) :
  scope_ok steps m → m.(scope).(active) = Some i →
  scope_ok steps (with_scope (finish_step m.(scope) i outcome).2 m).
Proof.
  intros Hok Hi. destruct (so_active _ _ Hok i Hi) as (x & Hx & _).
  unfold finish_step. rewrite Hx. destruct outcome as [e|a]; simpl; [by apply ok_fail_step|].
  case_bool_decide as Hf; [by apply ok_fail_step|].
  destruct (Z.eqb_spec (networkCalls x) 1) as [Hc|Hc]; simpl.
  - apply (ok_set _ _ _ x); simpl; auto; try done; try congruence; try lia;
    constructor; simpl; try done; intros _; by apply settled_spec; left.
  - eapply (ok_fail_step _ (with_scope _ m)); [by apply ok_fail|done].
Qed.

Lemma enter_ok sc id index kind :
  enter_refusal sc id index kind = None →
  sc.(active) = None ∧ (kind = primary → sc.(primaryPoison) = None) ∧
  ∃ x, sc.(descriptors) !! index = Some x ∧ id_of x = id ∧ kind_of x = kind ∧
    x.(descriptor_status) = Pending ∧ earlier_invalid sc index kind = false.
Proof.
  intros H. assert (kind = primary → primaryPoison sc = None) as Hp.
  { intros ->. unfold enter_refusal in H. by destruct (primaryPoison sc). }
  assert (match sc.(descriptors) !! index with
      | None => Some (message_of "mutation_step_out_of_order:" id, true)
      | Some x =>
          if negb (bool_decide (id_of x = id) && bool_decide (x.(plan_step_of).(scope_step_kind) = kind))
          then Some (message_of "mutation_step_out_of_order:" id, true)
          else if bool_decide (is_Some sc.(active)) || negb (bool_decide (x.(descriptor_status) = Pending))
          then Some (message_of "mutation_step_repeated:" id, true)
          else if earlier_invalid sc index kind
          then Some (message_of "mutation_step_out_of_order:" id, true)
          else None
      end = None) as H2 by (unfold enter_refusal in H; by destruct (primaryPoison sc), kind).
  clear H. destruct (descriptors sc !! index) as [x|]; [|done].
  destruct (bool_decide (id_of x = id)) eqn:Hid; [|done].
  destruct (bool_decide (scope_step_kind (plan_step_of x) = kind)) eqn:Hk; [|done]. simpl in H2.
  destruct (bool_decide (is_Some (active sc))) eqn:Hac; [done|].
  destruct (bool_decide (descriptor_status x = Pending)) eqn:Hst; [|done]. simpl in H2.
  destruct (earlier_invalid sc index kind) eqn:He; [done|].
  apply bool_decide_eq_true in Hid, Hk, Hst. apply bool_decide_eq_false in Hac.
  split_and!; [by apply eq_None_not_Some|done|]. by exists x.
Qed.

Lemma earlier_before steps m index kind :
  scope_ok steps m → earlier_invalid m.(scope) index kind = false →
  before m.(scope).(descriptors) index kind.
Proof.
  intros Hok He j y Hj Hy Hp. unfold earlier_invalid in He.
  assert (y ∈ take index (descriptors (scope m))) as Hin.
  { apply list_elem_of_lookup. exists j. by rewrite lookup_take_lt. }
  apply not_true_iff_false in He. rewrite existsb_exists in He.
  assert (Hno : (is_primary y && (if decide (kind = primary)
      then negb (bool_decide (descriptor_status y = Completed))
      else bool_decide (descriptor_status y = Pending) ||
           bool_decide (descriptor_status y = Dispatching))) = false).
  { apply not_true_iff_false. intros Ht. apply He. exists y. by rewrite <- list_elem_of_In. }
  rewrite Hp in Hno. simpl in Hno. destruct kind; simpl in Hno.
  - apply negb_false_iff, bool_decide_eq_true in Hno. pose proof (so_row _ _ Hok _ _ Hy) as Hr.
    unfold row_ok in Hr. by rewrite Hno in Hr.
  - apply orb_false_iff in Hno as [H1%bool_decide_eq_false H2%bool_decide_eq_false].
    apply settled_spec. destruct (descriptor_status y); auto; done.
Qed.

Lemma ok_enter steps m id index kind eligible :
  scope_ok steps m → scope_ok steps (with_scope (enter_step m.(scope) id index kind eligible).2 m).
Proof.
  intros Hok. assert (with_scope (scope m) m = m) as Hm by by destruct m.
  unfold enter_step. destruct (enter_refusal _ _ _ _) as [[t b]|] eqn:Hr; simpl.
  - apply ok_poison. by rewrite Hm.
  - destruct (bool_decide (kind = compensation) && negb eligible); simpl; [by rewrite Hm|].
    apply enter_ok in Hr as (Hac & _ & x & Hx & _ & Hk & Hst & He).
    pose proof (earlier_before _ _ _ _ Hok He) as Hb.
    destruct Hok as [Hs Hrow Ha Ho Hf Hg]. constructor; simpl; eauto.
    + intros i [= <-]. exists x. by rewrite Hk.
    + intros i y Hy Hd. specialize (Hf i y Hy Hd). congruence.
Qed.

Lemma active_spec sc i x :
  active_descriptor sc = Some (i, x) ↔ sc.(active) = Some i ∧ sc.(descriptors) !! i = Some x.
Proof.
  unfold active_descriptor. destruct (active sc) as [j|]; simpl; [|naive_solver].
  destruct (descriptors sc !! j) eqn:Hj; simpl; naive_solver.
Qed.

Lemma ok_excess steps m i x :
  scope_ok steps m → m.(scope).(descriptors) !! i = Some x →
  scope_ok steps (with_scope (excess m.(scope) i x).2 m).
Proof. intros. by apply ok_poison, ok_fail. Qed.
Lemma ok_denied steps m i x v :
  scope_ok steps m → m.(scope).(descriptors) !! i = Some x →
  scope_ok steps (with_scope (denied m.(scope) i x v).2 m).
Proof. intros. by apply ok_poison, ok_fail. Qed.

Lemma ok_auth_begin steps m : scope_ok steps m → scope_ok steps (scope_step m AuthBegin).
Proof.
  intros Hok. simpl. unfold authorize_begin.
  destruct (active_descriptor (scope m)) as [[i x]|] eqn:Ha; [|by destruct m].
  apply active_spec in Ha as [Ha Hx].
  destruct (negb _ || _ || _); [exact (ok_excess _ _ _ _ Hok Hx)|].
  eapply (ok_tickets _ _ (waiting m) _ (granted m)); [by destruct m|done].
Qed.

Lemma ok_auth_end steps m k answer aborted :
  scope_ok steps m → scope_ok steps (scope_step m (AuthEnd k answer aborted)).
Proof.
  intros Hok. simpl. destruct (waiting m !! k) as [i|]; [|done]. unfold authorize_end.
  destruct (descriptors (scope m) !! i) as [x|] eqn:Hx;
    [|eapply (ok_tickets _ _ (waiting m) _ (granted m)); [by destruct m|done]].
  destruct answer as [e|[denial|]]; simpl.
  - eapply (ok_tickets _ _ (waiting m) _ (granted m)); [by destruct m|done].
  - eapply (ok_tickets _ _ (waiting m) _ (granted m)); [|done]. exact (ok_denied _ _ _ _ _ Hok Hx).
  - destruct aborted; simpl; [eapply (ok_tickets _ _ (waiting m) _ (granted m)); [by destruct m|done]|].
    apply (ok_set _ _ _ x); simpl; auto; try lia; try set_solver.
    + by constructor.
    + exact (so_row _ _ Hok _ _ Hx).
    + exact (so_flight _ _ Hok _ _ Hx).
Qed.

Lemma commit_check_spec sc aborted i sc' :
  commit_check sc aborted = (inr i, sc') →
  sc' = sc ∧ sc.(active) = Some i ∧ ∃ x, sc.(descriptors) !! i = Some x ∧
    x.(descriptor_status) = Pending ∧ x.(authorized) = true.
Proof.
  unfold commit_check. destruct (active_descriptor sc) as [[j x]|] eqn:Ha; [|done].
  apply active_spec in Ha as [Ha Hx].
  destruct (bool_decide_reflect (descriptor_status x = Pending)), (authorized x) eqn:Hau; simpl; try done.
  destruct (0 <? networkCalls x), aborted; simpl; try done. intros [= <- <-]. eauto 10.
Qed.

Lemma ok_commit steps m aborted recorded :
  scope_ok steps m → scope_ok steps (scope_step m (Commit aborted recorded)).
Proof.
  intros Hok. simpl. destruct (commit_check (scope m) aborted) as [[e|i] sc'] eqn:Hc.
  - unfold commit_check in Hc. destruct (active_descriptor (scope m)) as [[j x]|] eqn:Ha; [|by destruct m; simplify_eq].
    apply active_spec in Ha as [Ha Hx].
    destruct (negb _ || _ || _); [|destruct aborted; [by destruct m; simplify_eq|done]].
    injection Hc as <- <-. exact (ok_excess _ _ _ _ Hok Hx).
  - apply commit_check_spec in Hc as (-> & Ha & x & Hx & Hst & Hau).
    unfold commit_dispatch. rewrite Hx. destruct recorded; [|exact (ok_denied _ _ _ _ _ Hok Hx)].
    pose proof (so_row _ _ Hok _ _ Hx) as Hrow. unfold row_ok in Hrow. rewrite Hst in Hrow.
    apply (ok_set _ _ _ x); simpl; auto.
    + constructor; simpl; [done|lia| |by rewrite Hst].
      intros Hset%settled_spec. rewrite Hst in Hset. by destruct Hset.
    + unfold row_ok. simpl. lia.
Qed.

Lemma ok_step steps m e : scope_ok steps m → scope_ok steps (scope_step m e).
Proof.
  intros Hok. destruct e.
  - by apply ok_enter.
  - by apply ok_auth_begin.
  - by apply ok_auth_end.
  - by apply ok_commit.
  - simpl. destruct (active (scope m)) as [i|] eqn:Hi; [by apply ok_finish|done].
Qed.

Lemma ok_new steps : scope_ok steps (new_machine steps).
Proof.
  assert (Hf : ∀ i x, (fresh_descriptor <$> steps) !! i = Some x → ∃ s, x = fresh_descriptor s).
  { intros i x H. rewrite list_lookup_fmap in H. destruct (steps !! i); simplify_eq/=; eauto. }
  constructor; simpl; try done.
  - rewrite <- list_fmap_compose. by apply list_fmap_id.
  - by intros i x (s & ->)%Hf.
  - by intros i x (s & ->)%Hf.
  - by intros i x (s & ->)%Hf.
  - intros i x (s & ->)%Hf. simpl. by intros [|].
Qed.

Lemma ok_run steps evs : scope_ok steps (run_events scope_step (new_machine steps) evs).
Proof. apply run_invariant; [apply ok_new|apply ok_step]. Qed.

(** ** What cannot be undone *)

(** Nothing dispatches descriptor [j] any more: it has failed, or the scope is poisoned
    and it is a primary that is not being executed. *)
Definition closed (j : nat) (n : Z) (m : machine) : Prop :=
  ∃ x, m.(scope).(descriptors) !! j = Some x ∧ x.(networkCalls) = n ∧
  (x.(descriptor_status) = Failed ∨
   (is_Some m.(scope).(primaryPoison) ∧ is_primary x = true ∧ m.(scope).(active) ≠ Some j)).

(** The effect of an event on one descriptor, the poison and the active step. *)
Definition evolves (m m' : machine) : Prop :=
  (is_Some m.(scope).(primaryPoison) → is_Some m'.(scope).(primaryPoison)) ∧
  (∀ j x, m.(scope).(descriptors) !! j = Some x →
     ∃ y, m'.(scope).(descriptors) !! j = Some y ∧ advance x y ∧
       (m.(scope).(active) ≠ Some j → y.(networkCalls) = x.(networkCalls))) ∧
  (∀ j x, m.(scope).(descriptors) !! j = Some x → m'.(scope).(active) = Some j →
     m.(scope).(active) = Some j ∨
     (is_primary x = true → m.(scope).(primaryPoison) = None)).

Lemma evolves_refl m : evolves m m.
Proof. split_and!; [done| |by left]. intros j x Hx. exists x. by repeat split. Qed.

Lemma evolves_set m i x y a p w g :
  m.(scope).(descriptors) !! i = Some x → advance x y →
  (m.(scope).(active) ≠ Some i → y.(networkCalls) = x.(networkCalls)) →
  (a = None ∨ a = m.(scope).(active)) →
  (is_Some m.(scope).(primaryPoison) → is_Some p) →
  evolves m {| scope := {| descriptors := <[i := y]> m.(scope).(descriptors); active := a;
                           primaryPoison := p |}; waiting := w; granted := g |}.
Proof.
  intros Hx Had Hc Ha Hp. split_and!; simpl; [done| |intros j z _ ->; destruct Ha; [done|by left]].
  intros j z Hz. rewrite (lookup_insert_if _ _ _ _ _ Hx). case_decide; simplify_eq; [eauto|].
  exists z. by repeat split.
Qed.

Lemma evolves_fail m i x e b t a w g :
  m.(scope).(descriptors) !! i = Some x → (a = None ∨ a = m.(scope).(active)) →
  evolves m {| scope := set_active a (poison_if b t (set_descriptor i (failed_with e x) m.(scope)));
               waiting := w; granted := g |}.
Proof.
  intros Hx Ha. replace (set_active a _) with {| descriptors := <[i := failed_with e x]> (descriptors (scope m));
    active := a; primaryPoison := if b then Some t else primaryPoison (scope m) |} by (by destruct b).
  apply (evolves_set _ _ x); auto using advance_failed. by destruct b.
Qed.

Lemma evolves_same m w g : evolves m {| scope := m.(scope); waiting := w; granted := g |}.
Proof. exact (evolves_refl m). Qed.

Lemma evolves_failing m i x e b t w g :
  m.(scope).(descriptors) !! i = Some x →
  evolves m {| scope := poison_if b t (set_descriptor i (failed_with e x) m.(scope));
               waiting := w; granted := g |}.
Proof.
  intros Hx. pose proof (evolves_fail m i x e b t (active (scope m)) w g Hx (or_intror eq_refl)) as H.
  by destruct b, m as [[]].
Qed.

Lemma evolves_finish m i (outcome : failure + unit) :
  m.(scope).(active) = Some i → evolves m (with_scope (finish_step m.(scope) i outcome).2 m).
Proof.
  intros Hi. unfold finish_step, fail_step. destruct (descriptors (scope m) !! i) as [x|] eqn:Hx.
  - destruct outcome as [e|a]; [apply evolves_fail; auto|].
    case_bool_decide as Hf; [apply evolves_fail; auto|].
    destruct (Z.eqb_spec (networkCalls x) 1) as [Hc|Hc]; simpl.
    + apply (evolves_set _ _ x); simpl; auto.
      constructor; simpl; [done|lia|intros _; by apply settled_spec; left|done].
    + rewrite (lookup_insert_if _ _ _ _ _ Hx), decide_True by done.
      unfold failed_keeping, set_descriptor. simpl. rewrite list_insert_insert_eq. by apply (evolves_fail m i x); auto.
  - split_and!; simpl; [done| |done]. intros j y Hy. exists y. by repeat split.
Qed.

Lemma evolves_enter m id index kind eligible :
  evolves m (with_scope (enter_step m.(scope) id index kind eligible).2 m).
Proof.
  assert (Hid : evolves m (with_scope (scope m) m)) by exact (evolves_refl m).
  unfold enter_step. destruct (enter_refusal _ _ _ _) as [[t b]|] eqn:Hr; simpl.
  - destruct (b && _); [|done]. destruct Hid as (_ & H2 & H3). split_and!; [done|exact H2|exact H3].
  - destruct (bool_decide (kind = compensation) && negb eligible); simpl; [done|].
    apply enter_ok in Hr as (_ & Hp & x & Hx & _ & Hk & _). split_and!; simpl; [done| |].
    + intros j y Hy. exists y. by repeat split.
    + intros j y Hy [= <-]. right. intros Hpr. apply Hp. assert (y = x) as -> by congruence.
      unfold is_primary in Hpr. apply bool_decide_eq_true in Hpr. unfold kind_of in Hk. congruence.
Qed.

Lemma evolves_step steps m e : scope_ok steps m → evolves m (scope_step m e).
Proof.
  intros Hok. destruct e as [id index kind eligible| |k answer aborted|aborted recorded|outcome]; simpl.
  - apply evolves_enter.
  - unfold authorize_begin. destruct (active_descriptor (scope m)) as [[i x]|] eqn:Ha; [|apply evolves_same].
    apply active_spec in Ha as [Ha Hx]. destruct (negb _ || _ || _); [by apply evolves_failing|apply evolves_same].
  - destruct (waiting m !! k) as [i|]; [|apply evolves_refl]. unfold authorize_end.
    destruct (descriptors (scope m) !! i) as [x|] eqn:Hx; [|apply evolves_same].
    destruct answer as [e|[denial|]]; simpl; [apply evolves_same|by apply evolves_failing|].
    destruct aborted; simpl; [apply evolves_same|]. apply (evolves_set _ _ x); simpl; auto. by constructor.
  - destruct (commit_check (scope m) aborted) as [[e|i] sc'] eqn:Hc.
    + unfold commit_check in Hc.
      destruct (active_descriptor (scope m)) as [[j x]|] eqn:Ha; [|simplify_eq; apply evolves_same].
      apply active_spec in Ha as [Ha Hx].
      destruct (negb _ || _ || _); [|destruct aborted; [simplify_eq; apply evolves_same|done]].
      injection Hc as <- <-. by apply evolves_failing.
    + apply commit_check_spec in Hc as (-> & Ha & x & Hx & Hst & _). unfold commit_dispatch. rewrite Hx.
      destruct recorded; [|by apply evolves_failing]. apply (evolves_set _ _ x); simpl; auto; [|done].
      constructor; simpl; [done|lia| |by rewrite Hst].
      intros Hset%settled_spec. rewrite Hst in Hset. by destruct Hset.
  - destruct (active (scope m)) as [i|] eqn:Hi; [by apply evolves_finish|apply evolves_refl].
Qed.

Lemma closed_step steps j n m e : scope_ok steps m → closed j n m → closed j n (scope_step m e).
Proof.
  intros Hok (x & Hx & Hn & Hc). destruct (evolves_step _ _ e Hok) as (Hp & Hd & Ha).
  destruct (Hd j x Hx) as (y & Hy & Had & Hcalls). exists y. split; [done|].
  destruct Hc as [Hf|(Hpo & Hpr & Hac)].
  - destruct (ad_failed _ _ Had Hf) as [Hst Hcl]. split; [lia|by left].
  - split; [rewrite Hcalls; done|]. right. split_and!; [auto| |].
    + unfold is_primary. by rewrite (ad_step _ _ Had).
    + intros Hj. destruct (Ha _ _ Hx Hj) as [?|H]; [done|]. rewrite (H Hpr) in Hpo. by destruct Hpo.
Qed.

Lemma closed_run steps j n m evs :
  scope_ok steps m → closed j n m → closed j n (run_events scope_step m evs).
Proof.
  intros Hok Hc. enough (scope_ok steps (run_events scope_step m evs) ∧
    closed j n (run_events scope_step m evs)) by tauto.
  apply (run_invariant scope_step (λ m, scope_ok steps m ∧ closed j n m)); [done|].
  intros m' e [Hok' Hc']. split; [by apply ok_step|by eapply closed_step].
Qed.

