(* ===== verification/AuthorityTable.v ===== *)
(** * The reviewed authority of the actions

    [harness/write-authority.ts]: [ACTION_SEMANTICS], the metadata of every write action
    of the catalog, and [writeAuthorityFor], which builds the frozen declaration from it
    and from the literal paths of the action's schema (an argument here: they come from
    the schema library).  What is proved holds of every row of the table: a plan that
    authority admits is one the dispatch gate accepts. *)
From S2P Require Import Prelude Js SafeJson SafetyLimits WriteAuthority.
From S2P Require Db MutationScope.
Open Scope Z_scope.
#[local] Arguments u : simpl never.

(** ** The builders *)

Inductive Cardinality : Type :=
| SingleExecution (maxExecutions : Z)
| FixedExecutions (maxExecutions : Z)
| PerArgument (maxExecutions maxArgumentItems : Z) (argumentPath : string).

Record ActionAuthoritySemantics := {
  derivedIds : list string;
  defaults : list string;
  preservedState : list string;
  authenticatedSelfLiterals : list string;
  cardinality : Cardinality;
  plans : list PlanRule;
}.

Definition max_executions (c : Cardinality) : Z :=
  match c with SingleExecution n | FixedExecutions n | PerArgument n _ _ => n end.

Definition rule (id : string) (kind : step_kind) (least most : nat) : StepRule :=
  {| rule_id := u id; rule_kind := kind; rule_min := least; rule_max := most |}.
Definition step (id : string) : StepRule := rule id Primary 1 1.
Definition steps_of (id : string) (least most : nat) : StepRule := rule id Primary least most.
Definition undoing (id : string) : StepRule := rule id Compensation 1 1.

Definition total (f : StepRule → nat) (rs : list StepRule) : Z := Z.of_nat (sum_list (f <$> rs)).
Definition plan (mode : plan_mode) (rs : list StepRule) : PlanRule :=
  {| rule_mode := mode; minSteps := total rule_min rs; maxSteps := total rule_max rs; rules := rs |}.
(** [{ ...plan, minSteps }] *)
Definition at_least (n : Z) (p : PlanRule) : PlanRule :=
  {| rule_mode := p.(rule_mode); minSteps := n; maxSteps := p.(maxSteps); rules := p.(rules) |}.

Definition single (id : string) (derived defaulted preserved self : list string) : ActionAuthoritySemantics :=
  {| derivedIds := derived; defaults := defaulted; preservedState := preserved;
     authenticatedSelfLiterals := self; cardinality := SingleExecution 1;
     plans := [plan Single [step id]] |}.
Definition fixed (n : Z) (ps : list PlanRule) (derived defaulted preserved self : list string)
    : ActionAuthoritySemantics :=
  {| derivedIds := derived; defaults := defaulted; preservedState := preserved;
     authenticatedSelfLiterals := self; cardinality := FixedExecutions n; plans := ps |}.
Definition repeated (n : Z) (path : string) (ps : list PlanRule)
    (derived defaulted preserved self : list string) (items : Z) : ActionAuthoritySemantics :=
  {| derivedIds := derived; defaults := defaulted; preservedState := preserved;
     authenticatedSelfLiterals := self; cardinality := PerArgument n items path; plans := ps |}.
Definition local : ActionAuthoritySemantics :=
  {| derivedIds := []; defaults := []; preservedState := []; authenticatedSelfLiterals := [];
     cardinality := SingleExecution 1; plans := [] |}.

(** ** The table *)

Definition ACTION_SEMANTICS : list (string * ActionAuthoritySemantics) :=
  [("assistant_update_permissions", local);
   ("clockify_start_timer", single "start-timer" ["operation.projectId"; "operation.taskId";
       "operation.tagIds[]"; "operation.body.projectId"; "operation.body.taskId";
       "operation.body.tagIds[]"; "operation.body.userId"] ["operation.body.start"] [] []);
   ("clockify_entries_create", single "create-time-entry" ["operation.projectId"; "operation.taskId";
       "operation.tagIds[]"; "operation.body.projectId"; "operation.body.taskId";
       "operation.body.tagIds[]"] [] [] []);
   ("clockify_entries_start", single "start-time-entry" ["operation.projectId"; "operation.taskId";
       "operation.tagIds[]"; "operation.body.projectId"; "operation.body.taskId";
       "operation.body.tagIds[]"; "operation.body.userId"] ["operation.body.start"] [] []);
   ("clockify_stop_timer", single "stop-timer" ["operation.entryId"; "operation.userId"] [] [] []);
   ("clockify_log_work", single "log-time-entry" ["operation.projectId"; "operation.taskId";
       "operation.tagIds[]"; "operation.body.projectId"; "operation.body.taskId";
       "operation.body.tagIds[]"] [] [] []);
   ("clockify_fix_entry", single "update-time-entry" ["operation.entryId"; "operation.projectId";
       "operation.taskId"; "operation.tagIds"; "operation.tagIds[]"; "operation.body.projectId";
       "operation.body.taskId"; "operation.body.tagIds[]"] ["operation.body.start"] [] []);
   ("clockify_entries_update", single "update-time-entry" ["operation.id"; "operation.projectId";
       "operation.taskId"; "operation.tagIds"; "operation.tagIds[]"; "operation.body.projectId";
       "operation.body.taskId"; "operation.body.tagIds[]"] ["operation.body.start"] [] []);
   ("clockify_entries_delete", single "delete-time-entry" ["operation.id"] [] [] []);
   ("clockify_entries_mark_invoiced", repeated 1 "ids[]"
      [plan Single [step "mark-entries-invoiced"]]
      ["operation.entryIds[]"] [] [] [] MARK_INVOICED_ENTRY_BATCH_MAX);
   ("clockify_create_work_package", fixed 5
      [plan Single [step "create-tag"];
       plan Single [step "create-client"];
       plan Single [step "create-project"];
       plan Single [step "create-task"];
       plan Single [step "start-timer"];
       at_least 2 (plan Curated [steps_of "create-tag" 0 1; steps_of "create-client" 0 1; steps_of
           "create-project" 0 1; steps_of "create-task" 0 1; steps_of "start-timer" 0 1])]
      ["operation.clientId"; "operation.projectId"; "operation.taskId"; "operation.tagId"]
          ["operation.timer.start"] [] []);
   ("clockify_projects_create", single "create-project" ["operation.clientId"; "operation.body.clientId"]
       ["operation.rateUnit"; "operation.body.rateUnit"] [] []);
   ("clockify_projects_from_template", single "create-project-from-template" ["operation.templateId";
       "operation.body.templateProjectId"] [] [] []);
   ("clockify_projects_update", single "update-project" ["operation.id"; "operation.projectId";
       "operation.clientId"; "operation.body.clientId"; "operation.patch.clientId"] [] [] []);
   ("clockify_projects_archive", single "archive-project" ["operation.id"; "operation.projectId"]
       ["operation.body.archived"] [] []);
   ("clockify_projects_delete", fixed 3
      [plan Single [step "delete-project"];
       plan Curated [step "archive-project-for-delete"; step "delete-project"; undoing "restore-project"]]
      ["operation.id"; "operation.projectId"] [] [] []);
   ("clockify_projects_delete_archived", single "delete-archived-project" ["operation.id";
       "operation.projectId"] [] [] []);
   ("clockify_projects_rate_update", single "update-project-rate" ["operation.projectId";
       "operation.userId"] [] [] ["userId"]);
   ("clockify_projects_member_hourly_rate_update", single "update-project-member-hourly-rate"
       ["operation.projectId"; "operation.userId"] [] [] ["userId"]);
   ("clockify_projects_member_cost_rate_update", single "update-project-member-cost-rate"
       ["operation.projectId"; "operation.userId"] [] [] ["userId"]);
   ("clockify_projects_estimate_update", single "update-project-estimate" ["operation.projectId"] [] [] []);
   ("clockify_projects_memberships_update", single "update-project-memberships" ["operation.projectId";
       "operation.userIds[]"; "operation.memberships[].userId"] [] [] ["addUserIds[]"]);
   ("clockify_projects_memberships_replace", single "replace-project-memberships" ["operation.projectId";
       "operation.memberships[].userId"] [] [] []);
   ("clockify_tasks_create", single "create-task" ["operation.projectId"; "operation.assigneeIds[]";
       "operation.body.projectId"; "operation.body.assigneeIds[]"] [] [] []);
   ("clockify_tasks_update", single "update-task" ["operation.projectId"; "operation.taskId";
       "operation.id"; "operation.assigneeIds[]"; "operation.body.projectId";
       "operation.body.assigneeIds[]"; "operation.patch.assigneeIds[]"] [] [] []);
   ("clockify_tasks_delete", fixed 3
      [plan Single [step "delete-task"];
       plan Curated [step "complete-task-for-delete"; step "delete-task"; undoing "restore-task-status"]]
      ["operation.projectId"; "operation.taskId"; "operation.id"; "operation.doneBody.projectId"] [] [] []);
   ("clockify_tasks_rate_update", single "update-task-rate" ["operation.projectId"; "operation.taskId"] []
       [] []);
   ("clockify_tasks_delete_completed", single "delete-completed-task" ["operation.projectId";
       "operation.taskId"; "operation.id"] [] [] []);
   ("clockify_tasks_status_update", single "update-task-status" ["operation.projectId"; "operation.taskId";
       "operation.id"; "operation.body.projectId"] [] [] []);
   ("clockify_tasks_assignees_replace", single "replace-task-assignees" ["operation.projectId";
       "operation.taskId"; "operation.id"; "operation.assigneeIds[]"; "operation.body.projectId";
       "operation.body.assigneeIds[]"] [] [] []);
   ("clockify_tasks_hourly_rate_update", single "update-task-hourly-rate" ["operation.projectId";
       "operation.taskId"] [] [] []);
   ("clockify_tasks_cost_rate_update", single "update-task-cost-rate" ["operation.projectId";
       "operation.taskId"] [] [] []);
   ("clockify_clients_create", fixed 2
      [plan Single [step "create-client"];
       plan Curated [step "create-client"; step "enrich-client"]]
      ["operation.enrichment.currencyId"] [] [] []);
   ("clockify_clients_create_base", single "create-client-base" [] [] [] []);
   ("clockify_clients_update", single "update-client" ["operation.clientId"; "operation.id";
       "operation.body.currencyId"; "operation.patch.currencyId"] [] [] []);
   ("clockify_clients_archive", single "archive-client" ["operation.id"] [] [] []);
   ("clockify_clients_delete", fixed 3
      [plan Single [step "delete-client"];
       plan Curated [step "archive-client"; step "delete-client"; undoing "restore-client"]]
      ["operation.clientId"; "operation.id"] [] [] []);
   ("clockify_clients_delete_archived", single "delete-archived-client" ["operation.id"] [] [] []);
   ("clockify_tags_create", single "create-tag" [] [] [] []);
   ("clockify_tags_update", single "update-tag" ["operation.tagId"; "operation.id"] [] [] []);
   ("clockify_tags_delete", single "delete-tag" ["operation.tagId"; "operation.id"] [] [] []);
   ("clockify_invoices_create", repeated INVOICE_CREATE_MUTATION_STEP_MAX "items[]"
      [plan Curated [step "create-invoice"; steps_of "enrich-invoice" 0 1; steps_of "add-invoice-item-*"
          0 (Z.to_nat INVOICE_ITEM_BATCH_MAX)]]
      ["operation.clientId"; "operation.base.clientId"; "operation.items[].itemType";
          "operation.items[].itemTypeId"] ["operation.number"; "operation.base.number";
          "operation.issuedDate"; "operation.base.issuedDate"; "operation.dueDate";
          "operation.base.dueDate"; "operation.currency"; "operation.base.currency";
          "operation.items[].description"; "operation.items[].quantity"; "operation.items[].amountUnit";
          "operation.items[].applyTaxes"] [] [] INVOICE_ITEM_BATCH_MAX);
   ("clockify_invoices_create_base", single "create-invoice-base" ["operation.base.clientId"]
       ["operation.base.number"; "operation.base.issuedDate"; "operation.base.dueDate";
       "operation.base.currency"] [] []);
   ("clockify_invoices_update", fixed 2
      [plan Curated [steps_of "update-invoice-fields" 0 1; steps_of "update-invoice-status" 0 1]]
      ["operation.invoiceId"; "operation.id"; "operation.clientId"; "operation.patch.clientId";
          "operation.updateBody.clientId"] [] [] []);
   ("clockify_invoices_fields_update", single "update-invoice-fields" ["operation.id";
       "operation.clientId"; "operation.patch.clientId"; "operation.updateBody.clientId"] [] [] []);
   ("clockify_invoices_status_update", single "update-invoice-status" ["operation.id"] [] [] []);
   ("clockify_invoices_delete", single "delete-invoice" ["operation.invoiceId"; "operation.id"] [] [] []);
   ("clockify_invoices_items_add", single "add-invoice-item" ["operation.invoiceId";
       "operation.itemTypeId"] ["operation.unitPriceUnit"] [] []);
   ("clockify_invoices_items_delete", single "delete-invoice-item" ["operation.invoiceId"] [] [] []);
   ("clockify_invoices_payments_create", single "record-payment" ["operation.invoiceId"]
       ["operation.amountUnit"] [] []);
   ("clockify_invoices_payments_delete", single "delete-invoice-payment" ["operation.invoiceId";
       "operation.paymentId"] [] [] []);
   ("clockify_invoices_import_time", repeated 1 "projectIds[]"
      [plan Single [step "import-invoice-time"]]
      ["operation.invoiceId"; "operation.projectId"; "operation.userId"; "operation.range.projectIds[]"]
          [] [] [] INVOICE_IMPORT_PROJECT_BATCH_MAX);
   ("clockify_expenses_create", single "create-expense" ["operation.categoryId"; "operation.projectId";
       "operation.taskId"; "operation.userId"; "operation.body.categoryId"; "operation.body.projectId";
       "operation.body.taskId"; "operation.body.userId"; "operation.input.categoryId";
       "operation.input.projectId"; "operation.input.taskId"; "operation.input.userId"]
       ["operation.amountUnit"; "operation.body.amountUnit"] [] []);
   ("clockify_expenses_update", single "update-expense" ["operation.expenseId"; "operation.id";
       "operation.categoryId"; "operation.projectId"; "operation.taskId"; "operation.body.categoryId";
       "operation.body.projectId"; "operation.body.taskId"; "operation.updateBody.userId";
       "operation.updateBody.categoryId"; "operation.updateBody.projectId"; "operation.updateBody.taskId";
       "operation.values.categoryId"; "operation.values.projectId"; "operation.values.taskId"]
       ["operation.amountUnit"; "operation.body.amountUnit"] [] []);
   ("clockify_expenses_delete", single "delete-expense" ["operation.expenseId"; "operation.id"] [] [] []);
   ("clockify_expenses_categories_create", single "create-expense-category" [] [] [] []);
   ("clockify_expenses_categories_rename", single "rename-expense-category" ["operation.categoryId";
       "operation.id"] [] [] []);
   ("clockify_expenses_categories_status_update", single "set-expense-category-status"
       ["operation.categoryId"; "operation.id"] [] [] []);
   ("clockify_expenses_categories_delete_archived", single "delete-expense-category"
       ["operation.categoryId"; "operation.id"] [] [] []);
   ("clockify_expenses_categories_update", fixed 2
      [plan Single [step "rename-expense-category"];
       plan Single [step "set-expense-category-status"];
       plan Curated [step "rename-expense-category"; step "set-expense-category-status"]]
      ["operation.categoryId"; "operation.id"] [] [] []);
   ("clockify_expenses_categories_delete", fixed 2
      [plan Single [step "delete-expense-category"];
       plan Curated [step "archive-expense-category"; step "delete-expense-category"]]
      ["operation.categoryId"; "operation.id"] [] [] []);
   ("clockify_custom_fields_create", single "create-custom-field" ["operation.projectId"] [] [] []);
   ("clockify_custom_fields_update", single "update-custom-field" ["operation.customFieldId";
       "operation.id"] [] [] []);
   ("clockify_custom_fields_delete", single "delete-custom-field" ["operation.customFieldId";
       "operation.id"] [] [] []);
   ("clockify_custom_fields_set_value_project", single "set-project-custom-field" ["operation.projectId";
       "operation.fieldId"; "operation.customFieldId"] [] [] []);
   ("clockify_custom_fields_set_value_entry", single "set-entry-custom-field" ["operation.entryId";
       "operation.fieldId"; "operation.customFieldId"; "operation.prepared.body.projectId";
       "operation.prepared.body.taskId"; "operation.prepared.body.tagIds[]";
       "operation.prepared.body.customFieldValues[].customFieldId"; "operation.prepared.source.projectId";
       "operation.prepared.source.taskId"; "operation.prepared.source.tagIds[]";
       "operation.prepared.source.customFieldValues[].customFieldId"] ["operation.prepared.body.start";
       "operation.prepared.source.start"] ["operation.prepared.body.description";
       "operation.prepared.source.description"] []);
   ("clockify_time_off_policies_create", single "create-time-off-policy" ["operation.input.userId";
       "operation.input.userIds[]"; "operation.input.userGroupIds[]"] [] [] []);
   ("clockify_time_off_policies_update", single "update-time-off-policy" ["operation.policyId";
       "operation.id"; "operation.patch.userIds[]"; "operation.patch.userGroupIds[]";
       "operation.updateBody.userIds[]"; "operation.updateBody.userGroupIds[]";
       "operation.updateBody.body.userIds[]"; "operation.updateBody.body.userGroupIds[]";
       "operation.updateBody.source.userIds[]"; "operation.updateBody.source.userGroupIds[]"] [] [] []);
   ("clockify_time_off_policies_archive", single "archive-time-off-policy" ["operation.policyId";
       "operation.id"] ["operation.archived"] [] []);
   ("clockify_time_off_requests_create", single "create-time-off-request" ["operation.policyId";
       "operation.userId"] [] [] []);
   ("clockify_time_off_requests_create_days", single "create-time-off-request" ["operation.policyId";
       "operation.userId"] [] [] []);
   ("clockify_time_off_requests_create_hours", single "create-time-off-request" ["operation.policyId";
       "operation.userId"] [] [] []);
   ("clockify_time_off_requests_delete", single "delete-time-off-request" ["operation.policyId";
       "operation.requestId"; "operation.id"] [] [] []);
   ("clockify_time_off_approve", single "approve-time-off-request" ["operation.policyId";
       "operation.requestId"; "operation.id"] [] [] []);
   ("clockify_time_off_deny", single "deny-time-off-request" ["operation.policyId"; "operation.requestId";
       "operation.id"] [] [] []);
   ("clockify_time_off_balance_update", repeated 1 "userIds[]"
      [plan Single [step "update-time-off-balance"]]
      ["operation.policyId"; "operation.userIds[]"; "operation.expectedBalances[].userId"] [] [] []
          TIME_OFF_BALANCE_USER_BATCH_MAX);
   ("clockify_holidays_create", single "create-holiday" ["operation.body.userIds[]";
       "operation.body.userGroupIds[]"] [] [] []);
   ("clockify_holidays_update", single "update-holiday" ["operation.holidayId"; "operation.id";
       "operation.body.userIds[]"; "operation.body.userGroupIds[]"; "operation.updateBody.userIds[]";
       "operation.updateBody.userGroupIds[]"; "operation.updateBody.source.userIds[]";
       "operation.updateBody.source.userGroupIds[]"] [] [] []);
   ("clockify_holidays_delete", single "delete-holiday" ["operation.holidayId"; "operation.id"] [] [] []);
   ("clockify_scheduling_assignments_create", single "create-assignment" ["operation.input.userId";
       "operation.input.projectId"; "operation.filter.userId"; "operation.filter.projectId"] [] [] []);
   ("clockify_scheduling_assignments_update", single "update-assignment" ["operation.assignmentId";
       "operation.id"; "operation.body.userId"; "operation.body.projectId"] ["operation.body.start"] []
       []);
   ("clockify_scheduling_assignments_delete", single "delete-assignment" ["operation.assignmentId";
       "operation.id"] [] [] []);
   ("clockify_scheduling_publish", single "publish-schedule" ["operation.userId";
       "operation.userFilter.userIds[]"] [] [] []);
   ("clockify_approvals_submit", single "submit-approval" ["operation.userId"] ["operation.period"] [] []);
   ("clockify_approvals_approve", single "set-approval-state" ["operation.approvalId"; "operation.id"]
       ["operation.state"] [] []);
   ("clockify_approvals_approve_pending", fixed APPROVAL_PENDING_BATCH_MAX
      [plan Batch [steps_of "approve-pending-*" 1 (Z.to_nat APPROVAL_PENDING_BATCH_MAX)]]
      ["operation.approvals[].id"] ["operation.approvals[].previousState"] [] []);
   ("clockify_approvals_reject", single "set-approval-state" ["operation.approvalId"; "operation.id"]
       ["operation.state"] [] []);
   ("clockify_approvals_withdraw", single "withdraw-approval" ["operation.approvalId"; "operation.id"]
       ["operation.state"] [] []);
   ("clockify_approvals_resubmit", single "resubmit-approval" ["operation.approvalId"; "operation.id"]
       ["operation.period"] [] []);
   ("clockify_webhooks_create", single "create-webhook" [] [] [] []);
   ("clockify_webhooks_update", single "update-webhook" ["operation.webhookId"; "operation.id"] [] [] []);
   ("clockify_webhooks_delete", single "delete-webhook" ["operation.webhookId"; "operation.id"] [] [] []);
   ("clockify_users_invite", single "invite-user" [] ["operation.sendEmail"] [] []);
   ("clockify_users_role_update", single "update-user-role" ["operation.groupId"; "operation.projectId";
       "operation.userId"; "operation.granteeId"; "operation.entityId"] [] [] []);
   ("clockify_users_rate_update", single "update-user-rate" ["operation.userId"] ["operation.amountUnit"]
       [] []);
   ("clockify_users_hourly_rate_update", single "update-user-hourly-rate" ["operation.userId"] [] []
       ["userId"]);
   ("clockify_users_cost_rate_update", single "update-user-cost-rate" ["operation.userId"] [] [] ["userId"]);
   ("clockify_users_deactivate", single "deactivate-user" ["operation.userId"] [] [] []);
   ("clockify_groups_create", single "create-group" [] [] [] []);
   ("clockify_groups_update", single "update-group" ["operation.groupId"; "operation.id"] [] [] []);
   ("clockify_groups_delete", single "delete-group" ["operation.groupId"; "operation.id"] [] [] []);
   ("clockify_groups_add_user", repeated GROUP_MEMBER_BATCH_MAX "members[]"
      [plan Single [step "add-user-to-group-*"];
       plan Batch [steps_of "add-user-to-group-*" 2 (Z.to_nat GROUP_MEMBER_BATCH_MAX)]]
      ["operation.groupId"; "operation.userIds[]"] [] [] [] GROUP_MEMBER_BATCH_MAX);
   ("clockify_groups_add_member", single "add-user-to-group" ["operation.groupId"; "operation.userId"] []
       [] []);
   ("clockify_groups_remove_user", single "remove-user-from-group" ["operation.groupId";
       "operation.userId"] [] [] []);
   ("clockify_delete_entity", fixed 3
      [plan Single [step "delete-project"];
       plan Curated [step "archive-project"; step "delete-project"; undoing "restore-project"];
       plan Single [step "delete-client"];
       plan Curated [step "archive-client"; step "delete-client"; undoing "restore-client"];
       plan Single [step "delete-tag"];
       plan Single [step "delete-time_entry"];
       plan Single [step "delete-invoice"];
       plan Single [step "delete-expense"];
       plan Single [step "delete-webhook"];
       plan Single [step "delete-group"]]
      ["operation.id"; "operation.projectId"] [] [] []);
   ("clockify_update_entity", fixed 1
      [plan Single [step "update-project"];
       plan Single [step "update-client"];
       plan Single [step "update-tag"]]
      ["operation.id"; "operation.body.clientId"] [] [] []);
   ("clockify_onboard_user", repeated ONBOARD_USER_MUTATION_STEP_MAX "groups[]"
      [plan Single [step "invite-user"];
       plan Curated [step "invite-user"; steps_of "add-user-to-group-*" 1 (Z.to_nat ONBOARD_GROUP_BATCH_MAX)]]
      ["operation.groups[].id"; "operation.groupIds[]"; "operation.userId"] ["operation.sendEmail"] []
          [] ONBOARD_GROUP_BATCH_MAX);
   ("clockify_setup_project", repeated SETUP_PROJECT_MUTATION_STEP_MAX "memberRates[]"
      [plan Single [step "create-project"];
       plan Curated [step "create-project"; steps_of "add-project-members" 0 1; steps_of
           "set-project-rate-*" 0 (Z.to_nat SETUP_PROJECT_RATE_BATCH_MAX)]]
      ["operation.clientId"; "operation.userIds[]"; "operation.addUserIds[]";
          "operation.memberRates[].userId"] ["operation.projectRateKind";
          "operation.memberRates[].kind"; "operation.rateUnit"] [] [] SETUP_PROJECT_RATE_BATCH_MAX);
   ("clockify_setup_task", repeated 2 "assignees[]"
      [plan Single [step "create-task"];
       plan Curated [step "create-task"; step "set-task-rate"]]
      ["operation.projectId"; "operation.assigneeIds[]"] ["operation.rate.kind"; "operation.rateUnit"]
          [] [] SETUP_TASK_ASSIGNEE_BATCH_MAX)].

Definition writeAuthorityActionNames : list string := ACTION_SEMANTICS.*1.

(** ** The declaration of an action *)

Definition jstr_sorted (l : list jstr) : list jstr := merge_sort jstr_le (remove_dups l).

Definition writeAuthorityFor (literalPaths : list jstr) (name : string) : result WriteAuthorityMetadata :=
  match list_find (λ kv, kv.1 = name) ACTION_SEMANTICS with
  | None => Throw "missing_write_authority_semantics"
  | Some (_, (_, x)) =>
      if existsb (λ p, negb (bool_decide (u p ∈ literalPaths))) x.(authenticatedSelfLiterals)
      then Throw "invalid_authenticated_self_literal_path"
      else Ok {|
        literalControlledPaths := literalPaths;
        serverDerivedIdPaths := jstr_sorted (u <$> ["operation.operationId"; "operation.workspaceId";
          "operation.adminUserId"] ++ x.(derivedIds));
        permittedServerDefaultPaths := jstr_sorted (u <$> x.(defaults));
        preservedStatePaths := jstr_sorted (u <$> x.(preservedState) ++ ["operation.body.*";
          "operation.prepared.body.*"; "operation.prepared.source.*"; "operation.patch.*";
          "operation.updateBody.*"; "operation.doneBody.*"; "operation.archiveBody.*";
          "operation.restoreBody.*"; "operation.originalBody.*"]);
        maxExecutions := max_executions x.(cardinality);
        mutationPlans := x.(plans);
      |}
  end.

(** ** A check of every row *)

Definition starred (r : StepRule) : bool := ends_with_star r.(rule_id).
Definition core (r : StepRule) : jstr := if starred r then butlast r.(rule_id) else r.(rule_id).

(** Two rules that could give the same id. *)
Definition clash (r1 r2 : StepRule) : bool :=
  if starred r1 || starred r2 then starts_with (core r1) (core r2) || starts_with (core r2) (core r1)
  else bool_decide (core r1 = core r2).

Fixpoint apart (rs : list StepRule) : bool :=
  match rs with
  | [] => true
  | r :: rs' =>
      negb (bool_decide (core r = [])) && (starred r || (r.(rule_max) <=? 1)%nat) &&
      forallb (λ r2, negb (clash r r2)) rs' && apart rs'
  end.

Definition row_ok (x : ActionAuthoritySemantics) : bool :=
  (max_executions x.(cardinality) <=? TURN_HOST_CALL_LIMIT) &&
  forallb (λ v, apart v.(rules) && (v.(maxSteps) <=? max_executions x.(cardinality)) &&
                (v.(minSteps) <=? v.(maxSteps))) x.(plans).

Lemma table_ok : forallb (λ kv, row_ok kv.2) ACTION_SEMANTICS = true.
Proof. vm_compute. reflexivity. Qed.

(** ** Admitted plans have distinct step ids *)

(** An id a rule can give. *)
Definition gives (r : StepRule) (id : jstr) (k : nat) : Prop := stepIdMatches r.(rule_id) id k = true.

Lemma gives_core r id k :
  gives r id k ↔ id = (if starred r then core r ++ digits (N.of_nat k) else core r).
Proof. unfold gives, stepIdMatches, core, starred. by destruct (ends_with_star _); rewrite bool_decide_eq_true. Qed.

Lemma prefix_or (p q a b : jstr) :
  p ++ a = q ++ b → starts_with p q = true ∨ starts_with q p = true.
Proof.
  rewrite !starts_with_spec. intros H. apply app_eq_inv in H as [(k & -> & ->)|(k & -> & ->)]; eauto.
Qed.

Lemma gives_clash r1 r2 id k1 k2 : gives r1 id k1 → gives r2 id k2 → clash r1 r2 = true.
Proof.
  rewrite !gives_core. unfold clash. intros -> H.
  destruct (starred r1), (starred r2); simpl; rewrite ?orb_true_iff; try by apply bool_decide_eq_true.
  - by eapply prefix_or.
  - apply (prefix_or _ _ (digits (N.of_nat k1)) []). by rewrite app_nil_r.
  - apply (prefix_or _ _ [] (digits (N.of_nat k2))). by rewrite app_nil_r.
Qed.

Lemma step_matches_gives r s k : step_matches r s k = true → gives r s.(plan_step_id) k.
Proof. unfold step_matches. by intros [_ ?]%andb_true_iff. Qed.

Lemma apart_distinct actual rs :
  step_sequence actual rs → apart rs = true →
  NoDup (plan_step_id <$> actual) ∧ [] ∉ plan_step_id <$> actual.
Proof.
  induction 1 as [|segment rest r rs Hlen Hall Hseq IH]; [intros _; split; [constructor|apply not_elem_of_nil]|].
  simpl. rewrite !andb_true_iff, forallb_forall. intros (((Hne%negb_true_iff & Hone) & Hrs) & Hap).
  apply bool_decide_eq_false in Hne. destruct (IH Hap) as [Hnd Hnil].
  assert (∀ i s, segment !! i = Some s → gives r s.(plan_step_id) i) as Hg.
  { intros i s Hs. by apply step_matches_gives, Hall. }
  rewrite fmap_app. split.
  - apply NoDup_app. split_and!; [| |done].
    + apply NoDup_alt. intros i j id Hi Hj. rewrite list_lookup_fmap in Hi, Hj.
      destruct (segment !! i) as [s|] eqn:Hs, (segment !! j) as [t|] eqn:Ht; try done.
      injection Hi as <-. injection Hj as Hj.
      pose proof (proj1 (gives_core _ _ _) (Hg _ _ Hs)) as Hgi. pose proof (proj1 (gives_core _ _ _) (Hg _ _ Ht)) as Hgj. rewrite Hj, Hgi in Hgj.
      destruct (starred r); [by apply app_inv_head, (inj _) in Hgj; lia|].
      apply lookup_lt_Some in Hs, Ht. simpl in Hone. apply Nat.leb_le in Hone. lia.
    + intros id (s & -> & [i Hi]%list_elem_of_lookup)%list_elem_of_fmap (t & Heq & Ht)%list_elem_of_fmap.
      destruct (sequence_declared _ _ Hseq t Ht) as (r2 & k & Hr2 & Hk).
      apply step_matches_gives in Hk. rewrite <- Heq in Hk.
      pose proof (gives_clash _ _ _ _ _ (Hg i s Hi) Hk) as Hc.
      specialize (Hrs r2 (proj1 (list_elem_of_In _ _) Hr2)). by rewrite Hc in Hrs.
  - rewrite elem_of_app. intros [(s & Heq & [i Hi]%list_elem_of_lookup)%list_elem_of_fmap|]; [|done].
    apply Hg, gives_core in Hi. rewrite <- Heq in Hi. destruct (starred r); [|done].
    by apply eq_sym, app_nil in Hi as [? _].
Qed.

Lemma authority_row lit name a :
  writeAuthorityFor lit name = Ok a →
  name ∈ writeAuthorityActionNames ∧ a.(maxExecutions) ≤ TURN_HOST_CALL_LIMIT ∧
  ∀ v, v ∈ a.(mutationPlans) → apart v.(rules) = true.
Proof.
  unfold writeAuthorityFor. destruct (list_find _ _) as [[i [n x]]|] eqn:Hf; [|done].
  apply list_find_Some in Hf as (Hi & Hn & _). simpl in Hn. subst n.
  destruct (existsb _ _); [done|]. intros [= <-]. simpl.
  apply list_elem_of_lookup_2 in Hi. split; [by apply (list_elem_of_fmap_2 fst) in Hi|].
  pose proof table_ok as Ht. rewrite forallb_forall in Ht.
  specialize (Ht _ (proj1 (list_elem_of_In _ _) Hi)). unfold row_ok in Ht. simpl in Ht.
  apply andb_true_iff in Ht as [Hm Hv]. split; [by apply Z.leb_le|].
  intros v Hin. rewrite forallb_forall in Hv. specialize (Hv v (proj1 (list_elem_of_In _ _) Hin)).
  by apply andb_true_iff in Hv as [[? _]%andb_true_iff _].
Qed.

(** The steps of a plan as the dispatch gate sees them. *)
Definition scope_kind (k : step_kind) : Db.StepKind :=
  match k with Primary => Db.primary | Compensation => Db.compensation end.
Definition scope_steps (p : ExternalMutationPlan) : list MutationScope.MutationPlanScopeStep :=
  (λ s, {| MutationScope.scope_step_id := s.(plan_step_id);
           MutationScope.scope_step_kind := scope_kind s.(plan_step_kind) |}) <$> p.(steps).

(** Authority and the dispatch gate agree.  For every action of the reviewed table, a
    plan its authority admits has at most sixty steps with distinct non-empty ids, so
    [withMutationPlanScope] never refuses it as malformed: the run-time gate of an
    admitted operation is always installed. *)
Theorem admitted_plan_installs lit name a operation p :
  writeAuthorityFor lit name = Ok a →
  validateWriteAuthorityOperation (Some a) operation (Some p) = None →
  name ∈ writeAuthorityActionNames ∧
  Z.of_nat (length p.(steps)) ≤ TURN_HOST_CALL_LIMIT ∧ NoDup (plan_step_id <$> p.(steps)) ∧
  MutationScope.scope_plan_refusal p.(maxHostCalls) (scope_steps p) = None.
Proof.
  intros (Hname & Hmax & Hap)%authority_row Hv. simpl in Hv.
  case_bool_decide as Hne; [done|]. destruct (Z.ltb_spec (maxExecutions a) (Z.of_nat (length (steps p)))); [done|].
  destruct (_ || _) eqn:Hcalls; [done|]. destruct (existsb _ _) eqn:He; [|done].
  apply existsb_exists in He as (v & Hin%list_elem_of_In & Hm). unfold variant_matches in Hm.
  apply andb_true_iff in Hm as [_ Hm%stepsMatch_exact].
  destruct (apart_distinct _ _ Hm (Hap v Hin)) as [Hnd Hnil]. split_and!; [done|lia|done|].
  assert (MutationScope.scope_step_id <$> scope_steps p = plan_step_id <$> p.(steps)) as Hids.
  { unfold scope_steps. by rewrite <- list_fmap_compose. }
  unfold MutationScope.scope_plan_refusal. rewrite Hids. unfold TURN_HOST_CALL_LIMIT in Hcalls. rewrite Hcalls.
  rewrite bool_decide_false by (unfold scope_steps; by intros ?%fmap_nil_inv).
  by rewrite (bool_decide_false _ Hnil), (bool_decide_true _ Hnd).
Qed.

Definition invoice_plan : ExternalMutationPlan :=
  {| mode := Curated; maxHostCalls := 30; steps := (λ id, {| plan_step_id := u id; plan_step_kind := Primary;
       plan_target_fingerprint := None; plan_reconciliation := Some StrategyCreate |}) <$>
     ["create-invoice"; "add-invoice-item-0"; "add-invoice-item-1"] |}.
Definition invoice_operation : jsval :=
  VObj [(u "clientId", VStr (u "c1")); (u "base", VObj [(u "number", VStr (u "7"))]);
        (u "items", VArr [VObj [(u "itemType", VStr (u "NEW")); (u "description", VStr (u "work"))]])].

Lemma admitted_plan_installs_witness :
  (∃ a, writeAuthorityFor [] "clockify_invoices_create" = Ok a ∧
    validateWriteAuthorityOperation (Some a) invoice_operation (Some invoice_plan) = None) ∧
  NoDup (plan_step_id <$> invoice_plan.(steps)) ∧
  MutationScope.scope_plan_refusal 30 (scope_steps invoice_plan) = None.
Proof.
  set (a := match writeAuthorityFor [] "clockify_invoices_create" with Ok a => a | Throw _ =>
    {| literalControlledPaths := []; serverDerivedIdPaths := []; permittedServerDefaultPaths := [];
       preservedStatePaths := []; maxExecutions := 0; mutationPlans := [] |} end).
  assert (writeAuthorityFor [] "clockify_invoices_create" = Ok a) as Ha by (vm_compute; reflexivity).
  assert (validateWriteAuthorityOperation (Some a) invoice_operation (Some invoice_plan) = None) as Hv
    by (vm_compute; reflexivity).
  destruct (admitted_plan_installs [] "clockify_invoices_create" a invoice_operation invoice_plan Ha Hv)
    as (_ & _ & Hnd & Hs).
  split; [exists a; split; assumption|split; assumption].
Defined.
