(* ===== verification/PlanScope.v ===== *)
(** * Running mutations under a plan scope

    [clockify/rest/core.ts]: the functions that install a scope, run one step in it and
    cross the dispatch boundary, over any state that holds a scope and a host-call
    budget.  What [AsyncLocalStorage] provides is a component of that state, installed
    around a computation and taken out again. *)
From S2P Require Import Prelude Js Db Effects MutationScope.
From S2P Require HostBudget SafetyLimits.
Open Scope Z_scope.
#[local] Arguments u : simpl never.

(** ** What the state provides *)

Class MutationHost (S : Type) := {
  scope_of : S → option MutationPlanScopeState;
  set_scope : option MutationPlanScopeState → S → S;
  budget_of : S → HostBudget.budget_ctx;
  set_budget : HostBudget.budget_ctx → S → S;
  scope_set : ∀ x s, scope_of (set_scope x s) = x;
  scope_budget : ∀ b s, scope_of (set_budget b s) = scope_of s;
  budget_set : ∀ b s, budget_of (set_budget b s) = b;
  budget_scope : ∀ x s, budget_of (set_scope x s) = budget_of s;
}.

(** The hooks of a scope; an absent hook is the one that answers [undefined]. *)
Record ScopeHooks (S : Type) := {
  authorizeDispatch : MutationPlanScopeStep → E S (option jsval);
  onDispatch : MutationPlanScopeStep → E S unit;
  compensationEligible : jstr → E S bool;
  authoritativelyReconciled : jstr → E S bool;
}.
Arguments authorizeDispatch {S}. Arguments onDispatch {S}.
Arguments compensationEligible {S}. Arguments authoritativelyReconciled {S}.

Section Scoped.
Context {S : Type} `{!MutationHost S} (hooks : ScopeHooks S).

Definition scope_required {A} : E S A := ethrow (MutationPlanViolation (u "mutation_scope_required")).

(** A transition of the installed scope. *)
Definition on_scope {A} (f : MutationPlanScopeState → (failure + A) * MutationPlanScopeState) : E S A := λ s,
  match scope_of s with
  | None => scope_required s
  | Some sc => let '(r, sc') := f sc in (r, set_scope (Some sc') s)
  end.

Definition withMutationPlanStep {A} (id : jstr) (index : nat) (kind : StepKind) (run : E S A) : E S A := λ s,
  match scope_of s with
  | None => run s
  | Some sc =>
      (let* eligible := (if bool_decide (enter_refusal sc id index kind = None ∧ kind = compensation)
                         then hooks.(compensationEligible) id else eret false) in
       let* i := on_scope (λ sc, enter_step sc id index kind eligible) in
       let* outcome := eattempt run in
       on_scope (λ sc, finish_step sc i outcome)) s
  end.

(** The planned step of a descriptor. *)
Definition descriptor_step (i : nat) : E S MutationPlanScopeStep := λ s,
  match scope_of s ≫= λ sc, sc.(descriptors) !! i with
  | Some x => (inr x.(plan_step_of), s)
  | None => scope_required s
  end.

(** [aborted] reads the cancellation signal. *)
Definition authorizeScopedMutationDispatch (aborted : S → bool) : E S unit :=
  let* i := on_scope authorize_begin in
  let* step := descriptor_step i in
  let* answer := eattempt (hooks.(authorizeDispatch) step) in
  let* s := eget in
  on_scope (λ sc, authorize_end sc i answer (aborted s)).

Definition commitScopedMutationDispatch (aborted : S → bool) : E S unit :=
  let* s := eget in
  let* i := on_scope (λ sc, commit_check sc (aborted s)) in
  let* step := descriptor_step i in
  let* recorded := eattempt (hooks.(onDispatch) step) in
  on_scope (λ sc, commit_dispatch sc i (match recorded with inr _ => true | inl _ => false end)).

(** ** The scope of an operation *)

Definition ambiguous (e : option failure) : bool :=
  match e with
  | Some (MutationPlanViolation _) | Some (MutationDispatchDenied _)
  | Some (DefinitiveWriteFailure _ _ _ _) => false
  | _ => true
  end.

Definition reconciledAmbiguousDescriptor (x : MutationDescriptorState) : E S bool :=
  if bool_decide (x.(descriptor_status) = Failed) && ambiguous x.(descriptor_failure)
  then etry (hooks.(authoritativelyReconciled) (id_of x)) (λ _, eret false)
  else eret false.

(** The first primary that is neither completed nor reconciled. *)
Fixpoint find_incomplete (ds : list MutationDescriptorState) : E S (option jstr) :=
  match ds with
  | [] => eret None
  | x :: ds' =>
      if is_primary x && negb (bool_decide (x.(descriptor_status) = Completed)) then
        let* reconciled := reconciledAmbiguousDescriptor x in
        if reconciled then find_incomplete ds' else eret (Some (id_of x))
      else find_incomplete ds'
  end.

Definition current_descriptors : E S (list MutationDescriptorState) := λ s,
  (inr (match scope_of s with Some sc => sc.(descriptors) | None => [] end), s).

Definition complete_run {A} (requiresComplete : A → bool) (run : E S A) : E S A :=
  let* result := run in
  if requiresComplete result then
    let* ds := current_descriptors in
    let* incomplete := find_incomplete ds in
    match incomplete with
    | Some id => ethrow (MutationPlanViolation (message_of "mutation_plan_incomplete:" id))
    | None => eret result
    end
  else eret result.

(** [mutationPlanStorage.run(scope, ...)] *)
Definition with_installed {A} (sc : MutationPlanScopeState) (c : E S A) : E S A := λ s,
  let outer := scope_of s in
  let '(r, s') := c (set_scope (Some sc) s) in (r, set_scope outer s').

(** [withReservedHostCallBudget(count, c)] *)
Definition with_reserved {A} (count : Z) (c : E S A) : E S A := λ s,
  let b := budget_of s in
  match HostBudget.withReservedHostCallBudget b count with
  | Throw _ =>
      (inl (HostCallBudgetExceededError
              (match HostBudget.budget b with Some x => HostBudget.maximum x | None => 0 end) count), s)
  | Ok b' =>
      let '(r, s') := c (set_budget b' s) in
      (r, set_budget {| HostBudget.budget := HostBudget.budget (budget_of s');
                        HostBudget.reservation := HostBudget.reservation b;
                        HostBudget.tokens := HostBudget.tokens (budget_of s') |} s')
  end.

Definition withMutationPlanScope {A} (maxHostCalls : Z) (steps : list MutationPlanScopeStep)
    (requiresComplete : A → bool) (run : E S A) : E S A :=
  match scope_plan_refusal maxHostCalls steps with
  | Some code => ethrow (MutationPlanViolation (u code))
  | None => with_reserved maxHostCalls (with_installed (new_scope steps) (complete_run requiresComplete run))
  end.

(** ** What a finished step says *)

(** The plan of the installed scope stays what it is. *)
Definition keeps_plan (s s' : S) : Prop :=
  ∀ sc, scope_of s = Some sc → ∃ sc', scope_of s' = Some sc' ∧
    plan_step_of <$> sc'.(descriptors) = plan_step_of <$> sc.(descriptors).

#[export] Instance keeps_plan_refl : Reflexive keeps_plan.
Proof. intros s sc Hs. eauto. Qed.
#[export] Instance keeps_plan_trans : Transitive keeps_plan.
Proof.
  intros s1 s2 s3 H1 H2 sc Hs. destruct (H1 sc Hs) as (sc2 & Hs2 & Hp2).
  destruct (H2 sc2 Hs2) as (sc3 & Hs3 & Hp3). exists sc3. split; [done|congruence].
Qed.

(** Whatever leaves the scope alone keeps its plan. *)
Lemma keeps_plan_same (s s' : S) : scope_of s' = scope_of s → keeps_plan s s'.
Proof. intros He sc Hs. exists sc. by rewrite He. Qed.

Lemma set_plan i x y sc :
  sc.(descriptors) !! i = Some x → y.(plan_step_of) = x.(plan_step_of) →
  plan_step_of <$> (set_descriptor i y sc).(descriptors) = plan_step_of <$> sc.(descriptors).
Proof.
  intros Hx Hy. simpl. rewrite list_fmap_insert, Hy. apply list_insert_id. by rewrite list_lookup_fmap, Hx.
Qed.

Lemma poison_plan b m sc : (poison_if b m sc).(descriptors) = sc.(descriptors).
Proof. by destruct b. Qed.

Lemma on_scope_keeps {A} (f : MutationPlanScopeState → (failure + A) * MutationPlanScopeState) :
  (∀ sc, plan_step_of <$> (f sc).2.(descriptors) = plan_step_of <$> sc.(descriptors)) →
  respects keeps_plan (on_scope f).
Proof.
  intros Hf s sc Hs. unfold on_scope. rewrite Hs. specialize (Hf sc). destruct (f sc) as [r sc'].
  exists sc'. simpl. by rewrite scope_set.
Qed.

Ltac same_plan := repeat case_match; simplify_eq/=; rewrite ?poison_plan; try done; by eapply set_plan.

(** The transitions of the boundary keep the plan. *)
Lemma begin_plan sc : plan_step_of <$> (authorize_begin sc).2.(descriptors) = plan_step_of <$> sc.(descriptors).
Proof.
  unfold authorize_begin. destruct (active_descriptor sc) as [[i x]|] eqn:Ha; [|done].
  apply bind_Some in Ha as (j & Hj & (y & Hy & [= <- <-])%bind_Some). unfold excess. same_plan.
Qed.
Lemma end_plan i a b sc : plan_step_of <$> (authorize_end sc i a b).2.(descriptors) = plan_step_of <$> sc.(descriptors).
Proof. unfold authorize_end, denied. same_plan. Qed.
Lemma check_plan b sc : plan_step_of <$> (commit_check sc b).2.(descriptors) = plan_step_of <$> sc.(descriptors).
Proof.
  unfold commit_check. destruct (active_descriptor sc) as [[i x]|] eqn:Ha; [|done].
  apply bind_Some in Ha as (j & Hj & (y & Hy & [= <- <-])%bind_Some). unfold excess. same_plan.
Qed.
Lemma dispatch_plan i b sc : plan_step_of <$> (commit_dispatch sc i b).2.(descriptors) = plan_step_of <$> sc.(descriptors).
Proof. unfold commit_dispatch, denied. same_plan. Qed.

Lemma descriptor_step_keeps i : respects keeps_plan (descriptor_step i).
Proof. intros s. apply keeps_plan_same. unfold descriptor_step. by case_match. Qed.

(** Crossing the boundary keeps the plan when its hooks do. *)
Lemma boundary_keeps_plan aborted :
  (∀ t, respects keeps_plan (hooks.(authorizeDispatch) t)) → (∀ t, respects keeps_plan (hooks.(onDispatch) t)) →
  respects keeps_plan (authorizeScopedMutationDispatch aborted) ∧
  respects keeps_plan (commitScopedMutationDispatch aborted).
Proof.
  intros Ha Hd. unfold authorizeScopedMutationDispatch, commitScopedMutationDispatch.
  split; respects_by ltac:(first [apply descriptor_step_keeps | apply Ha | apply Hd
    | apply on_scope_keeps; intros ?; first [apply begin_plan | apply end_plan | apply check_plan | apply dispatch_plan]]).
Qed.

Lemma plan_lookup sc sc' i x :
  plan_step_of <$> sc'.(descriptors) = plan_step_of <$> sc.(descriptors) →
  sc.(descriptors) !! i = Some x → ∃ y, sc'.(descriptors) !! i = Some y ∧ y.(plan_step_of) = x.(plan_step_of).
Proof.
  intros He Hx. assert ((plan_step_of <$> descriptors sc') !! i = Some (plan_step_of x)) as Hy.
  { rewrite He, list_lookup_fmap. by rewrite Hx. }
  rewrite list_lookup_fmap in Hy. destruct (descriptors sc' !! i) as [y|]; simplify_eq/=. eauto.
Qed.

(** A step that returns has crossed the boundary once; a primary that throws leaves the
    scope poisoned. *)
Definition step_outcome {A} (r : failure + A) (id : jstr) (index : nat) (kind : StepKind)
    (sc' : MutationPlanScopeState) : Prop :=
  match r with
  | inr _ => ∃ x, sc'.(descriptors) !! index = Some x ∧ id_of x = id ∧
      x.(descriptor_status) = Completed ∧ x.(networkCalls) = 1
  | inl _ => kind = primary → is_Some sc'.(primaryPoison)
  end.

Lemma fail_step_poison sc i x e :
  sc.(descriptors) !! i = Some x → is_primary x = true → is_Some (fail_step sc i e).(primaryPoison).
Proof. intros Hx Hp. unfold fail_step. rewrite Hx, Hp. simpl. eauto. Qed.

Lemma finish_outcome {A} sc i (outcome : failure + A) x :
  sc.(descriptors) !! i = Some x →
  step_outcome (finish_step sc i outcome).1 (id_of x) i (kind_of x) (finish_step sc i outcome).2 ∧
  (∀ a, (finish_step sc i outcome).1 = inr a → outcome = inr a).
Proof.
  intros Hx. assert (kind_of x = primary → is_primary x = true) as Hk by (by intros; apply bool_decide_eq_true).
  unfold finish_step. rewrite Hx. destruct outcome as [e|a]; simpl.
  - split; [|done]. intros. eapply fail_step_poison; eauto.
  - case_bool_decide; simpl; [split; [|done]; intros; eapply fail_step_poison; eauto|].
    destruct (Z.eqb_spec (networkCalls x) 1) as [Hc|Hc]; simpl.
    + split; [|done]. exists (completed x). rewrite (lookup_insert_if _ _ _ _ _ Hx), decide_True by done. done.
    + split; [|done]. intros. eapply fail_step_poison; [by apply fail_descriptor_lookup|auto].
Qed.

Lemma enter_refused_poison sc id index t b :
  enter_refusal sc id index primary = Some (t, b) → is_Some (poison_if b t sc).(primaryPoison).
Proof.
  unfold enter_refusal. destruct (primaryPoison sc) eqn:Hp.
  - intros [= <- <-]. simpl. rewrite Hp. eauto.
  - intros H. repeat (case_match; try done); simplify_eq/=; eauto.
Qed.

Lemma on_scope_some {A} (f : MutationPlanScopeState → (failure + A) * MutationPlanScopeState) s sc :
  scope_of s = Some sc → on_scope f s = ((f sc).1, set_scope (Some (f sc).2) s).
Proof. intros Hs. unfold on_scope. rewrite Hs. by destruct (f sc). Qed.

Lemma enter_ok_step sc id index kind eligible i :
  (enter_step sc id index kind eligible).1 = inr i →
  i = index ∧ (enter_step sc id index kind eligible).2 = set_active (Some index) sc ∧
  ∃ x, sc.(descriptors) !! index = Some x ∧ id_of x = id ∧ kind_of x = kind.
Proof.
  unfold enter_step. destruct (enter_refusal _ _ _ _) as [[t b]|] eqn:Hr; [done|].
  destruct (_ && _); [done|]. intros [= <-]. apply enter_ok in Hr as (_ & _ & x & Hx & Hid & Hk & _).
  eauto 10.
Qed.

Lemma enter_thrown_poison sc id index eligible e :
  (enter_step sc id index primary eligible).1 = inl e →
  is_Some (enter_step sc id index primary eligible).2.(primaryPoison).
Proof.
  unfold enter_step. destruct (enter_refusal _ _ _ _) as [[t b]|] eqn:Hr; simpl; [|done].
  intros _. rewrite andb_true_r. by apply enter_refused_poison in Hr.
Qed.

(** The part of a step after the compensation hook. *)
Lemma entered_outcome {A} id index kind eligible (run : E S A) s sc r s' :
  respects keeps_plan run → scope_of s = Some sc →
  (let* i := on_scope (λ sc, enter_step sc id index kind eligible) in
   let* outcome := eattempt run in on_scope (λ sc, finish_step sc i outcome)) s = (r, s') →
  (∃ sc', scope_of s' = Some sc' ∧ step_outcome r id index kind sc') ∧
  (∀ a, r = inr a → ∃ s1 s2, run s1 = (inr a, s2)).
Proof.
  intros Hrun Hs. unfold ebind at 1. rewrite (on_scope_some _ _ _ Hs).
  destruct (enter_step sc id index kind eligible).1 as [e|i] eqn:He.
  - intros [= <- <-]. split; [|done]. rewrite scope_set. eexists. split; [done|].
    simpl. intros ->. by eapply enter_thrown_poison.
  - apply enter_ok_step in He as (-> & -> & x & Hx & Hid & Hk).
    set (s1 := set_scope _ s). unfold ebind, eattempt. specialize (Hrun s1).
    destruct (run s1) as [outcome s2] eqn:Hr. destruct (Hrun _ (scope_set _ _)) as (sc2 & Hs2 & Hpl).
    simpl in Hs2, Hpl. rewrite (on_scope_some _ _ _ Hs2). intros [= <- <-].
    destruct (plan_lookup _ _ _ _ Hpl Hx) as (y & Hy & Hyx).
    destruct (finish_outcome sc2 index outcome y Hy) as [Hout Hval].
    assert (id_of y = id) as Hidy by (unfold id_of; by rewrite Hyx).
    assert (kind_of y = kind) as Hky by (unfold kind_of; by rewrite Hyx).
    rewrite Hidy, Hky in Hout. split; [rewrite scope_set; eauto|].
    intros a Ha. apply Hval in Ha as ->. eauto.
Qed.

(** C25: One mutation step.  Under an installed scope a step runs its dispatch only if the
    plan admits it here and now, with a poisoned scope admitting no primary at all; it
    returns only if its descriptor crossed the boundary exactly once, with the value the
    dispatch returned, and a primary that throws poisons the scope for every later one. *)
Theorem scoped_step_exact {A} id index kind (run : E S A) s sc r s' :
  respects keeps_plan run → (∀ t, respects keeps_plan (hooks.(compensationEligible) t)) →
  scope_of s = Some sc → withMutationPlanStep id index kind run s = (r, s') →
  (∃ sc', scope_of s' = Some sc' ∧ step_outcome r id index kind sc') ∧
  (∀ a, r = inr a → ∃ s1 s2, run s1 = (inr a, s2)) ∧
  (enter_refusal sc id index kind ≠ None →
     ∃ t sc', r = inl (MutationPlanViolation t) ∧ s' = set_scope (Some sc') s) ∧
  (is_Some sc.(primaryPoison) → kind = primary → enter_refusal sc id index kind ≠ None).
Proof.
  intros Hrun Hel Hs Hr. unfold withMutationPlanStep in Hr. rewrite Hs in Hr.
  assert (is_Some sc.(primaryPoison) → kind = primary → enter_refusal sc id index kind ≠ None) as Hpo.
  { intros [m Hm] ->. unfold enter_refusal. by rewrite Hm. }
  case_bool_decide as Hb.
  - destruct Hb as [Hn ->]. unfold ebind at 1 in Hr. specialize (Hel id s).
    destruct (compensationEligible hooks id s) as [[e|eligible] s1]; destruct (Hel _ Hs) as (sc1 & Hs1 & _).
    + injection Hr as <- <-. split_and!; try done. exists sc1. by split.
    + destruct (entered_outcome _ _ _ _ _ _ _ _ _ Hrun Hs1 Hr). split_and!; done.
  - destruct (entered_outcome _ _ _ _ _ _ _ _ _ Hrun Hs Hr) as [H1 H2]. split_and!; try done.
    intros Hne. destruct (enter_refusal sc id index kind) as [[t b]|] eqn:He; [|done].
    unfold ebind, eret in Hr. rewrite (on_scope_some _ _ _ Hs) in Hr. unfold enter_step in Hr.
    rewrite He in Hr. injection Hr as <- <-. eauto.
Qed.

(** ** What a completed scope says *)

Lemma find_incomplete_none ds s s' :
  find_incomplete ds s = (inr None, s') →
  Forall (λ x, is_primary x = true →
    x.(descriptor_status) = Completed ∨
    (x.(descriptor_status) = Failed ∧ ambiguous x.(descriptor_failure) = true ∧
     ∃ s1 s2, hooks.(authoritativelyReconciled) (id_of x) s1 = (inr true, s2))) ds.
Proof.
  revert s. induction ds as [|x ds IH]; intros s H; [constructor|]. simpl in H.
  destruct (is_primary x) eqn:Hp; simpl in H; [|constructor; [congruence|eauto]].
  case_bool_decide as Hc; simpl in H; [constructor; [auto|eauto]|].
  apply ebind_ok in H as (b & s1 & Hb & H). destruct b; [|done].
  constructor; [|eauto]. intros _. right. unfold reconciledAmbiguousDescriptor in Hb.
  case_bool_decide as Hf; simpl in Hb; [|done]. destruct (ambiguous _); [|done].
  split_and!; [done|done|]. unfold etry in Hb.
  destruct (authoritativelyReconciled hooks (id_of x) s) as [[e|[|]] s2] eqn:Hh; try done. eauto.
Qed.

Lemma plan_accepted maxHostCalls steps :
  scope_plan_refusal maxHostCalls steps = None →
  (1 ≤ maxHostCalls ≤ SafetyLimits.HOST_CALL_BUDGET_MAXIMUM) ∧ steps ≠ [] ∧
  [] ∉ scope_step_id <$> steps ∧ NoDup (scope_step_id <$> steps).
Proof.
  unfold scope_plan_refusal. intros H. repeat (case_match; try done). zbool.
  repeat match goal with
  | H : bool_decide _ = false |- _ => apply bool_decide_eq_false in H
  | H : bool_decide _ = true |- _ => apply bool_decide_eq_true in H
  end. done.
Qed.

(** A scope that lets a result out has run its body under the new scope. *)
Lemma complete_run_ok {A} (requiresComplete : A → bool) (run : E S A) s a s' :
  complete_run requiresComplete run s = (inr a, s') →
  ∃ s1, run s = (inr a, s1) ∧
    (requiresComplete a = true → ∃ ds s2, current_descriptors s1 = (inr ds, s1) ∧ find_incomplete ds s1 = (inr None, s2)).
Proof.
  unfold complete_run. intros (a1 & s1 & Hrun & Hc)%ebind_ok. destruct (requiresComplete a1) eqn:Hq.
  - apply ebind_ok in Hc as (ds & s2 & Hds & Hc). apply ebind_ok in Hc as ([t|] & s3 & Hf & Hc); [done|].
    injection Hc as <- <-. injection Hds as <- <-. exists s1. eauto.
  - injection Hc as <- <-. exists s1. split; [done|congruence].
Qed.

Lemma scope_ran {A} maxHostCalls steps (requiresComplete : A → bool) (run : E S A) s a s' :
  withMutationPlanScope maxHostCalls steps requiresComplete run s = (inr a, s') →
  ∃ s1 s2, scope_of s1 = Some (new_scope steps) ∧ complete_run requiresComplete run s1 = (inr a, s2).
Proof.
  unfold withMutationPlanScope, with_reserved, with_installed. repeat case_match; intros; simplify_eq/=.
  do 2 eexists. split; [|done]. by rewrite scope_set.
Qed.

(** A complete result needs the complete plan.  A scope lets a result that claims
    success out only if every primary of the plan completed its one dispatch, or threw
    ambiguously and was since reconciled as authoritatively applied; and it never runs at
    all unless the plan is well formed and its host-call cost could be reserved. *)
Theorem scoped_result_complete {A} maxHostCalls steps (requiresComplete : A → bool) (run : E S A) s a s' :
  withMutationPlanScope maxHostCalls steps requiresComplete run s = (inr a, s') →
  ((1 ≤ maxHostCalls ≤ SafetyLimits.HOST_CALL_BUDGET_MAXIMUM) ∧ steps ≠ [] ∧
   [] ∉ scope_step_id <$> steps ∧ NoDup (scope_step_id <$> steps)) ∧
  (∃ b', HostBudget.withReservedHostCallBudget (budget_of s) maxHostCalls = Ok b') ∧
  HostBudget.reservation (budget_of s') = HostBudget.reservation (budget_of s) ∧
  scope_of s' = scope_of s ∧
  (∃ s1 s2, scope_of s1 = Some (new_scope steps) ∧ run s1 = (inr a, s2) ∧
    (requiresComplete a = true → ∀ sc, scope_of s2 = Some sc →
       Forall (λ x, is_primary x = true →
         x.(descriptor_status) = Completed ∨
         (x.(descriptor_status) = Failed ∧ ambiguous x.(descriptor_failure) = true ∧
          ∃ s3 s4, hooks.(authoritativelyReconciled) (id_of x) s3 = (inr true, s4))) sc.(descriptors))).
Proof.
  unfold withMutationPlanScope. destruct (scope_plan_refusal maxHostCalls steps) eqn:Hp; [done|].
  unfold with_reserved. destruct (HostBudget.withReservedHostCallBudget _ _) as [b|e] eqn:Hb; [|done].
  unfold with_installed. set (s1 := set_scope _ (set_budget _ _)).
  destruct (complete_run requiresComplete run s1) as [r s2] eqn:Hc. intros [= -> <-].
  split; [by apply plan_accepted|]. split_and!.
  - eauto.
  - by rewrite budget_set.
  - rewrite scope_budget, scope_set. unfold s1. by rewrite ?scope_budget.
  - apply complete_run_ok in Hc as (s3 & Hrun & Hreq).
    exists s1, s3. split_and!; [by unfold s1; rewrite scope_set|done|].
    intros Hq sc Hsc. destruct (Hreq Hq) as (ds & s4 & Hds & Hf). injection Hds as <-.
    rewrite Hsc in Hf. by eapply find_incomplete_none.
Qed.
End Scoped.
