(* ===== verification/RestCore.v ===== *)
(** * Requests to the host

    [clockify/rest/core.ts], second half: one bounded request, the retry of reads, the
    classification of every answer, and the list, update and binary shapes built on it.
    A response carries what its body reads as; [JSON.parse] of the text is the field
    [json].  The clock, the governor's cool-down and the operator monitors only observe. *)
From S2P Require Import Prelude Js Db Journal Effects MutationScope PlanScope.
From S2P Require HostBudget.
Open Scope Z_scope.
#[local] Arguments u : simpl never.

(** ** Requests and responses *)

Inductive ClockifyHost : Set := HostApi | HostReports | HostAudit.
Inductive Operation : Set := OpRead | OpMutation.
#[export] Instance operation_dec : EqDecision Operation.
Proof. solve_decision. Defined.

Inductive RequestBody : Type :=
| NoBody
| JsonBody (v : jsval)
| FormBody (fields : list (jstr * (jstr + list N))).

Record Request := {
  kind : Operation;
  method : jstr;
  url : jstr;
  body : RequestBody;
}.

Record Response := {
  status : Z;
  text : failure + jstr;                          (** [res.text()] *)
  json : option jsval;                            (** [JSON.parse] of that text *)
  retry_after_ms : option Z;                      (** a finite [retry-after], in milliseconds *)
  content_length : option Z;                      (** a finite [content-length] *)
  content_type : option jstr;
  chunks : option (list (failure + list N));      (** what the body's reader yields *)
  whole : failure + list N;                       (** [res.arrayBuffer()] *)
}.

Definition ok (r : Response) : bool := (200 <=? r.(status)) && (r.(status) <? 300).

(** ** Constants and methods *)

Definition PAGE_SIZE : Z := 200.
Definition MAX_PAGES : nat := 50.
Definition COMMIT_TIMEOUT_MS : Z := 120000.
Definition RETRYABLE_STATUS : list Z := [429; 502; 503; 504].
Definition MAX_GET_RETRIES : nat := 2.

Definition retryDelayMs (r : Response) (attempt : nat) : Z :=
  match r.(retry_after_ms) with
  | Some ms => if 0 <=? ms then Z.min ms 5000 else Z.min (300 * 2 ^ Z.of_nat attempt) 2000
  | None => Z.min (300 * 2 ^ Z.of_nat attempt) 2000
  end.

(** [toUpperCase] of a unit, as far as the result is an ASCII letter. *)
Definition upper_unit (c : N) : N :=
  if (97 <=? c)%N && (c <=? 122)%N then c - 32
  else if (c =? 305)%N then 73 else if (c =? 383)%N then 83 else c.
Definition safe_method (m : jstr) : bool :=
  is_in (Some (upper_unit <$> m)) ["GET"; "HEAD"; "OPTIONS"].
Definition isMutationMethod (m : jstr) : bool := negb (safe_method m).

(** ** Query strings: [URLSearchParams] *)

Definition utf8_unit (c : N) : list N :=
  if (c <? 128)%N then [c]
  else if (c <? 2048)%N then [192 + c / 64; 128 + c mod 64]%N
  else [224 + c / 4096; 128 + c / 64 mod 64; 128 + c mod 64]%N.
Fixpoint utf8_encode (s : jstr) : list N :=
  match s with
  | [] => []
  | c :: s' =>
      match s' with
      | d :: s'' =>
          if is_high c && is_low d then
            let p := (65536 + (c - 55296) * 1024 + (d - 56320))%N in
            [240 + p / 262144; 128 + p / 4096 mod 64; 128 + p / 64 mod 64; 128 + p mod 64]%N ++ utf8_encode s''
          else (if is_high c || is_low c then [239; 191; 189]%N else utf8_unit c) ++ utf8_encode s'
      | [] => if is_high c || is_low c then [239; 191; 189]%N else utf8_unit c
      end
  end.

Definition upper_hex (n : N) : N := (if n <? 10 then 48 + n else 55 + n)%N.
(** [application/x-www-form-urlencoded] *)
Definition form_byte (b : N) : jstr :=
  if (b =? 32)%N then [43]%N
  else if ((48 <=? b) && (b <=? 57) || (65 <=? b) && (b <=? 90) || (97 <=? b) && (b <=? 122) ||
           (b =? 42) || (b =? 45) || (b =? 46) || (b =? 95))%N then [b]
  else [37; upper_hex (b / 16); upper_hex (b mod 16)]%N.
Definition form_encode (s : jstr) : jstr := concat (form_byte <$> utf8_encode s).

Definition query_string (params : list (jstr * jstr)) : jstr :=
  join (u "&") ((λ p, form_encode p.1 ++ u "=" ++ form_encode p.2) <$> params).

(** [{ ...params, page, "page-size" }]: string members, with the order of own keys. *)
Fixpoint set_param (k v : jstr) (ps : list (jstr * jstr)) : list (jstr * jstr) :=
  match ps with
  | [] => [(k, v)]
  | (k', v') :: ps' => if decide (k = k') then (k, v) :: ps' else (k', v') :: set_param k v ps'
  end.
Definition page_params (params : list (jstr * jstr)) (page : nat) : list (jstr * jstr) :=
  own_entries (set_param (u "page-size") (show_int PAGE_SIZE)
    (set_param (u "page") (show_int (Z.of_nat page)) params)).
Definition page_path (path : jstr) (params : list (jstr * jstr)) (page : nat) : jstr :=
  path ++ (if bool_decide (63%N ∈ path) then u "&" else u "?") ++ query_string (page_params params page).

(** ** Read-only POST routes *)

(** [p] followed by a non-empty segment: what is left of [s]. *)
Definition segment_char (c : N) : bool := negb ((c =? 47)%N || (c =? 63)%N).
Fixpoint strip_prefix (p s : jstr) : option jstr :=
  match p, s with
  | [], _ => Some s
  | x :: p', y :: s' => if (x =? y)%N then strip_prefix p' s' else None
  | _ :: _, [] => None
  end.
Definition strip_segment (s : jstr) : option jstr :=
  match s with
  | c :: _ => if segment_char c then Some (drop_while segment_char s) else None
  | [] => None
  end.
Definition workspace_rest (path : jstr) : option jstr :=
  x ← strip_prefix (u "/workspaces/") path; strip_segment x.

(** An optional query without a fragment, up to the end. *)
Definition query_end (s : jstr) : bool :=
  match s with
  | [] => true
  | c :: s' => (c =? 63)%N && negb (bool_decide (35%N ∈ s'))
  end.

Definition recognizedPostQuery (host : ClockifyHost) (path : jstr) : bool :=
  match workspace_rest path with
  | None => false
  | Some rest =>
      match host with
      | HostReports => is_in (Some rest) ["/reports/summary"; "/reports/detailed"; "/reports/weekly"]
      | HostAudit => bool_decide (rest = u "/audit-log")
      | HostApi =>
          let logs : option jstr :=
            x ← strip_prefix (u "/webhooks/") rest; y ← strip_segment x; strip_prefix (u "/logs") y in
          is_in (Some rest) ["/scheduling/assignments/projects/totals"; "/time-off/requests"] ||
          match logs with
          | Some q => query_end q
          | None => false
          end
      end
  end.

(** ** The adapter *)

(** A state that also holds the requests sent so far; [answer] is the host (and the
    network) and [aborted] the cancellation signal. *)
Class Wire (S : Type) `{!MutationHost S} := {
  sent : S → list Request;
  push : Request → S → S;
  answer : Request → S → failure + Response;
  aborted : S → bool;
  ledger_accepts : S → bool;         (** the durable run ledger takes one more call *)
  noteRateLimited : Z → S → S;
  onHostThrottled : Z → S → S;
  onHostHealthy : S → S;
  onAuthRejected : S → S;
  onAuthAccepted : S → S;
  sleep : Z → S → S;
}.

Section Adapter.
Context {S : Type} `{!MutationHost S, !Wire S} (hooks : ScopeHooks S).
(** The options of [createRestCore]: the bases of the three hosts, the kind of the token
    and the network gate. *)
Context (hosts : ClockifyHost → option jstr) (addon_token enforceMutationScope : bool).
Context (commitTimeoutMs : Z).

Definition emodify (f : S → S) : E S unit := λ s, (inr tt, f s).
Definition plain_error {A} (m : jstr) : E S A := ethrow (OtherError (u "Error") m).

(** The request crosses the wire. *)
Definition baseFetch (r : Request) : E S Response := λ s,
  let s' := push r s in (answer r s', s').

Definition charge_call : E S unit := λ s,
  match HostBudget.chargeHostCallBudget (budget_of s) (ledger_accepts s) with
  | Ok b => (inr tt, set_budget b s)
  | Throw _ =>
      (inl (HostCallBudgetExceededError
              (match HostBudget.budget (budget_of s) with
               | Some b => HostBudget.maximum b | None => SafetyLimits.HOST_CALL_BUDGET_MAXIMUM end) 1), s)
  end.

Definition gated (r : Request) : bool := bool_decide (r.(kind) = OpMutation) && enforceMutationScope.

(** What a caller sees of an error below [fetch]. *)
Definition name_failure (r : Request) (path : jstr) (e : failure) : E S Response :=
  match e with
  | MutationPlanViolation _ | MutationDispatchDenied _
  | HostCallBudgetExceededError _ _ | HostRequestCancelledError => ethrow e
  | _ =>
      let fail (m : jstr) : E S Response :=
        if bool_decide (r.(kind) = OpMutation) then ethrow (AmbiguousWriteOutcome r.(method) path m None)
        else plain_error m in
      match e with
      | OtherError name _ =>
          if is_in (Some name) ["TimeoutError"; "AbortError"] then
            let* s := eget in
            if negb (bool_decide (r.(kind) = OpMutation)) && aborted s then ethrow HostRequestCancelledError
            else fail (u "Clockify request timed out after " ++ show_int commitTimeoutMs ++ u "ms (" ++
                       r.(method) ++ u " " ++ path ++ u ").")
          else fail (u "Clockify " ++ r.(method) ++ u " " ++ path ++ u " failed: " ++ error_message e)
      | _ => fail (u "Clockify " ++ r.(method) ++ u " " ++ path ++ u " failed: " ++ error_message e)
      end
  end.

(** [doFetch] without a shared governor. *)
Definition doFetch (path : jstr) (r : Request) : E S Response :=
  etry
    (let* s := eget in
     check* negb (aborted s) else HostRequestCancelledError in
     let* _ := charge_call in
     let* _ := (if gated r then authorizeScopedMutationDispatch hooks aborted else eret tt) in
     let* _ := (if gated r then commitScopedMutationDispatch hooks aborted else eret tt) in
     baseFetch r)
    (name_failure r path).

Definition observeHostHealth (status : Z) : E S unit :=
  emodify (if (status =? 429) || (500 <=? status) then onHostThrottled status else onHostHealthy).

(** [left] retries are left after [attempt] of them. *)
Fixpoint fetch_attempts (path : jstr) (r : Request) (left attempt : nat) : E S Response :=
  let* res := doFetch path r in
  let* _ := (if res.(status) =? 429 then emodify (noteRateLimited (retryDelayMs res attempt)) else eret tt) in
  let* _ := observeHostHealth res.(status) in
  match left with
  | O => eret res
  | Datatypes.S left' =>
      if bool_decide (r.(method) = u "GET") && bool_decide (res.(status) ∈ RETRYABLE_STATUS)
      then let* _ := emodify (sleep (retryDelayMs res attempt)) in
           fetch_attempts path r left' (Datatypes.S attempt)
      else eret res
  end.

(** No retry inside a mutation scope. *)
Definition fetchWithRetry (path : jstr) (r : Request) : E S Response :=
  let* s := eget in
  fetch_attempts path r (match scope_of s with Some _ => O | None => MAX_GET_RETRIES end) O.

(** ** One request *)

Definition resolveHost (host : ClockifyHost) : E S jstr :=
  match hosts host with
  | Some (c :: b) => eret (c :: b)
  | _ => plain_error (match host with
      | HostAudit => u "Audit log is not available in this Clockify environment (no audit host is published for this workspace)."
      | HostApi => u "No api host is configured for this Clockify environment."
      | HostReports => u "No reports host is configured for this Clockify environment."
      end)
  end.

Definition slice200 (s : jstr) : jstr := take 200 s.

(** The endpoint families an add-on token can never call. *)
Fixpoint contains (p s : jstr) : bool :=
  starts_with p s || match s with [] => false | _ :: s' => contains p s' end.
Definition restricted (status : Z) (t : jstr) : bool :=
  (status =? 401) && addon_token && contains (u "API is not accessible") t.

Definition mapAddonRestriction (st : Z) (m path t : jstr) : E S unit :=
  if restricted st t
  then plain_error (u "Clockify does not allow add-ons to call " ++ m ++ u " " ++ path ++
    [32; 8212; 32]%N ++ u "this endpoint is outside the add-on token's reach regardless of manifest scopes.")
  else if (st =? 401) && addon_token then emodify onAuthRejected else eret tt.

Definition observeAuthAccepted : E S unit := if addon_token then emodify onAuthAccepted else eret tt.

(** A status that proves the host did not apply the mutation. *)
Definition rejected_status (st : Z) : bool := (400 <=? st) && (st <? 500) && negb (st =? 408).

Definition answered (r : Request) (path : jstr) (allow404 : bool) (res : Response) : E S jsval :=
  if (res.(status) =? 404) && allow404 then let* _ := observeAuthAccepted in eret VNull
  else if negb (ok res) then
    let* t := eof res.(text) in
    let* _ := mapAddonRestriction res.(status) r.(method) path t in
    let m := u "Clockify " ++ r.(method) ++ u " " ++ path ++ u " -> " ++ show_int res.(status) ++ u ": " ++ slice200 t in
    if bool_decide (r.(kind) = OpMutation) then
      if (res.(status) =? 408) || (500 <=? res.(status)) || (res.(status) <? 400)
      then ethrow (AmbiguousWriteOutcome r.(method) path m (Some res.(status)))
      else ethrow (DefinitiveWriteFailure r.(method) path m (Some res.(status)))
    else plain_error m
  else
    let* _ := observeAuthAccepted in
    if res.(status) =? 204 then eret VNull
    else
      let* t := eof res.(text) in
      if bool_decide (t = []) then eret VNull
      else match res.(json) with
      | Some v => eret v
      | None =>
          let m := u "Clockify " ++ r.(method) ++ u " " ++ path ++ u " returned non-JSON (status " ++
                   show_int res.(status) ++ u "): " ++ slice200 t in
          if bool_decide (r.(kind) = OpMutation)
          then ethrow (AmbiguousWriteOutcome r.(method) path m (Some res.(status)))
          else plain_error m
      end.

Definition request (op : Operation) (host : ClockifyHost) (m path : jstr) (b : RequestBody)
    (allow404 : bool) : E S jsval :=
  let* base := resolveHost host in
  let r := {| kind := op; method := m; url := base ++ path; body := b |} in
  let* res := fetchWithRetry path r in
  answered r path allow404 res.

Definition call (host : ClockifyHost) (m path : jstr) (b : RequestBody) (allow404 : bool) : E S jsval :=
  if safe_method m then request OpRead host m path b allow404
  else plain_error (u "RestCore.call requires a safe read method, received " ++ m ++ u ".").

Definition host_name (h : ClockifyHost) : jstr :=
  match h with HostApi => u "api" | HostReports => u "reports" | HostAudit => u "audit" end.

Definition postQuery (host : ClockifyHost) (path : jstr) (b : RequestBody) : E S jsval :=
  if recognizedPostQuery host path then request OpRead host (u "POST") path b false
  else plain_error (u "RestCore.postQuery requires a recognized read-only POST query route (" ++
                    host_name host ++ u " " ++ path ++ u ").").

Definition mutate (host : ClockifyHost) (m path : jstr) (b : RequestBody) : E S jsval :=
  if isMutationMethod m then request OpMutation host m path b false
  else plain_error (u "RestCore.mutate requires a mutation method, received " ++ m ++ u ".").

(** ** Lists *)

Record ListResult := { rows : list jsval; truncated : bool }.

(** [mutationReadPageLimit] *)
Definition mutationReadPageLimit : E S nat := λ s,
  (inr (match scope_of s with Some _ => 1%nat | None => MAX_PAGES end), s).

Definition full_page (l : list jsval) : bool := negb (Z.of_nat (length l) <? PAGE_SIZE).

(** [left] pages from [page] on; [unwrap] takes the rows out of the answer. *)
Fixpoint pages (host : ClockifyHost) (path : jstr) (params : list (jstr * jstr))
    (unwrap : jsval → option (list jsval)) (refusal : jstr) (left page : nat) (out : list jsval)
    : E S ListResult :=
  match left with
  | O => eret {| rows := out; truncated := true |}
  | Datatypes.S left' =>
      let* data := call host (u "GET") (page_path path params page) NoBody false in
      match unwrap data with
      | None => plain_error refusal
      | Some l =>
          if full_page l then pages host path params unwrap refusal left' (Datatypes.S page) (out ++ l)
          else eret {| rows := out ++ l; truncated := false |}
      end
  end.

Definition bare_rows (v : jsval) : option (list jsval) := match v with VArr l => Some l | _ => None end.

Definition paginate (host : ClockifyHost) (path : jstr) (params : list (jstr * jstr)) : E S ListResult :=
  let* limit := mutationReadPageLimit in
  pages host path params bare_rows
    (u "Clockify GET " ++ path ++ u " returned an invalid list response; expected a JSON array.") limit 1 [].

Fixpoint unwrap_envelope (keys : list jstr) (cursor : jsval) : option (list jsval) :=
  match cursor with
  | VArr l => Some l
  | _ => match keys with
         | [] => None
         | key :: keys' => if is_object cursor then unwrap_envelope keys' (prop key cursor) else None
         end
  end.

(** [split(".")] *)
Fixpoint split_dots (s acc : jstr) : list jstr :=
  match s with
  | [] => [acc]
  | c :: s' => if (c =? 46)%N then acc :: split_dots s' [] else split_dots s' (acc ++ [c])
  end.

Definition paginateEnvelope (host : ClockifyHost) (path envelopeKey : jstr) (params : list (jstr * jstr))
    : E S ListResult :=
  let* limit := mutationReadPageLimit in
  pages host path params (unwrap_envelope (split_dots envelopeKey []))
    (u "Clockify GET " ++ path ++ u " returned an invalid list response; envelope " ++ envelopeKey ++
     u " must resolve to a JSON array.") limit 1 [].

(** ** Updates and forms *)

(** The own enumerable members a spread of a parsed JSON value copies. *)
Definition spread_json (v : jsval) : list (jstr * jsval) :=
  match v with
  | VArr l => imap (λ i x, (digits (N.of_nat i), x)) l
  | VStr s => imap (λ i c, (digits (N.of_nat i), VStr [c])) s
  | _ => spread_fields v
  end.

Definition getThenPut (host : ClockifyHost) (path : jstr) (patch : list (jstr * jsval)) : E S jsval :=
  let* current := call host (u "GET") path NoBody false in
  request OpMutation host (u "PUT") path
    (JsonBody (VObj (fields_spread (fields_spread [] (spread_json current)) patch))) false.

Definition postForm (host : ClockifyHost) (path : jstr) (fields : list (jstr * (jstr + list N))) : E S jsval :=
  request OpMutation host (u "POST") path (FormBody fields) false.

(** ** Binary bodies *)

(** [BinaryResponseTooLargeError] *)
Definition too_large {A} (path : jstr) (maxBytes : Z) : E S A :=
  ethrow (OtherError (u "BinaryResponseTooLargeError")
    (u "Clockify GET " ++ path ++ u " exceeded the " ++ show_int maxBytes ++ u "-byte binary limit.")).

Fixpoint read_chunks (path : jstr) (maxBytes : Z) (cs : list (failure + list N)) (acc : list N) : E S (list N) :=
  match cs with
  | [] => eret acc
  | c :: cs' =>
      let* bytes := eof c in
      if maxBytes <? Z.of_nat (length (acc ++ bytes)) then too_large path maxBytes
      else read_chunks path maxBytes cs' (acc ++ bytes)
  end.

Definition getBinary (host : ClockifyHost) (path : jstr) (maxBytes : Z) : E S (jstr * list N) :=
  let* base := resolveHost host in
  let r := {| kind := OpRead; method := u "GET"; url := base ++ path; body := NoBody |} in
  let* res := fetchWithRetry path r in
  if negb (ok res) then
    let* t := eof res.(text) in
    let* _ := mapAddonRestriction res.(status) (u "GET") path t in
    plain_error (u "Clockify GET " ++ path ++ u " -> " ++ show_int res.(status) ++ u ": " ++ slice200 t)
  else
    let* _ := observeAuthAccepted in
    if match res.(content_length) with Some n => maxBytes <? n | None => false end
    then too_large path maxBytes
    else
      let* bytes := match res.(chunks) with
                    | Some cs => read_chunks path maxBytes cs []
                    | None => let* b := eof res.(whole) in
                              if maxBytes <? Z.of_nat (length b) then too_large path maxBytes else eret b
                    end in
      eret (default (u "application/octet-stream") res.(content_type), bytes).
End Adapter.
