(* ===== verification/RestResults.v ===== *)
(** * What the adapter promises

    The theorems of [RestCore]: one physical request per mutation and what its outcome
    says about the host, the bound on reads, and the rows of a list. *)
From S2P Require Import Prelude Js Db Effects MutationScope PlanScope RestCore.
From S2P Require HostBudget.
Open Scope Z_scope.
#[local] Arguments u : simpl never.

(** ** The state behind the adapter *)

(** [fetch] and the reading of a body reject with ordinary errors; the observers and the
    scope do not touch the log of requests. *)
Definition ordinary (e : failure) : bool := match e with OtherError _ _ | NotAnError _ => true | _ => false end.

Class WireLaws (S : Type) `{Wire S} : Prop := {
  sent_push : ∀ r s, sent (push r s) = sent s ++ [r];
  sent_scope : ∀ x s, sent (set_scope x s) = sent s;
  sent_budget : ∀ b s, sent (set_budget b s) = sent s;
  sent_limited : ∀ d s, sent (noteRateLimited d s) = sent s;
  sent_throttled : ∀ d s, sent (onHostThrottled d s) = sent s;
  sent_healthy : ∀ s, sent (onHostHealthy s) = sent s;
  sent_rejected : ∀ s, sent (onAuthRejected s) = sent s;
  sent_accepted : ∀ s, sent (onAuthAccepted s) = sent s;
  sent_sleep : ∀ d s, sent (sleep d s) = sent s;
  scope_push : ∀ r s, scope_of (push r s) = scope_of s;
  scope_limited : ∀ d s, scope_of (noteRateLimited d s) = scope_of s;
  scope_throttled : ∀ d s, scope_of (onHostThrottled d s) = scope_of s;
  scope_healthy : ∀ s, scope_of (onHostHealthy s) = scope_of s;
  scope_rejected : ∀ s, scope_of (onAuthRejected s) = scope_of s;
  scope_accepted : ∀ s, scope_of (onAuthAccepted s) = scope_of s;
  scope_sleep : ∀ d s, scope_of (sleep d s) = scope_of s;
  answer_ordinary : ∀ r s e, answer r s = inl e → ordinary e = true;
  text_ordinary : ∀ r s res e, answer r s = inr res → res.(text) = inl e → ordinary e = true;
}.

#[export] Hint Rewrite @sent_push @sent_scope @sent_budget @sent_limited @sent_throttled @sent_healthy
  @sent_rejected @sent_accepted @sent_sleep using (typeclasses eauto) : wire.

Section Results.
Context {S : Type} `{!MutationHost S, !Wire S, !WireLaws S} (hooks : ScopeHooks S).
Context (hosts : ClockifyHost → option jstr) (addon_token enforceMutationScope : bool) (commitTimeoutMs : Z).

Abbreviation doFetch := (doFetch hooks enforceMutationScope commitTimeoutMs).
Abbreviation fetch_attempts := (fetch_attempts hooks enforceMutationScope commitTimeoutMs).
Abbreviation answered := (answered addon_token).
Abbreviation request := (request hooks hosts addon_token enforceMutationScope commitTimeoutMs).
Abbreviation mutate := (mutate hooks hosts addon_token enforceMutationScope commitTimeoutMs).
Abbreviation call := (call hooks hosts addon_token enforceMutationScope commitTimeoutMs).

(** The mutations that crossed the wire. *)
Definition mutations (s : S) : list Request := filter (λ r, r.(kind) = OpMutation) (sent s).

Definition no_mutation (s s' : S) : Prop := mutations s' = mutations s.
#[local] Instance no_mutation_refl : Reflexive no_mutation.
Proof. intros s. done. Qed.
#[local] Instance no_mutation_trans : Transitive no_mutation.
Proof. intros s1 s2 s3. unfold no_mutation. congruence. Qed.

Lemma silent s s' : sent s' = sent s → no_mutation s s'.
Proof. unfold no_mutation, mutations. by intros ->. Qed.

Lemma silent_modify (f : S → S) : (∀ s, sent (f s) = sent s) → respects no_mutation (emodify f).
Proof. intros Hf s. apply silent, Hf. Qed.

Lemma silent_on_scope {A} (f : MutationPlanScopeState → (failure + A) * MutationPlanScopeState) :
  respects no_mutation (on_scope f).
Proof.
  intros s. unfold on_scope. destruct (scope_of s) as [sc|]; [|done]. destruct (f sc). simpl.
  apply silent. by autorewrite with wire.
Qed.

Lemma silent_charge : respects no_mutation charge_call.
Proof.
  intros s. unfold charge_call. destruct (HostBudget.chargeHostCallBudget _ _); [|done].
  apply silent. simpl. by autorewrite with wire.
Qed.

Lemma silent_step i : respects no_mutation (descriptor_step i).
Proof. intros s. unfold descriptor_step. by destruct (_ ≫= _). Qed.

(** Neither authorising nor recording a dispatch mutates the host. *)
Class SilentHooks : Prop := {
  silent_authorize : ∀ t, respects no_mutation (hooks.(authorizeDispatch) t);
  silent_dispatch : ∀ t, respects no_mutation (hooks.(onDispatch) t);
}.
Context `{!SilentHooks}.

Lemma silent_gate aborted : respects no_mutation (authorizeScopedMutationDispatch hooks aborted) ∧
  respects no_mutation (commitScopedMutationDispatch hooks aborted).
Proof.
  unfold authorizeScopedMutationDispatch, commitScopedMutationDispatch.
  split; repeat (apply respects_bind; [apply _| |intros ?]);
    eauto using silent_on_scope, silent_step, respects_attempt, silent_authorize, silent_dispatch, respects_get.
  all: by intros s.
Qed.

(** ** One attempt *)

Lemma name_failure_spec r path e s :
  ∃ e', name_failure commitTimeoutMs r path e s = (inl e', s) ∧
    (r.(kind) = OpMutation → definitive e' = true → e' = e ∧ ordinary e = false).
Proof.
  unfold name_failure. destruct e; try (by eexists; split; [reflexivity|]).
  all: try (case_bool_decide; eexists; (split; [reflexivity|]); simpl; intros; congruence).
  case_match.
  - unfold ebind, eget. destruct (negb _ && _) eqn:Hc.
    + eexists. split; [reflexivity|]. intros Hk. by rewrite Hk, bool_decide_true in Hc.
    + case_bool_decide; eexists; (split; [reflexivity|]); simpl; intros; congruence.
  - case_bool_decide; eexists; (split; [reflexivity|]); simpl; intros; congruence.
Qed.

(** What happens before the request is sent. *)
Definition fetch_gate (r : Request) : E S unit :=
  let* s := eget in
  check* negb (aborted s) else HostRequestCancelledError in
  let* _ := charge_call in
  let* _ := (if gated enforceMutationScope r then authorizeScopedMutationDispatch hooks aborted else eret tt) in
  if gated enforceMutationScope r then commitScopedMutationDispatch hooks aborted else eret tt.

Lemma gate_silent r : respects no_mutation (fetch_gate r).
Proof.
  destruct (silent_gate aborted) as [H1 H2]. unfold fetch_gate.
  apply respects_bind; [apply _|apply respects_get, _|intros s].
  destruct (negb (aborted s)); [|apply respects_throw, _].
  apply respects_bind; [apply _|apply silent_charge|intros _].
  apply respects_bind; [apply _| |intros _]; destruct (gated _ r); try done; apply respects_ret, _.
Qed.

Lemma doFetch_gate path r s :
  doFetch path r s =
    match fetch_gate r s with
    | (inr _, s1) => etry (baseFetch r) (name_failure commitTimeoutMs r path) s1
    | (inl e, s1) => name_failure commitTimeoutMs r path e s1
    end.
Proof.
  unfold RestCore.doFetch, fetch_gate, etry, ebind, eget. destruct (negb (aborted s)); [|done].
  destruct (charge_call s) as [[e|[]] s1]; [done|]. destruct (gated enforceMutationScope r); [|done].
  destruct (authorizeScopedMutationDispatch hooks aborted s1) as [[e|[]] s2]; [done|].
  by destruct (commitScopedMutationDispatch hooks aborted s2) as [[e|[]] s3].
Qed.

Lemma mutations_push r s :
  mutations (push r s) = mutations s ++ (if decide (r.(kind) = OpMutation) then [r] else []).
Proof. unfold mutations. rewrite sent_push, filter_app, filter_cons, filter_nil. by case_decide. Qed.

(** The one mutation [r] was sent and answered. *)
Definition applied (r : Request) (res : Response) (s s' : S) : Prop :=
  mutations s' = mutations s ++ [r] ∧ ∃ s1, answer r s1 = inr res.

Lemma fetch_mutation path r s out s' :
  r.(kind) = OpMutation → doFetch path r s = (out, s') →
  match out with
  | inr res => applied r res s s'
  | inl e => no_mutation s s' ∨ (mutations s' = mutations s ++ [r] ∧ definitive e = false)
  end.
Proof.
  intros Hk. rewrite doFetch_gate. pose proof (gate_silent r s) as Hg.
  destruct (fetch_gate r s) as [[e|[]] s1]; simpl in Hg.
  - destruct (name_failure_spec r path e s1) as (e' & -> & _). intros [= <- <-]. by left.
  - assert (mutations (push r s1) = mutations s ++ [r]) as Hp.
    { by rewrite mutations_push, decide_True, Hg by done. }
    unfold etry, baseFetch. destruct (answer r (push r s1)) as [e|res] eqn:Ha.
    + destruct (name_failure_spec r path e (push r s1)) as (e' & -> & Hd). intros [= <- <-]. right.
      split; [done|]. apply not_true_iff_false. intros [_ Ho]%Hd; [|done].
      by rewrite (answer_ordinary _ _ _ Ha) in Ho.
    + intros [= <- <-]. split; eauto.
Qed.

Lemma observe_silent d : respects no_mutation (observeHostHealth d).
Proof.
  unfold observeHostHealth. apply silent_modify. intros s. case_match; by autorewrite with wire.
Qed.
Lemma limited_silent (b : bool) d : respects no_mutation (if b then emodify (noteRateLimited d) else eret tt).
Proof. destruct b; [apply silent_modify; intros s; by autorewrite with wire|apply respects_ret, _]. Qed.

(** The observers never fail. *)
Definition observed (res : Response) (attempt : nat) (s : S) : S :=
  (ebind (if status res =? 429 then emodify (noteRateLimited (retryDelayMs res attempt)) else eret tt)
     (λ _, observeHostHealth (status res)) s).2.

Lemma observed_silent res attempt s : no_mutation s (observed res attempt s).
Proof.
  apply (respects_bind no_mutation); [apply limited_silent|]. intros _. apply observe_silent.
Qed.

Lemma attempts_step path r left attempt s :
  fetch_attempts path r left attempt s =
    match doFetch path r s with
    | (inl e, s1) => (inl e, s1)
    | (inr res, s1) =>
        match left with
        | O => (inr res, observed res attempt s1)
        | Datatypes.S left' =>
            if bool_decide (r.(method) = u "GET") && bool_decide (res.(status) ∈ RETRYABLE_STATUS)
            then fetch_attempts path r left' (Datatypes.S attempt)
                   (sleep (retryDelayMs res attempt) (observed res attempt s1))
            else (inr res, observed res attempt s1)
        end
    end.
Proof.
  destruct left; simpl; unfold ebind at 1; destruct (doFetch path r s) as [[e|res] s1];
    try done; unfold observed, ebind; destruct (status res =? 429); simpl; try done; by case_match.
Qed.

Lemma attempts_once path r left attempt s :
  r.(method) ≠ u "GET" →
  fetch_attempts path r left attempt s =
    match doFetch path r s with
    | (inl e, s1) => (inl e, s1)
    | (inr res, s1) => (inr res, observed res attempt s1)
    end.
Proof.
  intros Hm. rewrite attempts_step, (bool_decide_false _ Hm). simpl. by destruct left.
Qed.

(** A mutation is never sent twice. *)
Lemma fetch_once path r left attempt s out s' :
  r.(kind) = OpMutation → r.(method) ≠ u "GET" → fetch_attempts path r left attempt s = (out, s') →
  match out with
  | inr res => applied r res s s'
  | inl e => no_mutation s s' ∨ (mutations s' = mutations s ++ [r] ∧ definitive e = false)
  end.
Proof.
  intros Hk Hm Hf. rewrite attempts_once in Hf by done.
  destruct (doFetch path r s) as [[e|res] s1] eqn:Hd; pose proof (fetch_mutation _ _ _ _ _ Hk Hd) as Ho;
    injection Hf as <- <-; [done|].
  destruct Ho as [Hs Ha]. split; [|done]. rewrite <- Hs. apply observed_silent.
Qed.

(** ** The answer *)

(** Classifying an answer sends nothing. *)
Definition quiet (s s' : S) : Prop := sent s' = sent s.
#[local] Instance quiet_refl : Reflexive quiet.
Proof. intros s. done. Qed.
#[local] Instance quiet_trans : Transitive quiet.
Proof. intros s1 s2 s3. unfold quiet. congruence. Qed.

Lemma accepted_quiet : respects quiet (@observeAuthAccepted S _ _ addon_token).
Proof. unfold observeAuthAccepted. destruct addon_token; intros s; [apply sent_accepted|done]. Qed.

Lemma restriction_quiet st m path t : respects quiet (@mapAddonRestriction S _ _ addon_token st m path t).
Proof.
  unfold mapAddonRestriction. destruct (restricted _ _ _); [apply respects_throw, _|].
  destruct (_ && _); intros s; [apply sent_rejected|done].
Qed.

Lemma answered_quiet r path allow res : respects quiet (answered r path allow res).
Proof.
  unfold RestCore.answered.
  repeat match goal with
  | |- respects _ (if ?b then _ else _) => destruct b
  | |- respects _ (match json res with _ => _ end) => destruct (json res)
  | |- respects _ (ebind _ _) => apply respects_bind; [apply _| |intros ?]
  | |- respects _ (eret _) => apply respects_ret, _
  | |- respects _ (ethrow _) => apply respects_throw, _
  | |- respects _ (plain_error _) => apply respects_throw, _
  | |- respects _ (eof _) => apply respects_of, _
  | |- _ => apply accepted_quiet
  | |- _ => apply restriction_quiet
  end.
Qed.

(** The failure a rejected mutation is reported with. *)
Lemma answered_rejected r path res t s :
  r.(kind) = OpMutation → rejected_status res.(status) = true → res.(text) = inr t →
  ∃ e, (answered r path false res s).1 = inl e ∧
    definitive e = negb (restricted addon_token res.(status) t).
Proof.
  intros Hk Hr Ht. unfold RestCore.answered, rejected_status in *. zbool.
  rewrite andb_false_r. assert (ok res = false) as ->.
  { unfold ok. apply andb_false_iff. right. apply Z.ltb_ge. lia. }
  simpl. rewrite Ht. unfold ebind, eof, mapAddonRestriction.
  destruct (restricted addon_token (status res) t); simpl; [by eexists|].
  assert ((status res =? 408) || (500 <=? status res) || (status res <? 400) = false) as Hf.
  { rewrite !orb_false_iff. split_and!; [by apply Z.eqb_neq|apply Z.leb_gt; lia|apply Z.ltb_ge; lia]. }
  destruct (_ && _); simpl; rewrite bool_decide_true, Hf by done; by eexists.
Qed.

Lemma answered_outcome r path res s out s' :
  r.(kind) = OpMutation → (∀ e, res.(text) = inl e → ordinary e = true) →
  answered r path false res s = (out, s') →
  match out with
  | inr _ => ok res = true
  | inl e => definitive e = true → rejected_status res.(status) = true
  end.
Proof.
  intros Hk Ht HA. unfold RestCore.answered in HA. rewrite andb_false_r in HA.
  assert (∀ e, ordinary e = true → definitive e = true → False) as Ho by (by intros []).
  destruct (ok res) eqn:Hok; simpl in HA.
  - destruct out as [e|v]; [|done]. intros Hd. exfalso. unfold ebind at 1, observeAuthAccepted, emodify in HA.
    destruct addon_token; simpl in HA.
    all: destruct (status res =? 204); [done|]; unfold ebind, eof in HA;
      destruct (text res) as [e2|t]; [injection HA as <- <-; eauto|];
      case_bool_decide; [done|]; destruct (json res); [done|];
      rewrite bool_decide_true in HA by done; by injection HA as <- <-.
  - unfold ebind, eof in HA. destruct (text res) as [e|t].
    + injection HA as <- <-. intros Hd. by destruct (Ho e (Ht e eq_refl)).
    + destruct (mapAddonRestriction addon_token (status res) (method r) path t s) as [[e|[]] s1] eqn:Hm.
      * injection HA as <- <-. unfold mapAddonRestriction in Hm.
        destruct (restricted _ _ _); [by injection Hm as <- <-|]. by destruct (_ && _).
      * rewrite bool_decide_true in HA by done. unfold rejected_status.
        destruct ((status res =? 408) || (500 <=? status res) || (status res <? 400)) eqn:Hs;
          injection HA as <- <-; [done|]. intros _. rewrite !orb_false_iff in Hs. destruct_and? Hs. zbool.
        rewrite !andb_true_iff, negb_true_iff. split_and!; [by apply Z.leb_le|by apply Z.ltb_lt|by apply Z.eqb_neq].
Qed.

(** C24: One mutation, one request.  [mutate] puts at most one mutation on the wire,
    whatever the host answers, and returns only if that one request was answered with
    success.  It fails definitively only if nothing was sent or the host rejected the
    request with a 4xx other than 408; conversely such a rejection is reported as
    definitive, except for the endpoint families closed to add-on tokens, where the caller
    gets a plain error and has to treat the outcome as unknown. *)
Theorem mutation_sent_once host m path b s out s' :
  mutate host m path b s = (out, s') →
  match out with
  | inr _ => ∃ r res, r.(kind) = OpMutation ∧ r.(method) = m ∧ r.(body) = b ∧
      applied r res s s' ∧ ok res = true
  | inl e =>
      (no_mutation s s' ∨ ∃ r, r.(kind) = OpMutation ∧ mutations s' = mutations s ++ [r]) ∧
      (definitive e = true → no_mutation s s' ∨
         ∃ r res, applied r res s s' ∧ rejected_status res.(status) = true)
  end ∧
  (∀ r res t s1, r.(kind) = OpMutation → rejected_status res.(status) = true → res.(text) = inr t →
     ∃ e, (answered r path false res s1).1 = inl e ∧
       definitive e = negb (restricted addon_token res.(status) t)).
Proof.
  intros HA. split; [|intros; by apply answered_rejected].
  unfold RestCore.mutate in HA. destruct (isMutationMethod m) eqn:Hm.
  2:{ injection HA as <- <-. split; [by left|done]. }
  assert (m ≠ u "GET") as Hget by (by intros ->).
  unfold RestCore.request, resolveHost in HA.
  destruct (hosts host) as [[|c base]|]; [by injection HA as <- <-; split; [by left|]| |
    by injection HA as <- <-; split; [by left|]].
  unfold ebind at 1, eret in HA. set (r := {| kind := _ |}) in HA.
  unfold ebind, fetchWithRetry, eget in HA. unfold ebind in HA.
  destruct (fetch_attempts path r _ 0 s) as [[e|res] s1] eqn:Hf;
    pose proof (fetch_once path r _ _ _ _ _ eq_refl Hget Hf) as Hs.
  - injection HA as <- <-. destruct Hs as [Hs|[Hs Hd]]; [by split; auto|].
    split; [right; by exists r|]. by rewrite Hd.
  - pose proof (silent _ _ (answered_quiet r path false res s1)) as Hsil. rewrite HA in Hsil. simpl in Hsil.
    destruct Hs as [Hs (s2 & Ha)]. assert (applied r res s s') as Hap by (split; [by rewrite Hsil|eauto]).
    pose proof (answered_outcome r path res s1 out s' eq_refl (λ e, text_ordinary _ _ _ e Ha) HA) as Hout.
    destruct out as [e|v]; [|exists r, res; by split_and!].
    split; [right; exists r; by destruct Hap|]. intros Hd. right. exists r, res. split; [done|]. auto.
Qed.

(** ** The scope's plan *)

(** What an interaction with the host does to the scope: only the boundary moves it. *)
Section KeepsPlan.
Context (Ha : ∀ t, respects keeps_plan (hooks.(authorizeDispatch) t)).
Context (Hd : ∀ t, respects keeps_plan (hooks.(onDispatch) t)).

Lemma keeps_modify (f : S → S) : (∀ s, scope_of (f s) = scope_of s) → respects keeps_plan (emodify f).
Proof. intros Hf s. apply keeps_plan_same, Hf. Qed.

Lemma name_failure_keeps r path e : respects keeps_plan (name_failure commitTimeoutMs r path e).
Proof. intros s. destruct (name_failure_spec r path e s) as (e' & -> & _). done. Qed.

Lemma doFetch_keeps path r : respects keeps_plan (doFetch path r).
Proof.
  destruct (boundary_keeps_plan hooks aborted Ha Hd) as [H1 H2]. unfold RestCore.doFetch, charge_call, baseFetch.
  respects_by ltac:(first [apply H1 | apply H2 | apply name_failure_keeps
    | intros s; case_match; [apply keeps_plan_same, scope_budget | done]
    | intros s; apply keeps_plan_same, scope_push]).
Qed.

Lemma attempts_keep path r left attempt : respects keeps_plan (fetch_attempts path r left attempt).
Proof.
  assert (∀ res n s, keeps_plan s (observed res n s)) as Ho.
  { intros res n. unfold observed, observeHostHealth. apply (respects_bind keeps_plan); [|intros _];
      (case_match; [|try apply respects_ret, _]); apply keeps_modify; intros s;
      auto using scope_limited, scope_throttled, scope_healthy. }
  revert attempt. induction left as [|left IH]; intros attempt s; rewrite attempts_step;
    pose proof (doFetch_keeps path r s) as Hf; destruct (doFetch path r s) as [[e|res] s1]; cbn [fst snd] in *;
    try exact Hf; [etrans; [exact Hf|apply Ho]|]. case_match; [|etrans; [exact Hf|apply Ho]].
  etrans; [exact Hf|]. etrans; [apply Ho|]. etrans; [|apply IH]. apply keeps_plan_same, scope_sleep.
Qed.

Lemma request_keeps_plan op h m path b allow : respects keeps_plan (request op h m path b allow).
Proof.
  unfold RestCore.request, resolveHost, fetchWithRetry, RestCore.answered, mapAddonRestriction,
    observeAuthAccepted, plain_error.
  respects_by ltac:(first [apply attempts_keep
    | apply keeps_modify; auto using scope_rejected, scope_accepted]).
Qed.
End KeepsPlan.

(** ** Reads *)

(** The read [r] crossed the wire at most [n] times, and nothing else did. *)
Definition only (r : Request) (n : nat) (s s' : S) : Prop :=
  ∃ k, (k ≤ n)%nat ∧ sent s' = sent s ++ replicate k r.

Lemma only_same r n s s' : sent s' = sent s → only r n s s'.
Proof. intros He. exists 0%nat. split; [lia|]. by rewrite He, app_nil_r. Qed.
Lemma only_step r a b s1 s2 s3 : only r a s1 s2 → only r b s2 s3 → only r (a + b) s1 s3.
Proof.
  intros (i & Hi & H1) (j & Hj & H2). exists (i + j)%nat. split; [lia|].
  by rewrite H2, H1, <- app_assoc, <- replicate_add.
Qed.
Lemma only_quiet r n s1 s2 s3 : only r n s1 s2 → sent s3 = sent s2 → only r n s1 s3.
Proof. intros (i & Hi & H1) He. exists i. by rewrite He. Qed.

Lemma fetch_read path r s : r.(kind) = OpRead → only r 1 s (doFetch path r s).2.
Proof.
  intros Hk. assert (gated enforceMutationScope r = false) as Hg.
  { unfold gated. by rewrite bool_decide_false by congruence. }
  rewrite doFetch_gate. unfold fetch_gate. rewrite Hg. unfold ebind, eget.
  assert (∀ e t, (name_failure commitTimeoutMs r path e t).2 = t) as Hn.
  { intros e t. by destruct (name_failure_spec r path e t) as (e' & -> & _). }
  destruct (negb (aborted s)); simpl; [|by apply only_same].
  assert (sent (charge_call s).2 = sent s) as Hc.
  { unfold charge_call. destruct (HostBudget.chargeHostCallBudget _ _); simpl; [by rewrite sent_budget|done]. }
  destruct (charge_call s) as [[e|[]] s1]; simpl in *; [rewrite Hn; by apply only_same|].
  unfold etry, baseFetch. exists 1%nat. split; [lia|].
  destruct (answer r (push r s1)); simpl; rewrite ?Hn, sent_push; by rewrite Hc.
Qed.

Lemma observed_sent res attempt s : sent (observed res attempt s) = sent s.
Proof.
  unfold observed, observeHostHealth, ebind, emodify.
  destruct (status res =? 429), (500 <=? status res); simpl; by autorewrite with wire.
Qed.

Lemma attempts_read path r left attempt s :
  r.(kind) = OpRead → only r (Datatypes.S left) s (fetch_attempts path r left attempt s).2.
Proof.
  intros Hk. revert attempt s. induction left as [|left IH]; intros attempt s; rewrite attempts_step;
    pose proof (fetch_read path r s Hk) as Ho; destruct (doFetch path r s) as [[e|res] s1]; simpl in *;
    try (eapply only_quiet; [exact Ho|by rewrite ?observed_sent]).
  - destruct Ho as (k & ? & ?). exists k. split; [lia|done].
  - destruct (_ && _).
    + apply (only_step r 1 (Datatypes.S left) s s1); [done|].
      destruct (IH (Datatypes.S attempt) (sleep (retryDelayMs res attempt) (observed res attempt s1)))
        as (k & Hk' & He). exists k. split; [done|]. by rewrite He, sent_sleep, observed_sent.
    + eapply only_quiet; [|apply observed_sent]. destruct Ho as (k & ? & ?). exists k. by split; [lia|].
Qed.

(** Reads are bounded.  A read sends only its own request: at most three times, and
    exactly once where a mutation scope is installed, so the reserved cost of a prepared
    operation holds; it never mutates, whatever its path. *)
Theorem read_bounded host m path b allow404 s :
  ∃ r n, r.(kind) = OpRead ∧ r.(method) = m ∧
    only r n s (call host m path b allow404 s).2 ∧
    (n ≤ 3)%nat ∧ (is_Some (scope_of s) → (n ≤ 1)%nat) ∧
    (safe_method m = false → (call host m path b allow404 s).2 = s) ∧
    no_mutation s (call host m path b allow404 s).2.
Proof.
  set (base := default [] (hosts host)).
  set (r := {| kind := OpRead; method := m; url := base ++ path; body := b |}).
  assert (∀ k s', only r k s s' → no_mutation s s') as Hno.
  { intros k s' (i & _ & He). unfold no_mutation, mutations. rewrite He, filter_app, (filter_none _ (replicate i r)).
    - apply app_nil_r.
    - apply Forall_replicate. by intros ?. }
  set (n := match scope_of s with Some _ => 1%nat | None => 3%nat end).
  assert (only r n s (call host m path b allow404 s).2 ∧
          (safe_method m = false → (call host m path b allow404 s).2 = s)) as [Ho Hs].
  { unfold RestCore.call. destruct (safe_method m); [|by split; [apply only_same|]]. split; [|done].
    unfold RestCore.request, resolveHost. unfold base in r.
    destruct (hosts host) as [[|c l]|]; [by apply only_same| |by apply only_same].
    unfold ebind at 1, eret. unfold ebind, fetchWithRetry, eget. unfold ebind.
    change {| kind := OpRead; method := m; url := (c :: l) ++ path; body := b |} with r.
    set (left := match scope_of s with Some _ => O | None => MAX_GET_RETRIES end).
    pose proof (attempts_read path r left 0 s eq_refl) as Ha.
    assert (Datatypes.S left = n) as Hn by (unfold left, n; by destruct (scope_of s)). rewrite Hn in Ha.
    destruct (fetch_attempts path r left 0 s) as [[e|res] s1]; [exact Ha|].
    eapply only_quiet; [exact Ha|apply answered_quiet]. }
  exists r, n. split_and!; try done; [unfold n; case_match; lia| |by eapply Hno].
  intros [sc Hsc]. unfold n. rewrite Hsc. lia.
Qed.

(** ** Lists *)

(** The pages [ps] are what the list returned from page [first] on. *)
Definition fetched host path params (unwrap : jsval → option (list jsval)) (first : nat)
    (ps : list (list jsval)) : Prop :=
  ∀ i l, ps !! i = Some l → ∃ data s1 s2,
    call host (u "GET") (page_path path params (first + i)) NoBody false s1 = (inr data, s2) ∧
    unwrap data = Some l.

Lemma pages_exact host path params unwrap refusal left page out s res s' :
  pages hooks hosts addon_token enforceMutationScope commitTimeoutMs host path params unwrap refusal
    left page out s = (inr res, s') →
  ∃ ps, res.(rows) = out ++ concat ps ∧ (length ps ≤ left)%nat ∧
    fetched host path params unwrap page ps ∧
    (∀ i l, ps !! i = Some l → (Datatypes.S i < length ps)%nat → full_page l = true) ∧
    (res.(truncated) = true → length ps = left ∧ Forall (λ l, full_page l = true) ps) ∧
    (res.(truncated) = false → ∃ l, last ps = Some l ∧ full_page l = false).
Proof.
  revert page out s. induction left as [|left IH]; intros page out s HA; simpl in HA.
  - injection HA as <- <-. exists []. simpl. split_and!; try done. by rewrite app_nil_r.
  - apply ebind_ok in HA as (data & s1 & Hcall & HA). destruct (unwrap data) as [l|] eqn:Hun; [|done].
    assert (fetched host path params unwrap page [l]) as Hone.
    { intros [|i] x Hx; simplify_eq/=. exists data, s, s1. by rewrite Nat.add_0_r. }
    destruct (full_page l) eqn:Hfull.
    + apply IH in HA as (ps & Hr & Hlen & Hf & Hfulls & Ht & Hnt). exists (l :: ps). split_and!.
      * by rewrite Hr, <- app_assoc.
      * simpl. lia.
      * intros [|i] x Hx; simpl in Hx; [by apply (Hone 0%nat)|].
        replace (page + Datatypes.S i)%nat with (Datatypes.S page + i)%nat by lia. by apply Hf.
      * intros [|i] x Hx Hi; simplify_eq/=; [done|]. eapply Hfulls; [done|lia].
      * intros Htr. destruct (Ht Htr) as [Hl Hall]. split; [simpl; lia|by constructor].
      * intros Htr. destruct (Hnt Htr) as (x & Hx & Hxf). exists x. split; [|done].
        destruct ps; [done|]. by rewrite last_cons_cons.
    + injection HA as <- <-. exists [l]. simpl. rewrite app_nil_r. split_and!; try done; try lia.
      by exists l.
Qed.

(** A list is its pages.  [paginate] returns the rows of pages 1, 2, ... in order, each
    from one answered request, up to the first page that is not full; it says "truncated"
    exactly if the backstop of fifty pages (one inside a mutation scope) ended the loop with
    every page full, and an answer that is no array is an error, never an empty list. *)
Theorem paginate_exact host path params s res s' :
  paginate hooks hosts addon_token enforceMutationScope commitTimeoutMs host path params s = (inr res, s') →
  let limit := match scope_of s with Some _ => 1%nat | None => 50%nat end in
  ∃ ps, res.(rows) = concat ps ∧ (length ps ≤ limit)%nat ∧
    fetched host path params bare_rows 1 ps ∧
    (∀ i l, ps !! i = Some l → (Datatypes.S i < length ps)%nat → full_page l = true) ∧
    (res.(truncated) = true ↔ length ps = limit ∧ Forall (λ l, full_page l = true) ps) ∧
    (limit = 1%nat → Z.of_nat (length res.(rows)) < PAGE_SIZE → res.(truncated) = false).
Proof.
  intros HA limit. unfold paginate, ebind, mutationReadPageLimit in HA. fold limit in HA.
  apply pages_exact in HA as (ps & Hr & Hlen & Hf & Hfulls & Ht & Hnt). exists ps. split_and!; try done.
  - split; [done|]. intros [Hl Hall]. destruct (truncated res) eqn:E; [done|].
    destruct (Hnt eq_refl) as (l & Hlast & Hnf). apply last_Some_elem_of in Hlast.
    rewrite Forall_forall in Hall. by rewrite (Hall _ Hlast) in Hnf.
  - intros Hone Hsmall. destruct (truncated res) eqn:E; [|done]. destruct (Ht eq_refl) as [Hl Hall].
    assert (length ps = 1%nat) as Hl1 by (rewrite Hl; exact Hone).
    destruct ps as [|l [|]]; try done. rewrite Hr in Hsmall. simpl in Hsmall.
    rewrite app_nil_r in Hsmall. apply Forall_cons in Hall as [Hfull _]. unfold full_page in Hfull.
    apply negb_true_iff, Z.ltb_ge in Hfull. lia.
Qed.
End Results.
