(* ===== verification/Receipts.v ===== *)
(** * Receipts and action definitions

    [harness/receipts.ts]: the one shape of every success and error, and
    [harness/action.ts]: results of actions, the classification of what a preparation
    returned, the reconciliation contract of a plan and the definition of an action.
    The schema library and the workflow modules are arguments of a definition. *)
From S2P Require Import Prelude Js SafeJson Policy SafetyLimits Plan WriteAuthority Effects.
From S2P Require Db Journal.
Import Permissions Risk.
Open Scope Z_scope.
#[local] Arguments u : simpl never.

(** ** Error receipts *)

Definition recovery_hint (hint : jstr) (retryable : bool) : jsval :=
  VObj [(u "hint", VStr hint); (u "retryable", VBool retryable)].

Definition errorReceipt (action code message : jstr) (recovery : jsval) : jsval :=
  VObj [(u "ok", VBool false); (u "action", VStr action); (u "code", VStr code); (u "message", VStr message);
        (u "recovery", if is_undef recovery then recovery_hint message false else recovery)].

(** With literal texts. *)
Definition error_receipt (action : jstr) (code message hint : string) (retryable : bool) : jsval :=
  errorReceipt action (u code) (u message) (recovery_hint (u hint) retryable).

(** ** Entities *)

Record EntityRef := {
  ref_type : jstr;
  ref_entity : jstr;                   (** [id] *)
  ref_name : option jstr;
  ref_projectId : option jstr;
}.
#[export] Instance entity_dec : EqDecision EntityRef.
Proof. solve_decision. Defined.

Definition optional_text (k : string) (v : option jstr) : list (jstr * jsval) :=
  match v with Some s => [(u k, VStr s)] | None => [] end.
Definition ref_value (r : EntityRef) : jsval :=
  VObj ([(u "type", VStr r.(ref_type)); (u "id", VStr r.(ref_entity))] ++
        optional_text "name" r.(ref_name) ++ optional_text "projectId" r.(ref_projectId)).

(** ** Success receipts *)

(** [ChangeSet]: a bucket and its references; absent buckets are [VUndef]. *)
Abbreviation ChangeSet := (jsval * jsval * jsval * jsval)%type.
Definition CHANGE_BUCKETS : list string := ["created"; "updated"; "deleted"; "reused"].

Definition non_empty (refs : jsval) : bool := match refs with VArr (_ :: _) => true | _ => false end.
Definition buckets (c : ChangeSet) : list (string * jsval) :=
  let '(created, updated, deleted, reused) := c in zip CHANGE_BUCKETS [created; updated; deleted; reused].

Definition hasChanges (changed : option ChangeSet) : bool :=
  match changed with
  | None => false
  | Some c => existsb (λ b, non_empty b.2) (buckets c)
  end.

Definition cleanChangeSet (changed : option ChangeSet) : option jsval :=
  if hasChanges changed then
    c ← changed;
    Some (VObj ((λ b, (u b.1, b.2)) <$> filter (λ b, non_empty b.2 = true) (buckets c)))
  else None.

Record SuccessReceiptInput := {
  receipt_action : jstr;
  receipt_entity : option jstr;
  receipt_ids : list (jstr * option jstr);
  receipt_data : jsval;
  receipt_changed : option ChangeSet;
  receipt_warnings : list jsval;
  receipt_next : list jsval;
}.

Definition some_list (k : string) (l : list jsval) : list (jstr * jsval) :=
  match l with [] => [] | _ => [(u k, VArr l)] end.

Definition successReceipt (i : SuccessReceiptInput) : jsval :=
  let ids := Journal.cleanIds i.(receipt_ids) in
  VObj ([(u "ok", VBool true); (u "action", VStr i.(receipt_action))] ++
        match i.(receipt_entity) with Some (c :: e) => [(u "entity", VStr (c :: e))] | _ => [] end ++
        (if is_undef i.(receipt_data) then [] else [(u "data", i.(receipt_data))]) ++
        match ids with [] => [] | _ => [(u "ids", VObj ids)] end ++
        match cleanChangeSet i.(receipt_changed) with Some c => [(u "changed", c)] | None => [] end ++
        some_list "warnings" i.(receipt_warnings) ++ some_list "next" i.(receipt_next)).

Definition truncation_message : string :=
  "Clockify returned an incomplete list. Narrow the filter or date range before relying on absence, uniqueness, counts, or totals.".

(** [extra] is the additional context of a list, [key] the field of its rows. *)
Definition listReceipt (i : SuccessReceiptInput) (rows : list jsval) (truncated : bool) (key : jstr)
    (extra : list (jstr * jsval)) (count : option Z) (message : option jstr) : jsval :=
  let warns := i.(receipt_warnings) ++
    (if truncated && negb (existsb (λ w, is_text (u "list_truncated") (prop (u "code") w)) i.(receipt_warnings))
     then [VObj [(u "code", VStr (u "list_truncated"));
                 (u "message", VStr (default (u truncation_message) message))]]
     else []) in
  successReceipt {|
    receipt_action := i.(receipt_action); receipt_entity := i.(receipt_entity); receipt_ids := i.(receipt_ids);
    receipt_data := VObj (fields_set (u "truncated") (VBool truncated)
      (fields_set key (VArr rows)
        (fields_set (u "count") (num (default (Z.of_nat (length rows)) count)) extra)));
    receipt_changed := i.(receipt_changed); receipt_warnings := warns; receipt_next := i.(receipt_next) |}.

(** ** Results *)

(** [CommitResult] is a receipt or a partial result; both are values here. *)
Definition isPartialCommitResult (result : jsval) : bool := is_text (u "partial") (prop (u "kind") result).
Definition receipt_ok (result : jsval) : bool :=
  match prop (u "ok") result with VBool true => true | _ => false end.
Definition result_code (result : jsval) : option jstr := string_of (prop (u "code") result).

Record ConfirmableOperation := {
  op_operationId : jstr;
  op_actionName : jstr;
  op_installationGeneration : option Z;
  op_featureGroup : FeatureGroup;
  op_risks : list RiskLabel;
  op_payload : jsval;
  op_mutationPlan : option ExternalMutationPlan;
  op_targetSnapshots : jsval;
}.

Inductive ActionResult : Type :=
| RReceipt (receipt : jsval)
| RPartial (result : jsval)
| RClarify (message options field : jsval)
| RPreview (preview : jsval) (operation : ConfirmableOperation).

(** ** What a preparation returned *)

Definition option_ok (o : jsval) : bool :=
  is_record o &&
  match prop (u "id") o, prop (u "label") o with
  | VStr (_ :: _), VStr (_ :: _) => true
  | _, _ => false
  end.

Definition isSafeWriteClarification (v : jsval) : bool :=
  is_record v && is_text (u "clarify") (prop (u "kind") v) &&
  match prop (u "clarify") v with VStr s => negb (bool_decide (trim s = [])) | _ => false end &&
  match prop (u "options") v with
  | VUndef => true
  | VArr l => forallb option_ok l
  | _ => false
  end.

Definition isSafeWriteNoop (v : jsval) : bool :=
  is_record v && is_text (u "noop") (prop (u "kind") v) && is_record (prop (u "receipt") v) &&
  match prop (u "ok") (prop (u "receipt") v) with VBool _ => true | _ => false end.

Definition has_own (k : string) (v : jsval) : bool := bool_decide (is_Some (fields_get (u k) (fields_of v))).

Definition isPreparedSafeWrite (v : jsval) : bool :=
  is_record v && negb (has_own "kind" v) && has_own "operation" v &&
  let plan := prop (u "mutationPlan") v in
  is_record plan && Db.is_in (string_of (prop (u "mode") plan)) plan_modes &&
  match prop (u "steps") plan with VArr (_ :: _) => true | _ => false end.

(** [clarifyResult] *)
Definition clarifyResult (c : jsval) : ActionResult :=
  RClarify (prop (u "clarify") c) (prop (u "options") c)
    (if truthy_value (prop (u "field") c) then prop (u "field") c else VUndef).

(** ** The reconciliation contract of a plan *)

Record DurableMutationContract := {
  contract_strategies : list reconciliation_strategy;
  contract_unreconciled : list jstr;
}.

Fixpoint contract_steps (c : DurableMutationContract) (ids : list jstr)
    (steps : list ExternalMutationPlanStep) : option jstr :=
  match steps with
  | [] => None
  | s :: rest =>
      let id := s.(plan_step_id) in
      if bool_decide (id = []) || bool_decide (id ∈ ids) then Some (u "invalid_mutation_plan_step")
      else match s.(plan_reconciliation) with
      | None => if bool_decide (id ∈ c.(contract_unreconciled)) then contract_steps c (id :: ids) rest
                else Some (u "missing_reconciliation_strategy:" ++ id)
      | Some strategy =>
          if bool_decide (strategy ∈ c.(contract_strategies)) then contract_steps c (id :: ids) rest
          else Some (u "undeclared_reconciliation_strategy:" ++ id)
      end
  end.

Definition mutationPlanContractError (contract : option DurableMutationContract)
    (plan : option (plan_mode * list ExternalMutationPlanStep)) : option jstr :=
  match contract, plan with
  | None, _ => Some (u "missing_mutation_contract")
  | Some _, None => Some (u "missing_mutation_plan")
  | Some c, Some (m, steps) =>
      if bool_decide (steps = []) then Some (u "missing_mutation_plan")
      else if bool_decide (m = Single) && negb (length steps =? 1)%nat then Some (u "invalid_single_mutation_plan")
      else contract_steps c [] steps
  end.

Definition plan_of (p : ExternalMutationPlan) : plan_mode * list ExternalMutationPlanStep := (p.(mode), p.(steps)).

(** [validateAssistantPrimaryMutationPlan] of [harness/durable-risky-write.ts]. *)
Definition validateAssistantPrimaryMutationPlan (contract : option DurableMutationContract)
    (plan : option ExternalMutationPlan) : option jstr :=
  match plan with
  | None => Some (u "missing_mutation_plan")
  | Some p =>
      if negb (countb (λ s, bool_decide (s.(plan_step_kind) = Primary)) p.(steps) =? 1)
      then Some (u "assistant_requires_single_primary")
      else mutationPlanContractError contract (Some (plan_of p))
  end.

(** The primaries of a bound plan. *)
Definition primaries (plan : ExternalMutationPlan) : list ExternalMutationPlanStep :=
  filter (λ x, x.(plan_step_kind) = Primary) plan.(steps).

Lemma single_primary contract plan :
  validateAssistantPrimaryMutationPlan contract (Some plan) = None →
  length (primaries plan) = 1%nat ∧ mutationPlanContractError contract (Some (plan_of plan)) = None.
Proof.
  unfold validateAssistantPrimaryMutationPlan. destruct (negb _) eqn:E; [done|]. intros H. split; [|done].
  apply negb_false_iff, Z.eqb_eq in E. rewrite countb_filter in E. unfold primaries. lia.
Qed.
