(* ===== verification/Workflow.v ===== *)
(** * The mutation workflow

    [harness/mutation-workflow.ts]: one journaled dispatch ([executeStep]), one
    compensation, and the workflow that runs the primaries of an operation in order.  It
    is written against the step journal as an interface ([harness/mutation-contract.ts],
    class [MutationStepJournal]); what the journal promises is the class [JournalLaws],
    which file World discharges for the SQLite store. *)
From S2P Require Import Prelude Js SafeJson Db Plan Journal Effects MutationScope PlanScope Receipts.
Open Scope Z_scope.
#[local] Arguments u : simpl never.

(** ** The journal *)

Record ScopedPreparePrimaryStep := {
  prep_planStepId : jstr;
  prep_index : nat;
  prep_name : jstr;
  prep_targetFingerprint : option jstr;
  prep_detail : jsval;
}.
Record ScopedPrepareCompensationStep := {
  prepc_planStepId : jstr;
  prepc_index : nat;
  prepc_name : jstr;
  prepc_targetFingerprint : option jstr;
  prepc_compensatesStepId : jstr;
}.

(** A step as the journal lists it: its id and its row. *)
Abbreviation JournaledMutationStep := (jstr * OperationStepRow)%type.

Class MutationStepJournal (S : Type) := {
  journal_operationId : jstr;
  getOperationStatus : E S (option OperationRunStatus);
  prepareOperationStep : ScopedPreparePrimaryStep → E S jstr;
  markOperationStepExecuting : jstr → E S bool;
  markOperationStepDispatched : jstr → E S bool;
  cancelOperationStepBeforeDispatch : jstr → jsval → E S bool;
  settleOperationStep : jstr → PrimaryOutcome → StepDetail → E S unit;
  settleOperationStepDegraded : jstr → PrimaryOutcome → option jstr → jsval → E S unit;
  prepareCompensationStep : ScopedPrepareCompensationStep → E S jstr;
  markOperationStepCompensating : jstr → E S bool;
  settleCompensationStep : jstr → CompensationOutcome → StepDetail → E S unit;
  settleCompensationStepDegraded : jstr → CompensationOutcome → option jstr → jsval → E S unit;
  listOperationSteps : E S (list JournaledMutationStep);
}.

(** ** Steps and their outcomes *)

Record ExecutableMutationStep (S : Type) := {
  exec_id : jstr;
  exec_index : nat;
  exec_name : jstr;
  exec_kind : StepKind;
  exec_targetFingerprint : option jstr;
  exec_preparedDetail : jsval;             (** [VUndef]: absent *)
  exec_compensatesStepId : option jstr;
  dispatch : E S StepDetail;               (** the injected host mutation *)
}.
Arguments exec_id {S}. Arguments exec_index {S}. Arguments exec_name {S}. Arguments exec_kind {S}.
Arguments exec_targetFingerprint {S}. Arguments exec_preparedDetail {S}.
Arguments exec_compensatesStepId {S}. Arguments dispatch {S}.

Definition str (s : string) : jsval := VStr (u s).

Definition safeFailureDetail (e : failure) : jsval :=
  let name := (u "type", VStr (error_name e)) in
  let message := (u "message", VStr (error_message e)) in
  VObj match e with
  | MutationDispatchDenied denial =>
      [name; (u "code", str "mutation_dispatch_denied"); (u "denial", denial); message]
  | MutationPlanViolation _ => [name; (u "code", str "mutation_plan_violation"); message]
  | HostCallBudgetExceededError _ _ => [name; (u "code", str "host_call_budget_exceeded"); message]
  | HostRequestCancelledError => [name; (u "code", str "host_request_cancelled"); message]
  | AmbiguousWriteOutcome m p _ st | DefinitiveWriteFailure m p _ st =>
      [name; (u "method", VStr m); (u "path", VStr p)] ++
      match st with Some n => [(u "status", num n)] | None => [] end ++ [message]
  | OtherError _ _ | NotAnError _ => [name; message]
  end.

Definition outcome_name (o : PrimaryOutcome) : string :=
  match o with
  | did_succeed => "succeeded" | did_fail => "definitive_failed" | unknown_outcome => "outcome_unknown"
  end.
Definition compensation_name (o : CompensationOutcome) : string :=
  match o with
  | was_compensated => "compensated" | compensation_did_fail => "compensation_failed"
  | compensation_unknown => "outcome_unknown"
  end.

(** An optional member of an object literal. *)
Definition member_if (k : string) (v : jsval) : list (jstr * jsval) :=
  if is_undef v then [] else [(u k, v)].

Definition degradedSettlementDetail (settlementError : failure) (dispatchStatus : string)
    (dispatchDetail : jsval) : list (jstr * jsval) :=
  [(u "journalDegraded", VBool true); (u "fullEffectPersisted", VBool false);
   (u "dispatchStatus", str dispatchStatus); (u "settlementError", safeFailureDetail settlementError)] ++
  member_if "dispatchDetail" dispatchDetail.

Definition runtimeStep (base : JournaledMutationStep) (status : StepStatus) (outcome : StepDetail)
    (detail : jsval) : JournaledMutationStep :=
  let r := base.2 in
  (base.1,
   {| identity := r.(identity); step_status := status;
      external_id := match outcome.(detail_externalId) with Some e => Some e | None => r.(external_id) end;
      effect_json := if is_undef outcome.(detail_effect) then r.(effect_json) else Some outcome.(detail_effect);
      detail_json := if is_undef detail
                     then if is_undef outcome.(detail_detail) then r.(detail_json)
                          else Some outcome.(detail_detail)
                     else Some detail;
      queued_at := r.(queued_at); dispatched_at := r.(dispatched_at); settled_at := r.(settled_at);
      step_updated_at := r.(step_updated_at) |}).

Definition combinePreparedDetail (prepared dispatched : jsval) : jsval :=
  if is_undef prepared then dispatched
  else if is_undef dispatched then prepared
  else if is_record prepared then VObj (fields_set (u "dispatch") dispatched (spread_fields prepared))
  else VObj [(u "preDispatch", prepared); (u "dispatch", dispatched)].

(** The status a thrown dispatch stands for. *)
Definition thrown_outcome (e : failure) : PrimaryOutcome := if definitive e then did_fail else unknown_outcome.
Definition thrown_compensation (e : failure) : CompensationOutcome :=
  if definitive e then compensation_did_fail else compensation_unknown.
Definition failure_outcome (e : failure) : StepDetail :=
  {| detail_externalId := None; detail_effect := VUndef; detail_detail := safeFailureDetail e |}.
Definition with_detail (v : jsval) (x : StepDetail) : StepDetail :=
  {| detail_externalId := x.(detail_externalId); detail_effect := x.(detail_effect); detail_detail := v |}.

Definition error {A S} (m : string) : E S A := ethrow (OtherError (u "Error") (u m)).
Definition elift {A S} (r : result A) : E S A := match r with Ok a => eret a | Throw m => error m end.
Notation "'ensure*' b 'else' e 'in' k" := (if b then k else error e)
  (at level 10, b at level 100, e at level 100, k at level 200) : s2p_scope.

Section Workflow.
Context {S : Type} `{!MutationHost S, !MutationStepJournal S} (hooks : ScopeHooks S).
Context (operationId : jstr).

(** [listOperationSteps().find((step) => step.id === stepId)] *)
Definition find_listed (id : jstr) (l : list JournaledMutationStep) : option JournaledMutationStep :=
  list_find (λ kv, kv.1 = id) l ≫= λ p, Some p.2.
Definition listed (id : jstr) (missing : string) : E S JournaledMutationStep :=
  let* l := listOperationSteps in
  match find_listed id l with Some x => eret x | None => error missing end.

(** ** One primary step *)

(** Up to the durable [executing] row. *)
Definition prepare_step (x : ExecutableMutationStep S) : E S (jsval * JournaledMutationStep) :=
  ensure* bool_decide (x.(exec_kind) = primary) else "compensation_requires_dedicated_executor" in
  ensure* bool_decide (journal_operationId = operationId) else "operation_journal_scope_mismatch" in
  let* status := getOperationStatus in
  ensure* bool_decide (status = Some RunExecuting) else "operation_not_executing" in
  let* prepared := (if is_undef x.(exec_preparedDetail) then eret VUndef
                    else elift (exactNonsecretJson x.(exec_preparedDetail) 55000)) in
  let* stepId := prepareOperationStep
    {| prep_planStepId := x.(exec_id); prep_index := x.(exec_index); prep_name := x.(exec_name);
       prep_targetFingerprint := column x.(exec_targetFingerprint); prep_detail := prepared |} in
  let* marked := markOperationStepExecuting stepId in
  ensure* marked else "operation_step_not_prepared" in
  let* executing := listed stepId "operation_step_not_found" in
  eret (prepared, executing).

(** A cancelled request is definitive only if the journal proves that nothing was dispatched. *)
Definition cancelled_step (stepId : jstr) (prepared : jsval) : E S (option JournaledMutationStep) :=
  let* cancelled := cancelOperationStepBeforeDispatch stepId
    (combinePreparedDetail prepared (safeFailureDetail HostRequestCancelledError)) in
  if cancelled then let* x := listed stepId "operation_step_not_found" in eret (Some x) else eret None.

Definition recorded_outcome (prepared : jsval) (x : StepDetail) : StepDetail :=
  if is_undef prepared then x
  else with_detail (combinePreparedDetail prepared
         (if is_undef x.(detail_detail) then VUndef
          else boundedCompleteSanitizedJson x.(detail_detail) 8000)) x.

(** What is left when the journal cannot be written: the known outcome on the runtime step. *)
Definition runtime_detail (prepared : jsval) (degraded : list (jstr * jsval)) : jsval :=
  let kept := filter (λ f, f.1 ≠ u "dispatchDetail") degraded in
  if is_record prepared then VObj (fields_spread (spread_fields prepared) kept)
  else VObj (member_if "preDispatch" prepared ++ kept).

Definition settle_step (executing : JournaledMutationStep) (prepared : jsval) (o : PrimaryOutcome)
    (outcome : StepDetail) : E S JournaledMutationStep :=
  let stepId := executing.1 in
  let* settled := eattempt (settleOperationStep stepId o outcome) in
  match settled with
  | inr _ => listed stepId "operation_step_not_found"
  | inl e =>
      let degraded := degradedSettlementDetail e (outcome_name o) outcome.(detail_detail) in
      let* fallback := eattempt
        (let* _ := settleOperationStepDegraded stepId o outcome.(detail_externalId) (VObj degraded) in
         let* l := listOperationSteps in eret (find_listed stepId l)) in
      match fallback with
      | inr (Some x) => eret x
      | _ => eret (runtimeStep executing (primary_status o) outcome (runtime_detail prepared degraded))
      end
  end.

Definition executeStep (x : ExecutableMutationStep S) : E S JournaledMutationStep :=
  let* p := prepare_step x in
  let '(prepared, executing) := p in
  let* done := eattempt (withMutationPlanStep hooks x.(exec_id) x.(exec_index) primary x.(dispatch)) in
  match done with
  | inr outcome => settle_step executing prepared did_succeed (recorded_outcome prepared outcome)
  | inl HostRequestCancelledError =>
      let* cancelled := cancelled_step executing.1 prepared in
      match cancelled with
      | Some y => eret y
      | None => settle_step executing prepared unknown_outcome
                  (recorded_outcome prepared (failure_outcome HostRequestCancelledError))
      end
  | inl e => settle_step executing prepared (thrown_outcome e) (recorded_outcome prepared (failure_outcome e))
  end.

(** ** One compensation *)

Definition executeCompensationStep (x : ExecutableMutationStep S) (compensatesStepId : jstr)
    : E S JournaledMutationStep :=
  ensure* bool_decide (journal_operationId = operationId) else "operation_journal_scope_mismatch" in
  let* stepId := prepareCompensationStep
    {| prepc_planStepId := x.(exec_id); prepc_index := x.(exec_index); prepc_name := x.(exec_name);
       prepc_targetFingerprint := column x.(exec_targetFingerprint);
       prepc_compensatesStepId := compensatesStepId |} in
  let* marked := markOperationStepCompensating stepId in
  ensure* marked else "compensation_step_not_prepared" in
  let* executing := listed stepId "compensation_step_not_found" in
  let* done := eattempt (withMutationPlanStep hooks x.(exec_id) x.(exec_index) compensation x.(dispatch)) in
  let '(o, outcome) := match done with
    | inr outcome => (was_compensated, outcome)
    | inl e => (thrown_compensation e, failure_outcome e)
    end in
  let* settled := eattempt (settleCompensationStep stepId o outcome) in
  match settled with
  | inr _ => listed stepId "compensation_step_not_found"
  | inl e =>
      let degraded := VObj (degradedSettlementDetail e (compensation_name o) outcome.(detail_detail)) in
      let* _ := eattempt (settleCompensationStepDegraded stepId o outcome.(detail_externalId) degraded) in
      eret (runtimeStep executing (compensation_status o) outcome degraded)
  end.

(** ** The workflow *)

Record ExecuteMutationWorkflowInput := {
  actionName : jstr;
  steps : list (ExecutableMutationStep S);
  onSuccess : list JournaledMutationStep → E S jsval;
  onPartial : list JournaledMutationStep → JournaledMutationStep → E S jsval;
  onJournalDegraded : list JournaledMutationStep → JournaledMutationStep → E S jsval;
  onFailure : JournaledMutationStep → E S jsval;
}.

Definition step_detail (x : JournaledMutationStep) : jsval := default VUndef x.2.(detail_json).

Definition is_true (v : jsval) : bool := match v with VBool true => true | _ => false end.
Definition isJournalDegradedStep (x : JournaledMutationStep) : bool :=
  is_object (step_detail x) && is_true (prop (u "journalDegraded") (step_detail x)).

Definition degraded_warning : jsval :=
  VObj [(u "code", str "operation_journal_degraded");
        (u "message", str "Clockify confirmed the change, but the full local step record could not be saved. The operation will not be retried automatically.")].
Definition warnings_of (receipt : jsval) : list jsval :=
  match prop (u "warnings") receipt with VArr l => l | _ => [] end.
Definition withJournalDegradedWarning (receipt : jsval) : jsval :=
  if existsb (λ w, is_text (u "operation_journal_degraded") (prop (u "code") w)) (warnings_of receipt)
  then receipt
  else VObj (fields_set (u "warnings") (VArr (warnings_of receipt ++ [degraded_warning])) (fields_of receipt)).

Definition unknown_receipt (action : jstr) : jsval :=
  error_receipt action "commit_outcome_unknown"
    "Clockify did not provide a definitive response, so this change may or may not have been applied. No later step was dispatched."
    "Verify the recorded step in Clockify before deciding whether to try again." false.
Definition violation_receipt (action : jstr) : jsval :=
  error_receipt action "mutation_plan_violation"
    "A host mutation was blocked because it did not match the exact stored plan."
    "Create a fresh preview from the current action catalog." false.

(** The result for a step that did not succeed cleanly. *)
Definition stopped (i : ExecuteMutationWorkflowInput) (completed : list JournaledMutationStep)
    (x : JournaledMutationStep) : E S jsval :=
  if bool_decide (x.2.(step_status) = StepOutcomeUnknown) then eret (unknown_receipt i.(actionName))
  else
    let code := if is_object (step_detail x) then prop (u "code") (step_detail x) else VUndef in
    let denial := if is_object (step_detail x) then prop (u "denial") (step_detail x) else VUndef in
    if bool_decide (completed = []) && is_text (u "mutation_dispatch_denied") code && is_object denial
    then eret denial
    else if bool_decide (completed = []) && is_text (u "mutation_plan_violation") code
    then eret (violation_receipt i.(actionName))
    else if bool_decide (completed = []) then i.(onFailure) x else i.(onPartial) completed x.

Definition is_primary_step (x : ExecutableMutationStep S) : bool := bool_decide (x.(exec_kind) = primary).

Fixpoint run_steps (i : ExecuteMutationWorkflowInput) (todo : list (ExecutableMutationStep S))
    (completed : list JournaledMutationStep) : E S jsval :=
  match todo with
  | [] => i.(onSuccess) completed
  | x :: todo' =>
      if negb (is_primary_step x) then run_steps i todo' completed
      else
        let* result := executeStep x in
        if bool_decide (result.2.(step_status) = StepSucceeded) then
          if isJournalDegradedStep result then
            if bool_decide (countb is_primary_step i.(steps) = 1)
            then let* receipt := i.(onSuccess) [result] in eret (withJournalDegradedWarning receipt)
            else i.(onJournalDegraded) (completed ++ [result]) result
          else run_steps i todo' (completed ++ [result])
        else stopped i completed result
  end.

Definition executeMutationWorkflow (i : ExecuteMutationWorkflowInput) : E S jsval :=
  ensure* bool_decide (journal_operationId = operationId) else "operation_journal_scope_mismatch" in
  let* status := getOperationStatus in
  ensure* bool_decide (status = Some RunExecuting) else "operation_not_executing" in
  run_steps i i.(steps) [].
End Workflow.
