(* ===== verification/WorkflowResults.v ===== *)
(** * What the mutation workflow guarantees

    The promises of a step journal ([JournalLaws]) and what they give: one dispatch per
    step, behind a durable [executing] row, whose known outcome no later failure of the
    journal rewrites; and the exact order in which a workflow runs its steps and stops. *)
From S2P Require Import Prelude Js SafeJson Db Plan Journal Effects MutationScope PlanScope Workflow.
Open Scope Z_scope.
#[local] Arguments u : simpl never.
#[local] Arguments is_text : simpl never.

(** ** The promises of a journal *)

(** The listing is a pure read, and a transition that reports success shows in it. *)
Class JournalLaws (S : Type) `{!MutationStepJournal S} := {
  listing : S → list JournaledMutationStep;
  listing_read : ∀ s, listOperationSteps s = (inr (listing s), s);
  executing_listed : ∀ id s s', markOperationStepExecuting id s = (inr true, s') →
    ∀ x, find_listed id (listing s') = Some x → x.2.(step_status) = StepExecuting;
  cancelled_listed : ∀ id v s s', cancelOperationStepBeforeDispatch id v s = (inr true, s') →
    ∃ x, find_listed id (listing s') = Some x ∧ x.2.(step_status) = StepDefinitiveFailed;
  settled_listed : ∀ id o v s s', settleOperationStep id o v s = (inr tt, s') →
    ∃ x, find_listed id (listing s') = Some x ∧ x.2.(step_status) = primary_status o;
  degraded_listed : ∀ id o ext v s s', settleOperationStepDegraded id o ext v s = (inr tt, s') →
    ∃ x, find_listed id (listing s') = Some x ∧ x.2.(step_status) = primary_status o;
  compensating_listed : ∀ id s s', markOperationStepCompensating id s = (inr true, s') →
    ∃ x, find_listed id (listing s') = Some x ∧ x.2.(step_status) = StepExecuting;
  compensated_listed : ∀ id o v s s', settleCompensationStep id o v s = (inr tt, s') →
    ∃ x, find_listed id (listing s') = Some x ∧ x.2.(step_status) = compensation_status o;
}.

Lemma find_listed_id id l x : find_listed id l = Some x → x.1 = id.
Proof.
  unfold find_listed. destruct (list_find _ l) as [[i y]|] eqn:Hf; [|done].
  apply list_find_Some in Hf as (_ & Hy & _). intros [= <-]. done.
Qed.

(** An observation of the state that the journal does not touch, like the requests sent. *)
Record Untouched {S T : Type} `{!MutationStepJournal S} (f : S → T) : Prop := {
  un_status : respects (λ s s', f s' = f s) getOperationStatus;
  un_prepare : ∀ i, respects (λ s s', f s' = f s) (prepareOperationStep i);
  un_execute : ∀ id, respects (λ s s', f s' = f s) (markOperationStepExecuting id);
  un_dispatch : ∀ id, respects (λ s s', f s' = f s) (markOperationStepDispatched id);
  un_cancel : ∀ id v, respects (λ s s', f s' = f s) (cancelOperationStepBeforeDispatch id v);
  un_settle : ∀ id o v, respects (λ s s', f s' = f s) (settleOperationStep id o v);
  un_degrade : ∀ id o ext v, respects (λ s s', f s' = f s) (settleOperationStepDegraded id o ext v);
  un_prepare_comp : ∀ i, respects (λ s s', f s' = f s) (prepareCompensationStep i);
  un_compensate : ∀ id, respects (λ s s', f s' = f s) (markOperationStepCompensating id);
  un_settle_comp : ∀ id o v, respects (λ s s', f s' = f s) (settleCompensationStep id o v);
  un_degrade_comp : ∀ id o ext v, respects (λ s s', f s' = f s) (settleCompensationStepDegraded id o ext v);
}.

#[export] Hint Resolve un_status un_prepare un_execute un_dispatch un_cancel un_settle un_degrade un_prepare_comp
  un_compensate un_settle_comp un_degrade_comp : effects.

Section Results.
Context {S : Type} `{!MutationHost S, !MutationStepJournal S, !JournalLaws S} (hooks : ScopeHooks S).
Context (operationId : jstr).

Abbreviation executeStep := (executeStep hooks operationId).
Abbreviation executeCompensationStep := (executeCompensationStep hooks operationId).
Abbreviation run_primary x := (withMutationPlanStep hooks x.(exec_id) x.(exec_index) primary x.(dispatch)).
Abbreviation run_compensation x :=
  (withMutationPlanStep hooks x.(exec_id) x.(exec_index) compensation x.(dispatch)).

Lemma listed_spec id missing (s : S) :
  listed id missing s =
    (match find_listed id (listing s) with
     | Some x => inr x | None => inl (OtherError (u "Error") (u missing)) end, s).
Proof. unfold listed, ebind. rewrite listing_read. by destruct (find_listed _ _). Qed.

(** ** Bringing a step to its durable [executing] row *)

Section Observed.
Context {T : Type} (f : S → T) (Hf : Untouched f).

#[local] Instance same_refl : Reflexive (λ s s', f s' = f s).
Proof. by intros s. Qed.
#[local] Instance same_trans : Transitive (λ s s', f s' = f s).
Proof. intros s1 s2 s3. congruence. Qed.

Lemma listed_same id missing : respects (λ s s', f s' = f s) (@listed S _ id missing).
Proof. intros s. by rewrite listed_spec. Qed.

Lemma prepare_same x : respects (λ s s', f s' = f s) (prepare_step operationId x).
Proof.
  unfold prepare_step, elift, error.
  respects_by ltac:(first [apply (un_status f Hf) | apply (un_prepare f Hf) | apply (un_execute f Hf) | apply listed_same]).
Qed.

(** ** Settling *)

(** However the journal fails, a settlement returns the outcome it was given. *)
Lemma settle_step_exact y p o outcome s r s' :
  settle_step y p o outcome s = (r, s') →
  f s' = f s ∧ ∃ z, r = inr z ∧ z.1 = y.1 ∧ z.2.(step_status) = primary_status o.
Proof.
  unfold settle_step, ebind at 1, eattempt at 1. pose proof (un_settle f Hf y.1 o outcome s) as Hs.
  destruct (settleOperationStep y.1 o outcome s) as [[e|[]] s1] eqn:Hset; simpl in Hs.
  2:{ rewrite listed_spec. apply settled_listed in Hset as (z & Hz & Hst). rewrite Hz.
      intros [= <- <-]. split; [done|]. exists z. by rewrite (find_listed_id _ _ _ Hz). }
  set (degraded := degradedSettlementDetail _ _ _). unfold ebind at 1, eattempt. unfold ebind at 1.
  pose proof (un_degrade f Hf y.1 o (detail_externalId outcome) (VObj degraded) s1) as Hd.
  destruct (settleOperationStepDegraded y.1 o _ _ s1) as [[e'|[]] s2] eqn:Hdeg; simpl in Hd.
  - intros [= <- <-]. split; [congruence|]. by eexists.
  - unfold ebind at 1. rewrite listing_read. apply degraded_listed in Hdeg as (z & Hz & Hst).
    unfold eret at 1. rewrite Hz. intros [= <- <-]. split; [congruence|]. exists z.
    by rewrite (find_listed_id _ _ _ Hz).
Qed.

Lemma cancelled_step_exact id p s r s' :
  cancelled_step id p s = (r, s') →
  f s' = f s ∧ ∃ v s1,
    match r with
    | inr (Some z) => z.1 = id ∧ z.2.(step_status) = StepDefinitiveFailed ∧
        cancelOperationStepBeforeDispatch id v s = (inr true, s')
    | inr None => cancelOperationStepBeforeDispatch id v s = (inr false, s')
    | inl e => cancelOperationStepBeforeDispatch id v s = (inl e, s1)
    end.
Proof.
  unfold cancelled_step, ebind at 1. set (v := combinePreparedDetail _ _).
  pose proof (un_cancel f Hf id v s) as Hc.
  destruct (cancelOperationStepBeforeDispatch id v s) as [[e|[|]] s1] eqn:Hcan; simpl in Hc.
  - intros [= <- <-]. eauto.
  - unfold ebind. rewrite listed_spec. pose proof (cancelled_listed _ _ _ _ Hcan) as (z & Hz & Hst).
    rewrite Hz. intros [= <- <-]. split; [done|]. exists v, s1. by rewrite (find_listed_id _ _ _ Hz).
  - intros [= <- <-]. eauto.
Qed.
End Observed.

Lemma prepared_executing x s p y s' :
  prepare_step operationId x s = (inr (p, y), s') →
  find_listed y.1 (listing s') = Some y ∧ y.2.(step_status) = StepExecuting.
Proof.
  unfold prepare_step, error. intros Hp.
  repeat match goal with
  | H : (if ?b then _ else _) _ = (inr _, _) |- _ => destruct b; [|discriminate H]
  | H : ebind _ _ _ = (inr _, _) |- _ => apply ebind_ok in H as (? & ? & ? & ?)
  end.
  match goal with
  | Hm : markOperationStepExecuting ?id _ = (inr true, _), Hl : listed _ _ _ = (inr _, _) |- _ =>
      rewrite listed_spec in Hl; destruct (find_listed id _) as [z|] eqn:Hz; [|discriminate Hl];
      injection Hl as <- <-; pose proof (executing_listed _ _ _ Hm _ Hz)
  end.
  match goal with H : eret _ _ = (inr _, _) |- _ => injection H as <- <- <- end.
  by rewrite (find_listed_id _ _ _ Hz).
Qed.

(** The status the outcome of a dispatch stands for. *)
Definition step_result (out : failure + StepDetail) : PrimaryOutcome :=
  match out with
  | inr _ => did_succeed
  | inl HostRequestCancelledError => unknown_outcome
  | inl e => thrown_outcome e
  end.

(** One journaled dispatch.  [executeStep] either fails before its dispatch, and
    then nothing observable outside the journal happened, or it runs the dispatch exactly
    once, from a state where the durable row is [executing].  The row it returns has the
    status of that dispatch, whatever the journal does afterwards: a success is never
    rewritten, a definitive failure never becomes retryable by accident, and a
    cancellation is definitive only with the journal's proof that nothing was dispatched.
    After a dispatch the only exception left is one of that proof. *)
Theorem execute_step_exact {T} (f : S → T) x s r s' :
  Untouched f → executeStep x s = (r, s') →
  (∃ e, prepare_step operationId x s = (inl e, s') ∧ r = inl e ∧ f s' = f s) ∨
  ∃ p y s1 out s2,
    prepare_step operationId x s = (inr (p, y), s1) ∧ f s1 = f s ∧
    find_listed y.1 (listing s1) = Some y ∧ y.2.(step_status) = StepExecuting ∧
    run_primary x s1 = (out, s2) ∧ f s' = f s2 ∧
    match r with
    | inr z => z.1 = y.1 ∧
        (z.2.(step_status) = primary_status (step_result out) ∨
         out = inl HostRequestCancelledError ∧ z.2.(step_status) = StepDefinitiveFailed ∧
         ∃ v, cancelOperationStepBeforeDispatch y.1 v s2 = (inr true, s'))
    | inl e => out = inl HostRequestCancelledError ∧
        ∃ v s3, cancelOperationStepBeforeDispatch y.1 v s2 = (inl e, s3)
    end.
Proof.
  intros Hf. unfold Workflow.executeStep, ebind at 1. pose proof (prepare_same f Hf x s) as Hp.
  destruct (prepare_step operationId x s) as [[e|[p y]] s1] eqn:Hprep; simpl in Hp.
  { intros [= <- <-]. left. eauto. }
  destruct (prepared_executing _ _ _ _ _ Hprep) as [Hl He]. unfold ebind at 1, eattempt.
  destruct (run_primary x s1) as [out s2] eqn:Hrun. intros Hr. right. exists p, y, s1, out, s2.
  assert (∀ o outcome t, f t = f s2 → settle_step y p o outcome t = (r, s') → o = step_result out →
    f s' = f s2 ∧ match r with
    | inr z => z.1 = y.1 ∧ (z.2.(step_status) = primary_status (step_result out) ∨
        out = inl HostRequestCancelledError ∧ z.2.(step_status) = StepDefinitiveFailed ∧
         ∃ v, cancelOperationStepBeforeDispatch y.1 v s2 = (inr true, s'))
    | inl e => out = inl HostRequestCancelledError ∧
        ∃ v s3, cancelOperationStepBeforeDispatch y.1 v s2 = (inl e, s3)
    end) as Hsettle.
  { intros o outcome t Ht Hset ->. apply (settle_step_exact f Hf) in Hset as (Hs & z & -> & Hz & Hst).
    split; [congruence|]. auto. }
  enough (f s' = f s2 ∧ match r with inr z => _ | inl e => _ end) as [? ?] by (split_and!; done).
  destruct out as [e|outcome]; [|by eapply Hsettle].
  destruct e; try by eapply Hsettle.
  unfold ebind at 1 in Hr. destruct (cancelled_step y.1 p s2) as [c s3] eqn:Hc.
  apply (cancelled_step_exact f Hf) in Hc as (Hs & v & s4 & Hc). destruct c as [e|[z|]].
  - injection Hr as <- <-. eauto 10.
  - injection Hr as <- <-. destruct Hc as (? & ? & ?). eauto 10.
  - by eapply Hsettle.
Qed.

(** ** Compensation *)

Definition compensation_result (out : failure + StepDetail) : CompensationOutcome :=
  match out with inr _ => was_compensated | inl e => thrown_compensation e end.

(** Up to the durable [executing] and [compensating] rows. *)
Definition prepare_compensation (x : ExecutableMutationStep S) (source : jstr) : E S JournaledMutationStep :=
  ensure* bool_decide (journal_operationId = operationId) else "operation_journal_scope_mismatch" in
  let* stepId := prepareCompensationStep
    {| prepc_planStepId := x.(exec_id); prepc_index := x.(exec_index); prepc_name := x.(exec_name);
       prepc_targetFingerprint := Plan.column x.(exec_targetFingerprint);
       prepc_compensatesStepId := source |} in
  let* marked := markOperationStepCompensating stepId in
  ensure* marked else "compensation_step_not_prepared" in
  listed stepId "compensation_step_not_found".

Definition settle_compensation (y : JournaledMutationStep) (out : failure + StepDetail)
    : E S JournaledMutationStep :=
  let '(o, outcome) := match out with
    | inr outcome => (was_compensated, outcome)
    | inl e => (thrown_compensation e, failure_outcome e)
    end in
  let* settled := eattempt (settleCompensationStep y.1 o outcome) in
  match settled with
  | inr _ => listed y.1 "compensation_step_not_found"
  | inl e =>
      let degraded := VObj (degradedSettlementDetail e (compensation_name o) outcome.(detail_detail)) in
      let* _ := eattempt (settleCompensationStepDegraded y.1 o outcome.(detail_externalId) degraded) in
      eret (runtimeStep y (compensation_status o) outcome degraded)
  end.

Lemma prepared_compensation x source s y s' :
  prepare_compensation x source s = (inr y, s') →
  find_listed y.1 (listing s') = Some y ∧ y.2.(step_status) = StepExecuting.
Proof.
  unfold prepare_compensation, error. intros Hp. destruct (bool_decide _); [|done].
  apply ebind_ok in Hp as (id & s1 & _ & Hp). apply ebind_ok in Hp as ([|] & s2 & Hm & Hp); [|done].
  rewrite listed_spec in Hp. destruct (find_listed id (listing s2)) as [z|] eqn:Hz; [|done].
  injection Hp as <- <-. rewrite (find_listed_id _ _ _ Hz). split; [done|].
  apply compensating_listed in Hm as (z' & Hz' & Hst). congruence.
Qed.

(** The executor is its two halves around the dispatch. *)
Lemma compensation_halves x source s :
  executeCompensationStep x source s =
    match prepare_compensation x source s with
    | (inl e, s1) => (inl e, s1)
    | (inr y, s1) => let '(out, s2) := run_compensation x s1 in settle_compensation y out s2
    end.
Proof.
  unfold Workflow.executeCompensationStep, prepare_compensation, settle_compensation, ebind, eattempt.
  destruct (bool_decide _); [|done]. destruct (prepareCompensationStep _ s) as [[e|id] s1]; [done|].
  destruct (markOperationStepCompensating id s1) as [[e|[|]] s2]; [done| |done].
  rewrite !listed_spec. destruct (find_listed id (listing s2)) as [z|] eqn:Hz; [|done].
  apply find_listed_id in Hz as <-. destruct (run_compensation x s2) as [out s3]. by destruct out.
Qed.

(** One compensation.  [executeCompensationStep] runs its dispatch at most once, and
    only from a state where the compensation row is durably [executing]; the row it
    returns tells the outcome of that dispatch even if the journal could not store it.
    An exception means that nothing was dispatched. *)
Theorem execute_compensation_exact {T} (f : S → T) x source s r s' :
  Untouched f → executeCompensationStep x source s = (r, s') →
  match r with
  | inl e => prepare_compensation x source s = (inl e, s') ∧ f s' = f s
  | inr z => ∃ y s1 out s2,
      prepare_compensation x source s = (inr y, s1) ∧ f s1 = f s ∧
      find_listed y.1 (listing s1) = Some y ∧ y.2.(step_status) = StepExecuting ∧
      run_compensation x s1 = (out, s2) ∧ f s' = f s2 ∧
      z.1 = y.1 ∧ z.2.(step_status) = compensation_status (compensation_result out)
  end.
Proof.
  intros Hf. rewrite compensation_halves.
  assert (f (prepare_compensation x source s).2 = f s) as Hp.
  { revert s. unfold prepare_compensation, error. change (respects (λ s s', f s' = f s) (prepare_compensation x source)).
    unfold prepare_compensation, error. pose proof (same_refl f). pose proof (same_trans f).
    respects_by ltac:(first [apply (un_prepare_comp f Hf) | apply (un_compensate f Hf) | apply (listed_same f)]). }
  destruct (prepare_compensation x source s) as [[e|y] s1] eqn:Hprep; simpl in Hp.
  { by intros [= <- <-]. }
  destruct (prepared_compensation _ _ _ _ _ Hprep) as [Hl He].
  destruct (run_compensation x s1) as [out s2] eqn:Hrun. intros Hs.
  enough (f s' = f s2 ∧ ∃ z, r = inr z ∧ z.1 = y.1 ∧
    z.2.(step_status) = compensation_status (compensation_result out)) as (Hfs & z & -> & Hz & Hst).
  { exists y, s1, out, s2. by split_and!. }
  unfold settle_compensation in Hs.
  destruct (match out with inr outcome => _ | inl e => _ end) as [o outcome] eqn:Ho.
  assert (o = compensation_result out) as -> by (destruct out; by injection Ho as <- <-).
  unfold ebind, eattempt at 1 in Hs. pose proof (un_settle_comp f Hf y.1 (compensation_result out) outcome s2) as Hu.
  destruct (settleCompensationStep y.1 _ outcome s2) as [[e|[]] s3] eqn:Hset; simpl in Hu.
  - unfold eattempt in Hs. set (v := VObj _) in Hs.
    pose proof (un_degrade_comp f Hf y.1 (compensation_result out) (detail_externalId outcome) v s3) as Hd.
    destruct (settleCompensationStepDegraded y.1 _ _ v s3) as [q s4]; simpl in Hd.
    injection Hs as <- <-. split; [congruence|]. by eexists.
  - rewrite listed_spec in Hs. apply compensated_listed in Hset as (z & Hz & Hst).
    rewrite Hz in Hs. injection Hs as <- <-. split; [done|]. exists z.
    by rewrite (find_listed_id _ _ _ Hz).
Qed.

(** ** The workflow *)

(** The steps that succeeded cleanly, one after the other, and their rows. *)
Inductive clean_run : list (ExecutableMutationStep S) → S → list JournaledMutationStep → S → Prop :=
| clean_nil s : clean_run [] s [] s
| clean_cons x xs s z s1 zs s2 :
    executeStep x s = (inr z, s1) → z.2.(step_status) = StepSucceeded → isJournalDegradedStep z = false →
    clean_run xs s1 zs s2 → clean_run (x :: xs) s (z :: zs) s2.

(** The step says that its dispatch was denied, and with what; that it violated the plan. *)
Definition denied_with (z : JournaledMutationStep) (denial : jsval) : Prop :=
  is_object (step_detail z) = true ∧ prop (u "code") (step_detail z) = VStr (u "mutation_dispatch_denied") ∧
  prop (u "denial") (step_detail z) = denial ∧ is_object denial = true.
Definition plan_violated (z : JournaledMutationStep) : Prop :=
  is_object (step_detail z) = true ∧ prop (u "code") (step_detail z) = VStr (u "mutation_plan_violation").

(** How the step [x] ends a workflow in which [done] succeeded before. *)
Definition stops (i : ExecuteMutationWorkflowInput) (alone : bool) (done : list JournaledMutationStep)
    (x : ExecutableMutationStep S) (s : S) (r : failure + jsval) (s' : S) : Prop :=
  ∃ z s1, executeStep x s = (z, s1) ∧
  match z with
  | inl e => r = inl e ∧ s' = s1
  | inr z =>
      match z.2.(step_status) with
      | StepSucceeded => isJournalDegradedStep z = true ∧
          (if alone
           then (let* v := i.(onSuccess) [z] in eret (withJournalDegradedWarning v)) s1 = (r, s')
           else i.(onJournalDegraded) (done ++ [z]) z s1 = (r, s'))
      | StepOutcomeUnknown => r = inr (unknown_receipt i.(actionName)) ∧ s' = s1
      | _ =>
          if decide (done = [])
          then (∀ denial, denied_with z denial → r = inr denial ∧ s' = s1) ∧
               (plan_violated z → r = inr (violation_receipt i.(actionName)) ∧ s' = s1) ∧
               ((∀ denial, ¬ denied_with z denial) → ¬ plan_violated z → i.(onFailure) z s1 = (r, s'))
          else i.(onPartial) done z s1 = (r, s')
      end
  end.

Lemma run_steps_exact i todo done s r s' :
  let primaries := filter (λ x, is_primary_step x = true) todo in
  run_steps hooks operationId i todo done s = (r, s') →
  ∃ pre zs sm, clean_run pre s zs sm ∧
    ((primaries = pre ∧ i.(onSuccess) (done ++ zs) sm = (r, s')) ∨
     ∃ x post, primaries = pre ++ x :: post ∧
       stops i (bool_decide (countb is_primary_step i.(steps) = 1)) (done ++ zs) x sm r s').
Proof.
  revert done s. induction todo as [|x todo IH]; intros done s primaries HA; simpl in HA.
  { exists [], [], s. rewrite app_nil_r. split; [constructor|]. by left. }
  unfold primaries in *. rewrite filter_cons.
  destruct (is_primary_step x) eqn:Hx; simpl in HA; [|rewrite decide_False by done; by apply IH].
  rewrite decide_True by done. unfold ebind at 1 in HA.
  destruct (executeStep x s) as [[e|z] s1] eqn:He.
  { injection HA as <- <-. exists [], [], s. split; [constructor|]. right. exists x. eexists. split; [done|].
    exists (inl e), s1. done. }
  case_bool_decide as Hst.
  - destruct (isJournalDegradedStep z) eqn:Hd.
    + exists [], [], s. split; [constructor|]. right. exists x. eexists. split; [done|].
      exists (inr z), s1. split; [done|]. rewrite Hst. split; [done|]. rewrite app_nil_r.
      by case_bool_decide.
    + apply IH in HA as (pre & zs & sm & Hrun & HA). rewrite <- app_assoc in HA. simpl in HA.
      exists (x :: pre), (z :: zs), sm. split; [by econstructor|].
      destruct HA as [[-> ?]|(y & post & -> & ?)]; [by left|right; by eexists _, _].
  - exists [], [], s. split; [constructor|]. right. exists x. eexists. split; [done|].
    exists (inr z), s1. split; [done|]. rewrite app_nil_r. unfold stopped in HA.
    case_bool_decide as Hu.
    + rewrite Hu. by injection HA as <- <-.
    + assert (∀ c v, is_text c v = true ↔ v = VStr c) as Htext.
      { intros c v. unfold is_text. rewrite bool_decide_eq_true. unfold string_of. by destruct v; split; intros; simplify_eq. }
      enough (if decide (done = []) then _ else _) as Hres by (destruct (step_status z.2); try done; exact Hres).
      destruct (decide (done = [])) as [->|Hd]; [|by rewrite !(bool_decide_false _ Hd) in HA].
      rewrite bool_decide_true in HA by done. simpl in HA. unfold denied_with, plan_violated.
      destruct (is_object (step_detail z)) eqn:Ho; simpl in HA; [|by split_and!; [intros ? [? _]|intros [? _]|]].
      destruct (is_text (u "mutation_dispatch_denied") _) eqn:Hden; simpl in HA.
      * apply Htext in Hden. rewrite Hden. destruct (is_object (prop (u "denial") _)) eqn:Hobj; simpl in HA.
        -- injection HA as <- <-. split_and!; [by intros ? (_ & _ & <- & _)|by intros [_ ?]|].
           intros Hn. exfalso. by eapply Hn.
        -- rewrite Hden in HA. simpl in HA. split_and!; [intros ? (_ & _ & <- & ?); congruence|by intros [_ ?]|done].
      * assert (prop (u "code") (step_detail z) ≠ VStr (u "mutation_dispatch_denied")) as Hn
          by (intros E%Htext; congruence).
        destruct (is_text (u "mutation_plan_violation") _) eqn:Hvio.
        -- apply Htext in Hvio. injection HA as <- <-. split_and!; [by intros ? (_ & ? & _)|done|].
           intros _ Hv. by destruct Hv.
        -- split_and!; [by intros ? (_ & ? & _)| |done]. intros [_ E%Htext]. congruence.
Qed.

(** C23: A workflow runs its primaries in order and stops at the first that is not clean.
    Nothing runs unless the operation is durably executing under this journal.  Then the
    primaries succeed one after the other; the success receipt is built from exactly all
    of them, in order, or the workflow ends with the first step that is not a clean success,
    no later step runs, and the result is the one that step calls for: its exception if it
    threw; the success receipt with a warning, or for one of several primaries the degraded
    result, if its record could not be kept; unknown if its outcome is; a partial result
    naming the earlier effects if there are any; and otherwise the denial of its dispatch,
    the plan violation, or the failure it reports. *)
Theorem workflow_exact i s r s' :
  executeMutationWorkflow hooks operationId i s = (r, s') →
  let primaries := filter (λ x, is_primary_step x = true) i.(steps) in
  (journal_operationId ≠ operationId ∧ r = inl (OtherError (u "Error") (u "operation_journal_scope_mismatch")) ∧ s' = s) ∨
  (journal_operationId = operationId ∧
   ((∃ e, getOperationStatus s = (inl e, s') ∧ r = inl e) ∨
    (∃ status, getOperationStatus s = (inr status, s') ∧ status ≠ Some RunExecuting ∧
       r = inl (OtherError (u "Error") (u "operation_not_executing"))) ∨
    ∃ s0 pre zs sm, getOperationStatus s = (inr (Some RunExecuting), s0) ∧ clean_run pre s0 zs sm ∧
      ((primaries = pre ∧ i.(onSuccess) zs sm = (r, s')) ∨
       ∃ x post, primaries = pre ++ x :: post ∧
         stops i (bool_decide (countb is_primary_step i.(steps) = 1)) zs x sm r s'))).
Proof.
  intros HA primaries. unfold executeMutationWorkflow in HA. case_bool_decide as Hid.
  2:{ left. by injection HA as <- <-. }
  right. split; [done|]. unfold ebind at 1 in HA. destruct (getOperationStatus s) as [[e|status] s0].
  { left. injection HA as <- <-. eauto. }
  right. case_bool_decide as Hst; [|left; injection HA as <- <-; eauto]. subst status. right.
  apply run_steps_exact in HA as (pre & zs & sm & Hrun & HA). by exists s0, pre, zs, sm.
Qed.
End Results.
