(* ===== verification/World.v ===== *)
(** * The program's state around a mutation

    One state for the parts that a mutation touches: the plan scope and the host-call
    budget, the requests sent, and the SQLite tables.  It implements the interfaces the
    other files are written against: [MutationHost], [Wire] and, by the operations of
    file Journal as [createStore] in [db/store.ts] binds them to one operation,
    [MutationStepJournal].  The host is a function of the requests sent so far. *)
From S2P Require Import Prelude Js SafeJson ActionResults Confirmations Db Plan Journal Store JournalMachine Effects MutationScope PlanScope RestCore RestResults Workflow WorkflowResults.
From S2P Require HostBudget.
Open Scope Z_scope.
#[local] Arguments u : simpl never.

(** ** The state *)

(** What the observers of the adapter were told. *)
Inductive note : Type :=
| RateLimited (delayMs : Z)
| Throttled (status : Z)
| Healthy
| AuthRejected
| AuthAccepted
| Slept (delayMs : Z).

Record world := {
  w_scope : option MutationPlanScopeState;
  w_budget : HostBudget.budget_ctx;
  w_sent : list Request;
  w_notes : list note;
  w_aborted : bool;
  w_db : db;
  w_now : Z;
  w_fresh : nat;
}.

Definition with_scope (x : option MutationPlanScopeState) (s : world) : world :=
  {| w_scope := x; w_budget := s.(w_budget); w_sent := s.(w_sent); w_notes := s.(w_notes);
     w_aborted := s.(w_aborted); w_db := s.(w_db); w_now := s.(w_now); w_fresh := s.(w_fresh) |}.
Definition with_budget (b : HostBudget.budget_ctx) (s : world) : world :=
  {| w_scope := s.(w_scope); w_budget := b; w_sent := s.(w_sent); w_notes := s.(w_notes);
     w_aborted := s.(w_aborted); w_db := s.(w_db); w_now := s.(w_now); w_fresh := s.(w_fresh) |}.
Definition with_sent (r : Request) (s : world) : world :=
  {| w_scope := s.(w_scope); w_budget := s.(w_budget); w_sent := s.(w_sent) ++ [r]; w_notes := s.(w_notes);
     w_aborted := s.(w_aborted); w_db := s.(w_db); w_now := s.(w_now); w_fresh := s.(w_fresh) |}.
Definition with_note (n : note) (s : world) : world :=
  {| w_scope := s.(w_scope); w_budget := s.(w_budget); w_sent := s.(w_sent); w_notes := s.(w_notes) ++ [n];
     w_aborted := s.(w_aborted); w_db := s.(w_db); w_now := s.(w_now); w_fresh := s.(w_fresh) |}.
(** A call of the store takes the next instant and the next identifier. *)
Definition with_db (d : db) (s : world) : world :=
  {| w_scope := s.(w_scope); w_budget := s.(w_budget); w_sent := s.(w_sent); w_notes := s.(w_notes);
     w_aborted := s.(w_aborted); w_db := d; w_now := s.(w_now) + 1; w_fresh := Datatypes.S s.(w_fresh) |}.

#[export, program] Instance world_host : MutationHost world := {
  scope_of := w_scope; set_scope := with_scope; budget_of := w_budget; set_budget := with_budget;
}.
Solve Obligations with done.

Section World.
(** The host and the network: what the next request is answered with. *)
Context (host : list Request → failure + Response).
(** The durable run ledger, and the rows of [randomUUID]. *)
Context (accepts : world → bool).
Context (uuid : nat → jstr).
Context (operationId : jstr).

#[export] Instance world_wire : Wire world := {
  sent := w_sent;
  push := with_sent;
  answer _ s := host s.(w_sent);
  aborted := w_aborted;
  ledger_accepts := accepts;
  noteRateLimited d := with_note (RateLimited d);
  onHostThrottled d := with_note (Throttled d);
  onHostHealthy := with_note Healthy;
  onAuthRejected := with_note AuthRejected;
  onAuthAccepted := with_note AuthAccepted;
  sleep d := with_note (Slept d);
}.

(** [fetch] rejects with ordinary errors, and so does the reading of a body. *)
Class OrdinaryHost : Prop := {
  fetch_ordinary : ∀ log e, host log = inl e → ordinary e = true;
  body_ordinary : ∀ log res e, host log = inr res → res.(text) = inl e → ordinary e = true;
}.

#[export] Instance world_wire_laws `{!OrdinaryHost} : WireLaws world.
Proof. split; try done; simpl; intros; [by eapply fetch_ordinary|by eapply body_ordinary]. Qed.

(** ** The journal of one operation *)

(** A transaction: it is rolled back when it throws. *)
Definition transact {A} (m : Z → jstr → M A) : E world A := λ s,
  match m s.(w_now) (uuid s.(w_fresh)) s.(w_db) with
  | Ok (a, d) => (inr a, with_db d s)
  | Throw e => (inl (OtherError (u "Error") (u e)), with_db s.(w_db) s)
  end.
Definition transact_at {A} (m : Z → M A) : E world A := transact (λ now _, m now).

Definition operation_status (d : db) : option OperationRunStatus :=
  run_status <$> d.(operation_runs) !! operationId.

(** [mutationStepJournal] of [createStore]. *)
#[export] Instance world_journal : MutationStepJournal world := {
  journal_operationId := operationId;
  getOperationStatus s := (inr (operation_status s.(w_db)), s);
  prepareOperationStep i := transact (Journal.prepareOperationStep
    {| step_in_id := None; step_in_operationId := operationId; step_in_planStepId := i.(prep_planStepId);
       step_in_index := Z.of_nat i.(prep_index); step_in_name := i.(prep_name); step_in_kind := primary;
       step_in_targetFingerprint := i.(prep_targetFingerprint); step_in_preparedDetail := i.(prep_detail);
       step_in_compensatesStepId := None |});
  markOperationStepExecuting id := transact_at (Journal.markOperationStepExecuting id (Some operationId));
  markOperationStepDispatched id := transact_at (Journal.markOperationStepDispatched id (Some operationId));
  cancelOperationStepBeforeDispatch id v :=
    transact_at (Journal.cancelOperationStepBeforeDispatch id v (Some operationId));
  settleOperationStep id o x := transact_at (Journal.settleOperationStep id o x (Some operationId));
  settleOperationStepDegraded id o ext v :=
    transact_at (Journal.settleOperationStepDegraded id o ext v (Some operationId));
  prepareCompensationStep i := transact (Journal.prepareCompensationStep
    {| comp_in_id := None; comp_in_operationId := operationId; comp_in_planStepId := i.(prepc_planStepId);
       comp_in_index := Z.of_nat i.(prepc_index); comp_in_name := i.(prepc_name);
       comp_in_targetFingerprint := i.(prepc_targetFingerprint);
       comp_in_compensatesStepId := i.(prepc_compensatesStepId) |});
  markOperationStepCompensating id := transact_at (Journal.markOperationStepCompensating id (Some operationId));
  settleCompensationStep id o x := transact_at (Journal.settleCompensationStep id o x (Some operationId));
  settleCompensationStepDegraded id o ext v :=
    transact_at (Journal.settleCompensationStepDegraded id o ext v (Some operationId));
  listOperationSteps s := (inr (Journal.listOperationSteps operationId s.(w_db)), s);
}.

(** ** The laws of the journal *)

Lemma find_listed_lookup id d x :
  find_listed id (Journal.listOperationSteps operationId d) = Some x ↔
  x.1 = id ∧ d.(operation_steps) !! id = Some x.2 ∧ x.2.(identity).(operation_id) = operationId.
Proof.
  set (l := Journal.listOperationSteps operationId d).
  assert (∀ y, y ∈ l ↔ d.(operation_steps) !! y.1 = Some y.2 ∧ y.2.(identity).(operation_id) = operationId) as Hl.
  { intros [k r]. unfold l, Journal.listOperationSteps.
    rewrite merge_sort_Permutation, list_elem_of_filter, elem_of_map_to_list. simpl. naive_solver. }
  unfold find_listed. split.
  - destruct (list_find _ l) as [[i y]|] eqn:Hf; [|done]. apply list_find_Some in Hf as (Hy & Hid & _).
    intros [= <-]. apply list_elem_of_lookup_2, Hl in Hy as [? ?]. by rewrite <- Hid.
  - intros (<- & Hx & Hop). destruct (list_find_elem_of (λ kv, kv.1 = x.1) l x) as [[i y] Hf].
    { by apply Hl. } { done. }
    rewrite Hf. simpl. f_equal. apply list_find_Some in Hf as (Hy & Hid & _).
    apply list_elem_of_lookup_2, Hl in Hy as [Hy _]. destruct x, y. simpl in *. naive_solver.
Qed.

Lemma transact_ok {A} (m : Z → jstr → M A) s a s' :
  transact m s = (inr a, s') ↔
  ∃ d, m s.(w_now) (uuid s.(w_fresh)) s.(w_db) = Ok (a, d) ∧ s' = with_db d s.
Proof.
  unfold transact. destruct (m _ _ _) as [[a' d]|e]; split; try naive_solver.
Qed.

Lemma transact_at_ok {A} (m : Z → M A) s a s' :
  transact_at m s = (inr a, s') ↔ ∃ d, m s.(w_now) s.(w_db) = Ok (a, d) ∧ s' = with_db d s.
Proof. apply transact_ok. Qed.

(** An update of a step of this operation shows in the listing. *)
Lemma updated_listed id p f d d' :
  update_step id p f d = Ok (true, d') →
  (∀ r, p r = true → r.(identity).(operation_id) = operationId ∧ (f r).(identity) = r.(identity)) →
  ∃ r, d.(operation_steps) !! id = Some r ∧ p r = true ∧
    find_listed id (Journal.listOperationSteps operationId d') = Some (id, f r).
Proof.
  intros [[[=] _]|(_ & r & Hr & Hp & Hd)]%update_step_ok Hf. exists r. split_and!; [done..|].
  apply find_listed_lookup. destruct (Hf r Hp) as [Hop Hid]. simpl.
  by rewrite Hd, lookup_insert_eq, Hid.
Qed.

Lemma in_scope_some r : in_scope (Some operationId) r = true → r.(identity).(operation_id) = operationId.
Proof. simpl. apply bool_decide_eq_true. Qed.

Lemma settled_rows_listed id source o ext effect detail now d d' :
  settle_compensation_rows id source o ext effect detail now d = Ok (tt, d') →
  (∀ r, d.(operation_steps) !! id = Some r → r.(identity).(operation_id) = operationId) →
  ∃ x, find_listed id (Journal.listOperationSteps operationId d') = Some x ∧
    x.2.(step_status) = compensation_status o.
Proof.
  unfold settle_compensation_rows. intros H Hop. minv.
  match goal with H1 : update_step id _ _ _ = Ok (true, ?d1), H2 : update_step source _ _ _ = _ |- _ =>
    apply update_step_ok in H1 as [[[=] _]|(_ & r & Hr & Hp & Hd1)];
    apply update_step_ok in H2 as [[[=] _]|(_ & r2 & Hr2 & Hp2 & Hd2)] end.
  injection H as ->.
  exists (id, settled_step (compensation_status o) ext effect detail now r).
  rewrite find_listed_lookup. simpl. split; [|done]. split; [done|]. split; [|by apply Hop].
  rewrite Hd2, lookup_insert_ne.
  - by rewrite Hd1, lookup_insert_eq.
  - intros ->. rewrite Hd1, lookup_insert_eq in Hr2. injection Hr2 as <-.
    apply bool_decide_eq_true in Hp2. by destruct o.
Qed.

Lemma compensation_source_scope d id source :
  compensation_source d id (Some operationId) = Some source →
  ∀ r, d.(operation_steps) !! id = Some r → r.(identity).(operation_id) = operationId.
Proof.
  unfold compensation_source. intros HA r Hr. rewrite Hr in HA.
  destruct (in_scope (Some operationId) r) eqn:Hs; [|done]. by apply in_scope_some.
Qed.

Lemma compensating_row_listed id now d d' :
  Journal.markOperationStepCompensating id (Some operationId) now d = Ok (true, d') →
  ∃ x, find_listed id (Journal.listOperationSteps operationId d') = Some x ∧ x.2.(step_status) = StepExecuting.
Proof.
  unfold Journal.markOperationStepCompensating. intros H. minv.
  match goal with H1 : update_step id _ _ _ = Ok (?c, ?d1), H2 : update_step _ _ _ ?d1 = Ok (?c2, _),
    Hb : _ && _ = true |- _ => apply andb_true_iff in Hb as [-> ->];
    apply update_step_ok in H1 as [[[=] _]|(_ & r & Hr & Hp & Hd1)];
    apply update_step_ok in H2 as [[[=] _]|(_ & r2 & Hr2 & Hp2 & Hd2)] end.
  exists (id, executing_step now r). rewrite find_listed_lookup. split; [|done]. simpl.
  injection H as ->. assert (o = r) as -> by congruence. destruct (in_scope _ r) eqn:Hs; [|done].
  split; [done|]. split; [|by apply in_scope_some].
  rewrite Hd2, lookup_insert_ne; [by rewrite Hd1, lookup_insert_eq|].
  intros ->. rewrite Hd1, lookup_insert_eq in Hr2. injection Hr2 as <-. by apply step_is_spec in Hp2 as [? _].
Qed.

#[export] Instance world_journal_laws : JournalLaws world.
Proof.
  refine {| listing := λ s, Journal.listOperationSteps operationId s.(w_db) |}; simpl.
  - done.
  - intros id s s' (d & Hm & ->)%transact_at_ok x Hx. simpl in *. unfold Journal.markOperationStepExecuting in Hm. minv.
    apply updated_listed in Hm as (r & _ & _ & Hl); [|intros r; rows; by split].
    rewrite Hl in Hx. by injection Hx as <-.
  - intros id v s s' (d & Hm & ->)%transact_at_ok. simpl. unfold Journal.cancelOperationStepBeforeDispatch in Hm. minv.
    apply updated_listed in Hm as (r & _ & _ & Hl); [|intros r; unfold undispatched; rows; by split].
    eauto.
  - intros id o v s s' (d & Hm & ->)%transact_at_ok. simpl. unfold Journal.settleOperationStep in Hm. minv.
    match goal with H : update_step _ _ _ _ = _ |- _ => apply updated_listed in H as (r & _ & _ & Hl) end.
    + match goal with H : mreturn _ _ = _ |- _ => injection H as -> end. eauto.
    + intros r'. rows. by split.
  - intros id o ext v s s' (d & Hm & ->)%transact_at_ok. simpl. unfold Journal.settleOperationStepDegraded in Hm. minv.
    match goal with H : update_step _ _ _ _ = _ |- _ => apply updated_listed in H as (r & _ & _ & Hl) end.
    + match goal with H : mreturn _ _ = _ |- _ => injection H as -> end. eauto.
    + intros r'. rows. by split.
  - intros id s s' (d & Hm & ->)%transact_at_ok. simpl. by eapply compensating_row_listed.
  - intros id o v s s' (d & Hm & ->)%transact_at_ok. simpl. unfold Journal.settleCompensationStep in Hm. minv.
    eapply settled_rows_listed; [done|]. by eapply compensation_source_scope.
Qed.
End World.
