(* ===== verification/Commit.v ===== *)
(** * Committing a confirmed operation

    [harness/actions.ts]: [commitConfirmedOperation] and what it is made of - the hooks a
    dispatch runs under, the mapping of a thrown error to a receipt, and the idempotency
    ledger around the commit.  The action catalog, the state and the journal are
    arguments. *)
From S2P Require Import Prelude Js SafeJson Policy Db Plan Effects MutationScope PlanScope Receipts Workflow.
From S2P Require SafetyLimits WriteAuthority Idempotency.
Import Idempotency(ClaimState, won, in_flight, replay, stale_unknown).
Import Permissions Risk.
Open Scope Z_scope.
#[local] Arguments u : simpl never.

(** ** Receipts of a commit *)

Definition commitResultRequiresComplete (result : jsval) : bool :=
  is_object result && negb (isPartialCommitResult result) && receipt_ok result.

Definition writeFailureReceipt (action : jstr) (e : failure) : jsval :=
  match e with
  | HostCallBudgetExceededError _ _ =>
      errorReceipt action (u "host_call_budget_exceeded") (error_message e)
        (recovery_hint (u "Start a fresh request with a smaller batch.") true)
  | AmbiguousWriteOutcome _ _ _ _ =>
      error_receipt action "commit_outcome_unknown"
        "Clockify did not provide a definitive response, so this change may or may not have been applied. I will not retry it automatically."
        "Check Clockify for the intended change before deciding whether to try again." false
  | DefinitiveWriteFailure _ _ _ _ =>
      errorReceipt action (u "definitive_write_failure") (error_message e)
        (recovery_hint (u "Correct the request or permissions, then run a fresh attempt.") false)
  | _ =>
      errorReceipt action (u "execution_error") (error_message e)
        (recovery_hint (u "The action failed during execution.") true)
  end.

(** The dash of the message text is U+2014. *)
Definition dashed (a b : string) : jstr := u a ++ [8212]%N ++ u b.

Definition commitInProgress (action : jstr) : jsval :=
  errorReceipt action (u "commit_in_progress")
    (dashed "This change is currently being applied in another request; nothing was duplicated " " re-check in a moment or run a fresh preview.")
    (recovery_hint (u "Wait a moment, then re-check or run a fresh preview.") true).
Definition commitOutcomeUnknown (action : jstr) : jsval :=
  errorReceipt action (u "commit_outcome_unknown")
    (dashed "A previous attempt to apply this change was interrupted, so its result is unknown " " it may or may not have gone through. Please check Clockify before retrying; I won't re-run it automatically, to avoid creating a duplicate.")
    (recovery_hint (u "Check Clockify to see whether the change applied; if it didn't, try again in a few minutes.") true).
Definition ledgerUnavailable (action : jstr) : jsval :=
  errorReceipt action (u "commit_unavailable")
    (dashed "The change could not be started due to a temporary storage issue " " nothing was applied. Please try again in a moment.")
    (recovery_hint (u "Try again in a moment.") true).

Definition accessDeniedMessage (group mode : string) : jstr :=
  u (if decide (mode = "write") then "Write" else "Read")%string ++ u " access to " ++ u group ++
  u " is disabled in your assistant permissions.".

(** ** The ledger as the commit sees it *)

Record AtomicIdempotencyLedger (S : Type) := {
  claim : jstr → E S ClaimState;
  lookupCompleted : jstr → E S (option jsval);
  fill : jstr → jsval → E S unit;
  release : jstr → E S unit;
}.
Arguments claim {S}. Arguments lookupCompleted {S}. Arguments fill {S}. Arguments release {S}.
Record LegacyLedger (S : Type) := {
  lookup_receipt : jstr → E S (option jsval);
  record : jstr → jsval → E S unit;
}.
Arguments lookup_receipt {S}. Arguments record {S}.
Inductive IdempotencyLedger (S : Type) :=
| AtomicLedger (l : AtomicIdempotencyLedger S)
| TwoMethodLedger (l : LegacyLedger S).
Arguments AtomicLedger {S}. Arguments TwoMethodLedger {S}.

(** [harness/idempotency.ts] *)
Definition replay_note : jsval :=
  VObj [(u "code", str "idempotent_replay");
        (u "message", VStr (dashed "This request was already completed a moment ago " " no duplicate was created."))].
Definition markReplayed (prior : jsval) : jsval :=
  VObj (fields_set (u "warnings") (VArr (warnings_of prior ++ [replay_note])) (fields_of prior)).
Definition markCommitReplayed (prior : jsval) : jsval :=
  if isPartialCommitResult prior
  then VObj (fields_set (u "receipt") (markReplayed (prop (u "receipt") prior)) (fields_of prior))
  else if receipt_ok prior then markReplayed prior else prior.

Definition idempotencyScopeKey (sha256 : jstr → jstr) (workspaceId adminUserId actionName semantic : jstr) : jstr :=
  sha256 (join (u " ") [workspaceId; adminUserId; actionName; semantic]).

(** ** Hooks of a dispatch *)

Section Hooks.
Context {S : Type} `{!MutationHost S, !MutationStepJournal S}.

Definition find_step (p : OperationStepRow → bool) (l : list JournaledMutationStep)
    : option JournaledMutationStep :=
  list_find (λ kv : JournaledMutationStep, p kv.2 = true) l ≫= λ x, Some x.2.

Definition of_plan_step (id : jstr) (kind : StepKind) (r : OperationStepRow) : bool :=
  bool_decide (r.(identity).(plan_step_id) = id) && bool_decide (r.(identity).(step_kind) = kind).

Definition dispatch_unavailable {A} (id : jstr) : E S A :=
  ethrow (OtherError (u "Error") (u "dispatch_journal_unavailable:" ++ id)).

Definition markScopedStepDispatched (id : jstr) (kind : StepKind) : E S unit :=
  let* l := listOperationSteps in
  match find_step (of_plan_step id kind) l with
  | None => dispatch_unavailable id
  | Some row =>
      let* marked := markOperationStepDispatched row.1 in
      if marked then eret tt else dispatch_unavailable id
  end.

Definition hasAuthoritativelyReconciledStep (planStepId : jstr) : E S bool :=
  let* l := listOperationSteps in
  eret match find_step (λ r, of_plan_step planStepId primary r &&
                             bool_decide (r.(step_status) = StepSucceeded)) l with
       | Some x => is_record (step_detail x) && is_true (prop (u "authoritativeReconciliation") (step_detail x))
       | None => false
       end.

(** The hook [compensationEligible] of a confirmed commit. *)
Definition compensation_running (planStepId : jstr) : E S bool :=
  let* l := listOperationSteps in
  eret match find_step (λ r, of_plan_step planStepId compensation r &&
                             bool_decide (r.(step_status) = StepExecuting)) l with
       | Some x =>
           match x.2.(identity).(compensates_step_id) with
           | Some source => existsb (λ kv, bool_decide (kv.1 = source) &&
               bool_decide (kv.2.(identity).(step_kind) = primary) &&
               bool_decide (kv.2.(step_status) = StepCompensating)) l
           | None => false
           end
       | None => false
       end.

(** [authorizeWrite] of the context; [eret None] when the context has none. *)
Definition commit_hooks (authorizeWrite : E S (option jsval)) (compensations : bool) : ScopeHooks S :=
  {| authorizeDispatch := λ _, authorizeWrite;
     onDispatch := λ s, markScopedStepDispatched s.(scope_step_id) s.(scope_step_kind);
     compensationEligible := λ id, if compensations then compensation_running id else eret false;
     authoritativelyReconciled := hasAuthoritativelyReconciledStep |}.
End Hooks.

(** ** The commit *)

Section Commit.
Context {S : Type} `{!MutationHost S} (sha256 : jstr → jstr).

(** The context of a commit; [mutationJournal] is the scoped journal, when there is one. *)
Record CommitContext := {
  workspaceId : jstr;
  adminUserId : jstr;
  policy : AdminPolicy;
  authorizeWrite : jstr → E S (option jsval);
  mutationJournal : option (MutationStepJournal S);
  idempotency : option (IdempotencyLedger S);
}.

(** The parts of a risky action a commit reads. *)
Record RiskyAction := {
  risky_name : jstr;
  risky_durable : bool;
  risky_contract : option DurableMutationContract;
  risky_authority : option WriteAuthority.WriteAuthorityMetadata;
  commit : CommitContext → ConfirmableOperation → E S jsval;
  idempotencyKey : ConfirmableOperation → option jstr;
}.

Definition scope_step (s : SafetyLimits.ExternalMutationPlanStep) : MutationPlanScopeStep :=
  {| scope_step_id := SafetyLimits.plan_step_id s;
     scope_step_kind := match SafetyLimits.plan_step_kind s with
                        | SafetyLimits.Primary => primary | SafetyLimits.Compensation => compensation end |}.

(** [withMutationPlanScope] around a commit or an execution. *)
Definition scoped (ctx : CommitContext) (name : jstr) (plan : SafetyLimits.ExternalMutationPlan)
    (compensations : bool) (run : E S jsval) : E S jsval :=
  match ctx.(mutationJournal) with
  | Some journal =>
      withMutationPlanScope (commit_hooks (ctx.(authorizeWrite) name) compensations)
        (SafetyLimits.maxHostCalls plan) (scope_step <$> SafetyLimits.steps plan)
        commitResultRequiresComplete run
  | None => run
  end.

Definition scoped_commit (a : RiskyAction) (ctx : CommitContext) (op : ConfirmableOperation) : E S jsval :=
  match op.(op_mutationPlan) with
  | Some plan => scoped ctx a.(risky_name) plan true (a.(commit) ctx op)
  | None => a.(commit) ctx op
  end.

(** A thrown error becomes a receipt. *)
Definition runCommit (name : jstr) (c : E S jsval) : E S jsval :=
  etry c (λ e, eret (writeFailureReceipt name e)).

(** A write to the ledger after the commit is best effort. *)
Definition best_effort (c : E S unit) : E S unit := etry c (λ _, eret tt).

Definition commitViaAtomicLedger (name : jstr) (l : AtomicIdempotencyLedger S) (key : jstr)
    (c : E S jsval) : E S jsval :=
  let* state := eattempt (l.(claim) key) in
  match state with
  | inl _ => eret (ledgerUnavailable name)
  | inr replay =>
      let* prior := eattempt (l.(lookupCompleted) key) in
      match prior with
      | inr (Some prior) => eret (markCommitReplayed prior)
      | _ => eret (commitInProgress name)
      end
  | inr in_flight => eret (commitInProgress name)
  | inr stale_unknown => eret (commitOutcomeUnknown name)
  | inr won =>
      let* receipt := runCommit name c in
      let* _ := best_effort
        (if isPartialCommitResult receipt || receipt_ok receipt then l.(fill) key receipt
         else if bool_decide (result_code receipt = Some (u "commit_outcome_unknown")) then eret tt
         else l.(release) key) in
      eret receipt
  end.

Definition commitViaLegacyLedger (name : jstr) (l : LegacyLedger S) (key : jstr) (c : E S jsval) : E S jsval :=
  let* prior := l.(lookup_receipt) key in
  match prior with
  | Some prior => eret (markReplayed prior)
  | None =>
      let* receipt := runCommit name c in
      let* _ := (if negb (isPartialCommitResult receipt) && receipt_ok receipt
                 then best_effort (l.(record) key receipt) else eret tt) in
      eret receipt
  end.

(** What refuses the commit before its fresh authorization. *)
Definition commit_refusal (a : RiskyAction) (op : ConfirmableOperation) : option jsval :=
  let name := op.(op_actionName) in
  if a.(risky_durable) &&
     bool_decide (is_Some (mutationPlanContractError a.(risky_contract) (plan_of <$> op.(op_mutationPlan))))
  then Some (error_receipt name "invalid_mutation_plan"
    "The stored host mutation plan is incompatible with this action's durable contract."
    "Create a fresh preview after the action contract is corrected." false)
  else if starts_with (u "clockify_") a.(risky_name) &&
          bool_decide (is_Some (WriteAuthority.validateWriteAuthorityOperation a.(risky_authority)
                                  op.(op_payload) op.(op_mutationPlan)))
  then Some (error_receipt name "intent_capability_denied"
    "The stored operation exceeds this action's reviewed write authority."
    "Create a fresh preview after the action contract is corrected." false)
  else None.

Definition policy_refusal (ctx : CommitContext) (op : ConfirmableOperation) : option jsval :=
  if bool_decide (PermissionChange ∈ op.(op_risks)) then None
  else if canWrite ctx.(policy) op.(op_featureGroup) then None
  else Some (errorReceipt op.(op_actionName) (u "policy_denied")
    (accessDeniedMessage (group_name op.(op_featureGroup)) "write")
    (recovery_hint (u "Enable write access for " ++ u (group_name op.(op_featureGroup)) ++
                    u " and run a fresh preview.") true)).

Definition with_ledger (a : RiskyAction) (ctx : CommitContext) (op : ConfirmableOperation) (c : E S jsval)
    : E S jsval :=
  let name := op.(op_actionName) in
  match a.(idempotencyKey) op, ctx.(idempotency) with
  | Some (u1 :: semantic), Some ledger =>
      let key := idempotencyScopeKey sha256 ctx.(workspaceId) ctx.(adminUserId) name (u1 :: semantic) in
      match ledger with
      | AtomicLedger l => commitViaAtomicLedger name l key c
      | TwoMethodLedger l => commitViaLegacyLedger name l key c
      end
  | _, _ => runCommit name c
  end.

(** [found] is the risky action the catalog has under the operation's name. *)
Definition commitConfirmedOperation (found : option RiskyAction) (ctx : CommitContext)
    (op : ConfirmableOperation) : E S jsval :=
  let name := op.(op_actionName) in
  match found with
  | None =>
      eret (errorReceipt name (u "unknown_action") (u "No committable action: " ++ name)
        (recovery_hint (u "This preview can no longer be executed.") false))
  | Some a =>
      match commit_refusal a op with
      | Some refusal => eret refusal
      | None =>
          let* authorityError := ctx.(authorizeWrite) name in
          match authorityError with
          | Some refusal => eret refusal
          | None =>
              match policy_refusal ctx op with
              | Some refusal => eret refusal
              | None => with_ledger a ctx op (scoped_commit a ctx op)
              end
          end
      end
  end.

(** ** Bookkeeping *)

(** A relation that the ledger's operations and the authorization stay within. *)
Definition ledger_respects (R : S → S → Prop) (l : IdempotencyLedger S) : Prop :=
  match l with
  | AtomicLedger l => (∀ k, respects R (l.(claim) k)) ∧ (∀ k, respects R (l.(lookupCompleted) k)) ∧
      (∀ k v, respects R (l.(fill) k v)) ∧ (∀ k, respects R (l.(release) k))
  | TwoMethodLedger l => (∀ k, respects R (l.(lookup_receipt) k)) ∧ (∀ k v, respects R (l.(record) k v))
  end.

(** What the caller gets for the outcome of a commit. *)
Definition receipt_of (name : jstr) (out : failure + jsval) : jsval :=
  match out with inr v => v | inl e => writeFailureReceipt name e end.

Lemma runCommit_spec name c s :
  runCommit name c s = (inr (receipt_of name (c s).1), (c s).2).
Proof. unfold runCommit, etry. by destruct (c s) as [[e|v] s1]. Qed.

Lemma best_effort_spec R c s : respects R c → ∃ s1, best_effort c s = (inr tt, s1) ∧ R s s1.
Proof.
  intros Hc. specialize (Hc s). unfold best_effort, etry. destruct (c s) as [[e|[]] s1]; simpl in Hc; by exists s1.
Qed.

(** The commit ran once, from [s2], and its receipt is the result. *)
Definition ran_once (R : S → S → Prop) (name : jstr) (c : E S jsval) (s : S) (s2 : S)
    (r : failure + jsval) (s' : S) : Prop :=
  R s s2 ∧ R (c s2).2 s' ∧ r = inr (receipt_of name (c s2).1).

Section Once.
Context (R : S → S → Prop) `{!Reflexive R, !Transitive R}.

Lemma atomic_once name l key c s r s' :
  ledger_respects R (AtomicLedger l) → commitViaAtomicLedger name l key c s = (r, s') →
  (R s s' ∧ is_Some (match r with inr v => Some v | inl _ => None end)) ∨
  ∃ s2, l.(claim) key s = (inr won, s2) ∧ ran_once R name c s s2 r s'.
Proof.
  intros (Hc & Hl & Hf & Hr). unfold commitViaAtomicLedger, ebind, eattempt. specialize (Hc key s).
  destruct (claim l key s) as [[e|st] s1]; simpl in Hc.
  { intros [= <- <-]. left. eauto. }
  destruct st.
  - rewrite runCommit_spec. set (receipt := receipt_of name _). set (c' := if _ || _ then _ else _).
    assert (respects R c') as Hc'.
    { unfold c'. repeat case_match; auto. }
    destruct (best_effort_spec R c' (c s1).2 Hc') as (s3 & Hb & HR). cbn beta iota. rewrite Hb. intros [= <- <-].
    right. exists s1. by split_and!.
  - intros [= <- <-]. left. eauto.
  - specialize (Hl key s1). destruct (lookupCompleted l key s1) as [[e|[v|]] s2]; simpl in Hl;
      intros [= <- <-]; left; eauto.
  - intros [= <- <-]. left. eauto.
Qed.

Lemma legacy_once name l key c s r s' :
  ledger_respects R (TwoMethodLedger l) → commitViaLegacyLedger name l key c s = (r, s') →
  R s s' ∧ (∀ e, r = inl e → l.(lookup_receipt) key s = (inl e, s')) ∨
  ∃ s2, l.(lookup_receipt) key s = (inr None, s2) ∧ ran_once R name c s s2 r s'.
Proof.
  intros (Hl & Hr). unfold commitViaLegacyLedger, ebind. specialize (Hl key s).
  destruct (lookup_receipt l key s) as [[e|[v|]] s1]; simpl in Hl.
  - intros [= <- <-]. left. split; [done|]. by intros ? [= <-].
  - intros [= <- <-]. by left.
  - rewrite runCommit_spec. set (receipt := receipt_of name _).
    assert (∃ s2, (if negb (isPartialCommitResult receipt) && receipt_ok receipt
      then best_effort (l.(record) key receipt) else eret tt) (c s1).2 = (inr tt, s2) ∧ R (c s1).2 s2) as (s2 & -> & HR).
    { destruct (_ && _); [by apply best_effort_spec|by eexists]. }
    intros [= <- <-]. right. exists s1. by split_and!.
Qed.
End Once.

(** The key a commit is claimed under. *)
Definition claim_key (a : RiskyAction) (ctx : CommitContext) (op : ConfirmableOperation) : option jstr :=
  match a.(idempotencyKey) op with
  | Some (c :: semantic) =>
      Some (idempotencyScopeKey sha256 ctx.(workspaceId) ctx.(adminUserId) op.(op_actionName) (c :: semantic))
  | _ => None
  end.

Lemma ledger_once R `{!Reflexive R, !Transitive R} a ctx op c s r s' :
  (∀ l, ctx.(idempotency) = Some l → ledger_respects R l) →
  with_ledger a ctx op c s = (r, s') →
  (R s s' ∧ (∀ e, r = inl e → ∃ l key, ctx.(idempotency) = Some (TwoMethodLedger l) ∧
                                l.(lookup_receipt) key s = (inl e, s'))) ∨
  ∃ s2, ran_once R op.(op_actionName) c s s2 r s' ∧
    (∀ l key, ctx.(idempotency) = Some (AtomicLedger l) → claim_key a ctx op = Some key →
       l.(claim) key s = (inr won, s2)) ∧
    (∀ l key, ctx.(idempotency) = Some (TwoMethodLedger l) → claim_key a ctx op = Some key →
       l.(lookup_receipt) key s = (inr None, s2)) ∧
    (ctx.(idempotency) = None ∨ claim_key a ctx op = None → s2 = s).
Proof.
  intros HR. unfold with_ledger, claim_key.
  assert (runCommit (op_actionName op) c s = (r, s') →
    ran_once R op.(op_actionName) c s s r s') as Hplain.
  { rewrite runCommit_spec. intros [= <- <-]. by split_and!. }
  destruct (idempotencyKey a op) as [[|c1 semantic]|]; [|destruct (idempotency ctx) as [[l|l]|] eqn:Hl|];
    try (intros H%Hplain; right; exists s; split; [done|]; by split_and!).
  - intros [[HRs Hv]|(s2 & Hwon & Hran)]%(atomic_once R); [| |by apply HR].
    + left. split; [done|]. intros e ->. by destruct Hv.
    + right. exists s2. split; [done|]. split_and!; [by intros ? ? [= <-] [= <-]|done|by intros [?|?]].
  - intros [[HRs Hv]|(s2 & Hnone & Hran)]%(legacy_once R); [| |by apply HR].
    + left. split; [done|]. intros e He. eauto.
    + right. exists s2. split; [done|]. split_and!; [done|by intros ? ? [= <-] [= <-]|by intros [?|?]].
Qed.

Lemma commit_admitted a op : commit_refusal a op = None →
  (a.(risky_durable) = true → mutationPlanContractError a.(risky_contract) (plan_of <$> op.(op_mutationPlan)) = None) ∧
  (starts_with (u "clockify_") a.(risky_name) = true →
     WriteAuthority.validateWriteAuthorityOperation a.(risky_authority) op.(op_payload) op.(op_mutationPlan) = None).
Proof.
  unfold commit_refusal. destruct (risky_durable a), (starts_with (u "clockify_") (risky_name a)); simpl;
    repeat case_bool_decide; rewrite <- ?eq_None_not_Some in *; done.
Qed.
Lemma commit_allowed ctx op :
  policy_refusal ctx op = None → PermissionChange ∈ op.(op_risks) ∨ canWrite ctx.(policy) op.(op_featureGroup) = true.
Proof. unfold policy_refusal. case_bool_decide; [by left|]. destruct (canWrite _ _); [by right|done]. Qed.

(** C20: A confirmed operation is committed at most once, behind every gate.  Take any
    relation on states that the fresh authorization and the ledger keep (that no request
    was sent, say).  A call of [commitConfirmedOperation] either keeps it too, or it ran the
    action's commit exactly once: the catalog has the action, its plan and operation pass
    their contract and authority, the admin was authorized afresh, the current policy
    allows the write, and, for an action with an idempotency key, this call won the claim of
    the atomic ledger, or the lookup of the two-method ledger found no earlier receipt (an
    action without a key, or a context without a ledger, is committed without either).  The
    caller then gets exactly the result of that commit (a receipt where it threw): no failure of the
    ledger afterwards loses or changes it. *)
Theorem commit_once R found ctx op s r s' :
  PreOrder R → (∀ n, respects R (ctx.(authorizeWrite) n)) →
  (∀ l, ctx.(idempotency) = Some l → ledger_respects R l) →
  commitConfirmedOperation found ctx op s = (r, s') →
  R s s' ∨ ∃ a s1 s2, found = Some a ∧
    (a.(risky_durable) = true → mutationPlanContractError a.(risky_contract) (plan_of <$> op.(op_mutationPlan)) = None) ∧
    (starts_with (u "clockify_") a.(risky_name) = true →
       WriteAuthority.validateWriteAuthorityOperation a.(risky_authority) op.(op_payload) op.(op_mutationPlan) = None) ∧
    ctx.(authorizeWrite) op.(op_actionName) s = (inr None, s1) ∧
    (PermissionChange ∈ op.(op_risks) ∨ canWrite ctx.(policy) op.(op_featureGroup) = true) ∧
    (∀ l key, ctx.(idempotency) = Some (AtomicLedger l) → claim_key a ctx op = Some key →
       l.(claim) key s1 = (inr won, s2)) ∧
    (∀ l key, ctx.(idempotency) = Some (TwoMethodLedger l) → claim_key a ctx op = Some key →
       l.(lookup_receipt) key s1 = (inr None, s2)) ∧
    (ctx.(idempotency) = None ∨ claim_key a ctx op = None → s2 = s1) ∧
    R s s1 ∧ ran_once R op.(op_actionName) (scoped_commit a ctx op) s1 s2 r s'.
Proof.
  intros [HRr HRt] Hauth HR. unfold commitConfirmedOperation. destruct found as [a|]; [|by intros [= <- <-]; left].
  destruct (commit_refusal a op) eqn:Hc; [by intros [= <- <-]; left|].
  unfold ebind. specialize (Hauth (op_actionName op) s).
  destruct (authorizeWrite ctx _ s) as [[e|[v|]] s1] eqn:Ha; simpl in Hauth; [by intros [= <- <-]; left..|].
  destruct (policy_refusal ctx op) eqn:Hp; [by intros [= <- <-]; left|].
  intros [[HRs _]|(s2 & Hran & Hwon & Hnone & Hsame)]%(ledger_once R); [| |by apply HR].
  - left. by etrans.
  - right. exists a, s1, s2. destruct (commit_admitted _ _ Hc). apply commit_allowed in Hp. by split_and!.
Qed.

(** What a commit can throw.  An exception escapes [commitConfirmedOperation] only out
    of the fresh authorization or, with the two-method ledger, out of its lookup, in both
    cases before anything was committed; with an authorization that does not throw and no
    ledger or the atomic one, the caller always gets a result. *)
Theorem commit_throws_only found ctx op s e s' :
  commitConfirmedOperation found ctx op s = (inl e, s') →
  ctx.(authorizeWrite) op.(op_actionName) s = (inl e, s') ∨
  ∃ l key s1, ctx.(idempotency) = Some (TwoMethodLedger l) ∧
    ctx.(authorizeWrite) op.(op_actionName) s = (inr None, s1) ∧ l.(lookup_receipt) key s1 = (inl e, s').
Proof.
  unfold commitConfirmedOperation. destruct found as [a|]; [|done].
  destruct (commit_refusal a op); [done|]. unfold ebind.
  destruct (authorizeWrite ctx _ s) as [[e'|[v|]] s1] eqn:Ha; [by intros [= <- <-]; left|done|].
  destruct (policy_refusal ctx op); [done|]. intros HA. right.
  assert (Reflexive (λ _ _ : S, True)) by done. assert (Transitive (λ _ _ : S, True)) by done.
  apply (ledger_once (λ _ _, True)) in HA as [[_ Hv]|(s2 & (_ & _ & [=]) & _)].
  - destruct (Hv e eq_refl) as (l & key & ? & ?). eauto 10.
  - intros [l|l] _; by split_and!.
Qed.
End Commit.
