(* ===== verification/Undo.v ===== *)
(** * Undoing a creation

    [harness/undo.ts]: what a success receipt created is deleted again, in reverse order,
    one exact journaled primary step per host effect.  The workspace client is a record of
    the operations an undo calls.  Entity types are those of the workflows' receipts; none
    is the name of a member of [Object.prototype]. *)
From S2P Require Import Prelude Js SafeJson Policy Db Plan Journal Effects MutationScope PlanScope Receipts Workflow WorkflowResults Commit.
From S2P Require SafetyLimits HostBudget.
Import Permissions.
Open Scope Z_scope.
#[local] Arguments u : simpl never.

(** ** Entities *)

Definition REVERSIBLE_ENTITY_GROUP : list (string * FeatureGroup) :=
  [("project", work_structure); ("client", work_structure); ("task", work_structure); ("tag", work_structure);
   ("time_entry", time_tracking); ("invoice", invoices); ("expense", expenses); ("webhook", webhooks);
   ("group", users_groups); ("holiday", time_off_approvals); ("assignment", scheduling)].

Definition is_type (k : string) (r : EntityRef) : bool := bool_decide (r.(ref_type) = u k).
Definition reversible_group (r : EntityRef) : option FeatureGroup :=
  snd <$> find (λ kv, is_type kv.1 r) REVERSIBLE_ENTITY_GROUP.

Definition reversibleCreations (created : option (list EntityRef)) : list EntityRef :=
  filter (λ r, is_Some (reversible_group r)) (default [] created).

(** [new Set(...)]: the first of equal elements stays. *)
Definition distinct {A} `{EqDecision A} (l : list A) : list A :=
  foldl (λ acc x, if decide (x ∈ acc) then acc else acc ++ [x]) [] l.

Definition firstDeniedGroup (policy : AdminPolicy) (refs : list EntityRef) : option FeatureGroup :=
  find (λ g, negb (canWrite policy g)) (distinct (omap reversible_group refs)).

(** ** The plan *)

Inductive UndoOperation : Set := transition | deletion.
Record UndoPlanStep := {
  undo_step_id : jstr;
  undo_step_index : nat;
  undo_step_ref : EntityRef;
  undo_step_operation : UndoOperation;
}.

Definition needs_transition (r : EntityRef) : bool := is_type "project" r || is_type "client" r || is_type "task" r.
Definition undo_id (refIndex : nat) (r : EntityRef) (suffix : string) : jstr :=
  u "undo-" ++ digits (N.of_nat refIndex) ++ u "-" ++ r.(ref_type) ++ u suffix.

(** The steps of the reversed refs from [refIndex] on, [index] steps being before them. *)
Fixpoint plan_refs (refIndex index : nat) (refs : list EntityRef) : list UndoPlanStep :=
  match refs with
  | [] => []
  | r :: refs' =>
      let before := if needs_transition r
                    then [{| undo_step_id := undo_id refIndex r "-transition"; undo_step_index := index;
                             undo_step_ref := r; undo_step_operation := transition |}]
                    else [] in
      let index' := (index + length before)%nat in
      before ++ {| undo_step_id := undo_id refIndex r "-delete"; undo_step_index := index';
                   undo_step_ref := r; undo_step_operation := deletion |}
             :: plan_refs (Datatypes.S refIndex) (Datatypes.S index') refs'
  end.
Definition undoPlanSteps (refs : list EntityRef) : list UndoPlanStep := plan_refs 0 0 (reverse refs).

Definition undo_plan_step (x : UndoPlanStep) : SafetyLimits.ExternalMutationPlanStep :=
  {| SafetyLimits.plan_step_id := x.(undo_step_id); SafetyLimits.plan_step_kind := SafetyLimits.Primary;
     SafetyLimits.plan_target_fingerprint := None;
     SafetyLimits.plan_reconciliation := Some match x.(undo_step_operation) with
       | deletion => SafetyLimits.StrategyDelete | transition => SafetyLimits.StrategyStateCommand end |}.

Definition undoMutationPlan (refs : list EntityRef) : SafetyLimits.ExternalMutationPlan :=
  SafetyLimits.bindMutationPlanHostCalls "undo" (VObj [(u "refs", VArr (ref_value <$> refs))])
    {| SafetyLimits.draft_mode := SafetyLimits.Batch; SafetyLimits.draft_maxHostCalls := None;
       SafetyLimits.draft_steps := undo_plan_step <$> undoPlanSteps refs |}.

(** ** Dispatching *)

Section Undo.
Context {S : Type} `{!MutationHost S}.

(** The operations of the workspace client an undo uses. *)
Record UndoClient := {
  prepareProjectUpdate : jstr → jsval → E S jsval;
  prepareClientUpdate : jstr → jsval → E S jsval;
  prepareTaskUpdate : jstr → jstr → jsval → E S jsval;
  archiveProjectAtomic : jstr → jsval → E S unit;
  updateClientAtomic : jstr → jsval → E S unit;
  updateTaskAtomic : jstr → jstr → jsval → E S unit;
  deleteProjectAtomic : jstr → E S unit;
  deleteClientAtomic : jstr → E S unit;
  deleteTaskAtomic : jstr → jstr → E S unit;
  deleteTagAtomic : jstr → E S unit;
  deleteTimeEntryAtomic : jstr → E S unit;
  deleteInvoiceAtomic : jstr → E S unit;
  deleteExpenseAtomic : jstr → E S unit;
  deleteWebhookAtomic : jstr → E S unit;
  deleteGroupAtomic : jstr → E S unit;
  deleteHolidayAtomic : jstr → E S unit;
  deleteAssignmentAtomic : jstr → E S unit;
}.
Context (clockify : UndoClient).

(** [ref.projectId], when it is truthy. *)
Definition project_of (r : EntityRef) : option jstr := column r.(ref_projectId).
Definition archived : jsval := VObj [(u "archived", VBool true)].

Definition prepareTransition (r : EntityRef) : E S jsval :=
  if is_type "project" r then clockify.(prepareProjectUpdate) r.(ref_entity) archived
  else if is_type "client" r then clockify.(prepareClientUpdate) r.(ref_entity) archived
  else if is_type "task" r then
    match project_of r with
    | None => error "task_project_id_missing"
    | Some p => clockify.(prepareTaskUpdate) p r.(ref_entity) (VObj [(u "status", str "DONE")])
    end
  else error "undo_transition_not_supported".

Definition dispatchTransition (r : EntityRef) (body : jsval) : E S unit :=
  if is_type "project" r then clockify.(archiveProjectAtomic) r.(ref_entity) body
  else if is_type "client" r then clockify.(updateClientAtomic) r.(ref_entity) body
  else match project_of r with
       | Some p => if is_type "task" r then clockify.(updateTaskAtomic) p r.(ref_entity) body
                   else error "undo_transition_not_supported"
       | None => error "undo_transition_not_supported"
       end.

Definition dispatchDelete (r : EntityRef) : E S unit :=
  let id := r.(ref_entity) in
  if is_type "project" r then clockify.(deleteProjectAtomic) id
  else if is_type "client" r then clockify.(deleteClientAtomic) id
  else if is_type "task" r then
    match project_of r with
    | None => error "task_project_id_missing"
    | Some p => clockify.(deleteTaskAtomic) p id
    end
  else if is_type "tag" r then clockify.(deleteTagAtomic) id
  else if is_type "time_entry" r then clockify.(deleteTimeEntryAtomic) id
  else if is_type "invoice" r then clockify.(deleteInvoiceAtomic) id
  else if is_type "expense" r then clockify.(deleteExpenseAtomic) id
  else if is_type "webhook" r then clockify.(deleteWebhookAtomic) id
  else if is_type "group" r then clockify.(deleteGroupAtomic) id
  else if is_type "holiday" r then clockify.(deleteHolidayAtomic) id
  else if is_type "assignment" r then clockify.(deleteAssignmentAtomic) id
  else ethrow (OtherError (u "Error") (u "undo_delete_not_supported:" ++ r.(ref_type))).

(** ** The run of the steps *)

Definition entity_key (r : EntityRef) : jstr := r.(ref_type) ++ u ":" ++ r.(ref_entity).

(** The local variables of the loop. *)
Record UndoProgress := {
  deleted : list EntityRef;
  transitioned : list jstr;
  terminal : option JournaledMutationStep;
  preparationFailure : option jstr;
}.
Definition no_progress : UndoProgress :=
  {| deleted := []; transitioned := []; terminal := None; preparationFailure := None |}.

Definition preparation_message (r : EntityRef) : jstr :=
  u "Couldn't prepare " ++ r.(ref_type) ++ u " " ++ default r.(ref_entity) r.(ref_name) ++ u " for removal.".

Definition prepared_ref (r : EntityRef) : jsval :=
  VObj ([(u "type", VStr r.(ref_type)); (u "id", VStr r.(ref_entity))] ++ optional_text "projectId" (project_of r)).

(** The executable step of a plan step, with the body its preparation read. *)
Definition undo_executable (x : UndoPlanStep) (body : option jsval) : ExecutableMutationStep S :=
  let r := x.(undo_step_ref) in
  {| exec_id := x.(undo_step_id); exec_index := x.(undo_step_index);
     exec_name := match x.(undo_step_operation) with
                  | deletion => u "Delete " ++ r.(ref_type)
                  | transition => u "Prepare " ++ r.(ref_type) ++ u " for deletion"
                  end;
     exec_kind := primary; exec_targetFingerprint := None;
     exec_preparedDetail := VObj ([(u "ref", prepared_ref r)] ++
       match body with Some b => [(u "body", b)] | None => [] end);
     exec_compensatesStepId := None;
     dispatch :=
       let outcome member := {| detail_externalId := Some r.(ref_entity);
                                detail_effect := VObj [(u member, ref_value r)]; detail_detail := VUndef |} in
       match x.(undo_step_operation) with
       | transition => let* _ := dispatchTransition r (default VUndef body) in eret (outcome "updated"%string)
       | deletion => let* _ := dispatchDelete r in eret (outcome "deleted"%string)
       end |}.

Definition with_terminal (z : JournaledMutationStep) (p : UndoProgress) : UndoProgress :=
  {| deleted := p.(deleted); transitioned := p.(transitioned); terminal := Some z;
     preparationFailure := p.(preparationFailure) |}.
Definition with_preparation_failure (m : jstr) (p : UndoProgress) : UndoProgress :=
  {| deleted := p.(deleted); transitioned := p.(transitioned); terminal := p.(terminal);
     preparationFailure := Some m |}.
(** A [Set] of keys and an array of entities. *)
Definition with_effect (x : UndoPlanStep) (p : UndoProgress) : UndoProgress :=
  let r := x.(undo_step_ref) in
  match x.(undo_step_operation) with
  | transition => {| deleted := p.(deleted);
      transitioned := if decide (entity_key r ∈ p.(transitioned)) then p.(transitioned)
                      else p.(transitioned) ++ [entity_key r];
      terminal := p.(terminal); preparationFailure := p.(preparationFailure) |}
  | deletion => {| deleted := p.(deleted) ++ [r]; transitioned := p.(transitioned); terminal := p.(terminal);
      preparationFailure := p.(preparationFailure) |}
  end.

Section Journaled.
Context `{!MutationStepJournal S} (operationId : jstr) (authorizeWrite : jstr → E S (option jsval)).

(** [markUndoStepDispatched] is the hook of a confirmed commit; an undo has no
    compensation and reconciles nothing. *)
Definition undo_hooks : ScopeHooks S :=
  {| authorizeDispatch _ := authorizeWrite (u "undo");
     onDispatch s := markScopedStepDispatched s.(scope_step_id) s.(scope_step_kind);
     compensationEligible _ := eret false; authoritativelyReconciled _ := eret false |}.

Definition prepare_body (x : UndoPlanStep) : E S (option jsval) :=
  match x.(undo_step_operation) with
  | transition => let* b := prepareTransition x.(undo_step_ref) in eret (Some b)
  | deletion => eret None
  end.

Fixpoint run_undo (todo : list UndoPlanStep) (p : UndoProgress) : E S UndoProgress :=
  match todo with
  | [] => eret p
  | x :: todo' =>
      let* prepared := eattempt (prepare_body x) in
      match prepared with
      | inl _ => eret (with_preparation_failure (preparation_message x.(undo_step_ref)) p)
      | inr body =>
          let* step := executeStep undo_hooks operationId (undo_executable x body) in
          let p := with_terminal step p in
          if negb (bool_decide (step.2.(step_status) = StepSucceeded)) then eret p
          else
            let p := with_effect x p in
            if isJournalDegradedStep step then eret p else run_undo todo' p
      end
  end.

(** [requiresComplete], evaluated when the run has returned. *)
Definition undo_complete (specs : list UndoPlanStep) (p : UndoProgress) : E S bool :=
  match p.(terminal) with
  | Some z =>
      if bool_decide (z.2.(step_status) = StepSucceeded) && negb (isJournalDegradedStep z) then
        let* l := listOperationSteps in eret (bool_decide (length l = length specs))
      else eret false
  | None => eret false
  end.

Definition undo_scope (plan : SafetyLimits.ExternalMutationPlan) (specs : list UndoPlanStep) : E S UndoProgress :=
  let* out := withMutationPlanScope undo_hooks (SafetyLimits.maxHostCalls plan)
    (scope_step <$> SafetyLimits.steps plan) snd
    (let* p := run_undo specs no_progress in
     let* complete := undo_complete specs p in
     eret (p, complete)) in
  eret out.1.
End Journaled.

(** ** The result *)

Inductive DurableUndoStatus : Set := partially_undone | undone | failed | outcome_unknown_undo.
Record DurableUndoResult := {
  undo_receipt : jsval;
  undo_outcome : DurableUndoStatus;
  remaining : list EntityRef;
}.

Definition remainingAfter (refs deleted : list EntityRef) : list EntityRef :=
  filter (λ r, entity_key r ∉ entity_key <$> deleted) refs.

Definition failedUndoReceipt (refs : list EntityRef) (detail : jstr) : jsval :=
  errorReceipt (u "undo") (u "undo_failed")
    (trim (if bool_decide (length refs = 1%nat)
           then dashed "Couldn't undo " " the change could not be reversed. " ++ detail
           else dashed "Couldn't undo " " none of the " ++ digits (N.of_nat (length refs)) ++
                u " created items could be removed. " ++ detail))
    (recovery_hint (u "Nothing was removed; remove them manually if needed.") false).

Definition effects_receipt (workspaceId : jstr) (deleted updated warnings : list jsval) : jsval :=
  successReceipt {| receipt_action := u "undo"; receipt_entity := Some (u "undo");
    receipt_ids := [(u "workspaceId", Some workspaceId)]; receipt_data := VUndef;
    receipt_changed := Some (VUndef, VArr updated, VArr deleted, VUndef);
    receipt_warnings := warnings; receipt_next := [] |}.
Definition undo_warning (code : string) (message : jstr) : jsval :=
  VObj [(u "code", VStr (u code)); (u "message", VStr message)].

Definition unknown_message : jstr :=
  u "A Clockify undo step had an unknown outcome. No later removal was dispatched.".
Definition rejected_message : jstr :=
  u "Clockify definitively rejected an undo step. No later removal was dispatched.".
Definition degraded_message : jstr :=
  u "Clockify confirmed the undo step, but its full local journal settlement degraded. No later removal was dispatched.".

(** What the run's variables say when the scope has returned. *)
Definition undo_report (workspaceId : jstr) (refs : list EntityRef) (p : UndoProgress) : DurableUndoResult :=
  let rest := remainingAfter refs p.(deleted) in
  let known := negb (bool_decide (p.(deleted) = [] ∧ p.(transitioned) = [])) in
  let removed := ref_value <$> p.(deleted) in
  let updated := ref_value <$> filter (λ r, entity_key r ∈ p.(transitioned)) refs in
  let status := (λ z : JournaledMutationStep, z.2.(step_status)) <$> p.(terminal) in
  if bool_decide (status = Some StepOutcomeUnknown) then
    {| undo_receipt :=
         if known then effects_receipt workspaceId removed updated [undo_warning "undo_outcome_unknown" unknown_message]
         else errorReceipt (u "undo") (u "commit_outcome_unknown") unknown_message
           (recovery_hint (u "Verify the affected item in Clockify before taking further action.") false);
       undo_outcome := outcome_unknown_undo; remaining := rest |}
  else if bool_decide (is_Some p.(preparationFailure)) ||
          match status with Some st => negb (bool_decide (st = StepSucceeded)) | None => false end then
    let message := default rejected_message p.(preparationFailure) in
    if known then
      {| undo_receipt := effects_receipt workspaceId removed updated [undo_warning "undo_failed" message];
         undo_outcome := partially_undone; remaining := rest |}
    else {| undo_receipt := failedUndoReceipt refs message; undo_outcome := failed; remaining := rest |}
  else if match p.(terminal) with Some z => isJournalDegradedStep z | None => false end then
    {| undo_receipt := effects_receipt workspaceId removed [] [undo_warning "operation_journal_degraded" degraded_message];
       undo_outcome := if bool_decide (rest = []) then undone else partially_undone; remaining := rest |}
  else {| undo_receipt := effects_receipt workspaceId removed [] []; undo_outcome := undone; remaining := [] |}.

Definition plan_matches (plan : SafetyLimits.ExternalMutationPlan) (specs : list UndoPlanStep) : bool :=
  bool_decide (length (SafetyLimits.steps plan) = length specs) &&
  forallb (λ ab : SafetyLimits.ExternalMutationPlanStep * UndoPlanStep,
             bool_decide (SafetyLimits.plan_step_id ab.1 = ab.2.(undo_step_id)) &&
             match SafetyLimits.plan_step_kind ab.1 with SafetyLimits.Primary => true | _ => false end)
    (zip (SafetyLimits.steps plan) specs).

Definition refused_undo (code : string) (message : jstr) (recovery : jsval) (refs : list EntityRef) : DurableUndoResult :=
  {| undo_receipt := errorReceipt (u "undo") (u code) message recovery; undo_outcome := failed; remaining := refs |}.

Definition reverseCreationDurably (ctx : CommitContext) (refs : list EntityRef) (operationId : jstr)
    (plan : SafetyLimits.ExternalMutationPlan) : E S DurableUndoResult :=
  if bool_decide (refs = []) then eret (refused_undo "not_undoable" (u "There is nothing to undo.") VUndef [])
  else match firstDeniedGroup ctx.(policy) refs with
  | Some g =>
      eret (refused_undo "policy_denied"
        (u "Undo needs write access to " ++ u (group_name g) ++ u ", which is disabled in your assistant permissions.")
        (recovery_hint (u "Enable write access for " ++ u (group_name g) ++ u " and try again.") true) refs)
  | None =>
      match ctx.(mutationJournal) with
      | Some journal =>
          ensure* bool_decide (journal_operationId = operationId) else "undo_operation_journal_required" in
          let specs := undoPlanSteps refs in
          ensure* plan_matches plan specs else "invalid_undo_mutation_plan" in
          let* p := undo_scope operationId ctx.(authorizeWrite) plan specs in
          eret (undo_report ctx.(workspaceId) refs p)
      | None => error "undo_operation_journal_required"
      end
  end.
End Undo.

(** ** The plan of an undo *)

Definition deleted_by (l : list UndoPlanStep) : list EntityRef :=
  omap (λ x, match x.(undo_step_operation) with deletion => Some x.(undo_step_ref) | transition => None end) l.

Lemma deleted_by_app l1 l2 : deleted_by (l1 ++ l2) = deleted_by l1 ++ deleted_by l2.
Proof. apply omap_app. Qed.

Lemma plan_deletes k i refs : deleted_by (plan_refs k i refs) = refs.
Proof.
  revert k i. induction refs as [|r refs IH]; intros k i; [done|]. cbn [plan_refs]. rewrite deleted_by_app.
  unfold deleted_by at 1. destruct (needs_transition r); csimpl; by rewrite IH.
Qed.

(** The cost of one entity: role and deletion, and three calls for a transition. *)
Definition ref_cost (r : EntityRef) : Z := if needs_transition r then 5 else 2.

Lemma undo_id_suffix k r t : ∃ s, undo_id k r t = s ++ u t.
Proof. unfold undo_id. eexists. by rewrite !app_assoc. Qed.

Lemma transition_cost x k : x.(undo_step_id) = undo_id k x.(undo_step_ref) "-transition" →
  SafetyLimits.undo_step_cost (undo_plan_step x) = 3.
Proof.
  unfold SafetyLimits.undo_step_cost. cbn [undo_plan_step SafetyLimits.plan_step_id].
  destruct (undo_id_suffix k x.(undo_step_ref) "-transition") as [s ->]. intros ->. by rewrite ends_with_app.
Qed.
Lemma deletion_cost x k : x.(undo_step_id) = undo_id k x.(undo_step_ref) "-delete" →
  SafetyLimits.undo_step_cost (undo_plan_step x) = 2.
Proof.
  unfold SafetyLimits.undo_step_cost. cbn [undo_plan_step SafetyLimits.plan_step_id].
  destruct (undo_id_suffix k x.(undo_step_ref) "-delete") as [s ->]. intros ->. rewrite ends_with_app.
  assert (ends_with (u "-transition") (s ++ u "-delete") = false) as ->; [|done].
  unfold ends_with. rewrite reverse_app. by vm_compute.
Qed.

Lemma plan_cost k i refs acc :
  foldl Z.add acc (SafetyLimits.undo_step_cost <$> (undo_plan_step <$> plan_refs k i refs)) =
  acc + 2 * Z.of_nat (length refs) + 3 * countb needs_transition refs.
Proof.
  revert k i acc. induction refs as [|r refs IH]; intros k i acc; [simpl; lia|].
  cbn [plan_refs countb length]. destruct (needs_transition r); rewrite ?fmap_app; cbn [app fmap list_fmap foldl];
    rewrite IH, ?(transition_cost _ k), ?(deletion_cost _ k) by done; lia.
Qed.

Lemma countb_reverse {A} (p : A → bool) l : countb p (reverse l) = countb p l.
Proof. induction l as [|x l IH]; [done|]. rewrite reverse_cons, countb_app, IH. simpl. lia. Qed.

(** An id starts with the number of its entity. *)
Definition numbered (k : nat) (id : jstr) : Prop := ∃ t, id = u "undo-" ++ digits (N.of_nat k) ++ 45%N :: t.

Lemma undo_id_numbered k r t : numbered k (undo_id k r t).
Proof. unfold undo_id, numbered. eexists. reflexivity. Qed.

Lemma digit_bounds fuel n acc : Forall (λ c, c ≠ 45%N) acc → Forall (λ c, c ≠ 45%N) (digits_aux fuel n acc).
Proof.
  revert n acc. induction fuel as [|fuel IH]; intros n acc Hacc; [done|]. cbn [digits_aux].
  assert (48 + n mod 10 ≠ 45)%N by (generalize (n mod 10)%N; lia). case_match; [by constructor|]. apply IH. by constructor.
Qed.

Lemma dash_split (a b t t' : jstr) : Forall (λ c, c ≠ 45%N) a → Forall (λ c, c ≠ 45%N) b →
  a ++ 45%N :: t = b ++ 45%N :: t' → a = b.
Proof.
  revert b. induction a as [|x a IH]; intros [|y b] Ha Hb H; simpl in H; try done.
  - injection H as <- _. by inversion Hb.
  - injection H as -> _. by inversion Ha.
  - injection H as -> H. inversion Ha; inversion Hb; subst. f_equal. by apply IH.
Qed.

Lemma numbered_inj j k id : numbered j id → numbered k id → j = k.
Proof.
  intros [t ->] [t' H]. apply app_inv_head in H. apply dash_split in H; [|by apply digit_bounds..].
  apply digits_inj in H. lia.
Qed.

Lemma plan_numbered k i refs x : x ∈ plan_refs k i refs → ∃ j, (k ≤ j)%nat ∧ numbered j x.(undo_step_id).
Proof.
  revert k i. induction refs as [|r refs IH]; intros k i Hx; [by apply elem_of_nil in Hx|].
  cbn [plan_refs] in Hx. destruct (needs_transition r); cbn [app] in Hx; rewrite !elem_of_cons in Hx; destruct_or?;
    subst; try (exists k; split; [lia|apply undo_id_numbered]);
    match goal with H : _ ∈ plan_refs _ _ _ |- _ => apply IH in H as (j & Hj & ?); exists j; split; [lia|done] end.
Qed.

Lemma plan_ids_distinct k i refs : NoDup (undo_step_id <$> plan_refs k i refs).
Proof.
  revert k i. induction refs as [|r refs IH]; intros k i; [constructor|]. cbn [plan_refs].
  assert (∀ i' t, undo_id k r t ∉ undo_step_id <$> plan_refs (Datatypes.S k) i' refs) as Hnew.
  { intros i' t (x & Hx & Hin)%list_elem_of_fmap. apply plan_numbered in Hin as (j & Hj & Hn). rewrite <- Hx in Hn.
    pose proof (numbered_inj _ _ _ Hn (undo_id_numbered k r t)). lia. }
  destruct (needs_transition r); cbn [app fmap list_fmap undo_step_id]; repeat constructor; try apply Hnew; try apply IH.
  rewrite elem_of_cons. intros [H|H]; [|by eapply Hnew]. unfold undo_id in H.
  apply app_inv_head, app_inv_head, app_inv_head, app_inv_head in H. done.
Qed.

Lemma plan_indexed k i refs n x : plan_refs k i refs !! n = Some x → x.(undo_step_index) = (i + n)%nat.
Proof.
  revert k i n. induction refs as [|r refs IH]; intros k i n Hx; [done|]. cbn [plan_refs] in Hx.
  destruct (needs_transition r); cbn [app length] in Hx.
  - destruct n as [|[|n]]; [injection Hx as <-; simpl; lia..|]. apply IH in Hx. lia.
  - destruct n as [|n]; [injection Hx as <-; simpl; lia|]. apply IH in Hx. lia.
Qed.

Lemma plan_transitions k i refs n x : plan_refs k i refs !! n = Some x → x.(undo_step_operation) = transition →
  needs_transition x.(undo_step_ref) = true ∧
  ∃ y, plan_refs k i refs !! Datatypes.S n = Some y ∧ y.(undo_step_operation) = deletion ∧ y.(undo_step_ref) = x.(undo_step_ref).
Proof.
  revert k i n. induction refs as [|r refs IH]; intros k i n Hx Ht; [done|]. cbn [plan_refs] in *.
  destruct (needs_transition r) eqn:Hr; cbn [app length] in *.
  - destruct n as [|[|n]]; [injection Hx as <-|by injection Hx as <-|by eapply IH]. split; [done|]. by eexists.
  - destruct n as [|n]; [by injection Hx as <-|by eapply IH].
Qed.

Lemma plan_nil k i refs : plan_refs k i refs = [] ↔ refs = [].
Proof. destruct refs as [|r refs]; [done|]. cbn [plan_refs]. destruct (needs_transition r); done. Qed.

Lemma scope_ids (l : list UndoPlanStep) : scope_step_id <$> (scope_step <$> (undo_plan_step <$> l)) = undo_step_id <$> l.
Proof. induction l as [|x l IH]; [done|]. csimpl. by rewrite IH. Qed.

(** The plan of an undo.  Its deletions are the created entities in reverse order, a
    project, client or task being archived or completed by the step just before; the step
    ids are distinct and the indexes consecutive; it is reserved at exactly two calls per
    entity and three more per transition; and the dispatch gate accepts it exactly when
    there is something to undo within the turn's host-call ceiling. *)
Theorem undo_plan_exact refs :
  let specs := undoPlanSteps refs in
  let plan := undoMutationPlan refs in
  SafetyLimits.steps plan = undo_plan_step <$> specs ∧
  deleted_by specs = reverse refs ∧
  (∀ n x, specs !! n = Some x → x.(undo_step_index) = n ∧
     (x.(undo_step_operation) = transition → needs_transition x.(undo_step_ref) = true ∧
        ∃ y, specs !! Datatypes.S n = Some y ∧ y.(undo_step_operation) = deletion ∧ y.(undo_step_ref) = x.(undo_step_ref))) ∧
  NoDup (undo_step_id <$> specs) ∧
  SafetyLimits.maxHostCalls plan = 2 * Z.of_nat (length refs) + 3 * countb needs_transition refs ∧
  (scope_plan_refusal (SafetyLimits.maxHostCalls plan) (scope_step <$> SafetyLimits.steps plan) = None ↔
   refs ≠ [] ∧ SafetyLimits.maxHostCalls plan ≤ 60).
Proof.
  cbv zeta. assert (SafetyLimits.maxHostCalls (undoMutationPlan refs) =
    2 * Z.of_nat (length refs) + 3 * countb needs_transition refs) as Hcost.
  { unfold undoMutationPlan, SafetyLimits.bindMutationPlanHostCalls, SafetyLimits.estimateMutationPlanHostCalls.
    cbn [SafetyLimits.maxHostCalls SafetyLimits.draft_steps].
    repeat first [rewrite decide_False by done | rewrite decide_True by done].
    unfold SafetyLimits.sum_costs, undoPlanSteps. rewrite plan_cost, length_reverse, countb_reverse. lia. }
  split_and!; try done; [apply plan_deletes| |apply plan_ids_distinct|].
  - intros n x Hx. split; [by apply plan_indexed in Hx|]. intros Ht. by apply (plan_transitions _ _ _ _ _ Hx).
  - change (SafetyLimits.steps (undoMutationPlan refs)) with (undo_plan_step <$> undoPlanSteps refs).
    pose proof (countb_nonneg needs_transition refs) as Hpos.
    unfold scope_plan_refusal. rewrite scope_ids. change SafetyLimits.HOST_CALL_BUDGET_MAXIMUM with 60.
    rewrite (bool_decide_eq_true_2 (NoDup _)) by apply plan_ids_distinct. simpl negb. rewrite orb_false_r.
    rewrite (bool_decide_eq_false_2 ([] ∈ _)), orb_false_r.
    2:{ intros (x & Hx & Hin)%list_elem_of_fmap. apply plan_numbered in Hin as (j & _ & t & Hj). by rewrite <- Hx in Hj. }
    destruct (decide (refs = [])) as [->|Hne].
    + split; [|naive_solver]. by vm_compute.
    + assert (1 ≤ length refs)%nat by (destruct refs; simpl; [done|lia]).
      assert (scope_step <$> (undo_plan_step <$> undoPlanSteps refs) ≠ []) as Hsteps.
      { intros Hnil%(f_equal length). rewrite !length_fmap in Hnil. apply length_zero_iff_nil, plan_nil in Hnil.
        apply (f_equal length) in Hnil. rewrite length_reverse in Hnil. simpl in Hnil. lia. }
      rewrite (bool_decide_eq_false_2 _ Hsteps).
      change max_safe_integer with 9007199254740991.
      destruct (_ || _) eqn:E; [split; [done|]|split; [|done]]; zbool; intros; (split; [done|]) || idtac; lia.
Qed.

(** ** The run of an undo *)

Section Run.
Context {S : Type} `{!MutationHost S, !MutationStepJournal S} (clockify : UndoClient (S := S)).
Context (operationId : jstr) (authorizeWrite : jstr → E S (option jsval)).

Abbreviation execute x body := (executeStep (undo_hooks authorizeWrite) operationId (undo_executable clockify x body)).

(** Steps that succeeded cleanly, one after the other. *)
Inductive undone_run : list UndoPlanStep → S → S → Prop :=
| undone_nil s : undone_run [] s s
| undone_cons x xs s body s1 z s2 s3 :
    prepare_body clockify x s = (inr body, s1) → execute x body s1 = (inr z, s2) →
    z.2.(step_status) = StepSucceeded → isJournalDegradedStep z = false →
    undone_run xs s2 s3 → undone_run (x :: xs) s s3.

(** How a run ends at a step: its preparation threw ([None]), or its row [z] is not a
    clean success. *)
Inductive undo_ends (x : UndoPlanStep) (s : S) : option JournaledMutationStep → S → Prop :=
| end_prepare e s1 : prepare_body clockify x s = (inl e, s1) → undo_ends x s None s1
| end_step body s1 z s2 :
    prepare_body clockify x s = (inr body, s1) → execute x body s1 = (inr z, s2) →
    z.2.(step_status) ≠ StepSucceeded ∨ isJournalDegradedStep z = true → undo_ends x s (Some z) s2.

(** The variables after the clean steps [pre]. *)
Record went (pre : list UndoPlanStep) (p p' : UndoProgress) : Prop := {
  went_deleted : p'.(deleted) = p.(deleted) ++ deleted_by pre;
  went_failure : p'.(preparationFailure) = p.(preparationFailure);
  went_terminal : match p'.(terminal) with
                  | Some z => (pre = [] ∧ p.(terminal) = Some z) ∨
                              (z.2.(step_status) = StepSucceeded ∧ isJournalDegradedStep z = false)
                  | None => pre = [] ∧ p.(terminal) = None
                  end;
  went_effects : (p'.(deleted) = [] ∧ p'.(transitioned) = []) ↔
                 (pre = [] ∧ p.(deleted) = [] ∧ p.(transitioned) = []);
}.

Lemma went_refl p : went [] p p.
Proof. constructor; [by rewrite app_nil_r|done| |naive_solver]. destruct (terminal p); auto. Qed.

Lemma went_cons x xs z p p' :
  z.2.(step_status) = StepSucceeded → isJournalDegradedStep z = false →
  went xs (with_effect x (with_terminal z p)) p' → went (x :: xs) p p'.
Proof.
  intros Hs Hd [D F T Ef]. constructor.
  - rewrite D. unfold with_effect, deleted_by. csimpl. destruct (undo_step_operation x); simpl; [done|by rewrite <- app_assoc].
  - rewrite F. unfold with_effect. by destruct (undo_step_operation x).
  - assert (terminal (with_effect x (with_terminal z p)) = Some z) as Hz
      by (unfold with_effect; by destruct (undo_step_operation x)).
    rewrite Hz in T. destruct (terminal p') as [z'|]; [|naive_solver]. right. naive_solver.
  - rewrite Ef. split; [|naive_solver]. intros (_ & H1 & H2). exfalso. unfold with_effect in *.
    destruct (undo_step_operation x); simpl in *; [destruct (decide _) as [Hin|]|].
    + rewrite H2 in Hin. by apply elem_of_nil in Hin.
    + by destruct (transitioned p).
    + by destruct (deleted p).
Qed.

(** What the variables are when the run ended at [x]. *)
Definition ended_progress (x : UndoPlanStep) (o : option JournaledMutationStep) (p : UndoProgress) : UndoProgress :=
  match o with
  | None => with_preparation_failure (preparation_message x.(undo_step_ref)) p
  | Some z => if bool_decide (z.2.(step_status) = StepSucceeded) then with_effect x (with_terminal z p)
              else with_terminal z p
  end.

Lemma run_undo_exact todo p s p' s' :
  run_undo clockify operationId authorizeWrite todo p s = (inr p', s') →
  ∃ pre post sm pm, todo = pre ++ post ∧ undone_run pre s sm ∧ went pre p pm ∧
    match post with
    | [] => p' = pm ∧ s' = sm
    | x :: _ => ∃ o, undo_ends x sm o s' ∧ p' = ended_progress x o pm
    end.
Proof.
  revert p s. induction todo as [|x todo IH]; intros p s H; simpl in H.
  { injection H as <- <-. exists [], [], s, p. split_and!; [done|constructor|apply went_refl|done..]. }
  unfold ebind at 1, eattempt in H. destruct (prepare_body clockify x s) as [[e|body] s1] eqn:Hb.
  { injection H as <- <-. exists [], (x :: todo), s, p. split_and!; [done|constructor|apply went_refl|].
    exists None. split; [by econstructor|done]. }
  apply ebind_ok in H as (z & s2 & Hz & H).
  destruct (bool_decide (z.2.(step_status) = StepSucceeded)) eqn:Hst; simpl in H.
  - apply bool_decide_eq_true in Hst. destruct (isJournalDegradedStep z) eqn:Hd.
    + injection H as <- <-. exists [], (x :: todo), s, p. split_and!; [done|constructor|apply went_refl|].
      exists (Some z). split; [by econstructor; eauto|]. unfold ended_progress. by rewrite bool_decide_eq_true_2.
    + apply IH in H as (pre & post & sm & pm & -> & Hrun & Hw & Hend). exists (x :: pre), post, sm, pm.
      split_and!; [done|by econstructor|by eapply went_cons|done].
  - injection H as <- <-. apply bool_decide_eq_false in Hst. exists [], (x :: todo), s, p.
    split_and!; [done|constructor|apply went_refl|]. exists (Some z). split; [by econstructor; eauto|].
    unfold ended_progress. by rewrite bool_decide_eq_false_2.
Qed.
End Run.

(** ** The result of an undo *)

Lemma distinct_elem {A} `{EqDecision A} (l acc : list A) x :
  x ∈ foldl (λ acc x, if decide (x ∈ acc) then acc else acc ++ [x]) acc l ↔ x ∈ acc ∨ x ∈ l.
Proof.
  revert acc. induction l as [|y l IH]; intros acc; simpl; [set_solver|]. rewrite IH.
  destruct (decide (y ∈ acc)); set_solver.
Qed.

Lemma none_denied policy refs : firstDeniedGroup policy refs = None →
  ∀ r g, r ∈ refs → reversible_group r = Some g → canWrite policy g = true.
Proof.
  unfold firstDeniedGroup. intros Hn r g Hr Hg. apply (find_none _ _) with (x := g) in Hn.
  - by apply negb_false_iff.
  - apply base.list_elem_of_In, distinct_elem. right. apply list_elem_of_omap. eauto.
Qed.

Lemma matched_plan plan specs : plan_matches plan specs = true →
  scope_step <$> SafetyLimits.steps plan = scope_step <$> (undo_plan_step <$> specs).
Proof.
  unfold plan_matches. intros [Hl Hf]%andb_prop. apply bool_decide_eq_true in Hl.
  revert specs Hl Hf. generalize (SafetyLimits.steps plan) as l.
  induction l as [|y l IH]; intros [|x specs] Hl Hf; simplify_eq/=; [done|].
  apply andb_prop in Hf as [[Hid Hk]%andb_prop Hf]. apply bool_decide_eq_true in Hid.
  csimpl. f_equal; [|by apply IH]. unfold scope_step. simpl. rewrite Hid. by destruct (SafetyLimits.plan_step_kind y).
Qed.

(** What is reported when the run ended at [x] after the clean steps [pre]. *)
Definition reported (refs : list EntityRef) (pre : list UndoPlanStep) (x : UndoPlanStep)
    (o : option JournaledMutationStep) (res : DurableUndoResult) : Prop :=
  let stopped := if bool_decide (pre = []) then failed else partially_undone in
  let left := remainingAfter refs (deleted_by pre) in
  match (λ z : JournaledMutationStep, z.2.(step_status)) <$> o with
  | Some StepSucceeded =>
      let left := remainingAfter refs (deleted_by (pre ++ [x])) in
      res.(remaining) = left ∧ res.(undo_outcome) = if bool_decide (left = []) then undone else partially_undone
  | Some StepOutcomeUnknown => res.(undo_outcome) = outcome_unknown_undo ∧ res.(remaining) = left
  | _ => res.(undo_outcome) = stopped ∧ res.(remaining) = left
  end.

Section Report.
Context {S : Type} `{!MutationHost S, !MutationStepJournal S} (clockify : UndoClient (S := S)).
Context (operationId : jstr) (authorizeWrite : jstr → E S (option jsval)) (workspaceId : jstr) (refs : list EntityRef).

Lemma went_known pre pm : went pre no_progress pm →
  bool_decide (pm.(deleted) = [] ∧ pm.(transitioned) = []) = bool_decide (pre = []).
Proof. intros [_ _ _ Hk]. apply bool_decide_ext. naive_solver. Qed.

Lemma effect_deleted x p : (with_effect x p).(deleted) = p.(deleted) ++ deleted_by [x].
Proof. unfold with_effect, deleted_by. csimpl. destruct (undo_step_operation x); simpl; [by rewrite app_nil_r|done]. Qed.
Lemma effect_terminal x p : (with_effect x p).(terminal) = p.(terminal).
Proof. unfold with_effect. by destruct (undo_step_operation x). Qed.
Lemma effect_failure x p : (with_effect x p).(preparationFailure) = p.(preparationFailure).
Proof. unfold with_effect. by destruct (undo_step_operation x). Qed.

(** The report reads the variables one way whatever the receipt. *)
Lemma report_status p :
  let res := undo_report workspaceId refs p in
  let rest := remainingAfter refs p.(deleted) in
  let stopped := if bool_decide (p.(deleted) = [] ∧ p.(transitioned) = []) then failed else partially_undone in
  match p.(preparationFailure), (λ z : JournaledMutationStep, (z.2.(step_status), isJournalDegradedStep z)) <$> p.(terminal) with
  | _, Some (StepOutcomeUnknown, _) => res.(undo_outcome) = outcome_unknown_undo ∧ res.(remaining) = rest
  | Some _, _ => res.(undo_outcome) = stopped ∧ res.(remaining) = rest
  | None, Some (StepSucceeded, true) =>
      res.(undo_outcome) = (if bool_decide (rest = []) then undone else partially_undone) ∧ res.(remaining) = rest
  | None, (None | Some (StepSucceeded, false)) => res.(undo_outcome) = undone ∧ res.(remaining) = []
  | None, Some _ => res.(undo_outcome) = stopped ∧ res.(remaining) = rest
  end.
Proof.
  unfold undo_report. cbv zeta. generalize (remainingAfter refs p.(deleted)) as rest. intros rest.
  destruct (bool_decide (deleted p = [] ∧ transitioned p = [])), (preparationFailure p), (terminal p) as [z|];
    cbn [fmap option_fmap option_map]; try done;
    (destruct (step_status z.2); try done); destruct (isJournalDegradedStep z); try done; by destruct rest.
Qed.

Lemma report_ended pre x o sm s2 pm :
  went pre no_progress pm → undo_ends clockify operationId authorizeWrite x sm o s2 →
  reported refs pre x o (undo_report workspaceId refs (ended_progress x o pm)).
Proof.
  intros Hw Hend. pose proof (went_known _ _ Hw) as Hk. destruct Hw as [Hd Hf Ht _]. simpl in *.
  unfold reported. pose proof (report_status (ended_progress x o pm)) as Hr. revert Hr. cbv zeta.
  destruct Hend as [e s1 _|body s1 z s2 _ _ Hz]; cbn [ended_progress fmap option_fmap option_map].
  - cbn [with_preparation_failure preparationFailure terminal deleted transitioned]. rewrite Hk, Hd.
    destruct (terminal pm) as [z|]; cbn [fmap option_fmap option_map]; [|done].
    destruct Ht as [[? ?]|[-> _]]; done.
  - destruct (bool_decide (step_status z.2 = StepSucceeded)) eqn:Hb.
    + apply bool_decide_eq_true in Hb. destruct Hz as [Hz|Hz]; [done|].
      rewrite effect_failure, effect_terminal, effect_deleted. cbn [with_terminal preparationFailure terminal deleted].
      cbn [fmap option_fmap option_map]. rewrite Hf, Hb, Hz, Hd, deleted_by_app. naive_solver.
    + apply bool_decide_eq_false in Hb. cbn [with_terminal preparationFailure terminal deleted transitioned].
      cbn [fmap option_fmap option_map]. rewrite Hf, Hk, Hd. by destruct (step_status z.2).
Qed.

(** Clean steps to the end are the whole undo. *)
Lemma report_clean pre pm : went pre no_progress pm → pre ≠ [] →
  let res := undo_report workspaceId refs pm in res.(undo_outcome) = undone ∧ res.(remaining) = [].
Proof.
  intros [_ Hf Ht _] Hne. pose proof (report_status pm) as Hr. revert Hr. cbv zeta. rewrite Hf. simpl in *.
  destruct (terminal pm) as [z|]; [|naive_solver]. destruct Ht as [[? ?]|[Hs Hd]]; [done|].
  cbn [fmap option_fmap option_map]. by rewrite Hs, Hd.
Qed.
End Report.

Section Result.
Context {S : Type} `{!MutationHost S} (clockify : UndoClient (S := S)).

(** The result of an undo.  Nothing is sent for an empty undo or one the policy denies
    in any group; otherwise the steps of the plan are executed in order under a scope of
    exactly that plan, and the result says how far they went: all of them cleanly, and the
    whole is undone with nothing remaining; or a clean prefix, and the one step after it
    that could not be prepared, failed, has an unknown outcome or succeeded with a degraded
    journal, no later step being executed, and what remains is everything but the entities
    deleted so far. *)
Theorem undo_exact (ctx : CommitContext) refs operationId plan s res s' :
  reverseCreationDurably clockify ctx refs operationId plan s = (inr res, s') →
  ((refs = [] ∨ is_Some (firstDeniedGroup ctx.(policy) refs)) ∧ s' = s ∧
   res.(undo_outcome) = failed ∧ res.(remaining) = refs) ∨
  ((∀ r g, r ∈ refs → reversible_group r = Some g → canWrite ctx.(policy) g = true) ∧
   ∃ (journal : MutationStepJournal S) pre post sa sm,
     ctx.(mutationJournal) = Some journal ∧ journal_operationId = operationId ∧ undoPlanSteps refs = pre ++ post ∧
     scope_of sa = Some (new_scope (scope_step <$> (undo_plan_step <$> undoPlanSteps refs))) ∧
     undone_run clockify operationId ctx.(authorizeWrite) pre sa sm ∧
     match post with
     | [] => res.(undo_outcome) = undone ∧ res.(remaining) = []
     | x :: _ => ∃ o s2, undo_ends clockify operationId ctx.(authorizeWrite) x sm o s2 ∧ reported refs pre x o res
     end).
Proof.
  unfold reverseCreationDurably. case_bool_decide as Hnil.
  { intros [= <- <-]. left. subst. auto. }
  destruct (firstDeniedGroup (policy ctx) refs) as [g|] eqn:Hg.
  { intros [= <- <-]. left. eauto. }
  destruct (mutationJournal ctx) as [j|] eqn:Hj; [|done]. case_bool_decide as Hop; [|done].
  destruct (plan_matches plan (undoPlanSteps refs)) eqn:Hm; [|done].
  intros (p & s1 & Hp & Hr)%ebind_ok. injection Hr as <- <-. unfold undo_scope in Hp.
  apply ebind_ok in Hp as ([p1 c] & s2 & Hsc & Hp). injection Hp as <- <-.
  apply scope_ran in Hsc as (sa & sb & Hsa & (s3 & Hrun & _)%complete_run_ok).
  apply ebind_ok in Hrun as (p2 & s4 & Hrun & (c2 & s5 & _ & Hc)%ebind_ok). injection Hc as -> <- <-.
  apply run_undo_exact in Hrun as (pre & post & sm & pm & Hsplit & Hclean & Hw & Hend).
  right. split; [by apply none_denied|]. exists j, pre, post, sa, sm.
  split; [done|]. split; [done|].
  split; [done|]. split; [by rewrite Hsa, (matched_plan _ _ Hm)|]. split; [done|]. destruct post as [|x post].
  - destruct Hend as [-> _]. apply (report_clean _ _ pre); [done|]. intros ->.
    rewrite app_nil_r in Hsplit. apply plan_nil, (f_equal length) in Hsplit. rewrite length_reverse in Hsplit.
    by apply length_zero_iff_nil in Hsplit.
  - destruct Hend as (o & Hend & ->). exists o, s4. split; [done|]. by eapply report_ended.
Qed.
End Result.
