(* ===== verification/Execute.v ===== *)
(** * Executing a proposed action

    [harness/actions.ts], the safety boundary: the model proposes an action with raw
    arguments, and [executeAction] decides.  A read runs, a risky write only prepares a
    preview, and a safe write is executed behind its gates; the v2 path
    [executeV2ApiAction] never executes anything, and [executeTrustedDirectV2SafeWrite]
    executes reviewed safe writes of trusted origins.  The schema library, the handlers
    and the catalog are arguments. *)
From S2P Require Import Prelude Js SafeJson Policy Plan Effects PlanScope Receipts Workflow Commit.
From S2P Require Db SafetyLimits WriteAuthority Discriminators.
Import Permissions Risk.
Open Scope Z_scope.
#[local] Arguments u : simpl never.
#[local] Arguments validateAssistantPrimaryMutationPlan : simpl never.
#[local] Arguments WriteAuthority.validateWriteAuthorityOperation : simpl never.

Section Execute.
Context {S : Type} `{!MutationHost S}.

(** ** Action definitions *)

(** A preparation's value, and the plan draft it carries when it is a prepared write. *)
Record Preparation := { preparation : jsval; preparation_plan : SafetyLimits.ExternalMutationPlanDraft }.

Inductive ActionImpl : Type :=
| ReadAction (handler : CommitContext (S := S) → jsval → E S ActionResult)
| SafeWriteAction
    (prepareSafeWrite : CommitContext (S := S) → jsval → E S (option Preparation))
    (executeSafeWrite : CommitContext (S := S) → jsval → SafetyLimits.ExternalMutationPlan → E S jsval)
| RiskyWriteAction (handler : CommitContext (S := S) → jsval → E S ActionResult).

Record ActionDefinition := {
  act_name : string;
  act_description : jstr;
  act_group : FeatureGroup;
  act_risks : list RiskLabel;
  act_resolve : option (jsval → FeatureGroup);
  act_safeParse : jsval → jstr + jsval;          (** the schema: formatted issues, or the arguments *)
  act_unknown : jsval → list jstr;               (** [unknownArgumentPaths] of the schema *)
  act_contract : option DurableMutationContract;
  act_authority : option WriteAuthority.WriteAuthorityMetadata;
  act_impl : ActionImpl;
}.

Definition is_read (a : ActionDefinition) : bool := match a.(act_impl) with ReadAction _ => true | _ => false end.

(** [operationJournal] of the context; a preparation that fails after its row was written
    throws the id with the error. *)
Record OperationJournal := {
  oj_prepare : jstr → jsval → option SafetyLimits.ExternalMutationPlan → E S ((jstr * failure) + jstr);
  oj_markExecuting : jstr → E S unit;
  oj_scope : jstr → MutationStepJournal S;
  oj_settle : jstr → string → ActionResult → E S unit;
}.

Record ActionContext := {
  act_ctx : CommitContext (S := S);
  operationJournal : option OperationJournal;
  authorizeWriteArguments : option (jstr → jsval → WriteAuthority.WriteAuthorityMetadata → E S (option jsval));
}.

Definition with_journal (j : MutationStepJournal S) (c : CommitContext (S := S)) : CommitContext (S := S) :=
  {| workspaceId := c.(workspaceId); adminUserId := c.(adminUserId); policy := c.(policy);
     authorizeWrite := c.(authorizeWrite); mutationJournal := Some j; idempotency := c.(idempotency) |}.

(** ** Receipts of a refusal *)

Definition refused (receipt : jsval) : E S ActionResult := eret (RReceipt receipt).

(** The suggestions come from [suggestActionNames]. *)
Definition unknown_action (name : jstr) (suggestions : list jstr) : jsval :=
  errorReceipt name (u "unknown_action") (u "Unknown action: " ++ name)
    (recovery_hint
       (match suggestions with
        | [] => u "Use only the actions in the catalog."
        | _ => u "Did you mean: " ++ join (u ", ") suggestions ++ u "? Use only catalog action names."
        end) (match suggestions with [] => false | _ => true end)).

Definition unknown_arguments (name : jstr) (paths : list jstr) : jsval :=
  errorReceipt name (u "invalid_args")
    (u "Unknown argument" ++ (if (length paths =? 1)%nat then [] else u "s") ++ u ": " ++ join (u ", ") paths ++ u ".")
    (recovery_hint (u "Remove unknown fields and try again.") true).

Definition invalid_args (name issues : jstr) : jsval :=
  errorReceipt name (u "invalid_args") (if bool_decide (issues = []) then u "Invalid arguments." else issues)
    (recovery_hint (u "Fix the arguments and try again.") true).

Definition policyDenied (name : jstr) (group : FeatureGroup) (mode : string) : jsval :=
  errorReceipt name (u "policy_denied") (accessDeniedMessage (group_name group) mode)
    (recovery_hint (u "Ask me to enable " ++ u mode ++ u " access for " ++ u (group_name group) ++
                    u ", or request a different action.") true).

Definition unclassifiedAction (name : jstr) : jsval :=
  error_receipt name "unclassified_action"
    "Action kind and risk classification are inconsistent; refusing to execute."
    "This action needs a valid discriminated risk classification." false.

Definition invalidSafeWritePreparation (name : jstr) : jsval :=
  error_receipt name "invalid_safe_write_preparation" "Safe-write preparation returned an invalid result."
    "Correct the action's prepare contract before retrying." false.

Definition invalidWriteAuthorityResult (name detail : jstr) : jsval :=
  errorReceipt name (u "intent_capability_denied")
    (u "The normalized operation exceeds this action's reviewed write authority.")
    (recovery_hint (u "Create a fresh request after the action contract is corrected (" ++ detail ++ u ").") false).

Definition missing_authority (name : jstr) : jsval :=
  error_receipt name "intent_capability_denied" "This write has no declared authority contract."
    "Refresh the action catalog before retrying." false.

Definition risky_without_confirmation (name : jstr) : jsval :=
  error_receipt name "risky_without_confirmation" "Risky action attempted to execute without confirmation."
    "This is a bug; the action was blocked." false.

(** ** Gates *)

Definition group_of (a : ActionDefinition) (args : jsval) : FeatureGroup :=
  match a.(act_resolve) with Some f => f args | None => a.(act_group) end.

Definition kindMatchesRisk (a : ActionDefinition) : bool :=
  match a.(act_impl) with
  | ReadAction _ => negb (bool_decide (a.(act_risks) = [])) && forallb (λ r, bool_decide (r = Read)) a.(act_risks)
  | SafeWriteAction _ _ => isSafeWrite a.(act_risks)
  | RiskyWriteAction _ => requiresConfirmation a.(act_risks)
  end.

Definition policy_gate (a : ActionDefinition) (p : AdminPolicy) (args : jsval) : option jsval :=
  let group := group_of a args in
  if bool_decide (PermissionChange ∈ a.(act_risks)) then None
  else if is_read a then
    if canRead p group then None else Some (policyDenied (u a.(act_name)) group "read")
  else if canWrite p group then None else Some (policyDenied (u a.(act_name)) group "write").

Definition bound_plan (a : ActionDefinition) (operation : jsval) (draft : SafetyLimits.ExternalMutationPlanDraft)
    : SafetyLimits.ExternalMutationPlan :=
  SafetyLimits.bindMutationPlanHostCalls a.(act_name) operation draft.

Definition authority_error (a : ActionDefinition) (operation : jsval)
    (plan : SafetyLimits.ExternalMutationPlan) : option jsval :=
  invalidWriteAuthorityResult (u a.(act_name)) <$>
    WriteAuthority.validateWriteAuthorityOperation a.(act_authority) operation (Some plan).

(** The plan of a preview, bound again. *)
Definition rebound (a : ActionDefinition) (op : ConfirmableOperation) (plan : SafetyLimits.ExternalMutationPlan)
    : ConfirmableOperation :=
  {| op_operationId := op.(op_operationId); op_actionName := op.(op_actionName);
     op_installationGeneration := op.(op_installationGeneration); op_featureGroup := op.(op_featureGroup);
     op_risks := op.(op_risks); op_payload := op.(op_payload);
     op_mutationPlan := Some (bound_plan a op.(op_payload)
       {| SafetyLimits.draft_mode := SafetyLimits.mode plan;
          SafetyLimits.draft_maxHostCalls := Some (SafetyLimits.maxHostCalls plan);
          SafetyLimits.draft_steps := SafetyLimits.steps plan |});
     op_targetSnapshots := op.(op_targetSnapshots) |}.

Definition receipt_succeeded (r : ActionResult) : bool :=
  match r with RReceipt receipt => receipt_ok receipt | _ => false end.

(** What a preparation stands for. *)
Inductive prepared_case : Type :=
| CaseStop (r : ActionResult)
| CaseNothing
| CasePrepared (operation : jsval) (plan : SafetyLimits.ExternalMutationPlan).

Definition prepared_case_of (a : ActionDefinition) (p : option Preparation) : prepared_case :=
  match p with
  | None => CaseNothing
  | Some p =>
      let v := p.(preparation) in
      if isSafeWriteClarification v then CaseStop (clarifyResult v)
      else if isSafeWriteNoop v then CaseStop (RReceipt (prop (u "receipt") v))
      else if negb (isPreparedSafeWrite v)
      then CaseStop (RReceipt (invalidSafeWritePreparation (u a.(act_name))))
      else let operation := prop (u "operation") v in
           CasePrepared operation (bound_plan a operation p.(preparation_plan))
  end.

(** ** Executing a safe write *)

(** The executor, under the plan's scope when a journal is present. *)
Definition run_safe (a : ActionDefinition) (execute : CommitContext (S := S) → jsval →
      SafetyLimits.ExternalMutationPlan → E S jsval)
    (auth ctx : CommitContext (S := S)) (operation : jsval) (plan : SafetyLimits.ExternalMutationPlan) : E S jsval :=
  match ctx.(mutationJournal) with
  | Some journal =>
      withMutationPlanScope (commit_hooks (auth.(authorizeWrite) (u a.(act_name))) false)
        (SafetyLimits.maxHostCalls plan) (scope_step <$> SafetyLimits.steps plan)
        commitResultRequiresComplete (execute ctx operation plan)
  | None => execute ctx operation plan
  end.

Definition result_of (v : jsval) : ActionResult := if isPartialCommitResult v then RPartial v else RReceipt v.

Definition settled_status (r : ActionResult) : string :=
  match r with
  | RPartial _ => "partial"
  | RReceipt receipt =>
      if receipt_ok receipt then "succeeded"
      else if bool_decide (result_code receipt = Some (u "commit_outcome_unknown")) then "outcome_unknown"
      else "definitive_failed"
  | _ => "definitive_failed"
  end.

Definition settleImmediateOperation (ctx : ActionContext) (operationId : option jstr) (r : ActionResult)
    : E S (ActionResult * option jstr) :=
  match operationId, ctx.(operationJournal) with
  | Some (c :: id), Some j =>
      let* _ := etry (j.(oj_settle) (c :: id) (settled_status r) r) (λ _, eret tt) in
      eret (r, Some (c :: id))
  | _, _ => eret (r, None)
  end.

Definition thrown_result (a : ActionDefinition) (e : failure) : ActionResult :=
  RReceipt (writeFailureReceipt (u a.(act_name)) e).

(** The part between the last gate and the settlement: [todo] is the prepared operation
    and its plan, [args] the parsed arguments. *)
Definition immediate (a : ActionDefinition) execute (ctx : ActionContext) (args : jsval)
    (todo : option (jsval * SafetyLimits.ExternalMutationPlan)) : E S (ActionResult * option jstr) :=
  let run (c : CommitContext (S := S)) : E S ActionResult :=
    match todo with
    | None => eret (RReceipt (invalidSafeWritePreparation (u a.(act_name))))
    | Some (operation, plan) =>
        let* v := run_safe a execute ctx.(act_ctx) c operation plan in eret (result_of v)
    end in
  let finish (id : option jstr) (out : failure + ActionResult) :=
    settleImmediateOperation ctx id (match out with inr r => r | inl e => thrown_result a e end) in
  match ctx.(operationJournal) with
  | None => let* out := eattempt (run ctx.(act_ctx)) in finish None out
  | Some j =>
      let* started := eattempt (j.(oj_prepare) (u a.(act_name)) (from_option fst args todo) (snd <$> todo)) in
      match started with
      | inl e => finish None (inl e)
      | inr (inl (id, e)) => finish (Some id) (inl e)
      | inr (inr id) =>
          let* out := eattempt (let* _ := j.(oj_markExecuting) id in
                                run (if bool_decide (id = []) then ctx.(act_ctx)
                                     else with_journal (j.(oj_scope) id) ctx.(act_ctx))) in
          finish (Some id) out
      end
  end.

Definition unjournaled (c : E S ActionResult) : E S (ActionResult * option jstr) := let* r := c in eret (r, None).

Definition execute_safe_write (a : ActionDefinition) prepare execute (ctx : ActionContext) (args : jsval)
    : E S (ActionResult * option jstr) :=
  let* prepared := eattempt (prepare ctx.(act_ctx) args) in
  match prepared with
  | inl e => eret (thrown_result a e, None)
  | inr p =>
      let go todo :=
        let* authorityError := ctx.(act_ctx).(authorizeWrite) (u a.(act_name)) in
        match authorityError with
        | Some denied => eret (RReceipt denied, None)
        | None => immediate a execute ctx args todo
        end in
      match prepared_case_of a p with
      | CaseStop r => eret (r, None)
      | CaseNothing => go None
      | CasePrepared operation plan =>
          match authority_error a operation plan with
          | Some denied => eret (RReceipt denied, None)
          | None => go (Some (operation, plan))
          end
      end
  end.

(** ** A risky write is only previewed *)

Definition checked_preview (a : ActionDefinition) (single_primary : bool) (op : ConfirmableOperation)
    : jsval + ConfirmableOperation :=
  match op.(op_mutationPlan) with
  | None => inr op
  | Some plan =>
      let op' := rebound a op plan in
      let plan' := default plan op'.(op_mutationPlan) in
      match (if single_primary
             then invalidWriteAuthorityResult (u a.(act_name)) <$>
                    validateAssistantPrimaryMutationPlan a.(act_contract) (Some plan')
             else None) with
      | Some denied => inl denied
      | None => match authority_error a op'.(op_payload) plan' with Some denied => inl denied | None => inr op' end
      end
  end.

Definition preview_risky (a : ActionDefinition) (r : ActionResult) : ActionResult :=
  if receipt_succeeded r then RReceipt (risky_without_confirmation (u a.(act_name)))
  else match r with
  | RPreview preview op =>
      if starts_with (u "clockify_") (u a.(act_name)) then
        match checked_preview a false op with
        | inl denied => RReceipt denied
        | inr op' => RPreview preview op'
        end
      else r
  | _ => r
  end.

(** ** The executor *)

(** The raw-argument gate of a write. *)
Definition arguments_gate (a : ActionDefinition) (ctx : ActionContext) (rawArgs : jsval) : E S (option jsval) :=
  match ctx.(authorizeWriteArguments) with
  | Some check =>
      if is_read a then eret None
      else match a.(act_authority) with
      | None => eret (Some (missing_authority (u a.(act_name))))
      | Some authority => check (u a.(act_name)) rawArgs authority
      end
  | None => eret None
  end.

Definition executeAction (suggestions : list jstr) (found : option ActionDefinition) (actionName : jstr)
    (rawArgs : jsval) (ctx : ActionContext) : E S (ActionResult * option jstr) :=
  match found with
  | None => unjournaled (refused (unknown_action actionName suggestions))
  | Some a =>
      let name := u a.(act_name) in
      if bool_decide (a.(act_unknown) rawArgs ≠ [])
      then unjournaled (refused (unknown_arguments name (a.(act_unknown) rawArgs)))
      else
        let* denied := arguments_gate a ctx rawArgs in
        match denied with
        | Some denied => unjournaled (refused denied)
        | None =>
            match a.(act_safeParse) rawArgs with
            | inl issues => unjournaled (refused (invalid_args name issues))
            | inr args =>
                if negb (kindMatchesRisk a) then unjournaled (refused (unclassifiedAction name))
                else match policy_gate a ctx.(act_ctx).(policy) args with
                | Some denied => unjournaled (refused denied)
                | None =>
                    match a.(act_impl) with
                    | RiskyWriteAction handler =>
                        unjournaled (let* r := handler ctx.(act_ctx) args in eret (preview_risky a r))
                    | ReadAction handler => unjournaled (handler ctx.(act_ctx) args)
                    | SafeWriteAction prepare execute => execute_safe_write a prepare execute ctx args
                    end
                end
            end
        end
  end.

(** ** The v2 paths *)

Definition validateV2RawActionArguments (a : ActionDefinition) (rawArgs : jsval) : option jsval :=
  if is_record rawArgs && has_own "provenance" rawArgs
  then Some (error_receipt (u a.(act_name)) "invalid_args" "Model-supplied provenance is not allowed."
               "Remove the provenance field and try again." false)
  else if bool_decide (a.(act_unknown) rawArgs ≠ [])
  then Some (unknown_arguments (u a.(act_name)) (a.(act_unknown) rawArgs))
  else None.

Definition with_generation (generation : option Z) (op : ConfirmableOperation) : ConfirmableOperation :=
  {| op_operationId := op.(op_operationId); op_actionName := op.(op_actionName);
     op_installationGeneration := match generation with Some g => Some g | None => op.(op_installationGeneration) end;
     op_featureGroup := op.(op_featureGroup); op_risks := op.(op_risks); op_payload := op.(op_payload);
     op_mutationPlan := op.(op_mutationPlan); op_targetSnapshots := op.(op_targetSnapshots) |}.

(** [description.split(".")[0] || name] *)
Definition action_label (a : ActionDefinition) : jstr :=
  match WriteAuthority.segments_of a.(act_description) [] with
  | (c :: l) :: _ => c :: l
  | _ => u a.(act_name)
  end.

Definition risk_name (r : RiskLabel) : string :=
  match r with
  | Read => "read" | SafeWrite => "safe_write" | HighRiskWrite => "high_risk_write"
  | Destructive => "destructive" | Billing => "billing" | Payment => "payment"
  | PermissionChange => "permission_change" | ExternalSideEffect => "external_side_effect" | Bulk => "bulk"
  end.

(** [buildPreparedSafeWritePreview] of [harness/durable-safe-write.ts]; [uuid] is the fresh id. *)
Definition buildPreparedSafeWritePreview (a : ActionDefinition) (operation : jsval)
    (plan : SafetyLimits.ExternalMutationPlan) (group : FeatureGroup) (generation : option Z) (uuid : jstr)
    : ActionResult :=
  RPreview
    (VObj [(u "actionLabel", VStr (action_label a)); (u "featureGroup", str (group_name group));
           (u "riskLabels", VArr ((λ r, str (risk_name r)) <$> a.(act_risks))); (u "targets", VArr []);
           (u "expectedChanges", VArr [str "Apply the prepared change after confirmation."]);
           (u "reversibility", str (if bool_decide (Destructive ∈ a.(act_risks))
              then "This change is destructive and cannot be undone automatically."
              else "Creation may be reversible while the entity still exists."));
           (u "warnings", VArr [])])
    {| op_operationId := uuid; op_actionName := u a.(act_name); op_installationGeneration := generation;
       op_featureGroup := group; op_risks := a.(act_risks); op_payload := operation;
       op_mutationPlan := Some plan; op_targetSnapshots := VArr [] |}.

Definition invalid_origin (name : jstr) (message hint : string) : jsval :=
  error_receipt name "invalid_origin" message hint false.

(** A prepared safe write as a preview. *)
Definition preview_safe (a : ActionDefinition) (operation : jsval) (plan : SafetyLimits.ExternalMutationPlan)
    (group : FeatureGroup) (generation : option Z) (uuid : jstr) : ActionResult :=
  match validateAssistantPrimaryMutationPlan a.(act_contract) (Some plan) with
  | Some e => RReceipt (invalidWriteAuthorityResult (u a.(act_name)) e)
  | None =>
      match authority_error a operation plan with
      | Some denied => RReceipt denied
      | None => buildPreparedSafeWritePreview a operation plan group generation uuid
      end
  end.

Definition preview_v2 (a : ActionDefinition) (generation : option Z) (r : ActionResult) : ActionResult :=
  if receipt_succeeded r then RReceipt (risky_without_confirmation (u a.(act_name)))
  else match r with
  | RPreview preview op =>
      match checked_preview a true op with
      | inl denied => RReceipt denied
      | inr op' => RPreview preview (with_generation generation op')
      end
  | _ => r
  end.

Definition executeV2ApiAction (suggestions : list jstr) (found : option ActionDefinition)
    (origin registryId actionName : jstr) (rawArgs : jsval) (generation : option Z) (uuid : jstr)
    (ctx : CommitContext (S := S)) : E S ActionResult :=
  if negb (bool_decide (origin = u "assistant"))
  then refused (invalid_origin actionName "Only assistant origin may use the v2 preparation path."
                  "Use a trusted origin for direct execution.")
  else if negb (bool_decide (registryId = u "v2-api"))
  then refused (error_receipt actionName "invalid_registry" "The v2 preparation path requires the v2-api registry."
                  "Load the current model catalog before retrying." false)
  else match found with
  | None => refused (unknown_action actionName suggestions)
  | Some a =>
      let name := u a.(act_name) in
      match validateV2RawActionArguments a rawArgs with
      | Some denied => refused denied
      | None =>
          match a.(act_safeParse) rawArgs with
          | inl issues => refused (invalid_args name issues)
          | inr args =>
              let group := group_of a args in
              if negb (kindMatchesRisk a) || is_read a then refused (unclassifiedAction name)
              else match policy_gate a ctx.(policy) args with
              | Some denied => refused denied
              | None =>
                  match a.(act_impl) with
                  | SafeWriteAction prepare _ =>
                      let* prepared := eattempt (prepare ctx args) in
                      match prepared with
                      | inl e => eret (thrown_result a e)
                      | inr p =>
                          match prepared_case_of a p with
                          | CaseStop r => eret r
                          | CaseNothing => refused (invalidSafeWritePreparation name)
                          | CasePrepared operation plan =>
                              eret (preview_safe a operation plan group generation uuid)
                          end
                      end
                  | RiskyWriteAction handler | ReadAction handler =>
                      let* r := handler ctx args in eret (preview_v2 a generation r)
                  end
              end
          end
      end
  end.

(** Trusted origins execute reviewed safe writes directly. *)
Definition executeTrustedDirectV2SafeWrite (found : option ActionDefinition)
    (origin registryId actionName : jstr) (rawArgs : jsval) (ctx : CommitContext (S := S)) : E S ActionResult :=
  if negb (bool_decide (origin ∈ u <$> Discriminators.TRUSTED_ORIGINS))
  then refused (invalid_origin actionName
    "Trusted direct execution requires an explicit direct_ui, system, or live_test origin."
    "Pass the caller origin explicitly.")
  else if negb (bool_decide (registryId ∈ u <$> ["v2-api"; "v2-local"]))
  then refused (error_receipt actionName "invalid_registry"
    "Trusted direct execution requires the v2-api or v2-local registry."
    "Load the current registry before retrying." false)
  else match found with
  | Some ({| act_impl := SafeWriteAction prepare execute |} as a) =>
      let name := u a.(act_name) in
      match validateV2RawActionArguments a rawArgs with
      | Some denied => refused denied
      | None =>
          match a.(act_safeParse) rawArgs with
          | inl issues => refused (invalid_args name issues)
          | inr args =>
              if negb (canWrite ctx.(policy) (group_of a args))
              then refused (policyDenied name (group_of a args) "write")
              else
                let* prepared := eattempt (prepare ctx args) in
                match prepared with
                | inl e => eret (thrown_result a e)
                | inr p =>
                    match prepared_case_of a p with
                    | CaseStop r => eret r
                    | CaseNothing => refused (invalidSafeWritePreparation name)
                    | CasePrepared operation plan =>
                        match validateAssistantPrimaryMutationPlan a.(act_contract) (Some plan) with
                        | Some e => refused (invalidWriteAuthorityResult name e)
                        | None =>
                            match authority_error a operation plan with
                            | Some denied => refused denied
                            | None =>
                                let* authorityError := ctx.(authorizeWrite) name in
                                match authorityError with
                                | Some denied => refused denied
                                | None => let* v := run_safe a execute ctx ctx operation plan in eret (result_of v)
                                end
                            end
                        end
                    end
                end
          end
      end
  | _ => refused (error_receipt actionName "incompatible_action"
           "Only reviewed safe writes may execute through the trusted direct path."
           "Use preview confirmation for risky writes." false)
  end.

(** A persisted v2 preview is executed from what was stored only.  [risky] is what
    [commitConfirmedOperation] finds in the catalog under the name. *)
Definition incompatible_executor (name : jstr) (message : string) : jsval :=
  error_receipt name "incompatible_executor" message "Create a fresh preview." false.

Definition executeStoredV2Write (sha256 : jstr → jstr) (found : option ActionDefinition)
    (risky : option (RiskyAction (S := S))) (ctx : CommitContext (S := S)) (op : ConfirmableOperation)
    (plan : SafetyLimits.ExternalMutationPlan) (executorKind : jstr) : E S jsval :=
  let name := op.(op_actionName) in
  match found with
  | None =>
      eret (errorReceipt name (u "unknown_action") (u "No committable action: " ++ name)
        (recovery_hint (u "This preview can no longer be executed.") false))
  | Some a =>
      if bool_decide (executorKind = u "prepared_safe_write") then
        match a.(act_impl) with
        | SafeWriteAction _ execute =>
            if bool_decide (is_Some (mutationPlanContractError a.(act_contract) (Some (plan_of plan))))
            then eret (error_receipt name "invalid_mutation_plan"
              "The stored host mutation plan is incompatible with this action's durable contract."
              "Create a fresh preview." false)
            else if bool_decide (is_Some (WriteAuthority.validateWriteAuthorityOperation a.(act_authority)
                                            op.(op_payload) (Some plan)))
            then eret (error_receipt name "intent_capability_denied"
              "The stored operation exceeds this action's reviewed write authority." "Create a fresh preview." false)
            else run_safe a execute ctx ctx op.(op_payload) plan
        | _ => eret (incompatible_executor name
                 "The stored executor does not match this action's safe-write contract.")
        end
      else if bool_decide (executorKind = u "risky_commit") then
        match a.(act_impl) with
        | RiskyWriteAction _ => commitConfirmedOperation sha256 risky ctx op
        | _ => eret (incompatible_executor name
                 "The stored executor does not match this action's risky-write contract.")
        end
      else eret (incompatible_executor name "The stored executor kind is not supported for v2 confirmation.")
  end.

(** ** Theorems *)

Section Gates.
Context (R : S → S → Prop) `{!Reflexive R, !Transitive R}.

(** Reads, previews and preparations keep [R]; nothing is asked of an execution. *)
Definition proposal_respects (a : ActionDefinition) : Prop :=
  match a.(act_impl) with
  | ReadAction handler | RiskyWriteAction handler => ∀ c v, respects R (handler c v)
  | SafeWriteAction prepare _ => ∀ c v, respects R (prepare c v)
  end.

Definition context_respects (ctx : ActionContext) : Prop :=
  (∀ n, respects R (ctx.(act_ctx).(authorizeWrite) n)) ∧
  (∀ check n v x, ctx.(authorizeWriteArguments) = Some check → respects R (check n v x)) ∧
  (∀ j, ctx.(operationJournal) = Some j →
     (∀ n v p, respects R (j.(oj_prepare) n v p)) ∧ (∀ id, respects R (j.(oj_markExecuting) id)) ∧
     (∀ id st r, respects R (j.(oj_settle) id st r))).

Lemma respects_unjournaled c : respects R c → respects R (unjournaled c).
Proof. intros Hc. apply respects_bind; [done|done|]. intros a. by apply respects_ret. Qed.
Lemma respects_refused v : respects R (refused v).
Proof. by apply respects_ret. Qed.
Hint Resolve respects_unjournaled respects_refused : core.

(** What the gates stand for, apart from the code that asks: the admin may write in the
    action's group, and the kind of an action agrees with its risks. *)
Definition may_write (a : ActionDefinition) (p : AdminPolicy) (args : jsval) : Prop :=
  PermissionChange ∈ a.(act_risks) ∨ canWrite p (group_of a args) = true.
Definition confirmed_kind (a : ActionDefinition) : Prop :=
  match a.(act_impl) with
  | ReadAction _ => False
  | SafeWriteAction _ _ => SafeWrite ∈ a.(act_risks) ∧ ∀ r, r ∈ a.(act_risks) → r ∉ CONFIRMATION_REQUIRED
  | RiskyWriteAction _ => ∃ r, r ∈ a.(act_risks) ∧ r ∈ CONFIRMATION_REQUIRED
  end.

Lemma requires_spec rs : requiresConfirmation rs = true ↔ ∃ r, r ∈ rs ∧ r ∈ CONFIRMATION_REQUIRED.
Proof.
  unfold requiresConfirmation. rewrite existsb_exists. by setoid_rewrite bool_decide_eq_true; setoid_rewrite <- list_elem_of_In.
Qed.
Lemma safe_spec rs :
  isSafeWrite rs = true → SafeWrite ∈ rs ∧ ∀ r, r ∈ rs → r ∉ CONFIRMATION_REQUIRED.
Proof.
  unfold isSafeWrite. rewrite andb_true_iff, bool_decide_eq_true, negb_true_iff. intros [Hs Hc]. split; [done|].
  intros r Hr Hq. assert (requiresConfirmation rs = true) as E by (apply requires_spec; by exists r).
  by rewrite E in Hc.
Qed.
Lemma kind_confirmed a : kindMatchesRisk a = true → is_read a = false → confirmed_kind a.
Proof.
  unfold kindMatchesRisk, is_read, confirmed_kind.
  destruct (act_impl a); [done|intros H _; by apply safe_spec|intros H _; by apply requires_spec].
Qed.
Lemma policy_allows a p args : is_read a = false → policy_gate a p args = None → may_write a p args.
Proof.
  unfold policy_gate, may_write. intros ->. case_bool_decide; [by left|]. destruct (canWrite _ _); [by right|done].
Qed.

(** The raw-argument gate, when the context has one, was asked in [s] and let the write pass. *)
Definition arguments_passed (a : ActionDefinition) (ctx : ActionContext) (rawArgs : jsval) (s s1 : S) : Prop :=
  match ctx.(authorizeWriteArguments) with
  | Some check => ∃ authority, a.(act_authority) = Some authority ∧
      check (u a.(act_name)) rawArgs authority s = (inr None, s1)
  | None => s1 = s
  end.

(** An immediate safe write behind its gates, each asked in the state the one before left:
    the raw arguments, the preparation, the authority of its operation and the fresh
    authorization; the call is then the execution of that operation under that plan. *)
Definition safe_write_gated (found : option ActionDefinition) (rawArgs : jsval) (ctx : ActionContext) (s : S)
    (r : failure + (ActionResult * option jstr)) (s' : S) : Prop :=
  ∃ a prepare execute args p operation plan s1 s2 s3,
    found = Some a ∧ a.(act_impl) = SafeWriteAction prepare execute ∧
    a.(act_unknown) rawArgs = [] ∧ arguments_passed a ctx rawArgs s s1 ∧ a.(act_safeParse) rawArgs = inr args ∧
    confirmed_kind a ∧ canWrite ctx.(act_ctx).(policy) (group_of a args) = true ∧
    prepare ctx.(act_ctx) args s1 = (inr p, s2) ∧ prepared_case_of a p = CasePrepared operation plan ∧
    WriteAuthority.validateWriteAuthorityOperation a.(act_authority) operation (Some plan) = None ∧
    ctx.(act_ctx).(authorizeWrite) (u a.(act_name)) s2 = (inr None, s3) ∧
    immediate a execute ctx args (Some (operation, plan)) s3 = (r, s').

Lemma settle_respects ctx id r : context_respects ctx → respects R (settleImmediateOperation ctx id r).
Proof.
  intros (_ & _ & Hj). unfold settleImmediateOperation. destruct id as [[|c id]|]; try by apply respects_ret.
  destruct (operationJournal ctx) as [j|]; [|by apply respects_ret]. destruct (Hj j eq_refl) as (_ & _ & Hs).
  apply respects_bind; [done| |intros _; by apply respects_ret].
  apply respects_try; [done|apply Hs|intros _; by apply respects_ret].
Qed.

(** Without a bound plan the executor is not reached. *)
Lemma immediate_unprepared a execute ctx args :
  context_respects ctx → respects R (immediate a execute ctx args None).
Proof.
  intros Hctx. unfold immediate. destruct (operationJournal ctx) as [j|] eqn:Hj.
  - destruct Hctx as (Ha & Hw & Hjs). destruct (Hjs j Hj) as (Hp & Hm & Hs).
    assert (context_respects ctx) as Hctx by done.
    apply respects_bind; [done|by apply respects_attempt|]. intros [e|[[id e]|id]]; try by apply settle_respects.
    apply respects_bind; [done| |intros out; by apply settle_respects].
    apply respects_attempt, respects_bind; [done|done|intros _; by apply respects_ret].
  - apply respects_bind; [done| |intros out; by apply settle_respects]. apply respects_attempt. by apply respects_ret.
Qed.

(** The part behind the gates that do not look at the preparation. *)
Lemma safe_write_behind a prepare execute args ctx s r s' :
  (∀ c v, respects R (prepare c v)) → context_respects ctx →
  execute_safe_write a prepare execute ctx args s = (r, s') →
  R s s' ∨ ∃ p operation plan s2 s3,
    prepare ctx.(act_ctx) args s = (inr p, s2) ∧ prepared_case_of a p = CasePrepared operation plan ∧
    WriteAuthority.validateWriteAuthorityOperation a.(act_authority) operation (Some plan) = None ∧
    ctx.(act_ctx).(authorizeWrite) (u a.(act_name)) s2 = (inr None, s3) ∧
    immediate a execute ctx args (Some (operation, plan)) s3 = (r, s').
Proof.
  intros Hprep Hctx. unfold execute_safe_write, ebind at 1, eattempt. specialize (Hprep ctx.(act_ctx) args s).
  destruct (prepare (act_ctx ctx) args s) as [[e|p] s2] eqn:Ep; simpl in Hprep; [intros [= _ <-]; by left|].
  pose proof (proj1 Hctx (u a.(act_name)) s2) as Hauth.
  destruct (prepared_case_of a p) as [x| |operation plan] eqn:Hcase; [intros [= _ <-]; by left| |].
  - unfold ebind at 1. destruct (authorizeWrite _ _ s2) as [[e|[denied|]] s3]; simpl in Hauth;
      [intros [= _ <-]; left; by etrans..|]. intros H. left. pose proof (immediate_unprepared a execute ctx args Hctx s3) as Hi.
    rewrite H in Hi. simpl in Hi. by do 2 (etrans; [eassumption|]).
  - unfold authority_error. destruct (WriteAuthority.validateWriteAuthorityOperation _ _ _) eqn:Hv; simpl;
      [intros [= _ <-]; by left|].
    unfold ebind at 1. destruct (authorizeWrite _ _ s2) as [[e|[denied|]] s3] eqn:Ha; simpl in Hauth;
      [intros [= _ <-]; left; by etrans..|]. intros H. right. by exists p, operation, plan, s2, s3.
Qed.

(** The raw-argument gate. *)
Lemma arguments_asked a ctx rawArgs s out s1 :
  context_respects ctx → is_read a = false → arguments_gate a ctx rawArgs s = (out, s1) →
  R s s1 ∧ (out = inr None → arguments_passed a ctx rawArgs s s1).
Proof.
  intros (_ & Hw & _) Hread. unfold arguments_gate, arguments_passed. rewrite Hread.
  destruct (authorizeWriteArguments ctx) as [check|] eqn:Hc; [|by intros [= <- <-]].
  destruct (act_authority a) as [authority|]; [|by intros [= <- <-]].
  intros H. pose proof (Hw check (u a.(act_name)) rawArgs authority eq_refl s) as Hr. rewrite H in Hr. split; [done|].
  intros ->. by exists authority.
Qed.
Lemma gate_respects a ctx rawArgs : context_respects ctx → respects R (arguments_gate a ctx rawArgs).
Proof.
  intros (_ & Hw & _). unfold arguments_gate. destruct (authorizeWriteArguments ctx) as [check|] eqn:Hc; [|by apply respects_ret].
  destruct (is_read a); [by apply respects_ret|]. destruct (act_authority a); [by apply Hw|by apply respects_ret].
Qed.
End Gates.

(** A denial of the raw-argument gate is an error receipt. *)
Definition denials_fail (ctx : ActionContext) : Prop :=
  ∀ check n v x s d s1, ctx.(authorizeWriteArguments) = Some check → check n v x s = (inr (Some d), s1) →
    receipt_ok d = false.

Lemma gate_denies a ctx rawArgs s d s1 :
  denials_fail ctx → arguments_gate a ctx rawArgs s = (inr (Some d), s1) → receipt_ok d = false.
Proof.
  intros Hden. unfold arguments_gate. destruct (authorizeWriteArguments ctx) as [check|] eqn:Hc; [|done].
  destruct (is_read a); [done|]. destruct (act_authority a); [by apply Hden|]. by intros [= <- _].
Qed.

Lemma policy_denies a p args d : policy_gate a p args = Some d → receipt_ok d = false.
Proof. unfold policy_gate. intros H. repeat (case_match; try done); by injection H as <-. Qed.

Lemma preview_denies a single op d : checked_preview a single op = inl d → receipt_ok d = false.
Proof.
  unfold checked_preview, authority_error. destruct (op_mutationPlan op) as [p|]; [|done].
  cbn [rebound op_mutationPlan default op_payload].
  destruct single; try destruct (validateAssistantPrimaryMutationPlan _ _);
    destruct (WriteAuthority.validateWriteAuthorityOperation _ _ _); intros; by simplify_eq/=.
Qed.

(** What an authorised preview carries. *)
Lemma preview_plan a single op op' plan :
  checked_preview a single op = inr op' → op'.(op_mutationPlan) = Some plan →
  WriteAuthority.validateWriteAuthorityOperation a.(act_authority) op'.(op_payload) (Some plan) = None ∧
  SafetyLimits.maxHostCalls plan =
    SafetyLimits.estimateMutationPlanHostCalls a.(act_name) op'.(op_payload) (SafetyLimits.steps plan) ∧
  (single = true → validateAssistantPrimaryMutationPlan a.(act_contract) (Some plan) = None).
Proof.
  unfold checked_preview, authority_error. destruct (op_mutationPlan op) as [p0|] eqn:Hop; [|by intros [= <-]; congruence].
  cbn [rebound op_mutationPlan default op_payload]. set (bound := bound_plan _ _ _). intros H Hplan.
  assert (op' = rebound a op p0 ∧ (single = true → validateAssistantPrimaryMutationPlan a.(act_contract) (Some bound) = None) ∧
    WriteAuthority.validateWriteAuthorityOperation a.(act_authority) op.(op_payload) (Some bound) = None)
    as (-> & Hs & Hv).
  { destruct single; try destruct (validateAssistantPrimaryMutationPlan _ _) eqn:E;
      destruct (WriteAuthority.validateWriteAuthorityOperation _ _ _) eqn:E2; by simplify_eq/=. }
  injection Hplan as <-. by split_and!.
Qed.


Lemma raw_arguments_ok a rawArgs : validateV2RawActionArguments a rawArgs = None →
  (is_record rawArgs = true → has_own "provenance" rawArgs = false) ∧ a.(act_unknown) rawArgs = [].
Proof.
  unfold validateV2RawActionArguments. destruct (_ && _) eqn:E; [done|]. case_bool_decide as Hn; [done|]. intros _.
  split; [|done]. intros Hr. by rewrite Hr in E.
Qed.
Lemma prepared_bound a p operation plan :
  prepared_case_of a p = CasePrepared operation plan →
  SafetyLimits.maxHostCalls plan =
    SafetyLimits.estimateMutationPlanHostCalls a.(act_name) operation (SafetyLimits.steps plan).
Proof.
  unfold prepared_case_of. destruct p as [p|]; [|done].
  destruct (isSafeWriteClarification _); [done|]. destruct (isSafeWriteNoop _); [done|].
  destruct (isPreparedSafeWrite _); simpl; [|done]. by intros [= <- <-].
Qed.
Lemma prepared_stop a p preview op : prepared_case_of a p ≠ CaseStop (RPreview preview op).
Proof.
  unfold prepared_case_of. destruct p as [p|]; [|done].
  destruct (isSafeWriteClarification _); [done|]. destruct (isSafeWriteNoop _); [done|].
  by destruct (isPreparedSafeWrite _).
Qed.

(** C22: The assistant path never executes.  [executeV2ApiAction] keeps every relation that
    previews and preparations keep, unconditionally: no executor is reachable from it.  A
    preview it returns was asked for by the assistant on the injected registry, of a write
    action whose risks match its kind, with arguments that its schema accepts, none of them
    unknown or a provenance, and that the policy allows.  Its plan is inside the reviewed
    authority, is reserved at exactly the estimator's cost, has exactly one primary step and
    meets the action's reconciliation contract.  Only a risky handler can return a preview
    without a plan, and then nothing more is checked here (the preparation service refuses
    such a preview). *)
Theorem v2_only_prepares R suggestions found origin registryId actionName rawArgs generation uuid ctx s r s' :
  PreOrder R → (∀ a, found = Some a → proposal_respects R a) →
  executeV2ApiAction suggestions found origin registryId actionName rawArgs generation uuid ctx s = (r, s') →
  R s s' ∧
  (∀ preview op, r = inr (RPreview preview op) →
     ∃ a args, found = Some a ∧ origin = u "assistant" ∧ registryId = u "v2-api" ∧
       (is_record rawArgs = true → has_own "provenance" rawArgs = false) ∧ a.(act_unknown) rawArgs = [] ∧
       a.(act_safeParse) rawArgs = inr args ∧ confirmed_kind a ∧ may_write a ctx.(policy) args ∧
       match op.(op_mutationPlan) with
       | Some plan =>
           WriteAuthority.validateWriteAuthorityOperation a.(act_authority) op.(op_payload) (Some plan) = None ∧
           SafetyLimits.maxHostCalls plan =
             SafetyLimits.estimateMutationPlanHostCalls a.(act_name) op.(op_payload) (SafetyLimits.steps plan) ∧
           length (primaries plan) = 1%nat ∧
           mutationPlanContractError a.(act_contract) (Some (plan_of plan)) = None
       | None => ∃ handler, a.(act_impl) = RiskyWriteAction handler
       end).
Proof.
  intros [HRr HRt] Hprop. unfold executeV2ApiAction, refused.
  case_bool_decide as Ho; simpl; [|by intros [= <- <-]].
  case_bool_decide as Hreg; simpl; [|by intros [= <- <-]].
  destruct found as [a|]; [|by intros [= <- <-]]. specialize (Hprop a eq_refl).
  destruct (validateV2RawActionArguments a rawArgs) eqn:Hraw; [by intros [= <- <-]|].
  apply raw_arguments_ok in Hraw as [Hprov Hun].
  destruct (act_safeParse a rawArgs) as [issues|args] eqn:Hparse; [by intros [= <- <-]|].
  destruct (kindMatchesRisk a) eqn:Hkind; simpl; [|by intros [= <- <-]].
  destruct (is_read a) eqn:Hread; simpl; [by intros [= <- <-]|].
  destruct (policy_gate a (policy ctx) args) eqn:Hpol; [by intros [= <- <-]|].
  pose proof (kind_confirmed _ Hkind Hread) as Hconf. pose proof (policy_allows _ _ _ Hread Hpol) as Hmay.
  unfold proposal_respects in Hprop. destruct (act_impl a) as [handler|prepare execute|handler] eqn:Himpl;
    [by unfold is_read in Hread; rewrite Himpl in Hread| |].
  - unfold ebind, eattempt. specialize (Hprop ctx args s). destruct (prepare ctx args s) as [[e|p] s1]; simpl in Hprop.
    { by intros [= <- <-]. }
    destruct (prepared_case_of a p) as [x| |operation plan] eqn:Hcase; intros [= <- <-]; (split; [done|]);
      intros preview op [= Hx].
    + subst x. by apply prepared_stop in Hcase.
    + unfold preview_safe, authority_error in Hx.
      destruct (validateAssistantPrimaryMutationPlan _ _) eqn:Hprim; [done|].
      destruct (WriteAuthority.validateWriteAuthorityOperation _ _ _) eqn:Hv; [done|]. simpl in Hx.
      injection Hx as <- <-. apply single_primary in Hprim as [Hone Hcon].
      exists a, args. do 8 (split; [done|]). simpl. split_and!; try done. by apply prepared_bound in Hcase.
  - unfold ebind. specialize (Hprop ctx args s). destruct (handler ctx args s) as [[e|x] s1]; simpl in Hprop;
      intros [= <- <-]; (split; [done|]); [done|]. intros preview op [= Hx].
    unfold preview_v2 in Hx. destruct (receipt_succeeded x); [done|]. destruct x as [| | |preview' op0]; try done.
    destruct (checked_preview a true op0) as [d|op1] eqn:Hc; [done|]. injection Hx as <- <-.
    exists a, args. do 8 (split; [done|]). simpl. destruct (op_mutationPlan op1) as [plan|] eqn:Hop; [|by exists handler].
    destruct (preview_plan _ _ _ _ _ Hc Hop) as (Hv & Hcalls & Hone). apply single_primary in Hone as [Hone Hcon]; [|done].
    by split_and!.
Qed.
End Execute.
