(* ===== verification/WriteAhead.v ===== *)
(** * The durable record comes first

    The adapter, the plan scope and the journal composed over one state: a request that
    may change the host leaves only after the journal has durably marked a row of its
    operation as dispatched, and that row marks no other request. *)
From S2P Require Import Prelude Js SafeJson Db Plan Journal Store Effects MutationScope PlanScope RestCore RestResults Workflow WorkflowResults World Commit.
Open Scope Z_scope.
#[local] Arguments u : simpl never.

(** An observation that a store call does not change is untouched by the journal. *)
Lemma untouched_world {T} uuid operationId (f : world → T) :
  (∀ d s, f (with_db d s) = f s) → @Untouched world T (world_journal uuid operationId) f.
Proof.
  intros Hf. assert (∀ A (m : Z → jstr → M A), respects (λ s s', f s' = f s) (transact uuid m)) as Ht.
  { intros A m s. unfold transact. destruct (m _ _ _) as [[a d]|e]; simpl; apply Hf. }
  split; intros; try (intros s; done); apply Ht.
Qed.

Section WriteAhead.
Context (host : list Request → failure + Response) `{!OrdinaryHost host}.
Context (accepts : world → bool) (uuid : nat → jstr) (operationId : jstr).
Context (authorize : E world (option jsval)) (compensations : bool).
Context (hosts : ClockifyHost → option jstr) (addon_token : bool) (commitTimeoutMs : Z).

#[local] Instance wire : Wire world := world_wire host accepts.
#[local] Instance journal : MutationStepJournal world := world_journal uuid operationId.
Abbreviation hooks := (commit_hooks authorize compensations).

(** Neither a request nor the database. *)
Definition still (s s' : world) : Prop := s'.(w_sent) = s.(w_sent) ∧ s'.(w_db) = s.(w_db).
#[local] Instance still_refl : Reflexive still.
Proof. by split. Qed.
#[local] Instance still_trans : Transitive still.
Proof. intros s1 s2 s3 [? ?] [? ?]. split; congruence. Qed.

Context (Hauth : respects still authorize).

Lemma still_on_scope {A} (f : MutationPlanScopeState → (failure + A) * MutationPlanScopeState) :
  respects still (on_scope f).
Proof. intros s. unfold on_scope. destruct (scope_of s) as [sc|]; [|done]. by destruct (f sc). Qed.

Lemma still_charge : respects still charge_call.
Proof. intros s. unfold charge_call. by destruct (HostBudget.chargeHostCallBudget _ _). Qed.

Lemma still_authorize : respects still (authorizeScopedMutationDispatch hooks w_aborted).
Proof.
  unfold authorizeScopedMutationDispatch.
  respects_by ltac:(first [apply still_on_scope | exact Hauth | intros s; unfold descriptor_step; by case_match]).
Qed.

(** Marking a scoped step: one undispatched row of the operation becomes dispatched. *)
Definition marks (s s' : world) : Prop :=
  ∃ id r now, s.(w_db).(operation_steps) !! id = Some r ∧ undispatched (Some operationId) r = true ∧
    s'.(w_db).(operation_steps) = <[id := dispatched_step now r]> s.(w_db).(operation_steps) ∧
    s'.(w_sent) = s.(w_sent).

Lemma mark_marks id kind s s' : markScopedStepDispatched id kind s = (inr tt, s') → marks s s'.
Proof.
  unfold markScopedStepDispatched. intros (l & s1 & [= <- <-] & HA)%ebind_ok.
  destruct (find_step _ _) as [row|]; [|done].
  apply ebind_ok in HA as (b & s2 & Hm & HA). destruct b; [|done]. injection HA as ->.
  apply (transact_at_ok accepts uuid) in Hm as (d & Hm & ->). unfold Journal.markOperationStepDispatched in Hm.
  apply update_step_ok in Hm as [[[=] _]|(_ & r & Hr & Hp & Hd)].
  by exists row.1, r, s.(w_now).
Qed.

(** Committing a dispatch runs the hook, and returns only if the hook marked the row. *)
Lemma commit_marks s s' :
  commitScopedMutationDispatch hooks w_aborted s = (inr tt, s') →
  ∃ s1 s2, still s s1 ∧ marks s1 s2 ∧ still s2 s'.
Proof.
  unfold commitScopedMutationDispatch. intros (x & s0 & [= <- <-] & HA)%ebind_ok.
  apply ebind_ok in HA as (i & s1 & Hi & HA). apply ebind_ok in HA as (step & s2 & Hs & HA).
  apply ebind_ok in HA as (rec & s3 & Hr & HA).
  pose proof (still_on_scope (λ sc, commit_check sc s.(w_aborted)) s) as H1. rewrite Hi in H1.
  assert (s2 = s1) as ->. { unfold descriptor_step in Hs. by destruct (_ ≫= _); simplify_eq. }
  unfold eattempt in Hr.
  destruct (onDispatch hooks step s1) as [[e|[]] s4] eqn:Hd; injection Hr as <- <-.
  - unfold on_scope in HA. destruct (scope_of s4) as [sc|]; [|done].
    unfold commit_dispatch in HA. by destruct (descriptors sc !! i) as [y|].
  - exists s1, s4. split; [done|]. split; [exact (mark_marks _ _ _ _ Hd)|].
    pose proof (still_on_scope (λ sc, commit_dispatch sc i true) s4) as H2. by rewrite HA in H2.
Qed.

Lemma marks_still s1 s2 s3 s4 : still s1 s2 → marks s2 s3 → still s3 s4 → marks s1 s4.
Proof.
  intros [Hs Hd] (id & r & now & Hr & Hp & Hd' & Hs') [Hs2 Hd2]. exists id, r, now.
  rewrite <- Hd, <- Hs, Hs2, Hd2. done.
Qed.

(** What has happened when a mutation is about to be sent. *)
Lemma gate_marks r s s' :
  r.(kind) = OpMutation → fetch_gate hooks true r s = (inr tt, s') → marks s s'.
Proof.
  intros Hk. unfold fetch_gate, gated. rewrite bool_decide_true by done. simpl.
  intros (x & s0 & [= <- <-] & HA)%ebind_ok. destruct (negb _); [|done].
  apply ebind_ok in HA as ([] & s1 & Hc & HA). apply ebind_ok in HA as ([] & s2 & Ha & HA).
  apply commit_marks in HA as (s3 & s4 & H3 & Hm & H4).
  pose proof (still_charge s) as H1. rewrite Hc in H1.
  pose proof (still_authorize s1) as H2. rewrite Ha in H2. simpl in *.
  eapply marks_still; [|done..]. by etrans; [|etrans].
Qed.

(** What follows the request neither sends another one nor touches the database. *)
Lemma observed_still res attempt : ∀ s, still s (observed res attempt s).
Proof.
  intros s. unfold observed, observeHostHealth, ebind, emodify.
  by destruct (status res =? 429), (500 <=? status res).
Qed.

Lemma answered_still r path allow res : respects still (answered addon_token r path allow res).
Proof.
  unfold answered, mapAddonRestriction, observeAuthAccepted, plain_error.
  respects_by ltac:(by intros s).
Qed.

#[local] Instance commit_hooks_silent : SilentHooks hooks.
Proof.
  assert (∀ A (c : E world A), respects (λ s s', s'.(w_sent) = s.(w_sent)) c → respects no_mutation c) as Hq.
  { intros A c Hc s. apply silent, Hc. }
  split; intros t; apply Hq; [intros s; by apply Hauth|]. simpl. unfold markScopedStepDispatched, dispatch_unavailable.
  assert (Reflexive (λ s s', s'.(w_sent) = s.(w_sent))) by done.
  assert (Transitive (λ s s', s'.(w_sent) = s.(w_sent))) by (intros ? ? ?; congruence).
  assert (Untouched w_sent) as Hun by by apply untouched_world.
  respects_by ltac:(first [apply (un_dispatch w_sent Hun) | by intros s]).
Qed.

(** One attempt of a mutation, from its gate on. *)
Lemma attempt_marks path r s out s' :
  r.(kind) = OpMutation → doFetch hooks true commitTimeoutMs path r s = (out, s') →
  mutations s' ≠ mutations s →
  ∃ s1, fetch_gate hooks true r s = (inr tt, s1) ∧ marks s s1 ∧ s'.(w_db) = s1.(w_db) ∧
    s'.(w_sent) = s.(w_sent) ++ [r].
Proof.
  intros Hk. rewrite doFetch_gate. destruct (fetch_gate hooks true r s) as [[e|[]] s1] eqn:Hg.
  - destruct (name_failure_spec commitTimeoutMs r path e s1) as (e' & -> & _). intros [= <- <-] Hne. exfalso.
    apply Hne. pose proof (gate_silent hooks true r s) as Hs. rewrite Hg in Hs. exact Hs.
  - intros HA _. exists s1. split; [done|]. pose proof (gate_marks r s s1 Hk Hg) as Hm. split; [done|].
    destruct Hm as (id & r0 & now & _ & _ & _ & Hs). rewrite <- Hs.
    unfold etry, baseFetch in HA. destruct (answer r (push r s1)) as [e|res].
    + destruct (name_failure_spec commitTimeoutMs r path e (push r s1)) as (e' & Hn & _). rewrite Hn in HA.
      by injection HA as <- <-.
    + by injection HA as <- <-.
Qed.

(** C18: One durable row, one request.  Under the hooks of a confirmed commit, over a fresh
    authorization that neither sends nor writes, [mutate] puts a request on the wire only
    from a state in which a row of the operation, [executing] and never dispatched before
    the call, is already durably marked as dispatched; that one mark is all the call changes
    in the journal and that one request is all it sends, whatever the host answers.  Since
    a mark needs an unmarked row, no row ever stands for two requests, and a crash after
    the request finds the row marked. *)
Theorem one_request_per_row h m path b s out s' :
  mutate hooks hosts addon_token true commitTimeoutMs h m path b s = (out, s') →
  mutations s' ≠ mutations s →
  ∃ id row now req s1,
    s.(w_db).(operation_steps) !! id = Some row ∧ undispatched (Some operationId) row = true ∧
    fetch_gate hooks true req s = (inr tt, s1) ∧
    s1.(w_db).(operation_steps) = <[id := dispatched_step now row]> s.(w_db).(operation_steps) ∧
    s1.(w_sent) = s.(w_sent) ∧
    s'.(w_db) = s1.(w_db) ∧ s'.(w_sent) = s.(w_sent) ++ [req].
Proof.
  intros HA Hne. unfold mutate in HA. destruct (isMutationMethod m) eqn:Hm; [|by injection HA as <- <-].
  assert (m ≠ u "GET") as Hget by (by intros ->).
  unfold request, resolveHost in HA.
  destruct (hosts h) as [[|c base]|]; [by injection HA as <- <-| |by injection HA as <- <-].
  unfold ebind at 1, eret in HA. set (r := {| kind := _ |}) in HA.
  unfold ebind, fetchWithRetry, eget in HA. unfold ebind in HA. rewrite attempts_once in HA by done.
  destruct (doFetch hooks true commitTimeoutMs path r s) as [o s2] eqn:Hd.
  assert (still s2 s') as [Hs Hdb].
  { destruct o as [e|res]; [by injection HA as <- <-|].
    etrans; [apply observed_still|]. pose proof (answered_still r path false res) as Ha.
    specialize (Ha (observed res 0 s2)). by rewrite HA in Ha. }
  apply attempt_marks in Hd as (s1 & Hg & (id & row & now & Hr & Hp & Ht & Hw) & Hdb' & Hsent);
    [|done|by intros He; apply Hne; unfold mutations in *; simpl; rewrite Hs].
  exists id, row, now, r, s1. split_and!; congruence.
Qed.
End WriteAhead.
