(* ===== verification/ConfirmService.v ===== *)
(** * Confirming a preview

    [services/confirmation-service.ts]: [confirmSingle], from the clicked button to the
    receipt, and [dispatchConfirmedPreview], the one place where a stored preview becomes
    a host mutation.  The store, the role check, the workspace lease and the registry are
    the ports of the service; [IDEMPOTENCY_WINDOW_MS] and [CLAIM_TTL_MS] are its windows. *)
From S2P Require Import Prelude Js SafeJson ActionResults Db Policy Effects PlanScope Receipts Workflow Commit Execute Confirmations.
From S2P Require HostBudget SafetyLimits Journal Idempotency.
Import Idempotency(ClaimState, won, in_flight, replay, stale_unknown).
Import Permissions Risk.
Open Scope Z_scope.
#[local] Arguments u : simpl never.

Definition IDEMPOTENCY_WINDOW_MS : Z := 10 * 60 * 1000.
Definition CLAIM_TTL_MS : Z := 5 * 60 * 1000.

Record Claims := { claims_session : jstr; claims_workspace : jstr; claims_admin : jstr }.
Record Installation := { installation_active : bool; generation : Z }.

(** [reject]: status, code and message. *)
Inductive ConfirmSingleOutcome : Type :=
| Rejected (status : Z) (code message : jstr)
| Confirmed (receipt : jsval) (partialResult : option jsval) (undoId : option jstr) (degraded : bool).

(** [WorkspaceMutationRevokedError] *)
Definition revoked_error (e : failure) : option jstr :=
  match e with
  | OtherError name m => if bool_decide (name = u "WorkspaceMutationRevokedError") then Some m else None
  | _ => None
  end.

Section Service.
Context {S : Type} `{!MutationHost S} (sha256 : jstr → jstr).

(** ** The ports of the service *)

Record ConfirmationServiceDeps := {
  sessionSecret : jstr;
  catalogHash_of : jstr;
  now_ms : E S Z;
  registry : jstr → option (ActionDefinition (S := S));
  committable : jstr → option (RiskyAction (S := S));       (** [getAction] of a risky write *)
  fingerprint : jstr → jstr;                                (** [actionFingerprint] *)
  as_confirmable : jsval → ConfirmableOperation;            (** the stored operation, by its type *)
  loadPolicy : jstr → jstr → E S AdminPolicy;
  verifyWriteAuthority : Claims → Installation → E S (option (Z * jstr * jstr));
  actionContext : Claims → Installation → nat → CommitContext (S := S);
  (** [mutationCoordinator]: a lease by its number. *)
  acquire : jstr → Z → E S nat;
  lease_aborted : nat → E S bool;
  release_lease : nat → E S unit;
  recordUndoIfReversible : Claims → Z → jsval → E S (option jstr);
  (** The store. *)
  expireConfirmation : jstr → E S unit;
  getOperationRun : jstr → E S (option OperationRunRow);
  getInstallation : jstr → E S (option Installation);
  markConfirmationExecuting : jstr → E S bool;
  mutationStepJournal : jstr → MutationStepJournal S;
  settleConfirmedOperation : jstr → ActionResultKind → jstr → jsval → E S jstr;
  settleV2ConfirmationRun : PendingConfirmationRecord → option jstr → E S unit;
  claimIdempotency : jstr → jstr → jstr → Z → Z → Z → E S ClaimState;
  bindConfirmationIdempotencyKey : jstr → jstr → E S unit;
  releaseIdempotency : jstr → jstr → jstr → E S unit;
  releaseConfirmationIdempotencyKey : jstr → jstr → E S unit;
  claimIdempotencyReceipt : jstr → jstr → jstr → E S (option jsval);
}.

Context (deps : ConfirmationServiceDeps).

Definition reject (status : Z) (code message : string) : E S ConfirmSingleOutcome :=
  eret (Rejected status (u code) (u message)).

(** ** The ledger of one confirmation *)

Definition claim_key_for (c : Claims) (confirmationId key : jstr) : E S ClaimState :=
  let* t1 := deps.(now_ms) in
  let* t2 := deps.(now_ms) in
  let* t3 := deps.(now_ms) in
  let* state := deps.(claimIdempotency) key c.(claims_workspace) c.(claims_admin)
    t1 (t2 - IDEMPOTENCY_WINDOW_MS) (t3 - CLAIM_TTL_MS) in
  match state with
  | won =>
      etry (let* _ := deps.(bindConfirmationIdempotencyKey) confirmationId key in eret state)
        (λ e, let* _ := deps.(releaseIdempotency) key c.(claims_workspace) c.(claims_admin) in ethrow e)
  | _ => eret state
  end.

(** The settlement fills the claim; a claim is never filled here. *)
Definition atomicLedger (c : Claims) (confirmationId : jstr) : AtomicIdempotencyLedger S :=
  {| claim := claim_key_for c confirmationId;
     lookupCompleted key := deps.(claimIdempotencyReceipt) key c.(claims_workspace) c.(claims_admin);
     fill _ _ := eret tt;
     release key := deps.(releaseConfirmationIdempotencyKey) confirmationId key |}.

(** ** Dispatching *)

(** [withRunScopedHostCallBudget(dispatchWrite, ...)]: the outer budget is back afterwards. *)
Definition with_run_budget {A} (c : E S A) : E S A := λ s,
  let b := budget_of s in
  let '(r, s') := c (set_budget (HostBudget.withRunScopedHostCallBudget b SafetyLimits.HOST_CALL_BUDGET_MAXIMUM) s) in
  (r, set_budget {| HostBudget.budget := HostBudget.budget b;
                    HostBudget.reservation := HostBudget.reservation (budget_of s');
                    HostBudget.tokens := HostBudget.tokens (budget_of s') |} s').

Definition dispatch_context (c : Claims) (r : PendingConfirmationRecord) (i : Installation) (lease : nat)
    : CommitContext (S := S) :=
  let base := deps.(actionContext) c i lease in
  {| Commit.workspaceId := base.(Commit.workspaceId); Commit.adminUserId := base.(Commit.adminUserId);
     policy := base.(policy); authorizeWrite := base.(authorizeWrite);
     mutationJournal := Some (deps.(mutationStepJournal) r.(operationId));
     idempotency := Some (AtomicLedger (atomicLedger c r.(id))) |}.

(** The stored write under the budget of its run. *)
Definition dispatchWrite (c : Claims) (r : PendingConfirmationRecord) (i : Installation) (lease : nat)
    (op : ConfirmableOperation) (plan : SafetyLimits.ExternalMutationPlan) : E S jsval :=
  let executor := if is_in r.(discriminators).(Db.executor_kind) ["prepared_safe_write"]
                  then u "prepared_safe_write" else u "risky_commit" in
  let write := executeStoredV2Write sha256 (deps.(registry) op.(op_actionName))
    (deps.(committable) op.(op_actionName)) (dispatch_context c r i lease) op plan executor in
  if truthy r.(discriminators).(Db.run_id) && safe_generation r.(installationGeneration)
  then with_run_budget write else write.

Definition receipt_part (result : jsval) : jsval :=
  if isPartialCommitResult result then prop (u "receipt") result else result.
Definition terminal_status (result : jsval) : ActionResultKind :=
  if isPartialCommitResult result then partial
  else if receipt_ok result then succeeded
  else if bool_decide (result_code result = Some (u "commit_outcome_unknown")) then outcome_unknown
  else definitive_failed.

(** At most two attempts to settle; the host is never called again. *)
Fixpoint settle_attempts (n : nat) (r : PendingConfirmationRecord) (name : jstr) (result : jsval) : E S (option jstr) :=
  match n with
  | O => eret None
  | Datatypes.S n' =>
      let* ref := eattempt (deps.(settleConfirmedOperation) r.(id) (terminal_status result) name result) in
      match ref with
      | inr a => eret (Some a)
      | inl _ => settle_attempts n' r name result
      end
  end.

Definition dispatchConfirmedPreview (c : Claims) (r : PendingConfirmationRecord) (i : Installation) (lease : nat)
    (op : ConfirmableOperation) (plan : SafetyLimits.ExternalMutationPlan) : E S (jsval * option jstr * option jstr) :=
  let* result := dispatchWrite c r i lease op plan in
  let* ref := settle_attempts 2 r op.(op_actionName) result in
  let* undoId := match ref with
                 | Some _ => deps.(recordUndoIfReversible) c i.(generation) (receipt_part result)
                 | None => eret None
                 end in
  eret (result, ref, undoId).

(** ** Confirming *)

Definition confirmed_outcome (x : jsval * option jstr * option jstr) : ConfirmSingleOutcome :=
  let '(result, ref, undoId) := x in
  Confirmed (receipt_part result) (if isPartialCommitResult result then Some result else None) undoId
    (bool_decide (ref = None)).

(** [try { ... } finally { lease.release() }] *)
Definition with_lease {A} (lease : nat) (c : E S A) : E S A := efinally c (deps.(release_lease) lease).

(** The dispatch, and the end of its run (best effort). *)
Definition dispatch_and_record (c : Claims) (r : PendingConfirmationRecord) (i : Installation) (lease : nat)
    (op : ConfirmableOperation) (plan : SafetyLimits.ExternalMutationPlan) : E S ConfirmSingleOutcome :=
  let* x := dispatchConfirmedPreview c r i lease op plan in
  let* _ := etry (deps.(settleV2ConfirmationRun) r x.1.2) (λ _, eret tt) in
  eret (confirmed_outcome x).

(** The claim of the preview, and the dispatch behind it. *)
Definition confirm_under_lease (c : Claims) (r : PendingConfirmationRecord) (i : Installation) (lease : nat)
    (op : ConfirmableOperation) (plan : SafetyLimits.ExternalMutationPlan) : E S ConfirmSingleOutcome :=
  let* aborted := deps.(lease_aborted) lease in
  if (aborted : bool) then
    let* _ := deps.(release_lease) lease in
    reject 409 "request_cancelled" "The confirmation was cancelled before dispatch. No change was made."
  else
    let* claimed := deps.(markConfirmationExecuting) r.(id) in
    if (claimed : bool) then
      with_lease lease (dispatch_and_record c r i lease op plan)
    else
      let* _ := deps.(release_lease) lease in
      reject 409 "already_used" "This preview was already used.".

(** The policy and the role of the admin, now. *)
Definition current_authority (c : Claims) (i : Installation) (op : ConfirmableOperation)
    : E S (option ConfirmSingleOutcome) :=
  let* denied :=
    (if bool_decide (PermissionChange ∈ op.(op_risks)) then eret false
     else let* p := deps.(loadPolicy) c.(claims_workspace) c.(claims_admin) in
          eret (negb (canWrite p op.(op_featureGroup)))) in
  if (denied : bool)
  then eret (Some (Rejected 400 (u "policy_denied") (accessDeniedMessage (group_name op.(op_featureGroup)) "write")))
  else
    let* authority := deps.(verifyWriteAuthority) c i in
    eret (match authority with Some (status, code, m) => Some (Rejected status code m) | None => None end).

Definition installation_changed : E S ConfirmSingleOutcome :=
  reject 409 "installation_changed"
    "The Clockify installation changed after this preview was created. Create a fresh preview.".

(** From the prepared operation on. *)
Definition confirm_prepared (c : Claims) (r : PendingConfirmationRecord) (op : ConfirmableOperation)
    (plan : SafetyLimits.ExternalMutationPlan) : E S ConfirmSingleOutcome :=
  let* installation := deps.(getInstallation) c.(claims_workspace) in
  match installation with
  | Some i =>
      if negb i.(installation_active)
      then reject 503 "role_verification_unavailable" "The add-on is not active for this workspace. No change was made."
      else if negb (bool_decide (r.(installationGeneration) = Some i.(generation))) ||
              negb (bool_decide (op.(op_installationGeneration) = Some i.(generation)))
      then installation_changed
      else
        let* denied := current_authority c i op in
        match denied with
        | Some refusal => eret refusal
        | None =>
            let* lease := eattempt (deps.(acquire) c.(claims_workspace) i.(generation)) in
            match lease with
            | inl e => match revoked_error e with
                       | Some m => eret (Rejected 409 (u "installation_changed") m)
                       | None => ethrow e
                       end
            | inr lease => confirm_under_lease c r i lease op plan
            end
        end
  | None => reject 503 "role_verification_unavailable" "The add-on is not active for this workspace. No change was made."
  end.

Definition confirmSingle (c : Claims) (r : PendingConfirmationRecord) (nonce : jstr) : E S ConfirmSingleOutcome :=
  if isBatchOwnedConfirmation r
  then reject 400 "batch_confirmation_required"
         "This preview belongs to a Confirm all batch. Use the batch confirmation route."
  else if negb (isV2AssistantPreviewConfirmation r)
  then reject 400 "incompatible_confirmation" "This preview is not a v2 assistant confirmation."
  else
    let op := deps.(as_confirmable) r.(operation) in
    let* now := deps.(now_ms) in
    let* validation := elift (confirmPending sha256 r c.(claims_session) c.(claims_workspace) c.(claims_admin)
      nonce deps.(sessionSecret) now (Some (deps.(fingerprint) op.(op_actionName))) (Some deps.(catalogHash_of))) in
    match validation with
    | inl (Refuse code m) =>
        let* _ := (if String.eqb code "expired" then deps.(expireConfirmation) r.(id) else eret tt) in
        reject 400 code m
    | inl Pass => reject 400 "" ""    (* no refusal is [Pass] *)
    | inr _ =>
        match op.(op_mutationPlan) with
        | None => reject 400 "invalid_mutation_plan" "The stored preview is missing its host plan."
        | Some plan =>
            if negb (safe_generation r.(installationGeneration)) ||
               negb (bool_decide (op.(op_installationGeneration) = r.(installationGeneration)))
            then installation_changed
            else
              let* run := deps.(getOperationRun) r.(operationId) in
              match run with
              | Some run =>
                  if negb (bool_decide (run.(Db.run_status) = RunPrepared))
                  then reject 409 "operation_not_prepared" "The stored operation is no longer prepared."
                  else
                    let* again := deps.(getOperationRun) r.(operationId) in
                    if match again with
                       | Some run' => Plan.preparedAssistantPreviewMatchesConfirmation run' r | None => false end
                    then confirm_prepared c r op plan
                    else reject 409 "operation_mismatch" "The stored operation no longer matches this preview."
              | None => reject 409 "operation_not_prepared" "The stored operation is no longer prepared."
              end
        end
    end.

(** ** What a confirmation does *)

(** A relation on states that the ports keep: all of them but the action's own write. *)
Record ports_keep (R : S → S → Prop) : Prop := {
  keep_now : respects R deps.(now_ms);
  keep_policy : ∀ w a, respects R (deps.(loadPolicy) w a);
  keep_verify : ∀ c i, respects R (deps.(verifyWriteAuthority) c i);
  keep_acquire : ∀ w g, respects R (deps.(acquire) w g);
  keep_aborted : ∀ l, respects R (deps.(lease_aborted) l);
  keep_release : ∀ l, respects R (deps.(release_lease) l);
  keep_undo : ∀ c g v, respects R (deps.(recordUndoIfReversible) c g v);
  keep_expire : ∀ x, respects R (deps.(expireConfirmation) x);
  keep_run : ∀ x, respects R (deps.(getOperationRun) x);
  keep_installation : ∀ x, respects R (deps.(getInstallation) x);
  keep_mark : ∀ x, respects R (deps.(markConfirmationExecuting) x);
  keep_settle : ∀ x k n v, respects R (deps.(settleConfirmedOperation) x k n v);
  keep_settle_run : ∀ r a, respects R (deps.(settleV2ConfirmationRun) r a);
}.

(** The coordinator's release does not throw. *)
Definition releases : Prop := ∀ l s, ∃ s', deps.(release_lease) l s = (inr tt, s').

Definition not_confirmed (r : failure + ConfirmSingleOutcome) : Prop :=
  match r with inr (Confirmed _ _ _ _) => False | _ => True end.

(** What the caller is told for the outcome of the write. *)
Definition reported (c : Claims) (i : Installation) (r : PendingConfirmationRecord) (name : jstr)
    (out : failure + jsval) (res : failure + ConfirmSingleOutcome) : Prop :=
  match out with
  | inl e => res = inl e
  | inr v =>
      (∃ undoId degraded,
         res = inr (Confirmed (receipt_part v) (if isPartialCommitResult v then Some v else None) undoId degraded) ∧
         (degraded = false → ∃ s4 ref s5,
            deps.(settleConfirmedOperation) r.(id) (terminal_status v) name v s4 = (inr ref, s5))) ∨
      (∃ e s4 s5, deps.(recordUndoIfReversible) c i.(generation) (receipt_part v) s4 = (inl e, s5) ∧ res = inl e)
  end.

(** The admin may still write, by the policy and the role read during this call. *)
Definition authorized_now (c : Claims) (i : Installation) (op : ConfirmableOperation) : Prop :=
  (PermissionChange ∈ op.(op_risks) ∨
   ∃ s p s', deps.(loadPolicy) c.(claims_workspace) c.(claims_admin) s = (inr p, s') ∧
     canWrite p op.(op_featureGroup) = true) ∧
  ∃ s s', deps.(verifyWriteAuthority) c i s = (inr None, s').

(** The stored operation is prepared and is the one of this preview. *)
Definition operation_matches (r : PendingConfirmationRecord) : Prop :=
  ∃ s run s', deps.(getOperationRun) r.(operationId) s = (inr (Some run), s') ∧
    run.(Db.run_status) = RunPrepared ∧ run.(Db.binding).(Db.operation_hash) = r.(operationHash) ∧
    run.(Db.binding).(Db.action_fingerprint) = r.(actionFingerprint) ∧
    run.(Db.binding).(Db.catalog_hash) = r.(catalogHash).

(** The lease was acquired for the workspace and the generation of the installation, and
    it was found not aborted right before [s1]. *)
Definition under_lease (c : Claims) (i : Installation) (lease : nat) (s1 : S) : Prop :=
  ∃ s0 sl, deps.(acquire) c.(claims_workspace) i.(generation) s0 = (inr lease, sl) ∧
    deps.(lease_aborted) lease sl = (inr false, s1).

(** The claimed dispatch: [s1] is the state in which the preview is claimed. *)
Definition dispatched_once (R : S → S → Prop) (c : Claims) (r : PendingConfirmationRecord) (nonce : jstr)
    (s1 : S) (res : failure + ConfirmSingleOutcome) (s' : S) : Prop :=
  ∃ op plan i lease s2 out s3 s4,
    (op = deps.(as_confirmable) r.(operation) ∧ op.(op_mutationPlan) = Some plan ∧
     isV2AssistantPreviewConfirmation r = true ∧ i.(installation_active) = true ∧
     authorized_now c i op ∧ operation_matches r ∧
     r.(installationGeneration) = Some i.(generation) ∧ op.(op_installationGeneration) = Some i.(generation) ∧
     ∃ now claimed, confirmPending sha256 r c.(claims_session) c.(claims_workspace) c.(claims_admin) nonce
       deps.(sessionSecret) now (Some (deps.(fingerprint) op.(op_actionName))) (Some deps.(catalogHash_of))
       = Ok (inr claimed)) ∧
    under_lease c i lease s1 ∧
    deps.(markConfirmationExecuting) r.(id) s1 = (inr true, s2) ∧
    dispatchWrite c r i lease op plan s2 = (out, s3) ∧
    R s3 s4 ∧ deps.(release_lease) lease s4 = (inr tt, s') ∧
    reported c i r op.(op_actionName) out res.

Section Once.
Context (R : S → S → Prop) `{!Reflexive R, !Transitive R} (Hports : ports_keep R) (Hrel : releases).

(** [ends] of file Effects, for a call that confirms. *)
Abbreviation ends P := (Effects.ends R not_confirmed P).

Lemma ends_reject P status code m : ends P (eret (Rejected status code m)).
Proof. by apply ends_eret. Qed.
Lemma ends_throw P e : ends P (ethrow e).
Proof. by apply ends_ethrow. Qed.
Lemma ends_after {A} P (c : E S A) (k : A → E S ConfirmSingleOutcome) :
  respects R c → (∀ a s s1, c s = (inr a, s1) → ends P (k a)) → ends P (ebind c k).
Proof. intros Hc Hk. by apply ends_bind. Qed.

Lemma settle_attempts_exact n r name v s :
  ∃ ref s', settle_attempts n r name v s = (inr ref, s') ∧ R s s' ∧
    (ref ≠ None → ∃ s4 a s5,
       deps.(settleConfirmedOperation) r.(id) (terminal_status v) name v s4 = (inr a, s5)).
Proof.
  revert s. induction n as [|n IH]; intros s; simpl; [by exists None, s|].
  unfold ebind, eattempt. pose proof (keep_settle _ Hports r.(id) (terminal_status v) name v s) as Hk.
  destruct (deps.(settleConfirmedOperation) _ _ _ _ s) as [[e|a] s1] eqn:Hs; simpl in Hk.
  - destruct (IH s1) as (ref & s2 & -> & HR & Href). exists ref, s2. split; [done|]. split; [by etrans|done].
  - exists (Some a), s1. split; [done|]. split; [done|]. eauto.
Qed.

Lemma dispatch_exact c r i lease op plan s out s3 :
  dispatchWrite c r i lease op plan s = (out, s3) →
  ∃ res s4, dispatchConfirmedPreview c r i lease op plan s = (res, s4) ∧ R s3 s4 ∧
    reported c i r op.(op_actionName) out (match res with inl e => inl e | inr x => inr (confirmed_outcome x) end).
Proof.
  intros Hd. unfold dispatchConfirmedPreview, ebind at 1. rewrite Hd. destruct out as [e|v]; [by exists (inl e), s3|].
  destruct (settle_attempts_exact 2 r op.(op_actionName) v s3) as (ref & s4 & Hs & HR & Href).
  unfold ebind at 1. rewrite Hs. destruct ref as [a|].
  - unfold ebind. pose proof (keep_undo _ Hports c i.(generation) (receipt_part v) s4) as Hk.
    destruct (deps.(recordUndoIfReversible) c _ _ s4) as [[e|undo] s5] eqn:Hu; simpl in Hk.
    + exists (inl e), s5. split; [done|]. split; [by etrans|]. right. eauto.
    + exists (inr (v, Some a, undo)), s5. split; [done|]. split; [by etrans|]. left.
      exists undo, false. split; [done|]. intros _. by apply Href.
  - exists (inr (v, None, None)), s4. split; [done|]. split; [done|]. left. by exists None, true.
Qed.

Lemma record_exact c r i lease op plan s out s3 :
  dispatchWrite c r i lease op plan s = (out, s3) →
  R s3 (dispatch_and_record c r i lease op plan s).2 ∧
  reported c i r op.(op_actionName) out (dispatch_and_record c r i lease op plan s).1.
Proof.
  intros Hd. destruct (dispatch_exact _ _ _ _ _ _ _ _ _ Hd) as (res & s4 & Hres & HR & Hrep).
  unfold dispatch_and_record. rewrite !ebind_at, Hres. destruct res as [e|x]; [done|]. unfold ebind, etry.
  pose proof (keep_settle_run _ Hports r x.1.2 s4) as Hsr.
  destruct (deps.(settleV2ConfirmationRun) r x.1.2 s4) as [[e|[]] s5]; simpl in *; (split; [by etrans|done]).
Qed.

Lemma claimed_exact c r nonce i lease op plan s0 sl :
  deps.(acquire) c.(claims_workspace) i.(generation) s0 = (inr lease, sl) →
  (∀ s1 s2 out s3 s4 s' res, under_lease c i lease s1 → deps.(markConfirmationExecuting) r.(id) s1 = (inr true, s2) →
     dispatchWrite c r i lease op plan s2 = (out, s3) → R s3 s4 →
     deps.(release_lease) lease s4 = (inr tt, s') → reported c i r op.(op_actionName) out res →
     dispatched_once R c r nonce s1 res s') →
  ends_at R not_confirmed (dispatched_once R c r nonce) (confirm_under_lease c r i lease op plan) sl.
Proof.
  intros Hacq Hgates. unfold ends_at, confirm_under_lease, reject. rewrite !ebind_at.
  pose proof (keep_aborted _ Hports lease sl) as Hka.
  destruct (deps.(lease_aborted) lease sl) as [[e|[]] s] eqn:Hab; simpl in Hka; [by left| |].
  { left. rewrite !ebind_at. pose proof (keep_release _ Hports lease s) as Hr.
    destruct (deps.(release_lease) lease s) as [[e|[]] s3]; simpl in *; (split; [by etrans|done]). }
  rewrite !ebind_at. pose proof (keep_mark _ Hports r.(id) s) as Hk.
  destruct (deps.(markConfirmationExecuting) r.(id) s) as [[e|[]] s2] eqn:Hm; simpl in Hk.
  - left. split; [by etrans|done].
  - right. exists s. split; [done|]. destruct (dispatchWrite c r i lease op plan s2) as [out s3] eqn:Hd.
    destruct (record_exact _ _ _ _ _ _ _ _ _ Hd) as (HR & Hrep).
    destruct (efinally_exact (dispatch_and_record c r i lease op plan) _ s2 (Hrel lease)) as (s5 & Hl & Hs5).
    unfold with_lease. rewrite Hl. cbn [fst snd]. eapply Hgates; try done. by exists s0, sl.
  - left. rewrite !ebind_at. pose proof (keep_release _ Hports lease s2) as Hr.
    destruct (deps.(release_lease) lease s2) as [[e|[]] s3]; simpl in *; (split; [by do 2 (etrans; [done|])|done]).
Qed.

Lemma authority_respects c i op : respects R (current_authority c i op).
Proof.
  unfold current_authority. respects_by ltac:(first [apply (keep_policy _ Hports) | apply (keep_verify _ Hports)]).
Qed.

Lemma authority_granted c i op s s' : current_authority c i op s = (inr None, s') → authorized_now c i op.
Proof.
  unfold current_authority, authorized_now. intros (denied & s1 & Hd & H)%ebind_ok.
  destruct denied; [done|]. apply ebind_ok in H as (x & s2 & Hv & H). destruct x as [[[st code] m]|]; [done|].
  split; [|eauto]. case_bool_decide; [by left|right]. apply ebind_ok in Hd as (p & s3 & Hp & Hd).
  exists s, p, s3. split; [done|]. injection Hd as Hw _. by apply negb_false_iff in Hw.
Qed.

Lemma preview_matches s run s' r :
  deps.(getOperationRun) r.(operationId) s = (inr (Some run), s') →
  Plan.preparedAssistantPreviewMatchesConfirmation run r = true → operation_matches r.
Proof.
  intros Hrun. unfold Plan.preparedAssistantPreviewMatchesConfirmation. rewrite !andb_true_iff, !bool_decide_eq_true.
  intros H. exists s, run, s'. naive_solver.
Qed.

Lemma prepared_ends c r nonce op plan :
  op = deps.(as_confirmable) r.(operation) → op.(op_mutationPlan) = Some plan →
  isV2AssistantPreviewConfirmation r = true → operation_matches r →
  (∃ now claimed, confirmPending sha256 r c.(claims_session) c.(claims_workspace) c.(claims_admin) nonce
     deps.(sessionSecret) now (Some (deps.(fingerprint) op.(op_actionName))) (Some deps.(catalogHash_of))
     = Ok (inr claimed)) →
  ends (dispatched_once R c r nonce) (confirm_prepared c r op plan).
Proof.
  intros Hop Hplan Hv2 Hmatch Hok. unfold confirm_prepared, installation_changed, reject.
  apply ends_after; [apply Hports|]. intros [i|] _ _ _; [|apply ends_reject].
  destruct (installation_active i) eqn:Hact; simpl; [|apply ends_reject].
  case_bool_decide as Hg; simpl; [|apply ends_reject]. case_bool_decide as Hg2; simpl; [|apply ends_reject].
  apply ends_after; [apply authority_respects|]. intros [refusal|] sa sb Hauth.
  { unfold current_authority in Hauth. intros s. left. split; [done|]. simpl.
    apply ebind_ok in Hauth as (denied & s1 & _ & Hauth). destruct denied; [by injection Hauth as <- <-|].
    apply ebind_ok in Hauth as (x & s2 & _ & Hauth). unfold eret in Hauth.
    destruct x as [[[st code] m]|]; injection Hauth as Hr Hs; by subst. }
  apply authority_granted in Hauth. apply ends_bind_at; [apply _|done|apply respects_attempt, Hports|].
  intros [e|lease] s0 sl Hacq; [destruct (revoked_error e); [apply ends_reject|apply ends_throw]|].
  assert (deps.(acquire) c.(claims_workspace) i.(generation) s0 = (inr lease, sl)) as Hlease
    by (unfold eattempt in Hacq; destruct (deps.(acquire) _ _ s0) as [x y]; by injection Hacq as -> ->).
  eapply claimed_exact; [exact Hlease|]. intros s1 s2 out s3 s4 s' res Hul Hm Hd HR Hl Hrep.
  exists op, plan, i, lease, s2, out, s3, s4. by split_and!.
Qed.

Lemma confirm_ends c r nonce : ends (dispatched_once R c r nonce) (confirmSingle c r nonce).
Proof.
  unfold confirmSingle, reject, installation_changed.
  destruct (isBatchOwnedConfirmation r); [apply ends_reject|].
  destruct (isV2AssistantPreviewConfirmation r) eqn:Hv2; simpl; [|apply ends_reject].
  apply ends_after; [apply Hports|]. intros now _ _ _.
  apply ends_after; [unfold elift, error; respects_by fail|]. intros validation s s1 Hval.
  destruct validation as [[|code m]|claimed]; [apply ends_reject| |].
  { apply ends_after; [|intros _ _ _ _; apply ends_reject].
    case_match; [apply Hports|apply respects_ret, _]. }
  destruct (op_mutationPlan _) as [plan|] eqn:Hplan; [|apply ends_reject].
  destruct (negb (safe_generation _) || _); [apply ends_reject|].
  apply ends_after; [apply Hports|]. intros [run|] _ _ _; [|apply ends_reject].
  case_bool_decide; simpl; [|apply ends_reject].
  apply ends_after; [apply Hports|]. intros [run'|] sa sb Hagain; [|apply ends_reject].
  destruct (Plan.preparedAssistantPreviewMatchesConfirmation run' r) eqn:Hmatch; [|apply ends_reject].
  apply prepared_ends; [done..|by eapply preview_matches|]. exists now, claimed. unfold elift, eret, error, ethrow in Hval.
  by case_match; simplify_eq.
Qed.
End Once.

(** C1: One click, one dispatch.  Take any relation on states that the ports keep (that no
    request was sent, say).  A call of [confirmSingle] either stays within it and reports
    no confirmation, or it dispatched the stored write exactly once: the nonce, the owner
    and the catalog passed the preview's gate, the stored operation is prepared and carries
    the preview's hashes, the preview and the operation carry the active installation's
    generation, the current policy and role allow the write, a lease of the workspace at that
    generation was acquired and was not aborted right before this call alone moved the
    preview from pending to executing.  That lease is given back last.  The caller is told the result of exactly
    that dispatch, "degraded" only if it could not be stored; it is lost only if the
    dispatch threw or the undo bookkeeping did after it. *)
Theorem confirm_dispatches_once R c r nonce s res s' :
  PreOrder R → ports_keep R → releases →
  confirmSingle c r nonce s = (res, s') →
  (R s s' ∧ not_confirmed res) ∨ ∃ s1, R s s1 ∧ dispatched_once R c r nonce s1 res s'.
Proof.
  intros [HRr HRt] Hports Hrel Hrun. pose proof (confirm_ends R Hports Hrel c r nonce s) as He. unfold ends_at in He.
  by rewrite Hrun in He.
Qed.
End Service.
