(* ===== verification/ConfirmBatch.v ===== *)
(** * Confirming a batch

    [services/confirmation-service.ts]: [confirmBatch], which walks the members of a
    Confirm-all batch in their stored order and dispatches each pending one through
    [dispatchConfirmedPreview], and [cancelBatch].  The rows of the batch are behind ports,
    as the rest of the store is in file ConfirmService. *)
From S2P Require Import Prelude Js SafeJson ActionResults RunTables Db Policy Effects PlanScope Receipts Workflow Commit Execute Confirmations Plan Batches RunSettle ConfirmService.
From S2P Require HostBudget SafetyLimits.
Import Permissions Risk.
Open Scope Z_scope.
#[local] Arguments u : simpl never.

Record ConfirmBatchItemInput := { body_confirmation : jstr; body_nonce : option jstr }.

Record ConfirmBatchItemOutcome := {
  outcome_confirmation : jstr;
  outcome_operation : jstr;
  outcome_status : ActionResultKind;
  outcome_receipt : jsval;
  outcome_partial : option jsval;
  outcome_undo : option jstr;
  outcome_replayed : bool;
}.

(** [installation] is left out of the answer. *)
Inductive ConfirmBatchOutcome : Type :=
| BatchRejected (status : Z) (code message : jstr)
| BatchConfirmed (status : BatchStatus) (items : list ConfirmBatchItemOutcome) (degraded : bool).

(** ** The status of a batch *)

Definition summarizeBatchStatus (items : list ConfirmBatchItemOutcome) : BatchStatus :=
  let count k := length (filter (λ o, o.(outcome_status) = k) items) in
  if existsb (λ o, bool_decide (o.(outcome_status) = outcome_unknown)) items then BOutcomeUnknown
  else if existsb (λ o, bool_decide (o.(outcome_status) = partial)) items then BPartial
  else if (0 <? count definitive_failed)%nat && (0 <? count succeeded)%nat then BPartial
  else if (count definitive_failed =? length items)%nat then BDefinitiveFailed
  else BSucceeded.

(** What a member's row says of a terminal status; [partial] is stored as succeeded. *)
Definition stored_item_status (k : ActionResultKind) : ItemStatus :=
  match k with
  | partial | succeeded => ISucceeded
  | definitive_failed => IDefinitiveFailed
  | outcome_unknown => IOutcomeUnknown
  end.

Definition status_of_record (s : PendingStatus) : ActionResultKind :=
  match s with
  | PPartial => partial
  | PSucceeded => succeeded
  | POutcomeUnknown => outcome_unknown
  | _ => definitive_failed
  end.

Definition has_kind (name : string) (v : jsval) : bool :=
  is_object v && match prop (u "kind") v with VStr k => bool_decide (k = u name) | _ => false end.

(** The receipt inside a stored result, and the partial result itself. *)
Definition stored_receipt (stored : jsval) : jsval * option jsval :=
  if has_kind "partial" stored then (prop (u "receipt") stored, Some stored)
  else if has_kind "receipt" stored then (prop (u "receipt") stored, None)
  else (stored, None).

(** Reading a property of [undefined]. *)
Definition type_error {S A} (name : string) : E S A :=
  ethrow (OtherError (u "TypeError") (u "Cannot read properties of undefined (reading '" ++ u name ++ u "')")).

Definition terminal_batch (s : BatchStatus) : bool := negb (active_batch s).

Section Batch.
Context {S : Type} `{!MutationHost S} (sha256 : jstr → jstr) (deps : ConfirmationServiceDeps (S := S)).

(** ** The rows of a batch *)

Record BatchPorts := {
  getScopedConfirmationBatch : jstr → Claims → E S (option BatchRow);
  recoverConfirmationBatch : jstr → Z → E S unit;
  getConfirmationBatch : jstr → E S (option BatchRow);
  listConfirmationBatchItems : jstr → E S (list BatchItemRow);
  getPendingConfirmation : jstr → E S (option PendingConfirmationRecord);
  getActionResult : jstr → E S (option jsval);
  updateConfirmationBatchStatus : jstr → BatchStatus → Z → E S unit;
  updateConfirmationBatchItemStatus : jstr → nat → ItemStatus → BatchPatch → E S unit;
  markConfirmationBatchExecuting : jstr → E S bool;
  advanceConfirmationBatchProgress : jstr → nat → Z → E S unit;
  cancelUndispatchedBatchItems : jstr → nat → Z → E S unit;
  settleV2ConfirmationBatchRun : jstr → SettleKind → E S bool;
  cancelConfirmation : jstr → E S unit;
}.

Context (ports : BatchPorts) (onItem : option ConfirmBatchItemOutcome → E S unit).

Definition rejectBatch {A} (status : Z) (code message : string) : E S (ConfirmBatchOutcome + A) :=
  eret (inl (BatchRejected status (u code) (u message))).

(** The outcome a settled member is replayed with. *)
Definition terminalItemOutcome (i : BatchItemRow) (record : option PendingConfirmationRecord)
    : E S (option ConfirmBatchItemOutcome) :=
  match column i.(item_result_id) with
  | None => eret None
  | Some a =>
      match record with
      | None => type_error "status"
      | Some r =>
          if bool_decide (r.(Confirmations.status) = PPending) || bool_decide (r.(Confirmations.status) = PExecuting)
          then eret None
          else
            let* stored := ports.(getActionResult) a in
            eret (match stored with
                  | Some v =>
                      if truthy_value v
                      then Some {| outcome_confirmation := i.(item_confirmation); outcome_operation := i.(item_operation);
                                   outcome_status := status_of_record r.(Confirmations.status);
                                   outcome_receipt := (stored_receipt v).1; outcome_partial := (stored_receipt v).2;
                                   outcome_undo := None; outcome_replayed := true |}
                      else None
                  | None => None
                  end)
      end
  end.
Definition replay_item (i : BatchItemRow) : E S (option ConfirmBatchItemOutcome) :=
  let* record := ports.(getPendingConfirmation) i.(item_confirmation) in terminalItemOutcome i record.

(** Every member of a batch that is over, in order. *)
Fixpoint replay_members (l : list BatchItemRow) (acc : list ConfirmBatchItemOutcome)
    : E S (ConfirmBatchOutcome + list ConfirmBatchItemOutcome) :=
  match l with
  | [] => eret (inr acc)
  | i :: l' =>
      let* record := ports.(getPendingConfirmation) i.(item_confirmation) in
      match record with
      | None => rejectBatch 409 "batch_integrity_failed" "A batch member is no longer available."
      | Some r =>
          let* replay := terminalItemOutcome i (Some r) in
          match replay with
          | None => rejectBatch 409 "batch_incomplete" "The stored batch is not fully settled for replay."
          | Some o => let* _ := onItem (Some o) in replay_members l' (acc ++ [o])
          end
      end
  end.
Definition replay_batch (c : Claims) (b : BatchRow) (items : list BatchItemRow) : E S ConfirmBatchOutcome :=
  let* replayed := replay_members items [] in
  match replayed with
  | inl refusal => eret refusal
  | inr l =>
      let* _ := deps.(getInstallation) c.(claims_workspace) in
      eret (BatchConfirmed b.(batch_status) l false)
  end.

(** ** Before anything is dispatched *)

Record Member := { member_index : nat; member_item : BatchItemRow; member_body : ConfirmBatchItemInput }.
Definition members_from (from : nat) (items : list BatchItemRow) (bodies : list ConfirmBatchItemInput) : list Member :=
  drop from (imap (λ n x, {| member_index := n; member_item := x.1; member_body := x.2 |}) (zip items bodies)).

(** The validation pass: nothing is emitted. *)
Fixpoint check_members (id : jstr) (l : list Member) : E S (ConfirmBatchOutcome + unit) :=
  match l with
  | [] => eret (inr tt)
  | m :: l' =>
      let* record := ports.(getPendingConfirmation) m.(member_item).(item_confirmation) in
      match record with
      | Some r =>
          if negb (bool_decide (r.(batchId) = Some id))
          then rejectBatch 409 "batch_integrity_failed" "A batch member is no longer available."
          else if negb (item_is IPending m.(member_item)) then
            let* replay := terminalItemOutcome m.(member_item) (Some r) in
            match replay with
            | None => rejectBatch 409 "batch_incomplete" "The stored batch is not fully settled for replay."
            | Some _ => check_members id l'
            end
          else if bool_decide (column m.(member_body).(body_nonce) = None)
          then rejectBatch 400 "invalid_confirmation" "A live batch member requires its confirmation nonce."
          else check_members id l'
      | None => rejectBatch 409 "batch_integrity_failed" "A batch member is no longer available."
      end
  end.

(** [new Date(batch.expiresAt)], against a clock read of its own. *)
Definition batch_over (b : BatchRow) : E S bool :=
  match b.(batch_expires_at) with
  | None => eret true
  | Some e => let* t := deps.(now_ms) in eret (e <=? t)
  end.

Definition settleBatchRunBestEffort (id : jstr) (k : SettleKind) : E S unit :=
  etry (let* _ := ports.(settleV2ConfirmationBatchRun) id k in eret tt) (λ _, eret tt).

(** ** One member *)

(** A refusal in the loop gives the lease back before it is returned. *)
Definition refuse_member {A} (lease : nat) (status : Z) (code message : jstr) : E S (ConfirmBatchOutcome + A) :=
  let* _ := deps.(release_lease) lease in eret (inl (BatchRejected status code message)).
Definition refuse {A} (lease : nat) (status : Z) (code message : string) : E S (ConfirmBatchOutcome + A) :=
  refuse_member lease status (u code) (u message).

(** The policy, read again for each member. *)
Definition member_denied (c : Claims) (op : ConfirmableOperation) : E S bool :=
  if bool_decide (PermissionChange ∈ op.(op_risks)) then eret false
  else let* p := deps.(loadPolicy) c.(claims_workspace) c.(claims_admin) in eret (negb (canWrite p op.(op_featureGroup))).

(** From the stored operation to the claim of the preview. *)
Definition claim_member (c : Claims) (lease : nat) (r : PendingConfirmationRecord) (op : ConfirmableOperation)
    (plan : SafetyLimits.ExternalMutationPlan)
    : E S (ConfirmBatchOutcome + ConfirmableOperation * SafetyLimits.ExternalMutationPlan) :=
  let* run := deps.(getOperationRun) r.(operationId) in
  match run with
  | None => refuse lease 409 "operation_not_prepared" "The stored operation is no longer prepared."
  | Some run =>
      if negb (bool_decide (run.(Db.run_status) = RunPrepared))
      then refuse lease 409 "operation_not_prepared" "The stored operation is no longer prepared."
      else
        let* again := deps.(getOperationRun) r.(operationId) in
        if match again with Some run' => preparedAssistantPreviewMatchesConfirmation run' r | None => false end then
          let* denied := member_denied c op in
          if (denied : bool)
          then refuse_member lease 400 (u "policy_denied") (accessDeniedMessage (group_name op.(op_featureGroup)) "write")
          else
            let* claimed := deps.(markConfirmationExecuting) r.(id) in
            if (claimed : bool) then eret (inr (op, plan))
            else refuse lease 409 "already_used" "This preview was already used."
        else refuse lease 409 "operation_mismatch" "The stored operation no longer matches this preview."
  end.

(** [confirmPending] and the checks of [confirmBatch] on one preview. *)
Definition gate_member (c : Claims) (i : Installation) (lease : nat) (r : PendingConfirmationRecord) (nonce : jstr)
    : E S (ConfirmBatchOutcome + ConfirmableOperation * SafetyLimits.ExternalMutationPlan) :=
  if negb (isV2AssistantBatchConfirmation r)
  then refuse lease 400 "incompatible_confirmation" "This preview is not a v2 assistant batch confirmation."
  else
    let op := deps.(as_confirmable) r.(operation) in
    let* now := deps.(now_ms) in
    let* validation := elift (confirmPending sha256 r c.(claims_session) c.(claims_workspace) c.(claims_admin)
      nonce deps.(sessionSecret) now (Some (deps.(fingerprint) op.(op_actionName))) (Some deps.(catalogHash_of))) in
    match validation with
    | inl (Refuse code m) =>
        let* _ := (if String.eqb code "expired" then deps.(expireConfirmation) r.(id) else eret tt) in
        refuse lease 400 code m
    | inl Pass => refuse lease 400 "" ""      (* no refusal is [Pass] *)
    | inr _ =>
        match op.(op_mutationPlan) with
        | None => refuse lease 400 "invalid_mutation_plan" "The stored preview is missing its host plan."
        | Some plan =>
            if negb (safe_generation r.(installationGeneration)) ||
               negb (bool_decide (op.(op_installationGeneration) = r.(installationGeneration))) ||
               negb (bool_decide (r.(installationGeneration) = Some i.(generation))) ||
               negb (bool_decide (op.(op_installationGeneration) = Some i.(generation)))
            then refuse lease 409 "installation_changed"
                   "The Clockify installation changed after this preview was created. Create a fresh preview."
            else claim_member c lease r op plan
        end
    end.

Definition dispatched_outcome (r : PendingConfirmationRecord) (result : jsval) (undoId : option jstr)
    : ConfirmBatchItemOutcome :=
  {| outcome_confirmation := r.(Confirmations.id); outcome_operation := r.(operationId);
     outcome_status := terminal_status result; outcome_receipt := receipt_part result;
     outcome_partial := if isPartialCommitResult result then Some result else None;
     outcome_undo := undoId; outcome_replayed := false |}.

Definition item_patch (result : option jstr) (started completed : option Z) : BatchPatch :=
  {| patch_index := None; patch_result := result; patch_started := started; patch_completed := completed |}.

(** What is written after a dispatch: the row of the member, the progress, the stop. *)
Definition record_member (id : jstr) (now : Z) (index : nat) (r : PendingConfirmationRecord) (o : ConfirmBatchItemOutcome)
    : E S unit :=
  let* settled := ports.(getPendingConfirmation) r.(Confirmations.id) in
  let* _ := ports.(updateConfirmationBatchItemStatus) id index (stored_item_status o.(outcome_status))
    (item_patch (settled ≫= actionResultId) None (Some now)) in
  let* _ := ports.(advanceConfirmationBatchProgress) id (Datatypes.S index) now in
  let* _ := onItem (Some o) in
  if bool_decide (o.(outcome_status) = outcome_unknown) then
    let* _ := ports.(cancelUndispatchedBatchItems) id (Datatypes.S index) now in
    ports.(updateConfirmationBatchStatus) id BOutcomeUnknown now
  else eret tt.

(** One pending member: its outcome, and whether its result could not be stored. *)
Definition confirm_member (c : Claims) (id : jstr) (now : Z) (i : Installation) (lease : nat) (m : Member)
    : E S (ConfirmBatchOutcome + ConfirmBatchItemOutcome * bool) :=
  let* record := ports.(getPendingConfirmation) m.(member_item).(item_confirmation) in
  match record with
  | None => type_error "origin"
  | Some r =>
      let* gate := gate_member c i lease r (default [] m.(member_body).(body_nonce)) in
      match gate with
      | inl refusal => eret (inl refusal)
      | inr (op, plan) =>
          let* _ := ports.(updateConfirmationBatchItemStatus) id m.(member_index) IExecuting (item_patch None (Some now) None) in
          let* x := dispatchConfirmedPreview sha256 deps c r i lease op plan in
          let o := dispatched_outcome r x.1.1 x.2 in
          let* _ := record_member id now m.(member_index) r o in
          eret (inr (o, bool_decide (x.1.2 = None)))
      end
  end.

(** A member that was settled before is replayed. *)
Definition replay_member (m : Member) : E S (list ConfirmBatchItemOutcome) :=
  let* replay := replay_item m.(member_item) in
  let* _ := onItem replay in
  eret (match replay with Some o => [o] | None => [] end).

(** [outcomes], [persistenceDegraded] and [stopRemaining] at the end of the loop. *)
Fixpoint dispatch_members (c : Claims) (id : jstr) (now : Z) (i : Installation) (lease : nat) (l : list Member)
    (acc : list ConfirmBatchItemOutcome) (degraded : bool)
    : E S (ConfirmBatchOutcome + list ConfirmBatchItemOutcome * bool * bool) :=
  match l with
  | [] => eret (inr (acc, degraded, false))
  | m :: l' =>
      if item_is IPending m.(member_item) then
        let* x := confirm_member c id now i lease m in
        match x with
        | inl refusal => eret (inl refusal)
        | inr (o, d) =>
            if bool_decide (o.(outcome_status) = outcome_unknown)
            then eret (inr (acc ++ [o], degraded || d, true))
            else dispatch_members c id now i lease l' (acc ++ [o]) (degraded || d)
        end
      else
        let* l0 := replay_member m in
        dispatch_members c id now i lease l' (acc ++ l0) degraded
  end.

(** ** After the last dispatch *)

Fixpoint prior_outcomes (l : list BatchItemRow) : E S (list ConfirmBatchItemOutcome) :=
  match l with
  | [] => eret []
  | i :: l' =>
      let* replay := replay_item i in
      let* rest := prior_outcomes l' in
      eret (match replay with Some o => o :: rest | None => rest end)
  end.

Definition find_outcome (outcomes : list ConfirmBatchItemOutcome) (pid : jstr) : option ConfirmBatchItemOutcome :=
  snd <$> list_find (λ o, o.(outcome_confirmation) = pid) outcomes.

(** The answer: what is stored, or else what this call saw. *)
Fixpoint final_items (outcomes : list ConfirmBatchItemOutcome) (l : list BatchItemRow)
    : E S (list ConfirmBatchItemOutcome) :=
  match l with
  | [] => eret []
  | i :: l' =>
      let* replay := replay_item i in
      let* rest := final_items outcomes l' in
      eret (match match replay with Some o => Some o | None => find_outcome outcomes i.(item_confirmation) end with
            | Some o => o :: rest
            | None => rest
            end)
  end.

Definition final_status (id : jstr) (now : Z) (b : BatchRow) (items : list BatchItemRow)
    (outcomes : list ConfirmBatchItemOutcome) (stopped : bool) : E S (option BatchStatus) :=
  if stopped then
    let* b := ports.(getConfirmationBatch) id in
    eret (batch_status <$> b)
  else
    let* prior := prior_outcomes (take (Z.to_nat b.(current_index)) items) in
    let status := summarizeBatchStatus (prior ++ outcomes) in
    let* _ := ports.(updateConfirmationBatchStatus) id status now in
    eret (Some status).

Definition finish_batch (id : jstr) (now : Z) (b : BatchRow) (items : list BatchItemRow)
    (x : list ConfirmBatchItemOutcome * bool * bool) : E S ConfirmBatchOutcome :=
  let '(outcomes, degraded, stopped) := x in
  let* status := final_status id now b items outcomes stopped in
  let* _ := settleBatchRunBestEffort id settle_confirmed in
  let* rows := ports.(listConfirmationBatchItems) id in
  let* items := final_items outcomes rows in
  match status with
  | Some status => eret (BatchConfirmed status items degraded)
  | None => type_error "status"
  end.

(** ** The batch *)

(** Behind the role check: the lease, the claim of the batch, the members. *)
Definition run_batch (c : Claims) (id : jstr) (now : Z) (b : BatchRow) (items : list BatchItemRow)
    (members : list Member) (i : Installation) : E S ConfirmBatchOutcome :=
  let* lease := eattempt (deps.(acquire) c.(claims_workspace) i.(generation)) in
  match lease with
  | inl e => match revoked_error e with
             | Some m => eret (BatchRejected 409 (u "installation_changed") m)
             | None => ethrow e
             end
  | inr lease =>
      let* aborted := deps.(lease_aborted) lease in
      if (aborted : bool) then
        let* _ := deps.(release_lease) lease in
        eret (BatchRejected 409 (u "request_cancelled") (u "The confirmation was cancelled before dispatch. No change was made."))
      else
        let* started := (if batch_is BPending b then ports.(markConfirmationBatchExecuting) id else eret true) in
        if (started : bool) then
          let* x := with_lease deps lease (dispatch_members c id now i lease members [] false) in
          match x with
          | inl refusal => eret refusal
          | inr x => finish_batch id now b items x
          end
        else
          let* _ := deps.(release_lease) lease in
          eret (BatchRejected 409 (u "already_used") (u "This batch was already used."))
  end.

Definition start_batch (c : Claims) (id : jstr) (now : Z) (b : BatchRow) (items : list BatchItemRow)
    (bodies : list ConfirmBatchItemInput) : E S ConfirmBatchOutcome :=
  let members := members_from (Z.to_nat b.(current_index)) items bodies in
  let* checked := check_members id members in
  match checked with
  | inl refusal => eret refusal
  | inr _ =>
      let* installation := deps.(getInstallation) c.(claims_workspace) in
      match installation with
      | Some i =>
          if i.(installation_active) then
            let* authority := deps.(verifyWriteAuthority) c i in
            match authority with
            | Some (status, code, m) => eret (BatchRejected status code m)
            | None => run_batch c id now b items members i
            end
          else eret (BatchRejected 503 (u "role_verification_unavailable")
                       (u "The add-on is not active for this workspace. No change was made."))
      | None => eret (BatchRejected 503 (u "role_verification_unavailable")
                        (u "The add-on is not active for this workspace. No change was made."))
      end
  end.

Definition same_order (items : list BatchItemRow) (bodies : list ConfirmBatchItemInput) : bool :=
  bool_decide ((body_confirmation <$> bodies) = (item_confirmation <$> items)).
Definition member_tuple (i : BatchItemRow) : BatchMember :=
  {| member_confirmation := i.(item_confirmation); member_operation := i.(item_operation) |}.

Definition confirmBatch (c : Claims) (id : jstr) (bodies : list ConfirmBatchItemInput) : E S ConfirmBatchOutcome :=
  let* now := deps.(now_ms) in
  let* scoped := ports.(getScopedConfirmationBatch) id c in
  match scoped with
  | None => eret (BatchRejected 404 (u "not_found") (u "No such confirmation batch."))
  | Some _ =>
      let* _ := ports.(recoverConfirmationBatch) id now in
      let* b := ports.(getConfirmationBatch) id in
      let* items := ports.(listConfirmationBatchItems) id in
      if negb (length bodies =? length items)%nat
      then eret (BatchRejected 400 (u "batch_items_mismatch")
                   (u "The confirmation batch members do not match the stored preview."))
      else if negb (same_order items bodies)
      then eret (BatchRejected 400 (u "batch_items_mismatch")
                   (u "The confirmation batch members do not match the stored preview order."))
      else
        match b with
        | None => type_error "orderedTupleHash"
        | Some b =>
            if negb (bool_decide (computeOrderedTupleHash sha256 (member_tuple <$> items) = b.(ordered_tuple_hash)))
            then eret (BatchRejected 409 (u "batch_integrity_failed")
                         (u "The stored batch no longer matches its membership hash."))
            else
              let* over := batch_over b in
              if (over : bool) then
                let* _ := ports.(updateConfirmationBatchStatus) id BExpired now in
                let* _ := settleBatchRunBestEffort id settle_expired in
                eret (BatchRejected 400 (u "expired") (u "This confirmation batch has expired. Ask me to run a fresh preview."))
              else if terminal_batch b.(batch_status) then replay_batch c b items
              else start_batch c id now b items bodies
        end
  end.

(** ** Cancelling it *)

Fixpoint cancel_members (l : list BatchItemRow) : E S unit :=
  match l with
  | [] => eret tt
  | i :: l' =>
      let* record := ports.(getPendingConfirmation) i.(item_confirmation) in
      let* _ := (if match record with Some r => bool_decide (r.(Confirmations.status) = PPending) | None => false end
                 then ports.(cancelConfirmation) i.(item_confirmation) else eret tt) in
      cancel_members l'
  end.

(** [None] when the batch is cancelled. *)
Definition cancelBatch (c : Claims) (id : jstr) : E S (option (Z * jstr * jstr)) :=
  let* scoped := ports.(getScopedConfirmationBatch) id c in
  match scoped with
  | None => eret (Some (404, u "not_found", u "No such confirmation batch."))
  | Some _ =>
      let* settled := ports.(settleV2ConfirmationBatchRun) id settle_cancelled in
      let* _ := (if (settled : bool) then eret tt
                 else
                   let* items := ports.(listConfirmationBatchItems) id in
                   let* _ := cancel_members items in
                   let* current := ports.(getConfirmationBatch) id in
                   if match current with Some b => batch_is BPending b | None => false end then
                     let* t := deps.(now_ms) in ports.(updateConfirmationBatchStatus) id BCancelled t
                   else eret tt) in
      eret None
  end.

(** ** What a batch does *)

(** A relation on states that every port keeps, the actions' own writes apart. *)
Record batch_ports_keep (R : S → S → Prop) : Prop := {
  keep_service : ports_keep deps R;
  keep_scoped x c : respects R (ports.(getScopedConfirmationBatch) x c);
  keep_recover x t : respects R (ports.(recoverConfirmationBatch) x t);
  keep_batch x : respects R (ports.(getConfirmationBatch) x);
  keep_items x : respects R (ports.(listConfirmationBatchItems) x);
  keep_pending x : respects R (ports.(getPendingConfirmation) x);
  keep_result x : respects R (ports.(getActionResult) x);
  keep_status x k t : respects R (ports.(updateConfirmationBatchStatus) x k t);
  keep_item x n k p : respects R (ports.(updateConfirmationBatchItemStatus) x n k p);
  keep_mark_batch x : respects R (ports.(markConfirmationBatchExecuting) x);
  keep_advance x n t : respects R (ports.(advanceConfirmationBatchProgress) x n t);
  keep_cancel_items x n t : respects R (ports.(cancelUndispatchedBatchItems) x n t);
  keep_settle_batch x k : respects R (ports.(settleV2ConfirmationBatchRun) x k);
  keep_on_item o : respects R (onItem o);
}.

(** One dispatch: the member's place, its preview, and how its write ended. *)
Record Dispatch := {
  dispatch_index : nat;
  dispatch_record : PendingConfirmationRecord;
  dispatch_result : failure + jsval;
}.

(** The batch goes on behind a dispatch that returned something known. *)
Definition went_on (x : Dispatch) : Prop :=
  ∃ v, x.(dispatch_result) = inr v ∧ terminal_status v ≠ outcome_unknown.
(** The outcome reported for a dispatch. *)
Definition fresh (x : Dispatch) (o : ConfirmBatchItemOutcome) : Prop :=
  ∃ v undoId, x.(dispatch_result) = inr v ∧ o = dispatched_outcome x.(dispatch_record) v undoId.
(** The outcome of a stored result. *)
Definition replayed (o : ConfirmBatchItemOutcome) : Prop :=
  ∃ i record s s', terminalItemOutcome i record s = (inr (Some o), s').

Section Order.
Context (R : S → S → Prop) (c : Claims) (items : list BatchItemRow) (bodies : list ConfirmBatchItemInput).
Context (i : Installation) (lease : nat).

(** The member's gates, its claim and its write: from [s1], the state in which this call
    moves the preview from pending to executing, to [s2], right behind the write. *)
Definition member_written (x : Dispatch) (s1 s2 : S) : Prop :=
  ∃ item body op plan sa sb s3 s4,
    let r := x.(dispatch_record) in
    items !! x.(dispatch_index) = Some item ∧ bodies !! x.(dispatch_index) = Some body ∧
    item.(item_status) = IPending ∧
    ports.(getPendingConfirmation) item.(item_confirmation) sa = (inr (Some r), sb) ∧
    (op = deps.(as_confirmable) r.(operation) ∧ op.(op_mutationPlan) = Some plan ∧
     isV2AssistantBatchConfirmation r = true ∧ operation_matches deps r ∧
     r.(installationGeneration) = Some i.(generation) ∧ op.(op_installationGeneration) = Some i.(generation) ∧
     (PermissionChange ∈ op.(op_risks) ∨
      ∃ s p s', deps.(loadPolicy) c.(claims_workspace) c.(claims_admin) s = (inr p, s') ∧
        canWrite p op.(op_featureGroup) = true) ∧
     ∃ now claimed, confirmPending sha256 r c.(claims_session) c.(claims_workspace) c.(claims_admin)
       (default [] body.(body_nonce)) deps.(sessionSecret) now
       (Some (deps.(fingerprint) op.(op_actionName))) (Some deps.(catalogHash_of)) = Ok (inr claimed)) ∧
    deps.(markConfirmationExecuting) r.(id) s1 = (inr true, s3) ∧ R s3 s4 ∧
    dispatchWrite sha256 deps c r i lease op plan s4 = (x.(dispatch_result), s2).

(** The dispatches of a call, at increasing places from [n] on, each behind the end of the
    one before it. *)
Inductive dispatched : nat → S → list Dispatch → S → Prop :=
| dispatched_nothing n s s' : R s s' → dispatched n s [] s'
| dispatched_member n x l s s1 s2 s' :
    (n ≤ x.(dispatch_index))%nat → R s s1 → member_written x s1 s2 → (l ≠ [] → went_on x) →
    dispatched (Datatypes.S x.(dispatch_index)) s2 l s' → dispatched n s (x :: l) s'.
End Order.
End Batch.
