(* ===== verification/ConfirmOrder.v ===== *)
(** * The members of a batch are dispatched in order

    [confirmBatch] of file ConfirmBatch: which writes a Confirm-all sends, in which order,
    and what its answer says of them. *)
From S2P Require Import Prelude Js SafeJson ActionResults RunTables Db Policy Effects PlanScope Receipts Workflow Commit Execute Confirmations Plan Batches RunSettle ConfirmService ConfirmBatch.
From S2P Require HostBudget SafetyLimits.
Import Permissions Risk.
Open Scope Z_scope.
#[local] Arguments u : simpl never.

Section Order.
Context {S : Type} `{!MutationHost S} (sha256 : jstr → jstr) (deps : ConfirmationServiceDeps (S := S)).
Context (ports : BatchPorts (S := S)) (onItem : option ConfirmBatchItemOutcome → E S unit).
Context (R : S → S → Prop) `{!Reflexive R, !Transitive R} (Hports : batch_ports_keep deps ports onItem R).

Let Hservice : ports_keep deps R := keep_service _ _ _ _ Hports.

(** ** Parts that dispatch nothing *)

Ltac port :=
  first [ apply (keep_scoped _ _ _ _ Hports) | apply (keep_recover _ _ _ _ Hports) | apply (keep_batch _ _ _ _ Hports)
        | apply (keep_items _ _ _ _ Hports) | apply (keep_pending _ _ _ _ Hports) | apply (keep_result _ _ _ _ Hports)
        | apply (keep_status _ _ _ _ Hports) | apply (keep_item _ _ _ _ Hports) | apply (keep_mark_batch _ _ _ _ Hports)
        | apply (keep_advance _ _ _ _ Hports) | apply (keep_cancel_items _ _ _ _ Hports)
        | apply (keep_settle_batch _ _ _ _ Hports) | apply (keep_on_item _ _ _ _ Hports)
        | apply (keep_now _ _ Hservice) | apply (keep_policy _ _ Hservice) | apply (keep_verify _ _ Hservice)
        | apply (keep_acquire _ _ Hservice) | apply (keep_aborted _ _ Hservice) | apply (keep_release _ _ Hservice)
        | apply (keep_undo _ _ Hservice) | apply (keep_expire _ _ Hservice) | apply (keep_run _ _ Hservice)
        | apply (keep_installation _ _ Hservice) | apply (keep_mark _ _ Hservice) | done ].
Ltac quiet := respects_by port.

Lemma respects_terminal i record : respects R (terminalItemOutcome ports i record).
Proof. unfold terminalItemOutcome, type_error. quiet. Qed.
Lemma respects_replay i : respects R (replay_item ports i).
Proof. unfold replay_item. respects_by ltac:(first [apply respects_terminal|port]). Qed.
Lemma respects_replays l acc : respects R (replay_members ports onItem l acc).
Proof.
  revert acc. induction l as [|i l IH]; intros acc; simpl; unfold rejectBatch;
    respects_by ltac:(first [apply IH|apply respects_terminal|port]).
Qed.
Lemma respects_check id l : respects R (check_members ports id l).
Proof. induction l as [|m l IH]; simpl; unfold rejectBatch; respects_by ltac:(first [apply IH|apply respects_terminal|port]). Qed.
Lemma respects_best_effort id k : respects R (settleBatchRunBestEffort ports id k).
Proof. unfold settleBatchRunBestEffort. quiet. Qed.
Lemma respects_refuse {A} lease st code m : respects R (refuse_member deps (A := A) lease st code m).
Proof. unfold refuse_member. quiet. Qed.
Lemma respects_claim c lease r op plan : respects R (claim_member deps c lease r op plan).
Proof. unfold claim_member, refuse, member_denied. respects_by ltac:(first [apply respects_refuse|port]). Qed.
Lemma respects_gate c i lease r nonce : respects R (gate_member sha256 deps c i lease r nonce).
Proof.
  unfold gate_member, refuse, elift, error. respects_by ltac:(first [apply respects_refuse|apply respects_claim|port]).
Qed.
Lemma respects_record id now n r o : respects R (record_member ports onItem id now n r o).
Proof. unfold record_member. quiet. Qed.
Lemma respects_prior l : respects R (prior_outcomes ports l).
Proof. induction l as [|i l IH]; simpl; respects_by ltac:(first [apply IH|apply respects_replay|port]). Qed.
Lemma respects_final outcomes l : respects R (final_items ports outcomes l).
Proof. induction l as [|i l IH]; simpl; respects_by ltac:(first [apply IH|apply respects_replay|port]). Qed.
Lemma respects_finish id now b items x : respects R (finish_batch ports id now b items x).
Proof.
  unfold finish_batch, final_status, type_error. destruct x as [[outcomes degraded] stopped].
  respects_by ltac:(first [apply respects_prior|apply respects_final|apply respects_best_effort|port]).
Qed.

Lemma elem_of_snoc {A} (l : list A) x y : x ∈ l ++ [y] ↔ x ∈ l ∨ x = y.
Proof. by rewrite elem_of_app, list_elem_of_singleton. Qed.

(** ** What is reported comes from the store or from this call *)

Lemma replay_replayed i o s s' : replay_item ports i s = (inr (Some o), s') → replayed ports o.
Proof. intros (record & s1 & _ & H)%ebind_ok. by exists i, record, s1, s'. Qed.

Lemma replays_replayed l acc s out s' :
  replay_members ports onItem l acc s = (inr (inr out), s') → ∀ o, o ∈ out → o ∈ acc ∨ replayed ports o.
Proof.
  revert acc s. induction l as [|i l IH]; intros acc s H o Ho; simpl in H; [injection H as <- _; by left|].
  apply ebind_ok in H as ([r|] & s1 & _ & H); [|done]. apply ebind_ok in H as ([o1|] & s2 & H2 & H); [|done].
  apply ebind_ok in H as (y & s3 & _ & H). destruct (IH _ _ H o Ho) as [[Ha| ->]%elem_of_snoc|Hr]; [by left| |by right].
  right. by exists i, (Some r), s1, s2.
Qed.

Lemma final_reported outcomes l s out s' :
  final_items ports outcomes l s = (inr out, s') → ∀ o, o ∈ out → replayed ports o ∨ o ∈ outcomes.
Proof.
  revert s out s'. induction l as [|i l IH]; intros s out s' H o Ho; simpl in H; [injection H as <- _; by apply elem_of_nil in Ho|].
  apply ebind_ok in H as (replay & s1 & H1 & H). apply ebind_ok in H as (rest & s2 & H2 & H). injection H as Hout _.
  assert (∀ o, o ∈ rest → replayed ports o ∨ o ∈ outcomes) as Hrest by (intros o2; by eapply IH).
  destruct replay as [o1|].
  - subst out. apply elem_of_cons in Ho as [->|Ho]; [left; by eapply replay_replayed|by apply Hrest].
  - destruct (find_outcome outcomes _) as [o1|] eqn:Hf; subst out; [|by apply Hrest].
    apply elem_of_cons in Ho as [->|Ho]; [|by apply Hrest]. right. unfold find_outcome in Hf.
    destruct (list_find _ outcomes) as [[k x]|] eqn:E; [|done]. injection Hf as <-.
    apply list_find_Some in E as [E _]. by eapply list_elem_of_lookup_2.
Qed.

Lemma finish_reported id now b items x s st out d s' :
  finish_batch ports id now b items x s = (inr (BatchConfirmed st out d), s') →
  ∀ o, o ∈ out → replayed ports o ∨ o ∈ x.1.1.
Proof.
  unfold finish_batch. destruct x as [[outcomes degraded] stopped]. intros H.
  apply ebind_ok in H as (status & s1 & _ & H). apply ebind_ok in H as (y & s2 & _ & H).
  apply ebind_ok in H as (rows & s3 & _ & H). apply ebind_ok in H as (l & s4 & Hl & H).
  destruct status as [status|]; [|done]. injection H as _ <- _ _. by eapply final_reported.
Qed.

(** ** One member *)

Lemma claim_member_ok c lease r op plan s op' plan' s' :
  claim_member deps c lease r op plan s = (inr (inr (op', plan')), s') →
  op' = op ∧ plan' = plan ∧ operation_matches deps r ∧
  (PermissionChange ∈ op.(op_risks) ∨
   ∃ s p s', deps.(loadPolicy) c.(claims_workspace) c.(claims_admin) s = (inr p, s') ∧ canWrite p op.(op_featureGroup) = true) ∧
  ∃ s1, R s s1 ∧ deps.(markConfirmationExecuting) r.(id) s1 = (inr true, s').
Proof.
  unfold claim_member, refuse, refuse_member. intros H.
  apply ebind_ok in H as ([run|] & s1 & H1 & H); [|by apply ebind_ok in H as (? & ? & _ & ?)].
  pose proof (keep_run _ _ Hservice r.(operationId) s) as K1. rewrite H1 in K1. simpl in K1.
  case_bool_decide as Hrun; simpl in H; [|by apply ebind_ok in H as (? & ? & _ & ?)].
  apply ebind_ok in H as ([run'|] & s2 & H2 & H); [|by apply ebind_ok in H as (? & ? & _ & ?)].
  pose proof (keep_run _ _ Hservice r.(operationId) s1) as K2. rewrite H2 in K2. simpl in K2.
  destruct (preparedAssistantPreviewMatchesConfirmation run' r) eqn:Hmatch; [|by apply ebind_ok in H as (? & ? & _ & ?)].
  apply ebind_ok in H as (denied & s3 & H3 & H). destruct denied; [by apply ebind_ok in H as (? & ? & _ & ?)|].
  apply ebind_ok in H as (claimed & s4 & H4 & H). destruct claimed; [|by apply ebind_ok in H as (? & ? & _ & ?)].
  injection H as <- <- <-. split_and!; [done|done|by eapply preview_matches| |].
  - unfold member_denied in H3. case_bool_decide; [by left|right].
    apply ebind_ok in H3 as (p & s5 & Hp & H3). exists s2, p, s5. split; [done|].
    injection H3 as Hw _. by apply negb_false_iff in Hw.
  - exists s3. split; [|done]. etrans; [exact K1|]. etrans; [exact K2|].
    assert (respects R (member_denied deps c op)) as K3 by (unfold member_denied; quiet).
    specialize (K3 s2). by rewrite H3 in K3.
Qed.

Lemma gate_member_ok c i lease r nonce s op plan s' :
  gate_member sha256 deps c i lease r nonce s = (inr (inr (op, plan)), s') →
  (op = deps.(as_confirmable) r.(operation) ∧ op.(op_mutationPlan) = Some plan ∧
   isV2AssistantBatchConfirmation r = true ∧ operation_matches deps r ∧
   r.(installationGeneration) = Some i.(generation) ∧ op.(op_installationGeneration) = Some i.(generation) ∧
   (PermissionChange ∈ op.(op_risks) ∨
    ∃ s p s', deps.(loadPolicy) c.(claims_workspace) c.(claims_admin) s = (inr p, s') ∧ canWrite p op.(op_featureGroup) = true) ∧
   ∃ now claimed, confirmPending sha256 r c.(claims_session) c.(claims_workspace) c.(claims_admin) nonce
     deps.(sessionSecret) now (Some (deps.(fingerprint) op.(op_actionName))) (Some deps.(catalogHash_of)) = Ok (inr claimed)) ∧
  ∃ s1, R s s1 ∧ deps.(markConfirmationExecuting) r.(id) s1 = (inr true, s').
Proof.
  unfold gate_member, refuse, refuse_member. intros H.
  destruct (isV2AssistantBatchConfirmation r) eqn:Hv2; simpl in H; [|by apply ebind_ok in H as (? & ? & _ & ?)].
  apply ebind_ok in H as (now & s1 & H1 & H). pose proof (keep_now _ _ Hservice s) as K1. rewrite H1 in K1. simpl in K1.
  apply ebind_ok in H as (validation & s2 & H2 & H). unfold elift, error in H2.
  destruct (confirmPending _ _ _ _ _ _ _ _ _ _) as [x|] eqn:Hok; [|done]. injection H2 as -> <-.
  destruct validation as [[|code m]|claimed].
  { by apply ebind_ok in H as (? & ? & _ & ?). }
  { apply ebind_ok in H as (? & ? & _ & H). by apply ebind_ok in H as (? & ? & _ & ?). }
  destruct (op_mutationPlan _) as [plan'|] eqn:Hplan; [|by apply ebind_ok in H as (? & ? & _ & ?)].
  destruct (negb (safe_generation _)); simpl in H; [by apply ebind_ok in H as (? & ? & _ & ?)|].
  case_bool_decide as G1; simpl in H; [|by apply ebind_ok in H as (? & ? & _ & ?)].
  case_bool_decide as G2; simpl in H; [|by apply ebind_ok in H as (? & ? & _ & ?)].
  case_bool_decide as G3; simpl in H; [|by apply ebind_ok in H as (? & ? & _ & ?)].
  apply claim_member_ok in H as (-> & -> & Hm & Hp & s3 & HR & Hmark).
  split; [split_and!; [done..|by exists now, claimed]|]. exists s3. split; [by etrans|done].
Qed.

(** A refusal is never a confirmation. *)
Definition refusal_only {A} (x : failure + (ConfirmBatchOutcome + A)) : Prop :=
  match x with inr (inl (BatchConfirmed _ _ _)) => False | _ => True end.
Lemma refusal_after {A B} (m : E S A) (k : A → E S (ConfirmBatchOutcome + B)) s :
  (∀ a s1, m s = (inr a, s1) → refusal_only (k a s1).1) → refusal_only (ebind m k s).1.
Proof. intros H. unfold ebind. destruct (m s) as [[e|a] s1]; [done|by apply H]. Qed.
Ltac refused := repeat first [ apply refusal_after; intros | done | case_match; subst ].
Lemma replays_refuse l acc s : refusal_only (replay_members ports onItem l acc s).1.
Proof. revert acc s. induction l as [|i l IH]; intros acc s; simpl; unfold rejectBatch; [done|]. refused; apply IH. Qed.
Lemma check_refuses id l s : refusal_only (check_members ports id l s).1.
Proof. revert s. induction l as [|m l IH]; intros s; simpl; unfold rejectBatch; [done|]. refused; apply IH. Qed.

(** ** Chains of dispatches *)

Section Chain.
Context (c : Claims) (items : list BatchItemRow) (bodies : list ConfirmBatchItemInput) (i : Installation) (lease : nat).

#[local] Abbreviation chain := (dispatched sha256 deps ports R c items bodies i lease).

Lemma chain_then n s l s1 s' : chain n s l s1 → R s1 s' → chain n s l s'.
Proof.
  induction 1 as [n s s1 H|n x l s s1 s2 s3 Hn H1 Hw Hl _ IH]; intros H'; [constructor; by etrans|].
  by eapply dispatched_member; [..|apply IH].
Qed.
Lemma chain_after n s s1 l s' : R s s1 → chain n s1 l s' → chain n s l s'.
Proof.
  intros H. destruct 1 as [n s1 s' H'|n x l s1 s2 s3 s' Hn H1 Hw Hl Hc]; [constructor; by etrans|].
  by eapply dispatched_member; [|etrans| | |].
Qed.
Lemma chain_weaken n n' s l s' : (n ≤ n')%nat → chain n' s l s' → chain n s l s'.
Proof.
  intros Hn. destruct 1 as [n' s s' H|n' x l s s1 s2 s' Hx H1 Hw Hl Hc]; [by constructor|].
  eapply dispatched_member; [lia|done..].
Qed.
Lemma chain_cons n x s s1 l s' :
  chain n s [x] s1 → went_on x → chain (Datatypes.S x.(dispatch_index)) s1 l s' → chain n s (x :: l) s'.
Proof.
  intros H Hx Hl. inversion H as [|? ? ? ? s2 s3 ? Hn H1 Hw _ Hc]; subst.
  inversion Hc as [? ? ? H3|]; subst. eapply dispatched_member; [done..|]. by eapply chain_after.
Qed.

Lemma chain_least n s l s' : chain n s l s' → Forall (λ x, (n ≤ x.(dispatch_index))%nat) l.
Proof.
  induction 1 as [|n x l s s1 s2 s' Hn _ _ _ _ IH]; constructor; [done|].
  eapply Forall_impl; [exact IH|]. simpl. lia.
Qed.
Lemma chain_sorted n s l s' : chain n s l s' → StronglySorted lt (dispatch_index <$> l).
Proof.
  induction 1 as [|n x l s s1 s2 s' _ _ _ _ Hc IH]; simpl; constructor; [done|].
  apply Forall_fmap. eapply Forall_impl; [exact (chain_least _ _ _ _ Hc)|]. simpl. lia.
Qed.
Lemma chain_stops n s l s' l1 x l2 : chain n s l s' → l = l1 ++ x :: l2 → l2 ≠ [] → went_on x.
Proof.
  intros H. revert l1. induction H as [|n y l s s1 s2 s' _ _ _ Hl _ IH]; intros l1 E Hne; [by destruct l1|].
  destruct l1 as [|y' l1]; simpl in E; injection E as <- E; [rewrite E in Hl; by apply Hl|by eapply IH].
Qed.

(** A member of the list that is at its place. *)
Definition at_place (m : Member) : Prop :=
  items !! m.(member_index) = Some m.(member_item) ∧ bodies !! m.(member_index) = Some m.(member_body).

Definition member_ends (x : failure + (ConfirmBatchOutcome + ConfirmBatchItemOutcome * bool)) (m : Member) (l : list Dispatch) : Prop :=
  match x with
  | inr (inr (o, _)) => ∃ x, l = [x] ∧ x.(dispatch_index) = m.(member_index) ∧ fresh x o
  | _ => True
  end.

Lemma member_chain id now m s :
  at_place m → m.(member_item).(item_status) = IPending →
  let x := confirm_member sha256 deps ports onItem c id now i lease m s in
  ∃ l, chain m.(member_index) s l x.2 ∧ member_ends x.1 m l.
Proof.
  intros [Hi Hb] Hp. cbv zeta. unfold confirm_member at 1 2. rewrite !ebind_at.
  pose proof (keep_pending _ _ _ _ Hports m.(member_item).(item_confirmation) s) as K1.
  destruct (ports.(getPendingConfirmation) _ s) as [[e|[r|]] s1] eqn:H1; simpl in K1; try (exists []; split; [by constructor|done]).
  rewrite !ebind_at. pose proof (respects_gate c i lease r (default [] m.(member_body).(body_nonce)) s1) as K2.
  destruct (gate_member _ _ _ _ _ _ _ s1) as [[e|[refusal|[op plan]]] s2] eqn:H2; simpl in K2;
    try (exists []; split; [constructor; by etrans|done]).
  apply gate_member_ok in H2 as (Hgate & s3 & HR3 & Hmark). rewrite !ebind_at.
  pose proof (keep_item _ _ _ _ Hports id m.(member_index) IExecuting (item_patch None (Some now) None) s2) as K3.
  destruct (ports.(updateConfirmationBatchItemStatus) _ _ _ _ s2) as [[e|[]] s4]; simpl in K3;
    [exists []; split; [constructor; simpl; do 2 (etrans; [eassumption|]); done|done]|].
  destruct (dispatchWrite sha256 deps c r i lease op plan s4) as [out s5] eqn:Hd.
  destruct (dispatch_exact sha256 deps R Hservice _ _ _ _ _ _ _ _ _ Hd) as (res & s6 & Hres & HR6 & Hrep).
  set (x := {| dispatch_index := m.(member_index); dispatch_record := r; dispatch_result := out |}).
  assert (∀ s', R s5 s' → chain m.(member_index) s [x] s') as Hchain.
  { intros s' HR. eapply (dispatched_member _ _ _ _ _ _ _ _ _ _ x _ _ s3 s5); [done|by etrans| |done|by constructor].
    exists m.(member_item), m.(member_body), op, plan, s, s1, s2, s4. exact (conj Hi (conj Hb (conj Hp (conj H1 (conj Hgate (conj Hmark (conj K3 Hd))))))). }
  rewrite !ebind_at, Hres. destruct res as [e|[[v ref] undo]]; [exists [x]; split; [by apply Hchain|done]|].
  rewrite !ebind_at. cbn [fst snd]. set (o := dispatched_outcome r v undo).
  pose proof (respects_record id now m.(member_index) r o s6) as K6.
  exists [x]. destruct (record_member _ _ _ _ _ _ _ s6) as [[e|[]] s7]; simpl in K6 |- *;
    (split; [apply Hchain; by etrans|]); [done|].
  exists x. split_and!; [done|done|]. destruct out as [e|v'].
  - unfold reported in Hrep. done.
  - exists v', undo. split; [done|]. unfold o. f_equal.
    unfold dispatchConfirmedPreview in Hres. rewrite ebind_at, Hd in Hres. apply ebind_ok in Hres as (a & s8 & _ & Hres).
    apply ebind_ok in Hres as (b & s9 & _ & Hres). unfold eret in Hres. congruence.
Qed.

(** ** The loop *)

Definition loop_reports (acc : list ConfirmBatchItemOutcome) (l : list Dispatch)
    (x : failure + (ConfirmBatchOutcome + list ConfirmBatchItemOutcome * bool * bool)) : Prop :=
  match x with
  | inr (inr (out, _, _)) => ∀ o, o ∈ out → o ∈ acc ∨ replayed ports o ∨ ∃ x, x ∈ l ∧ fresh x o
  | inr (inl (BatchConfirmed _ _ _)) => False
  | _ => True
  end.

Lemma gate_refuses r nonce s : refusal_only (gate_member sha256 deps c i lease r nonce s).1.
Proof. unfold gate_member, claim_member, refuse, refuse_member. refused. Qed.
Lemma member_refuses id now m s : refusal_only (confirm_member sha256 deps ports onItem c id now i lease m s).1.
Proof.
  unfold confirm_member, type_error. apply refusal_after. intros [r|] s1 _; [|done].
  apply refusal_after. intros gate s2 Hg. pose proof (gate_refuses r (default [] m.(member_body).(body_nonce)) s1) as Hr.
  rewrite Hg in Hr. destruct gate as [refusal|[op plan]]; [done|]. refused.
Qed.

(** The members from [n] on, each at its place. *)
Definition placed (n : nat) (l : list Member) : Prop :=
  ∀ k m, l !! k = Some m → m.(member_index) = (n + k)%nat ∧ at_place m.
Lemma placed_cons n m l : placed n (m :: l) → m.(member_index) = n ∧ at_place m ∧ placed (Datatypes.S n) l.
Proof.
  intros H. destruct (H 0%nat m eq_refl) as [E Hm]. split_and!; [lia|done|].
  intros k m' Hk. destruct (H (Datatypes.S k) m' Hk) as [E' H']. split; [lia|done].
Qed.

Lemma loop_chain id now n l acc degraded s :
  placed n l →
  let x := dispatch_members sha256 deps ports onItem c id now i lease l acc degraded s in
  ∃ tr, chain n s tr x.2 ∧ loop_reports acc tr x.1.
Proof.
  cbv zeta. revert n acc degraded s. induction l as [|m l IH]; intros n acc degraded s Hl; simpl.
  { exists []. split; [by constructor|]. intros o Ho. by left. }
  apply placed_cons in Hl as (<- & Hm & Hl). unfold item_is. case_bool_decide as Hp; rewrite !ebind_at.
  - destruct (member_chain id now m s Hm Hp) as (tr & Hc & He). pose proof (member_refuses id now m s) as Hr.
    destruct (confirm_member _ _ _ _ _ _ _ _ _ m s) as [[e|[refusal|[o d]]] s1]; simpl in Hc, He, Hr;
      [by exists tr|exists tr; split; [done|by destruct refusal]|].
    destruct He as (x & -> & Hx & Hf). case_bool_decide as Hu; simpl.
    + exists [x]. split; [done|]. intros o' [Ho| ->]%elem_of_snoc; [by left|right; right].
      exists x. split; [apply list_elem_of_here|done].
    + destruct (IH _ (acc ++ [o]) (degraded || d) s1 Hl) as (tr & Ht & Hrep). exists (x :: tr). split.
      * destruct Hf as (v & undo & Hv & ->). eapply chain_cons; [done|by exists v|by rewrite Hx].
      * destruct (dispatch_members _ _ _ _ _ _ _ _ _ l (acc ++ [o]) (degraded || d) s1)
          as [[e|[refusal|[[out d'] stop]]] s2]; [done|done|]. intros o' Ho.
        destruct (Hrep o' Ho) as [[Ha| ->]%elem_of_snoc|[Ha|(y & Hy & Hf')]]; [by left| |by right; left|].
        -- right. right. exists x. split; [apply list_elem_of_here|done].
        -- right. right. exists y. split; [by apply list_elem_of_further|done].
  - assert (respects R (replay_member ports onItem m)) as K
      by (unfold replay_member; respects_by ltac:(first [apply respects_replay|port])).
    specialize (K s). destruct (replay_member ports onItem m s) as [[e|l0] s1] eqn:H0; simpl in K;
      [exists []; by split; [constructor|]|].
    destruct (IH _ (acc ++ l0) degraded s1 Hl) as (tr & Ht & Hrep). exists tr.
    split; [eapply chain_after; [done|]; eapply chain_weaken; [|done]; lia|].
    destruct (dispatch_members _ _ _ _ _ _ _ _ _ l (acc ++ l0) degraded s1) as [[e|[refusal|[[out d'] stop]]] s2]; [done|done|].
    intros o Ho. destruct (Hrep o Ho) as [[Ha|Ha]%elem_of_app|Ha]; [by left| |by right]. right. left.
    unfold replay_member in H0. apply ebind_ok in H0 as (replay & s3 & Hrp & H0). apply ebind_ok in H0 as (y & s4 & _ & H0).
    injection H0 as <- _. destruct replay as [o1|]; [|by apply elem_of_nil in Ha].
    apply list_elem_of_singleton in Ha as ->. by eapply replay_replayed.
Qed.
End Chain.

(** ** The batch *)

Lemma members_placed from items bodies : placed items bodies from (members_from from items bodies).
Proof.
  intros k m H. unfold members_from in H. rewrite lookup_drop, list_lookup_imap in H.
  destruct (zip items bodies !! (from + k)%nat) as [[item body]|] eqn:Hz; [|done]. injection H as <-.
  rewrite lookup_zip_with in Hz. split; [done|]. unfold at_place. simpl.
  destruct (items !! _) as [item'|]; [|done]. simpl in Hz. destruct (bodies !! _) as [body'|]; [|done].
  by injection Hz as -> ->.
Qed.

(** The answer of a call that dispatched nothing. *)
Definition quiet_answer (res : failure + ConfirmBatchOutcome) : Prop :=
  match res with inr (BatchConfirmed _ out _) => ∀ o, o ∈ out → replayed ports o | _ => True end.
(** The answer of one that went through its members. *)
Definition answer (l : list Dispatch) (res : failure + ConfirmBatchOutcome) : Prop :=
  match res with
  | inr (BatchConfirmed _ out _) => ∀ o, o ∈ out → replayed ports o ∨ ∃ x, x ∈ l ∧ fresh x o
  | _ => True
  end.

(** The batch and the admin that a call went through with. *)
Definition batch_admitted (c : Claims) (id : jstr) (items : list BatchItemRow) (bodies : list ConfirmBatchItemInput)
    (i : Installation) (lease : nat) : Prop :=
  (∃ b s s', ports.(getConfirmationBatch) id s = (inr (Some b), s') ∧ active_batch b.(batch_status) = true ∧
     computeOrderedTupleHash sha256 (member_tuple <$> items) = b.(ordered_tuple_hash)) ∧
  body_confirmation <$> bodies = item_confirmation <$> items ∧ i.(installation_active) = true ∧
  (∃ s s', deps.(verifyWriteAuthority) c i s = (inr None, s')) ∧
  (∃ s s', deps.(acquire) c.(claims_workspace) i.(generation) s = (inr lease, s')).

Definition went_through (c : Claims) (id : jstr) (bodies : list ConfirmBatchItemInput)
    (s : S) (res : failure + ConfirmBatchOutcome) (s' : S) : Prop :=
  ∃ items i lease l, batch_admitted c id items bodies i lease ∧
    dispatched sha256 deps ports R c items bodies i lease 0 s l s' ∧ answer l res.

#[local] Abbreviation ends P := (Effects.ends R quiet_answer P).

Lemma quiet_after {A} P (m : E S A) (k : A → E S ConfirmBatchOutcome) :
  respects R m → (∀ a s s1, m s = (inr a, s1) → ends P (k a)) → ends P (ebind m k).
Proof. intros Hm Hk. by apply ends_bind. Qed.
Lemma quiet_reject P st code m : ends P (eret (BatchRejected st code m)).
Proof. by apply ends_eret. Qed.
Lemma quiet_throw P e : ends P (ethrow e).
Proof. by apply ends_ethrow. Qed.

Lemma run_ends c id now b items bodies from i :
  releases deps →
  (∀ lease, (∃ s s', deps.(acquire) c.(claims_workspace) i.(generation) s = (inr lease, s')) →
     batch_admitted c id items bodies i lease) →
  ends (went_through c id bodies)
    (run_batch sha256 deps ports onItem c id now b items (members_from from items bodies) i).
Proof.
  intros Hrel Hadm. unfold run_batch. apply quiet_after; [apply respects_attempt; port|].
  intros [e|lease] sa sb Hacq; [destruct (revoked_error e); [apply quiet_reject|apply quiet_throw]|].
  assert (batch_admitted c id items bodies i lease) as Ha.
  { apply Hadm. exists sa, sb. unfold eattempt in Hacq. destruct (deps.(acquire) _ _ sa) as [r s1]. congruence. }
  apply quiet_after; [port|]. intros [] _ _ _; [apply quiet_after; [port|intros; apply quiet_reject]|].
  apply quiet_after; [quiet|]. intros [] _ _ _; [|apply quiet_after; [port|intros; apply quiet_reject]].
  intros s. right. exists s. split; [done|]. rewrite ebind_at.
  destruct (loop_chain c items bodies i lease id now from _ [] false s (members_placed from items bodies)) as (tr & Hc & Hr).
  destruct (efinally_exact (dispatch_members sha256 deps ports onItem c id now i lease (members_from from items bodies) [] false)
              (deps.(release_lease) lease) s (Hrel lease)) as (s5 & Hl & Hs5).
  unfold with_lease. rewrite Hl. destruct (dispatch_members _ _ _ _ _ _ _ _ _ _ _ _ s) as [x s4]. simpl in Hc, Hr, Hs5 |- *.
  pose proof (keep_release _ _ Hservice lease s4) as K5. rewrite Hs5 in K5. simpl in K5.
  assert (∀ s', R s5 s' → dispatched sha256 deps ports R c items bodies i lease 0 s tr s') as Hc'.
  { intros s' K. eapply chain_weaken; [|eapply chain_then; [exact Hc|by etrans]]. lia. }
  exists items, i, lease, tr. split; [done|].
  destruct x as [e|[refusal|x]]; [by split; [apply Hc'|]|split; [by apply Hc'|by destruct refusal]|].
  pose proof (respects_finish id now b items x s5) as K6. split; [by apply Hc'|].
  destruct (finish_batch ports id now b items x s5) as [[e|[|st out d]] s6] eqn:Hf; [done|done|].
  intros o Ho. destruct (finish_reported _ _ _ _ _ _ _ _ _ _ Hf o Ho) as [?|Hin]; [by left|].
  destruct x as [[out' d'] stop]. by destruct (Hr o Hin) as [?%elem_of_nil|H].
Qed.

Lemma batch_ends c id bodies : releases deps → ends (went_through c id bodies) (confirmBatch sha256 deps ports onItem c id bodies).
Proof.
  intros Hrel. unfold confirmBatch, type_error. apply quiet_after; [port|]. intros now _ _ _.
  apply quiet_after; [port|]. intros [scoped|] _ _ _; [|apply quiet_reject].
  apply quiet_after; [port|]. intros _ _ _ _. apply quiet_after; [port|]. intros b sa sb Hb.
  apply quiet_after; [port|]. intros items _ _ _. destruct (negb (_ =? _)%nat); [apply quiet_reject|].
  unfold same_order. case_bool_decide as Hsame; simpl; [|apply quiet_reject].
  destruct b as [b|]; [|apply quiet_throw]. case_bool_decide as Hhash; simpl; [|apply quiet_reject].
  apply quiet_after; [unfold batch_over; quiet|]. intros [] _ _ _.
  { apply quiet_after; [port|]. intros _ _ _ _. apply quiet_after; [apply respects_best_effort|]. intros _ _ _ _. apply quiet_reject. }
  destruct (terminal_batch b.(batch_status)) eqn:Hterm.
  { unfold replay_batch. apply quiet_after; [apply respects_replays|]. intros [refusal|l] s1 s2 Hl.
    - pose proof (replays_refuse items [] s1) as Hr. rewrite Hl in Hr. by destruct refusal; [apply quiet_reject|].
    - apply quiet_after; [port|]. intros _ _ _ _. apply ends_eret; [done|]. intros o Ho.
      by destruct (replays_replayed _ _ _ _ _ Hl o Ho) as [?%elem_of_nil|?]. }
  unfold start_batch. apply quiet_after; [apply respects_check|]. intros [refusal|checked] s1 s2 Hck.
  { pose proof (check_refuses id (members_from (Z.to_nat b.(current_index)) items bodies) s1) as Hr. rewrite Hck in Hr.
    by destruct refusal; [apply quiet_reject|]. }
  apply quiet_after; [port|]. intros [i|] _ _ _; [|apply quiet_reject].
  destruct (installation_active i) eqn:Hact; [|apply quiet_reject].
  apply quiet_after; [port|]. intros [[[st code] m]|] s3 s4 Hauth; [apply quiet_reject|].
  apply run_ends; [done|]. intros lease Hlease. split_and!; [|done|done|by exists s3, s4|done].
  exists b, sa, sb. split_and!; [done| |done]. unfold terminal_batch in Hterm. by apply negb_false_iff in Hterm.
Qed.
End Order.

Section Statement.
Context {S : Type} `{!MutationHost S} (sha256 : jstr → jstr) (deps : ConfirmationServiceDeps (S := S)).
Context (ports : BatchPorts (S := S)) (onItem : option ConfirmBatchItemOutcome → E S unit).

(** C6: Confirm all.  Take any relation on states that the ports keep (that no request was
    sent, say).  A call of [confirmBatch] either stays within it and reports only stored
    results, or the batch was open, its stored members hash to its tuple and are the ones
    the caller named, the admin's role was verified and the workspace leased, and the call
    then only dispatched members: each a pending member at its own place, at increasing
    places, so none twice, each behind its preview's gate and the current policy and
    claimed by this call right before its write; nothing is dispatched behind a write that
    threw or whose outcome is unknown; and the answer reports nothing but stored results
    and what these dispatches returned. *)
Theorem batch_dispatches_in_order R c id bodies s res s' :
  PreOrder R → batch_ports_keep deps ports onItem R → releases deps →
  confirmBatch sha256 deps ports onItem c id bodies s = (res, s') →
  (R s s' ∧ quiet_answer ports res) ∨
  ∃ s1 items i lease l, R s s1 ∧ batch_admitted sha256 deps ports c id items bodies i lease ∧
    dispatched sha256 deps ports R c items bodies i lease 0 s1 l s' ∧
    StronglySorted lt (dispatch_index <$> l) ∧ (∀ l1 x l2, l = l1 ++ x :: l2 → l2 ≠ [] → went_on x) ∧
    answer ports l res.
Proof.
  intros [HRr HRt] Hports Hrel Hrun.
  destruct (batch_ends sha256 deps ports onItem R Hports c id bodies Hrel s) as [Hq|(s1 & HR & items & i & lease & l & Ha & Hc & Hans)];
    rewrite Hrun in *; [by left|]. right. exists s1, items, i, lease, l.
  split; [done|]. split; [done|]. split_and!; [done|by eapply chain_sorted|by intros; eapply chain_stops|done].
Qed.
End Statement.
