(* ===== verification/Suggest.v ===== *)
(** * Suggesting action names

    [harness/action-suggest.ts]: the names nearest to one that is not in the catalog.  The
    two-row edit distance is proved to be the length of a shortest edit script.
    [toLowerCase] and [localeCompare] of the JavaScript library are arguments. *)
From S2P Require Import Prelude Js.
Open Scope Z_scope.
#[local] Arguments u : simpl never.

(** ** Edit distance *)

Definition min3 (x y z : nat) : nat := Nat.min x (Nat.min y z).

(** The rest of the row of unit [c], given the previous row and the cell to the left. *)
Fixpoint fill_row (c : N) (b : jstr) (prev : list nat) (left : nat) : list nat :=
  match b, prev with
  | d :: b', p0 :: ((p1 :: _) as prev') =>
      let cost := if (c =? d)%N then O else 1%nat in
      let x := min3 (p1 + 1) (left + 1) (p0 + cost) in
      x :: fill_row c b' prev' x
  | _, _ => []
  end.

Fixpoint rows (a b : jstr) (i : nat) (prev : list nat) : list nat :=
  match a with
  | [] => prev
  | c :: a' => rows a' b (S i) (i :: fill_row c b prev i)
  end.

Definition levenshtein (a b : jstr) : nat :=
  if bool_decide (a = b) then O
  else match a, b with
  | [], _ => length b
  | _, [] => length a
  | _, _ => default O (last (rows a b 1 (seq 0 (S (length b)))))
  end.

(** An edit script from [a] to [b] of cost [n]. *)
Inductive edits : jstr → jstr → nat → Prop :=
| edits_nil : edits [] [] 0
| edits_delete a b c n : edits a b n → edits (a ++ [c]) b (S n)
| edits_insert a b d n : edits a b n → edits a (b ++ [d]) (S n)
| edits_replace a b c d n :
    edits a b n → edits (a ++ [c]) (b ++ [d]) (n + if (c =? d)%N then O else 1%nat).

(** The distance by recursion on reversed strings. *)
Fixpoint lev (a : jstr) : jstr → nat :=
  match a with
  | [] => λ b, length b
  | c :: a' => fix go (b : jstr) : nat :=
      match b with
      | [] => S (length a')
      | d :: b' => min3 (lev a' (d :: b') + 1) (go b' + 1) (lev a' b' + if (c =? d)%N then O else 1%nat)
      end
  end.

Lemma lev_cons c a d b :
  lev (c :: a) (d :: b) = min3 (lev a (d :: b) + 1) (lev (c :: a) b + 1) (lev a b + if (c =? d)%N then O else 1%nat).
Proof. done. Qed.
Lemma lev_nil_r a : lev a [] = length a.
Proof. by destruct a. Qed.

Lemma lev_delete c a b : (lev (c :: a) b ≤ lev a b + 1)%nat.
Proof. destruct b; [rewrite !lev_nil_r; simpl; lia|rewrite lev_cons; unfold min3; case_match; lia]. Qed.
Lemma lev_insert a d b : (lev a (d :: b) ≤ lev a b + 1)%nat.
Proof. destruct a; [simpl; lia|rewrite lev_cons; unfold min3; case_match; lia]. Qed.

Lemma edits_bound a b n : edits a b n → (lev (reverse a) (reverse b) ≤ n)%nat.
Proof.
  induction 1 as [|a b c n _ IH|a b d n _ IH|a b c d n _ IH]; rewrite ?reverse_snoc; [done| | |].
  - pose proof (lev_delete c (reverse a) (reverse b)). lia.
  - pose proof (lev_insert (reverse a) d (reverse b)). lia.
  - rewrite lev_cons. unfold min3. case_match; lia.
Qed.

Lemma insertions b : edits [] (reverse b) (length b).
Proof. induction b as [|d b IH]; [constructor|]. rewrite reverse_cons. by constructor. Qed.
Lemma deletions a : edits (reverse a) [] (length a).
Proof. induction a as [|c a IH]; [constructor|]. rewrite reverse_cons. by constructor. Qed.

Lemma edits_lev a b : edits (reverse a) (reverse b) (lev a b).
Proof.
  revert b. induction a as [|c a IHa]; intros b; [apply insertions|].
  induction b as [|d b IHb]; [rewrite lev_nil_r; apply deletions|].
  rewrite lev_cons. unfold min3.
  destruct (Nat.min_spec (lev a (d :: b) + 1) (Nat.min (lev (c :: a) b + 1) (lev a b + if (c =? d)%N then O else 1%nat)))
    as [[_ ->]|[_ ->]].
  - rewrite reverse_cons, Nat.add_1_r. constructor. apply IHa.
  - destruct (Nat.min_spec (lev (c :: a) b + 1) (lev a b + if (c =? d)%N then O else 1%nat)) as [[_ ->]|[_ ->]].
    + rewrite (reverse_cons b d), Nat.add_1_r. by constructor.
    + rewrite !reverse_cons. constructor. apply IHa.
Qed.

(** ** The rows compute it *)

(** The row of the reversed prefix [ra]: its distances to the prefixes of [b] from [rb] on. *)
Fixpoint row_of (ra rb b : jstr) : list nat :=
  lev ra rb :: match b with [] => [] | d :: b' => row_of ra (d :: rb) b' end.

Lemma fill_row_exact c ra b rb :
  lev (c :: ra) rb :: fill_row c b (row_of ra rb b) (lev (c :: ra) rb) = row_of (c :: ra) rb b.
Proof.
  revert rb. induction b as [|d b IH]; intros rb; [done|].
  cbn [row_of]. f_equal. rewrite <- IH. destruct b; cbn [row_of fill_row]; by rewrite lev_cons.
Qed.

Lemma rows_exact a ra b :
  rows a b (S (length ra)) (row_of ra [] b) = row_of (reverse a ++ ra) [] b.
Proof.
  revert ra. induction a as [|c a IH]; intros ra; [done|]. cbn [rows].
  pose proof (fill_row_exact c ra b []) as Hf. rewrite lev_nil_r in Hf. cbn [length] in Hf. rewrite Hf.
  change (S (S (length ra))) with (S (length (c :: ra))). by rewrite IH, reverse_cons, <- app_assoc.
Qed.

Lemma first_row b rb : row_of [] rb b = seq (length rb) (S (length b)).
Proof. revert rb. induction b as [|d b IH]; intros rb; [done|]. cbn [row_of]. rewrite IH. done. Qed.

Lemma last_row ra rb b : last (row_of ra rb b) = Some (lev ra (reverse b ++ rb)).
Proof.
  revert rb. induction b as [|d b IH]; intros rb; [done|]. cbn [row_of].
  rewrite last_cons, IH. by rewrite reverse_cons, <- app_assoc.
Qed.

Lemma lev_same a : lev a a = O.
Proof.
  induction a as [|c a IH]; [done|]. rewrite lev_cons, IH, N.eqb_refl. unfold min3. lia.
Qed.

Lemma levenshtein_lev a b : levenshtein a b = lev (reverse a) (reverse b).
Proof.
  unfold levenshtein. case_bool_decide as Hab; [by rewrite Hab, lev_same|].
  destruct a as [|c a]; [simpl; by rewrite length_reverse|].
  destruct b as [|d b]; [by rewrite lev_nil_r, length_reverse|].
  pose proof (rows_exact (c :: a) [] (d :: b)) as Hr. cbn [length] in Hr.
  rewrite first_row in Hr. cbn [length] in Hr. cbn [length]. rewrite Hr, last_row. simpl.
  by rewrite !app_nil_r.
Qed.

(** The edit distance is optimal.  The two-row [levenshtein], with its early returns,
    is the cost of an edit script that turns the one name into the other, and no script
    costs less. *)
Theorem levenshtein_optimal a b :
  edits a b (levenshtein a b) ∧ ∀ n, edits a b n → (levenshtein a b ≤ n)%nat.
Proof.
  rewrite levenshtein_lev. split; [|apply edits_bound].
  pose proof (edits_lev (reverse a) (reverse b)) as H. by rewrite !reverse_involutive in H.
Qed.

(** ** Nearest names *)

Section Nearest.
Context (toLowerCase : jstr → jstr) (name_le : jstr → jstr → bool).

(** [/[^a-z0-9]+/] *)
Definition token_unit (c : N) : bool := ((97 <=? c) && (c <=? 122) || (48 <=? c) && (c <=? 57))%N.
Fixpoint split_tokens (s acc : jstr) : list jstr :=
  match s with
  | [] => [acc]
  | c :: s' => if token_unit c then split_tokens s' (acc ++ [c]) else acc :: split_tokens s' []
  end.
Definition tokens (value : jstr) : list jstr :=
  remove_dups (filter (λ t, t ≠ []) (split_tokens (toLowerCase value) [])).

(** [Math.ceil(n * 0.34)] in binary64: the nearest number to the product of [n] and the
    double [0.34], rounded to 53 bits with ties to even. *)
Definition point_34 : Z := 6124895493223875.
Definition round_shift (p k : Z) : Z :=
  if k <=? 0 then p
  else
    let q := Z.shiftr p k in
    let r := p - Z.shiftl q k in
    let half := Z.shiftl 1 (k - 1) in
    Z.shiftl (if (r <? half) || ((r =? half) && Z.even q) then q else q + 1) k.
Definition edit_allowance (n : nat) : Z :=
  let p := Z.of_nat n * point_34 in
  let rounded := round_shift p (Z.log2 p - 52) in
  (rounded + (2 ^ 54 - 1)) / 2 ^ 54.

Record scored := { name : jstr; overlap : nat; distance : nat }.

Definition score (query name : jstr) : scored :=
  {| name := name; overlap := length (filter (λ t, t ∈ tokens name) (tokens query));
     distance := levenshtein (toLowerCase query) (toLowerCase name) |}.

Definition close (q : jstr) (c : scored) : bool :=
  (2 <=? c.(overlap))%nat ||
  (Z.of_nat c.(distance) <=? edit_allowance (Nat.max (length q) (length c.(name)))).

Definition better (x y : scored) : Prop :=
  (y.(overlap) < x.(overlap))%nat ∨
  x.(overlap) = y.(overlap) ∧ ((x.(distance) < y.(distance))%nat ∨
    x.(distance) = y.(distance) ∧ name_le x.(name) y.(name) = true).
#[local] Instance better_dec x y : Decision (better x y).
Proof. unfold better. apply _. Defined.

Definition nearestNames (query : jstr) (candidates : list jstr) (limit : nat) : list jstr :=
  let q := toLowerCase query in
  if bool_decide (q = []) then []
  else name <$> take limit (merge_sort better (filter (λ c, close q c = true) (score query <$> candidates))).

(** Suggestions are real names, close to the query, and at most [limit]. *)
Lemma nearest_names_grounded query candidates limit n :
  n ∈ nearestNames query candidates limit →
  n ∈ candidates ∧ close (toLowerCase query) (score query n) = true ∧
  (length (nearestNames query candidates limit) ≤ limit)%nat.
Proof.
  unfold nearestNames. case_bool_decide; [by intros ?%not_elem_of_nil|].
  intros (c & -> & Hc)%list_elem_of_fmap. rewrite length_fmap, length_take.
  split_and!; [| |lia]; apply elem_of_take in Hc as (i & Hi & _); apply list_elem_of_lookup_2 in Hi;
    rewrite merge_sort_Permutation, list_elem_of_filter in Hi; destruct Hi as [Hclose (n & -> & Hn)%list_elem_of_fmap];
    done.
Qed.
End Nearest.

Example allowance_is_binary : edit_allowance 50 = 17 ∧ edit_allowance 150 = 52.
Proof. vm_compute. done. Qed.
