(* ===== verification/Schema.v ===== *)
(** * Argument schemas

    The JSON schema of an action's arguments, as the schema library renders it, and the
    functions that walk it: [harness/arg-shapes.ts] (the closed-argument check that runs
    before any preprocessing can discard a field) and the leaf collectors of
    [harness/write-authority.ts].  [closed] is what the check decides. *)
From S2P Require Import Prelude Js.
Open Scope Z_scope.
#[local] Arguments u : simpl never.

(** [type] is one name or several; [anyOf ?? oneOf] are the branches;
    [additionalProperties] counts when it is itself a schema. *)
Inductive JsonSchema : Type :=
| Node (type : option (jstr + list jstr)) (branches : option (list JsonSchema)) (items : option JsonSchema)
    (properties : option (list (jstr * JsonSchema))) (additional : option JsonSchema) (required : list jstr).

Definition schema_type (s : JsonSchema) : option jstr :=
  match s with Node (Some (inl t)) _ _ _ _ _ => Some t | _ => None end.
Definition is_type (t : string) (s : JsonSchema) : bool := bool_decide (schema_type s = Some (u t)).

(** ** The closed-argument check *)

Definition matchesType (s : JsonSchema) (value : jsval) : bool :=
  if is_type "object" s then is_record value
  else if is_type "array" s then is_array value
  else if is_type "string" s then is_string value
  else if is_type "number" s || is_type "integer" s then match value with VNum _ => true | _ => false end
  else if is_type "boolean" s then match value with VBool _ => true | _ => false end
  else if is_type "null" s then match value with VNull => true | _ => false end
  else true.

(** [findings.find((items) => items.length === 0) ?? findings[0] ?? []] *)
Definition cleanest (findings : list (list jstr)) : list jstr :=
  if existsb (λ f, bool_decide (f = [])) findings then []
  else match findings with f :: _ => f | [] => [] end.

(** The candidates among the branches: those of the value's type, or else all. *)
Definition candidates {A} (runs : list (bool * A)) : list A :=
  match filter (λ r, r.1 = true) runs with
  | [] => snd <$> runs
  | matching => snd <$> matching
  end.

Definition child_of (path key : jstr) : jstr := if bool_decide (path = []) then key else path ++ u "." ++ key.

(** The entries of a record. *)
Definition entries (value : jsval) : list (jstr * jsval) :=
  match value with
  | VObj fs => own_entries fs
  | VBytes bs => imap (λ i b, (digits (N.of_nat i), VNum (NumInt (Z.of_N b)))) bs
  | _ => []
  end.

Fixpoint assoc {A} (k : jstr) (l : list (jstr * A)) : option A :=
  match l with
  | [] => None
  | (k', a) :: l' => if decide (k = k') then Some a else assoc k l'
  end.

(** [properties[key]] of a plain object also finds [Object.prototype] under [__proto__],
    an object that is no schema: it finds nothing in any value. *)
Definition proto_key : jstr := u "__proto__".

Section Unknown.
Context (openPaths : list jstr).

Abbreviation Walk := (jsval → jstr → list jstr → jstr → list jstr).

Definition property_walk (properties : list (jstr * Walk)) (key : jstr) : option Walk :=
  match assoc key properties with
  | Some w => Some w
  | None => if decide (key = proto_key) then Some (λ _ _ _ _, []) else None
  end.

(** The findings of one entry. *)
Definition entry_paths (properties : list (jstr * Walk)) (additional : option Walk)
    (path : jstr) (aliases : list jstr) (schemaPath : jstr) (e : jstr * jsval) : list jstr :=
  let childPath := child_of path e.1 in
  match property_walk properties e.1 with
  | Some w => w e.2 childPath [] (child_of schemaPath e.1)
  | None =>
      if bool_decide (path = []) && bool_decide (e.1 ∈ aliases) then []
      else if bool_decide (schemaPath ∈ openPaths)
      then match additional with Some w => w e.2 childPath [] schemaPath | None => [] end
      else [childPath]
  end.

Fixpoint unknownPaths (s : JsonSchema) : Walk := λ value path aliases schemaPath,
  match s with
  | Node type branches items properties additional _ =>
      match branches with
      | Some bs =>
          cleanest (candidates ((λ b, (matchesType b value, unknownPaths b value path aliases schemaPath)) <$> bs))
      | None =>
          match value, items with
          | VArr l, Some it =>
              concat (imap (λ i x, unknownPaths it x (path ++ u "[" ++ digits (N.of_nat i) ++ u "]") []
                                     (schemaPath ++ u "[]")) l)
          | VArr _, None => []
          | _, _ =>
              if negb (is_record value) || negb (is_type "object" s) then []
              else
                let props := match properties with
                             | Some ps => (λ p, (p.1, unknownPaths p.2)) <$> ps | None => [] end in
                let add := match additional with Some a => Some (unknownPaths a) | None => None end in
                concat (entry_paths props add path aliases schemaPath <$> entries value)
          end
      end
  end.
End Unknown.

Definition unknownArgumentPaths (schema : JsonSchema) (value : jsval) (aliases openPaths : list jstr) : list jstr :=
  unknownPaths openPaths schema value [] aliases [].

(** ** What it decides *)

(** Every field of the value is declared, where the schema says objects are closed. *)
Inductive closed (openPaths : list jstr) : JsonSchema → jsval → list jstr → jstr → Prop :=
| closed_branch t bs it ps ad rq v al sp b :
    b ∈ bs → (matchesType b v = true ∨ Forall (λ b, matchesType b v = false) bs) →
    closed openPaths b v al sp → closed openPaths (Node t (Some bs) it ps ad rq) v al sp
| closed_empty t it ps ad rq v al sp : closed openPaths (Node t (Some []) it ps ad rq) v al sp
| closed_items t it ps ad rq l al sp :
    (∀ x, x ∈ l → closed openPaths it x [] (sp ++ u "[]")) →
    closed openPaths (Node t None (Some it) ps ad rq) (VArr l) al sp
| closed_any_items t ps ad rq l al sp : closed openPaths (Node t None None ps ad rq) (VArr l) al sp
| closed_other t it ps ad rq v al sp :
    is_array v = false → is_record v = false ∨ is_type "object" (Node t None it ps ad rq) = false →
    closed openPaths (Node t None it ps ad rq) v al sp
| closed_record t it ps ad rq v al sp :
    is_record v = true → is_type "object" (Node t None it ps ad rq) = true →
    (∀ k x, (k, x) ∈ entries v → closed_entry openPaths (default [] ps) ad al sp k x) →
    closed openPaths (Node t None it ps ad rq) v al sp
with closed_entry (openPaths : list jstr) :
  list (jstr * JsonSchema) → option JsonSchema → list jstr → jstr → jstr → jsval → Prop :=
| entry_declared ps ad al sp k x s :
    assoc k ps = Some s → closed openPaths s x [] (child_of sp k) → closed_entry openPaths ps ad al sp k x
| entry_proto ps ad al sp x : assoc proto_key ps = None → closed_entry openPaths ps ad al sp proto_key x
| entry_alias ps ad al sp k x : assoc k ps = None → k ∈ al → closed_entry openPaths ps ad al sp k x
| entry_open ps ad al sp k x :
    assoc k ps = None → sp ∈ openPaths →
    (∀ s, ad = Some s → closed openPaths s x [] sp) → closed_entry openPaths ps ad al sp k x.

(** Induction over a schema and all the schemas in it. *)
Definition schema_induction (P : JsonSchema → Prop)
    (step : ∀ t bs it ps ad rq,
      Forall P (default [] bs) → from_option P True it →
      Forall (λ p, P p.2) (default [] ps) → from_option P True ad → P (Node t bs it ps ad rq)) :
  ∀ s, P s :=
  fix go (s : JsonSchema) : P s :=
    match s with
    | Node t bs it ps ad rq =>
        step t bs it ps ad rq
          match bs with
          | Some l => (fix each (l : list JsonSchema) : Forall P l :=
              match l with [] => Forall_nil_2 P | b :: l' => Forall_cons_2 P b l' (go b) (each l') end) l
          | None => Forall_nil_2 P
          end
          match it as it return from_option P True it with Some i => go i | None => I end
          match ps with
          | Some l => (fix each (l : list (jstr * JsonSchema)) : Forall (λ p, P p.2) l :=
              match l with
              | [] => Forall_nil_2 _ | b :: l' => Forall_cons_2 _ b l' (go b.2) (each l') end) l
          | None => Forall_nil_2 _
          end
          match ad as ad return from_option P True ad with Some a => go a | None => I end
    end.

Lemma cleanest_nil (fs : list (list jstr)) : cleanest fs = [] ↔ fs = [] ∨ [] ∈ fs.
Proof.
  unfold cleanest. destruct (existsb _ fs) eqn:E.
  - split; [|done]. intros _. right. apply existsb_exists in E as (f & Hf & Hn).
    case_bool_decide; [|done]. subst. by apply list_elem_of_In.
  - assert (∀ f, f ∈ fs → f ≠ []) as Hne.
    { intros f Hf ->. apply not_true_iff_false in E. apply E, existsb_exists.
      exists []. split; [by apply list_elem_of_In | by case_bool_decide]. }
    destruct fs as [|f fs]; [naive_solver|]. split.
    + intros ->. exfalso. apply (Hne []); [left | done].
    + intros [|Hin]; [done|]. by exfalso; apply (Hne [] Hin).
Qed.

(** The candidates are the branches of the value's type, or all of them when none is. *)
Lemma candidates_elem {A B} (p : A → bool) (g : A → B) (l : list A) (y : B) :
  y ∈ candidates ((λ b, (p b, g b)) <$> l) ↔
  ∃ b, b ∈ l ∧ g b = y ∧ (p b = true ∨ Forall (λ b, p b = false) l).
Proof.
  unfold candidates. set (runs := (λ b, (p b, g b)) <$> l).
  assert (∀ r, r ∈ filter (λ r, r.1 = true) runs ↔ ∃ b, b ∈ l ∧ r = (true, g b) ∧ p b = true) as Hf.
  { intros r. rewrite list_elem_of_filter. unfold runs. rewrite list_elem_of_fmap. split.
    - intros (Hr & b & -> & Hb). simpl in *. exists b. by rewrite Hr.
    - intros (b & Hb & -> & Hp). simpl. split; [done|]. exists b. by rewrite Hp. }
  destruct (filter _ runs) as [|r rs] eqn:E.
  - assert (Forall (λ b, p b = false) l) as Hno.
    { apply Forall_forall. intros b Hb. destruct (p b) eqn:Hp; [|done].
      assert ((true, g b) ∈ ([] : list (bool * B))) as Hin by (apply Hf; eauto). by inversion Hin. }
    unfold runs. rewrite <-list_fmap_compose, list_elem_of_fmap. simpl. naive_solver.
  - rewrite list_elem_of_fmap. split.
    + intros (q & -> & Hq%Hf). destruct Hq as (b & Hb & -> & Hp). simpl. eauto.
    + intros (b & Hb & <- & Hp). exists (true, g b). split; [done|]. apply Hf.
      exists b. split_and!; [done..|]. destruct Hp as [|Hno]; [done|].
      assert (r ∈ r :: rs) as (b' & Hb' & -> & Hp')%Hf by left.
      rewrite Forall_forall in Hno. by rewrite (Hno b' Hb') in Hp'.
Qed.

Lemma concat_nil {A} (ls : list (list A)) : concat ls = [] ↔ Forall (λ l, l = []) ls.
Proof.
  induction ls as [|l ls IH]; simpl; [done|].
  rewrite app_nil, Forall_cons_iff, IH. done.
Qed.

Lemma Forall_imap {A B} (g : nat → A → B) (P : B → Prop) (Q : A → Prop) (l : list A) :
  (∀ i x, x ∈ l → P (g i x) ↔ Q x) → Forall P (imap g l) ↔ ∀ x, x ∈ l → Q x.
Proof.
  revert g. induction l as [|x l IH]; intros g Hg.
  - split; [intros _ x Hx; inversion Hx | constructor].
  - rewrite imap_cons, Forall_cons_iff, IH, Hg.
    + setoid_rewrite elem_of_cons. naive_solver.
    + left.
    + intros i y Hy. apply Hg. by right.
Qed.

Lemma assoc_fmap {A B} (g : A → B) (k : jstr) (l : list (jstr * A)) :
  assoc k ((λ p, (p.1, g p.2)) <$> l) = g <$> assoc k l.
Proof. induction l as [|[k' a] l IH]; simpl; [done|]. by case_decide. Qed.

Lemma assoc_elem {A} (k : jstr) (a : A) (l : list (jstr * A)) : assoc k l = Some a → (k, a) ∈ l.
Proof.
  induction l as [|[k' a'] l IH]; simpl; [done|]. case_decide; intros E; simplify_eq; [left | right; auto].
Qed.

Section Decides.
Context (openPaths : list jstr).

Abbreviation decides s := (∀ v path al sp, al = [] ∨ path = [] →
  unknownPaths openPaths s v path al sp = [] ↔ closed openPaths s v al sp).

Lemma decides_branches t bs it ps ad rq : Forall (λ s, decides s) bs → decides (Node t (Some bs) it ps ad rq).
Proof.
  intros IH v path al sp Hal. simpl. rewrite cleanest_nil.
  set (runs := _ <$> bs). assert (candidates runs = [] → bs = []) as Hempty.
  { destruct bs as [|b bs]; [done|]. intros E. exfalso.
    destruct (existsb (λ b, matchesType b v) (b :: bs)) eqn:Hex.
    - apply existsb_exists in Hex as (c & Hc%list_elem_of_In & Hm).
      assert (unknownPaths openPaths c v path al sp ∈ candidates runs) as Hin
        by (apply candidates_elem; eauto).
      rewrite E in Hin. inversion Hin.
    - assert (unknownPaths openPaths b v path al sp ∈ candidates runs) as Hin.
      { apply candidates_elem. exists b. split_and!; [left | done | right].
        apply Forall_forall. intros c Hc. apply not_true_iff_false. intros Hm.
        apply not_true_iff_false in Hex. apply Hex, existsb_exists. exists c.
        split; [by apply list_elem_of_In | done]. }
      rewrite E in Hin. inversion Hin. }
  rewrite Forall_forall in IH. split.
  - intros [E|Hin]; [apply Hempty in E as ->; constructor|].
    apply candidates_elem in Hin as (b & Hb & Hn & Hc).
    apply (closed_branch _ _ _ _ _ _ _ _ _ _ b); [done..|]. by apply (IH b Hb v path).
  - inversion 1 as [? ? ? ? ? ? ? ? ? b Hb Hc Hcl| | | | |]; subst; [|by left].
    right. apply candidates_elem. exists b. split_and!; [done | by apply IH | done].
Qed.

Lemma decides_entry ps ad path al sp k x :
  Forall (λ p, decides p.2) ps → from_option (λ s, decides s) True ad → al = [] ∨ path = [] →
  entry_paths openPaths ((λ p, (p.1, unknownPaths openPaths p.2)) <$> ps)
    (match ad with Some a => Some (unknownPaths openPaths a) | None => None end) path al sp (k, x) = [] ↔
  closed_entry openPaths ps ad al sp k x.
Proof.
  intros Hps Had Hal. unfold entry_paths, property_walk. rewrite assoc_fmap. simpl.
  destruct (assoc k ps) as [s|] eqn:E; simpl.
  - rewrite Forall_forall in Hps. rewrite (Hps _ (assoc_elem _ _ _ E)) by (by left). split.
    + intros Hc. by apply (entry_declared _ _ _ _ _ _ _ s).
    + inversion 1; simplify_eq; done.
  - case_decide as Hk; [subst; split; [by constructor | done]|].
    destruct (bool_decide (path = []) && bool_decide (k ∈ al)) eqn:Ha.
    { apply andb_true_iff in Ha as [_ Hk'%bool_decide_eq_true]. split; [by constructor | done]. }
    assert (k ∉ al) as Hna.
    { intros Hin. destruct Hal as [->| ->]; [inversion Hin|].
      apply andb_false_iff in Ha as [Ha|Ha]; by case_bool_decide. }
    clear Ha. case_bool_decide as Ho.
    + destruct ad as [a|]; simpl in *.
      * rewrite Had by (by left). split.
        -- intros Hc. apply entry_open; [done..|]. naive_solver.
        -- inversion 1; simplify_eq; naive_solver.
      * split; [|done]. intros _. by apply entry_open.
    + split; [done|]. inversion 1; simplify_eq; done.
Qed.

Lemma decides_record t it ps ad rq v path al sp :
  Forall (λ p, decides p.2) (default [] ps) → from_option (λ s, decides s) True ad → al = [] ∨ path = [] →
  is_array v = false →
  unknownPaths openPaths (Node t None it ps ad rq) v path al sp = [] ↔
  closed openPaths (Node t None it ps ad rq) v al sp.
Proof.
  intros Hps Had Hal Hv. set (s := Node t None it ps ad rq).
  assert (unknownPaths openPaths s v path al sp =
    if negb (is_record v) || negb (is_type "object" s) then []
    else concat (entry_paths openPaths
           ((λ p, (p.1, unknownPaths openPaths p.2)) <$> default [] ps)
           (match ad with Some a => Some (unknownPaths openPaths a) | None => None end) path al sp
         <$> entries v)) as ->.
  { destruct v, ps; done. }
  destruct (is_record v && is_type "object" s) eqn:E.
  - apply andb_true_iff in E as [Hr Ho]. rewrite Hr, Ho. simpl.
    rewrite concat_nil, Forall_fmap, Forall_forall. split.
    + intros HA. apply closed_record; [done..|]. intros k x Hin.
      apply (decides_entry _ _ path); [done..|]. by apply (HA (k, x)).
    + intros Hc [k x] Hin. apply decides_entry; [done..|].
      unfold s in *. by inversion Hc; subst; [..|destruct_or?; congruence|auto].
  - rewrite <-negb_andb, E. simpl. split; [|done]. intros _.
    apply closed_other; [done|]. by apply andb_false_iff.
Qed.

Lemma decides_all s : decides s.
Proof.
  induction s as [t bs it ps ad rq Hbs Hit Hps Had] using schema_induction.
  destruct bs as [bs|]; [by apply decides_branches|].
  intros v path al sp Hal. destruct (is_array v) eqn:Hv; [|by apply decides_record].
  destruct v; try done. simpl. destruct it as [it|]; simpl.
  - rewrite concat_nil, (Forall_imap _ _ (λ x, closed openPaths it x [] (sp ++ u "[]"))).
    + split; [by constructor|]. inversion 1; subst; done.
    + intros i x _. apply Hit. by left.
  - split; [by constructor | done].
Qed.
End Decides.

(** The closed-argument check (arg-shapes.ts unknownArgumentPaths) reports nothing
    exactly for the arguments whose every field is declared: through unions (a branch of
    the value's own type), arrays and nested objects, a top-level alias or a field of an
    open path excepted.  It reports nothing for a field named [__proto__] either. *)
Theorem unknown_paths_decide (schema : JsonSchema) (value : jsval) (aliases openPaths : list jstr) :
  unknownArgumentPaths schema value aliases openPaths = [] ↔ closed openPaths schema value aliases [].
Proof. apply decides_all. by right. Qed.

(** ** The leaves of a schema

    [write-authority.ts] collects the paths of a schema's leaves, and those of the leaves
    an argument may omit.  The fields are walked in the order they are listed. *)

(** [[...new Set(l)]]: the first occurrence of each. *)
Fixpoint new_set (l : list jstr) : list jstr :=
  match l with [] => [] | x :: l' => x :: filter (λ y, y ≠ x) (new_set l') end.

Definition array_path (prefix : jstr) : jstr := prefix ++ u "[]".

Fixpoint collectPaths (node : JsonSchema) (prefix : jstr) : list jstr :=
  match node with
  | Node _ branches items properties _ _ =>
      match branches with
      | Some bs => new_set (concat ((λ b, collectPaths b prefix) <$> bs))
      | None =>
          if is_type "array" node || bool_decide (is_Some items)
          then
            let nested := match items with Some it => collectPaths it (array_path prefix) | None => [] end in
            match nested with [] => [array_path prefix] | _ => nested end
          else
            match properties with
            | Some ps => concat ((λ p, collectPaths p.2 (child_of prefix p.1)) <$> ps)
            | None => if bool_decide (prefix = []) then [] else [prefix]
            end
      end
  end.

Fixpoint collectOptionalLeafPaths (node : JsonSchema) (prefix : jstr) (inheritedOptional : bool) : list jstr :=
  match node with
  | Node _ branches items properties _ required =>
      match branches with
      | Some bs =>
          let branchLeaves := (λ b, collectPaths b prefix) <$> bs in
          let absentFromAnyBranch :=
            filter (λ path, Exists (λ paths, path ∉ paths) branchLeaves) (new_set (concat branchLeaves)) in
          new_set (concat ((λ b, collectOptionalLeafPaths b prefix inheritedOptional) <$> bs) ++ absentFromAnyBranch)
      | None =>
          if is_type "array" node || bool_decide (is_Some items)
          then
            let nested := match items with
                          | Some it => collectOptionalLeafPaths it (array_path prefix) inheritedOptional
                          | None => [] end in
            match nested with
            | [] => if inheritedOptional && negb (bool_decide (prefix = [])) then [array_path prefix] else []
            | _ => nested
            end
          else
            match properties with
            | Some ps =>
                concat ((λ p, collectOptionalLeafPaths p.2 (child_of prefix p.1)
                                (inheritedOptional || negb (bool_decide (p.1 ∈ required)))) <$> ps)
            | None => if inheritedOptional && negb (bool_decide (prefix = [])) then [prefix] else []
            end
      end
  end.

Definition optionalLiteralPathsFromJsonSchema (schema : JsonSchema) : list jstr :=
  merge_sort jstr_le (new_set (collectOptionalLeafPaths schema [] false)).

Lemma elem_of_new_set x l : x ∈ new_set l ↔ x ∈ l.
Proof.
  induction l as [|y l IH]; simpl; [done|].
  rewrite !elem_of_cons, list_elem_of_filter, IH. destruct (decide (x = y)); naive_solver.
Qed.

Lemma NoDup_new_set l : NoDup (new_set l).
Proof.
  induction l as [|y l IH]; simpl; constructor.
  - rewrite list_elem_of_filter. naive_solver.
  - by apply NoDup_filter.
Qed.

Lemma elem_of_concat_fmap {A} (g : A → list jstr) (l : list A) x :
  x ∈ concat (g <$> l) ↔ ∃ a, a ∈ l ∧ x ∈ g a.
Proof.
  induction l as [|a l IH]; simpl; [split; [intros Hx; inversion Hx | by intros (? & Hx & _); inversion Hx]|].
  rewrite elem_of_app, IH. setoid_rewrite elem_of_cons. naive_solver.
Qed.

(** Every optional leaf is a leaf, and under an optional parent every leaf is optional. *)
Lemma optional_leaves s prefix inherited :
  collectOptionalLeafPaths s prefix inherited ⊆ collectPaths s prefix ∧
  (inherited = true → prefix ≠ [] → collectPaths s prefix ⊆ collectOptionalLeafPaths s prefix inherited).
Proof.
  revert prefix inherited.
  induction s as [t bs it ps ad rq Hbs Hit Hps _] using schema_induction; intros prefix inh.
  assert (∀ i, it = Some i → _) as Hi by (intros i ->; exact (λ p, Hit p inh)). clear Hit.
  assert (array_path prefix ≠ []) as Hne by (unfold array_path; destruct prefix; done).
  cbn [collectOptionalLeafPaths collectPaths]. destruct bs as [bs|].
  - rewrite Forall_forall in Hbs. simpl in Hbs. split.
    + intros x. rewrite !elem_of_new_set, elem_of_app, list_elem_of_filter, elem_of_new_set.
      rewrite !elem_of_concat_fmap. intros [(b & Hb & Hx)|[_ Hx]]; [|done].
      exists b. split; [done|]. by apply (Hbs b Hb prefix inh).
    + intros Hin Hp x. rewrite !elem_of_new_set, elem_of_app, !elem_of_concat_fmap.
      intros (b & Hb & Hx). left. exists b. split; [done|]. by apply (Hbs b Hb prefix inh).
  - destruct (is_type "array" _ || bool_decide (is_Some it)).
    + destruct it as [i|]; simpl.
      * destruct (Hi i eq_refl (array_path prefix)) as [H1 H2].
        destruct (collectOptionalLeafPaths i (array_path prefix) inh) as [|y ys] eqn:E.
        -- destruct inh; simpl; [|split; [intros x Hx; inversion Hx | done]].
           case_bool_decide; simpl; [split; [intros x Hx; inversion Hx | done]|].
           destruct (collectPaths i (array_path prefix)) as [|z zs]; [split; set_solver|].
           exfalso. specialize (H2 eq_refl Hne z). set_solver.
        -- destruct (collectPaths i (array_path prefix)) as [|z zs] eqn:E'; [set_solver|].
           split; [done|]. intros Hin _. by apply H2.
      * destruct inh; simpl; [case_bool_decide; simpl|]; set_solver.
    + clear Hi. destruct ps as [ps|].
      * simpl in Hps. rewrite Forall_forall in Hps. split.
        -- intros x. rewrite !elem_of_concat_fmap. intros (p & Hp & Hx). exists p. split; [done|].
           by eapply (Hps p Hp).
        -- intros -> Hp x. rewrite !elem_of_concat_fmap. intros (p & Hp' & Hx). exists p. split; [done|].
           apply (Hps p Hp'); [done | | done]. unfold child_of. case_bool_decide; [done|].
           destruct prefix; done.
      * destruct inh; simpl; [case_bool_decide; simpl|]; set_solver.
Qed.

(** The declared optional paths: leaves of the schema, sorted and without repetition. *)
Lemma optional_paths_leaves schema :
  optionalLiteralPathsFromJsonSchema schema ⊆ collectPaths schema [] ∧
  NoDup (optionalLiteralPathsFromJsonSchema schema) ∧
  Sorted jstr_le (optionalLiteralPathsFromJsonSchema schema).
Proof.
  unfold optionalLiteralPathsFromJsonSchema. split_and!.
  - intros x. rewrite merge_sort_Permutation, elem_of_new_set. apply optional_leaves.
  - rewrite merge_sort_Permutation. apply NoDup_new_set.
  - apply Sorted_merge_sort. apply _.
Qed.
