(* ===== verification/Scenarios.v ===== *)
(** * A concrete run of the mutation path

    One workspace, one confirmed deletion of a tag: the plan scope, the journal, the
    adapter and the commit run together on a concrete host, and the theorems about them
    are applied to that run. *)
From S2P Require Import Prelude Js SafeJson Policy Db Plan Journal Store JournalMachine Effects MutationScope PlanScope RestCore RestResults Receipts Workflow WorkflowResults World Commit Execute WriteAhead.
From S2P Require SafetyLimits HostBudget WriteAuthority AuthorityTable.
Import Permissions Risk.
Open Scope Z_scope.

(** ** The workspace *)

Definition demo_uuid (n : nat) : jstr := u "step-" ++ digits (N.of_nat n).

Definition demo_response (st : Z) (t : string) (v : option jsval) : Response :=
  {| RestCore.status := st; text := inr (u t); json := v; retry_after_ms := None; content_length := None;
     content_type := None; chunks := None; whole := inr [] |}.

(** The host answers every request with the tag. *)
Definition demo_host (log : list Request) : failure + Response :=
  inr (demo_response 200 "{}" (Some (VObj [(u "id", VStr (u "t1"))]))).
#[export] Instance demo_ordinary : OrdinaryHost demo_host.
Proof. split; unfold demo_host; intros; by simplify_eq/=. Defined.

Definition demo_accepts (s : world) : bool := true.
Definition demo_hosts (h : ClockifyHost) : option jstr :=
  match h with HostApi => Some (u "https://api") | _ => None end.

#[local] Instance demo_wire : Wire world := world_wire demo_host demo_accepts.
#[local] Instance demo_journal : MutationStepJournal world := world_journal demo_uuid (u "op").

Definition json_step (id kind : string) : jsval := VObj [(u "id", VStr (u id)); (u "kind", VStr (u kind))].
(** The stored plan of the operation. *)
Definition json_plan (steps : list jsval) : jsval :=
  VObj [(u "mutationPlan", VObj [(u "mode", VStr (u "curated")); (u "maxHostCalls", num 10);
                                 (u "steps", VArr steps)])].

Definition demo_run (operation : jsval) : OperationRunRow :=
  {| binding :=
       {| request_id := None; confirmation_id := None; session_id := u "s"; workspace_id := u "w";
          admin_user_id := u "a"; action_name := u "clockify_tags_delete"; action_fingerprint := u "f";
          catalog_hash := u "c"; operation_hash := u "h"; capability_id := None; capability_hash := None;
          discriminator :=
            {| origin := None; registry_id := None; authority_model := None; executor_kind := None;
               run_id := None; field_provenance_json := None; field_provenance_hash := None;
               source_undo_id := None; source_undo_hash := None |};
          run_created_at := 0 |};
     run_status := RunExecuting; run_result_id := None; operation_json := operation; reconciled_at := None;
     reconciliation_json := None; run_batch_id := None; run_updated_at := 0 |}.
Definition demo_db (steps : list jsval) : db := set_runs {[ u "op" := demo_run (json_plan steps) ]} empty_db.

Definition demo_world (sc : option MutationPlanScopeState) (d : db) : world :=
  {| w_scope := sc; w_budget := HostBudget.no_budget; w_sent := []; w_notes := []; w_aborted := false;
     w_db := d; w_now := 1000; w_fresh := 0 |}.

(** ** One step *)

Definition demo_plan_steps : list MutationPlanScopeStep :=
  [{| scope_step_id := u "delete-tag"; scope_step_kind := primary |}].
Definition demo_hooks : ScopeHooks world := commit_hooks (eret None) true.

Definition demo_dispatch : E world StepDetail :=
  let* v := mutate demo_hooks demo_hosts true true COMMIT_TIMEOUT_MS HostApi (u "DELETE") (u "/tags/t1") NoBody in
  eret {| detail_externalId := string_of (prop (u "id") v); detail_effect := VUndef; detail_detail := VUndef |}.

Definition demo_step : ExecutableMutationStep world :=
  {| exec_id := u "delete-tag"; exec_index := 0; exec_name := u "Delete tag"; exec_kind := primary;
     exec_targetFingerprint := None; exec_preparedDetail := VUndef; exec_compensatesStepId := None;
     dispatch := demo_dispatch |}.

Definition start : world := demo_world (Some (new_scope demo_plan_steps)) (demo_db [json_step "delete-tag" "primary"]).
Definition step_run := executeStep demo_hooks (u "op") demo_step start.

(** ** A workflow whose second step is rejected, and its compensation *)

Definition rejecting_host (log : list Request) : failure + Response :=
  if bool_decide (length log = 2%nat) then inr (demo_response 400 "no" None) else demo_host log.
#[export] Instance rejecting_ordinary : OrdinaryHost rejecting_host.
Proof. split; unfold rejecting_host, demo_host; intros; case_bool_decide; by simplify_eq/=. Defined.

Section Rejected.
#[local] Instance rejecting_wire : Wire world := world_wire rejecting_host demo_accepts.

Definition send (m path : string) : E world StepDetail :=
  let* v := mutate demo_hooks demo_hosts true true COMMIT_TIMEOUT_MS HostApi (u m) (u path) NoBody in
  eret {| detail_externalId := string_of (prop (u "id") v); detail_effect := VUndef; detail_detail := VUndef |}.

Definition sending (id : string) (index : nat) (k : StepKind) (m path : string) : ExecutableMutationStep world :=
  {| exec_id := u id; exec_index := index; exec_name := u id; exec_kind := k;
     exec_targetFingerprint := None; exec_preparedDetail := VUndef; exec_compensatesStepId := None;
     dispatch := send m path |}.
Definition create_client := sending "create-client" 0 primary "POST" "/clients".
Definition create_project := sending "create-project" 1 primary "POST" "/projects".
Definition delete_client := sending "delete-client" 2 compensation "DELETE" "/clients/t1".
End Rejected.

Definition three_steps : list MutationPlanScopeStep :=
  [{| scope_step_id := u "create-client"; scope_step_kind := primary |};
   {| scope_step_id := u "create-project"; scope_step_kind := primary |};
   {| scope_step_id := u "delete-client"; scope_step_kind := compensation |}].

Definition setup_workflow : ExecuteMutationWorkflowInput (S := world) :=
  {| actionName := u "clockify_setup_project"; Workflow.steps := [create_client; create_project];
     onSuccess _ := eret (VObj [(u "ok", VBool true)]);
     onPartial done x := eret (VObj [(u "kind", VStr (u "partial")); (u "completed", num (Z.of_nat (length done)))]);
     onJournalDegraded _ _ := eret (VObj []);
     onFailure _ := eret (VObj [(u "ok", VBool false)]) |}.

Definition workflow_start : world := demo_world (Some (new_scope three_steps))
  (demo_db [json_step "create-client" "primary"; json_step "create-project" "primary";
            json_step "delete-client" "compensation"]).
Definition workflow_run := executeMutationWorkflow demo_hooks (u "op") setup_workflow workflow_start.
Definition compensation_run :=
  executeCompensationStep demo_hooks (u "op") delete_client (u "step-0") workflow_run.2.

(** ** The theorems on these runs *)

#[local] Instance demo_laws : JournalLaws world := world_journal_laws demo_accepts demo_uuid (u "op").

Lemma sent_untouched : @Untouched world _ demo_journal w_sent.
Proof. by apply untouched_world. Defined.

Lemma execute_step_exact_witness :
  length step_run.2.(w_sent) = 1%nat ∧
  ∃ p y s1 out s2, prepare_step (u "op") demo_step start = (inr (p, y), s1) ∧ s1.(w_sent) = [] ∧
    withMutationPlanStep demo_hooks (u "delete-tag") 0 primary demo_dispatch s1 = (out, s2) ∧
    step_run.2.(w_sent) = s2.(w_sent).
Proof.
  split; [vm_compute; reflexivity|].
  destruct (execute_step_exact demo_hooks (u "op") w_sent demo_step start step_run.1 step_run.2
              sent_untouched (surjective_pairing _))
    as [(e & _ & He & _)|(p & y & s1 & out & s2 & Hp & Hs & _ & _ & Ho & Hs' & _)].
  - exfalso. revert He. vm_compute. discriminate.
  - exists p, y, s1, out, s2. split; [exact Hp|]. split; [exact Hs|]. split; [exact Ho|exact Hs'].
Defined.

Lemma execute_compensation_exact_witness :
  length compensation_run.2.(w_sent) = 3%nat ∧
  ∃ s1 out s2, s1.(w_sent) = workflow_run.2.(w_sent) ∧
    withMutationPlanStep demo_hooks (u "delete-client") 2 compensation delete_client.(dispatch) s1 = (out, s2) ∧
    compensation_run.2.(w_sent) = s2.(w_sent).
Proof.
  split; [vm_compute; reflexivity|].
  pose proof (execute_compensation_exact demo_hooks (u "op") w_sent delete_client (u "step-0") workflow_run.2
    compensation_run.1 compensation_run.2 sent_untouched (surjective_pairing _)) as H.
  destruct compensation_run.1 as [e|z] eqn:E.
  - exfalso. revert E. vm_compute. discriminate.
  - destruct H as (y & s1 & out & s2 & _ & Hs & _ & _ & Ho & Hs' & _).
    exists s1, out, s2. split; [exact Hs|]. split; [exact Ho|exact Hs'].
Defined.

Lemma workflow_exact_witness :
  (length workflow_run.2.(w_sent) = 2%nat) ∧
  ∃ s0 pre zs sm, clean_run demo_hooks (u "op") pre s0 zs sm ∧ (length pre <= 2)%nat.
Proof.
  split; [vm_compute; reflexivity|].
  destruct (workflow_exact demo_hooks (u "op") setup_workflow workflow_start workflow_run.1 workflow_run.2
              (surjective_pairing _))
    as [(_ & He & _)|(_ & [(e & _ & He)|[(status & _ & _ & He)|(s0 & pre & zs & sm & _ & Hrun & Hend)]])].
  1-3: exfalso; revert He; vm_compute; discriminate.
  - exists s0, pre, zs, sm. split; [exact Hrun|].
    destruct Hend as [[Hp _]|(x & post & Hp & _)]; apply (f_equal length) in Hp; revert Hp;
      change (length (filter (λ x, is_primary_step x = true) setup_workflow.(Workflow.steps))) with 2%nat;
      rewrite ?length_app; simpl; lia.
Defined.

(** *** The scope *)

Lemma scope_untouched : @Untouched world _ demo_journal w_scope.
Proof. by apply untouched_world. Defined.

Lemma journal_keeps_plan {A} (c : E world A) :
  respects (λ s s', s'.(w_scope) = s.(w_scope)) c → respects keeps_plan c.
Proof. intros Hc s. apply keeps_plan_same, Hc. Defined.

Lemma mark_keeps_plan id k : respects keeps_plan (markScopedStepDispatched id k).
Proof.
  unfold markScopedStepDispatched, dispatch_unavailable.
  respects_by ltac:(apply journal_keeps_plan; first [apply (un_dispatch w_scope scope_untouched) | by intros s]).
Defined.

Lemma eligible_keeps_plan t : respects keeps_plan (demo_hooks.(compensationEligible) t).
Proof. apply journal_keeps_plan. by intros s. Defined.

Lemma dispatch_keeps_plan : respects keeps_plan demo_dispatch.
Proof.
  unfold demo_dispatch, mutate. respects_by ltac:(apply request_keeps_plan; intros t;
    [by apply respects_ret, _ | apply mark_keeps_plan]).
Defined.

Definition demo_scope : MutationPlanScopeState := new_scope demo_plan_steps.
Definition executing_row (r : OperationStepRow) : OperationStepRow := executing_step 1000 r.
(** The journal has brought the step to its executing row. *)
Definition prepared_world : world := (prepare_step (u "op") demo_step start).2.

Lemma scoped_step_exact_witness :
  (withMutationPlanStep demo_hooks (u "delete-tag") 0 primary demo_dispatch prepared_world).2.(w_scope)
    ≠ prepared_world.(w_scope) ∧
  (∃ sc', scope_of (withMutationPlanStep demo_hooks (u "delete-tag") 0 primary demo_dispatch prepared_world).2
            = Some sc' ∧
     step_outcome (withMutationPlanStep demo_hooks (u "delete-tag") 0 primary demo_dispatch prepared_world).1
       (u "delete-tag") 0 primary sc') ∧
  enter_refusal demo_scope (u "delete-tag") 0 primary = None.
Proof.
  split; [vm_compute; discriminate|].
  destruct (scoped_step_exact demo_hooks (u "delete-tag") 0 primary demo_dispatch prepared_world demo_scope _ _
              dispatch_keeps_plan eligible_keeps_plan
              eq_refl (surjective_pairing _)) as (H1 & _ & _ & _).
  split; [exact H1|vm_compute; reflexivity].
Defined.

(** The whole operation under its plan scope. *)
Definition bare_world : world := demo_world None (demo_db [json_step "delete-tag" "primary"]).
Definition scoped_operation : E world JournaledMutationStep :=
  withMutationPlanScope demo_hooks 10 demo_plan_steps (λ _, true) (executeStep demo_hooks (u "op") demo_step).
Definition scoped_value : JournaledMutationStep :=
  match (scoped_operation bare_world).1 with inr y => y | inl _ => ([], prepared_step
    {| Db.operation_id := []; step_index := 0; plan_step_id := []; step_name := []; step_kind := primary;
       target_fingerprint := None; compensates_step_id := None; step_created_at := 0 |} None 0) end.

Lemma scoped_result_complete_witness :
  length (scoped_operation bare_world).2.(w_sent) = 1%nat ∧
  scope_of (scoped_operation bare_world).2 = None ∧
  ∃ s1 s2, scope_of s1 = Some (new_scope demo_plan_steps) ∧
    executeStep demo_hooks (u "op") demo_step s1 = (inr scoped_value, s2) ∧
    ∀ sc, scope_of s2 = Some sc → Forall (λ x, is_primary x = true → x.(descriptor_status) = Completed ∨
      x.(descriptor_status) = Failed) sc.(descriptors).
Proof.
  split; [vm_compute; reflexivity|].
  assert (scoped_operation bare_world = (inr scoped_value, (scoped_operation bare_world).2)) as Hrun
    by (vm_compute; reflexivity).
  destruct (scoped_result_complete demo_hooks 10 demo_plan_steps (λ _, true)
              (executeStep demo_hooks (u "op") demo_step) bare_world _ _ Hrun)
    as (_ & _ & _ & Hsc & s1 & s2 & Hs1 & Hr & Hc).
  split; [exact Hsc|]. exists s1, s2. split; [exact Hs1|]. split; [exact Hr|].
  intros sc Hsc2. eapply Forall_impl; [exact (Hc eq_refl sc Hsc2)|]. simpl. intros x Hx Hp.
  destruct (Hx Hp) as [|(? & _)]; tauto.
Defined.

(** *** Requests *)

#[local] Instance demo_silent : SilentHooks demo_hooks.
Proof.
  apply (commit_hooks_silent demo_host demo_accepts demo_uuid (u "op") (eret None) true). intros s. by split.
Defined.

Lemma mutation_sent_once_witness :
  length (demo_dispatch start).2.(w_sent) = 0%nat ∧
  (∀ t s1, ∃ e, (answered true {| RestCore.kind := OpMutation; method := u "DELETE"; url := u "https://api/tags/t1";
                       body := NoBody |} (u "/tags/t1") false (demo_response 404 t None) s1).1 = inl e ∧
     definitive e = negb (restricted true 404 (u t))).
Proof.
  split; [vm_compute; reflexivity|]. intros t s1.
  apply (proj2 (mutation_sent_once demo_hooks demo_hosts true true COMMIT_TIMEOUT_MS HostApi (u "DELETE")
    (u "/tags/t1") NoBody start _ _ (surjective_pairing _))); reflexivity.
Defined.

Definition tags_page := paginate demo_hooks demo_hosts true true COMMIT_TIMEOUT_MS HostApi (u "/tags") [].

Lemma read_bounded_witness :
  (length (call demo_hooks demo_hosts true true COMMIT_TIMEOUT_MS HostApi (u "GET") (u "/tags/t1") NoBody false start).2.(w_sent)
     = 1%nat) ∧
  ∃ r n, only r n start
    (call demo_hooks demo_hosts true true COMMIT_TIMEOUT_MS HostApi (u "GET") (u "/tags/t1") NoBody false start).2 ∧
    (n <= 1)%nat.
Proof.
  split; [vm_compute; reflexivity|].
  destruct (read_bounded demo_hooks demo_hosts true true COMMIT_TIMEOUT_MS HostApi (u "GET") (u "/tags/t1") NoBody
    false start) as (r & n & _ & _ & Ho & _ & Hn & _).
  exists r, n. split; [exact Ho|]. apply Hn. by eexists.
Defined.

Definition list_host (log : list Request) : failure + Response :=
  inr (demo_response 200 "[]" (Some (VArr [VObj [(u "id", VStr (u "t1"))]]))).

Lemma paginate_exact_witness :
  let wire := world_wire list_host demo_accepts in
  ∃ res s', @paginate world _ wire demo_hooks demo_hosts true true COMMIT_TIMEOUT_MS HostApi (u "/tags") [] bare_world
      = (inr res, s') ∧ length res.(rows) = 1%nat ∧
    ∃ ps, res.(rows) = concat ps ∧ (length ps <= 50)%nat.
Proof.
  set (wire := world_wire list_host demo_accepts). simpl.
  set (run := @paginate world _ wire demo_hooks demo_hosts true true COMMIT_TIMEOUT_MS HostApi (u "/tags") [] bare_world).
  assert (run = (inr {| rows := [VObj [(u "id", VStr (u "t1"))]]; truncated := false |}, run.2)) as Hrun
    by (vm_compute; reflexivity).
  eexists _, _. split; [exact Hrun|]. split; [reflexivity|].
  destruct (@paginate_exact world _ wire demo_hooks demo_hosts true true COMMIT_TIMEOUT_MS HostApi (u "/tags") []
    bare_world _ _ Hrun) as (ps & Hr & Hlen & _). exists ps. split; [exact Hr|exact Hlen].
Defined.

Definition entered_world : world :=
  with_scope (Some (set_active (Some 0%nat) demo_scope)) prepared_world.
Definition send_entered :=
  mutate demo_hooks demo_hosts true true COMMIT_TIMEOUT_MS HostApi (u "DELETE") (u "/tags/t1") NoBody entered_world.

Lemma one_request_per_row_witness :
  (length send_entered.2.(w_sent) = 1%nat) ∧
  ∃ id row req s1,
    entered_world.(w_db).(operation_steps) !! id = Some row ∧ undispatched (Some (u "op")) row = true ∧
    fetch_gate demo_hooks true req entered_world = (inr tt, s1) ∧
    s1.(w_sent) = entered_world.(w_sent) ∧ send_entered.2.(w_sent) = entered_world.(w_sent) ++ [req].
Proof.
  split; [vm_compute; reflexivity|].
  assert (respects still (eret (A := option jsval) None)) as Hauth by (intros s; by split).
  assert (mutations send_entered.2 ≠ mutations entered_world) as Hne by (vm_compute; discriminate).
  destruct (one_request_per_row demo_host demo_accepts demo_uuid (u "op") (eret None) true demo_hosts true
    COMMIT_TIMEOUT_MS Hauth HostApi (u "DELETE") (u "/tags/t1") NoBody entered_world _ _ (surjective_pairing _) Hne)
    as (id & row & now & req & s1 & Hr & Hu & Hg & _ & Hs & _ & Hsent).
  exists id, row, req, s1. split; [exact Hr|]. split; [exact Hu|]. split; [exact Hg|]. split; [exact Hs|exact Hsent].
Defined.

(** ** The confirmed operation *)

Definition demo_policy : AdminPolicy := {| version := 1; groups := {["work_structure" := "read_write"%string]} |}.

Definition demo_plan : SafetyLimits.ExternalMutationPlan :=
  {| SafetyLimits.mode := SafetyLimits.Single; SafetyLimits.maxHostCalls := 10;
     SafetyLimits.steps := [{| SafetyLimits.plan_step_id := u "delete-tag"; SafetyLimits.plan_step_kind := SafetyLimits.Primary;
       SafetyLimits.plan_target_fingerprint := None;
       SafetyLimits.plan_reconciliation := Some SafetyLimits.StrategyDelete |}] |}.

Definition demo_operation : ConfirmableOperation :=
  {| op_operationId := u "op"; op_actionName := u "clockify_tags_delete"; op_installationGeneration := Some 3;
     op_featureGroup := work_structure; op_risks := [Destructive]; op_payload := VObj [(u "tagId", VStr (u "t1"))];
     op_mutationPlan := Some demo_plan; op_targetSnapshots := VArr [] |}.

Definition demo_authority : option WriteAuthority.WriteAuthorityMetadata :=
  match AuthorityTable.writeAuthorityFor [] "clockify_tags_delete" with Ok a => Some a | Throw _ => None end.
Definition demo_contract : option DurableMutationContract :=
  Some {| contract_strategies := [SafetyLimits.StrategyDelete]; contract_unreconciled := [] |}.

Definition tags_delete_workflow : ExecuteMutationWorkflowInput (S := world) :=
  {| actionName := u "clockify_tags_delete"; Workflow.steps := [demo_step];
     onSuccess _ := eret (VObj [(u "ok", VBool true); (u "action", VStr (u "clockify_tags_delete"))]);
     onPartial _ _ := eret (VObj []); onJournalDegraded _ _ := eret (VObj []);
     onFailure _ := eret (VObj [(u "ok", VBool false)]) |}.

Definition tags_delete : RiskyAction (S := world) :=
  {| risky_name := u "clockify_tags_delete"; risky_durable := true; risky_contract := demo_contract;
     risky_authority := demo_authority;
     commit _ _ := executeMutationWorkflow demo_hooks (u "op") tags_delete_workflow;
     idempotencyKey _ := Some (u "t1") |}.

(** The ledger's rows, without the confirmation they are bound to. *)
Definition ledger_key (key : jstr) : idem_key := (key, u "w", u "a").
Definition demo_claim (key : jstr) : E world Idempotency.ClaimState := λ s,
  let '(st, d) := Idempotency.claimIdempotency (ledger_key key) s.(w_now) (s.(w_now) - 600000) (s.(w_now) - 300000)
                    s.(w_db) in
  (inr st, with_db d s).
Definition demo_ledger : AtomicIdempotencyLedger world :=
  {| claim := demo_claim;
     lookupCompleted key s := (inr (Idempotency.claimIdempotencyReceipt (ledger_key key) s.(w_db)), s);
     fill _ _ := eret tt;
     release key s := (inr tt, with_db (Idempotency.releaseIdempotency (ledger_key key) s.(w_db)) s) |}.

Definition demo_context : CommitContext (S := world) :=
  {| workspaceId := u "w"; adminUserId := u "a"; policy := demo_policy; authorizeWrite _ := eret None;
     mutationJournal := Some demo_journal; idempotency := Some (AtomicLedger demo_ledger) |}.

Definition commit_run := commitConfirmedOperation (λ s, s) (Some tags_delete) demo_context demo_operation bare_world.
(** The same operation again, from where the first commit left. *)
Definition commit_again := commitConfirmedOperation (λ s, s) (Some tags_delete) demo_context demo_operation commit_run.2.

(** Nothing was sent. *)
Definition unsent (s s' : world) : Prop := s'.(w_sent) = s.(w_sent).
#[export] Instance unsent_preorder : PreOrder unsent.
Proof. split; [by intros s|]. intros s1 s2 s3. unfold unsent. congruence. Defined.

Lemma ledger_unsent l : Some (AtomicLedger demo_ledger) = Some l → ledger_respects unsent l.
Proof.
  intros [= <-]. split; [|split; [|split]]; intros; intros s; try reflexivity.
  simpl. unfold demo_claim. by destruct (Idempotency.claimIdempotency _ _ _ _ _).
Defined.

Lemma commit_once_witness :
  (length commit_run.2.(w_sent) = 1%nat ∧ commit_again.2.(w_sent) = commit_run.2.(w_sent)) ∧
  ∃ s1 s2, demo_claim (u "w a clockify_tags_delete t1") s1 = (inr Idempotency.won, s2) ∧
    ran_once unsent (u "clockify_tags_delete") (scoped_commit tags_delete demo_context demo_operation) s1 s2
      commit_run.1 commit_run.2.
Proof.
  split; [split; vm_compute; reflexivity|].
  destruct (commit_once (λ s, s) unsent (Some tags_delete) demo_context demo_operation bare_world _ _
              unsent_preorder (λ n s, eq_refl) ledger_unsent (surjective_pairing _))
    as [Hu|(a & s1 & s2 & Ha & _ & _ & _ & _ & Hwon & _ & _ & _ & Hran)].
  - exfalso. revert Hu. vm_compute. discriminate.
  - injection Ha as <-. exists s1, s2. split; [|exact Hran]. apply (Hwon demo_ledger); reflexivity.
Defined.

(** A context whose authorization throws. *)
Definition offline_context : CommitContext (S := world) :=
  {| workspaceId := u "w"; adminUserId := u "a"; policy := demo_policy;
     authorizeWrite _ := ethrow (OtherError (u "Error") (u "offline"));
     mutationJournal := Some demo_journal; idempotency := Some (AtomicLedger demo_ledger) |}.

Lemma commit_throws_only_witness :
  commitConfirmedOperation (λ s, s) (Some tags_delete) offline_context demo_operation bare_world
    = (inl (OtherError (u "Error") (u "offline")), bare_world) ∧
  (authorizeWrite offline_context (u "clockify_tags_delete") bare_world
     = (inl (OtherError (u "Error") (u "offline")), bare_world) ∨ False).
Proof.
  assert (commitConfirmedOperation (λ s, s) (Some tags_delete) offline_context demo_operation bare_world
    = (inl (OtherError (u "Error") (u "offline")), bare_world)) as H by (vm_compute; reflexivity).
  split; [exact H|].
  destruct (commit_throws_only (λ s, s) (Some tags_delete) offline_context demo_operation bare_world _ _ H)
    as [Ha|(l & _ & _ & Hl & _)]; [left; exact Ha|discriminate Hl].
Defined.

(** *** Proposing *)

Definition demo_action (impl : ActionImpl (S := world)) (name : string) (risks : list RiskLabel) : ActionDefinition :=
  {| act_name := name; act_description := u "A tag."; act_group := work_structure;
     act_risks := risks; act_resolve := None; act_safeParse v := inr v; act_unknown _ := [];
     act_contract := demo_contract; act_authority := demo_authority; act_impl := impl |}.

Definition tags_delete_action : ActionDefinition :=
  demo_action (RiskyWriteAction (λ _ _, eret (RPreview (VObj []) demo_operation))) "clockify_tags_delete" [Destructive].

Definition demo_action_context : ActionContext (S := world) :=
  {| act_ctx := demo_context; operationJournal := None; authorizeWriteArguments := None |}.

Lemma action_unsent a : Some tags_delete_action = Some a → proposal_respects unsent a.
Proof. intros [= <-] c v s. reflexivity. Defined.
Lemma context_unsent : context_respects unsent demo_action_context.
Proof. by split; [intros n s|split; intros]. Defined.

Definition proposed :=
  executeAction [] (Some tags_delete_action) (u "clockify_tags_delete") (VObj [(u "tagId", VStr (u "t1"))])
    demo_action_context bare_world.


Definition v2_proposed :=
  executeV2ApiAction [] (Some tags_delete_action) (u "assistant") (u "v2-api") (u "clockify_tags_delete")
    (VObj [(u "tagId", VStr (u "t1"))]) (Some 3) (u "op") demo_context bare_world.

Lemma v2_only_prepares_witness :
  (match v2_proposed.1 with inr (RPreview _ op) => is_Some (op_mutationPlan op) | _ => False end) ∧
  unsent bare_world v2_proposed.2.
Proof.
  split; [vm_compute; by eexists|].
  exact (proj1 (v2_only_prepares unsent [] (Some tags_delete_action) (u "assistant") (u "v2-api")
    (u "clockify_tags_delete") (VObj [(u "tagId", VStr (u "t1"))]) (Some 3) (u "op") demo_context bare_world _ _
    unsent_preorder action_unsent (surjective_pairing _))).
Defined.
