(* ===== verification/ClickScenario.v ===== *)
(** * A concrete click

    A stored preview of the deletion, its button clicked twice: the ports of the
    confirmation service over the state of file World, and the service's theorem on that
    click. *)
From S2P Require Import Prelude Js Policy SafeJson ActionResults RunTables Db Discriminators Plan Journal Store JournalMachine Batches BatchLife RunStore RunLife RunSettle SettleLife Effects MutationScope PlanScope RestCore RestResults Receipts Workflow WorkflowResults World Commit Execute WriteAhead ConfirmService ConfirmBatch ConfirmOrder Scenarios.
From S2P Require SafetyLimits HostBudget Confirmations ConfirmStore Idempotency.
Import Permissions Risk.
Open Scope Z_scope.

(** ** The preview and its operation *)

Definition click_discriminator : Discriminator :=
  {| origin := Some (u "assistant"); registry_id := Some (u "v2-api");
     authority_model := Some (u "preview_confirmation_v2"); executor_kind := Some (u "risky_commit");
     run_id := Some (u "r"); field_provenance_json := None; field_provenance_hash := None;
     source_undo_id := None; source_undo_hash := None |}.

Definition click_input : Confirmations.CreateConfirmationInput :=
  {| Confirmations.in_sessionId := u "s"; Confirmations.in_workspaceId := u "w"; Confirmations.in_adminUserId := u "a";
     Confirmations.in_risk := VArr []; Confirmations.in_preview := VObj [];
     Confirmations.in_operation := VObj [(u "operationId", VStr (u "op")); (u "actionName", VStr (u "clockify_tags_delete"));
       (u "payload", VObj [(u "tagId", VStr (u "t1"))])];
     Confirmations.in_installationGeneration := Some 3; Confirmations.in_sessionSecret := u "k";
     Confirmations.in_ttlMs := None; Confirmations.in_agentState := None;
     Confirmations.in_actionFingerprint := Some (u "f"); Confirmations.in_catalogHash := Some (u "c");
     Confirmations.in_capabilityId := None; Confirmations.in_capabilityHash := None;
     Confirmations.in_discriminators := click_discriminator; Confirmations.in_batchId := None;
     Confirmations.operationBindingHash := None |}.
Definition click_record : Confirmations.PendingConfirmationRecord :=
  match Confirmations.createPendingConfirmation (λ s, s) click_input 900 (u "p1") (u "n1") (u "uuid") with
  | Ok r => r
  | Throw _ => Confirmations.demo_record
  end.

Definition click_run : OperationRunRow :=
  {| binding :=
       {| request_id := None; confirmation_id := None; session_id := u "s"; workspace_id := u "w";
          admin_user_id := u "a"; action_name := u "clockify_tags_delete"; action_fingerprint := u "f";
          catalog_hash := u "c"; operation_hash := click_record.(Confirmations.operationHash);
          capability_id := None; capability_hash := None; discriminator := click_discriminator; run_created_at := 0 |};
     run_status := RunPrepared; run_result_id := None;
     operation_json := json_plan [json_step "delete-tag" "primary"]; reconciled_at := None;
     reconciliation_json := None; run_batch_id := None; run_updated_at := 0 |}.
Definition click_db : db :=
  match ConfirmStore.savePendingConfirmation (λ s, s) click_record (set_runs {[ u "op" := click_run ]} empty_db) with
  | Ok (_, d) => d
  | Throw _ => empty_db
  end.
Definition click_world : world := demo_world None click_db.

(** ** The ports *)

Definition on_db {A} (f : world → A * db) : E world A := λ s, let '(a, d) := f s in (inr a, with_db d s).

Definition click_deps : ConfirmationServiceDeps (S := world) :=
  {| sessionSecret := u "k"; catalogHash_of := u "c"; now_ms s := (inr s.(w_now), s);
     registry _ := Some tags_delete_action; committable _ := Some tags_delete; fingerprint _ := u "f";
     as_confirmable _ := demo_operation; loadPolicy _ _ := eret demo_policy; verifyWriteAuthority _ _ := eret None;
     actionContext _ _ _ := demo_context; acquire _ _ := eret 0%nat; lease_aborted _ := eret false;
     release_lease _ := eret tt; recordUndoIfReversible _ _ _ := eret None;
     expireConfirmation x := let* _ := transact demo_uuid (λ now blob, ConfirmStore.expireConfirmation x now blob) in eret tt;
     getOperationRun x s := (inr (s.(w_db).(operation_runs) !! x), s);
     getInstallation _ := eret (Some {| installation_active := true; generation := 3 |});
     markConfirmationExecuting x := transact demo_uuid (ConfirmStore.markConfirmationExecuting x);
     mutationStepJournal x := world_journal demo_uuid x;
     settleConfirmedOperation x k n v :=
       let* ref := transact_at demo_uuid (ConfirmStore.settleConfirmation x k n v) in eret ref.(ref_id);
     settleV2ConfirmationRun _ _ := eret tt;
     claimIdempotency key w a t1 t2 t3 :=
       on_db (λ s, Idempotency.claimIdempotency (key, w, a) t1 t2 t3 s.(w_db));
     bindConfirmationIdempotencyKey x key := transact demo_uuid (λ _ _, ConfirmStore.bindConfirmationIdempotencyKey x key);
     releaseIdempotency key w a := on_db (λ s, (tt, Idempotency.releaseIdempotency (key, w, a) s.(w_db)));
     releaseConfirmationIdempotencyKey x key :=
       transact demo_uuid (λ _ _, ConfirmStore.releaseConfirmationIdempotencyKey x key);
     claimIdempotencyReceipt key w a s := (inr (Idempotency.claimIdempotencyReceipt (key, w, a) s.(w_db)), s) |}.

Definition click_claims : Claims := {| claims_session := u "s"; claims_workspace := u "w"; claims_admin := u "a" |}.

Definition click := confirmSingle (λ s, s) click_deps click_claims click_record (u "n1") click_world.
(** The second click, with the record that was read before the first one. *)
Definition click_again := confirmSingle (λ s, s) click_deps click_claims click_record (u "n1") click.2.

(** ** The theorem on the click *)

Lemma transact_unsent {A} (m : Z → jstr → M A) : respects unsent (transact demo_uuid m).
Proof. intros s. unfold transact. by destruct (m _ _ _) as [[a d]|e]. Qed.

Lemma click_ports : ports_keep click_deps unsent.
Proof.
  split; intros; simpl; first [exact (transact_unsent _) | by intros s | apply respects_bind;
    [intros s1 s2 s3; unfold unsent; congruence | exact (transact_unsent _) | by intros y s]].
Qed.

Lemma confirm_dispatches_once_witness :
  (length click.2.(w_sent) = 1%nat ∧ click_again.2.(w_sent) = click.2.(w_sent)) ∧
  ∃ s1, unsent click_world s1 ∧
    dispatched_once (λ s, s) click_deps unsent click_claims click_record (u "n1") s1 click.1 click.2.
Proof.
  split; [split; vm_compute; reflexivity|].
  destruct (confirm_dispatches_once (λ s, s) click_deps unsent click_claims click_record (u "n1") click_world _ _
              unsent_preorder click_ports (λ _ s, ex_intro _ s eq_refl) (surjective_pairing _))
    as [[Hu _]|Hd].
  - exfalso. revert Hu. vm_compute. discriminate.
  - exact Hd.
Defined.

(** ** A concrete Confirm all

    Two stored previews of one run, bound in a batch, and the button clicked: the ports of
    [confirmBatch] over the state of file World, the theorem of file ConfirmOrder on that
    click, and what a click behind the expiry of a settled batch does. *)

(** ** Two previews of one run *)

Definition all_input (op : string) : Confirmations.CreateConfirmationInput :=
  {| Confirmations.in_sessionId := u "s"; Confirmations.in_workspaceId := u "w"; Confirmations.in_adminUserId := u "a";
     Confirmations.in_risk := VArr []; Confirmations.in_preview := VObj [];
     Confirmations.in_operation := VObj [(u "operationId", VStr (u op)); (u "actionName", VStr (u "clockify_tags_delete"));
       (u "payload", VObj [(u "tagId", VStr (u op))])];
     Confirmations.in_installationGeneration := Some 3; Confirmations.in_sessionSecret := u "k";
     Confirmations.in_ttlMs := None; Confirmations.in_agentState := None;
     Confirmations.in_actionFingerprint := Some (u "f"); Confirmations.in_catalogHash := Some (u "c");
     Confirmations.in_capabilityId := None; Confirmations.in_capabilityHash := None;
     Confirmations.in_discriminators := batch_provenance.(discriminator); Confirmations.in_batchId := None;
     Confirmations.operationBindingHash := None |}.
Definition all_record (op pid nonce : string) : Confirmations.PendingConfirmationRecord :=
  match Confirmations.createPendingConfirmation demo_digest (all_input op) 900 (u pid) (u nonce) (u "uuid") with
  | Ok r => r
  | Throw _ => Confirmations.demo_record
  end.
Definition all_run (r : Confirmations.PendingConfirmationRecord) : OperationRunRow :=
  {| binding :=
       {| request_id := None; confirmation_id := None; session_id := u "s"; workspace_id := u "w";
          admin_user_id := u "a"; action_name := u "clockify_tags_delete"; action_fingerprint := u "f";
          catalog_hash := u "c"; operation_hash := r.(Confirmations.operationHash); capability_id := None;
          capability_hash := None; discriminator := batch_provenance.(discriminator); run_created_at := 0 |};
     run_status := RunPrepared; run_result_id := None;
     operation_json := json_plan [json_step "delete-tag" "primary"]; reconciled_at := None;
     reconciliation_json := None; run_batch_id := None; run_updated_at := 0 |}.

Definition first_record := all_record "op1" "p1" "n1".
Definition second_record := all_record "op2" "p2" "n2".
Definition all_members : list BatchMember :=
  [ {| member_confirmation := u "p1"; member_operation := u "op1" |};
    {| member_confirmation := u "p2"; member_operation := u "op2" |} ].
Definition all_batch : CreateConfirmationBatchInput :=
  {| new_batch_session := u "s"; new_batch_run := u "r"; new_batch_workspace := u "w"; new_batch_admin := u "a";
     new_batch_hash := computeOrderedTupleHash demo_digest all_members; new_batch_expires := Some 2000;
     new_batch_items := all_members |}.
Definition all_rows : M unit :=
  do! _ := ConfirmStore.savePendingConfirmation demo_digest first_record in
  do! _ := ConfirmStore.savePendingConfirmation demo_digest second_record in
  do! _ := createConfirmationBatch demo_digest all_batch (u "b") 950 in
  mreturn tt.
Definition all_runs : db :=
  set_runs {[ u "op1" := all_run first_record; u "op2" := all_run second_record ]}
    (set_run_tables (set_aruns {[ (u "s", u "r") := waiting_demo ]} empty_tables) empty_db).
Definition all_db : db := match all_rows all_runs with Ok (_, d) => d | Throw _ => empty_db end.

(** ** The ports *)

Definition tag_of (payload : jsval) : jstr := default [] (string_of (prop (u "tagId") payload)).
(** The deletion of a tag, over the journal of the operation it belongs to. *)
Section Deletion.
Context (host : list Request → failure + Response) (j : MutationStepJournal world) (tag : jstr).
#[local] Instance deletion_wire : Wire world := world_wire host demo_accepts.
Definition deletion_hooks : ScopeHooks world := commit_hooks (MutationStepJournal0 := j) (eret None) true.
Definition deletion_dispatch : E world StepDetail :=
  let* v := mutate deletion_hooks demo_hosts true true COMMIT_TIMEOUT_MS HostApi (u "DELETE") (u "/tags/" ++ tag) NoBody in
  eret {| detail_externalId := string_of (prop (u "id") v); detail_effect := VUndef; detail_detail := VUndef |}.
Definition deletion_step : ExecutableMutationStep world :=
  {| exec_id := u "delete-tag"; exec_index := 0; exec_name := u "Delete tag"; exec_kind := primary;
     exec_targetFingerprint := None; exec_preparedDetail := VUndef; exec_compensatesStepId := None;
     dispatch := deletion_dispatch |}.
Definition deletion_workflow : ExecuteMutationWorkflowInput (S := world) :=
  {| actionName := u "clockify_tags_delete"; Workflow.steps := [deletion_step];
     onSuccess _ := eret (VObj [(u "ok", VBool true); (u "action", VStr (u "clockify_tags_delete"))]);
     onPartial _ _ := eret (VObj []); onJournalDegraded _ _ := eret (VObj []);
     onFailure _ := eret (VObj [(u "ok", VBool false)]) |}.
End Deletion.

Definition any_tag_delete (host : list Request → failure + Response) : RiskyAction (S := world) :=
  {| risky_name := u "clockify_tags_delete"; risky_durable := true; risky_contract := demo_contract;
     risky_authority := demo_authority;
     commit ctx op :=
       match ctx.(mutationJournal) with
       | Some j => executeMutationWorkflow (MutationStepJournal0 := j) (deletion_hooks j) op.(op_operationId)
                     (deletion_workflow host j (tag_of op.(op_payload)))
       | None => ethrow HostRequestCancelledError
       end;
     idempotencyKey op := Some (tag_of op.(op_payload)) |}.

Definition all_operation (v : jsval) : ConfirmableOperation :=
  {| op_operationId := default [] (string_of (prop (u "operationId") v)); op_actionName := u "clockify_tags_delete";
     op_installationGeneration := Some 3; op_featureGroup := work_structure; op_risks := [Destructive];
     op_payload := prop (u "payload") v; op_mutationPlan := Some demo_plan; op_targetSnapshots := VArr [] |}.

Definition all_deps (host : list Request → failure + Response) : ConfirmationServiceDeps (S := world) :=
  let d := click_deps in
  {| sessionSecret := d.(sessionSecret); catalogHash_of := d.(catalogHash_of); now_ms := d.(now_ms);
     registry := d.(registry); committable _ := Some (any_tag_delete host); fingerprint := d.(fingerprint);
     as_confirmable := all_operation; loadPolicy := d.(loadPolicy); verifyWriteAuthority := d.(verifyWriteAuthority);
     actionContext := d.(actionContext); acquire := d.(acquire); lease_aborted := d.(lease_aborted);
     release_lease := d.(release_lease); recordUndoIfReversible := d.(recordUndoIfReversible);
     expireConfirmation := d.(expireConfirmation); getOperationRun := d.(getOperationRun);
     getInstallation := d.(getInstallation); markConfirmationExecuting := d.(markConfirmationExecuting);
     mutationStepJournal := d.(mutationStepJournal); settleConfirmedOperation := d.(settleConfirmedOperation);
     settleV2ConfirmationRun := d.(settleV2ConfirmationRun); claimIdempotency := d.(claimIdempotency);
     bindConfirmationIdempotencyKey := d.(bindConfirmationIdempotencyKey); releaseIdempotency := d.(releaseIdempotency);
     releaseConfirmationIdempotencyKey := d.(releaseConfirmationIdempotencyKey);
     claimIdempotencyReceipt := d.(claimIdempotencyReceipt) |}.

Definition read_db {A} (f : db → A) : E world A := λ s, (inr (f s.(w_db)), s).
Definition store_call {A} (m : Z → jstr → M A) : E world unit := let* _ := transact demo_uuid m in eret tt.
(** The ids of the results that one call writes. *)
Definition numbered_id (blob : jstr) (x : jstr) : jstr := blob ++ u "-" ++ x.

Definition all_ports : BatchPorts (S := world) :=
  {| getScopedConfirmationBatch x c := read_db
       (Batches.getScopedConfirmationBatch x c.(claims_workspace) c.(claims_admin) c.(claims_session));
     recoverConfirmationBatch x now := store_call (λ _ blob,
       Batches.recoverConfirmationBatch x now (numbered_id blob) (λ n, numbered_id blob (digits (N.of_nat n))));
     getConfirmationBatch x := read_db (Batches.getConfirmationBatch x);
     listConfirmationBatchItems x := read_db (Batches.listConfirmationBatchItems x);
     getPendingConfirmation x := transact demo_uuid (ConfirmStore.getPendingConfirmation x);
     getActionResult x := read_db (λ d, result_json <$> d.(action_results) !! x);
     updateConfirmationBatchStatus x k now := store_call (λ _ _, Batches.updateConfirmationBatchStatus x k
       {| patch_index := None; patch_result := None; patch_started := None; Batches.patch_completed := Some now |});
     updateConfirmationBatchItemStatus x n k p := store_call (λ _ _, Batches.updateConfirmationBatchItemStatus x n k p);
     markConfirmationBatchExecuting x := transact demo_uuid (λ now _, Batches.markConfirmationBatchExecuting x now);
     advanceConfirmationBatchProgress x n _ :=
       store_call (λ _ _, Batches.advanceConfirmationBatchProgress x (Z.of_nat n));
     cancelUndispatchedBatchItems x n now :=
       store_call (λ _ blob, Batches.cancelUndispatchedBatchItems x n now (numbered_id blob));
     settleV2ConfirmationBatchRun x k := transact demo_uuid (λ now blob,
       RunSettle.settleV2ConfirmationBatchRun x k now (numbered_id blob) (λ y, numbered_id blob (u "r" ++ y)));
     cancelConfirmation x := store_call (ConfirmStore.cancelConfirmation x) |}.

Definition all_bodies : list ConfirmBatchItemInput :=
  [ {| body_confirmation := u "p1"; body_nonce := Some (u "n1") |};
    {| body_confirmation := u "p2"; body_nonce := Some (u "n2") |} ].
Definition confirm_all (host : list Request → failure + Response) : E world ConfirmBatchOutcome :=
  confirmBatch demo_digest (all_deps host) all_ports (λ _, eret tt) click_claims (u "b") all_bodies.
Definition doubtful_host (log : list Request) : failure + Response := inr (demo_response 502 "bad gateway" None).
Definition all_world : world := demo_world None all_db.
Definition all_confirmed := confirm_all demo_host all_world.
Definition all_doubtful := confirm_all doubtful_host all_world.
Definition at_time (t : Z) (s : world) : world :=
  {| w_scope := s.(w_scope); w_budget := s.(w_budget); w_sent := s.(w_sent); w_notes := s.(w_notes);
     w_aborted := s.(w_aborted); w_db := s.(w_db); w_now := t; w_fresh := s.(w_fresh) |}.

Definition status_of (s : world) : option BatchStatus :=
  batch_status <$> Batches.getConfirmationBatch (u "b") s.(w_db).
Definition rejected_with (r : failure + ConfirmBatchOutcome) : option jstr :=
  match r with inr (BatchRejected _ code _) => Some code | _ => None end.
Definition reported_statuses (r : failure + ConfirmBatchOutcome) : list ActionResultKind :=
  match r with inr (BatchConfirmed _ out _) => outcome_status <$> out | _ => [] end.

(** ** The theorem on the click *)

Lemma store_call_unsent {A} (m : Z → jstr → M A) : respects unsent (store_call m).
Proof. unfold store_call. apply respects_bind; [exact _|exact (transact_unsent m)|by intros ? s]. Qed.

Lemma all_ports_keep host : batch_ports_keep (all_deps host) all_ports (λ _, eret tt) unsent.
Proof.
  split; [|intros; simpl; first [exact (transact_unsent _) | exact (store_call_unsent _) | by intros s]..].
  destruct click_ports. by split.
Qed.

Lemma batch_dispatches_in_order_witness :
  (length all_confirmed.2.(w_sent) = 2%nat ∧ reported_statuses all_confirmed.1 = [succeeded; succeeded] ∧
   (item_status <$> Batches.listConfirmationBatchItems (u "b") all_doubtful.2.(w_db)) = [IOutcomeUnknown; ICancelled]) ∧
  ∃ s1 items i lease l, unsent all_world s1 ∧
    batch_admitted demo_digest (all_deps demo_host) all_ports click_claims (u "b") items all_bodies i lease ∧
    dispatched demo_digest (all_deps demo_host) all_ports unsent click_claims items all_bodies i lease 0 s1 l all_confirmed.2.
Proof.
  split; [split_and!; by vm_compute|].
  destruct (batch_dispatches_in_order demo_digest (all_deps demo_host) all_ports (λ _, eret tt) unsent click_claims (u "b")
              all_bodies all_world _ _ unsent_preorder (all_ports_keep demo_host) (λ _ s, ex_intro _ s eq_refl)
              (surjective_pairing _)) as [[Hu _]|(s1 & items & i & lease & l & HR & Ha & Hd & _)].
  - exfalso. revert Hu. vm_compute. discriminate.
  - exists s1, items, i, lease, l. exact (conj HR (conj Ha Hd)).
Defined.

(** ** What a settled batch answers *)

(** A batch that settled is replayed on a second click, unless its outcome is unknown: its
    cancelled members have no stored result, so it is refused as incomplete. *)
Theorem unknown_batch_not_replayed :
  reported_statuses (confirm_all demo_host all_confirmed.2).1 = [succeeded; succeeded] ∧
  status_of all_doubtful.2 = Some BOutcomeUnknown ∧
  rejected_with (confirm_all doubtful_host all_doubtful.2).1 = Some (u "batch_incomplete").
Proof. split_and!; by vm_compute. Qed.

(** A click behind the expiry of a settled batch overwrites its status. *)
Theorem late_click_overwrites_status :
  status_of all_confirmed.2 = Some BSucceeded ∧ status_of all_doubtful.2 = Some BOutcomeUnknown ∧
  status_of (confirm_all demo_host (at_time 3000 all_confirmed.2)).2 = Some BExpired ∧
  status_of (confirm_all doubtful_host (at_time 3000 all_doubtful.2)).2 = Some BExpired ∧
  rejected_with (confirm_all demo_host (at_time 3000 all_confirmed.2)).1 = Some (u "expired").
Proof. split_and!; by vm_compute. Qed.
