(* ===== verification/UndoService.v ===== *)
(** * Undoing from the page

    [services/undo-service.ts] and [executeUndoCommit] of
    [services/confirmation-service.ts]: from the clicked undo to its receipt.  The store,
    the role check and the workspace lease are the ports of the service, as in file
    ConfirmService. *)
From S2P Require Import Prelude Js Policy SafeJson ActionResults Db Confirmations Plan Journal Store JournalMachine Effects MutationScope PlanScope RestCore RestResults Receipts Workflow WorkflowResults World Commit Undo Execute ConfirmService Scenarios.
From S2P Require SafetyLimits HostBudget UndoStore.
Import Permissions.
Open Scope Z_scope.
#[local] Arguments u : simpl never.

(** ** The plan as a value *)

Definition strategy_name (x : SafetyLimits.reconciliation_strategy) : string :=
  match x with
  | SafetyLimits.StrategyCreate => "create" | SafetyLimits.StrategyUpdate => "update"
  | SafetyLimits.StrategyDelete => "delete" | SafetyLimits.StrategyStateCommand => "state-command"
  | SafetyLimits.StrategyComposed => "composed"
  end.
Definition plan_step_value (x : SafetyLimits.ExternalMutationPlanStep) : jsval :=
  VObj ([(u "id", VStr (SafetyLimits.plan_step_id x));
         (u "kind", str match SafetyLimits.plan_step_kind x with
                        | SafetyLimits.Primary => "primary" | SafetyLimits.Compensation => "compensation" end)] ++
        optional_text "targetFingerprint" (SafetyLimits.plan_target_fingerprint x) ++
        match SafetyLimits.plan_reconciliation x with
        | Some r => [(u "reconciliationStrategy", str (strategy_name r))] | None => [] end).
Definition plan_value (p : SafetyLimits.ExternalMutationPlan) : jsval :=
  VObj [(u "mode", str match SafetyLimits.mode p with
                       | SafetyLimits.Single => "single" | SafetyLimits.Curated => "curated"
                       | SafetyLimits.Batch => "batch" end);
        (u "steps", VArr (plan_step_value <$> SafetyLimits.steps p));
        (u "maxHostCalls", num (SafetyLimits.maxHostCalls p))].

(** ** Records and answers *)

Record UndoRecord := {
  record_id : jstr;
  record_session : jstr;
  record_workspace : jstr;
  record_admin : jstr;
  record_generation : option Z;
  reversal : list EntityRef;
  record_status : UndoStatus;
}.

Inductive UndoExecuteResult : Type :=
| UndoRefused (status : Z) (code message : jstr)
| UndoAnswered (status : Z) (receipt : jsval) (degraded : bool).

(** [UndoCommitOutcome]; the reference of the stored result, unless it is degraded. *)
Record UndoCommitOutcome := {
  commit_undo : DurableUndoResult;
  commit_operationId : jstr;
  resultRef : option jstr;
}.

Section Service.
Context {S : Type} `{!MutationHost S} (sha256 : jstr → jstr).

Record UndoServiceDeps := {
  undo_catalogHash : jstr;
  undo_loadPolicy : jstr → jstr → E S AdminPolicy;
  undo_verifyWriteAuthority : Claims → Installation → E S (option (Z * jstr * jstr));
  undo_actionContext : Claims → Installation → nat → CommitContext (S := S);
  undo_client : nat → UndoClient (S := S);      (** [ctx.clockify] of that context *)
  undo_acquire : jstr → Z → E S nat;
  undo_lease_aborted : nat → E S bool;
  undo_release_lease : nat → E S unit;
  (** The store. *)
  getUndoRecord : jstr → E S (option UndoRecord);
  undo_getInstallation : jstr → E S (option Installation);
  startUndoOperation : jstr → Journal.PrepareOperationRunInput → E S (option jstr);
  undo_mutationStepJournal : jstr → MutationStepJournal S;
  settleUndoOperation : jstr → jstr → DurableUndoStatus → list EntityRef → jsval → E S jstr;
  addAuditEvent : Claims → jstr → E S unit;
}.

Context (deps : UndoServiceDeps).

(** ** The commit of an undo *)

Definition undo_payload (r : UndoRecord) : jsval :=
  VObj [(u "undoId", VStr r.(record_id));
        (u "installationGeneration", match r.(record_generation) with Some g => num g | None => VUndef end);
        (u "reversal", VArr (ref_value <$> r.(reversal)))].

Definition undo_run_input (c : Claims) (r : UndoRecord) : result Journal.PrepareOperationRunInput :=
  let plan := plan_value (undoMutationPlan r.(reversal)) in
  let! sourceUndoHash := hashOperation sha256 (VArr (ref_value <$> r.(reversal))) in
  let! fp := hashOperation sha256 (VObj [(u "actionName", str "undo"); (u "version", num 1)]) in
  let! operationHash := hashOperation sha256
    (VObj [(u "actionName", str "undo"); (u "operation", undo_payload r); (u "mutationPlan", plan)]) in
  Ok {| Journal.run_in_id := None; Journal.run_in_requestId := None; Journal.run_in_confirmationId := None;
        Journal.run_in_sessionId := c.(claims_session); Journal.run_in_workspaceId := c.(claims_workspace);
        Journal.run_in_adminUserId := c.(claims_admin); Journal.run_in_actionName := u "undo";
        Journal.run_in_actionFingerprint := fp; Journal.run_in_catalogHash := deps.(undo_catalogHash);
        Journal.run_in_operationHash := operationHash; Journal.run_in_operation := undo_payload r;
        Journal.run_in_mutationPlan := plan; Journal.run_in_capabilityId := None;
        Journal.run_in_capabilityHash := None;
        Journal.run_in_discriminator := Some (
          {| origin := Some (u "direct_ui"); registry_id := Some (u "v2-local");
             authority_model := Some (u "undo_v2"); Db.executor_kind := Some (u "undo_commit");
             Db.run_id := None; field_provenance_json := None; field_provenance_hash := None;
             source_undo_id := Some r.(record_id); source_undo_hash := Some sourceUndoHash |}, None) |}.

(** At most two attempts to settle; the reversal is never repeated. *)
Fixpoint settle_undo_attempts (n : nat) (id op : jstr) (res : DurableUndoResult) : E S (option jstr) :=
  match n with
  | O => eret None
  | Datatypes.S n' =>
      let* ref := eattempt (deps.(settleUndoOperation) id op res.(undo_outcome) res.(remaining) res.(undo_receipt)) in
      match ref with
      | inr a => eret (Some a)
      | inl _ => settle_undo_attempts n' id op res
      end
  end.

Definition undo_context (base : CommitContext (S := S)) (op : jstr) : CommitContext (S := S) :=
  {| Commit.workspaceId := base.(Commit.workspaceId); Commit.adminUserId := base.(Commit.adminUserId);
     policy := base.(policy); authorizeWrite := base.(authorizeWrite);
     mutationJournal := Some (deps.(undo_mutationStepJournal) op); idempotency := base.(idempotency) |}.

Definition unavailable_receipt : jsval :=
  errorReceipt (u "undo") (u "undo_not_available") (u "This undo is no longer available.") VUndef.

Definition executeUndoCommit (c : Claims) (r : UndoRecord) (clockify : UndoClient (S := S))
    (context : CommitContext (S := S)) : E S UndoCommitOutcome :=
  let* input := elift (undo_run_input c r) in
  let* started := deps.(startUndoOperation) r.(record_id) input in
  match Plan.column started with
  | None => eret {| commit_undo := {| undo_receipt := unavailable_receipt; undo_outcome := failed;
                                      remaining := r.(reversal) |};
                    commit_operationId := []; resultRef := None |}
  | Some op =>
      let* res := reverseCreationDurably clockify (undo_context context op) r.(reversal) op
                    (undoMutationPlan r.(reversal)) in
      let* ref := settle_undo_attempts 2 r.(record_id) op res in
      eret {| commit_undo := res; commit_operationId := op; resultRef := ref |}
  end.

(** ** The service *)

(** [withHostCallBudget(c)]: an installed budget stays; a new one is taken out again. *)
Definition with_call_budget {A} (c : E S A) : E S A := λ s,
  let b := budget_of s in
  let '(r, s') := c (set_budget (HostBudget.withHostCallBudget b SafetyLimits.HOST_CALL_BUDGET_MAXIMUM) s) in
  (r, set_budget {| HostBudget.budget := match HostBudget.budget b with
                                         | Some _ => HostBudget.budget (budget_of s') | None => None end;
                    HostBudget.reservation := HostBudget.reservation (budget_of s');
                    HostBudget.tokens := HostBudget.tokens (budget_of s') |} s').

Definition refuse (status : Z) (code message : string) : E S UndoExecuteResult :=
  eret (UndoRefused status (u code) (u message)).

Definition undo_answer (c : Claims) (out : UndoCommitOutcome) : E S UndoExecuteResult :=
  if bool_decide (out.(commit_operationId) = [])
  then refuse 409 "undo_not_available" "This undo is no longer available."
  else
    let receipt := out.(commit_undo).(undo_receipt) in
    let* _ := match out.(resultRef) with
              | Some ref => etry (deps.(addAuditEvent) c ref) (λ _, eret tt) | None => eret tt end in
    eret (UndoAnswered (if receipt_ok receipt then 200 else 400) receipt (bool_decide (out.(resultRef) = None))).

Definition undo_under_lease (c : Claims) (r : UndoRecord) (i : Installation) (lease : nat) : E S UndoExecuteResult :=
  let* aborted := deps.(undo_lease_aborted) lease in
  if (aborted : bool) then
    let* _ := deps.(undo_release_lease) lease in
    refuse 409 "request_cancelled" "The undo was cancelled before dispatch. No change was made."
  else
    efinally
      (let* out := with_call_budget
         (executeUndoCommit c r (deps.(undo_client) lease) (deps.(undo_actionContext) c i lease)) in
       undo_answer c out)
      (deps.(undo_release_lease) lease).

Definition undo_authorized (c : Claims) (r : UndoRecord) (i : Installation) : E S UndoExecuteResult :=
  let* authority := deps.(undo_verifyWriteAuthority) c i in
  match authority with
  | Some (status, code, m) => eret (UndoRefused status code m)
  | None =>
      let* lease := eattempt (deps.(undo_acquire) c.(claims_workspace) i.(generation)) in
      match lease with
      | inl e => match revoked_error e with
                 | Some m => eret (UndoRefused 409 (u "installation_changed") m)
                 | None => ethrow e
                 end
      | inr lease => undo_under_lease c r i lease
      end
  end.

Definition undo_allowed (c : Claims) (r : UndoRecord) : E S UndoExecuteResult :=
  let* p := deps.(undo_loadPolicy) c.(claims_workspace) c.(claims_admin) in
  match firstDeniedGroup p r.(reversal) with
  | Some g => eret (UndoRefused 400 (u "policy_denied")
      (u "Undo needs write access to " ++ u (group_name g) ++ u ", which is disabled in your assistant permissions."))
  | None =>
      let* installation := deps.(undo_getInstallation) c.(claims_workspace) in
      match installation with
      | Some i =>
          if negb i.(installation_active)
          then refuse 400 "not_installed" "The add-on is not active for this workspace."
          else if negb (safe_generation r.(record_generation)) ||
                  negb (bool_decide (r.(record_generation) = Some i.(generation)))
          then refuse 409 "installation_changed"
            "The Clockify installation changed after this undo was created. Run the action again before undoing it."
          else undo_authorized c r i
      | None => refuse 400 "not_installed" "The add-on is not active for this workspace."
      end
  end.

(** [execute] *)
Definition execute (c : Claims) (undoId : jstr) : E S UndoExecuteResult :=
  let* found := deps.(getUndoRecord) undoId in
  match found with
  | Some r =>
      if negb (bool_decide (r.(record_workspace) = c.(claims_workspace))) ||
         negb (bool_decide (r.(record_admin) = c.(claims_admin)))
      then refuse 404 "not_found" "No such undoable action."
      else if negb (bool_decide (r.(record_status) = UAvailable))
      then if bool_decide (r.(record_status) = UExpired)
           then refuse 409 "undo_expired" "This undo window expired after 30 minutes."
           else refuse 409 "undo_not_available" "This undo is no longer available."
      else undo_allowed c r
  | None => refuse 404 "not_found" "No such undoable action."
  end.

(** ** What an undo does *)

(** A relation on states that the ports keep: all of them but the reversal itself. *)
Record undo_ports_keep (R : S → S → Prop) : Prop := {
  keeps_policy : ∀ w a, respects R (deps.(undo_loadPolicy) w a);
  keeps_verify : ∀ c i, respects R (deps.(undo_verifyWriteAuthority) c i);
  keeps_acquire : ∀ w g, respects R (deps.(undo_acquire) w g);
  keeps_aborted : ∀ l, respects R (deps.(undo_lease_aborted) l);
  keeps_release : ∀ l, respects R (deps.(undo_release_lease) l);
  keeps_record : ∀ x, respects R (deps.(getUndoRecord) x);
  keeps_installation : ∀ x, respects R (deps.(undo_getInstallation) x);
  keeps_start : ∀ x i, respects R (deps.(startUndoOperation) x i);
  keeps_settle : ∀ x op o l v, respects R (deps.(settleUndoOperation) x op o l v);
  keeps_audit : ∀ c a, respects R (deps.(addAuditEvent) c a);
  keeps_budget : ∀ b s, R s (set_budget b s);
}.

Definition undo_releases : Prop := ∀ l s, ∃ s', deps.(undo_release_lease) l s = (inr tt, s').

Definition not_answered (r : failure + UndoExecuteResult) : Prop :=
  match r with inr (UndoAnswered _ _ _) => False | _ => True end.

(** The record may be undone, by what is read during this call. *)
Record undo_gates (c : Claims) (undoId : jstr) (r : UndoRecord) (i : Installation) : Prop := {
  gate_record : ∃ s s', deps.(getUndoRecord) undoId s = (inr (Some r), s');
  gate_owner : r.(record_workspace) = c.(claims_workspace) ∧ r.(record_admin) = c.(claims_admin);
  gate_available : r.(record_status) = UAvailable;
  gate_policy : ∃ s p s', deps.(undo_loadPolicy) c.(claims_workspace) c.(claims_admin) s = (inr p, s') ∧
    ∀ x g, x ∈ r.(reversal) → reversible_group x = Some g → canWrite p g = true;
  gate_installation : i.(installation_active) = true ∧ r.(record_generation) = Some i.(generation);
  gate_authority : ∃ s s', deps.(undo_verifyWriteAuthority) c i s = (inr None, s');
}.

(** What the caller is told for the outcome of the reversal. *)
Definition undo_reported (r : UndoRecord) (op : jstr) (out : failure + DurableUndoResult)
    (res : failure + UndoExecuteResult) : Prop :=
  match out with
  | inl e => res = inl e
  | inr d => ∃ degraded, res = inr (UndoAnswered (if receipt_ok d.(undo_receipt) then 200 else 400) d.(undo_receipt) degraded) ∧
      (degraded = false → ∃ s4 a s5,
         deps.(settleUndoOperation) r.(record_id) op d.(undo_outcome) d.(remaining) d.(undo_receipt) s4 = (inr a, s5))
  end.

(** The lease was acquired for the workspace and the generation of the installation, and
    it was found not aborted before the record is claimed in [s1], with nothing sent in between. *)
Definition undo_under_its_lease (c : Claims) (i : Installation) (lease : nat) (R : S → S → Prop) (s1 : S) : Prop :=
  ∃ s0 sl sa, deps.(undo_acquire) c.(claims_workspace) i.(generation) s0 = (inr lease, sl) ∧
    deps.(undo_lease_aborted) lease sl = (inr false, sa) ∧ R sa s1.

Definition reversed_once (R : S → S → Prop) (c : Claims) (undoId : jstr) (s1 : S)
    (res : failure + UndoExecuteResult) (s' : S) : Prop :=
  ∃ r i lease input op s2 out s3 s4,
    undo_gates c undoId r i ∧ undo_under_its_lease c i lease R s1 ∧ undo_run_input c r = Ok input ∧
    deps.(startUndoOperation) r.(record_id) input s1 = (inr (Some op), s2) ∧
    reverseCreationDurably (deps.(undo_client) lease) (undo_context (deps.(undo_actionContext) c i lease) op)
      r.(reversal) op (undoMutationPlan r.(reversal)) s2 = (out, s3) ∧
    R s3 s4 ∧ deps.(undo_release_lease) lease s4 = (inr tt, s') ∧ undo_reported r op out res.

Section Once.
Context (R : S → S → Prop) `{!Reflexive R, !Transitive R} (Hports : undo_ports_keep R) (Hrel : undo_releases).

Lemma settle_undo_exact n id op d s :
  ∃ ref s', settle_undo_attempts n id op d s = (inr ref, s') ∧ R s s' ∧
    (ref ≠ None → ∃ s4 a s5,
       deps.(settleUndoOperation) id op d.(undo_outcome) d.(remaining) d.(undo_receipt) s4 = (inr a, s5)).
Proof.
  revert s. induction n as [|n IH]; intros s; simpl; [by exists None, s|].
  unfold ebind, eattempt. pose proof (keeps_settle _ Hports id op d.(undo_outcome) d.(remaining) d.(undo_receipt) s) as Hk.
  destruct (deps.(settleUndoOperation) _ _ _ _ _ s) as [[e|a] s1] eqn:Hs; simpl in Hk.
  - destruct (IH s1) as (ref & s2 & -> & HR & Href). exists ref, s2. split; [done|]. split; [by etrans|done].
  - exists (Some a), s1. split; [done|]. split; [done|]. eauto.
Qed.

(** The claimed reversal, as a commit ends. *)
Definition committed (c : Claims) (r : UndoRecord) (clockify : UndoClient (S := S)) (context : CommitContext (S := S))
    (s s' : S) (res : failure + UndoCommitOutcome) : Prop :=
  ∃ s1 input op s2 out s3, undo_run_input c r = Ok input ∧ R s s1 ∧
    deps.(startUndoOperation) r.(record_id) input s1 = (inr (Some op), s2) ∧ op ≠ [] ∧
    reverseCreationDurably clockify (undo_context context op) r.(reversal) op
      (undoMutationPlan r.(reversal)) s2 = (out, s3) ∧ R s3 s' ∧
    match out with
    | inl e => res = inl e
    | inr d => ∃ ref, res = inr {| commit_undo := d; commit_operationId := op; resultRef := ref |} ∧
        (ref ≠ None → ∃ s4 a s5,
           deps.(settleUndoOperation) r.(record_id) op d.(undo_outcome) d.(remaining) d.(undo_receipt) s4 = (inr a, s5))
    end.

Lemma commit_exact c r clockify context s res s' :
  executeUndoCommit c r clockify context s = (res, s') →
  (R s s' ∧ match res with inr out => out.(commit_operationId) = [] | inl _ => True end) ∨
  committed c r clockify context s s' res.
Proof.
  unfold executeUndoCommit. rewrite ebind_at. unfold elift at 1.
  destruct (undo_run_input c r) as [input|e] eqn:Hin; [|unfold error, ethrow; intros [= <- <-]; by left].
  cbn [eret]. rewrite ebind_at. pose proof (keeps_start _ Hports r.(record_id) input s) as Hk.
  destruct (deps.(startUndoOperation) r.(record_id) input s) as [[e|started] s1] eqn:Hs; simpl in Hk.
  { intros [= <- <-]. by left. }
  destruct (Plan.column started) as [op|] eqn:Hop; [|intros [= <- <-]; by left].
  assert (started = Some op ∧ op ≠ []) as [-> Hne].
  { unfold Plan.column in Hop. destruct started as [[|x op']|]; by simplify_eq/=. }
  rewrite ebind_at. destruct (reverseCreationDurably _ _ _ _ _ s1) as [[e|d] s3] eqn:Hd.
  { intros [= <- <-]. right. exists s, input, op, s1, (inl e), s3. by split_and!. }
  destruct (settle_undo_exact 2 r.(record_id) op d s3) as (ref & s4 & Href & HR & Hset).
  rewrite ebind_at, Href. intros [= <- <-]. right. exists s, input, op, s1, (inr d), s3. split_and!; try done. eauto.
Qed.

Lemma budgeted {A} (m : E S A) s :
  ∃ b1 b2, (with_call_budget m s).1 = (m (set_budget b1 s)).1 ∧
    (with_call_budget m s).2 = set_budget b2 (m (set_budget b1 s)).2.
Proof. unfold with_call_budget. destruct (m _) as [r s'] eqn:Em. do 2 eexists. by rewrite Em. Qed.

(** The body of the call, with the answer given after it. *)
Lemma answered_exact c r clockify context s :
  let '(res, s') := (let* out := with_call_budget (executeUndoCommit c r clockify context) in undo_answer c out) s in
  (R s s' ∧ not_answered res) ∨
  ∃ s0 s1 input op s2 out s3, R s s0 ∧ undo_run_input c r = Ok input ∧ R s0 s1 ∧
    deps.(startUndoOperation) r.(record_id) input s1 = (inr (Some op), s2) ∧
    reverseCreationDurably clockify (undo_context context op) r.(reversal) op
      (undoMutationPlan r.(reversal)) s2 = (out, s3) ∧ R s3 s' ∧ undo_reported r op out res.
Proof.
  rewrite ebind_at. destruct (budgeted (executeUndoCommit c r clockify context) s) as (b1 & b2 & H1 & H2).
  destruct (with_call_budget (executeUndoCommit c r clockify context) s) as [res s'']. simpl in H1, H2. subst s''.
  pose proof (keeps_budget _ Hports b1 s) as Hb1. set (s0 := set_budget b1 s) in *.
  destruct (executeUndoCommit c r clockify context s0) as [res0 s'] eqn:He. cbn [fst snd] in *. subst res0.
  pose proof (keeps_budget _ Hports b2 s') as Hb2.
  apply commit_exact in He as [[HR Hq]|(s1 & input & op & s2 & out & s3 & Hin & HR & Hst & Hne & Hd & HR3 & Hres)].
  - assert (R s (set_budget b2 s')) as HRs by (etrans; [exact Hb1|]; by etrans).
    destruct res as [e|out]; [by left|]. unfold undo_answer. rewrite Hq. by left.
  - destruct out as [e|d].
    + subst res. right. exists s0, s1, input, op, s2, (inl e), s3. split_and!; try done. by etrans.
    + destruct Hres as (ref & -> & Hset). unfold undo_answer. cbn [commit_operationId commit_undo resultRef].
      rewrite bool_decide_eq_false_2 by done. rewrite ebind_at.
      set (audit := match ref with Some a => _ | None => _ end).
      assert (respects R audit) as Ha.
      { unfold audit. destruct ref; [apply respects_try; [apply _|apply (keeps_audit _ Hports)|intros; by apply respects_ret]|by apply respects_ret]. }
      specialize (Ha (set_budget b2 s')). assert (∃ s5, audit (set_budget b2 s') = (inr tt, s5)) as [s5 H5].
      { unfold audit. destruct ref as [a|]; [|by eexists]. unfold etry.
        destruct (deps.(addAuditEvent) c a (set_budget b2 s')) as [[e|[]] s6]; by eexists. }
      rewrite H5 in *. simpl in Ha. right. exists s0, s1, input, op, s2, (inr d), s3. split_and!; try done.
      * etrans; [done|]. by etrans.
      * exists (bool_decide (ref = None)). split; [done|]. intros Hb%bool_decide_eq_false. auto.
Qed.

Lemma lease_ends c undoId r i lease sa sl :
  undo_gates c undoId r i → deps.(undo_acquire) c.(claims_workspace) i.(generation) sa = (inr lease, sl) →
  ends_at R not_answered (reversed_once R c undoId) (undo_under_lease c r i lease) sl.
Proof.
  intros Hg Hacq. unfold ends_at, undo_under_lease, refuse. rewrite !ebind_at. pose proof (keeps_aborted _ Hports lease sl) as Hka.
  destruct (deps.(undo_lease_aborted) lease sl) as [[e|[]] s] eqn:Hab; simpl in Hka; [by left| |].
  { left. rewrite !ebind_at. pose proof (keeps_release _ Hports lease s) as Hr.
    destruct (deps.(undo_release_lease) lease s) as [[e|[]] s3]; simpl in *; (split; [by etrans|done]). }
  set (body := let* out := _ in _). destruct (efinally_exact body _ s (Hrel lease)) as (s5 & -> & Hs5).
  pose proof (answered_exact c r (deps.(undo_client) lease) (deps.(undo_actionContext) c i lease) s) as He.
  fold body in He. destruct (body s) as [res s']. cbn [fst snd] in *.
  pose proof (keeps_release _ Hports lease s') as Hr. rewrite Hs5 in Hr. simpl in Hr.
  destruct He as [[HR Hn]|(s0 & s1 & input & op & s2 & out & s3 & HR0 & Hin & HR1 & Hst & Hd & HR3 & Hrep)].
  - left. split; [by do 2 (etrans; [done|])|done].
  - right. exists s1. split; [by do 2 (etrans; [done|])|]. exists r, i, lease, input, op, s2, out, s3, s'.
    split_and!; try done. exists sa, sl, s. split_and!; try done. by etrans.
Qed.

Lemma execute_ends c undoId : ends R not_answered (reversed_once R c undoId) (execute c undoId).
Proof.
  unfold execute, refuse. apply ends_bind; [apply _|done|apply (keeps_record _ Hports)|]. intros [r|] sa sb Hrec; [|by apply ends_eret].
  case_bool_decide as Hw; simpl; [|by apply ends_eret]. case_bool_decide as Ha; simpl; [|by apply ends_eret].
  case_bool_decide as Hst; simpl; [|case_bool_decide; by apply ends_eret].
  unfold undo_allowed, refuse. apply ends_bind; [apply _|done|apply (keeps_policy _ Hports)|]. intros p sc sd Hp.
  destruct (firstDeniedGroup p r.(reversal)) as [g|] eqn:Hden; [by apply ends_eret|].
  apply ends_bind; [apply _|done|apply (keeps_installation _ Hports)|]. intros [i|] _ _ _; [|by apply ends_eret].
  destruct (installation_active i) eqn:Hact; simpl; [|by apply ends_eret].
  destruct (negb (safe_generation _) || _) eqn:Hgen; [by apply ends_eret|].
  apply orb_false_iff in Hgen as [_ Hgen%negb_false_iff%bool_decide_eq_true].
  unfold undo_authorized. apply ends_bind; [apply _|done|apply (keeps_verify _ Hports)|].
  intros [[[st code] m]|] se sf Hv; [by apply ends_eret|].
  apply ends_bind_at; [apply _|done|apply respects_attempt, (keeps_acquire _ Hports)|]. intros [e|lease] sx sl Hacq.
  { destruct (revoked_error e); [by apply ends_eret|by apply ends_ethrow]. }
  eapply lease_ends with (sa := sx); [|unfold eattempt in Hacq; destruct (deps.(undo_acquire) _ _ sx) as [y z]; by injection Hacq as -> ->].
  constructor; eauto 10. exists sc, p, sd. split; [done|]. by apply none_denied.
Qed.
End Once.

(** C27: One undo, one reversal.  Take any relation on states that the ports keep.  A call of
    [execute] either stays within it and gives no receipt, or it reversed the recorded
    creation exactly once: the record was the admin's own and available, the policy allows
    every group it touches, the installation is active and of the record's generation, the
    role was checked anew, a lease of the workspace at that generation was acquired and was
    not aborted before this call alone claimed the record and prepared its operation.  That
    lease is given back last, and the caller is told the result of exactly
    that reversal, "degraded" unless it was stored with its operation. *)
Theorem undo_reverses_once R c undoId s res s' :
  PreOrder R → undo_ports_keep R → undo_releases →
  execute c undoId s = (res, s') →
  (R s s' ∧ not_answered res) ∨ ∃ s1, R s s1 ∧ reversed_once R c undoId s1 res s'.
Proof.
  intros [HRr HRt] Hports Hrel Hrun. pose proof (execute_ends R Hports Hrel c undoId s) as He. unfold ends_at in He.
  by rewrite Hrun in He.
Qed.
End Service.

(** ** A concrete undo

    A client and a tag were created; the host deletes the tag and archives the client but
    rejects its deletion. *)

Definition stubborn_host (log : list Request) : failure + Response :=
  if bool_decide (length log = 3%nat) then inr (demo_response 400 "no" None) else demo_host log.

#[local] Instance stubborn_wire : Wire world := world_wire stubborn_host demo_accepts.

Section Client.
Context `{!MutationStepJournal world}.
Definition undo_send (m : string) (path : jstr) (body : RequestBody) : E world unit :=
  let* _ := mutate (undo_hooks (λ _, eret None)) demo_hosts true true COMMIT_TIMEOUT_MS HostApi (u m) path body in
  eret tt.
Definition removing (path : string) (id : jstr) : E world unit := undo_send "DELETE" (u path ++ id) NoBody.
Definition unused {A} : E world A := error "unused".
Definition tag_client : UndoClient (S := world) :=
  {| prepareProjectUpdate _ _ := unused; prepareClientUpdate _ body := eret body;
     prepareTaskUpdate _ _ _ := unused; archiveProjectAtomic _ _ := unused;
     updateClientAtomic id body := undo_send "PUT" (u "/clients/" ++ id) NoBody;
     updateTaskAtomic _ _ _ := unused; deleteProjectAtomic := removing "/projects/";
     deleteClientAtomic := removing "/clients/"; deleteTaskAtomic _ := removing "/tasks/";
     deleteTagAtomic := removing "/tags/"; deleteTimeEntryAtomic := removing "/time-entries/";
     deleteInvoiceAtomic := removing "/invoices/"; deleteExpenseAtomic := removing "/expenses/";
     deleteWebhookAtomic := removing "/webhooks/"; deleteGroupAtomic := removing "/user-groups/";
     deleteHolidayAtomic := removing "/holidays/"; deleteAssignmentAtomic := removing "/assignments/" |}.

End Client.

#[local] Instance undo_journal : MutationStepJournal world := world_journal demo_uuid (u "op").

Definition tag_ref : EntityRef :=
  {| ref_type := u "tag"; ref_entity := u "t1"; ref_name := None; ref_projectId := None |}.
Definition client_ref : EntityRef :=
  {| ref_type := u "client"; ref_entity := u "c1"; ref_name := Some (u "Acme"); ref_projectId := None |}.
Definition created_refs : list EntityRef := [client_ref; tag_ref].

Definition undo_world : world := demo_world None (demo_db
  [json_step "undo-0-tag-delete" "primary"; json_step "undo-1-client-transition" "primary";
   json_step "undo-1-client-delete" "primary"]).
Definition undone_creation :=
  reverseCreationDurably tag_client demo_context created_refs (u "op") (undoMutationPlan created_refs) undo_world.

Lemma undo_exact_witness :
  (length undone_creation.2.(w_sent) = 3%nat ∧
   match undone_creation.1 with
   | inr res => res.(undo_outcome) = partially_undone ∧ res.(remaining) = [client_ref]
   | inl _ => False
   end) ∧
  ∃ (journal : MutationStepJournal world) pre post sa sm,
    undoPlanSteps created_refs = pre ++ post ∧ undone_run (@tag_client undo_journal) (u "op") (λ _, eret None) pre sa sm.
Proof.
  split; [split; vm_compute; [reflexivity|split; reflexivity]|].
  destruct undone_creation.1 as [e|res] eqn:E; [exfalso; revert E; vm_compute; discriminate|].
  destruct (undo_exact tag_client demo_context created_refs (u "op") (undoMutationPlan created_refs) undo_world res
              undone_creation.2) as [(Hd & _)|(_ & j & pre & post & sa & sm & _ & _ & Hsplit & _ & Hrun & _)].
  - rewrite <- E. exact (surjective_pairing _).
  - exfalso. destruct Hd as [Hd|[g Hd]]; revert Hd; vm_compute; discriminate.
  - exists j, pre, post, sa, sm. split; [exact Hsplit|exact Hrun].
Defined.

(** ** The undo from the page *)

Definition undo_input : UndoStore.UndoRecordInput :=
  {| UndoStore.undo_in_sessionId := u "s"; UndoStore.undo_in_workspaceId := u "w"; UndoStore.undo_in_adminUserId := u "a";
     UndoStore.undo_in_actionName := u "clockify_clients_create"; UndoStore.undo_in_installationGeneration := Some 3;
     UndoStore.undo_in_reversal := VArr (ref_value <$> created_refs) |}.
Definition undo_db : db :=
  match UndoStore.recordUndoable undo_input 900 (u "u1") empty_db with Ok (_, d) => d | Throw _ => empty_db end.
Definition page_world : world := demo_world None undo_db.

Definition view_record (id : jstr) (r : UndoRow) : UndoRecord :=
  let b := r.(undo_binding) in
  {| record_id := id; record_session := b.(undo_session_id); record_workspace := b.(undo_workspace_id);
     record_admin := b.(undo_admin_user_id); record_generation := b.(undo_generation);
     reversal := created_refs; record_status := r.(undo_status) |}.
Definition settled_as (o : DurableUndoStatus) : UndoStore.UndoOutcome :=
  match o with
  | partially_undone => UndoStore.partially_undone | undone => UndoStore.undone | failed => UndoStore.failed
  | outcome_unknown_undo => UndoStore.undo_unknown
  end.

(** The claim is the second call of the store. *)
Definition page_journal : MutationStepJournal world := world_journal demo_uuid (u "step-1").
Definition page_deps : UndoServiceDeps (S := world) :=
  {| undo_catalogHash := u "c"; undo_loadPolicy _ _ := eret demo_policy; undo_verifyWriteAuthority _ _ := eret None;
     undo_actionContext _ _ _ := demo_context; undo_client _ := @tag_client page_journal;
     undo_acquire _ _ := eret 0%nat; undo_lease_aborted _ := eret false; undo_release_lease _ := eret tt;
     getUndoRecord x := let* r := transact_at demo_uuid (UndoStore.getUndoRecord x) in eret (view_record x <$> r);
     undo_getInstallation _ := eret (Some {| installation_active := true; generation := 3 |});
     UndoService.startUndoOperation x i := transact demo_uuid (UndoStore.startUndoOperation x i);
     undo_mutationStepJournal x := world_journal demo_uuid x;
     UndoService.settleUndoOperation x op o l v :=
       let* ref := transact demo_uuid (UndoStore.settleUndoOperation x op (settled_as o) (VArr (ref_value <$> l)) v) in
       eret ref.(ActionResults.ref_id);
     addAuditEvent _ _ := eret tt |}.
Definition page_claims (session : jstr) : Claims :=
  {| claims_session := session; claims_workspace := u "w"; claims_admin := u "a" |}.

(** A digest in the format the schema asks for. *)
Definition page_hash (_ : jstr) : jstr := replicate 64 97%N.
Definition page_undo := execute page_hash page_deps (page_claims (u "s")) (u "u1") page_world.
Definition page_again := execute page_hash page_deps (page_claims (u "s")) (u "u1") page_undo.2.

Lemma page_transact_unsent {A} (m : Z → jstr → M A) : respects unsent (transact demo_uuid m).
Proof. intros s. unfold transact. by destruct (m _ _ _) as [[a d]|e]. Defined.
Lemma page_ports : undo_ports_keep page_deps unsent.
Proof.
  split; intros; simpl; first [exact (page_transact_unsent _) | by intros s | reflexivity | apply respects_bind;
    [intros s1 s2 s3; unfold unsent; congruence | exact (page_transact_unsent _) | by intros y s]].
Defined.

Lemma undo_reverses_once_witness :
  (length page_undo.2.(w_sent) = 3%nat ∧ page_again.2.(w_sent) = page_undo.2.(w_sent) ∧
   undo_status <$> page_undo.2.(w_db).(undo_records) !! u "u1" = Some UPartiallyUndone) ∧
  ∃ s1, unsent page_world s1 ∧
    reversed_once page_hash page_deps unsent (page_claims (u "s")) (u "u1") s1 page_undo.1 page_undo.2.
Proof.
  split; [split; [vm_compute; reflexivity|split; vm_compute; reflexivity]|].
  destruct (undo_reverses_once page_hash page_deps unsent (page_claims (u "s")) (u "u1") page_world _ _
              unsent_preorder page_ports (λ _ s, ex_intro _ s eq_refl) (surjective_pairing _)) as [[Hu _]|Hd].
  - exfalso. revert Hu. vm_compute. discriminate.
  - exact Hd.
Defined.

(** The same click from another session of the admin: the reversal is sent, but its
    settlement is refused and the record stays executing. *)
Definition foreign_undo := execute page_hash page_deps (page_claims (u "s2")) (u "u1") page_world.
Example foreign_session_undo :
  length foreign_undo.2.(w_sent) = 3%nat ∧
  match foreign_undo.1 with inr (UndoAnswered _ _ degraded) => degraded = true | _ => False end ∧
  undo_status <$> foreign_undo.2.(w_db).(undo_records) !! u "u1" = Some UExecuting.
Proof. split; [|split]; vm_compute; reflexivity. Qed.
