(* ===== verification/WritePrepare.v ===== *)
(** * Saving prepared writes

    [db/store/assistant-write-preparation.ts]: the one transaction that makes previews
    clickable.  The operations, their previews, the batch that binds them, the reservation
    of their host calls, the events, and the suspension of the run commit together. *)
From S2P Require Import Prelude Js SafeJson ActionResults SessionTables RunTables RunEvents Confirmations Db Discriminators Plan Journal Store ConfirmStore Batches BatchLife RunStore RunLife RunSettle.
From S2P Require RunBudget.
Open Scope Z_scope.
#[local] Arguments u : simpl never.
#[local] Existing Instance RunBudget.RunPhase_dec.

(** ** Data *)

Record PreparedAssistantWriteInput := {
  operationRun : PrepareOperationRunInput;
  confirmation : PendingConfirmationRecord;
  hostCalls : Z;
  event_batch : option jstr;   (** [event.batchId]; its other members are written over *)
}.

Record PreparedAssistantWriteResult := {
  prepared_state : RunState;
  prepared_event : SequencedRunEvent;
  prepared_member : BatchMember;
}.

Record PreparedBatchResult := {
  saved_state : RunState;
  saved_events : list SequencedRunEvent;
  saved_items : list BatchMember;
  saved_batch : option jstr;
}.

(** [{ ...write.confirmation, operationId }] *)
Definition with_operation (op : jstr) (r : PendingConfirmationRecord) : PendingConfirmationRecord :=
  {| Confirmations.id := r.(Confirmations.id); operationId := op; sessionId := r.(sessionId);
     workspaceId := r.(workspaceId); adminUserId := r.(adminUserId); Confirmations.status := r.(Confirmations.status);
     risk := r.(risk); Confirmations.preview := r.(Confirmations.preview); operation := r.(operation);
     installationGeneration := r.(installationGeneration); operationHash := r.(operationHash);
     targetFingerprints := r.(targetFingerprints); actionFingerprint := r.(actionFingerprint);
     catalogHash := r.(catalogHash); capabilityId := r.(capabilityId); capabilityHash := r.(capabilityHash);
     nonceHash := r.(nonceHash); expiresAt := r.(expiresAt); createdAt := r.(createdAt); usedAt := r.(usedAt);
     agentState := r.(agentState); actionResultId := r.(actionResultId); discriminators := r.(discriminators);
     batchId := r.(batchId) |}.

(** ** The transaction *)

Definition budget_patch (b : RunBudget.RunBudget) : RunPatch :=
  {| patch_phase := None; patch_catalog := None; patch_loaded := None; patch_used := None;
     patch_continuation := None; patch_budget := Some b; patch_unfinished := None; patch_completed := None |}.
Definition suspension_patch (c : RunContinuation) : RunPatch :=
  {| patch_phase := Some RunBudget.phase_awaiting_confirmation; patch_catalog := None; patch_loaded := None;
     patch_used := None; patch_continuation := Some c; patch_budget := None; patch_unfinished := None;
     patch_completed := None |}.

(** The ledger's own counter of the row is kept. *)
Definition updateBudget (x : AssistantRunScope) (b : RunBudget.RunBudget) (now : Z) : M unit :=
  do! _ := update_arun x (λ _, true) (patched_run (budget_patch b) now) in mreturn tt.

Definition insertRunEvent := allocateAndInsertEvent.
Definition insertPreparedEvent (x : AssistantRunScope) (op pid : jstr) (batch : option jstr) (now : Z) : M SequencedRunEvent :=
  insertRunEvent x (operation_prepared op pid batch) now.

Definition suspendRunForConfirmation (x : AssistantRunScope) (c : RunContinuation) (now : Z) : M SequencedRunEvent :=
  do! _ := update_arun x (λ _, true) (patched_run (suspension_patch c) now) in
  insertRunEvent x (run_suspended awaiting_confirmation) now.

Section Saving.
Context (sha256 : jstr → jstr).

Definition applyPreparedWrite (x : AssistantRunScope) (s : RunState) (w : PreparedAssistantWriteInput) (now : Z)
    (uuid : jstr) : M PreparedAssistantWriteResult :=
  require! RunBudget.canReserveHostCalls s.(state_budget) w.(hostCalls) else "host_call_budget_exceeded" in
  let budget := RunBudget.reserveHostCalls s.(state_budget) w.(hostCalls) in
  let pid := w.(confirmation).(Confirmations.id) in
  do! op := prepareOperationRun w.(operationRun) now uuid in
  do! _ := savePendingConfirmation sha256 (with_operation op w.(confirmation)) in
  do! _ := updateBudget x budget now in
  do! e := insertPreparedEvent x op pid w.(event_batch) now in
  mreturn {| prepared_state := state_with s s.(state_phase) s.(state_continuation) budget s.(state_completed);
             prepared_event := e;
             prepared_member := {| member_confirmation := pid; member_operation := op |} |}.

(** The loop over the writes; [uuid i] is the fresh id at index [i]. *)
Fixpoint apply_writes (x : AssistantRunScope) (s : RunState) (ws : list PreparedAssistantWriteInput) (now : Z)
    (uuid : nat → jstr) : M (RunState * list SequencedRunEvent * list BatchMember) :=
  match ws with
  | [] => mreturn (s, [], [])
  | w :: ws =>
      do! r := applyPreparedWrite x s w now (uuid 0%nat) in
      do! rest := apply_writes x r.(prepared_state) ws now (λ i, uuid (S i)) in
      let '(s', events, items) := rest in
      mreturn (s', r.(prepared_event) :: events, r.(prepared_member) :: items)
  end.

(** [Omit<CreateConfirmationBatchInput, "items">] with its items. *)
Definition batch_with (b : CreateConfirmationBatchInput) (items : list BatchMember) : CreateConfirmationBatchInput :=
  {| new_batch_session := b.(new_batch_session); new_batch_run := b.(new_batch_run);
     new_batch_workspace := b.(new_batch_workspace); new_batch_admin := b.(new_batch_admin);
     new_batch_hash := computeOrderedTupleHash sha256 items; new_batch_expires := b.(new_batch_expires);
     new_batch_items := items |}.

Definition bind_batch (batch : option CreateConfirmationBatchInput) (items : list BatchMember) (id : jstr) (now : Z)
    : M (option jstr) :=
  match batch with
  | Some b =>
      if (1 <? Z.of_nat (length items)) then
        require! bool_decide (computeOrderedTupleHash sha256 items = b.(new_batch_hash)) else "ordered_tuple_hash_mismatch" in
        do! _ := insertConfirmationBatchRows sha256 (batch_with b items) id now in
        mreturn (Some id)
      else mreturn None
  | None => mreturn None
  end.

Definition prepareAssistantWriteBatchWithEvents (x : AssistantRunScope) (s : RunState)
    (ws : list PreparedAssistantWriteInput) (batch : option CreateConfirmationBatchInput) (now : Z) (uuid : nat → jstr)
    (batch_uuid : jstr) : M PreparedBatchResult :=
  do! applied := apply_writes x s ws now uuid in
  let '(s', events, items) := applied in
  do! id := bind_batch batch items batch_uuid now in
  let c := awaiting_operations (member_operation <$> items) id in
  do! e := suspendRunForConfirmation x c now in
  mreturn {| saved_state := state_with s' RunBudget.phase_awaiting_confirmation c s'.(state_budget) s'.(state_completed);
             saved_events := events ++ [e]; saved_items := items; saved_batch := id |}.
End Saving.

(** ** What a preparation leaves behind *)

(** The provenance of a new operation. *)
Definition run_binding (i : PrepareOperationRunInput) (now : Z) : OperationBinding :=
  {| request_id := i.(run_in_requestId); confirmation_id := i.(run_in_confirmationId);
     session_id := i.(run_in_sessionId); workspace_id := i.(run_in_workspaceId);
     admin_user_id := i.(run_in_adminUserId); action_name := i.(run_in_actionName);
     action_fingerprint := i.(run_in_actionFingerprint); catalog_hash := i.(run_in_catalogHash);
     operation_hash := i.(run_in_operationHash); capability_id := i.(run_in_capabilityId);
     capability_hash := i.(run_in_capabilityHash);
     discriminator := (default (v1DiscriminatorFromCapability i.(run_in_capabilityId), None) i.(run_in_discriminator)).1;
     run_created_at := now |}.

(** The whole row of a new operation, up to the batch it is bound in. *)
Definition prepared_row (i : PrepareOperationRunInput) (now : Z) (o : OperationRunRow) : Prop :=
  o.(binding) = run_binding i now ∧ o.(run_status) = RunPrepared ∧ o.(run_result_id) = None ∧
  (∃ envelope, exactNonsecretJson (operation_envelope i) 1000000 = Ok envelope ∧
     actionResultJson envelope = Ok o.(operation_json)) ∧
  o.(reconciled_at) = None ∧ o.(reconciliation_json) = None ∧ o.(run_updated_at) = now.

(** The whole row of a saved preview, up to the batch: a pending one keeps what its click
    needs, any other is scrubbed. *)
Definition preview_row (op : jstr) (r : PendingConfirmationRecord) (c : PendingRow) : Prop :=
  c.(preview) = preview_binding (with_operation op r) ∧ c.(status) = r.(Confirmations.status) ∧
  c.(action_result_id) = r.(actionResultId) ∧ c.(used_at) = r.(usedAt) ∧
  c.(result_summary_json) = None ∧ c.(idempotency_key) = None ∧
  (if decide (r.(Confirmations.status) = PPending)
   then c.(nonce_hash) = r.(nonceHash) ∧ c.(preview_operation_json) = json_value r.(operation) ∧
        c.(agent_state_json) = match r.(agentState) with Some v => json_value v | None => None end
   else c.(nonce_hash) = [] ∧ c.(preview_operation_json) = None ∧ c.(agent_state_json) = None) ∧
  (if decide (r.(Confirmations.status) = PCancelled ∨ r.(Confirmations.status) = PExpired)
   then c.(risk_json) = VArr [] ∧ c.(preview_json) = VObj [] ∧ c.(target_fingerprints_json) = VArr []
   else json_value r.(risk) = Some c.(risk_json) ∧ json_value r.(Confirmations.preview) = Some c.(preview_json) ∧
        c.(target_fingerprints_json) = VArr (VStr <$> r.(targetFingerprints))).

Lemma insert_run_new id r d a d' :
  insert_run id r d = Ok (a, d') → d.(operation_runs) !! id = None ∧ d' = set_runs (<[id := r]> d.(operation_runs)) d.
Proof. unfold insert_run. intros H. repeat case_match; by simplify_eq. Qed.
Lemma insert_preview_new pid r d a d' :
  insert_confirmation pid r d = Ok (a, d') →
  d.(pending_confirmations) !! pid = None ∧ d' = set_confirmations (<[pid := r]> d.(pending_confirmations)) d.
Proof. unfold insert_confirmation. intros H. repeat case_match; by simplify_eq. Qed.

(** The batch the caller names in the discriminator, before any binding. *)
Definition own_batch (i : PrepareOperationRunInput) : option jstr :=
  match i.(run_in_discriminator) with Some (_, b) => b | None => None end.

Lemma prepare_run_ok i now uuid d op d' :
  prepareOperationRun i now uuid d = Ok (op, d') →
  d.(operation_runs) !! op = None ∧ op = default uuid i.(run_in_id) ∧
  ∃ o, prepared_row i now o ∧ o.(run_batch_id) = own_batch i ∧ d' = set_runs (<[op := o]> d.(operation_runs)) d.
Proof.
  unfold prepareOperationRun. intros H. unfold prepared_row, run_binding, own_batch.
  destruct (default (v1DiscriminatorFromCapability (run_in_capabilityId i), None) (run_in_discriminator i)) as [x batch] eqn:Ex.
  minv. match goal with H : insert_run _ _ _ = _ |- _ => apply insert_run_new in H as [H ->] end.
  split; [done|]. split; [done|]. eexists. split; [|split; [|reflexivity]].
  - split_and!; try done. by eexists.
  - simpl. destruct (run_in_discriminator i) as [[y b]|]; simpl in Ex; congruence.
Qed.

(** What a preparation leaves alone: the tables of other concerns, the rows of other runs,
    and the events there were; it only appends events of its run. *)
Record untouched (x : AssistantRunScope) (d d' : db) : Prop := {
  same_tables : d'.(operation_steps) = d.(operation_steps) ∧ d'.(action_results) = d.(action_results) ∧
    d'.(idempotency_keys) = d.(idempotency_keys) ∧ d'.(undo_records) = d.(undo_records) ∧
    d'.(session_tables) = d.(session_tables);
  same_run_tables : d'.(run_tables).(turn_runs) = d.(run_tables).(turn_runs) ∧
    d'.(run_tables).(result_links) = d.(run_tables).(result_links) ∧
    d'.(run_tables).(request_links) = d.(run_tables).(request_links);
  other_runs k : k ≠ key_of_scope x → d'.(run_tables).(assistant_runs) !! k = d.(run_tables).(assistant_runs) !! k;
  events_appended : ∃ rows, d'.(run_tables).(run_events) = d.(run_tables).(run_events) ++ rows ∧
    Forall (λ e, (e.(event_session), e.(event_run)) = key_of_scope x) rows;
}.

#[export] Instance untouched_preorder x : PreOrder (untouched x).
Proof.
  split.
  - intros d. split; [done..|]. exists []. by rewrite app_nil_r.
  - intros d1 d2 d3 [T1 R1 O1 (l1 & E1 & F1)] [T2 R2 O2 (l2 & E2 & F2)]. split.
    + destruct T1 as (?&?&?&?&?), T2 as (?&?&?&?&?). split_and!; congruence.
    + destruct R1 as (?&?&?), R2 as (?&?&?). split_and!; congruence.
    + intros k Hk. by rewrite O2, O1.
    + exists (l1 ++ l2). rewrite E2, E1, app_assoc. split; [done|]. by apply Forall_app.
Qed.
(** Statements that write the operations, the previews or the batches. *)
Lemma untouched_same x d d' :
  (d'.(operation_steps), d'.(action_results), d'.(idempotency_keys), d'.(undo_records), d'.(session_tables)) =
    (d.(operation_steps), d.(action_results), d.(idempotency_keys), d.(undo_records), d.(session_tables)) →
  (d'.(run_tables).(turn_runs), d'.(run_tables).(result_links), d'.(run_tables).(request_links),
   d'.(run_tables).(assistant_runs), d'.(run_tables).(run_events)) =
    (d.(run_tables).(turn_runs), d.(run_tables).(result_links), d.(run_tables).(request_links),
     d.(run_tables).(assistant_runs), d.(run_tables).(run_events)) → untouched x d d'.
Proof.
  intros [= ? ? ? ? ?] [= ? ? ? Ea Ee]. split; [by split_and!..| |].
  - intros k _. by rewrite Ea.
  - exists []. by rewrite app_nil_r, Ee.
Qed.
Lemma update_arun_untouched x p f d b d' : update_arun x p f d = Ok (b, d') → untouched x d d'.
Proof.
  intros [[_ ->]|(_ & r & _ & _ & _ & ->)]%update_arun_ok; [done|].
  split; [done|done| |exists []; by rewrite app_nil_r]. intros k Hk. by apply lookup_insert_ne.
Qed.
Lemma event_untouched x q now d e d' : allocateAndInsertEvent x q now d = Ok (e, d') → untouched x d d'.
Proof.
  intros (row & -> & _ & Es & Er & _)%allocate_ok. split; [done..|]. exists [row]. split; [done|].
  constructor; [|done]. unfold key_of_scope. by rewrite Es, Er.
Qed.

Section Saved.
Context (sha256 : jstr → jstr).

Lemma save_preview_ok r op d a d' :
  savePendingConfirmation sha256 (with_operation op r) d = Ok (a, d') →
  d.(pending_confirmations) !! r.(Confirmations.id) = None ∧
  ∃ c, preview_row op r c ∧ c.(batch_id) = r.(batchId) ∧ d' = set_confirmations (<[r.(Confirmations.id) := c]> d.(pending_confirmations)) d.
Proof.
  unfold savePendingConfirmation. intros H. unfold preview_row. minv.
  all: match goal with H : insert_confirmation _ _ _ = _ |- _ => apply insert_preview_new in H as [H ->] end.
  all: split; [done|]; eexists; (split; [|split; [|reflexivity]]); [|done].
  all: split_and!; try done; repeat case_decide; simpl in *; unfold json_column in *; repeat case_match; simplify_eq; try done;
    destruct (Confirmations.status r); naive_solver.
Qed.

(** One write: its two rows are new, and the run reserved its calls and logged it. *)
Record applied_write (x : AssistantRunScope) (s : RunState) (w : PreparedAssistantWriteInput) (now : Z)
    (res : PreparedAssistantWriteResult) (d d' : db) : Prop := {
  applied_pid : member_confirmation res.(prepared_member) = w.(confirmation).(Confirmations.id);
  applied_new : d.(operation_runs) !! member_operation res.(prepared_member) = None ∧
                d.(pending_confirmations) !! w.(confirmation).(Confirmations.id) = None;
  applied_op id : w.(operationRun).(run_in_id) = Some id → member_operation res.(prepared_member) = id;
  applied_rows : ∃ o c, prepared_row w.(operationRun) now o ∧ o.(run_batch_id) = own_batch w.(operationRun) ∧
    preview_row (member_operation res.(prepared_member)) w.(confirmation) c ∧ c.(batch_id) = w.(confirmation).(batchId) ∧
    d'.(operation_runs) = <[member_operation res.(prepared_member) := o]> d.(operation_runs) ∧
    d'.(pending_confirmations) = <[w.(confirmation).(Confirmations.id) := c]> d.(pending_confirmations);
  applied_room : RunBudget.canReserveHostCalls s.(state_budget) w.(hostCalls) = true;
  applied_state : res.(prepared_state) = state_with s s.(state_phase) s.(state_continuation)
                    (RunBudget.reserveHostCalls s.(state_budget) w.(hostCalls)) s.(state_completed);
  applied_run r : scoped_run x d = Some r →
    scoped_run x d' = Some (patched_run (budget_patch (RunBudget.reserveHostCalls s.(state_budget) w.(hostCalls))) now r) ∧
    moves x (append_log [operation_prepared (member_operation res.(prepared_member)) w.(confirmation).(Confirmations.id) w.(event_batch)]) d d';
  applied_untouched : untouched x d d';
  applied_kept : d'.(run_tables).(confirmation_batches) = d.(run_tables).(confirmation_batches) ∧
    d'.(run_tables).(batch_items) = d.(run_tables).(batch_items);
}.

Lemma scoped_put x r d :
  in_run_scope x r = true → scoped_run x (put_arun x.(scope_session) x.(scope_run) r d) = Some r.
Proof. intros H. unfold scoped_run, put_arun. simpl. rewrite lookup_insert_eq. simpl. by rewrite H. Qed.
Lemma scoped_ext x d d' : d'.(run_tables).(assistant_runs) = d.(run_tables).(assistant_runs) → scoped_run x d' = scoped_run x d.
Proof. intros E. unfold scoped_run. by rewrite E. Qed.
Lemma scoped_patched x p now r : in_run_scope x (patched_run p now r) = in_run_scope x r.
Proof. done. Qed.

(** A patch of the run and an event. *)
Lemma patch_event x p g q now d b d1 e d2 r :
  (∀ log, g {| a_phase := r.(phase); a_log := log; a_used := ledger_used r |} =
     {| a_phase := default r.(phase) p.(patch_phase); a_log := log; a_used := ledger_used r |}) →
  scoped_run x d = Some r → update_arun x (λ _, true) (patched_run p now) d = Ok (b, d1) →
  allocateAndInsertEvent x q now d1 = Ok (e, d2) →
  scoped_run x d2 = Some (patched_run p now r) ∧ moves x (append_log [q] ∘ g) d d2.
Proof.
  intros Hg Hr H1 H2. unfold update_arun in H1. rewrite Hr in H1. destruct (_ && _) eqn:E; [|done]. injection H1 as _ <-. zbool.
  split.
  - destruct (allocate_ok _ _ _ _ _ _ H2) as (row & -> & _). rewrite (scoped_ext x (put_arun x.(scope_session) x.(scope_run) (patched_run p now r) d)) by done.
    apply scoped_put. by destruct (scoped_run_some _ _ _ Hr).
  - eapply moves_then; [|by eapply allocate_moves]. eapply put_arun_moves; [done|done|done|done|].
    intros log. rewrite Hg. unfold ledger_used, patched_run. simpl. by destruct (patch_budget p).
Qed.

#[export] Instance keeps_patch_event {T} (f : db → T) `{!Ignores set_run_tables f} x b now : Keeps f (updateBudget x b now).
Proof. unfold updateBudget. solve_keeps. Qed.

Lemma apply_ok x s w now uuid d res d' :
  applyPreparedWrite sha256 x s w now uuid d = Ok (res, d') → applied_write x s w now res d d'.
Proof.
  unfold applyPreparedWrite, insertPreparedEvent, insertRunEvent. intros H. destruct (RunBudget.canReserveHostCalls _ _) eqn:Hroom; [|done].
  cbv zeta in H. apply mthen_ok in H as (op & d1 & H1 & H). apply mthen_ok in H as (t & d2 & H2 & H).
  apply mthen_ok in H as (t2 & d3 & H3 & H). apply mthen_ok in H as (e & d4 & H4 & [= <- <-]).
  apply prepare_run_ok in H1 as (Hop & Eid & o & Ho & Eb & ->). apply save_preview_ok in H2 as (Hpid & c & Hc & Ec & ->).
  set (d2 := set_confirmations _ _) in *.
  assert (∀ {T} (f : db → T), Ignores set_run_tables f → f d4 = f d2) as HK.
  { intros T f Hf. etrans; [exact (keeps_allocate f _ _ _ _ _ _ H4)|exact (keeps_patch_event f _ _ _ _ _ _ H3)]. }
  assert (d4.(run_tables).(confirmation_batches) = d2.(run_tables).(confirmation_batches) ∧
          d4.(run_tables).(batch_items) = d2.(run_tables).(batch_items)) as [HB HI].
  { destruct (allocate_ok _ _ _ _ _ _ H4) as (row & -> & _). unfold updateBudget in H3. minv.
    apply update_arun_ok in Hm as [[_ ->]|(_ & r & _ & _ & _ & ->)]; done. }
  split; simpl; try done.
  - intros i Hi. rewrite Hi in Eid. done.
  - exists o, c. split_and!; [done..| |]; [by rewrite (HK _ operation_runs)|by rewrite (HK _ pending_confirmations)].
  - intros r Hr. unfold updateBudget in H3. minv.
    pose proof (patch_event x (budget_patch (RunBudget.reserveHostCalls s.(state_budget) w.(hostCalls))) (λ a, a) _ now d2 _ _ _ _ r
      ltac:(done) Hr Hm H4) as [Hs Hmv]. split; [done|]. eapply moves_after; [|exact Hmv]. done.
  - unfold updateBudget in H3. minv. transitivity d2; [by apply untouched_same|].
    etrans; [by eapply update_arun_untouched|by eapply event_untouched].
Qed.

(** The rows of a saved write, in the tables [d], with the batch they are bound in. *)
Definition saved_write (batch : option jstr) (now : Z) (d : db) (w : PreparedAssistantWriteInput) (m : BatchMember) : Prop :=
  m.(member_confirmation) = w.(confirmation).(Confirmations.id) ∧
  ∃ o c, d.(operation_runs) !! m.(member_operation) = Some o ∧
    d.(pending_confirmations) !! m.(member_confirmation) = Some c ∧
    prepared_row w.(operationRun) now o ∧ preview_row m.(member_operation) w.(confirmation) c ∧
    (∀ id, w.(operationRun).(run_in_id) = Some id → m.(member_operation) = id) ∧
    match batch with
    | Some b => o.(run_batch_id) = Some b ∧ c.(batch_id) = Some b
    | None => o.(run_batch_id) = own_batch w.(operationRun) ∧ c.(batch_id) = w.(confirmation).(batchId)
    end.

(** Rows are only added, under the keys of the members. *)
Record adds_members (items : list BatchMember) (d d' : db) : Prop := {
  members_new m : m ∈ items → d.(operation_runs) !! m.(member_operation) = None ∧
    d.(pending_confirmations) !! m.(member_confirmation) = None;
  others_kept : (∀ k, k ∉ (member_operation <$> items) → d'.(operation_runs) !! k = d.(operation_runs) !! k) ∧
    (∀ k, k ∉ (member_confirmation <$> items) → d'.(pending_confirmations) !! k = d.(pending_confirmations) !! k);
}.

Definition total_calls (ws : list PreparedAssistantWriteInput) : Z := foldr (λ w n, w.(hostCalls) + n) 0 ws.
Definition prepared_events (ws : list PreparedAssistantWriteInput) (items : list BatchMember) : list RunEventPayload :=
  zip_with (λ w m, operation_prepared m.(member_operation) m.(member_confirmation) w.(event_batch)) ws items.
Definition reserved_in (b : RunBudget.RunBudget) : Z := RunBudget.hostCallsReserved b.

(** A saved write stays saved while rows are only added. *)
Lemma saved_write_kept now d d' w m items :
  adds_members items d d' → saved_write None now d w m → saved_write None now d' w m.
Proof.
  intros [Hn [HO HP]] (Hid & o & c & Ho & Hc & H). split; [done|]. exists o, c.
  rewrite HO, HP; [done| |].
  - intros (m' & E & Hm')%list_elem_of_fmap. destruct (Hn _ Hm') as [_ H0]. congruence.
  - intros (m' & E & Hm')%list_elem_of_fmap. destruct (Hn _ Hm') as [H0 _]. congruence.
Qed.

(** The loop: every write is saved, and the run's budget and log follow. *)
Record applied_writes (x : AssistantRunScope) (s : RunState) (ws : list PreparedAssistantWriteInput) (now : Z)
    (s' : RunState) (items : list BatchMember) (d d' : db) : Prop := {
  all_saved : Forall2 (saved_write None now d') ws items;
  all_added : adds_members items d d';
  all_room : ws ≠ [] → RunBudget.hostCallsUsed s.(state_budget) + reserved_in s'.(state_budget) ≤ RunBudget.V2_LIMITS.(RunBudget.maxHostCalls);
  all_state : s' = state_with s s.(state_phase) s.(state_continuation)
                (RunBudget.with_reserved s.(state_budget) (reserved_in s.(state_budget) + total_calls ws)) s.(state_completed);
  all_run r : scoped_run x d = Some r →
    scoped_run x d' = Some (match ws with [] => r | _ => patched_run (budget_patch s'.(state_budget)) now r end) ∧
    moves x (append_log (prepared_events ws items)) d d';
  all_untouched : untouched x d d';
  all_batches : d'.(run_tables).(confirmation_batches) = d.(run_tables).(confirmation_batches) ∧
    d'.(run_tables).(batch_items) = d.(run_tables).(batch_items);
}.

Lemma applied_adds x s w now res d d' :
  applied_write x s w now res d d' → adds_members [res.(prepared_member)] d d'.
Proof.
  intros [Hp [Ho Hc] _ (o & c & _ & _ & _ & _ & HO & HP) _ _ _ _ _]. split.
  - intros m ->%list_elem_of_singleton. by rewrite Hp.
  - split; intros k Hk; simpl in Hk; rewrite list_elem_of_singleton in Hk; [rewrite HO|rewrite HP]; apply lookup_insert_ne; congruence.
Qed.
Lemma adds_cons m items d d1 d' :
  adds_members [m] d d1 → adds_members items d1 d' → adds_members (m :: items) d d'.
Proof.
  intros [N1 [O1 P1]] [N2 [O2 P2]]. destruct (N1 m ltac:(set_solver)) as [Hmo Hmp]. split.
  - intros q [->|H]%elem_of_cons; [done|]. destruct (N2 q H) as [Hqo Hqp]. split.
    + destruct (decide (q.(member_operation) = m.(member_operation))) as [->|]; [done|]. rewrite <-O1; set_solver.
    + destruct (decide (q.(member_confirmation) = m.(member_confirmation))) as [->|]; [done|]. rewrite <-P1; set_solver.
  - split; intros k Hk; rewrite fmap_cons, not_elem_of_cons in Hk; destruct Hk as [Hk1 Hk2].
    + rewrite O2 by done. apply O1. simpl. by rewrite list_elem_of_singleton.
    + rewrite P2 by done. apply P1. simpl. by rewrite list_elem_of_singleton.
Qed.

Lemma moves_nothing x d r : scoped_run x d = Some r → moves x (append_log []) d d.
Proof.
  intros Hr Hok. split; [done|]. destruct (scoped_run_some _ _ _ Hr) as [Hl _]. eexists.
  split; [unfold abstract; rewrite Hl; reflexivity|]. intros k. case_decide as E; [|done]. subst k.
  unfold abstract. rewrite Hl. simpl. unfold append_log. simpl. by rewrite app_nil_r.
Qed.

Lemma apply_writes_ok x ws now : ∀ s uuid d s' events items d',
  apply_writes sha256 x s ws now uuid d = Ok (s', events, items, d') → applied_writes x s ws now s' items d d'.
Proof.
  induction ws as [|w ws IH]; intros s uuid d s' events items d' H; simpl in H.
  - injection H as <- <- <- <-. split; try done.
    + by split; [intros m ?%elem_of_nil|].
    + unfold total_calls, reserved_in. simpl. rewrite Z.add_0_r. by destruct s as [? ? ? ? ? ? ? ? ? ? ? [] ? ?].
    + intros r Hr. split; [done|]. by eapply moves_nothing.
  - apply mthen_ok in H as (res & d1 & H1 & H). apply mthen_ok in H as ([[s1 ev] its] & d2 & H2 & [= <- <- <- <-]).
    apply apply_ok in H1. pose proof (applied_adds _ _ _ _ _ _ _ H1) as Hadd.
    destruct H1 as [Hp [Ho Hc] Hop (o & c & Hrow & Hob & Hprev & Hcb & HO & HP) Hroom Hst Hrun Hun [HB1 HI1]].
    apply IH in H2 as [Hsaved Hadded Hroom2 Hst2 Hrun2 Hun2 [HB2 HI2]].
    assert (saved_write None now d1 w (prepared_member res)) as Hw.
    { split; [done|]. exists o, c. rewrite HO, HP, Hp, !lookup_insert_eq. by split_and!. }
    assert (reserved_in s1.(state_budget) = reserved_in s.(state_budget) + total_calls (w :: ws)) as Hres.
    { rewrite Hst2, Hst. simpl. unfold reserved_in. simpl. lia. }
    split.
    + constructor; [by eapply saved_write_kept|done].
    + by eapply adds_cons.
    + intros _. destruct ws as [|w2 ws].
      * rewrite Hres. unfold RunBudget.canReserveHostCalls in Hroom. apply Z.leb_le in Hroom. unfold reserved_in, total_calls. simpl in *. lia.
      * specialize (Hroom2 ltac:(done)). rewrite Hst in Hroom2. exact Hroom2.
    + rewrite Hst2, Hst. unfold state_with. simpl. f_equal. unfold RunBudget.with_reserved, reserved_in, total_calls. simpl. f_equal. lia.
    + intros r Hr. destruct (Hrun r Hr) as [Hr1 Hm1]. destruct (Hrun2 _ Hr1) as [Hr2 Hm2]. split.
      * rewrite Hr2. destruct ws as [|w2 ws]; [|done].
        assert (s1.(state_budget) = RunBudget.reserveHostCalls s.(state_budget) w.(hostCalls)) as ->; [|done].
        rewrite Hst2, Hst. unfold total_calls, reserved_in, RunBudget.reserveHostCalls. simpl. by rewrite Z.add_0_r.
      * eapply moves_ext; [|exact (moves_then _ _ _ _ _ _ Hm1 Hm2)]. intros a. unfold append_log. simpl. f_equal.
        unfold prepared_events. simpl. by rewrite <-app_assoc, Hp.
    + by etrans.
    + by rewrite HB2, HI2.
Qed.

(** *** The batch *)

Definition off_members (items : list BatchMember) (d d' : db) : Prop :=
  (∀ k, k ∉ (member_operation <$> items) → d'.(operation_runs) !! k = d.(operation_runs) !! k) ∧
  (∀ k, k ∉ (member_confirmation <$> items) → d'.(pending_confirmations) !! k = d.(pending_confirmations) !! k).
(** What binding leaves alone. *)
Definition outside_batch (d d' : db) : Prop :=
  same_journal d d' ∧ ∀ x, untouched x d d'.

Lemma outside_trans d1 d2 d3 : outside_batch d1 d2 → outside_batch d2 d3 → outside_batch d1 d3.
Proof. intros [J1 U1] [J2 U2]. split; [by eapply same_journal_trans|]. intros x. etrans; [apply U1|apply U2]. Qed.

Lemma bind_member_outside id m d a d' :
  bind_member id m d = Ok (a, d') → outside_batch d d' ∧ off_members [m] d d'.
Proof.
  intros H. unfold bind_member in H. apply mthen_ok in H as (? & d1 & Hi & H). apply mthen_ok in H as (? & d2 & Hp & Ho).
  unfold insert_item in Hi. destruct (_ !! id); [|done]. destruct (_ && _); [|done]. injection Hi as _ <-.
  unfold set_preview_batch, set_operation_batch in *. split.
  - repeat case_match; simplify_eq; (split; [done|intros sc; by apply untouched_same]).
  - split; intros k Hk; simpl in Hk; rewrite list_elem_of_singleton in Hk; repeat case_match; simplify_eq; try done;
      simpl; rewrite lookup_insert_ne by done; done.
Qed.
Lemma bind_members_outside id l : ∀ d a d',
  for_each l (bind_member id) d = Ok (a, d') → outside_batch d d' ∧ off_members l d d'.
Proof.
  induction l as [|m l IH]; intros d a d' H; simpl in H; [injection H as _ <-; by split|].
  apply mthen_ok in H as (? & d1 & H1 & H2). apply bind_member_outside in H1 as [J1 [O1 P1]].
  apply IH in H2 as [J2 [O2 P2]]. split; [by eapply outside_trans|].
  split; intros k Hk; rewrite fmap_cons, not_elem_of_cons in Hk; destruct Hk as [Hk1 Hk2].
  - rewrite O2 by done. apply O1. simpl. by rewrite list_elem_of_singleton.
  - rewrite P2 by done. apply P1. simpl. by rewrite list_elem_of_singleton.
Qed.

Lemma bind_members_table id l : ∀ d a d',
  l ≠ [] → for_each l (bind_member id) d = Ok (a, d') →
  d'.(run_tables).(batch_items) = <[id := items_of id d ++ (pending_item <$> l)]> d.(run_tables).(batch_items).
Proof.
  induction l as [|m l IH]; intros d a d' Hl H; [done|]. simpl in H. apply mthen_ok in H as (x & d1 & H1 & H2).
  destruct (bind_member_ok _ _ _ _ _ H1) as (E & _). unfold batch_tables in E. injection E as _ E.
  destruct l as [|m2 l]; [injection H2 as _ <-; exact E|]. rewrite (IH _ _ _ ltac:(done) H2).
  unfold items_of at 1. rewrite E, lookup_insert_eq, insert_insert_eq. simpl. by rewrite <-app_assoc.
Qed.

(** The stored batch of a preparation. *)
Definition batch_saved (batch : option CreateConfirmationBatchInput) (items : list BatchMember) (id : option jstr) (now : Z)
    (d d' : db) : Prop :=
  match id with
  | Some id => ∃ b, batch = Some b ∧ (1 < length items)%nat ∧ computeOrderedTupleHash sha256 items = b.(new_batch_hash) ∧
      getConfirmationBatch id d = None ∧
      d'.(run_tables).(confirmation_batches) =
        <[id := new_batch (batch_with sha256 b items) now]> d.(run_tables).(confirmation_batches) ∧
      d'.(run_tables).(batch_items) = <[id := items_of id d ++ (pending_item <$> items)]> d.(run_tables).(batch_items)
  | None => d'.(run_tables).(confirmation_batches) = d.(run_tables).(confirmation_batches) ∧
      d'.(run_tables).(batch_items) = d.(run_tables).(batch_items) ∧ (batch = None ∨ (length items ≤ 1)%nat)
  end.

Lemma bind_batch_ok batch items uuid now d id d' :
  bind_batch sha256 batch items uuid now d = Ok (id, d') →
  outside_batch d d' ∧ off_members items d d' ∧ batch_saved batch items id now d d' ∧
  match id with
  | Some id => tagged id d d' ∧ ∃ b, ∀ m, m ∈ items → bound id b m d'
  | None => d' = d
  end.
Proof.
  assert (batch = None ∨ (length items ≤ 1)%nat → outside_batch d d ∧ off_members items d d ∧
    batch_saved batch items None now d d ∧ d = d) as Hnone by (intros; by split_and!).
  unfold bind_batch. destruct batch as [b|]; [|intros [= <- <-]; by apply Hnone; left].
  destruct (1 <? Z.of_nat (length items)) eqn:El; [|intros [= <- <-]; apply Hnone; right; apply Z.ltb_ge in El; lia].
  clear Hnone.
  destruct (bool_decide _) eqn:Eh; [|done]. intros H. apply mthen_ok in H as (row & d1 & H & [= <- <-]).
  pose proof H as Hc. unfold insertConfirmationBatchRows in H. rewrite bool_decide_true in H by done.
  apply mthen_ok in H as (? & d2 & Hi & H). apply mthen_ok in H as (? & d3 & Hf & [= <- <-]).
  unfold insert_batch in Hi. destruct (_ !! uuid) eqn:Hn; [done|]. destruct (batch_ok _ _ _); [|done]. injection Hi as _ <-.
  set (nb := new_batch (batch_with sha256 b items) now) in *. simpl in Hf.
  destruct (bind_members_outside _ _ _ _ _ Hf) as [Ho Hoff].
  destruct (bind_members_bind uuid _ _ _ _ nb (lookup_insert_eq _ _ _) Hf) as (HT & HB & E).
  split; [split; [exact (proj1 Ho)|intros sc; etrans; [|apply Ho]; by apply untouched_same]|]. split; [exact Hoff|]. split; [|split; [exact HT|exists nb; exact HB]].
  exists b. split_and!; [done|apply Z.ltb_lt in El; lia|by apply bool_decide_eq_true in Eh|done|exact E|].
  apply (bind_members_table uuid items) in Hf; [exact Hf|]. intros ->. by apply Z.ltb_lt in El.
Qed.

Lemma saved_tagged id b now d d' w m :
  tagged id d d' → bound id b m d' → saved_write None now d w m → saved_write (Some id) now d' w m.
Proof.
  intros [HP HO] (_ & _ & (c' & Hc' & Ec) & (o' & Ho' & Eo)) (Hid & o & c & Ho & Hc & Hrow & Hprev & Hop & _).
  destruct (HO _ _ Ho) as (o2 & Ho2 & To). destruct (HP _ _ Hc) as (c2 & Hc2 & Tc).
  rewrite Ho' in Ho2. injection Ho2 as <-. rewrite Hc' in Hc2. injection Hc2 as <-.
  split; [done|]. exists o', c'. split; [done|]. split; [done|]. split; [by destruct To as [->| ->]|].
  split; [by destruct Tc as [->| ->]|]. by split_and!.
Qed.

(** *** The suspension *)

Lemma suspend_ok x c now d e d' r :
  suspendRunForConfirmation x c now d = Ok (e, d') → scoped_run x d = Some r →
  scoped_run x d' = Some (patched_run (suspension_patch c) now r) ∧
  moves x (append_log [run_suspended awaiting_confirmation] ∘ to_phase RunBudget.phase_awaiting_confirmation) d d' ∧
  ∀ {T} (f : db → T), Ignores set_run_tables f → f d' = f d.
Proof.
  unfold suspendRunForConfirmation, insertRunEvent. intros H Hr. apply mthen_ok in H as (b & d1 & H1 & H2).
  destruct (patch_event x (suspension_patch c) (to_phase RunBudget.phase_awaiting_confirmation) _ now d _ _ _ _ r ltac:(done) Hr H1 H2).
  split_and!; [done..|]. intros T f Hf. etrans; [exact (keeps_allocate f _ _ _ _ _ _ H2)|exact (keeps_update_arun f _ _ _ _ _ _ H1)].
Qed.
Lemma suspend_batches x c now d e d' :
  suspendRunForConfirmation x c now d = Ok (e, d') →
  d'.(run_tables).(confirmation_batches) = d.(run_tables).(confirmation_batches) ∧
  d'.(run_tables).(batch_items) = d.(run_tables).(batch_items).
Proof.
  unfold suspendRunForConfirmation, insertRunEvent. intros H. apply mthen_ok in H as (b & d1 & H1 & H2).
  destruct (allocate_ok _ _ _ _ _ _ H2) as (row & -> & _). apply update_arun_ok in H1 as [[_ ->]|(_ & r & _ & _ & _ & ->)]; done.
Qed.

(** The run of the scope waits for exactly these operations. *)
Definition waits_for (x : AssistantRunScope) (items : list BatchMember) (id : option jstr) (d : db) : Prop :=
  ∃ st, waiting_run x d = Some st ∧ st.(state_continuation) = awaiting_operations (member_operation <$> items) id.

(** The row of the run that waits: it keeps everything but its phase, its continuation, the
    time of its last change and its budget, whose host calls stay the ledger's. *)
Definition waiting_row (r : AssistantRunRow) (b : RunBudget.RunBudget) (c : RunContinuation) (now : Z) : AssistantRunRow :=
  {| arun_workspace := r.(arun_workspace); arun_admin := r.(arun_admin); arun_generation := r.(arun_generation);
     arun_auth := r.(arun_auth); original_request := r.(original_request); arun_request_hash := r.(arun_request_hash);
     phase := RunBudget.phase_awaiting_confirmation; arun_catalog_hash := r.(arun_catalog_hash);
     loaded_tool_names := r.(loaded_tool_names); used_tool_names := r.(used_tool_names); continuation := c;
     budget_json :=
       {| RunBudget.modelCallsUsed := RunBudget.modelCallsUsed b;
          RunBudget.discoveryCallsUsed := RunBudget.discoveryCallsUsed b;
          RunBudget.apiCallsUsed := RunBudget.apiCallsUsed b;
          RunBudget.hostCallsUsed := RunBudget.hostCallsUsed r.(budget_json);
          RunBudget.hostCallsReserved := RunBudget.hostCallsReserved b;
          RunBudget.promptTokensUsed := RunBudget.promptTokensUsed b;
          RunBudget.completionTokensUsed := RunBudget.completionTokensUsed b;
          RunBudget.estimatedTokensUsed := RunBudget.estimatedTokensUsed b;
          RunBudget.activeWallMsUsed := RunBudget.activeWallMsUsed b |};
     unfinished_operations := r.(unfinished_operations); arun_created_at := r.(arun_created_at);
     arun_updated_at := now |}.

Lemma suspend_untouched x c now d e d' : suspendRunForConfirmation x c now d = Ok (e, d') → untouched x d d'.
Proof.
  unfold suspendRunForConfirmation, insertRunEvent. intros (b & d1 & H1 & H2)%mthen_ok.
  etrans; [by eapply update_arun_untouched|by eapply event_untouched].
Qed.

(** C10: A preparation makes all of its previews clickable at once.  When the transaction
    commits, every write has, under fresh keys and in order, an operation that is only
    prepared, whose row is exactly the one its input describes, and the preview of exactly
    that operation, whose row holds exactly the caller's record, nonce hash included; with
    several writes they are the members of one new batch, and no other batch or item
    changes.  The row of the run waits for exactly these operations and is otherwise what
    it was, its loaded and used tools and its used host calls included, except for its
    budget: the counters of the state the writes were prepared on, with the reservation the
    sum over the writes, within the ceiling by that state.  The log of the run gained one
    event for each write and the suspension.  Nothing else changes: no other operation or
    preview, no journal step, result, key, undo, session table, turn, link or other run. *)
Theorem preparation_atomic x s ws batch now uuid batch_uuid d out d' r :
  journal_ok d → scoped_run x d = Some r → ws ≠ [] →
  prepareAssistantWriteBatchWithEvents sha256 x s ws batch now uuid batch_uuid d = Ok (out, d') →
  Forall2 (saved_write out.(saved_batch) now d') ws out.(saved_items) ∧
  adds_members out.(saved_items) d d' ∧
  batch_saved batch out.(saved_items) out.(saved_batch) now d d' ∧
  scoped_run x d' = Some (waiting_row r
    (RunBudget.with_reserved s.(state_budget) (reserved_in s.(state_budget) + total_calls ws))
    (awaiting_operations (member_operation <$> out.(saved_items)) out.(saved_batch)) now) ∧
  RunBudget.hostCallsUsed s.(state_budget) + reserved_in s.(state_budget) + total_calls ws
    ≤ RunBudget.V2_LIMITS.(RunBudget.maxHostCalls) ∧
  waits_for x out.(saved_items) out.(saved_batch) d' ∧
  untouched x d d' ∧
  journal_ok d' ∧
  log_of (key_of_scope x) d' = log_of (key_of_scope x) d ++ prepared_events ws out.(saved_items) ++ [run_suspended awaiting_confirmation] ∧
  ∀ k, k ≠ key_of_scope x → abstract d' k = abstract d k.
Proof.
  intros Hok Hr Hws H. unfold prepareAssistantWriteBatchWithEvents in H.
  apply mthen_ok in H as ([[s' events] items] & d1 & H1 & H). apply mthen_ok in H as (id & d2 & H2 & H).
  apply mthen_ok in H as (e & d3 & H3 & [= <- <-]). simpl.
  apply apply_writes_ok in H1 as [Hsaved Hadds Hroom Hst Hrun Hun1 [HB HI]].
  destruct (Hrun r Hr) as [Hr1 Hm1]. clear Hrun.
  apply bind_batch_ok in H2 as ([Hj Hun2] & [HO HP] & Hbatch & Htag).
  assert (scoped_run x d2 = scoped_run x d1) as Hr2 by (apply scoped_ext; apply Hj). rewrite Hr1 in Hr2.
  destruct (suspend_batches _ _ _ _ _ _ H3) as [HB3 HI3]. pose proof (suspend_untouched _ _ _ _ _ _ H3) as Hun3.
  destruct (suspend_ok _ _ _ _ _ _ _ H3 Hr2) as (Hr3 & Hm3 & HK).
  pose proof (moves_then _ _ _ _ _ _ (moves_same _ _ _ _ _ Hm1 Hj) Hm3 Hok) as (Hok' & a & Ha & Hk).
  assert (saved_write id now d3 = saved_write id now d2) as ->.
  { unfold saved_write. by rewrite (HK _ operation_runs _), (HK _ pending_confirmations _). }
  split_and!.
  - destruct id as [id|]; [|by subst]. destruct Htag as [HT [b Hb]].
    apply Forall2_same_length_lookup. split; [by eapply Forall2_length|].
    intros i w m Hw Hm. eapply (Forall2_lookup_lr _ _ _ _ _ _ Hsaved Hw) in Hm as Hs. eapply list_elem_of_lookup_2 in Hm. eapply saved_tagged; [exact HT|by apply Hb|exact Hs].
  - destruct Hadds as [HN [AO AP]]. split; [exact HN|].
    rewrite (HK _ operation_runs _), (HK _ pending_confirmations _). split; intros k Hk2; [rewrite HO|rewrite HP]; auto.
  - unfold batch_saved, getConfirmationBatch, items_of in *. rewrite HB3, HI3.
    destruct id as [id|]; by rewrite HB, HI in Hbatch.
  - rewrite Hr3, Hst. by destruct ws.
  - specialize (Hroom Hws). rewrite Hst in Hroom. unfold reserved_in in *. simpl in Hroom. lia.
  - eexists. split; [unfold waiting_run, getRun; rewrite Hr3; reflexivity|done].
  - etrans; [exact Hun1|]. etrans; [apply Hun2|exact Hun3].
  - done.
  - specialize (Hk (key_of_scope x)). rewrite decide_True in Hk by done. unfold abstract in Hk, Ha.
    apply bind_Some in Ha as (ra & Hra & [= <-]). apply bind_Some in Hk as (rk & Hrk & [= _ Hlog _]).
    rewrite Hlog. simpl. by rewrite <-app_assoc.
  - intros k Hne. rewrite Hk. by rewrite decide_False.
Qed.
End Saved.

(** ** Two deletions *)

Definition prepared_input (op : string) : CreateConfirmationInput :=
  {| in_sessionId := u "s"; in_workspaceId := u "w"; in_adminUserId := u "a"; in_risk := VArr [];
     in_preview := VObj []; in_operation := VObj [(u "operationId", VStr (u op)); (u "actionName", VStr (u "delete_tag"))];
     in_installationGeneration := Some 1; in_sessionSecret := u "k"; in_ttlMs := None; in_agentState := None;
     in_actionFingerprint := Some (u "f"); in_catalogHash := Some (u "c"); in_capabilityId := None;
     in_capabilityHash := None; in_discriminators := batch_provenance.(discriminator); in_batchId := None;
     operationBindingHash := None |}.
Definition preview_of (op pid : string) : PendingConfirmationRecord :=
  match createPendingConfirmation demo_digest (prepared_input op) 900 (u pid) (u "n") (u "uuid") with
  | Ok r => r
  | Throw _ => demo_record
  end.
Definition write_of (op pid : string) (calls : Z) : PreparedAssistantWriteInput :=
  let r := preview_of op pid in
  {| operationRun :=
       {| run_in_id := Some (u op); run_in_requestId := None; run_in_confirmationId := Some (u pid);
          run_in_sessionId := u "s"; run_in_workspaceId := u "w"; run_in_adminUserId := u "a";
          run_in_actionName := u "delete_tag"; run_in_actionFingerprint := u "f"; run_in_catalogHash := u "c";
          run_in_operationHash := r.(operationHash); run_in_operation := VObj []; run_in_mutationPlan := demo_plan;
          run_in_capabilityId := None; run_in_capabilityHash := None;
          run_in_discriminator := Some (batch_provenance.(discriminator), None) |};
     confirmation := r; hostCalls := calls; event_batch := None |}.

Definition two_writes : list PreparedAssistantWriteInput := [write_of "o1" "c1" 2; write_of "o2" "c2" 2].
Definition prepare_writes (ws : list PreparedAssistantWriteInput) (d : db) : result (PreparedBatchResult * db) :=
  prepareAssistantWriteBatchWithEvents demo_digest demo_scope demo_state ws (Some demo_batch_input) 900 (λ _, u "x") (u "b") d.
Definition two_prepared : PreparedBatchResult * db :=
  match prepare_writes two_writes started_db with
  | Ok r => r
  | Throw _ => ({| saved_state := demo_state; saved_events := []; saved_items := []; saved_batch := None |}, empty_db)
  end.

Lemma preparation_atomic_witness :
  saved_items two_prepared.1 = demo_members ∧
  Forall2 (saved_write (Some (u "b")) 900 two_prepared.2) two_writes demo_members ∧
  waits_for demo_scope demo_members (Some (u "b")) two_prepared.2.
Proof.
  split; [by vm_compute|].
  assert (saved_items two_prepared.1 = demo_members) as Ei by by vm_compute.
  assert (saved_batch two_prepared.1 = Some (u "b")) as Eb by by vm_compute.
  assert (scoped_run demo_scope started_db = Some (started_run demo_start 5)) as Er by by vm_compute.
  assert (prepare_writes two_writes started_db = Ok (two_prepared.1, two_prepared.2)) as H by (vm_compute; reflexivity).
  pose proof (preparation_atomic demo_digest demo_scope demo_state two_writes (Some demo_batch_input) 900 (λ _, u "x") (u "b")
    started_db two_prepared.1 two_prepared.2 (started_run demo_start 5) started_journal_ok Er ltac:(discriminate) H) as HP.
  clear H Er. rewrite Ei, Eb in HP. destruct HP as (HF & _ & _ & _ & _ & HW & _). exact (conj HF HW).
Defined.

(** The reservation is made on the state read before the previews were built.  Host calls
    charged meanwhile are not in it: a run that read fifty times can reserve twenty more. *)
Definition fifty_reads : db :=
  Nat.iter 50 (λ d, match chargeRunHostCall demo_scope 6 d with Ok (_, d') => d' | Throw _ => d end) started_db.
Example stale_reservation :
  match prepare_writes [write_of "o1" "c1" 20] fifty_reads with
  | Ok (_, d) => (λ r, (ledger_used r, reserved_of r)) <$> scoped_run demo_scope d
  | Throw _ => None
  end = Some (50, 20) ∧ RunBudget.V2_LIMITS.(RunBudget.maxHostCalls) = 60.
Proof. by vm_compute. Qed.
