(* ===== verification/TargetSnapshots.v ===== *)
(** * Verified targets

    [harness/target-snapshots.ts]: what a preview saw of its targets, and the check just
    before a dispatch that they are still so; [harness/verified-mutation-step.ts] and
    [harness/durable-risky-write.ts]: the steps behind that check; and
    [harness/reconciliation.ts]: the verdict on an ambiguous mutation from evidence that is
    only read.  [sha256] and the name folding of the platform are arguments. *)
From S2P Require Import Prelude Js SafeJson Db Plan Journal Effects MutationScope PlanScope Receipts Workflow WorkflowResults.
From S2P Require HostBudget SafetyLimits World Scenarios.
Open Scope Z_scope.
#[local] Arguments u : simpl never.

(** ** Snapshots *)

Inductive SnapshotRelation : Set := relation_target | relation_parent.
#[export] Instance relation_dec : EqDecision SnapshotRelation.
Proof. solve_decision. Defined.

Record TargetSnapshot := {
  relation : SnapshotRelation;
  snapshot_ref : EntityRef;
  projection : jsval;
  fingerprint : jstr;
}.

(** What a fresh read gives: [None] for a projection that is not there. *)
Record SnapshotEvidence := {
  evidence_ref : EntityRef;
  evidence_projection : option jsval;
  evidence_truncated : bool;
}.

Inductive SnapshotVerification : Type :=
| verified_ok
| verified_stale (parent : bool).     (** [stale_parent] or [stale_target] *)

Definition stale_code (parent : bool) : string := if parent then "stale_parent" else "stale_target".
Definition verification_message (v : SnapshotVerification) : jstr :=
  match v with
  | verified_ok => []
  | verified_stale true => u "The target parent changed or could not be verified. Create a fresh preview."
  | verified_stale false => u "The target changed or could not be verified. Create a fresh preview."
  end.

Section Snapshots.
Context (sha256 : jstr → jstr).

Definition captureTargetSnapshot (r : SnapshotRelation) (ref : EntityRef) (p : jsval) : TargetSnapshot :=
  {| relation := r; snapshot_ref := ref; projection := boundedSanitizedJson p 65536;
     fingerprint := sanitizedFingerprint sha256 p |}.

Definition is_stale (x : TargetSnapshot) (e : option SnapshotEvidence) : bool :=
  match e with
  | None => true
  | Some e =>
      e.(evidence_truncated) ||
      match e.(evidence_projection) with
      | None => true
      | Some p =>
          negb (bool_decide (e.(evidence_ref).(ref_type) = x.(snapshot_ref).(ref_type))) ||
          negb (bool_decide (e.(evidence_ref).(ref_entity) = x.(snapshot_ref).(ref_entity))) ||
          negb (bool_decide (sanitizedFingerprint sha256 p = x.(fingerprint)))
      end
  end.

Section Verify.
Context {S : Type} (fetch : TargetSnapshot → E S (option SnapshotEvidence)).

Fixpoint verify_each (l : list TargetSnapshot) : E S SnapshotVerification :=
  match l with
  | [] => eret verified_ok
  | x :: l =>
      let* e := etry (fetch x) (λ _, eret None) in
      if is_stale x e then eret (verified_stale (bool_decide (x.(relation) = relation_parent)))
      else verify_each l
  end.
Definition verifyTargetSnapshots (l : list TargetSnapshot) : E S SnapshotVerification :=
  match l with [] => eret (verified_stale false) | _ => verify_each l end.
End Verify.

(** ** Resolving a target an admin named *)

Record ProjectedRow := { projected_id : jstr; projected_name : option jstr; projected_projection : option jsval }.
Inductive TargetResolution (T : Type) : Type :=
| resolved_target (ref : EntityRef) (row : T) (p : jsval)
| target_failed (code : string).
Arguments resolved_target {T}. Arguments target_failed {T}.

(** [/^[a-f0-9]{24}$/i] *)
Definition is_hex (c : N) : bool :=
  (((48 <=? c) && (c <=? 57)) || ((97 <=? c) && (c <=? 102)) || ((65 <=? c) && (c <=? 70)))%N.
Definition DIRECT_ID (s : jstr) : bool := bool_decide (length s = 24%nat) && forallb is_hex s.

(** [projected.projection ?? projected] *)
Definition row_projection (p : ProjectedRow) : jsval :=
  match p.(projected_projection) with
  | Some VNull | Some VUndef | None =>
      VObj ((u "id", VStr p.(projected_id)) ::
            match p.(projected_name) with Some n => [(u "name", VStr n)] | None => [] end ++
            match p.(projected_projection) with Some v => [(u "projection", v)] | None => [] end)
  | Some v => v
  end.

Section Resolve.
Context {S T : Type} (normalizedName : jstr → jstr) (requested type : jstr).
Context (fetchById : jstr → E S (option T)) (searchByName : jstr → E S (list T * bool)) (project : T → ProjectedRow).

Definition resolved (row : T) : TargetResolution T :=
  let p := project row in
  resolved_target {| ref_type := type; ref_entity := p.(projected_id);
                     ref_name := if truthy p.(projected_name) then p.(projected_name) else None;
                     ref_projectId := None |}
    row (sanitizeCompleteJson (row_projection p)).

Definition named_so (row : T) : bool :=
  match (project row).(projected_name) with
  | Some n => bool_decide (normalizedName n = normalizedName requested)
  | None => false
  end.

Definition resolveAuthoritativeTarget : E S (TargetResolution T) :=
  if DIRECT_ID requested then
    let* row := fetchById requested in
    match row with
    | None => eret (target_failed "target_not_found")
    | Some row =>
        if bool_decide ((project row).(projected_id) = []) || negb (bool_decide ((project row).(projected_id) = requested))
        then eret (target_failed "target_not_found") else eret (resolved row)
    end
  else
    let* found := searchByName requested in
    if found.2 then eret (target_failed "target_evidence_incomplete")
    else match filter (λ row, named_so row = true) found.1 with
    | [] => eret (target_failed "target_not_found")
    | [row] => if bool_decide ((project row).(projected_id) = []) then eret (target_failed "target_not_found")
               else eret (resolved row)
    | _ => eret (target_failed "target_ambiguous")
    end.
End Resolve.
End Snapshots.
Arguments resolved_target {T}. Arguments target_failed {T}.

(** ** A local variable of a computation

    [executeVerifiedMutationStep] declares [let verification] and writes it from a closure
    the step executor calls: the executor runs on a state with that variable as one more
    component. *)

Section Local.
Context {S V : Type}.

Definition lifted {A} (c : E S A) : E (S * V) A := λ x, let '(r, s) := c x.1 in (r, (s, x.2)).
Definition assign (v : V) : E (S * V) unit := λ x, (inr tt, (x.1, v)).

#[local] Instance local_host `{!MutationHost S} : MutationHost (S * V).
Proof.
  refine {| scope_of x := scope_of x.1; set_scope c x := (set_scope c x.1, x.2);
            budget_of x := budget_of x.1; set_budget b x := (set_budget b x.1, x.2) |};
    intros; [apply scope_set|apply scope_budget|apply budget_set|apply budget_scope].
Defined.

#[local] Instance local_journal `{!MutationStepJournal S} : MutationStepJournal (S * V) := {|
  journal_operationId := journal_operationId;
  getOperationStatus := lifted getOperationStatus;
  prepareOperationStep i := lifted (prepareOperationStep i);
  markOperationStepExecuting id := lifted (markOperationStepExecuting id);
  markOperationStepDispatched id := lifted (markOperationStepDispatched id);
  cancelOperationStepBeforeDispatch id v := lifted (cancelOperationStepBeforeDispatch id v);
  settleOperationStep id o d := lifted (settleOperationStep id o d);
  settleOperationStepDegraded id o e v := lifted (settleOperationStepDegraded id o e v);
  prepareCompensationStep i := lifted (prepareCompensationStep i);
  markOperationStepCompensating id := lifted (markOperationStepCompensating id);
  settleCompensationStep id o d := lifted (settleCompensationStep id o d);
  settleCompensationStepDegraded id o e v := lifted (settleCompensationStepDegraded id o e v);
  listOperationSteps := lifted listOperationSteps;
|}.

Definition local_hooks (h : ScopeHooks S) : ScopeHooks (S * V) :=
  {| authorizeDispatch x := lifted (h.(authorizeDispatch) x); onDispatch x := lifted (h.(onDispatch) x);
     compensationEligible id := lifted (h.(compensationEligible) id);
     authoritativelyReconciled id := lifted (h.(authoritativelyReconciled) id) |}.

(** Run [c] with the variable initialised, and hand back its last value. *)
Definition with_local {A} (v : V) (c : E (S * V) A) : E S (A * V) := λ s,
  let '(r, x) := c (s, v) in (match r with inr a => inr (a, x.2) | inl e => inl e end, x.1).
End Local.

(** ** A step behind the check *)

Definition bounded_snapshot (x : TargetSnapshot) : TargetSnapshot :=
  {| relation := x.(relation); snapshot_ref := x.(snapshot_ref);
     projection := boundedSanitizedJson x.(projection) 65536; fingerprint := x.(fingerprint) |}.
Definition snapshot_value (x : TargetSnapshot) : jsval :=
  VObj [(u "relation", str (match x.(relation) with relation_target => "target" | relation_parent => "parent" end));
        (u "ref", ref_value x.(snapshot_ref)); (u "projection", x.(projection)); (u "fingerprint", VStr x.(fingerprint))].
(** [{ ...preparedDetail, targetSnapshots }]; the members of an array are its indices. *)
Definition snapshot_detail (prepared : jsval) (l : list TargetSnapshot) : jsval :=
  VObj (fields_set (u "targetSnapshots") (VArr (snapshot_value <$> l))
    (match prepared with
     | VArr l => imap (λ i v, (digits (N.of_nat i), v)) l
     | _ => spread_fields prepared
     end)).

Section Step.
Context {S : Type} (sha256 : jstr → jstr) (hooks : ScopeHooks S).
Context (fetchSnapshot : TargetSnapshot → E S (option SnapshotEvidence)).

(** The callback of the step: the check, then the host. *)
Definition verified_dispatch (id : jstr) (l : list TargetSnapshot) (host : E S StepDetail)
    : E (S * SnapshotVerification) StepDetail :=
  let* v := lifted (verifyTargetSnapshots sha256 fetchSnapshot l) in
  let* _ := assign v in
  match v with
  | verified_stale parent => ethrow (DefinitiveWriteFailure (u "VERIFY") id (u (stale_code parent)) None)
  | verified_ok => lifted host
  end.

(** The step of the input with its callback replaced. *)
Definition verified_step (x : ExecutableMutationStep S) (l : list TargetSnapshot)
    : ExecutableMutationStep (S * SnapshotVerification) :=
  {| exec_id := x.(exec_id); exec_index := x.(exec_index); exec_name := x.(exec_name); exec_kind := x.(exec_kind);
     exec_targetFingerprint := x.(exec_targetFingerprint);
     exec_preparedDetail := snapshot_detail x.(exec_preparedDetail) l;
     exec_compensatesStepId := x.(exec_compensatesStepId);
     dispatch := verified_dispatch x.(exec_id) l x.(dispatch) |}.

Definition executeVerifiedMutationStep `{!MutationHost S} (j : MutationStepJournal S) (operationId : jstr)
    (x : ExecutableMutationStep S) (snapshots : list TargetSnapshot) : E S (JournaledMutationStep * SnapshotVerification) :=
  with_local verified_ok
    (executeStep (MutationHost0 := local_host) (MutationStepJournal0 := local_journal)
       (local_hooks hooks) operationId (verified_step x (bounded_snapshot <$> snapshots))).
End Step.

(** ** Risky writes of one step *)

Section Risky.
Context {S : Type} `{!MutationHost S} (sha256 : jstr → jstr) (hooks : ScopeHooks S) (new_date : E S Z).
(** The context's journal, and the operation that is committed. *)
Context (journal : option (MutationStepJournal S)) (operation : ConfirmableOperation).

Definition syntheticStep (planStepId : jstr) (index : nat) (name : jstr) (status : StepStatus)
    (outcome : option StepDetail) : E S JournaledMutationStep :=
  let* now := new_date in
  let member (f : StepDetail → jsval) :=
    match outcome with Some o => if is_undef (f o) then None else Some (f o) | None => None end in
  eret (u "legacy:" ++ operation.(op_operationId) ++ u ":" ++ planStepId,
    {| identity := {| operation_id := operation.(op_operationId); step_index := Z.of_nat index; plan_step_id := planStepId;
                      step_name := name; step_kind := primary; target_fingerprint := None; compensates_step_id := None;
                      step_created_at := now |};
       step_status := status; external_id := (o ← outcome; o.(detail_externalId)); effect_json := member detail_effect;
       detail_json := member detail_detail; queued_at := None; dispatched_at := None; settled_at := None;
       step_updated_at := now |}).

Definition plannedPrimary (planStepId : jstr) (index : nat) : E S SafetyLimits.ExternalMutationPlanStep :=
  match (p ← operation.(op_mutationPlan); SafetyLimits.steps p !! index) with
  | Some x =>
      ensure* bool_decide (SafetyLimits.plan_step_id x = planStepId) &&
              match SafetyLimits.plan_step_kind x with SafetyLimits.Primary => true | _ => false end
        else "invalid_mutation_plan" in eret x
  | None => error "invalid_mutation_plan"
  end.

Definition risky_step (planStepId name : jstr) (index : nat) (p : SafetyLimits.ExternalMutationPlanStep) (detail : jsval)
    (host : E S StepDetail) : ExecutableMutationStep S :=
  {| exec_id := planStepId; exec_index := index; exec_name := name; exec_kind := primary;
     exec_targetFingerprint := if truthy (SafetyLimits.plan_target_fingerprint p)
                               then SafetyLimits.plan_target_fingerprint p else None;
     exec_preparedDetail := detail; exec_compensatesStepId := None; dispatch := host |}.

(** A thrown dispatch without a journal. *)
Definition legacy_status (e : failure) : StepStatus :=
  match e with DefinitiveWriteFailure _ _ _ _ => StepDefinitiveFailed | _ => StepOutcomeUnknown end.
Definition legacy_detail (e : failure) : StepDetail :=
  {| detail_externalId := None; detail_effect := VUndef; detail_detail := VObj [(u "type", VStr (error_name e))] |}.

Definition executeDurableRiskyStep (planStepId : jstr) (index : nat) (name : jstr) (preparedDetail : jsval)
    (host : E S StepDetail) : E S JournaledMutationStep :=
  let* p := plannedPrimary planStepId index in
  match journal with
  | Some j => executeStep (MutationStepJournal0 := j) hooks operation.(op_operationId)
                (risky_step planStepId name index p preparedDetail host)
  | None =>
      let* out := eattempt host in
      match out with
      | inr o => syntheticStep planStepId index name StepSucceeded
                   (Some (if is_undef preparedDetail then o else with_detail preparedDetail o))
      | inl e => syntheticStep planStepId index name (legacy_status e) (Some (legacy_detail e))
      end
  end.

Record Verification := { snapshots : list TargetSnapshot; fetchSnapshot : TargetSnapshot → E S (option SnapshotEvidence) }.

(** Without a journal the check comes first. *)
Definition early_check (v : option Verification) : E S (option bool) :=
  match v, journal with
  | Some v, _ =>
      match v.(snapshots), journal with
      | [], _ => eret (Some false)
      | l, None =>
          let* r := verifyTargetSnapshots sha256 v.(fetchSnapshot) l in
          eret (match r with verified_ok => None | verified_stale parent => Some parent end)
      | _, Some _ => eret None
      end
  | None, _ => eret None
  end.

Definition verified_or_plain (v : option Verification) (planStepId name : jstr)
    (p : SafetyLimits.ExternalMutationPlanStep) (host : E S StepDetail) : E S (JournaledMutationStep * SnapshotVerification) :=
  match v, journal with
  | Some v, Some j =>
      executeVerifiedMutationStep sha256 hooks v.(fetchSnapshot) j operation.(op_operationId)
        (risky_step planStepId name 0 p VUndef host) v.(snapshots)
  | _, _ => let* x := executeDurableRiskyStep planStepId 0 name VUndef host in eret (x, verified_ok)
  end.

Definition stale_receipt (parent : bool) : jsval :=
  errorReceipt operation.(op_actionName) (u (stale_code parent))
    (if parent then u "The target parent changed or could not be verified. No Clockify mutation was sent."
     else u "The target changed or could not be verified. No Clockify mutation was sent.")
    (recovery_hint (u "Refresh the target and create a fresh preview.") true).
Definition risky_receipt (success : JournaledMutationStep → jsval) (x : JournaledMutationStep) : jsval :=
  match x.2.(step_status) with
  | StepSucceeded =>
      let receipt := success x in if isJournalDegradedStep x then withJournalDegradedWarning receipt else receipt
  | StepOutcomeUnknown =>
      error_receipt operation.(op_actionName) "commit_outcome_unknown"
        "Clockify did not provide a definitive response, so the change may or may not have been applied."
        "Verify the exact target in Clockify before deciding whether to try again." false
  | _ =>
      error_receipt operation.(op_actionName) "write_failed" "Clockify definitively rejected this change."
        "Correct the request and preview it again." true
  end.

Definition commitSingleDurableRiskyStep (planStepId name : jstr) (host : E S StepDetail)
    (success : JournaledMutationStep → jsval) (v : option Verification) : E S jsval :=
  let* early := early_check v in
  let* p := plannedPrimary planStepId 0 in
  match early with
  | Some parent => eret (stale_receipt parent)
  | None =>
      let* r := verified_or_plain v planStepId name p host in
      match r.2 with
      | verified_stale parent => eret (stale_receipt parent)
      | verified_ok => eret (risky_receipt success r.1)
      end
  end.
End Risky.

(** ** What a check means *)

Section Checked.
Context {S : Type} (sha256 : jstr → jstr) (fetch : TargetSnapshot → E S (option SnapshotEvidence)).

(** Fresh evidence of the same entity, with the same complete projection. *)
Definition evidence_matches (x : TargetSnapshot) (e : SnapshotEvidence) : Prop :=
  e.(evidence_truncated) = false ∧ e.(evidence_ref).(ref_type) = x.(snapshot_ref).(ref_type) ∧
  e.(evidence_ref).(ref_entity) = x.(snapshot_ref).(ref_entity) ∧
  ∃ p, e.(evidence_projection) = Some p ∧ sanitizedFingerprint sha256 p = x.(fingerprint).

(** Every snapshot was read again, in order, and matched. *)
Fixpoint all_read (l : list TargetSnapshot) (s s' : S) : Prop :=
  match l with
  | [] => s' = s
  | x :: l => ∃ e s1, fetch x s = (inr (Some e), s1) ∧ evidence_matches x e ∧ all_read l s1 s'
  end.

Lemma stale_spec x e : is_stale sha256 x e = false ↔ ∃ ev, e = Some ev ∧ evidence_matches x ev.
Proof.
  unfold is_stale, evidence_matches. destruct e as [e|]; [|naive_solver].
  destruct (evidence_projection e) as [p|] eqn:Ep.
  - rewrite !orb_false_iff, !negb_false_iff, !bool_decide_eq_true. split.
    + intros (H1 & (H2 & H3) & H4). exists e. split_and!; try done. by exists p.
    + intros (ev & [= <-] & H1 & H2 & H3 & q & Hq & H4). rewrite Ep in Hq. injection Hq as <-. by split_and!.
  - rewrite orb_true_r. split; [done|]. intros (ev & [= <-] & _ & _ & _ & q & Hq & _). congruence.
Qed.

Lemma verify_ok l s s' : verifyTargetSnapshots sha256 fetch l s = (inr verified_ok, s') ↔ l ≠ [] ∧ all_read l s s'.
Proof.
  assert (verify_each sha256 fetch l s = (inr verified_ok, s') ↔ all_read l s s') as H.
  { revert s. induction l as [|x l IH]; intros s; simpl; [unfold eret; split; [by intros [= ->]|by intros ->]|].
    unfold ebind, etry. destruct (fetch x s) as [[e|e] s1] eqn:Ef.
    - simpl. split; [by destruct (bool_decide _)|naive_solver].
    - destruct (is_stale sha256 x e) eqn:Est.
      + split; [by intros [=]|]. intros (ev & s2 & [= -> <-] & Hm & _).
        assert (is_stale sha256 x (Some ev) = false) by (apply stale_spec; eauto). congruence.
      + rewrite IH. apply stale_spec in Est as (ev & -> & Hm). split; [eauto|]. by intros (? & ? & [= -> <-] & _ & ?). }
  unfold verifyTargetSnapshots. destruct l; [|rewrite H; naive_solver]. unfold eret. split; [done|by intros [? _]].
Qed.

(** The first snapshot that was read and did not match, or could not be read. *)
Definition first_mismatch (l : list TargetSnapshot) (parent : bool) (s : S) : Prop :=
  ∃ before x after s1, l = before ++ x :: after ∧ all_read before s s1 ∧
    parent = bool_decide (x.(relation) = relation_parent) ∧
    match (fetch x s1).1 with inr (Some e) => ¬ evidence_matches x e | _ => True end.

Lemma verify_mismatch l : ∀ s parent s',
  verify_each sha256 fetch l s = (inr (verified_stale parent), s') → first_mismatch l parent s.
Proof.
  induction l as [|x l IH]; intros s parent s'; simpl; [done|]. unfold ebind, etry.
  destruct (fetch x s) as [[e|e] s1] eqn:Ef.
  - simpl. intros [= <- <-]. exists [], x, l, s. rewrite Ef. by split_and!.
  - destruct (is_stale sha256 x e) eqn:Est.
    + intros [= <- <-]. exists [], x, l, s. split_and!; try done. rewrite Ef. simpl. destruct e as [e|]; [|done].
      intros Hm. assert (is_stale sha256 x (Some e) = false) by (apply stale_spec; eauto). congruence.
    + intros (before & y & after & s2 & -> & Hb & Hp & Hy)%IH. apply stale_spec in Est as (ev & -> & Hm).
      exists (x :: before), y, after, s2. split_and!; try done. by exists ev, s1.
Qed.

(** The check never throws. *)
Lemma verify_total l s : ∃ v, (verifyTargetSnapshots sha256 fetch l s).1 = inr v.
Proof.
  assert (∀ s, ∃ v, (verify_each sha256 fetch l s).1 = inr v) as H.
  { induction l as [|x l IH]; intros t; simpl; [by eexists|]. unfold ebind, etry.
    destruct (fetch x t) as [[e|e] t1]; simpl; [by eexists|]. destruct (is_stale _ _ _); [by eexists|apply IH]. }
  unfold verifyTargetSnapshots. destruct l; [by eexists|apply H].
Qed.

Lemma verify_same {T} (f : S → T) l : (∀ x, respects (λ s s', f s' = f s) (fetch x)) →
  ∀ s, f (verifyTargetSnapshots sha256 fetch l s).2 = f s.
Proof.
  intros Hf. assert (∀ s, f (verify_each sha256 fetch l s).2 = f s) as H.
  { induction l as [|x l IH]; intros t; simpl; [done|]. unfold ebind, etry. specialize (Hf x t).
    destruct (fetch x t) as [[e|e] t1]; simpl in *; [done|]. destruct (is_stale _ _ _); simpl; [done|]. by rewrite IH. }
  intros s. unfold verifyTargetSnapshots. destruct l; [done|apply H].
Qed.
End Checked.

(** What the scope of the plan makes of the outcome of a callback: it passes it on, or
    fails a call that returned, or replaces it by a violation. *)
Definition told_of {A} (o out : failure + A) : Prop :=
  out = o ∨ ∃ e, out = inl e ∧ ((∃ a, o = inr a) ∨ ∃ m, e = MutationPlanViolation m).

(** The scope of the plan does not let this primary begin. *)
Definition entry_refused {S : Type} `{!MutationHost S} (id : jstr) (index : nat) (s : S) : Prop :=
  ∃ sc m, scope_of s = Some sc ∧ enter_refusal sc id index primary = Some m.

(** A primary step: refused by the plan, or its callback ran once. *)
Lemma primary_runs {S A T : Type} `{!MutationHost S} (hooks : ScopeHooks S) (g : S → T) id index (run : E S A) s out s' :
  (∀ c s, g (set_scope c s) = g s) → withMutationPlanStep hooks id index primary run s = (out, s') →
  (g s' = g s ∧ ∃ m, out = inl (MutationPlanViolation m) ∧ entry_refused id index s) ∨
  ∃ s1 o s2, g s1 = g s ∧ run s1 = (o, s2) ∧ g s' = g s2 ∧ told_of o out.
Proof.
  intros Hg. unfold withMutationPlanStep. destruct (scope_of s) as [sc|] eqn:Es.
  2: { intros H. right. exists s, out, s'. split_and!; try done. by left. }
  rewrite bool_decide_false by (intros [_ ?]; done). unfold ebind at 1, eret at 1. unfold ebind at 1. rewrite (on_scope_some _ _ _ Es).
  unfold enter_step. destruct (enter_refusal sc id index primary) as [[m b]|] eqn:Een.
  { simpl. intros [= <- <-]. left. rewrite Hg. split; [done|]. eexists. split; [done|]. by eexists sc, _. }
  rewrite bool_decide_false by done. simpl. unfold ebind, eattempt.
  set (s1 := set_scope _ s). destruct (run s1) as [o s2] eqn:Er. unfold on_scope. intros H. right. exists s1, o, s2.
  split; [apply Hg|]. split; [done|]. destruct (scope_of s2) as [sc2|].
  - destruct (finish_step sc2 index o) as [r sc3] eqn:Ef. injection H as <- <-. split; [apply Hg|].
    unfold finish_step in Ef. destruct (_ !! index) as [x|]; [|injection Ef as <- _; by left].
    destruct o as [e|a]; [injection Ef as <- _; by left|].
    destruct (bool_decide _); [injection Ef as <- _; right; eauto|].
    destruct (negb _); [injection Ef as <- _; right; eauto|]. injection Ef as <- _. by left.
  - unfold scope_required, ethrow in H. injection H as <- <-. split; [done|]. right. eexists. split; [done|]. right. by eexists.
Qed.

(** ** What a verified step guarantees *)

Section Guarantee.
Context {S T : Type} `{!MutationHost S} (sha256 : jstr → jstr) (hooks : ScopeHooks S).
Context (fetch : TargetSnapshot → E S (option SnapshotEvidence)).
Context (j : MutationStepJournal S) `{!JournalLaws S} (operationId : jstr).
(** An observation of the host that the journal, the scope and the reads leave alone. *)
Context (f : S → T) (Hf : Untouched f) (Hscope : ∀ c s, f (set_scope c s) = f s).
Context (Hreads : ∀ x, respects (λ s s', f s' = f s) (fetch x)).

#[local] Instance local_laws {V} : @JournalLaws (S * V) (local_journal (MutationStepJournal0 := j)).
Proof.
  refine {| listing x := listing x.1 |}; unfold lifted.
  - intros [s v]. simpl. unfold lifted. simpl. by rewrite listing_read.
  - intros id [s v] [s' v'] H. simpl in H. unfold lifted in H. simpl in H.
    destruct (markOperationStepExecuting id s) as [r t] eqn:E. injection H as -> -> <-. by eapply executing_listed.
  - intros id w [s v] [s' v'] H. simpl in H. unfold lifted in H. simpl in H.
    destruct (cancelOperationStepBeforeDispatch id w s) as [r t] eqn:E. injection H as -> -> <-. by eapply cancelled_listed.
  - intros id o w [s v] [s' v'] H. simpl in H. unfold lifted in H. simpl in H.
    destruct (settleOperationStep id o w s) as [r t] eqn:E. injection H as -> -> <-. by eapply settled_listed.
  - intros id o e w [s v] [s' v'] H. simpl in H. unfold lifted in H. simpl in H.
    destruct (settleOperationStepDegraded id o e w s) as [r t] eqn:E. injection H as -> -> <-. by eapply degraded_listed.
  - intros id [s v] [s' v'] H. simpl in H. unfold lifted in H. simpl in H.
    destruct (markOperationStepCompensating id s) as [r t] eqn:E. injection H as -> -> <-. by eapply compensating_listed.
  - intros id o w [s v] [s' v'] H. simpl in H. unfold lifted in H. simpl in H.
    destruct (settleCompensationStep id o w s) as [r t] eqn:E. injection H as -> -> <-. by eapply compensated_listed.
Defined.

(** The observation, and the variable. *)
Definition observe {V} (x : S * V) : T * V := (f x.1, x.2).

Lemma lifted_same {V A} (c : E S A) :
  respects (λ s s', f s' = f s) c → respects (λ x x' : S * V, observe x' = observe x) (lifted c).
Proof. intros H [s v]. unfold lifted, observe. specialize (H s). simpl. destruct (c s). simpl in *. by rewrite H. Qed.
Lemma local_untouched {V} : @Untouched (S * V) (T * V) (local_journal (MutationStepJournal0 := j)) observe.
Proof. destruct Hf. split; intros; by apply lifted_same. Qed.

(** The check held, in order and last of all, right before the host was called. *)
Definition checked_dispatch (l : list TargetSnapshot) (host : E S StepDetail) (s : S) (o : failure + StepDetail) (s' : S) : Prop :=
  ∃ s0 s1 s2, f s0 = f s ∧ l ≠ [] ∧ all_read sha256 fetch l s0 s1 ∧ f s1 = f s ∧ host s1 = (o, s2) ∧ f s' = f s2.

Lemma verified_run id l host x o x' :
  verified_dispatch sha256 fetch id l host x = (o, x') →
  f x'.1 = f x.1 ∧ (∃ parent, x'.2 = verified_stale parent ∧ (l = [] ∨ first_mismatch sha256 fetch l parent x.1) ∧
    o = inl (DefinitiveWriteFailure (u "VERIFY") id (u (stale_code parent)) None)) ∨
  x'.2 = verified_ok ∧ checked_dispatch l host x.1 o x'.1.
Proof.
  destruct x as [s v0]. unfold verified_dispatch. unfold ebind at 1, lifted at 1. simpl.
  pose proof (verify_same sha256 fetch f l Hreads s) as Hs. destruct (verify_total sha256 fetch l s) as [v Hv].
  destruct (verifyTargetSnapshots sha256 fetch l s) as [r s1] eqn:E. simpl in Hs, Hv. subst r.
  unfold ebind, assign. simpl. destruct v as [|parent].
  - unfold lifted. simpl. destruct (host s1) as [o2 s2] eqn:Eh. intros [= <- <-]. right. split; [done|].
    apply verify_ok in E as [Hl Hr]. by exists s, s1, s2.
  - intros [= <- <-]. left. split; [done|]. exists parent. split_and!; try done.
    unfold verifyTargetSnapshots in E. destruct l; [by left|right]. by eapply verify_mismatch.
Qed.

(** The status a journaled step ends with: a cancellation is definitive only on the journal's
    proof that nothing was dispatched. *)
Definition ends_as {A} (out : failure + A) (st : StepStatus) : Prop :=
  match out with
  | inr _ => st = StepSucceeded
  | inl HostRequestCancelledError => st = StepOutcomeUnknown ∨ st = StepDefinitiveFailed
  | inl e => st = if definitive e then StepDefinitiveFailed else StepOutcomeUnknown
  end.


(** The step behind the check, as its callers see it. *)
Lemma verified_step_ok x l s r s' :
  executeVerifiedMutationStep sha256 hooks fetch j operationId x l s = (r, s') →
  (f s' = f s ∧ match r with
     | inr (z, v) => z.2.(step_status) = StepDefinitiveFailed ∧
         match v with
         | verified_stale parent => l = [] ∨ ∃ s0, f s0 = f s ∧ first_mismatch sha256 fetch (bounded_snapshot <$> l) parent s0
         | verified_ok => ∃ s0, f s0 = f s ∧ entry_refused x.(exec_id) x.(exec_index) s0
         end
     | inl _ => True
     end) ∨
  ∃ o, checked_dispatch (bounded_snapshot <$> l) x.(dispatch) s o s' ∧
    match r with
    | inr (z, v) => v = verified_ok ∧ ∃ out, told_of o out ∧ ends_as out z.2.(step_status)
    | inl _ => True
    end.
Proof.
  unfold executeVerifiedMutationStep, with_local.
  destruct (executeStep _ _ _ (s, verified_ok)) as [r0 x1] eqn:E. intros [= <- <-].
  eapply (execute_step_exact (MutationHost0 := local_host) (MutationStepJournal0 := local_journal) (JournalLaws0 := local_laws) _ _ observe) in E; [|apply local_untouched].
  destruct E as [(e & _ & -> & Ho)|(p & y & xa & out & xb & _ & Ha & _ & _ & Hrun & Hb & Hres)].
  - left. injection Ho as Ho _. by split.
  - apply (primary_runs (MutationHost0 := local_host) _ observe) in Hrun; [|by intros c [t v]; unfold observe; simpl; rewrite Hscope].
    assert (∀ z, r0 = inr z → ends_as out z.2.(step_status)) as Hends.
    { intros z ->. destruct Hres as [_ [->|(-> & -> & _)]]; [|by right].
      unfold ends_as. destruct out as [e|a]; [|done]. destruct e; simpl; try done; by left. }
    assert (∀ z e, r0 = inr z → out = inl e → definitive e = true → e ≠ HostRequestCancelledError →
      z.2.(step_status) = StepDefinitiveFailed) as Hdef.
    { intros z e Hz -> Hd Hne. specialize (Hends z Hz). destruct e; simpl in *; done. }
    destruct Hrun as [[Hsame (m & -> & Href)]|(xc & o & xd & Hc & Hcall & Hd & Htold)].
    + left. assert (observe x1 = observe (s, verified_ok)) as [= Hf1 Hv1] by congruence. split; [done|].
      destruct r0 as [e|z]; [done|]. rewrite Hv1. split; [by eapply Hdef|].
      exists xa.1. split; [by injection Ha|exact Href].
    + assert (observe xc = observe (s, verified_ok)) as [= Hfc Hvc] by congruence.
      assert (observe x1 = observe xd) as [= Hf1 Hv1] by congruence. simpl in Hcall.
      apply verified_run in Hcall as [(Hfd & parent & Hv & Hmis & ->)|(Hv & s0 & s1 & s2 & H0 & Hl & Hr & H1 & Hh & H2)].
      * left. split; [congruence|]. destruct r0 as [e|z]; [done|]. rewrite Hv1, Hv. simpl. split.
        -- destruct Htold as [->|(e & -> & [[a ?]|[m ->]])]; [|done|]; by eapply Hdef.
        -- destruct Hmis as [Hmis|Hmis]; [left; by apply fmap_nil_inv in Hmis|right; by exists xc.1].
      * right. exists o. split; [exists s0, s1, s2; split_and!; try done; congruence|].
        destruct r0 as [e|z]; [done|]. split; [congruence|]. exists out. split; [done|by apply Hends].
Qed.
End Guarantee.

Section Commit.
Context {S T : Type} `{!MutationHost S} (sha256 : jstr → jstr) (hooks : ScopeHooks S) (new_date : E S Z).
Context (j : MutationStepJournal S) `{!JournalLaws S} (operation : ConfirmableOperation).
Context (f : S → T) (Hf : Untouched f) (Hscope : ∀ c s, f (set_scope c s) = f s).

Lemma planned_primary_pure id index s r s' : plannedPrimary (S := S) operation id index s = (r, s') → s' = s.
Proof. unfold plannedPrimary, error, ethrow, eret. intros H. repeat case_match; by simplify_eq. Qed.

(** The three ways a commit answers, with their codes and texts. *)
Definition stale_answer (parent : bool) : jsval :=
  error_receipt operation.(op_actionName) (if parent then "stale_parent" else "stale_target")
    (if parent then "The target parent changed or could not be verified. No Clockify mutation was sent."
     else "The target changed or could not be verified. No Clockify mutation was sent.")
    "Refresh the target and create a fresh preview." true.
Definition rejected_answer : jsval :=
  error_receipt operation.(op_actionName) "write_failed" "Clockify definitively rejected this change."
    "Correct the request and preview it again." true.
Definition unknown_answer : jsval :=
  error_receipt operation.(op_actionName) "commit_outcome_unknown"
    "Clockify did not provide a definitive response, so the change may or may not have been applied."
    "Verify the exact target in Clockify before deciding whether to try again." false.

(** The answer that goes with what the step was told of its call. *)
Definition answers_outcome (success : JournaledMutationStep → jsval) (out : failure + StepDetail) (receipt : jsval) : Prop :=
  match out with
  | inr _ => ∃ z, z.2.(step_status) = StepSucceeded ∧
      receipt = if isJournalDegradedStep z then withJournalDegradedWarning (success z) else success z
  | inl HostRequestCancelledError => receipt = unknown_answer ∨ receipt = rejected_answer
  | inl e => receipt = if definitive e then rejected_answer else unknown_answer
  end.

Lemma risky_receipt_answers {success} z out :
  ends_as out z.2.(step_status) → answers_outcome success out (risky_receipt operation success z).
Proof.
  unfold ends_as, risky_receipt, answers_outcome. destruct out as [e|a].
  - destruct e; simpl; try (intros ->; done). intros [->| ->]; [by left|by right].
  - intros H. exists z. split; [done|]. by rewrite H.
Qed.

End Commit.

(** ** The verdict on an ambiguous mutation *)

Record ReconciliationBinding := {
  bind_operationId : jstr;
  bind_stepId : jstr;
  bind_actionName : jstr;
  bind_actionFingerprint : jstr;
  bind_catalogHash : jstr;
  bind_planStepId : option jstr;
  bind_strategy : option SafetyLimits.reconciliation_strategy;
}.
Record ReconciliationCandidate := { candidate_ref : jsval; candidate_projection : jsval }.
Record ReconciliationResult := {
  authoritative : bool;
  reason : string;
  result_binding : ReconciliationBinding;
  result_evidence : jsval;
}.

#[export] Instance strategy_dec : EqDecision SafetyLimits.reconciliation_strategy.
Proof. solve_decision. Defined.

(** A non-empty string of at most 256 units. *)
Definition ref_part (v : jsval) : bool :=
  match v with VStr t => negb (bool_decide (t = [])) && (Z.of_nat (length t) <=? 256) | _ => false end.

Definition safe_row (row : jsval) : option ReconciliationCandidate :=
  if negb (is_object row) then None else
  match fields_get (u "projection") (fields_of row) with
  | None => None
  | Some p =>
      let raw := prop (u "ref") row in
      if negb (is_object raw) then None
      else if negb (ref_part (prop (u "type") raw) && ref_part (prop (u "id") raw)) then None
      else if negb (is_object (sanitizeJson raw)) then None
      else Some {| candidate_ref := sanitizeJson raw; candidate_projection := sanitizeCompleteJson p |}
  end.

(** A valid row: an object with a projection of its own and a reference whose type and id are
    texts of 1 to 256 units; its candidate is the sanitized reference and projection. *)
Definition text_256 (v : jsval) : Prop := ∃ t, v = VStr t ∧ (1 ≤ length t ≤ 256)%nat.
Definition valid_row (row : jsval) (x : ReconciliationCandidate) : Prop :=
  is_object row = true ∧ is_object (prop (u "ref") row) = true ∧
  text_256 (prop (u "type") (prop (u "ref") row)) ∧ text_256 (prop (u "id") (prop (u "ref") row)) ∧
  is_object (sanitizeJson (prop (u "ref") row)) = true ∧
  ∃ p, fields_get (u "projection") (fields_of row) = Some p ∧
    x = {| candidate_ref := sanitizeJson (prop (u "ref") row); candidate_projection := sanitizeCompleteJson p |}.

Lemma ref_part_spec v : ref_part v = true ↔ text_256 v.
Proof.
  unfold ref_part, text_256. destruct v as [| | | |t| | | | |]; try (split; [done|by intros (? & ? & _)]).
  rewrite andb_true_iff, negb_true_iff, bool_decide_eq_false, Z.leb_le. split.
  - intros [H ?]. exists t. split; [done|]. destruct t; [done|simpl in *; lia].
  - intros (t' & [= <-] & H). split; [by intros ->; simpl in *; lia|lia].
Qed.
Lemma safe_row_spec row x : safe_row row = Some x ↔ valid_row row x.
Proof.
  unfold safe_row, valid_row. rewrite <- !ref_part_spec.
  destruct (is_object row); simpl; [|naive_solver].
  destruct (fields_get _ _) as [p|]; [|naive_solver].
  destruct (is_object (prop _ row)); simpl; [|naive_solver].
  destruct (ref_part (prop (u "type") _)); simpl; [|naive_solver].
  destruct (ref_part (prop (u "id") _)); simpl; [|naive_solver].
  destruct (is_object _); simpl; naive_solver.
Qed.

Lemma safe_rows_spec rows safeRows : mapM safe_row rows = Some safeRows ↔ Forall2 valid_row rows safeRows.
Proof.
  rewrite mapM_Some. split; intros H; (eapply Forall2_impl; [exact H|]); intros ? ?; by rewrite safe_row_spec.
Qed.

Section Reconcile.
Context {S : Type} (sha256 : jstr → jstr).
(** The two callbacks: the reads, and the test of a candidate. *)
Context (readEvidence : E S jsval) (matches : ReconciliationCandidate → failure + bool).

(** [safeRows.filter(matches)]: the first test that throws ends it. *)
Fixpoint matching (l : list ReconciliationCandidate) : option (list ReconciliationCandidate) :=
  match l with
  | [] => Some []
  | x :: l =>
      match matches x with
      | inl _ => None
      | inr b => rest ← matching l; Some (if b then x :: rest else rest)
      end
  end.

Definition decisive (strategy : SafetyLimits.reconciliation_strategy) (n : nat) : bool :=
  match strategy with SafetyLimits.StrategyDelete => bool_decide (n = 0%nat) | _ => bool_decide (n = 1%nat) end.

Definition match_evidence (rowCount : nat) (l : list ReconciliationCandidate) : jsval :=
  boundedSanitizedJson (VObj [(u "complete", VBool true); (u "rowCount", num (Z.of_nat rowCount));
    (u "matchCount", num (Z.of_nat (length l)));
    (u "candidates", VArr ((λ x, VObj [(u "ref", x.(candidate_ref));
       (u "fingerprint", VStr (sanitizedFingerprint sha256 x.(candidate_projection)))]) <$> l))]) 60000.

Definition reconcileExternalMutation (strategy : SafetyLimits.reconciliation_strategy) (binding : ReconciliationBinding)
    (actionFingerprint catalogHash : jstr) : E S ReconciliationResult :=
  let verdict a r e := {| authoritative := a; reason := r; result_binding := binding; result_evidence := e |} in
  let refused r k b := eret (verdict false r (VObj [(u k, VBool b)])) in
  if (match binding.(bind_strategy) with Some k => negb (bool_decide (k = strategy)) | None => false end)
  then refused "binding_mismatch" "compatible" false
  else if negb (bool_decide (actionFingerprint = binding.(bind_actionFingerprint)))
  then refused "action_fingerprint_drift" "compatible" false
  else if negb (bool_decide (catalogHash = binding.(bind_catalogHash)))
  then refused "catalog_hash_drift" "compatible" false
  else
    let* out := eattempt readEvidence in
    match out with
    | inl _ => refused "read_failed" "complete" false
    | inr v =>
        match prop (u "rows") v, prop (u "truncated") v with
        | VArr rows, VBool true => refused "incomplete_evidence" "complete" false
        | VArr rows, VBool false =>
            match mapM safe_row rows with
            | None => refused "invalid_evidence" "complete" true
            | Some safeRows =>
                match matching safeRows with
                | None => refused "evaluation_failed" "complete" true
                | Some l =>
                    let a := decisive strategy (length l) in
                    eret (verdict a (if a then "authoritative_match" else "non_unique_or_missing")
                            (match_evidence (length safeRows) l))
                end
            end
        | _, _ => refused "invalid_evidence" "complete" false
        end
    end.

Definition accepted (x : ReconciliationCandidate) : bool := match matches x with inr b => b | inl _ => false end.

(** The evidence of a read: complete, valid row by row, and tested throughout. *)
Definition complete_matches (v : jsval) (safeRows l : list ReconciliationCandidate) : Prop :=
  prop (u "truncated") v = VBool false ∧
  (∃ rows, prop (u "rows") v = VArr rows ∧ Forall2 valid_row rows safeRows) ∧
  (∀ x, x ∈ safeRows → ∃ b, matches x = inr b) ∧ l = filter (λ x, accepted x = true) safeRows.

Lemma matching_candidates rows l :
  matching rows = Some l ↔ (∀ x, x ∈ rows → ∃ b, matches x = inr b) ∧ l = filter (λ x, accepted x = true) rows.
Proof.
  revert l. induction rows as [|x rows IH]; intros l; simpl.
  - split; [intros [= <-]; split; [by intros ? ?%not_elem_of_nil|done]|by intros [_ ->]].
  - rewrite filter_cons. setoid_rewrite elem_of_cons.
    destruct (matches x) as [e|b] eqn:Ex; [split; [done|intros [H _]; destruct (H x (or_introl eq_refl)); congruence]|].
    assert (accepted x = b) as -> by (unfold accepted; by rewrite Ex). rewrite bind_Some. split.
    + intros (rest & [Hall ->]%IH & [= <-]). split; [intros y [->|Hy]; eauto|by destruct b].
    + intros [Hall ->]. exists (filter (λ x, accepted x = true) rows). split; [apply IH; auto|by destruct b].
Qed.

Lemma matching_total v safeRows l :
  complete_matches v safeRows l ↔
  ∃ rows, prop (u "truncated") v = VBool false ∧ prop (u "rows") v = VArr rows ∧
    mapM safe_row rows = Some safeRows ∧ matching safeRows = Some l.
Proof.
  unfold complete_matches. rewrite <- matching_candidates. split.
  - intros (? & (rows & ? & ?%safe_rows_spec) & ?). by exists rows.
  - intros (rows & ? & ? & ?%safe_rows_spec & ?). split_and!; try done. by exists rows.
Qed.

Lemma decisive_true strategy n :
  decisive strategy n = true ↔ n = match strategy with SafetyLimits.StrategyDelete => 0%nat | _ => 1%nat end.
Proof. destruct strategy; simpl; apply bool_decide_eq_true. Qed.

(** Why a verdict is refused before anything is read, and what a read is refused for. *)
Definition same_strategy (strategy : SafetyLimits.reconciliation_strategy) (binding : ReconciliationBinding) : Prop :=
  ∀ k, binding.(bind_strategy) = Some k → k = strategy.
Definition unbound (strategy : SafetyLimits.reconciliation_strategy) (binding : ReconciliationBinding)
    (fp catalog : jstr) (reason : string) : Prop :=
  (¬ same_strategy strategy binding ∧ reason = "binding_mismatch"%string) ∨
  (same_strategy strategy binding ∧ fp ≠ binding.(bind_actionFingerprint) ∧ reason = "action_fingerprint_drift"%string) ∨
  (same_strategy strategy binding ∧ fp = binding.(bind_actionFingerprint) ∧ catalog ≠ binding.(bind_catalogHash) ∧
   reason = "catalog_hash_drift"%string).
Definition listing_of (v : jsval) (rows : list jsval) (truncated : bool) : Prop :=
  prop (u "rows") v = VArr rows ∧ prop (u "truncated") v = VBool truncated.
Definition unproven (read : failure + jsval) (reason : string) (complete : bool) : Prop :=
  match read with
  | inl _ => reason = "read_failed"%string ∧ complete = false
  | inr v =>
      ((¬ ∃ rows b, listing_of v rows b) ∧ reason = "invalid_evidence"%string ∧ complete = false) ∨
      ((∃ rows, listing_of v rows true) ∧ reason = "incomplete_evidence"%string ∧ complete = false) ∨
      (∃ rows, listing_of v rows false ∧ complete = true ∧
         ((¬ (∃ safeRows, Forall2 valid_row rows safeRows) ∧ reason = "invalid_evidence"%string) ∨
          (∃ safeRows x e, Forall2 valid_row rows safeRows ∧ x ∈ safeRows ∧ matches x = inl e ∧
             reason = "evaluation_failed"%string)))
  end.

Lemma matching_throws rows : matching rows = None → ∃ x e, x ∈ rows ∧ matches x = inl e.
Proof.
  induction rows as [|x rows IH]; simpl; [done|]. destruct (matches x) as [e|b] eqn:Ex.
  - intros _. exists x, e. split; [by left|done].
  - destruct (matching rows); [done|]. intros _. destruct (IH eq_refl) as (y & e & Hy & He).
    exists y, e. split; [by right|done].
Qed.

Lemma reconcile_cases strategy binding fp catalog s :
  ∃ r s', reconcileExternalMutation strategy binding fp catalog s = (inr r, s') ∧ r.(result_binding) = binding ∧
  ((unbound strategy binding fp catalog r.(reason) ∧ r.(authoritative) = false ∧
    r.(result_evidence) = VObj [(u "compatible", VBool false)] ∧ s' = s) ∨
   (same_strategy strategy binding ∧ fp = binding.(bind_actionFingerprint) ∧ catalog = binding.(bind_catalogHash) ∧
    s' = (readEvidence s).2 ∧
    ((∃ complete, unproven (readEvidence s).1 r.(reason) complete ∧ r.(authoritative) = false ∧
        r.(result_evidence) = VObj [(u "complete", VBool complete)]) ∨
     ∃ v safeRows l, (readEvidence s).1 = inr v ∧ complete_matches v safeRows l ∧
       r.(authoritative) = decisive strategy (length l) ∧
       r.(reason) = (if r.(authoritative) then "authoritative_match" else "non_unique_or_missing")%string ∧
       r.(result_evidence) = match_evidence (length safeRows) l))).
Proof.
  unfold reconcileExternalMutation.
  assert ((match binding.(bind_strategy) with Some k => negb (bool_decide (k = strategy)) | None => false end) = false ↔
    same_strategy strategy binding) as Hb.
  { unfold same_strategy. destruct (bind_strategy binding) as [k|]; [|naive_solver].
    rewrite negb_false_iff, bool_decide_eq_true. naive_solver. }
  destruct (match binding.(bind_strategy) with Some k => _ | None => _ end) eqn:Eb.
  { eexists _, s. split; [done|]. split; [done|]. left. split_and!; try done. left. split; [|done]. by intros ?%Hb. }
  clear Eb. pose proof (proj1 Hb eq_refl) as Eb. clear Hb.
  case_bool_decide as Ef; simpl; [|eexists _, s; split; [done|]; split; [done|]; left; split_and!; try done; right; left; done].
  case_bool_decide as Ec; simpl; [|eexists _, s; split; [done|]; split; [done|]; left; split_and!; try done; right; right; done].
  unfold ebind, eattempt. destruct (readEvidence s) as [[e|v] s'] eqn:Er; simpl.
  { eexists _, s'. split; [done|]. split; [done|]. right. split_and!; try done. left. by exists false. }
  destruct (prop (u "truncated") v) as [ | |[]| | | | | | | ] eqn:Et, (prop (u "rows") v) as [ | | | | |rows| | | | ] eqn:Ew.
  all: try (eexists _, s'; split; [done|]; split; [done|]; right; split_and!; try done; left; exists false; split_and!; try done;
    left; split_and!; try done; intros (? & ? & ? & ?); congruence).
  { eexists _, s'. split; [done|]. split; [done|]. right. split_and!; try done. left. exists false.
    split_and!; try done. right. left. split_and!; try done. by exists rows. }
  destruct (mapM safe_row rows) as [sr|] eqn:Es; [destruct (matching sr) as [l|] eqn:Em|].
  - eexists _, s'. split; [done|]. split; [done|]. right. split_and!; try done. right. exists v, sr, l. simpl.
    split_and!; try done. apply matching_total. by exists rows.
  - eexists _, s'. split; [done|]. split; [done|]. right. split_and!; try done. left. exists true.
    split_and!; try done. right. right. exists rows. split_and!; try done. right.
    apply safe_rows_spec in Es. destruct (matching_throws _ Em) as (x & e & Hx & He). by exists sr, x, e.
  - eexists _, s'. split; [done|]. split; [done|]. right. split_and!; try done. left. exists true.
    split_and!; try done. right. right. exists rows. split_and!; try done. left. split; [|done].
    intros (sr & ?%safe_rows_spec). congruence.
Qed.

(** C12: A verdict is authoritative exactly on proof.  Reconciliation answers, whatever the
    read or the test throw, under the binding it was given.  The verdict is authoritative
    exactly when the binding agrees with the strategy and with the expected fingerprint and
    catalog, the read returned a complete list of valid rows, every row could be tested,
    and the rows that match are exactly one - for a deletion, none.  Of a binding that does
    not agree nothing is read, and the reason names the first disagreement; otherwise the
    evidence is read once, and the reason says what it lacks, or, when it is complete, the
    answer lists the matching rows by reference and fingerprint. *)
Theorem reconciliation_exact strategy binding fp catalog s :
  ∃ r s', reconcileExternalMutation strategy binding fp catalog s = (inr r, s') ∧ r.(result_binding) = binding ∧
  (r.(authoritative) = true ↔
     same_strategy strategy binding ∧ fp = binding.(bind_actionFingerprint) ∧ catalog = binding.(bind_catalogHash) ∧
     ∃ v safeRows l, (readEvidence s).1 = inr v ∧ complete_matches v safeRows l ∧
       length l = match strategy with SafetyLimits.StrategyDelete => 0%nat | _ => 1%nat end) ∧
  ((unbound strategy binding fp catalog r.(reason) ∧
    r.(result_evidence) = VObj [(u "compatible", VBool false)] ∧ s' = s) ∨
   (same_strategy strategy binding ∧ fp = binding.(bind_actionFingerprint) ∧ catalog = binding.(bind_catalogHash) ∧
    s' = (readEvidence s).2 ∧
    ((∃ complete, unproven (readEvidence s).1 r.(reason) complete ∧
        r.(result_evidence) = VObj [(u "complete", VBool complete)]) ∨
     ∃ v safeRows l, (readEvidence s).1 = inr v ∧ complete_matches v safeRows l ∧
       r.(reason) = (if r.(authoritative) then "authoritative_match" else "non_unique_or_missing")%string ∧
       r.(result_evidence) = match_evidence (length safeRows) l))).
Proof.
  destruct (reconcile_cases strategy binding fp catalog s) as (r & s' & Hr & Hbind & Hcases).
  exists r, s'. split; [done|]. split; [done|].
  assert (∀ v sr l sr' l', complete_matches v sr l → complete_matches v sr' l' → l' = l) as Hdet.
  { intros v sr l sr' l' (rows & _ & H1 & H2 & H3)%matching_total (rows' & _ & H1' & H2' & H3')%matching_total. congruence. }
  destruct Hcases as [(Hun & Ha & He & ->)|(Hs & -> & -> & -> & [(complete & Hun & Ha & He)|(v & sr & l & Hv & Hc & Ha & Hre & He)])].
  - split; [|by left]. split; [congruence|]. intros (Hs & -> & -> & _). exfalso.
    by destruct Hun as [[? _]|[(_ & ? & _)|(_ & _ & ? & _)]].
  - split; [|right; split_and!; try done; left; by exists complete]. split; [congruence|].
    intros (_ & _ & _ & v & sr & l & Hv & (rows & Ht & Hrows & Hsr & Hm)%matching_total & _). exfalso.
    rewrite Hv in Hun. destruct Hun as [[Hn _]|[[(rs & _ & Ht2) _]|(rs & [Hrs _] & _ & [[Hn _]|(sr' & x & e & Hsr' & Hx & Hex & _)])]].
    + apply Hn. by exists rows, false.
    + congruence.
    + rewrite Hrs in Hrows. injection Hrows as ->. apply Hn. exists sr. by apply safe_rows_spec.
    + rewrite Hrs in Hrows. injection Hrows as ->. apply safe_rows_spec in Hsr'.
      assert (sr' = sr) as -> by congruence. apply matching_candidates in Hm as [Hm _]. destruct (Hm x Hx). congruence.
  - split; [|right; split_and!; try done; right; by exists v, sr, l].
    rewrite Ha, decisive_true. split; [intros Hl; split_and!; try done; by exists v, sr, l|].
    intros (_ & _ & _ & v' & sr' & l' & Hv' & Hc' & Hl). rewrite Hv in Hv'. injection Hv' as <-.
    by rewrite (Hdet _ _ _ _ _ Hc Hc') in Hl.
Qed.
End Reconcile.

(** ** On the tag of file Scenarios *)

Section Example.
Import World Scenarios.

Definition tag_projection (name : string) : jsval := VObj [(u "id", VStr (u "t1")); (u "name", VStr (u name))].
Definition tag_ref : EntityRef := {| ref_type := u "tag"; ref_entity := u "t1"; ref_name := None; ref_projectId := None |}.
Definition tag_snapshot : TargetSnapshot := captureTargetSnapshot (λ x, x) relation_target tag_ref (tag_projection "billable").
(** The tag is read again, and has this name. *)
Definition tag_read (name : string) (x : TargetSnapshot) : E world (option SnapshotEvidence) :=
  eret (Some {| evidence_ref := tag_ref; evidence_projection := Some (tag_projection name); evidence_truncated := false |}).
Definition tag_success (x : JournaledMutationStep) : jsval := VObj [(u "ok", VBool true)].
Definition tag_commit (name : string) : E world jsval :=
  commitSingleDurableRiskyStep (λ x, x) demo_hooks (eret 0) (Some demo_journal) demo_operation (u "delete-tag")
    (u "Delete tag") demo_dispatch tag_success
    (Some {| snapshots := [tag_snapshot]; fetchSnapshot := tag_read name |}).


(** A creation whose one row of evidence matches is proved; without a row it is not. *)
Definition tag_row : jsval :=
  VObj [(u "ref", VObj [(u "type", VStr (u "tag")); (u "id", VStr (u "t1"))]); (u "projection", tag_projection "billable")].
Definition tag_evidence (rows : list jsval) : E world jsval :=
  eret (VObj [(u "rows", VArr rows); (u "truncated", VBool false)]).
Definition tag_binding : ReconciliationBinding :=
  {| bind_operationId := u "op"; bind_stepId := u "step-0"; bind_actionName := u "create_tag";
     bind_actionFingerprint := u "f"; bind_catalogHash := u "c"; bind_planStepId := None;
     bind_strategy := Some SafetyLimits.StrategyCreate |}.
Definition tag_candidate : ReconciliationCandidate :=
  {| candidate_ref := VObj [(u "id", VStr (u "t1")); (u "type", VStr (u "tag"))];
     candidate_projection := tag_projection "billable" |}.
Definition tag_verdict (rows : list jsval) :=
  reconcileExternalMutation (λ x, x) (tag_evidence rows) (λ _, inr true) SafetyLimits.StrategyCreate tag_binding (u "f") (u "c").

Lemma reconciliation_exact_witness :
  (∃ r s', tag_verdict [tag_row] start = (inr r, s') ∧ r.(authoritative) = true) ∧
  (∃ r s', tag_verdict [] start = (inr r, s') ∧ r.(authoritative) = false).
Proof.
  split; [|eexists; eexists; split; [vm_compute; reflexivity|reflexivity]].
  destruct (reconciliation_exact (λ x, x) (tag_evidence [tag_row]) (λ _, inr true) SafetyLimits.StrategyCreate tag_binding
    (u "f") (u "c") start) as (r & s' & Hr & _ & [_ Hproof] & _).
  exists r, s'. split; [exact Hr|]. apply Hproof.
  split; [intros k [= <-]; reflexivity|]. split; [reflexivity|]. split; [reflexivity|].
  exists (VObj [(u "rows", VArr [tag_row]); (u "truncated", VBool false)]), [tag_candidate], [tag_candidate].
  split; [reflexivity|]. split; [|reflexivity]. split; [reflexivity|]. split; [|split; [|reflexivity]].
  - exists [tag_row]. split; [reflexivity|]. constructor; [|constructor]. apply safe_row_spec. vm_compute. reflexivity.
  - intros x _. by exists true.
Defined.
End Example.
