(* ===== verification/ToolSets.v ===== *)
(** * The loaded tools of a run

    [assistant-v2/discovery/api-search-tool.ts] and [seedCacheFromPriorRun] of
    [services/api-discovery-service.ts]: which tools a model request offers, how a search
    refines them, and which calls of the model are accepted.  A JavaScript [Set] is the
    list of its elements in insertion order.  The registry is an argument. *)
From S2P Require Import Prelude Js RunTables.
Open Scope Z_scope.
#[local] Arguments u : simpl never.

Definition DISCOVERY_META_TOOL_NAME : jstr := u "assistant_find_api_operations".
Definition V2_MAX_LOADED_API_TOOLS : nat := 12.

(** What the runner asks a registry for: [get(name)?.apiOperation?.access] and
    [availability]. *)
Record ActionRegistry := {
  registry_hash : jstr;
  registry_is_v2 : bool;
  access_of : jstr → option (option string);
  available_to : jstr → AuthClass → bool;
}.

(** [Set.prototype.add] *)
Definition set_add (x : jstr) (l : list jstr) : list jstr := if bool_decide (x ∈ l) then l else l ++ [x].

Definition apiToolNames (l : list jstr) : list jstr := filter (λ n, n ≠ DISCOVERY_META_TOOL_NAME) l.
Definition set_full (l : list jstr) : bool := (V2_MAX_LOADED_API_TOOLS <=? length (apiToolNames l))%nat.

Fixpoint add_known (r : ActionRegistry) (names loaded : list jstr) : list jstr :=
  match names with
  | [] => loaded
  | n :: l =>
      if bool_decide (n = DISCOVERY_META_TOOL_NAME) || bool_decide (r.(access_of) n = None) then add_known r l loaded
      else if set_full loaded then loaded
      else add_known r l (set_add n loaded)
  end.
Definition initialV2ToolSet (r : ActionRegistry) (cached : list jstr) : result (list jstr) :=
  if r.(registry_is_v2) then Ok (add_known r cached [DISCOVERY_META_TOOL_NAME])
  else Throw "initial_v2_tool_set_registry_required:v2-api".

(** ** Refining *)

Inductive ApiSearchResult : Type := matches (toolNames : list jstr) | notice.

Definition rankedNamesFromSearch (s : ApiSearchResult) : list jstr :=
  match s with matches l => l | notice => [] end.

(** The used tools are kept, without a bound. *)
Definition add_used (used next : list jstr) : list jstr :=
  foldl (λ l n, if bool_decide (n = DISCOVERY_META_TOOL_NAME) then l else set_add n l) next used.
Fixpoint add_ranked (ranked next : list jstr) : list jstr :=
  match ranked with
  | [] => next
  | n :: l => if set_full next then next else add_ranked l (set_add n next)
  end.
Fixpoint add_loaded (used loaded next : list jstr) : list jstr :=
  match loaded with
  | [] => next
  | n :: l =>
      if bool_decide (n = DISCOVERY_META_TOOL_NAME) || bool_decide (n ∈ used) then add_loaded used l next
      else if set_full next then next
      else add_loaded used l (set_add n next)
  end.

(** The body of the [while]: the first tool that is neither used nor the search is
    dropped.  With nothing to drop the source loops without an end. *)
Definition trim_step (used next : list jstr) : list jstr :=
  match list_find (λ n, n ≠ DISCOVERY_META_TOOL_NAME ∧ n ∉ used) next with
  | Some (_, x) => filter (λ n, n ≠ x) next
  | None => next
  end.
Fixpoint trim_loaded (fuel : nat) (used next : list jstr) : option (list jstr) :=
  if (length (apiToolNames next) <=? V2_MAX_LOADED_API_TOOLS)%nat then Some next
  else match fuel with O => None | S fuel' => trim_loaded fuel' used (trim_step used next) end.

(** [None]: not within [fuel] rounds of the last loop. *)
Definition refineLoadedToolSet (fuel : nat) (loaded used : list jstr) (s : ApiSearchResult) : option (list jstr) :=
  trim_loaded fuel used
    (add_loaded used loaded (add_ranked (rankedNamesFromSearch s) (add_used used [DISCOVERY_META_TOOL_NAME]))).

(** ** Accepting a call *)

Inductive LoadedToolValidationFailure : Set :=
| tool_not_loaded | stale_catalog_hash | unknown_tool | unavailable_for_auth_class.

Definition validateLoadedToolCall (name : jstr) (loaded : list jstr) (expected current : jstr) (r : ActionRegistry)
    (auth : AuthClass) : option LoadedToolValidationFailure :=
  if bool_decide (name = DISCOVERY_META_TOOL_NAME) then
    if bool_decide (name ∈ loaded) then None else Some tool_not_loaded
  else if negb (bool_decide (expected = current)) then Some stale_catalog_hash
  else if negb (bool_decide (name ∈ loaded)) then Some tool_not_loaded
  else if bool_decide (r.(access_of) name = None) then Some unknown_tool
  else if r.(available_to) name auth then None
  else Some unavailable_for_auth_class.

(** ** Seeding *)

Fixpoint distinct_names (l : list jstr) : list jstr :=
  match l with [] => [] | n :: l' => n :: filter (λ m, m ≠ n) (distinct_names l') end.

(** Only the reads of a prior run with the same catalog, most recently used first. *)
Definition seedCacheFromPriorRun (r : ActionRegistry) (prior : option (jstr * list jstr * list jstr))
    : result (list jstr) :=
  match prior with
  | Some (catalog, loaded, used) =>
      if bool_decide (catalog = r.(registry_hash)) then
        let ordered := distinct_names (reverse used ++ filter (λ n, n ∉ used) loaded) in
        initialV2ToolSet r (filter (λ n, r.(access_of) n = Some (Some "read")) ordered)
      else initialV2ToolSet r []
  | None => initialV2ToolSet r []
  end.

(** ** A set of tools stays small *)

(** The search, no tool twice, and at most twelve operations. *)
Record tools_ok (l : list jstr) : Prop := {
  tools_distinct : NoDup l;
  tools_search : DISCOVERY_META_TOOL_NAME ∈ l;
  tools_bounded : (length (apiToolNames l) ≤ V2_MAX_LOADED_API_TOOLS)%nat;
}.

Lemma set_add_nodup x l : NoDup l → NoDup (set_add x l).
Proof.
  intros H. unfold set_add. case_bool_decide as Hx; [done|]. apply NoDup_app. split_and!; [done| |apply NoDup_singleton].
  intros y Hy ->%list_elem_of_singleton. done.
Qed.
Lemma elem_of_set_add x y l : y ∈ set_add x l ↔ y = x ∨ y ∈ l.
Proof.
  unfold set_add. case_bool_decide as Hx; [split; [by right|by intros [->|]]|].
  rewrite elem_of_app, list_elem_of_singleton. naive_solver.
Qed.
Lemma api_set_add x l :
  (length (apiToolNames (set_add x l)) ≤ S (length (apiToolNames l)))%nat.
Proof.
  unfold set_add, apiToolNames. case_bool_decide; [lia|]. rewrite filter_app, length_app.
  pose proof (length_filter (λ n, n ≠ DISCOVERY_META_TOOL_NAME) [x]) as H1. simpl in H1. lia.
Qed.

(** Adding behind the test that the set is not full. *)
Definition growing (step : list jstr → list jstr) : Prop :=
  ∀ l, NoDup l → DISCOVERY_META_TOOL_NAME ∈ l →
    NoDup (step l) ∧ (∀ x, x ∈ l → x ∈ step l) ∧
    (length (apiToolNames (step l)) ≤ length (apiToolNames l) `max` V2_MAX_LOADED_API_TOOLS)%nat.

Lemma growing_add x rest : growing rest → growing (λ l, if set_full l then l else rest (set_add x l)).
Proof.
  intros Hr l Hn Hd. unfold set_full. destruct (Nat.leb_spec V2_MAX_LOADED_API_TOOLS (length (apiToolNames l))); [by split_and!; [| |lia]|].
  destruct (Hr (set_add x l)) as (H1 & H2 & H3); [by apply set_add_nodup|by apply elem_of_set_add; right|].
  split_and!; [done|intros y Hy; apply H2, elem_of_set_add; by right|].
  pose proof (api_set_add x l). lia.
Qed.
Lemma growing_id : growing (λ l, l).
Proof. intros l Hn _. split_and!; [done|done|lia]. Qed.

Lemma growing_known r names : growing (add_known r names).
Proof.
  induction names as [|n names IH]; [apply growing_id|]. intros l. simpl.
  destruct (_ || _); [apply IH|]. by apply (growing_add n _ IH).
Qed.
Lemma growing_ranked names : growing (add_ranked names).
Proof. induction names as [|n names IH]; [apply growing_id|]. intros l. simpl. by apply (growing_add n _ IH). Qed.
Lemma growing_loaded used names : growing (add_loaded used names).
Proof.
  induction names as [|n names IH]; [apply growing_id|]. intros l. simpl.
  destruct (_ || _); [apply IH|]. by apply (growing_add n _ IH).
Qed.

Lemma initial_ok r cached l : initialV2ToolSet r cached = Ok l → tools_ok l.
Proof.
  unfold initialV2ToolSet. destruct (registry_is_v2 r); [|done]. intros [= <-].
  destruct (growing_known r cached [DISCOVERY_META_TOOL_NAME]) as (H1 & H2 & H3);
    [apply NoDup_singleton|apply list_elem_of_here|].
  split; [done|apply H2, list_elem_of_here|]. etrans; [exact H3|]. by vm_compute.
Qed.

Lemma add_used_spec used next :
  NoDup next →
  NoDup (add_used used next) ∧
  (∀ x, x ∈ add_used used next ↔ x ∈ next ∨ (x ∈ used ∧ x ≠ DISCOVERY_META_TOOL_NAME)).
Proof.
  revert next. unfold add_used. induction used as [|n used IH]; intros next Hn; simpl; [split; [done|set_solver]|].
  case_bool_decide as Hd.
  - destruct (IH next Hn) as [H1 H2]. split; [done|]. intros x. rewrite H2, elem_of_cons. naive_solver.
  - destruct (IH (set_add n next)) as [H1 H2]; [by apply set_add_nodup|]. split; [done|].
    intros x. rewrite H2, elem_of_set_add, elem_of_cons. naive_solver.
Qed.

(** The operations a run has used, each once. *)
Definition used_tools (used : list jstr) : nat :=
  length (apiToolNames (add_used used [DISCOVERY_META_TOOL_NAME])).

Lemma used_tools_add used n :
  (used_tools (if bool_decide (n ∈ used) then used else used ++ [n]) ≤ S (used_tools used))%nat.
Proof.
  case_bool_decide; [lia|]. unfold used_tools, add_used. rewrite foldl_app. simpl.
  case_bool_decide; [lia|apply api_set_add].
Qed.
Lemma used_tools_search used :
  used_tools (if bool_decide (DISCOVERY_META_TOOL_NAME ∈ used) then used else used ++ [DISCOVERY_META_TOOL_NAME]) = used_tools used.
Proof.
  case_bool_decide; [done|]. unfold used_tools, add_used. rewrite foldl_app. cbn [foldl]. by rewrite (bool_decide_eq_true_2 _ (eq_refl DISCOVERY_META_TOOL_NAME)).
Qed.

Lemma trim_done fuel used next :
  (length (apiToolNames next) ≤ V2_MAX_LOADED_API_TOOLS)%nat → trim_loaded fuel used next = Some next.
Proof. intros H. destruct fuel; simpl; by rewrite (proj2 (Nat.leb_le _ _) H). Qed.

Lemma trim_stuck fuel used next :
  (V2_MAX_LOADED_API_TOOLS < length (apiToolNames next))%nat →
  (∀ x, x ∈ next → x = DISCOVERY_META_TOOL_NAME ∨ x ∈ used) → trim_loaded fuel used next = None.
Proof.
  intros H Hall. assert (trim_step used next = next) as Hs.
  { unfold trim_step. destruct (list_find _ next) as [[i x]|] eqn:E; [|done].
    apply list_find_Some in E as (Hx & [H1 H2] & _). apply list_elem_of_lookup_2 in Hx. naive_solver. }
  induction fuel as [|fuel IH]; simpl; rewrite (proj2 (Nat.leb_gt _ _) H); [done|]. by rewrite Hs.
Qed.

Lemma full_ranked ranked next : set_full next = true → add_ranked ranked next = next.
Proof. intros H. destruct ranked; simpl; [done|by rewrite H]. Qed.
Lemma full_loaded used loaded next : set_full next = true → add_loaded used loaded next = next.
Proof. intros H. induction loaded as [|n l IH]; simpl; [done|]. destruct (_ || _); [done|by rewrite H]. Qed.

(** The operations kept by the used tools alone. *)
Lemma refine_some loaded used s :
  (used_tools used ≤ V2_MAX_LOADED_API_TOOLS)%nat →
  ∃ l, (∀ fuel, refineLoadedToolSet fuel loaded used s = Some l) ∧ tools_ok l ∧
    (∀ x, x ∈ used → x ∈ l) ∧ ∀ x, x ∈ l → x = DISCOVERY_META_TOOL_NAME ∨ x ∈ used ∨ x ∈ rankedNamesFromSearch s ∨ x ∈ loaded.
Proof.
  unfold refineLoadedToolSet, used_tools.
  destruct (add_used_spec used [DISCOVERY_META_TOOL_NAME] (NoDup_singleton _)) as [Hn He].
  set (kept := add_used used [DISCOVERY_META_TOOL_NAME]) in *.
  intros Hu. assert (DISCOVERY_META_TOOL_NAME ∈ kept) as Hd by (apply He; left; apply list_elem_of_here).
  destruct (growing_ranked (rankedNamesFromSearch s) kept Hn Hd) as (N1 & K1 & L1).
  destruct (growing_loaded used loaded _ N1 (K1 _ Hd)) as (N2 & K2 & L2).
  eexists. split; [intros fuel; apply trim_done; lia|]. split_and!.
  + split; [done|by apply K2, K1|lia].
  + intros x Hx. apply K2, K1, He. destruct (decide (x = DISCOVERY_META_TOOL_NAME)) as [->|]; [left; apply list_elem_of_here|by right].
  + assert (∀ ranked next x, x ∈ add_ranked ranked next → x ∈ next ∨ x ∈ ranked) as HR.
    { clear. induction ranked as [|n l IH]; intros next x; simpl; [by left|]. destruct (set_full next); [by left|].
      intros [Hx|Hx]%IH; [apply elem_of_set_add in Hx as [->|Hx]; [right; apply list_elem_of_here|by left]|
        right; by apply list_elem_of_further]. }
    assert (∀ l next x, x ∈ add_loaded used l next → x ∈ next ∨ x ∈ l) as HL.
    { clear. induction l as [|n l IH]; intros next x; simpl; [by left|].
      destruct (_ || _); [intros [?|?]%IH; [by left|right; by apply list_elem_of_further]|].
      destruct (set_full next); [by left|].
      intros [Hx|Hx]%IH; [apply elem_of_set_add in Hx as [->|Hx]; [right; apply list_elem_of_here|by left]|
        right; by apply list_elem_of_further]. }
    intros x [[Hx|Hx]%HR|Hx]%HL; [|by right; right; left|by right; right; right].
    apply He in Hx as [->%list_elem_of_singleton|[Hx _]]; [by left|by right; left].
Qed.

(** Refining the loaded tools ends exactly when the run has used at most twelve
    operations: then, in no round of the last loop, the result holds the search, every used
    tool and no tool twice, and offers at most twelve operations; a run that had used more
    would never leave that loop, whatever the search returned. *)
Theorem refine_ends_iff loaded used s :
  ((used_tools used ≤ V2_MAX_LOADED_API_TOOLS)%nat →
     ∃ l, (∀ fuel, refineLoadedToolSet fuel loaded used s = Some l) ∧ tools_ok l ∧
       (∀ x, x ∈ used → x ∈ l) ∧ ∀ x, x ∈ l → x = DISCOVERY_META_TOOL_NAME ∨ x ∈ used ∨ x ∈ rankedNamesFromSearch s ∨ x ∈ loaded) ∧
  ((V2_MAX_LOADED_API_TOOLS < used_tools used)%nat → ∀ fuel, refineLoadedToolSet fuel loaded used s = None).
Proof.
  split; [apply refine_some|]. intros Hu fuel. unfold refineLoadedToolSet, used_tools in *.
  destruct (add_used_spec used [DISCOVERY_META_TOOL_NAME] (NoDup_singleton _)) as [Hn He].
  set (kept := add_used used [DISCOVERY_META_TOOL_NAME]) in *.
  assert (set_full kept = true) as Hf by (apply Nat.leb_le; lia).
  rewrite (full_ranked _ _ Hf), (full_loaded _ _ _ Hf). apply trim_stuck; [lia|].
  intros x Hx. apply He in Hx as [->%list_elem_of_singleton|[Hx _]]; [by left|by right].
Qed.
