(* ===== verification/RunLoop.v ===== *)
(** * The loop of an assistant run

    [assistant-v2/runner.ts] over [services/action-execution-service.ts] and
    [services/api-discovery-service.ts]: model call, partition of its tool calls, searches,
    reads, preparation of writes, denials, until the run ends or waits.  [None] stands for
    a computation that has not ended within its fuel. *)
From S2P Require Import Prelude Js SafeJson ActionResults SessionTables RunTables Db RunEvents RunStore RunLife Effects Workflow TerminalReason ToolSets RunModel.
From S2P Require RunBudget Policy.
Open Scope Z_scope.
#[local] Arguments u : simpl never.
#[local] Existing Instance RunBudget.RunPhase_dec.

(** ** The search input *)

Definition API_SEARCH_QUERY_MAX_CHARS : nat := 256.
Definition API_SEARCH_MAX_LIMIT : Z := 12.

Definition parse_access (v : jsval) : option SearchAccess :=
  match v with
  | VStr s => snd <$> (p ← list_find (λ x, u x.1 = s) [("read", search_read); ("write", search_write); ("any", search_any)]; Some p.2)
  | _ => None
  end.
Definition parse_group (v : jsval) : option Policy.Permissions.FeatureGroup :=
  match v with
  | VStr s => snd <$> list_find (λ g, u (Policy.Permissions.group_name g) = s) Policy.Permissions.FEATURE_GROUPS
  | _ => None
  end.
(** An optional member: absent, or of the type. *)
Definition optional {A} (f : jsval → option A) (v : jsval) : option (option A) :=
  match v with VUndef => Some None | _ => Some <$> f v end.

(** [findApiOperationsInputSchema]: unknown keys are refused. *)
Definition parseFindApiOperationsInput (raw : jsval) : option FindApiOperationsInput :=
  match raw with
  | VObj fs =>
      if forallb (λ f, bool_decide (f.1 ∈ (u <$> ["query"; "access"; "groups"; "limit"]))) fs then
        q ← (match prop (u "query") raw with
             | VStr s => let t := trim s in
                 if (0 <? length t)%nat && (length t <=? API_SEARCH_QUERY_MAX_CHARS)%nat then Some t else None
             | _ => None
             end);
        a ← optional parse_access (prop (u "access") raw);
        g ← optional (λ v, match v with VArr l => mapM parse_group l | _ => None end) (prop (u "groups") raw);
        n ← optional (λ v, n ← safe_integer v; if (1 <=? n) && (n <=? API_SEARCH_MAX_LIMIT) then Some n else None)
              (prop (u "limit") raw);
        Some {| find_query := q; find_access := a; find_groups := g; find_limit := n |}
      else None
  | _ => None
  end.

(** ** Accepting and partitioning the calls of a completion *)

Record DeniedToolCall := { denied_id : jstr; denied_action : jstr; denied_code : jstr }.
Definition deny (c : ToolCall) (code : string) : DeniedToolCall :=
  {| denied_id := c.(call_id); denied_action := c.(call_name); denied_code := u code |}.

Definition is_discovery (c : ToolCall) : bool := bool_decide (c.(call_name) = DISCOVERY_META_TOOL_NAME).

Definition failure_code (f : LoadedToolValidationFailure) : string :=
  match f with
  | tool_not_loaded => "tool_not_loaded" | stale_catalog_hash => "stale_catalog_hash"
  | unknown_tool => "unknown_tool" | unavailable_for_auth_class => "unavailable_for_auth_class"
  end.

Section Partition.
Context (r : ActionRegistry) (loaded : list jstr) (catalog : jstr) (auth : AuthClass).

Fixpoint validate_calls (seen : list jstr) (l : list ToolCall) : list ToolCall * list DeniedToolCall :=
  match l with
  | [] => ([], [])
  | c :: l' =>
      if bool_decide (c.(call_id) ∈ seen) then
        let '(ok, no) := validate_calls seen l' in (ok, deny c "duplicate_tool_call_id" :: no)
      else
        let '(ok, no) := validate_calls (c.(call_id) :: seen) l' in
        match validateLoadedToolCall c.(call_name) loaded catalog catalog r auth with
        | Some f => (ok, deny c (failure_code f) :: no)
        | None => (c :: ok, no)
        end
  end.

Definition validateCompletionToolCalls (prior : list jstr) (l : list ToolCall) : list ToolCall * list DeniedToolCall :=
  if existsb is_discovery l && existsb (λ c, negb (is_discovery c)) l
  then (filter (λ c, is_discovery c = true) l,
        (λ c, deny c "mixed_discovery_batch") <$> filter (λ c, is_discovery c = false) l)
  else validate_calls prior l.

(** The canonical text of arguments: keys in order. *)
Fixpoint canonicalArguments (v : jsval) : jsval :=
  match v with
  | VArr l => VArr (canonicalArguments <$> l)
  | VObj fs => VObj (sort_fields ((λ f, (f.1, canonicalArguments f.2)) <$> fs))
  | _ => v
  end.
Definition canonicalArgumentsKey (v : jsval) : jstr := stringify (canonicalArguments v).

Record PartitionedToolCalls := {
  readCalls : list ToolCall;
  writeCalls : list ToolCall;
  discoveryCalls : list ToolCall;
  denied : list DeniedToolCall;
  duplicateWrite : bool;
}.

Definition isReadAction (name : jstr) : bool := bool_decide (r.(access_of) name = Some (Some "read")).

Definition write_key (c : ToolCall) : jstr := c.(call_name) ++ u ":" ++ canonicalArgumentsKey c.(call_arguments).

(** What is neither a search nor a read is a write. *)
Definition partitionToolCalls (prior : list jstr) (l : list ToolCall) : PartitionedToolCalls :=
  let '(accepted, refusals) := validateCompletionToolCalls prior l in
  let searches := filter (λ c, is_discovery c = true) accepted in
  let calls := filter (λ c, is_discovery c = false) accepted in
  let reads := filter (λ c, isReadAction c.(call_name) = true) calls in
  let writes := filter (λ c, isReadAction c.(call_name) = false) calls in
  let mixed := negb (bool_decide (reads = [])) && negb (bool_decide (writes = [])) in
  let kept := if mixed then [] else writes in
  {| readCalls := reads; writeCalls := kept; discoveryCalls := searches;
     denied := refusals ++ (if mixed then (λ c, deny c "read_write_dependency") <$> writes else []);
     duplicateWrite := negb (bool_decide (NoDup (write_key <$> kept))) |}.
End Partition.

Section Loop.
Context {S : Type} `{!RunHost S} (deps : RunnerDependencies S) (hostCallCeiling : Z).

(** A command, and the state of the run behind it. *)
Definition commit (s : RunState) (c : RunCommand) : E S RunState :=
  let* _ := command deps s c in reload s.

Definition deny_call (s : RunState) (c : ToolCall) (code : jstr) (result : option jstr) : E S RunState :=
  commit s (CDenyTool c.(call_id) c.(call_name) code result).

(** ** Searches *)

(** What the search changed. *)
Definition search_summary (before after : list jstr) : jstr :=
  let added := filter (λ n, n ≠ DISCOVERY_META_TOOL_NAME ∧ n ∉ before) after in
  match added with
  | [] => u "no new operations " ++ [8212%N] ++
          u " every match was already loaded. Searching again with a similar query will return the same set and waste the search budget; call the operations you already have instead."
  | _ => u "loaded " ++ show_nat (length added) ++ u " new operation(s): " ++ join (u ", ") added ++ u "."
  end.

(** [fuel]: the rounds granted to [refineLoadedToolSet]. *)
Definition search_call (fuel : nat) (s : RunState) (index : Z) (scope : AssistantRunScope) (c : ToolCall)
    (i : FindApiOperationsInput) : E S (option (RunState * RunObservation)) :=
  let* s := commit s (CReserveDiscovery index (default search_any i.(find_access)) (default [] i.(find_groups))) in
  let* found := deps.(discovery_search) i scope in
  match refineLoadedToolSet fuel s.(state_loaded) s.(state_used) found with
  | None => eret None
  | Some loaded =>
      let o := observed c.(call_name) (search_summary s.(state_loaded) loaded) in
      let s := use_tool c.(call_name) (with_tools s loaded s.(state_used)) in
      let* s := commit s (CLoadOperations (operation_names loaded) from_discovery) in
      eret (Some (s, o))
  end.

Fixpoint executeDiscoveryBatch (fuel : nat) (s : RunState) (index : Z) (scope : AssistantRunScope) (l : list ToolCall)
    (acc : list RunObservation) : E S (option (RunState * list RunObservation)) :=
  match l with
  | [] => eret (Some (s, acc))
  | c :: l' =>
      if negb (RunBudget.canReserveDiscoveryCall s.(state_budget)) then
        let* s := deny_call s c (u "too_many_refinements") None in
        executeDiscoveryBatch fuel s index scope l' (acc ++ [refused c.(call_name) (u "too_many_refinements")])
      else
        match parseFindApiOperationsInput c.(call_arguments) with
        | None =>
            let* s := deny_call s c (u "invalid_args") None in
            executeDiscoveryBatch fuel s index scope l' (acc ++ [refused c.(call_name) (u "invalid_args")])
        | Some i =>
            let* x := search_call fuel s (index + 1) scope c i in
            match x with
            | None => eret None
            | Some (s, o) => executeDiscoveryBatch fuel s (index + 1) scope l' (acc ++ [o])
            end
        end
  end.

(** ** Reads *)

Definition remaining_calls (s : RunState) : nat :=
  Z.to_nat (Z.max 0 (RunBudget.maxApiCalls RunBudget.V2_LIMITS - RunBudget.apiCallsUsed s.(state_budget))).

(** A call the pool did not admit is an explicit denial. *)
Fixpoint pool_outcomes (calls : list ToolCall) (outcomes : list (option ReadExecutionOutcome))
    : E S (list (ToolCall * ReadExecutionOutcome)) :=
  match calls with
  | [] => eret []
  | c :: calls' =>
      let* o := (match outcomes with
                 | Some o :: _ => eret o
                 | _ => let* aborted := deps.(signal_aborted) in
                        eret (read_denied (u (if (aborted : bool) then "cancelled_before_dispatch" else "not_admitted")) None)
                 end) in
      let* rest := pool_outcomes calls' (drop 1 outcomes) in
      eret ((c, o) :: rest)
  end.

Definition refused_read (o : ReadExecutionOutcome) : option (jstr * option jstr) :=
  match o with
  | read_denied code r | read_failed code r => Some (code, r)
  | read_validation_failed code r => Some (code, Some r)
  | _ => None
  end.

(** The journal of one read that ran. *)
Definition journal_read (s : RunState) (c : ToolCall) (o : ReadExecutionOutcome)
    : E S (RunState * list RunObservation * option (jstr * jstr)) :=
  let* s := commit s (CRequestTool c.(call_id) c.(call_name) (deps.(arguments_hash) c.(call_arguments))) in
  let* s := commit s (CStartTool c.(call_id) c.(call_name)) in
  let s := use_tool c.(call_name) s in
  match o with
  | read_succeeded result summary =>
      let* s := commit s (CCompleteTool c.(call_id) c.(call_name) result) in
      eret (s, match summary with Some (x :: l) => [observed c.(call_name) (x :: l)] | _ => [] end, None)
  | read_clarification q result => eret (s, [], Some (q, result))
  | _ =>
      match refused_read o with
      | Some (code, result) =>
          let code := boundedDenialCode code in
          let* s := deny_call s c code (match result with Some [] => None | _ => result end) in
          eret (s, [refused c.(call_name) code], None)
      | None => eret (s, [], None)
      end
  end.

(** In provider order; the first question is kept. *)
Fixpoint journal_reads (s : RunState) (l : list (ToolCall * ReadExecutionOutcome)) (acc : list RunObservation)
    (question : option (jstr * jstr)) : E S (RunState * list RunObservation * option (jstr * jstr)) :=
  match l with
  | [] => eret (s, acc, question)
  | (c, o) :: l' =>
      let* x := journal_read s c o in
      let '(s, obs, q) := x in
      journal_reads s l' (acc ++ obs) (match question with Some _ => question | None => q end)
  end.

(** The question and the suspension, in one transaction. *)
Definition suspend_on_question (s : RunState) (clarification result : jstr) : E S RunState :=
  let s := with_continuation s (RunTables.awaiting_clarification clarification) in
  commit s (CRequireAndSuspend clarification result).

Definition executeReads (s : RunState) (calls : list ToolCall)
    : E S (RunState * list RunObservation * option jstr * list DeniedToolCall) :=
  let admitted := take (remaining_calls s) calls in
  let excess := (λ c, deny c "budget_exhausted") <$> drop (remaining_calls s) calls in
  let* outcomes := deps.(read_pool) s.(state_scope) hostCallCeiling admitted in
  let* l := pool_outcomes admitted outcomes in
  let* x := journal_reads s l [] None in
  let '(s, obs, question) := x in
  match question with
  | Some (q, result) => let* s := suspend_on_question s q result in eret (s, obs, Some q, excess)
  | None => eret (s, obs, None, excess)
  end.

(** ** Writes *)

Inductive Suspension : Type := no_suspension | on_confirmation (id : jstr) | on_question (id : jstr).

Fixpoint deny_calls (s : RunState) (l : list ToolCall) (code : jstr) : E S RunState :=
  match l with
  | [] => eret s
  | c :: l' => let* s := deny_call s c code None in deny_calls s l' code
  end.
Definition refusals (l : list ToolCall) (code : jstr) : list RunObservation := (λ c, refused c.(call_name) code) <$> l.

Fixpoint request_calls (s : RunState) (l : list ToolCall) : E S RunState :=
  match l with
  | [] => eret s
  | c :: l' =>
      let* s := commit s (CRequestTool c.(call_id) c.(call_name) (deps.(arguments_hash) c.(call_arguments))) in
      request_calls s l'
  end.

(** A port that throws is a preparation that was not ready. *)
Definition prepare_calls (s : RunState) (l : list ToolCall) : E S WritePreparationOutcome :=
  etry (deps.(prepare) l s.(state_scope)) (λ _, eret (prepare_not_ready (u "prep-failed"))).

Definition settle_preparation (s : RunState) (l : list ToolCall) (fallback : jstr) (acc : list RunObservation)
    (p : WritePreparationOutcome) : E S (RunState * list RunObservation * Suspension) :=
  match p with
  | prepared _ confirmations _ =>
      let* s := reload s in
      eret (s, acc, on_confirmation (default fallback (head confirmations)))
  | prepare_clarification q result =>
      let* s := suspend_on_question s q result in eret (s, acc, on_question q)
  | prepare_not_ready result =>
      match l with
      | c :: _ =>
          let* s := commit s (CCompleteTool c.(call_id) c.(call_name) result) in
          eret (s, acc ++ [refused c.(call_name) (u "write_port_not_ready")], no_suspension)
      | [] => eret (s, acc, no_suspension)
      end
  | prepare_denied code _ =>
      let* s := deny_calls s l code in eret (s, acc ++ refusals l code, no_suspension)
  end.

Definition prepareWrites (s : RunState) (calls : list ToolCall) (fallback : jstr)
    : E S (RunState * list RunObservation * Suspension) :=
  let admitted := take (remaining_calls s) calls in
  let excess := drop (remaining_calls s) calls in
  let* s := deny_calls s excess (u "budget_exhausted") in
  let acc := refusals excess (u "budget_exhausted") in
  match admitted with
  | [] => eret (s, acc, no_suspension)
  | _ =>
      let s := with_budget s (with_api_calls (Z.of_nat (length admitted)) s.(state_budget)) in
      let* _ := save_run deps s in
      let* s := request_calls s admitted in
      let* p := prepare_calls s admitted in
      settle_preparation s admitted fallback acc p
  end.

Fixpoint recordDenials (s : RunState) (l : list DeniedToolCall) (acc : list RunObservation)
    : E S (RunState * list RunObservation) :=
  match l with
  | [] => eret (s, acc)
  | d :: l' =>
      let code := boundedDenialCode d.(denied_code) in
      let* s := commit s (CDenyTool d.(denied_id) d.(denied_action) code None) in
      recordDenials s l' (acc ++ [refused d.(denied_action) code])
  end.

(** ** One round *)

Definition still_current : E S bool := match deps.(isCurrent) with Some c => c | None => eret true end.

(** What a completion leads to behind the model call: an outcome, or the next state. *)
Definition run_phases (fuel : nat) (s : RunState) (calls : list ToolCall)
    : E S (option (RunOutcome + RunState * list RunObservation)) :=
  let x := s.(state_scope) in
  let p := partitionToolCalls deps.(actionRegistry) s.(state_loaded) s.(state_catalog) x.(scope_auth)
             (completed_call <$> s.(state_completed)) calls in
  if p.(duplicateWrite) then let* o := failRun deps s (u "duplicate_write") in eret (Some (inl o))
  else
    let* found := executeDiscoveryBatch fuel s (RunBudget.discoveryCallsUsed s.(state_budget)) x p.(discoveryCalls) [] in
    match found with
    | None => eret None
    | Some (s, obs1) =>
        let* reads := executeReads s p.(readCalls) in
        let '(s, obs2, question, excess) := reads in
        match question with
        | Some q => let* o := suspendOutcome s awaiting_clarification q in eret (Some (inl o))
        | None =>
            let* current := still_current in
            if negb current then let* o := failRun deps s (u "installation_changed") in eret (Some (inl o))
            else
              let* writes := (match p.(writeCalls) with
                              | [] => eret (s, [], no_suspension)
                              | l => prepareWrites s l x.(scope_run)
                              end) in
              let '(s, obs3, suspension) := writes in
              match suspension with
              | on_confirmation id => let* o := suspendOutcome s awaiting_confirmation id in eret (Some (inl o))
              | on_question q => let* o := suspendOutcome s awaiting_clarification q in eret (Some (inl o))
              | no_suspension =>
                  let* y := recordDenials s (p.(denied) ++ excess) [] in
                  eret (Some (inr (y.1, obs1 ++ obs2 ++ obs3 ++ y.2)))
              end
        end
    end.

(** The fail-safe around them: an exception ends the run. *)
Definition guarded_phases (fuel : nat) (s : RunState) (calls : list ToolCall)
    : E S (option (RunOutcome + RunState * list RunObservation)) :=
  etry (run_phases fuel s calls)
    (λ _, let* s := reload s in let* o := failRun deps s (u "internal_error") in eret (Some (inl o))).

(** What the loop carries from one round to the next. *)
Record LoopState := {
  loop_run : RunState;
  loop_first : bool;
  loop_call : Z;
  loop_observations : list RunObservation;
  loop_signature : option jstr;
  loop_seen : jstr;
  loop_denial : option jstr;
}.

Definition resume_summary (r : CompletedToolResult) : E S jstr :=
  let* stored := read_store (λ d, result_json <$> d.(action_results) !! r.(completed_result)) in
  eret (match summarizeActionResultForModel stored with
        | Some t => r.(completed_action) ++ u " returned: " ++ t
        | None => r.(completed_action) ++ u " completed (result " ++ r.(completed_result) ++ u ")."
        end).
Fixpoint resume_summaries (l : list CompletedToolResult) : E S (list jstr) :=
  match l with
  | [] => eret []
  | r :: l' => let* t := resume_summary r in let* ts := resume_summaries l' in eret (t :: ts)
  end.

(** [toolsForV2LoadedSet] *)
Definition check_tools (s : RunState) : E S unit :=
  if negb deps.(actionRegistry).(registry_is_v2) then error "tools_for_v2_loaded_set_registry_required:v2-api"
  else if bool_decide (DISCOVERY_META_TOOL_NAME ∈ s.(state_loaded)) then eret tt
  else error "discovery_meta_tool_required".

Definition model_failure_code (e : failure) : string :=
  match protocol_reason e with
  | Some reason => reason
  | None => if is_token_budget_error e then "budget_exhausted" else "model_failed"
  end.

Definition call_signature (l : list ToolCall) : jstr :=
  stringify (VArr ((λ c, VArr [VStr c.(call_name); c.(call_arguments)]) <$> l)).
Definition observation_value (o : RunObservation) : jsval :=
  match o with
  | observed a t => VObj [(u "kind", VStr (u "result")); (u "actionName", VStr a); (u "summary", VStr t)]
  | refused a c => VObj [(u "kind", VStr (u "denied")); (u "actionName", VStr a); (u "code", VStr c)]
  end.
Definition observation_signature (l : list RunObservation) : jstr := stringify (VArr (observation_value <$> l)).
Definition first_denial (l : list RunObservation) : option jstr :=
  head (omap (λ o, match o with refused _ c => Some c | _ => None end) l).

(** The accounting behind a round, and the test that it made progress. *)
Definition close_round (st : LoopState) (s : RunState) (calls : list ToolCall) (obs : list RunObservation) (started : Z)
    : E S (RunOutcome + LoopState) :=
  let* ended := deps.(monotonicMs) in
  let* s := reload s in
  let s := with_budget s (with_wall (Z.max 0 (ended - started)) s.(state_budget)) in
  let* _ := save_run deps s in
  let denial := match first_denial obs with Some c => Some c | None => st.(loop_denial) end in
  let signature := call_signature calls in
  let seen := observation_signature obs in
  if bool_decide (st.(loop_signature) = Some signature) && bool_decide (st.(loop_seen) = seen)
  then let* o := failRun deps s (default (u "no_progress") denial) in eret (inl o)
  else eret (inr {| loop_run := s; loop_first := false; loop_call := st.(loop_call) + 1;
                    loop_observations := st.(loop_observations) ++ obs; loop_signature := Some signature;
                    loop_seen := seen; loop_denial := denial |}).

Definition after_model (fuel : nat) (st : LoopState) (s : RunState) (c : ToolCompletion)
    : E S (option (RunOutcome + LoopState)) :=
  let* current := still_current in
  if negb current then let* o := failRun deps s (u "installation_changed") in eret (Some (inl o))
  else
    let* started := deps.(monotonicMs) in
    match c.(completion_calls) with
    | [] => let* o := completeRun deps s (Some c.(completion_text)) in eret (Some (inl o))
    | calls =>
        let* x := guarded_phases fuel s calls in
        match x with
        | None => eret None
        | Some (inl o) => eret (Some (inl o))
        | Some (inr (s, obs)) => let* y := close_round st s calls obs started in eret (Some y)
        end
    end.

(** A round of the loop; [resuming]: the run was there before this call. *)
Definition run_round (fuel : nat) (resuming : bool) (followUp : option jstr) (st : LoopState)
    : E S (option (RunOutcome + LoopState)) :=
  let s := st.(loop_run) in
  let* aborted := deps.(signal_aborted) in
  if (aborted : bool) then let* o := failRun deps s (u "cancelled") in eret (Some (inl o))
  else
    let* summaries := (if st.(loop_first) && resuming then resume_summaries s.(state_completed) else eret []) in
    let messages := buildFreshMessages deps.(priorMessages) s (summaries ++ formatObservations st.(loop_observations))
                      (if st.(loop_first) then followUp else None) in
    let* _ := check_tools s in
    let* answer := eattempt (callModel deps s messages s.(state_loaded) (st.(loop_call) + 1)) in
    match answer with
    | inl e => let* o := failRun deps s (u (model_failure_code e)) in eret (Some (inl o))
    | inr c => let* s := reload s in after_model fuel st s c
    end.

Definition may_go_on (b : RunBudget.RunBudget) : bool :=
  RunBudget.canReserveModelCall b && negb (RunBudget.isTokenBudgetExceeded b) && negb (RunBudget.isActiveWallBudgetExceeded b).

(** [fuel] bounds the rounds, and the rounds of each refinement. *)
Fixpoint run_loop (fuel : nat) (resuming : bool) (followUp : option jstr) (st : LoopState) : E S (option RunOutcome) :=
  if may_go_on st.(loop_run).(state_budget) then
    match fuel with
    | O => eret None
    | Datatypes.S fuel' =>
        let* x := run_round fuel resuming followUp st in
        match x with
        | None => eret None
        | Some (inl o) => eret (Some o)
        | Some (inr st') => run_loop fuel' resuming followUp st'
        end
    end
  else let* o := failRun deps st.(loop_run) (default (u "budget_exhausted") st.(loop_denial)) in eret (Some o).

(** ** The run *)

Record RunAssistantInput := {
  run_scope : AssistantRunScope;
  originalRequest : option jstr;
  requestId : option jstr;
  continuationMessage : option jstr;
}.

(** A run that is over, or that waits, is answered from its row. *)
Definition answer_from_row (s : RunState) : option (E S RunOutcome) :=
  let run := run_of s in
  match s.(state_phase) with
  | RunBudget.phase_failed => Some (budgetStopOutcome s (u "interrupted_before_durable_completion"))
  | RunBudget.phase_completed => Some (completeOutcome s None)
  | RunBudget.phase_awaiting_confirmation =>
      Some (suspendOutcome s awaiting_confirmation
        (match s.(state_continuation) with awaiting_operations ids _ => default run (head ids) | _ => run end))
  | RunBudget.phase_awaiting_clarification =>
      Some (suspendOutcome s awaiting_clarification
        (match s.(state_continuation) with RunTables.awaiting_clarification q => q | _ => run end))
  | _ => None
  end.

Definition start_input (i : RunAssistantInput) (request : jstr) (loaded : list jstr) : StartAssistantRunInput :=
  {| start_scope := i.(run_scope); start_request := request; start_request_hash := deps.(request_hash) request;
     start_catalog := deps.(actionRegistry).(registry_hash); start_loaded := loaded;
     start_intent := i.(run_scope).(scope_run); start_request_id := i.(requestId) |}.

Definition start_run (i : RunAssistantInput) (request : jstr) : E S RunState :=
  let x := i.(run_scope) in
  let* now := deps.(date_now) in
  let* prior := read_store (findLatestEligibleRunForCache x.(scope_session) x.(scope_workspace) x.(scope_admin)
    x.(scope_generation) x.(scope_auth) deps.(actionRegistry).(registry_hash) now) in
  let* loaded := elift (seedCacheFromPriorRun deps.(actionRegistry)
    ((λ s, (s.(state_catalog), s.(state_loaded), s.(state_used))) <$> prior)) in
  let* created := deps.(date_now) in
  let input := start_input i request loaded in
  let* _ := check_payloads [run_started (deps.(request_hash) request)] in
  let* _ := store_call deps (λ now, ignore_result (startRunWithEvent input now)) in
  let* s := get_run x in
  eret (default (toRunState x (started_run input created) []) s).

Definition first_round (s : RunState) : LoopState :=
  {| loop_run := s; loop_first := true; loop_call := RunBudget.modelCallsUsed s.(state_budget); loop_observations := [];
     loop_signature := None; loop_seen := []; loop_denial := None |}.

Definition enter_loop (fuel : nat) (resuming : bool) (i : RunAssistantInput) (s : RunState) : E S (option RunOutcome) :=
  let* aborted := deps.(signal_aborted) in
  if (aborted : bool) then let* o := failRun deps s (u "cancelled") in eret (Some o)
  else run_loop fuel resuming i.(continuationMessage) (first_round s).

Definition run_assistant (fuel : nat) (i : RunAssistantInput) : E S (option RunOutcome) :=
  let* _ := deps.(assertCurrent) i.(run_scope) in
  let* existing := get_run i.(run_scope) in
  match existing with
  | Some s =>
      match answer_from_row s with
      | Some answer => let* o := answer in eret (Some o)
      | None => enter_loop fuel true i s
      end
  | None =>
      match i.(originalRequest) with
      | Some (c :: request) => let* s := start_run i (c :: request) in enter_loop fuel false i s
      | _ => eret (Some (outcome_failed i.(run_scope).(scope_run) 0 (u "missing_original_request") []))
      end
  end.
End Loop.

(** [runAssistantV2]: an override of the ceiling that widens it is refused first. *)
Definition runAssistantV2 {S} `{!RunHost S} (deps : RunnerDependencies S) (fuel : nat) (i : RunAssistantInput)
    (budgetOverrides : option jsval) : E S (option RunOutcome) :=
  let* ceiling := elift (RunBudget.resolveHostCallCeiling budgetOverrides) in
  run_assistant deps ceiling fuel i.
