(* ===== verification/RunOutcome.v ===== *)
(** * An assistant run ends

    The loop of file RunLoop over any ports that leave the counters and the phase of the
    run's row alone: it ends within six rounds, the counters and tools of the row stay
    within their limits, and the outcome it answers is the one that is durable. *)
From S2P Require Import Prelude Js SafeJson ActionResults SessionTables RunTables Db Journal Store RunEvents RunStore RunLife Effects Workflow ToolSets RunModel RunLoop.
From S2P Require RunBudget.
Open Scope Z_scope.
#[local] Arguments u : simpl never.
#[local] Existing Instance RunBudget.RunPhase_dec.

(** ** The counters and tools of a run *)

Record RunTools := {
  v_model : Z;
  v_discovery : Z;
  v_api : Z;
  v_loaded : list jstr;
  v_used : list jstr;
}.
Definition tools_of (b : RunBudget.RunBudget) (loaded used : list jstr) : RunTools :=
  {| v_model := RunBudget.modelCallsUsed b; v_discovery := RunBudget.discoveryCallsUsed b;
     v_api := RunBudget.apiCallsUsed b; v_loaded := loaded; v_used := used |}.
Definition state_tools (s : RunState) : RunTools := tools_of s.(state_budget) s.(state_loaded) s.(state_used).
Definition arun_tools (r : AssistantRunRow) : RunTools := tools_of r.(budget_json) r.(loaded_tool_names) r.(used_tool_names).

(** What a command writes. *)
Definition command_tools (s : RunState) (c : RunCommand) : RunTools :=
  let b := match c with
           | CReserveModel _ false _ _ => counted_model s.(state_budget)
           | CReserveDiscovery _ _ _ => counted_discovery s.(state_budget)
           | CStartTool _ _ => counted_api s.(state_budget)
           | _ => s.(state_budget)
           end in
  tools_of b s.(state_loaded) s.(state_used).
Definition command_phase (s : RunState) (c : RunCommand) : RunBudget.RunPhase :=
  match c with
  | CReserveModel _ _ _ _ => RunBudget.phase_model
  | CReserveDiscovery _ _ _ => RunBudget.phase_discovering
  | CStartTool _ _ => RunBudget.phase_executing_reads
  | CSuspend r => suspended_phase r
  | CRequireAndSuspend _ _ => RunBudget.phase_awaiting_clarification
  | CComplete _ _ | CCompleteBatch _ | CCompleteConfirmation _ _ _ _ => RunBudget.phase_completed
  | CFail _ => RunBudget.phase_failed
  | _ => s.(state_phase)
  end.

Lemma same_journal_scoped x d d' : same_journal d d' → scoped_run x d' = scoped_run x d.
Proof. intros [E _]. unfold scoped_run. by rewrite E. Qed.
Lemma allocate_scoped x p now y d e d' : allocateAndInsertEvent x p now d = Ok (e, d') → scoped_run y d' = scoped_run y d.
Proof. intros (row & -> & _)%allocate_ok. reflexivity. Qed.

Lemma put_arun_scoped x r d :
  in_run_scope x r = true → scoped_run x (put_arun x.(scope_session) x.(scope_run) r d) = Some r.
Proof. intros H. unfold scoped_run, put_arun. simpl. rewrite lookup_insert_eq. simpl. by rewrite H. Qed.

(** The row behind an update. *)
Definition row_is (x : AssistantRunScope) (b : RunBudget.RunBudget) (s : RunState) (ph : RunBudget.RunPhase) (d : db) : Prop :=
  ∃ r, scoped_run x d = Some r ∧ arun_tools r = tools_of b s.(state_loaded) s.(state_used) ∧ r.(phase) = ph.

Lemma update_state_row x s ph c now d a d' :
  updateRunState x (patch_of s ph c) now d = Ok (a, d') → row_is x s.(state_budget) s ph d'.
Proof.
  intros H. unfold updateRunState in H. apply mthen_ok in H as (d0 & d1 & [= <- <-] & H).
  destruct (scoped_run x d) as [r|] eqn:Hs; [|done]. apply mthen_ok in H as (b & d2 & Hu & H).
  simpl in H. apply result_links_same in H. unfold row_is. rewrite (same_journal_scoped _ _ _ H).
  unfold update_arun in Hu. rewrite Hs in Hu. destruct (_ && _); [|done]. injection Hu as _ <-.
  apply scoped_run_some in Hs as [_ Hs]. eexists. split; [by apply put_arun_scoped|]. done.
Qed.

Lemma row_is_allocate x y b s ph p now d e d' :
  row_is y b s ph d → allocateAndInsertEvent x p now d = Ok (e, d') → row_is y b s ph d'.
Proof. intros H E. unfold row_is. by rewrite (allocate_scoped _ _ _ y _ _ _ E). Qed.

Lemma commit_row x s ph p now d e d' :
  commitStateEvent x s ph p now d = Ok (e, d') → row_is x s.(state_budget) s (default s.(state_phase) ph) d'.
Proof.
  intros H. unfold commitStateEvent in H. apply mthen_ok in H as (y & d1 & H1 & H2).
  eapply row_is_allocate; [by eapply update_state_row|done].
Qed.

Lemma run_command_row x s c now d v d' :
  run_command x s c now d = Ok (v, d') →
  ∃ r, scoped_run x d' = Some r ∧ arun_tools r = command_tools s c ∧ r.(phase) = command_phase s c.
Proof.
  intros H. destruct v, c; simpl in H; apply ignore_ok in H as [e H]; try exact (commit_row _ _ _ _ _ _ _ _ H).
  - unfold requireClarificationAndSuspendWithEvents in H. apply mthen_ok in H as (y & d1 & H1 & H).
    apply mthen_ok in H as (a & d2 & H2 & H). apply mthen_ok in H as (b & d3 & H3 & [= _ <-]).
    eapply row_is_allocate; [|exact H3]. eapply row_is_allocate; [|exact H2]. by eapply update_state_row.
  - unfold completeRunAfterBatchWithEvents in H. apply mthen_ok in H as (y & d1 & _ & H).
    apply mthen_ok in H as (z & d2 & H2 & H). eapply row_is_allocate; [by eapply update_state_row|done].
  - unfold completeRunAfterConfirmationWithEvents in H. apply mthen_ok in H as (y & d1 & _ & H).
    apply mthen_ok in H as (z & d2 & _ & H). apply mthen_ok in H as (w & d3 & H3 & H).
    eapply row_is_allocate; [by eapply update_state_row|done].
Qed.

Lemma save_run_row s now d v d' :
  saveRun s now d = Ok (v, d') →
  scoped_run s.(state_scope) d' = None ∨ row_is s.(state_scope) s.(state_budget) s s.(state_phase) d'.
Proof.
  intros H. unfold saveRun in H. apply mthen_ok in H as (b & d1 & H1 & H2). apply result_links_same in H2.
  unfold row_is. rewrite (same_journal_scoped _ _ _ H2). unfold update_arun in H1.
  destruct (scoped_run _ d) as [r|] eqn:Hs; [|injection H1 as _ <-; by left].
  destruct (_ && _); [|done]. injection H1 as _ <-. apply scoped_run_some in Hs as [_ Hs].
  right. eexists. split; [by apply put_arun_scoped|]. done.
Qed.

(** ** What a computation leaves of the row *)

(** Counters and tools within their limits. *)
Record run_ok (t : RunTools) : Prop := {
  ok_model : 0 ≤ t.(v_model) ≤ RunBudget.maxModelCalls RunBudget.V2_LIMITS;
  ok_discovery : 0 ≤ t.(v_discovery) ≤ RunBudget.maxDiscoveryCalls RunBudget.V2_LIMITS;
  ok_api : Z.of_nat (used_tools t.(v_used)) ≤ t.(v_api) ≤ RunBudget.maxApiCalls RunBudget.V2_LIMITS;
  ok_loaded : tools_ok t.(v_loaded);
}.

Definition RowView : Type := option (RunTools * RunBudget.RunPhase).
Definition fine (v : RowView) : Prop := ∀ t ph, v = Some (t, ph) → run_ok t.

Section Row.
Context {S : Type} `{!RunHost S} (x : AssistantRunScope).

Definition row_view (σ : S) : RowView := (λ r, (arun_tools r, r.(phase))) <$> scoped_run x (run_db σ).

(** From the row [v], whether it returns or throws, [m] keeps the row within its limits;
    when it returns, its result and the row satisfy [Q]. *)
Definition runs {A} (v : RowView) (m : E S A) (Q : A → RowView → Prop) : Prop :=
  fine v → ∀ σ, row_view σ = v →
    fine (row_view (m σ).2) ∧ match (m σ).1 with inr a => Q a (row_view (m σ).2) | inl _ => True end.

Definition quiet {A} (m : E S A) : Prop := ∀ σ, row_view (m σ).2 = row_view σ.

Lemma runs_ret {A} v (a : A) (Q : A → RowView → Prop) : Q a v → runs v (eret a) Q.
Proof. by intros HQ Hf σ <-. Qed.
Lemma runs_throw {A} v e (Q : A → RowView → Prop) : runs v (ethrow e) Q.
Proof. by intros Hf σ <-. Qed.
Lemma runs_then {A B} v (m : E S A) (k : A → E S B) Q R :
  runs v m Q → (∀ a v', Q a v' → runs v' (k a) R) → runs v (ebind m k) R.
Proof.
  intros Hm Hk Hf σ Hσ. destruct (Hm Hf σ Hσ) as [H1 H2]. unfold ebind. destruct (m σ) as [[e|a] σ']; [done|].
  by apply (Hk a _ H2).
Qed.
Lemma runs_mono {A} v (m : E S A) (Q R : A → RowView → Prop) :
  runs v m Q → (∀ a v', Q a v' → R a v') → runs v m R.
Proof. intros Hm Hk Hf σ Hσ. destruct (Hm Hf σ Hσ) as [H1 H2]. split; [done|]. destruct (m σ).1; auto. Qed.
Lemma runs_quiet {A} v (m : E S A) : quiet m → runs v m (λ _ v', v' = v).
Proof. intros Hq Hf σ <-. rewrite Hq. split; [done|]. by destruct (m σ).1. Qed.
Lemma runs_after {A B} v (m : E S A) (k : A → E S B) R :
  quiet m → (∀ a, runs v (k a) R) → runs v (ebind m k) R.
Proof. intros Hq Hk. eapply runs_then; [by apply runs_quiet|]. by intros a ? ->. Qed.
Lemma runs_try {A} v (m : E S A) h Q :
  runs v m Q → (∀ e v', runs v' (h e) Q) → runs v (etry m h) Q.
Proof.
  intros Hm Hh Hf σ Hσ. destruct (Hm Hf σ Hσ) as [H1 H2]. unfold etry. destruct (m σ) as [[e|a] σ']; [|done].
  by apply (Hh e _ H1 σ').

Qed.
Lemma runs_attempt {A} v (m : E S A) Q :
  runs v m Q → runs v (eattempt m) (λ out v', match out with inr a => Q a v' | inl _ => True end).
Proof.
  intros Hm Hf σ Hσ. destruct (Hm Hf σ Hσ) as [H1 H2]. unfold eattempt. by destruct (m σ) as [[e|a] σ'].
Qed.

Lemma quiet_ret {A} (a : A) : quiet (eret a).
Proof. done. Qed.
Lemma quiet_bind {A B} (m : E S A) (k : A → E S B) : quiet m → (∀ a, quiet (k a)) → quiet (ebind m k).
Proof. intros Hm Hk σ. specialize (Hm σ). unfold ebind. destruct (m σ) as [[e|a] σ']; [done|]. by rewrite Hk. Qed.
Lemma quiet_read {A} (f : db → A) : quiet (read_store f).
Proof. done. Qed.
Lemma quiet_lift {A} (r : result A) : quiet (elift r).
Proof. intros σ. unfold elift. by destruct r. Qed.
Lemma quiet_check l : quiet (check_payloads l).
Proof. induction l as [|p l IH]; simpl; [apply quiet_ret|]. apply quiet_bind; [apply quiet_lift|done]. Qed.

(** ** The store *)

(** The state a reload gives. *)
Lemma reload_runs v s :
  s.(state_scope) = x →
  runs v (reload s) (λ s' v', v' = v ∧ s'.(state_scope) = x ∧
    match v with
    | Some (t, ph) => state_tools s' = t ∧ s'.(state_phase) = ph
    | None => s' = s
    end).
Proof.
  intros Hx Hf σ <-. simpl. split; [done|]. unfold getRun. rewrite Hx. unfold row_view.
  destruct (scoped_run x (run_db σ)) as [r|]; simpl; [|done]. split_and!; done.
Qed.
End Row.

(** ** The run *)

Section Run.
Context {S : Type} `{!RunHost S} (deps : RunnerDependencies S) (x : AssistantRunScope).

(** What the loop relies on: no port but the preparation of writes moves the run's phase,
    counters or tools, and a prepared batch leaves the run waiting for its confirmation. *)
Record PortsKeep : Prop := {
  keep_now : quiet x deps.(date_now);
  keep_clock : quiet x deps.(monotonicMs);
  keep_signal : quiet x deps.(signal_aborted);
  keep_first ms ts n : quiet x (deps.(complete_first) ms ts n);
  keep_second ms ts n : quiet x (deps.(complete_second) ms ts n);
  keep_search i : quiet x (deps.(discovery_search) i x);
  keep_reads n l : quiet x (deps.(read_pool) x n l);
  keep_prepare l σ : row_view x (deps.(prepare) l x σ).2 =
    match (deps.(prepare) l x σ).1 with
    | inr (prepared _ _ _) => (λ v, (v.1, RunBudget.phase_awaiting_confirmation)) <$> row_view x σ
    | _ => row_view x σ
    end;
  keep_current : quiet x (deps.(assertCurrent) x);
  keep_installed c : deps.(isCurrent) = Some c → quiet x c;
}.
Context (Hports : PortsKeep).

(** A state of this run within its limits, with [k] model calls in memory and in its row. *)
Definition mine (s : RunState) : Prop := s.(state_scope) = x ∧ run_ok (state_tools s).
Definition calls (k : Z) (v : RowView) : Prop := ∃ t ph, v = Some (t, ph) ∧ t.(v_model) = k.
Definition held (k : Z) (s : RunState) (v : RowView) : Prop := mine s ∧ (state_tools s).(v_model) = k ∧ calls k v.

(** ** Commands *)

Lemma store_call_runs v m (Q : RowView → Prop) :
  (∀ now d u d', (λ r, (arun_tools r, r.(phase))) <$> scoped_run x d = v → m now d = Ok (u, d') →
     let v' := (λ r, (arun_tools r, r.(phase))) <$> scoped_run x d' in fine v' ∧ Q v') →
  runs x v (@store_call S _ deps unit m) (λ _, Q).
Proof.
  intros Hm. unfold store_call. apply runs_after; [apply keep_now, Hports|]. intros now Hf σ Hσ.
  destruct (m now (run_db σ)) as [[a d']|e] eqn:E; simpl; [|by rewrite Hσ].
  destruct (Hm now _ _ _ Hσ E) as [H1 H2]. unfold row_view. by rewrite run_db_set.
Qed.

Lemma command_runs v s c :
  s.(state_scope) = x → run_ok (command_tools s c) →
  runs x v (command deps s c) (λ _ v', v' = Some (command_tools s c, command_phase s c)).
Proof.
  intros Hx Hc. unfold command. apply runs_after; [apply quiet_check|]. intros [].
  rewrite Hx. apply store_call_runs. intros now d [] d' _ H.
  destruct (run_command_row _ _ _ _ _ _ _ H) as (r & Hr & Ht & Hp). rewrite Hr. simpl. rewrite Ht, Hp.
  split; [|done]. by intros t ph [= <- <-].
Qed.

Lemma commit_runs v s c :
  s.(state_scope) = x → run_ok (command_tools s c) →
  runs x v (commit deps s c) (λ s' v', v' = Some (command_tools s c, command_phase s c) ∧
    s'.(state_scope) = x ∧ state_tools s' = command_tools s c).
Proof.
  intros Hx Hc. unfold commit. eapply runs_then; [by apply command_runs|]. simpl. intros _ ? ->.
  eapply runs_mono; [by apply reload_runs|]. simpl. by intros s' v' (-> & H1 & H2 & _).
Qed.

Lemma save_runs v s :
  mine s → runs x v (save_run deps s) (λ _ v', v' = (λ _, (state_tools s, s.(state_phase))) <$> v).
Proof.
  intros [Hx Hok]. unfold save_run. apply store_call_runs. intros now d [] d' Hv H v'.
  unfold saveRun in H. apply mthen_ok in H as (b & d1 & H1 & H2). apply result_links_same in H2.
  subst v'. rewrite (same_journal_scoped _ _ _ H2). unfold update_arun in H1. rewrite Hx in H1.
  destruct (scoped_run x d) as [r|] eqn:Hs.
  - destruct (_ && _); [|done]. injection H1 as _ <-. apply scoped_run_some in Hs as [_ Hs].
    rewrite put_arun_scoped by done. subst v. simpl. split; [|done]. by intros t ph [= <- <-].
  - injection H1 as _ <-. rewrite Hs. subst v. by split.
Qed.

(** ** Outcomes *)

Definition outcome_phase (o : RunOutcome) : RunBudget.RunPhase :=
  match o with
  | outcome_completed _ _ _ _ => RunBudget.phase_completed
  | outcome_suspended _ _ r _ _ => suspended_phase r
  | outcome_failed _ _ _ _ => RunBudget.phase_failed
  end.
Definition settled (o : RunOutcome) (v : RowView) : Prop := ∃ t, v = Some (t, outcome_phase o).

Lemma failRun_runs v s code : mine s → runs x v (failRun deps s code) settled.
Proof.
  intros [Hx Hok]. unfold failRun. eapply runs_then; [by apply command_runs|]. simpl. intros _ ? ->.
  eapply runs_then; [by apply reload_runs|]. simpl. intros s' ? (-> & _).
  apply runs_after; [apply quiet_read|]. intros n. apply runs_ret. by eexists.
Qed.
Lemma completeRun_runs v s reply : mine s → runs x v (completeRun deps s reply) settled.
Proof.
  intros [Hx Hok]. unfold completeRun. eapply runs_then; [by apply command_runs|]. simpl. intros _ ? ->.
  eapply runs_then; [by apply reload_runs|]. simpl. intros s' ? (-> & _).
  apply runs_after; [apply quiet_read|]. intros n. apply runs_ret. by eexists.
Qed.
Lemma suspendOutcome_runs t s r c :
  runs x (Some (t, suspended_phase r)) (suspendOutcome s r c) settled.
Proof. apply runs_after; [apply quiet_read|]. intros n. apply runs_ret. by eexists. Qed.

(** ** The model call *)

Lemma runs_fine {A} v (m : E S A) Q : (fine v → runs x v m Q) → runs x v m Q.
Proof. intros H Hf. by apply H. Qed.

Lemma reload_mine v s :
  mine s → runs x v (reload s) (λ s' v', v' = v ∧ mine s' ∧ ∀ k, calls k v → held k s' v').
Proof.
  intros [Hx Hok]. apply runs_fine. intros Hf. eapply runs_mono; [by apply reload_runs|]. simpl.
  intros s' v' (-> & Hx' & Hv). split; [done|]. assert (mine s') as Hm.
  { split; [done|]. destruct v as [[t ph]|]; [|by subst]. destruct Hv as [-> _]. by eapply Hf. }
  split; [done|]. intros k (t & ph & -> & Hk). destruct Hv as [E _]. split_and!; [done|by rewrite E|by exists t, ph].
Qed.

Lemma save_held v s s' :
  mine s' → state_tools s = state_tools s' → s.(state_scope) = s'.(state_scope) →
  runs x v (save_run deps s) (λ _ v', ∀ k, calls k v → (state_tools s').(v_model) = k → held k s' v').
Proof.
  intros [Hx Hok] Ht Hs. eapply runs_mono; [apply save_runs; unfold mine; by rewrite Ht, Hs|].
  simpl. intros _ v' -> k (t & ph & -> & _) Hk. split_and!; [done|done|]. eexists _, _. split; [done|by rewrite Ht].
Qed.

Lemma charge_failure_runs v s p :
  mine s → runs x v (charge_failure deps s p) (λ s' v', mine s' ∧ ∀ k, calls k v → held k s' v').
Proof.
  intros Hm. unfold charge_failure. eapply runs_then; [by apply reload_mine|]. simpl. intros s' ? (-> & Hm' & Hk).
  eapply runs_then; [by apply (save_held v _ s')|]. simpl. intros _ v' Hv. apply runs_ret. split; [done|].
  intros k Hc. apply Hv; [done|]. by destruct (Hk k Hc) as (_ & E & _).
Qed.

Lemma success_tools s us a b :
  state_tools (with_budget s (RunBudget.chargeSuccessfulModelAttempt s.(state_budget) us a b)) = state_tools s.
Proof. by destruct us. Qed.

Lemma settle_completion_runs k v s n second bytes started c :
  mine s → calls k v →
  runs x v (settle_completion deps s n second bytes started c) (λ _ v', calls k v').
Proof.
  intros Hm Hc. unfold settle_completion. eapply runs_then; [by apply reload_mine|]. simpl.
  intros s' ? (-> & Hm' & Hk). destruct (Hk k Hc) as ([Hx Hok] & Hk' & _). clear Hk.
  apply runs_after; [apply keep_clock, Hports|]. intros ended.
  pose proof (success_tools s' (safe_usage (completion_usage c)) bytes (Z.of_N (utf8_length (completion_json c)))) as E.
  eapply runs_mono; [apply command_runs; [done|]|].
  - change (run_ok (state_tools (with_budget s' (RunBudget.chargeSuccessfulModelAttempt s'.(state_budget)
      (safe_usage (completion_usage c)) bytes (Z.of_N (utf8_length (completion_json c))))))). by rewrite E.
  - simpl. intros _ v' ->. eexists _, _. split; [done|]. by rewrite <-Hk', <-E.
Qed.

Lemma second_attempt_runs k v s p messages tools n :
  mine s → calls k v →
  runs x v (second_attempt deps s p messages tools n) (λ _ v', calls k v').
Proof.
  intros Hm Hc. unfold second_attempt. eapply runs_then; [by apply charge_failure_runs|]. simpl.
  intros s1 v1 (Hm1 & Hk1). eapply runs_then; [by apply reload_mine|]. simpl.
  intros s2 ? (-> & _ & Hk2). destruct (Hk2 k) as ([Hx2 Hok2] & Hm2 & _); [by apply Hk1|].
  eapply runs_then; [by apply command_runs|]. simpl. intros _ ? ->.
  eapply runs_mono; [apply runs_quiet, keep_second, Hports|]. simpl. intros c ? ->. by eexists _, _.
Qed.

Definition completed_model (k : Z) (out : failure * bool + ToolCompletion) (v : RowView) : Prop :=
  match out with inl _ => True | inr _ => calls k v end.

Lemma attempt_model_runs k v s p messages tools n bytes started :
  mine s → calls k v →
  runs x v (attempt_model deps s p messages tools n bytes started) (completed_model k).
Proof.
  intros Hm Hc. unfold attempt_model.
  eapply runs_then; [apply runs_attempt, runs_quiet, keep_first, Hports|]. simpl.
  intros [e|[c|]] v'; [intros _; by apply runs_ret|intros ->|intros ->].
  - eapply runs_then; [by apply runs_attempt, (settle_completion_runs k)|]. simpl.
    intros [e|[]] v' H; by apply runs_ret.
  - eapply runs_then; [apply runs_attempt; eapply runs_then; [by apply (second_attempt_runs k)|]|].
    + simpl. intros c v' Hc'. eapply runs_then; [by apply (settle_completion_runs k)|]. simpl. intros _ v2 Hv2.
      apply (runs_ret x v2 c (λ _, calls k)). exact Hv2.
    + simpl. intros [e|c] v' H; by apply runs_ret.
Qed.

Lemma charge_wall_runs v s started :
  mine s → runs x v (charge_wall deps s started) (λ _ v', ∀ k, calls k v → calls k v').
Proof.
  intros Hm. unfold charge_wall. eapply runs_then; [by apply reload_mine|]. simpl. intros s' ? (-> & Hm' & Hk).
  apply runs_after; [apply keep_clock, Hports|]. intros ended.
  eapply runs_mono; [by apply (save_held v _ s')|]. simpl. intros _ v' Hv k Hc.
  destruct (Hk k Hc) as (_ & E & _). by destruct (Hv k Hc E) as (_ & _ & ?).
Qed.

Lemma charge_caught_runs v s p second :
  mine s → runs x v (charge_caught deps s p second) (λ s' _, mine s').
Proof.
  intros Hm. unfold charge_caught. eapply runs_then; [by apply reload_mine|]. simpl. intros s' ? (-> & Hm' & _).
  destruct second; [|by apply runs_ret]. eapply runs_mono; [by apply charge_failure_runs|]. by intros s2 v2 [H _].
Qed.

Lemma counted_ok s k :
  run_ok (state_tools s) → (state_tools s).(v_model) = k → k < RunBudget.maxModelCalls RunBudget.V2_LIMITS →
  ∀ n, run_ok (command_tools s (started_command s n false)).
Proof. intros [H1 H2 H3 H4] Hk Hlt n. split; try done. simpl in *. lia. Qed.

Lemma callModel_runs k v s messages tools n :
  mine s → (state_tools s).(v_model) = k → k < RunBudget.maxModelCalls RunBudget.V2_LIMITS →
  runs x v (callModel deps s messages tools n) (λ _ v', calls (k + 1) v').
Proof.
  intros Hm Hk Hlt. unfold callModel. destruct (RunBudget.preflightModelRequest _ _) as [p|]; [|apply runs_throw].
  eapply runs_then; [apply command_runs; [by destruct Hm|by eapply counted_ok, Hlt; [apply Hm|]]|]. simpl. intros _ ? ->.
  eapply runs_then; [by apply reload_mine|]. simpl. intros s1 ? (-> & Hm1 & _).
  apply runs_after; [apply keep_clock, Hports|]. intros started.
  eapply runs_then; [apply (attempt_model_runs (k + 1)); [done|]|].
  { eexists _, _. split; [done|]. simpl. by rewrite <-Hk. }
  intros [[e second]|c] v' H; simpl in H.
  - eapply runs_then; [by apply runs_attempt, charge_caught_runs|]. simpl. intros caught v2 Hc.
    eapply runs_then; [apply charge_wall_runs; by destruct caught|]. simpl. intros _ v3 _. apply runs_throw.
  - eapply runs_then; [by apply charge_wall_runs|]. simpl. intros _ v2 Hv. apply runs_ret. by apply Hv.
Qed.

(** ** Searches, reads and denials *)

Lemma commit_keeps v s c k :
  mine s → (state_tools s).(v_model) = k → command_tools s c = state_tools s →
  runs x v (commit deps s c) (λ s' v', held k s' v' ∧ state_tools s' = state_tools s).
Proof.
  intros [Hx Hok] Hk Hc. eapply runs_mono; [apply commit_runs; [done|by rewrite Hc]|].
  rewrite Hc. intros s' v' (-> & H1 & H2). unfold held, mine, calls. rewrite H2. eauto 10.
Qed.
Lemma commit_next v s c k :
  mine s → run_ok (command_tools s c) → (command_tools s c).(v_model) = k →
  runs x v (commit deps s c) (λ s' v', held k s' v' ∧ state_tools s' = command_tools s c).
Proof.
  intros [Hx Hok] Hc Hk. eapply runs_mono; [by apply commit_runs|].
  intros s' v' (-> & H1 & H2). unfold held, mine, calls. rewrite H2. eauto 10.
Qed.

Lemma deny_call_runs v s c code r k :
  held k s v → runs x v (deny_call deps s c code r) (λ s' v', held k s' v' ∧ state_tools s' = state_tools s).
Proof. intros (Hm & Hk & _). by apply commit_keeps. Qed.

Lemma search_call_runs fuel v s index c i k :
  held k s v → RunBudget.canReserveDiscoveryCall s.(state_budget) = true → is_discovery c = true →
  runs x v (search_call deps fuel s index x c i) (λ out v', ∃ s' o, out = Some (s', o) ∧ held k s' v').
Proof.
  intros (Hm & Hk & _) Hd Hc. apply Z.ltb_lt in Hd. unfold search_call.
  eapply runs_then; [apply (commit_next _ _ _ k); [done| |done]|].
  { destruct Hm as [_ [H1 H2 H3 H4]]. split; try done. simpl in *. lia. }
  simpl. intros s1 v1 (([Hx1 [H1 H2 H3 H4]] & Hk1 & _) & _). apply runs_after; [apply keep_search, Hports|]. intros found.
  destruct (refine_some s1.(state_loaded) s1.(state_used) found) as (l & Hl & Hok & _).
  { apply Nat2Z.inj_le. etrans; [apply H3|by apply H3]. }
  rewrite Hl. unfold is_discovery in Hc. apply bool_decide_eq_true in Hc.
  eapply runs_then; [apply (commit_keeps _ _ _ k); [|done|done]|].
  - split; [done|]. split; try done. simpl. rewrite Hc, used_tools_search. exact H3.
  - intros s2 v2 [H _]. apply runs_ret. by eexists _, _.
Qed.

Lemma discovery_runs fuel index l : ∀ v s acc k,
  held k s v → (∀ c, c ∈ l → is_discovery c = true) →
  runs x v (executeDiscoveryBatch deps fuel s index x l acc) (λ out v', ∃ s' o, out = Some (s', o) ∧ held k s' v').
Proof.
  revert index. induction l as [|c l IH]; intros index v s acc k Hh Hl; simpl; [apply runs_ret; by eexists _, _|].
  assert (∀ c, c ∈ l → is_discovery c = true) as Hl' by (intros d Hd; apply Hl; by apply list_elem_of_further).
  destruct (RunBudget.canReserveDiscoveryCall s.(state_budget)) eqn:Hd; simpl;
    [|eapply runs_then; [by apply deny_call_runs|]; intros s' v' [H _]; by apply IH].
  destruct (parseFindApiOperationsInput _) as [i|];
    [|eapply runs_then; [by apply deny_call_runs|]; intros s' v' [H _]; by apply IH].
  eapply runs_then; [apply search_call_runs; [done|done|apply Hl, list_elem_of_here]|].
  intros out v' (s' & o & -> & H). by apply IH.
Qed.

Lemma use_tool_ok s n :
  run_ok (state_tools s) → Z.of_nat (used_tools s.(state_used)) < (state_tools s).(v_api) →
  run_ok (state_tools (use_tool n s)).
Proof.
  intros [H1 H2 H3 H4] Hu. split; try done. simpl in *. pose proof (used_tools_add s.(state_used) n). lia.
Qed.

Definition api_used (s : RunState) : Z := RunBudget.apiCallsUsed s.(state_budget).

Lemma journal_read_runs v s c o k :
  held k s v → api_used s < RunBudget.maxApiCalls RunBudget.V2_LIMITS →
  runs x v (journal_read deps s c o) (λ r v', held k r.1.1 v' ∧ api_used r.1.1 = api_used s + 1).
Proof.
  intros (Hm & Hk & _) Hlt. unfold journal_read. eapply runs_then; [by apply (commit_keeps _ _ _ k)|].
  intros s1 v1 [(Hm1 & Hk1 & Hc1) Ht1]. assert (run_ok (command_tools s1 (CStartTool (call_id c) (call_name c)))) as Hok.
  { destruct Hm1 as [_ [H1 H2 H3 H4]]. split; try done.
    apply (f_equal v_api) in Ht1. unfold api_used in Hlt. simpl in *. lia. }
  eapply runs_then; [by apply (commit_next _ _ _ k)|]. intros s2 v2 [(Hm2 & Hk2 & Hc2) Ht2].
  assert (mine (use_tool (call_name c) s2)) as Hm3.
  { destruct Hm2 as [Hx Ho]. split; [done|]. apply use_tool_ok; [done|].
    pose proof (f_equal v_api Ht2) as E1. pose proof (f_equal v_used Ht2) as E2. simpl in E1, E2. simpl. rewrite E1, E2.
    destruct Hm1 as [_ [_ _ H3 _]]. simpl in H3. lia. }
  assert (api_used s2 = api_used s + 1) as Ha.
  { apply (f_equal v_api) in Ht1, Ht2. unfold api_used. simpl in *. lia. }
  assert (held k (use_tool (call_name c) s2) v2) as Hh by by split_and!.
  assert (∀ s3 v3, held k s3 v3 ∧ state_tools s3 = state_tools (use_tool (call_name c) s2) →
    held k s3 v3 ∧ api_used s3 = api_used s + 1) as Hend.
  { intros s3 v3 [H3 E]. split; [done|]. apply (f_equal v_api) in E. unfold api_used in *. simpl in *. lia. }
  destruct o as [result summary|q result|code r|code result|code r]; simpl;
    [|by apply runs_ret|..];
    (eapply runs_then; [by apply (commit_keeps _ _ _ k)|]; intros s3 v3 H; apply runs_ret; by apply Hend).
Qed.

Lemma journal_reads_runs l : ∀ v s acc question k,
  held k s v → api_used s + Z.of_nat (length l) ≤ RunBudget.maxApiCalls RunBudget.V2_LIMITS →
  runs x v (journal_reads deps s l acc question) (λ r v', held k r.1.1 v').
Proof.
  induction l as [|[c o] l IH]; intros v s acc question k Hh Hlen; simpl; [by apply runs_ret|].
  cbn [length] in Hlen. eapply runs_then; [apply (journal_read_runs _ _ _ _ k); [done|lia]|].
  intros [[s' obs] q] v' [H E]. cbn [fst snd] in *. apply IH; [done|lia].
Qed.

Lemma pool_outcomes_runs v calls : ∀ outcomes,
  runs x v (pool_outcomes deps calls outcomes) (λ l v', v' = v ∧ length l = length calls).
Proof.
  induction calls as [|c calls IH]; intros outcomes; simpl; [by apply runs_ret|].
  apply runs_after.
  - destruct outcomes as [|[o|] l]; [..|apply quiet_ret| ];
      (apply quiet_bind; [apply keep_signal, Hports|]; intros b; apply quiet_ret).
  - intros o. eapply runs_then; [apply IH|]. simpl. intros l v' [-> E]. apply runs_ret. split; [done|]. simpl. by rewrite E.
Qed.

Definition waits (r : SuspendReason) (v : RowView) : Prop := ∃ t, v = Some (t, suspended_phase r).

Lemma suspend_on_question_runs v s q r :
  mine s → runs x v (suspend_on_question deps s q r) (λ _, waits awaiting_clarification).
Proof.
  intros [Hx Hok]. unfold suspend_on_question. eapply runs_mono; [by apply commit_runs|].
  simpl. intros s' v' (-> & _). by eexists.
Qed.

Lemma remaining_ok s (l : list ToolCall) :
  mine s → (length (take (remaining_calls s) l) ≤ remaining_calls s)%nat ∧
  api_used s + Z.of_nat (length (take (remaining_calls s) l)) ≤ RunBudget.maxApiCalls RunBudget.V2_LIMITS.
Proof.
  intros [_ [_ _ H _]]. rewrite length_take. split; [lia|]. unfold remaining_calls, api_used. simpl in *. lia.
Qed.

Lemma executeReads_runs ceiling v s l k :
  held k s v →
  runs x v (executeReads deps ceiling s l) (λ r v',
    match r.1.2 with Some _ => waits awaiting_clarification v' | None => held k r.1.1.1 v' end).
Proof.
  intros Hh. pose proof Hh as (Hm & _). unfold executeReads. destruct (remaining_ok s l Hm) as [_ Hlen].
  destruct Hm as [Hx _]. rewrite Hx. apply runs_after; [apply keep_reads, Hports|]. intros outcomes.
  eapply runs_then; [apply pool_outcomes_runs|]. simpl. intros ro ? [-> E].
  eapply runs_then; [apply (journal_reads_runs _ _ _ _ _ k); [done|by rewrite E]|].
  intros [[s' obs] [[q result]|]] v' H; simpl in *; [|by apply runs_ret].
  eapply runs_then; [apply suspend_on_question_runs, H|]. simpl. intros s2 v2 H2. by apply runs_ret.
Qed.

Lemma recordDenials_runs l : ∀ v s acc k,
  held k s v → runs x v (recordDenials deps s l acc) (λ r v', held k r.1 v').
Proof.
  induction l as [|d l IH]; intros v s acc k Hh; simpl; [by apply runs_ret|].
  destruct Hh as (Hm & Hk & _). eapply runs_then; [by apply (commit_keeps _ _ _ k)|].
  intros s' v' [H _]. by apply IH.
Qed.

(** ** Writes *)

Lemma deny_calls_runs l : ∀ v s code k,
  held k s v → runs x v (deny_calls deps s l code) (λ s' v', held k s' v' ∧ state_tools s' = state_tools s).
Proof.
  induction l as [|c l IH]; intros v s code k Hh; simpl; [by apply runs_ret|].
  eapply runs_then; [by apply deny_call_runs|]. intros s' v' [H E].
  eapply runs_mono; [by apply IH|]. intros s2 v2 [H2 E2]. by rewrite E2, E.
Qed.
Lemma request_calls_runs l : ∀ v s k,
  held k s v → runs x v (request_calls deps s l) (λ s' v', held k s' v').
Proof.
  induction l as [|c l IH]; intros v s k Hh; simpl; [by apply runs_ret|].
  destruct Hh as (Hm & Hk & _). eapply runs_then; [by apply (commit_keeps _ _ _ k)|]. intros s' v' [H E]. by apply IH.
Qed.

Lemma prepare_calls_runs v s l :
  mine s → runs x v (prepare_calls deps s l) (λ p v',
    match p with
    | prepared _ _ _ => v' = (λ v, (v.1, RunBudget.phase_awaiting_confirmation)) <$> v
    | _ => v' = v
    end).
Proof.
  intros [Hx _] Hf σ Hσ. unfold prepare_calls, etry. rewrite Hx. pose proof (keep_prepare Hports l σ) as H.
  destruct (prepare deps l x σ) as [[e|p] σ']; simpl in *; [by rewrite H, Hσ|].
  destruct p; rewrite Hσ in H; split; try (by rewrite H); [].
  rewrite H. intros t ph Ht. destruct v as [[t0 ph0]|]; [|done]. injection Ht as <- _. by eapply Hf.
Qed.

Definition after_writes (k : Z) (r : RunState * list RunObservation * Suspension) (v : RowView) : Prop :=
  match r.2 with
  | no_suspension => held k r.1.1 v
  | on_confirmation _ => waits awaiting_confirmation v
  | on_question _ => waits awaiting_clarification v
  end.

Lemma prepareWrites_runs v s l fallback k :
  held k s v → runs x v (prepareWrites deps s l fallback) (after_writes k).
Proof.
  intros Hh. unfold prepareWrites. destruct (remaining_ok s l (proj1 Hh)) as [_ Hlen].
  eapply runs_then; [by apply deny_calls_runs|]. intros s1 v1 [Hh1 E1].
  assert (api_used s1 = api_used s) as Ea by exact (f_equal v_api E1). clear E1.
  destruct (take (remaining_calls s) l) as [|c admitted] eqn:El; [by apply runs_ret|].
  set (s2 := with_budget s1 _). destruct Hh1 as ([Hx1 [H1 H2 H3 H4]] & Hk1 & Hc1).
  assert (mine s2) as Hm2 by (split; [done|]; split; try done; unfold api_used in *; simpl in *; lia).
  eapply runs_then; [by apply (save_held _ _ s2)|]. intros [] v2 Hv2; cbn beta in Hv2.
  eapply runs_then; [apply (request_calls_runs _ _ _ k); by apply Hv2|]. intros s3 v3 Hh3.
  eapply runs_then; [apply prepare_calls_runs, Hh3|]. intros p v4 Hp. destruct Hh3 as (Hm3 & Hk3 & Hc3).
  destruct p as [ops confs batch|q result|code r|result]; simpl; [subst v4..].
  - eapply runs_then; [by apply reload_mine|]. simpl. intros s5 ? (-> & _). apply runs_ret.
    destruct Hc3 as (t & ph & -> & _). by eexists.
  - eapply runs_then; [by apply suspend_on_question_runs|]. intros s5 v5 H. by apply runs_ret.
  - eapply runs_then; [by apply (deny_calls_runs (c :: admitted) _ _ _ k)|]. intros s6 v6 [H6 _]. by apply runs_ret.
  - eapply runs_then; [by apply (commit_keeps _ _ _ k)|]. intros s5 v5 [H5 _]. by apply runs_ret.
Qed.

(** ** Rounds *)

Lemma still_current_quiet : quiet x (still_current deps).
Proof.
  unfold still_current. destruct (isCurrent deps) as [c|] eqn:E; [by eapply keep_installed|apply quiet_ret].
Qed.

Definition after_phases (k : Z) (out : option (RunOutcome + RunState * list RunObservation)) (v : RowView) : Prop :=
  match out with
  | Some (inl o) => settled o v
  | Some (inr (s, _)) => held k s v
  | None => False
  end.

Lemma fail_phases k v s code :
  mine s → runs x v (let* o := failRun deps s code in eret (Some (inl o))) (after_phases k).
Proof. intros Hm. eapply runs_then; [by apply failRun_runs|]. intros o v' H. by apply runs_ret. Qed.
Lemma suspend_phases k v s r c :
  waits r v → runs x v (let* o := suspendOutcome s r c in eret (Some (inl o))) (after_phases k).
Proof. intros [t ->]. eapply runs_then; [apply suspendOutcome_runs|]. intros o v' H. by apply runs_ret. Qed.

Lemma discovery_only r loaded catalog auth prior l c :
  c ∈ (partitionToolCalls r loaded catalog auth prior l).(discoveryCalls) → is_discovery c = true.
Proof.
  unfold partitionToolCalls. destruct (validateCompletionToolCalls _ _ _ _ _ _) as [accepted no]. simpl.
  by intros [H _]%list_elem_of_filter.
Qed.

Lemma run_phases_runs ceiling fuel v s calls k :
  held k s v → runs x v (run_phases deps ceiling fuel s calls) (after_phases k).
Proof.
  intros Hh. unfold run_phases. cbv zeta. pose proof (proj1 (proj1 Hh)) as Hx. rewrite Hx.
  pose proof (discovery_only deps.(actionRegistry) s.(state_loaded) s.(state_catalog) x.(scope_auth)
    (completed_call <$> s.(state_completed)) calls) as Hd.
  destruct (partitionToolCalls _ _ _ _ _ _) as [reads writes searches denials dup]. simpl in *.
  destruct dup; [apply fail_phases, Hh|].
  eapply runs_then; [by apply (discovery_runs _ _ _ _ _ _ k); [|intros c Hc; apply Hd]|].
  intros ? v1 (s1 & obs1 & -> & Hh1). eapply runs_then; [by apply (executeReads_runs _ _ _ _ k)|].
  intros [[[s2 obs2] [q|]] excess] v2 H2; cbn [fst snd] in H2; [by apply suspend_phases|].
  apply runs_after; [apply still_current_quiet|]. intros [|]; simpl; [|apply fail_phases, H2].
  eapply (runs_then x _ _ _ (after_writes k)); [destruct writes; [by apply runs_ret|by apply prepareWrites_runs]|].
  intros [[s3 obs3] [|id|q]] v3 H3; cbn [after_writes fst snd] in H3; [|by apply suspend_phases..].
  eapply runs_then; [by apply (recordDenials_runs _ _ _ _ k)|]. intros [s4 obs4] v4 H4. by apply runs_ret.
Qed.

Lemma guarded_phases_runs ceiling fuel v s calls k :
  held k s v → runs x v (guarded_phases deps ceiling fuel s calls) (after_phases k).
Proof.
  intros Hh. apply runs_try; [by apply run_phases_runs|]. intros e v'.
  eapply runs_then; [apply reload_mine, Hh|]. simpl. intros s' ? (-> & Hm & _). by apply fail_phases.
Qed.

Definition after_round (k : Z) (out : option (RunOutcome + LoopState)) (v : RowView) : Prop :=
  match out with
  | Some (inl o) => settled o v
  | Some (inr st) => held k st.(loop_run) v
  | None => False
  end.
Lemma fail_round k v s code :
  mine s → runs x v (let* o := failRun deps s code in eret (Some (inl o))) (after_round k).
Proof. intros Hm. eapply runs_then; [by apply failRun_runs|]. intros o v' H. by apply runs_ret. Qed.

Lemma close_round_runs v st s calls obs started k :
  held k s v → runs x v (close_round deps st s calls obs started) (λ y, after_round k (Some y)).
Proof.
  intros (Hm & _ & Hc). unfold close_round. apply runs_after; [apply keep_clock, Hports|]. intros ended.
  eapply runs_then; [by apply reload_mine|]. simpl. intros s1 ? (-> & _ & Hk). specialize (Hk k Hc). destruct Hk as (Hm1 & Hk1 & _).
  eapply runs_then; [by apply (save_held _ _ (with_budget s1 (with_wall (Z.max 0 (ended - started)) s1.(state_budget))))|].
  simpl. intros _ v2 Hv2. specialize (Hv2 k Hc Hk1). destruct (_ && _).
  - eapply runs_then; [apply failRun_runs, Hv2|]. intros o v3 H. by apply runs_ret.
  - by apply runs_ret.
Qed.

Lemma after_model_runs ceiling fuel v st s c k :
  held k s v → runs x v (after_model deps ceiling fuel st s c) (after_round k).
Proof.
  intros Hh. unfold after_model. apply runs_after; [apply still_current_quiet|].
  intros [|]; simpl; [|apply fail_round, Hh]. apply runs_after; [apply keep_clock, Hports|]. intros started.
  destruct (completion_calls c) as [|call calls].
  - eapply runs_then; [apply completeRun_runs, Hh|]. intros o v' H. by apply runs_ret.
  - eapply runs_then; [by apply (guarded_phases_runs _ _ _ _ _ k)|].
    intros [[o|[s' obs]]|] v' H; simpl in H; [by apply runs_ret| |done].
    eapply runs_then; [by apply close_round_runs|]. intros y v2 H2. by apply runs_ret.
Qed.

Lemma quiet_summaries l : quiet x (resume_summaries (S := S) l).
Proof.
  induction l as [|r l IH]; simpl; [apply quiet_ret|]. apply quiet_bind; [apply quiet_bind; [apply quiet_read|intros; apply quiet_ret]|].
  intros t. apply quiet_bind; [done|intros; apply quiet_ret].
Qed.
Lemma quiet_check_tools s : quiet x (check_tools deps s).
Proof. unfold check_tools. destruct (negb _); [done|]. by case_bool_decide. Qed.

Lemma run_round_runs ceiling fuel resuming followUp v st k :
  held k st.(loop_run) v → k < RunBudget.maxModelCalls RunBudget.V2_LIMITS →
  runs x v (run_round deps ceiling fuel resuming followUp st) (after_round (k + 1)).
Proof.
  intros Hh Hlt. unfold run_round. cbv zeta. apply runs_after; [apply keep_signal, Hports|].
  intros [|]; simpl; [apply fail_round, Hh|].
  apply runs_after; [destruct (_ && _); [apply quiet_summaries|apply quiet_ret]|]. intros summaries.
  apply runs_after; [apply quiet_check_tools|]. intros _. destruct Hh as (Hm & Hk & Hc).
  eapply runs_then; [by apply runs_attempt, (callModel_runs k)|]. intros [e|c] v' H; [by apply fail_round|].
  eapply runs_then; [by apply reload_mine|]. simpl. intros s' ? (-> & _ & H'). by apply after_model_runs, H'.
Qed.

Definition ends (out : option RunOutcome) (v : RowView) : Prop := ∃ o, out = Some o ∧ settled o v.

Lemma run_loop_runs ceiling resuming followUp fuel : ∀ v st k,
  held k st.(loop_run) v → RunBudget.maxModelCalls RunBudget.V2_LIMITS - k ≤ Z.of_nat fuel →
  runs x v (run_loop deps ceiling fuel resuming followUp st) ends.
Proof.
  induction fuel as [|fuel IH]; intros v st k Hh Hf; simpl; destruct (may_go_on _) eqn:Hg;
    try (eapply runs_then; [apply failRun_runs, Hh|]; intros o v' H; apply runs_ret; by exists o);
    assert (k < RunBudget.maxModelCalls RunBudget.V2_LIMITS) as Hlt
      by (unfold may_go_on, RunBudget.canReserveModelCall in Hg; destruct Hh as (_ & <- & _); simpl; zbool; simpl in *; lia);
    [lia|].
  eapply runs_then; [by apply (run_round_runs _ _ _ _ _ _ k)|].
  intros [[o|st']|] v' H; simpl in H; [apply runs_ret; by exists o| |done]. apply (IH _ _ (k + 1)); [done|lia].
Qed.

(** ** The run *)

Lemma seed_ok r prior l : seedCacheFromPriorRun r prior = Ok l → tools_ok l.
Proof. unfold seedCacheFromPriorRun. destruct prior as [[[? ?] ?]|]; [case_bool_decide|]; apply initial_ok. Qed.

Lemma started_row i now d e d' :
  startRunWithEvent i now d = Ok (e, d') →
  scoped_run i.(start_scope) d' = Some (started_run i now).
Proof.
  intros H. unfold startRunWithEvent in H. apply mthen_ok in H as (y & d1 & H1 & H).
  apply mthen_ok in H as (d0 & d2 & [= <- <-] & H). apply mthen_ok in H as (z & d3 & H3 & H4).
  rewrite (allocate_scoped _ _ _ _ _ _ _ H4), (same_journal_scoped _ _ _ (request_link_same _ _ _ _ _ _ H3)).
  unfold insert_run_rows in H1. apply mthen_ok in H1 as (w & d4 & _ & H1). unfold insert_arun in H1.
  repeat case_match; simplify_eq; apply put_arun_scoped; unfold in_run_scope, started_run; simpl;
    by rewrite !bool_decide_eq_true_2.
Qed.

Lemma started_ok i now : tools_ok i.(start_loaded) → run_ok (arun_tools (started_run i now)).
Proof. intros H. split; [by simpl..|done]. Qed.

Lemma start_run_runs i request :
  i.(run_scope) = x → runs x None (start_run deps i request) (held 0).
Proof.
  intros Hx. unfold start_run. rewrite Hx. apply runs_after; [apply keep_now, Hports|]. intros now.
  apply runs_after; [apply quiet_read|]. intros prior. destruct (seedCacheFromPriorRun _ _) as [loaded|e] eqn:E;
    [|apply runs_throw]. apply seed_ok in E. cbn [elift].
  apply (runs_then x None _ _ (λ a v', a = loaded ∧ v' = None)); [by apply runs_ret|]. intros ? ? [-> ->].
  apply runs_after; [apply keep_now, Hports|]. intros created.
  apply runs_after; [apply quiet_check|]. intros [].
  set (input := start_input deps i request loaded).
  eapply (runs_then x _ _ _ (λ _ v', ∃ now, v' = Some (arun_tools (started_run input now), RunBudget.phase_model))).
  - apply store_call_runs. intros now' d [] d' _ [a H]%ignore_ok. apply started_row in H.
    change (scoped_run i.(run_scope) d' = Some (started_run input now')) in H. rewrite Hx in H. rewrite H. simpl.
    split; [intros t ph [= <- _]; by apply started_ok|by eexists].
  - simpl. intros _ v' [now' ->]. intros Hf σ Hσ. simpl. rewrite Hσ. split; [done|]. unfold row_view in Hσ.
    unfold getRun. destruct (scoped_run x (run_db σ)) as [r|]; [|done]. simpl.
    apply (inj Some), pair_equal_spec in Hσ as [Ht Hp].
    assert (run_ok (arun_tools r)) as Hok by (rewrite Ht; by apply started_ok).
    split_and!; [by split|change (v_model (arun_tools r) = 0); by rewrite Ht|].
    eexists _, _. by split.
Qed.

Definition run_ends (v : RowView) (out : option RunOutcome) (v' : RowView) : Prop :=
  ∃ o, out = Some o ∧ (settled o v' ∨
    (v = None ∧ v' = None ∧ o = outcome_failed x.(scope_run) 0 (u "missing_original_request") [])).

Lemma enter_loop_runs ceiling fuel resuming i v s k :
  held k s v → RunBudget.maxModelCalls RunBudget.V2_LIMITS - k ≤ Z.of_nat fuel →
  runs x v (enter_loop deps ceiling fuel resuming i s) ends.
Proof.
  intros Hh Hf. unfold enter_loop. apply runs_after; [apply keep_signal, Hports|]. intros [|]; simpl.
  - eapply runs_then; [apply failRun_runs, Hh|]. intros o v' H. apply runs_ret. by exists o.
  - by apply (run_loop_runs _ _ _ _ _ _ k).
Qed.

(** The row of a run that is over or waits is its answer. *)
Lemma answer_runs s answer t ph :
  s.(state_phase) = ph → answer_from_row s = Some answer → runs x (Some (t, ph)) answer settled.
Proof.
  intros <- H. unfold answer_from_row in H.
  destruct (state_phase s); try done; injection H as <-; try apply suspendOutcome_runs;
    apply runs_after; try apply quiet_read; intros n; apply runs_ret; by eexists.
Qed.

Lemma run_assistant_runs ceiling fuel i v :
  i.(run_scope) = x → (6 ≤ fuel)%nat →
  runs x v (run_assistant deps ceiling fuel i) (run_ends v).
Proof.
  intros Hx Hf. apply runs_fine. intros Hok. unfold run_assistant. rewrite Hx.
  apply runs_after; [apply keep_current, Hports|]. intros [].
  eapply (runs_then x _ _ _ (λ s v', v' = v ∧ match s with
      | Some s => ∃ t ph, v = Some (t, ph) ∧ s.(state_scope) = x ∧ state_tools s = t ∧ s.(state_phase) = ph
      | None => v = None end)).
  { intros _ σ <-. simpl. split; [done|]. split; [done|]. unfold row_view, getRun.
    destruct (scoped_run x (run_db σ)); simpl; [|done]. by eexists _, _. }
  intros [s|] v' [-> Hs].
  - destruct Hs as (t & ph & Hv & Hsx & Ht & Hp). destruct (answer_from_row s) as [answer|] eqn:Ha.
    + rewrite Hv. eapply runs_then; [by apply (answer_runs s)|]. intros o v' H. apply runs_ret. eexists. eauto.
    + assert (run_ok t) as Hr by by eapply Hok. eapply runs_mono.
      * apply (enter_loop_runs _ _ _ _ _ _ t.(v_model)).
        { split_and!; [split; [done|by rewrite Ht]|by rewrite Ht|by exists t, ph]. }
        destruct Hr as [H1 _ _ _]. simpl. lia.
      * intros out v' (o & -> & H). exists o. auto.
  - subst v. destruct (originalRequest i) as [[|c request]|]; try (apply runs_ret; eexists; split; [done|by right]); [].
    eapply runs_then; [by apply start_run_runs|]. intros s v' Hh. eapply runs_mono.
    + apply (enter_loop_runs _ _ _ _ _ _ 0); [done|simpl; lia].
    + intros out v2 (o & -> & H). exists o. auto.
Qed.

End Run.

(** C16: A run of the assistant ends: over any ports that leave the run's row to the runner,
    six rounds of the loop are enough, from the start or from any row within its limits,
    and no refinement of the tools loops; it answers, or it throws, but it always returns. *)
Theorem run_terminates {S} `{!RunHost S} (deps : RunnerDependencies S) i overrides fuel σ :
  PortsKeep deps i.(run_scope) → fine (row_view i.(run_scope) σ) → (6 ≤ fuel)%nat →
  (runAssistantV2 deps fuel i overrides σ).1 ≠ inr None.
Proof.
  intros Hp Hf Hfuel. unfold runAssistantV2. destruct (RunBudget.resolveHostCallCeiling overrides) as [n|e]; [|done].
  destruct (run_assistant_runs deps i.(run_scope) Hp n fuel i _ eq_refl Hfuel Hf σ eq_refl) as [_ H].
  unfold ebind, elift, eret. destruct (run_assistant deps n fuel i σ).1 as [e|out]; [done|].
  destruct H as (o & -> & _). done.
Qed.

(** C17: What a run leaves behind is a sound row, whether it answers or throws: at most six
    model calls, four searches and twelve operations counted, the loaded tools hold the
    search, no tool twice and at most twelve operations, and no more operations were used
    than were counted. *)
Theorem run_row_bounded {S} `{!RunHost S} (deps : RunnerDependencies S) i overrides fuel σ :
  PortsKeep deps i.(run_scope) → fine (row_view i.(run_scope) σ) → (6 ≤ fuel)%nat →
  ∀ r, scoped_run i.(run_scope) (run_db (runAssistantV2 deps fuel i overrides σ).2) = Some r →
    0 ≤ RunBudget.modelCallsUsed r.(budget_json) ≤ 6 ∧
    0 ≤ RunBudget.discoveryCallsUsed r.(budget_json) ≤ 4 ∧
    Z.of_nat (used_tools r.(used_tool_names)) ≤ RunBudget.apiCallsUsed r.(budget_json) ≤ 12 ∧
    tools_ok r.(loaded_tool_names).
Proof.
  intros Hp Hf Hfuel r Hr. assert (fine (row_view i.(run_scope) (runAssistantV2 deps fuel i overrides σ).2)) as H.
  { unfold runAssistantV2. destruct (RunBudget.resolveHostCallCeiling overrides) as [n|e]; [|exact Hf].
    exact (proj1 (run_assistant_runs deps i.(run_scope) Hp n fuel i _ eq_refl Hfuel Hf σ eq_refl)). }
  unfold row_view in H. rewrite Hr in H. destruct (H _ _ eq_refl) as [H1 H2 H3 H4]. exact (conj H1 (conj H2 (conj H3 H4))).
Qed.

(** C15: The answer of a run is the durable one: a run answered as completed, failed, or
    waiting on a confirmation or a question is in that phase in the database, unless it
    never existed because there was no request to start it with. *)
Theorem run_outcome_durable {S} `{!RunHost S} (deps : RunnerDependencies S) i overrides fuel σ o σ' :
  PortsKeep deps i.(run_scope) → fine (row_view i.(run_scope) σ) → (6 ≤ fuel)%nat →
  runAssistantV2 deps fuel i overrides σ = (inr (Some o), σ') →
  match scoped_run i.(run_scope) (run_db σ') with
  | Some r => r.(phase) = outcome_phase o
  | None => o = outcome_failed i.(run_scope).(scope_run) 0 (u "missing_original_request") [] ∧
            scoped_run i.(run_scope) (run_db σ) = None
  end.
Proof.
  intros Hp Hf Hfuel. unfold runAssistantV2. destruct (RunBudget.resolveHostCallCeiling overrides) as [n|e]; [|done].
  change (run_assistant deps n fuel i σ = (inr (Some o), σ') →
    match scoped_run i.(run_scope) (run_db σ') with
    | Some r => r.(phase) = outcome_phase o
    | None => o = outcome_failed i.(run_scope).(scope_run) 0 (u "missing_original_request") [] ∧
            scoped_run i.(run_scope) (run_db σ) = None
    end). intros E.
  destruct (run_assistant_runs deps i.(run_scope) Hp n fuel i _ eq_refl Hfuel Hf σ eq_refl) as [_ H].
  rewrite E in H. simpl in H. destruct H as (o' & [= <-] & [[t Ht]|(H1 & H2 & H3)]); unfold row_view in *.
  - destruct (scoped_run _ (run_db σ')); [|done]. by injection Ht.
  - destruct (scoped_run _ (run_db σ')); [done|]. split; [done|]. by destruct (scoped_run _ (run_db σ)).
Qed.

(** ** A run of the assistant, step by step

    A host whose provider answers from a script: a run that searches, reads and completes;
    one whose write preparation throws; and one whose provider throws. *)

(** The tables and the answers of the provider to come. *)
Record scripted := { script_db : db; script_answers : list (failure + option ToolCompletion) }.
#[export] Instance scripted_host : RunHost scripted.
Proof.
  refine {| run_db := script_db; set_run_db d s := {| script_db := d; script_answers := s.(script_answers) |} |};
    by repeat intros [].
Defined.

Definition next_answer : E scripted (option ToolCompletion) := λ s,
  match s.(script_answers) with
  | (inl e) :: l => (inl e, {| script_db := s.(script_db); script_answers := l |})
  | (inr c) :: l => (inr c, {| script_db := s.(script_db); script_answers := l |})
  | [] => (inl (OtherError (u "Error") (u "no answer")), s)
  end.

Definition script_registry : ActionRegistry :=
  {| registry_hash := replicate 64 98%N; registry_is_v2 := true;
     access_of n := if bool_decide (n = u "list_projects") then Some (Some "read")
                    else if bool_decide (n = u "create_project") then Some (Some "write") else None;
     available_to _ _ := true |}.

(** Every read answers with the stored result [a1]; the preparation of a write throws. *)
Definition script_ports : RunnerDependencies scripted :=
  {| priorMessages := []; actionRegistry := script_registry; request_hash _ := replicate 64 97%N;
     arguments_hash _ := replicate 64 99%N; tool_definitions _ := u "[]"; date_now := eret 5; monotonicMs := eret 0;
     signal_aborted := eret false; complete_first _ _ _ := next_answer;
     complete_second _ _ _ := ethrow (OtherError (u "Error") (u "no second attempt"));
     discovery_search _ _ := eret (ToolSets.matches [u "list_projects"; u "create_project"]);
     read_pool _ _ l := eret ((λ _, Some (read_succeeded (u "a1") (Some (u "[]")))) <$> l);
     prepare _ _ := ethrow (OtherError (u "Error") (u "no host")); assertCurrent _ := eret tt; isCurrent := None |}.

Lemma script_ports_keep x : PortsKeep script_ports x.
Proof.
  split; try (intros; exact (quiet_ret x _)); try done.
  intros ms ts n [d [|[e|c] l]]; done.
Qed.

(** ** Searching, reading, answering *)

Definition ask (id name : string) (args : jsval) : failure + option ToolCompletion :=
  inr (Some {| completion_text := []; completion_calls := [{| call_id := u id; call_name := u name; call_arguments := args |}];
               completion_usage := Some (10, 5); completion_json := u "{}" |}).
Definition say (text : string) : failure + option ToolCompletion :=
  inr (Some {| completion_text := u text; completion_calls := []; completion_usage := None; completion_json := u "{}" |}).
Definition search_args : jsval := VObj [(u "query", VStr (u "projects"))].

Definition stored_db : db :=
  set_results {[ u "a1" := {| result_operation_id := None; result_workspace_id := u "w"; result_admin_user_id := u "a";
    result_session_id := Some (u "s"); result_action_name := u "list_projects"; result_kind := succeeded;
    result_json := VNull; summary_json := VNull; result_created_at := 1 |} ]} empty_db.
Definition script_input : RunAssistantInput :=
  {| run_scope := demo_scope; originalRequest := Some (u "which projects?"); requestId := None; continuationMessage := None |}.
Definition script_run (answers : list (failure + option ToolCompletion)) : (failure + option RunOutcome) * scripted :=
  runAssistantV2 script_ports 6 script_input None {| script_db := stored_db; script_answers := answers |}.

Definition reading : scripted :=
  {| script_db := stored_db;
     script_answers := [ask "c1" "assistant_find_api_operations" search_args; ask "c2" "list_projects" (VObj []); say "one project"] |}.

(** A new run that searches, reads and answers; then the same request again. *)
Definition read_answer : RunOutcome :=
  outcome_completed (u "r") 13 [ref_action_result (u "a1")] (Some (u "one project")).
Definition read_end : scripted := (runAssistantV2 script_ports 6 script_input None reading).2.

Lemma run_terminates_witness :
  fine (row_view demo_scope reading) ∧
  (runAssistantV2 script_ports 6 script_input None reading).1 ≠ inr None.
Proof.
  assert (fine (row_view demo_scope reading)) as H by (intros t ph E; vm_compute in E; discriminate E).
  split; [exact H|]. exact (run_terminates script_ports script_input None 6 reading (script_ports_keep _) H (le_n 6)).
Defined.

Lemma run_row_bounded_witness :
  fine (row_view demo_scope reading) ∧
  match scoped_run demo_scope (run_db read_end) with
  | Some r => RunBudget.modelCallsUsed r.(budget_json) = 3 ∧ RunBudget.apiCallsUsed r.(budget_json) = 1 ∧
      tools_ok r.(loaded_tool_names)
  | None => False
  end.
Proof.
  assert (fine (row_view demo_scope reading)) as H by (intros t ph E; vm_compute in E; discriminate E).
  split; [exact H|]. destruct (scoped_run demo_scope (run_db read_end)) as [r|] eqn:E; [|vm_compute in E; discriminate E].
  destruct (run_row_bounded script_ports script_input None 6 reading (script_ports_keep _) H (le_n 6) r E) as (_ & _ & _ & Ht).
  split_and!; [vm_compute in E; injection E as <-; reflexivity..|exact Ht].
Defined.

Lemma run_outcome_durable_witness :
  runAssistantV2 script_ports 6 script_input None reading = (inr (Some read_answer), read_end) ∧
  match scoped_run demo_scope (run_db read_end) with
  | Some r => r.(phase) = RunBudget.phase_completed
  | None => False
  end.
Proof.
  assert (runAssistantV2 script_ports 6 script_input None reading = (inr (Some read_answer), read_end)) as E by (by vm_compute).
  split; [exact E|].
  pose proof (run_outcome_durable script_ports script_input None 6 reading read_answer read_end (script_ports_keep _)
    (λ t ph E, ltac:(vm_compute in E; discriminate E)) (le_n 6) E) as H.
  change (run_scope script_input) with demo_scope in H. revert H.
  destruct (scoped_run demo_scope (run_db read_end)) eqn:Er; [intros H; exact H|vm_compute in Er; discriminate Er].
Defined.

(** Called again, the run is answered from its row, without its text. *)
Example completed_run_replayed :
  (runAssistantV2 script_ports 6 script_input None read_end).1 =
    inr (Some (outcome_completed (u "r") 13 [ref_action_result (u "a1")] None)).
Proof. by vm_compute. Qed.

(** ** Failures *)

(** A preparation that throws is meant to be answered as a change that was not ready; its
    made-up result id is no stored result, so the journal refuses it and the run fails. *)
Example failed_preparation_ends_run :
  (runAssistantV2 script_ports 6 script_input None
     {| script_db := stored_db;
        script_answers := [ask "c1" "assistant_find_api_operations" search_args; ask "c2" "create_project" (VObj []);
                           say "it was not ready"] |}).1 =
    inr (Some (outcome_failed (u "r") 9 (u "internal_error") [])).
Proof. by vm_compute. Qed.

(** A model call that throws is journaled as started, but the row of the failed run has
    neither the call nor the charge of its attempt. *)
Example failed_model_call_uncharged :
  let '(out, s) := script_run [inl (OtherError (u "Error") (u "no provider"))] in
  out = inr (Some (outcome_failed (u "r") 3 (u "model_failed") [])) ∧
  log_of (u "s", u "r") s.(script_db) =
    [run_started (replicate 64 97%N); model_started 1 false [] false; run_failed (u "model_failed")] ∧
  (budget_json <$> scoped_run demo_scope s.(script_db)) = Some RunBudget.createEmptyRunBudget.
Proof. by vm_compute. Qed.
