(* ===== verification/IntentCapability.v ===== *)
(** * Intent capabilities

    [harness/intent-capability.ts]: what the text an admin wrote authorizes.  A capability
    names write actions; each action carries the byte spans of the text that declare it and
    the literal argument values those spans hold.  [sha256] and the order of
    [localeCompare] are arguments. *)
From S2P Require Import Prelude Js SafeJson SafetyLimits.
Open Scope Z_scope.
#[local] Arguments u : simpl never.

Definition CAPABILITY_MAX_BYTES : Z := 65536.

(** [/authorization|cookie|.../i]: the words of [SENSITIVE_KEY]. *)
Definition SENSITIVE_PATH (path : jstr) : bool := SENSITIVE_KEY path.

Record Utf8SourceSpan := { startByte : Z; endByte : Z; span_text : jstr }.
Record IntentLiteralConstraintV1 := { constraint_path : jstr; constraint_value : jsval; sourceSpan : Utf8SourceSpan }.
Record IntentWriteActionV1 := {
  grant_action : jstr;
  sourceSpans : list Utf8SourceSpan;
  literalConstraints : list IntentLiteralConstraintV1;
  maxExecutions : Z;
}.
Inductive CapabilityMode : Type := allow (writes : list IntentWriteActionV1) | deny_all_writes (reason : jstr).
Record IntentCapabilityV1 := { requestHash : jstr; catalogHash : jstr; capability_mode : CapabilityMode }.

Definition writeActions (c : IntentCapabilityV1) : list IntentWriteActionV1 :=
  match c.(capability_mode) with allow l => l | deny_all_writes _ => [] end.

#[export] Instance span_dec : EqDecision Utf8SourceSpan.
Proof. solve_decision. Defined.

(** ** Literals *)

(** [copyLiteralNode]: the copy, its keys sorted, and the nodes counted so far.  A value is
    a tree, so the cycle checks never fire. *)
Definition literal_step (depth nodes : Z) : result Z :=
  let nodes := nodes + 1 in
  if INTENT_LITERAL_MAX_NODES <? nodes then Throw "intent_capability_literal_nodes_exceeded"
  else if INTENT_LITERAL_MAX_DEPTH <? depth then Throw "intent_capability_literal_depth_exceeded"
  else Ok nodes.

(** Children in turn, each with the nodes counted before it. *)
Fixpoint copy_all {A} (l : list (Z → result (A * Z))) (nodes : Z) : result (list A * Z) :=
  match l with
  | [] => Ok ([], nodes)
  | f :: l' =>
      let! x := f nodes in
      let! xs := copy_all l' x.2 in
      Ok (x.1 :: xs.1, xs.2)
  end.

Definition literal_children {A} (depth : Z) (nodes : Z) (children : list (Z → result (A * Z))) (wrap : list A → jsval)
    : result (jsval * Z) :=
  if INTENT_LITERAL_MAX_DEPTH <=? depth then Throw "intent_capability_literal_depth_exceeded"
  else let! x := copy_all children nodes in Ok (wrap x.1, x.2).

Definition labelled {A} (k : jstr) (f : Z → result (A * Z)) : Z → result (jstr * A * Z) :=
  λ nodes, let! x := f nodes in Ok (k, x.1, x.2).

(** The bytes of a [Uint8Array] are fields with index keys. *)
Definition copy_byte (depth : Z) (b : N) : Z → result (jsval * Z) := λ nodes,
  let! nodes := literal_step depth nodes in Ok (VNum (NumInt (Z.of_N b)), nodes).

Fixpoint copyLiteralNode (value : jsval) (depth nodes : Z) : result (jsval * Z) :=
  let! nodes := literal_step depth nodes in
  match value with
  | VNull | VBool _ | VStr _ => Ok (value, nodes)
  | VNum n =>
      match n with
      | NumNaN | NumInf _ => Throw "intent_capability_literal_non_json"
      | _ => Ok (value, nodes)
      end
  | VArr l => literal_children depth nodes ((λ x, copyLiteralNode x (depth + 1)) <$> l) VArr
  | VObj fs =>
      literal_children depth nodes
        (snd <$> merge_sort key_le ((λ f, (f.1, labelled f.1 (copyLiteralNode f.2 (depth + 1)))) <$> fs)) VObj
  | VBytes bs =>
      literal_children depth nodes
        (snd <$> merge_sort key_le
          (imap (λ i b, let k := digits (N.of_nat i) in (k, labelled k (copy_byte (depth + 1) b))) bs)) VObj
  | VBuffer => literal_children depth nodes ([] : list (Z → result (jstr * jsval * Z))) VObj
  | VUndef | VFun => Throw "intent_capability_literal_non_json"
  end.

Definition parseIntentLiteralValue (value : jsval) : result jsval :=
  let! x := copyLiteralNode value 1 0 in
  if INTENT_LITERAL_MAX_BYTES <? jsonByteLength x.1 then Throw "intent_capability_literal_bytes_exceeded"
  else Ok x.1.

(** ** Spans *)

Definition parseSpan (value : jsval) : result Utf8SourceSpan :=
  if negb (is_record value) then Throw "intent_capability_span_invalid"
  else
    match safe_integer (prop (u "startByte") value), safe_integer (prop (u "endByte") value), prop (u "text") value with
    | Some a, Some b, VStr (c :: t) =>
        if (a <? 0) || (b <=? a) then Throw "intent_capability_span_invalid"
        else Ok {| startByte := a; endByte := b; span_text := c :: t |}
    | _, _, _ => Throw "intent_capability_span_invalid"
    end.

(** The text of the first [n] bytes and what is behind them; [None] when byte [n] lies
    inside a code point.  A lone surrogate is encoded, and decoded, as U+FFFD. *)
Fixpoint utf8_split (n : N) (s : jstr) : option (jstr * jstr) :=
  if bool_decide (n = 0%N) then Some ([], s)
  else
    match s with
    | [] => None
    | c :: s' =>
        let cut (k : N) (x : jstr) (rest : option (jstr * jstr)) :=
          if (n <? k)%N then None else p ← rest; Some (x ++ p.1, p.2) in
        if (c <? 128)%N then cut 1%N [c] (utf8_split (n - 1) s')
        else if (c <? 2048)%N then cut 2%N [c] (utf8_split (n - 2) s')
        else match s' with
             | d :: s'' =>
                 if is_high c && is_low d then cut 4%N [c; d] (utf8_split (n - 4) s'')
                 else cut 3%N [if is_high c || is_low c then 65533%N else c] (utf8_split (n - 3) s')
             | [] => cut 3%N [if is_high c || is_low c then 65533%N else c] (if bool_decide (n = 3%N) then Some ([], []) else None)
             end
    end.

(** A decoder drops a leading byte order mark, which the length check then refuses. *)
Definition validateUtf8SourceSpan (authoredSource : jstr) (span : Utf8SourceSpan) : result jstr :=
  if Z.of_N (utf8_length authoredSource) <? span.(endByte) then Throw "intent_capability_span_range"
  else
    match p ← utf8_split (Z.to_N span.(startByte)) authoredSource;
          utf8_split (Z.to_N (span.(endByte) - span.(startByte))) p.2 with
    | None => Throw "intent_capability_span_boundary"
    | Some (65279%N :: _, _) => Throw "intent_capability_span_boundary"
    | Some (decoded, _) =>
        if bool_decide (decoded = span.(span_text)) then Ok decoded else Throw "intent_capability_span_text_mismatch"
    end.

Section Capability.
Context (sha256 : jstr → jstr) (locale_le : jstr → jstr → bool).

Definition hashIntentRequest (authoredSource : jstr) : jstr := sha256 authoredSource.

(** ** Parsing *)

Definition check_span (authoredSource : option jstr) (span : Utf8SourceSpan) : result unit :=
  match authoredSource with
  | Some s => let! _ := validateUtf8SourceSpan s span in Ok tt
  | None => Ok tt
  end.
Fixpoint check_spans (authoredSource : option jstr) (l : list Utf8SourceSpan) : result unit :=
  match l with
  | [] => Ok tt
  | x :: l' => let! _ := check_span authoredSource x in check_spans authoredSource l'
  end.

Definition between (lo hi : nat) (n : nat) : bool := (lo <=? n)%nat && (n <=? hi)%nat.

Definition parse_constraint (authoredSource : option jstr) (spans : list Utf8SourceSpan) (seen : list jstr) (raw : jsval)
    : result IntentLiteralConstraintV1 :=
  if negb (is_record raw) then Throw "intent_capability_constraint_invalid"
  else
    match prop (u "path") raw with
    | VStr path =>
        if negb (between 1 256 (length path)) then Throw "intent_capability_constraint_invalid"
        else if SENSITIVE_PATH path then Throw "intent_capability_sensitive_path"
        else if bool_decide (path ∈ seen) then Throw "intent_capability_constraint_duplicate"
        else
          let! span := parseSpan (prop (u "sourceSpan") raw) in
          let! _ := check_span authoredSource span in
          if negb (bool_decide (span ∈ spans)) then Throw "intent_capability_constraint_span_unbound"
          else
            let! value := parseIntentLiteralValue (prop (u "value") raw) in
            Ok {| constraint_path := path; constraint_value := value; sourceSpan := span |}
    | _ => Throw "intent_capability_constraint_invalid"
    end.

Fixpoint parse_constraints (authoredSource : option jstr) (spans : list Utf8SourceSpan) (seen : list jstr) (l : list jsval)
    : result (list IntentLiteralConstraintV1) :=
  match l with
  | [] => Ok []
  | raw :: l' =>
      let! x := parse_constraint authoredSource spans seen raw in
      let! xs := parse_constraints authoredSource spans (x.(constraint_path) :: seen) l' in
      Ok (x :: xs)
  end.

(** [/^[a-z][a-z0-9_]{0,127}$/] *)
Definition lower_letter (c : N) : bool := (97 <=? c)%N && (c <=? 122)%N.
Definition is_action_name (s : jstr) : bool :=
  match s with
  | c :: s' =>
      lower_letter c && (length s' <=? 127)%nat &&
      forallb (λ c, lower_letter c || ((48 <=? c)%N && (c <=? 57)%N) || (c =? 95)%N) s'
  | [] => false
  end.

Definition MAX_GRANTS : nat := 128.

(** [undefined] counts as one execution. *)
Definition parse_limit (v : jsval) : result Z :=
  match v with
  | VUndef => Ok 1
  | _ =>
      match safe_integer v with
      | Some n => if (n <? 1) || (1000 <? n) then Throw "intent_capability_execution_limit_invalid" else Ok n
      | None => Throw "intent_capability_execution_limit_invalid"
      end
  end.

Definition parseWriteAction (authoredSource : option jstr) (value : jsval) : result IntentWriteActionV1 :=
  if negb (is_record value) then Throw "intent_capability_action_invalid"
  else
    match prop (u "actionName") value with
    | VStr name =>
        if negb (is_action_name name) then Throw "intent_capability_action_invalid"
        else
          match prop (u "sourceSpans") value with
          | VArr spans =>
              if negb (between 1 128 (length spans)) then Throw "intent_capability_spans_invalid"
              else
                let! spans := sequence (parseSpan <$> spans) in
                let! _ := check_spans authoredSource spans in
                match prop (u "literalConstraints") value with
                | VArr cs =>
                    if INTENT_LITERAL_CONSTRAINT_LIMIT <? Z.of_nat (length cs) then Throw "intent_capability_constraints_invalid"
                    else
                      let! cs := parse_constraints authoredSource spans [] cs in
                      let! limit := parse_limit (prop (u "maxExecutions") value) in
                      Ok {| grant_action := name; sourceSpans := spans; literalConstraints := cs; maxExecutions := limit |}
                | _ => Throw "intent_capability_constraints_invalid"
                end
          | _ => Throw "intent_capability_spans_invalid"
          end
    | _ => Throw "intent_capability_action_invalid"
    end.

Fixpoint parse_actions (authoredSource : option jstr) (seen : list jstr) (l : list jsval) : result (list IntentWriteActionV1) :=
  match l with
  | [] => Ok []
  | raw :: l' =>
      let! x := parseWriteAction authoredSource raw in
      if bool_decide (x.(grant_action) ∈ seen) then Throw "intent_capability_action_duplicate"
      else
        let! xs := parse_actions authoredSource (x.(grant_action) :: seen) l' in
        Ok (x :: xs)
  end.

(** *** The object of a capability *)

Definition span_value (s : Utf8SourceSpan) : jsval :=
  VObj [(u "startByte", num s.(startByte)); (u "endByte", num s.(endByte)); (u "text", VStr s.(span_text))].
Definition constraint_object (c : IntentLiteralConstraintV1) : jsval :=
  VObj [(u "path", VStr c.(constraint_path)); (u "value", c.(constraint_value)); (u "sourceSpan", span_value c.(sourceSpan))].
Definition action_value (a : IntentWriteActionV1) : jsval :=
  VObj [(u "actionName", VStr a.(grant_action)); (u "sourceSpans", VArr (span_value <$> a.(sourceSpans)));
        (u "literalConstraints", VArr (constraint_object <$> a.(literalConstraints)));
        (u "maxExecutions", num a.(maxExecutions))].
Definition capability_value (c : IntentCapabilityV1) : jsval :=
  match c.(capability_mode) with
  | allow l =>
      VObj [(u "version", num 1); (u "mode", VStr (u "allow")); (u "requestHash", VStr c.(requestHash));
            (u "catalogHash", VStr c.(catalogHash)); (u "writeActions", VArr (action_value <$> l))]
  | deny_all_writes reason =>
      VObj [(u "version", num 1); (u "mode", VStr (u "deny_all_writes")); (u "requestHash", VStr c.(requestHash));
            (u "catalogHash", VStr c.(catalogHash)); (u "reason", VStr reason); (u "writeActions", VArr [])]
  end.

(** The lossless boundary sorts the keys and keeps the rest, so the capability is the same
    record. *)
Definition exact_capability (c : IntentCapabilityV1) : result IntentCapabilityV1 :=
  let! _ := exactNonsecretJson (capability_value c) CAPABILITY_MAX_BYTES in Ok c.

Definition parse_reason (v : jsval) : option jstr :=
  match v with VStr r => if between 1 256 (length r) then Some r else None | _ => None end.

Definition parse_mode (authoredSource : option jstr) (mode : jstr) (raw : jsval) (actions : list jsval)
    : result CapabilityMode :=
  if bool_decide (mode = u "deny_all_writes") then
    match parse_reason (prop (u "reason") raw), actions with
    | Some r, [] => Ok (deny_all_writes r)
    | _, _ => Throw "intent_capability_deny_invalid"
    end
  else if negb (between 1 MAX_GRANTS (length actions)) then Throw "intent_capability_actions_invalid"
  else let! l := parse_actions authoredSource [] actions in Ok (allow l).

Definition parseIntentCapabilityV1 (value : jsval) (authoredSource : option jstr) : result IntentCapabilityV1 :=
  if negb (is_record value) then Throw "intent_capability_invalid"
  else
    match prop (u "version") value, prop (u "mode") value, prop (u "requestHash") value, prop (u "catalogHash") value,
          prop (u "writeActions") value with
    | VNum (NumInt 1), VStr mode, VStr request, VStr catalog, VArr actions =>
        if negb (bool_decide (mode ∈ [u "allow"; u "deny_all_writes"])) || negb (bool_decide (length request = 64%nat)) ||
           negb (between 1 256 (length catalog))
        then Throw "intent_capability_invalid"
        else if match authoredSource with Some s => negb (bool_decide (hashIntentRequest s = request)) | None => false end
        then Throw "intent_capability_request_hash_mismatch"
        else
          let! m := parse_mode authoredSource mode value actions in
          exact_capability {| requestHash := request; catalogHash := catalog; capability_mode := m |}
    | _, _, _, _, _ => Throw "intent_capability_invalid"
    end.

(** *** Building *)

Definition buildAllowIntentCapabilityV1 (authoredSource catalog : jstr) (drafts : list jsval) : result IntentCapabilityV1 :=
  parseIntentCapabilityV1
    (VObj [(u "version", num 1); (u "mode", VStr (u "allow")); (u "requestHash", VStr (hashIntentRequest authoredSource));
           (u "catalogHash", VStr catalog); (u "writeActions", VArr drafts)]) (Some authoredSource).
Definition buildDenyAllWritesIntentCapabilityV1 (authoredSource catalog reason : jstr) : result IntentCapabilityV1 :=
  parseIntentCapabilityV1
    (VObj [(u "version", num 1); (u "mode", VStr (u "deny_all_writes"));
           (u "requestHash", VStr (hashIntentRequest authoredSource)); (u "catalogHash", VStr catalog);
           (u "reason", VStr reason); (u "writeActions", VArr [])]) (Some authoredSource).

(** ** The hash *)

Definition locale_field (a b : jstr * jsval) : Prop := locale_le a.1 b.1 = true.
#[export] Instance locale_field_dec : RelDecision locale_field.
Proof. intros a b. unfold locale_field. apply _. Defined.
Fixpoint stableValue (v : jsval) : jsval :=
  match v with
  | VArr l => VArr (stableValue <$> l)
  | VObj fs => VObj (merge_sort locale_field ((λ f, (f.1, stableValue f.2)) <$> fs))
  | _ => v
  end.
Definition hashIntentCapability (c : IntentCapabilityV1) : jstr := sha256 (stringify (stableValue (canon (capability_value c)))).
End Capability.
