(* ===== verification/IntentAuthority.v ===== *)
(** * Authored arguments

    [harness/intent-authority.ts]: the raw arguments of a write, as the model gave them,
    against the capability of the request - before any schema or name resolution.  Paths
    are texts ([a.b[0].c], [a[].c]), built for the leaves of the arguments and parsed again
    to match the literals an admin wrote. *)
From S2P Require Import Prelude Js SafeJson IntentCapability Receipts.
Open Scope Z_scope.
#[local] Arguments u : simpl never.

(** The members of [WriteAuthorityMetadata] this check reads. *)
Record Cardinality := {
  by_argument : bool;                  (** [mode === "argument"] *)
  cardinality_max : Z;                 (** [maxExecutions] *)
  maxArgumentItems : option Z;
  argumentPath : option jstr;
}.
Record ArgumentAuthority := {
  controlledPaths : list jstr;         (** [literalControlledPaths] *)
  authenticatedSelfLiteralPaths : list jstr;
  cardinality_of : Cardinality;
}.
Record AuthorizeIntentWriteArgumentsInput := {
  auth_capability : IntentCapabilityV1;
  auth_action : jstr;
  rawArgs : jsval;
  auth_authority : ArgumentAuthority;
  auth_catalog : jstr;
  authenticatedAdminUserId : option jstr;
}.

(** ** Equal literals *)

(** [Object.entries] in the order of the sorted keys; [undefined] members spoil it. *)
Fixpoint stableJson (value : jsval) : option jstr :=
  match value with
  | VUndef | VFun => None
  | VNull => Some (u "null")
  | VBool b => Some (if b then u "true" else u "false")
  | VNum n => Some (show_num n)
  | VStr s => Some (quote s)
  | VArr l => parts ← mapM stableJson l; Some ([91%N] ++ join [44%N] parts ++ [93%N])
  | VObj fs =>
      parts ← mapM snd (merge_sort key_le ((λ f, (f.1, t ← stableJson f.2; Some (quote f.1 ++ [58%N] ++ t))) <$> fs));
      Some ([123%N] ++ join [44%N] parts ++ [125%N])
  | VBytes bs =>
      Some ([123%N] ++ join [44%N] (snd <$> merge_sort key_le
        (imap (λ i b, let k := digits (N.of_nat i) in (k, quote k ++ [58%N] ++ digits b)) bs)) ++ [125%N])
  | VBuffer => Some (u "{}")
  end.

Definition literal_json (v : jsval) : option jstr :=
  match parseIntentLiteralValue v with Ok l => stableJson l | Throw _ => None end.
Definition equalLiteral (actual expected : jsval) : bool :=
  match literal_json actual with
  | Some t => bool_decide (literal_json expected = Some t)
  | None => false
  end.

(** ** Leaves *)

Record RawLeaf := { concretePath : jstr; schemaPath : jstr }.

(** The own fields of [isRecord] values. *)
Definition byte_fields (bs : list N) : list (jstr * jsval) :=
  imap (λ i b, (digits (N.of_nat i), VNum (NumInt (Z.of_N b)))) bs.
Definition record_fields (v : jsval) : list (jstr * jsval) :=
  match v with VObj fs => fs | VBytes bs => byte_fields bs | _ => [] end.

Definition open_bracket : N := 91.
Definition close_bracket : N := 93.
Definition dot : N := 46.
Definition indexed (p : jstr) (i : nat) : jstr := p ++ [open_bracket] ++ digits (N.of_nat i) ++ [close_bracket].
Definition wildcard (p : jstr) : jstr := p ++ [open_bracket; close_bracket].
Definition child_path (p key : jstr) : jstr := match p with [] => key | _ => p ++ [dot] ++ key end.

(** The leaves of the fields: one leaf for an empty object below the root. *)
Definition object_leaves (cp sp : jstr) (l : list (jstr * list RawLeaf)) : list RawLeaf :=
  match l with
  | [] => match cp with [] => [] | _ => [{| concretePath := cp; schemaPath := sp |}] end
  | _ => concat (snd <$> own_entries l)
  end.

Fixpoint rawLeaves (value : jsval) (cp sp : jstr) : list RawLeaf :=
  match value with
  | VArr [] => [{| concretePath := wildcard cp; schemaPath := wildcard sp |}]
  | VArr l => concat (imap (λ i f, f i) ((λ x i, rawLeaves x (indexed cp i) (wildcard sp)) <$> l))
  | VObj fs => object_leaves cp sp ((λ f, (f.1, rawLeaves f.2 (child_path cp f.1) (child_path sp f.1))) <$> fs)
  | VBytes bs =>
      object_leaves cp sp ((λ f, (f.1, [{| concretePath := child_path cp f.1; schemaPath := child_path sp f.1 |}])) <$> byte_fields bs)
  | VBuffer => object_leaves cp sp []
  | _ => [{| concretePath := cp; schemaPath := sp |}]
  end.

(** ** Paths *)

Inductive PathPart : Set := part_key (k : jstr) | part_index (i : option N).
#[export] Instance part_dec : EqDecision PathPart.
Proof. solve_decision. Defined.

Fixpoint split_on (sep : N) (s : jstr) : list jstr :=
  match s with
  | [] => [[]]
  | c :: s' =>
      match split_on sep s' with
      | x :: l => if bool_decide (c = sep) then [] :: x :: l else (c :: x) :: l
      | [] => []
      end
  end.

Definition is_digit (c : N) : bool := (48 <=? c)%N && (c <=? 57)%N.

(** The bracket tokens behind a key, the digits of the open one in [ds]. *)
Fixpoint bracket_tokens (ds : option jstr) (s : jstr) : option (list PathPart) :=
  match s, ds with
  | [], None => Some []
  | [], Some _ => None
  | c :: s', None => if bool_decide (c = open_bracket) then bracket_tokens (Some []) s' else None
  | c :: s', Some d =>
      if bool_decide (c = close_bracket) then
        l ← bracket_tokens None s';
        Some (part_index (match d with [] => None | _ => Some (undigits d) end) :: l)
      else if is_digit c then bracket_tokens (Some (d ++ [c])) s'
      else None
  end.

Fixpoint split_key (s : jstr) : jstr * jstr :=
  match s with
  | [] => ([], [])
  | c :: s' => if bool_decide (c = open_bracket) then ([], s) else let '(k, r) := split_key s' in (c :: k, r)
  end.

Definition parse_segment (s : jstr) : option (list PathPart) :=
  let '(k, r) := split_key s in
  if bool_decide (k = []) || bool_decide (close_bracket ∈ k) then None
  else l ← bracket_tokens None r; Some (part_key k :: l).
Definition parsePath (path : jstr) : option (list PathPart) :=
  match path with
  | [] => None
  | _ =>
      if starts_with [dot] path || ends_with [dot] path then None
      else l ← mapM parse_segment (split_on dot path); Some (concat l)
  end.

(** ** Values at a path *)

Definition step_values (part : PathPart) (value : jsval) : list jsval :=
  match part, value with
  | part_key k, _ => match fields_get k (record_fields value) with Some v => [v] | None => [] end
  | part_index None, VArr l => l
  | part_index (Some i), VArr l => match l !! N.to_nat i with Some v => [v] | None => [] end
  | _, _ => []
  end.
Definition values_at (parts : list PathPart) (root : jsval) : list jsval :=
  foldl (λ current part, current ≫= step_values part) [root] parts.
Definition valuesAtPath (root : jsval) (path : jstr) : option (list jsval) :=
  parts ← parsePath path; Some (values_at parts root).

(** A wildcard is present on an empty array when it is the last part; deeper, every item
    must have the rest. *)
Fixpoint is_present (parts : list PathPart) (value : jsval) : bool :=
  match parts with
  | [] => true
  | part :: rest =>
      match part, value with
      | part_key k, _ => match fields_get k (record_fields value) with Some v => is_present rest v | None => false end
      | part_index (Some i), VArr l => match l !! N.to_nat i with Some v => is_present rest v | None => false end
      | part_index None, VArr l =>
          bool_decide (rest = []) || (negb (bool_decide (length l = 0%nat)) && forallb (is_present rest) l)
      | _, _ => false
      end
  end.
Definition pathIsPresent (root : jsval) (path : jstr) : bool :=
  match parsePath path with Some parts => is_present parts root | None => false end.

(** ** Controlled paths *)

(** [path.replace(/\[\d+\]/g, "[]")]; [ds]: the digits behind an open bracket. *)
Fixpoint normalize_from (ds : option jstr) (s : jstr) : jstr :=
  match s, ds with
  | [], None => []
  | [], Some d => open_bracket :: d
  | c :: s', None => if bool_decide (c = open_bracket) then normalize_from (Some []) s' else c :: normalize_from None s'
  | c :: s', Some d =>
      if bool_decide (c = close_bracket) then open_bracket :: close_bracket :: normalize_from None s'
      else if is_digit c then normalize_from (Some (d ++ [c])) s'
      else if bool_decide (c = open_bracket) then (open_bracket :: d) ++ normalize_from (Some []) s'
      else (open_bracket :: d) ++ c :: normalize_from None s'
  end.
Definition normalizedPath (path : jstr) : jstr := normalize_from None path.

(** An open path carries the marker [.*]. *)
Definition open_path (allowed : jstr) : option jstr :=
  if ends_with (u ".*") allowed then Some (take (length allowed - 2) allowed) else None.
Definition pathIsLiteralControlled (path : jstr) (authority : ArgumentAuthority) : bool :=
  let normalized := normalizedPath path in
  existsb (λ allowed,
    match open_path allowed with
    | Some p => bool_decide (normalized = p) || starts_with (p ++ [dot]) normalized
    | None => bool_decide (allowed = normalized) || starts_with (normalized ++ [dot]) allowed ||
              starts_with (wildcard normalized) allowed
    end) authority.(controlledPaths).

(** ** Literals against arguments *)

Definition has_wildcard (path : jstr) : bool := contains_sub [open_bracket; close_bracket] path.

Definition constraintMatchesRaw (c : IntentLiteralConstraintV1) (raw : jsval) : bool :=
  match valuesAtPath raw c.(constraint_path) with
  | None | Some [] =>
      pathIsPresent raw c.(constraint_path) && match c.(constraint_value) with VArr [] => true | _ => false end
  | Some values =>
      if has_wildcard c.(constraint_path) && is_array c.(constraint_value)
      then equalLiteral (VArr values) c.(constraint_value)
      else match values with [v] => equalLiteral v c.(constraint_value) | _ => false end
  end.

Definition declares_me (v : jsval) : bool :=
  match v with
  | VStr s => bool_decide (s = u "me")
  | VArr [VStr s] => bool_decide (s = u "me")
  | _ => false
  end.
(** [value === text] for one of the texts. *)
Definition is_text (texts : list string) (v : jsval) : bool :=
  match v with VStr s => bool_decide (s ∈ (u <$> texts)) | _ => false end.

Definition RATE_ACTION : jstr := u "clockify_projects_rate_update".

Section Authorize.
Context (input : AuthorizeIntentWriteArgumentsInput).

(** The rate tool's selector of the admin: by id, or by name when the id is left out. *)
Definition rate_selector (path : jstr) : bool :=
  bool_decide (input.(auth_action) = RATE_ACTION) && bool_decide (path = u "userId").
Definition self_by_name : bool :=
  is_record input.(rawArgs) &&
  match fields_get (u "userId") (record_fields input.(rawArgs)) with Some _ => false | None => true end &&
  match fields_get (u "userName") (record_fields input.(rawArgs)) with
  | Some v => is_text ["me"; "my"; "myself"] v
  | None => false
  end.

Definition matchesAuthenticatedMeSubstitution (c : IntentLiteralConstraintV1) : bool :=
  match input.(authenticatedAdminUserId) with
  | None | Some [] => false
  | Some admin =>
      bool_decide (c.(constraint_path) ∈ input.(auth_authority).(authenticatedSelfLiteralPaths)) &&
      declares_me c.(constraint_value) &&
      match valuesAtPath input.(rawArgs) c.(constraint_path) with
      | Some [VStr s] =>
          bool_decide (s = admin) || (rate_selector c.(constraint_path) && is_text ["my"; "myself"] (VStr s))
      | Some [] => rate_selector c.(constraint_path) && self_by_name
      | _ => false
      end
  end.

Definition part_covers (part candidate : PathPart) : bool :=
  match part, candidate with
  | part_key a, part_key b => bool_decide (a = b)
  | part_index None, part_index _ => true
  | part_index (Some i), part_index j => bool_decide (j = Some i)
  | _, _ => false
  end.
Fixpoint parts_cover (constraint leaf : list PathPart) : bool :=
  match constraint, leaf with
  | [], _ => true
  | p :: l, q :: l' => part_covers p q && parts_cover l l'
  | _ :: _, [] => false
  end.
Definition constraintCoversLeaf (constraintPath leafPath : jstr) : bool :=
  match parsePath constraintPath, parsePath leafPath with
  | Some c, Some l => parts_cover c l
  | _, _ => false
  end.

Definition argument_count : option nat :=
  match input.(auth_authority).(cardinality_of).(argumentPath) with
  | None | Some [] => None
  | Some path =>
      if input.(auth_authority).(cardinality_of).(by_argument)
      then length <$> valuesAtPath input.(rawArgs) path else None
  end.

Definition denied_write (code message : jstr) : jsval :=
  errorReceipt input.(auth_action) code message
    (recovery_hint (u "Ask the admin to issue a fresh request so the write can be previewed again.") false).

Definition find_grant (c : IntentCapabilityV1) (action : jstr) : option IntentWriteActionV1 :=
  snd <$> list_find (λ g, g.(grant_action) = action) (writeActions c).

Definition constraint_holds (c : IntentLiteralConstraintV1) : bool :=
  pathIsLiteralControlled c.(constraint_path) input.(auth_authority) &&
  (constraintMatchesRaw c input.(rawArgs) || matchesAuthenticatedMeSubstitution c).

(** The leaf [userName] is let through once some literal stands for the admin. *)
Definition leaf_authorized (g : IntentWriteActionV1) (leaf : RawLeaf) : bool :=
  pathIsLiteralControlled leaf.(schemaPath) input.(auth_authority) &&
  ((bool_decide (leaf.(schemaPath) = u "userName") && existsb matchesAuthenticatedMeSubstitution g.(literalConstraints)) ||
   existsb (λ c, constraintCoversLeaf c.(constraint_path) leaf.(concretePath)) g.(literalConstraints)).

Definition authorizeIntentWriteArguments : option jsval :=
  let a := input.(auth_authority) in
  if negb (bool_decide (input.(auth_capability).(catalogHash) = input.(auth_catalog))) then
    Some (denied_write (u "intent_capability_catalog_drift")
      (u "The action catalog changed after this intent capability was declared."))
  else
    match input.(auth_capability).(capability_mode) with
    | deny_all_writes _ =>
        Some (denied_write (u "intent_capability_denied")
          (u "This request has no valid write authority. Read actions remain available."))
    | allow _ =>
        match find_grant input.(auth_capability) input.(auth_action) with
        | None =>
            Some (denied_write (u "intent_capability_action_denied")
              (u "The admin-authored request did not authorize this write action."))
        | Some g =>
            if match argument_count with
               | Some n => default a.(cardinality_of).(cardinality_max) a.(cardinality_of).(maxArgumentItems) <? Z.of_nat n
               | None => false
               end
            then Some (denied_write (u "intent_capability_cardinality_exceeded")
                   (u "The raw argument batch exceeds this action's declared safety limit."))
            else
              match list_find (λ c, constraint_holds c = false) g.(literalConstraints) with
              | Some (_, c) =>
                  Some (denied_write (u "intent_capability_argument_mismatch")
                    (u "Raw argument " ++ c.(constraint_path) ++ u " does not match the admin-authored literal."))
              | None =>
                  match list_find (λ leaf, leaf_authorized g leaf = false) (rawLeaves input.(rawArgs) [] []) with
                  | Some (_, leaf) =>
                      Some (denied_write (u "intent_capability_argument_undeclared")
                        (u "Raw argument " ++ match leaf.(concretePath) with [] => u "<root>" | p => p end ++
                         u " was not authorized by the admin-authored request."))
                  | None => None
                  end
              end
        end
    end.
End Authorize.
