(* ===== verification/IntentLiteral.v ===== *)
(** * Equal literals are equal values

    [equalLiteral] of file IntentAuthority compares texts; for values that JSON can hold
    the text determines the value up to the order of keys.  Likewise the text of the path of
    a leaf determines its place. *)
From S2P Require Import Prelude Js SafeJson JsonText IntentCapability IntentAuthority.
Open Scope Z_scope.
#[local] Arguments u : simpl never.

(** ** JSON values *)

(** The text of a finite number that is no small integer has a point or an exponent. *)
Definition number_unit (c : N) : bool := is_digit c || bool_decide (c ∈ [45%N; 46%N; 101%N; 43%N]).
Definition json_number (n : jsnum) : bool :=
  match n with
  | NumInt _ => true
  | NumDec repr => forallb number_unit repr && (bool_decide (46%N ∈ repr) || bool_decide (101%N ∈ repr)) &&
                   match repr with c :: _ => is_digit c || bool_decide (c = 45%N) | [] => false end
  | _ => false
  end.
Fixpoint json_value (v : jsval) : bool :=
  match v with
  | VNull | VBool _ | VStr _ => true
  | VNum n => json_number n
  | VArr l => forallb json_value l
  | VObj fs => forallb (λ f, json_value f.2) fs
  | _ => false
  end.

(** The scalars inside a value. *)
Fixpoint scalars (v : jsval) : list jsval :=
  match v with
  | VArr l => concat (scalars <$> l)
  | VObj fs => concat ((λ f, scalars f.2) <$> fs)
  | VNull | VBool _ | VNum _ | VStr _ => [v]
  | _ => []
  end.

Lemma elem_of_concat_map {A B} (f : A → list B) (l : list A) y : y ∈ concat (f <$> l) ↔ ∃ x, x ∈ l ∧ y ∈ f x.
Proof.
  rewrite list_elem_of_In, in_concat. split.
  - intros (z & Hz & Hy). apply list_elem_of_In, list_elem_of_fmap in Hz as (x & -> & Hx).
    exists x. split; [done|by apply list_elem_of_In].
  - intros (x & Hx & Hy). exists (f x). split; [by apply list_elem_of_In, list_elem_of_fmap_2|by apply list_elem_of_In].
Qed.

Lemma scalars_canon v w : w ∈ scalars (canon v) ↔ w ∈ scalars v.
Proof.
  induction v as [| |b|n|s|l IH|fs IH|bs| |] using jsval_rect'; simpl; try done.
  - rewrite <-list_fmap_compose, !elem_of_concat_map. rewrite Forall_forall in IH. naive_solver.
  - rewrite !elem_of_concat_map. rewrite Forall_forall in IH. split.
    + intros (f & Hf & Hw). apply elem_of_sort_fields, list_elem_of_fmap in Hf as (g & -> & Hg). simpl in Hw.
      exists g. split; [done|]. by apply IH.
    + intros (g & Hg & Hw). exists (g.1, canon g.2). split; [|by apply IH].
      apply elem_of_sort_fields. by apply (list_elem_of_fmap_2 (λ f, (f.1, canon f.2))).
Qed.

Lemma json_canon v : json_value v = true → json_value (canon v) = true.
Proof.
  induction v as [| |b|n|s|l IH|fs IH|bs| |] using jsval_rect'; simpl; try done; rewrite !forallb_elem; rewrite Forall_forall in IH.
  - intros H x (y & -> & Hy)%list_elem_of_fmap. by apply IH, H.
  - intros H x Hx. apply elem_of_sort_fields, list_elem_of_fmap in Hx as (y & -> & Hy). by apply (IH y), H.
Qed.

(** *** A copied literal is the canonical value *)

Lemma copy_all_ok {A} (l : list (Z → result (A * Z))) (out : list A) n m :
  copy_all l n = Ok (out, m) → Forall2 (λ f x, ∃ n' m', f n' = Ok (x, m')) l out.
Proof.
  revert n out. induction l as [|f l IH]; intros n out; simpl; [by intros [= <- <-]|].
  intros (x & Hx & H)%rbind_ok. apply rbind_ok in H as (xs & Hxs & [= <- <-]).
  constructor; [destruct x; eauto|]. destruct xs as [xs m']. by eapply IH.
Qed.

Lemma literal_children_ok {A} d n (l : list (Z → result (A * Z))) wrap w m :
  literal_children d n l wrap = Ok (w, m) →
  ∃ out, w = wrap out ∧ Forall2 (λ f x, ∃ n' m', f n' = Ok (x, m')) l out.
Proof.
  unfold literal_children. destruct (_ <=? _); [done|]. intros ([out k] & Ho & [= <- <-])%rbind_ok.
  exists out. split; [done|by eapply copy_all_ok].
Qed.

Lemma copy_canon v : json_value v = true → ∀ d n w m, copyLiteralNode v d n = Ok (w, m) → w = canon v.
Proof.
  induction v as [| |b|k|s|l IH|fs IH|bs| |] using jsval_rect'; simpl; try done; intros Hj d n w m H;
    apply rbind_ok in H as (n' & _ & H); try (by injection H as <- _).
  - destruct k; try done; by injection H as <- _.
  - apply literal_children_ok in H as (out & -> & H). f_equal.
    rewrite Forall_forall in IH. rewrite forallb_elem in Hj. clear n m. revert out H.
    induction l as [|x l IHl]; intros out H; simpl in H; [by inversion H|].
    inversion H as [|? y ? out' (n1 & m1 & Hy) H2]; subst. simpl. f_equal.
    + eapply IH; [apply list_elem_of_here|apply Hj, list_elem_of_here|done].
    + apply IHl; [intros z Hz; apply IH; by right|intros z Hz; apply Hj; by right|done].
  - apply literal_children_ok in H as (out & -> & H). f_equal.
    rewrite Forall_forall in IH. rewrite forallb_elem in Hj.
    rewrite canon_fields. rewrite (sort_fields_fmap (λ f, labelled f.1 (copyLiteralNode f.2 (d + 1)))) in H.
    assert (∀ f, f ∈ sort_fields fs → f ∈ fs) as Hin by (intros f; apply elem_of_sort_fields).
    clear n m. revert out H Hin. induction (sort_fields fs) as [|f l IHl]; intros out H Hin; csimpl in H; [by inversion H|].
    inversion H as [|? y ? out' (n1 & m1 & Hy) H2]; subst. simpl. f_equal.
    + unfold labelled in Hy. apply rbind_ok in Hy as ([z m2] & Hz & [= <- <-]). simpl. f_equal.
      eapply (IH f); [by apply Hin; left|by apply Hj, Hin; left|done].
    + apply IHl; [done|]. intros g Hg. apply Hin. by right.
Qed.

Lemma parse_literal_canon v w : json_value v = true → parseIntentLiteralValue v = Ok w → w = canon v.
Proof.
  intros Hj. unfold parseIntentLiteralValue. intros ([x m] & Hx & H)%rbind_ok. simpl in H.
  destruct (_ <? _); [done|]. injection H as <-. by eapply copy_canon.
Qed.

(** ** Numbers *)

Lemma digits_aux_units fuel n acc :
  forallb is_digit acc = true → forallb is_digit (digits_aux fuel n acc) = true.
Proof.
  revert n acc. induction fuel as [|fuel IH]; intros n acc H; simpl; [done|].
  assert (forallb is_digit ((48 + n mod 10)%N :: acc) = true) as H'.
  { simpl. rewrite H, andb_true_r. unfold is_digit.
    assert (n mod 10 < 10)%N as Hm by (by apply N.mod_lt). revert Hm. generalize (n mod 10)%N. intros m Hm.
    apply andb_true_iff. split; apply N.leb_le; lia. }
  destruct (_ <? _)%N; [exact H'|by apply IH].
Qed.
Lemma digits_units n : forallb is_digit (digits n) = true.
Proof. by apply digits_aux_units. Qed.
Lemma digits_nonempty n : digits n ≠ [].
Proof.
  unfold digits. simpl. destruct (n <? 10)%N; [done|].
  assert (∀ fuel m acc, acc ≠ [] → digits_aux fuel m acc ≠ []) as H; [|by apply H].
  induction fuel as [|fuel IH]; intros m acc Ha; simpl; [done|]. destruct (_ <? _)%N; [done|]. by apply IH.
Qed.

Lemma digit_unit c : is_digit c = true → number_unit c = true.
Proof. intros H. unfold number_unit. by rewrite H. Qed.
Lemma digit_plain c : is_digit c = true → c ≠ 46%N ∧ c ≠ 101%N ∧ c ≠ 45%N.
Proof. unfold is_digit. intros [H1 H2]%andb_true_iff. apply N.leb_le in H1, H2. lia. Qed.

Lemma number_units n : json_number n = true → forallb number_unit (show_num n) = true.
Proof.
  destruct n as [z|r| |]; simpl; [intros _|by intros [[? _]%andb_true_iff _]%andb_true_iff|done..].
  assert (∀ m, forallb number_unit (digits m) = true) as H.
  { intros m. rewrite forallb_elem. intros c Hc. apply digit_unit. pose proof (digits_units m) as Hd.
    rewrite forallb_elem in Hd. by apply Hd. }
  destruct (z <? 0); simpl; by rewrite H.
Qed.
Lemma int_units z c : c ∈ show_num (NumInt z) → c ≠ 46%N ∧ c ≠ 101%N.
Proof.
  assert (∀ m, c ∈ digits m → c ≠ 46%N ∧ c ≠ 101%N) as H.
  { intros m Hc. pose proof (digits_units m) as Hd. rewrite forallb_elem in Hd. by destruct (digit_plain c (Hd c Hc)) as (? & ? & _). }
  simpl. destruct (z <? 0); [|apply H]. intros [->|Hc]%elem_of_cons; [done|by eapply H].
Qed.
Lemma show_int_inj a b : show_num (NumInt a) = show_num (NumInt b) → a = b.
Proof.
  assert (∀ n t, 45%N :: t ≠ digits n) as Hm.
  { intros n t E. pose proof (digits_units n) as Hd. rewrite <-E in Hd. by simpl in Hd. }
  simpl. destruct (Z.ltb_spec a 0), (Z.ltb_spec b 0); intros E.
  - injection E as E%(inj digits). lia.
  - by apply Hm in E.
  - symmetry in E. by apply Hm in E.
  - apply (inj digits) in E. lia.
Qed.
Lemma number_text_inj a b : json_number a = true → json_number b = true → show_num a = show_num b → a = b.
Proof.
  assert (∀ z r, json_number (NumDec r) = true → show_num (NumInt z) ≠ r) as Hx.
  { intros z r [[_ H]%andb_true_iff _]%andb_true_iff <-.
    apply orb_true_iff in H as [H|H]; apply bool_decide_eq_true in H; by destruct (int_units _ _ H). }
  destruct a as [z|r| |], b as [z2|r2| |]; try done; intros Ha Hb E.
  - f_equal. by apply show_int_inj.
  - by apply Hx in E.
  - symmetry in E. by apply Hx in E.
  - by f_equal.
Qed.

(** ** The text of a value *)

Definition closing (c : N) : bool := bool_decide (c ∈ [44%N; 93%N; 125%N]).
(** What can stand behind a value. *)
Definition delimited (r : jstr) : Prop := match r with [] => True | c :: _ => closing c = true end.

Lemma span_inj (p : N → bool) t1 t2 r1 r2 :
  forallb p t1 = true → forallb p t2 = true →
  match r1 with [] => True | c :: _ => p c = false end → match r2 with [] => True | c :: _ => p c = false end →
  t1 ++ r1 = t2 ++ r2 → t1 = t2 ∧ r1 = r2.
Proof.
  revert t2. induction t1 as [|c t1 IH]; intros [|d t2] H1 H2 E1 E2 E; simpl in *.
  - done.
  - subst. simpl in E1. apply andb_true_iff in H2 as [H2 _]. congruence.
  - subst. simpl in E2. apply andb_true_iff in H1 as [H1 _]. congruence.
  - injection E as -> E. apply andb_true_iff in H1 as [_ H1], H2 as [_ H2].
    by destruct (IH t2 H1 H2 E1 E2 E) as [-> ->].
Qed.
Lemma delimited_number r : delimited r → match r with [] => True | c :: _ => number_unit c = false end.
Proof.
  destruct r as [|c r]; [done|]. simpl. unfold closing. intros H%bool_decide_eq_true.
  repeat (apply elem_of_cons in H as [->|H]; [done|]). by apply elem_of_nil in H.
Qed.

(** Kinds of values by the first unit of their text. *)
Definition kind_of (v : jsval) : N :=
  match v with
  | VNull => 110 | VBool true => 116 | VBool false => 102 | VStr _ => 34 | VArr _ => 91 | VObj _ => 123 | _ => 48
  end%N.
Definition kind_unit (c : N) : N := if is_digit c || bool_decide (c = 45%N) then 48%N else c.

Lemma text_head v t : json_value v = true → stableJson v = Some t → ∃ c t', t = c :: t' ∧ kind_unit c = kind_of v.
Proof.
  destruct v as [| |b|n|s|l|fs|bs| |]; try done; intros Hj H; cbn [stableJson] in H.
  - injection H as <-. by eexists _, _.
  - destruct b; injection H as <-; by eexists _, _.
  - injection H as <-. destruct n as [z|r| |]; try done; cbn [show_num kind_of].
    + assert (∀ m, ∃ c t', digits m = c :: t' ∧ kind_unit c = 48%N) as Hd.
      { intros m. pose proof (digits_units m) as Hu. destruct (digits m) as [|c t'] eqn:E; [by apply digits_nonempty in E|].
        simpl in Hu. apply andb_true_iff in Hu as [Hu _]. exists c, t'. split; [done|]. unfold kind_unit. by rewrite Hu. }
      destruct (z <? 0); [by eexists _, _|apply Hd].
    + simpl in Hj. apply andb_true_iff in Hj as [_ Hj]. destruct r as [|c r]; [done|]. exists c, r. split; [done|].
      unfold kind_unit. by rewrite Hj.
  - injection H as <-. by eexists _, _.
  - apply bind_Some in H as (parts & _ & [= <-]). by eexists _, _.
  - apply bind_Some in H as (parts & _ & [= <-]). by eexists _, _.
Qed.
Lemma kind_not_closing v c t t' :
  json_value v = true → stableJson v = Some t → t = c :: t' → closing c = false.
Proof.
  intros Hj H ->. destruct (text_head v _ Hj H) as (d & t2 & [= -> ->] & Hk).
  unfold closing. apply bool_decide_eq_false. intros Hc.
  repeat (apply elem_of_cons in Hc as [->|Hc]; [by destruct v as [| |[]| | | | | | |]|]). by apply elem_of_nil in Hc.
Qed.

(** *** Sequences of texts *)

Fixpoint more (ps : list jstr) : jstr := match ps with [] => [] | q :: qs => 44%N :: q ++ more qs end.
Lemma join_more p ps : join [44%N] (p :: ps) = p ++ more ps.
Proof. revert p. induction ps as [|q ps IH]; intros p; [by rewrite app_nil_r|]. change (join [44%N] (p :: q :: ps)) with (p ++ [44%N] ++ join [44%N] (q :: ps)). by rewrite IH. Qed.

Section Items.
Context {A : Type} (T : A → option jstr) (R : A → A → Prop) (close : N).
Context (Hclose : closing close = true) (Hcomma : close ≠ 44%N).

Lemma more_delimited ps r : delimited (more ps ++ close :: r).
Proof. by destruct ps. Qed.

Lemma more_inj (P : A → Prop) l1 :
  (∀ x y, x ∈ l1 → P y → ∀ tx ty r1 r2, T x = Some tx → T y = Some ty → delimited r1 → delimited r2 →
    tx ++ r1 = ty ++ r2 → R x y ∧ r1 = r2) →
  ∀ l2 p1 p2 r1 r2, Forall P l2 → mapM T l1 = Some p1 → mapM T l2 = Some p2 →
    more p1 ++ close :: r1 = more p2 ++ close :: r2 → Forall2 R l1 l2 ∧ r1 = r2.
Proof.
  induction l1 as [|x l1 IH]; intros Hd l2 p1 p2 r1 r2 Hp H1 H2 E.
  - injection H1 as <-. destruct l2 as [|y l2].
    + injection H2 as <-. injection E as ->. by split; [constructor|].
    + simpl in H2. apply bind_Some in H2 as (ty & _ & H2). apply bind_Some in H2 as (p & _ & [= <-]).
      simpl in E. by injection E as E _.
  - simpl in H1. apply bind_Some in H1 as (tx & Hx & H1). apply bind_Some in H1 as (p & Hl & [= <-]).
    destruct l2 as [|y l2]; [injection H2 as <-; simpl in E; by injection E as E _|].
    simpl in H2. apply bind_Some in H2 as (ty & Hy & H2). apply bind_Some in H2 as (q & Hm & [= <-]).
    inversion Hp as [|? ? Hy1 Hp2]; subst. simpl in E. injection E as E. rewrite <-!app_assoc in E.
    destruct (Hd x y (list_elem_of_here _ _) Hy1 tx ty _ _ Hx Hy (more_delimited _ _) (more_delimited _ _) E) as [HR E'].
    destruct (IH (λ x y Hx, Hd x y (list_elem_of_further _ _ _ Hx)) l2 p q r1 r2 Hp2 Hl Hm E') as [HF ->]. split; [by constructor|done].
Qed.

Lemma items_inj (P : A → Prop) l1 l2 p1 p2 r1 r2 :
  (∀ x y, x ∈ l1 → P y → ∀ tx ty r1 r2, T x = Some tx → T y = Some ty → delimited r1 → delimited r2 →
    tx ++ r1 = ty ++ r2 → R x y ∧ r1 = r2) →
  (∀ x t, x ∈ l1 ∨ P x → T x = Some t → match t with c :: _ => closing c = false | [] => False end) →
  Forall P l2 → mapM T l1 = Some p1 → mapM T l2 = Some p2 →
  join [44%N] p1 ++ close :: r1 = join [44%N] p2 ++ close :: r2 → Forall2 R l1 l2 ∧ r1 = r2.
Proof.
  intros Hd Ho Hp H1 H2 E. destruct l1 as [|x l1], l2 as [|y l2]; simpl in H1, H2.
  - injection H1 as <-. injection H2 as <-. injection E as ->. by split; [constructor|].
  - injection H1 as <-. apply bind_Some in H2 as (ty & Hy & H2). apply bind_Some in H2 as (p & _ & [= <-]).
    rewrite join_more in E. inversion Hp as [|? ? Hy1]; subst. pose proof (Ho y ty (or_intror Hy1) Hy) as Hc.
    destruct ty as [|c ty]; [done|]. injection E as <- _. congruence.
  - injection H2 as <-. apply bind_Some in H1 as (tx & Hx & H1). apply bind_Some in H1 as (p & _ & [= <-]).
    rewrite join_more in E. pose proof (Ho x tx (or_introl (list_elem_of_here _ _)) Hx) as Hc.
    destruct tx as [|c tx]; [done|]. injection E as -> _. congruence.
  - apply bind_Some in H1 as (tx & Hx & H1). apply bind_Some in H1 as (p & Hl & [= <-]).
    apply bind_Some in H2 as (ty & Hy & H2). apply bind_Some in H2 as (q & Hm & [= <-]).
    rewrite !join_more, <-!app_assoc in E. inversion Hp as [|? ? Hy1 Hp2]; subst.
    destruct (Hd x y (list_elem_of_here _ _) Hy1 tx ty _ _ Hx Hy (more_delimited _ _) (more_delimited _ _) E) as [HR E'].
    destruct (more_inj P l1 (λ x y Hx, Hd x y (list_elem_of_further _ _ _ Hx)) l2 p q r1 r2 Hp2 Hl Hm E') as [HF ->].
    split; [by constructor|done].
Qed.
End Items.

Lemma mapM_snd {B C} (h : B → option C) (k : B → jstr) (l : list B) :
  mapM snd ((λ f, (k f, h f)) <$> l) = mapM h l.
Proof.
  induction l as [|x l IH]; [done|]. rewrite fmap_cons. change (mapM h (x :: l)) with (y ← h x; ys ← mapM h l; Some (y :: ys)).
  rewrite <-IH. done.
Qed.

Definition field_text (f : jstr * jsval) : option jstr := t ← stableJson f.2; Some (quote f.1 ++ [58%N] ++ t).

Lemma text_kind a b ta tb r1 r2 :
  json_value a = true → json_value b = true → stableJson a = Some ta → stableJson b = Some tb →
  ta ++ r1 = tb ++ r2 → kind_of a = kind_of b.
Proof.
  intros Ha Hb H1 H2 E. destruct (text_head _ _ Ha H1) as (c & t & -> & <-), (text_head _ _ Hb H2) as (d & t2 & -> & <-).
  by injection E as -> _.
Qed.
Lemma bracketed o c x y (r1 r2 : jstr) : (o :: x ++ [c]) ++ r1 = (o :: y ++ [c]) ++ r2 → x ++ c :: r1 = y ++ c :: r2.
Proof. simpl. rewrite <-!app_assoc. by intros [= E]. Qed.

Lemma member_split k1 k2 t1 t2 (r1 r2 : jstr) :
  (quote k1 ++ [58%N] ++ t1) ++ r1 = (quote k2 ++ [58%N] ++ t2) ++ r2 → k1 = k2 ∧ t1 ++ r1 = t2 ++ r2.
Proof. rewrite <-!app_assoc. intros [-> [= E]]%quote_inj. done. Qed.

(** The text of a JSON value, in front of more text, determines it up to the order of keys. *)
Lemma stable_text_inj a : json_value a = true → ∀ b ta tb r1 r2,
  json_value b = true → stableJson a = Some ta → stableJson b = Some tb → delimited r1 → delimited r2 →
  ta ++ r1 = tb ++ r2 → canon a = canon b ∧ r1 = r2.
Proof.
  induction a as [| |x|n|s|l IH|fs IH|bs| |] using jsval_rect'; try done; intros Hj b ta tb r1 r2 Hb Ha Htb D1 D2 E;
    assert (kind_of b = kind_of _) as Hk by (by eapply text_kind; [exact Hb|exact Hj|exact Htb|exact Ha|symmetry; exact E]);
    simpl in Hk.
  - destruct b as [| |[]| | | | | | |]; try done. split; [done|]. rewrite Ha in Htb. injection Htb as ->. by apply app_inv_head in E.
  - destruct x, b as [| |[]| | | | | | |]; try done; (split; [done|]; rewrite Ha in Htb; injection Htb as ->; by apply app_inv_head in E).
  - destruct b as [| |[]|m| | | | | |]; try done. cbn [stableJson] in Ha, Htb. injection Ha as <-. injection Htb as <-.
    destruct (span_inj number_unit _ _ r1 r2 (number_units _ Hj) (number_units _ Hb) (delimited_number _ D1) (delimited_number _ D2) E) as [Et ->].
    by rewrite (number_text_inj n m Hj Hb Et).
  - destruct b as [| |[]| |s2| | | | |]; try done. cbn [stableJson] in Ha, Htb. injection Ha as <-. injection Htb as <-.
    by apply quote_inj in E as [-> ->].
  - destruct b as [| |[]| | |l2| | | |]; try done. cbn [stableJson] in Ha, Htb.
    apply bind_Some in Ha as (p1 & H1 & [= <-]). apply bind_Some in Htb as (p2 & H2 & [= <-]). apply bracketed in E.
    simpl in Hj, Hb. rewrite forallb_elem in Hj, Hb. rewrite Forall_forall in IH.
    destruct (items_inj stableJson (λ a b, canon a = canon b) 93%N eq_refl ltac:(done) (λ y, json_value y = true) l l2 p1 p2 r1 r2) as [HF ->];
      [intros x y Hx Hy tx ty s1 s2 T1 T2 X1 X2 EE; eapply IH; eauto| |by apply Forall_forall|done..|].
    { intros x t' Hx Ht'. assert (json_value x = true) as Hjx by (destruct Hx; auto).
      destruct (text_head _ _ Hjx Ht') as (c' & t3 & -> & _). by eapply kind_not_closing. }
    split; [|done]. simpl. f_equal. clear -HF. induction HF; csimpl; congruence.
  - destruct b as [| |[]| | | |gs| | |]; try done. cbn [stableJson] in Ha, Htb.
    apply bind_Some in Ha as (p1 & H1 & [= <-]). apply bind_Some in Htb as (p2 & H2 & [= <-]). apply bracketed in E.
    simpl in Hj, Hb. rewrite forallb_elem in Hj, Hb. rewrite Forall_forall in IH.
    change (λ f : jstr * jsval, (f.1, t ← stableJson f.2; Some (quote f.1 ++ [58%N] ++ t))) with (λ f, (f.1, field_text f)) in H1, H2.
    rewrite (sort_fields_fmap field_text), mapM_snd in H1, H2.
    assert (∀ f fs2, f ∈ sort_fields fs2 → f ∈ fs2) as Hin by (intros f fs2; apply elem_of_sort_fields).
    destruct (items_inj field_text (λ f g, f.1 = g.1 ∧ canon f.2 = canon g.2) 125%N eq_refl ltac:(done) (λ g, json_value g.2 = true)
      (sort_fields fs) (sort_fields gs) p1 p2 r1 r2) as [HF ->]; [| |apply Forall_forall; auto|done..|].
    + intros f g Hf Hg tx ty s1 s2 T1 T2 X1 X2 EE. unfold field_text in T1, T2.
      apply bind_Some in T1 as (t1 & T1 & [= <-]). apply bind_Some in T2 as (t3 & T2 & [= <-]).
      apply member_split in EE as [Ek EE].
      destruct (IH f (Hin _ _ Hf) (Hj _ (Hin _ _ Hf)) g.2 t1 t3 s1 s2 Hg T1 T2 X1 X2 EE) as [Ev ->]. done.
    + intros f t' _ Ht'. apply bind_Some in Ht' as (t1 & _ & [= <-]). done.
    + split; [|done]. simpl. rewrite !canon_fields. f_equal. clear -HF. induction HF as [|f g l l' [E1 E2]]; csimpl; [done|].
      rewrite E1, E2. congruence.
Qed.

Lemma equal_literal_canon a b :
  json_value a = true → json_value b = true → equalLiteral a b = true → ∀ w, w ∈ scalars a ↔ w ∈ scalars b.
Proof.
  intros Ha Hb H w. unfold equalLiteral in H. destruct (literal_json a) as [t|] eqn:Ea; [|done].
  apply bool_decide_eq_true in H. unfold literal_json in Ea, H.
  destruct (parseIntentLiteralValue a) as [a'|] eqn:Pa; [|done]. destruct (parseIntentLiteralValue b) as [b'|] eqn:Pb; [|done].
  apply parse_literal_canon in Pa as ->; [|done]. apply parse_literal_canon in Pb as ->; [|done].
  destruct (stable_text_inj (canon a) (json_canon _ Ha) (canon b) t t [] [] (json_canon _ Hb) Ea H I I eq_refl) as [E _].
  by rewrite <-(scalars_canon a), <-(scalars_canon b), <-(scalars_canon (canon a)), <-(scalars_canon (canon b)), E.
Qed.

(** * The path of a leaf *)

(** [rawLeaves] writes the place of a leaf as a text and [constraintCoversLeaf] reads the text
    again.  When no key on the way holds a dot or a bracket, what is read is the place. *)

(** ** Places *)

Definition is_scalar (v : jsval) : bool := match v with VNull | VBool _ | VNum _ | VStr _ => true | _ => false end.
(** [w] is a scalar of [v], at the end of the steps [p]. *)
Inductive leaf_at : jsval → list PathPart → jsval → Prop :=
  | leaf_here v : is_scalar v = true → leaf_at v [] v
  | leaf_item l i x p w : l !! i = Some x → leaf_at x p w → leaf_at (VArr l) (part_index (Some (N.of_nat i)) :: p) w
  | leaf_field fs k x p w : fields_get k fs = Some x → leaf_at x p w → leaf_at (VObj fs) (part_key k :: p) w.

Lemma fields_get_elem k fs v : fields_get k fs = Some v → (k, v) ∈ fs.
Proof.
  induction fs as [|[k' v'] fs IH]; simpl; [done|]. destruct (decide (k = k')) as [->|].
  - intros [= ->]. apply list_elem_of_here.
  - intros H. by apply list_elem_of_further, IH.
Qed.

Lemma leaf_scalar v p w : leaf_at v p w → w ∈ scalars v.
Proof.
  induction 1 as [v H|l i x p w Hx _ IH|fs k x p w Hx _ IH]; [by destruct v; try done; apply list_elem_of_here|..]; simpl; apply elem_of_concat_map.
  - exists x. split; [by eapply list_elem_of_lookup_2|done].
  - exists (k, x). split; [by apply fields_get_elem|done].
Qed.

(** ** Texts of places *)

Definition part_text (t : jstr) (part : PathPart) : jstr :=
  match part with
  | part_key k => child_path t k
  | part_index (Some i) => t ++ [open_bracket] ++ digits i ++ [close_bracket]
  | part_index None => wildcard t
  end.
Definition path_text (t : jstr) (p : list PathPart) : jstr := foldl part_text t p.

(** The wildcard of every item. *)
Definition schema_part (part : PathPart) : PathPart := match part with part_index _ => part_index None | k => k end.

Lemma elem_of_own_entries {A} (fs : list (jstr * A)) f : f ∈ fs → f ∈ own_entries fs.
Proof.
  intros H. unfold own_entries. apply elem_of_app. destruct (index_key f.1) as [n|] eqn:E.
  - left. apply (list_elem_of_fmap_2' snd _ (n, f)); [|done]. rewrite merge_sort_Permutation.
    apply list_elem_of_omap. exists f. by rewrite E.
  - right. by apply list_elem_of_filter.
Qed.

Lemma object_leaf cp sp k (leaves : list RawLeaf) l leaf :
  (k, leaves) ∈ l → leaf ∈ leaves → leaf ∈ object_leaves cp sp l.
Proof.
  intros Hl Hleaf. destruct l as [|f l]; [by apply elem_of_nil in Hl|]. cbn [object_leaves].
  apply elem_of_concat_map. exists (k, leaves). split; [by apply elem_of_own_entries|done].
Qed.

(** Every scalar of the arguments has its leaf. *)
Lemma leaf_raw v p w : leaf_at v p w → ∀ cp sp,
  {| concretePath := path_text cp p; schemaPath := path_text sp (schema_part <$> p) |} ∈ rawLeaves v cp sp.
Proof.
  induction 1 as [v H|l i x p w Hx _ IH|fs k x p w Hx _ IH]; intros cp sp.
  - destruct v; try done; apply list_elem_of_here.
  - assert (rawLeaves (VArr l) cp sp = concat (imap (λ i f, f i) ((λ x i, rawLeaves x (indexed cp i) (wildcard sp)) <$> l))) as ->
      by (destruct l; [by destruct i|done]).
    rewrite list_elem_of_In. apply in_concat. exists (rawLeaves x (indexed cp i) (wildcard sp)). split.
    + apply list_elem_of_In, list_elem_of_lookup. exists i. by rewrite list_lookup_imap, list_lookup_fmap, Hx.
    + apply list_elem_of_In. apply (IH (indexed cp i) (wildcard sp)).
  - cbn [rawLeaves]. apply (object_leaf _ _ k (rawLeaves x (child_path cp k) (child_path sp k))).
    + apply (list_elem_of_fmap_2' _ _ (k, x)); [|done]. by apply fields_get_elem.
    + apply (IH (child_path cp k) (child_path sp k)).
Qed.

(** ** Reading a place *)

(** A key that a path can name. *)
Definition plain_key (k : jstr) : bool :=
  negb (bool_decide (k = [])) && forallb (λ c, negb (bool_decide (c ∈ [dot; open_bracket; close_bracket]))) k.
Definition plain_part (part : PathPart) : bool := match part with part_key k => plain_key k | part_index _ => true end.

Definition dotless (s : jstr) : Prop := dot ∉ s.

Lemma plain_key_spec k : plain_key k = true → k ≠ [] ∧ dotless k ∧ open_bracket ∉ k ∧ close_bracket ∉ k.
Proof.
  unfold plain_key. intros [H1 H2]%andb_true_iff. apply negb_true_iff, bool_decide_eq_false in H1.
  rewrite forallb_elem in H2.
  assert (∀ c, c ∈ [dot; open_bracket; close_bracket] → c ∉ k) as H.
  { intros c Hc Hk. apply H2 in Hk. by rewrite bool_decide_true in Hk. }
  unfold dotless. split; [done|]. repeat split; apply H; set_solver.
Qed.

Lemma split_plain t : dotless t → split_on dot t = [t].
Proof.
  induction t as [|c t IH]; simpl; [done|]. intros H. unfold dotless in *.
  rewrite IH by (intros Ht; by apply H, list_elem_of_further). rewrite bool_decide_false; [done|].
  intros ->. by apply H, list_elem_of_here.
Qed.
Lemma split_app s t : dotless t → ∃ front last, split_on dot s = front ++ [last] ∧ split_on dot (s ++ t) = front ++ [last ++ t].
Proof.
  intros Ht. induction s as [|c s (front & last & E1 & E2)].
  - exists [], []. split; [done|by apply (split_plain t)].
  - simpl. rewrite E1, E2. destruct front as [|x front]; simpl; case_bool_decide.
    + by exists [[]], last.
    + by exists [], (c :: last).
    + by exists ([] :: x :: front), last.
    + by exists ((c :: x) :: front), last.
Qed.
Lemma split_dot s k : dotless k → split_on dot (s ++ dot :: k) = split_on dot s ++ [k].
Proof.
  intros Hk. induction s as [|c s IH]; simpl.
  - by rewrite (split_plain k Hk).
  - rewrite IH. destruct (split_app s [] (not_elem_of_nil _)) as (front & last & -> & _).
    destruct front as [|x front]; simpl; case_bool_decide; done.
Qed.

(** A text with units at both ends that are no dots. *)
Definition dot_ends (t : jstr) : Prop := t ≠ [] ∧ head t ≠ Some dot ∧ last t ≠ Some dot.
(** A text that reads as [p]. *)
Record reads (t : jstr) (p : list PathPart) : Prop := {
  reads_ends : dot_ends t;
  reads_parts : ∃ l, mapM parse_segment (split_on dot t) = Some l ∧ p = concat l;
}.

Lemma reads_parse t p : reads t p → parsePath t = Some p.
Proof.
  intros [(Hn & Hh & Hl) (l & Hp & ->)]. unfold parsePath.
  assert (starts_with [dot] t = false) as -> by (apply not_true_iff_false; intros [r ->]%starts_with_spec; done).
  assert (ends_with [dot] t = false) as ->.
  { apply not_true_iff_false. unfold ends_with. intros [r E]%starts_with_spec. apply Hl.
    rewrite <-head_reverse, E. done. }
  destruct t; [done|]. cbn [orb]. by rewrite Hp.
Qed.

Lemma split_key_plain k : open_bracket ∉ k → split_key k = (k, []).
Proof.
  induction k as [|c k IH]; simpl; [done|]. intros H. rewrite bool_decide_false by (intros ->; by apply H, list_elem_of_here).
  rewrite IH; [done|]. intros Hk. by apply H, list_elem_of_further.
Qed.
Lemma segment_key k : plain_key k = true → parse_segment k = Some [part_key k].
Proof.
  intros (Hn & _ & Ho & Hc)%plain_key_spec. unfold parse_segment. rewrite split_key_plain by done.
  by rewrite (bool_decide_false (k = [])), (bool_decide_false (close_bracket ∈ k)).
Qed.

(** The text of a bracket token. *)
Definition bracket_text (i : option N) : jstr := open_bracket :: match i with Some n => digits n | None => [] end ++ [close_bracket].

Lemma token_digits d ds r :
  forallb is_digit ds = true →
  bracket_tokens (Some d) (ds ++ close_bracket :: r) =
    (l ← bracket_tokens None r; Some (part_index (match d ++ ds with [] => None | _ => Some (undigits (d ++ ds)) end) :: l)).
Proof.
  revert d. induction ds as [|c ds IH]; intros d H.
  - rewrite app_nil_r. done.
  - simpl in H. apply andb_true_iff in H as [Hc H]. cbn [app bracket_tokens]. rewrite bool_decide_false.
    + rewrite Hc, IH, <-app_assoc by done. done.
    + intros ->. done.
Qed.
Lemma token_one i r : bracket_tokens None (bracket_text i ++ r) = (l ← bracket_tokens None r; Some (part_index i :: l)).
Proof.
  unfold bracket_text. cbn [app bracket_tokens]. rewrite bool_decide_true by done. rewrite <-app_assoc. cbn [app].
  rewrite token_digits by (destruct i; [apply digits_units|done]). cbn [app]. destruct i as [n|]; [|done].
  rewrite digits_undo. destruct (digits n) eqn:E; [by apply digits_nonempty in E|]. done.
Qed.
Lemma tokens_app ds r i l : bracket_tokens ds r = Some l → bracket_tokens ds (r ++ bracket_text i) = Some (l ++ [part_index i]).
Proof.
  revert ds l. induction r as [|c r IH]; intros ds l H.
  - destruct ds; [done|]. injection H as <-. pose proof (token_one i []) as H. by rewrite app_nil_r in H.
  - destruct ds as [d|]; cbn [bracket_tokens app] in *.
    + case_bool_decide.
      * apply bind_Some in H as (l' & H & [= <-]). by rewrite (IH _ _ H).
      * destruct (is_digit c); [by apply IH|done].
    + case_bool_decide; [by apply IH|done].
Qed.

Lemma split_key_app s b : split_key (s ++ open_bracket :: b) =
  let '(k, r) := split_key s in (k, r ++ open_bracket :: b).
Proof.
  induction s as [|c s IH]; simpl; [done|]. case_bool_decide; [done|]. rewrite IH. by destruct (split_key s).
Qed.
Lemma segment_app s i l : parse_segment s = Some l → parse_segment (s ++ bracket_text i) = Some (l ++ [part_index i]).
Proof.
  unfold parse_segment. change (bracket_text i) with (open_bracket :: (match i with Some n => digits n | None => [] end ++ [close_bracket])).
  rewrite split_key_app. destruct (split_key s) as [k r]. change (open_bracket :: _) with (bracket_text i).
  destruct (_ || _); [done|]. intros (l' & H & [= <-])%bind_Some. by rewrite (tokens_app _ _ i _ H).
Qed.

Lemma bracket_dotless i : dotless (bracket_text i).
Proof.
  unfold dotless, bracket_text. rewrite elem_of_cons, elem_of_app, list_elem_of_singleton.
  intros [H|[H|H]]; [done| |done]. destruct i as [n|]; [|by apply elem_of_nil in H].
  pose proof (digits_units n) as Hd. rewrite forallb_elem in Hd. by apply Hd in H.
Qed.

Lemma ends_app t s : dot_ends t → s ≠ [] → last s ≠ Some dot → dot_ends (t ++ s).
Proof.
  intros (Hn & Hh & Hl) Hs Hd. destruct t as [|c t]; [done|]. split_and!; [done..|]. rewrite last_app.
  by destruct (last s).
Qed.
Lemma plain_ends k : plain_key k = true → dot_ends k.
Proof.
  intros (Hn & Hd & _)%plain_key_spec. unfold dotless in Hd. split_and!; [done|..]; intros H; apply Hd.
  - by apply head_Some_elem_of.
  - by apply last_Some_elem_of.
Qed.

Lemma mapM_app {A B} (f : A → option B) l1 l2 :
  mapM f (l1 ++ l2) = (x ← mapM f l1; y ← mapM f l2; Some (x ++ y)).
Proof.
  induction l1 as [|a l1 IH].
  - change (mapM f [] ≫= _) with (y ← mapM f l2; Some y). simpl app. by destruct (mapM f l2).
  - change (mapM f ((a :: l1) ++ l2)) with (x ← f a; y ← mapM f (l1 ++ l2); Some (x :: y)).
    change (mapM f (a :: l1)) with (x ← f a; y ← mapM f l1; Some (x :: y)). rewrite IH.
    destruct (f a); [|done]. csimpl. destruct (mapM f l1); [|done]. csimpl. by destruct (mapM f l2).
Qed.

Lemma reads_key k : plain_key k = true → reads k [part_key k].
Proof.
  intros H. split; [by apply plain_ends|]. destruct (plain_key_spec k H) as (_ & Hd & _). rewrite (split_plain k Hd). csimpl.
  rewrite (segment_key k H). by exists [[part_key k]].
Qed.
Lemma reads_child t p k : reads t p → plain_key k = true → reads (child_path t k) (p ++ [part_key k]).
Proof.
  intros [He (l & Hl & ->)] Hk. destruct (plain_key_spec k Hk) as (_ & Hd & _).
  assert (child_path t k = t ++ dot :: k) as -> by (by destruct t). split.
  - destruct (plain_ends k Hk) as (Hn & _ & He2). apply ends_app; [done..|]. rewrite last_cons.
    destruct (last k) eqn:E; [done|by apply last_None in E].
  - rewrite (split_dot t k Hd), mapM_app, Hl. csimpl. rewrite (segment_key k Hk). exists (l ++ [[part_key k]]).
    split; [done|]. by rewrite concat_app.
Qed.
Lemma reads_bracket t p i : reads t p → reads (t ++ bracket_text i) (p ++ [part_index i]).
Proof.
  intros [He (l & Hl & ->)]. split.
  - apply ends_app; [done..|]. unfold bracket_text. by rewrite app_comm_cons, last_snoc.
  - destruct (split_app t (bracket_text i) (bracket_dotless i)) as (front & last & E1 & ->). rewrite E1 in Hl.
    rewrite mapM_app in Hl |- *. apply bind_Some in Hl as (l1 & -> & Hl). apply bind_Some in Hl as (l2 & Hl2 & [= <-]).
    csimpl. csimpl in Hl2. apply bind_Some in Hl2 as (x & Hx & [= <-]). rewrite (segment_app _ i _ Hx). csimpl.
    exists (l1 ++ [x ++ [part_index i]]). split; [done|]. rewrite !concat_app. cbn [concat]. by rewrite !app_nil_r, app_assoc.
Qed.

Lemma reads_steps t p q : reads t p → forallb plain_part q = true → reads (path_text t q) (p ++ q).
Proof.
  revert t p. induction q as [|part q IH]; intros t p H Hq; [by rewrite app_nil_r|].
  simpl in Hq. apply andb_true_iff in Hq as [H1 Hq]. replace (p ++ part :: q) with ((p ++ [part]) ++ q) by (by rewrite <-app_assoc).
  apply (IH (part_text t part)); [|done]. destruct part as [k|[i|]].
  - by apply reads_child.
  - by apply (reads_bracket t p (Some i)).
  - by apply (reads_bracket t p None).
Qed.

(** The text of a place below a field is read back. *)
Theorem path_text_reads k q :
  plain_key k = true → forallb plain_part q = true →
  parsePath (path_text [] (part_key k :: q)) = Some (part_key k :: q).
Proof.
  intros Hk Hq. apply reads_parse. apply (reads_steps k [part_key k] q); [by apply reads_key|done].
Qed.

(** ** What a constraint covers *)

Lemma cover_steps v p w : leaf_at v p w → ∀ cs current,
  v ∈ current → parts_cover cs p = true →
  ∃ x, x ∈ foldl (λ current part, current ≫= step_values part) current cs ∧ w ∈ scalars x.
Proof.
  intros H cs. revert v p H. induction cs as [|c cs IH]; intros v p H current Hv Hc.
  - exists v. split; [done|by eapply leaf_scalar].
  - destruct p as [|part p]; [done|]. simpl in Hc. apply andb_true_iff in Hc as [Hp Hc].
    inversion H as [|l i x ? ? Hx Hl|fs k x ? ? Hx Hl]; subst.
    + apply (IH x p Hl); [|done]. apply list_elem_of_bind. exists (VArr l). split; [|done].
      destruct c as [k|[j|]]; [by simpl in Hp| |by eapply list_elem_of_lookup_2].
      simpl in Hp. apply bool_decide_eq_true in Hp as [= <-]. cbn [step_values]. rewrite Nat2N.id, Hx. apply list_elem_of_here.
    + apply (IH x p Hl); [|done]. apply list_elem_of_bind. exists (VObj fs). split; [|done].
      destruct c as [k'|[i|]]; [|done..]. simpl in Hp. apply bool_decide_eq_true in Hp as ->. cbn [step_values record_fields].
      rewrite Hx. apply list_elem_of_here.
Qed.
Lemma cover_value root p w cs : leaf_at root p w → parts_cover cs p = true → ∃ x, x ∈ values_at cs root ∧ w ∈ scalars x.
Proof. intros H Hc. eapply cover_steps; [done|apply list_elem_of_here|done]. Qed.
