(* ===== verification/IntentSound.v ===== *)
(** * Only authored values pass

    What the check of file IntentAuthority promises of a write it lets through: each value
    among the arguments stands in a literal that the capability binds to a span of the
    admin's text, or is the admin's own id where the admin wrote [me]. *)
From S2P Require Import Prelude Js SafeJson IntentCapability IntentAuthority IntentLiteral.
Open Scope Z_scope.
#[local] Arguments u : simpl never.

(** ** What a parsed capability holds *)

Section Parsed.
Context (sha256 : jstr → jstr).

(** A literal of a grant: JSON, on a path that is not sensitive, bound to a span of the
    grant that quotes the text. *)
Record authored (source : jstr) (g : IntentWriteActionV1) (c : IntentLiteralConstraintV1) : Prop := {
  authored_json : json_value c.(constraint_value) = true;
  authored_path : SENSITIVE_PATH c.(constraint_path) = false;
  authored_span : c.(sourceSpan) ∈ g.(sourceSpans);
  authored_text : validateUtf8SourceSpan source c.(sourceSpan) = Ok c.(sourceSpan).(span_text);
}.

Lemma json_prop k v : json_value v = true → prop k v = VUndef ∨ json_value (prop k v) = true.
Proof.
  intros H. unfold prop. destruct v as [| |b|n|s|l|fs|bs| |]; try by left. cbn [fields_of].
  destruct (fields_get k fs) as [x|] eqn:E; [right|by left]. simpl in H. rewrite forallb_elem in H.
  by apply (H (k, x)), fields_get_elem.
Qed.
Lemma json_items k v l : json_value v = true → prop k v = VArr l → ∀ x, x ∈ l → json_value x = true.
Proof.
  intros H E. destruct (json_prop k v H) as [E'|H']; [congruence|]. rewrite E in H'. simpl in H'. by rewrite forallb_elem in H'.
Qed.

Lemma literal_json_ok v w : v = VUndef ∨ json_value v = true → parseIntentLiteralValue v = Ok w → json_value w = true.
Proof. intros [->|Hv] H; [done|]. rewrite (parse_literal_canon _ _ Hv H). by apply json_canon. Qed.

Lemma check_span_text source span t : check_span (Some source) span = Ok t → validateUtf8SourceSpan source span = Ok span.(span_text).
Proof.
  unfold check_span. intros (x & Hx & _)%rbind_ok. rewrite Hx. revert Hx. unfold validateUtf8SourceSpan.
  destruct (_ <? _); [done|]. destruct (p ← _; _) as [[d r]|]; [|done].
  assert ((if bool_decide (d = span_text span) then Ok d else Throw "intent_capability_span_text_mismatch") = Ok x → Ok (A:=jstr) x = Ok (span_text span)) as H.
  { case_bool_decide as E; [|done]. by intros [= <-]; rewrite E. }
  destruct d as [|[|p] d]; [exact H..|]. repeat (destruct p; try exact H). done.
Qed.

Lemma parse_constraint_authored source g seen raw c :
  json_value raw = true →
  parse_constraint (Some source) g.(sourceSpans) seen raw = Ok c → authored source g c.
Proof.
  intros Hj. unfold parse_constraint. destruct (negb _); [done|]. destruct (prop (u "path") raw) as [| | | |path| | | | |]; try done.
  destruct (negb _); [done|]. destruct (SENSITIVE_PATH path) eqn:Hs; [done|]. case_bool_decide as Hseen; [done|].
  intros (span & _ & H)%rbind_ok. apply rbind_ok in H as (t & Ht & H). case_bool_decide as Hin; [|done].
  apply rbind_ok in H as (v & Hv & [= <-]). split; [|done|done|by eapply check_span_text].
  eapply literal_json_ok; [by apply json_prop|done].
Qed.
Lemma parse_constraints_authored source g seen l cs :
  (∀ x, x ∈ l → json_value x = true) →
  parse_constraints (Some source) g.(sourceSpans) seen l = Ok cs → ∀ c, c ∈ cs → authored source g c.
Proof.
  revert seen cs. induction l as [|raw l IH]; intros seen cs Hj; simpl.
  - intros [= <-] c Hc. by apply elem_of_nil in Hc.
  - intros (x & Hx & H)%rbind_ok. apply rbind_ok in H as (xs & Hxs & [= <-]). intros c [->|Hc]%elem_of_cons.
    + eapply parse_constraint_authored; [apply Hj, list_elem_of_here|done].
    + eapply IH; [intros y Hy; by apply Hj, list_elem_of_further|done|done].
Qed.

Lemma parse_action_authored source raw g :
  json_value raw = true → parseWriteAction (Some source) raw = Ok g → ∀ c, c ∈ g.(literalConstraints) → authored source g c.
Proof.
  intros Hj. unfold parseWriteAction. destruct (negb _); [done|]. destruct (prop (u "actionName") raw); try done.
  destruct (negb _); [done|]. destruct (prop (u "sourceSpans") raw) as [| | | | |spans| | | |]; try done.
  destruct (negb _); [done|]. intros (ss & _ & H)%rbind_ok. apply rbind_ok in H as ([] & _ & H).
  destruct (prop (u "literalConstraints") raw) as [| | | | |l| | | |] eqn:El; try done. destruct (_ <? _); [done|].
  apply rbind_ok in H as (cs & Hcs & H). apply rbind_ok in H as (n & _ & [= <-]).
  eapply parse_constraints_authored; [|exact Hcs]. by eapply json_items.
Qed.
Lemma parse_actions_authored source seen l gs :
  (∀ x, x ∈ l → json_value x = true) → parse_actions (Some source) seen l = Ok gs →
  ∀ g, g ∈ gs → ∀ c, c ∈ g.(literalConstraints) → authored source g c.
Proof.
  revert seen gs. induction l as [|raw l IH]; intros seen gs Hj; simpl.
  - intros [= <-] g Hg. by apply elem_of_nil in Hg.
  - intros (x & Hx & H)%rbind_ok. case_bool_decide as Hseen; [done|]. apply rbind_ok in H as (xs & Hxs & [= <-]).
    intros g [->|Hg]%elem_of_cons.
    + eapply parse_action_authored; [apply Hj, list_elem_of_here|done].
    + eapply IH; [intros y Hy; by apply Hj, list_elem_of_further|done|done].
Qed.

Lemma parse_capability_authored source raw cap :
  json_value raw = true → parseIntentCapabilityV1 sha256 raw (Some source) = Ok cap →
  cap.(requestHash) = hashIntentRequest sha256 source ∧
  ∀ g, g ∈ writeActions cap → ∀ c, c ∈ g.(literalConstraints) → authored source g c.
Proof.
  intros Hj. unfold parseIntentCapabilityV1. destruct (negb (is_record raw)); [done|].
  destruct (prop (u "version") raw) as [| | |[z| | |]| | | | | |]; try done. destruct z as [|[]|]; try done.
  destruct (prop (u "mode") raw) as [| | | |mode| | | | |]; try done.
  destruct (prop (u "requestHash") raw) as [| | | |request| | | | |]; try done.
  destruct (prop (u "catalogHash") raw) as [| | | |catalog| | | | |]; try done.
  destruct (prop (u "writeActions") raw) as [| | | | |actions| | | |] eqn:Ea; try done.
  destruct (_ || _); [done|]. case_bool_decide as Hh; [|done]. cbn [negb]. intros (m & Hm & H)%rbind_ok.
  unfold exact_capability in H. apply rbind_ok in H as (x & _ & [= <-]). split; [done|].
  unfold writeActions. cbn [capability_mode]. unfold parse_mode in Hm. case_bool_decide.
  - destruct (parse_reason _), actions; try done. injection Hm as <-. intros g Hg. by apply elem_of_nil in Hg.
  - destruct (negb _); [done|]. apply rbind_ok in Hm as (l & Hl & [= <-]).
    eapply parse_actions_authored; [|exact Hl]. by eapply json_items.
Qed.
End Parsed.

(** ** Values at a path are JSON *)

Lemma step_json part v x : json_value v = true → x ∈ step_values part v → json_value x = true.
Proof.
  intros Hv. destruct part as [k|[i|]]; cbn [step_values].
  - destruct (fields_get k (record_fields v)) as [y|] eqn:E; [|by intros ?%elem_of_nil].
    intros ->%list_elem_of_singleton. apply fields_get_elem in E. destruct v; try (by apply elem_of_nil in E); try done.
    simpl in Hv, E. rewrite forallb_elem in Hv. by apply Hv in E.
  - destruct v as [| | | | |l| | | |]; try (by intros ?%elem_of_nil). destruct (l !! _) as [y|] eqn:E; [|by intros ?%elem_of_nil].
    intros ->%list_elem_of_singleton. simpl in Hv. rewrite forallb_elem in Hv. eapply Hv, list_elem_of_lookup_2, E.
  - destruct v as [| | | | |l| | | |]; try (by intros ?%elem_of_nil). simpl in Hv. rewrite forallb_elem in Hv. apply Hv.
Qed.
Lemma values_json parts root x : json_value root = true → x ∈ values_at parts root → json_value x = true.
Proof.
  unfold values_at. intros Hr.
  assert (∀ y, y ∈ [root] → json_value y = true) as H by (by intros y ->%list_elem_of_singleton).
  revert H. generalize [root]. induction parts as [|part parts IH]; intros current H; simpl; [apply H|].
  apply IH. intros y (v & Hy & Hv)%list_elem_of_bind. eapply step_json; [by apply H|done].
Qed.

(** ** What the check has looked at *)

Section Sound.
Context (input : AuthorizeIntentWriteArgumentsInput).

Lemma list_find_none {A} (f : A → bool) l : list_find (λ x, f x = false) l = None → ∀ x, x ∈ l → f x = true.
Proof.
  intros H x Hx. apply list_find_None in H. rewrite Forall_forall in H. specialize (H x Hx). by destruct (f x).
Qed.

Lemma authorized_checks :
  authorizeIntentWriteArguments input = None →
  input.(auth_capability).(catalogHash) = input.(auth_catalog) ∧
  ∃ g, find_grant input.(auth_capability) input.(auth_action) = Some g ∧
       (∀ c, c ∈ g.(literalConstraints) → constraint_holds input c = true) ∧
       (∀ leaf, leaf ∈ rawLeaves input.(rawArgs) [] [] → leaf_authorized input g leaf = true).
Proof.
  unfold authorizeIntentWriteArguments. case_bool_decide as Hh; [|done]. cbn [negb].
  destruct (capability_mode _); [|done]. destruct (find_grant _ _) as [g|]; [|done].
  destruct (match argument_count input with Some n => _ | None => _ end); [done|].
  destruct (list_find _ (literalConstraints g)) as [[]|] eqn:Ec; [done|].
  destruct (list_find _ (rawLeaves _ _ _)) as [[]|] eqn:El; [done|]. intros _. split; [done|].
  exists g. split; [done|]. split; by apply list_find_none.
Qed.

Lemma find_grant_in c a g : find_grant c a = Some g → g ∈ writeActions c ∧ g.(grant_action) = a.
Proof.
  unfold find_grant. destruct (list_find _ _) as [[i g']|] eqn:E; [|done]. intros [= <-].
  apply list_find_Some in E as (Hl & Ha & _). split; [by eapply list_elem_of_lookup_2|done].
Qed.

(** The admin stands for himself at a constraint. *)
Definition stands_for_admin (c : IntentLiteralConstraintV1) (w : jsval) : Prop :=
  declares_me c.(constraint_value) = true ∧
  c.(constraint_path) ∈ input.(auth_authority).(authenticatedSelfLiteralPaths) ∧
  ((∃ admin, input.(authenticatedAdminUserId) = Some admin ∧ admin ≠ [] ∧ w = VStr admin) ∨
   (input.(auth_action) = RATE_ACTION ∧ c.(constraint_path) = u "userId" ∧ (w = VStr (u "my") ∨ w = VStr (u "myself")))).

(** A value a matching constraint covers is one of its literal. *)
Lemma matched_value c p w :
  json_value input.(rawArgs) = true → json_value c.(constraint_value) = true →
  leaf_at input.(rawArgs) p w →
  (∃ cs, parsePath c.(constraint_path) = Some cs ∧ parts_cover cs p = true) →
  constraintMatchesRaw c input.(rawArgs) = true → w ∈ scalars c.(constraint_value).
Proof.
  intros Hr Hc Hw (cs & Hp & Hcov). destruct (cover_value _ _ _ _ Hw Hcov) as (x & Hx & Hwx).
  assert (∀ y, y ∈ values_at cs (rawArgs input) → json_value y = true) as Hj by (intros y; by apply values_json).
  unfold constraintMatchesRaw, valuesAtPath. rewrite Hp. simpl. destruct (values_at cs (rawArgs input)) as [|y l]; [by apply elem_of_nil in Hx|].
  destruct (_ && _).
  - intros H. assert (json_value (VArr (y :: l)) = true) as Hl by (by apply forallb_elem).
    rewrite <-(equal_literal_canon _ _ Hl Hc H).
    apply elem_of_concat_map. by exists x.
  - destruct l; [|done]. apply list_elem_of_singleton in Hx as ->. intros H.
    rewrite <-(equal_literal_canon _ _ (Hj y (list_elem_of_here _ _)) Hc H). done.
Qed.

Lemma substituted_value c p w :
  leaf_at input.(rawArgs) p w →
  (∃ cs, parsePath c.(constraint_path) = Some cs ∧ parts_cover cs p = true) →
  matchesAuthenticatedMeSubstitution input c = true → stands_for_admin c w.
Proof.
  intros Hw (cs & Hp & Hcov). destruct (cover_value _ _ _ _ Hw Hcov) as (x & Hx & Hwx).
  unfold matchesAuthenticatedMeSubstitution, valuesAtPath, stands_for_admin. rewrite Hp. simpl.
  destruct (authenticatedAdminUserId input) as [[|a admin]|] eqn:Ea; try done.
  destruct (values_at cs (rawArgs input)) as [|y [|z l]]; [by apply elem_of_nil in Hx| |by destruct y; rewrite ?andb_false_r].
  apply list_elem_of_singleton in Hx as ->. destruct y as [| | | |s| | | | |]; rewrite ?andb_false_r; try done.
  intros [[H1 H2]%andb_true_iff H3]%andb_true_iff. apply bool_decide_eq_true in H1. simpl in Hwx.
  apply list_elem_of_singleton in Hwx as ->. split; [done|]. split; [done|].
  apply orb_true_iff in H3 as [H3|[H3 H4]%andb_true_iff].
  - apply bool_decide_eq_true in H3 as ->. left. by exists (a :: admin).
  - unfold rate_selector in H3. apply andb_true_iff in H3 as [H5 H6]. apply bool_decide_eq_true in H5, H6. right.
    split; [done|]. split; [done|]. simpl in H4. apply bool_decide_eq_true in H4. set_solver.
Qed.

(** The leaf at a place of plain keys is read as that place. *)
Lemma leaf_covered fs g p w :
  input.(rawArgs) = VObj fs → leaf_at input.(rawArgs) p w → forallb plain_part p = true →
  (∀ leaf, leaf ∈ rawLeaves input.(rawArgs) [] [] → leaf_authorized input g leaf = true) →
  (∃ c, c ∈ g.(literalConstraints) ∧ ∃ cs, parsePath c.(constraint_path) = Some cs ∧ parts_cover cs p = true) ∨
  (p = [part_key (u "userName")] ∧ ∃ c, c ∈ g.(literalConstraints) ∧ matchesAuthenticatedMeSubstitution input c = true).
Proof.
  intros Hfs Hw Hp Hall. pose proof (Hall _ (leaf_raw _ _ _ Hw [] [])) as H. rewrite Hfs in Hw.
  inversion Hw as [?|?|fs' k x q ? Hk Hx]; subst; [done|]. simpl in Hp. apply andb_true_iff in Hp as [Hpk Hpq].
  unfold leaf_authorized in H. cbn [schemaPath concretePath] in H. apply andb_true_iff in H as [_ H].
  apply orb_true_iff in H as [[H1 H2]%andb_true_iff|H].
  - right. apply existsb_exists in H2 as (c & Hc & H2). split; [|exists c; split; [by apply list_elem_of_In|done]].
    apply bool_decide_eq_true in H1.
    assert (forallb plain_part (schema_part <$> q) = true) as Hsq.
    { rewrite forallb_elem in Hpq. rewrite forallb_elem. intros y (z & -> & Hz)%list_elem_of_fmap. by destruct z; apply Hpq in Hz. }
    pose proof (path_text_reads k (schema_part <$> q) Hpk Hsq) as Hread.
    change (schema_part <$> part_key k :: q) with (part_key k :: (schema_part <$> q)) in H1. rewrite H1 in Hread.
    assert (parsePath (u "userName") = Some [part_key (u "userName")]) as E by by vm_compute. rewrite E in Hread.
    injection Hread as <- E2. by destruct q.
  - left. apply existsb_exists in H as (c & Hc & H). exists c. split; [by apply list_elem_of_In|].
    unfold constraintCoversLeaf in H. rewrite (path_text_reads k q Hpk Hpq) in H.
    destruct (parsePath (constraint_path c)) as [cs|]; [|done]. by exists cs.
Qed.
End Sound.

Section Authored.
Context (sha256 : jstr → jstr).

(** C8: A write that the intent check lets through carries only what the admin wrote.  Let
    the capability be parsed from JSON against the admin's text, and let the raw arguments
    be a JSON object.  If [authorizeIntentWriteArguments] raises no denial, the catalog is
    the one the capability was declared for, the capability grants the action, and each
    scalar among the arguments whose keys are plain names either occurs in a literal that is
    bound to a span quoting the text, or is the admin (by id, or by "my" and "myself" of the
    rate tool) at a literal "me", or is the one leaf [userName] - and then some literal
    "me" stands for the admin. *)
Theorem authorized_values_authored (source : jstr) (declared : jsval) (input : AuthorizeIntentWriteArgumentsInput)
    (fs : list (jstr * jsval)) :
  json_value declared = true →
  parseIntentCapabilityV1 sha256 declared (Some source) = Ok input.(auth_capability) →
  input.(rawArgs) = VObj fs → json_value (VObj fs) = true →
  authorizeIntentWriteArguments input = None →
  input.(auth_capability).(catalogHash) = input.(auth_catalog) ∧
  input.(auth_capability).(requestHash) = hashIntentRequest sha256 source ∧
  ∃ g, g ∈ writeActions input.(auth_capability) ∧ g.(grant_action) = input.(auth_action) ∧
    ∀ p w, leaf_at input.(rawArgs) p w → forallb plain_part p = true →
      (∃ c, c ∈ g.(literalConstraints) ∧ authored source g c ∧ (w ∈ scalars c.(constraint_value) ∨ stands_for_admin input c w)) ∨
      (p = [part_key (u "userName")] ∧
       ∃ c, c ∈ g.(literalConstraints) ∧ authored source g c ∧ matchesAuthenticatedMeSubstitution input c = true).
Proof.
  intros Hd Hcap Hfs Hj Hnone. destruct (authorized_checks _ Hnone) as (Hcat & g & Hg & Hlits & Hleaves).
  destruct (parse_capability_authored _ _ _ _ Hd Hcap) as [Hreq Hauth]. split; [done|]. split; [done|].
  apply find_grant_in in Hg as [Hin Ha]. exists g. split; [done|]. split; [done|]. intros p w Hw Hp.
  specialize (Hauth g Hin). destruct (leaf_covered _ _ _ _ _ Hfs Hw Hp Hleaves) as [(c & Hc & Hcov)|(-> & c & Hc & Hm)].
  - left. exists c. split; [done|]. split; [by apply Hauth|]. specialize (Hlits c Hc).
    unfold constraint_holds in Hlits. apply andb_true_iff in Hlits as [_ [H|H]%orb_true_iff].
    + left. eapply matched_value; [by rewrite Hfs|by apply (Hauth c Hc)|done..].
    + right. by eapply substituted_value.
  - right. split; [done|]. exists c. split; [done|]. split; [by apply Hauth|done].
Qed.
End Authored.

(** ** Witness and limits *)

Section Demo.

Definition constant_sha (_ : jstr) : jstr := repeat 48%N 64.
Definition demo_source : jstr := u "create tag Ops".
Definition demo_span (a b : Z) (t : string) : jsval := span_value {| startByte := a; endByte := b; span_text := u t |}.
Definition demo_grant (action : string) (spans : list jsval) (constraints : list jsval) : jsval :=
  VObj [(u "actionName", VStr (u action)); (u "sourceSpans", VArr spans); (u "literalConstraints", VArr constraints);
        (u "maxExecutions", num 1)].
Definition demo_constraint (path : string) (value span : jsval) : jsval :=
  VObj [(u "path", VStr (u path)); (u "value", value); (u "sourceSpan", span)].
Definition demo_declared (action : jsval) : jsval :=
  VObj [(u "version", num 1); (u "mode", VStr (u "allow")); (u "requestHash", VStr (constant_sha []));
        (u "catalogHash", VStr (u "cat")); (u "writeActions", VArr [action])].

Definition tag_declared : jsval :=
  demo_declared (demo_grant "clockify_tags_create" [demo_span 0 6 "create"; demo_span 11 14 "Ops"]
    [demo_constraint "name" (VStr (u "Ops")) (demo_span 11 14 "Ops")]).

Definition demo_input (declared : jsval) (source action : jstr) (raw : jsval) (paths self : list jstr) : AuthorizeIntentWriteArgumentsInput :=
  {| auth_capability := match parseIntentCapabilityV1 constant_sha declared (Some source) with
       | Ok c => c | Throw _ => {| requestHash := []; catalogHash := []; capability_mode := deny_all_writes [] |} end;
     auth_action := action; rawArgs := raw;
     auth_authority := {| controlledPaths := paths; authenticatedSelfLiteralPaths := self;
       cardinality_of := {| by_argument := false; cardinality_max := 1; maxArgumentItems := None; argumentPath := None |} |};
     auth_catalog := u "cat"; authenticatedAdminUserId := Some (u "u1") |}.
Definition tag_input : AuthorizeIntentWriteArgumentsInput :=
  demo_input tag_declared demo_source (u "clockify_tags_create") (VObj [(u "name", VStr (u "Ops"))]) [u "name"] [].

Lemma authorized_values_authored_witness :
  authorizeIntentWriteArguments tag_input = None ∧
  ∃ g, g ∈ writeActions tag_input.(auth_capability) ∧ g.(grant_action) = u "clockify_tags_create" ∧
    ∀ p w, leaf_at tag_input.(rawArgs) p w → forallb plain_part p = true →
      (∃ c, c ∈ g.(literalConstraints) ∧ authored demo_source g c ∧ (w ∈ scalars c.(constraint_value) ∨ stands_for_admin tag_input c w)) ∨
      (p = [part_key (u "userName")] ∧
       ∃ c, c ∈ g.(literalConstraints) ∧ authored demo_source g c ∧ matchesAuthenticatedMeSubstitution tag_input c = true).
Proof.
  assert (authorizeIntentWriteArguments tag_input = None) as H by by vm_compute.
  split; [exact H|].
  refine (proj2 (proj2 (authorized_values_authored constant_sha demo_source tag_declared tag_input [(u "name", VStr (u "Ops"))] _ _ _ _ H)));
    by vm_compute.
Defined.

(** An argument the admin did not write is refused. *)
Example undeclared_value_refused :
  (λ d, prop (u "code") d) <$> authorizeIntentWriteArguments
    (demo_input tag_declared demo_source (u "clockify_tags_create")
      (VObj [(u "name", VStr (u "Ops")); (u "color", VStr (u "red"))]) [u "name"; u "color"] []) =
  Some (VStr (u "intent_capability_argument_undeclared")).
Proof. by vm_compute. Qed.

(** With the admin's own id as [userId], any [userName] passes the rate tool. *)
Definition rate_source : jstr := u "set my rate".
Definition rate_declared : jsval :=
  demo_declared (demo_grant "clockify_projects_rate_update" [demo_span 4 6 "my"]
    [demo_constraint "userId" (VStr (u "me")) (demo_span 4 6 "my")]).
Example rate_user_name_unchecked :
  authorizeIntentWriteArguments
    (demo_input rate_declared rate_source (u "clockify_projects_rate_update")
      (VObj [(u "userId", VStr (u "u1")); (u "userName", VStr (u "Somebody else"))])
      [u "userId"; u "userName"] [u "userId"]) = None.
Proof. by vm_compute. Qed.

(** A key with a dot in it is read as the path of a field of a field. *)
Definition dotted_declared : jsval :=
  demo_declared (demo_grant "clockify_tags_create" [demo_span 11 14 "Ops"]
    [demo_constraint "custom.name" (VStr (u "Ops")) (demo_span 11 14 "Ops")]).
Example dotted_key_unchecked :
  authorizeIntentWriteArguments
    (demo_input dotted_declared demo_source (u "clockify_tags_create")
      (VObj [(u "custom", VObj [(u "name", VStr (u "Ops"))]); (u "custom.name", VStr (u "Something else"))])
      [u "custom.*"] []) = None.
Proof. by vm_compute. Qed.
End Demo.
