(* ===== verification/IntentStore.v ===== *)
(** * The store of intent capabilities

    [db/store/intent-capabilities.ts]: one capability per request, the operations bound to
    it, and the ledger of executions.  The request identity of a bound operation is read
    from the rows, never from the caller. *)
From S2P Require Import Prelude Js SafeJson SafetyLimits SessionTables Db Store IntentCapability IntentAuthority.
Open Scope Z_scope.
#[local] Arguments u : simpl never.

(** ** Data *)

Record IntentCapabilityScope := {
  scope_workspaceId : jstr;
  scope_adminUserId : jstr;
  scope_sessionId : jstr;
  scope_requestId : jstr;
  scope_requestHash : jstr;
  scope_catalogHash : jstr;
}.
Record IntentCapabilityRecord := {
  record_scope : IntentCapabilityScope;
  record_id : jstr;
  record_hash : jstr;
  record_capability : IntentCapabilityV1;
  record_created : Z;
}.
Record CreateIntentCapabilityInput := {
  create_workspaceId : jstr;
  create_adminUserId : jstr;
  create_sessionId : jstr;
  create_requestId : jstr;
  create_id : option jstr;
  authoredSource : jstr;
  create_capability : IntentCapabilityV1;
}.
Record BindIntentCapabilityOperationInput := {
  bind_scope : IntentCapabilityScope;
  bind_capabilityId : jstr;
  bind_capabilityHash : jstr;
  bind_operationId : jstr;
  bind_confirmationId : option jstr;
  bind_actionName : jstr;
}.
Record IntentCapabilityOperationScope := {
  op_operationId : jstr;
  op_workspaceId : jstr;
  op_adminUserId : jstr;
  op_sessionId : jstr;
  op_capabilityId : jstr;
  op_capabilityHash : jstr;
  expectedCatalogHash : option jstr;
  expectedActionName : option jstr;
}.
Inductive BindIntentCapabilityOperationResult : Set := bound | bind_replay.
Inductive DenialReason : Set := reason_deny_all_writes | action_not_declared | execution_limit.
Inductive ConsumeIntentCapabilityExecutionResult : Set :=
  consumed (execution : Z) | consume_replay (execution : Z) | consume_denied (reason : DenialReason).

(** ** Statements *)

Definition set_session_capabilities (t : gmap jstr CapabilityRow) (d : db) : db :=
  set_session_tables (set_capabilities t d.(session_tables)) d.
Definition set_session_usage (l : list UsageRow) (d : db) : db := set_session_tables (set_usage l d.(session_tables)) d.

Definition same_scope (a b : CapabilityRow) : bool :=
  bool_decide (a.(cap_workspace) = b.(cap_workspace) ∧ a.(cap_admin) = b.(cap_admin) ∧
               a.(cap_session) = b.(cap_session) ∧ a.(cap_request) = b.(cap_request)).

(** [INSERT INTO intent_capabilities]: the key, the unique scope and the sizes. *)
Definition insert_capability (id : jstr) (r : CapabilityRow) : M unit := λ d,
  let t := d.(session_tables).(intent_capabilities) in
  if bool_decide (is_Some (t !! id)) || existsb (λ kv, same_scope r kv.2) (map_to_list t) ||
     negb (bool_decide (length r.(cap_request_hash) = 64%nat)) || negb (bool_decide (length r.(cap_hash) = 64%nat)) ||
     (65536 <? jsonByteLength r.(capability_json))
  then Throw constraint_failed
  else Ok (tt, set_session_capabilities (<[id := r]> t) d).

(** [INSERT INTO intent_capability_usage]: an operation executes once, an index is used
    once, and both parents exist.  The [id] of a usage row is random and read by nobody. *)
Definition usage_clash (a b : UsageRow) : bool :=
  bool_decide (a.(usage_operation) = b.(usage_operation)) ||
  bool_decide (a.(usage_capability) = b.(usage_capability) ∧ a.(usage_action) = b.(usage_action) ∧
               a.(execution_index) = b.(execution_index)).
Definition insert_usage (r : UsageRow) : M unit := λ d,
  let l := d.(session_tables).(capability_usage) in
  if (r.(execution_index) <=? 0) || existsb (usage_clash r) l ||
     bool_decide (d.(session_tables).(intent_capabilities) !! r.(usage_capability) = None) ||
     bool_decide (d.(operation_runs) !! r.(usage_operation) = None)
  then Throw constraint_failed
  else Ok (tt, set_session_usage (l ++ [r]) d).

Definition of_grant (capability action : jstr) (r : UsageRow) : bool :=
  bool_decide (r.(usage_capability) = capability) && bool_decide (r.(usage_action) = action).
Definition usage_count (capability action : jstr) (l : list UsageRow) : nat :=
  length (filter (λ r, of_grant capability action r = true) l).

Definition bind_operation_row (capability hash : jstr) (confirmation : option jstr) (r : OperationRunRow) : OperationRunRow :=
  let b := r.(binding) in
  {| binding :=
       {| request_id := b.(request_id);
          confirmation_id := match b.(confirmation_id) with Some c => Some c | None => confirmation end;
          session_id := b.(session_id); workspace_id := b.(workspace_id); admin_user_id := b.(admin_user_id);
          action_name := b.(action_name); action_fingerprint := b.(action_fingerprint); catalog_hash := b.(catalog_hash);
          operation_hash := b.(operation_hash); capability_id := Some capability; capability_hash := Some hash;
          discriminator := b.(discriminator); run_created_at := b.(run_created_at) |};
     run_status := r.(run_status); run_result_id := r.(run_result_id); operation_json := r.(operation_json);
     reconciled_at := r.(reconciled_at); reconciliation_json := r.(reconciliation_json);
     run_batch_id := r.(run_batch_id); run_updated_at := r.(run_updated_at) |}.
Definition bind_preview_row (capability hash : jstr) (r : PendingRow) : PendingRow :=
  let p := r.(preview) in
  {| preview :=
       {| preview_operation_id := p.(preview_operation_id); preview_session_id := p.(preview_session_id);
          preview_workspace_id := p.(preview_workspace_id); preview_admin_user_id := p.(preview_admin_user_id);
          installation_generation := p.(installation_generation); preview_operation_hash := p.(preview_operation_hash);
          preview_action_fingerprint := p.(preview_action_fingerprint); preview_catalog_hash := p.(preview_catalog_hash);
          preview_capability_id := Some capability; preview_capability_hash := Some hash;
          preview_discriminator := p.(preview_discriminator); expires_at := p.(expires_at); created_at := p.(created_at) |};
     status := r.(status); risk_json := r.(risk_json); preview_json := r.(preview_json);
     preview_operation_json := r.(preview_operation_json); target_fingerprints_json := r.(target_fingerprints_json);
     nonce_hash := r.(nonce_hash); used_at := r.(used_at); result_summary_json := r.(result_summary_json);
     agent_state_json := r.(agent_state_json); action_result_id := r.(action_result_id);
     idempotency_key := r.(idempotency_key); batch_id := r.(batch_id) |}.

(** The two updates of a binding: no trigger watches these columns. *)
Definition update_operation_binding (id capability hash : jstr) (confirmation : option jstr) : M bool := λ d,
  let free r := bool_decide (r.(binding).(capability_id) = None) && bool_decide (r.(binding).(capability_hash) = None) &&
                match r.(binding).(confirmation_id) with None => true | Some c => bool_decide (Some c = confirmation) end in
  let '(t, changed) := update_row id free (bind_operation_row capability hash confirmation) d.(operation_runs) in
  Ok (changed, set_runs t d).
Definition update_preview_binding (id operation capability hash : jstr) : M bool := λ d,
  let free r := bool_decide (r.(preview).(preview_operation_id) = operation) &&
                bool_decide (r.(preview).(preview_capability_id) = None) &&
                bool_decide (r.(preview).(preview_capability_hash) = None) in
  let '(t, changed) := update_row id free (bind_preview_row capability hash) d.(pending_confirmations) in
  Ok (changed, set_confirmations t d).

(** ** Reading and checking *)

Section Intents.
Context (sha256 : jstr → jstr) (locale_le : jstr → jstr → bool).

Abbreviation parse := (parseIntentCapabilityV1 sha256).

Definition toRecord (id : jstr) (row : CapabilityRow) : result IntentCapabilityRecord :=
  let! c := parse row.(capability_json) None in
  Ok {| record_scope :=
          {| scope_workspaceId := row.(cap_workspace); scope_adminUserId := row.(cap_admin);
             scope_sessionId := row.(cap_session); scope_requestId := row.(cap_request);
             scope_requestHash := row.(cap_request_hash); scope_catalogHash := row.(cap_catalog_hash) |};
        record_id := id; record_hash := row.(cap_hash); record_capability := c;
        record_created := row.(cap_created_at) |}.

Definition assertScope (row : CapabilityRow) (scope : IntentCapabilityScope) (hash : option jstr) : result unit :=
  guard! bool_decide (row.(cap_workspace) = scope.(scope_workspaceId)) else "intent_capability_workspace_drift" in
  guard! bool_decide (row.(cap_admin) = scope.(scope_adminUserId)) else "intent_capability_admin_drift" in
  guard! bool_decide (row.(cap_session) = scope.(scope_sessionId)) else "intent_capability_session_drift" in
  guard! bool_decide (row.(cap_request) = scope.(scope_requestId)) && bool_decide (row.(cap_request_hash) = scope.(scope_requestHash))
    else "intent_capability_request_drift" in
  guard! bool_decide (row.(cap_catalog_hash) = scope.(scope_catalogHash)) else "intent_capability_catalog_drift" in
  guard! match hash with Some h => bool_decide (row.(cap_hash) = h) | None => true end else "intent_capability_hash_drift" in
  Ok tt.

Definition capabilityById (id : jstr) : M (option CapabilityRow) :=
  do! d := getdb in mreturn (d.(session_tables).(intent_capabilities) !! id).

Definition scopedCapability (id : jstr) (scope : IntentCapabilityScope) (hash : option jstr) : M CapabilityRow :=
  do! row := capabilityById id in
  match row with
  | None => mthrow "intent_capability_not_found"
  | Some r => do! _ := lift (assertScope r scope hash) in mreturn r
  end.

Definition operationBinding (i : BindIntentCapabilityOperationInput) : M OperationBinding :=
  do! d := getdb in
  match d.(operation_runs) !! i.(bind_operationId) with
  | None => mthrow "intent_capability_operation_not_found"
  | Some r =>
      let b := r.(binding) in
      let s := i.(bind_scope) in
      require! bool_decide (b.(workspace_id) = s.(scope_workspaceId)) else "intent_capability_workspace_drift" in
      require! bool_decide (b.(admin_user_id) = s.(scope_adminUserId)) else "intent_capability_admin_drift" in
      require! bool_decide (b.(session_id) = s.(scope_sessionId)) else "intent_capability_session_drift" in
      require! bool_decide (b.(request_id) = Some s.(scope_requestId)) else "intent_capability_request_drift" in
      require! bool_decide (b.(catalog_hash) = s.(scope_catalogHash)) else "intent_capability_catalog_drift" in
      require! bool_decide (b.(action_name) = i.(bind_actionName)) else "intent_capability_action_drift" in
      mreturn b
  end.

Definition expected (e : option jstr) (v : jstr) : bool := match e with Some x => bool_decide (v = x) | None => true end.

(** The checks of a confirm: the operation names the capability, the capability's row and
    its parsed body agree with the operation, and the body still has the stored hash. *)
Definition binding_checks (i : IntentCapabilityOperationScope) (b : OperationBinding) (id : jstr) (row : CapabilityRow)
    : result IntentCapabilityRecord :=
  guard! bool_decide (row.(cap_workspace) = b.(workspace_id)) else "intent_capability_workspace_drift" in
  guard! bool_decide (row.(cap_admin) = b.(admin_user_id)) else "intent_capability_admin_drift" in
  guard! bool_decide (row.(cap_session) = b.(session_id)) else "intent_capability_session_drift" in
  guard! bool_decide (Some row.(cap_request) = b.(request_id)) else "intent_capability_request_drift" in
  guard! bool_decide (row.(cap_catalog_hash) = b.(catalog_hash)) && expected i.(expectedCatalogHash) b.(catalog_hash)
    else "intent_capability_catalog_drift" in
  guard! expected i.(expectedActionName) b.(action_name) else "intent_capability_action_drift" in
  let! r := toRecord id row in
  guard! bool_decide (r.(record_capability).(requestHash) = row.(cap_request_hash)) else "intent_capability_request_drift" in
  guard! bool_decide (r.(record_capability).(catalogHash) = row.(cap_catalog_hash)) else "intent_capability_catalog_drift" in
  guard! bool_decide (Some r.(record_hash) = b.(capability_hash)) &&
         bool_decide (hashIntentCapability sha256 locale_le r.(record_capability) = r.(record_hash))
    else "intent_capability_hash_drift" in
  guard! existsb (λ g, bool_decide (g.(grant_action) = b.(action_name))) (writeActions r.(record_capability))
    else "intent_capability_action_drift" in
  Ok r.

Definition capabilityForOperation (i : IntentCapabilityOperationScope) : M (IntentCapabilityRecord * OperationBinding) :=
  do! d := getdb in
  match d.(operation_runs) !! i.(op_operationId) with
  | None => mthrow "intent_capability_operation_not_found"
  | Some o =>
      let b := o.(binding) in
      require! bool_decide (b.(workspace_id) = i.(op_workspaceId)) else "intent_capability_workspace_drift" in
      require! bool_decide (b.(admin_user_id) = i.(op_adminUserId)) else "intent_capability_admin_drift" in
      require! bool_decide (b.(session_id) = i.(op_sessionId)) else "intent_capability_session_drift" in
      match b.(capability_id), b.(capability_hash) with
      | Some c, Some h =>
          require! bool_decide (c = i.(op_capabilityId)) else "intent_capability_binding_drift" in
          require! bool_decide (h = i.(op_capabilityHash)) else "intent_capability_hash_drift" in
          do! row := capabilityById c in
          match row with
          | None => mthrow "intent_capability_not_found"
          | Some row => do! r := lift (binding_checks i b c row) in mreturn (r, b)
          end
      | _, _ => mthrow "intent_capability_binding_missing"
      end
  end.

Definition usage_of (operation : jstr) : M (option UsageRow) :=
  do! d := getdb in
  mreturn (snd <$> list_find (λ r, r.(usage_operation) = operation) d.(session_tables).(capability_usage)).

Definition consumeBoundOperation (r : IntentCapabilityRecord) (operation action : jstr)
    : M ConsumeIntentCapabilityExecutionResult :=
  match r.(record_capability).(capability_mode) with
  | deny_all_writes _ => mreturn (consume_denied reason_deny_all_writes)
  | allow _ =>
      match find_grant r.(record_capability) action with
      | None => mreturn (consume_denied action_not_declared)
      | Some g =>
          do! existing := usage_of operation in
          match existing with
          | Some e =>
              require! of_grant r.(record_id) action e else "intent_capability_usage_drift" in
              mreturn (consume_replay e.(execution_index))
          | None =>
              do! d := getdb in
              let count := Z.of_nat (usage_count r.(record_id) action d.(session_tables).(capability_usage)) in
              if g.(maxExecutions) <=? count then mreturn (consume_denied execution_limit)
              else
                do! _ := insert_usage {| usage_capability := r.(record_id); usage_operation := operation;
                                         usage_action := action; execution_index := count + 1 |} in
                mreturn (consumed (count + 1))
          end
      end
  end.

(** ** Operations *)

Definition request_scope (i : CreateIntentCapabilityInput) (c : IntentCapabilityV1) : IntentCapabilityScope :=
  {| scope_workspaceId := i.(create_workspaceId); scope_adminUserId := i.(create_adminUserId);
     scope_sessionId := i.(create_sessionId); scope_requestId := i.(create_requestId);
     scope_requestHash := c.(requestHash); scope_catalogHash := c.(catalogHash) |}.

Definition of_request (i : CreateIntentCapabilityInput) (r : CapabilityRow) : Prop :=
  r.(cap_workspace) = i.(create_workspaceId) ∧ r.(cap_admin) = i.(create_adminUserId) ∧
  r.(cap_session) = i.(create_sessionId) ∧ r.(cap_request) = i.(create_requestId).
#[export] Instance of_request_dec i r : Decision (of_request i r).
Proof. unfold of_request. apply _. Defined.

Definition createIntentCapability (i : CreateIntentCapabilityInput) (now : Z) (uuid : jstr) : M IntentCapabilityRecord :=
  do! c := lift (parse (capability_value i.(create_capability)) (Some i.(authoredSource))) in
  let hash := hashIntentCapability sha256 locale_le c in
  let id := default uuid i.(create_id) in
  do! d := getdb in
  match list_find (λ kv : jstr * CapabilityRow, of_request i kv.2) (map_to_list d.(session_tables).(intent_capabilities)) with
  | Some (_, (existing, row)) =>
      do! _ := lift (assertScope row (request_scope i c) (Some hash)) in
      lift (toRecord existing row)
  | None =>
      do! _ := insert_capability id
        {| cap_workspace := i.(create_workspaceId); cap_admin := i.(create_adminUserId);
           cap_session := i.(create_sessionId); cap_request := i.(create_requestId);
           cap_request_hash := c.(requestHash); cap_catalog_hash := c.(catalogHash); cap_hash := hash;
           capability_json := canon (capability_value c); cap_created_at := now |} in
      mreturn {| record_scope := request_scope i c; record_id := id; record_hash := hash;
                 record_capability := c; record_created := now |}
  end.

Definition getIntentCapability (id : jstr) (scope : IntentCapabilityScope) : M (option IntentCapabilityRecord) :=
  do! row := capabilityById id in
  match row with
  | None => mreturn None
  | Some r => do! _ := lift (assertScope r scope None) in do! x := lift (toRecord id r) in mreturn (Some x)
  end.

Definition getIntentCapabilityForOperation (i : IntentCapabilityOperationScope) : M IntentCapabilityRecord :=
  do! x := capabilityForOperation i in mreturn x.1.

Definition both_null (a b : option jstr) : bool := bool_decide (a = None ↔ b = None).

(** The confirmation a binding names, with the checks of its row. *)
Definition bound_confirmation (i : BindIntentCapabilityOperationInput) (confirmation : option jstr) : M (option PreviewBinding) :=
  match confirmation with
  | None | Some [] => mreturn None
  | Some id =>
      do! d := getdb in
      match d.(pending_confirmations) !! id with
      | None => mthrow "intent_capability_confirmation_drift"
      | Some r =>
          let p := r.(preview) in
          let s := i.(bind_scope) in
          require! bool_decide (p.(preview_operation_id) = i.(bind_operationId)) else "intent_capability_confirmation_drift" in
          require! bool_decide (p.(preview_workspace_id) = s.(scope_workspaceId)) else "intent_capability_workspace_drift" in
          require! bool_decide (p.(preview_admin_user_id) = s.(scope_adminUserId)) else "intent_capability_admin_drift" in
          require! bool_decide (p.(preview_session_id) = s.(scope_sessionId)) else "intent_capability_session_drift" in
          require! bool_decide (p.(preview_catalog_hash) = s.(scope_catalogHash)) else "intent_capability_catalog_drift" in
          require! both_null p.(preview_capability_id) p.(preview_capability_hash) else "intent_capability_binding_drift" in
          require! match p.(preview_capability_id) with
                   | Some c => bool_decide (c = i.(bind_capabilityId)) &&
                               bool_decide (p.(preview_capability_hash) = Some i.(bind_capabilityHash))
                   | None => true
                   end else "intent_capability_binding_drift" in
          mreturn (Some p)
      end
  end.

Definition bindIntentCapabilityOperation (i : BindIntentCapabilityOperationInput) : M BindIntentCapabilityOperationResult :=
  do! row := scopedCapability i.(bind_capabilityId) i.(bind_scope) (Some i.(bind_capabilityHash)) in
  do! r := lift (toRecord i.(bind_capabilityId) row) in
  do! b := operationBinding i in
  match find_grant r.(record_capability) i.(bind_actionName) with
  | None => mthrow "intent_capability_action_denied"
  | Some _ =>
      require! both_null b.(capability_id) b.(capability_hash) else "intent_capability_binding_drift" in
      require! match b.(capability_id) with
               | Some c => bool_decide (c = i.(bind_capabilityId)) && bool_decide (b.(capability_hash) = Some i.(bind_capabilityHash))
               | None => true
               end else "intent_capability_binding_drift" in
      let confirmation := match i.(bind_confirmationId) with Some c => Some c | None => b.(confirmation_id) end in
      do! p := bound_confirmation i confirmation in
      let is_bound := bool_decide (is_Some b.(capability_id)) in
      if is_bound && match p with Some p => bool_decide (is_Some p.(preview_capability_id)) | None => true end &&
         bool_decide (b.(confirmation_id) = confirmation)
      then mreturn bind_replay
      else
        do! changed := update_operation_binding i.(bind_operationId) i.(bind_capabilityId) i.(bind_capabilityHash) confirmation in
        require! is_bound || changed else "intent_capability_binding_drift" in
        do! _ :=
          match p, confirmation with
          | Some p, Some id =>
              if bool_decide (p.(preview_capability_id) = None) then
                do! changed := update_preview_binding id i.(bind_operationId) i.(bind_capabilityId) i.(bind_capabilityHash) in
                require! changed else "intent_capability_binding_drift" in mreturn tt
              else mreturn tt
          | _, _ => mreturn tt
          end in
        mreturn bound
  end.

Definition consumeIntentCapabilityExecution (i : BindIntentCapabilityOperationInput) : M ConsumeIntentCapabilityExecutionResult :=
  do! row := scopedCapability i.(bind_capabilityId) i.(bind_scope) (Some i.(bind_capabilityHash)) in
  do! b := operationBinding i in
  require! bool_decide (b.(capability_id) = Some i.(bind_capabilityId)) && bool_decide (b.(capability_hash) = Some i.(bind_capabilityHash))
    else "intent_capability_binding_missing" in
  do! r := lift (toRecord i.(bind_capabilityId) row) in
  consumeBoundOperation r i.(bind_operationId) i.(bind_actionName).

Definition consumeIntentCapabilityForOperation (i : IntentCapabilityOperationScope) : M ConsumeIntentCapabilityExecutionResult :=
  do! x := capabilityForOperation i in
  consumeBoundOperation x.1 i.(op_operationId) x.2.(action_name).
End Intents.
