(* ===== verification/IntentLedger.v ===== *)
(** * The ledger of executions

    What the store of file IntentStore keeps true: a capability executes an action at most
    as often as its grant says, the executions are numbered in order, and an operation
    executes once, under the capability it is bound to. *)
From S2P Require Import Prelude Js SafeJson SafetyLimits SessionTables Db Store IntentCapability IntentAuthority IntentStore.
Open Scope Z_scope.
#[local] Arguments u : simpl never.

Section Ledger.
Context (sha256 : jstr → jstr) (locale_le : jstr → jstr → bool).

Abbreviation parse := (parseIntentCapabilityV1 sha256).

Definition usages (d : db) : list UsageRow := d.(session_tables).(capability_usage).
Definition capabilities (d : db) : gmap jstr CapabilityRow := d.(session_tables).(intent_capabilities).
Definition executions (capability action : jstr) (l : list UsageRow) : list UsageRow :=
  filter (λ r, of_grant capability action r = true) l.

(** The limit a stored capability sets on an action: none when it does not grant it. *)
Definition limit_of (capability action : jstr) (d : db) : option Z :=
  row ← capabilities d !! capability;
  match parse row.(capability_json) None with
  | Ok c => maxExecutions <$> find_grant c action
  | Throw _ => None
  end.
Definition operation_bound (operation capability action : jstr) (d : db) : Prop :=
  ∃ o, d.(operation_runs) !! operation = Some o ∧ o.(binding).(capability_id) = Some capability ∧
       o.(binding).(action_name) = action.

Record ledger (d : db) : Prop := {
  ledger_once : NoDup (usage_operation <$> usages d);
  ledger_bound : ∀ r, r ∈ usages d → operation_bound r.(usage_operation) r.(usage_capability) r.(usage_action) d;
  ledger_numbered : ∀ c a, execution_index <$> executions c a (usages d) = seqZ 1 (Z.of_nat (usage_count c a (usages d)));
  ledger_limit : ∀ r, r ∈ usages d → ∃ n, limit_of r.(usage_capability) r.(usage_action) d = Some n ∧
                   Z.of_nat (usage_count r.(usage_capability) r.(usage_action) (usages d)) ≤ n;
}.

(** ** Changes that respect the ledger *)

(** The usage is kept, capabilities are only added, a binding once made stays. *)
Record settled_change (d d' : db) : Prop := {
  same_usage : usages d' = usages d;
  more_capabilities : ∀ c row, capabilities d !! c = Some row → capabilities d' !! c = Some row;
  bindings_kept : ∀ op c a, operation_bound op c a d → operation_bound op c a d';
}.
#[export] Instance settled_change_preorder : PreOrder settled_change.
Proof.
  split.
  - intros d. split; [done|auto|auto].
  - intros d1 d2 d3 [E1 C1 B1] [E2 C2 B2]. split; [congruence|auto|auto].
Qed.

Lemma limit_kept c a n d d' : settled_change d d' → limit_of c a d = Some n → limit_of c a d' = Some n.
Proof.
  intros [_ Hc _]. unfold limit_of. destruct (capabilities d !! c) as [row|] eqn:E; [|done]. by rewrite (Hc _ _ E).
Qed.
Lemma ledger_settled d d' : settled_change d d' → ledger d → ledger d'.
Proof.
  intros H [H1 H2 H3 H4]. pose proof H as [Hu Hc Hb]. split; rewrite ?Hu; auto.
  intros r Hr. destruct (H4 r Hr) as (n & Hn & Hle). exists n. split; [by eapply limit_kept|done].
Qed.

Definition settles {A} (m : M A) : Prop := ∀ d a d', m d = Ok (a, d') → settled_change d d'.

(** *** A new execution *)

Lemma usage_count_snoc c a l r : usage_count c a (l ++ [r]) = (usage_count c a l + if of_grant c a r then 1 else 0)%nat.
Proof.
  unfold usage_count. rewrite filter_app, length_app. f_equal. rewrite filter_cons, filter_nil.
  destruct (of_grant c a r); by case_decide.
Qed.
Lemma executions_snoc c a l r : executions c a (l ++ [r]) = executions c a l ++ if of_grant c a r then [r] else [].
Proof. unfold executions. rewrite filter_app, filter_cons, filter_nil. destruct (of_grant c a r); by case_decide. Qed.

Lemma ledger_execution d r n :
  ledger d →
  (∀ x, x ∈ usages d → x.(usage_operation) ≠ r.(usage_operation)) →
  operation_bound r.(usage_operation) r.(usage_capability) r.(usage_action) d →
  limit_of r.(usage_capability) r.(usage_action) d = Some n →
  r.(execution_index) = Z.of_nat (usage_count r.(usage_capability) r.(usage_action) (usages d)) + 1 →
  Z.of_nat (usage_count r.(usage_capability) r.(usage_action) (usages d)) < n →
  ledger (set_session_usage (usages d ++ [r]) d).
Proof.
  intros [H1 H2 H3 H4] Hnew Hb Hl Hi Hn.
  assert (∀ c a, of_grant c a r = true ↔ r.(usage_capability) = c ∧ r.(usage_action) = a) as Hg.
  { intros c a. unfold of_grant. rewrite andb_true_iff, !bool_decide_eq_true. done. }
  split; change (usages (set_session_usage _ d)) with (usages d ++ [r]).
  - rewrite fmap_app. apply NoDup_app. split; [done|]. split; [|by apply NoDup_singleton].
    intros x (y & -> & Hy)%list_elem_of_fmap E%list_elem_of_singleton. by apply (Hnew y).
  - intros x [Hx| ->%list_elem_of_singleton]%elem_of_app; [by apply H2|done].
  - intros c a. rewrite executions_snoc, usage_count_snoc, fmap_app, H3. destruct (of_grant c a r) eqn:E.
    + apply Hg in E as [<- <-]. rewrite Nat2Z.inj_add, seqZ_app by lia. csimpl. rewrite Hi. f_equal. rewrite Z.add_comm. done.
    + by rewrite Nat.add_0_r, app_nil_r.
  - intros x Hx. rewrite usage_count_snoc. destruct (of_grant (usage_capability x) (usage_action x) r) eqn:E.
    + apply Hg in E as [E1 E2]. rewrite <-E1, <-E2. exists n. split; [done|]. lia.
    + apply elem_of_app in Hx as [Hx| ->%list_elem_of_singleton].
      * destruct (H4 x Hx) as (k & Hk & Hle). exists k. split; [done|]. lia.
      * by rewrite (proj2 (Hg _ _)) in E.
Qed.

(** *** The operations *)

Lemma settles_refl d : settled_change d d.
Proof. done. Qed.

Lemma scoped_row i s h d r d' : scopedCapability i s h d = Ok (r, d') → d' = d ∧ capabilities d !! i = Some r.
Proof. unfold scopedCapability, capabilityById. intros H. by minv. Qed.
Lemma operation_row i d b d' :
  operationBinding i d = Ok (b, d') →
  d' = d ∧ ∃ o, d.(operation_runs) !! i.(bind_operationId) = Some o ∧ b = o.(binding) ∧ b.(action_name) = i.(bind_actionName).
Proof.
  unfold operationBinding. intros H. minv. split; [done|]. eexists. split; [done|]. split; [done|].
  by match goal with H : bool_decide (action_name _ = _) = true |- _ => apply bool_decide_eq_true in H end.
Qed.
Lemma operation_capability i d r b d' :
  capabilityForOperation sha256 locale_le i d = Ok ((r, b), d') →
  d' = d ∧ ∃ o row, d.(operation_runs) !! i.(op_operationId) = Some o ∧ b = o.(binding) ∧
    b.(capability_id) = Some r.(record_id) ∧ capabilities d !! r.(record_id) = Some row ∧
    toRecord sha256 r.(record_id) row = Ok r.
Proof.
  unfold capabilityForOperation, capabilityById. intros H. minv. split; [done|].
  match goal with H : binding_checks _ _ _ _ ?c ?row = Ok ?r |- _ =>
    assert (toRecord sha256 c row = Ok r ∧ record_id r = c) as [Hr Hi] end.
  { unfold binding_checks in *. repeat match goal with H : (if ?b then _ else _) = Ok _ |- _ => destruct b; [|done] end.
    match goal with H : rbind _ _ = Ok _ |- _ => apply rbind_ok in H as (x & Hx & H) end.
    repeat match goal with H : (if ?b then _ else _) = Ok _ |- _ => destruct b; [|done] end. simplify_eq.
    split; [done|]. unfold toRecord in Hx. apply rbind_ok in Hx as (y & _ & [= <-]). done. }
  exists o, c. by rewrite Hi.
Qed.

Lemma record_limit id row r action g d :
  toRecord sha256 id row = Ok r → capabilities d !! id = Some row → find_grant r.(record_capability) action = Some g →
  r.(record_id) = id ∧ limit_of id action d = Some g.(maxExecutions).
Proof.
  unfold toRecord. intros (c & Hc & [= <-])%rbind_ok Hrow Hg. split; [done|]. unfold limit_of.
  rewrite Hrow. simpl. rewrite Hc. simpl in Hg. by rewrite Hg.
Qed.

(** What a consumption does. *)
Lemma consume_effect r op action d x d' :
  consumeBoundOperation r op action d = Ok (x, d') →
  match x with
  | consumed n =>
      (∀ y, y ∈ usages d → y.(usage_operation) ≠ op) ∧
      n = Z.of_nat (usage_count r.(record_id) action (usages d)) + 1 ∧
      (∃ g, find_grant r.(record_capability) action = Some g ∧ n ≤ g.(maxExecutions)) ∧
      d' = set_session_usage (usages d ++ [{| usage_capability := r.(record_id); usage_operation := op;
                                             usage_action := action; execution_index := n |}]) d
  | consume_replay n =>
      d' = d ∧ ∃ y, y ∈ usages d ∧ y.(usage_operation) = op ∧ of_grant r.(record_id) action y = true ∧ y.(execution_index) = n
  | consume_denied _ => d' = d
  end.
Proof.
  unfold consumeBoundOperation. destruct (capability_mode _); [|intros H; by minv].
  destruct (find_grant _ action) as [g|] eqn:Eg; [|intros H; by minv].
  unfold usage_of, getdb, mreturn, mthen. change (capability_usage (session_tables d)) with (usages d).
  destruct (list_find _ (usages d)) as [[i y]|] eqn:E; simpl.
  - apply list_find_Some in E as (Hy & Ho & _). destruct (of_grant _ _ y) eqn:Eo; [|done]. intros [= <- <-].
    split; [done|]. exists y. split; [by eapply list_elem_of_lookup_2|]. done.
  - change (capability_usage (session_tables d)) with (usages d).
    destruct (Z.leb_spec (maxExecutions g) (Z.of_nat (usage_count (record_id r) action (usages d)))); [by intros [= <- <-]|].
    unfold insert_usage. cbv zeta. destruct (_ || _); [done|]. intros [= <- <-]. split_and!; [|done| |done].
    + intros y Hy. apply list_find_None in E. rewrite Forall_forall in E. by apply E.
    + exists g. split; [done|lia].
Qed.

Lemma ledger_consume r op action d x d' o row :
  consumeBoundOperation r op action d = Ok (x, d') → ledger d →
  d.(operation_runs) !! op = Some o → o.(binding).(capability_id) = Some r.(record_id) → o.(binding).(action_name) = action →
  capabilities d !! r.(record_id) = Some row → toRecord sha256 r.(record_id) row = Ok r → ledger d'.
Proof.
  intros H HL Ho Hc Ha Hrow Hr. apply consume_effect in H. destruct x as [n|n|]; [|by destruct H as [-> _]|by subst].
  destruct H as (Hnew & Hn & (g & Hg & Hle) & ->). destruct (record_limit _ _ _ _ _ d Hr Hrow Hg) as [_ Hl].
  eapply ledger_execution; [done|done|by exists o|done|by rewrite Hn|simpl; lia].
Qed.

(** *** Binding *)

Lemma binding_settled id c h conf d a d' : update_operation_binding id c h conf d = Ok (a, d') → settled_change d d'.
Proof.
  unfold update_operation_binding, update_row. destruct (operation_runs d !! id) as [o|] eqn:E; [|by intros [= <- <-]; destruct d].
  destruct (_ && _) eqn:Ef; [|by intros [= <- <-]; destruct d]. intros [= <- <-]. split; [done|done|].
  intros op c' a' (o' & Ho' & Hc & Ha). destruct (decide (op = id)) as [->|].
  - rewrite E in Ho'. injection Ho' as <-. apply andb_true_iff in Ef as [[Ef _]%andb_true_iff _].
    apply bool_decide_eq_true in Ef. congruence.
  - exists o'. split; [|done]. simpl. by rewrite lookup_insert_ne.
Qed.
Lemma preview_settled id op c h d a d' : update_preview_binding id op c h d = Ok (a, d') → settled_change d d'.
Proof. unfold update_preview_binding. destruct (update_row _ _ _ _). by intros [= <- <-]. Qed.
Lemma confirmation_settled i conf d a d' : bound_confirmation i conf d = Ok (a, d') → d' = d.
Proof. unfold bound_confirmation. intros H. minv; done. Qed.

Lemma bind_settled i d a d' : bindIntentCapabilityOperation sha256 i d = Ok (a, d') → settled_change d d'.
Proof.
  unfold bindIntentCapabilityOperation. intros H. minv; subst.
  all: repeat match goal with
    | H : scopedCapability _ _ _ _ = Ok _ |- _ => apply scoped_row in H as [-> ?]
    | H : operationBinding _ _ = Ok _ |- _ => apply operation_row in H as [-> _]
    | H : bound_confirmation _ _ _ = Ok _ |- _ => apply confirmation_settled in H as ->
    end; try done.
  all: repeat match goal with
    | H : update_operation_binding _ _ _ _ _ = Ok _ |- _ => apply binding_settled in H
    | H : update_preview_binding _ _ _ _ _ = Ok _ |- _ => apply preview_settled in H
    end; try done; by etrans.
Qed.

Lemma create_settled i now uuid d a d' : createIntentCapability sha256 locale_le i now uuid d = Ok (a, d') → settled_change d d'.
Proof.
  unfold createIntentCapability. intros H. minv; [done|]. unfold insert_capability in *. cbv zeta in *.
  match goal with H : (if ?b then _ else _) = Ok _ |- _ => destruct b eqn:Eb; [done|]; injection H as ? <- end.
  split; [done| |by intros op c' a' Hb]. intros c row Hrow. change (capabilities (set_session_capabilities ?t _)) with t.
  apply orb_false_iff in Eb as [[[[Eb _]%orb_false_iff _]%orb_false_iff _]%orb_false_iff _].
  apply bool_decide_eq_false in Eb. rewrite lookup_insert_ne; [done|]. intros <-. apply Eb. by exists row.
Qed.

(** ** The life of a database *)

(** A step of the store of capabilities, or a change elsewhere that keeps what it needs. *)
Inductive intent_step : db → db → Prop :=
  | step_create i now uuid r d d' : createIntentCapability sha256 locale_le i now uuid d = Ok (r, d') → intent_step d d'
  | step_bind i r d d' : bindIntentCapabilityOperation sha256 i d = Ok (r, d') → intent_step d d'
  | step_consume i r d d' : consumeIntentCapabilityExecution sha256 i d = Ok (r, d') → intent_step d d'
  | step_consume_operation i r d d' :
      consumeIntentCapabilityForOperation sha256 locale_le i d = Ok (r, d') → intent_step d d'
  | step_elsewhere d d' : settled_change d d' → intent_step d d'.

Lemma ledger_empty d : usages d = [] → ledger d.
Proof.
  intros H. split; rewrite H.
  - constructor.
  - by intros r ?%elem_of_nil.
  - done.
  - by intros r ?%elem_of_nil.
Qed.

Lemma ledger_step d d' : intent_step d d' → ledger d → ledger d'.
Proof.
  intros [i now uuid r d1 d2 H|i r d1 d2 H|i r d1 d2 H|i r d1 d2 H|d1 d2 H] HL.
  - eapply ledger_settled; [by eapply create_settled|done].
  - eapply ledger_settled; [by eapply bind_settled|done].
  - unfold consumeIntentCapabilityExecution in H. minv.
    match goal with H : scopedCapability _ _ _ _ = Ok _ |- _ => apply scoped_row in H as [-> Hrow] end.
    match goal with H : operationBinding _ _ = Ok _ |- _ => apply operation_row in H as (-> & o & Ho & -> & Ha) end.
    match goal with H : _ && _ = true |- _ => apply andb_true_iff in H as [Hc _]; apply bool_decide_eq_true in Hc end.
    match goal with H : toRecord _ _ _ = Ok _ |- _ => rename H into Hr end.
    assert (record_id a1 = bind_capabilityId i) as Ei by (unfold toRecord in Hr; by apply rbind_ok in Hr as (c & _ & [= <-])).
    rewrite <-Ei in Hr, Hrow, Hc. by eapply ledger_consume.
  - unfold consumeIntentCapabilityForOperation in H. minv. destruct a as [rec b].
    match goal with H : capabilityForOperation _ _ _ _ = Ok _ |- _ =>
      apply operation_capability in H as (-> & o & row & Ho & -> & Hc & Hrow & Hr) end.
    by eapply ledger_consume.
  - by eapply ledger_settled.
Qed.

(** C9: Whatever requests the store of capabilities serves, and whatever the other stores do
    meanwhile, as long as they keep its tables and no bound operation is rebound: from a
    database without executions, an operation executes at most once and under the capability
    it is bound to, the executions of an action under a capability carry the numbers 1 to
    their count, and that count never exceeds the limit that the stored capability, parsed
    again, sets on the action. *)
Theorem capability_ledger d0 d :
  usages d0 = [] → rtc intent_step d0 d →
  NoDup (usage_operation <$> usages d) ∧
  (∀ r, r ∈ usages d → operation_bound r.(usage_operation) r.(usage_capability) r.(usage_action) d) ∧
  (∀ c a, execution_index <$> executions c a (usages d) = seqZ 1 (Z.of_nat (usage_count c a (usages d)))) ∧
  (∀ r, r ∈ usages d → ∃ n, limit_of r.(usage_capability) r.(usage_action) d = Some n ∧
     Z.of_nat (usage_count r.(usage_capability) r.(usage_action) (usages d)) ≤ n).
Proof.
  intros H0 Hs. apply ledger_empty in H0.
  induction Hs as [d|d1 d2 d3 H12 _ IH]; [by destruct H0|by apply IH, (ledger_step _ _ H12)].
Qed.

(** ** Consuming again *)

Lemma operation_reads i l d :
  capabilityForOperation sha256 locale_le i (set_session_usage l d) =
  match capabilityForOperation sha256 locale_le i d with
  | Ok (x, _) => Ok (x, set_session_usage l d)
  | Throw e => Throw e
  end.
Proof.
  unfold capabilityForOperation, capabilityById, mthen, getdb, mreturn, mthrow, lift. simpl.
  repeat (case_match; simplify_eq; try done);
    change (intent_capabilities (session_tables (set_session_usage l ?x))) with (intent_capabilities (session_tables x)) in *; congruence.
Qed.

(** A consumption is made once.  If [consumeIntentCapabilityForOperation] consumed an
    execution, asking again for the same operation changes nothing and reports the same
    execution number as a replay - also when the limit is now reached. *)
Theorem consume_replays i d n d' :
  consumeIntentCapabilityForOperation sha256 locale_le i d = Ok (consumed n, d') →
  consumeIntentCapabilityForOperation sha256 locale_le i d' = Ok (consume_replay n, d').
Proof.
  unfold consumeIntentCapabilityForOperation. intros ([r b] & d1 & Hc & H)%mthen_ok.
  pose proof (operation_capability _ _ _ _ _ Hc) as [-> _]. simpl in H.
  pose proof (consume_effect _ _ _ _ _ _ H) as (Hnew & Hn & (g & Hg & _) & ->).
  unfold mthen at 1. rewrite operation_reads, Hc. cbn [fst snd].
  unfold consumeBoundOperation in H |- *. destruct (capability_mode _); [|done]. rewrite Hg.
  unfold usage_of, getdb, mreturn, mthen. cbn [session_tables set_session_usage set_session_tables capability_usage set_usage].
  set (y := {| usage_capability := record_id r; usage_operation := op_operationId i; usage_action := action_name b; execution_index := n |}).
  assert (list_find (λ r : UsageRow, usage_operation r = op_operationId i) (usages d ++ [y]) = Some (length (usages d), y)) as ->.
  { apply list_find_Some. rewrite lookup_app_r, Nat.sub_diag by done. split; [done|]. split; [done|].
    intros j z Hj Hlt. rewrite lookup_app_l in Hj by done. by eapply Hnew, list_elem_of_lookup_2. }
  simpl. unfold of_grant. simpl. by rewrite !bool_decide_true.
Qed.
End Ledger.
