(* ===== verification/IntentStored.v ===== *)
(** * A stored capability reads back

    [createIntentCapability] of file IntentStore writes the JSON of a capability and every
    later check parses it again: the same capability comes out.  At the end, a run of the
    store on one request. *)
From S2P Require Import Prelude Js SafeJson SafetyLimits SessionTables Db Store IntentCapability IntentAuthority IntentLiteral IntentSound Discriminators IntentStore IntentLedger.
Open Scope Z_scope.
#[local] Arguments u : simpl never.

(** ** Objects with one value per key *)

Fixpoint unique_keys (v : jsval) : bool :=
  match v with
  | VArr l => forallb unique_keys l
  | VObj fs => bool_decide (NoDup (fst <$> fs)) && forallb (λ f, unique_keys f.2) fs
  | _ => true
  end.

Lemma field_unique (fs : list (jstr * jsval)) k x y : NoDup (fst <$> fs) → (k, x) ∈ fs → (k, y) ∈ fs → x = y.
Proof.
  induction fs as [|[k' z] fs IH]; csimpl; [by intros _ ?%elem_of_nil|]. intros [Hk Hn]%NoDup_cons.
  assert (∀ w, (k', w) ∈ fs → False) as Hno by (intros w Hw; by apply Hk, (list_elem_of_fmap_2' fst fs (k', w))).
  rewrite !elem_of_cons. intros [E1|Hx] [E2|Hy]; simplify_eq; [done|exfalso; by eapply Hno..|by apply IH].
Qed.
Lemma sort_fields_again fs : NoDup (fst <$> fs) → sort_fields (sort_fields fs) = sort_fields fs.
Proof.
  intros Hn. apply (Sorted_unique_strong field_le); [|apply sort_fields_sorted..|apply sort_fields_perm].
  intros [k x] [k' y] Hx Hy H1 H2. rewrite (elem_of_sort_fields _ (sort_fields fs)), elem_of_sort_fields in Hx. rewrite elem_of_sort_fields in Hy.
  assert (k = k') as -> by (exact (anti_symm jstr_le _ _ H1 H2)). f_equal. by eapply field_unique.
Qed.

Lemma canon_keys (fs : list (jstr * jsval)) : fst <$> ((λ f, (f.1, canon f.2)) <$> fs) = fst <$> fs.
Proof. rewrite <-list_fmap_compose. by apply list_fmap_ext. Qed.

Lemma unique_elem v l : unique_keys (VArr l) = true → v ∈ l → unique_keys v = true.
Proof. simpl. rewrite forallb_elem. auto. Qed.
Lemma unique_field f fs : unique_keys (VObj fs) = true → f ∈ fs → unique_keys f.2 = true.
Proof. simpl. intros [_ H]%andb_true_iff. rewrite forallb_elem in H. auto. Qed.

Lemma canon_again v : unique_keys v = true → canon (canon v) = canon v.
Proof.
  induction v as [| |b|n|s|l IH|fs IH|bs| |] using jsval_rect'; try done; intros Hu; simpl; rewrite Forall_forall in IH.
  - f_equal. rewrite <-list_fmap_compose. apply list_fmap_ext. intros i x Hx%list_elem_of_lookup_2.
    by apply IH, (unique_elem x l).
  - rewrite !canon_fields, <-list_fmap_compose. f_equal.
    rewrite sort_fields_again by (simpl in Hu; apply andb_true_iff in Hu as [Hu _]; by apply bool_decide_eq_true in Hu).
    apply list_fmap_ext. intros i f Hf%list_elem_of_lookup_2. rewrite elem_of_sort_fields in Hf. simpl. f_equal.
    by apply IH, (unique_field f fs).
Qed.

(** The canonical value is copied as the value is. *)
Lemma copy_all_ext {A B} (f g : B → Z → result (A * Z)) l :
  (∀ x, x ∈ l → ∀ n, f x n = g x n) → ∀ n, copy_all (f <$> l) n = copy_all (g <$> l) n.
Proof.
  induction l as [|x l IH]; intros H n; csimpl; [done|]. rewrite (H x (list_elem_of_here _ _)).
  destruct (g x n) as [[y m]|]; simpl; [|done]. rewrite IH; [done|]. intros z Hz. by apply H, list_elem_of_further.
Qed.
Lemma copy_canonical v : unique_keys v = true → ∀ d n, copyLiteralNode (canon v) d n = copyLiteralNode v d n.
Proof.
  induction v as [| |b|k|s|l IH|fs IH|bs| |] using jsval_rect'; try done; intros Hu d n; rewrite Forall_forall in IH.
  - simpl. destruct (literal_step d n) as [m|]; [|done]. simpl. unfold literal_children. destruct (_ <=? _); [done|].
    rewrite <-list_fmap_compose. rewrite (copy_all_ext _ (λ x, copyLiteralNode x (d + 1))); [done|].
    intros x Hx k. by apply IH, (unique_elem x l).
  - simpl. destruct (literal_step d n) as [m|]; [|done]. simpl. unfold literal_children. destruct (_ <=? _); [done|].
    rewrite !(sort_fields_fmap (λ f, labelled f.1 (copyLiteralNode f.2 (d + 1)))), canon_fields.
    assert (NoDup (fst <$> fs)) as Hn by (simpl in Hu; apply andb_true_iff in Hu as [Hu' _]; by apply bool_decide_eq_true in Hu').
    rewrite <-canon_fields, sort_fields_again by (by rewrite canon_keys). rewrite canon_fields, <-!list_fmap_compose.
    rewrite (copy_all_ext _ (λ f, labelled f.1 (copyLiteralNode f.2 (d + 1)))); [done|].
    intros f Hf k. rewrite elem_of_sort_fields in Hf. simpl. unfold labelled. by rewrite (IH f Hf (unique_field f fs Hu Hf)).
Qed.

Definition json_tree (v : jsval) : Prop := json_value v = true ∧ unique_keys v = true.

Lemma literal_again v w : json_tree v → parseIntentLiteralValue v = Ok w → canon w = w ∧ parseIntentLiteralValue w = Ok w.
Proof.
  intros [Hj Hu] H. pose proof (parse_literal_canon _ _ Hj H) as ->. split; [by apply canon_again|].
  unfold parseIntentLiteralValue in *. by rewrite copy_canonical.
Qed.

Lemma tree_prop k v : json_tree v → prop k v = VUndef ∨ json_tree (prop k v).
Proof.
  intros [Hj Hu]. destruct v as [| |b|n|s|l|fs|bs| |]; try by left. unfold prop. simpl.
  destruct (fields_get k fs) as [x|] eqn:E; [right|by left]. apply fields_get_elem in E. split.
  - simpl in Hj. rewrite forallb_elem in Hj. by apply (Hj (k, x)).
  - by apply (unique_field (k, x) fs).
Qed.
Lemma tree_items k v l : json_tree v → prop k v = VArr l → ∀ x, x ∈ l → json_tree x.
Proof.
  intros H E x Hx. destruct (tree_prop k v H) as [?|[Hj Hu]]; [congruence|]. rewrite E in Hj, Hu. split.
  - simpl in Hj. rewrite forallb_elem in Hj. auto.
  - by apply (unique_elem x l).
Qed.

(** ** Parsing what was written *)

Lemma span_again v s : parseSpan v = Ok s → parseSpan (canon (span_value s)) = Ok s.
Proof.
  unfold parseSpan at 1. destruct (negb _); [done|].
  destruct (safe_integer (prop (u "startByte") v)) as [a|] eqn:Ea; [|done].
  destruct (safe_integer (prop (u "endByte") v)) as [b|] eqn:Eb; [|done].
  destruct (prop (u "text") v) as [| | | |[|c t]| | | | |]; try done.
  destruct ((a <? 0) || (b <=? a)) eqn:E; [done|]. intros [= <-].
  assert (∀ w z, safe_integer w = Some z → safe_integer (num z) = Some z) as Hs.
  { intros w z. destruct w as [| | |[y| | |]| | | | | |]; try done. cbn [safe_integer].
    destruct (Z.abs y <=? max_safe_integer) eqn:El; [|done]. intros [= <-]. cbn [num safe_integer]. by rewrite El. }
  unfold parseSpan.
  assert (prop (u "startByte") (canon (span_value {| startByte := a; endByte := b; span_text := c :: t |})) = num a) as -> by reflexivity.
  assert (prop (u "endByte") (canon (span_value {| startByte := a; endByte := b; span_text := c :: t |})) = num b) as -> by reflexivity.
  assert (prop (u "text") (canon (span_value {| startByte := a; endByte := b; span_text := c :: t |})) = VStr (c :: t)) as -> by reflexivity.
  rewrite (Hs _ _ Ea), (Hs _ _ Eb), E. done.
Qed.

Lemma is_record_canon fs : is_record (canon (VObj fs)) = true.
Proof. done. Qed.

Lemma constraint_again source spans seen raw c :
  json_tree raw → parse_constraint source spans seen raw = Ok c →
  parse_constraint None spans seen (canon (constraint_object c)) = Ok c.
Proof.
  intros Ht. unfold parse_constraint at 1. destruct (negb _); [done|].
  destruct (prop (u "path") raw) as [| | | |path| | | | |]; try done.
  destruct (negb (between 1 256 (length path))) eqn:Hl; [done|]. destruct (SENSITIVE_PATH path) eqn:Hs; [done|].
  case_bool_decide as Hseen; [done|]. intros (span & Hsp & H)%rbind_ok. apply rbind_ok in H as (t & _ & H).
  case_bool_decide as Hin; [|done]. apply rbind_ok in H as (v & Hv & [= <-]).
  assert (canon v = v ∧ parseIntentLiteralValue v = Ok v) as [Hc Hp].
  { destruct (tree_prop (u "value") raw Ht) as [E|Ht']; [by rewrite E in Hv|by eapply literal_again]. }
  set (c := {| constraint_path := path; constraint_value := v; sourceSpan := span |}).
  unfold parse_constraint.
  assert (prop (u "path") (canon (constraint_object c)) = VStr path) as -> by reflexivity.
  assert (prop (u "sourceSpan") (canon (constraint_object c)) = canon (span_value span)) as -> by reflexivity.
  assert (prop (u "value") (canon (constraint_object c)) = canon v) as -> by reflexivity.
  rewrite Hl, Hs, (span_again _ _ Hsp), Hc. cbn [is_record negb canon constraint_object rbind check_span].
  rewrite (bool_decide_false (path ∈ seen)), bool_decide_true by done. cbn [negb]. by rewrite Hp.
Qed.
Lemma constraints_again source spans l : (∀ x, x ∈ l → json_tree x) → ∀ seen cs,
  parse_constraints source spans seen l = Ok cs →
  parse_constraints None spans seen (canon <$> (constraint_object <$> cs)) = Ok cs.
Proof.
  induction l as [|raw l IH]; intros Ht seen cs; simpl; [by intros [= <-]|].
  intros (c & Hc & H)%rbind_ok. apply rbind_ok in H as (rest & Hrest & [= <-]). rewrite !fmap_cons. cbn [parse_constraints].
  rewrite (constraint_again _ _ _ _ _ (Ht _ (list_elem_of_here _ _)) Hc). cbn [rbind].
  rewrite (IH (λ x Hx, Ht x (list_elem_of_further _ _ _ Hx)) _ _ Hrest). done.
Qed.

Lemma spans_again l ss : sequence (parseSpan <$> l) = Ok ss → sequence (parseSpan <$> (canon <$> (span_value <$> ss))) = Ok ss.
Proof.
  rewrite sequence_ok. intros H. apply sequence_ok. revert ss H. induction l as [|v l IH]; intros [|s ss]; csimpl; try done.
  intros [= H1 H2]. f_equal; [by eapply span_again|by apply IH].
Qed.
Lemma spans_unchecked ss : check_spans None ss = Ok tt.
Proof. by induction ss. Qed.

Lemma limit_again v n : parse_limit v = Ok n → parse_limit (num n) = Ok n.
Proof.
  intros H. assert (v = VUndef ∧ n = 1 ∨ ∃ m, safe_integer v = Some m ∧ (if (m <? 1) || (1000 <? m) then None else Some m) = Some n) as [[-> ->]|(m & Hm & E)].
  { unfold parse_limit in H. destruct v as [| |b|k|s|l|fs|bs| |]; try done; [by left; injection H as <-|right].
    destruct (safe_integer (VNum k)) as [m|]; [|done]. exists m. split; [done|]. destruct (_ || _); [done|]. by injection H as ->. }
  { done. }
  destruct ((m <? 1) || (1000 <? m)) eqn:Eb; [done|]. injection E as ->.
  unfold parse_limit, num. destruct v as [| | |[y| | |]| | | | | |]; try done. cbn [safe_integer] in Hm |- *.
  destruct (Z.abs y <=? max_safe_integer) eqn:El; [|done]. injection Hm as ->. by rewrite El, Eb.
Qed.

Lemma action_again source raw g :
  json_tree raw → parseWriteAction source raw = Ok g → parseWriteAction None (canon (action_value g)) = Ok g.
Proof.
  intros Ht. unfold parseWriteAction at 1. destruct (negb _); [done|].
  destruct (prop (u "actionName") raw) as [| | | |name| | | | |]; try done.
  destruct (negb (is_action_name name)) eqn:Hn; [done|].
  destruct (prop (u "sourceSpans") raw) as [| | | | |spans| | | |]; try done.
  destruct (negb (between 1 128 (length spans))) eqn:Hl; [done|]. intros (ss & Hss & H)%rbind_ok. apply rbind_ok in H as ([] & _ & H).
  destruct (prop (u "literalConstraints") raw) as [| | | | |l| | | |] eqn:El; try done.
  destruct (INTENT_LITERAL_CONSTRAINT_LIMIT <? Z.of_nat (length l)) eqn:Hc; [done|].
  apply rbind_ok in H as (cs & Hcs & H). apply rbind_ok in H as (n & Hlim & [= <-]).
  set (g := {| grant_action := name; sourceSpans := ss; literalConstraints := cs; maxExecutions := n |}).
  unfold parseWriteAction.
  assert (prop (u "actionName") (canon (action_value g)) = VStr name) as -> by reflexivity.
  assert (prop (u "sourceSpans") (canon (action_value g)) = VArr (canon <$> (span_value <$> ss))) as -> by reflexivity.
  assert (prop (u "literalConstraints") (canon (action_value g)) = VArr (canon <$> (constraint_object <$> cs))) as -> by reflexivity.
  assert (prop (u "maxExecutions") (canon (action_value g)) = num n) as -> by reflexivity.
  assert (length spans = length ss) as E1 by (apply sequence_ok, (f_equal length) in Hss; by rewrite !length_fmap in Hss).
  assert (length l = length cs) as E2.
  { clear -Hcs. revert cs Hcs. generalize (@nil jstr). induction l as [|x l IH]; intros seen cs; simpl; [by intros [= <-]|].
    intros (c & _ & H)%rbind_ok. apply rbind_ok in H as (rest & Hr & [= <-]). simpl. f_equal. by eapply IH. }
  rewrite Hn, !length_fmap, <-E1, <-E2, Hl, Hc, (spans_again _ _ Hss). cbn [is_record negb canon action_value rbind].
  rewrite spans_unchecked. cbn [rbind]. rewrite (constraints_again _ _ _ (tree_items _ _ _ Ht El) _ _ Hcs). cbn [rbind].
  by rewrite (limit_again _ _ Hlim).
Qed.
Lemma actions_again source l : (∀ x, x ∈ l → json_tree x) → ∀ seen gs,
  parse_actions source seen l = Ok gs → parse_actions None seen (canon <$> (action_value <$> gs)) = Ok gs ∧ length l = length gs.
Proof.
  induction l as [|raw l IH]; intros Ht seen gs; simpl; [by intros [= <-]|].
  intros (g & Hg & H)%rbind_ok. case_bool_decide as Hs; [done|]. apply rbind_ok in H as (rest & Hrest & [= <-]). rewrite !fmap_cons. cbn [parse_actions].
  rewrite (action_again _ _ _ (Ht _ (list_elem_of_here _ _)) Hg). cbn [rbind]. rewrite bool_decide_false by done.
  destruct (IH (λ x Hx, Ht x (list_elem_of_further _ _ _ Hx)) _ _ Hrest) as [-> E]. simpl. by rewrite E.
Qed.

Section Stored.
Context (sha256 : jstr → jstr) (locale_le : jstr → jstr → bool).

Lemma parse_written raw mode request catalog actions m c :
  is_record raw = true → prop (u "version") raw = num 1 → prop (u "mode") raw = VStr mode →
  prop (u "requestHash") raw = VStr request → prop (u "catalogHash") raw = VStr catalog →
  prop (u "writeActions") raw = VArr actions →
  negb (bool_decide (mode ∈ [u "allow"; u "deny_all_writes"])) || negb (bool_decide (length request = 64%nat)) ||
    negb (between 1 256 (length catalog)) = false →
  parse_mode None mode raw actions = Ok m →
  exact_capability {| requestHash := request; catalogHash := catalog; capability_mode := m |} = Ok c →
  parseIntentCapabilityV1 sha256 raw None = Ok c.
Proof.
  intros Hr E1 E2 E3 E4 E5 Hg Hm Hx. unfold parseIntentCapabilityV1. rewrite Hr, E1, E2, E3, E4, E5. cbn [negb num].
  rewrite Hg, Hm. done.
Qed.

Lemma capability_again source raw cap :
  json_tree raw → parseIntentCapabilityV1 sha256 raw source = Ok cap →
  parseIntentCapabilityV1 sha256 (canon (capability_value cap)) None = Ok cap ∧ jsonByteLength (canon (capability_value cap)) ≤ CAPABILITY_MAX_BYTES.
Proof.
  intros Ht. unfold parseIntentCapabilityV1 at 1. destruct (negb (is_record raw)); [done|].
  destruct (prop (u "version") raw) as [| | |[z| | |]| | | | | |]; try done. destruct z as [|[]|]; try done.
  destruct (prop (u "mode") raw) as [| | | |mode| | | | |]; try done.
  destruct (prop (u "requestHash") raw) as [| | | |request| | | | |]; try done.
  destruct (prop (u "catalogHash") raw) as [| | | |catalog| | | | |]; try done.
  destruct (prop (u "writeActions") raw) as [| | | | |actions| | | |] eqn:Ea; try done.
  destruct (negb (bool_decide (mode ∈ _)) || _ || _) eqn:Hg; [done|]. destruct (match source with Some _ => _ | None => _ end); [done|].
  intros (m & Hm & H)%rbind_ok. set (cap' := {| requestHash := request; catalogHash := catalog; capability_mode := m |}) in *.
  pose proof H as Hx. unfold exact_capability in H. apply rbind_ok in H as (x & Hex & [= <-]). split.
  2: { apply exact_nonsecret_lossless in Hex as (_ & _ & Hle). done. }
  unfold parse_mode in Hm. destruct (bool_decide (mode = u "deny_all_writes")) eqn:Hd.
  - unfold parse_reason in Hm. destruct (prop (u "reason") raw) as [| | | |r| | | | |]; try done.
    destruct (between 1 256 (length r)) eqn:Hr; [|done]. destruct actions; [|done]. injection Hm as <-.
    apply bool_decide_eq_true in Hd as ->.
    eapply (parse_written _ (u "deny_all_writes") request catalog []); [reflexivity..|exact Hg| |exact Hx].
    unfold parse_mode. rewrite bool_decide_true by done.
    assert (prop (u "reason") (canon (capability_value cap')) = VStr r) as -> by reflexivity. unfold parse_reason. by rewrite Hr.
  - destruct (negb (between 1 MAX_GRANTS (length actions))) eqn:Hn; [done|]. apply rbind_ok in Hm as (gs & Hgs & [= <-]).
    destruct (actions_again _ _ (tree_items _ _ _ Ht Ea) _ _ Hgs) as [Hag Hlen].
    assert (mode = u "allow") as ->.
    { apply orb_false_iff in Hg as [[Hmode _]%orb_false_iff _]. apply negb_false_iff, bool_decide_eq_true in Hmode.
      apply bool_decide_eq_false in Hd. set_solver. }
    eapply (parse_written _ (u "allow") request catalog (canon <$> (action_value <$> gs))); [reflexivity..|exact Hg| |exact Hx].
    unfold parse_mode. rewrite Hd, !length_fmap, <-Hlen, Hn. by rewrite Hag.
Qed.


(** ** The store *)

(** The literals of a capability in memory are JSON values. *)
Definition literal_trees (c : IntentCapabilityV1) : Prop :=
  ∀ g, g ∈ writeActions c → ∀ l, l ∈ g.(literalConstraints) → json_tree l.(constraint_value).

Lemma tree_fields fs : NoDup (fst <$> fs) → (∀ f, f ∈ fs → json_tree f.2) → json_tree (VObj fs).
Proof.
  intros Hn H. split; simpl; rewrite ?andb_true_iff, forallb_elem, ?bool_decide_eq_true.
  - intros f Hf. apply H, Hf.
  - split; [done|]. intros f Hf. apply H, Hf.
Qed.
Lemma tree_list l : (∀ x, x ∈ l → json_tree x) → json_tree (VArr l).
Proof. intros H. split; simpl; rewrite forallb_elem; intros x Hx; apply H, Hx. Qed.
Lemma tree_list_map {A} (f : A → jsval) l : (∀ x, x ∈ l → json_tree (f x)) → json_tree (VArr (f <$> l)).
Proof. intros H. apply tree_list. intros y (x & -> & Hx)%list_elem_of_fmap. by apply H. Qed.

(** Objects written out field by field. *)
Ltac tree_object :=
  apply tree_fields; [by apply (bool_decide_unpack _); vm_compute|];
  intros f Hf; repeat (apply elem_of_cons in Hf as [->|Hf]; [simpl|]); [..|by apply elem_of_nil in Hf].

Lemma tree_span s : json_tree (span_value s).
Proof. tree_object; done. Qed.
Lemma tree_action g : (∀ l, l ∈ g.(literalConstraints) → json_tree l.(constraint_value)) → json_tree (action_value g).
Proof.
  intros H. tree_object; [done|apply tree_list_map; intros; apply tree_span| |done].
  apply tree_list_map. intros c Hc. tree_object; [done|by apply H|apply tree_span].
Qed.
Lemma tree_capability c : literal_trees c → json_tree (capability_value c).
Proof.
  intros H. unfold capability_value. unfold literal_trees, writeActions in H. destruct (capability_mode c) as [l|r].
  - tree_object; try done. apply tree_list_map. intros g Hg. apply tree_action. by apply H.
  - by tree_object.
Qed.

Lemma scope_of_row row id r : toRecord sha256 id row = Ok r → r.(record_id) = id ∧ assertScope row r.(record_scope) None = Ok tt.
Proof.
  unfold toRecord. intros (c & _ & [= <-])%rbind_ok. split; [done|]. unfold assertScope. simpl. by rewrite !bool_decide_true.
Qed.
Lemma get_by_record row id r d :
  d.(session_tables).(intent_capabilities) !! id = Some row → toRecord sha256 id row = Ok r →
  getIntentCapability sha256 r.(record_id) r.(record_scope) d = Ok (Some r, d).
Proof.
  intros Hrow Hr. destruct (scope_of_row _ _ _ Hr) as [Hid Ha]. unfold getIntentCapability, capabilityById, mthen, getdb, mreturn.
  rewrite Hid, Hrow. unfold lift. by rewrite Ha, Hr.
Qed.

(** The row just inserted is the one of its request. *)
Lemma find_created (i : CreateIntentCapabilityInput) (id : jstr) (row : CapabilityRow) (t : gmap jstr CapabilityRow) :
  of_request i row → list_find (λ kv : jstr * CapabilityRow, of_request i kv.2) (map_to_list t) = None →
  ∃ k, list_find (λ kv : jstr * CapabilityRow, of_request i kv.2) (map_to_list (<[id:=row]> t)) = Some (k, (id, row)).
Proof.
  intros Hr Hn. apply list_find_None in Hn. rewrite Forall_forall in Hn.
  destruct (list_find_elem_of (λ kv : jstr * CapabilityRow, of_request i kv.2) (map_to_list (<[id:=row]> t)) (id, row)) as [[k [id' row']] Hk];
    [apply elem_of_map_to_list, lookup_insert_eq|done|].
  exists k. rewrite Hk. pose proof Hk as (Hl & Ho & _)%list_find_Some. apply list_elem_of_lookup_2, elem_of_map_to_list in Hl.
  apply lookup_insert_Some in Hl as [[<- <-]|[_ Hl]]; [done|]. exfalso. by apply (Hn (id', row')); [apply elem_of_map_to_list|].
Qed.

(** C39: A capability that was created is there to be checked.  [createIntentCapability]
    validates the capability against the admin's text and stores its JSON, or finds the one
    of the same request; [getIntentCapability] then reads back exactly the record that was
    returned, and creating it again - at any time, under any fresh id - returns that record
    and changes nothing. *)
Theorem capability_stored i now uuid r d d' :
  literal_trees i.(create_capability) →
  createIntentCapability sha256 locale_le i now uuid d = Ok (r, d') →
  getIntentCapability sha256 r.(record_id) r.(record_scope) d' = Ok (Some r, d') ∧
  ∀ now2 uuid2, createIntentCapability sha256 locale_le i now2 uuid2 d' = Ok (r, d').
Proof.
  intros Ht H. unfold createIntentCapability in H |- *. apply mthen_ok in H as (c & d1 & Hc & H).
  rewrite lift_ok in Hc. destruct Hc as [Hc ->]. apply mthen_ok in H as (d2 & d3 & [= <- <-] & H).
  destruct (list_find _ (map_to_list _)) as [[k [id row]]|] eqn:E.
  - apply mthen_ok in H as ([] & d3 & [Ha ->]%lift_ok & H). apply lift_ok in H as [Hr ->].
    pose proof E as (Hk & _ & _)%list_find_Some. apply list_elem_of_lookup_2, elem_of_map_to_list in Hk. split.
    + by eapply get_by_record.
    + intros now2 uuid2. unfold mthen, lift, getdb. rewrite Hc, E, Ha. by rewrite Hr.
  - apply mthen_ok in H as ([] & d3 & Hins & [= <- <-]).
    unfold insert_capability in Hins. cbv zeta in Hins. destruct (_ || _); [done|]. injection Hins as <-.
    destruct (capability_again _ _ _ (tree_capability _ Ht) Hc) as [Hag _].
    set (id := default uuid (create_id i)). set (row := {| cap_workspace := create_workspaceId i |}).
    set (rec := {| record_scope := request_scope i c; record_id := id |}).
    assert (toRecord sha256 id row = Ok rec) as Hr by (unfold toRecord; simpl; by rewrite Hag).
    destruct (find_created i id row (intent_capabilities (session_tables d))) as [k Hk]; [by split_and!|exact E|]. split.
    + eapply (get_by_record row id); [|exact Hr]. apply lookup_insert_eq.
    + intros now2 uuid2. unfold mthen at 1, lift at 1. rewrite Hc. unfold mthen, getdb.
      change (intent_capabilities (session_tables (set_session_capabilities ?t d))) with t. rewrite Hk.
      assert (assertScope row (request_scope i c) (Some (hashIntentCapability sha256 locale_le c)) = Ok tt) as Ha
        by (unfold assertScope; simpl; by rewrite !bool_decide_true).
      unfold lift. by rewrite Ha, Hr.
Qed.
End Stored.

(** ** A request, its capability and its execution

    Create, bind, consume, consume again, and a second operation that meets the limit. *)

Definition tag_capability : IntentCapabilityV1 := tag_input.(auth_capability).
Definition tag_create : CreateIntentCapabilityInput :=
  {| create_workspaceId := u "w"; create_adminUserId := u "a"; create_sessionId := u "s"; create_requestId := u "q";
     create_id := None; authoredSource := demo_source; create_capability := tag_capability |}.
Definition tag_operation (request : string) : OperationRunRow :=
  {| binding :=
       {| request_id := Some (u request); confirmation_id := None; session_id := u "s"; workspace_id := u "w";
          admin_user_id := u "a"; action_name := u "clockify_tags_create"; action_fingerprint := u "f";
          catalog_hash := u "cat"; operation_hash := u "h"; capability_id := None; capability_hash := None;
          discriminator := v1DiscriminatorFromCapability None; run_created_at := 0 |};
     run_status := RunPrepared; run_result_id := None; operation_json := VObj []; reconciled_at := None;
     reconciliation_json := None; run_batch_id := None; run_updated_at := 0 |}.
Definition tag_db : db := set_runs {[ u "o1" := tag_operation "q"; u "o2" := tag_operation "q" ]} empty_db.
Definition tag_bind (op : string) : BindIntentCapabilityOperationInput :=
  {| bind_scope := request_scope tag_create tag_capability; bind_capabilityId := u "c1";
     bind_capabilityHash := hashIntentCapability constant_sha jstr_leb tag_capability;
     bind_operationId := u op; bind_confirmationId := None; bind_actionName := u "clockify_tags_create" |}.
Definition tag_scope (op : string) : IntentCapabilityOperationScope :=
  {| op_operationId := u op; op_workspaceId := u "w"; op_adminUserId := u "a"; op_sessionId := u "s";
     op_capabilityId := u "c1"; op_capabilityHash := hashIntentCapability constant_sha jstr_leb tag_capability;
     expectedCatalogHash := Some (u "cat"); expectedActionName := Some (u "clockify_tags_create") |}.

Definition tag_created : M IntentCapabilityRecord := createIntentCapability constant_sha jstr_leb tag_create 7 (u "c1").
Definition bind_tag (op : string) : M BindIntentCapabilityOperationResult := bindIntentCapabilityOperation constant_sha (tag_bind op).
Definition consume_tag (op : string) : M ConsumeIntentCapabilityExecutionResult :=
  consumeIntentCapabilityForOperation constant_sha jstr_leb (tag_scope op).

(** The state after a statement; the old one when it throws. *)
Definition after {A} (m : M A) (d : db) : db := match m d with Ok (_, d') => d' | Throw _ => d end.
Definition tag_db1 : db := after tag_created tag_db.
Definition tag_db2 : db := after (bind_tag "o2") (after (bind_tag "o1") tag_db1).
Definition tag_db3 : db := after (consume_tag "o1") tag_db2.

Example tag_consumed : fst <$> (match consume_tag "o1" tag_db2 with Ok x => Some x | Throw _ => None end) = Some (consumed 1).
Proof. by vm_compute. Qed.
(** The limit of the grant is one execution: the second operation is denied. *)
Example tag_limit : fst <$> (match consume_tag "o2" tag_db3 with Ok x => Some x | Throw _ => None end) = Some (consume_denied execution_limit).
Proof. by vm_compute. Qed.
Example tag_replayed : fst <$> (match consume_tag "o1" tag_db3 with Ok x => Some x | Throw _ => None end) = Some (consume_replay 1).
Proof. by vm_compute. Qed.

Lemma after_ok {A} (m : M A) d : (match m d with Ok _ => true | Throw _ => false end) = true → ∃ a, m d = Ok (a, after m d).
Proof. unfold after. destruct (m d) as [[a d']|]; [by exists a|done]. Qed.
Lemma after_value {A} (m : M A) d a :
  (match m d with Ok (x, _) => Some x | Throw _ => None end) = Some a → m d = Ok (a, after m d).
Proof. unfold after. destruct (m d) as [[x d']|]; [by intros [= ->]|done]. Qed.

Lemma create_step : intent_step constant_sha jstr_leb tag_db tag_db1.
Proof. destruct (after_ok tag_created tag_db) as [r H]; [by vm_compute|]. exact (step_create _ _ _ _ _ _ _ _ H). Qed.
Lemma bind_step op d : (match bind_tag op d with Ok _ => true | Throw _ => false end) = true →
  intent_step constant_sha jstr_leb d (after (bind_tag op) d).
Proof. intros [r H]%after_ok. exact (step_bind _ _ _ _ _ _ H). Qed.
Lemma consume_step op d : (match consume_tag op d with Ok _ => true | Throw _ => false end) = true →
  intent_step constant_sha jstr_leb d (after (consume_tag op) d).
Proof. intros [r H]%after_ok. exact (step_consume_operation _ _ _ _ _ _ H). Qed.

Lemma tag_steps : rtc (intent_step constant_sha jstr_leb) tag_db tag_db3.
Proof.
  apply (rtc_l _ _ tag_db1); [exact create_step|].
  apply (rtc_l _ _ (after (bind_tag "o1") tag_db1)); [apply bind_step; by vm_compute|].
  apply (rtc_l _ _ tag_db2); [apply bind_step; by vm_compute|].
  apply (rtc_l _ _ tag_db3); [apply consume_step; by vm_compute|]. apply rtc_refl.
Qed.

Lemma capability_ledger_witness :
  (length (usages tag_db3) = 1%nat) ∧
  ∃ n, limit_of constant_sha (u "c1") (u "clockify_tags_create") tag_db3 = Some n ∧
    Z.of_nat (usage_count (u "c1") (u "clockify_tags_create") (usages tag_db3)) ≤ n.
Proof.
  split; [by vm_compute|].
  destruct (capability_ledger constant_sha jstr_leb tag_db tag_db3 ltac:(by vm_compute) tag_steps) as (_ & _ & _ & H).
  apply (H {| usage_capability := u "c1"; usage_operation := u "o1"; usage_action := u "clockify_tags_create"; execution_index := 1 |}).
  apply (list_elem_of_lookup_2 _ 0). by vm_compute.
Defined.

Lemma consume_replays_witness :
  (length (usages tag_db2) = 0%nat) ∧
  ∃ d', consume_tag "o1" tag_db2 = Ok (consumed 1, d') ∧ consume_tag "o1" d' = Ok (consume_replay 1, d').
Proof.
  split; [by vm_compute|].
  assert (∃ d', consume_tag "o1" tag_db2 = Ok (consumed 1, d')) as [d' H] by (eexists; apply after_value; by vm_compute).
  exists d'. split; [exact H|]. unfold consume_tag in *. exact (consume_replays constant_sha jstr_leb (tag_scope "o1") tag_db2 1 d' H).
Defined.

Lemma tag_literals : literal_trees tag_capability.
Proof.
  assert (forallb (λ g, forallb (λ l, json_value l.(constraint_value) && unique_keys l.(constraint_value)) g.(literalConstraints))
    (writeActions tag_capability) = true) as H by by vm_compute.
  intros g Hg l Hl. rewrite forallb_elem in H. specialize (H g Hg). rewrite forallb_elem in H. by apply andb_true_iff, (H l).
Qed.

Lemma capability_stored_witness :
  (json_value (capability_value tag_capability) = true) ∧
  ∃ r d', tag_created tag_db = Ok (r, d') ∧ getIntentCapability constant_sha r.(record_id) r.(record_scope) d' = Ok (Some r, d') ∧
    createIntentCapability constant_sha jstr_leb tag_create 9 (u "c2") d' = Ok (r, d').
Proof.
  split; [by vm_compute|].
  destruct (after_ok tag_created tag_db) as [r H]; [by vm_compute|]. exists r, (after tag_created tag_db).
  split; [exact H|]. generalize dependent (after tag_created tag_db). intros d' H. unfold tag_created in H.
  destruct (capability_stored constant_sha jstr_leb tag_create 7 (u "c1") r tag_db d' tag_literals H) as [H1 H2].
  split; [exact H1|apply H2].
Defined.
