(* ===== verification/Clarifications.v ===== *)
(** * Pending clarifications

    [db/store/pending-clarifications.ts], with the store's compositions of it with the
    journal of a run ([resolveClarificationOption], [supersedeClarificationForNewRun] of
    [db/store.ts]) and its expiry ([db/store/retention.ts]): a question with exact options,
    claimed for work, and closed once.  A closed row keeps no argument and no candidate. *)
From S2P Require Import Prelude Js SafeJson ActionResults SessionTables RunTables Db Journal Store RunEvents RunStore RunLife.
Open Scope Z_scope.
#[local] Arguments u : simpl never.

Definition CLARIFICATION_TTL_MS : Z := 5 * 60 * 1000.

(** ** Data *)

Record ClarificationCandidate := { optionId : jstr; externalId : jstr; label : jstr }.
#[export] Instance candidate_dec : EqDecision ClarificationCandidate.
Proof. solve_decision. Defined.

Record CreatePendingClarificationInput := {
  new_scope : ClarificationScope;
  new_id : option jstr;
  new_tool : jstr;
  new_arguments : jsval;
  new_field : jstr;
  new_candidates : list ClarificationCandidate;
}.

Definition candidate_value (c : ClarificationCandidate) : jsval :=
  VObj [(u "optionId", VStr c.(optionId)); (u "externalId", VStr c.(externalId)); (u "label", VStr c.(label))].
Definition candidates_value (l : list ClarificationCandidate) : jsval := VArr (candidate_value <$> l).
(** [JSON.parse(row.candidates_json)] as candidates. *)
Definition candidate_of (v : jsval) : option ClarificationCandidate :=
  match prop (u "optionId") v, prop (u "externalId") v, prop (u "label") v with
  | VStr a, VStr b, VStr c => Some {| optionId := a; externalId := b; label := c |}
  | _, _, _ => None
  end.
Definition candidates_of (r : ClarificationRow) : list ClarificationCandidate :=
  match r.(candidates_json) with VArr l => omap candidate_of l | _ => [] end.

(** ** The table *)

Definition open_status (s : ClarificationStatus) : bool := match s with CPending | CResolving => true | _ => false end.
Definition is_open (r : ClarificationRow) : bool := open_status r.(clar_status).

(** The check that ties the columns to the status. *)
Definition status_shape (r : ClarificationRow) : bool :=
  let nothing := bool_decide (r.(selected_option_id) = None) && bool_decide (r.(clar_result_id) = None) &&
                 bool_decide (r.(clar_operation_id) = None) in
  let ended := bool_decide (is_Some r.(resolved_at)) in
  let why l := match r.(terminal_reason) with Some t => bool_decide (t ∈ l) | None => false end in
  match r.(clar_status) with
  | CPending | CResolving => nothing && bool_decide (r.(terminal_reason) = None) && bool_decide (r.(resolved_at) = None)
  | CResolved => bool_decide (is_Some r.(selected_option_id)) && why [selected_option] &&
                 bool_decide (is_Some r.(clar_result_id)) && ended
  | CContinued => nothing && why [free_text_continuation] && ended
  | CExpired => nothing && why [reason_expired] && ended
  | CCancelled => nothing && why [superseded; stale_replaced; user_cancelled] && ended
  end.

(** The triggers [pending_clarifications_terminal_scrub_insert] and [..._update]. *)
Definition scrubbed_row (r : ClarificationRow) : bool :=
  is_open r || (is_empty_object r.(partial_arguments) && is_empty_array r.(candidates_json)).

Definition sized (lo hi : Z) (s : jstr) : bool := (lo <=? Z.of_N (utf8_length s)) && (Z.of_N (utf8_length s) <=? hi).
Definition row_sizes (r : ClarificationRow) : bool :=
  sized 1 256 r.(original_tool_name) && sized 1 256 r.(missing_field) &&
  (jsonByteLength r.(partial_arguments) <=? 16384) && (jsonByteLength r.(candidates_json) <=? 16384).

(** The references: the run, the result and the operation belong to the row's scope. *)
Definition row_references (d : db) (r : ClarificationRow) : bool :=
  let s := r.(clar_scope) in
  run_in_scope d.(run_tables) s.(clar_session) s.(clar_run) s.(clar_workspace) s.(clar_admin) &&
  match r.(clar_result_id) with
  | None => true
  | Some a =>
      match d.(action_results) !! a with
      | Some x => bool_decide (x.(result_session_id) = Some s.(clar_session)) &&
                  bool_decide (x.(result_workspace_id) = s.(clar_workspace)) &&
                  bool_decide (x.(result_admin_user_id) = s.(clar_admin))
      | None => false
      end
  end &&
  match r.(clar_operation_id) with
  | None => true
  | Some o =>
      match d.(operation_runs) !! o with
      | Some x => bool_decide (x.(binding).(session_id) = s.(clar_session)) &&
                  bool_decide (x.(binding).(discriminator).(run_id) = Some s.(clar_run)) &&
                  bool_decide (x.(binding).(workspace_id) = s.(clar_workspace)) &&
                  bool_decide (x.(binding).(admin_user_id) = s.(clar_admin))
      | None => false
      end
  end.

Abbreviation clarifications d := (d.(session_tables).(pending_clarifications)).
Definition put_clarification (id : jstr) (r : ClarificationRow) (d : db) : db :=
  set_session_tables (set_clarifications (<[id := r]> (clarifications d)) d.(session_tables)) d.

(** [idx_pending_clarifications_one_active_per_run] *)
Definition same_run (a b : ClarificationScope) : bool :=
  bool_decide (a.(clar_session) = b.(clar_session)) && bool_decide (a.(clar_run) = b.(clar_run)).
Definition rival (id : jstr) (r : ClarificationRow) (d : db) : bool :=
  existsb (λ kv, negb (bool_decide (kv.1 = id)) && is_open kv.2 && same_run r.(clar_scope) kv.2.(clar_scope))
    (map_to_list (clarifications d)).

Definition row_ok (d : db) (r : ClarificationRow) : bool :=
  row_sizes r && status_shape r && scrubbed_row r && row_references d r.

Definition insert_clarification (id : jstr) (r : ClarificationRow) : M unit := λ d,
  if bool_decide (is_Some (clarifications d !! id)) || (is_open r && rival id r d) then Throw "clarification_already_active"
  else if row_ok d r then Ok (tt, put_clarification id r d) else Throw constraint_failed.

(** [UPDATE pending_clarifications SET ... WHERE id = ? AND p] *)
Definition update_clarification (id : jstr) (p : ClarificationRow → bool) (f : ClarificationRow → ClarificationRow)
    : M bool := λ d,
  match clarifications d !! id with
  | None => Ok (false, d)
  | Some r =>
      if p r then
        if (is_open (f r) && rival id (f r) d) || negb (row_ok d (f r)) then Throw constraint_failed
        else Ok (true, put_clarification id (f r) d)
      else Ok (false, d)
  end.

Definition in_status (s : ClarificationStatus) (r : ClarificationRow) : bool := bool_decide (r.(clar_status) = s).

(** What the updates write. *)
Definition with_open_status (s : ClarificationStatus) (now : Z) (r : ClarificationRow) : ClarificationRow :=
  {| clar_scope := r.(clar_scope); original_tool_name := r.(original_tool_name); partial_arguments := r.(partial_arguments);
     missing_field := r.(missing_field); candidates_json := r.(candidates_json); clar_status := s;
     selected_option_id := r.(selected_option_id); terminal_reason := r.(terminal_reason);
     clar_result_id := r.(clar_result_id); clar_operation_id := r.(clar_operation_id);
     clar_expires_at := r.(clar_expires_at); clar_created_at := r.(clar_created_at); clar_updated_at := now;
     resolved_at := r.(resolved_at) |}.
Definition closed_row (s : ClarificationStatus) (why : TerminalReason) (chosen result operation : option jstr) (now : Z)
    (r : ClarificationRow) : ClarificationRow :=
  {| clar_scope := r.(clar_scope); original_tool_name := r.(original_tool_name); partial_arguments := VObj [];
     missing_field := r.(missing_field); candidates_json := VArr []; clar_status := s;
     selected_option_id := chosen; terminal_reason := Some why; clar_result_id := result;
     clar_operation_id := operation; clar_expires_at := r.(clar_expires_at); clar_created_at := r.(clar_created_at);
     clar_updated_at := now; resolved_at := Some now |}.
(** A closing update that leaves the option, the result and the operation as they are. *)
Definition ended_row (s : ClarificationStatus) (why : TerminalReason) (now : Z) (r : ClarificationRow) : ClarificationRow :=
  closed_row s why r.(selected_option_id) r.(clar_result_id) r.(clar_operation_id) now r.

(** ** Operations *)

Definition assertScope (r : ClarificationRow) (s : ClarificationScope) : result unit :=
  let t := r.(clar_scope) in
  guard! bool_decide (t.(clar_session) = s.(clar_session)) else "clarification_session_drift" in
  guard! bool_decide (t.(clar_run) = s.(clar_run)) else "clarification_run_drift" in
  guard! bool_decide (t.(clar_workspace) = s.(clar_workspace)) else "clarification_workspace_drift" in
  guard! bool_decide (t.(clar_admin) = s.(clar_admin)) else "clarification_admin_drift" in
  Ok tt.

Definition scoped (id : jstr) (s : ClarificationScope) : M ClarificationRow :=
  do! d := getdb in
  match clarifications d !! id with
  | None => mthrow "clarification_not_found"
  | Some r => do! _ := lift (assertScope r s) in mreturn r
  end.
(** [toRecord(byId(id)!)]: the row is there. *)
Definition reread (id : jstr) : M ClarificationRow :=
  do! d := getdb in
  match clarifications d !! id with Some r => mreturn r | None => mthrow "clarification_not_found" end.

Definition createPendingClarification (i : CreatePendingClarificationInput) (now : Z) (uuid : jstr) : M (jstr * ClarificationRow) :=
  let id := default uuid i.(new_id) in
  let r := {| clar_scope := i.(new_scope); original_tool_name := i.(new_tool);
              partial_arguments := match i.(new_arguments) with VNull | VUndef => VObj [] | v => v end;
              missing_field := i.(new_field); candidates_json := candidates_value i.(new_candidates);
              clar_status := CPending; selected_option_id := None; terminal_reason := None; clar_result_id := None;
              clar_operation_id := None; clar_expires_at := now + CLARIFICATION_TTL_MS; clar_created_at := now;
              clar_updated_at := now; resolved_at := None |} in
  do! _ := insert_clarification id r in
  mreturn (id, r).

Definition getPendingClarification (id : jstr) (s : ClarificationScope) : M (option ClarificationRow) :=
  do! d := getdb in
  match clarifications d !! id with
  | None => mreturn None
  | Some r => do! _ := lift (assertScope r s) in mreturn (Some r)
  end.

Definition getActiveClarificationForRun (s : ClarificationScope) (d : db) : option (jstr * ClarificationRow) :=
  snd <$> list_find (λ kv, kv.2.(clar_scope) = s ∧ is_open kv.2 = true) (map_to_list (clarifications d)).

Definition claimClarificationResolving (id : jstr) (s : ClarificationScope) (now : Z) : M ClarificationRow :=
  do! r := scoped id s in
  require! in_status CPending r else "clarification_not_pending" in
  require! now <? r.(clar_expires_at) else "clarification_expired" in
  do! changed := update_clarification id (in_status CPending) (with_open_status CResolving now) in
  require! changed else "clarification_not_pending" in
  reread id.

Definition resetClarificationToPending (id : jstr) (s : ClarificationScope) (now : Z) : M ClarificationRow :=
  do! r := scoped id s in
  require! in_status CResolving r else "clarification_not_resolving" in
  require! now <? r.(clar_expires_at) else "clarification_expired" in
  do! changed := update_clarification id (in_status CResolving) (with_open_status CPending now) in
  require! changed else "clarification_not_resolving" in
  reread id.

Definition resolveClarificationWithOption (id : jstr) (s : ClarificationScope) (chosen result : jstr)
    (operation : option jstr) (now : Z) : M ClarificationRow :=
  do! r := scoped id s in
  require! in_status CResolving r else "clarification_not_resolving" in
  do! changed := update_clarification id (in_status CResolving)
                   (closed_row CResolved selected_option (Some chosen) (Some result) operation now) in
  require! changed else "clarification_not_resolving" in
  reread id.

(** [ClarificationCancelReason] *)
Inductive CancelReason : Set := cancel_superseded | cancel_stale_replaced | cancel_user_cancelled.
Definition reason_of (c : CancelReason) : TerminalReason :=
  match c with
  | cancel_superseded => superseded | cancel_stale_replaced => stale_replaced | cancel_user_cancelled => user_cancelled
  end.

(** The update has no guard of its own. *)
Definition cancelClarification (id : jstr) (s : ClarificationScope) (why : CancelReason) (now : Z) : M ClarificationRow :=
  do! r := scoped id s in
  require! is_open r else "clarification_not_active" in
  do! _ := update_clarification id (λ _, true) (ended_row CCancelled (reason_of why) now) in
  reread id.

Definition continueClarificationWithFreeText (id : jstr) (s : ClarificationScope) (now : Z) : M ClarificationRow :=
  do! r := scoped id s in
  require! in_status CPending r else "clarification_not_pending" in
  do! changed := update_clarification id (in_status CPending) (ended_row CContinued free_text_continuation now) in
  require! changed else "clarification_not_pending" in
  reread id.

(** *** The compositions of the store *)

Definition clarification_scope (x : AssistantRunScope) : ClarificationScope :=
  {| clar_session := x.(scope_session); clar_run := x.(scope_run); clar_workspace := x.(scope_workspace);
     clar_admin := x.(scope_admin) |}.
Definition no_continuation (s : RunState) (ph : RunBudget.RunPhase) : RunState :=
  state_with s ph continue_none s.(state_budget) s.(state_completed).

Definition resolveClarificationOption (id : jstr) (x : AssistantRunScope) (s : RunState) (chosen result : jstr)
    (operation : option jstr) (call action : jstr) (now : Z) : M (ClarificationRow * SequencedRunEvent) :=
  do! r := resolveClarificationWithOption id (clarification_scope x) chosen result operation now in
  do! e := completeToolWithEvent x (no_continuation s RunBudget.phase_model) call action result now in
  mreturn (r, e).

Definition supersedeClarificationForNewRun (id : jstr) (x : AssistantRunScope) (s : RunState) (now : Z)
    : M (ClarificationRow * SequencedRunEvent) :=
  do! r := cancelClarification id (clarification_scope x) cancel_superseded now in
  do! e := failRunWithEvent x (no_continuation s s.(state_phase)) (u "clarification_superseded") now in
  mreturn (r, e).

(** [addMessage] of a user's text, and [linkTurnMessage]. *)
Definition insert_message (m : MessageRow) : M unit := λ d,
  let t := d.(session_tables) in
  if existsb (λ r, bool_decide (r.(message_id) = m.(message_id))) t.(chat_messages) ||
     bool_decide (t.(chat_sessions) !! m.(message_session) = None)
  then Throw constraint_failed
  else Ok (tt, set_session_tables (set_messages (t.(chat_messages) ++ [m]) t) d).
Definition linkTurnMessage (session request : jstr) (role : ChatRole) (message : jstr) : M unit := λ d,
  let t := d.(session_tables) in
  match request, d.(run_tables).(turn_runs) !! (session, request) with
  | [], _ | _, None => Ok (tt, d)
  | _, Some _ =>
      if existsb (λ l, (bool_decide (l.(turn_link_session) = session) && bool_decide (l.(turn_link_request) = request) &&
                        bool_decide (l.(turn_link_role) = role)) || bool_decide (l.(turn_link_message) = message))
           t.(turn_message_links)
      then Throw constraint_failed
      else Ok (tt, set_session_tables (set_message_links (t.(turn_message_links) ++
             [{| turn_link_session := session; turn_link_request := request; turn_link_role := role;
                 turn_link_message := message |}]) t) d)
  end.

(** The last statement of a continuation: the run goes on whatever its phase was. *)
Definition continued_run (now : Z) (r : AssistantRunRow) : AssistantRunRow :=
  {| arun_workspace := r.(arun_workspace); arun_admin := r.(arun_admin); arun_generation := r.(arun_generation);
     arun_auth := r.(arun_auth); original_request := r.(original_request); arun_request_hash := r.(arun_request_hash);
     phase := RunBudget.phase_model; arun_catalog_hash := r.(arun_catalog_hash);
     loaded_tool_names := r.(loaded_tool_names); used_tool_names := r.(used_tool_names); continuation := continue_none;
     budget_json := r.(budget_json); unfinished_operations := r.(unfinished_operations);
     arun_created_at := r.(arun_created_at); arun_updated_at := now |}.

Definition continueClarificationWithFreeTextAndLink (id : jstr) (x : AssistantRunScope) (request content : jstr)
    (now : Z) (uuid : jstr) : M ClarificationRow :=
  do! r := continueClarificationWithFreeText id (clarification_scope x) now in
  do! _ := insert_request_link x request false in
  do! _ := insert_message
    {| message_id := uuid; message_session := x.(scope_session); message_workspace := x.(scope_workspace);
       message_admin := x.(scope_admin); message_role := role_user; message_content := content; message_payload := None;
       message_created_at := now; message_links := [] |} in
  do! _ := linkTurnMessage x.(scope_session) request role_user uuid in
  do! _ := update_arun x (λ _, true) (continued_run now) in
  mreturn r.

(** *** Expiry *)

(** One row of the sweep of [runRetention]. *)
Definition expire_clarification (id : jstr) (now : Z) : M bool :=
  update_clarification id (λ r, in_status CPending r && (r.(clar_expires_at) <=? now)) (ended_row CExpired reason_expired now).

(** ** The life of a question *)

(** The moves between statuses. *)
Inductive status_move : ClarificationStatus → ClarificationStatus → Prop :=
  | move_claim : status_move CPending CResolving
  | move_reset : status_move CResolving CPending
  | move_resolve : status_move CResolving CResolved
  | move_continue : status_move CPending CContinued
  | move_expire : status_move CPending CExpired
  | move_cancel s : open_status s = true → status_move s CCancelled.

(** A row moves: who asked what about which field, and until when, stays; the arguments and
    candidates stay while the question is open. *)
Record row_move (r r' : ClarificationRow) : Prop := {
  moved_status : status_move r.(clar_status) r'.(clar_status);
  moved_scope : r'.(clar_scope) = r.(clar_scope);
  moved_question : r'.(original_tool_name) = r.(original_tool_name) ∧ r'.(missing_field) = r.(missing_field);
  moved_times : r'.(clar_created_at) = r.(clar_created_at) ∧ r'.(clar_expires_at) = r.(clar_expires_at);
  moved_payload : is_open r' = true → r'.(partial_arguments) = r.(partial_arguments) ∧ r'.(candidates_json) = r.(candidates_json);
}.

Record sound_questions (d : db) : Prop := {
  sound_rows : ∀ id r, clarifications d !! id = Some r → status_shape r = true ∧ scrubbed_row r = true;
  sound_single : ∀ i j r q, clarifications d !! i = Some r → clarifications d !! j = Some q →
    is_open r = true → is_open q = true → same_run r.(clar_scope) q.(clar_scope) = true → i = j;
}.

Record questions_move (d d' : db) : Prop := {
  rows_persist : ∀ id r, clarifications d !! id = Some r → ∃ r', clarifications d' !! id = Some r' ∧ rtc row_move r r';
  stays_sound : sound_questions d → sound_questions d';
}.
#[export] Instance questions_move_preorder : PreOrder questions_move.
Proof.
  split.
  - intros d. split; [intros id r H; by exists r|done].
  - intros d1 d2 d3 [P1 S1] [P2 S2]. split; [|auto]. intros id r H. destruct (P1 id r H) as (r2 & H2 & R2).
    destruct (P2 id r2 H2) as (r3 & H3 & R3). exists r3. split; [done|by etrans].
Qed.

Lemma closed_stays r r' : is_open r = false → rtc row_move r r' → r' = r.
Proof.
  intros Hc H. destruct H as [|r q r' [Hm _ _ _ _] _]; [done|]. unfold is_open in Hc.
  inversion Hm as [E|E|E|E|E|s E1 E2]; rewrite <-?E in Hc; try done. congruence.
Qed.

Lemma put_lookup id r d j q :
  clarifications (put_clarification id r d) !! j = Some q ↔ (id = j ∧ r = q) ∨ (id ≠ j ∧ clarifications d !! j = Some q).
Proof. apply lookup_insert_Some. Qed.
Lemma same_run_sym a b : same_run a b = same_run b a.
Proof. unfold same_run. f_equal; apply bool_decide_ext; naive_solver. Qed.

Lemma put_sound id r d :
  is_open r && rival id r d = false → row_ok d r = true → sound_questions d → sound_questions (put_clarification id r d).
Proof.
  intros Hrival Hok [H1 H2].
  assert (∀ j q, clarifications d !! j = Some q → id ≠ j → is_open r = true → is_open q = true →
    same_run r.(clar_scope) q.(clar_scope) = true → False) as Hno.
  { intros j q Hj Hne Ho Hq Hs. rewrite Ho in Hrival. apply not_true_iff_false in Hrival. apply Hrival, existsb_exists.
    exists (j, q). split; [by apply list_elem_of_In, elem_of_map_to_list|].
    cbn [fst snd]. rewrite bool_decide_false by congruence. by rewrite Hq, Hs. }
  split.
  - intros j q [[<- <-]|[_ Hj]]%put_lookup; [|by eapply H1].
    unfold row_ok in Hok. by apply andb_true_iff in Hok as [[[_ ?]%andb_true_iff ?]%andb_true_iff _].
  - intros i j a b [[<- <-]|[Hi Ha]]%put_lookup [[<- <-]|[Hj Hb]]%put_lookup Oa Ob Hs; [done|..].
    + exfalso. by eapply (Hno j b).
    + exfalso. rewrite same_run_sym in Hs. by eapply (Hno i a).
    + by eapply H2.
Qed.

(** One row put back. *)
Lemma put_moves id r r' d :
  clarifications d !! id = Some r → row_move r r' → is_open r' && rival id r' d = false → row_ok d r' = true →
  questions_move d (put_clarification id r' d).
Proof.
  intros Hr Hm Hrival Hok. split; [|by apply put_sound]. intros j q Hj. destruct (decide (id = j)) as [<-|].
  - rewrite Hr in Hj. injection Hj as <-. exists r'. split; [apply put_lookup; auto|by apply rtc_once].
  - exists q. split; [apply put_lookup; auto|done].
Qed.

Class MovesQuestions {A} (m : M A) : Prop := questions_moved : ∀ d a d', m d = Ok (a, d') → questions_move d d'.

#[export] Instance asks_kept {A} (m : M A) : Keeps (λ d, clarifications d) m → MovesQuestions m.
Proof.
  intros H d a d' Hm. apply H in Hm. split.
  - intros id r Hr. exists r. by rewrite Hm.
  - intros [H1 H2]. split; setoid_rewrite Hm; auto.
Qed.
#[export] Instance asks_then {A B} (m : M A) (k : A → M B) :
  MovesQuestions m → (∀ a, MovesQuestions (k a)) → MovesQuestions (mthen m k).
Proof. intros Hm Hk d b d' (a & d1 & H1 & H2)%mthen_ok. etrans; [by eapply Hm|by eapply Hk]. Qed.
Lemma asks_if {A} (b : bool) (m1 m2 : M A) : MovesQuestions m1 → MovesQuestions m2 → MovesQuestions (if b then m1 else m2).
Proof. by destruct b. Qed.
Ltac solve_questions := repeat first [ apply _ | apply asks_then; [|intros ?] | apply asks_if | case_match ].

Lemma update_asks id p f : (∀ r, p r = true → row_move r (f r)) → MovesQuestions (update_clarification id p f).
Proof.
  intros Hf d b d'. unfold update_clarification. destruct (clarifications d !! id) as [r|] eqn:Er; [|by intros [= <- <-]].
  destruct (p r) eqn:Ep; [|by intros [= <- <-]]. destruct (_ || _) eqn:E; [done|]. intros [= <- <-].
  apply orb_false_iff in E as [E1 E2%negb_false_iff]. by eapply put_moves; eauto.
Qed.
Lemma insert_asks id r : MovesQuestions (insert_clarification id r).
Proof.
  intros d b d'. unfold insert_clarification. destruct (_ || _) eqn:E; [done|]. destruct (row_ok d r) eqn:Ok; [|done].
  intros [= _ <-]. apply orb_false_iff in E as [E1 E2]. apply bool_decide_eq_false in E1. split; [|by apply put_sound].
  intros j q Hj. exists q. split; [apply put_lookup; right; split; [|done]|done]. intros <-. apply E1. by exists q.
Qed.

(** The rows the operations write. *)
Lemma open_moves s s' now r :
  r.(clar_status) = s → status_move s s' → row_move r (with_open_status s' now r).
Proof. intros <- Hm. by split. Qed.
Lemma closed_moves s s' why chosen result op now r :
  r.(clar_status) = s → status_move s s' → open_status s' = false → row_move r (closed_row s' why chosen result op now r).
Proof. intros <- Hm Hc. split; try done. unfold is_open. simpl. congruence. Qed.

#[export] Instance keeps_scoped {T} (f : db → T) id s : Keeps f (scoped id s).
Proof. unfold scoped. solve_keeps. Qed.
#[export] Instance keeps_reread {T} (f : db → T) id : Keeps f (reread id).
Proof. unfold reread. solve_keeps. Qed.

Ltac question_update :=
  apply update_asks; intros ? ?%bool_decide_eq_true;
  first [ by eapply open_moves; [done|constructor] | by eapply closed_moves; [done|constructor|done] ].

#[export] Instance asks_create i now uuid : MovesQuestions (createPendingClarification i now uuid).
Proof. unfold createPendingClarification. apply asks_then; [apply insert_asks|solve_questions]. Qed.
#[export] Instance asks_claim id s now : MovesQuestions (claimClarificationResolving id s now).
Proof. unfold claimClarificationResolving. solve_questions. question_update. Qed.
#[export] Instance asks_reset id s now : MovesQuestions (resetClarificationToPending id s now).
Proof. unfold resetClarificationToPending. solve_questions. question_update. Qed.
#[export] Instance asks_resolve id s o a op now : MovesQuestions (resolveClarificationWithOption id s o a op now).
Proof. unfold resolveClarificationWithOption. solve_questions. question_update. Qed.
#[export] Instance asks_continue id s now : MovesQuestions (continueClarificationWithFreeText id s now).
Proof. unfold continueClarificationWithFreeText. solve_questions. question_update. Qed.
#[export] Instance asks_expire id now : MovesQuestions (expire_clarification id now).
Proof.
  unfold expire_clarification. apply update_asks. intros r [H _]%andb_true_iff. apply bool_decide_eq_true in H.
  by eapply closed_moves; [done|constructor|done].
Qed.
#[export] Instance asks_cancel id s why now : MovesQuestions (cancelClarification id s why now).
Proof.
  intros d a d'. unfold cancelClarification, scoped. intros H. minv.
  match goal with H : reread _ _ = Ok _ |- _ => pose proof (keeps (f := λ d, d) _ _ _ H) as -> end.
  match goal with H : clarifications _ !! _ = Some _ |- _ => rename H into Hr end.
  match goal with H : is_open _ = true |- _ => rename H into Ho end.
  unfold update_clarification in Hm0. rewrite Hr in Hm0. destruct (_ || _) eqn:E; [done|]. injection Hm0 as _ <-.
  apply orb_false_iff in E as [E1 E2%negb_false_iff]. eapply put_moves; [exact Hr| |done..].
  by eapply closed_moves; [done|constructor|done].
Qed.

#[export] Instance keeps_question_event {T} (f : db → T) `{!Ignores set_run_tables f} x s ph p now :
  Keeps f (commitStateEvent x s ph p now).
Proof. unfold commitStateEvent. solve_keeps. Qed.
#[export] Instance keeps_question_link {T} (f : db → T) `{!Ignores set_run_tables f} x r i : Keeps f (insert_request_link x r i).
Proof. intros d a d' H. unfold insert_request_link in H. cbv zeta in H. destruct (_ || _); [done|]. injection H as _ <-. apply (ignores (set := set_run_tables)). Qed.
#[export] Instance keeps_message m : Keeps (λ d, clarifications d) (insert_message m).
Proof. intros d a d' H. unfold insert_message in H. cbv zeta in H. destruct (_ || _); [done|]. by injection H as _ <-. Qed.
#[export] Instance keeps_link_message s r o m : Keeps (λ d, clarifications d) (linkTurnMessage s r o m).
Proof. intros d a d' H. unfold linkTurnMessage in H. cbv zeta in H. repeat case_match; simplify_eq; done. Qed.

#[export] Instance asks_resolve_option id x s o a op c n now : MovesQuestions (resolveClarificationOption id x s o a op c n now).
Proof. unfold resolveClarificationOption, completeToolWithEvent. solve_questions. Qed.
#[export] Instance asks_supersede id x s now : MovesQuestions (supersedeClarificationForNewRun id x s now).
Proof. unfold supersedeClarificationForNewRun, failRunWithEvent. solve_questions. Qed.
#[export] Instance asks_continue_link id x r c now uuid : MovesQuestions (continueClarificationWithFreeTextAndLink id x r c now uuid).
Proof. unfold continueClarificationWithFreeTextAndLink. solve_questions. Qed.

(** A step of the store on its questions, or a change elsewhere. *)
Inductive question_step : db → db → Prop :=
  | step_create i now uuid r d d' : createPendingClarification i now uuid d = Ok (r, d') → question_step d d'
  | step_claim id s now r d d' : claimClarificationResolving id s now d = Ok (r, d') → question_step d d'
  | step_reset id s now r d d' : resetClarificationToPending id s now d = Ok (r, d') → question_step d d'
  | step_resolve id x st o a op c n now r d d' :
      resolveClarificationOption id x st o a op c n now d = Ok (r, d') → question_step d d'
  | step_resolve_row id s o a op now r d d' : resolveClarificationWithOption id s o a op now d = Ok (r, d') → question_step d d'
  | step_cancel id s why now r d d' : cancelClarification id s why now d = Ok (r, d') → question_step d d'
  | step_supersede id x st now r d d' : supersedeClarificationForNewRun id x st now d = Ok (r, d') → question_step d d'
  | step_free_text id x q c now uuid r d d' :
      continueClarificationWithFreeTextAndLink id x q c now uuid d = Ok (r, d') → question_step d d'
  | step_expire id now b d d' : expire_clarification id now d = Ok (b, d') → question_step d d'
  | step_other d d' : clarifications d' = clarifications d → question_step d d'.

Lemma question_step_moves d d' : question_step d d' → questions_move d d'.
Proof.
  intros H. destruct H; try match goal with H : ?m ?d = Ok (?a, ?d') |- _ => exact (questions_moved (m := m) d a d' H) end.
  split; [intros id r Hr; exists r; split; [congruence|done]|]. intros [H1 H2]. split; rewrite H; auto.
Qed.

(** C14: The life of a question.  From sound tables, whatever requests the store serves and
    whatever the other stores do meanwhile: every question keeps its scope, its action, its
    field and its expiry, and moves only from pending to resolving and back, and from those
    to one of the four ends; one that has ended never changes again and keeps neither
    arguments nor candidates, and its columns agree with its end; a run has at most one
    open question. *)
Theorem question_life d0 d :
  sound_questions d0 → rtc question_step d0 d →
  sound_questions d ∧
  ∀ id r, clarifications d0 !! id = Some r → ∃ r', clarifications d !! id = Some r' ∧ rtc row_move r r' ∧
    (is_open r = false → r' = r).
Proof.
  intros H0 Hs. assert (questions_move d0 d) as [P S].
  { clear H0. induction Hs as [d|d1 d2 d3 H _ IH]; [done|]. etrans; [by apply question_step_moves|done]. }
  split; [by apply S|]. intros id r Hr. destruct (P id r Hr) as (r' & Hr' & Hm). exists r'. split; [done|].
  split; [done|]. intros Hc. by apply closed_stays.
Qed.
