(* ===== verification/ClarifyService.v ===== *)
(** * Answering a question by an exact option

    [services/clarification-service.ts]: the button of an option.  The question is claimed,
    the chosen option's identifier goes into the argument the question is about, and the
    read is made or the write prepared; the reads, the preparation and the runner are ports. *)
From S2P Require Import Prelude Js SafeJson ActionResults SessionTables RunTables Db Journal Store RunEvents RunStore RunLife Effects Workflow ToolSets RunModel Clarifications.
From S2P Require RunBudget.
Open Scope Z_scope.
#[local] Arguments u : simpl never.

(** What the service reads of an action: [apiOperation.access === "read"] and the schema. *)
Record ClarifiedAction := { is_api_read : bool; safeParse : jsval → option jsval }.

Record ClarificationServiceDeps (S : Type) := {
  clarify_registry : jstr → option ClarifiedAction;  (** [None] too without an [apiOperation] *)
  clarify_now : E S Z;
  clarify_uuid : E S jstr;
  reads_execute : ToolCall → AssistantRunScope → E S ReadExecutionOutcome;
  preparations_prepare : list ToolCall → AssistantRunScope → E S WritePreparationOutcome;
  runner_resume : AssistantRunScope → E S RunOutcome;
}.
Arguments clarify_registry {S}. Arguments clarify_now {S}. Arguments clarify_uuid {S}. Arguments reads_execute {S}.
Arguments preparations_prepare {S}. Arguments runner_resume {S}.

Record ResolveClarificationOptionInput := {
  answer_clarification : jstr;
  answer_scope : AssistantRunScope;
  answer_option : jstr;
}.
Inductive ResolveClarificationOptionResult : Type :=
| answer_outcome (o : RunOutcome)
| answer_refused (status : Z) (code : jstr) (message : jstr).

Definition refuse (status : Z) (code message : string) : ResolveClarificationOptionResult :=
  answer_refused status (u code) (u message).

(** The codes of [PendingClarificationStoreError]; any other error is [clarification_error]. *)
Definition STORE_CODES : list string :=
  ["clarification_not_found"; "clarification_session_drift"; "clarification_run_drift"; "clarification_workspace_drift";
   "clarification_admin_drift"; "clarification_not_pending"; "clarification_expired"; "clarification_already_active";
   "clarification_not_resolving"; "clarification_not_active"].
Definition store_code (e : failure) : jstr :=
  match e with
  | OtherError _ m => if bool_decide (m ∈ (u <$> STORE_CODES)) then m else u "clarification_error"
  | _ => u "clarification_error"
  end.
Definition mapClaimError (e : failure) : ResolveClarificationOptionResult :=
  let code := store_code e in
  if bool_decide (code = u "clarification_not_found") then answer_refused 404 code (u "No such pending clarification.")
  else if bool_decide (code = u "clarification_not_pending")
  then answer_refused 409 code (u "That clarification has already been resolved or is in progress.")
  else if bool_decide (code = u "clarification_expired") then answer_refused 410 code (u "That clarification has expired.")
  else answer_refused 403 code (u "That clarification does not belong to this session.").

(** [{ ...base, [missingField]: externalId }] *)
Definition base_fields (v : jsval) : list (jstr * jsval) :=
  match v with VArr l => imap (λ i x, (digits (N.of_nat i), x)) l | _ => spread_fields v end.
Definition filled_arguments (r : ClarificationRow) (c : ClarificationCandidate) : jsval :=
  VObj (fields_set r.(missing_field) (VStr c.(externalId)) (base_fields r.(partial_arguments))).

Definition find_candidate (option : jstr) (r : ClarificationRow) : Datatypes.option ClarificationCandidate :=
  snd <$> list_find (λ c, c.(optionId) = option) (candidates_of r).

Section Service.
Context {S : Type} `{!RunHost S} (deps : ClarificationServiceDeps S) (i : ResolveClarificationOptionInput).

Abbreviation id := (i.(answer_clarification)).
Abbreviation x := (i.(answer_scope)).
Definition claimScopeFor : ClarificationScope := clarification_scope x.

(** A transaction of the store, with one reading of the clock. *)
Definition store_do {A} (m : Z → M A) : E S A :=
  let* now := deps.(clarify_now) in
  λ s, match m now (run_db s) with
       | Ok (a, d) => (inr a, set_run_db d s)
       | Throw e => (inl (OtherError (u "Error") (u e)), s)
       end.

Definition safeResetToPending : E S unit :=
  etry (let* _ := store_do (resetClarificationToPending id claimScopeFor) in eret tt) (λ _, eret tt).

Definition give_back (r : ResolveClarificationOptionResult) : E S ResolveClarificationOptionResult :=
  let* _ := safeResetToPending in eret r.

Definition clarified_call (r : ClarificationRow) (arguments : jsval) : ToolCall :=
  {| call_id := u "clarification:" ++ id; call_name := r.(original_tool_name); call_arguments := arguments |}.

(** The code of a read that gave no result. *)
Definition read_refusal (o : ReadExecutionOutcome) : jstr :=
  match o with
  | read_denied code _ | read_validation_failed code _ | read_failed code _ => code
  | _ => u "clarification_still_ambiguous"
  end.
Definition resolve_read (r : ClarificationRow) (call : ToolCall) : E S ResolveClarificationOptionResult :=
  let* o := deps.(reads_execute) call x in
  match o with
  | read_succeeded result _ =>
      let* st := read_store (getRun x) in
      match st with
      | None => eret (refuse 404 "run_not_found" "That run is no longer active.")
      | Some st =>
          let* _ := store_do (resolveClarificationOption id x st i.(answer_option) result None call.(call_id) r.(original_tool_name)) in
          let* out := deps.(runner_resume) x in
          eret (answer_outcome out)
      end
  | _ => give_back (answer_refused 409 (read_refusal o) (u "The selected option could not be resolved."))
  end.

Definition prepare_refusal (o : WritePreparationOutcome) : jstr :=
  match o with
  | prepare_denied code _ => code
  | prepare_clarification _ _ => u "clarification_still_ambiguous"
  | _ => u "write_port_not_ready"
  end.

(** The result the question was journaled with, or a marker that is no success. *)
Definition asked_in (e : SequencedRunEvent) : option jstr :=
  match e.(sequenced_payload) with
  | clarification_required c a => if bool_decide (c = id) then Some a else None
  | _ => None
  end.
Definition asked_result (p : RunEventPage) : option jstr := head (omap asked_in p.(page_events)).
Definition clarify_marker : jsval :=
  VObj [(u "kind", VStr (u "clarify"));
        (u "message", VStr (u "The clarification resolved into a pending write awaiting confirmation."))].
Definition bound_result (r : ClarificationRow) : E S jstr :=
  let* page := store_do (λ _ d, match listEvents x 0 500 d with Ok p => Ok (p, d) | Throw e => Throw e end) in
  match asked_result page with
  | Some a => eret a
  | None =>
      let* uuid := deps.(clarify_uuid) in
      let* ref := store_do (λ now, recordActionResult None x.(scope_workspace) x.(scope_admin) (Some x.(scope_session))
                              r.(original_tool_name) definitive_failed clarify_marker now uuid) in
      eret ref.(ref_id)
  end.
Definition resolve_write (r : ClarificationRow) (call : ToolCall) : E S ResolveClarificationOptionResult :=
  let* o := deps.(preparations_prepare) [call] x in
  match o with
  | prepared operations confirmations _ =>
      let* result := bound_result r in
      let* _ := store_do (resolveClarificationWithOption id claimScopeFor i.(answer_option) result (head operations)) in
      let* n := read_store (getLastSequence x) in
      eret (answer_outcome (outcome_suspended x.(scope_run) n RunEvents.awaiting_confirmation
        (default (default x.(scope_run) (head operations)) (head confirmations)) []))
  | _ => give_back (answer_refused 409 (prepare_refusal o) (u "The selected option could not be prepared."))
  end.

(** Behind the claim. *)
Definition resolve_claimed (r : ClarificationRow) : E S ResolveClarificationOptionResult :=
  match find_candidate i.(answer_option) r with
  | None => give_back (refuse 400 "unknown_option" "That option is no longer available.")
  | Some c =>
      match deps.(clarify_registry) r.(original_tool_name) with
      | None => give_back (refuse 409 "action_unavailable" "That action is no longer available.")
      | Some a =>
          match a.(safeParse) (filled_arguments r c) with
          | None => give_back (refuse 400 "invalid_args" "The selected option no longer matches this action.")
          | Some arguments =>
              let call := clarified_call r arguments in
              if a.(is_api_read) then resolve_read r call else resolve_write r call
          end
      end
  end.

Definition resolveOption : E S ResolveClarificationOptionResult :=
  let* claim := eattempt (store_do (claimClarificationResolving id claimScopeFor)) in
  match claim with
  | inl e => eret (mapClaimError e)
  | inr r => resolve_claimed r
  end.
End Service.

(** ** What an answer did *)

Lemma scope_agrees r s t : assertScope r s = Ok t → r.(clar_scope) = s.
Proof.
  unfold assertScope. destruct r as [[a b c d] ? ? ? ? ? ? ? ? ? ? ? ? ?], s as [a2 b2 c2 d2]. simpl.
  repeat (case_bool_decide; [|done]). by subst.
Qed.
Lemma scope_asserted r : assertScope r r.(clar_scope) = Ok tt.
Proof. unfold assertScope. by rewrite !bool_decide_true. Qed.

Lemma update_effect id p f d b d' :
  update_clarification id p f d = Ok (b, d') →
  (b = true ∧ ∃ r, clarifications d !! id = Some r ∧ p r = true ∧ d' = put_clarification id (f r) d) ∨
  (b = false ∧ d' = d).
Proof.
  unfold update_clarification. destruct (clarifications d !! id) as [r|] eqn:E; [|intros [= <- <-]; auto].
  destruct (p r) eqn:Ep; [|intros [= <- <-]; auto]. destruct (_ || _); [done|]. intros [= <- <-]. left. split; [done|].
  by exists r.
Qed.
Lemma reread_put id r d r' d' : reread id (put_clarification id r d) = Ok (r', d') → r' = r ∧ d' = put_clarification id r d.
Proof.
  unfold reread. intros H. minv. match goal with H : _ !! _ = Some _ |- _ => apply put_lookup in H as [[_ <-]|[? _]]; done end.
Qed.

(** A guarded update of a scoped row. *)
Lemma claim_effect id s now d r' d' :
  claimClarificationResolving id s now d = Ok (r', d') →
  ∃ r, clarifications d !! id = Some r ∧ r.(clar_scope) = s ∧ r.(clar_status) = CPending ∧ now < r.(clar_expires_at) ∧
       r' = with_open_status CResolving now r ∧ d' = put_clarification id r' d.
Proof.
  unfold claimClarificationResolving, scoped. intros H. minv.
  match goal with H : update_clarification _ _ _ _ = Ok _ |- _ => apply update_effect in H as [(_ & r & Hr & Hp & ->)|[H ?]]; [|done] end.
  match goal with H : reread _ _ = Ok _ |- _ => apply reread_put in H as [-> ->] end.
  match goal with H : clarifications _ !! _ = Some ?q |- _ => rewrite H in Hr; injection Hr as <- end.
  eexists. split_and!; try done; [by eapply scope_agrees|by apply (bool_decide_eq_true _)|by apply Z.ltb_lt].
Qed.
Lemma reset_effect id s now d r' d' :
  resetClarificationToPending id s now d = Ok (r', d') →
  ∃ r, clarifications d !! id = Some r ∧ r.(clar_status) = CResolving ∧
       r' = with_open_status CPending now r ∧ d' = put_clarification id r' d.
Proof.
  unfold resetClarificationToPending, scoped. intros H. minv.
  match goal with H : update_clarification _ _ _ _ = Ok _ |- _ => apply update_effect in H as [(_ & r & Hr & Hp & ->)|[H ?]]; [|done] end.
  match goal with H : reread _ _ = Ok _ |- _ => apply reread_put in H as [-> ->] end.
  match goal with H : clarifications _ !! _ = Some ?q |- _ => rewrite H in Hr; injection Hr as <- end.
  eexists. split_and!; try done. by apply (bool_decide_eq_true _).
Qed.
Lemma resolve_effect id s o a op now d r' d' :
  resolveClarificationWithOption id s o a op now d = Ok (r', d') →
  ∃ r, clarifications d !! id = Some r ∧ r.(clar_scope) = s ∧
       r' = closed_row CResolved selected_option (Some o) (Some a) op now r ∧ d' = put_clarification id r' d.
Proof.
  unfold resolveClarificationWithOption, scoped. intros H. minv.
  match goal with H : update_clarification _ _ _ _ = Ok _ |- _ => apply update_effect in H as [(_ & r & Hr & Hp & ->)|[H ?]]; [|done] end.
  match goal with H : reread _ _ = Ok _ |- _ => apply reread_put in H as [-> ->] end.
  match goal with H : clarifications _ !! _ = Some ?q |- _ => rewrite H in Hr; injection Hr as <- end.
  eexists. split_and!; try done. by eapply scope_agrees.
Qed.

(** The chosen identifier, in the field the question is about and nowhere else. *)
Lemma filled_prop r c k :
  prop k (filled_arguments r c) =
  if decide (k = r.(missing_field)) then VStr c.(externalId) else prop k (VObj (base_fields r.(partial_arguments))).
Proof.
  unfold filled_arguments, prop. simpl. case_decide as E; [by rewrite E, fields_get_set_eq|by rewrite fields_get_set_ne].
Qed.

Section Answer.
Context {S : Type} `{!RunHost S} (deps : ClarificationServiceDeps S) (i : ResolveClarificationOptionInput).

Abbreviation id := (i.(answer_clarification)).
Abbreviation x := (i.(answer_scope)).
Definition question (s : S) : option ClarificationRow := clarifications (run_db s) !! id.

(** What the service relies on: clock and fresh ids change nothing, and no port touches the
    question that is being answered. *)
Record PortsKeepQuestion : Prop := {
  clock_pure : ∀ s, ∃ n, deps.(clarify_now) s = (inr n, s);
  uuid_pure : ∀ s, ∃ j, deps.(clarify_uuid) s = (inr j, s);
  reads_keep : ∀ c s r s', deps.(reads_execute) c x s = (r, s') → question s' = question s;
  prepare_keep : ∀ l s r s', deps.(preparations_prepare) l x s = (r, s') → question s' = question s;
  resume_keep : ∀ s r s', deps.(runner_resume) x s = (r, s') → question s' = question s;
}.
Context (Hports : PortsKeepQuestion).

(** A transaction either throws and changes nothing, or commits. *)
Lemma store_do_runs {A} (m : Z → M A) s : ∃ now,
  store_do deps m s = match m now (run_db s) with
                      | Ok (a, d) => (inr a, set_run_db d s)
                      | Throw e => (inl (OtherError (u "Error") (u e)), s)
                      end.
Proof. destruct (clock_pure Hports s) as [n Hn]. exists n. unfold store_do, ebind. by rewrite Hn. Qed.

(** A question that is not pending is refused, and nothing happens. *)
Lemma not_pending_refused s r :
  question s = Some r → r.(clar_scope) = clarification_scope x → r.(clar_status) ≠ CPending →
  resolveOption deps i s =
    (inr (answer_refused 409 (u "clarification_not_pending") (u "That clarification has already been resolved or is in progress.")), s).
Proof.
  intros Hr Hs Hp. unfold resolveOption, ebind, eattempt. destruct (store_do_runs (claimClarificationResolving id (claimScopeFor i)) s) as [now ->].
  unfold question in Hr. unfold claimClarificationResolving, scoped, mthen, getdb, lift, mreturn. rewrite Hr. unfold claimScopeFor. rewrite <-Hs, scope_asserted.
  unfold in_status. rewrite bool_decide_false by done. done.
Qed.

(** The tables behind a committed transaction. *)
Lemma store_do_ok {A} (m : Z → M A) s a s' :
  store_do deps m s = (inr a, s') → ∃ now d, m now (run_db s) = Ok (a, d) ∧ s' = set_run_db d s.
Proof.
  destruct (store_do_runs m s) as [now ->]. destruct (m now (run_db s)) as [[b d]|] eqn:E; [|done].
  intros [= <- <-]. by exists now, d.
Qed.
Lemma store_do_state {A} (m : Z → M A) s r s' :
  store_do deps m s = (r, s') → s' = s ∨ ∃ now a d, m now (run_db s) = Ok (a, d) ∧ s' = set_run_db d s.
Proof.
  destruct (store_do_runs m s) as [now ->]. destruct (m now (run_db s)) as [[b d]|] eqn:E; intros [= <- <-]; [right|by left].
  by exists now, b, d.
Qed.
Lemma question_set d s : question (set_run_db d s) = clarifications d !! id.
Proof. unfold question. by rewrite run_db_set. Qed.

Lemma put_question s r d : question (set_run_db (put_clarification id r d) s) = Some r.
Proof. rewrite question_set. apply put_lookup. by left. Qed.

(** The store refuses to put the row back to pending: it has expired, another question of
    its run is open, or what it refers to is gone. *)
Definition reset_refused (row : ClarificationRow) (later : Z) (d : db) : Prop :=
  let q := with_open_status CPending later row in
  row.(clar_expires_at) ≤ later ∨ rival id q d = true ∨ row_ok d q = false.

(** The claimed row is pending again, with what was asked; or it is held still, and the store
    refused to give it back just then. *)
Definition given_back (row : ClarificationRow) (s : S) : Prop :=
  (∃ later, question s = Some (with_open_status CPending later row)) ∨
  (question s = Some row ∧ ∃ later, deps.(clarify_now) s = (inr later, s) ∧ reset_refused row later (run_db s)).

Lemma reset_throws row now d e :
  clarifications d !! id = Some row → row.(clar_scope) = clarification_scope x → row.(clar_status) = CResolving →
  resetClarificationToPending id (clarification_scope x) now d = Throw e → reset_refused row now d.
Proof.
  intros Hr Hs Hst H. unfold resetClarificationToPending, scoped, mthen, getdb, lift, mreturn in H.
  rewrite Hr in H. rewrite <-Hs, scope_asserted in H. unfold in_status in H at 1. rewrite bool_decide_true in H by done.
  unfold reset_refused. cbv zeta. destruct (Z.ltb_spec now row.(clar_expires_at)); [right|by left].
  unfold update_clarification in H. rewrite Hr in H. unfold in_status in H. rewrite bool_decide_true in H by done.
  destruct (rival id _ d); [by left|]. destruct (row_ok d _); [|by right]. rewrite andb_false_r in H. simpl in H.
  unfold reread, mthen, getdb, mreturn in H. simpl in H. by rewrite lookup_insert_eq in H.
Qed.

Lemma gives_back s1 row ans r s' :
  question s1 = Some row → row.(clar_scope) = clarification_scope x → row.(clar_status) = CResolving →
  give_back deps i ans s1 = (r, s') → r = inr ans ∧ given_back row s'.
Proof.
  intros Hq Hs Hst. unfold give_back, safeResetToPending, store_do, ebind, etry, eret.
  destruct (clock_pure Hports s1) as [now Hn]. rewrite Hn.
  destruct (resetClarificationToPending _ _ now _) as [[row2 d]|e] eqn:E; intros [= <- <-]; (split; [done|]).
  - apply reset_effect in E as (r1 & Hr1 & _ & -> & ->). unfold question in Hq. rewrite Hr1 in Hq. injection Hq as ->.
    left. exists now. apply put_question.
  - right. split; [done|]. exists now. split; [done|]. by eapply reset_throws.
Qed.

(** *** A claimed question *)

Definition port_gave (read : bool) (call : ToolCall) (s1 s2 : S) : Prop :=
  if read then ∃ result m, deps.(reads_execute) call x s1 = (inr (read_succeeded result m), s2)
  else ∃ ops confs b, deps.(preparations_prepare) [call] x s1 = (inr (prepared ops confs b), s2).

(** The question is resolved with the option of this request. *)
Definition answered (s : S) : Prop :=
  ∃ r, question s = Some r ∧ r.(clar_status) = CResolved ∧ r.(selected_option_id) = Some i.(answer_option) ∧
       r.(clar_scope) = clarification_scope x ∧ r.(partial_arguments) = VObj [].

(** What a request may do to a claimed question: answer it behind the call, give it back, or
    (a read whose run is gone) leave it claimed. *)
Definition ends_well (row : ClarificationRow) (read : bool) (call : ToolCall) (s1 : S)
    (ans : ResolveClarificationOptionResult) (s' : S) : Prop :=
  match ans with
  | answer_refused _ code _ =>
      given_back row s' ∨
      (read = true ∧ code = u "run_not_found" ∧ question s' = Some row ∧ getRun x (run_db s') = None)
  | answer_outcome _ => (∃ s2, port_gave read call s1 s2) ∧ answered s'
  end.

Lemma answered_question s s' : answered s → question s' = question s → answered s'.
Proof. intros (r & H) E. exists r. by rewrite E. Qed.
Lemma resolved_answered {A} (m : Z → M A) s a s' :
  store_do deps m s = (inr a, s') →
  (∀ now d b d', m now d = Ok (b, d') → ∃ r res op r', clarifications d !! id = Some r ∧ r.(clar_scope) = clarification_scope x ∧
     r' = closed_row CResolved selected_option (Some i.(answer_option)) (Some res) op now r ∧ clarifications d' !! id = Some r') →
  answered s'.
Proof.
  intros H Hm. apply store_do_ok in H as (now & d & H & ->). destruct (Hm _ _ _ _ H) as (r & res & op & r' & Hr & Hs & -> & Hr').
  eexists. rewrite question_set, Hr'. by split_and!.
Qed.

Lemma read_ends row s1 r call ans s' :
  question s1 = Some row → row.(clar_scope) = clarification_scope x → row.(clar_status) = CResolving →
  resolve_read deps i r call s1 = (inr ans, s') → ends_well row true call s1 ans s'.
Proof.
  intros Ho Hs Hst. unfold resolve_read. unfold ebind at 1. destruct (reads_execute deps call x s1) as [[e|o] s2] eqn:E; [done|].
  assert (question s2 = Some row) as Ho2 by (rewrite <-Ho; by eapply reads_keep).
  destruct o as [result m|c a|c a|c a|c a].
  2-5: intros H; apply (gives_back _ row) in H as [[= ->] H]; [by left|done..].
  unfold ebind, read_store, eret. destruct (getRun x (run_db s2)) as [st|] eqn:Eg; [|by intros [= <- <-]; right].
  match goal with |- context [store_do deps ?m s2] => destruct (store_do deps m s2) as [[e|rr] s3] eqn:E3; [done|] end.
  destruct (runner_resume deps x s3) as [[e|out] s4] eqn:E4; [done|]. intros [= <- <-]. split.
  - exists s2. by exists result, m.
  - eapply answered_question; [|by eapply resume_keep]. eapply resolved_answered; [exact E3|].
    intros now d b d' H. unfold resolveClarificationOption in H. minv.
    match goal with H : resolveClarificationWithOption _ _ _ _ _ _ _ = Ok _ |- _ => apply resolve_effect in H as (q & Hq & Hsc & -> & ->) end.
    match goal with H : completeToolWithEvent _ _ _ _ _ _ _ = Ok _ |- _ => unfold completeToolWithEvent in H; apply (keeps (f := λ d, clarifications d)) in H end.
    eexists q, result, None, _. split_and!; try done. simpl in *. 
    rewrite Hm0. apply lookup_insert_eq.
Qed.

Lemma bound_keeps r s a s' : bound_result deps i r s = (inr a, s') → question s' = question s.
Proof.
  unfold bound_result. unfold ebind at 1.
  match goal with |- context [store_do deps ?m s] => destruct (store_do deps m s) as [[e|page] s2] eqn:E; [done|] end.
  apply store_do_ok in E as (now & d & E & ->). destruct (listEvents x 0 500 (run_db s)); [|done]. injection E as _ <-.
  rewrite set_run_db_same. destruct (asked_result _ _) as [y|]; [by intros [= <- <-]|].
  unfold ebind at 1. destruct (uuid_pure Hports s) as [j ->]. unfold ebind at 1.
  match goal with |- context [store_do deps ?m s] => destruct (store_do deps m s) as [[e|ref] s3] eqn:E2; [done|] end.
  intros [= _ <-]. apply store_do_ok in E2 as (now2 & d2 & E2 & ->). rewrite question_set. unfold question.
  assert (Keeps (λ d, clarifications d) (recordActionResult None (scope_workspace x) (scope_admin x) (Some (scope_session x))
    (original_tool_name r) definitive_failed (clarify_marker) now2 j)) as HK by (unfold recordActionResult; solve_keeps).
  apply HK in E2. by rewrite E2.
Qed.

Lemma write_ends row s1 r call ans s' :
  question s1 = Some row → row.(clar_scope) = clarification_scope x → row.(clar_status) = CResolving →
  resolve_write deps i r call s1 = (inr ans, s') → ends_well row false call s1 ans s'.
Proof.
  intros Ho Hs Hst. unfold resolve_write. unfold ebind at 1. destruct (preparations_prepare deps [call] x s1) as [[e|o] s2] eqn:E; [done|].
  assert (question s2 = Some row) as Ho2 by (rewrite <-Ho; by eapply prepare_keep).
  destruct o as [ops confs b|c a|c a|a].
  2-4: intros H; apply (gives_back _ row) in H as [[= ->] H]; [by left|done..].
  unfold ebind at 1. destruct (bound_result deps i r s2) as [[e|a] s3] eqn:E3; [done|].
  unfold ebind, read_store, eret.
  match goal with |- context [store_do deps ?m s3] => destruct (store_do deps m s3) as [[e|rr] s4] eqn:E4; [done|] end.
  intros [= <- <-]. split.
  - exists s2. by exists ops, confs, b.
  - eapply resolved_answered; [exact E4|]. intros now d q d' H. apply resolve_effect in H as (q2 & Hq & Hsc & -> & ->).
    eexists q2, a, (head ops), _. split_and!; try done. apply put_lookup. by left.
Qed.

(** A refusal behind the claim: the question is pending again with what was asked; or it is
    claimed still, because the store refused to give it back, or because the run of a read
    that succeeded is gone. *)
Definition refused_after_claim (s : S) (code : jstr) (s' : S) : Prop :=
  ∃ r now, question s = Some r ∧ r.(clar_scope) = clarification_scope x ∧ r.(clar_status) = CPending ∧
    now < r.(clar_expires_at) ∧
    ((∃ later, question s' = Some (with_open_status CPending later r)) ∨
     question s' = Some (with_open_status CResolving now r) ∧
       ((∃ later, deps.(clarify_now) s' = (inr later, s') ∧
           reset_refused (with_open_status CResolving now r) later (run_db s')) ∨
        code = u "run_not_found" ∧ getRun x (run_db s') = None ∧
          (is_api_read <$> deps.(clarify_registry) r.(original_tool_name)) = Some true)).

(** C13: An option answers a question once, with its own identifier.  Over ports that leave
    the question alone, whenever [resolveOption] answers with an outcome: the question was
    pending, in exactly this scope and not expired; the option is one of its stored
    candidates; the read made or the write prepared - while the question was held as
    resolving, so that any other request for it is refused - had as arguments what the
    action's schema makes of the stored arguments with that candidate's identifier in the
    field the question is about; the question is resolved with the option, and every later
    request for it, whatever happens in between, is refused and changes nothing.  A refusal
    either comes from the claim, and nothing has happened; or the question had been claimed:
    then it is pending again with what was asked, except that it stays claimed (so that
    every later click on it is refused) when the store refuses at that moment to put it back,
    because it has expired, another question of its run is open or what it refers to is
    gone, and when a read has succeeded but its run is gone, where the code does not give it
    back at all. *)
Theorem option_answered_once s ans s' :
  resolveOption deps i s = (inr ans, s') →
  match ans with
  | answer_outcome _ =>
      (∃ r c a arguments now s1, question s = Some r ∧ r.(clar_scope) = clarification_scope x ∧ r.(clar_status) = CPending ∧
         now < r.(clar_expires_at) ∧ c ∈ candidates_of r ∧ c.(optionId) = i.(answer_option) ∧
         deps.(clarify_registry) r.(original_tool_name) = Some a ∧ a.(safeParse) (filled_arguments r c) = Some arguments ∧
         (∀ k, prop k (filled_arguments r c) =
               if decide (k = r.(missing_field)) then VStr c.(externalId) else prop k (VObj (base_fields r.(partial_arguments)))) ∧
         question s1 = Some (with_open_status CResolving now r) ∧
         ∃ s2, port_gave a.(is_api_read) (clarified_call i r arguments) s1 s2) ∧
      answered s' ∧
      ∀ s2, questions_move (run_db s') (run_db s2) →
        resolveOption deps i s2 = (inr (answer_refused 409 (u "clarification_not_pending")
          (u "That clarification has already been resolved or is in progress.")), s2)
  | answer_refused _ code _ =>
      (s' = s ∧ ∃ later e, deps.(clarify_now) s = (inr later, s) ∧
         claimClarificationResolving id (clarification_scope x) later (run_db s) = Throw e ∧
         ans = mapClaimError (OtherError (u "Error") (u e))) ∨
      refused_after_claim s code s'
  end.
Proof.
  unfold resolveOption at 1, ebind, eattempt.
  destruct (store_do deps _ s) as [[e|row] s1] eqn:Ec.
  - intros [= <- <-]. unfold store_do, ebind in Ec. destruct (clock_pure Hports s) as [now Hn]. rewrite Hn in Ec.
    destruct (claimClarificationResolving _ _ now _) as [[]|e2] eqn:E; [done|]. injection Ec as <- <-.
    assert (∃ st code msg, mapClaimError (OtherError (u "Error") (u e2)) = answer_refused st code msg) as (st & code & msg & Em)
      by (unfold mapClaimError; repeat case_bool_decide; by do 3 eexists).
    rewrite Em. left. split; [done|]. by exists now, e2.
  - apply store_do_ok in Ec as (now & d & Hc & ->). apply claim_effect in Hc as (r & Hr & Hs & Hst & Hexp & -> & ->).
    set (s1 := set_run_db _ s). set (row := with_open_status CResolving now r).
    assert (question s1 = Some row) as Hq1 by apply put_question.
    assert (∀ code, given_back row s' ∨
        (code = u "run_not_found" ∧ question s' = Some row ∧ getRun x (run_db s') = None ∧
          (is_api_read <$> deps.(clarify_registry) r.(original_tool_name)) = Some true) →
      refused_after_claim s code s') as Href.
    { intros code Hb. exists r, now. do 4 (split; [done|]).
      destruct Hb as [[[later Hb]|[Hb Hl]]|(-> & Hb & Hg & Ha)]; [left; by exists later|right; auto..]. }
    intros H. unfold resolve_claimed in H. destruct (find_candidate (answer_option i) row) as [c|] eqn:Ef.
    2: { apply (gives_back _ row) in H as [[= ->] H]; [|done..]. right. by apply Href; left. }
    destruct (clarify_registry deps (original_tool_name row)) as [a|] eqn:Ea.
    2: { apply (gives_back _ row) in H as [[= ->] H]; [|done..]. right. by apply Href; left. }
    destruct (safeParse a (filled_arguments row c)) as [arguments|] eqn:Ep.
    2: { apply (gives_back _ row) in H as [[= ->] H]; [|done..]. right. by apply Href; left. }
    assert (ends_well row (is_api_read a) (clarified_call i r arguments) s1 ans s') as Hend
      by (destruct (is_api_read a); [by eapply read_ends|by eapply write_ends]).
    destruct ans as [o|st code msg].
    2: { right. apply Href. destruct Hend as [Hb|(Hread & Hc & Hq & Hg)]; [by left|right].
         simpl in Ea. rewrite Ea. simpl. by rewrite Hread. }
    destruct Hend as [Hp Hans].
    unfold find_candidate in Ef. destruct (list_find _ _) as [[n c']|] eqn:El; [|done]. injection Ef as ->.
    apply list_find_Some in El as (Hl & Hid & _). split; [|split; [done|]].
    + exists r, c, a, arguments, now, s1. split_and!; try done; [by eapply list_elem_of_lookup_2|apply filled_prop].
    + intros s2 Hm. destruct Hans as (q & Hq & Hcl & _ & Hsc & _). destruct (rows_persist _ _ Hm _ _ Hq) as (q2 & Hq2 & Hrm).
      assert (q2 = q) as -> by (eapply closed_stays; [|exact Hrm]; unfold is_open; by rewrite Hcl).
      eapply not_pending_refused; [exact Hq2|done|congruence].
Qed.
End Answer.

(** ** A question and its button *)

Section Demo.

#[local] Instance db_host : RunHost db.
Proof. refine {| run_db := λ d, d; set_run_db d _ := d |}; done. Defined.

Definition asker : AssistantRunScope :=
  {| scope_session := u "s"; scope_run := u "r"; scope_workspace := u "w"; scope_admin := u "a"; scope_generation := 1;
     scope_auth := addon |}.
Definition asker_start : StartAssistantRunInput :=
  {| start_scope := asker; start_request := u "list my projects"; start_request_hash := replicate 64 97%N;
     start_catalog := replicate 64 98%N; start_loaded := []; start_intent := replicate 64 99%N; start_request_id := None |}.
Definition which_client : CreatePendingClarificationInput :=
  {| new_scope := clarification_scope asker; new_id := Some (u "q1"); new_tool := u "list_projects";
     new_arguments := VObj [(u "archived", VBool false)]; new_field := u "clientId";
     new_candidates := [{| optionId := u "c1"; externalId := u "c1"; label := u "Acme" |};
                        {| optionId := u "c2"; externalId := u "c2"; label := u "Acme Ltd" |}] |}.

(** The state after a statement; the old one when it throws. *)
Definition behind {A} (m : M A) (d : db) : db := match m d with Ok (_, d') => d' | Throw _ => d end.
Definition read_result : ActionResultRow :=
  {| result_operation_id := None; result_workspace_id := u "w"; result_admin_user_id := u "a";
     result_session_id := Some (u "s"); result_action_name := u "list_projects"; result_kind := succeeded;
     result_json := VNull; summary_json := VNull; result_created_at := 1 |}.
Definition asked_db : db :=
  behind (createPendingClarification which_client 2 (u "x"))
    (behind (startRunWithEvent asker_start 1) (set_results {[ u "a1" := read_result ]} empty_db)).

(** The read answers only for the client [c2], the runner with the end of the run. *)
Definition demo_ports : ClarificationServiceDeps db :=
  {| clarify_registry n := if bool_decide (n = u "list_projects") then Some {| is_api_read := true; safeParse := Some |} else None;
     clarify_now := eret 5; clarify_uuid := eret (u "x");
     reads_execute c _ := eret (match prop (u "clientId") c.(call_arguments) with
                                | VStr s => if bool_decide (s = u "c2") then read_succeeded (u "a1") None
                                            else read_failed (u "no_such_client") None
                                | _ => read_failed (u "no_client") None
                                end);
     preparations_prepare _ _ := eret (prepare_not_ready (u "x"));
     runner_resume x := eret (outcome_completed x.(scope_run) 3 [] None) |}.

Definition pick (option : string) : ResolveClarificationOptionInput :=
  {| answer_clarification := u "q1"; answer_scope := asker; answer_option := u option |}.
Definition picked (option : string) : (failure + ResolveClarificationOptionResult) * db :=
  resolveOption demo_ports (pick option) asked_db.

Lemma demo_ports_keep o : PortsKeepQuestion demo_ports (pick o).
Proof. split; try (intros s; by eexists); intros *; intros [= <- <-]; done. Qed.

(** The other option fails and the question can still be answered; so does an unknown one. *)
Example wrong_option_refused :
  (picked "c1").1 = inr (answer_refused 409 (u "no_such_client") (u "The selected option could not be resolved.")) ∧
  (clar_status <$> question (pick "c1") (picked "c1").2) = Some CPending.
Proof. by vm_compute. Qed.
Example unknown_option_refused :
  (picked "c9").1 = inr (refuse 400 "unknown_option" "That option is no longer available.").
Proof. by vm_compute. Qed.

Lemma option_answered_once_witness :
  (picked "c2").1 = inr (answer_outcome (outcome_completed (u "r") 3 [] None)) ∧
  answered (pick "c2") (picked "c2").2 ∧
  resolveOption demo_ports (pick "c2") (picked "c2").2 =
    (inr (answer_refused 409 (u "clarification_not_pending")
       (u "That clarification has already been resolved or is in progress.")), (picked "c2").2).
Proof.
  assert ((picked "c2").1 = inr (answer_outcome (outcome_completed (u "r") 3 [] None))) as E by by vm_compute.
  split; [exact E|]. destruct (picked "c2") as [r s'] eqn:Ep. simpl in E |- *. subst r.
  destruct (option_answered_once demo_ports (pick "c2") (demo_ports_keep "c2") asked_db _ s' Ep) as (_ & H & Hlater).
  split; [exact H|]. apply Hlater. reflexivity.
Defined.

Lemma sound_empty d : clarifications d = ∅ → sound_questions d.
Proof. intros E. split; intros *; rewrite E; by intros ?%lookup_empty_Some. Qed.
Lemma behind_ok {A} (m : M A) d : (match m d with Ok _ => true | Throw _ => false end) = true → ∃ a, m d = Ok (a, behind m d).
Proof. unfold behind. destruct (m d) as [[a d']|]; [by exists a|done]. Qed.

Definition started_db : db := behind (startRunWithEvent asker_start 1) (set_results {[ u "a1" := read_result ]} empty_db).
Definition claimed_db : db := behind (claimClarificationResolving (u "q1") (clarification_scope asker) 5) asked_db.
Definition cancelled_db : db := behind (cancelClarification (u "q1") (clarification_scope asker) cancel_user_cancelled 6) claimed_db.

Lemma demo_steps : rtc question_step started_db cancelled_db.
Proof.
  assert (question_step started_db asked_db) as H1.
  { destruct (behind_ok (createPendingClarification which_client 2 (u "x")) started_db) as [r H]; [by vm_compute|].
    exact (step_create _ _ _ _ _ _ H). }
  assert (question_step asked_db claimed_db) as H2.
  { destruct (behind_ok (claimClarificationResolving (u "q1") (clarification_scope asker) 5) asked_db) as [r H]; [by vm_compute|].
    exact (step_claim _ _ _ _ _ _ H). }
  assert (question_step claimed_db cancelled_db) as H3.
  { destruct (behind_ok (cancelClarification (u "q1") (clarification_scope asker) cancel_user_cancelled 6) claimed_db) as [r H]; [by vm_compute|].
    exact (step_cancel _ _ _ _ _ _ _ H). }
  apply (rtc_l _ _ asked_db _ H1). apply (rtc_l _ _ claimed_db _ H2). apply (rtc_l _ _ cancelled_db _ H3). apply rtc_refl.
Qed.

Lemma question_life_witness :
  (clar_status <$> clarifications cancelled_db !! u "q1") = Some CCancelled ∧ sound_questions cancelled_db.
Proof.
  split; [by vm_compute|].
  exact (proj1 (question_life started_db cancelled_db (sound_empty started_db ltac:(by vm_compute)) demo_steps)).
Defined.

(** ** A run that has failed *)

(** A continuation in free text does not look at the phase of the run: the question of a run
    that failed stays pending, and answering it puts the run back to work. *)
Definition failed_db : db :=
  let d := set_session_tables (set_chat_sessions {[ u "s" := {| chat_workspace := u "w"; chat_admin := u "a"; chat_created_at := 0;
             chat_last_seen_at := 0; chat_expires_at := 99 |} ]} asked_db.(session_tables)) asked_db in
  let d := behind (insert_turn (u "s") (u "m") (prepared_turn (u "w") (u "a") (replicate 64 99%N) 3)) d in
  match getRun asker d with
  | Some st => behind (failRunWithEvent asker st (u "internal_error") 4) d
  | None => d
  end.
Example failed_run_continued :
  (phase <$> scoped_run asker failed_db) = Some RunBudget.phase_failed ∧
  (phase <$> scoped_run asker (behind (continueClarificationWithFreeTextAndLink (u "q1") asker (u "m") (u "the second") 5 (u "t1")) failed_db)) =
    Some RunBudget.phase_model.
Proof. by vm_compute. Qed.

(** A question held as resolving is never expired by the sweep. *)
Example resolving_never_expires :
  let d := behind (claimClarificationResolving (u "q1") (clarification_scope asker) 5) asked_db in
  ∀ now, expire_clarification (u "q1") now d = Ok (false, d).
Proof. intros d now. vm_compute. done. Qed.
End Demo.
